(* ===== verification/_CoqProject ===== *)
-Q . S2P
Prelude.v
Error.v
Mask.v
Utf8.v
Frame.v
FrameSpec.v
Protocol.v
ReceiveSpec.v
ProtocolSpec.v
ProtocolProps.v
NextSpec.v
PubSub.v
PubSubSpec.v
Cork.v
Heartbeat.v
Output.v
Stream.v
Deflate.v
Inflate.v
Queue.v
Mpmc.v
Header.v
Handshake.v
HandshakeSpec.v
RequestSpec.v
HandshakeWitness.v
Compressed.v
CompressedSpec.v
DeflateCodec.v
CodecWitness.v
Config.v
WebSocket.v
Scripted.v
StreamSpec.v
StreamProps.v
Pool.v
Buffers.v
ReceiveWindow.v
Split.v
SplitReader.v
SplitSpec.v
SplitWire.v
SplitOrder.v
SplitSend.v
SplitReaderSpec.v
SplitProps.v
SplitPeer.v
SplitReceive.v
SplitTheorems.v
CompressedStream.v
CompressedStreamSpec.v
CompressedStreamProps.v
HttpStream.v
HttpStreamSpec.v
HttpTheorems.v
Uring.v
UringSpec.v
UringTheorems.v
Compio.v
CompioSpec.v
CompioNext.v
CompioTheorems.v
CompioConnect.v
CompioSplit.v
CompioSplitSpec.v
CompioSplitReader.v
CompioSplitEnd.v
CompioSplitTheorems.v
HttpConfig.v
ExtendedConnect.v
Connect.v
ConnectSpec.v
ConnectWitness.v
CompioHttp.v
Axum.v
AxumSpec.v
