(* ===== verification/Prelude.v ===== *)
(** * A verification library for sockudo-ws

    sockudo-ws is a WebSocket library.  A connection is built from layers, each
    of which is a file or two here; [src/src/...] is where the code is.

    - Bytes from the transport are cut into frames by a resumable parser
      ([frame.rs], [FrameParser]), which unmasks payloads with vector kernels
      ([simd.rs]) as they arrive.
    - The protocol handler ([protocol.rs], [Protocol]) turns frames into messages:
      it reassembles fragments, validates text as UTF-8 while it is still
      incomplete ([utf8.rs], [Utf8Stream]), enforces the size limits and keeps the
      state of the closing handshake.  It also encodes messages.
    - The output of a stream ([stream/websocket.rs], [UnifiedOutput]) is queued in a cork
      buffer ([cork.rs]) and drained over the transport by either half of the
      stream; the heartbeat ([heartbeat.rs]) decides when to ping and when to give up.
    - A connection starts with the HTTP upgrade ([handshake.rs]), which may negotiate permessage-deflate ([deflate.rs]); the
      compressed variants of the protocol handler then compress and expand whole messages.
    - A stream can be split ([stream/websocket.rs], [split]) into a reading and a writing handle, which share the transport
      ([stream/split_transport.rs]) with a driver task that writes the automatic frames.
    - The publish/subscribe registry ([pubsub.rs]) sends messages to the channels
      of a topic's subscribers; messages pass between threads through lock-free queues ([queue.rs]).
    - The transport under a stream is a socket, one request of an HTTP/2 or HTTP/3 connection ([http2/], [http3/], [stream/transport_stream.rs]) opened by extended CONNECT
      ([extended_connect.rs]), or an io_uring socket ([io_uring/]); [client.rs], [server.rs] and [multiplex.rs] open connections and hand over the stream.
    - [compio.rs] has the same streams, handshakes, clients and servers as async functions on compio's completion-based runtime.
      [axum_integration.rs] opens a stream from a request of the axum framework.

    ** Files

    - [Prelude]: machine integers as [Z], byte strings as [list Z], slices ([upto], [from]), the
      outcome type [run] (a state with a value or an error, a panic, or no fuel), automation.
    - [Error]: [error.rs].  [Mask]: [simd.rs], [mask.rs] and the masked copies of [frame.rs].
    - [Utf8]: [utf8.rs].
    - [Frame]: the types, encoders and parser of [frame.rs].  [FrameSpec]: a stateless
      reference parser [spec_parse] and the refinement of the real one.
    - [Protocol]: [protocol.rs] without compression.  The read loop is written once, as
      [receive_step] over the record [Receiver], and used for typed and raw messages.
    - [ReceiveSpec]: the reference receiver [ref_run] over whole frames, and the class
      [Follows], which states what a message layer owes the read loop.  [ProtocolSpec]
      gives its instances for the typed and the raw handlers.  [ProtocolProps]: mixed
      calls, the close state machine, two endpoints.  [NextSpec]: the one-message reader.
    - [PubSub]: [pubsub.rs].  [PubSubSpec]: the two-index invariant and the abstract registry.
    - [Cork]: [cork.rs].  [Heartbeat]: [heartbeat.rs].  [Output]: [UnifiedOutput] and [HalfWakers]
      of [stream/websocket.rs] over the class [Transport].  [Stream]: the encoding part of
      [start_send], and the end-to-end theorem.
    - [Config]: the configuration of [lib.rs] and its builder.  [WebSocket]: the message stream of [stream/websocket.rs] as the state machine its
      [poll_next], sink operations and [close] are, over the class [Runtime] (reads, shutdown, clock, timers).  One turn of the loop of [poll_next] is
      [top] or [reading], cut into the parts the code has.  [Scripted]: a transport and clock that play a script.  [StreamSpec]: the invariant, and what each operation
      does to it.  [StreamProps]: its consequences for every sequence of operations ([reachable]).
    - [Split]: the writing handle, the driver task and what the tasks share, as a transition system: a step is one access to shared state of one task, [step] and
      [steps] interleave them in any order, and labels carry what the outside decides.  [SplitReader]: both reading handles, and [split].  [SplitSpec]: the interfaces
      [ReaderSpec] and [EncoderSpec], under which the invariants of the system are proved, and the base invariant ([base]: lock, transport, channel).  [SplitReaderSpec]: both handles keep
      to the interface.  [SplitWire]: frames are not torn.  [SplitOrder]: nothing after a Close.  [SplitSend]: what an [Ok] of [send] means.  [SplitProps]: panics, and that the driver
      ends.  [SplitPeer]: what the other endpoint receives.  [SplitReceive]: what [next] returns.  [SplitTheorems]: the theorems, and runs.
    - [Deflate]: negotiation in [deflate.rs] (offers, policy, answer).  [Inflate]: [DeflateDecoder::decompress] over
      the classes [Zlib] and [Alloc].
    - [Compressed]: [CompressedProtocol] and its reading and writing halves over the class [Codec].  [CompressedSpec]: their reference
      receiver and the instances of [Follows]; the classes [CodecTotal] and [CodecSync] say what the handlers rely on.  [DeflateCodec]:
      [DeflateEncoder], and the instances that discharge those classes with the encoder and the decoder.  [CodecWitness]:
      a concrete codec.
    - [Pool]: [compression.rs]: contexts of every compression mode, and the pool of encoders that connections share, over the class [CodecFresh].
    - [Buffers]: the buffers and their pool of [io_uring/buffer.rs].  [ReceiveWindow]: [stream/receive_window.rs].
    - [Queue]: [SpscQueue], [Mpmc]: [MpmcQueue], one access of shared memory per step.
    - [Header]: the field grammar of [handshake.rs].  [Handshake]: requests, responses and both handshake loops over the classes [Httparse],
      [Base64], [Sha1] and [UriParser].  [HandshakeSpec]: contracts of those, building and parsing, the two endpoints.
      [RequestSpec]: what [parse_request] accepts.  [HandshakeWitness]: concrete parsers.
    - [CompressedStream]: [CompressedWebSocketStream] of [stream/websocket.rs].  [CompressedStreamSpec]: its invariant against the reference receiver of [CompressedSpec].
      [CompressedStreamProps]: the theorems, and two compressed streams connected.
    - [HttpStream]: the adapters that make a byte stream of h2, QUIC and h3 streams.  [HttpStreamSpec]: the interface [AsyncStreamSpec] a message stream needs, and that the adapters
      implement it.  [HttpTheorems]: the message stream over them.  [Uring], [UringSpec], [UringTheorems]: the same for [io_uring/stream.rs].
    - [HttpConfig]: the HTTP/2, HTTP/3 and io_uring settings of [lib.rs].  [ExtendedConnect]: requests and responses of [extended_connect.rs], [http2/handshake.rs] and
      [http3/handshake.rs] over the class [HeaderMap].  [Connect]: [client.rs], [server.rs] and [multiplex.rs].  [ConnectSpec], [ConnectWitness]: their theorems and concrete runs.
    - [Compio]: both streams of [compio.rs] and their builder.  Their methods are the same text over two protocols, so the class [CompioProtocol] has two instances.  [CompioSpec]: the contracts of
      the transport and of a protocol.  [CompioNext], [CompioTheorems]: the invariant, and every sequence of operations ([k_reachable]).  [CompioConnect]: the handshakes.  [CompioHttp]:
      HTTP/2 and HTTP/3 on compio, an async function as the function that one poll of it is.
    - [CompioSplit]: the split halves of both compio streams and the task that drives them ([compio_split_writer_driver]), one await at a time, with what the kernel, the clock and the runtime do as labels
      of the steps.  [CompioSplitSpec]: the invariant of the wire, of closing and of what [send] is told.  [CompioSplitReader]: that of the reading half, for any protocol with the contract
      [CompioReadingSpec].  [CompioSplitEnd]: the end of the driver.  [CompioSplitTheorems]: the theorems, with runs.
    - [Axum]: [axum_integration.rs].  [AxumSpec]: its theorems.

    ** What the theorems show

    - End to end: [sent_messages_delivered] composes everything below.
    - Receiving: however reads cut the stream, the parser returns the frames
      of the reference parser ([frames_any_chunking]) and the handler the messages of the reference receiver
      ([messages_any_chunking]); what is delivered obeys the limits ([delivered_messages_good]); the
      one-message reader is equivalent ([one_message_reader_equivalent]).
    - Sending and receiving are inverse ([frames_roundtrip], [message_roundtrip]), the
      encoder writes what it reserves ([encode_sizes], [header_then_payload]).
    - Closing: [closing_handshake_completes], [closing_handshake_invariant], [close_reason_bounded].
    - Kernels: all masking kernels are the byte-wise one ([mask_kernels_equivalent],
      [unmask_in_two_reads]); the incremental UTF-8 validator decides the
      whole text ([utf8_stream_correct], [validate_utf8_incomplete_correct]).
    - Output: [cork_is_a_queue], [output_in_order], [no_lost_wakeup].
    - The message stream, for any sequence of its operations, any reads, writes, errors and timers: [stream_delivers] (what [next] returns is
      the reference receiver's messages of the bytes read, in order, none lost at a suspension), [stream_ends_once] (the end is final),
      [closing_bounded] (the closing budget ends every wait).  [send_after_peer_close] shows a gap: until the answer to a Close is flushed, data is still accepted.
    - A split stream, for every interleaving of the application, the driver and the reader: [split_peer_receives] and [split_send_ok] (the other endpoint receives the messages of the
      whole frames, all that [send] has acknowledged among them), [split_frames_whole], [split_no_data_after_close], [split_reader_delivers] (what [next] returns, also across dropped
      calls), [split_state_invariant], [split_driver_ends] (a closing connection ends without its peer), [split_driver_panics] with the run [lost_deadline_reached].
    - Heartbeat: [next_deadline_first], [pong_deadline_from_history].
    - Registry: [registry_refines], [publish_reaches_subscribers].
    - Compression: [negotiation_picks_first_acceptable], [negotiated_endpoints_agree]; decompression is bounded for any zlib
      ([decompress_bounded]) and returns what zlib decodes ([decompress_exact]).  The compressed handlers refine a
      reference receiver ([compressed_any_chunking]), and two endpoints deliver each other's messages
      ([deflate_messages_delivered]).
      Contexts of all modes recover each other's messages while they share encoders in any interleaving ([contexts_recover]).
    - Buffers: [buffer_is_a_queue], [pool_well_formed]; reads always have room ([reads_have_room]).
    - Handshake: [parse_request_exact], [request_no_injection], [request_roundtrip], and both loops together: [handshake_completes].
    - Queues, for every interleaving: [spsc_linearizable], [mpmc_tickets], [mpmc_obstruction_free]; [mpmc_capacity_one] shows why the
      second needs two slots.
    - Errors: [error_io_roundtrip].
    - The compressed stream: [compressed_stream_delivers], [compressed_stream_closes]; [compressed_streams_connected]: what one endpoint sends, the other returns.
    - Transports: the message stream delivers over each adapter ([stream_over_http2], [stream_over_http3], [stream_over_uring]); no byte is lost, repeated or reordered
      ([h3_writer_faithful], [uring_stream_exact]).
    - Connections: [http1_connection_delivers] (from both handshakes to the messages), [extended_connect_opens] and [h3_request_exact] (which requests open a stream, and that
      both sides agree), [connect_to_url_exact].  [h2_any_connect_accepted] shows a gap: the HTTP/2 server does not look at the [:protocol] value.
    - compio, for every transport and timer: [compio_stream_delivers], [compio_compressed_delivers], [compio_output_whole] (nothing is written after a torn frame), [compio_connections_refine] (the
      handshakes do what those of [handshake.rs] do), [compio_h2_read_equivalent], [compio_h2_write_exact], [compio_h3_stream_exact], [compio_h2_request_exact],
      [compio_h3_request_exact]; [compio_h3_unresolved_ends]: a request that does not resolve ends the connection.
    - A split compio stream, for every interleaving of both handles, the driver, the kernel and the clock: [compio_split_peer_receives], [compio_split_reader_delivers] and
      [compio_split_compressed_delivers], [compio_split_closing_order], [compio_split_driver_ends], [compio_split_errors_final] (an error of a call is the end of the driver).
      [compio_split_skips_ping] shows a gap: the reading half can drop a Ping in front of messages it still returns, once the driver has ended.
    - axum: [axum_upgrade_exact], [axum_upgrade_answered]; [axum_extractor_differs]: requests on which the extractor and [handshake.rs] disagree.

    ** Fuel

    Loops that are not structural take fuel and return [NoFuel] without it; every
    theorem about such an operation proves that this does not happen.  [parse_slow] changes state at most three
    times before it stops, so it gets 4 turns.  The read loops get [length buf + 2]: every turn that goes
    round consumes a byte, except at most one that only completes a frame.  [drain] gets two more turns than the
    bytes pending and the Pong frame: every turn writes a byte.  [decompress] and [compress] count their own iterations up to
    100000, and get one turn more.  [poll_next] is proved to return with [10 * budget + 27] turns ([enough]), where [budget]
    bounds the reads and timer firings the runtime grants before it reports that it is not ready, as tokio's cooperative budget does.  [has_valid_percent_encoding] gets one turn per byte and one more, as every turn advances.
    The compressed stream has the same bound.  [next] on compio gets more than [2 * supply + 5] turns ([k_enough]), the handshakes on compio more than [supply], where [supply]
    bounds the reads that are still to bring bytes.

    ** Parameters

    Code outside the repository is an argument with its documented contract:
    simdutf8 (class [Simdutf8], [Simdutf8Spec]); the CPU features found at run time and the alignment of
    slices ([Arch], [slice_addr]); the masking keys drawn; whether a tokio channel is open, and the iteration order of hash maps
    in results that are sets; the transport ([Transport], [TransportSpec]); zlib's [inflate] and the capacities of
    buffers ([Zlib], [Alloc], [Reclaim]); flate2's [Compress] ([Compressor]), and that inflating undoes deflating ([Deflates]); httparse, base64,
    sha1 and the [Uri] type of the http crate ([Httparse], [Base64], [Sha1], [UriParser] with their [Spec]s); the asynchronous runtime ([Runtime], [RuntimeSpec]: time does not
    go back, a timer fires only at its time, cooperative budget); any tokio stream ([AsyncStream]); the streams of h2 ([H2Send], [H2Recv]), quinn ([QuicSend], [QuicRecv]) and h3
    ([H3SendStream], [H3RecvStream], [H3Cancel]), quinn's settings ([Quinn]) and the room a read buffer has ([Rooms]); header maps of the http crate ([HeaderMap]) and how it composes URIs
    ([UriComposeSpec]); tokio-uring's sockets ([UringTcp]); compio's transports, timers and clock ([CompioIo], [CompioIoSpec]).  Each has an instance, at which the theorems are applied.  Other clock readings are arguments.  In the split system the tokio lock is
    not assumed to be fair and a [select!] may take any branch that is ready, which includes what [biased] does; [sticky] is the assumption that a transport that failed a write fails
    the following ones, without which a torn control frame could be followed by another frame before the driver closes the transport.

    ** Not modelled

    On compio, operations of a stream that is not split and that are dropped before they complete (an operation that gives up at its own timer is modelled, and so are dropped calls of the split halves); TLS, the tasks that
    drive the connections of hyper, h2 and quinn, and sockets, which are other crates'; the marker types of [transport.rs]; the masking kernels of architectures other than
    x86-64, which have the same structure and cannot run on it; the test suites, benchmarks and examples.
    Reference counts of buffers are not part of the model, and capacities only in [Inflate], [DeflateCodec],
    [ReceiveWindow] and [Uring].  The queues' accesses are sequentially consistent. *)

From stdpp Require Import base list numbers option strings.
From Stdlib Require Import ZArith Lia.

#[global] Open Scope Z_scope.

(** ** Machine integers and byte strings

    A Rust [u8]/[u16]/[u64]/[usize] is a [Z]; every wrap-around that the source
    can exercise is written out with [wrap].  [usize] has 64 bits. *)

Abbreviation bytes := (list Z).

Definition is_byte (b : Z) : Prop := 0 <= b < 256.
Definition bytes_ok (l : bytes) : Prop := Forall is_byte l.
Definition wrap (w z : Z) : Z := z mod 2 ^ w.

(** [slice.len()] *)
Definition len {A} (l : list A) : Z := Z.of_nat (length l).
(** [&l[..n]] and [&l[n..]], for [0 <= n <= l.len()] *)
Definition upto {A} (n : Z) (l : list A) : list A := take (Z.to_nat n) l.
Definition from {A} (n : Z) (l : list A) : list A := drop (Z.to_nat n) l.
(** [l[i]], for an index the code has already bounded by [l.len()] *)
Definition at_ (l : bytes) (i : Z) : Z := nth (Z.to_nat i) l 0.
(** [l[i..i + src.len()].copy_from_slice(src)], in range *)
Definition blit (l : bytes) (i : Z) (src : bytes) : bytes :=
  upto i l ++ src ++ from (i + len src) l.

Declare Scope ws_scope.
Delimit Scope ws_scope with ws.
#[global] Open Scope ws_scope.
Notation "l .[ i ]" := (at_ l i) (at level 1, format "l .[ i ]") : ws_scope.
Notation "b &? m" := (negb (Z.land b m =? 0)) (at level 40, no associativity) : ws_scope.

(** Big-endian integers: [uN::from_be_bytes] and [uN::to_be_bytes]. *)
Definition from_be_bytes (l : bytes) : Z := fold_left (fun acc b => acc * 256 + b) l 0.
Fixpoint to_be_bytes (n : nat) (z : Z) : bytes :=
  match n with
  | O => []
  | S m => to_be_bytes m (z / 256) ++ [z mod 256]
  end.
(** Little-endian integers: [from_le_bytes]/[to_le_bytes], and the [_ne_]
    variants on the little-endian targets the crate is built for. *)
Fixpoint from_le_bytes (l : bytes) : Z :=
  match l with
  | [] => 0
  | b :: t => b + 256 * from_le_bytes t
  end.
Fixpoint to_le_bytes (n : nat) (z : Z) : bytes :=
  match n with
  | O => []
  | S m => z mod 256 :: to_le_bytes m (z / 256)
  end.

(** ** Computations that can fail

    A method that takes [&mut self] and returns [Result<A>] becomes a function to
    [run S A]: it ends in the final state with a value or an error, it panics, or
    (for a loop given fuel) it exhausts its fuel.  Both last outcomes are proved
    impossible where the operation is used. *)

Inductive res (E A : Type) : Type :=
  | Ok (a : A)
  | Err (e : E).
Arguments Ok {E A} a.
Arguments Err {E A} e.

Inductive run (E S A : Type) : Type :=
  | Done (s : S) (r : res E A)
  | Panic
  | NoFuel.
Arguments Done {E S A} s r.
Arguments Panic {E S A}.
Arguments NoFuel {E S A}.

Definition run_bind {E S T A B} (m : run E S A) (on_err : S -> T)
    (k : S -> A -> run E T B) : run E T B :=
  match m with
  | Done s (Ok a) => k s a
  | Done s (Err e) => Done (on_err s) (Err e)
  | Panic => Panic
  | NoFuel => NoFuel
  end.

(** [let! (s, x) := m in k] is [m?] with the state threaded through. *)
Notation "'let!' ( s , x ) := m 'in' k" :=
  (run_bind m (fun s => s) (fun s x => k))
  (at level 10, s name, x name, m at level 100, k at level 200) : ws_scope.

(** A panicking check: an index, a slice range, an [unwrap], a subtraction. *)
Definition assert_or_panic {E S A} (b : bool) (k : run E S A) : run E S A :=
  if b then k else Panic.
Notation "'assert!' b ; k" := (assert_or_panic b k) (at level 10, k at level 200) : ws_scope.

(** [loop { .. }]: a body that goes round again ([inl]) or leaves ([inr]). *)
Fixpoint loop_fuel {E S S' A} (fuel : nat) (body : S -> S + run E S' A) (s : S) : run E S' A :=
  match fuel with
  | O => NoFuel
  | S n => match body s with
           | inl s' => loop_fuel n body s'
           | inr r => r
           end
  end.

Definition finished {E S A} (m : run E S A) : Prop :=
  match m with Done _ _ => True | _ => False end.

(** ** Automation *)

Create HintDb ws.
Create Rewrite HintDb len.

(** Decompose the conjunctions and options that evaluation leaves behind. *)
Ltac inv_all :=
  repeat match goal with
  | H : _ /\ _ |- _ => destruct H
  | H : exists _, _ |- _ => destruct H
  | H : Some _ = Some _ |- _ => injection H as H; subst
  | H : Ok _ = Ok _ |- _ => injection H as H; subst
  | H : Err _ = Err _ |- _ => injection H as H; subst
  | H : Done _ _ = Done _ _ |- _ => injection H as ? H; subst
  | H : (_, _) = (_, _) |- _ => injection H as ? H; subst
  end.

(** Turn the boolean tests of the code into propositions. *)
Ltac zb :=
  repeat match goal with
  | H : (_ && _)%bool = true |- _ => apply andb_prop in H; destruct H
  | H : (_ || _)%bool = false |- _ => apply orb_false_elim in H; destruct H
  | H : negb _ = true |- _ => apply negb_true_iff in H
  | H : negb _ = false |- _ => apply negb_false_iff in H
  | H : (_ <? _) = true |- _ => apply Z.ltb_lt in H
  | H : (_ <? _) = false |- _ => apply Z.ltb_ge in H
  | H : (_ <=? _) = true |- _ => apply Z.leb_le in H
  | H : (_ <=? _) = false |- _ => apply Z.leb_gt in H
  | H : (_ =? _) = true |- _ => apply Z.eqb_eq in H
  | H : (_ =? _) = false |- _ => apply Z.eqb_neq in H
  | H : (_ >? _) = true |- _ => rewrite Z.gtb_ltb in H
  | H : (_ >? _) = false |- _ => rewrite Z.gtb_ltb in H
  | H : (_ >=? _) = true |- _ => rewrite Z.geb_leb in H
  | H : (_ >=? _) = false |- _ => rewrite Z.geb_leb in H
  end.

(** Decide a comparison the context settles. *)
Ltac ztrue c := replace c with true by (symmetry; first
  [ apply Z.ltb_lt | apply Z.leb_le | apply Z.eqb_eq ]; lia).
Ltac zfalse c := replace c with false by (symmetry; first
  [ apply Z.ltb_ge | apply Z.leb_gt | apply Z.eqb_neq ]; lia).

(** ** Lists as buffers *)

Section buffers.
Context {A : Type}.
Implicit Types (l k : list A) (n m : Z).

Lemma len_nonneg l : 0 <= len l.
Proof. unfold len. lia. Qed.

Lemma len_nil : len (@nil A) = 0.
Proof. reflexivity. Qed.

Lemma len_cons (x : A) l : len (x :: l) = 1 + len l.
Proof. unfold len. simpl. lia. Qed.

Lemma len_app l k : len (l ++ k) = len l + len k.
Proof. unfold len. rewrite length_app. lia. Qed.

Lemma len_upto n l : 0 <= n <= len l -> len (upto n l) = n.
Proof. unfold len, upto. intros. rewrite length_take. lia. Qed.

Lemma len_from n l : 0 <= n <= len l -> len (from n l) = len l - n.
Proof. unfold len, from. intros. rewrite length_drop. lia. Qed.

Lemma len_0_nil l : len l = 0 -> l = [].
Proof. destruct l; [done|]. rewrite len_cons. pose proof (len_nonneg l). lia. Qed.

Lemma len_length l n : len l = n -> length l = Z.to_nat n.
Proof. unfold len. lia. Qed.

Lemma upto_from n l : upto n l ++ from n l = l.
Proof. apply take_drop. Qed.

Lemma upto_0 l : upto 0 l = [].
Proof. reflexivity. Qed.

Lemma from_0 l : from 0 l = l.
Proof. reflexivity. Qed.

Lemma upto_ge n l : len l <= n -> upto n l = l.
Proof. unfold len, upto. intros. apply take_ge. lia. Qed.

Lemma from_ge n l : len l <= n -> from n l = [].
Proof. unfold len, from. intros. apply drop_ge. lia. Qed.

Lemma upto_app_le n l k : n <= len l -> upto n (l ++ k) = upto n l.
Proof. unfold len, upto. intros. apply take_app_le. lia. Qed.

Lemma from_app_le n l k : n <= len l -> from n (l ++ k) = from n l ++ k.
Proof. unfold len, from. intros. apply drop_app_le. lia. Qed.

Lemma upto_app_exact l k : upto (len l) (l ++ k) = l.
Proof. rewrite upto_app_le by lia. apply upto_ge. lia. Qed.

Lemma from_app_exact l k : from (len l) (l ++ k) = k.
Proof. rewrite from_app_le by lia. rewrite from_ge by lia. done. Qed.

Lemma upto_app_ge n l k : len l <= n -> upto n (l ++ k) = l ++ upto (n - len l) k.
Proof. unfold len, upto. intros. rewrite take_app_ge by lia. do 2 f_equal. lia. Qed.

Lemma from_app_ge n l k : len l <= n -> from n (l ++ k) = from (n - len l) k.
Proof. unfold len, from. intros. rewrite drop_app_ge by lia. f_equal. lia. Qed.

Lemma from_from n m l : 0 <= n -> 0 <= m -> from n (from m l) = from (m + n) l.
Proof. unfold from. intros. rewrite drop_drop. f_equal. lia. Qed.

Lemma upto_upto n m l : n <= m -> upto n (upto m l) = upto n l.
Proof. unfold upto. intros. rewrite take_take. f_equal. lia. Qed.

Lemma upto_split n m l : 0 <= n -> 0 <= m -> upto (n + m) l = upto n l ++ upto m (from n l).
Proof.
  unfold upto, from. intros. rewrite Z2Nat.inj_add by lia.
  rewrite <- (take_drop (Z.to_nat n) l) at 1.
  destruct (decide (Z.to_nat n <= length l)%nat).
  - rewrite take_app_ge by (rewrite length_take; lia).
    f_equal. f_equal. rewrite length_take. lia.
  - rewrite (drop_ge l), app_nil_r, take_nil, app_nil_r by lia.
    rewrite take_take. f_equal. lia.
Qed.

Lemma from_nil_len n l : 0 <= n -> from n l = [] -> len l <= n.
Proof.
  intros Hn H. apply (f_equal len) in H. unfold len, from in *.
  rewrite length_drop in H. simpl in H. lia.
Qed.
End buffers.

#[export] Hint Rewrite @len_nil @len_cons @len_app : len.
#[export] Hint Rewrite @len_upto @len_from using lia : len.
#[export] Hint Resolve len_nonneg : ws.

Ltac len_pos :=
  repeat match goal with
  | |- context [len ?l] =>
      lazymatch goal with _ : 0 <= len l |- _ => fail | _ => pose proof (len_nonneg l) end
  | _ : context [len ?l] |- _ =>
      lazymatch goal with _ : 0 <= len l |- _ => fail | _ => pose proof (len_nonneg l) end
  end.
(** Arithmetic over buffer lengths. *)
Ltac zlen := autorewrite with len in *; len_pos; lia.

Lemma at_app_l (l k : bytes) i : 0 <= i < len l -> (l ++ k).[i] = l.[i].
Proof. unfold at_, len. intros. rewrite nth_lookup, lookup_app_l by lia. by rewrite nth_lookup. Qed.

Lemma at_upto (l : bytes) n i : 0 <= i < n -> (upto n l).[i] = l.[i].
Proof. unfold at_, upto. intros. rewrite !nth_lookup, lookup_take_lt by lia. done. Qed.

Lemma at_from (l : bytes) n i : 0 <= i -> 0 <= n -> (from n l).[i] = l.[n + i].
Proof.
  unfold at_, from. intros. rewrite !nth_lookup, lookup_drop.
  do 2 f_equal. lia.
Qed.

Lemma at_app_r (l k : bytes) i : 0 <= i -> (l ++ k).[len l + i] = k.[i].
Proof.
  intros. rewrite <- at_from by (pose proof (len_nonneg l); lia).
  by rewrite from_app_exact.
Qed.

Lemma upto_succ (l : bytes) n : 0 <= n < len l -> upto (n + 1) l = upto n l ++ [l.[n]].
Proof.
  unfold upto, at_, len. intros. rewrite Z2Nat.inj_add by lia.
  change (Z.to_nat 1) with 1%nat. rewrite Nat.add_1_r.
  destruct (lookup_lt_is_Some_2 l (Z.to_nat n)) as [x Hx]; [lia|].
  rewrite (take_S_r _ _ x) by done. by rewrite nth_lookup, Hx.
Qed.

Lemma from_cons (l : bytes) n : 0 <= n < len l -> from n l = l.[n] :: from (n + 1) l.
Proof.
  unfold from, at_, len. intros. rewrite Z2Nat.inj_add by lia.
  change (Z.to_nat 1) with 1%nat. rewrite Nat.add_1_r.
  destruct (lookup_lt_is_Some_2 l (Z.to_nat n)) as [x Hx]; [lia|].
  erewrite drop_S by done. by rewrite nth_lookup, Hx.
Qed.

(** ** Bytes *)

Lemma bytes_ok_app l k : bytes_ok (l ++ k) <-> bytes_ok l /\ bytes_ok k.
Proof. apply Forall_app. Qed.

Lemma bytes_ok_upto n l : bytes_ok l -> bytes_ok (upto n l).
Proof. apply Forall_take. Qed.

Lemma bytes_ok_from n l : bytes_ok l -> bytes_ok (from n l).
Proof. apply Forall_drop. Qed.

Lemma wrapped_bytes b : bytes_ok (map (wrap 8) b).
Proof. apply Forall_map, Forall_true. intros x. unfold is_byte, compose, wrap. apply Z.mod_pos_bound. lia. Qed.

Lemma at_byte l i : bytes_ok l -> is_byte l.[i].
Proof.
  intros H. unfold at_. rewrite nth_lookup.
  destruct (l !! Z.to_nat i) eqn:E; simpl; [|unfold is_byte; lia].
  by eapply Forall_lookup_1.
Qed.
#[export] Hint Resolve bytes_ok_upto bytes_ok_from at_byte : ws.

(** A fact about one byte holds when it holds of all 256 of them. *)
Lemma byte_forall (P : Z -> bool) :
  forallb P (seqZ 0 256) = true -> forall b, is_byte b -> P b = true.
Proof.
  intros H b Hb. rewrite forallb_forall in H. apply H.
  apply list_elem_of_In, elem_of_seqZ. unfold is_byte in Hb. lia.
Qed.

Lemma land_range b m : 0 <= m -> 0 <= Z.land b m <= m.
Proof.
  intros Hm. split; [by apply Z.land_nonneg; right|].
  destruct (Z.eq_dec (Z.land b m) 0) as [->|Hz]; [lia|].
  apply Z.ldiff_le; [lia|]. apply Z.bits_inj'. intros n Hn.
  rewrite Z.ldiff_spec, Z.land_spec, Z.bits_0. by destruct (Z.testbit b n), (Z.testbit m n).
Qed.

Lemma lxor_is_byte a b : is_byte a -> is_byte b -> is_byte (Z.lxor a b).
Proof.
  unfold is_byte. intros Ha Hb. split; [apply Z.lxor_nonneg; lia|].
  destruct (Z.eq_dec (Z.lxor a b) 0) as [->|Hz]; [lia|].
  assert (Z.log2 (Z.lxor a b) < 8) as Hl.
  { eapply Z.le_lt_trans; [apply Z.log2_lxor; lia|].
    apply Z.max_lub_lt; [destruct (Z.eq_dec a 0) as [->|] | destruct (Z.eq_dec b 0) as [->|]];
      try (simpl; lia); apply Z.log2_lt_pow2; lia. }
  apply Z.log2_lt_pow2 in Hl; [lia|].
  assert (0 <= Z.lxor a b) by (apply Z.lxor_nonneg; lia). lia.
Qed.
#[export] Hint Resolve lxor_is_byte : ws.

(** ** Integers as bytes *)

Lemma from_be_bytes_app l b : from_be_bytes (l ++ [b]) = from_be_bytes l * 256 + b.
Proof. unfold from_be_bytes. by rewrite fold_left_app. Qed.

Lemma len_to_be_bytes n z : len (to_be_bytes n z) = Z.of_nat n.
Proof. revert z. induction n; intros; simpl; [done|]. rewrite len_app, IHn. zlen. Qed.
#[export] Hint Rewrite len_to_be_bytes : len.

Lemma from_to_be_bytes n z : from_be_bytes (to_be_bytes n z) = z mod 256 ^ Z.of_nat n.
Proof.
  revert z. induction n as [|n IH]; intros z; cbn [to_be_bytes].
  - by rewrite Z.mod_1_r.
  - rewrite from_be_bytes_app, IH, Nat2Z.inj_succ, Z.pow_succ_r by lia.
    rewrite Z.rem_mul_r by lia. lia.
Qed.

Lemma from_be_bytes_bound l : bytes_ok l -> 0 <= from_be_bytes l < 256 ^ len l.
Proof.
  induction l as [|b l IH] using rev_ind; intros H; [change (0 <= 0 < 1); lia|].
  apply bytes_ok_app in H as [Hl Hb]. inversion_clear Hb as [|? ? Hb' _].
  rewrite from_be_bytes_app, len_app, Z.pow_add_r by (auto with ws).
  specialize (IH Hl). unfold is_byte in Hb'. change (256 ^ len [b]) with 256. nia.
Qed.

Lemma to_be_bytes_ok n z : bytes_ok (to_be_bytes n z).
Proof.
  revert z. induction n; intros; cbn; [by constructor|].
  apply bytes_ok_app; split; [done|]. constructor; [|done].
  unfold is_byte. pose proof (Z.mod_pos_bound z 256). lia.
Qed.

Lemma to_le_bytes_ok n z : bytes_ok (to_le_bytes n z).
Proof.
  revert z. induction n; intros; cbn; constructor; [|apply IHn].
  unfold is_byte. pose proof (Z.mod_pos_bound z 256). lia.
Qed.

Lemma to_from_le_bytes l : bytes_ok l -> to_le_bytes (length l) (from_le_bytes l) = l.
Proof.
  induction 1 as [|b l Hb Hl IH]; [done|]. cbn. unfold is_byte in Hb.
  rewrite (Z.mul_comm 256), Z.mod_add, Z.mod_small, Z.div_add, Z.div_small by lia.
  by rewrite Z.add_0_l, IH.
Qed.

(** The bits of a number split into its [w] lowest bits and the rest. *)
Lemma testbit_low_high w u v n : 0 <= w -> 0 <= u < 2 ^ w -> 0 <= n ->
  Z.testbit (u + 2 ^ w * v) n = if n <? w then Z.testbit u n else Z.testbit v (n - w).
Proof.
  intros Hw Hu Hn. rewrite (Z.mul_comm (2 ^ w)). destruct (Z.ltb_spec n w).
  - rewrite <- (Z.mod_pow2_bits_low _ w n) by lia.
    by rewrite Z.mod_add, Z.mod_small by lia.
  - replace n with (n - w + w) at 1 by lia. rewrite <- Z.div_pow2_bits by lia.
    by rewrite Z.div_add, Z.div_small by lia.
Qed.

Lemma lor_shiftl w u v : 0 <= w -> 0 <= u < 2 ^ w -> Z.lor u (Z.shiftl v w) = u + 2 ^ w * v.
Proof.
  intros Hw Hu. apply Z.bits_inj'. intros n Hn.
  rewrite testbit_low_high, Z.lor_spec by lia. destruct (Z.ltb_spec n w).
  - rewrite Z.shiftl_spec_low by lia. apply orb_false_r.
  - rewrite Z.shiftl_spec_high by lia. rewrite <- (Z.mod_small u (2 ^ w)) by lia.
    by rewrite Z.mod_pow2_bits_high by lia.
Qed.

Lemma lxor_split a b x y : is_byte a -> is_byte b ->
  Z.lxor (a + 256 * x) (b + 256 * y) = Z.lxor a b + 256 * Z.lxor x y.
Proof.
  intros Ha Hb. apply Z.bits_inj'. intros n Hn.
  change 256 with (2 ^ 8).
  rewrite Z.lxor_spec, !testbit_low_high by (try apply lxor_is_byte; auto; lia).
  destruct (n <? 8); by rewrite Z.lxor_spec.
Qed.

(** Exclusive or of two words is exclusive or of their bytes. *)
Lemma lxor_from_le_bytes l k : length l = length k -> bytes_ok l -> bytes_ok k ->
  Z.lxor (from_le_bytes l) (from_le_bytes k) = from_le_bytes (zip_with Z.lxor l k).
Proof.
  revert k. induction l as [|a l IH]; intros [|b k] Hlen Hl Hk; try done. cbn in *.
  inversion_clear Hl. inversion_clear Hk. rewrite lxor_split by done. rewrite IH; auto.
Qed.

Lemma from_le_bytes_app l k :
  from_le_bytes (l ++ k) = from_le_bytes l + 256 ^ len l * from_le_bytes k.
Proof.
  induction l as [|b l IH]; cbn [app from_le_bytes]; [change (from_le_bytes k = 0 + 1 * from_le_bytes k); lia|].
  rewrite IH, len_cons, Z.pow_add_r by (auto with ws; lia). change (256 ^ 1) with 256. lia.
Qed.

Lemma from_le_bytes_bound l : bytes_ok l -> 0 <= from_le_bytes l < 256 ^ len l.
Proof.
  induction 1 as [|b l Hb Hl IH]; [change (0 <= 0 < 1); lia|]. unfold is_byte in Hb.
  rewrite len_cons, Z.pow_add_r by (auto with ws; lia). cbn [from_le_bytes]. change (256 ^ 1) with 256. lia.
Qed.

Lemma zip_lxor_ok l k : bytes_ok l -> bytes_ok k -> bytes_ok (zip_with Z.lxor l k).
Proof.
  intros Hl. revert k. induction Hl; intros [|b k] Hk; cbn; try by constructor.
  inversion_clear Hk. constructor; [by apply lxor_is_byte|by apply IHHl].
Qed.

Lemma word_lxor l k : length l = length k -> bytes_ok l -> bytes_ok k ->
  to_le_bytes (length l) (Z.lxor (from_le_bytes l) (from_le_bytes k)) = zip_with Z.lxor l k.
Proof.
  intros Hlen Hl Hk. rewrite lxor_from_le_bytes by done.
  rewrite <- (to_from_le_bytes (zip_with Z.lxor l k)) at 2 by by apply zip_lxor_ok.
  rewrite length_zip_with. f_equal. lia.
Qed.

(** ** Loops *)

(** More fuel never changes the result of a loop that ends. *)
Lemma loop_fuel_mono {E S S' A} (body : S -> S + run E S' A) n m s :
  (n <= m)%nat -> loop_fuel n body s <> NoFuel -> loop_fuel m body s = loop_fuel n body s.
Proof.
  revert m s. induction n as [|n IH]; intros m s Hle Hne; [done|].
  destruct m as [|m]; [lia|]. cbn in *. destruct (body s); [|done]. apply IH; [lia|done].
Qed.
