(* ===== verification/Error.v ===== *)
(** * Errors (src/src/error.rs)

    The error type of the crate, its classification functions, its rendering
    and its conversions to and from [std::io::Error] and from the errors of h2, quinn
    and h3, with all features.  A Rust [String] is the list of its UTF-8 bytes. *)

From stdpp Require Import base list strings pretty.
From S2P Require Import Prelude.

(** The bytes of a string literal. *)
Definition str (s : string) : bytes :=
  map (fun a => Z.of_nat (Ascii.nat_of_ascii a)) (String.list_ascii_of_string s).

(** The kinds of [io::Error] the code tells apart, and the remaining ones. *)
Inductive IoErrorKind :=
  | IoWouldBlock | IoConnectionReset | IoBrokenPipe | IoUnexpectedEof | IoTimedOut | IoOther
  | IoKind (n : Z).

#[export] Instance IoErrorKind_eq_dec : EqDecision IoErrorKind.
Proof. solve_decision. Defined.

(** [std::io::Error]: its kind and the text its [Display] renders. *)
Record IoError := MkIoError { io_kind : IoErrorKind; io_text : bytes }.

Module CloseReason.
Record t := Mk { code : Z; reason : bytes }.
Definition NORMAL := 1000.
Definition GOING_AWAY := 1001.
Definition PROTOCOL_ERROR := 1002.
Definition UNSUPPORTED := 1003.
Definition NO_STATUS := 1005.
Definition ABNORMAL := 1006.
Definition INVALID_PAYLOAD := 1007.
Definition POLICY := 1008.
Definition TOO_BIG := 1009.
Definition EXTENSION := 1010.
Definition INTERNAL := 1011.

Definition new (code : Z) (reason : bytes) : t := Mk code reason.

Definition is_valid_code (code : Z) : bool :=
  ((1000 <=? code) && (code <=? 1003)) ||
  ((1007 <=? code) && (code <=? 1014)) ||
  ((3000 <=? code) && (code <=? 4999)).
End CloseReason.

#[export] Instance CloseReason_eq_dec : EqDecision CloseReason.t.
Proof. solve_decision. Defined.

Inductive Error :=
  | Io (e : IoError)
  | InvalidFrame (msg : string)
  | InvalidUtf8
  | ProtocolError (msg : string)
  | ConnectionClosed
  | MessageTooLarge
  | FrameTooLarge
  | InvalidHttp (msg : string)
  | HandshakeFailed (msg : string)
  | BufferFull
  | WouldBlock
  | ConnectionReset
  | InvalidState (msg : string)
  | Closed (reason : option CloseReason.t)
  | InvalidCloseCode (code : Z)
  | Capacity (msg : string)
  | CompressionError (msg : bytes)
  | HeartbeatTimeout
  | IdleTimeout
  | Http2Error (e : bytes)
  | Http3Error (msg : bytes)
  | QuicError (e : bytes)
  | QuicWriteError (e : bytes)
  | ExtendedConnectNotSupported
  | StreamReset.

(** [Result<T>] and a stateful computation that returns one. *)
Abbreviation result := (res Error).
Abbreviation comp := (run Error).

Inductive ErrorKind :=
  | KIo | KProtocol | KHandshake | KValidation | KCapacity | KCompression | KConnection
  | KTransport.

#[export] Instance ErrorKind_eq_dec : EqDecision ErrorKind.
Proof. solve_decision. Defined.

Definition kind (e : Error) : ErrorKind :=
  match e with
  | Io _ => KIo
  | InvalidFrame _ => KValidation
  | InvalidUtf8 => KValidation
  | ProtocolError _ => KProtocol
  | ConnectionClosed => KConnection
  | MessageTooLarge => KCapacity
  | FrameTooLarge => KCapacity
  | InvalidHttp _ => KHandshake
  | HandshakeFailed _ => KHandshake
  | BufferFull => KCapacity
  | WouldBlock => KIo
  | ConnectionReset => KConnection
  | InvalidState _ => KProtocol
  | Closed _ => KConnection
  | InvalidCloseCode _ => KValidation
  | Capacity _ => KCapacity
  | CompressionError _ => KCompression
  | HeartbeatTimeout | IdleTimeout => KConnection
  | Http2Error _ | Http3Error _ | QuicError _ | QuicWriteError _ => KTransport
  | ExtendedConnectNotSupported => KHandshake
  | StreamReset => KConnection
  end.

Definition is_fatal (e : Error) : bool :=
  match e with
  | ConnectionClosed | ConnectionReset | ProtocolError _ | InvalidUtf8 | FrameTooLarge
  | MessageTooLarge | StreamReset | InvalidCloseCode _ | HeartbeatTimeout | IdleTimeout => true
  | _ => false
  end.

Definition is_recoverable (e : Error) : bool :=
  match e with WouldBlock | BufferFull => true | _ => false end.

Definition is_timeout (e : Error) : bool :=
  match e with HeartbeatTimeout | IdleTimeout => true | _ => false end
  || match e with Io e => bool_decide (io_kind e = IoTimedOut) | _ => false end.

Definition is_connection_error (e : Error) : bool := bool_decide (kind e = KConnection).
Definition is_protocol_error (e : Error) : bool := bool_decide (kind e = KProtocol).

Definition metric_name (e : Error) : string :=
  match e with
  | Io _ => "io_error"
  | InvalidFrame _ => "invalid_frame"
  | InvalidUtf8 => "invalid_utf8"
  | ProtocolError _ => "protocol_error"
  | ConnectionClosed => "connection_closed"
  | MessageTooLarge => "message_too_large"
  | FrameTooLarge => "frame_too_large"
  | InvalidHttp _ => "invalid_http"
  | HandshakeFailed _ => "handshake_failed"
  | BufferFull => "buffer_full"
  | WouldBlock => "would_block"
  | ConnectionReset => "connection_reset"
  | InvalidState _ => "invalid_state"
  | Closed _ => "closed"
  | InvalidCloseCode _ => "invalid_close_code"
  | Capacity _ => "capacity_exceeded"
  | CompressionError _ => "compression_error"
  | HeartbeatTimeout => "heartbeat_timeout"
  | IdleTimeout => "idle_timeout"
  | Http2Error _ => "http2_error"
  | Http3Error _ => "http3_error"
  | QuicError _ => "quic_error"
  | QuicWriteError _ => "quic_write_error"
  | ExtendedConnectNotSupported => "extended_connect_not_supported"
  | StreamReset => "stream_reset"
  end.

Definition suggested_http_status (e : Error) : Z :=
  match e with
  | InvalidHttp _ | InvalidFrame _ | InvalidCloseCode _ => 400
  | ProtocolError _ | InvalidUtf8 => 400
  | HandshakeFailed _ => 400
  | MessageTooLarge | FrameTooLarge | Capacity _ => 413
  | BufferFull => 503
  | ExtendedConnectNotSupported => 501
  | _ => 500
  end.

(** [impl fmt::Display for Error] *)
Definition fmt (e : Error) : bytes :=
  match e with
  | Io e => str "I/O error: " ++ io_text e
  | InvalidFrame msg => str "Invalid frame: " ++ str msg
  | InvalidUtf8 => str "Invalid UTF-8 in text message"
  | ProtocolError msg => str "Protocol error: " ++ str msg
  | ConnectionClosed => str "Connection closed"
  | MessageTooLarge => str "Message too large"
  | FrameTooLarge => str "Frame too large"
  | InvalidHttp msg => str "Invalid HTTP: " ++ str msg
  | HandshakeFailed msg => str "Handshake failed: " ++ str msg
  | BufferFull => str "Buffer full"
  | WouldBlock => str "Would block"
  | ConnectionReset => str "Connection reset by peer"
  | InvalidState msg => str "Invalid state: " ++ str msg
  | Closed (Some r) => str "Connection closed: " ++ str (pretty (CloseReason.code r)) ++
      str " (" ++ CloseReason.reason r ++ str ")"
  | Closed None => str "Connection closed"
  | InvalidCloseCode code => str "Invalid close code: " ++ str (pretty code)
  | Capacity msg => str "Capacity exceeded: " ++ str msg
  | CompressionError msg => str "Compression error: " ++ msg
  | HeartbeatTimeout => str "WebSocket Pong deadline expired"
  | IdleTimeout => str "WebSocket inbound idle deadline expired"
  | Http2Error e => str "HTTP/2 error: " ++ e
  | Http3Error msg => str "HTTP/3 error: " ++ msg
  | QuicError e => str "QUIC error: " ++ e
  | QuicWriteError e => str "QUIC write error: " ++ e
  | ExtendedConnectNotSupported => str "Extended CONNECT protocol not supported by server"
  | StreamReset => str "Stream was reset by peer"
  end.

(** [impl From<io::Error> for Error] *)
Definition from_io (e : IoError) : Error :=
  match io_kind e with
  | IoWouldBlock => WouldBlock
  | IoConnectionReset => ConnectionReset
  | IoBrokenPipe => ConnectionClosed
  | IoUnexpectedEof => ConnectionClosed
  | _ => Io e
  end.

(** [impl From<Error> for io::Error] *)
Definition into_io (e : Error) : IoError :=
  match e with
  | Io e => e
  | WouldBlock => MkIoError IoWouldBlock (str "would block")
  | ConnectionReset => MkIoError IoConnectionReset (str "connection reset")
  | ConnectionClosed => MkIoError IoBrokenPipe (str "connection closed")
  | other => MkIoError IoOther (fmt other)
  end.

(** [impl From<h2::Error> for Error]; an error of h2 carries an [io::Error] or is known by its text. *)
Inductive H2Error := H2Io (e : IoError) | H2Other (text : bytes).
Definition from_h2_error (e : H2Error) : Error := match e with H2Io e => Io e | H2Other text => Http2Error text end.

(** [From<quinn::ConnectionError>], [From<quinn::WriteError>], [From<h3::error::ConnectionError>] and [From<h3::error::StreamError>], each known by its text *)
Definition from_quic_error (text : bytes) : Error := QuicError text.
Definition from_quic_write_error (text : bytes) : Error := QuicWriteError text.
Definition from_h3_error (text : bytes) : Error := Http3Error text.

(** ** Properties *)

(** The converted form of an error: what survives a trip through [io::Error]. *)
Lemma from_io_into_io_id e :
  from_io (into_io e) =
  match e with
  | Io e => from_io e
  | WouldBlock => WouldBlock
  | ConnectionReset => ConnectionReset
  | ConnectionClosed => ConnectionClosed
  | other => Io (MkIoError IoOther (fmt other))
  end.
Proof. by destruct e. Qed.

(** The conversions between the crate's errors and [io::Error] are a
    retraction: converting an [io::Error] in, out and in again gives the same error
    as converting it once; the conditions that have a kind of their own come back as
    they were, and every other error comes back as an I/O error that
    still carries its text. *)
Theorem error_io_roundtrip :
  (forall i, from_io (into_io (from_io i)) = from_io i) /\
  (forall e, match e with
             | WouldBlock | ConnectionReset | ConnectionClosed => from_io (into_io e) = e
             | Io i => into_io e = i
             | _ => exists i, from_io (into_io e) = Io i /\ io_text i = fmt e
             end).
Proof.
  split.
  - intros [k t]. by destruct k.
  - intros e. destruct e; try done; by eexists.
Qed.
