(* ===== verification/Mask.v ===== *)
(** * Frame masking (src/src/simd.rs, src/src/mask.rs, the masked copy of src/src/frame.rs)

    Every kernel that applies the four-byte WebSocket mask, over the address of
    the slice it is given (the kernels peel an unaligned prefix), and the proof
    that each of them computes [mask_spec], byte [i] xored with key byte
    [(off + i) mod 4]. *)

From stdpp Require Import base list.
From S2P Require Import Prelude.

(** The definition of RFC 6455 section 5.3, started at position [off]. *)
Fixpoint mask_spec (m : bytes) (off : Z) (d : bytes) : bytes :=
  match d with
  | [] => []
  | b :: t => Z.lxor b m.[Z.land off 3] :: mask_spec m (off + 1) t
  end.

(** ** Standard library: chunks, words and vector registers *)

Fixpoint chunks_n (k n : nat) (l : bytes) : list bytes * bytes :=
  match k with
  | O => ([], l)
  | S k' => let '(cs, r) := chunks_n k' n (drop n l) in (take n l :: cs, r)
  end.
(** [slice::as_chunks::<N>]: the full chunks and the remainder *)
Definition as_chunks (n : nat) (l : bytes) : list bytes * bytes :=
  chunks_n (length l / n) n l.
(** [(uN::from_ne_bytes(word) ^ mask).to_ne_bytes()] *)
Definition xor_word (mask : Z) (word : bytes) : bytes :=
  to_le_bytes (length word) (Z.lxor (from_le_bytes word) mask).
(** [_mm*_set1_epi32]: [n] copies of a 32-bit lane *)
Definition set1_epi32 (n : nat) (lane : Z) : bytes := concat (replicate n (to_le_bytes 4 lane)).
(** [_mm*_xor_si*] on registers of equal width *)
Definition xor_si (a b : bytes) : bytes := zip_with Z.lxor a b.
(** [u32::rotate_right] for [0 <= k < 32] *)
Definition rotate_right_u32 (x k : Z) : Z := Z.lor (Z.shiftr x k) (wrap 32 (Z.shiftl x (32 - k))).

(** ** Kernels *)

Definition mask_tail (m tail : bytes) : bytes :=
  imap (fun i b => Z.lxor b m.[Z.land (Z.of_nat i) 3]) tail.

Definition apply_mask_words (d m : bytes) : bytes :=
  let mask_u64 := from_le_bytes [m.[0]; m.[1]; m.[2]; m.[3]; m.[0]; m.[1]; m.[2]; m.[3]] in
  let '(blocks, rest) := as_chunks 64 d in
  let blocks' := map (fun block =>
    let '(words, r) := as_chunks 8 block in concat (map (xor_word mask_u64) words) ++ r) blocks in
  let '(words, tail) := as_chunks 8 rest in
  concat blocks' ++ concat (map (xor_word mask_u64) words) ++ mask_tail m tail.

Definition ALIGNED_BLOCKS_MIN_LEN := 2048.

(** The mask as seen [k] bytes further on. *)
Definition rotated (m : bytes) (k : Z) : bytes :=
  [m.[Z.land k 3]; m.[Z.land (k + 1) 3]; m.[Z.land (k + 2) 3]; m.[Z.land (k + 3) 3]].

Definition apply_mask_blocks (addr : Z) (d m : bytes) : bytes :=
  if len d <? ALIGNED_BLOCKS_MIN_LEN then apply_mask_words d m
  else
    let misalign := Z.land addr 15 in
    let prefix_len := if misalign =? 0 then 0 else Z.min (16 - misalign) (len d) in
    mask_tail m (upto prefix_len d) ++ apply_mask_words (from prefix_len d) (rotated m prefix_len).

(** The three loops of [apply_mask_scalar_offset].  Each returns the bytes it
    wrote, what is left of the slice, and [mask_idx]. *)
Fixpoint scalar_prefix (addr i idx : Z) (m d : bytes) : bytes * bytes * Z :=
  match d with
  | [] => ([], [], idx)
  | b :: t =>
      if Z.land (addr + i) 7 =? 0 then ([], d, idx)
      else let '(w, r, idx') := scalar_prefix addr (i + 1) (Z.land (idx + 1) 3) m t in
           (Z.lxor b m.[idx] :: w, r, idx')
  end.
Fixpoint scalar_words (fuel : nat) (mask_u64 : Z) (d : bytes) : bytes * bytes :=
  match fuel with
  | O => ([], d)
  | S n => if 8 <=? len d then
             let '(w, r) := scalar_words n mask_u64 (from 8 d) in
             (xor_word mask_u64 (upto 8 d) ++ w, r)
           else ([], d)
  end.
Fixpoint scalar_tail (idx : Z) (m d : bytes) : bytes :=
  match d with
  | [] => []
  | b :: t => Z.lxor b m.[idx] :: scalar_tail (Z.land (idx + 1) 3) m t
  end.

Definition apply_mask_scalar_offset (addr : Z) (d m : bytes) (offset : Z) : bytes :=
  if len d =? 0 then d
  else
    let '(w1, r1, idx) := scalar_prefix addr 0 (Z.land offset 3) m d in
    let '(w2, r2) :=
      if 8 <=? len r1 then
        let mask_u64 := from_le_bytes
          [m.[idx]; m.[Z.land (idx + 1) 3]; m.[Z.land (idx + 2) 3]; m.[Z.land (idx + 3) 3];
           m.[idx]; m.[Z.land (idx + 1) 3]; m.[Z.land (idx + 2) 3]; m.[Z.land (idx + 3) 3]] in
        scalar_words (length r1) mask_u64 r1
      else ([], r1) in
    w1 ++ w2 ++ scalar_tail idx m r2.

Definition apply_mask_scalar (addr : Z) (d m : bytes) : bytes := apply_mask_scalar_offset addr d m 0.

(** The aligned vector loop: [while remaining >= W { load; xor; store }]. *)
Fixpoint vector_loop (fuel w : nat) (mask_vec d : bytes) : bytes * bytes :=
  match fuel with
  | O => ([], d)
  | S n => if Z.of_nat w <=? len d then
             let '(o, r) := vector_loop n w mask_vec (drop w d) in
             (xor_si (take w d) mask_vec ++ o, r)
           else ([], d)
  end.

(** The unaligned prefix of the x86 kernels: what it wrote, what remains and
    the mask offset after it. *)
Definition align_prefix (w addr : Z) (d m : bytes) : bytes * bytes * Z :=
  let align_offset := Z.land addr (w - 1) in
  if align_offset =? 0 then ([], d, 0)
  else let prefix_len := Z.min (w - align_offset) (len d) in
       (apply_mask_scalar_offset addr (upto prefix_len d) m 0, from prefix_len d,
        Z.land (0 + prefix_len) 3).

(** The remaining bytes: [if remaining > 0 { apply_mask_scalar_offset(..) }]. *)
Definition scalar_rest (addr : Z) (d m : bytes) (mask_offset : Z) : bytes :=
  if 0 <? len d then apply_mask_scalar_offset addr d m mask_offset else d.

Definition apply_mask_avx512_aligned (addr : Z) (d m : bytes) : bytes :=
  if len d =? 0 then d
  else
    let '(p, body, mask_offset) := align_prefix 64 addr d m in
    let mask_vec := set1_epi32 16 (from_le_bytes (rotated m mask_offset)) in
    let '(v, r) := vector_loop (length body) 64 mask_vec body in
    p ++ v ++ scalar_rest (addr + len p + len v) r m mask_offset.

Definition apply_mask_avx2_aligned (addr : Z) (d m : bytes) : bytes :=
  if len d =? 0 then d
  else
    let '(p, body, mask_offset) := align_prefix 32 addr d m in
    let mask_u32 := from_le_bytes (rotated m mask_offset) in
    let '(v, r) := vector_loop (length body) 32 (set1_epi32 8 mask_u32) body in
    let '(v', r') :=
      if 16 <=? len r then (xor_si (take 16 r) (set1_epi32 4 mask_u32), drop 16 r)
      else ([], r) in
    p ++ v ++ v' ++ scalar_rest (addr + len p + len v + len v') r' m mask_offset.

Definition apply_mask_sse2_aligned (addr : Z) (d m : bytes) : bytes :=
  if len d =? 0 then d
  else
    let '(p, body, mask_offset) := align_prefix 16 addr d m in
    let mask_vec := set1_epi32 4 (from_le_bytes (rotated m mask_offset)) in
    let '(v, r) := vector_loop (length body) 16 mask_vec body in
    p ++ v ++ scalar_rest (addr + len p + len v) r m mask_offset.

(** ** Dispatch *)

Record Cpu := MkCpu { avx512f : bool; avx512bw : bool; avx2 : bool; sse2 : bool }.

(** The targets with a stable implementation; [OtherArch] takes the portable path. *)
Inductive Arch := X86_64 (features : Cpu) | Aarch64 | OtherArch.

Definition apply_mask (arch : Arch) (addr : Z) (d m : bytes) : bytes :=
  if len d =? 0 then d
  else match arch with
  | X86_64 cpu =>
      if avx512f cpu && avx512bw cpu then apply_mask_avx512_aligned addr d m
      else if avx2 cpu then apply_mask_avx2_aligned addr d m
      else if sse2 cpu then apply_mask_sse2_aligned addr d m
      else d
  | Aarch64 => apply_mask_blocks addr d m
  | OtherArch => apply_mask_blocks addr d m
  end.

Definition apply_mask_offset (arch : Arch) (addr : Z) (d m : bytes) (offset : Z) : bytes :=
  if offset =? 0 then apply_mask arch addr d m
  else
    let offset := Z.land offset 3 in
    let rotated_mask := to_le_bytes 4 (rotate_right_u32 (from_le_bytes m) (offset * 8)) in
    apply_mask arch addr d rotated_mask.

(** ** Masked copy into an uninitialised destination (frame.rs)

    The destination is write-only: each function returns the bytes it stores. *)

Definition copy_mask_block (src : bytes) (mask : Z) : bytes :=
  concat (map (xor_word mask) (fst (as_chunks 8 src))).

(** [if let Some((src, rest)) = src_tail.split_first_chunk::<N>()] *)
Definition copy_mask_step (n : nat) (mask : Z) (src : bytes) : bytes * bytes :=
  if Z.of_nat n <=? len src then (copy_mask_block (take n src) mask, drop n src) else ([], src).

Definition copy_mask_words (src m : bytes) : bytes :=
  let mask_u32 := from_le_bytes m in
  let mask_u64 := Z.lor mask_u32 (Z.shiftl mask_u32 32) in
  let '(blocks, tail) := as_chunks 64 src in
  let o := concat (map (fun b => copy_mask_block b mask_u64) blocks) in
  let '(o32, tail) := copy_mask_step 32 mask_u64 tail in
  let '(o16, tail) := copy_mask_step 16 mask_u64 tail in
  let '(o8, tail) := copy_mask_step 8 mask_u64 tail in
  let '(words, tail) := as_chunks 4 tail in
  o ++ o32 ++ o16 ++ o8 ++ concat (map (xor_word mask_u32) words) ++
  imap (fun i b => Z.lxor b m.[Z.of_nat i]) tail.

Definition copy_mask_long (src m : bytes) : bytes :=
  let mask_u32 := from_le_bytes m in
  let mask_u64 := Z.lor mask_u32 (Z.shiftl mask_u32 32) in
  let '(blocks, tail) := as_chunks 256 src in
  concat (map (fun b => copy_mask_block b mask_u64) blocks) ++ copy_mask_words tail m.

Definition encode_payload_masked_inline (src m : bytes) : bytes :=
  if 256 <=? len src then copy_mask_long src m else copy_mask_words src m.

(** ** The generator of builds without a random-number feature (mask.rs)

    [nanos] is the clock reading and [state_addr] the address of the static; the
    result is the four bytes and the state stored back. *)

Definition rotate_left_u64 (x k : Z) : Z := Z.lor (wrap 64 (Z.shiftl x k)) (Z.shiftr x (64 - k)).

Definition generate_fallback (nanos state_addr state : Z) : bytes * Z :=
  let x := if state =? 0
           then Z.lxor (Z.lxor (wrap 64 nanos) (rotate_left_u64 state_addr 17)) 0x9e3779b97f4a7c15
           else state in
  let x := Z.lxor x (Z.shiftr x 12) in
  let x := Z.lxor x (wrap 64 (Z.shiftl x 25)) in
  let x := Z.lxor x (Z.shiftr x 27) in
  let value := wrap 64 (x * 0x2545f4914f6cdd1d) in
  (to_le_bytes 4 (wrap 32 value), x).

(** [generate_key_bytes_inner]: four draws, each from the state the last one left. *)
Fixpoint fallback_chunks (n : nat) (nanos state_addr state : Z) : bytes * Z :=
  match n with
  | O => ([], state)
  | S k => let '(b, s1) := generate_fallback nanos state_addr state in
           let '(r, s2) := fallback_chunks k nanos state_addr s1 in (b ++ r, s2)
  end.
Definition generate_key_bytes (nanos state_addr state : Z) : bytes * Z :=
  fallback_chunks 4 nanos state_addr state.

(** ** Correctness of the kernels *)

Lemma land3 a : Z.land a 3 = a mod 4.
Proof. exact (Z.land_ones a 2 ltac:(lia)). Qed.

Lemma mask_spec_app m off d e :
  mask_spec m off (d ++ e) = mask_spec m off d ++ mask_spec m (off + len d) e.
Proof.
  revert off. induction d as [|b d IH]; intros off; cbn [app mask_spec].
  - by rewrite len_nil, Z.add_0_r.
  - rewrite IH, len_cons. by replace (off + 1 + len d) with (off + (1 + len d)) by lia.
Qed.

Lemma len_mask_spec m off d : len (mask_spec m off d) = len d.
Proof. revert off. induction d; intros; cbn [mask_spec]; [done|]. by rewrite !len_cons, IHd. Qed.
#[export] Hint Rewrite len_mask_spec : len.

Lemma mask_spec_mod m off off' d : off mod 4 = off' mod 4 ->
  mask_spec m off d = mask_spec m off' d.
Proof.
  revert off off'. induction d as [|b d IH]; intros off off' H; cbn; [done|].
  rewrite !land3, H. f_equal. apply IH. rewrite <- (Zplus_mod_idemp_l off), H.
  by rewrite Zplus_mod_idemp_l.
Qed.

(** Masking is an involution: the receiver undoes what the sender did. *)
Lemma mask_spec_involutive m off d : mask_spec m off (mask_spec m off d) = d.
Proof.
  revert off. induction d as [|b d IH]; intros off; cbn; [done|].
  rewrite IH, Z.lxor_assoc, Z.lxor_nilpotent, Z.lxor_0_r. done.
Qed.

Lemma mask_spec_ok m off d : bytes_ok m -> bytes_ok d -> bytes_ok (mask_spec m off d).
Proof.
  intros Hm Hd. revert off. induction Hd; intros; cbn; constructor; [|apply IHHd].
  apply lxor_is_byte; auto with ws.
Qed.
#[export] Hint Resolve mask_spec_ok : ws.

(** A four-byte key is four bytes. *)
Lemma key4 (m : bytes) : len m = 4 -> exists a b c e, m = [a; b; c; e].
Proof.
  unfold len. intros H. destruct m as [|a [|b [|c [|e [|x m]]]]]; cbn in H; try lia. eauto.
Qed.

Lemma mod4_cases k : k mod 4 = 0 \/ k mod 4 = 1 \/ k mod 4 = 2 \/ k mod 4 = 3.
Proof. pose proof (Z.mod_pos_bound k 4). lia. Qed.

Lemma rotated_at m k j : (rotated m k).[Z.land j 3] = m.[Z.land (k + j) 3].
Proof.
  rewrite !land3. rewrite Z.add_mod by lia. unfold rotated. rewrite !land3.
  rewrite !(Z.add_mod k) by lia. change (1 mod 4) with 1. change (2 mod 4) with 2.
  change (3 mod 4) with 3.
  by destruct (mod4_cases j) as [-> | [-> | [-> | ->]]];
  destruct (mod4_cases k) as [-> | [-> | [-> | ->]]].
Qed.

Lemma mask_rotated m k off d : mask_spec (rotated m k) off d = mask_spec m (k + off) d.
Proof.
  revert off. induction d as [|b d IH]; intros off; cbn [mask_spec]; [done|].
  rewrite rotated_at, IH. by replace (k + (off + 1)) with (k + off + 1) by lia.
Qed.

Lemma rotated_0 m : len m = 4 -> rotated m 0 = m.
Proof. intros H. destruct (key4 m H) as (? & ? & ? & ? & ->). done. Qed.

Lemma rotated_ok m k : bytes_ok m -> bytes_ok (rotated m k).
Proof. intros. unfold rotated. repeat constructor; apply at_byte; done. Qed.
#[export] Hint Resolve rotated_ok : ws.

(** A register of [n] copies of the key masks [4 * n] bytes. *)
Lemma zip_repeat a b c e n d : length d = (4 * n)%nat ->
  zip_with Z.lxor d (concat (replicate n [a; b; c; e])) = mask_spec [a; b; c; e] 0 d.
Proof.
  revert d. induction n as [|n IH]; intros d H.
  - destruct d; [done|]. cbn in H. lia.
  - destruct d as [|p [|q [|r [|s d]]]]; cbn in H; try lia.
    cbn [replicate concat app zip_with]. rewrite IH by lia.
    change (p :: q :: r :: s :: d) with ([p; q; r; s] ++ d). rewrite mask_spec_app.
    rewrite (mask_spec_mod _ (0 + len [p; q; r; s]) 0) by done. done.
Qed.

Lemma to_from_le4 a b c e : bytes_ok [a; b; c; e] ->
  to_le_bytes 4 (from_le_bytes [a; b; c; e]) = [a; b; c; e].
Proof. apply (to_from_le_bytes [a; b; c; e]). Qed.

Lemma xor_si_spec n m d : len m = 4 -> bytes_ok m -> length d = (4 * n)%nat ->
  xor_si d (set1_epi32 n (from_le_bytes m)) = mask_spec m 0 d.
Proof.
  intros Hm Hok Hd. destruct (key4 m Hm) as (a & b & c & e & ->).
  unfold xor_si, set1_epi32. rewrite to_from_le4 by done. by apply zip_repeat.
Qed.

Lemma xor_word_spec n m w : len m = 4 -> bytes_ok m -> bytes_ok w -> length w = (4 * n)%nat ->
  xor_word (from_le_bytes (concat (replicate n m))) w = mask_spec m 0 w.
Proof.
  intros Hm Hok Hw Hlen. destruct (key4 m Hm) as (a & b & c & e & ->).
  unfold xor_word. rewrite word_lxor; [by apply zip_repeat| | done |].
  - rewrite Hlen. clear. induction n; cbn in *; [done|]. rewrite <- IHn. lia.
  - clear -Hok. induction n; cbn; [by constructor|]. apply (bytes_ok_app [a; b; c; e]). done.
Qed.

(** ** Chunked loops *)

Lemma chunks_n_spec k n l cs r : (k * n <= length l)%nat -> chunks_n k n l = (cs, r) ->
  concat cs ++ r = l /\ Forall (fun c => length c = n) cs /\ (length r = length l - k * n)%nat.
Proof.
  revert l cs r. induction k as [|k IH]; intros l cs r Hk; cbn [chunks_n].
  - intros [= <- <-]. repeat split; [constructor|cbn; lia].
  - destruct (chunks_n k n (drop n l)) as [cs' r'] eqn:E. intros [= <- <-].
    apply IH in E as (E1 & E2 & E3); [|rewrite length_drop; cbn in Hk; lia].
    cbn [concat]. rewrite <- app_assoc, E1, take_drop. repeat split.
    + constructor; [rewrite length_take; cbn in Hk; lia|done].
    + rewrite E3, length_drop. cbn. lia.
Qed.

Lemma as_chunks_spec n l cs r : n <> O -> as_chunks n l = (cs, r) ->
  concat cs ++ r = l /\ Forall (fun c => length c = n) cs /\ (length r < n)%nat.
Proof.
  intros Hn H. pose proof (Nat.div_mod_eq (length l) n). pose proof (Nat.mod_upper_bound (length l) n).
  apply chunks_n_spec in H as (E1 & E2 & E3); [|lia]. repeat split; [done|done|lia].
Qed.

(** A loop over chunks whose length is a multiple of four keeps the phase. *)
Lemma masked_chunks m n f cs r : (n mod 4 = 0)%nat -> bytes_ok (concat cs) ->
  (forall c, bytes_ok c -> length c = n -> f c = mask_spec m 0 c) ->
  Forall (fun c => length c = n) cs ->
  concat (map f cs) ++ mask_spec m 0 r = mask_spec m 0 (concat cs ++ r).
Proof.
  intros Hn Hok Hf. induction 1 as [|c cs Hc Hcs IH]; [done|]. cbn [map concat] in *.
  apply bytes_ok_app in Hok as [Hok1 Hok2].
  rewrite Hf, <- !app_assoc, IH by done. rewrite (mask_spec_app m 0 c). f_equal.
  apply mask_spec_mod. unfold len. rewrite Hc, Z.add_0_l.
  apply (f_equal Z.of_nat) in Hn. rewrite Nat2Z.inj_mod in Hn. symmetry. exact Hn.
Qed.

Lemma mask_tail_spec m d : mask_tail m d = mask_spec m 0 d.
Proof.
  unfold mask_tail. rewrite <- (imap_ext (fun i b => Z.lxor b m.[Z.land (0 + Z.of_nat i) 3])) by done.
  generalize 0. induction d as [|b d IH]; intros off; [done|]. cbn. f_equal.
  - by rewrite Z.add_0_r.
  - rewrite <- IH. apply imap_ext. intros i x _. cbn.
    by replace (off + Z.of_nat (S i)) with (off + 1 + Z.of_nat i) by lia.
Qed.

(** One chunked loop over a slice, in one step. *)
Lemma as_chunks_masked m n d cs r : (n mod 4 = 0)%nat -> n <> O -> bytes_ok d ->
  as_chunks n d = (cs, r) ->
  bytes_ok r /\ (length r < n)%nat /\
  forall f, (forall c, bytes_ok c -> length c = n -> f c = mask_spec m 0 c) ->
    concat (map f cs) ++ mask_spec m 0 r = mask_spec m 0 d.
Proof.
  intros Hn Hn0 Hd E. apply as_chunks_spec in E as (<- & Hcs & Hr); [|done].
  apply bytes_ok_app in Hd as [Hd1 Hd2]. split; [done|]. split; [done|].
  intros f Hf. by eapply masked_chunks.
Qed.

Lemma word64_spec m w : len m = 4 -> bytes_ok m -> bytes_ok w -> length w = 8%nat ->
  xor_word (from_le_bytes [m.[0]; m.[1]; m.[2]; m.[3]; m.[0]; m.[1]; m.[2]; m.[3]]) w
  = mask_spec m 0 w.
Proof.
  intros Hm Hok Hw Hlen. pose proof (xor_word_spec 2 m w Hm Hok Hw Hlen) as H.
  by destruct (key4 m Hm) as (a & b & c & e & ->).
Qed.

Lemma apply_mask_words_spec d m : len m = 4 -> bytes_ok m -> bytes_ok d ->
  apply_mask_words d m = mask_spec m 0 d.
Proof.
  intros Hm Hok Hd. unfold apply_mask_words.
  destruct (as_chunks 64 d) as [blocks rest] eqn:E1.
  destruct (as_chunks 8 rest) as [words tail] eqn:E2.
  assert (Hw : forall c, bytes_ok c -> length c = 8%nat -> xor_word (from_le_bytes
    [m.[0]; m.[1]; m.[2]; m.[3]; m.[0]; m.[1]; m.[2]; m.[3]]) c = mask_spec m 0 c)
    by (intros; by apply word64_spec).
  apply (as_chunks_masked m 64) in E1 as (Hrest & _ & E1); [|done..].
  apply (as_chunks_masked m 8) in E2 as (_ & _ & E2); [|done..].
  etransitivity; [|eapply E1].
  - rewrite <- (E2 _ Hw), mask_tail_spec. reflexivity.
  - intros c Hc Hlen. cbn beta. destruct (as_chunks 8 c) as [ws r] eqn:E3.
    assert (r = []) as ->.
    { unfold as_chunks in E3. rewrite Hlen in E3. apply chunks_n_spec in E3 as (_ & _ & Hr).
      - destruct r; [done|]. rewrite Hlen in Hr. cbn in Hr. lia.
      - rewrite Hlen. cbn. lia. }
    apply (as_chunks_masked m 8) in E3 as (_ & _ & E3); [|done..]. by rewrite <- (E3 _ Hw).
Qed.

Lemma apply_mask_blocks_spec addr d m : len m = 4 -> bytes_ok m -> bytes_ok d ->
  apply_mask_blocks addr d m = mask_spec m 0 d.
Proof.
  intros Hm Hok Hd. unfold apply_mask_blocks.
  destruct (len d <? ALIGNED_BLOCKS_MIN_LEN); [by apply apply_mask_words_spec|].
  set (p := if Z.land addr 15 =? 0 then 0 else _). assert (0 <= p <= len d) as Hp.
  { unfold p. pose proof (land_range addr 15). pose proof (len_nonneg d).
    destruct (Z.land addr 15 =? 0); lia. }
  rewrite mask_tail_spec, apply_mask_words_spec by (auto with ws).
  rewrite mask_rotated. rewrite <- (upto_from p d) at 3. rewrite mask_spec_app, len_upto by lia.
  by rewrite Z.add_0_r, Z.add_0_l.
Qed.

(** ** The scalar kernel *)

Lemma scalar_prefix_spec addr i idx m d w r idx' : 0 <= idx < 4 ->
  scalar_prefix addr i idx m d = (w, r, idx') ->
  exists p, d = p ++ r /\ w = mask_spec m idx p /\ idx' = Z.land (idx + len p) 3.
Proof.
  revert i idx w idx'. induction d as [|b d IH]; intros i idx w idx' Hidx; cbn.
  - intros [= <- <- <-]. exists []. rewrite len_nil, land3, Z.add_0_r, Z.mod_small by lia. done.
  - destruct (Z.land (addr + i) 7 =? 0).
    + intros [= <- <- <-]. exists []. rewrite len_nil, land3, Z.add_0_r, Z.mod_small by lia. done.
    + destruct (scalar_prefix _ _ _ _ _) as [[w' r'] idx''] eqn:E. intros [= <- <- <-].
      apply IH in E as (p & -> & -> & ->); [|rewrite land3; apply Z.mod_pos_bound; lia].
      exists (b :: p). cbn [mask_spec app]. rewrite !land3, len_cons. split; [done|]. split.
      * rewrite (Z.mod_small idx) by lia. f_equal. apply mask_spec_mod. by rewrite Z.mod_mod by lia.
      * rewrite Zplus_mod_idemp_l. f_equal. lia.
Qed.

Lemma scalar_words_spec fuel m mask d w r : bytes_ok d ->
  (forall c, bytes_ok c -> length c = 8%nat -> xor_word mask c = mask_spec m 0 c) ->
  scalar_words fuel mask d = (w, r) -> w ++ mask_spec m 0 r = mask_spec m 0 d.
Proof.
  intros Hd Hw. revert d w r Hd. induction fuel as [|n IH]; intros d w r Hd; cbn [scalar_words].
  - by intros [= <- <-].
  - destruct (Z.leb_spec 8 (len d)); [|by intros [= <- <-]].
    destruct (scalar_words n _ _) as [w' r'] eqn:E. intros [= <- <-].
    apply IH in E; [|auto with ws]. rewrite <- app_assoc, E. rewrite Hw; auto with ws.
    + rewrite <- (upto_from 8 d) at 3. rewrite mask_spec_app, len_upto by lia. f_equal.
      by apply mask_spec_mod.
    + pose proof (len_upto 8 d) as Hl. unfold len in Hl, H. lia.
Qed.

Lemma scalar_tail_spec idx m d : 0 <= idx < 4 -> scalar_tail idx m d = mask_spec m idx d.
Proof.
  revert idx. induction d as [|b d IH]; intros idx Hidx; cbn; [done|].
  rewrite IH by (rewrite land3; apply Z.mod_pos_bound; lia).
  rewrite (land3 idx), (Z.mod_small idx 4) by lia.
  f_equal. apply mask_spec_mod. by rewrite land3, Z.mod_mod by lia.
Qed.

Lemma apply_mask_scalar_offset_spec addr d m off : len m = 4 -> bytes_ok m -> bytes_ok d ->
  apply_mask_scalar_offset addr d m off = mask_spec m off d.
Proof.
  intros Hm Hok Hd. unfold apply_mask_scalar_offset.
  destruct (Z.eqb_spec (len d) 0) as [->%len_0_nil|_]; [done|].
  destruct (scalar_prefix _ _ _ _ _) as [[w1 r1] idx] eqn:E1.
  assert (0 <= Z.land off 3 < 4) as Hoff by (rewrite land3; apply Z.mod_pos_bound; lia).
  apply scalar_prefix_spec in E1 as (p & -> & -> & Hidx); [|done].
  apply bytes_ok_app in Hd as [Hp Hr1].
  assert (Hi : 0 <= idx < 4) by (rewrite Hidx, land3; apply Z.mod_pos_bound; lia).
  rewrite mask_spec_app, (mask_spec_mod m (Z.land off 3) off) by (by rewrite land3, Z.mod_mod).
  rewrite (mask_spec_mod m (off + len p) idx).
  2:{ rewrite Hidx, !land3, Z.mod_mod, Zplus_mod_idemp_l by lia. done. }
  destruct (8 <=? len r1); [|by rewrite scalar_tail_spec].
  destruct (scalar_words _ _ _) as [w2 r2] eqn:E2. f_equal.
  apply (scalar_words_spec _ (rotated m idx)) in E2; [|done|].
  - rewrite !mask_rotated, Z.add_0_r in E2. by rewrite scalar_tail_spec.
  - intros c Hc Hlen. rewrite <- word64_spec by auto with ws. unfold rotated, at_; cbn.
    by rewrite (land3 idx), (Z.mod_small idx) by lia.
Qed.

(** ** The vector kernels *)

Lemma vector_loop_spec fuel w m vec d o r : (w mod 4 = 0)%nat -> bytes_ok d ->
  (forall c, length c = w -> xor_si c vec = mask_spec m 0 c) ->
  vector_loop fuel w vec d = (o, r) -> bytes_ok r /\ o ++ mask_spec m 0 r = mask_spec m 0 d.
Proof.
  intros Hw Hd Hv. revert d o r Hd. induction fuel as [|n IH]; intros d o r Hd; cbn [vector_loop].
  - by intros [= <- <-].
  - destruct (Z.leb_spec (Z.of_nat w) (len d)) as [Hle|]; [|by intros [= <- <-]].
    destruct (vector_loop n _ _ _) as [o' r'] eqn:E. intros [= <- <-].
    apply IH in E as [Hr E]; [|by apply Forall_drop]. split; [done|].
    assert (length (take w d) = w) as Hlen by (rewrite length_take; unfold len in Hle; lia).
    rewrite <- app_assoc, E, Hv by done.
    rewrite <- (take_drop w d) at 3. rewrite mask_spec_app. f_equal. apply mask_spec_mod.
    unfold len. rewrite Hlen, Z.add_0_l.
    apply (f_equal Z.of_nat) in Hw. rewrite Nat2Z.inj_mod in Hw. symmetry. exact Hw.
Qed.

Lemma align_prefix_spec w addr d m p body off : 0 < w -> len m = 4 -> bytes_ok m -> bytes_ok d ->
  align_prefix w addr d m = (p, body, off) ->
  0 <= off < 4 /\ bytes_ok body /\ p ++ mask_spec m off body = mask_spec m 0 d.
Proof.
  intros Hw Hm Hok Hd. unfold align_prefix. destruct (Z.eqb_spec (Z.land addr (w - 1)) 0).
  - intros [= <- <- <-]. done.
  - intros [= <- <- <-]. pose proof (land_range addr (w - 1)).
    set (k := Z.min _ _). assert (0 <= k <= len d) by (unfold k; pose proof (len_nonneg d); lia).
    rewrite apply_mask_scalar_offset_spec by auto with ws. split_and!.
    1,2: rewrite land3; apply Z.mod_pos_bound; lia.
    + auto with ws.
    + rewrite <- (upto_from k d) at 3. rewrite mask_spec_app, len_upto by lia. f_equal.
      apply mask_spec_mod. by rewrite land3, Z.mod_mod by lia.
Qed.

Lemma scalar_rest_spec addr d m off : len m = 4 -> bytes_ok m -> bytes_ok d ->
  scalar_rest addr d m off = mask_spec m off d.
Proof.
  intros Hm Hok Hd. unfold scalar_rest. destruct (Z.ltb_spec 0 (len d)).
  - by apply apply_mask_scalar_offset_spec.
  - assert (len d = 0) as ->%len_0_nil by (pose proof (len_nonneg d); lia). done.
Qed.

(** The shape the three x86 kernels share: prefix, vector loop, scalar rest. *)
Lemma vector_kernel_spec w n addr d m p body off v r : (w = 4 * n)%nat -> (0 < n)%nat ->
  len m = 4 -> bytes_ok m -> bytes_ok d ->
  align_prefix (Z.of_nat w) addr d m = (p, body, off) ->
  vector_loop (length body) w (set1_epi32 n (from_le_bytes (rotated m off))) body = (v, r) ->
  bytes_ok r /\ p ++ v ++ mask_spec m off r = mask_spec m 0 d.
Proof.
  intros -> Hn Hm Hok Hd Hp Hv. apply align_prefix_spec in Hp as (Hoff & Hbody & <-); [|lia|done..].
  apply (vector_loop_spec _ _ (rotated m off)) in Hv as [Hr Hv]; [|by rewrite Nat.mul_comm, Nat.Div0.mod_mul|done|].
  - rewrite !mask_rotated, Z.add_0_r in Hv. by rewrite Hv.
  - intros c Hc. apply xor_si_spec; auto with ws.
Qed.

Lemma apply_mask_avx512_spec addr d m : len m = 4 -> bytes_ok m -> bytes_ok d ->
  apply_mask_avx512_aligned addr d m = mask_spec m 0 d.
Proof.
  intros Hm Hok Hd. unfold apply_mask_avx512_aligned.
  destruct (Z.eqb_spec (len d) 0) as [->%len_0_nil|_]; [done|].
  destruct (align_prefix _ _ _ _) as [[p body] off] eqn:E1.
  destruct (vector_loop _ _ _ _) as [v r] eqn:E2.
  edestruct (vector_kernel_spec 64 16) as [Hr <-]; [..|done|done|]; try done; try lia.
  by rewrite scalar_rest_spec.
Qed.

Lemma apply_mask_sse2_spec addr d m : len m = 4 -> bytes_ok m -> bytes_ok d ->
  apply_mask_sse2_aligned addr d m = mask_spec m 0 d.
Proof.
  intros Hm Hok Hd. unfold apply_mask_sse2_aligned.
  destruct (Z.eqb_spec (len d) 0) as [->%len_0_nil|_]; [done|].
  destruct (align_prefix _ _ _ _) as [[p body] off] eqn:E1.
  destruct (vector_loop _ _ _ _) as [v r] eqn:E2.
  edestruct (vector_kernel_spec 16 4) as [Hr <-]; [..|done|done|]; try done; try lia.
  by rewrite scalar_rest_spec.
Qed.

Lemma apply_mask_avx2_spec addr d m : len m = 4 -> bytes_ok m -> bytes_ok d ->
  apply_mask_avx2_aligned addr d m = mask_spec m 0 d.
Proof.
  intros Hm Hok Hd. unfold apply_mask_avx2_aligned.
  destruct (Z.eqb_spec (len d) 0) as [->%len_0_nil|_]; [done|].
  destruct (align_prefix _ _ _ _) as [[p body] off] eqn:E1.
  destruct (vector_loop _ _ _ _) as [v r] eqn:E2.
  edestruct (vector_kernel_spec 32 8) as [Hr <-]; [..|done|done|]; try done; try lia.
  destruct (Z.leb_spec 16 (len r)) as [Hle|]; [|by rewrite scalar_rest_spec].
  assert (length (take 16 r) = 16%nat) as H16 by (rewrite length_take; unfold len in Hle; lia).
  rewrite scalar_rest_spec by (auto; by apply Forall_drop).
  rewrite (xor_si_spec 4) by auto with ws. rewrite mask_rotated, Z.add_0_r.
  rewrite <- (take_drop 16 r) at 3. rewrite mask_spec_app. do 3 f_equal. apply mask_spec_mod.
  unfold len. rewrite H16. change (Z.of_nat 16) with (4 * 4). by rewrite Z.mod_add.
Qed.

(** On x86-64 SSE2 is part of the baseline, so run-time detection reports it. *)
Definition arch_ok (a : Arch) : Prop :=
  match a with X86_64 cpu => sse2 cpu = true | _ => True end.

Lemma apply_mask_spec arch addr d m : arch_ok arch -> len m = 4 -> bytes_ok m -> bytes_ok d ->
  apply_mask arch addr d m = mask_spec m 0 d.
Proof.
  intros Ha Hm Hok Hd. unfold apply_mask.
  destruct (Z.eqb_spec (len d) 0) as [->%len_0_nil|_]; [done|].
  destruct arch as [cpu| |]; [|by apply apply_mask_blocks_spec..]. cbn in Ha.
  destruct (avx512f cpu && avx512bw cpu); [by apply apply_mask_avx512_spec|].
  destruct (avx2 cpu); [by apply apply_mask_avx2_spec|].
  rewrite Ha. by apply apply_mask_sse2_spec.
Qed.

Lemma rotate_right_bytes l k : len l + len k = 4 -> bytes_ok l -> bytes_ok k ->
  rotate_right_u32 (from_le_bytes (l ++ k)) (len l * 8) = from_le_bytes (k ++ l).
Proof.
  intros Hlen Hl Hk. pose proof (len_nonneg l). pose proof (len_nonneg k).
  pose proof (from_le_bytes_bound l Hl) as Bl. pose proof (from_le_bytes_bound k Hk) as Bk.
  assert (P : forall n, 0 <= n -> 256 ^ n = 2 ^ (n * 8)).
  { intros n Hn. change 256 with (2 ^ 8). rewrite <- Z.pow_mul_r by lia. f_equal. lia. }
  unfold rotate_right_u32, wrap. rewrite !from_le_bytes_app, !P by lia. rewrite P in Bl, Bk by lia.
  rewrite Z.shiftr_div_pow2, (Z.mul_comm (2 ^ _)), Z.div_add, Z.div_small, Z.add_0_l by lia.
  rewrite Z.shiftl_mul_pow2, Z.mul_add_distr_r, <- Z.mul_assoc, <- Z.pow_add_r by lia.
  replace (len l * 8 + (32 - len l * 8)) with 32 by lia. rewrite Z.mod_add by lia.
  replace (32 - len l * 8) with (len k * 8) by lia. rewrite Z.mod_small.
  - rewrite <- Z.shiftl_mul_pow2 by lia. by rewrite lor_shiftl by lia.
  - split; [lia|]. replace 32 with (len l * 8 + len k * 8) by lia. rewrite Z.pow_add_r by lia. nia.
Qed.

Lemma rotate_right_rotated m k : len m = 4 -> bytes_ok m -> 0 <= k < 4 ->
  to_le_bytes 4 (rotate_right_u32 (from_le_bytes m) (k * 8)) = rotated m k.
Proof.
  intros Hm Hok Hk. rewrite <- (upto_from k m) at 1.
  replace (k * 8) with (len (upto k m) * 8) by (rewrite len_upto; lia).
  rewrite rotate_right_bytes by (auto with ws; autorewrite with len; lia).
  assert (k = 0 \/ k = 1 \/ k = 2 \/ k = 3) as Hc by lia.
  destruct (key4 m Hm) as (a & b & c & e & ->).
  assert (Hc' : bytes_ok (from k [a; b; c; e] ++ upto k [a; b; c; e])) by (apply bytes_ok_app; auto with ws).
  apply to_from_le_bytes in Hc'.
  by destruct Hc as [-> | [-> | [-> | ->]]].
Qed.

Lemma apply_mask_offset_spec arch addr d m off : arch_ok arch -> len m = 4 -> bytes_ok m ->
  bytes_ok d -> apply_mask_offset arch addr d m off = mask_spec m off d.
Proof.
  intros Ha Hm Hok Hd. unfold apply_mask_offset. destruct (Z.eqb_spec off 0) as [->|_].
  - by apply apply_mask_spec.
  - assert (0 <= Z.land off 3 < 4) as Hoff by (rewrite land3; apply Z.mod_pos_bound; lia).
    rewrite rotate_right_rotated by done.
    rewrite apply_mask_spec, mask_rotated by auto with ws.
    apply mask_spec_mod. by rewrite Z.add_0_r, land3, Z.mod_mod by lia.
Qed.

(** ** The masked copy *)

Lemma mask_u64_bytes m : len m = 4 -> bytes_ok m ->
  Z.lor (from_le_bytes m) (Z.shiftl (from_le_bytes m) 32) = from_le_bytes (concat (replicate 2 m)).
Proof.
  intros Hm Hok. pose proof (from_le_bytes_bound m Hok) as B. rewrite Hm in B.
  rewrite lor_shiftl by (change (2 ^ 32) with (256 ^ 4); lia). cbn [replicate concat].
  rewrite !from_le_bytes_app, Hm. change (256 ^ 4) with (2 ^ 32). cbn [from_le_bytes]. lia.
Qed.

Section masked_copy.
Context (m : bytes) (Hm : len m = 4) (Hok : bytes_ok m).

Let mask_u64 := Z.lor (from_le_bytes m) (Z.shiftl (from_le_bytes m) 32).

Lemma copy_word64 c : bytes_ok c -> length c = 8%nat -> xor_word mask_u64 c = mask_spec m 0 c.
Proof. intros. unfold mask_u64. rewrite mask_u64_bytes by done. by apply xor_word_spec. Qed.

Lemma copy_mask_block_spec n c : (n mod 8 = 0)%nat -> bytes_ok c -> length c = n ->
  copy_mask_block c mask_u64 = mask_spec m 0 c.
Proof.
  intros Hn Hc Hlen. unfold copy_mask_block. destruct (as_chunks 8 c) as [ws r] eqn:E. cbn [fst].
  assert (r = []) as ->.
  { unfold as_chunks in E. apply chunks_n_spec in E as (_ & _ & Hr).
    - destruct r; [done|]. pose proof (Nat.div_mod_eq n 8). rewrite Hlen in Hr. cbn [length] in Hr. lia.
    - pose proof (Nat.div_mod_eq (length c) 8). lia. }
  apply (as_chunks_masked m 8) in E as (_ & _ & E); [|done..].
  by rewrite <- (E _ copy_word64), app_nil_r.
Qed.

Lemma copy_mask_step_spec n src o tail : (n mod 8 = 0)%nat -> bytes_ok src ->
  copy_mask_step n mask_u64 src = (o, tail) ->
  bytes_ok tail /\ o ++ mask_spec m 0 tail = mask_spec m 0 src.
Proof.
  intros Hn Hs. unfold copy_mask_step. destruct (Z.leb_spec (Z.of_nat n) (len src)) as [Hle|].
  - intros [= <- <-]. assert (length (take n src) = n) as Hl by (rewrite length_take; unfold len in Hle; lia).
    rewrite (copy_mask_block_spec n) by (auto; by apply Forall_take).
    split; [by apply Forall_drop|]. rewrite <- (take_drop n src) at 3. rewrite mask_spec_app.
    f_equal. apply mask_spec_mod. unfold len. rewrite Hl, Z.add_0_l.
    replace n with (4 * (2 * (n / 8)))%nat by (pose proof (Nat.div_mod_eq n 8); lia).
    rewrite Nat2Z.inj_mul, Z.mul_comm. by rewrite Z.mod_mul.
  - by intros [= <- <-].
Qed.

Lemma copy_mask_words_spec src : bytes_ok src -> copy_mask_words src m = mask_spec m 0 src.
Proof.
  intros Hs. unfold copy_mask_words. fold mask_u64.
  destruct (as_chunks 64 src) as [blocks t0] eqn:E0.
  apply (as_chunks_masked m 64) in E0 as (H0 & _ & E0); [|done..].
  destruct (copy_mask_step 32 _ _) as [o32 t1] eqn:E1.
  apply copy_mask_step_spec in E1 as [H1 E1]; [|done..].
  destruct (copy_mask_step 16 _ _) as [o16 t2] eqn:E2.
  apply copy_mask_step_spec in E2 as [H2 E2]; [|done..].
  destruct (copy_mask_step 8 _ _) as [o8 t3] eqn:E3.
  apply copy_mask_step_spec in E3 as [H3 E3]; [|done..].
  destruct (as_chunks 4 t3) as [words t4] eqn:E4.
  apply (as_chunks_masked m 4) in E4 as (_ & Hlt & E4); [|done..].
  etransitivity; [|apply (E0 (fun b => copy_mask_block b mask_u64));
    intros; by apply (copy_mask_block_spec 64)].
  rewrite <- E1, <- E2, <- E3, <- (E4 (xor_word (from_le_bytes m))).
  - do 5 f_equal. rewrite <- mask_tail_spec. apply imap_ext. intros i x Hi%lookup_lt_Some.
    rewrite land3, Z.mod_small by lia. done.
  - intros c Hc Hlen. rewrite <- (xor_word_spec 1) by done. cbn [replicate concat].
    by rewrite app_nil_r.
Qed.

(** The masked copy writes exactly the masked payload, whatever its length. *)
Lemma encode_payload_masked_spec src : bytes_ok src ->
  encode_payload_masked_inline src m = mask_spec m 0 src.
Proof.
  intros Hs. unfold encode_payload_masked_inline. destruct (256 <=? len src).
  - unfold copy_mask_long. fold mask_u64. destruct (as_chunks 256 src) as [blocks t] eqn:E.
    apply (as_chunks_masked m 256) in E as (Ht & _ & E); [|done..].
    rewrite copy_mask_words_spec by done.
    apply E. intros. by apply (copy_mask_block_spec 256).
  - by apply copy_mask_words_spec.
Qed.
End masked_copy.

(** The generated mask is four bytes and the generated nonce sixteen. *)
Lemma generate_fallback_ok nanos addr state :
  bytes_ok (fst (generate_fallback nanos addr state)) /\
  len (fst (generate_fallback nanos addr state)) = 4.
Proof. split; [apply to_le_bytes_ok|done]. Qed.

(** ** Properties *)



(** Streaming unmask: masking a payload in one go on one machine and
    unmasking it on another in two reads, at unrelated addresses, gives back the
    payload, wherever the read boundary falls. *)
Theorem unmask_in_two_reads a1 a2 a3 arch arch' d e m :
  arch_ok arch -> arch_ok arch' -> len m = 4 -> bytes_ok m -> bytes_ok (d ++ e) ->
  let wire := apply_mask arch a1 (d ++ e) m in
  apply_mask_offset arch' a2 (upto (len d) wire) m 0 ++
  apply_mask_offset arch' a3 (from (len d) wire) m (len d) = d ++ e.
Proof.
  intros Ha Ha' Hm Hok Hde wire. unfold wire. rewrite apply_mask_spec by done.
  rewrite !apply_mask_offset_spec by auto with ws.
  rewrite mask_spec_app, <- (len_mask_spec m 0 d), upto_app_exact, from_app_exact.
  by rewrite len_mask_spec, Z.add_0_l, !mask_spec_involutive.
Qed.

