(* ===== verification/Utf8.v ===== *)
(** * UTF-8 validation (src/src/utf8.rs)

    One-shot validation, the incremental validator [Utf8Stream] that carries an
    incomplete code point from chunk to chunk, and the prefix check
    [validate_utf8_incomplete].  The reference is [scan], which reads a byte
    string from the left and returns its pending incomplete code point. *)

From stdpp Require Import base list.
From S2P Require Import Prelude Error.

Definition in_range (lo hi b : Z) : bool := (lo <=? b) && (b <=? hi).
Definition cont (b : Z) : bool := in_range 0x80 0xBF b.

(** ** Standard library: [std::str::from_utf8(..).is_ok()] *)

(** The second byte allowed after a three- or four-byte lead (RFC 3629). *)
Definition second_ok (a b : Z) : bool :=
  if a =? 0xE0 then in_range 0xA0 0xBF b
  else if a =? 0xED then in_range 0x80 0x9F b
  else if a =? 0xF0 then in_range 0x90 0xBF b
  else if a =? 0xF4 then in_range 0x80 0x8F b
  else cont b.

Fixpoint str_from_utf8 (l : bytes) : bool :=
  match l with
  | [] => true
  | a :: t =>
      if a <? 0x80 then str_from_utf8 t
      else if in_range 0xC2 0xDF a then
        match t with b :: t' => cont b && str_from_utf8 t' | _ => false end
      else if in_range 0xE0 0xEF a then
        match t with b :: c :: t' => second_ok a b && cont c && str_from_utf8 t' | _ => false end
      else if in_range 0xF0 0xF4 a then
        match t with
        | b :: c :: d :: t' => second_ok a b && cont c && cont d && str_from_utf8 t'
        | _ => false
        end
      else false
  end.

(** [String::from_utf8_lossy]: every maximal ill-formed part becomes U+FFFD. *)
Definition replacement : bytes := [0xEF; 0xBF; 0xBD].
Fixpoint from_utf8_lossy (l : bytes) : bytes :=
  match l with
  | [] => []
  | a :: t =>
      if a <? 0x80 then a :: from_utf8_lossy t
      else if in_range 0xC2 0xDF a then
        match t with
        | b :: t' => if cont b then a :: b :: from_utf8_lossy t' else replacement ++ from_utf8_lossy t
        | [] => replacement
        end
      else if in_range 0xE0 0xEF a then
        match t with
        | b :: t' =>
            if second_ok a b then
              match t' with
              | c :: t2 => if cont c then a :: b :: c :: from_utf8_lossy t2
                           else replacement ++ from_utf8_lossy t'
              | [] => replacement
              end
            else replacement ++ from_utf8_lossy t
        | [] => replacement
        end
      else if in_range 0xF0 0xF4 a then
        match t with
        | b :: t' =>
            if second_ok a b then
              match t' with
              | c :: t2 =>
                  if cont c then
                    match t2 with
                    | d :: t3 => if cont d then a :: b :: c :: d :: from_utf8_lossy t3
                                 else replacement ++ from_utf8_lossy t2
                    | [] => replacement
                    end
                  else replacement ++ from_utf8_lossy t'
              | [] => replacement
              end
            else replacement ++ from_utf8_lossy t
        | [] => replacement
        end
      else replacement ++ from_utf8_lossy t
  end.

(** ** The simdutf8 crate

    [simdutf8::basic::from_utf8(..).is_ok()] is a parameter; the crate documents
    that it accepts exactly the strings the standard validator accepts. *)

Class Simdutf8 := basic_from_utf8 : bytes -> bool.
Class Simdutf8Spec `{Simdutf8} : Prop :=
  basic_from_utf8_spec d : basic_from_utf8 d = str_from_utf8 d.

(** The instance that runs the standard validator (the crate's portable fallback). *)
Definition simdutf8_std : Simdutf8 := str_from_utf8.
Lemma simdutf8_std_spec : @Simdutf8Spec simdutf8_std.
Proof. intros d. reflexivity. Qed.

Definition validate_utf8 `{Simdutf8} (data : bytes) : bool := basic_from_utf8 data.

(** ** The incremental validator *)

Definition utf8_sequence_width (lead : Z) : Z :=
  if in_range 0x00 0x7F lead then 1
  else if in_range 0xC0 0xDF lead then 2
  else if in_range 0xE0 0xEF lead then 3
  else if in_range 0xF0 0xF7 lead then 4
  else 0.

Definition second_range (lead : Z) : option (Z * Z) :=
  if in_range 0xC2 0xDF lead then Some (0x80, 0xBF)
  else if lead =? 0xE0 then Some (0xA0, 0xBF)
  else if in_range 0xE1 0xEC lead || in_range 0xEE 0xEF lead then Some (0x80, 0xBF)
  else if lead =? 0xED then Some (0x80, 0x9F)
  else if lead =? 0xF0 then Some (0x90, 0xBF)
  else if in_range 0xF1 0xF3 lead then Some (0x80, 0xBF)
  else if lead =? 0xF4 then Some (0x80, 0x8F)
  else None.

Definition incomplete_prefix_may_be_valid (prefix : bytes) : bool :=
  match prefix with
  | [] => true
  | lead :: rest =>
      match second_range lead with
      | None => false
      | Some (lo, hi) =>
          match rest with
          | [] => true
          | second :: more => in_range lo hi second && forallb cont more
          end
      end
  end.

(** [for back in 1..=n.min(3)] with [k] rounds left. *)
Fixpoint complete_prefix_go (chunk : bytes) (k : nat) (back : Z) : Z :=
  let n := len chunk in
  match k with
  | O => n
  | S k' =>
      let b := chunk.[n - back] in
      if b <? 0x80 then n
      else if 0xC0 <=? b then
        if utf8_sequence_width b >? back then n - back else n
      else complete_prefix_go chunk k' (back + 1)
  end.
Definition complete_prefix_len (chunk : bytes) : Z :=
  complete_prefix_go chunk (Z.to_nat (Z.min (len chunk) 3)) 1.

Module Utf8Stream.
Record t := Mk { carry : bytes; carry_len : Z }.

Definition new : t := Mk [0; 0; 0; 0] 0.
Definition reset (s : t) : t := Mk (carry s) 0.
(** The bytes held back: [&self.carry[..self.carry_len as usize]]. *)
Definition held (s : t) : bytes := upto (carry_len s) (carry s).
Definition finish (s : t) : bool := carry_len s =? 0.
Definition pending (s : t) : Z := carry_len s.

Section push.
Context {SU : Simdutf8}.

(** The end of [push], after the carried code point is out of the way. *)
Definition push_chunk (s : t) (chunk : bytes) : comp t bool :=
  let complete := complete_prefix_len chunk in
  if negb (validate_utf8 (upto complete chunk)) then Done s (Ok false)
  else
    let tail := from complete chunk in
    assert! (len tail <=? 4);
    let s := Mk (blit (carry s) 0 tail) (len tail) in
    Done s (Ok (incomplete_prefix_may_be_valid tail)).

Definition push (s : t) (chunk : bytes) : comp t bool :=
  if 0 <? carry_len s then
    let width := utf8_sequence_width (carry s).[0] in
    let have := carry_len s in
    assert! (have <=? width);
    let take := Z.min (width - have) (len chunk) in
    assert! (have + take <=? 4);
    let s := Mk (blit (carry s) have (upto take chunk)) (have + take) in
    let chunk := from take chunk in
    if carry_len s <? width then Done s (Ok (incomplete_prefix_may_be_valid (held s)))
    else if negb (str_from_utf8 (upto width (carry s))) then Done s (Ok false)
    else push_chunk (Mk (carry s) 0) chunk
  else push_chunk s chunk.

Definition resume (s : t) (suffix : bytes) : comp t bool :=
  if bool_decide (suffix = held s) then Done s (Ok true)
  else push (reset s) suffix.
End push.
End Utf8Stream.

(** ** [validate_utf8_incomplete], over the suffix [data[i..]] *)

Fixpoint validate_utf8_incomplete (data : bytes) : bool * Z :=
  match data with
  | [] => (true, 0)
  | b :: t =>
      if b <? 0x80 then validate_utf8_incomplete t
      else if b <? 0xC0 then (false, 0)
      else if b <? 0xE0 then
        match t with
        | [] => (true, len data)
        | b1 :: t' =>
            if negb (Z.land b1 0xC0 =? 0x80) then (false, 0)
            else if b <? 0xC2 then (false, 0)
            else validate_utf8_incomplete t'
        end
      else if b <? 0xF0 then
        match t with
        | [] => (true, len data)
        | [b1] =>
            if negb (Z.land b1 0xC0 =? 0x80) then (false, 0)
            else if (b =? 0xE0) && (b1 <? 0xA0) then (false, 0)
            else if (b =? 0xED) && (0xA0 <=? b1) then (false, 0)
            else (true, len data)
        | b1 :: b2 :: t' =>
            if negb (Z.land b1 0xC0 =? 0x80) || negb (Z.land b2 0xC0 =? 0x80) then (false, 0)
            else
              let cp := Z.lor (Z.lor (Z.shiftl (Z.land b 0x0F) 12) (Z.shiftl (Z.land b1 0x3F) 6))
                              (Z.land b2 0x3F) in
              if (cp <? 0x800) || in_range 0xD800 0xDFFF cp then (false, 0)
              else validate_utf8_incomplete t'
        end
      else if b <? 0xF5 then
        match t with
        | [] => (true, len data)
        | b1 :: b2 :: b3 :: t' =>
            if negb (Z.land b1 0xC0 =? 0x80) || negb (Z.land b2 0xC0 =? 0x80)
               || negb (Z.land b3 0xC0 =? 0x80) then (false, 0)
            else
              let cp := Z.lor (Z.lor (Z.lor (Z.shiftl (Z.land b 0x07) 18)
                                            (Z.shiftl (Z.land b1 0x3F) 12))
                                     (Z.shiftl (Z.land b2 0x3F) 6)) (Z.land b3 0x3F) in
              if negb (in_range 0x10000 0x10FFFF cp) then (false, 0)
              else validate_utf8_incomplete t'
        | b1 :: more =>
            if negb (Z.land b1 0xC0 =? 0x80) then (false, 0)
            else if (b =? 0xF0) && (b1 <? 0x90) then (false, 0)
            else if (b =? 0xF4) && (0x90 <=? b1) then (false, 0)
            else match more with
                 | b2 :: _ => if negb (Z.land b2 0xC0 =? 0x80) then (false, 0) else (true, len data)
                 | [] => (true, len data)
                 end
        end
      else (false, 0)
  end.

(** ** The reference scanner

    [scan l] is [None] when some byte of [l] cannot be part of a well-formed
    string, and otherwise [Some p] where [p] is the incomplete code point at the end. *)

Fixpoint scan (l : bytes) : option bytes :=
  match l with
  | [] => Some []
  | a :: t =>
      if a <? 0x80 then scan t
      else if in_range 0xC2 0xDF a then
        match t with
        | [] => Some l
        | b :: t' => if cont b then scan t' else None
        end
      else if in_range 0xE0 0xEF a then
        match t with
        | [] => Some l
        | [b] => if second_ok a b then Some l else None
        | b :: c :: t' => if second_ok a b && cont c then scan t' else None
        end
      else if in_range 0xF0 0xF4 a then
        match t with
        | [] => Some l
        | [b] => if second_ok a b then Some l else None
        | [b; c] => if second_ok a b && cont c then Some l else None
        | b :: c :: d :: t' => if second_ok a b && cont c && cont d then scan t' else None
        end
      else None
  end.

Lemma in_range_t lo hi b : lo <= b <= hi -> in_range lo hi b = true.
Proof. unfold in_range. intros. apply andb_true_intro. split; apply Z.leb_le; lia. Qed.

Lemma in_range_f lo hi b : b < lo \/ hi < b -> in_range lo hi b = false.
Proof. unfold in_range. intros. apply andb_false_iff. rewrite !Z.leb_gt. lia. Qed.

Lemma in_range_iff lo hi b : in_range lo hi b = true <-> lo <= b <= hi.
Proof. unfold in_range. rewrite andb_true_iff, !Z.leb_le. done. Qed.

(** Evaluate the range tests the context decides. *)
Ltac rng :=
  repeat match goal with
  | |- context [in_range ?lo ?hi ?a] =>
      first [rewrite (in_range_t lo hi a) by lia | rewrite (in_range_f lo hi a) by lia]
  | |- context [?a <? ?b] => first [ztrue (a <? b) | zfalse (a <? b)]
  | |- context [?a <=? ?b] => first [ztrue (a <=? b) | zfalse (a <=? b)]
  | |- context [?a =? ?b] => first [ztrue (a =? b) | zfalse (a =? b)]
  end.

(** The classes of lead bytes the validators tell apart. *)
Inductive lead_class (a : Z) : Prop :=
  | lc_ascii : a < 0x80 -> lead_class a
  | lc_cont : 0x80 <= a < 0xC0 -> lead_class a
  | lc_overlong : 0xC0 <= a < 0xC2 -> lead_class a
  | lc_two : 0xC2 <= a <= 0xDF -> lead_class a
  | lc_three : 0xE0 <= a <= 0xEF -> lead_class a
  | lc_four : 0xF0 <= a <= 0xF4 -> lead_class a
  | lc_high : 0xF5 <= a <= 0xF7 -> lead_class a
  | lc_none : 0xF8 <= a -> lead_class a.

Lemma lead_class_all a : lead_class a.
Proof.
  destruct (Z.lt_ge_cases a 0x80); [by constructor|].
  destruct (Z.lt_ge_cases a 0xC0); [by apply lc_cont|].
  destruct (Z.lt_ge_cases a 0xC2); [by apply lc_overlong|].
  destruct (Z.lt_ge_cases a 0xE0); [apply lc_two; lia|].
  destruct (Z.lt_ge_cases a 0xF0); [apply lc_three; lia|].
  destruct (Z.lt_ge_cases a 0xF5); [apply lc_four; lia|].
  destruct (Z.lt_ge_cases a 0xF8); [apply lc_high; lia|]. by apply lc_none.
Qed.

(** Induction along the code points of a string. *)
Lemma utf8_ind (P : bytes -> Prop) :
  P [] -> (forall a t, (forall k, (length k <= length t)%nat -> P k) -> P (a :: t)) -> forall l, P l.
Proof.
  intros Hnil Hcons l. remember (length l) as n eqn:E. revert l E.
  induction n as [n IH] using lt_wf_ind. intros [|a t] ->; [done|].
  apply Hcons. intros k Hk. eapply IH; [|done]. simpl. lia.
Qed.

Lemma second_range_three a b : 0xE0 <= a <= 0xF4 ->
  exists lo hi, second_range a = Some (lo, hi) /\ in_range lo hi b = second_ok a b.
Proof.
  intros Ha. unfold second_range, second_ok, cont. rng.
  destruct (Z.eqb_spec a 0xE0); [eauto|].
  destruct (Z.eqb_spec a 0xED) as [->|]; [cbn; eauto|].
  destruct (Z.eqb_spec a 0xF0) as [->|]; [cbn; eauto|].
  destruct (Z.eqb_spec a 0xF4) as [->|]; [cbn; eauto|].
  destruct (Z.lt_ge_cases a 0xF0).
  - replace (in_range 225 236 a || in_range 238 239 a) with true; [eauto|].
    symmetry. apply orb_true_iff. rewrite !in_range_iff. lia.
  - rng. cbn. eauto.
Qed.

Lemma second_range_none a : 0x80 <= a < 0xC2 \/ 0xF5 <= a -> second_range a = None.
Proof. intros. unfold second_range. by rng. Qed.

(** Evaluate the tests on the head byte of a scan, class by class. *)
Ltac scan_cases :=
  repeat match goal with
  | H : context [if ?b then _ else _] |- _ => destruct b eqn:?; simplify_eq/=
  | H : context [match ?t with [] => _ | _ :: _ => _ end] |- _ => destruct t; simplify_eq/=
  | |- context [match ?t with [] => _ | _ :: _ => _ end] => destruct t; simplify_eq/=
  | |- context [if ?b then _ else _] => destruct b eqn:?; simplify_eq/=
  end.

Lemma scan_valid_app q p : str_from_utf8 q = true -> scan (q ++ p) = scan p.
Proof.
  induction q as [|a t IH] using utf8_ind; [done|]. cbn [str_from_utf8 app scan].
  destruct (a <? 128); [by apply IH|].
  destruct (in_range 194 223 a).
  { destruct t as [|b t]; [done|]. cbn [app]. intros [-> H]%andb_prop. apply IH; [cbn; lia|done]. }
  destruct (in_range 224 239 a).
  { destruct t as [|b [|c t]]; try done. cbn [app].
    intros [[-> ->]%andb_prop H]%andb_prop. apply IH; [cbn; lia|done]. }
  destruct (in_range 240 244 a); [|done].
  destruct t as [|b [|c [|d t]]]; try done. cbn [app].
  intros [[[-> ->]%andb_prop ->]%andb_prop H]%andb_prop. apply IH; [cbn; lia|done].
Qed.

(** Lossy decoding leaves a well-formed string as it is. *)
Lemma lossy_valid l : str_from_utf8 l = true -> from_utf8_lossy l = l.
Proof.
  induction l as [|a t IH] using utf8_ind; [done|]. cbn [str_from_utf8 from_utf8_lossy].
  destruct (a <? 128); [intros; by rewrite IH|].
  destruct (in_range 194 223 a).
  { destruct t as [|b t]; [done|]. intros [-> H]%andb_prop. rewrite IH; [done|cbn; lia|done]. }
  destruct (in_range 224 239 a).
  { destruct t as [|b [|c t]]; try done. intros [[-> ->]%andb_prop H]%andb_prop.
    rewrite IH; [done|cbn; lia|done]. }
  destruct (in_range 240 244 a); [|done].
  destruct t as [|b [|c [|d t]]]; try done.
  intros [[[-> ->]%andb_prop ->]%andb_prop H]%andb_prop. rewrite IH; [done|cbn; lia|done].
Qed.

Lemma scan_valid l : str_from_utf8 l = true <-> scan l = Some [].
Proof.
  split; [intros H; by rewrite <- (app_nil_r l), scan_valid_app|].
  induction l as [|a t IH] using utf8_ind; [done|]. cbn [str_from_utf8 scan].
  destruct (a <? 128); [by apply IH|].
  destruct (in_range 194 223 a).
  { destruct t as [|b t]; [done|]. destruct (cont b); [|done]. apply IH. cbn; lia. }
  destruct (in_range 224 239 a).
  { destruct t as [|b [|c t]]; try done; [by destruct (second_ok a b)|].
    destruct (second_ok a b), (cont c); try done. apply IH. cbn; lia. }
  destruct (in_range 240 244 a); [|done].
  destruct t as [|b [|c [|d t]]]; try done.
  - by destruct (second_ok a b).
  - by destruct (second_ok a b && cont c).
  - destruct (second_ok a b), (cont c), (cont d); try done. apply IH. cbn; lia.
Qed.

(** What the scanner leaves is a suffix after a well-formed prefix. *)
Lemma scan_split l p : scan l = Some p ->
  exists q, l = q ++ p /\ str_from_utf8 q = true /\ scan p = Some p.
Proof.
  assert (Hall : forall pre k (q : bytes), str_from_utf8 (pre ++ q) = str_from_utf8 q ->
    k = q ++ p -> str_from_utf8 q = true -> scan p = Some p ->
    exists q', pre ++ k = q' ++ p /\ str_from_utf8 q' = true /\ scan p = Some p).
  { intros pre k q Hq -> Hv Hp. exists (pre ++ q). rewrite Hq, app_assoc. done. }
  induction l as [|a t IH] using utf8_ind; [intros [= <-]; by exists []|]. cbn [scan].
  destruct (a <? 128) eqn:Ea.
  { intros (q & -> & Hv & Hp)%IH; [|lia]. apply (Hall [a] _ q); try done. cbn. by rewrite Ea. }
  destruct (in_range 194 223 a) eqn:E2.
  { destruct t as [|b t]; [intros [= <-]; exists []; cbn; by rewrite Ea, E2|].
    destruct (cont b) eqn:Eb; [|done]. intros (q & -> & Hv & Hp)%IH; [|cbn; lia].
    apply (Hall [a; b] _ q); try done. cbn. by rewrite Ea, E2, Eb. }
  destruct (in_range 224 239 a) eqn:E3.
  { destruct t as [|b [|c t]].
    - intros [= <-]; exists []; cbn; by rewrite Ea, E2, E3.
    - destruct (second_ok a b) eqn:Eb; [|done].
      intros [= <-]; exists []; cbn; by rewrite Ea, E2, E3, Eb.
    - destruct (second_ok a b && cont c) eqn:Eb; [|done]. intros (q & -> & Hv & Hp)%IH; [|cbn; lia].
      apply (Hall [a; b; c] _ q); try done. cbn. by rewrite Ea, E2, E3, Eb. }
  destruct (in_range 240 244 a) eqn:E4; [|done].
  destruct t as [|b [|c [|d t]]].
  - intros [= <-]; exists []; cbn; by rewrite Ea, E2, E3, E4.
  - destruct (second_ok a b) eqn:Eb; [|done].
    intros [= <-]; exists []; cbn; by rewrite Ea, E2, E3, E4, Eb.
  - destruct (second_ok a b && cont c) eqn:Eb; [|done].
    intros [= <-]; exists []; cbn; by rewrite Ea, E2, E3, E4, Eb.
  - destruct (second_ok a b && cont c && cont d) eqn:Eb; [|done].
    intros (q & -> & Hv & Hp)%IH; [|cbn; lia].
    apply (Hall [a; b; c; d] _ q); try done. cbn. by rewrite Ea, E2, E3, E4, Eb.
Qed.

(** Scanning a string that starts with a multi-byte lead, as [push] sees it. *)
Lemma scan_lead_short a t : 0xC0 <= a -> len (a :: t) < utf8_sequence_width a ->
  scan (a :: t) = if incomplete_prefix_may_be_valid (a :: t) then Some (a :: t) else None.
Proof.
  intros Ha. rewrite len_cons. unfold utf8_sequence_width. rng.
  destruct (lead_class_all a) as [|?| | | | | |]; try lia; rng; intros Hlen;
    cbn [scan incomplete_prefix_may_be_valid]; rng;
    try (rewrite second_range_none by lia; done).
  - destruct t; [|rewrite len_cons in Hlen; pose proof (len_nonneg t); lia].
    unfold second_range. by rng.
  - destruct t as [|b [|c t]]; [..|rewrite !len_cons in Hlen; pose proof (len_nonneg t); lia].
    + destruct (second_range_three a 0) as (lo & hi & -> & _); [lia|done].
    + destruct (second_range_three a b) as (lo & hi & -> & ->); [lia|]. cbn. by rewrite andb_true_r.
  - destruct t as [|b [|c [|d t]]]; [..|rewrite !len_cons in Hlen; pose proof (len_nonneg t); lia].
    + destruct (second_range_three a 0) as (lo & hi & -> & _); [lia|done].
    + destruct (second_range_three a b) as (lo & hi & -> & ->); [lia|]. cbn. by rewrite andb_true_r.
    + destruct (second_range_three a b) as (lo & hi & -> & ->); [lia|]. cbn. by rewrite andb_true_r.
Qed.

Lemma scan_lead_full a t : 0xC0 <= a <= 0xF7 -> utf8_sequence_width a <= len (a :: t) ->
  scan (a :: t) = if str_from_utf8 (upto (utf8_sequence_width a) (a :: t))
                  then scan (from (utf8_sequence_width a) (a :: t)) else None.
Proof.
  intros Ha. rewrite len_cons. unfold utf8_sequence_width. rng.
  destruct (lead_class_all a) as [|?| | | | | |]; try lia; rng; intros Hlen;
    destruct t as [|b [|c [|d t]]]; rewrite ?len_cons, ?len_nil in Hlen;
    try (pose proof (len_nonneg t)); try lia;
    unfold upto, from; change (Z.to_nat 2) with 2%nat; change (Z.to_nat 3) with 3%nat;
    change (Z.to_nat 4) with 4%nat; cbn [take drop scan str_from_utf8];
    rewrite ?(proj2 (Z.ltb_ge a 128)) by lia;
    repeat first [rewrite (in_range_t _ _ a) by lia | rewrite (in_range_f _ _ a) by lia];
    rewrite ?andb_true_r; done.
Qed.

(** The shape of a pending code point. *)
#[local] Ltac short := split; [lia|]; rng; rewrite ?len_cons, ?len_nil; lia.

Lemma pending_shape p : scan p = Some p -> p <> [] ->
  exists a t, p = a :: t /\ 0xC2 <= a <= 0xF4 /\ len p < utf8_sequence_width a /\
    forallb cont t = true /\ incomplete_prefix_may_be_valid p = true.
Proof.
  intros Hp Hne. destruct p as [|a t]; [done|]. exists a, t. split; [done|].
  assert (Hc : 0xC2 <= a <= 0xF4 /\ len (a :: t) < utf8_sequence_width a).
  { cbn [scan] in Hp. unfold utf8_sequence_width.
    assert (Hshort : forall k, (length k <= length t)%nat -> scan k = Some (a :: t) -> False).
    { intros k Hk (q & -> & _)%scan_split. rewrite length_app in Hk. cbn in Hk. lia. }
    destruct (a <? 128) eqn:Ea; [by apply Hshort in Hp; [|lia]|]. zb.
    destruct (in_range 194 223 a) eqn:E2; [apply in_range_iff in E2|].
    { destruct t as [|b t]; [short|]. destruct (cont b); [|done]. apply Hshort in Hp; [done|cbn; lia]. }
    destruct (in_range 224 239 a) eqn:E3; [apply in_range_iff in E3|].
    { destruct t as [|b [|c t]]; [short..|].
      destruct (_ && _); [|done]. apply Hshort in Hp; [done|cbn; lia]. }
    destruct (in_range 240 244 a) eqn:E4; [apply in_range_iff in E4|done].
    destruct t as [|b [|c [|d t]]]; [short..|].
    destruct (_ && _); [|done]. apply Hshort in Hp; [done|cbn; lia]. }
  destruct Hc as [Ha Hlen]. rewrite scan_lead_short in Hp by lia.
  destruct (incomplete_prefix_may_be_valid (a :: t)) eqn:E; [|done]. split_and!; try done; try lia.
  cbn in E. destruct (second_range a) as [[lo hi]|] eqn:Es; [|done].
  destruct t as [|b t]; [done|]. cbn. apply andb_prop in E as [Eb Et]. rewrite Et, andb_true_r.
  apply in_range_iff in Eb. apply in_range_iff. revert Es. unfold second_range.
  repeat case_match; intros [= <- <-]; lia.
Qed.

(** ** Finding the incomplete tail from the right *)

(** Rounds over continuation bytes only move on. *)
Lemma complete_prefix_skip q ts us k : forallb cont ts = true -> (length ts <= k)%nat ->
  complete_prefix_go (q ++ ts ++ us) k (len us + 1) =
  complete_prefix_go (q ++ ts ++ us) (k - length ts) (len us + len ts + 1).
Proof.
  revert us k. induction ts as [|x ts IH] using rev_ind; intros us k Hc Hk.
  - cbn [length]. rewrite Nat.sub_0_r, len_nil. f_equal. lia.
  - rewrite forallb_app in Hc. apply andb_prop in Hc as [Hts Hx]. cbn in Hx.
    rewrite andb_true_r in Hx. apply in_range_iff in Hx.
    rewrite length_app in *. cbn [length] in *. destruct k as [|k]; [lia|]. rewrite <- !app_assoc.
    cbn [app complete_prefix_go].
    replace (len (q ++ ts ++ x :: us) - (len us + 1)) with (len (q ++ ts) + 0)
      by (rewrite !len_app, len_cons; lia).
    assert (Hat : (q ++ ts ++ x :: us).[len (q ++ ts) + 0] = x).
    { rewrite app_assoc. by rewrite at_app_r by lia. }
    rewrite !Hat. rng.
    pose proof (IH (x :: us) k Hts ltac:(lia)) as IH'. rewrite !len_cons in IH'.
    replace (len us + 1 + 1) with (1 + len us + 1) by lia. rewrite IH'.
    rewrite len_app. change (len [x]) with 1. f_equal; lia.
Qed.

(** Every string is trailing continuation bytes after a byte that is not one. *)
Lemma trailing_conts (l : bytes) : exists q ts, l = q ++ ts /\ forallb cont ts = true /\
  (q = [] \/ exists q' x, q = q' ++ [x] /\ cont x = false).
Proof.
  induction l as [|x l (q & ts & -> & Hts & Hq)] using rev_ind; [by exists [], []; auto|].
  destruct (cont x) eqn:Ex.
  - exists q, (ts ++ [x]). rewrite app_assoc, forallb_app, Hts. cbn. by rewrite Ex.
  - exists ((q ++ ts) ++ [x]), []. rewrite app_nil_r. eauto 10.
Qed.

Lemma complete_prefix_conts ts : forallb cont ts = true -> complete_prefix_len ts = len ts.
Proof.
  intros Hts. unfold complete_prefix_len. pose proof (len_nonneg ts) as Hn.
  set (k := Z.to_nat (Z.min (len ts) 3)).
  pose proof (complete_prefix_skip (upto (len ts - Z.of_nat k) ts)
    (from (len ts - Z.of_nat k) ts) [] k) as H.
  rewrite app_nil_r, upto_from, len_nil in H.
  assert (Hl : len (from (len ts - Z.of_nat k) ts) = Z.of_nat k) by (rewrite len_from; lia).
  change (0 + 1) with 1 in H. rewrite H.
  - replace (k - _)%nat with O; [done|]. rewrite (len_length _ _ Hl). lia.
  - rewrite forallb_forall in *. intros x Hx. apply Hts.
    rewrite <- (upto_from (len ts - Z.of_nat k) ts). apply in_or_app. by right.
  - rewrite (len_length _ _ Hl). lia.
Qed.

Lemma complete_prefix_eval q x ts : cont x = false -> forallb cont ts = true ->
  complete_prefix_len (q ++ x :: ts) =
  if (len ts <? 3) && (0xC0 <=? x) && (utf8_sequence_width x >? 1 + len ts)
  then len q else len (q ++ x :: ts).
Proof.
  intros Hx Hts. pose proof (len_nonneg q). destruct (Z.ltb_spec (len ts) 3) as [Hl|Hl].
  - unfold complete_prefix_len. set (k := Z.to_nat _).
    assert (Hk : (length ts < k)%nat).
    { unfold k. rewrite len_app, len_cons. unfold len in *. lia. }
    pose proof (complete_prefix_skip (q ++ [x]) ts [] k Hts ltac:(lia)) as Hs.
    rewrite app_nil_r, len_nil, <- app_assoc in Hs. cbn [app] in Hs. change (0 + 1) with 1 in Hs.
    rewrite Hs. destruct (k - length ts)%nat as [|k'] eqn:Ek; [lia|]. cbn [complete_prefix_go].
    replace (len (q ++ x :: ts) - (0 + len ts + 1)) with (len q + 0) by (rewrite len_app, len_cons; lia).
    rewrite at_app_r by lia. change ((x :: ts).[0]) with x. cbn [andb].
    replace (0 + len ts + 1) with (1 + len ts) by lia.
    unfold cont, in_range in Hx. destruct (Z.ltb_spec x 128).
    + rng. done.
    + destruct (Z.leb_spec 192 x); [|apply andb_false_iff in Hx; rewrite !Z.leb_gt in Hx; lia].
      cbn [andb]. by rewrite Z.add_0_r.
  - cbn [andb]. unfold complete_prefix_len. pose proof (len_nonneg ts).
    replace (Z.to_nat _) with 3%nat by (rewrite len_app, len_cons; lia).
    pose proof (complete_prefix_skip (q ++ x :: upto (len ts - 3) ts) (from (len ts - 3) ts) [] 3) as Hs.
    rewrite app_nil_r, <- app_assoc in Hs. cbn [app] in Hs. rewrite upto_from in Hs.
    assert (Hl3 : len (from (len ts - 3) ts) = 3) by (rewrite len_from; lia).
    change (len [] + 1) with 1 in Hs. rewrite Hs.
    + replace (3 - _)%nat with O; [done|]. by rewrite (len_length _ _ Hl3).
    + rewrite forallb_forall in *. intros y Hy. apply Hts.
      rewrite <- (upto_from (len ts - 3) ts). apply in_or_app. by right.
    + by rewrite (len_length _ _ Hl3).
Qed.

(** In a well-formed string a lead byte is followed by all its continuations. *)
Lemma valid_lead_complete q x ts : str_from_utf8 (q ++ x :: ts) = true -> 0xC0 <= x ->
  forallb cont ts = true -> utf8_sequence_width x <= 1 + len ts.
Proof.
  intros Hv Hx Hts. revert Hv.
  assert (Hnc : cont x = false) by (apply in_range_f; lia). pose proof (len_nonneg ts) as Hn.
  assert (Hsec : forall a, second_ok a x = false).
  { intros a. unfold second_ok, cont. repeat case_match; apply in_range_f; lia. }
  induction q as [|a t IH] using utf8_ind; cbn [app str_from_utf8].
  - rng. unfold utf8_sequence_width. rng.
    destruct (in_range 194 223 x) eqn:E2; [apply in_range_iff in E2; rng|].
    { destruct ts; [done|]. rewrite !len_cons. len_pos. lia. }
    destruct (in_range 224 239 x) eqn:E3; [apply in_range_iff in E3; rng|].
    { destruct ts as [|? [|? ?]]; try done. rewrite !len_cons. len_pos. lia. }
    destruct (in_range 240 244 x) eqn:E4; [apply in_range_iff in E4; rng|done].
    destruct ts as [|? [|? [|? ?]]]; try done. rewrite !len_cons. len_pos. lia.
  - destruct (a <? 128); [by apply IH|].
    destruct (in_range 194 223 a).
    { destruct t as [|b t]; cbn [app]; [by rewrite Hnc|]. intros [_ Hv]%andb_prop. apply IH in Hv; [done|cbn; lia]. }
    destruct (in_range 224 239 a).
    { destruct t as [|b [|c t]]; cbn [app].
      - destruct ts; [done|]. by rewrite Hsec.
      - by rewrite Hnc, andb_false_r.
      - intros [_ Hv]%andb_prop. apply IH in Hv; [done|cbn; lia]. }
    destruct (in_range 240 244 a); [|done].
    destruct t as [|b [|c [|d t]]]; cbn [app].
    + destruct ts as [|? [|? ?]]; try done. by rewrite Hsec.
    + destruct ts as [|? ?]; try done. by rewrite Hnc, andb_false_r.
    + by rewrite Hnc, andb_false_r.
    + intros [_ Hv]%andb_prop. apply IH in Hv; [done|cbn; lia].
Qed.

(** The split point [push] uses is the one the scanner finds. *)
Lemma complete_prefix_scan q p : str_from_utf8 q = true -> scan p = Some p ->
  complete_prefix_len (q ++ p) = len q.
Proof.
  intros Hq Hp. destruct (decide (p = [])) as [->|Hne].
  - rewrite app_nil_r. destruct (trailing_conts q) as (q0 & ts & -> & Hts & [->|(q' & x & -> & Hx)]).
    + by apply complete_prefix_conts.
    + rewrite <- app_assoc in *. cbn [app] in *. rewrite complete_prefix_eval by done.
      destruct (_ && _) eqn:E; [|done]. zb.
      apply valid_lead_complete in Hq; [lia|lia|done].
  - destruct (pending_shape p Hp Hne) as (a & t & -> & Ha & Hlen & Ht & _).
    rewrite complete_prefix_eval by (done || apply in_range_f; lia). rewrite len_cons in Hlen.
    assert (utf8_sequence_width a <= 4) by (unfold utf8_sequence_width; repeat case_match; lia).
    rewrite Z.gtb_ltb. rng. done.
Qed.

(** The tail that is held back is an incomplete sequence in shape. *)
Lemma complete_prefix_tail l : 0 <= complete_prefix_len l <= len l /\
  (from (complete_prefix_len l) l = [] \/
   exists x ts, from (complete_prefix_len l) l = x :: ts /\ 0xC0 <= x /\
     len (x :: ts) < utf8_sequence_width x).
Proof.
  pose proof (len_nonneg l) as Hn.
  destruct (trailing_conts l) as (q0 & ts & -> & Hts & [->|(q' & x & -> & Hx)]).
  - cbn [app] in *. rewrite complete_prefix_conts by done. rewrite from_ge by lia. auto with lia.
  - rewrite <- app_assoc in *. cbn [app] in *. rewrite complete_prefix_eval by done.
    destruct (_ && _) eqn:E.
    + zb. rewrite from_app_exact, len_app. pose proof (len_nonneg q'). pose proof (len_nonneg (x :: ts)).
      split; [lia|]. right. exists x, ts. rewrite len_cons. auto with lia.
    + rewrite from_ge by lia. auto with lia.
Qed.

Lemma width_le_4 a : utf8_sequence_width a <= 4.
Proof. unfold utf8_sequence_width. repeat case_match; lia. Qed.

(** Once hopeless, always hopeless; otherwise only the pending part matters. *)
Lemma scan_none_app l k : scan l = None -> scan (l ++ k) = None.
Proof.
  induction l as [|a t IH] using utf8_ind; [done|]. cbn [scan app].
  destruct (a <? 128); [by apply IH|].
  destruct (in_range 194 223 a).
  { destruct t as [|b t]; [done|]. cbn [app]. destruct (cont b); [|done]. apply IH. cbn; lia. }
  destruct (in_range 224 239 a).
  { destruct t as [|b [|c t]]; cbn [app]; [done|..].
    - destruct (second_ok a b); [done|]. by destruct k.
    - destruct (second_ok a b && cont c); [|done]. apply IH. cbn; lia. }
  destruct (in_range 240 244 a); [|done].
  destruct t as [|b [|c [|d t]]]; cbn [app]; [done|..].
  - destruct (second_ok a b); [done|]. by destruct k as [|? [|? ?]].
  - destruct (second_ok a b && cont c); [done|]. by destruct k.
  - destruct (second_ok a b && cont c && cont d); [|done]. apply IH. cbn; lia.
Qed.

Lemma scan_app l k : scan (l ++ k) =
  match scan l with Some p => scan (p ++ k) | None => None end.
Proof.
  destruct (scan l) as [p|] eqn:E; [|by apply scan_none_app].
  apply scan_split in E as (q & -> & Hq & _). rewrite <- app_assoc. by apply scan_valid_app.
Qed.

(** A pending code point can always be completed. *)
Lemma pending_completes p : scan p = Some p -> exists k, str_from_utf8 (p ++ k) = true.
Proof.
  intros Hp. destruct (decide (p = [])) as [->|Hne]; [by exists []|].
  destruct (pending_shape p Hp Hne) as (a & t & -> & Ha & Hlen & _ & Hv).
  assert (Hsec : exists b, second_ok a b = true).
  { unfold second_ok, cont.
    destruct (a =? 224); [by exists 160|]. destruct (a =? 237); [by exists 128|].
    destruct (a =? 240); [by exists 144|]. destruct (a =? 244); [by exists 128|]. by exists 128. }
  destruct Hsec as [b0 Hb0]. revert Hp Hlen. rewrite len_cons. cbn [scan]. unfold utf8_sequence_width.
  destruct (lead_class_all a) as [|?| | | | | |]; try lia; rng.
  - intros _ Hl. assert (len t = 0) as ->%len_0_nil by (len_pos; lia).
    exists [128]. cbn. by rng.
  - destruct t as [|b [|c t]]; [| |rewrite !len_cons; len_pos; lia].
    + exists [b0; 128]. cbn. rng. by rewrite Hb0.
    + destruct (second_ok a b) eqn:E; [|done]. exists [128]. cbn. rng. by rewrite E.
  - destruct t as [|b [|c [|d t]]]; [| | |rewrite !len_cons; len_pos; lia].
    + exists [b0; 128; 128]. cbn. rng. by rewrite Hb0.
    + destruct (second_ok a b) eqn:E; [|done]. exists [128; 128]. cbn. rng. by rewrite E.
    + destruct (second_ok a b && cont c) eqn:E; [|done]. exists [128]. cbn. rng. by rewrite E.
Qed.

Lemma scan_hopeless l : scan l = None <-> forall k, str_from_utf8 (l ++ k) = false.
Proof.
  split.
  - intros H k. destruct (str_from_utf8 (l ++ k)) eqn:E; [|done].
    apply scan_valid in E. by rewrite scan_none_app in E.
  - intros H. destruct (scan l) as [p|] eqn:E; [|done].
    apply scan_split in E as (q & -> & Hq & [k Hk]%pending_completes).
    specialize (H k). rewrite <- app_assoc in H. apply scan_valid in Hk.
    assert (scan (q ++ p ++ k) = Some []) as Hs%scan_valid by (by rewrite scan_valid_app). congruence.
Qed.

Module Utf8StreamFacts.
Import Utf8Stream.

(** Between calls the carry is an array of four bytes whose used part is a
    pending code point. *)
Record wf (s : t) : Prop := {
  wf_array : len (carry s) = 4;
  wf_len : 0 <= carry_len s <= 4;
  wf_held : scan (held s) = Some (held s)
}.

Lemma wf_new : wf new.
Proof. by split. Qed.

Lemma wf_reset s : wf s -> wf (reset s).
Proof. intros [H1 H2 H3]. split; cbn; [done|lia|done]. Qed.

Lemma held_len s : wf s -> len (held s) = carry_len s.
Proof. intros [H1 H2 _]. unfold held. apply len_upto. lia. Qed.

Lemma held_blit c b n : len c = 4 -> 0 <= n -> n + len b <= 4 ->
  held (Mk (blit c n b) (n + len b)) = upto n c ++ b /\ len (blit c n b) = 4.
Proof.
  intros Hc Hn Hb. pose proof (len_nonneg b). unfold held, blit. cbn. split.
  - rewrite upto_app_ge by (rewrite len_upto; lia). rewrite len_upto by lia. f_equal.
    replace (n + len b - n) with (len b) by lia. apply upto_app_exact.
  - rewrite !len_app, len_upto, len_from by lia. lia.
Qed.

Section push.
Context {SU : Simdutf8} {SUok : Simdutf8Spec}.

(** A push answers what the scanner answers and keeps what the scanner keeps. *)
Definition push_post (before chunk : bytes) (r : comp t bool) : Prop :=
  match scan (before ++ chunk) with
  | Some p => exists s', r = Done s' (Ok true) /\ wf s' /\ held s' = p
  | None => exists s', r = Done s' (Ok false)
  end.

Lemma push_chunk_spec s chunk : len (carry s) = 4 -> push_post [] chunk (push_chunk s chunk).
Proof.
  intros Hc. unfold push_post, push_chunk, validate_utf8. cbn [app].
  destruct (complete_prefix_tail chunk) as [Hb Htail].
  set (c := complete_prefix_len chunk) in *.
  assert (Hsc : forall p, scan chunk = Some p -> str_from_utf8 (upto c chunk) = true /\ from c chunk = p).
  { intros p (q & E & Hq & Hp)%scan_split. unfold c. rewrite E, complete_prefix_scan by done.
    by rewrite upto_app_exact, from_app_exact. }
  rewrite basic_from_utf8_spec. destruct (str_from_utf8 (upto c chunk)) eqn:Ev; cbn [negb].
  2:{ destruct (scan chunk) as [p|]; [|by eauto]. by destruct (Hsc p eq_refl). }
  assert (Hl4 : len (from c chunk) <= 4).
  { destruct Htail as [->|(x & ts & -> & _ & Hlt)]; [rewrite len_nil; lia|]. pose proof (width_le_4 x). lia. }
  rewrite (proj2 (Z.leb_le _ _) Hl4). cbn [assert_or_panic].
  destruct (held_blit (carry s) (from c chunk) 0 Hc ltac:(lia) ltac:(lia)) as [Hh Hl].
  rewrite Z.add_0_l, upto_0 in Hh. cbn [app] in Hh. pose proof (len_nonneg (from c chunk)).
  assert (Hs : scan chunk = scan (from c chunk)).
  { rewrite <- (upto_from c chunk) at 1. by apply scan_valid_app. }
  rewrite Hs. destruct Htail as [E|(x & ts & E & Hx & Hlt)]; rewrite E in *.
  - cbn. eexists. split; [done|]. split; [|done]. split; [done|cbn; lia|by rewrite Hh].
  - rewrite scan_lead_short in * by lia.
    destruct (incomplete_prefix_may_be_valid (x :: ts)) eqn:Em; [|by eauto].
    eexists. split; [done|]. split; [|done]. split; [done|cbn [carry_len]; lia|].
    rewrite Hh, scan_lead_short, Em by lia. done.
Qed.

Lemma push_spec s chunk : wf s -> push_post (held s) chunk (push s chunk).
Proof.
  intros Hwf. pose proof (held_len s Hwf) as Hhl. destruct Hwf as [Hc Hl Hh]. unfold push.
  destruct (Z.ltb_spec 0 (carry_len s)) as [Hpos|].
  2:{ assert (held s = []) as -> by (apply len_0_nil; lia). by apply push_chunk_spec. }
  destruct (pending_shape (held s) Hh) as (a & t & E & Ha & Hlt & Ht & _).
  { intros E. rewrite E, len_nil in Hhl. lia. }
  assert (Ea : (carry s).[0] = a).
  { rewrite <- (at_upto _ (carry_len s)) by lia. fold (held s). by rewrite E. }
  rewrite Ea. pose proof (width_le_4 a) as Hw. pose proof (len_nonneg chunk).
  rewrite (proj2 (Z.leb_le (carry_len s) _)) by lia. cbn [assert_or_panic].
  set (w := utf8_sequence_width a) in *. set (n := Z.min (w - carry_len s) (len chunk)).
  rewrite (proj2 (Z.leb_le (carry_len s + n) 4)) by lia. cbn [assert_or_panic].
  destruct (held_blit (carry s) (upto n chunk) (carry_len s) Hc ltac:(lia)) as [Hb Hbl].
  { rewrite len_upto; lia. }
  rewrite len_upto in Hb by lia. fold (held s) in Hb. cbn [carry_len].
  assert (Ec : held s ++ chunk = (held s ++ upto n chunk) ++ from n chunk)
    by (by rewrite <- app_assoc, upto_from).
  assert (Eh : held s ++ upto n chunk = a :: t ++ upto n chunk) by (by rewrite E).
  destruct (Z.ltb_spec (carry_len s + n) w) as [Hshort|Hfull].
  - assert (n = len chunk) as Hn by lia. unfold push_post.
    rewrite Hb, Ec, (from_ge n), app_nil_r, Eh, scan_lead_short by
      (try lia; rewrite <- Eh, len_app, len_upto; lia).
    destruct (incomplete_prefix_may_be_valid _) eqn:Em; [|by eauto].
    eexists. split; [done|]. split; [split; cbn [carry carry_len]; [done|lia|]|by rewrite Hb, Eh].
    rewrite Hb, Eh, scan_lead_short, Em by (try lia; rewrite <- Eh, len_app, len_upto; lia). done.
  - assert (Hwn : w = carry_len s + n) by lia.
    unfold held in Hb at 1. cbn [carry carry_len] in *. rewrite <- Hwn in Hb. rewrite Hb.
    unfold push_post. rewrite Ec, Eh. cbn [app]. rewrite scan_lead_full.
    2: lia.
    2:{ change (a :: (t ++ upto n chunk) ++ from n chunk) with ((a :: t ++ upto n chunk) ++ from n chunk).
        rewrite <- Eh, !len_app, len_upto, len_from by lia. fold w. lia. }
    fold w. change (a :: (t ++ upto n chunk) ++ from n chunk) with ((a :: t ++ upto n chunk) ++ from n chunk).
    rewrite <- Eh. replace w with (len (held s ++ upto n chunk)) by (rewrite len_app, len_upto; lia).
    rewrite upto_app_exact, from_app_exact.
    destruct (str_from_utf8 (held s ++ upto n chunk)); cbn [negb]; [|by eauto].
    by apply push_chunk_spec.
Qed.

Lemma resume_spec s suffix : wf s -> push_post [] suffix (resume s suffix).
Proof.
  intros Hwf. unfold resume. case_bool_decide as E.
  - unfold push_post. cbn [app]. rewrite E, (wf_held s Hwf). eauto.
  - pose proof (push_spec (reset s) suffix (wf_reset s Hwf)) as H. exact H.
Qed.

(** Feed a message chunk by chunk, stopping at the first rejection. *)
Fixpoint push_all (s : t) (chunks : list bytes) : comp t bool :=
  match chunks with
  | [] => Done s (Ok true)
  | c :: cs => let! (s, ok) := push s c in if ok then push_all s cs else Done s (Ok false)
  end.
End push.
End Utf8StreamFacts.

(** ** Properties *)

Section properties.
Context {SU : Simdutf8} {SUok : Simdutf8Spec}.
Import Utf8Stream Utf8StreamFacts.

Lemma push_all_spec s chunks : wf s ->
  push_post (held s) (concat chunks) (push_all s chunks).
Proof.
  revert s. induction chunks as [|c cs IH]; intros s Hwf; cbn [concat push_all].
  - unfold push_post. rewrite app_nil_r, (wf_held s Hwf). eauto.
  - pose proof (push_spec s c Hwf) as Hp. unfold push_post in Hp |- *. rewrite app_assoc, scan_app.
    destruct (scan (held s ++ c)) as [p|].
    + destruct Hp as (s' & -> & Hwf' & <-). cbn [run_bind]. apply (IH s' Hwf').
    + destruct Hp as (s' & ->). cbn [run_bind]. eauto.
Qed.

(** [C39] However a message is cut into chunks, the incremental validator never
    panics, accepts all of it exactly when some continuation would make it
    well-formed UTF-8 (so an ill-formed message is rejected as early as possible and a good one
    never), and [finish] then reports exactly whether the message is
    well-formed. *)
Theorem utf8_stream_correct chunks :
  exists s ok, push_all new chunks = Done s (Ok ok) /\
    (ok = true <-> exists k, str_from_utf8 (concat chunks ++ k) = true) /\
    (ok = true -> finish s = str_from_utf8 (concat chunks)) /\
    (ok = true -> len (held s) = pending s /\ pending s <= 3).
Proof.
  pose proof (push_all_spec new chunks wf_new) as H. unfold push_post in H. cbn [app] in H.
  change (held new) with (@nil Z) in H. cbn [app] in H.
  destruct (scan (concat chunks)) as [p|] eqn:E.
  - destruct H as (s & -> & Hwf & Hh). exists s, true. pose proof (held_len s Hwf) as Hl.
    split_and!; try done.
    + split; [intros _|done]. apply scan_split in E as (q & -> & Hq & [k Hk]%pending_completes).
      exists k. rewrite <- app_assoc. apply scan_valid. rewrite scan_valid_app by done. by apply scan_valid.
    + intros _. unfold finish. rewrite <- Hl, Hh. destruct (str_from_utf8 (concat chunks)) eqn:Ev.
      * apply scan_valid in Ev. rewrite E in Ev. by injection Ev as ->.
      * apply Z.eqb_neq. intros ->%len_0_nil. apply scan_valid in E. congruence.
    + intros _. split; [done|]. unfold pending. rewrite <- Hl, Hh.
      destruct (decide (p = [])) as [->|Hne]; [done|].
      apply scan_split in E as (_ & _ & _ & Hp).
      destruct (pending_shape p Hp Hne) as (a & t & -> & _ & Hlt & _). pose proof (width_le_4 a). lia.
  - destruct H as (s & ->). exists s, false. split_and!; try done. split; [done|].
    intros [k Hk]. rewrite scan_hopeless in E. by rewrite E in Hk.
Qed.
End properties.

Lemma utf8_stream_correct_witness :
  exists s ok, @Utf8StreamFacts.push_all simdutf8_std Utf8Stream.new [[0xE2; 0x82]; [0xAC; 0x41; 0xF0]] = Done s (Ok ok) /\
    ok = true /\ Utf8Stream.finish s = false.
Proof.
  destruct (@utf8_stream_correct simdutf8_std simdutf8_std_spec [[0xE2; 0x82]; [0xAC; 0x41; 0xF0]])
    as (s & ok & H & Hok & Hf & _).
  exists s, ok. split; [exact H|].
  assert (ok = true) as -> by (apply Hok; exists [0x9F; 0x98; 0x80]; reflexivity).
  split; [reflexivity|]. rewrite Hf by reflexivity. reflexivity.
Defined.

(** ** [validate_utf8_incomplete] against the scanner *)

Lemma land_cont b : is_byte b -> (Z.land b 0xC0 =? 0x80) = cont b.
Proof.
  intros Hb. apply eqb_prop.
  exact (byte_forall (fun b => eqb (Z.land b 0xC0 =? 0x80) (cont b)) ltac:(by vm_compute) b Hb).
Qed.

Lemma land_cont_low b : 0x80 <= b <= 0xBF -> Z.land b 0x3F = b - 0x80.
Proof.
  intros Hb. apply Z.eqb_eq. assert (is_byte b) as Hi by (unfold is_byte; lia).
  pose proof (byte_forall (fun b => implb (cont b) (Z.land b 0x3F =? b - 0x80)) ltac:(by vm_compute) b Hi) as H.
  cbn beta in H. unfold cont in H. by rewrite in_range_t in H by lia.
Qed.

(** A code point assembled with shifts is the weighted sum of its digits. *)
Lemma lor_digits x y k : 0 <= k -> 0 <= y < 2 ^ k -> Z.lor (Z.shiftl x k) y = y + 2 ^ k * x.
Proof. intros. rewrite Z.lor_comm. by apply lor_shiftl. Qed.

Lemma cp3_eq a b c : 0xE0 <= a <= 0xEF -> 0x80 <= b <= 0xBF -> 0x80 <= c <= 0xBF ->
  Z.lor (Z.lor (Z.shiftl (Z.land a 0x0F) 12) (Z.shiftl (Z.land b 0x3F) 6)) (Z.land c 0x3F)
  = (a - 0xE0) * 4096 + (b - 0x80) * 64 + (c - 0x80).
Proof.
  intros Ha Hb Hc. rewrite !land_cont_low by done.
  assert (Z.land a 0x0F = a - 0xE0) as ->.
  { apply Z.eqb_eq. assert (is_byte a) as Hi by (unfold is_byte; lia).
    pose proof (byte_forall (fun b => implb (in_range 0xE0 0xEF b) (Z.land b 0x0F =? b - 0xE0))
      ltac:(by vm_compute) a Hi) as H. cbn beta in H. by rewrite in_range_t in H by lia. }
  replace (Z.shiftl (a - 0xE0) 12) with (Z.shiftl (Z.shiftl (a - 0xE0) 6) 6) by (by rewrite Z.shiftl_shiftl).
  rewrite <- Z.shiftl_lor, !lor_digits by (change (2 ^ 6) with 64; lia).
  change (2 ^ 6) with 64. lia.
Qed.

Lemma cp4_eq a b c d : 0xF0 <= a <= 0xF4 -> 0x80 <= b <= 0xBF -> 0x80 <= c <= 0xBF ->
  0x80 <= d <= 0xBF ->
  Z.lor (Z.lor (Z.lor (Z.shiftl (Z.land a 0x07) 18) (Z.shiftl (Z.land b 0x3F) 12))
               (Z.shiftl (Z.land c 0x3F) 6)) (Z.land d 0x3F)
  = (a - 0xF0) * 262144 + (b - 0x80) * 4096 + (c - 0x80) * 64 + (d - 0x80).
Proof.
  intros Ha Hb Hc Hd. rewrite !land_cont_low by done.
  assert (Z.land a 0x07 = a - 0xF0) as ->.
  { apply Z.eqb_eq. assert (is_byte a) as Hi by (unfold is_byte; lia).
    pose proof (byte_forall (fun b => implb (in_range 0xF0 0xF4 b) (Z.land b 0x07 =? b - 0xF0))
      ltac:(by vm_compute) a Hi) as H. cbn beta in H. by rewrite in_range_t in H by lia. }
  replace (Z.shiftl (a - 0xF0) 18) with (Z.shiftl (Z.shiftl (a - 0xF0) 6) 12) by (by rewrite Z.shiftl_shiftl).
  rewrite <- Z.shiftl_lor.
  replace (Z.shiftl (Z.lor (Z.shiftl (a - 0xF0) 6) (b - 0x80)) 12) with
    (Z.shiftl (Z.shiftl (Z.lor (Z.shiftl (a - 0xF0) 6) (b - 0x80)) 6) 6) by (by rewrite Z.shiftl_shiftl).
  rewrite <- Z.shiftl_lor, !lor_digits by (change (2 ^ 6) with 64; lia).
  change (2 ^ 6) with 64. lia.
Qed.

(** The code-point tests reject exactly the bad second bytes. *)
Lemma cp3_second a b c : 0xE0 <= a <= 0xEF -> 0x80 <= b <= 0xBF -> 0x80 <= c <= 0xBF ->
  let cp := (a - 0xE0) * 4096 + (b - 0x80) * 64 + (c - 0x80) in
  ((cp <? 0x800) || in_range 0xD800 0xDFFF cp) = negb (second_ok a b).
Proof.
  intros Ha Hb Hc cp. unfold second_ok, cont. destruct (Z.eqb_spec a 0xE0) as [->|].
  { destruct (Z.lt_ge_cases b 0xA0); unfold cp; rng; done. }
  destruct (Z.eqb_spec a 0xED) as [->|].
  { destruct (Z.lt_ge_cases b 0xA0); unfold cp; rng; done. }
  unfold cp. rng. done.
Qed.

Lemma cp4_second a b c d : 0xF0 <= a <= 0xF4 -> 0x80 <= b <= 0xBF -> 0x80 <= c <= 0xBF ->
  0x80 <= d <= 0xBF ->
  in_range 0x10000 0x10FFFF ((a - 0xF0) * 262144 + (b - 0x80) * 4096 + (c - 0x80) * 64 + (d - 0x80))
  = second_ok a b.
Proof.
  intros Ha Hb Hc Hd. unfold second_ok, cont. rng.
  destruct (Z.eqb_spec a 0xF0) as [->|].
  { destruct (Z.lt_ge_cases b 0x90); rng; done. }
  destruct (Z.eqb_spec a 0xF4) as [->|].
  { destruct (Z.lt_ge_cases b 0x90); rng; done. }
  rng. done.
Qed.

Lemma second_ok_cont a b : 0xE0 <= a -> cont b = false -> second_ok a b = false.
Proof.
  unfold second_ok, cont. intros _ H. unfold in_range in H. apply andb_false_iff in H.
  rewrite !Z.leb_gt in H. repeat case_match; apply in_range_f; lia.
Qed.

(** What the incomplete prefix tests let through, for three- and four-byte leads. *)
Lemma second_ok_three a b : 0xE0 <= a <= 0xEF -> 0x80 <= b <= 0xBF ->
  second_ok a b = negb ((a =? 0xE0) && (b <? 0xA0)) && negb ((a =? 0xED) && (0xA0 <=? b)).
Proof.
  intros Ha Hb. unfold second_ok, cont. destruct (Z.eqb_spec a 0xE0) as [->|].
  { destruct (Z.lt_ge_cases b 0xA0); rng; done. }
  destruct (Z.eqb_spec a 0xED) as [->|]; rng; [|done].
  destruct (Z.lt_ge_cases b 0xA0); rng; done.
Qed.

Lemma second_ok_four a b : 0xF0 <= a <= 0xF4 -> 0x80 <= b <= 0xBF ->
  second_ok a b = negb ((a =? 0xF0) && (b <? 0x90)) && negb ((a =? 0xF4) && (0x90 <=? b)).
Proof.
  intros Ha Hb. unfold second_ok, cont. rng. destruct (Z.eqb_spec a 0xF0) as [->|].
  { destruct (Z.lt_ge_cases b 0x90); rng; done. }
  destruct (Z.eqb_spec a 0xF4) as [->|]; rng; [|done].
  destruct (Z.lt_ge_cases b 0x90); rng; done.
Qed.

(** The relation between the two: an accepted prefix agrees with the scanner,
    and a rejected one is hopeless; the one hopeless prefix it lets through is
    a string that ends in a lone 0xC0 or 0xC1. *)
Definition incomplete_post (l : bytes) (r : bool * Z) : Prop :=
  match scan l with
  | Some p => r = (true, len p)
  | None => r = (false, 0) \/
      r = (true, 1) /\ exists q a, l = q ++ [a] /\ str_from_utf8 q = true /\ 0xC0 <= a <= 0xC1
  end.

Lemma incomplete_post_cons pre l r : str_from_utf8 pre = true ->
  incomplete_post l r -> incomplete_post (pre ++ l) r.
Proof.
  intros Hp. unfold incomplete_post. rewrite scan_valid_app by done. destruct (scan l); [done|].
  intros [->|(-> & q & a & -> & Hq & Ha)]; [by left|]. right. split; [done|].
  exists (pre ++ q), a. rewrite app_assoc. split; [done|]. split; [|done].
  apply scan_valid. rewrite scan_valid_app by done. by apply scan_valid.
Qed.

(** After a three-byte lead. *)
Lemma incomplete_three a t : 0xE0 <= a <= 0xEF -> bytes_ok t ->
  (forall k, (length k <= length t)%nat -> bytes_ok k -> incomplete_post k (validate_utf8_incomplete k)) ->
  incomplete_post (a :: t) (validate_utf8_incomplete (a :: t)).
Proof.
  intros H Ht IH. cbn [validate_utf8_incomplete]. rng.
  destruct t as [|b t]; [unfold incomplete_post; cbn [scan]; by rng|].
  inversion_clear Ht as [|? ? Hb Ht']. rewrite land_cont by done.
  destruct (cont b) eqn:Eb; cbn [negb orb].
  2:{ destruct t as [|c t]; unfold incomplete_post; cbn [scan]; rng;
      rewrite second_ok_cont by (done || lia); by left. }
  pose proof Eb as Eb'. apply in_range_iff in Eb'.
  destruct t as [|c t].
  { unfold incomplete_post. cbn [scan]. rng. rewrite second_ok_three by lia.
    destruct ((a =? 224) && (b <? 160)); [by left|]. destruct ((a =? 237) && (160 <=? b)); [by left|]. done. }
  inversion_clear Ht' as [|? ? Hc Ht'']. rewrite land_cont by done. destruct (cont c) eqn:Ec; cbn [negb].
  2:{ unfold incomplete_post. cbn [scan]. rng. rewrite Ec, andb_false_r. by left. }
  pose proof Ec as Ec'. apply in_range_iff in Ec'. rewrite cp3_eq, cp3_second by lia.
  destruct (second_ok a b) eqn:Es; cbn [negb].
  - change (a :: b :: c :: t) with ([a; b; c] ++ t).
    apply incomplete_post_cons; [cbn; rng; by rewrite Es, Ec|]. apply IH; [cbn; lia|done].
  - unfold incomplete_post. cbn [scan]. rng. rewrite Es. by left.
Qed.

(** After a four-byte lead. *)
Lemma incomplete_four a t : 0xF0 <= a <= 0xF4 -> bytes_ok t ->
  (forall k, (length k <= length t)%nat -> bytes_ok k -> incomplete_post k (validate_utf8_incomplete k)) ->
  incomplete_post (a :: t) (validate_utf8_incomplete (a :: t)).
Proof.
  intros H Ht IH. cbn [validate_utf8_incomplete]. rng.
  destruct t as [|b t]; [unfold incomplete_post; cbn [scan]; by rng|].
  inversion_clear Ht as [|? ? Hb Ht']. rewrite (land_cont b) by done.
  destruct (cont b) eqn:Eb; cbn [negb orb].
  2:{ destruct t as [|c [|d t]]; unfold incomplete_post; cbn [scan]; rng;
      rewrite second_ok_cont by (done || lia); by left. }
  pose proof Eb as Eb'. apply in_range_iff in Eb'.
  destruct t as [|c t].
  { unfold incomplete_post. cbn [scan]. rng. rewrite second_ok_four by lia.
    destruct ((a =? 240) && (b <? 144)); [by left|]. destruct ((a =? 244) && (144 <=? b)); [by left|]. done. }
  inversion_clear Ht' as [|? ? Hc Ht'']. rewrite (land_cont c) by done. destruct t as [|d t].
  { unfold incomplete_post. cbn [scan]. rng. rewrite second_ok_four by lia.
    destruct ((a =? 240) && (b <? 144)); [by left|]. destruct ((a =? 244) && (144 <=? b)); [by left|].
    cbn [negb andb]. destruct (cont c); [done|by left]. }
  inversion_clear Ht'' as [|? ? Hd Ht3]. rewrite (land_cont d) by done.
  destruct (cont c) eqn:Ec; cbn [negb orb].
  2:{ unfold incomplete_post. cbn [scan]. rng. rewrite Ec, andb_false_r. by left. }
  destruct (cont d) eqn:Ed; cbn [negb].
  2:{ unfold incomplete_post. cbn [scan]. rng. rewrite Ed, andb_false_r. by left. }
  pose proof Ec as Ec'. apply in_range_iff in Ec'. pose proof Ed as Ed'. apply in_range_iff in Ed'.
  rewrite cp4_eq, cp4_second by lia. destruct (second_ok a b) eqn:Es; cbn [negb].
  - change (a :: b :: c :: d :: t) with ([a; b; c; d] ++ t).
    apply incomplete_post_cons; [cbn; rng; by rewrite Es, Ec, Ed|]. apply IH; [cbn; lia|done].
  - unfold incomplete_post. cbn [scan]. rng. rewrite Es. by left.
Qed.

Lemma validate_utf8_incomplete_post l : bytes_ok l -> incomplete_post l (validate_utf8_incomplete l).
Proof.
  induction l as [|a t IH] using utf8_ind; intros Hok; [done|].
  inversion_clear Hok as [|? ? Ha Ht].
  destruct (lead_class_all a) as [H|H|H|H|H|H|H|H]; [| | | |by apply incomplete_three|by apply incomplete_four| |];
    cbn [validate_utf8_incomplete]; rng.
  - change (a :: t) with ([a] ++ t). apply incomplete_post_cons; [cbn; by rng|]. by apply IH.
  - unfold incomplete_post. cbn [scan]. rng. by left.
  - unfold incomplete_post. cbn [scan]. rng. destruct t as [|b t]; [|by left; destruct (negb _)].
    right. split; [done|]. exists [], a. split; [done|]. split; [done|lia].
  - destruct t as [|b t]; [unfold incomplete_post; cbn [scan]; by rng|].
    inversion_clear Ht as [|? ? Hb Ht']. rewrite land_cont by done.
    destruct (cont b) eqn:Eb; cbn [negb].
    + change (a :: b :: t) with ([a; b] ++ t). apply incomplete_post_cons; [cbn; rng; by rewrite Eb|].
      apply IH; [cbn; lia|done].
    + unfold incomplete_post. cbn [scan]. rng. rewrite Eb. by left.
  - unfold incomplete_post. cbn [scan]. rng. by left.
  - unfold incomplete_post. cbn [scan]. rng. by left.
Qed.

(** The one-shot prefix check reports [(true, 0)] exactly for
    well-formed strings; a rejected string cannot be completed; and an accepted
    one with [n] pending bytes is a well-formed prefix followed by [n] bytes that
    can still be completed, or by the single byte 0xC0 or 0xC1, which it does not examine. *)
Theorem validate_utf8_incomplete_correct l : bytes_ok l ->
  (validate_utf8_incomplete l = (true, 0) <-> str_from_utf8 l = true) /\
  (fst (validate_utf8_incomplete l) = false -> forall k, str_from_utf8 (l ++ k) = false) /\
  (fst (validate_utf8_incomplete l) = true -> exists q p, l = q ++ p /\
     str_from_utf8 q = true /\ len p = snd (validate_utf8_incomplete l) /\
     ((exists k, str_from_utf8 (p ++ k) = true) \/ p = [0xC0] \/ p = [0xC1])).
Proof.
  intros Hok. pose proof (validate_utf8_incomplete_post l Hok) as H. unfold incomplete_post in H.
  destruct (scan l) as [p|] eqn:E.
  - rewrite H. cbn. split_and!; [|done|].
    + rewrite scan_valid, E. split; [intros [= ->%len_0_nil]; done|by intros [= ->]].
    + intros _. apply scan_split in E as (q & -> & Hq & Hp). exists q, p.
      split_and!; try done. left. by apply pending_completes.
  - assert (str_from_utf8 l <> true) by (rewrite scan_valid, E; done). destruct H as [->|(-> & q & a & -> & Hq & Ha)].
    + cbn. split_and!; [done| |done]. intros _. by apply scan_hopeless.
    + cbn. split_and!; [done|done|]. intros _. exists q, [a]. split_and!; try done.
      right. assert (a = 0xC0 \/ a = 0xC1) as [-> | ->] by lia; auto.
Qed.

Lemma validate_utf8_incomplete_correct_witness :
  bytes_ok [0x68; 0xE2; 0x82] /\
  (validate_utf8_incomplete [0x68; 0xE2; 0x82] = (true, 0) <-> str_from_utf8 [0x68; 0xE2; 0x82] = true).
Proof.
  assert (H : bytes_ok [0x68; 0xE2; 0x82]) by (repeat constructor; cbn; lia).
  split; [exact H|]. exact (proj1 (validate_utf8_incomplete_correct _ H)).
Defined.
