(* ===== verification/Frame.v ===== *)
(** * Frames (src/src/frame.rs)

    The frame types, the header and frame encoders, and the resumable parser:
    its two inline fast paths, the complete-payload fast path and the
    state machine that consumes a header byte by byte.  Theorems are in
    [FrameSpec]. *)

From stdpp Require Import base list strings.
From S2P Require Import Prelude Error Mask Utf8.

Definition SMALL_MESSAGE_THRESHOLD := 125.
Definition MEDIUM_MESSAGE_THRESHOLD := 65535.

(** ** Opcodes *)

Inductive OpCode := Continuation | Text | Binary | Close | Ping | Pong.

#[export] Instance OpCode_eq_dec : EqDecision OpCode.
Proof. solve_decision. Defined.

(** [self as u8] *)
Definition opcode_u8 (o : OpCode) : Z :=
  match o with
  | Continuation => 0x0 | Text => 0x1 | Binary => 0x2 | Close => 0x8 | Ping => 0x9 | Pong => 0xA
  end.

Definition from_u8 (byte : Z) : option OpCode :=
  if byte =? 0x0 then Some Continuation
  else if byte =? 0x1 then Some Text
  else if byte =? 0x2 then Some Binary
  else if byte =? 0x8 then Some Close
  else if byte =? 0x9 then Some Ping
  else if byte =? 0xA then Some Pong
  else None.

Definition is_control (o : OpCode) : bool := 0x8 <=? opcode_u8 o.
Definition is_data (o : OpCode) : bool := opcode_u8 o <=? 0x2.

(** ** Headers and frames *)

Record FrameHeader := MkHeader {
  fin : bool;
  rsv1 : bool;
  rsv2 : bool;
  rsv3 : bool;
  opcode : OpCode;
  masked : bool;
  payload_len : Z;
  mask : option bytes
}.

Definition header_size (h : FrameHeader) : Z :=
  let size := 2 in
  let size := if MEDIUM_MESSAGE_THRESHOLD <? payload_len h then size + 8
              else if SMALL_MESSAGE_THRESHOLD <? payload_len h then size + 2
              else size in
  if masked h then size + 4 else size.

(** [if c { b |= bit }] *)
Definition or_if (c : bool) (bit b : Z) : Z := if c then Z.lor b bit else b.

(** [FrameHeader::encode]: the bytes appended to the buffer. *)
Definition encode_header (h : FrameHeader) : bytes :=
  let b0 := opcode_u8 (opcode h) in
  let b0 := or_if (fin h) 0x80 b0 in
  let b0 := or_if (rsv1 h) 0x40 b0 in
  let b0 := or_if (rsv2 h) 0x20 b0 in
  let b0 := or_if (rsv3 h) 0x10 b0 in
  let mask_bit := if masked h then 0x80 else 0x00 in
  [b0] ++
  (if payload_len h <=? SMALL_MESSAGE_THRESHOLD then [Z.lor mask_bit (wrap 8 (payload_len h))]
   else if payload_len h <=? MEDIUM_MESSAGE_THRESHOLD
   then [Z.lor mask_bit 126] ++ to_be_bytes 2 (payload_len h)
   else [Z.lor mask_bit 127] ++ to_be_bytes 8 (payload_len h)) ++
  match mask h with Some m => m | None => [] end.

Record Frame := MkFrame { header : FrameHeader; payload : bytes }.

Definition frame_new (o : OpCode) (payload : bytes) (fin : bool) : Frame :=
  MkFrame (MkHeader fin false false false o false (len payload) None) payload.
Definition frame_text (d : bytes) : Frame := frame_new Text d true.
Definition frame_binary (d : bytes) : Frame := frame_new Binary d true.
Definition frame_ping (d : bytes) : Frame := frame_new Ping d true.
Definition frame_pong (d : bytes) : Frame := frame_new Pong d true.
Definition frame_close (code : Z) (reason : bytes) : Frame :=
  frame_new Close (to_be_bytes 2 code ++ reason) true.
Definition frame_close_empty : Frame := frame_new Close [] true.

Definition frame_is_control (f : Frame) : bool := is_control (opcode (header f)).
Definition frame_is_final (f : Frame) : bool := fin (header f).

Definition as_text `{Simdutf8} (f : Frame) : result bytes :=
  if negb (validate_utf8 (payload f)) then Err InvalidUtf8 else Ok (payload f).

Definition parse_close (f : Frame) : option CloseReason.t :=
  let p := payload f in
  if len p <? 2 then None
  else
    let code := from_be_bytes [p.[0]; p.[1]] in
    let reason := if 2 <? len p then from_utf8_lossy (from 2 p) else [] in
    Some (CloseReason.new code reason).

(** ** Encoding *)

(** [encode_frame_with_rsv]: what it appends to the output buffer. *)
Definition encode_frame_with_rsv (buf : bytes) (o : OpCode) (payload : bytes) (fin : bool)
    (mask : option bytes) (rsv1 : bool) : bytes :=
  let payload_len := len payload in
  let b0 := opcode_u8 o in
  let b0 := or_if fin 0x80 b0 in
  let b0 := or_if rsv1 0x40 b0 in
  let mask_bit := match mask with Some _ => 0x80 | None => 0x00 end in
  let ext :=
    if payload_len <=? SMALL_MESSAGE_THRESHOLD then [Z.lor mask_bit (wrap 8 payload_len)]
    else if payload_len <=? MEDIUM_MESSAGE_THRESHOLD
    then [Z.lor mask_bit 126] ++ to_be_bytes 2 (wrap 16 payload_len)
    else [Z.lor mask_bit 127] ++ to_be_bytes 8 payload_len in
  let rest :=
    match mask with
    | Some m => m ++ encode_payload_masked_inline payload m
    | None => payload
    end in
  buf ++ [b0] ++ ext ++ rest.

(** The size computed up front for [reserve] and [set_len]. *)
Definition encode_total_size (payload_len : Z) (mask : option bytes) : Z :=
  let ext_len_size := if MEDIUM_MESSAGE_THRESHOLD <? payload_len then 8
                      else if SMALL_MESSAGE_THRESHOLD <? payload_len then 2 else 0 in
  let mask_size := match mask with Some _ => 4 | None => 0 end in
  2 + ext_len_size + mask_size + payload_len.

Definition encode_frame (buf : bytes) (o : OpCode) (payload : bytes) (fin : bool)
    (mask : option bytes) : bytes :=
  encode_frame_with_rsv buf o payload fin mask false.

Definition encode_frame_header_with_rsv (buf : bytes) (o : OpCode) (payload_len : Z) (fin : bool)
    (mask : option bytes) (rsv1 : bool) : bytes :=
  buf ++ encode_header
    (MkHeader fin rsv1 false false o (match mask with Some _ => true | None => false end)
              payload_len mask).

Definition encode_frame_header (buf : bytes) (o : OpCode) (payload_len : Z) (fin : bool)
    (mask : option bytes) : bytes :=
  encode_frame_header_with_rsv buf o payload_len fin mask false.

(** ** The parser *)

Inductive ParseState := PHeader | ExtendedLen16 | ExtendedLen64 | PMask | PPayload | PFrameTooLarge.

#[export] Instance ParseState_eq_dec : EqDecision ParseState.
Proof. solve_decision. Defined.

Module FrameParser.
Record t := Mk {
  state : ParseState;
  header_buf : bytes;
  header_len : Z;
  hdr : option FrameHeader;
  max_frame_size : Z;
  expect_masked : bool;
  allow_rsv1 : bool;
  payload_ready : Z
}.

Definition set_state (s : ParseState) (p : t) : t :=
  Mk s (header_buf p) (header_len p) (hdr p) (max_frame_size p) (expect_masked p) (allow_rsv1 p)
     (payload_ready p).
Definition set_header_buf (hb : bytes) (hl : Z) (p : t) : t :=
  Mk (state p) hb hl (hdr p) (max_frame_size p) (expect_masked p) (allow_rsv1 p) (payload_ready p).
Definition set_hdr (h : option FrameHeader) (p : t) : t :=
  Mk (state p) (header_buf p) (header_len p) h (max_frame_size p) (expect_masked p) (allow_rsv1 p)
     (payload_ready p).
Definition set_ready (n : Z) (p : t) : t :=
  Mk (state p) (header_buf p) (header_len p) (hdr p) (max_frame_size p) (expect_masked p)
     (allow_rsv1 p) n.

Definition new (max_frame_size : Z) (expect_masked : bool) : t :=
  Mk PHeader (replicate 14 0) 0 None max_frame_size expect_masked false 0.
Definition with_compression (max_frame_size : Z) (expect_masked : bool) : t :=
  Mk PHeader (replicate 14 0) 0 None max_frame_size expect_masked true 0.

Record PendingPayload := MkPending {
  p_opcode : OpCode; p_fin : bool; p_rsv1 : bool; p_ready : Z; p_total : Z
}.

Definition pending_payload (p : t) : option PendingPayload :=
  if negb (bool_decide (state p = PPayload)) then None
  else match hdr p with
       | None => None
       | Some h => Some (MkPending (opcode h) (fin h) (rsv1 h) (payload_ready p) (payload_len h))
       end.

Definition set_max_frame_size (m : Z) (p : t) : t :=
  let p := Mk (state p) (header_buf p) (header_len p) (hdr p) m (expect_masked p) (allow_rsv1 p)
              (payload_ready p) in
  if match hdr p with Some h => m <? payload_len h | None => false end
  then set_state PFrameTooLarge p else p.

Definition set_compression (enabled : bool) (p : t) : t :=
  Mk (state p) (header_buf p) (header_len p) (hdr p) (max_frame_size p) (expect_masked p) enabled
     (payload_ready p).

Definition reset (p : t) : t :=
  Mk PHeader (header_buf p) 0 None (max_frame_size p) (expect_masked p) (allow_rsv1 p) 0.

(** The parser and the caller's buffer, both borrowed mutably by [parse]. *)
Abbreviation st := (t * bytes)%type.
Abbreviation perr msg := (Err (ProtocolError msg)).

(** [parse_header_with_len]: the header saved in [header_buf], with its length. *)
Definition parse_header_with_len (p : t) (plen : Z) : comp t unit :=
  let b0 := (header_buf p).[0] in
  let b1 := (header_buf p).[1] in
  match from_u8 (Z.land b0 0x0F) with
  | None => Done p (Err (InvalidFrame "invalid opcode"))
  | Some o =>
      if is_control o && (125 <? plen) then Done p (perr "control frame too large")
      else if max_frame_size p <? plen then Done p (Err FrameTooLarge)
      else Done (set_hdr (Some (MkHeader (b0 &? 0x80) (b0 &? 0x40) (b0 &? 0x20) (b0 &? 0x10) o
                                         (b1 &? 0x80) plen None)) p) (Ok tt)
  end.

Section parse.
(** The machine the masking kernels run on and where it places a slice. *)
Context (arch : Arch) (slice_addr : bytes -> Z).

Definition unmask (d m : bytes) (off : Z) : bytes := apply_mask_offset arch (slice_addr d) d m off.

(** [ParseState::Header] once the length is known; the header without its mask
    is [header_size] bytes long. *)
Definition header_with_len (p : t) (buf : bytes) (fin rsv1 rsv2 rsv3 : bool) (o : OpCode)
    (masked : bool) (payload_len header_size : Z) : st + comp st (option Frame) :=
  if is_control o && (125 <? payload_len)
  then inr (Done (p, buf) (perr "control frame too large"))
  else if max_frame_size p <? payload_len then inr (Done (p, buf) (Err FrameTooLarge))
  else
    let total_header := header_size + (if masked then 4 else 0) in
    if len buf <? total_header then
      let to_copy := Z.min (len buf) 14 in
      let p := set_header_buf (blit (header_buf p) 0 (upto to_copy buf)) to_copy p in
      let p := set_hdr (Some (MkHeader fin rsv1 rsv2 rsv3 o masked payload_len None)) p in
      inr (Done (set_state PMask p, from to_copy buf) (Ok None))
    else
      let mask := if masked
                  then Some [buf.[header_size]; buf.[header_size + 1]; buf.[header_size + 2];
                             buf.[header_size + 3]]
                  else None in
      let buf := from total_header buf in
      let h := MkHeader fin rsv1 rsv2 rsv3 o masked payload_len mask in
      if payload_len <=? len buf then
        let payload := upto payload_len buf in
        let payload := match mask with Some m => unmask payload m 0 | None => payload end in
        inr (Done (p, from payload_len buf) (Ok (Some (MkFrame h payload))))
      else inl (set_state PPayload (set_hdr (Some h) p), buf).

(** Not enough bytes for the extended length: save the two base bytes. *)
Definition header_save_two (p : t) (buf : bytes) (b0 b1 : Z) (s : ParseState) :
    st + comp st (option Frame) :=
  let p := set_header_buf (blit (header_buf p) 0 [b0; b1]) 2 p in
  inr (Done (set_state s p, from 2 buf) (Ok None)).

(** [ParseState::Header] *)
Definition step_header (p : t) (buf : bytes) : st + comp st (option Frame) :=
  if len buf <? 2 then inr (Done (p, buf) (Ok None))
  else
    let b0 := buf.[0] in
    let b1 := buf.[1] in
    let fin := b0 &? 0x80 in
    let rsv1 := b0 &? 0x40 in
    let rsv2 := b0 &? 0x20 in
    let rsv3 := b0 &? 0x10 in
    if rsv1 && negb (allow_rsv1 p)
    then inr (Done (p, buf) (perr "RSV1 must be 0 (compression not negotiated)"))
    else if rsv2 || rsv3 then inr (Done (p, buf) (perr "RSV2 and RSV3 must be 0"))
    else match from_u8 (Z.land b0 0x0F) with
    | None => inr (Done (p, buf) (Err (InvalidFrame "invalid opcode")))
    | Some o =>
      if rsv1 && negb (bool_decide (o = Text) || bool_decide (o = Binary))
      then inr (Done (p, buf) (perr "RSV1 on control or continuation frame"))
      else if is_control o && negb fin
      then inr (Done (p, buf) (perr "control frame must not be fragmented"))
      else
      let masked := b1 &? 0x80 in
      let len_byte := Z.land b1 0x7F in
      if expect_masked p && negb masked
      then inr (Done (p, buf) (perr "client frames must be masked"))
      else if negb (expect_masked p) && masked
      then inr (Done (p, buf) (perr "server frames must not be masked"))
      else if len_byte <=? 125 then header_with_len p buf fin rsv1 rsv2 rsv3 o masked len_byte 2
      else if len_byte =? 126 then
        if len buf <? 4 then header_save_two p buf b0 b1 ExtendedLen16
        else
          let l := from_be_bytes [buf.[2]; buf.[3]] in
          if l <? 126 then inr (Done (p, buf) (perr "payload length not minimal"))
          else header_with_len p buf fin rsv1 rsv2 rsv3 o masked l 4
      else
        if len buf <? 10 then header_save_two p buf b0 b1 ExtendedLen64
        else
          let l := from_be_bytes [buf.[2]; buf.[3]; buf.[4]; buf.[5]; buf.[6]; buf.[7]; buf.[8]; buf.[9]] in
          if l <=? 0xFFFF then inr (Done (p, buf) (perr "payload length not minimal"))
          else if negb (Z.shiftr l 63 =? 0)
          then inr (Done (p, buf) (perr "payload length MSB must be 0"))
          else header_with_len p buf fin rsv1 rsv2 rsv3 o masked l 10
    end.

(** Complete [header_buf] up to [target_len] from the buffer: the code the three
    partial-header states repeat.  [inl] when the buffer runs out first. *)
Definition fill_header (p : t) (buf : bytes) (target_len : Z) : option (st + st) :=
  if target_len <? header_len p then None (* subtraction overflow *)
  else
    let needed := target_len - header_len p in
    if len buf <? needed then
      let to_copy := len buf in
      if 14 <? header_len p + to_copy then None (* slice range *)
      else Some (inl (set_header_buf (blit (header_buf p) (header_len p) buf)
                                     (header_len p + to_copy) p, from to_copy buf))
    else if 14 <? target_len then None (* slice range *)
    else Some (inr (set_header_buf (blit (header_buf p) (header_len p) (upto needed buf)) target_len p,
                    from needed buf)).

(** [if self.header.as_ref().unwrap().masked { Mask } else { Payload }] *)
Definition after_len (p : t) (buf : bytes) : st + comp st (option Frame) :=
  match hdr p with
  | None => inr Panic
  | Some h => inl (set_state (if masked h then PMask else PPayload) p, buf)
  end.

(** The end of both extended-length states: build the header, move on. *)
Definition finish_len (p : t) (buf : bytes) (plen : Z) : st + comp st (option Frame) :=
  match parse_header_with_len p plen with
  | Done p (Ok _) => after_len p buf
  | Done p (Err e) => inr (Done (p, buf) (Err e))
  | Panic => inr Panic
  | NoFuel => inr NoFuel
  end.

(** [ParseState::ExtendedLen16] *)
Definition step_ext16 (p : t) (buf : bytes) : st + comp st (option Frame) :=
  match fill_header p buf 4 with
  | None => inr Panic
  | Some (inl s) => inr (Done s (Ok None))
  | Some (inr (p, buf)) =>
      let l := from_be_bytes [(header_buf p).[2]; (header_buf p).[3]] in
      if l <? 126 then inr (Done (p, buf) (perr "payload length not minimal"))
      else finish_len p buf l
  end.

(** [ParseState::ExtendedLen64] *)
Definition step_ext64 (p : t) (buf : bytes) : st + comp st (option Frame) :=
  match fill_header p buf 10 with
  | None => inr Panic
  | Some (inl s) => inr (Done s (Ok None))
  | Some (inr (p, buf)) =>
      let hb := header_buf p in
      let l := from_be_bytes [hb.[2]; hb.[3]; hb.[4]; hb.[5]; hb.[6]; hb.[7]; hb.[8]; hb.[9]] in
      if l <=? 0xFFFF then inr (Done (p, buf) (perr "payload length not minimal"))
      else if negb (Z.shiftr l 63 =? 0)
      then inr (Done (p, buf) (perr "payload length MSB must be 0"))
      else finish_len p buf l
  end.

(** [ParseState::Mask] *)
Definition step_mask (p : t) (buf : bytes) : st + comp st (option Frame) :=
  match hdr p with
  | None => inr Panic
  | Some h =>
      let header_base := if MEDIUM_MESSAGE_THRESHOLD <? payload_len h then 10
                         else if SMALL_MESSAGE_THRESHOLD <? payload_len h then 4 else 2 in
      match fill_header p buf (header_base + 4) with
      | None => inr Panic
      | Some (inl s) => inr (Done s (Ok None))
      | Some (inr (p, buf)) =>
          let hb := header_buf p in
          let m := [hb.[header_base]; hb.[header_base + 1]; hb.[header_base + 2]; hb.[header_base + 3]] in
          let h := MkHeader (fin h) (rsv1 h) (rsv2 h) (rsv3 h) (opcode h) (masked h) (payload_len h) (Some m) in
          inl (set_state PPayload (set_hdr (Some h) p), buf)
      end
  end.

(** [ParseState::Payload]: the part of the buffer before [payload_ready] is
    already unmasked in place. *)
Definition step_payload (p : t) (buf : bytes) : st + comp st (option Frame) :=
  match hdr p with
  | None => inr Panic
  | Some h =>
      let plen := payload_len h in
      let ready := payload_ready p in
      if len buf <? plen then
        let available := len buf in
        if ready <? available then
          let buf := match mask h with
                     | Some m => upto ready buf ++ unmask (from ready buf) m ready
                     | None => buf
                     end in
          inr (Done (set_ready available p, buf) (Ok None))
        else inr (Done (p, buf) (Ok None))
      else
        let payload := upto plen buf in
        let buf := from plen buf in
        let payload := match mask h with
                       | Some m => if ready <? plen
                                   then upto ready payload ++ unmask (from ready payload) m ready
                                   else payload
                       | None => payload
                       end in
        inr (Done (reset p, buf) (Ok (Some (MkFrame h payload))))
  end.

(** One turn of the loop of [parse_slow]. *)
Definition slow_step (s : st) : st + comp st (option Frame) :=
  let '(p, buf) := s in
  match state p with
  | PFrameTooLarge => inr (Done (p, buf) (Err FrameTooLarge))
  | PHeader => step_header p buf
  | ExtendedLen16 => step_ext16 p buf
  | ExtendedLen64 => step_ext64 p buf
  | PMask => step_mask p buf
  | PPayload => step_payload p buf
  end.

(** The loop makes at most three turns; [slow_step] never returns to an earlier state. *)
Definition parse_slow (p : t) (buf : bytes) : comp st (option Frame) :=
  loop_fuel 4 slow_step (p, buf).

(** [try_parse_complete_unmasked_data]: the opcode, the payload and the rest of the buffer. *)
Definition try_parse_complete_unmasked_data (p : t) (buf : bytes) : option (OpCode * bytes * bytes) :=
  if negb (bool_decide (state p = PHeader)) || expect_masked p || (len buf <? 2) then None
  else
    let b0 := buf.[0] in
    if negb ((b0 =? 0x81) || (b0 =? 0x82)) then None
    else
      let lens :=
        let l := buf.[1] in
        if in_range 0 125 l then Some (2, l)
        else if (l =? 126) && (4 <=? len buf) then
          let l := from_be_bytes [buf.[2]; buf.[3]] in
          if l <? 126 then None else Some (4, l)
        else None in
      match lens with
      | None => None
      | Some (header_len, payload_len) =>
          if (max_frame_size p <? payload_len) || (len buf <? header_len + payload_len) then None
          else
            let buf := from header_len buf in
            let o := if b0 =? 0x81 then Text else Binary in
            Some (o, upto payload_len buf, from payload_len buf)
      end.

(** The inline path for a complete small frame without a mask. *)
Definition fast_unmasked (p : t) (buf : bytes) : option (comp st (option Frame)) :=
  if bool_decide (state p = PHeader) && negb (expect_masked p) && (2 <=? len buf) then
    let b0 := buf.[0] in
    let b1 := buf.[1] in
    let len_byte := Z.land b1 0x7F in
    if (len_byte <=? 125) && negb (b1 &? 0x80) then
      let plen := len_byte in
      let total_len := 2 + plen in
      if total_len <=? len buf then
        let fin := b0 &? 0x80 in
        let rsv1 := b0 &? 0x40 in
        let rsv2 := b0 &? 0x20 in
        let rsv3 := b0 &? 0x10 in
        if (rsv1 && (negb (allow_rsv1 p) || negb ((Z.land b0 0x0F =? 0x1) || (Z.land b0 0x0F =? 0x2))))
           || rsv2 || rsv3
        then Some (parse_slow p buf)
        else match from_u8 (Z.land b0 0x0F) with
        | None => None
        | Some o =>
            if is_control o && negb fin
            then Some (Done (p, buf) (perr "control frame must not be fragmented"))
            else if max_frame_size p <? plen then Some (Done (p, buf) (Err FrameTooLarge))
            else
              let buf := from 2 buf in
              Some (Done (p, from plen buf)
                (Ok (Some (MkFrame (MkHeader fin rsv1 rsv2 rsv3 o false plen None) (upto plen buf)))))
        end
      else None
    else None
  else None.

(** The inline path for a complete small masked frame. *)
Definition fast_masked (p : t) (buf : bytes) : option (comp st (option Frame)) :=
  if bool_decide (state p = PHeader) && expect_masked p && (6 <=? len buf) then
    let b0 := buf.[0] in
    let b1 := buf.[1] in
    let len_byte := Z.land b1 0x7F in
    if (len_byte <=? 125) && (b1 &? 0x80) then
      let plen := len_byte in
      let total_len := 2 + 4 + plen in
      if total_len <=? len buf then
        let fin := b0 &? 0x80 in
        let rsv1 := b0 &? 0x40 in
        let rsv2 := b0 &? 0x20 in
        let rsv3 := b0 &? 0x10 in
        if (rsv1 && (negb (allow_rsv1 p) || negb ((Z.land b0 0x0F =? 0x1) || (Z.land b0 0x0F =? 0x2))))
           || rsv2 || rsv3
        then Some (parse_slow p buf)
        else match from_u8 (Z.land b0 0x0F) with
        | None => None
        | Some o =>
            if is_control o && negb fin
            then Some (Done (p, buf) (perr "control frame must not be fragmented"))
            else if max_frame_size p <? plen then Some (Done (p, buf) (Err FrameTooLarge))
            else
              let m := [buf.[2]; buf.[3]; buf.[4]; buf.[5]] in
              let buf := from 6 buf in
              let payload := unmask (upto plen buf) m 0 in
              Some (Done (p, from plen buf)
                (Ok (Some (MkFrame (MkHeader fin rsv1 rsv2 rsv3 o true plen (Some m)) payload))))
        end
      else None
    else None
  else None.

Definition parse_after_complete_data_miss (p : t) (buf : bytes) : comp st (option Frame) :=
  match fast_unmasked p buf with
  | Some r => r
  | None => match fast_masked p buf with
            | Some r => r
            | None => parse_slow p buf
            end
  end.

Definition parse (p : t) (buf : bytes) : comp st (option Frame) :=
  match try_parse_complete_unmasked_data p buf with
  | Some (o, payload, buf) =>
      Done (p, buf) (Ok (Some (MkFrame
        (MkHeader true false false false o false (len payload) None) payload)))
  | None => parse_after_complete_data_miss p buf
  end.
End parse.
End FrameParser.
