(* ===== verification/FrameSpec.v ===== *)
(** * What the frame parser computes

    [spec_parse] reads one frame from the front of an unbounded byte string, with no
    state and no fast path.  The parser refines it: whatever state it is in
    and however much of the frame has been consumed or unmasked in place,
    [parse] answers what [spec_parse] answers on the bytes received since the
    last frame.  Independence of read boundaries, totality and the round trip with the
    encoder follow. *)

From stdpp Require Import base list strings.
From S2P Require Import Prelude Error Mask Utf8 Frame.
Import FrameParser.

(** ** Reference parser *)

Inductive outcome :=
  | Need
  | Bad (e : Error)
  | Got (f : Frame) (rest : bytes).

(** The limits and the policy a parser was built with. *)
Record policy := MkPolicy { pol_max : Z; pol_masked : bool; pol_rsv1 : bool }.
Definition policy_of (p : t) : policy := MkPolicy (max_frame_size p) (expect_masked p) (allow_rsv1 p).

(** The checks on the two base bytes, in the order of the source. *)
Definition check_base (pol : policy) (b0 b1 : Z) : result OpCode :=
  if (b0 &? 0x40) && negb (pol_rsv1 pol) then perr "RSV1 must be 0 (compression not negotiated)"
  else if (b0 &? 0x20) || (b0 &? 0x10) then perr "RSV2 and RSV3 must be 0"
  else match from_u8 (Z.land b0 0x0F) with
  | None => Err (InvalidFrame "invalid opcode")
  | Some o =>
      if (b0 &? 0x40) && negb (bool_decide (o = Text) || bool_decide (o = Binary))
      then perr "RSV1 on control or continuation frame"
      else if is_control o && negb (b0 &? 0x80) then perr "control frame must not be fragmented"
      else if pol_masked pol && negb (b1 &? 0x80) then perr "client frames must be masked"
      else if negb (pol_masked pol) && (b1 &? 0x80) then perr "server frames must not be masked"
      else Ok o
  end.

Definition with_mask (h : FrameHeader) (m : option bytes) : FrameHeader :=
  MkHeader (fin h) (rsv1 h) (rsv2 h) (rsv3 h) (opcode h) (masked h) (payload_len h) m.

Definition unmasked (h : FrameHeader) (d : bytes) : bytes :=
  match mask h with Some m => mask_spec m 0 d | None => d end.

Definition spec_payload (h : FrameHeader) (hs : Z) (raw : bytes) : outcome :=
  let body := from hs raw in
  if len body <? payload_len h then Need
  else Got (MkFrame h (unmasked h (upto (payload_len h) body))) (from (payload_len h) body).

Definition spec_mask (h : FrameHeader) (base : Z) (raw : bytes) : outcome :=
  if masked h then
    if len raw <? base + 4 then Need
    else spec_payload (with_mask h (Some [raw.[base]; raw.[base + 1]; raw.[base + 2]; raw.[base + 3]]))
                      (base + 4) raw
  else spec_payload h base raw.

Definition base_header (b0 b1 : Z) (o : OpCode) (plen : Z) : FrameHeader :=
  MkHeader (b0 &? 0x80) (b0 &? 0x40) (b0 &? 0x20) (b0 &? 0x10) o (b1 &? 0x80) plen None.

Definition spec_len (pol : policy) (b0 b1 : Z) (o : OpCode) (plen base : Z) (raw : bytes) : outcome :=
  if is_control o && (125 <? plen) then Bad (ProtocolError "control frame too large")
  else if pol_max pol <? plen then Bad FrameTooLarge
  else spec_mask (base_header b0 b1 o plen) base raw.

Definition spec_len16 (pol : policy) (b0 b1 : Z) (o : OpCode) (raw : bytes) : outcome :=
  if len raw <? 4 then Need
  else let l := from_be_bytes [raw.[2]; raw.[3]] in
       if l <? 126 then Bad (ProtocolError "payload length not minimal")
       else spec_len pol b0 b1 o l 4 raw.

Definition spec_len64 (pol : policy) (b0 b1 : Z) (o : OpCode) (raw : bytes) : outcome :=
  if len raw <? 10 then Need
  else let l := from_be_bytes [raw.[2]; raw.[3]; raw.[4]; raw.[5]; raw.[6]; raw.[7]; raw.[8]; raw.[9]] in
       if l <=? 0xFFFF then Bad (ProtocolError "payload length not minimal")
       else if negb (Z.shiftr l 63 =? 0) then Bad (ProtocolError "payload length MSB must be 0")
       else spec_len pol b0 b1 o l 10 raw.

Definition spec_parse (pol : policy) (raw : bytes) : outcome :=
  if len raw <? 2 then Need
  else
    let b0 := raw.[0] in
    let b1 := raw.[1] in
    match check_base pol b0 b1 with
    | Err e => Bad e
    | Ok o =>
        let l := Z.land b1 0x7F in
        if l <=? 125 then spec_len pol b0 b1 o l 2 raw
        else if l =? 126 then spec_len16 pol b0 b1 o raw
        else spec_len64 pol b0 b1 o raw
    end.

(** ** The reference parser looks no further than one frame *)

Definition outcome_app (r : outcome) (more : bytes) : outcome :=
  match r with Got f rest => Got f (rest ++ more) | r => r end.

Lemma spec_payload_app h hs raw more : 0 <= hs <= len raw -> 0 <= payload_len h ->
  spec_payload h hs raw <> Need ->
  spec_payload h hs (raw ++ more) = outcome_app (spec_payload h hs raw) more.
Proof.
  intros Hhs Hp. unfold spec_payload. rewrite from_app_le by lia.
  destruct (Z.ltb_spec (len (from hs raw)) (payload_len h)); [done|]. intros _.
  rewrite len_app. pose proof (len_nonneg more). rewrite (proj2 (Z.ltb_ge _ _)) by lia.
  cbn. by rewrite upto_app_le, from_app_le by lia.
Qed.

Lemma spec_mask_app h base raw more : 0 <= base <= len raw -> 0 <= payload_len h ->
  spec_mask h base raw <> Need ->
  spec_mask h base (raw ++ more) = outcome_app (spec_mask h base raw) more.
Proof.
  intros Hb Hp. unfold spec_mask. destruct (masked h); [|by apply spec_payload_app].
  destruct (Z.ltb_spec (len raw) (base + 4)); [done|]. intros Hn.
  rewrite len_app. pose proof (len_nonneg more). rewrite (proj2 (Z.ltb_ge _ _)) by lia.
  rewrite !at_app_l by lia. by apply spec_payload_app; [lia|..].
Qed.

Lemma spec_len_app pol b0 b1 o plen base raw more : 0 <= base <= len raw -> 0 <= plen ->
  spec_len pol b0 b1 o plen base raw <> Need ->
  spec_len pol b0 b1 o plen base (raw ++ more) = outcome_app (spec_len pol b0 b1 o plen base raw) more.
Proof.
  intros Hb Hp. unfold spec_len. destruct (_ && _); [done|]. destruct (_ <? _); [done|].
  by apply spec_mask_app.
Qed.

Lemma len_nonneg_be l : bytes_ok l -> 0 <= from_be_bytes l.
Proof. intros H. pose proof (from_be_bytes_bound l H). lia. Qed.

(** Pick bytes out of a well-formed buffer. *)
Ltac bytes_ok_tac :=
  repeat (apply List.Forall_cons; [apply at_byte; auto with ws|]); apply List.Forall_nil.

Lemma spec_parse_app pol raw more : bytes_ok raw -> spec_parse pol raw <> Need ->
  spec_parse pol (raw ++ more) = outcome_app (spec_parse pol raw) more.
Proof.
  intros Hok. pose proof (len_nonneg more). unfold spec_parse.
  destruct (Z.ltb_spec (len raw) 2); [done|].
  rewrite len_app. zfalse (len raw + len more <? 2). rewrite !at_app_l by lia.
  destruct (check_base _ _ _) as [o|e]; [|done].
  destruct (Z.land _ 127 <=? 125).
  { apply spec_len_app; [lia|]. by apply land_range. }
  destruct (Z.land _ 127 =? 126).
  - unfold spec_len16. destruct (Z.ltb_spec (len raw) 4); [done|].
    rewrite len_app. zfalse (len raw + len more <? 4). rewrite !at_app_l by lia. destruct (_ <? 126); [done|].
    apply spec_len_app; [lia|]. apply len_nonneg_be. bytes_ok_tac.
  - unfold spec_len64. destruct (Z.ltb_spec (len raw) 10); [done|].
    rewrite len_app. zfalse (len raw + len more <? 10). rewrite !at_app_l by lia. destruct (_ <=? _); [done|].
    destruct (negb _); [done|]. apply spec_len_app; [lia|]. apply len_nonneg_be. bytes_ok_tac.
Qed.

(** ** The parser state as a view of the bytes received *)

Definition head (p : t) : bytes := upto (header_len p) (header_buf p).

Definition base_of (plen : Z) : Z :=
  if MEDIUM_MESSAGE_THRESHOLD <? plen then 10 else if SMALL_MESSAGE_THRESHOLD <? plen then 4 else 2.

Definition key_ok (h : FrameHeader) : Prop :=
  match mask h with Some m => len m = 4 /\ bytes_ok m | None => True end.

(** [views p buf raw]: the parser in state [p] with [buf] unread stands for the
    bytes [raw] since the end of the last frame. *)
Inductive view (p : t) (buf raw : bytes) : Prop :=
  | view_header :
      state p = PHeader -> raw = buf -> view p buf raw
  | view_ext16 b0 b1 o :
      state p = ExtendedLen16 -> check_base (policy_of p) b0 b1 = Ok o -> Z.land b1 0x7F = 126 ->
      upto 2 (header_buf p) = [b0; b1] -> 2 <= header_len p < 4 -> raw = head p ++ buf ->
      view p buf raw
  | view_ext64 b0 b1 o :
      state p = ExtendedLen64 -> check_base (policy_of p) b0 b1 = Ok o -> Z.land b1 0x7F = 127 ->
      upto 2 (header_buf p) = [b0; b1] -> 2 <= header_len p < 10 -> raw = head p ++ buf ->
      view p buf raw
  | view_mask h :
      state p = PMask -> hdr p = Some h -> masked h = true -> 0 <= payload_len h ->
      base_of (payload_len h) <= header_len p < base_of (payload_len h) + 4 ->
      (forall rest, spec_parse (policy_of p) (head p ++ rest) =
                    spec_mask h (base_of (payload_len h)) (head p ++ rest)) ->
      raw = head p ++ buf -> view p buf raw
  | view_payload h hb :
      state p = PPayload -> hdr p = Some h -> key_ok h -> 0 <= payload_len h ->
      payload_ready p <= len buf -> payload_ready p <= payload_len h ->
      (forall rest, spec_parse (policy_of p) (hb ++ rest) = spec_payload h (len hb) (hb ++ rest)) ->
      raw = hb ++ unmasked h (upto (payload_ready p) buf) ++ from (payload_ready p) buf ->
      view p buf raw.

Record views (p : t) (buf raw : bytes) : Prop := {
  v_view : view p buf raw;
  v_array : len (header_buf p) = 14;
  v_ready : 0 <= payload_ready p;
  v_idle : state p <> PPayload -> payload_ready p = 0;
  v_raw : bytes_ok raw;
  v_buf : bytes_ok buf
}.

(** A parser between frames. *)
Definition fresh (p : t) : Prop :=
  state p = PHeader /\ len (header_buf p) = 14 /\ payload_ready p = 0.

Lemma fresh_views p buf : fresh p -> bytes_ok buf -> views p buf buf.
Proof. intros (Hs & Hl & Hr) Hok. split; try done; [by apply view_header|lia]. Qed.

Lemma fresh_new m e : fresh (new m e).
Proof. done. Qed.

(** Bytes read from the transport go to the end of both. *)
Lemma views_app p buf raw more : views p buf raw -> bytes_ok more ->
  views p (buf ++ more) (raw ++ more).
Proof.
  intros [Hv Ha Hr Hi Hraw Hbuf] Hm.
  split; try done; [|by apply bytes_ok_app|by apply bytes_ok_app].
  destruct Hv as [Hs ->|b0 b1 o Hs Hc Hl Hb Hlen ->|b0 b1 o Hs Hc Hl Hb Hlen ->
                 |h Hs Hh Hmk Hp Hlen Hsp ->|h hb Hs Hh Hk Hp Hrb Hrp Hsp ->].
  - by apply view_header.
  - eapply view_ext16; try done. by rewrite app_assoc.
  - eapply view_ext64; try done. by rewrite app_assoc.
  - eapply view_mask; try done. by rewrite app_assoc.
  - pose proof (len_nonneg more). eapply view_payload; try done; [rewrite len_app; lia|].
    rewrite upto_app_le, from_app_le by lia. by rewrite <- !app_assoc.
Qed.

Lemma head_app p rest i : header_len p <= len (header_buf p) -> 0 <= i < header_len p ->
  (head p ++ rest).[i] = (header_buf p).[i].
Proof. intros Hl Hi. unfold head. rewrite at_app_l by (rewrite len_upto; lia). apply at_upto. lia. Qed.

Lemma head_len p : 0 <= header_len p <= len (header_buf p) -> len (head p) = header_len p.
Proof. intros. unfold head. by apply len_upto. Qed.

(** Writing at the end of the used part of [header_buf] extends it. *)
Lemma head_blit p b : 0 <= header_len p -> header_len p + len b <= len (header_buf p) ->
  head (set_header_buf (blit (header_buf p) (header_len p) b) (header_len p + len b) p) = head p ++ b /\
  len (blit (header_buf p) (header_len p) b) = len (header_buf p).
Proof.
  intros Hn Hb. pose proof (len_nonneg b). unfold head, blit. cbn. split.
  - rewrite upto_app_ge by (rewrite len_upto; lia). rewrite len_upto by lia. f_equal.
    replace (header_len p + len b - header_len p) with (len b) by lia. apply upto_app_exact.
  - rewrite !len_app, len_upto, len_from by lia. lia.
Qed.

(** ** Each state of the machine follows the reference parser *)

Section refinement.
Context (arch : Arch) (slice_addr : bytes -> Z) (Harch : arch_ok arch).

Abbreviation parse_slow := (parse_slow arch slice_addr).
Abbreviation slow_step := (slow_step arch slice_addr).
Abbreviation unmask := (unmask arch slice_addr).

Lemma unmask_spec d m off : len m = 4 -> bytes_ok m -> bytes_ok d ->
  unmask d m off = mask_spec m off d.
Proof. intros. by apply apply_mask_offset_spec. Qed.

(** The result of a call, against the outcome on [raw]. *)
Definition post (pol : policy) (buf raw : bytes) (r : comp st (option Frame)) : Prop :=
  match spec_parse pol raw with
  | Need => exists p' buf', r = Done (p', buf') (Ok None) /\ views p' buf' raw /\ policy_of p' = pol /\
            (state p' = PPayload -> payload_ready p' = len buf')
  | Bad e => exists s', r = Done s' (Err e)
  | Got f rest => exists p', r = Done (p', rest) (Ok (Some f)) /\ fresh p' /\ policy_of p' = pol /\
                  bytes_ok rest /\ len rest <= len buf
  end.

(** How far a state is from the end of the loop. *)
Definition rank (s : ParseState) : nat :=
  match s with PPayload => 1 | PMask => 2 | PFrameTooLarge => 1 | _ => 3 end.

Definition step_post (p : t) (buf raw : bytes) (x : st + comp st (option Frame)) : Prop :=
  match x with
  | inl (p', buf') => views p' buf' raw /\ policy_of p' = policy_of p /\
                      (rank (state p') < rank (state p))%nat /\ len buf' <= len buf
  | inr r => post (policy_of p) buf raw r
  end.

(** A step from a parser that only saved more header bytes. *)
Lemma step_post_buf q p buf' buf raw x : policy_of q = policy_of p -> state q = state p ->
  len buf' <= len buf -> step_post q buf' raw x -> step_post p buf raw x.
Proof.
  intros Hp Hs Hl. unfold step_post, post. rewrite Hp, Hs. destruct x as [[p' b']|r].
  - intros (? & ? & ? & ?). split_and!; try done. lia.
  - destruct (spec_parse _ _); try done. intros (p' & ? & ? & ? & ? & ?). exists p'. split_and!; try done. lia.
Qed.

Lemma len_unmasked h d : len (unmasked h d) = len d.
Proof. unfold unmasked. by destruct (mask h); rewrite ?len_mask_spec. Qed.

(** Unmasking the rest of a partly unmasked payload unmasks all of it. *)
Lemma resume_payload h buf n plen : key_ok h -> bytes_ok buf -> 0 <= n <= plen -> plen <= len buf ->
  match mask h with
  | Some m => if n <? plen then upto n (upto plen buf) ++ unmask (from n (upto plen buf)) m n
              else upto plen buf
  | None => upto plen buf
  end = unmasked h (upto plen (unmasked h (upto n buf) ++ from n buf)).
Proof.
  intros Hk Hok Hn Hp. unfold unmasked, key_ok in *. destruct (mask h) as [m|].
  - destruct Hk as [Hk1 Hk2]. rewrite upto_app_ge by (rewrite len_mask_spec, len_upto; lia).
    rewrite len_mask_spec, len_upto, upto_upto by lia.
    rewrite mask_spec_app, mask_spec_involutive, len_mask_spec, len_upto, Z.add_0_l by lia.
    assert (Hfu : from n (upto plen buf) = upto (plen - n) (from n buf)).
    { replace plen with (n + (plen - n)) at 1 by lia.
      rewrite upto_split by lia. rewrite <- (len_upto n buf) at 1 by lia. apply from_app_exact. }
    rewrite Hfu. destruct (Z.ltb_spec n plen).
    + by rewrite unmask_spec by auto with ws.
    + replace (plen - n) with 0 by lia. rewrite upto_0, app_nil_r. by replace plen with n by lia.
  - by rewrite upto_from.
Qed.

Lemma step_payload_post p buf raw : views p buf raw -> state p = PPayload ->
  step_post p buf raw (step_payload arch slice_addr p buf).
Proof.
  intros Hv Hst. pose proof Hv as [Hview Ha Hr _ Hraw Hbuf].
  destruct Hview as [Hs _|? ? ? Hs|? ? ? Hs|? Hs|h hb Hs Hh Hk Hp Hrb Hrp Hsp Eraw];
    try (rewrite Hs in Hst; done).
  unfold step_payload. rewrite Hh. set (n := payload_ready p) in *.
  assert (Hun : len (unmasked h (upto n buf) ++ from n buf) = len buf).
  { rewrite len_app, len_unmasked, len_upto, len_from by lia. lia. }
  assert (Hspec : spec_parse (policy_of p) raw =
    spec_payload h (len hb) (hb ++ unmasked h (upto n buf) ++ from n buf)) by (by rewrite Eraw, Hsp).
  unfold spec_payload in Hspec. rewrite from_app_exact, Hun in Hspec.
  destruct (Z.ltb_spec (len buf) (payload_len h)) as [Hlt|Hge].
  - assert (Hret : forall buf', len buf' = len buf -> bytes_ok buf' ->
       unmasked h buf' = unmasked h (upto n buf) ++ from n buf -> n < len buf ->
       step_post p buf raw (inr (Done (set_ready (len buf) p, buf') (Ok None)))).
    { intros buf' Hl' Hok' Hun' Hn. cbn. unfold post. rewrite Hspec. do 2 eexists. split; [done|].
      split; [|split; [done|by cbn]]. split; try done; cbn; [|lia]. eapply view_payload; try done; cbn; try lia.
      rewrite <- Hl', upto_ge, from_ge, app_nil_r, Hun' by lia. done. }
    destruct (Z.ltb_spec n (len buf)) as [Hn|Hn].
    + destruct (mask h) as [m|] eqn:Em; unfold key_ok, unmasked in *; rewrite Em in *.
      * destruct Hk as [Hk1 Hk2]. rewrite unmask_spec by auto with ws. apply Hret.
        -- rewrite len_app, len_mask_spec, len_upto, len_from by lia. lia.
        -- apply bytes_ok_app. auto with ws.
        -- rewrite mask_spec_app, len_upto, Z.add_0_l, mask_spec_involutive by lia. done.
        -- done.
      * apply Hret; try done. by rewrite upto_from.
    + cbn. unfold post. rewrite Hspec. exists p, buf. split_and!; try done. intros _. fold n. lia.
  - rewrite resume_payload by (done || lia). cbn. unfold post. rewrite Hspec.
    rewrite from_app_ge, len_unmasked, len_upto, from_from by (rewrite ?len_unmasked, ?len_upto; lia).
    replace (n + (payload_len h - n)) with (payload_len h) by lia.
    eexists. split; [done|]. split_and!; try done; [auto with ws|].
    rewrite len_from by lia. lia.
Qed.

(** ** Partial headers *)

Lemma fill_header_cases p buf target : len (header_buf p) = 14 -> 0 <= header_len p <= target ->
  target <= 14 ->
  (header_len p + len buf < target /\ exists hb,
     fill_header p buf target = Some (inl (set_header_buf hb (header_len p + len buf) p, [])) /\
     hb = blit (header_buf p) (header_len p) buf /\
     len hb = 14 /\ head (set_header_buf hb (header_len p + len buf) p) = head p ++ buf) \/
  (target <= header_len p + len buf /\ exists hb, let n := target - header_len p in
     fill_header p buf target = Some (inr (set_header_buf hb target p, from n buf)) /\
     hb = blit (header_buf p) (header_len p) (upto n buf) /\
     len hb = 14 /\ head (set_header_buf hb target p) = head p ++ upto n buf).
Proof.
  intros Ha Hl Ht. pose proof (len_nonneg buf). unfold fill_header.
  zfalse (target <? header_len p).
  destruct (Z.ltb_spec (len buf) (target - header_len p)).
  - left. split; [lia|]. zfalse (14 <? header_len p + len buf).
    destruct (head_blit p buf) as [Hh Hb]; [lia..|]. eexists. rewrite from_ge by lia.
    split; [done|]. split; [done|]. split; [lia|done].
  - right. split; [lia|]. zfalse (14 <? target).
    destruct (head_blit p (upto (target - header_len p) buf)) as [Hh Hb]; [lia|rewrite len_upto; lia|].
    rewrite len_upto in Hh by lia. replace (header_len p + (target - header_len p)) with target in Hh by lia.
    eexists. cbn zeta. split; [done|]. split; [done|]. split; [lia|done].
Qed.

Lemma upto_blit i n l b : 0 <= i <= n -> n <= len l -> upto i (blit l n b) = upto i l.
Proof.
  intros Hi Hn. unfold blit. rewrite upto_app_le by (rewrite len_upto; lia). apply upto_upto. lia.
Qed.

Lemma base_of_range plen : 2 <= base_of plen <= 10.
Proof. unfold base_of. repeat case_match; lia. Qed.

Lemma step_mask_post p buf raw : views p buf raw -> state p = PMask ->
  step_post p buf raw (step_mask p buf).
Proof.
  intros Hv Hst. pose proof Hv as [Hview Ha Hr Hidle Hraw Hbuf].
  destruct Hview as [Hs _|? ? ? Hs|? ? ? Hs|h Hs Hh Hm Hp Hl Hsp Eraw|? ? Hs];
    try (rewrite Hs in Hst; done).
  pose proof (len_nonneg buf). pose proof (base_of_range (payload_len h)) as Hbr.
  unfold step_mask. rewrite Hh. fold (base_of (payload_len h)). set (base := base_of (payload_len h)) in *.
  assert (H0 : payload_ready p = 0) by (apply Hidle; by rewrite Hs).
  assert (Hok' : bytes_ok (head p)) by (rewrite Eraw in Hraw; by apply bytes_ok_app in Hraw as [? _]).
  destruct (fill_header_cases p buf (base + 4)) as [(Hlt & hb & -> & Ehb & Hhb & Hhd)|(Hge & hb & Hfill & Ehb & Hhb & Hhd)];
    [done|lia|lia|..].
  - cbn. unfold post. rewrite Eraw, Hsp. unfold spec_mask. rewrite Hm, len_app, head_len by lia.
    ztrue (header_len p + len buf <? base + 4). do 2 eexists. split; [done|].
    split; [|split; [done|cbn; by rewrite Hs]]. rewrite <- Eraw. split; try done; try (cbn; lia); [|by constructor].
    eapply view_mask; try done; cbn; [fold base; lia| |by rewrite Hhd, app_nil_r].
    intros rest. rewrite Hhd, <- app_assoc. apply Hsp.
  - cbn zeta in Hfill. rewrite Hfill. cbn [step_post]. set (n := base + 4 - header_len p) in *.
    set (p' := set_header_buf hb (base + 4) p) in *.
    assert (Hl4 : header_len p' <= len (header_buf p')) by (cbn; lia).
    split; [|split; [done|split; [rewrite Hs; cbn; lia|]]].
    2:{ rewrite len_from by lia. lia. }
    split; try done; try (cbn; lia); [|by auto with ws].
    set (m := [hb.[base]; hb.[base + 1]; hb.[base + 2]; hb.[base + 3]]).
    assert (Hhbm : bytes_ok m).
    { assert (bytes_ok (head p')) as Hoh by (rewrite Hhd; apply bytes_ok_app; auto with ws).
      unfold m. change hb with (header_buf p').
      rewrite <- !(head_app p' []) by (cbn; lia). rewrite app_nil_r. bytes_ok_tac. }
    eapply (view_payload _ _ _ (with_mask h (Some m)) (head p')); try done; cbn; try lia.
    + rewrite len_from by lia. lia.
    + intros rest. change (head _) with (head p'). rewrite Hhd at 1. rewrite <- app_assoc.
      change (policy_of _) with (policy_of p). rewrite Hsp, app_assoc, <- Hhd.
      unfold spec_mask. rewrite Hm, len_app, head_len by (cbn; lia).
      pose proof (len_nonneg rest). cbn [header_len p' set_header_buf].
      zfalse (base + 4 + len rest <? base + 4). rewrite !head_app by (cbn; lia). done.
    + change (payload_ready _) with (payload_ready p). rewrite H0, upto_0, from_0.
      change (head (set_state _ _)) with (head p'). rewrite Hhd, <- app_assoc.
      unfold unmasked. cbn [mask with_mask mask_spec app]. by rewrite upto_from.
Qed.

(** ** Extended lengths *)

Lemma check_base_opcode pol b0 b1 o : check_base pol b0 b1 = Ok o -> from_u8 (Z.land b0 0x0F) = Some o.
Proof.
  unfold check_base. repeat case_match; intros; simplify_eq; done.
Qed.

(** The header is complete up to its mask: both states end the same way. *)
Lemma finish_len_post p buf raw b0 b1 o plen base :
  len (header_buf p) = 14 -> payload_ready p = 0 -> bytes_ok raw -> bytes_ok buf ->
  header_len p = base -> base_of plen = base -> 0 <= plen -> rank (state p) = 3%nat ->
  (header_buf p).[0] = b0 -> (header_buf p).[1] = b1 -> from_u8 (Z.land b0 0x0F) = Some o ->
  raw = head p ++ buf ->
  (forall rest, spec_parse (policy_of p) (head p ++ rest) =
     spec_len (policy_of p) b0 b1 o plen base (head p ++ rest)) ->
  step_post p buf raw (finish_len p buf plen).
Proof.
  intros Ha H0 Hok Hbuf Hl Hbase Hp Hrk Hb0 Hb1 Ho Eraw Hsp.
  pose proof (base_of_range plen) as Hbr. rewrite Hbase in Hbr.
  unfold finish_len, parse_header_with_len. rewrite Hb0, Hb1, Ho.
  destruct (is_control o && (125 <? plen)) eqn:Ec.
  { cbn. unfold post. rewrite Eraw, Hsp. unfold spec_len. rewrite Ec. eauto. }
  destruct (max_frame_size p <? plen) eqn:Em.
  { cbn. unfold post. rewrite Eraw, Hsp. unfold spec_len. rewrite Ec. cbn [pol_max policy_of].
    rewrite Em. eauto. }
  assert (Hsp' : forall rest, spec_parse (policy_of p) (head p ++ rest) =
    spec_mask (base_header b0 b1 o plen) base (head p ++ rest)).
  { intros rest. rewrite Hsp. unfold spec_len. rewrite Ec. cbn [pol_max policy_of]. by rewrite Em. }
  unfold after_len. cbn [hdr set_hdr masked]. destruct (b1 &? 128) eqn:Emk; cbn [step_post].
  - split; [|split; [done|split; [cbn; lia|lia]]].
    split; try done; try (cbn; lia). eapply view_mask; try done; cbn; [rewrite Hbase; lia|].
    intros rest. rewrite Hbase. etransitivity; [exact (Hsp' rest)|]. unfold base_header. by rewrite Emk.
  - split; [|split; [done|split; [cbn; lia|lia]]].
    split; try done; try (cbn; lia).
    eapply (view_payload _ _ _ (base_header b0 b1 o plen) (head p)); try done; cbn; try lia.
    + unfold base_header. by rewrite Emk.
    + rewrite H0. apply len_nonneg.
    + intros rest. etransitivity; [exact (Hsp' rest)|]. unfold spec_mask. cbn [masked base_header].
      rewrite Emk, head_len by lia. by rewrite Hl.
    + rewrite H0, upto_0, from_0. done.
Qed.

(** The first bytes of [raw] decide the branch of the reference parser. *)
Lemma spec_parse_base pol raw b0 b1 o : 2 <= len raw -> raw.[0] = b0 -> raw.[1] = b1 ->
  check_base pol b0 b1 = Ok o ->
  spec_parse pol raw =
    if Z.land b1 0x7F <=? 125 then spec_len pol b0 b1 o (Z.land b1 0x7F) 2 raw
    else if Z.land b1 0x7F =? 126 then spec_len16 pol b0 b1 o raw else spec_len64 pol b0 b1 o raw.
Proof.
  intros Hl H0 H1 Hc. unfold spec_parse. zfalse (len raw <? 2). rewrite H0, H1, Hc. done.
Qed.

Lemma upto2_at l b0 b1 : upto 2 l = [b0; b1] -> l.[0] = b0 /\ l.[1] = b1.
Proof. intros H. rewrite <- (at_upto l 2 0), <- (at_upto l 2 1), H by lia. done. Qed.

(** Both extended-length states: fill the header to [target], read the length
    with [lenf], reject it with [verdict] or go on. *)
Definition step_ext (target : Z) (lenf : bytes -> Z) (verdict : Z -> option Error) (p : t) (buf : bytes) :
    st + comp st (option Frame) :=
  match fill_header p buf target with
  | None => inr Panic
  | Some (inl s) => inr (Done s (Ok None))
  | Some (inr (p, buf)) =>
      match verdict (lenf (header_buf p)) with
      | Some e => inr (Done (p, buf) (Err e))
      | None => finish_len p buf (lenf (header_buf p))
      end
  end.

Section step_ext.
Context (pol : policy) (b0 b1 : Z) (o : OpCode).
Context (target : Z) (lenf : bytes -> Z) (verdict : Z -> option Error).
Context (Htarget : 2 <= target <= 10) (Hcheck : check_base pol b0 b1 = Ok o).
Context (Hlenf : forall q rest, header_len q = target -> target <= len (header_buf q) ->
  lenf (head q ++ rest) = lenf (header_buf q)).
Context (Hspec : forall raw, 2 <= len raw -> raw.[0] = b0 -> raw.[1] = b1 ->
  spec_parse pol raw = if len raw <? target then Need
                       else match verdict (lenf raw) with
                            | Some e => Bad e
                            | None => spec_len pol b0 b1 o (lenf raw) target raw
                            end).
Context (Hbase : forall l, bytes_ok l -> verdict (lenf l) = None ->
  base_of (lenf l) = target /\ 0 <= lenf l).

Lemma step_ext_post p buf raw : views p buf raw -> policy_of p = pol -> rank (state p) = 3%nat ->
  upto 2 (header_buf p) = [b0; b1] -> 2 <= header_len p < target -> raw = head p ++ buf ->
  (forall q, state q = state p -> policy_of q = pol -> upto 2 (header_buf q) = [b0; b1] ->
     2 <= header_len q < target -> view q [] (head q)) ->
  step_post p buf raw (step_ext target lenf verdict p buf).
Proof.
  intros [_ Ha Hr Hidle Hraw Hbuf] Hpol Hrk Hb2 Hl Eraw Hview.
  pose proof (len_nonneg buf).
  assert (H0 : payload_ready p = 0) by (apply Hidle; intros E; by rewrite E in Hrk).
  assert (Hsp : forall q rest, upto 2 (header_buf q) = [b0; b1] -> 2 <= header_len q <= len (header_buf q) ->
    spec_parse pol (head q ++ rest) = if header_len q + len rest <? target then Need
      else match verdict (lenf (head q ++ rest)) with
           | Some e => Bad e
           | None => spec_len pol b0 b1 o (lenf (head q ++ rest)) target (head q ++ rest)
           end).
  { intros q rest Hq Hlq. apply upto2_at in Hq as [Hq0 Hq1]. pose proof (len_nonneg rest).
    rewrite Hspec; rewrite ?len_app, ?head_len by lia; [done|lia|..]; by rewrite head_app by lia. }
  assert (Hokh : bytes_ok (head p)) by (rewrite Eraw in Hraw; by apply bytes_ok_app in Hraw as [? _]).
  unfold step_ext.
  destruct (fill_header_cases p buf target) as [(Hlt & hb & -> & Ehb & Hhb & Hhd)|(Hge & hb & Hfill & Ehb & Hhb & Hhd)];
    [done|lia|lia|..].
  - pose proof (Hsp p buf Hb2 ltac:(lia)) as E. rewrite <- Eraw in E.
    cbn. unfold post. rewrite Hpol, E. ztrue (header_len p + len buf <? target).
    do 2 eexists. split; [done|]. split; [|done]. split; try done; try (cbn; lia); [|by constructor].
    rewrite Eraw, <- Hhd. apply Hview; cbn; [done|done| |lia]. by rewrite Ehb, upto_blit by lia.
  - cbn zeta in Hfill. rewrite Hfill. set (n := target - header_len p) in *.
    set (q := set_header_buf hb target p) in *.
    assert (Hq2 : upto 2 (header_buf q) = [b0; b1]) by (cbn; rewrite Ehb, upto_blit by lia; done).
    assert (Eraw' : raw = head q ++ from n buf) by (rewrite Hhd, <- app_assoc, upto_from; done).
    assert (Hoq : bytes_ok (head q)) by (rewrite Hhd; apply bytes_ok_app; auto with ws).
    assert (Hsp' : forall rest, spec_parse pol (head q ++ rest) =
      match verdict (lenf hb) with
      | Some e => Bad e
      | None => spec_len pol b0 b1 o (lenf hb) target (head q ++ rest)
      end).
    { intros rest. pose proof (len_nonneg rest). rewrite Hsp by (done || cbn; lia).
      cbn [header_len q set_header_buf]. zfalse (target + len rest <? target).
      by rewrite Hlenf by (done || cbn; lia). }
    change (header_buf q) with hb. destruct (verdict (lenf hb)) as [e|] eqn:Ev.
    { cbn. unfold post. rewrite Hpol, Eraw', Hsp'. eauto. }
    destruct (Hbase (head q ++ []) ltac:(by rewrite app_nil_r)) as [Hb Hpos];
      [by rewrite Hlenf by (done || cbn; lia)|].
    rewrite Hlenf in Hb, Hpos by (done || cbn; lia). change (header_buf q) with hb in Hb, Hpos.
    apply upto2_at in Hq2 as Hq2'. destruct Hq2' as [Hq0 Hq1].
    apply (step_post_buf q p (from n buf) buf raw); [done|done|rewrite len_from; lia|].
    apply (finish_len_post q _ _ b0 b1 o _ target); try done; auto with ws.
    + eapply check_base_opcode, Hcheck.
    + intros rest. change (policy_of q) with (policy_of p). rewrite Hpol. apply Hsp'.
Qed.
End step_ext.

Definition verdict16 (l : Z) : option Error :=
  if l <? 126 then Some (ProtocolError "payload length not minimal") else None.
Definition verdict64 (l : Z) : option Error :=
  if l <=? 0xFFFF then Some (ProtocolError "payload length not minimal")
  else if negb (Z.shiftr l 63 =? 0) then Some (ProtocolError "payload length MSB must be 0")
  else None.
Definition len16 (l : bytes) : Z := from_be_bytes [l.[2]; l.[3]].
Definition len64 (l : bytes) : Z :=
  from_be_bytes [l.[2]; l.[3]; l.[4]; l.[5]; l.[6]; l.[7]; l.[8]; l.[9]].

Lemma step_ext16_eq p buf : step_ext16 p buf = step_ext 4 len16 verdict16 p buf.
Proof.
  unfold step_ext16, step_ext, verdict16, len16.
  destruct (fill_header p buf 4) as [[?|[? ?]]|]; try done. by destruct (_ <? _).
Qed.

Lemma step_ext64_eq p buf : step_ext64 p buf = step_ext 10 len64 verdict64 p buf.
Proof.
  unfold step_ext64, step_ext, verdict64, len64.
  destruct (fill_header p buf 10) as [[?|[? ?]]|]; try done. destruct (_ <=? _); [done|]. by destruct (negb _).
Qed.

Lemma len16_base l : bytes_ok l -> verdict16 (len16 l) = None -> base_of (len16 l) = 4 /\ 0 <= len16 l.
Proof.
  intros Hok. unfold verdict16. destruct (Z.ltb_spec (len16 l) 126); [done|]. intros _.
  assert (0 <= len16 l < 65536) by (apply from_be_bytes_bound; bytes_ok_tac). split; [|lia].
  unfold base_of, MEDIUM_MESSAGE_THRESHOLD, SMALL_MESSAGE_THRESHOLD.
  zfalse (65535 <? len16 l). by ztrue (125 <? len16 l).
Qed.

Lemma len64_base l : bytes_ok l -> verdict64 (len64 l) = None -> base_of (len64 l) = 10 /\ 0 <= len64 l.
Proof.
  intros Hok. unfold verdict64. destruct (Z.leb_spec (len64 l) 0xFFFF); [done|].
  intros _. split; [|lia]. unfold base_of, MEDIUM_MESSAGE_THRESHOLD. by ztrue (65535 <? len64 l).
Qed.

Lemma step_ext16_post p buf raw : views p buf raw -> state p = ExtendedLen16 ->
  step_post p buf raw (step_ext16 p buf).
Proof.
  intros Hv Hst. destruct (v_view _ _ _ Hv) as [Hs _|b0 b1 o Hs Hc Hlb Hb2 Hl Eraw|? ? ? Hs|? Hs|? ? Hs];
    try (rewrite Hs in Hst; done).
  rewrite step_ext16_eq. eapply (step_ext_post (policy_of p) b0 b1 o); try done; try lia.
  - intros q rest Hq Hlq. unfold len16. by rewrite !head_app by lia.
  - intros l Hl2 H0 H1. rewrite (spec_parse_base _ _ b0 b1 o) by done. rewrite Hlb.
    unfold spec_len16, verdict16, len16. cbn. destruct (_ <? 4); [done|]. by destruct (_ <? 126).
  - apply len16_base.
  - by rewrite Hs.
  - intros q Hq Hpq Hb Hlq. eapply view_ext16; rewrite ?Hpq, ?app_nil_r; try done. by rewrite Hq.
Qed.

Lemma step_ext64_post p buf raw : views p buf raw -> state p = ExtendedLen64 ->
  step_post p buf raw (step_ext64 p buf).
Proof.
  intros Hv Hst. destruct (v_view _ _ _ Hv) as [Hs _|? ? ? Hs|b0 b1 o Hs Hc Hlb Hb2 Hl Eraw|? Hs|? ? Hs];
    try (rewrite Hs in Hst; done).
  rewrite step_ext64_eq. eapply (step_ext_post (policy_of p) b0 b1 o); try done; try lia.
  - intros q rest Hq Hlq. unfold len64. by rewrite !head_app by lia.
  - intros l Hl2 H0 H1. rewrite (spec_parse_base _ _ b0 b1 o) by done. rewrite Hlb.
    unfold spec_len64, verdict64, len64. cbn. destruct (_ <? 10); [done|]. destruct (_ <=? _); [done|].
    by destruct (negb _).
  - apply len64_base.
  - by rewrite Hs.
  - intros q Hq Hpq Hb Hlq. eapply view_ext64; rewrite ?Hpq, ?app_nil_r; try done. by rewrite Hq.
Qed.

(** ** The header state *)

(** Where the payload starts, and the header with its key. *)
Definition payload_start (b1 base : Z) : Z := base + (if b1 &? 128 then 4 else 0).
Definition keyed_header (b0 b1 : Z) (o : OpCode) (plen base : Z) (buf : bytes) : FrameHeader :=
  with_mask (base_header b0 b1 o plen)
    (if b1 &? 128 then Some [buf.[base]; buf.[base + 1]; buf.[base + 2]; buf.[base + 3]] else None).

Lemma payload_start_range b1 base : base <= payload_start b1 base <= base + 4.
Proof. unfold payload_start. destruct (b1 &? 128); lia. Qed.

(** With the header complete, the key is that of any stream that starts the same way. *)
Lemma spec_mask_keyed b0 b1 o plen base buf raw : 0 <= base ->
  payload_start b1 base <= len raw -> upto (payload_start b1 base) raw = upto (payload_start b1 base) buf ->
  spec_mask (base_header b0 b1 o plen) base raw =
  spec_payload (keyed_header b0 b1 o plen base buf) (payload_start b1 base) raw.
Proof.
  intros Hb Hr Hu. unfold spec_mask, keyed_header, payload_start in *. cbn [masked base_header].
  destruct (b1 &? 128); [|by rewrite Z.add_0_r].
  zfalse (len raw <? base + 4).
  assert (Hat : forall i, 0 <= i < base + 4 -> raw.[i] = buf.[i]).
  { intros i Hi. rewrite <- (at_upto raw (base + 4)), <- (at_upto buf (base + 4)), Hu by lia. done. }
  by rewrite !Hat by lia.
Qed.

Lemma unmask_keyed h l : key_ok h -> bytes_ok l ->
  match mask h with Some m => unmask l m 0 | None => l end = unmasked h l.
Proof.
  unfold unmasked, key_ok. intros Hk Hl. destruct (mask h) as [m|]; [|done]. apply unmask_spec; [apply Hk..|done].
Qed.

Lemma header_with_len_post p buf b0 b1 o plen base : fresh p -> bytes_ok buf ->
  base_of plen = base -> 0 <= plen -> base <= len buf ->
  (forall raw, base <= len raw -> upto base raw = upto base buf ->
     spec_parse (policy_of p) raw = spec_len (policy_of p) b0 b1 o plen base raw) ->
  step_post p buf buf (header_with_len arch slice_addr p buf (b0 &? 0x80) (b0 &? 0x40) (b0 &? 0x20)
    (b0 &? 0x10) o (b1 &? 0x80) plen base).
Proof.
  intros (Hs & Ha & H0) Hok Hb Hp Hl Hsp. pose proof (base_of_range plen) as Hbr. rewrite Hb in Hbr.
  unfold header_with_len. pose proof (Hsp buf Hl eq_refl) as E. unfold spec_len in E.
  destruct (is_control o && (125 <? plen)) eqn:Ec; [cbn; unfold post; rewrite E; eauto|].
  cbn [pol_max policy_of] in E.
  destruct (max_frame_size p <? plen) eqn:Em; [cbn; unfold post; rewrite E; eauto|].
  set (h0 := base_header b0 b1 o plen) in *.
  assert (Hsp' : forall raw, base <= len raw -> upto base raw = upto base buf ->
    spec_parse (policy_of p) raw = spec_mask h0 base raw).
  { intros raw Hr Hu. rewrite Hsp by done. unfold spec_len. rewrite Ec. cbn [pol_max policy_of]. by rewrite Em. }
  destruct (Z.ltb_spec (len buf) (base + (if b1 &? 128 then 4 else 0))) as [Hlt|Hge].
  - destruct (b1 &? 128) eqn:Emk; [|lia]. rewrite Z.min_l, upto_ge, from_ge by lia.
    cbn. unfold post. rewrite E. unfold spec_mask. cbn [masked h0 base_header]. rewrite Emk.
    ztrue (len buf <? base + 4). do 2 eexists. split; [done|]. split; [|done].
    destruct (head_blit (set_header_buf (header_buf p) 0 p) buf) as [Hh Hlb]; [cbn; lia..|].
    cbn [header_len header_buf set_header_buf] in Hh, Hlb. rewrite Z.add_0_l in Hh.
    split; try done; try (cbn; lia); [|by constructor].
    assert (Eh : forall q, header_buf q = blit (header_buf p) 0 buf -> header_len q = len buf -> head q = buf).
    { intros q Hq1 Hq2. unfold head in *. rewrite Hq1, Hq2. exact Hh. }
    eapply (view_mask _ _ _ (MkHeader (b0 &? 128) (b0 &? 64) (b0 &? 32) (b0 &? 16) o true plen None)); try done.
    + cbn [payload_len header_len set_state set_hdr set_header_buf]. rewrite Hb. lia.
    + intros rest. rewrite Eh by done. cbn [payload_len]. rewrite Hb.
      change (policy_of _) with (policy_of p). pose proof (len_nonneg rest).
      rewrite Hsp'; [|rewrite len_app; lia|by rewrite upto_app_le by lia].
      unfold h0, base_header. by rewrite Emk.
    + rewrite Eh by done. by rewrite app_nil_r.
  - set (total := base + (if b1 &? 128 then 4 else 0)) in *.
    assert (Hpr : base <= total <= base + 4) by apply payload_start_range. set (h := keyed_header b0 b1 o plen base buf).
    assert (Hm : forall raw, total <= len raw -> upto total raw = upto total buf ->
      spec_parse (policy_of p) raw = spec_payload h total raw).
    { intros raw Hr Hu. assert (Hub : upto base raw = upto base buf)
        by (rewrite <- (upto_upto base total raw), Hu, upto_upto by lia; done).
      rewrite Hsp' by (done || lia). by apply spec_mask_keyed; [lia|..]. }
    assert (Hk : key_ok h).
    { unfold key_ok, h, keyed_header. cbn. destruct (b1 &? 128) eqn:Emk; [|done]. split; [done|].
      unfold total in Hge. bytes_ok_tac. }
    assert (Ht : 0 <= total <= len buf) by lia.
    pose proof (Hm buf ltac:(lia) eq_refl) as E'. unfold spec_payload in E'.
    change (payload_len h) with plen in E'. rewrite Z.ltb_antisym in E'.
    destruct (Z.leb_spec plen (len (from total buf))) as [Hfull|Hpart]; cbn [negb] in E'.
    + pose proof (unmask_keyed h (upto plen (from total buf)) Hk ltac:(auto with ws)) as Eu.
      cbn [step_post]. unfold post. rewrite E'. change (mask h) with (if b1 &? 128
        then Some [buf.[base]; buf.[base + 1]; buf.[base + 2]; buf.[base + 3]] else None) in Eu.
      rewrite Eu. eexists. split.
      * done.
      * split_and!; try done; [auto with ws|]. rewrite len_from by lia. rewrite len_from by lia. lia.
    + split; [|split; [done|split; [rewrite Hs; cbn; lia|rewrite len_from; lia]]].
      split; try done; try (cbn; lia); [|auto with ws].
      eapply (view_payload _ _ _ h (upto total buf)); try done; cbn; rewrite ?H0; try lia.
      * apply len_nonneg.
      * intros rest. change (policy_of _) with (policy_of p). pose proof (len_nonneg rest).
        rewrite len_upto by lia.
        apply Hm; [rewrite len_app, len_upto by lia; lia|].
        rewrite upto_app_le by (rewrite len_upto; lia). apply upto_upto. lia.
      * rewrite upto_0, from_0. unfold unmasked. destruct (mask h); cbn; by rewrite upto_from.
Qed.

(** Stopping after two bytes for a long length. *)
Lemma header_save_two_post p buf b0 b1 s : fresh p -> bytes_ok buf -> 2 <= len buf ->
  buf.[0] = b0 -> buf.[1] = b1 ->
  (s = ExtendedLen16 \/ s = ExtendedLen64) -> spec_parse (policy_of p) buf = Need ->
  (forall q, state q = s -> policy_of q = policy_of p -> upto 2 (header_buf q) = [b0; b1] ->
     header_len q = 2 -> view q (from 2 buf) (head q ++ from 2 buf)) ->
  step_post p buf buf (header_save_two p buf b0 b1 s).
Proof.
  intros (Hs & Ha & H0) Hok Hl Hb0 Hb1 Hss Hneed Hview. cbn. unfold post. rewrite Hneed.
  do 2 eexists. split; [done|].
  split; [|split; [done|by destruct Hss as [-> | ->]]].
  destruct (head_blit (set_header_buf (header_buf p) 0 p) [b0; b1]) as [Hh Hlb];
    [cbn; lia|change (0 + 2 <= len (header_buf p)); lia|].
  cbn in Hh, Hlb.
  set (q := set_state s (set_header_buf (blit (header_buf p) 0 [b0; b1]) 2 p)).
  assert (Hq : upto 2 (header_buf q) = [b0; b1]) by exact Hh.
  split; try done; try (cbn; lia); [|auto with ws].
  replace buf with (head q ++ from 2 buf) at 2.
  - by apply Hview.
  - unfold head. cbn [header_len q set_state set_header_buf]. rewrite Hq.
    rewrite <- (upto_from 2 buf) at 2. f_equal.
    change 2 with (0 + 1 + 1) at 1. rewrite !upto_succ, upto_0 by lia.
    change (0 + 1) with 1. by rewrite Hb0, Hb1.
Qed.

(** The dispatch on the length byte. *)
Definition header_dispatch (p : t) (buf : bytes) (b0 b1 : Z) (o : OpCode) : st + comp st (option Frame) :=
  let with_len := header_with_len arch slice_addr p buf (b0 &? 0x80) (b0 &? 0x40) (b0 &? 0x20)
                    (b0 &? 0x10) o (b1 &? 0x80) in
  if Z.land b1 0x7F <=? 125 then with_len (Z.land b1 0x7F) 2
  else if Z.land b1 0x7F =? 126 then
    if len buf <? 4 then header_save_two p buf b0 b1 ExtendedLen16
    else match verdict16 (len16 buf) with
         | Some e => inr (Done (p, buf) (Err e))
         | None => with_len (len16 buf) 4
         end
  else
    if len buf <? 10 then header_save_two p buf b0 b1 ExtendedLen64
    else match verdict64 (len64 buf) with
         | Some e => inr (Done (p, buf) (Err e))
         | None => with_len (len64 buf) 10
         end.

Lemma header_dispatch_post p buf o : fresh p -> bytes_ok buf -> 2 <= len buf ->
  check_base (policy_of p) buf.[0] buf.[1] = Ok o ->
  step_post p buf buf (header_dispatch p buf buf.[0] buf.[1] o).
Proof.
  intros Hfr Hok Hl Hc. unfold header_dispatch. set (b0 := buf.[0]) in *. set (b1 := buf.[1]) in *.
  assert (Hsp : forall n raw, 2 <= n -> n <= len raw -> upto n raw = upto n buf ->
    (forall i, 0 <= i < n -> raw.[i] = buf.[i]) /\
    spec_parse (policy_of p) raw =
      if Z.land b1 0x7F <=? 125 then spec_len (policy_of p) b0 b1 o (Z.land b1 0x7F) 2 raw
      else if Z.land b1 0x7F =? 126 then spec_len16 (policy_of p) b0 b1 o raw
      else spec_len64 (policy_of p) b0 b1 o raw).
  { intros n raw Hn Hr Hu. assert (Hat : forall i, 0 <= i < n -> raw.[i] = buf.[i]).
    { intros i Hi. rewrite <- (at_upto raw n), Hu, at_upto by lia. done. }
    split; [done|]. apply spec_parse_base; [lia|apply Hat; lia|apply Hat; lia|done]. }
  pose proof (land_range b1 0x7F ltac:(lia)) as Hlr.
  destruct (Hsp 2 buf ltac:(lia) Hl eq_refl) as [_ Hbuf].
  destruct (Z.leb_spec (Z.land b1 0x7F) 125) as [H125|H125].
  { apply header_with_len_post; try done; try lia.
    - unfold base_of, MEDIUM_MESSAGE_THRESHOLD, SMALL_MESSAGE_THRESHOLD.
      zfalse (65535 <? Z.land b1 0x7F). by zfalse (125 <? Z.land b1 0x7F).
    - intros raw Hr Hu. by destruct (Hsp 2 raw ltac:(lia) Hr Hu) as [_ ->]. }
  destruct (Z.eqb_spec (Z.land b1 0x7F) 126) as [H126|H126].
  - unfold spec_len16 in Hbuf. destruct (Z.ltb_spec (len buf) 4) as [Hl4|Hl4].
    { apply header_save_two_post; try done; [by left|].
      intros q Hq Hpq Hq2 Hlq. eapply (view_ext16 _ _ _ b0 b1 o); rewrite ?Hpq; try done. lia. }
    fold (len16 buf) in Hbuf. destruct (verdict16 (len16 buf)) as [e|] eqn:Ev; unfold verdict16 in Ev.
    { destruct (len16 buf <? 126); [|done]. simplify_eq. cbn. unfold post. rewrite Hbuf. eauto. }
    destruct (len16_base buf Hok) as [Hb Hp]; [done|]. apply header_with_len_post; try done.
    intros raw Hr Hu. destruct (Hsp 4 raw ltac:(lia) Hr Hu) as [Hat ->]. unfold spec_len16.
    zfalse (len raw <? 4). rewrite !Hat by lia. fold (len16 buf). by destruct (len16 buf <? 126).
  - unfold spec_len64 in Hbuf. destruct (Z.ltb_spec (len buf) 10) as [Hl10|Hl10].
    { apply header_save_two_post; try done; [by right|].
      intros q Hq Hpq Hq2 Hlq. eapply (view_ext64 _ _ _ b0 b1 o); rewrite ?Hpq; try done; lia. }
    fold (len64 buf) in Hbuf. destruct (verdict64 (len64 buf)) as [e|] eqn:Ev; unfold verdict64 in Ev.
    { destruct (len64 buf <=? _); [|destruct (negb _); [|done]]; simplify_eq; cbn; unfold post;
      rewrite Hbuf; eauto. }
    destruct (len64_base buf Hok) as [Hb Hp]; [done|]. apply header_with_len_post; try done.
    intros raw Hr Hu. destruct (Hsp 10 raw ltac:(lia) Hr Hu) as [Hat ->]. unfold spec_len64.
    zfalse (len raw <? 10). rewrite !Hat by lia. fold (len64 buf). destruct (len64 buf <=? _); [done|].
    by destruct (negb _).
Qed.

(** The header state is the base checks followed by the dispatch. *)
Lemma step_header_eq p buf : 2 <= len buf ->
  step_header arch slice_addr p buf =
  match check_base (policy_of p) buf.[0] buf.[1] with
  | Err e => inr (Done (p, buf) (Err e))
  | Ok o => header_dispatch p buf buf.[0] buf.[1] o
  end.
Proof.
  intros Hl. unfold step_header, check_base, header_dispatch, verdict16, verdict64, len16, len64.
  zfalse (len buf <? 2). cbn [pol_rsv1 pol_masked policy_of].
  repeat match goal with |- context [if ?b then _ else _] => destruct b; try done
                       | |- context [match from_u8 ?b with _ => _ end] => destruct (from_u8 b); try done end.
Qed.

Lemma step_header_post p buf raw : views p buf raw -> state p = PHeader ->
  step_post p buf raw (step_header arch slice_addr p buf).
Proof.
  intros Hv Hst. pose proof Hv as [Hview Ha Hr Hidle _ Hok].
  destruct Hview as [Hs ->|? ? ? Hs|? ? ? Hs|? Hs|? ? Hs]; try (rewrite Hs in Hst; done).
  assert (Hfr : fresh p) by (split_and!; try done; apply Hidle; by rewrite Hs).
  destruct (Z.ltb_spec (len buf) 2) as [Hl|Hl].
  { unfold step_header. ztrue (len buf <? 2). cbn. unfold post, spec_parse. ztrue (len buf <? 2).
    exists p, buf. split_and!; try done. by rewrite Hst. }
  rewrite step_header_eq by done. destruct (check_base _ _ _) as [o|e] eqn:Ecb.
  - by apply header_dispatch_post.
  - cbn. unfold post, spec_parse. zfalse (len buf <? 2). rewrite Ecb. eauto.
Qed.

Lemma slow_step_post p buf raw : views p buf raw -> step_post p buf raw (slow_step (p, buf)).
Proof.
  intros Hv. unfold FrameParser.slow_step.
  destruct (state p) eqn:Hs; auto using step_header_post, step_ext16_post, step_ext64_post,
    step_mask_post, step_payload_post.
  destruct (v_view _ _ _ Hv); congruence.
Qed.

Lemma post_buf pol buf' buf raw r : len buf' <= len buf -> post pol buf' raw r -> post pol buf raw r.
Proof.
  intros Hl. unfold post. destruct (spec_parse pol raw); try done.
  intros (p' & ? & ? & ? & ? & ?). exists p'. split_and!; try done. lia.
Qed.

Lemma loop_post n p buf raw : (rank (state p) <= n)%nat -> views p buf raw ->
  post (policy_of p) buf raw (loop_fuel n slow_step (p, buf)).
Proof.
  revert p buf. induction n as [|n IH]; intros p buf Hn Hv.
  { by destruct (state p); cbn in Hn; lia. }
  cbn [loop_fuel]. pose proof (slow_step_post p buf raw Hv) as Hstep.
  destruct (slow_step (p, buf)) as [[p' buf']|r]; [|done].
  destruct Hstep as (Hv' & Hp' & Hr & Hl). rewrite <- Hp'. eapply post_buf; [done|]. apply IH; [lia|done].
Qed.

(** The state machine computes the reference parser. *)
Lemma parse_slow_post p buf raw : views p buf raw ->
  post (policy_of p) buf raw (parse_slow p buf).
Proof. intros Hv. apply loop_post; [destruct (state p); cbn; lia|done]. Qed.

(** ** The fast paths *)

Lemma from_u8_data b o : from_u8 b = Some o ->
  bool_decide (o = Text) || bool_decide (o = Binary) = (b =? 1) || (b =? 2).
Proof.
  unfold from_u8. intros H.
  repeat match type of H with context [?x =? ?y] => destruct (Z.eqb_spec x y); [by simplify_eq|] end.
  done.
Qed.

Lemma check_base_fast pol b0 b1 o : from_u8 (Z.land b0 0x0F) = Some o ->
  (((b0 &? 0x40) && (negb (pol_rsv1 pol) || negb ((Z.land b0 0x0F =? 0x1) || (Z.land b0 0x0F =? 0x2))))
    || (b0 &? 0x20) || (b0 &? 0x10)) = false ->
  pol_masked pol = (b1 &? 0x80) ->
  check_base pol b0 b1 =
    if is_control o && negb (b0 &? 0x80) then perr "control frame must not be fragmented" else Ok o.
Proof.
  intros Ho Hr Hm. unfold check_base. rewrite Ho, Hm, (from_u8_data _ _ Ho).
  revert Hr. generalize ((Z.land b0 15 =? 1) || (Z.land b0 15 =? 2)) as d. intros d.
  generalize (is_control o && negb (b0 &? 128)) as c. intros c.
  by destruct (b0 &? 64), (pol_rsv1 pol), (b0 &? 32), (b0 &? 16), d, c, (b1 &? 128).
Qed.

(** A complete small frame, against the reference parser. *)
Lemma spec_parse_small pol raw o base : 2 <= len raw -> from_u8 (Z.land raw.[0] 0x0F) = Some o ->
  (((raw.[0] &? 0x40) && (negb (pol_rsv1 pol) ||
      negb ((Z.land raw.[0] 0x0F =? 0x1) || (Z.land raw.[0] 0x0F =? 0x2))))
    || (raw.[0] &? 0x20) || (raw.[0] &? 0x10)) = false ->
  pol_masked pol = (raw.[1] &? 0x80) ->
  let plen := Z.land raw.[1] 0x7F in
  let h := with_mask (base_header raw.[0] raw.[1] o plen)
    (if raw.[1] &? 0x80 then Some [raw.[2]; raw.[3]; raw.[4]; raw.[5]] else None) in
  base = (if raw.[1] &? 0x80 then 6 else 2) -> plen <= 125 -> base + plen <= len raw ->
  spec_parse pol raw =
    if is_control o && negb (raw.[0] &? 0x80) then Bad (ProtocolError "control frame must not be fragmented")
    else if pol_max pol <? plen then Bad FrameTooLarge
    else Got (MkFrame h (unmasked h (upto plen (from base raw)))) (from plen (from base raw)).
Proof.
  intros Hl Ho Hr Hm plen h Hb Hp Hlen. unfold spec_parse. zfalse (len raw <? 2).
  rewrite (check_base_fast pol _ _ o) by done. destruct (is_control o && _); [done|].
  fold plen. ztrue (plen <=? 125). unfold spec_len. zfalse (125 <? plen). rewrite andb_false_r.
  destruct (_ <? plen); [done|]. pose proof (land_range raw.[1] 0x7F ltac:(lia)). fold plen in H.
  unfold spec_mask, spec_payload. cbn [masked base_header payload_len with_mask].
  subst h. destruct (raw.[1] &? 128); subst base.
  - change (2 + 4) with 6. zfalse (len raw <? 6). rewrite len_from by lia. by zfalse (len raw - 6 <? plen).
  - rewrite len_from by lia. by zfalse (len raw - 2 <? plen).
Qed.

Lemma post_got p buf f rest : fresh p -> bytes_ok rest -> len rest <= len buf ->
  spec_parse (policy_of p) buf = Got f rest ->
  post (policy_of p) buf buf (Done (p, rest) (Ok (Some f))).
Proof. intros Hf Hok Hl E. unfold post. rewrite E. by exists p. Qed.

Lemma post_bad p buf e s : spec_parse (policy_of p) buf = Bad e ->
  post (policy_of p) buf buf (Done s (Err e)).
Proof. intros E. unfold post. rewrite E. by exists s. Qed.

Lemma fast_unmasked_post p buf r : fresh p -> bytes_ok buf ->
  fast_unmasked arch slice_addr p buf = Some r -> post (policy_of p) buf buf r.
Proof.
  intros Hf Hok. unfold fast_unmasked. cbn zeta.
  destruct (_ && _ && _) eqn:E1; [|done]. destruct ((_ <=? 125) && _) eqn:E2; [|done].
  destruct (2 + _ <=? len buf) eqn:E3; [|done]. destruct (_ || (buf.[0] &? 32) || _) eqn:E4.
  { intros [= <-]. by apply parse_slow_post, fresh_views. }
  destruct (from_u8 _) as [o|] eqn:Eo; [|done].
  apply andb_prop in E1 as [[_ E0]%andb_prop E1]. apply andb_prop in E2 as [E2 Em].
  apply negb_true_iff in Em, E0. apply Z.leb_le in E1, E2, E3.
  pose proof (land_range buf.[1] 0x7F ltac:(lia)).
  pose proof (spec_parse_small (policy_of p) buf o 2) as Hsp. cbn zeta in Hsp. rewrite Em in Hsp.
  specialize (Hsp ltac:(lia) Eo). cbn [pol_rsv1 policy_of pol_masked pol_max] in Hsp.
  specialize (Hsp ltac:(by rewrite E4) ltac:(done) eq_refl ltac:(lia) ltac:(lia)).
  destruct (is_control o && _); [intros [= <-]; by apply post_bad|].
  destruct (max_frame_size p <? _); intros [= <-]; [by apply post_bad|].
  apply post_got; auto with ws; [rewrite !len_from; rewrite ?len_from; lia|].
  rewrite Hsp. unfold unmasked, base_header, with_mask. cbn. by rewrite Em.
Qed.

Lemma fast_masked_post p buf r : fresh p -> bytes_ok buf ->
  fast_masked arch slice_addr p buf = Some r -> post (policy_of p) buf buf r.
Proof.
  intros Hf Hok. unfold fast_masked. cbn zeta.
  destruct (_ && _ && _) eqn:E1; [|done]. destruct ((_ <=? 125) && _) eqn:E2; [|done].
  destruct (2 + 4 + _ <=? len buf) eqn:E3; [|done]. destruct (_ || (buf.[0] &? 32) || _) eqn:E4.
  { intros [= <-]. by apply parse_slow_post, fresh_views. }
  destruct (from_u8 _) as [o|] eqn:Eo; [|done].
  apply andb_prop in E1 as [[_ E0]%andb_prop E1]. apply andb_prop in E2 as [E2 Em].
  apply Z.leb_le in E1, E2, E3.
  pose proof (land_range buf.[1] 0x7F ltac:(lia)).
  pose proof (spec_parse_small (policy_of p) buf o 6) as Hsp. cbn zeta in Hsp. rewrite Em in Hsp.
  specialize (Hsp ltac:(lia) Eo). cbn [pol_rsv1 policy_of pol_masked pol_max] in Hsp.
  specialize (Hsp ltac:(by rewrite E4) ltac:(done) eq_refl ltac:(lia) ltac:(lia)).
  destruct (is_control o && _); [intros [= <-]; by apply post_bad|].
  destruct (max_frame_size p <? _); intros [= <-]; [by apply post_bad|].
  apply post_got; auto with ws; [rewrite !len_from; rewrite ?len_from; lia|].
  rewrite Hsp. rewrite unmask_spec by (done || bytes_ok_tac || auto with ws).
  unfold unmasked, base_header, with_mask. cbn. by rewrite Em.
Qed.

(** A length byte below 126 is its own length, with no mask bit. *)
Lemma small_len_byte b : 0 <= b <= 125 -> Z.land b 0x7F = b /\ (b &? 0x80) = false.
Proof.
  intros Hb. assert (Hall : forallb (fun b => (125 <? b) || ((Z.land b 0x7F =? b) && (Z.land b 0x80 =? 0)))
    (seqZ 0 256) = true) by reflexivity.
  pose proof (byte_forall _ Hall b ltac:(unfold is_byte; lia)) as Hx. cbn beta in Hx.
  replace (125 <? b) with false in Hx by (symmetry; apply Z.ltb_ge; lia).
  apply andb_prop in Hx as [H1%Z.eqb_eq H2]. by rewrite H2.
Qed.

(** An unfragmented, uncompressed, unmasked data frame whose length is [plen]. *)
Lemma spec_parse_data pol raw base plen : pol_masked pol = false -> 2 <= len raw ->
  raw.[0] = 0x81 \/ raw.[0] = 0x82 ->
  (raw.[1] = plen /\ plen <= 125 /\ base = 2) \/
  (raw.[1] = 126 /\ 4 <= len raw /\ from_be_bytes [raw.[2]; raw.[3]] = plen /\ 126 <= plen /\ base = 4) ->
  0 <= plen <= pol_max pol -> base + plen <= len raw ->
  spec_parse pol raw = Got (MkFrame
    (MkHeader true false false false (if raw.[0] =? 0x81 then Text else Binary) false plen None)
    (upto plen (from base raw))) (from plen (from base raw)).
Proof.
  intros Hm Hl Hb Hlens Hp Hlen.
  assert (Hfin : forall b1, (b1 &? 0x80) = false ->
    spec_len pol raw.[0] b1 (if raw.[0] =? 0x81 then Text else Binary) plen base raw =
    Got (MkFrame (MkHeader true false false false (if raw.[0] =? 0x81 then Text else Binary) false plen None)
      (upto plen (from base raw))) (from plen (from base raw))).
  { intros b1 Hb1. unfold spec_len, spec_mask, spec_payload, base_header. rewrite Hb1. cbn [masked payload_len].
    zfalse (pol_max pol <? plen). assert (0 <= base <= len raw) by lia. rewrite len_from by lia.
    zfalse (len raw - base <? plen). by destruct Hb as [-> | ->]. }
  assert (Hck : forall b1, (b1 &? 0x80) = false ->
    check_base pol raw.[0] b1 = Ok (if raw.[0] =? 0x81 then Text else Binary)).
  { intros b1 Hb1. unfold check_base. rewrite Hm, Hb1. by destruct Hb as [-> | ->]. }
  unfold spec_parse. zfalse (len raw <? 2). destruct Hlens as [(E1 & Hp' & ->)|(E1 & Hl4 & E & Hp' & ->)].
  - destruct (small_len_byte plen) as [Hland Hmb]; [lia|]. rewrite E1, Hck, Hland by done.
    ztrue (plen <=? 125). by apply Hfin.
  - rewrite E1, Hck by done. cbn [Z.leb Z.eqb Z.land Pos.land]. change (Z.land 126 127) with 126. cbn.
    unfold spec_len16. zfalse (len raw <? 4). rewrite E. zfalse (plen <? 126). by apply Hfin.
Qed.

Lemma try_parse_post p buf o d rest : fresh p -> bytes_ok buf ->
  try_parse_complete_unmasked_data p buf = Some (o, d, rest) ->
  post (policy_of p) buf buf (Done (p, rest) (Ok (Some (MkFrame
    (MkHeader true false false false o false (len d) None) d)))).
Proof.
  intros Hf Hok. unfold try_parse_complete_unmasked_data. cbn zeta.
  destruct (_ || _ || _) eqn:E1; [done|]. apply orb_false_elim in E1 as [[_ E0]%orb_false_elim E1].
  apply Z.ltb_ge in E1.
  destruct (negb _) eqn:E2; [done|]. apply negb_false_iff, orb_true_iff in E2. rewrite !Z.eqb_eq in E2.
  destruct (if in_range 0 125 buf.[1] then _ else _) as [[base plen]|] eqn:E3; [|done].
  destruct (_ || _) eqn:E4; [done|]. apply orb_false_elim in E4 as [E4%Z.ltb_ge E5%Z.ltb_ge].
  intros [= <- <- <-].
  assert (Hlens : (buf.[1] = plen /\ plen <= 125 /\ base = 2) \/
    (buf.[1] = 126 /\ 4 <= len buf /\ from_be_bytes [buf.[2]; buf.[3]] = plen /\ 126 <= plen /\ base = 4)).
  { unfold in_range in E3. destruct ((0 <=? buf.[1]) && _) eqn:Er.
    - simplify_eq. zb. left. split_and!; lia.
    - destruct ((buf.[1] =? 126) && _) eqn:Er'; [|done]. destruct (_ <? 126) eqn:Em; [done|].
      zb. injection E3 as <- <-. right. split_and!; lia. }
  assert (Hp : 0 <= plen) by (pose proof (at_byte buf 1 Hok) as Hb; unfold is_byte in Hb; lia).
  assert (Hbase : base = 2 \/ base = 4) by lia.
  pose proof (len_from base buf ltac:(lia)) as Hlf. rewrite len_upto by lia. apply post_got; auto with ws.
  - rewrite len_from by lia. lia.
  - apply spec_parse_data; try done; cbn; lia.
Qed.

(** ** The parser implements the reference parser *)

Lemma parse_post p buf raw : views p buf raw ->
  post (policy_of p) buf raw (FrameParser.parse arch slice_addr p buf).
Proof.
  intros Hv. unfold FrameParser.parse, parse_after_complete_data_miss.
  destruct (decide (state p = PHeader)) as [Hs|Hs].
  - pose proof Hv as [Hview Ha Hr Hi _ Hok].
    assert (Hf : fresh p) by (split_and!; try done; apply Hi; by rewrite Hs).
    destruct Hview as [_ ->|? ? ? Hs'|? ? ? Hs'|? Hs'|? ? Hs']; try (rewrite Hs' in Hs; done).
    destruct (try_parse_complete_unmasked_data p buf) as [[[o d] rest]|] eqn:E1;
      [by apply try_parse_post|].
    destruct (fast_unmasked _ _ _ _) as [r|] eqn:E2; [by apply fast_unmasked_post|].
    destruct (fast_masked _ _ _ _) as [r|] eqn:E3; [by apply fast_masked_post|].
    by apply parse_slow_post.
  - unfold try_parse_complete_unmasked_data, fast_unmasked, fast_masked.
    rewrite !bool_decide_eq_false_2 by done. by apply parse_slow_post.
Qed.

(** ** A reader over the parser *)

(** The loop every reader of the crate runs on what it has received: take frames until
    the parser wants more bytes or fails. *)
Definition drain_step (s : list Frame * t * bytes) :
    (list Frame * t * bytes) + comp (list Frame * t * bytes) unit :=
  let '(fs, p, buf) := s in
  match FrameParser.parse arch slice_addr p buf with
  | Done (p, buf) (Ok (Some f)) => inl (fs ++ [f], p, buf)
  | Done (p, buf) (Ok None) => inr (Done (fs, p, buf) (Ok tt))
  | Done (p, buf) (Err e) => inr (Done (fs, p, buf) (Err e))
  | Panic => inr Panic
  | NoFuel => inr NoFuel
  end.
Definition drain (fs : list Frame) (p : t) (buf : bytes) : comp (list Frame * t * bytes) unit :=
  loop_fuel (length buf + 2) drain_step (fs, p, buf).

(** Successive reads from the transport. *)
Fixpoint feed (s : list Frame * t * bytes) (chunks : list bytes) : comp (list Frame * t * bytes) unit :=
  match chunks with
  | [] => Done s (Ok tt)
  | c :: cs => let '(fs, p, buf) := s in let! (s, _u) := drain fs p (buf ++ c) in feed s cs
  end.
End refinement.

(** All the frames of a byte string, and the error that ends them. *)
Fixpoint spec_frames_fuel (n : nat) (pol : policy) (raw : bytes) : list Frame * option Error :=
  match n with
  | O => ([], None)
  | S n => match spec_parse pol raw with
           | Need => ([], None)
           | Bad e => ([], Some e)
           | Got f rest => let '(fs, e) := spec_frames_fuel n pol rest in (f :: fs, e)
           end
  end.
Definition spec_frames (pol : policy) (raw : bytes) : list Frame * option Error :=
  spec_frames_fuel (length raw) pol raw.

(** A frame is at least its two base bytes. *)
Lemma spec_payload_got h hs raw f rest : 2 <= hs <= len raw -> 0 <= payload_len h ->
  spec_payload h hs raw = Got f rest -> exists c, raw = c ++ rest /\ 2 <= len c.
Proof.
  intros Hhs Hp. unfold spec_payload. destruct (_ <? _) eqn:E; [done|]. intros [= _ <-]. zb.
  exists (upto hs raw ++ upto (payload_len h) (from hs raw)).
  rewrite <- app_assoc, !upto_from, len_app, (len_upto hs) by lia.
  split; [done|]. pose proof (len_nonneg (upto (payload_len h) (from hs raw))). lia.
Qed.

Lemma spec_len_got pol b0 b1 o plen base raw f rest : 2 <= base <= len raw -> 0 <= plen ->
  spec_len pol b0 b1 o plen base raw = Got f rest -> exists c, raw = c ++ rest /\ 2 <= len c.
Proof.
  intros Hb Hp. unfold spec_len, spec_mask. destruct (_ && _); [done|]. destruct (_ <? plen); [done|].
  destruct (masked _).
  - destruct (Z.ltb_spec (len raw) (base + 4)); [done|]. by apply spec_payload_got; [lia|].
  - by apply spec_payload_got.
Qed.

Lemma spec_parse_got pol raw f rest : bytes_ok raw -> spec_parse pol raw = Got f rest ->
  exists c, raw = c ++ rest /\ 2 <= len c.
Proof.
  intros Hok. unfold spec_parse, spec_len16, spec_len64. destruct (Z.ltb_spec (len raw) 2); [done|].
  destruct (check_base _ _ _) as [o|]; [|done]. destruct (_ <=? 125).
  { apply spec_len_got; [lia|]. by apply land_range. }
  destruct (_ =? 126).
  - destruct (Z.ltb_spec (len raw) 4); [done|]. destruct (_ <? 126); [done|].
    apply spec_len_got; [lia|]. apply len_nonneg_be. bytes_ok_tac.
  - destruct (Z.ltb_spec (len raw) 10); [done|]. destruct (_ <=? _); [done|]. destruct (negb _); [done|].
    apply spec_len_got; [lia|]. apply len_nonneg_be. bytes_ok_tac.
Qed.

Lemma spec_frames_fuel_enough n m pol raw : bytes_ok raw -> (length raw <= n)%nat -> (length raw <= m)%nat ->
  spec_frames_fuel n pol raw = spec_frames_fuel m pol raw.
Proof.
  revert m raw. induction n as [|n IH]; intros [|m] raw Hok Hn Hm; try done.
  - destruct raw; [done|cbn in *; lia].
  - destruct raw; [done|cbn in *; lia].
  - cbn. destruct (spec_parse pol raw) as [| |f rest] eqn:E; try done.
    apply spec_parse_got in E as (c & -> & Hc); [|done]. apply bytes_ok_app in Hok as [_ Hok].
    rewrite length_app in *. unfold len in Hc. rewrite (IH m) by (done || lia). done.
Qed.

Lemma spec_frames_eq pol raw : bytes_ok raw ->
  spec_frames pol raw =
  match spec_parse pol raw with
  | Need => ([], None)
  | Bad e => ([], Some e)
  | Got f rest => let '(fs, e) := spec_frames pol rest in (f :: fs, e)
  end.
Proof.
  intros Hok. unfold spec_frames. rewrite (spec_frames_fuel_enough _ (S (length raw))) by (done || lia).
  cbn. destruct (spec_parse pol raw) as [| |f rest] eqn:E; try done.
  apply spec_parse_got in E as (c & -> & Hc); [|done]. apply bytes_ok_app in Hok as [_ Hok].
  rewrite length_app. by rewrite (spec_frames_fuel_enough _ (length rest)) by (done || lia).
Qed.

Section reader.
Context (arch : Arch) (slice_addr : bytes -> Z) (Harch : arch_ok arch).

Definition prepend (fs : list Frame) (r : list Frame * option Error) : list Frame * option Error :=
  (fs ++ fst r, snd r).

(** What a run of the reader leaves, for the bytes [raw] it stood for at the start. *)
Definition drained (pol : policy) (fs0 : list Frame) (raw : bytes)
    (r : comp (list Frame * t * bytes) unit) : Prop :=
  exists fs, match r with
  | Done (fs', p', buf') (Ok _) => exists raw', fs' = fs0 ++ fs /\ views p' buf' raw' /\ policy_of p' = pol /\
      spec_parse pol raw' = Need /\
      forall more, bytes_ok more -> spec_frames pol (raw ++ more) = prepend fs (spec_frames pol (raw' ++ more))
  | Done (fs', _, _) (Err e) => fs' = fs0 ++ fs /\
      forall more, bytes_ok more -> spec_frames pol (raw ++ more) = (fs, Some e)
  | _ => False
  end.

Lemma drained_cons pol fs0 raw f rest r : bytes_ok raw -> spec_parse pol raw = Got f rest ->
  drained pol (fs0 ++ [f]) rest r -> drained pol fs0 raw r.
Proof.
  intros Hok E [fs H]. exists (f :: fs).
  assert (Hsp : forall more, bytes_ok more -> spec_frames pol (raw ++ more) =
    prepend [f] (spec_frames pol (rest ++ more))).
  { intros more Hm. rewrite spec_frames_eq by (by apply bytes_ok_app).
    rewrite spec_parse_app, E by (done || by rewrite E). cbn. by destruct (spec_frames _ _). }
  destruct r as [[[fs' p'] buf'] [u|e]| |]; try done.
  - destruct H as (raw' & -> & Hv & Hp & Hn & Hs). exists raw'. rewrite <- app_assoc. split_and!; try done.
    intros more Hm. by rewrite Hsp, Hs.
  - destruct H as [-> Hs]. rewrite <- app_assoc. split; [done|]. intros more Hm. by rewrite Hsp, Hs.
Qed.

Lemma drain_loop n fs0 p buf raw : views p buf raw -> (length buf + 2 <= n)%nat \/ (fresh p /\ (length buf + 1 <= n)%nat) ->
  drained (policy_of p) fs0 raw (loop_fuel n (drain_step arch slice_addr) (fs0, p, buf)).
Proof.
  revert fs0 p buf raw. induction n as [|n IH]; intros fs0 p buf raw Hv Hn; [lia|].
  cbn [loop_fuel drain_step]. pose proof (parse_post arch slice_addr Harch p buf raw Hv) as Hpost.
  unfold post in Hpost. pose proof (v_raw _ _ _ Hv) as Hok. destruct (spec_parse _ raw) as [|e|f rest] eqn:E.
  - destruct Hpost as (p' & buf' & -> & Hv' & Hp' & _). exists []. exists raw. rewrite app_nil_r.
    split_and!; try done. intros more Hm. unfold prepend. by destruct (spec_frames _ _).
  - destruct Hpost as [[p' buf'] ->]. exists []. rewrite app_nil_r. split; [done|]. intros more Hm.
    rewrite spec_frames_eq by (by apply bytes_ok_app). by rewrite spec_parse_app, E by (done || by rewrite E).
  - destruct Hpost as (p' & -> & Hf' & Hp' & Hok' & Hl). apply drained_cons with f rest; [done|done|].
    rewrite <- Hp'. apply IH; [by apply fresh_views|]. right. split; [done|].
    destruct Hn as [Hn|[Hf Hn]]; [unfold len in Hl; lia|].
    destruct (v_view _ _ _ Hv) as [_ Heq|? ? ? Hs|? ? ? Hs|? Hs|? ? Hs]; try (destruct Hf as [Hf _]; rewrite Hs in Hf; done).
    subst. apply spec_parse_got in E as (c & -> & Hc); [|done]. unfold len in Hc. rewrite length_app in Hn. lia.
Qed.

Lemma feed_loop chunks fs0 p buf raw : views p buf raw -> bytes_ok (concat chunks) ->
  spec_parse (policy_of p) raw = Need ->
  drained (policy_of p) fs0 (raw ++ concat chunks) (feed arch slice_addr (fs0, p, buf) chunks).
Proof.
  revert fs0 p buf raw. induction chunks as [|c cs IH]; intros fs0 p buf raw Hv Hok Hneed.
  { cbn. exists [], raw. rewrite !app_nil_r. split_and!; try done. intros more Hm.
    unfold prepend. by destruct (spec_frames _ _). }
  cbn [concat] in *. apply bytes_ok_app in Hok as [Hc Hcs]. cbn [feed]. unfold drain.
  pose proof (drain_loop (length (buf ++ c) + 2) fs0 p (buf ++ c) (raw ++ c)) as Hd.
  destruct Hd as [fs Hd]; [by apply views_app|left; lia|].
  assert (Hreassoc : forall more, (raw ++ c ++ concat cs) ++ more = (raw ++ c) ++ concat cs ++ more)
    by (intros; by rewrite <- !app_assoc).
  destruct (loop_fuel _ _ _) as [[[fs' p'] buf'] [u|e]| |]; try done; cbn [run_bind].
  - destruct Hd as (raw' & -> & Hv' & Hp' & Hn' & Hs). rewrite <- Hp'.
    destruct (IH (fs0 ++ fs) p' buf' raw' Hv' Hcs) as [fs2 H2]; [by rewrite Hp'|].
    exists (fs ++ fs2). rewrite (app_assoc fs0). destruct (feed _ _ _ _) as [[[fs3 p3] buf3] [u3|e3]| |]; try done.
    + destruct H2 as (raw3 & -> & Hv3 & Hp3 & Hn3 & Hs3). exists raw3. split_and!; try done.
      intros more Hm. rewrite Hreassoc, Hp', Hs by (by apply bytes_ok_app).
      rewrite app_assoc, <- Hp', Hs3 by done. unfold prepend. cbn. by rewrite app_assoc.
    + destruct H2 as [-> Hs3]. split; [done|]. intros more Hm.
      rewrite Hreassoc, Hp', Hs by (by apply bytes_ok_app). by rewrite app_assoc, <- Hp', Hs3 by done.
  - destruct Hd as [-> Hs]. exists fs. split; [done|]. intros more Hm. rewrite Hreassoc.
    by apply Hs, bytes_ok_app.
Qed.
End reader.

(** ** A payload in progress

    A client that looks at the payload before the frame is complete (UTF-8
    validation) relies on what is already unmasked being final. *)

Section progress.
Context (arch : Arch) (slice_addr : bytes -> Z) (Harch : arch_ok arch).

Lemma unmasked_upto h n d : 0 <= n <= len d -> upto n (unmasked h d) = unmasked h (upto n d).
Proof.
  intros Hn. unfold unmasked. destruct (mask h) as [m|]; [|done].
  rewrite <- (upto_from n d) at 1. rewrite mask_spec_app.
  rewrite upto_app_le by (rewrite len_mask_spec, len_upto; lia).
  apply upto_ge. rewrite len_mask_spec, len_upto; lia.
Qed.

Lemma unmasked_involutive h d : unmasked h (unmasked h d) = d.
Proof. unfold unmasked. destruct (mask h); [|done]. apply mask_spec_involutive. Qed.

(** The frame that ends a payload in progress, however it continues. *)
Lemma payload_future p buf raw h more f rest : views p buf raw -> state p = PPayload -> hdr p = Some h ->
  spec_parse (policy_of p) (raw ++ more) = Got f rest ->
  header f = h /\ upto (payload_ready p) (payload f) = upto (payload_ready p) buf /\
  payload_ready p <= len (payload f).
Proof.
  intros Hv Hs Hh E. pose proof (v_ready _ _ _ Hv) as Hr.
  destruct (v_view _ _ _ Hv) as [Hs' _|? ? ? Hs'|? ? ? Hs'|? Hs'|h' hb _ Hh' Hk Hp Hrb Hrp Hsp ->];
    try (rewrite Hs' in Hs; done).
  rewrite Hh in Hh'. injection Hh' as <-. rewrite <- app_assoc, Hsp in E. unfold spec_payload in E.
  rewrite from_app_exact in E. set (n := payload_ready p) in *.
  destruct (Z.ltb_spec (len ((unmasked h (upto n buf) ++ from n buf) ++ more)) (payload_len h)) as [|Hge]; [done|].
  injection E as <- _. cbn [header payload].
  split; [done|]. rewrite len_unmasked, len_upto by lia. split; [|lia].
  rewrite unmasked_upto by (rewrite len_upto; lia). rewrite upto_upto by lia.
  rewrite <- app_assoc, upto_app_le by (rewrite len_unmasked, len_upto; lia).
  rewrite upto_ge by (rewrite len_unmasked, len_upto; lia). apply unmasked_involutive.
Qed.

(** What is ready stays as it is while the payload grows. *)
Lemma payload_grows p buf raw h p' buf' : views p buf raw -> state p = PPayload -> hdr p = Some h ->
  FrameParser.parse arch slice_addr p buf = Done (p', buf') (Ok None) ->
  state p' = PPayload /\ hdr p' = Some h /\ payload_ready p <= payload_ready p' /\
  upto (payload_ready p) buf' = upto (payload_ready p) buf.
Proof.
  intros Hv Hs Hh. pose proof (v_ready _ _ _ Hv) as Hr.
  unfold FrameParser.parse, parse_after_complete_data_miss, try_parse_complete_unmasked_data,
    fast_unmasked, fast_masked.
  rewrite !bool_decide_eq_false_2 by (by rewrite Hs). cbn [negb orb andb].
  unfold FrameParser.parse_slow. cbn [loop_fuel slow_step]. unfold FrameParser.slow_step. rewrite Hs.
  unfold step_payload. rewrite Hh. set (n := payload_ready p) in *.
  destruct (len buf <? payload_len h); [|done]. destruct (Z.ltb_spec n (len buf)) as [Hn|Hn];
    intros [= <- <-]; cbn; [|split_and!; try done; fold n; lia].
  split_and!; try done; [lia|]. destruct (mask h); [|done].
  rewrite upto_app_le by (rewrite len_upto; lia). apply upto_upto. lia.
Qed.
End progress.

(** ** Encoded frames *)

(** What a frame must satisfy to be sent to a receiver with policy [pol]. *)
Record sendable (pol : policy) (o : OpCode) (payload : bytes) (fin : bool) (key : option bytes)
    (rsv1 : bool) : Prop := {
  s_mask : pol_masked pol = match key with Some _ => true | None => false end;
  s_key : match key with Some m => len m = 4 /\ bytes_ok m | None => True end;
  s_rsv1 : rsv1 = true -> pol_rsv1 pol = true /\ (o = Text \/ o = Binary);
  s_control : is_control o = true -> fin = true /\ len payload <= 125;
  s_size : len payload <= pol_max pol;
  s_usize : len payload < 2 ^ 63;
  s_payload : bytes_ok payload
}.

(** The frame the receiver should see. *)
Definition sent (o : OpCode) (payload : bytes) (fin : bool) (key : option bytes) (rsv1 : bool) : Frame :=
  MkFrame (MkHeader fin rsv1 false false o (match key with Some _ => true | None => false end)
                    (len payload) key) payload.

Definition first_byte (o : OpCode) (fin rsv1 : bool) : Z := or_if rsv1 0x40 (or_if fin 0x80 (opcode_u8 o)).
Definition mask_bit (key : option bytes) : Z := match key with Some _ => 0x80 | None => 0 end.

Lemma first_byte_bits o fin rsv1 : let b0 := first_byte o fin rsv1 in
  (b0 &? 0x80) = fin /\ (b0 &? 0x40) = rsv1 /\ (b0 &? 0x20) = false /\ (b0 &? 0x10) = false /\
  from_u8 (Z.land b0 0x0F) = Some o /\ is_byte b0.
Proof. by destruct o, fin, rsv1. Qed.

Lemma second_byte key l : 0 <= l <= 127 -> let b1 := Z.lor (mask_bit key) l in
  (b1 &? 0x80) = (match key with Some _ => true | None => false end) /\ Z.land b1 0x7F = l.
Proof.
  intros Hl.
  assert (Hall : forallb (fun l => (127 <? l) || ((Z.lor 128 l &? 128) && (Z.land (Z.lor 128 l) 127 =? l)
    && negb (Z.lor 0 l &? 128) && (Z.land (Z.lor 0 l) 127 =? l))) (seqZ 0 256) = true) by reflexivity.
  pose proof (byte_forall _ Hall l ltac:(unfold is_byte; lia)) as Hx. cbn beta in Hx.
  replace (127 <? l) with false in Hx by (symmetry; apply Z.ltb_ge; lia).
  apply andb_prop in Hx as [[[H1 H2]%andb_prop H3]%andb_prop H4].
  apply negb_true_iff in H3. rewrite Z.eqb_eq in *. by destruct key.
Qed.

Lemma check_base_sent pol o payload fin key rsv1 l : sendable pol o payload fin key rsv1 -> 0 <= l <= 127 ->
  check_base pol (first_byte o fin rsv1) (Z.lor (mask_bit key) l) = Ok o.
Proof.
  intros [Hm _ Hr Hc _ _ _] Hl. destruct (first_byte_bits o fin rsv1) as (H1 & H2 & H3 & H4 & H5 & _).
  destruct (second_byte key l Hl) as [H6 _]. unfold check_base. rewrite H1, H2, H3, H4, H5, H6, <- Hm.
  destruct rsv1; [destruct (Hr eq_refl) as [-> [-> | ->]]|].
  - by destruct (pol_masked pol).
  - by destruct (pol_masked pol).
  - cbn. destruct (is_control o); [destruct (Hc eq_refl) as [-> _]|]; by destruct (pol_masked pol).
Qed.

Definition key_bytes (key : option bytes) : bytes := match key with Some m => m | None => [] end.
Definition body_bytes (key : option bytes) (payload : bytes) : bytes :=
  match key with Some m => mask_spec m 0 payload | None => payload end.

Lemma four_bytes (m : bytes) : len m = 4 -> exists a b c d, m = [a; b; c; d].
Proof.
  intros H. destruct m as [|a [|b [|c [|d [|e r]]]]]; try discriminate; [by exists a, b, c, d|].
  rewrite !len_cons in H. pose proof (len_nonneg r). lia.
Qed.

Lemma spec_len_sent pol o payload fin key rsv1 l hd base tail :
  sendable pol o payload fin key rsv1 -> 0 <= l <= 127 -> len hd = base ->
  spec_len pol (first_byte o fin rsv1) (Z.lor (mask_bit key) l) o (len payload) base
    (hd ++ key_bytes key ++ body_bytes key payload ++ tail) =
  Got (sent o payload fin key rsv1) tail.
Proof.
  intros [Hm Hk Hr Hc Hs _ Hok] Hl Hhd. destruct (first_byte_bits o fin rsv1) as (H1 & H2 & H3 & H4 & H5 & _).
  destruct (second_byte key l Hl) as [H6 _]. unfold spec_len.
  replace (is_control o && _) with false.
  2:{ destruct (is_control o); [|done]. destruct Hc as [_ Hc]; [done|]. symmetry. cbn. apply Z.ltb_ge. lia. }
  zfalse (pol_max pol <? len payload). unfold spec_mask, base_header. cbn [masked]. rewrite H6. subst base.
  destruct key as [m|]; cbn [key_bytes body_bytes app].
  - destruct Hk as [Hk Hmok]. pose proof (len_nonneg tail). pose proof (len_nonneg payload).
    rewrite !len_app, len_mask_spec, Hk.
    zfalse (len hd + (4 + (len payload + len tail)) <? len hd + 4).
    replace (hd ++ m ++ _).[len hd] with m.[0].
    2:{ rewrite <- (Z.add_0_r (len hd)), at_app_r, at_app_l by lia. done. }
    rewrite !at_app_r by lia. rewrite !at_app_l by lia.
    unfold spec_payload. cbn [payload_len with_mask]. replace (len hd + 4) with (len (hd ++ m)) by (rewrite len_app; lia).
    rewrite app_assoc, from_app_exact, len_app, len_mask_spec. zfalse (len payload + len tail <? len payload).
    pose proof (upto_app_exact (mask_spec m 0 payload) tail) as U.
    pose proof (from_app_exact (mask_spec m 0 payload) tail) as F.
    rewrite len_mask_spec in U, F. rewrite U, F.
    unfold sent, unmasked, with_mask. cbn -[Z.land mask_spec first_byte at_]. rewrite H1, H2, H3, H4.
    destruct (four_bytes m Hk) as (a & b & c & d & ->). cbn. by rewrite mask_spec_involutive.
  - unfold spec_payload. cbn [payload_len]. rewrite from_app_exact, len_app. pose proof (len_nonneg tail).
    zfalse (len payload + len tail <? len payload). rewrite upto_app_exact, from_app_exact.
    unfold sent, unmasked. cbn -[Z.land first_byte]. by rewrite H1, H2, H3, H4.
Qed.

(** The length field, with the mask bit. *)
Definition len_bytes (key : option bytes) (n : Z) : bytes :=
  if n <=? SMALL_MESSAGE_THRESHOLD then [Z.lor (mask_bit key) n]
  else if n <=? MEDIUM_MESSAGE_THRESHOLD then Z.lor (mask_bit key) 126 :: to_be_bytes 2 n
  else Z.lor (mask_bit key) 127 :: to_be_bytes 8 n.

Lemma wrap_small w n : 0 <= n < 2 ^ w -> wrap w n = n.
Proof. intros. by apply Z.mod_small. Qed.

Lemma encode_shape buf o payload fin key rsv1 :
  (match key with Some m => len m = 4 /\ bytes_ok m | None => True end) -> bytes_ok payload ->
  encode_frame_with_rsv buf o payload fin key rsv1 =
  buf ++ (first_byte o fin rsv1 :: len_bytes key (len payload)) ++ key_bytes key ++ body_bytes key payload.
Proof.
  intros Hk Hok. unfold encode_frame_with_rsv, len_bytes. fold (mask_bit key). cbn zeta.
  fold (first_byte o fin rsv1). pose proof (len_nonneg payload). f_equal. cbn [app]. f_equal. f_equal.
  - unfold SMALL_MESSAGE_THRESHOLD, MEDIUM_MESSAGE_THRESHOLD.
    destruct (Z.leb_spec (len payload) 125); [by rewrite wrap_small by lia|].
    destruct (Z.leb_spec (len payload) 65535); [by rewrite wrap_small by lia|done].
  - destruct key as [m|]; [|done]. destruct Hk. cbn. by rewrite encode_payload_masked_spec.
Qed.

Lemma spec_parse_sent pol o payload fin key rsv1 tail : sendable pol o payload fin key rsv1 ->
  spec_parse pol (encode_frame_with_rsv [] o payload fin key rsv1 ++ tail) =
  Got (sent o payload fin key rsv1) tail.
Proof.
  intros Hs. pose proof Hs as [_ Hk _ _ _ Hu Hok]. rewrite encode_shape by done.
  pose proof (len_nonneg payload). set (b0 := first_byte o fin rsv1).
  change ([] ++ ?x) with x. rewrite <- !app_assoc.
  set (rest := key_bytes key ++ body_bytes key payload ++ tail).
  pose proof (len_nonneg rest). unfold len_bytes, SMALL_MESSAGE_THRESHOLD, MEDIUM_MESSAGE_THRESHOLD.
  destruct (Z.leb_spec (len payload) 125); [|destruct (Z.leb_spec (len payload) 65535)].
  - destruct (second_byte key (len payload)) as [_ Hl]; [lia|].
    rewrite (spec_parse_base _ _ b0 (Z.lor (mask_bit key) (len payload)) o); try done.
    + rewrite Hl. ztrue (len payload <=? 125). apply spec_len_sent; [done|lia|done].
    + rewrite len_app. change (len [_; _]) with 2. lia.
    + eapply check_base_sent; [done|lia].
  - destruct (second_byte key 126) as [_ Hl]; [lia|].
    rewrite (spec_parse_base _ _ b0 (Z.lor (mask_bit key) 126) o); try done.
    + rewrite Hl. cbn [Z.leb Z.compare Pos.compare Pos.compare_cont Z.eqb Pos.eqb]. unfold spec_len16.
      rewrite len_app. change (len (b0 :: _ :: to_be_bytes 2 _)) with 4. zfalse (4 + len rest <? 4).
      change (from_be_bytes _) with (from_be_bytes (to_be_bytes 2 (len payload))).
      rewrite from_to_be_bytes, Z.mod_small by (cbn; lia). zfalse (len payload <? 126). apply spec_len_sent; [done|lia|done].
    + rewrite len_app. change (len (b0 :: _ :: to_be_bytes 2 _)) with 4. lia.
    + eapply check_base_sent; [done|lia].
  - destruct (second_byte key 127) as [_ Hl]; [lia|].
    rewrite (spec_parse_base _ _ b0 (Z.lor (mask_bit key) 127) o); try done.
    + rewrite Hl. cbn [Z.leb Z.compare Pos.compare Pos.compare_cont Z.eqb Pos.eqb]. unfold spec_len64.
      rewrite len_app. change (len (b0 :: _ :: to_be_bytes 8 _)) with 10. zfalse (10 + len rest <? 10).
      change (from_be_bytes _) with (from_be_bytes (to_be_bytes 8 (len payload))).
      rewrite from_to_be_bytes, Z.mod_small by (cbn; lia). zfalse (len payload <=? 65535).
      rewrite Z.shiftr_div_pow2, Z.div_small by lia. apply spec_len_sent; [done|lia|done].
    + rewrite len_app. change (len (b0 :: _ :: to_be_bytes 8 _)) with 10. lia.
    + eapply check_base_sent; [done|lia].
Qed.

(** ** Properties *)

(** A frame to send: opcode, payload, final bit, masking key, compression bit. *)
Definition outgoing : Type := OpCode * bytes * bool * option bytes * bool.
Definition out_ok (pol : policy) (m : outgoing) : Prop :=
  let '(o, payload, fin, key, rsv1) := m in sendable pol o payload fin key rsv1.
Definition out_frame (m : outgoing) : Frame :=
  let '(o, payload, fin, key, rsv1) := m in sent o payload fin key rsv1.
(** The send buffer after the encoder appended each frame in turn. *)
Definition encode_all (ms : list outgoing) : bytes :=
  fold_left (fun buf m => let '(o, payload, fin, key, rsv1) := m in
    encode_frame_with_rsv buf o payload fin key rsv1) ms [].

Lemma encode_app buf o payload fin key rsv1 :
  encode_frame_with_rsv buf o payload fin key rsv1 = buf ++ encode_frame_with_rsv [] o payload fin key rsv1.
Proof. done. Qed.

Lemma encode_all_cons m ms : encode_all (m :: ms) = encode_all [m] ++ encode_all ms.
Proof.
  assert (H : forall ms buf, fold_left (fun buf (m : outgoing) => let '(o, payload, fin, key, rsv1) := m in
    encode_frame_with_rsv buf o payload fin key rsv1) ms buf = buf ++ encode_all ms).
  { clear. intros ms. induction ms as [|m ms IH]; intros buf; [by rewrite app_nil_r|].
    unfold encode_all. cbn. rewrite !IH. destruct m as [[[[o pl] fin] key] rsv1].
    by rewrite encode_app, <- app_assoc. }
  unfold encode_all at 1. cbn [fold_left]. rewrite H. done.
Qed.

Lemma mask_bit_byte key l : 0 <= l <= 127 -> is_byte (Z.lor (mask_bit key) l).
Proof.
  intros Hl. assert (Hall : forallb (fun l => (127 <? l) || ((Z.lor 128 l <? 256) && (0 <=? Z.lor 128 l) &&
    (Z.lor 0 l <? 256) && (0 <=? Z.lor 0 l))) (seqZ 0 256) = true) by reflexivity.
  pose proof (byte_forall _ Hall l ltac:(unfold is_byte; lia)) as Hx. cbn beta in Hx.
  replace (127 <? l) with false in Hx by (symmetry; apply Z.ltb_ge; lia). cbn [orb] in Hx. zb.
  unfold is_byte. destruct key; cbn [mask_bit]; lia.
Qed.

Lemma encode_bytes_ok o payload fin key rsv1 : bytes_ok payload ->
  (match key with Some m => len m = 4 /\ bytes_ok m | None => True end) ->
  bytes_ok (encode_frame_with_rsv [] o payload fin key rsv1).
Proof.
  intros Hok Hk. rewrite encode_shape by done. cbn [app]. pose proof (len_nonneg payload).
  constructor; [by apply first_byte_bits|]. rewrite !bytes_ok_app. split_and!.
  - unfold len_bytes, SMALL_MESSAGE_THRESHOLD.
    destruct (Z.leb_spec (len payload) 125); [|destruct (_ <=? _)];
      (constructor; [apply mask_bit_byte; lia|]); try apply to_be_bytes_ok. constructor.
  - destruct key; [apply Hk|constructor].
  - destruct key as [m|]; [|done]. destruct Hk. cbn. by apply mask_spec_ok.
Qed.

Lemma spec_frames_sent pol ms : Forall (out_ok pol) ms ->
  bytes_ok (encode_all ms) /\ spec_frames pol (encode_all ms) = (map out_frame ms, None).
Proof.
  induction 1 as [|m ms Hm _ [IHok IH]]; [by split; [constructor|]|]. rewrite encode_all_cons.
  destruct m as [[[[o pl] fin] key] rsv1]. cbn in Hm. change (encode_all [_]) with (encode_frame_with_rsv [] o pl fin key rsv1).
  assert (Hok : bytes_ok (encode_frame_with_rsv [] o pl fin key rsv1 ++ encode_all ms)).
  { apply bytes_ok_app; split; [|done]. destruct Hm. by apply encode_bytes_ok. }
  split; [done|]. rewrite spec_frames_eq, spec_parse_sent by done. by rewrite IH.
Qed.

Lemma feed_result arch slice_addr p chunks : arch_ok arch -> fresh p -> bytes_ok (concat chunks) ->
  exists p' buf', feed arch slice_addr ([], p, []) chunks =
    Done (fst (spec_frames (policy_of p) (concat chunks)), p', buf')
         (match snd (spec_frames (policy_of p) (concat chunks)) with
          | None => Ok tt
          | Some e => Err e
          end).
Proof.
  intros Ha Hf Hok. destruct (feed_loop arch slice_addr Ha chunks [] p [] []) as [fs Hd];
    [apply fresh_views; [done|constructor]|done|done|]. change ([] ++ concat chunks) with (concat chunks) in Hd.
  destruct (feed _ _ _ _) as [[[fs' p'] buf'] [[]|e]| |]; try done.
  - destruct Hd as (raw' & -> & Hv & Hp & Hn & Hs). specialize (Hs [] ltac:(constructor)).
    rewrite !app_nil_r, (spec_frames_eq _ raw'), Hn in Hs by apply Hv.
    rewrite Hs. cbn. rewrite app_nil_r. eauto.
  - destruct Hd as [-> Hs]. specialize (Hs [] ltac:(constructor)). rewrite app_nil_r in Hs.
    rewrite Hs. cbn. eauto.
Qed.

(** [C27] Whatever pieces the transport delivers a byte stream in,
    the frames the reader returns, and the error it stops with, are those of
    the whole stream under the reference parser; it never panics and always returns. *)
Theorem frames_any_chunking arch slice_addr p chunks : arch_ok arch -> fresh p -> bytes_ok (concat chunks) ->
  exists p' buf', feed arch slice_addr ([], p, []) chunks =
    Done (fst (spec_frames (policy_of p) (concat chunks)), p', buf')
         (match snd (spec_frames (policy_of p) (concat chunks)) with
          | None => Ok tt
          | Some e => Err e
          end).
Proof. apply feed_result. Qed.

Definition test_arch : Arch := X86_64 (MkCpu false false true true).
Lemma frames_any_chunking_witness : exists p' buf',
  feed test_arch (fun _ => 0) ([], new 1000 true, []) [[0x81]; [0x82; 1; 2; 3]; [4; 73; 107; 0x88]] =
  Done ([MkFrame (MkHeader true false false false Text true 2 (Some [1; 2; 3; 4])) [72; 105]], p', buf') (Ok tt).
Proof.
  apply (frames_any_chunking test_arch (fun _ => 0) (new 1000 true) [[0x81]; [0x82; 1; 2; 3]; [4; 73; 107; 0x88]]);
    [by vm_compute|done|by repeat constructor].
Defined.

(** Frames written by the encoder one after the other and cut into
    arbitrary reads come out of a parser with a matching policy exactly as
    they were sent, with their payloads unmasked. *)
Theorem frames_roundtrip arch slice_addr p ms chunks : arch_ok arch -> fresh p ->
  Forall (out_ok (policy_of p)) ms -> concat chunks = encode_all ms ->
  exists p' buf', feed arch slice_addr ([], p, []) chunks = Done (map out_frame ms, p', buf') (Ok tt).
Proof.
  intros Ha Hf Hms Hc. destruct (spec_frames_sent _ _ Hms) as [Hok Hs]. rewrite <- Hc in Hok, Hs.
  destruct (feed_result arch slice_addr p chunks Ha Hf Hok) as (p' & buf' & E). rewrite Hs in E. eauto.
Qed.

(** Two masked frames, read byte by byte. *)
Definition demo_frames : list outgoing :=
  [(Text, [104; 105], true, Some [9; 8; 7; 6], false); (Ping, [], true, Some [1; 1; 1; 1], false)].
Lemma frames_roundtrip_witness : exists p' buf',
  feed test_arch (fun _ => 0) ([], new 1000 true, []) (map (fun b => [b]) (encode_all demo_frames)) =
  Done (map out_frame demo_frames, p', buf') (Ok tt).
Proof.
  apply (frames_roundtrip test_arch (fun _ => 0) (new 1000 true) demo_frames);
    [by vm_compute|done| |reflexivity].
  repeat constructor; by intros.
Defined.

(** The encoder appends exactly the number of bytes it
    reserves, for every payload length and masking choice, and never touches
    what the buffer already holds. *)
Theorem encode_sizes buf o payload fin key rsv1 :
  (match key with Some m => len m = 4 /\ bytes_ok m | None => True end) -> bytes_ok payload ->
  let out := encode_frame_with_rsv buf o payload fin key rsv1 in
  upto (len buf) out = buf /\ len out = len buf + encode_total_size (len payload) key.
Proof.
  intros Hk Hok. cbn zeta. split; [apply upto_app_exact|].
  rewrite encode_shape by done. rewrite !len_app, len_cons. unfold encode_total_size, len_bytes.
  assert (Hb : len (key_bytes key) + len (body_bytes key payload) =
    match key with Some _ => 4 | None => 0 end + len payload).
  { destruct key as [m|]; cbn [key_bytes body_bytes]; [destruct Hk; rewrite len_mask_spec; lia|done]. }
  unfold SMALL_MESSAGE_THRESHOLD, MEDIUM_MESSAGE_THRESHOLD in *.
  destruct (Z.leb_spec (len payload) 125); [|destruct (Z.leb_spec (len payload) 65535)].
  - zfalse (65535 <? len payload). zfalse (125 <? len payload). rewrite len_cons, len_nil. lia.
  - zfalse (65535 <? len payload). ztrue (125 <? len payload). rewrite len_cons, len_to_be_bytes. lia.
  - ztrue (65535 <? len payload). rewrite len_cons, len_to_be_bytes. lia.
Qed.


Lemma header_payload_bytes buf o payload fin key rsv1 :
  (match key with Some m => len m = 4 /\ bytes_ok m | None => True end) -> bytes_ok payload ->
  encode_frame_header_with_rsv buf o (len payload) fin key rsv1 ++
    (match key with Some m => mask_spec m 0 payload | None => payload end) =
  encode_frame_with_rsv buf o payload fin key rsv1.
Proof.
  intros Hk Hok. rewrite encode_shape by done. unfold encode_frame_header_with_rsv, encode_header, len_bytes.
  cbn [payload_len opcode Frame.fin Frame.rsv1 rsv2 rsv3 masked mask or_if]. rewrite <- !app_assoc. f_equal.
  pose proof (len_nonneg payload). unfold SMALL_MESSAGE_THRESHOLD, MEDIUM_MESSAGE_THRESHOLD in *.
  destruct (Z.leb_spec (len payload) 125); [rewrite wrap_small by lia|destruct (len payload <=? 65535)];
    by destruct key.
Qed.

(** Writing a header alone and then the (masked) payload, as
    the vectored send paths do, produces the same bytes as the one-shot encoder. *)
Theorem header_then_payload buf o payload fin key rsv1 :
  (match key with Some m => len m = 4 /\ bytes_ok m | None => True end) -> bytes_ok payload ->
  encode_frame_header_with_rsv buf o (len payload) fin key rsv1 ++
    (match key with Some m => mask_spec m 0 payload | None => payload end) =
  encode_frame_with_rsv buf o payload fin key rsv1.
Proof. apply header_payload_bytes. Qed.

