(* ===== verification/Protocol.v ===== *)
(** * The protocol state machine (src/src/protocol.rs, uncompressed part)

    Messages, the close-handshake state, reassembly of fragments with
    incremental UTF-8 validation, the three receive entry points and the
    encoders.  Theorems are in [ProtocolSpec]. *)

From stdpp Require Import base list strings.
From S2P Require Import Prelude Error Mask Utf8 Frame.

Inductive Role := Client | Server.

#[export] Instance Role_eq_dec : EqDecision Role.
Proof. solve_decision. Defined.

Module Message.
Inductive t :=
  | Text (b : bytes)
  | Binary (b : bytes)
  | Ping (b : bytes)
  | Pong (b : bytes)
  | Close (reason : option CloseReason.t).

(** [text]/[From<String>]/[From<&str>] and [binary]/[From<Vec<u8>>]/[From<Bytes>] *)
Definition text (s : bytes) : t := Text s.
Definition binary (data : bytes) : t := Binary data.
Definition ping (data : bytes) : t := Ping data.
Definition pong (data : bytes) : t := Pong data.

Definition is_close (m : t) : bool := match m with Close _ => true | _ => false end.
Definition is_text (m : t) : bool := match m with Text _ => true | _ => false end.
Definition is_binary (m : t) : bool := match m with Binary _ => true | _ => false end.
Definition is_ping (m : t) : bool := match m with Ping _ => true | _ => false end.
Definition is_pong (m : t) : bool := match m with Pong _ => true | _ => false end.
Definition is_control (m : t) : bool :=
  match m with Ping _ | Pong _ | Close _ => true | _ => false end.

(** [as_text]/[into_text] *)
Definition as_text `{Simdutf8} (m : t) : option bytes :=
  match m with
  | Text b => if basic_from_utf8 b then Some b else None
  | _ => None
  end.
Definition text_bytes (m : t) : option bytes := match m with Text b => Some b | _ => None end.
(** [as_bytes]/[into_bytes] *)
Definition as_bytes (m : t) : bytes :=
  match m with Text b | Binary b | Ping b | Pong b => b | Close _ => [] end.
End Message.

Module RawMessage.
Inductive t :=
  | Text (b : bytes)
  | Binary (b : bytes)
  | Ping (b : bytes)
  | Pong (b : bytes)
  | Close (reason : option CloseReason.t).

Definition opcode (m : t) : OpCode :=
  match m with
  | Text _ => Frame.Text | Binary _ => Frame.Binary | Ping _ => Frame.Ping
  | Pong _ => Frame.Pong | Close _ => Frame.Close
  end.
Definition as_bytes (m : t) : bytes :=
  match m with Text b | Binary b | Ping b | Pong b => b | Close _ => [] end.
End RawMessage.

#[export] Instance Message_eq_dec : EqDecision Message.t.
Proof. solve_decision. Defined.

Inductive State := Open | CloseSent | CloseReceived | StClosed.

#[export] Instance State_eq_dec : EqDecision State.
Proof. solve_decision. Defined.

Definition ensure_message_size (size max_message_size : Z) : result unit :=
  if max_message_size <? size then Err MessageTooLarge else Ok tt.

(** [None] is the [unreachable!] arm. *)
Definition raw_data_message (m : RawMessage.t) : option Message.t :=
  match m with
  | RawMessage.Text payload => Some (Message.Text payload)
  | RawMessage.Binary payload => Some (Message.Binary payload)
  | RawMessage.Ping _ | RawMessage.Pong _ | RawMessage.Close _ => None
  end.

(** ** The receive loop

    The four [process_into] loops of the file have one shape; what differs is
    how a frame is handled and what is done with an incomplete one. *)

Record Receiver (S M : Type) := MkReceiver {
  r_parser : S -> FrameParser.t;
  r_set_parser : FrameParser.t -> S -> S;
  (** [self.handle_frame(frame)] *)
  on_frame : S -> Frame -> comp S (option M);
  (** the [None] arm before its [break] *)
  on_need : S -> bytes -> comp S unit
}.
Arguments r_parser {S M}. Arguments r_set_parser {S M}.
Arguments on_frame {S M}. Arguments on_need {S M}.

Section receive.
Context {S M : Type} (r : Receiver S M) (arch : Arch) (slice_addr : bytes -> Z).

(** The handler, the buffer, [messages] and [accepted_fragment]. *)
Abbreviation rst := (S * bytes * list M * bool)%type.

Definition receive_step (s : rst) : rst + comp rst unit :=
  let '(p, buf, messages, accepted) := s in
  if bool_decide (buf = []) then inr (Done (p, buf, messages, accepted) (Ok tt))
  else match FrameParser.parse arch slice_addr (r_parser r p) buf with
  | Done (ps, buf) (Ok (Some frame)) =>
      match on_frame r (r_set_parser r ps p) frame with
      | Done p (Ok (Some msg)) => inl (p, buf, messages ++ [msg], accepted)
      | Done p (Ok None) => inl (p, buf, messages, true)
      | Done p (Err e) => inr (Done (p, buf, messages, accepted) (Err e))
      | Panic => inr Panic
      | NoFuel => inr NoFuel
      end
  | Done (ps, buf) (Ok None) =>
      match on_need r (r_set_parser r ps p) buf with
      | Done p (Ok _) => inr (Done (p, buf, messages, accepted) (Ok tt))
      | Done p (Err e) => inr (Done (p, buf, messages, accepted) (Err e))
      | Panic => inr Panic
      | NoFuel => inr NoFuel
      end
  | Done (ps, buf) (Err e) => inr (Done (r_set_parser r ps p, buf, messages, accepted) (Err e))
  | Panic => inr Panic
  | NoFuel => inr NoFuel
  end.

(** Every frame but the first takes two bytes at least off the buffer. *)
Definition receive_into (p : S) (buf : bytes) : comp rst unit :=
  loop_fuel (length buf + 2) receive_step (p, buf, [], false).
End receive.

Module Protocol.
Record t := Mk {
  validate_text_utf8 : bool;
  role : Role;
  state : State;
  parser : FrameParser.t;
  fragment_buf : bytes;
  fragment_opcode : option OpCode;
  fragment_validated_len : Z;
  max_message_size : Z;
  pending_close : option CloseReason.t;
  utf8 : Utf8Stream.t;
  partial_checked : Z
}.

Definition new (role : Role) (max_frame_size max_message_size : Z) : t :=
  let expect_masked := bool_decide (role = Server) in
  Mk true role Open (FrameParser.new max_frame_size expect_masked) [] None 0 max_message_size None
     Utf8Stream.new 0.

Definition with_text_utf8_validation (enabled : bool) (p : t) : t :=
  Mk enabled (role p) (state p) (parser p) (fragment_buf p) (fragment_opcode p)
     (fragment_validated_len p) (max_message_size p) (pending_close p) (utf8 p) (partial_checked p).

(** Assignments to the fields. *)
Definition set_state (v : State) (p : t) : t :=
  Mk (validate_text_utf8 p) (role p) v (parser p) (fragment_buf p) (fragment_opcode p)
     (fragment_validated_len p) (max_message_size p) (pending_close p) (utf8 p) (partial_checked p).
Definition set_parser (v : FrameParser.t) (p : t) : t :=
  Mk (validate_text_utf8 p) (role p) (state p) v (fragment_buf p) (fragment_opcode p)
     (fragment_validated_len p) (max_message_size p) (pending_close p) (utf8 p) (partial_checked p).
Definition set_fragment (b : bytes) (o : option OpCode) (p : t) : t :=
  Mk (validate_text_utf8 p) (role p) (state p) (parser p) b o
     (fragment_validated_len p) (max_message_size p) (pending_close p) (utf8 p) (partial_checked p).
Definition set_validated_len (v : Z) (p : t) : t :=
  Mk (validate_text_utf8 p) (role p) (state p) (parser p) (fragment_buf p) (fragment_opcode p)
     v (max_message_size p) (pending_close p) (utf8 p) (partial_checked p).
Definition set_pending_close (v : option CloseReason.t) (p : t) : t :=
  Mk (validate_text_utf8 p) (role p) (state p) (parser p) (fragment_buf p) (fragment_opcode p)
     (fragment_validated_len p) (max_message_size p) v (utf8 p) (partial_checked p).
Definition set_utf8 (v : Utf8Stream.t) (p : t) : t :=
  Mk (validate_text_utf8 p) (role p) (state p) (parser p) (fragment_buf p) (fragment_opcode p)
     (fragment_validated_len p) (max_message_size p) (pending_close p) v (partial_checked p).
Definition set_partial_checked (v : Z) (p : t) : t :=
  Mk (validate_text_utf8 p) (role p) (state p) (parser p) (fragment_buf p) (fragment_opcode p)
     (fragment_validated_len p) (max_message_size p) (pending_close p) (utf8 p) v.

Definition split (p : t) (max_frame_size max_message_size : Z) : t * t :=
  let writer := new (role p) max_frame_size max_message_size in
  let writer := set_state (state p) writer in
  let writer := set_pending_close (pending_close p) writer in
  (p, writer).

Definition is_closed (p : t) : bool := bool_decide (state p = StClosed).
Definition is_closing (p : t) : bool :=
  match state p with CloseSent | CloseReceived => true | _ => false end.

Definition enable_compression (p : t) : t := set_parser (FrameParser.set_compression true (parser p)) p.

Section handlers.
Context {SU : Simdutf8}.

(** A call on the [utf8] field. *)
Definition on_utf8 (p : t) (m : comp Utf8Stream.t bool) : comp t bool :=
  match m with
  | Done u r => Done (set_utf8 u p) r
  | Panic => Panic
  | NoFuel => NoFuel
  end.
Definition utf8_push (p : t) (chunk : bytes) : comp t bool := on_utf8 p (Utf8Stream.push (utf8 p) chunk).
Definition utf8_resume (p : t) (suffix : bytes) : comp t bool :=
  on_utf8 p (Utf8Stream.resume (utf8 p) suffix).

(** [self.utf8.resume(&self.fragment_buf[self.fragment_validated_len..])] *)
Definition resume_fragment (p : t) : comp t bool :=
  assert! (fragment_validated_len p <=? len (fragment_buf p));
  utf8_resume p (from (fragment_validated_len p) (fragment_buf p)).

(** [if !ok { return Err(Error::InvalidUtf8) }] *)
Definition check_utf8 (m : comp t bool) (k : t -> comp t unit) : comp t unit :=
  let! (p, ok) := m in
  if negb ok then Done p (Err InvalidUtf8) else k p.

Definition prevalidate_partial_text (p : t) (buf : bytes) : comp t unit :=
  if negb (validate_text_utf8 p) then Done p (Ok tt)
  else match FrameParser.pending_payload (parser p) with
  | None => Done p (Ok tt)
  | Some pending =>
      if FrameParser.p_rsv1 pending || (FrameParser.p_ready pending <=? partial_checked p)
      then Done p (Ok tt)
      else
        let is_text := match FrameParser.p_opcode pending with
                       | Text => bool_decide (fragment_opcode p = None)
                       | Continuation => bool_decide (fragment_opcode p = Some Text)
                       | _ => false
                       end in
        if negb is_text then Done p (Ok tt)
        else
          let rest (p : t) : comp t unit :=
            let ready := Z.min (FrameParser.p_ready pending) (len buf) in
            assert! (partial_checked p <=? ready);
            check_utf8 (utf8_push p (from (partial_checked p) (upto ready buf)))
              (fun p => Done (set_partial_checked ready p) (Ok tt)) in
          if partial_checked p =? 0 then
            if bool_decide (FrameParser.p_opcode pending = Continuation)
            then check_utf8 (resume_fragment p) rest
            else rest (set_utf8 (Utf8Stream.reset (utf8 p)) p)
          else rest p
  end.

(** *** Typed frames *)

Definition handle_complete_data (p : t) (o : OpCode) (payload : bytes) (prevalidated : Z) :
    comp t Message.t :=
  if negb (bool_decide (fragment_opcode p = None))
  then Done p (Err (ProtocolError "expected continuation frame"))
  else match ensure_message_size (len payload) (max_message_size p) with
  | Err e => Done p (Err e)
  | Ok _ =>
      if bool_decide (o = Text) then
        if validate_text_utf8 p then
          if prevalidated =? 0 then
            if validate_utf8 payload then Done p (Ok (Message.Text payload)) else Done p (Err InvalidUtf8)
          else
            let prevalidated := Z.min prevalidated (len payload) in
            let! (p, ok) := utf8_push p (from prevalidated payload) in
            if negb (ok && Utf8Stream.finish (utf8 p)) then Done p (Err InvalidUtf8)
            else Done p (Ok (Message.Text payload))
        else Done p (Ok (Message.Text payload))
      else Done p (Ok (Message.Binary payload))
  end.

(** [self.fragment_buf.len() - self.utf8.pending()] into [fragment_validated_len] *)
Definition record_validated (p : t) : comp t unit :=
  assert! (Utf8Stream.pending (utf8 p) <=? len (fragment_buf p));
  Done (set_validated_len (len (fragment_buf p) - Utf8Stream.pending (utf8 p)) p) (Ok tt).

Definition start_fragment (p : t) (o : OpCode) (payload : bytes) (prevalidated : Z) : comp t unit :=
  if max_message_size p <? len payload then Done p (Err MessageTooLarge)
  else
    let store (p : t) : comp t unit :=
      let p := set_fragment payload (Some o) p in
      if bool_decide (o = Text) then record_validated p else Done (set_validated_len 0 p) (Ok tt) in
    if bool_decide (o = Text) then
      let p := if prevalidated =? 0 then set_utf8 (Utf8Stream.reset (utf8 p)) p else p in
      let prevalidated := Z.min prevalidated (len payload) in
      check_utf8 (utf8_push p (from prevalidated payload)) store
    else store p.

Definition start_raw_fragment (p : t) (o : OpCode) (payload : bytes) : comp t unit :=
  if max_message_size p <? len payload then Done p (Err MessageTooLarge)
  else Done (set_fragment payload (Some o) (set_validated_len 0 p)) (Ok tt).

Definition complete_fragment (p : t) (o : OpCode) : comp t (option Message.t) :=
  let data := fragment_buf p in
  let p := set_fragment [] None p in
  match o with
  | Text => if negb (Utf8Stream.finish (utf8 p)) then Done p (Err InvalidUtf8)
            else Done p (Ok (Some (Message.Text data)))
  | Binary => Done p (Ok (Some (Message.Binary data)))
  | _ => Done p (Err (ProtocolError "invalid fragment opcode"))
  end.

Definition complete_raw_fragment (p : t) (o : OpCode) : comp t (option RawMessage.t) :=
  let data := fragment_buf p in
  let p := set_fragment [] None p in
  match o with
  | Text => Done p (Ok (Some (RawMessage.Text data)))
  | Binary => Done p (Ok (Some (RawMessage.Binary data)))
  | _ => Done p (Err (ProtocolError "invalid fragment opcode"))
  end.

Definition handle_raw_text (p : t) (f : Frame) : comp t (option RawMessage.t) :=
  if negb (bool_decide (fragment_opcode p = None))
  then Done p (Err (ProtocolError "expected continuation frame"))
  else if fin (header f) then
    match ensure_message_size (len (payload f)) (max_message_size p) with
    | Err e => Done p (Err e)
    | Ok _ => Done p (Ok (Some (RawMessage.Text (payload f))))
    end
  else let! (p, _u) := start_raw_fragment p Text (payload f) in Done p (Ok None).

Definition handle_raw_binary (p : t) (f : Frame) : comp t (option RawMessage.t) :=
  if negb (bool_decide (fragment_opcode p = None))
  then Done p (Err (ProtocolError "expected continuation frame"))
  else if fin (header f) then
    match ensure_message_size (len (payload f)) (max_message_size p) with
    | Err e => Done p (Err e)
    | Ok _ => Done p (Ok (Some (RawMessage.Binary (payload f))))
    end
  else let! (p, _u) := start_raw_fragment p Binary (payload f) in Done p (Ok None).

Definition handle_raw_continuation (p : t) (f : Frame) : comp t (option RawMessage.t) :=
  match fragment_opcode p with
  | None => Done p (Err (ProtocolError "unexpected continuation frame"))
  | Some o =>
      let new_size := len (fragment_buf p) + len (payload f) in
      if max_message_size p <? new_size then Done p (Err MessageTooLarge)
      else
        let p := set_fragment (fragment_buf p ++ payload f) (fragment_opcode p) p in
        if fin (header f) then complete_raw_fragment p o else Done p (Ok None)
  end.

(** [.map(|message| message.map(raw_data_message))] *)
Definition map_raw_data (m : comp t (option RawMessage.t)) : comp t (option Message.t) :=
  let! (p, msg) := m in
  match msg with
  | None => Done p (Ok None)
  | Some raw => match raw_data_message raw with
                | Some msg => Done p (Ok (Some msg))
                | None => Panic
                end
  end.

(** [.map(Some)] *)
Definition map_some {A} (m : comp t A) : comp t (option A) := let! (p, a) := m in Done p (Ok (Some a)).

Definition handle_text (p : t) (f : Frame) (prevalidated : Z) : comp t (option Message.t) :=
  if fin (header f) then map_some (handle_complete_data p Text (payload f) prevalidated)
  else if negb (validate_text_utf8 p) then map_raw_data (handle_raw_text p f)
  else if negb (bool_decide (fragment_opcode p = None))
  then Done p (Err (ProtocolError "expected continuation frame"))
  else let! (p, _u) := start_fragment p Text (payload f) prevalidated in Done p (Ok None).

Definition handle_binary (p : t) (f : Frame) : comp t (option Message.t) :=
  if fin (header f) then map_some (handle_complete_data p Binary (payload f) 0)
  else if negb (bool_decide (fragment_opcode p = None))
  then Done p (Err (ProtocolError "expected continuation frame"))
  else let! (p, _u) := start_fragment p Binary (payload f) 0 in Done p (Ok None).

Definition handle_continuation (p : t) (f : Frame) (prevalidated : Z) : comp t (option Message.t) :=
  if negb (validate_text_utf8 p) then map_raw_data (handle_raw_continuation p f)
  else match fragment_opcode p with
  | None => Done p (Err (ProtocolError "unexpected continuation frame"))
  | Some o =>
      let new_size := len (fragment_buf p) + len (payload f) in
      if max_message_size p <? new_size then Done p (Err MessageTooLarge)
      else
        let validate : comp t unit :=
          if bool_decide (o = Text) then
            let push (p : t) : comp t unit :=
              let prevalidated := Z.min prevalidated (len (payload f)) in
              check_utf8 (utf8_push p (from prevalidated (payload f))) (fun p => Done p (Ok tt)) in
            if prevalidated =? 0 then check_utf8 (resume_fragment p) push else push p
          else Done p (Ok tt) in
        let! (p, _u) := validate in
        let p := set_fragment (fragment_buf p ++ payload f) (fragment_opcode p) p in
        if fin (header f) then complete_fragment p o
        else if bool_decide (o = Text)
        then let! (p, _v) := record_validated p in Done p (Ok None)
        else Done p (Ok None)
  end.

(** *** Control frames *)

(** The payload of a close frame: the reason it carries, or why it is invalid. *)
Definition close_reason (payload : bytes) : result (option CloseReason.t) :=
  if 2 <=? len payload then
    let code := from_be_bytes [payload.[0]; payload.[1]] in
    if negb (CloseReason.is_valid_code code) then Err (InvalidCloseCode code)
    else if 2 <? len payload then
      let text := from 2 payload in
      if negb (validate_utf8 text) then Err InvalidUtf8
      else Ok (Some (CloseReason.new code (from_utf8_lossy text)))
    else Ok (Some (CloseReason.new code []))
  else if bool_decide (payload = []) then Ok None
  else Err (ProtocolError "invalid close frame payload").

Definition handle_close (p : t) (f : Frame) : comp t (option Message.t) :=
  match close_reason (payload f) with
  | Err e => Done p (Err e)
  | Ok reason =>
      let p := match state p with
               | Open => set_pending_close reason (set_state CloseReceived p)
               | CloseSent => set_state StClosed p
               | _ => p
               end in
      Done p (Ok (Some (Message.Close reason)))
  end.

Definition handle_ping (p : t) (f : Frame) : comp t (option Message.t) :=
  Done p (Ok (Some (Message.Ping (payload f)))).
Definition handle_pong (p : t) (f : Frame) : comp t (option Message.t) :=
  Done p (Ok (Some (Message.Pong (payload f)))).

Definition handle_frame (p : t) (f : Frame) (prevalidated : Z) : comp t (option Message.t) :=
  match opcode (header f) with
  | Continuation => handle_continuation p f prevalidated
  | Text => handle_text p f prevalidated
  | Binary => handle_binary p f
  | Close => handle_close p f
  | Ping => handle_ping p f
  | Pong => handle_pong p f
  end.

Definition handle_raw_frame (p : t) (f : Frame) : comp t (option RawMessage.t) :=
  match opcode (header f) with
  | Continuation => handle_raw_continuation p f
  | Text => handle_raw_text p f
  | Binary => handle_raw_binary p f
  | Close => let! (p, msg) := handle_close p f in
             match msg with
             | Some (Message.Close reason) => Done p (Ok (Some (RawMessage.Close reason)))
             | _ => Done p (Ok None)
             end
  | Ping => Done p (Ok (Some (RawMessage.Ping (payload f))))
  | Pong => Done p (Ok (Some (RawMessage.Pong (payload f))))
  end.

(** *** The receive entry points *)

Context (arch : Arch) (slice_addr : bytes -> Z).

(** [std::mem::take(&mut self.partial_checked)], then [handle_frame] *)
Definition take_and_handle (p : t) (f : Frame) : comp t (option Message.t) :=
  let prevalidated := partial_checked p in
  handle_frame (set_partial_checked 0 p) f prevalidated.

Definition typed_receiver : Receiver t Message.t :=
  MkReceiver _ _ parser set_parser take_and_handle prevalidate_partial_text.
Definition raw_receiver : Receiver t RawMessage.t :=
  MkReceiver _ _ parser set_parser
    (fun p f => handle_raw_frame (set_partial_checked 0 p) f) (fun p _ => Done p (Ok tt)).

Definition process_into_with_activity (p : t) (buf : bytes) :
    comp (t * bytes * list Message.t * bool) unit :=
  receive_into typed_receiver arch slice_addr p buf.

Definition process_raw_into (p : t) (buf : bytes) : comp (t * bytes * list RawMessage.t * bool) unit :=
  receive_into raw_receiver arch slice_addr p buf.

Definition process_next_step (s : t * bytes * bool) :
    (t * bytes * bool) + comp (t * bytes * bool) (option Message.t) :=
  let '(p, buf, accepted) := s in
  if bool_decide (buf = []) then inr (Done (p, buf, accepted) (Ok None))
  else match FrameParser.try_parse_complete_unmasked_data (parser p) buf with
  | Some (o, payload, buf) =>
      let prevalidated := partial_checked p in
      match handle_complete_data (set_partial_checked 0 p) o payload prevalidated with
      | Done p (Ok msg) => inr (Done (p, buf, accepted) (Ok (Some msg)))
      | Done p (Err e) => inr (Done (p, buf, accepted) (Err e))
      | Panic => inr Panic
      | NoFuel => inr NoFuel
      end
  | None =>
      match FrameParser.parse_after_complete_data_miss arch slice_addr (parser p) buf with
      | Done (ps, buf) (Ok (Some frame)) =>
          match take_and_handle (set_parser ps p) frame with
          | Done p (Ok (Some msg)) => inr (Done (p, buf, accepted) (Ok (Some msg)))
          | Done p (Ok None) => inl (p, buf, true)
          | Done p (Err e) => inr (Done (p, buf, accepted) (Err e))
          | Panic => inr Panic
          | NoFuel => inr NoFuel
          end
      | Done (ps, buf) (Ok None) =>
          match prevalidate_partial_text (set_parser ps p) buf with
          | Done p (Ok _) => inr (Done (p, buf, accepted) (Ok None))
          | Done p (Err e) => inr (Done (p, buf, accepted) (Err e))
          | Panic => inr Panic
          | NoFuel => inr NoFuel
          end
      | Done (ps, buf) (Err e) => inr (Done (set_parser ps p, buf, accepted) (Err e))
      | Panic => inr Panic
      | NoFuel => inr NoFuel
      end
  end.
Definition process_next_with_activity (p : t) (buf : bytes) : comp (t * bytes * bool) (option Message.t) :=
  loop_fuel (length buf + 2) process_next_step (p, buf, false).
End handlers.

(** *** Encoding

    [key] is what [generate_mask] returns; a server does not draw one. *)

Definition choose_mask (role : Role) (key : bytes) : option bytes :=
  if bool_decide (role = Client) then Some key else None.

(** The payload of a close frame. *)
Definition close_payload (reason : option CloseReason.t) : bytes :=
  match reason with
  | Some r => to_be_bytes 2 (CloseReason.code r) ++ CloseReason.reason r
  | None => []
  end.

Definition encode_message_into (key : bytes) (p : t) (msg : Message.t) (buf : bytes) : t * bytes :=
  let mask := choose_mask (role p) key in
  match msg with
  | Message.Text b => (p, encode_frame buf Text b true mask)
  | Message.Binary b => (p, encode_frame buf Binary b true mask)
  | Message.Ping b => (p, encode_frame buf Ping b true mask)
  | Message.Pong b => (p, encode_frame buf Pong b true mask)
  | Message.Close reason =>
      let p := if bool_decide (state p = Open) then set_state CloseSent p else p in
      (p, encode_frame buf Close (close_payload reason) true mask)
  end.

Definition encode_message (key : bytes) (p : t) (msg : Message.t) (buf : bytes) : comp (t * bytes) unit :=
  Done (encode_message_into key p msg buf) (Ok tt).

Definition encode_pong (key : bytes) (p : t) (ping_data buf : bytes) : bytes :=
  encode_frame buf Pong ping_data true (choose_mask (role p) key).

Definition encode_close_response (key : bytes) (p : t) (buf : bytes) : t * bytes :=
  let buf := encode_frame buf Close (close_payload (pending_close p)) true (choose_mask (role p) key) in
  (if bool_decide (state p = CloseReceived) then set_state StClosed p else p, buf).

Definition encode_split_close_response (key : bytes) (p : t) (reason : option CloseReason.t) (buf : bytes) :
    t * bytes :=
  encode_close_response key (set_pending_close reason p) buf.
End Protocol.
