(* ===== verification/ReceiveSpec.v ===== *)
(** * The receive loop against a frame-by-frame specification

    [Follows] is the interface between a frame handler and the loop that drives it:
    an abstract state, a specification of one frame, and the obligations
    of the handler.  The loop theorems are proved once against it and used for the typed and the
    raw receivers. *)

From stdpp Require Import base list strings.
From S2P Require Import Prelude Error Mask Utf8 Frame FrameSpec Protocol.

(** ** Specification of a stream *)

Section stream.
(** [F] is the abstract state between frames, [N] the messages. *)
Context {F N : Type} (spec : F -> Frame -> result (F * option N)).

(** The messages of a byte stream, and the state or the error it ends in. *)
Fixpoint ref_frames (fr : F) (fs : list Frame) : list N * result F :=
  match fs with
  | [] => ([], Ok fr)
  | f :: fs => match spec fr f with
               | Err e => ([], Err e)
               | Ok (fr, m) => let '(ms, r) := ref_frames fr fs in (option_list m ++ ms, r)
               end
  end.

Definition ref_run (pol : policy) (fr : F) (raw : bytes) : list N * result F :=
  let '(fs, e) := spec_frames pol raw in
  let '(ms, r) := ref_frames fr fs in
  (ms, match r, e with Ok _, Some e => Err e | r, _ => r end).

Definition after (ms : list N) (x : list N * result F) : list N * result F := (ms ++ fst x, snd x).

Lemma ref_run_eq pol fr raw : bytes_ok raw ->
  ref_run pol fr raw =
  match spec_parse pol raw with
  | Need => ([], Ok fr)
  | Bad e => ([], Err e)
  | Got f rest => match spec fr f with
                  | Err e => ([], Err e)
                  | Ok (fr, m) => after (option_list m) (ref_run pol fr rest)
                  end
  end.
Proof.
  intros Hok. unfold ref_run. rewrite spec_frames_eq by done.
  destruct (spec_parse pol raw) as [|e|f rest]; try done.
  destruct (spec_frames pol rest) as [fs e]. cbn. destruct (spec fr f) as [[fr' m]|e']; [|done].
  by destruct (ref_frames fr' fs) as [ms [r|e'']].
Qed.

(** The frame under way cannot be accepted any more. *)
Definition hopeless (pol : policy) (fr : F) (raw : bytes) : Prop :=
  forall more f rest, bytes_ok more -> spec_parse pol (raw ++ more) = Got f rest ->
  exists e, spec fr f = Err e.
End stream.

(** ** Handlers that follow a specification *)

Class Follows {S M F N : Type} (r : Receiver S M) (arch : Arch) (slice_addr : bytes -> Z)
    (conv : M -> N) (spec : F -> Frame -> result (F * option N)) (pol : policy)
    (sim : S -> bytes -> bytes -> F -> Prop) : Prop := {
  f_views : forall s buf raw fr, sim s buf raw fr ->
    views (r_parser r s) buf raw /\ policy_of (r_parser r s) = pol;
  f_more : forall s buf raw fr more, sim s buf raw fr -> bytes_ok more ->
    sim s (buf ++ more) (raw ++ more) fr;
  f_frame : forall s buf raw fr ps rest f, sim s buf raw fr ->
    FrameParser.parse arch slice_addr (r_parser r s) buf = Done (ps, rest) (Ok (Some f)) ->
    spec_parse pol raw = Got f rest -> fresh ps -> policy_of ps = pol -> bytes_ok rest ->
    match spec fr f with
    | Ok (fr', m) => exists s' m', on_frame r (r_set_parser r ps s) f = Done s' (Ok m') /\
                     conv <$> m' = m /\ sim s' rest rest fr'
    | Err e => exists s', on_frame r (r_set_parser r ps s) f = Done s' (Err e)
    end;
  f_need : forall s buf raw fr ps buf', sim s buf raw fr ->
    FrameParser.parse arch slice_addr (r_parser r s) buf = Done (ps, buf') (Ok None) ->
    views ps buf' raw -> policy_of ps = pol ->
    (FrameParser.state ps = PPayload -> FrameParser.payload_ready ps = len buf') ->
    (exists s', on_need r (r_set_parser r ps s) buf' = Done s' (Ok tt) /\ sim s' buf' raw fr) \/
    (exists s', on_need r (r_set_parser r ps s) buf' = Done s' (Err InvalidUtf8) /\
                hopeless spec pol fr raw)
}.

Section loop.
Context {S M F N : Type} (r : Receiver S M) (arch : Arch) (slice_addr : bytes -> Z) (Harch : arch_ok arch)
  (conv : M -> N) (spec : F -> Frame -> result (F * option N)) (pol : policy)
  (sim : S -> bytes -> bytes -> F -> Prop) {Hf : Follows r arch slice_addr conv spec pol sim}.

Abbreviation ref_run := (ref_run spec pol).

(** The outcome of reading [raw] from state [fr]: what follows is read from the state it leaves, or,
    after an error, nothing that follows would have given another message. *)
Definition received (ms0 : list N) (fr : F) (raw : bytes) (res : comp (S * bytes * list M * bool) unit) : Prop :=
  match res with
  | Done (s', buf', ms, _) (Ok _) => exists fr' raw' news, conv <$> ms = ms0 ++ news /\
      sim s' buf' raw' fr' /\ spec_parse pol raw' = Need /\
      forall more, bytes_ok more -> ref_run fr (raw ++ more) = after news (ref_run fr' (raw' ++ more))
  | Done (_, _, ms, _) (Err e) => exists news, conv <$> ms = ms0 ++ news /\
      (forall more, bytes_ok more -> fst (ref_run fr (raw ++ more)) = news) /\
      (e = InvalidUtf8 \/ forall more, bytes_ok more -> snd (ref_run fr (raw ++ more)) = Err e)
  | _ => False
  end.

Lemma received_cons ms0 fr raw f rest fr' m res : bytes_ok raw -> spec_parse pol raw = Got f rest ->
  spec fr f = Ok (fr', m) -> received (ms0 ++ option_list m) fr' rest res -> received ms0 fr raw res.
Proof.
  intros Hok E Es H.
  assert (Hstep : forall more, bytes_ok more ->
    ref_run fr (raw ++ more) = after (option_list m) (ref_run fr' (rest ++ more))).
  { intros more Hm. rewrite ref_run_eq by (by apply bytes_ok_app).
    rewrite spec_parse_app, E by (done || by rewrite E). cbn. by rewrite Es. }
  destruct res as [[[[s' buf'] ms] a] [u|e]| |]; try done.
  - destruct H as (fr2 & raw2 & news & Hms & Hsim & Hn & Hr). exists fr2, raw2, (option_list m ++ news).
    rewrite app_assoc. split_and!; try done. intros more Hm. rewrite Hstep, Hr by done.
    unfold after. cbn. by rewrite app_assoc.
  - destruct H as (news & Hms & Hr & He). exists (option_list m ++ news). rewrite app_assoc. split_and!; try done.
    + intros more Hm. rewrite Hstep by done. cbn. by rewrite Hr.
    + destruct He as [?|He]; [by left|right]. intros more Hm. rewrite Hstep by done. by apply He.
Qed.

Lemma after_nil (x : list N * result F) : after [] x = x.
Proof. by destruct x. Qed.

(** Nothing left to read: the state stands for no bytes or for an incomplete frame. *)
Lemma received_stop (ms : list M) s buf raw fr a : sim s buf raw fr -> spec_parse pol raw = Need ->
  received (conv <$> ms) fr raw (Done (s, buf, ms, a) (Ok tt)).
Proof.
  intros Hsim Hn. exists fr, raw, []. rewrite app_nil_r. split_and!; try done.
  intros more _. by rewrite after_nil.
Qed.

Lemma received_fail (ms : list M) s buf raw fr a e : bytes_ok raw -> spec_parse pol raw = Bad e ->
  received (conv <$> ms) fr raw (Done (s, buf, ms, a) (Err e)).
Proof.
  intros Hok E. exists []. rewrite app_nil_r.
  assert (Hr : forall more, bytes_ok more -> ref_run fr (raw ++ more) = ([], Err e)).
  { intros more Hm. rewrite ref_run_eq by (by apply bytes_ok_app). by rewrite spec_parse_app, E by (done || by rewrite E). }
  split_and!; [done| |right]; intros more Hm; by rewrite Hr.
Qed.

Lemma received_reject (ms : list M) s buf raw fr a f rest e : bytes_ok raw -> spec_parse pol raw = Got f rest ->
  spec fr f = Err e -> received (conv <$> ms) fr raw (Done (s, buf, ms, a) (Err e)).
Proof.
  intros Hok E Es. exists []. rewrite app_nil_r.
  assert (Hr : forall more, bytes_ok more -> ref_run fr (raw ++ more) = ([], Err e)).
  { intros more Hm. rewrite ref_run_eq by (by apply bytes_ok_app). rewrite spec_parse_app, E by (done || by rewrite E).
    cbn. by rewrite Es. }
  split_and!; [done| |right]; intros more Hm; by rewrite Hr.
Qed.

Lemma received_hopeless (ms : list M) s buf raw fr a : bytes_ok raw -> hopeless spec pol fr raw ->
  received (conv <$> ms) fr raw (Done (s, buf, ms, a) (Err InvalidUtf8)).
Proof.
  intros Hok Hh. exists []. rewrite app_nil_r. split_and!; [done| |by left].
  intros more Hm. rewrite ref_run_eq by (by apply bytes_ok_app).
  destruct (spec_parse pol (raw ++ more)) as [|e|f rest] eqn:E; try done.
  destruct (Hh more f rest Hm E) as [e ->]. done.
Qed.

Lemma receive_loop n s buf raw ms a fr : sim s buf raw fr ->
  (buf = [] -> spec_parse pol raw = Need) ->
  (length buf + 2 <= n)%nat \/ (raw = buf /\ (length buf + 1 <= n)%nat) ->
  received (conv <$> ms) fr raw (loop_fuel n (receive_step r arch slice_addr) (s, buf, ms, a)).
Proof.
  revert s buf raw ms a fr. induction n as [|n IH]; intros s buf raw ms a fr Hsim Hempty Hn; [lia|].
  cbn [loop_fuel receive_step]. destruct (f_views _ _ _ _ Hsim) as [Hv Hpol]. pose proof (v_raw _ _ _ Hv) as Hok.
  case_bool_decide as Hb; [apply received_stop; auto|].
  pose proof (parse_post arch slice_addr Harch _ buf raw Hv) as Hpost. unfold post in Hpost. rewrite Hpol in Hpost.
  destruct (spec_parse pol raw) as [|e|f rest] eqn:E.
  - destruct Hpost as (ps & buf' & Ep & Hv' & Hp' & Hr). rewrite Ep.
    destruct (f_need _ _ _ _ _ _ Hsim Ep Hv' Hp' Hr) as [(s' & -> & Hs')|(s' & -> & Hh)].
    + by apply received_stop.
    + by apply received_hopeless.
  - destruct Hpost as [[ps buf'] ->]. by apply received_fail.
  - destruct Hpost as (ps & Ep & Hfr & Hp' & Hok' & Hl). rewrite Ep.
    pose proof (f_frame _ _ _ _ _ _ _ Hsim Ep E Hfr Hp' Hok') as Hstep.
    destruct (spec fr f) as [[fr' m]|e] eqn:Es.
    + destruct Hstep as (s' & m' & -> & Hm & Hs').
      assert (Hrest : (length rest + 1 <= n)%nat).
      { destruct Hn as [Hn|[-> Hn]]; [unfold len in Hl; lia|].
        destruct (spec_parse_got _ _ _ _ Hok E) as (c & -> & Hc). rewrite length_app in Hn. unfold len in Hc. lia. }
      eapply received_cons; [done|done|exact Es|]. subst m.
      replace ((conv <$> ms) ++ option_list (conv <$> m')) with (conv <$> (ms ++ option_list m')) by (rewrite fmap_app; by destruct m').
      destruct m' as [m'|]; cbn [option_list option_rect].
      * apply IH; [done|by intros ->|by right].
      * rewrite app_nil_r. apply IH; [done|by intros ->|by right].
    + destruct Hstep as (s' & ->). by eapply received_reject.
Qed.

(** One call on what was left plus what has arrived. *)
Lemma receive_into_post s buf raw fr c : sim s buf raw fr -> spec_parse pol raw = Need -> bytes_ok c ->
  received [] fr (raw ++ c) (receive_into r arch slice_addr s (buf ++ c)).
Proof.
  intros Hsim Hn Hc. unfold receive_into. apply (receive_loop _ _ _ _ []); [by apply f_more| |left; lia].
  intros [-> ->]%app_eq_nil. by rewrite app_nil_r.
Qed.

(** Successive reads, up to the first error. *)
Fixpoint receive_all (s : S) (buf : bytes) (ms : list M) (a : bool) (chunks : list bytes) :
    comp (S * bytes * list M * bool) unit :=
  match chunks with
  | [] => Done (s, buf, ms, a) (Ok tt)
  | c :: cs => match receive_into r arch slice_addr s (buf ++ c) with
               | Done (s, buf, news, a') (Ok _) => receive_all s buf (ms ++ news) (a || a') cs
               | Done (s, buf, news, a') (Err e) => Done (s, buf, ms ++ news, a || a') (Err e)
               | Panic => Panic
               | NoFuel => NoFuel
               end
  end.

Lemma received_after ms0 news fr raw fr' raw' x res :
  (forall more, bytes_ok more -> ref_run fr (raw ++ more) = after news (ref_run fr' (raw' ++ more))) ->
  bytes_ok x -> received (ms0 ++ news) fr' (raw' ++ x) res -> received ms0 fr (raw ++ x) res.
Proof.
  intros Hr Hx H.
  assert (Hr' : forall more, bytes_ok more ->
    ref_run fr ((raw ++ x) ++ more) = after news (ref_run fr' ((raw' ++ x) ++ more))).
  { intros more Hm. rewrite <- !app_assoc. apply Hr. by apply bytes_ok_app. }
  destruct res as [[[[s' buf'] ms] a] [u|e]| |]; try done.
  - destruct H as (fr2 & raw2 & news2 & Hms & Hsim & Hn & Hr2). exists fr2, raw2, (news ++ news2).
    rewrite app_assoc. split_and!; try done. intros more Hm. rewrite Hr', Hr2 by done.
    unfold after. cbn. by rewrite app_assoc.
  - destruct H as (news2 & Hms & Hr2 & He). exists (news ++ news2). rewrite app_assoc. split_and!; try done.
    + intros more Hm. rewrite Hr' by done. cbn. by rewrite Hr2.
    + destruct He as [?|He]; [by left|right]. intros more Hm. rewrite Hr' by done. by apply He.
Qed.

Lemma receive_all_post s buf raw fr ms a chunks : sim s buf raw fr -> spec_parse pol raw = Need ->
  bytes_ok (concat chunks) ->
  received (conv <$> ms) fr (raw ++ concat chunks) (receive_all s buf ms a chunks).
Proof.
  revert s buf raw fr ms a. induction chunks as [|c cs IH]; intros s buf raw fr ms a Hsim Hn Hok.
  { rewrite app_nil_r. by apply received_stop. }
  cbn [concat] in *. apply bytes_ok_app in Hok as [Hc Hcs]. cbn [receive_all].
  pose proof (receive_into_post s buf raw fr c Hsim Hn Hc) as H. rewrite app_assoc.
  destruct (receive_into _ _ _ _ _) as [[[[s' buf'] news] a'] [u|e]| |]; try done.
  - destruct H as (fr' & raw' & news' & Hms & Hsim' & Hn' & Hr). cbn [app] in Hms.
    eapply (received_after _ news'); [exact Hr|done|]. rewrite <- Hms, <- fmap_app. by apply IH.
  - destruct H as (news' & Hms & Hr & He). cbn [app] in Hms. exists news'.
    rewrite fmap_app, Hms. split; [done|].
    split; [|destruct He as [?|He]; [by left|right]]; intros more Hm; rewrite <- app_assoc;
      [apply Hr|apply He]; by apply bytes_ok_app.
Qed.
End loop.
