(* ===== verification/ProtocolSpec.v ===== *)
(** * What the protocol handler delivers

    [ref_frame] is a receiver with no incremental validation: it keeps the
    fragments received so far and looks at the whole text.  The handler of
    [Protocol] is proved to follow it frame by frame, whatever mixture of validated and raw calls it is
    driven by, so that messages do not depend on read boundaries and no validated call ever
    delivers text that is not UTF-8. *)

From stdpp Require Import base list strings.
From S2P Require Import Prelude Error Mask Utf8 Frame FrameSpec Protocol ReceiveSpec.
Import Protocol.
Import (notations) FrameParser.

(** ** Reference receiver *)

(** The message being reassembled: its opcode and the bytes so far. *)
Abbreviation fragments := (option (OpCode * bytes)).

Definition data_message (o : OpCode) (d : bytes) : Message.t :=
  if bool_decide (o = Text) then Message.Text d else Message.Binary d.

(** Text is acceptable when it is UTF-8, or may become UTF-8 if more is to come. *)
Definition text_ok (validate : bool) (o : OpCode) (d : bytes) (final : bool) : bool :=
  if validate && bool_decide (o = Text) then
    match scan d with
    | Some p => negb final || bool_decide (p = [])
    | None => false
    end
  else true.

Section reference.
Context {SU : Simdutf8}.

Definition ref_data (max : Z) (validate : bool) (o : OpCode) (d : bytes) (final : bool) :
    result (fragments * option Message.t) :=
  if max <? len d then Err MessageTooLarge
  else if negb (text_ok validate o d final) then Err InvalidUtf8
  else if final then Ok (None, Some (data_message o d))
  else Ok (Some (o, d), None).

Definition ref_frame (max : Z) (validate : bool) (fr : fragments) (f : Frame) :
    result (fragments * option Message.t) :=
  match opcode (header f), fr with
  | Continuation, None => Err (ProtocolError "unexpected continuation frame")
  | Continuation, Some (o, d) => ref_data max validate o (d ++ payload f) (fin (header f))
  | Text, None => ref_data max validate Text (payload f) (fin (header f))
  | Binary, None => ref_data max validate Binary (payload f) (fin (header f))
  | Text, Some _ | Binary, Some _ => Err (ProtocolError "expected continuation frame")
  | Close, _ => match close_reason (payload f) with
                | Ok r => Ok (fr, Some (Message.Close r))
                | Err e => Err e
                end
  | Ping, _ => Ok (fr, Some (Message.Ping (payload f)))
  | Pong, _ => Ok (fr, Some (Message.Pong (payload f)))
  end.
End reference.

(** ** The handler follows the reference receiver *)

Definition acc (fr : fragments) : bytes := match fr with Some (_, d) => d | None => [] end.

(** The reassembly fields stand for [fr]; of a text, a prefix is known to be UTF-8. *)
Record holds (p : t) (fr : fragments) : Prop := {
  h_utf8 : Utf8StreamFacts.wf (utf8 p);
  h_opcode : fragment_opcode p = fst <$> fr;
  h_data : forall o d, fr = Some (o, d) -> fragment_buf p = d /\ (o = Text \/ o = Binary);
  h_prefix : forall d, fr = Some (Text, d) ->
    0 <= fragment_validated_len p <= len d /\ str_from_utf8 (upto (fragment_validated_len p) d) = true
}.

(** Settings that no handler changes. *)
Definition same_cfg (p q : t) : Prop :=
  validate_text_utf8 p = validate_text_utf8 q /\ role p = role q /\ max_message_size p = max_message_size q /\
  parser p = parser q /\ partial_checked p = partial_checked q.

#[global] Instance same_cfg_preorder : PreOrder same_cfg.
Proof. split; [done|]. intros p q r (? & ? & ? & ? & ?) (? & ? & ? & ? & ?). split_and!; congruence. Qed.

(** The first [k] bytes of the payload of a text frame went through the validator. *)
Definition checked (p : t) (fr : fragments) (o : OpCode) (k : Z) (d : bytes) : Prop :=
  k = 0 \/ (0 < k <= len d /\ validate_text_utf8 p = true /\
            ((o = Text /\ fr = None) \/ (o = Continuation /\ exists d0, fr = Some (Text, d0))) /\
            scan (acc fr ++ upto k d) = Some (Utf8Stream.held (utf8 p))).

Section handler.
Context {SU : Simdutf8} {SUok : Simdutf8Spec}.

(** A validator call on bytes [x] after text [a]. *)
Definition utf8_post (p : t) (text : bytes) (r : comp t bool) : Prop :=
  match scan text with
  | Some h => exists u, r = Done (set_utf8 u p) (Ok true) /\ Utf8StreamFacts.wf u /\ Utf8Stream.held u = h
  | None => exists p', r = Done p' (Ok false)
  end.

Lemma on_utf8_post p before x m : Utf8StreamFacts.push_post before x m ->
  utf8_post p (before ++ x) (on_utf8 p m).
Proof.
  unfold Utf8StreamFacts.push_post, utf8_post. destruct (scan _).
  - intros (u & -> & Hwf & Hh). by exists u.
  - intros (u & ->). by exists (set_utf8 u p).
Qed.

Lemma utf8_push_post p a x : Utf8StreamFacts.wf (utf8 p) -> scan a = Some (Utf8Stream.held (utf8 p)) ->
  utf8_post p (a ++ x) (utf8_push p x).
Proof.
  intros Hwf Ha. pose proof (on_utf8_post p _ _ _ (Utf8StreamFacts.push_spec (utf8 p) x Hwf)) as H.
  unfold utf8_post in *. rewrite scan_app, Ha. exact H.
Qed.

Lemma resume_post p d : holds p (Some (Text, d)) -> utf8_post p d (resume_fragment p).
Proof.
  intros [Hwf _ Hd Hp]. destruct (Hd Text d eq_refl) as [Hb _]. destruct (Hp d eq_refl) as [Hl Hv].
  unfold resume_fragment. rewrite Hb. ztrue (fragment_validated_len p <=? len d). cbn [assert_or_panic].
  pose proof (on_utf8_post p [] _ _ (Utf8StreamFacts.resume_spec (utf8 p) (from (fragment_validated_len p) d) Hwf)) as H.
  assert (E : scan d = scan (from (fragment_validated_len p) d)).
  { rewrite <- (upto_from (fragment_validated_len p) d) at 1. by apply scan_valid_app. }
  unfold utf8_post in *. cbn [app] in H. by rewrite E.
Qed.

(** Validation of a whole frame payload, the first [k] bytes of which were pushed before. *)
Lemma push_rest_post p a k d : Utf8StreamFacts.wf (utf8 p) -> 0 <= k ->
  scan (a ++ upto (Z.min k (len d)) d) = Some (Utf8Stream.held (utf8 p)) ->
  utf8_post p (a ++ d) (utf8_push p (from (Z.min k (len d)) d)).
Proof.
  intros Hwf Hk Hs. pose proof (utf8_push_post p _ (from (Z.min k (len d)) d) Hwf Hs) as H.
  by rewrite <- app_assoc, upto_from in H.
Qed.

Definition frame_post (p : t) (spec : result (fragments * option Message.t)) (r : comp t (option Message.t)) : Prop :=
  match spec with
  | Ok (fr', m) => exists p', r = Done p' (Ok m) /\ holds p' fr' /\ same_cfg p p'
  | Err e => exists p', r = Done p' (Err e)
  end.

Lemma held_nil_finish u : Utf8StreamFacts.wf u -> Utf8Stream.finish u = bool_decide (Utf8Stream.held u = []).
Proof.
  intros Hwf. pose proof (Utf8StreamFacts.held_len u Hwf) as Hl. unfold Utf8Stream.finish.
  destruct (Z.eqb_spec (Utf8Stream.carry_len u) 0) as [E|E]; symmetry.
  - apply bool_decide_eq_true_2, len_0_nil. lia.
  - apply bool_decide_eq_false_2. intros H. rewrite H, len_nil in Hl. lia.
Qed.

(** The validator state a handler starts a text frame with. *)
Lemma checked_text p fr o k d : holds p fr -> checked p fr o k d -> k <> 0 ->
  validate_text_utf8 p = true /\ 0 < k <= len d /\ Z.min k (len d) = k /\
  scan (acc fr ++ upto k d) = Some (Utf8Stream.held (utf8 p)).
Proof. intros _ [?|(? & ? & _ & ?)] ?; [done|]. split_and!; try done; lia. Qed.

(** Text validated in full leaves a record of the validated prefix. *)
Lemma holds_text p u d h : Utf8StreamFacts.wf u -> Utf8Stream.held u = h -> scan d = Some h ->
  fragment_opcode p = Some Text -> fragment_buf p = d -> utf8 p = u ->
  exists p', record_validated p = Done p' (Ok tt) /\ holds p' (Some (Text, d)) /\ same_cfg p p'.
Proof.
  intros Hwf <- (q & E & Hq & _)%scan_split Ho Hb Hu. unfold record_validated, Utf8Stream.pending.
  pose proof (Utf8StreamFacts.held_len u Hwf) as Hl. rewrite Hu, <- Hl, Hb.
  assert (Hlen : len d = len q + len (Utf8Stream.held u)) by (by rewrite <- len_app, <- E).
  pose proof (len_nonneg q). ztrue (len (Utf8Stream.held u) <=? len d). cbn [assert_or_panic].
  eexists. split; [done|]. split; [|done]. split; cbn; rewrite ?Hu; try done.
  - intros o d' [= <- <-]. split; [done|by left].
  - intros d' [= <-]. split; [pose proof (len_nonneg (Utf8Stream.held u)); lia|].
    replace (len d - len (Utf8Stream.held u)) with (len q) by lia. by rewrite E, upto_app_exact.
Qed.

Lemma complete_data_post p o d k : holds p None -> checked p None Text k d \/ (k = 0 /\ o = Binary) ->
  o = Text \/ o = Binary ->
  frame_post p (ref_data (max_message_size p) (validate_text_utf8 p) o d true)
    (map_some (handle_complete_data p o d k)).
Proof.
  intros Hh Hc Ho. pose proof Hh as [Hwf Hop _ _]. unfold handle_complete_data, ref_data, ensure_message_size.
  rewrite bool_decide_eq_true_2 by done. cbn [negb].
  destruct (max_message_size p <? len d); [by exists p|].
  unfold text_ok. destruct (decide (o = Text)) as [->|Hne].
  2:{ rewrite !bool_decide_eq_false_2, andb_false_r by done. cbn. unfold data_message.
      rewrite bool_decide_eq_false_2 by done. by exists p. }
  rewrite !bool_decide_eq_true_2, andb_true_r by done.
  destruct (validate_text_utf8 p) eqn:Ev; [|by exists p].
  destruct Hc as [Hc|[_ ?]]; [|done]. destruct (Z.eqb_spec k 0) as [->|Hk].
  { unfold validate_utf8. rewrite basic_from_utf8_spec. pose proof (scan_valid d) as Hsv.
    destruct (scan d) as [h|], (str_from_utf8 d); cbn; try destruct (bool_decide_reflect (h = [])); subst;
      try (by exists p); try (by destruct Hsv as [Hsv _]; specialize (Hsv eq_refl); simplify_eq);
      by destruct Hsv as [_ Hsv]; specialize (Hsv eq_refl). }
  destruct (checked_text _ _ _ _ _ Hh Hc Hk) as (_ & Hkl & Hmin & Hs). cbn [acc app] in Hs.
  pose proof (push_rest_post p [] k d Hwf ltac:(lia)) as Hpost. rewrite Hmin in *. specialize (Hpost Hs).
  unfold utf8_post in Hpost. cbn [app] in Hpost. destruct (scan d) as [h|].
  - destruct Hpost as (u & -> & Hu & Hheld). cbn [run_bind map_some utf8 set_utf8].
    rewrite held_nil_finish, Hheld by done. destruct (bool_decide (h = [])); cbn; [|by eexists].
    eexists. split; [done|]. split; [|done]. by split.
  - destruct Hpost as (p' & ->). by exists p'.
Qed.

(** [let! (p, _) := m in Done p (Ok None)] *)
Definition unit_post (p : t) (spec : result (fragments * option Message.t)) (r : comp t unit) : Prop :=
  frame_post p spec (let! (p, _u) := r in Done p (Ok None)).

Lemma holds_utf8 p fr u : holds p fr -> Utf8StreamFacts.wf u -> holds (set_utf8 u p) fr.
Proof. intros [? ? ? ?] Hu. by split. Qed.

Lemma start_fragment_post p o d k : holds p None -> checked p None Text k d \/ (k = 0 /\ o = Binary) ->
  o = Text \/ o = Binary -> validate_text_utf8 p = true \/ o = Binary ->
  unit_post p (ref_data (max_message_size p) (validate_text_utf8 p) o d false) (start_fragment p o d k).
Proof.
  intros Hh Hc Ho Hval. pose proof Hh as [Hwf Hop _ _]. unfold unit_post, start_fragment, ref_data.
  destruct (max_message_size p <? len d); [by exists p|]. unfold text_ok.
  destruct Ho as [-> | ->].
  2:{ rewrite andb_false_r. cbn. eexists. split; [done|]. split; [|done].
      split; cbn; try done. intros o' d' [= <- <-]. split; [done|by right]. }
  destruct Hval as [Hval|?]; [|done]. rewrite Hval. cbn [andb]. rewrite !bool_decide_eq_true_2 by done.
  destruct Hc as [Hc|[_ ?]]; [|done].
  assert (Hpost : exists q, utf8_post q d (utf8_push (if k =? 0 then set_utf8 (Utf8Stream.reset (utf8 p)) p else p)
             (from (Z.min k (len d)) d)) /\ forall u, set_utf8 u q = set_utf8 u p).
  { destruct (Z.eqb_spec k 0) as [->|Hk].
    - exists (set_utf8 (Utf8Stream.reset (utf8 p)) p). split; [|done].
      apply (push_rest_post _ []); [by apply Utf8StreamFacts.wf_reset|lia|].
      rewrite Z.min_l by apply len_nonneg. by rewrite upto_0.
    - exists p. split; [|done]. destruct (checked_text _ _ _ _ _ Hh Hc Hk) as (_ & Hkl & Hmin & Hs).
      apply (push_rest_post _ []); [done|lia|]. by rewrite Hmin. }
  destruct Hpost as (q & Hpost & Hq). unfold utf8_post in Hpost. destruct (scan d) as [h|] eqn:Es.
  - destruct Hpost as (u & -> & Hu & Hheld). cbn [check_utf8 run_bind negb orb].
    destruct (holds_text (set_fragment d (Some Text) (set_utf8 u q)) u d h) as (p' & -> & Hp' & Hcfg); try done.
    exists p'. split; [done|]. split; [done|]. rewrite Hq in Hcfg. exact Hcfg.
  - destruct Hpost as (p' & ->). by exists p'.
Qed.

Lemma start_raw_fragment_post p o d : holds p None -> o = Text \/ o = Binary ->
  unit_post p (ref_data (max_message_size p) false o d false) (start_raw_fragment p o d).
Proof.
  intros [Hwf Hop _ _] Ho. unfold unit_post, start_raw_fragment, ref_data.
  destruct (max_message_size p <? len d); [by exists p|]. cbn. eexists. split; [done|]. split; [|done].
  split; cbn; try done.
  - intros o' d' [= <- <-]. done.
  - intros d' [= -> <-]. split; [pose proof (len_nonneg d); lia|]. by rewrite upto_0.
Qed.

(** A raw handler, with its message read as a typed one. *)
Definition as_message (m : RawMessage.t) : Message.t :=
  match m with
  | RawMessage.Text b => Message.Text b
  | RawMessage.Binary b => Message.Binary b
  | RawMessage.Ping b => Message.Ping b
  | RawMessage.Pong b => Message.Pong b
  | RawMessage.Close r => Message.Close r
  end.
Definition as_typed (r : comp t (option RawMessage.t)) : comp t (option Message.t) :=
  let! (p, m) := r in Done p (Ok (as_message <$> m)).

(** Data handlers never reach the [unreachable!] arm. *)
Lemma map_raw_data_post p spec r : (forall fr m, spec = Ok (fr, Some m) -> Message.is_control m = false) ->
  frame_post p spec (as_typed r) -> frame_post p spec (map_raw_data r).
Proof.
  intros Hdata. unfold frame_post, as_typed, map_raw_data.
  destruct r as [q [[m|]|e]| |]; cbn; try done.
  destruct spec as [[fr' m']|e]; [|by intros (? & ?)].
  intros (p' & E & H). injection E as <- <-. specialize (Hdata fr' (as_message m) eq_refl).
  exists q. by destruct m.
Qed.

Lemma raw_data_post p o d final : holds p None -> o = Text \/ o = Binary ->
  frame_post p (ref_data (max_message_size p) false o d final)
    (as_typed (if final then
       match ensure_message_size (len d) (max_message_size p) with
       | Err e => Done p (Err e)
       | Ok _ => Done p (Ok (Some (if bool_decide (o = Text) then RawMessage.Text d else RawMessage.Binary d)))
       end
     else let! (p, _u) := start_raw_fragment p o d in Done p (Ok None))).
Proof.
  intros Hh Ho. destruct final.
  - unfold ref_data, ensure_message_size. destruct (_ <? _); [by exists p|].
    exists p. split; [by destruct Ho as [-> | ->]|]. done.
  - pose proof (start_raw_fragment_post p o d Hh Ho) as H. unfold unit_post in H.
    by destruct (start_raw_fragment p o d) as [? [?|?]| |].
Qed.

Lemma raw_continuation_post p fr f : holds p fr ->
  frame_post p (match fr with
                | None => Err (ProtocolError "unexpected continuation frame")
                | Some (o, d) => ref_data (max_message_size p) false o (d ++ payload f) (fin (header f))
                end) (as_typed (handle_raw_continuation p f)).
Proof.
  intros [Hwf Hop Hd Hp]. unfold handle_raw_continuation. rewrite Hop.
  destruct fr as [[o d]|]; cbn [fmap option_fmap option_map fst]; [|by exists p].
  destruct (Hd o d eq_refl) as [-> Ho]. unfold ref_data. rewrite len_app.
  destruct (max_message_size p <? _); [by exists p|]. cbn [text_ok andb negb].
  destruct (fin (header f)).
  - destruct Ho as [-> | ->]; cbn; eexists; (split; [done|]); by split.
  - cbn. eexists. split; [done|]. split; [|done]. split; cbn; try done.
    + intros o' d' [= <- <-]. done.
    + intros d' [= -> <-]. destruct (Hp d eq_refl) as [Hl Hv]. rewrite len_app.
      pose proof (len_nonneg (payload f)). split; [lia|]. by rewrite upto_app_le by lia.
Qed.

(** Validation of a continuation, ahead of storing it. *)
Lemma continuation_check_post p d k x : holds p (Some (Text, d)) -> validate_text_utf8 p = true ->
  checked p (Some (Text, d)) Continuation k x ->
  let push p := check_utf8 (utf8_push p (from (Z.min k (len x)) x)) (fun p => Done p (Ok tt)) in
  let r := if k =? 0 then check_utf8 (resume_fragment p) push else push p in
  match scan (d ++ x) with
  | Some h => exists u, r = Done (set_utf8 u p) (Ok tt) /\ Utf8StreamFacts.wf u /\ Utf8Stream.held u = h
  | None => exists p', r = Done p' (Err InvalidUtf8)
  end.
Proof.
  intros Hh Hval Hc push r.
  assert (Hpush : forall q, Utf8StreamFacts.wf (utf8 q) -> 0 <= k -> (forall u, set_utf8 u q = set_utf8 u p) ->
    scan (d ++ upto (Z.min k (len x)) x) = Some (Utf8Stream.held (utf8 q)) ->
    match scan (d ++ x) with
    | Some h => exists u, push q = Done (set_utf8 u p) (Ok tt) /\ Utf8StreamFacts.wf u /\ Utf8Stream.held u = h
    | None => exists p', push q = Done p' (Err InvalidUtf8)
    end).
  { intros q Hwf Hk Hq Hs. pose proof (push_rest_post q d k x Hwf Hk Hs) as H. unfold utf8_post in H.
    unfold push. destruct (scan (d ++ x)).
    - destruct H as (u & -> & Hu & Hheld). exists u. by rewrite Hq.
    - destruct H as (p' & ->). by exists p'. }
  subst r. destruct (Z.eqb_spec k 0) as [->|Hk].
  - pose proof (resume_post p d Hh) as H. unfold utf8_post in H. destruct (scan d) as [h|] eqn:Es.
    + destruct H as (u & -> & Hu & Hheld). cbn [check_utf8 run_bind negb]. apply Hpush; try done; [].
      rewrite Z.min_l by apply len_nonneg. rewrite upto_0, app_nil_r. cbn. by rewrite Hheld.
    + destruct H as (p' & ->). rewrite scan_none_app by done. by exists p'.
  - destruct (checked_text _ _ _ _ _ Hh Hc Hk) as (_ & Hkl & Hmin & Hs). apply Hpush; try done.
    + apply Hh.
    + lia.
    + by rewrite Hmin.
Qed.

Lemma continuation_post p fr f k : holds p fr -> checked p fr Continuation k (payload f) ->
  frame_post p (match fr with
                | None => Err (ProtocolError "unexpected continuation frame")
                | Some (o, d) => ref_data (max_message_size p) (validate_text_utf8 p) o (d ++ payload f) (fin (header f))
                end) (handle_continuation p f k).
Proof.
  intros Hh Hc. unfold handle_continuation. destruct (validate_text_utf8 p) eqn:Hval; cbn [negb].
  2:{ apply map_raw_data_post; [|by apply raw_continuation_post]. destruct fr as [[o d]|]; [|done].
      unfold ref_data. intros fr' m. destruct (_ <? _); [done|]. cbn. destruct (fin _); [|done].
      intros [= <- <-]. unfold data_message. by case_bool_decide. }
  pose proof Hh as [Hwf Hop Hd Hp]. rewrite Hop.
  destruct fr as [[o d]|]; cbn [fmap option_fmap option_map fst]; [|by exists p].
  destruct (Hd o d eq_refl) as [Hb Ho]. rewrite Hb. unfold ref_data. rewrite len_app.
  destruct (max_message_size p <? _); [by exists p|]. unfold text_ok.
  destruct Ho as [-> | ->].
  2:{ rewrite !bool_decide_eq_false_2 by done. cbn. rewrite Hb. destruct (fin (header f)); cbn.
      - eexists. split; [done|]. by split.
      - eexists. split; [done|]. split; [|done]. split; cbn; try done. intros o' d' [= <- <-]. split; [done|by right]. }
  rewrite !bool_decide_eq_true_2 by done. cbn [andb].
  pose proof (continuation_check_post p d k (payload f) Hh Hval Hc) as H. cbn zeta in H.
  destruct (scan (d ++ payload f)) as [h|] eqn:Es; [|destruct H as (p' & ->); by exists p'].
  destruct H as (u & -> & Hu & Hheld). cbn [run_bind fragment_buf set_utf8 fragment_opcode]. rewrite Hb.
  destruct (fin (header f)); cbn [negb orb].
  - unfold complete_fragment. cbn [fragment_buf set_fragment set_utf8 utf8].
    rewrite held_nil_finish, Hheld by done. destruct (bool_decide (h = [])); cbn; [|by eexists].
    eexists. split; [done|]. by split.
  - destruct (holds_text (set_fragment (d ++ payload f) (fragment_opcode p) (set_utf8 u p)) u (d ++ payload f) h)
      as (p' & -> & Hp' & Hcfg); try done. by exists p'.
Qed.

Lemma close_post p fr f : holds p fr ->
  frame_post p (match close_reason (payload f) with
                | Ok r => Ok (fr, Some (Message.Close r))
                | Err e => Err e
                end) (handle_close p f).
Proof.
  intros [Hwf Hop Hd Hp]. unfold handle_close. destruct (close_reason (payload f)) as [r|e]; [|by exists p].
  cbn. eexists. split; [done|]. destruct (state p); by split.
Qed.

(** The opcode of a frame whose payload was checked ahead of time. *)
Lemma handle_frame_post p fr f k : holds p fr -> checked p fr (opcode (header f)) k (payload f) ->
  frame_post p (ref_frame (max_message_size p) (validate_text_utf8 p) fr f) (handle_frame p f k).
Proof.
  intros Hh Hc. unfold handle_frame, ref_frame. pose proof (h_opcode _ _ Hh) as Hop.
  destruct (opcode (header f)).
  - by apply continuation_post.
  - unfold handle_text. destruct fr as [[o d]|].
    { cbn in Hop. unfold handle_complete_data, handle_raw_text. rewrite Hop. rewrite bool_decide_eq_false_2 by done.
      destruct (fin (header f)), (validate_text_utf8 p); by exists p. }
    destruct (fin (header f)) eqn:Ef; [apply complete_data_post; auto|].
    rewrite Hop. rewrite bool_decide_eq_true_2 by done. destruct (validate_text_utf8 p) eqn:Hval; cbn [negb].
    + rewrite <- Hval. apply start_fragment_post; auto.
    + apply map_raw_data_post.
      { intros fr' m. unfold ref_data. destruct (_ <? _); [done|]. by cbn. }
      unfold handle_raw_text. rewrite Hop, bool_decide_eq_true_2, Ef by done. cbn [negb].
      by apply (raw_data_post p Text (payload f) false); [|left].
  - unfold handle_binary. destruct fr as [[o d]|].
    { cbn in Hop. unfold handle_complete_data. rewrite Hop. rewrite bool_decide_eq_false_2 by done.
      destruct (fin (header f)); by exists p. }
    destruct (fin (header f)) eqn:Ef; [apply complete_data_post; auto|].
    rewrite Hop. rewrite bool_decide_eq_true_2 by done. cbn [negb]. apply start_fragment_post; auto.
  - by apply close_post.
  - by exists p.
  - by exists p.
Qed.

Lemma handle_raw_frame_post p fr f : holds p fr ->
  frame_post p (ref_frame (max_message_size p) false fr f) (as_typed (handle_raw_frame p f)).
Proof.
  intros Hh. unfold handle_raw_frame, ref_frame. pose proof (h_opcode _ _ Hh) as Hop.
  destruct (opcode (header f)).
  - by apply raw_continuation_post.
  - unfold handle_raw_text. rewrite Hop. destruct fr as [[o d]|]; [by exists p|].
    by apply (raw_data_post p Text (payload f) (fin (header f))); [|left].
  - unfold handle_raw_binary. rewrite Hop. destruct fr as [[o d]|]; [by exists p|].
    by apply (raw_data_post p Binary (payload f) (fin (header f))); [|right].
  - pose proof (close_post p fr f Hh) as H. unfold handle_close in *.
    by destruct (close_reason (payload f)).
  - by exists p.
  - by exists p.
Qed.
End handler.

(** ** Both receive loops follow the reference receiver *)

(** A frame whose payload is text, given what is being reassembled. *)
Definition text_frame (fr : fragments) (o : OpCode) : Prop :=
  (o = Text /\ fr = None) \/ (o = Continuation /\ exists d, fr = Some (Text, d)).

Record sim (max : Z) (validate : bool) (pol : policy) (p : t) (buf raw : bytes) (fr : fragments) : Prop := {
  s_views : views (parser p) buf raw;
  s_pol : policy_of (parser p) = pol;
  s_max : max_message_size p = max;
  s_validate : validate_text_utf8 p = validate;
  s_holds : holds p fr;
  s_checked : 0 <= partial_checked p;
  (** the part of the payload under way that the validator has seen *)
  s_partial : 0 < partial_checked p -> validate = true /\ exists h,
    FrameParser.state (parser p) = PPayload /\ FrameParser.hdr (parser p) = Some h /\
    text_frame fr (opcode h) /\ partial_checked p <= FrameParser.payload_ready (parser p) /\
    scan (acc fr ++ upto (partial_checked p) buf) = Some (Utf8Stream.held (utf8 p))
}.

Lemma views_ready p buf raw : views p buf raw -> FrameParser.state p = PPayload ->
  FrameParser.payload_ready p <= len buf.
Proof.
  intros Hv Hs. by destruct (v_view _ _ _ Hv) as [Hs'|? ? ? Hs'|? ? ? Hs'|? Hs'|? ? Hs']; try (rewrite Hs' in Hs).
Qed.

Section follows.
Context {SU : Simdutf8} {SUok : Simdutf8Spec}.
Context (arch : Arch) (slice_addr : bytes -> Z) (Harch : arch_ok arch) (max : Z) (validate : bool) (pol : policy).

Lemma sim_more p buf raw fr more : sim max validate pol p buf raw fr -> bytes_ok more ->
  sim max validate pol p (buf ++ more) (raw ++ more) fr.
Proof.
  intros [Hv Hp Hm Hval Hh Hc Hpart] Hok. split; try done; [by apply views_app|].
  intros Hk. destruct (Hpart Hk) as (Hvt & h & Hs & Hh' & Ht & Hle & Hsc).
  split; [done|]. exists h. split_and!; try done. pose proof (views_ready _ _ _ Hv Hs).
  by rewrite upto_app_le by lia.
Qed.

(** A completed frame begins with the bytes that were checked. *)
Lemma sim_frame_checked p buf raw fr ps f rest : sim max validate pol p buf raw fr ->
  spec_parse pol raw = Got f rest ->
  checked (set_partial_checked 0 (set_parser ps p)) fr (opcode (header f)) (partial_checked p) (payload f).
Proof.
  intros [Hv Hp Hm Hval Hh Hc Hpart] E. destruct (decide (partial_checked p = 0)) as [?|Hk]; [by left|right].
  destruct Hpart as (Hvt & h & Hs & Hh' & Ht & Hle & Hsc); [lia|].
  rewrite <- Hp in E. destruct (payload_future _ _ _ h [] f rest Hv Hs Hh') as (-> & Hup & Hl);
    [by rewrite app_nil_r|].
  split_and!; [lia|lia|cbn; congruence|done|].
  rewrite <- (upto_upto _ (FrameParser.payload_ready (parser p)) (payload f)), Hup, upto_upto by lia. done.
Qed.

Lemma frame_post_sim p q fr f rest ps res : frame_post q (ref_frame max validate fr f) res ->
  same_cfg q (set_partial_checked 0 (set_parser ps p)) ->
  fresh ps -> policy_of ps = pol -> bytes_ok rest -> max_message_size p = max ->
  forall v, validate_text_utf8 p = v ->
  match ref_frame max validate fr f with
  | Ok (fr', m) => exists s', res = Done s' (Ok m) /\ sim max v pol s' rest rest fr'
  | Err e => exists s', res = Done s' (Err e)
  end.
Proof.
  intros H Hcfg Hfr Hpol Hok Hmax v Hv. unfold frame_post in H.
  destruct (ref_frame max validate fr f) as [[fr' m]|e]; [|done].
  destruct H as (p' & -> & Hh & Hc). exists p'. split; [done|].
  destruct Hcfg as (E1 & E2 & E3 & E4 & E5), Hc as (C1 & C2 & C3 & C4 & C5). cbn in *.
  assert (Hps : parser p' = ps) by congruence. assert (H0 : partial_checked p' = 0) by congruence.
  split; try congruence; rewrite ?Hps; try done; [by apply fresh_views|lia|lia].
Qed.

Lemma holds_irrelevant p fr ps k : holds p fr -> holds (set_partial_checked k (set_parser ps p)) fr.
Proof. intros [? ? ? ?]. by split. Qed.

(** Text that cannot become UTF-8 makes the frame that carries it fail. *)
Lemma hopeless_text p buf raw fr h n : sim max true pol p buf raw fr ->
  FrameParser.state (parser p) = PPayload -> FrameParser.hdr (parser p) = Some h -> text_frame fr (opcode h) ->
  0 <= n <= FrameParser.payload_ready (parser p) -> scan (acc fr ++ upto n buf) = None ->
  hopeless (ref_frame max true) pol fr raw.
Proof.
  intros [Hv Hp _ _ Hh _ _] Hs Hh' Ht Hn Hsc more f rest Hm E. rewrite <- Hp in E.
  destruct (payload_future _ _ _ h more f rest Hv Hs Hh' E) as (Ehd & Hup & Hl).
  assert (Hnone : scan (acc fr ++ payload f) = None).
  { rewrite <- (upto_from n (payload f)), <- (upto_upto n (FrameParser.payload_ready (parser p)) (payload f)) by lia.
    rewrite Hup, upto_upto, app_assoc by lia. by apply scan_none_app. }
  assert (Hdata : forall final, exists e, ref_data max true Text (acc fr ++ payload f) final = Err e).
  { intros final. unfold ref_data, text_ok. rewrite Hnone. destruct (_ <? _); eauto. }
  unfold ref_frame. rewrite Ehd. by destruct Ht as [[-> ->]|[-> [d ->]]]; apply Hdata.
Qed.

Lemma sim_utf8 v p buf raw fr u k h : sim max v pol p buf raw fr -> v = true -> Utf8StreamFacts.wf u ->
  FrameParser.state (parser p) = PPayload -> FrameParser.hdr (parser p) = Some h -> text_frame fr (opcode h) ->
  0 <= k <= FrameParser.payload_ready (parser p) ->
  scan (acc fr ++ upto k buf) = Some (Utf8Stream.held u) ->
  sim max v pol (set_partial_checked k (set_utf8 u p)) buf raw fr.
Proof.
  intros [Hv Hp Hm Hval Hh _ _] -> Hu Hs Hhd Ht Hk Hsc. split; try done; cbn; [|lia|].
  - by destruct Hh.
  - intros _. split; [done|]. exists h. split_and!; try done. lia.
Qed.

(** The end of [prevalidate_partial_text], with the validator at position [partial_checked]. *)
Lemma prevalidate_rest_post p q buf raw fr h : sim max true pol p buf raw fr ->
  FrameParser.state (parser p) = PPayload -> FrameParser.hdr (parser p) = Some h -> text_frame fr (opcode h) ->
  (exists u, q = set_utf8 u p /\ Utf8StreamFacts.wf u /\
             scan (acc fr ++ upto (partial_checked p) buf) = Some (Utf8Stream.held u)) ->
  partial_checked p <= FrameParser.payload_ready (parser p) ->
  let ready := Z.min (FrameParser.payload_ready (parser p)) (len buf) in
  let r := assert! (partial_checked q <=? ready);
           check_utf8 (utf8_push q (from (partial_checked q) (upto ready buf)))
             (fun p => Done (set_partial_checked ready p) (Ok tt)) in
  (exists p', r = Done p' (Ok tt) /\ sim max true pol p' buf raw fr) \/
  (exists p', r = Done p' (Err InvalidUtf8) /\ hopeless (ref_frame max true) pol fr raw).
Proof.
  intros Hsim Hs Hh' Ht (u0 & -> & Hwf & Hsc) Hk ready r. pose proof Hsim as [Hv _ _ _ Hh Hc _].
  pose proof (views_ready _ _ _ Hv Hs) as Hrl.
  assert (Er : ready = FrameParser.payload_ready (parser p)) by (unfold ready; lia).
  subst r. cbn [partial_checked set_utf8]. ztrue (partial_checked p <=? ready). cbn [assert_or_panic].
  pose proof (utf8_push_post (set_utf8 u0 p) _ (from (partial_checked p) (upto ready buf)) Hwf Hsc) as Hpush.
  rewrite <- (upto_upto (partial_checked p) ready buf), <- app_assoc, upto_from in Hpush by lia.
  unfold utf8_post in Hpush. destruct (scan (acc fr ++ upto ready buf)) as [hl|] eqn:Esc.
  - left. destruct Hpush as (u & -> & Hu & Hheld). eexists. split; [done|].
    apply (sim_utf8 true p buf raw fr u ready h); try done; [lia|]. by rewrite Hheld.
  - right. destruct Hpush as (p' & ->). exists p'. split; [done|].
    apply (hopeless_text p buf raw fr h ready); try done. lia.
Qed.

Lemma prevalidate_post p buf raw fr : sim max validate pol p buf raw fr ->
  (exists p', prevalidate_partial_text p buf = Done p' (Ok tt) /\ sim max validate pol p' buf raw fr) \/
  (exists p', prevalidate_partial_text p buf = Done p' (Err InvalidUtf8) /\
              hopeless (ref_frame max validate) pol fr raw).
Proof.
  intros Hsim. pose proof Hsim as [Hv Hp Hm Hval Hh Hc Hpart]. unfold prevalidate_partial_text.
  rewrite Hval. destruct validate; cbn [negb]; [|left; by exists p].
  unfold FrameParser.pending_payload. case_bool_decide as Hs; cbn [negb]; [|left; by exists p].
  destruct (FrameParser.hdr (parser p)) as [h|] eqn:Hh'; [|left; by exists p].
  cbn [FrameParser.p_rsv1 FrameParser.p_ready FrameParser.p_opcode].
  destruct (_ || _) eqn:Er; [left; by exists p|]. apply orb_false_elim in Er as [_ Er%Z.leb_gt].
  destruct (match opcode h with Text => _ | _ => _ end) eqn:Et; cbn [negb]; [|left; by exists p].
  assert (Ht : text_frame fr (opcode h)).
  { rewrite (h_opcode _ _ Hh) in Et. unfold text_frame. destruct (opcode h); try done.
    - apply bool_decide_eq_true_1 in Et. destruct fr as [[o d]|]; [|done]. cbn in Et. injection Et as ->. eauto.
    - apply bool_decide_eq_true_1 in Et. by destruct fr as [[o d]|]; [|left]. }
  assert (Hmain := fun q Hq => prevalidate_rest_post p q buf raw fr h Hsim Hs Hh' Ht Hq ltac:(lia)).
  cbn zeta in Hmain. destruct (Z.eqb_spec (partial_checked p) 0) as [H0|H0].
  - destruct (bool_decide_reflect (opcode h = Continuation)) as [Eo|Eo].
    + destruct Ht as [[E _]|[_ [d ->]]]; [congruence|].
      pose proof (resume_post p d Hh) as Hres. unfold utf8_post in Hres. destruct (scan d) as [hl|] eqn:Es.
      * destruct Hres as (u & -> & Hu & Hheld). cbn [check_utf8 run_bind negb].
        apply Hmain. exists u. rewrite H0, upto_0, app_nil_r. cbn [acc]. by rewrite Hheld.
      * right. destruct Hres as (p' & ->). exists p'. split; [done|].
        apply (hopeless_text p buf raw _ h 0); try done; [right; eauto|pose proof (v_ready _ _ _ Hv); lia|].
        by rewrite upto_0, app_nil_r.
    + destruct Ht as [[_ ->]|[E _]]; [|congruence]. apply Hmain. eexists. split; [done|].
      split; [by apply Utf8StreamFacts.wf_reset, Hh|]. by rewrite H0, upto_0.
  - apply Hmain. destruct Hpart as (_ & h' & _ & _ & _ & _ & Hsc); [lia|].
    exists (utf8 p). split; [by destruct p|]. split; [apply Hh|done].
Qed.

(** The bytes checked stay in place when the parser takes in more. *)
Lemma sim_need p buf raw fr ps buf' : sim max validate pol p buf raw fr ->
  FrameParser.parse arch slice_addr (parser p) buf = Done (ps, buf') (Ok None) ->
  views ps buf' raw -> policy_of ps = pol -> sim max validate pol (set_parser ps p) buf' raw fr.
Proof.
  intros [Hv Hp Hm Hval Hh Hc Hpart] Ep Hv' Hp'. split; try done; [by destruct Hh|].
  cbn. intros Hk. destruct (Hpart Hk) as (Hvt & h & Hs & Hh' & Ht & Hle & Hsc).
  destruct (payload_grows arch slice_addr _ _ _ h _ _ Hv Hs Hh' Ep) as (Hs' & Hh2 & Hr & Hu).
  split; [done|]. exists h. split_and!; try done; [lia|].
  by rewrite <- (upto_upto _ (FrameParser.payload_ready (parser p)) buf'), Hu, upto_upto by lia.
Qed.

#[export] Instance typed_follows :
  Follows typed_receiver arch slice_addr id (ref_frame max validate) pol (sim max validate pol).
Proof.
  split.
  - intros s buf raw fr []. done.
  - intros. by apply sim_more.
  - intros p buf raw fr ps rest f Hsim Ep E Hfr Hpol Hok.
    pose proof (sim_frame_checked _ _ _ _ ps _ _ Hsim E) as Hck. pose proof Hsim as [Hv Hp Hm Hval Hh _ _].
    cbn [on_frame typed_receiver r_set_parser]. unfold take_and_handle.
    change (partial_checked (set_parser ps p)) with (partial_checked p).
    set (q := set_partial_checked 0 (set_parser ps p)) in *.
    pose proof (handle_frame_post q fr f (partial_checked p) (holds_irrelevant _ _ _ _ Hh) Hck) as H.
    change (max_message_size q) with (max_message_size p) in H.
    change (validate_text_utf8 q) with (validate_text_utf8 p) in H. rewrite Hm, Hval in H.
    pose proof (frame_post_sim p q fr f rest ps _ H ltac:(done) Hfr Hpol Hok Hm validate Hval) as H'.
    destruct (ref_frame max validate fr f) as [[fr' m]|e]; [|done].
    destruct H' as (s' & -> & Hs'). exists s', m. split_and!; try done. by destruct m.
  - intros p buf raw fr ps buf' Hsim Ep Hv' Hp' _. apply prevalidate_post. by eapply sim_need.
Qed.

#[export] Instance raw_follows :
  Follows raw_receiver arch slice_addr as_message (ref_frame max false) pol (sim max validate pol).
Proof.
  split.
  - intros s buf raw fr []. done.
  - intros. by apply sim_more.
  - intros p buf raw fr ps rest f Hsim Ep E Hfr Hpol Hok. pose proof Hsim as [Hv Hp Hm Hval Hh _ _].
    cbn [on_frame raw_receiver r_set_parser]. set (q := set_partial_checked 0 (set_parser ps p)) in *.
    pose proof (handle_raw_frame_post q fr f (holds_irrelevant _ _ _ _ Hh)) as H.
    change (max_message_size q) with (max_message_size p) in H. rewrite Hm in H.
    unfold frame_post, as_typed in H. destruct (ref_frame max false fr f) as [[fr' m]|e].
    + destruct H as (s' & E' & Hh' & Hc). destruct (handle_raw_frame q f) as [s2 [m'|e']| |]; try done.
      cbn in E'. injection E' as -> <-. exists s', m'. split_and!; try done.
      destruct Hc as (C1 & C2 & C3 & C4 & C5). cbn in *.
      split; try congruence; rewrite <- ?C4; try done; [by apply fresh_views|lia|lia].
    + destruct H as (s' & E'). destruct (handle_raw_frame q f) as [s2 [m'|e']| |]; try done.
      cbn in E'. injection E' as -> <-. by exists s'.
  - intros p buf raw fr ps buf' Hsim Ep Hv' Hp' _. left. eexists. split; [done|]. by eapply sim_need.
Qed.
End follows.

(** ** What is delivered *)

Definition initial_policy (r : Role) (max_frame_size : Z) : policy :=
  MkPolicy max_frame_size (bool_decide (r = Server)) false.

Lemma sim_new r mf mm v :
  sim mm v (initial_policy r mf) (with_text_utf8_validation v (new r mf mm)) [] [] None.
Proof. split; try done. apply fresh_views; [done|constructor]. Qed.

Lemma spec_parse_nil pol : spec_parse pol [] = Need.
Proof. done. Qed.

(** The messages of a call that returned, in terms of the reference. *)
Lemma received_news {S M F N : Type} (conv : M -> N) (spec : F -> Frame -> result (F * option N)) pol sm fr raw
    (res : comp (S * bytes * list M * bool) unit) : bytes_ok raw ->
  received conv spec pol sm [] fr raw res ->
  exists s buf ms a r, res = Done (s, buf, ms, a) r /\ conv <$> ms = fst (ref_run spec pol fr raw) /\
    match r with
    | Ok _ => exists fr', snd (ref_run spec pol fr raw) = Ok fr'
    | Err e => snd (ref_run spec pol fr raw) = Err e \/
        (e = InvalidUtf8 /\ forall more, bytes_ok more ->
           fst (ref_run spec pol fr (raw ++ more)) = fst (ref_run spec pol fr raw))
    end.
Proof.
  intros Hok H. destruct res as [[[[s buf] ms] a] r| |]; try (destruct H; done).
  exists s, buf, ms, a, r. split; [done|]. destruct r as [u|e].
  - destruct H as (fr' & raw' & news & Hms & _ & Hn & Hr). specialize (Hr [] ltac:(constructor)).
    rewrite app_nil_r in Hr.
    assert (Hlast : ref_run spec pol fr' (raw' ++ []) = ([], Ok fr')).
    { rewrite app_nil_r. unfold ref_run, spec_frames. destruct raw' as [|b raw']; [done|]. cbn [length spec_frames_fuel].
      by rewrite Hn. }
    rewrite Hr, Hlast. cbn. rewrite app_nil_r. eauto.
  - destruct H as (news & Hms & Hr & He). pose proof (Hr [] ltac:(constructor)) as Hr0. rewrite app_nil_r in Hr0.
    rewrite Hr0. split; [done|]. destruct He as [->|He]; [right|left].
    + split; [done|]. intros more Hm. by rewrite Hr.
    + specialize (He [] ltac:(constructor)). by rewrite app_nil_r in He.
Qed.

Section delivery.
Context {SU : Simdutf8} {SUok : Simdutf8Spec}.
Context (arch : Arch) (slice_addr : bytes -> Z).

(** Successive reads given to [process_into]. *)
Definition process_reads (p : t) (chunks : list bytes) : comp (t * bytes * list Message.t * bool) unit :=
  receive_all typed_receiver arch slice_addr p [] [] false chunks.

Lemma process_reads_post pol mm v p chunks : arch_ok arch -> bytes_ok (concat chunks) ->
  sim mm v pol p [] [] None ->
  received id (ref_frame mm v) pol (sim mm v pol) [] None (concat chunks) (process_reads p chunks).
Proof.
  intros Harch Hok Hsim. change (concat chunks) with ([] ++ concat chunks) at 1.
  by apply (receive_all_post typed_receiver arch slice_addr Harch id (ref_frame mm v) pol (sim mm v pol)
    p [] [] None []).
Qed.

(** [C26] However the transport cuts the byte stream into reads, the
    messages [process_into] delivers are those the reference receiver delivers
    for the whole stream; it returns an error exactly the reference returns, or
    reports invalid UTF-8 early, and then only when no continuation of the stream could have produced another message.
    It never panics and always returns. *)
Theorem messages_any_chunking r mf mm chunks : arch_ok arch -> bytes_ok (concat chunks) ->
  let ref more := ref_run (ref_frame mm true) (initial_policy r mf) None (concat chunks ++ more) in
  exists p buf a res,
    process_reads (new r mf mm) chunks = Done (p, buf, fst (ref []), a) res /\
    match res with
    | Ok _ => exists fr, snd (ref []) = Ok fr
    | Err e => snd (ref []) = Err e \/
        (e = InvalidUtf8 /\ forall more, bytes_ok more -> fst (ref more) = fst (ref []))
    end.
Proof.
  intros Harch Hok. cbn zeta. pose proof (process_reads_post _ mm true (new r mf mm) chunks Harch Hok (sim_new r mf mm true)) as H.
  apply received_news in H as (p & buf & ms & a & res & -> & Hms & Hres); [|done].
  rewrite list_fmap_id in Hms. subst ms. exists p, buf, a, res. rewrite !app_nil_r. done.
Qed.
End delivery.

Lemma messages_any_chunking_witness : exists p buf a res,
  process_reads (SU := simdutf8_std) test_arch (fun _ => 0) (new Client 100 100) [[0x01; 2; 0xC3]; [0xA9; 0x80; 1]; [33]] =
  Done (p, buf, [Message.Text [0xC3; 0xA9; 33]], a) res /\
  match res with Ok _ => exists fr : fragments, Ok None = Ok (E := Error) fr | Err e => False end.
Proof.
  destruct (messages_any_chunking (SU := simdutf8_std) (SUok := simdutf8_std_spec) test_arch (fun _ => 0) Client 100 100
    [[0x01; 2; 0xC3]; [0xA9; 0x80; 1]; [33]]) as (p & buf & a & res & E & H);
    [by vm_compute|by repeat constructor|].
  exists p, buf, a, res. split; [exact E|]. destruct res as [[]|e]; [by exists None|].
  vm_compute in E. discriminate E.
Defined.
