(* ===== verification/ProtocolProps.v ===== *)
(** * Properties of the protocol handler

    Safety of what is delivered under any mixture of validated and raw calls,
    equivalence of the one-message reader with the batch reader, the round
    trip between two endpoints, and the closing handshake. *)

From stdpp Require Import base list strings relations.
From S2P Require Import Prelude Error Mask Utf8 Frame FrameSpec Protocol ReceiveSpec ProtocolSpec.
Import Protocol.

(** ** Delivered messages *)

(** What every delivered message satisfies: the size limit, UTF-8 when validated, and close frames with a code
    that may be sent. *)
Definition good (max : Z) (validated : bool) (m : Message.t) : Prop :=
  match m with
  | Message.Text b => len b <= max /\ (validated = true -> str_from_utf8 b = true)
  | Message.Binary b => len b <= max
  | Message.Close (Some r) => CloseReason.is_valid_code (CloseReason.code r) = true /\
                              str_from_utf8 (CloseReason.reason r) = true
  | _ => True
  end.

(** One call on the connection: a read processed through the typed or the raw API. *)
Inductive call := Typed (c : bytes) | Raw (c : bytes).
Inductive delivered := DTyped (m : Message.t) | DRaw (m : RawMessage.t).

Definition call_bytes (c : call) : bytes := match c with Typed c | Raw c => c end.
Definition delivered_good (max : Z) (v : bool) (d : delivered) : Prop :=
  match d with DTyped m => good max v m | DRaw m => good max false (as_message m) end.

Section mixed.
Context {SU : Simdutf8} {SUok : Simdutf8Spec}.
Context (arch : Arch) (slice_addr : bytes -> Z).

Definition run_call (p : t) (buf : bytes) (c : call) : comp (t * bytes * list delivered) unit :=
  match c with
  | Typed c => match process_into_with_activity arch slice_addr p (buf ++ c) with
               | Done (p, buf, ms, _) r => Done (p, buf, map DTyped ms) r
               | Panic => Panic
               | NoFuel => NoFuel
               end
  | Raw c => match process_raw_into arch slice_addr p (buf ++ c) with
             | Done (p, buf, ms, _) r => Done (p, buf, map DRaw ms) r
             | Panic => Panic
             | NoFuel => NoFuel
             end
  end.

(** A sequence of calls, up to the first error. *)
Fixpoint run_calls (p : t) (buf : bytes) (ds : list delivered) (cs : list call) :
    comp (t * bytes * list delivered) unit :=
  match cs with
  | [] => Done (p, buf, ds) (Ok tt)
  | c :: cs => match run_call p buf c with
               | Done (p, buf, news) (Ok _) => run_calls p buf (ds ++ news) cs
               | Done (p, buf, news) (Err e) => Done (p, buf, ds ++ news) (Err e)
               | Panic => Panic
               | NoFuel => NoFuel
               end
  end.

Lemma scan_final b : text_ok true Text b true = true -> str_from_utf8 b = true.
Proof.
  unfold text_ok. cbn. intros H. apply scan_valid. destruct (scan b) as [h|]; [|done].
  apply bool_decide_eq_true_1 in H. by subst.
Qed.

Lemma ref_data_good max v o d final fr m : ref_data max v o d final = Ok (fr, Some m) -> good max v m.
Proof.
  unfold ref_data. destruct (Z.ltb_spec max (len d)); [done|]. destruct (text_ok v o d final) eqn:Et; [|done].
  destruct final; [|done]. cbn. intros [= <- <-]. unfold data_message.
  case_bool_decide; [|done]. subst o. split; [done|]. intros ->. by apply scan_final.
Qed.

Lemma close_reason_good p r : close_reason p = Ok (Some r) ->
  CloseReason.is_valid_code (CloseReason.code r) = true /\ str_from_utf8 (CloseReason.reason r) = true.
Proof.
  unfold close_reason. destruct (2 <=? len p); [|by case_bool_decide].
  destruct (CloseReason.is_valid_code _) eqn:Ec; [|done]. cbn. destruct (2 <? len p); [|by intros [= <-]].
  unfold validate_utf8. rewrite basic_from_utf8_spec. destruct (str_from_utf8 (from 2 p)) eqn:Ev; [|done]. cbn.
  intros [= <-]. cbn. by rewrite lossy_valid.
Qed.

Lemma ref_frame_good max v fr f fr' m : ref_frame max v fr f = Ok (fr', Some m) -> good max v m.
Proof.
  unfold ref_frame. destruct (opcode (header f)); try (destruct fr as [[o d]|]; [|done]);
    try (intros H; by eapply ref_data_good); try done.
  - by destruct fr as [[? ?]|]; [|apply ref_data_good].
  - by destruct fr as [[? ?]|]; [|apply ref_data_good].
  - destruct (close_reason (payload f)) as [[r|]|] eqn:E; try done; intros [= <- <-]; [|done].
    by apply close_reason_good in E.
  - by intros [= <- <-].
  - by intros [= <- <-].
Qed.

Lemma ref_run_good max v pol fr raw : Forall (good max v) (fst (ref_run (ref_frame max v) pol fr raw)).
Proof.
  unfold ref_run. destruct (spec_frames pol raw) as [fs e].
  assert (H : Forall (good max v) (fst (ref_frames (ref_frame max v) fr fs))).
  { revert fr. induction fs as [|f fs IH]; intros fr; [constructor|]. cbn.
    destruct (ref_frame max v fr f) as [[fr' m]|] eqn:E; [|constructor]. specialize (IH fr').
    destruct (ref_frames _ fr' fs) as [ms r]. cbn. apply Forall_app; split; [|done].
    destruct m as [m|]; [|constructor]. constructor; [|constructor]. by eapply ref_frame_good. }
  by destruct (ref_frames _ fr fs).
Qed.

Lemma run_call_post mf mm v r p buf raw fr c : arch_ok arch -> bytes_ok (call_bytes c) ->
  sim mm v (initial_policy r mf) p buf raw fr -> spec_parse (initial_policy r mf) raw = Need ->
  exists p' buf' ds res, run_call p buf c = Done (p', buf', ds) res /\ Forall (delivered_good mm v) ds /\
    (res = Ok tt -> exists raw' fr', sim mm v (initial_policy r mf) p' buf' raw' fr' /\
                    spec_parse (initial_policy r mf) raw' = Need).
Proof.
  intros Harch Hok Hsim Hn. set (pol := initial_policy r mf) in *.
  assert (Hraw : bytes_ok (raw ++ call_bytes c)) by (apply bytes_ok_app; split; [apply Hsim|done]).
  destruct c as [c|c]; cbn [run_call call_bytes] in *.
  - pose proof (receive_into_post typed_receiver arch slice_addr Harch id (ref_frame mm v) pol (sim mm v pol)
      p buf raw fr c Hsim Hn Hok) as H. unfold process_into_with_activity.
    pose proof (received_news _ _ _ _ _ _ _ Hraw H) as (p' & buf' & ms & a & res & E & Hms & _). rewrite E in H |- *.
    rewrite list_fmap_id in Hms. do 4 eexists. split; [done|]. split.
    + rewrite Hms. apply Forall_fmap, ref_run_good.
    + intros ->. destruct H as (fr' & raw' & _ & _ & Hs' & Hn' & _). eauto.
  - pose proof (receive_into_post raw_receiver arch slice_addr Harch as_message (ref_frame mm false) pol (sim mm v pol)
      p buf raw fr c Hsim Hn Hok) as H. unfold process_raw_into.
    pose proof (received_news _ _ _ _ _ _ _ Hraw H) as (p' & buf' & ms & a & res & E & Hms & _). rewrite E in H |- *.
    do 4 eexists. split; [done|]. split.
    + apply Forall_fmap. pose proof (ref_run_good mm false pol fr (raw ++ c)) as Hg. rewrite <- Hms in Hg.
      by rewrite Forall_fmap in Hg.
    + intros ->. destruct H as (fr' & raw' & _ & _ & Hs' & Hn' & _). eauto.
Qed.

Lemma run_calls_good mf mm v r cs p buf raw fr ds : arch_ok arch ->
  Forall (fun c => bytes_ok (call_bytes c)) cs -> Forall (delivered_good mm v) ds ->
  sim mm v (initial_policy r mf) p buf raw fr -> spec_parse (initial_policy r mf) raw = Need ->
  exists p' buf' ds' res, run_calls p buf ds cs = Done (p', buf', ds') res /\ Forall (delivered_good mm v) ds'.
Proof.
  intros Harch Hcs. revert p buf raw fr ds.
  induction Hcs as [|c cs Hc _ IH]; intros p buf raw fr ds Hds Hsim Hn; [by exists p, buf, ds, (Ok tt)|].
  destruct (run_call_post mf mm v r p buf raw fr c Harch Hc Hsim Hn) as (p' & buf' & news & res & E & Hg & Hok).
  cbn [run_calls]. rewrite E.
  assert (Hall : Forall (delivered_good mm v) (ds ++ news)) by (by apply Forall_app).
  destruct res as [[]|e]; [|by exists p', buf', (ds ++ news), (Err e)].
  destruct (Hok eq_refl) as (raw' & fr' & Hs' & Hn'). by eapply IH.
Qed.

(** [C28] Under any interleaving of typed and raw calls and any
    cutting of the stream into reads, no call panics or diverges; every data message delivered
    respects the message-size limit; text delivered by a typed call is valid
    UTF-8 when validation is on, including bytes that raw calls had accumulated unchecked; and every close
    message carries a valid code and a UTF-8 reason. *)
Theorem delivered_messages_good mf mm v r cs : arch_ok arch -> Forall (fun c => bytes_ok (call_bytes c)) cs ->
  exists p buf ds res,
    run_calls (with_text_utf8_validation v (new r mf mm)) [] [] cs = Done (p, buf, ds) res /\
    Forall (delivered_good mm v) ds.
Proof.
  intros Harch Hcs. eapply (run_calls_good mf mm v r); [done|done|constructor|apply sim_new|done].
Qed.
End mixed.

(** ** The closing handshake *)

(** What receiving a message does to the close state. *)
Definition recv_close (s : State * option CloseReason.t) (m : Message.t) : State * option CloseReason.t :=
  match m, fst s with
  | Message.Close r, Open => (CloseReceived, r)
  | Message.Close _, CloseSent => (StClosed, snd s)
  | _, _ => s
  end.
Definition close_state (p : t) : State * option CloseReason.t := (state p, pending_close p).

Section closing.
Context {SU : Simdutf8}.
Context (arch : Arch) (slice_addr : bytes -> Z).

(** What only a close frame moves, and the role, which nothing moves. *)
Definition kept (p : t) : State * option CloseReason.t * Role := (close_state p, role p).

(** A computation that leaves the close state alone and answers in [Q]. *)
Definition keeps {A} (Q : A -> Prop) (p : t) (m : comp t A) : Prop :=
  match m with
  | Done p' r => kept p' = kept p /\ match r with Ok a => Q a | Err _ => True end
  | _ => True
  end.

Lemma keeps_utf8 p m : keeps (fun _ => True) p (on_utf8 p m).
Proof. by destruct m as [? [?|?]| |]. Qed.

Lemma keeps_bind {A B} (R : A -> Prop) (Q : B -> Prop) p q m k :
  keeps R q m -> kept q = kept p ->
  (forall p' a, kept p' = kept p -> R a -> keeps Q p (k p' a)) ->
  keeps Q p (let! (p, a) := m in k p a).
Proof.
  destruct m as [p' [a|e]| |]; cbn; try done.
  - intros [E Ha] Hq H. apply H; [congruence|done].
  - intros [E _] Hq _. split; [congruence|done].
Qed.

Lemma keeps_check p q m k : keeps (fun _ => True) q m -> kept q = kept p ->
  (forall p', kept p' = kept p -> keeps (fun _ => True) p (k p')) ->
  keeps (fun _ => True) p (check_utf8 m k).
Proof.
  intros Hm Hq H. unfold check_utf8. eapply keeps_bind; [done|done|]. intros p' a E _. by destruct a; [apply H|].
Qed.

Lemma keeps_assert {A} (Q : A -> Prop) p b k : keeps Q p k -> keeps Q p (assert! b; k).
Proof. by destruct b. Qed.

Lemma keeps_record p q : kept q = kept p -> keeps (fun _ => True) p (record_validated q).
Proof. intros H. by apply keeps_assert. Qed.

Lemma keeps_resume p : keeps (fun _ => True) p (resume_fragment p).
Proof. apply keeps_assert, keeps_utf8. Qed.

Create HintDb keeps.
#[local] Hint Resolve keeps_utf8 keeps_resume : keeps.
(** Walk through the branches of a handler. *)
Ltac keep :=
  repeat first
    [ progress cbn zeta
    | match goal with
      | |- keeps _ _ (if ?b then _ else _) => destruct b
      | |- keeps _ _ (match ?x with _ => _ end) => destruct x
      | |- keeps _ _ (Done _ _) => cbn; split; [done || congruence|done]
      | |- keeps _ _ (check_utf8 _ _) => eapply keeps_check; [by auto with keeps|by repeat case_match|intros ? ?]
      | |- keeps _ _ (run_bind _ _ _) => eapply (keeps_bind (fun _ => True)); [|reflexivity|intros ? ? ? ?]
      | |- keeps _ _ (assert_or_panic _ _) => apply keeps_assert
      | |- keeps _ _ (record_validated _) => by apply keeps_record
      | |- keeps _ _ _ => by auto with keeps
      end ].

Definition not_close (m : Message.t) : Prop := Message.is_close m = false.
Definition no_close (m : option Message.t) : Prop := match m with Some m => not_close m | None => True end.

Lemma keeps_complete_data p o d k : keeps not_close p (handle_complete_data p o d k).
Proof. unfold handle_complete_data, utf8_push. keep. Qed.

Lemma keeps_start_fragment p o d k : keeps (fun _ => True) p (start_fragment p o d k).
Proof. unfold start_fragment, utf8_push. keep. Qed.
#[local] Hint Resolve keeps_complete_data keeps_start_fragment : keeps.

Lemma keeps_map_raw p m : keeps (fun _ => True) p m -> keeps no_close p (map_raw_data m).
Proof.
  intros H. unfold map_raw_data. eapply keeps_bind; [done|done|]. intros p' [[]|] E _; cbn; done.
Qed.

Lemma keeps_raw_text p f : keeps (fun _ => True) p (handle_raw_text p f).
Proof. unfold handle_raw_text, start_raw_fragment. keep. Qed.

Lemma keeps_continuation p f k : keeps no_close p (handle_continuation p f k).
Proof.
  unfold handle_continuation, complete_fragment, utf8_push. destruct (validate_text_utf8 p); cbn [negb].
  - keep.
  - apply keeps_map_raw. unfold handle_raw_continuation, complete_raw_fragment. keep.
Qed.

Lemma keeps_map_some p m : keeps not_close p m -> keeps no_close p (map_some m).
Proof. intros H. unfold map_some. eapply keeps_bind; [done|done|]. intros p' a E Ha. by cbn. Qed.

Lemma keeps_data p f k : opcode (header f) = Text \/ opcode (header f) = Binary ->
  keeps no_close p (handle_frame p f k).
Proof.
  intros Ho. unfold handle_frame, handle_text, handle_binary. destruct Ho as [-> | ->].
  - destruct (fin (header f)); [apply keeps_map_some; auto with keeps|].
    destruct (negb (validate_text_utf8 p)); [apply keeps_map_raw, keeps_raw_text|]. keep.
  - destruct (fin (header f)); [apply keeps_map_some; auto with keeps|]. keep.
Qed.

(** A frame moves the close state exactly when it delivers a close message. *)
Lemma handle_frame_close p f k p' r : handle_frame p f k = Done p' r ->
  close_state p' = (match r with Ok (Some m) => recv_close (close_state p) m | _ => close_state p end) /\
  role p' = role p.
Proof.
  assert (Hk : keeps no_close p (handle_frame p f k) -> handle_frame p f k = Done p' r ->
     close_state p' = (match r with Ok (Some m) => recv_close (close_state p) m | _ => close_state p end) /\
     role p' = role p).
  { intros Hm E. rewrite E in Hm. destruct Hm as [[= Ec Ep Er] Hm]. unfold close_state. rewrite Ec, Ep.
    by destruct r as [[[]|]|]. }
  destruct (opcode (header f)) eqn:Eo.
  - apply Hk. unfold handle_frame. rewrite Eo. apply keeps_continuation.
  - apply Hk, keeps_data. by left.
  - apply Hk, keeps_data. by right.
  - unfold handle_frame, handle_close. rewrite Eo.
    destruct (close_reason (payload f)) as [reason|e]; intros [= <- <-]; [|done].
    unfold recv_close, close_state. destruct (state p) eqn:Es; cbn; by rewrite ?Es.
  - unfold handle_frame. rewrite Eo. by intros [= <- <-].
  - unfold handle_frame. rewrite Eo. by intros [= <- <-].
Qed.

Lemma prevalidate_close p buf : keeps (fun _ => True) p (prevalidate_partial_text p buf).
Proof. unfold prevalidate_partial_text, utf8_push. keep. Qed.

(** A whole call: the close state is folded over the messages it delivers, also when it fails. *)
Lemma receive_close n p buf ms a p' buf' ms' a' r :
  loop_fuel n (receive_step typed_receiver arch slice_addr) (p, buf, ms, a) = Done (p', buf', ms', a') r ->
  exists news, ms' = ms ++ news /\ close_state p' = fold_left recv_close news (close_state p) /\ role p' = role p.
Proof.
  revert p buf ms a. induction n as [|n IH]; intros p buf ms a; [done|]. cbn [loop_fuel receive_step].
  case_bool_decide; [intros [= <- <- <- <- <-]; exists []; by rewrite app_nil_r|].
  cbn [r_parser typed_receiver on_frame on_need r_set_parser].
  destruct (FrameParser.parse _ _ _ _) as [[ps b] [[f|]|e]| |]; try done.
  - unfold take_and_handle. set (q := set_partial_checked 0 (set_parser ps p)).
    destruct (handle_frame q f _) as [p1 [m|e]| |] eqn:E; try done; apply handle_frame_close in E as [E Er]; cbn in E, Er.
    + destruct m as [m|]; intros Hrun; apply IH in Hrun as (news & -> & Hc & Hr).
      * exists (m :: news). rewrite <- app_assoc. split; [done|]. cbn. by rewrite Hc, E, Hr.
      * exists news. by rewrite Hc, E, Hr.
    + intros [= <- <- <- <- <-]. exists []. by rewrite app_nil_r.
  - pose proof (prevalidate_close (set_parser ps p) b) as Hk. unfold keeps in Hk.
    destruct (prevalidate_partial_text _ _) as [p1 [u|e]| |]; try done;
      intros [= <- <- <- <- <-]; exists []; rewrite app_nil_r; by destruct Hk as [[= Ec Ep Er] _]; unfold close_state; cbn; rewrite Ec, Ep.
  - intros [= <- <- <- <- <-]. exists []. by rewrite app_nil_r.
Qed.

Lemma reads_close chunks p buf ms a p' buf' ms' a' r :
  receive_all typed_receiver arch slice_addr p buf ms a chunks = Done (p', buf', ms', a') r ->
  exists news, ms' = ms ++ news /\ close_state p' = fold_left recv_close news (close_state p) /\ role p' = role p.
Proof.
  revert p buf ms a. induction chunks as [|c cs IH]; intros p buf ms a; cbn [receive_all].
  { intros [= <- <- <- <- <-]. exists []. by rewrite app_nil_r. }
  destruct (receive_into _ _ _ _ _) as [[[[p1 b1] ms1] a1] [u|e]| |] eqn:E; try done;
    apply receive_close in E as (news & -> & Hc & Hr); cbn [app].
  - intros H. apply IH in H as (news2 & -> & Hc2 & Hr2). exists (news ++ news2).
    rewrite app_assoc, fold_left_app, <- Hc, <- Hr. done.
  - intros [= <- <- <- <- <-]. by exists news.
Qed.

(** One side of a connection, with what went over the wire so far. *)
Record endpoint := Ep { ep : t; sent_close : bool; got_close : bool }.

(** The operations that can move the close state, in any order. *)
Inductive close_step : endpoint -> endpoint -> Prop :=
  | step_receive p s g buf p' buf' ms a r :
      process_into_with_activity arch slice_addr p buf = Done (p', buf', ms, a) r ->
      close_step (Ep p s g) (Ep p' s (g || existsb Message.is_close ms))
  | step_send p s g key m buf :
      close_step (Ep p s g) (Ep (fst (encode_message_into key p m buf)) (s || Message.is_close m) g)
  | step_respond p s g key buf :
      close_step (Ep p s g) (Ep (fst (encode_close_response key p buf)) true g)
  | step_split_respond p s g key reason buf :
      close_step (Ep p s g) (Ep (fst (encode_split_close_response key p reason buf)) true g).

(** What each state says about the wire. *)
Definition close_agrees (st : State) (sent got : bool) : Prop :=
  match st with
  | Open => got = false
  | CloseSent => sent = true /\ got = false
  | CloseReceived => got = true
  | StClosed => sent = true /\ got = true
  end.

Definition close_rank (st : State) : nat :=
  match st with Open => 0 | CloseSent | CloseReceived => 1 | StClosed => 2 end.

Lemma recv_close_agrees ms st sent got : close_agrees (fst st) sent got ->
  close_agrees (fst (fold_left recv_close ms st)) sent (got || existsb Message.is_close ms) /\
  (close_rank (fst st) <= close_rank (fst (fold_left recv_close ms st)))%nat.
Proof.
  revert st got. induction ms as [|m ms IH]; intros st got H; cbn; [by rewrite orb_false_r|].
  destruct (IH (recv_close st m) (got || Message.is_close m)) as [H1 H2].
  - destruct m, st as [[] ?]; cbn in *; rewrite ?orb_false_r, ?orb_true_r; (done || by destruct H).
  - rewrite <- orb_assoc in H1. split; [done|]. etrans; [|done]. destruct m, st as [[] ?]; cbn; lia.
Qed.

Lemma close_step_agrees e e' : close_step e e' -> close_agrees (state (ep e)) (sent_close e) (got_close e) ->
  close_agrees (state (ep e')) (sent_close e') (got_close e') /\
  (close_rank (state (ep e)) <= close_rank (state (ep e')))%nat.
Proof.
  destruct 1 as [p s g buf p' buf' ms a r E|p s g key m buf|p s g key buf|p s g key reason buf]; cbn; intros H.
  - apply receive_close in E as (news & -> & Hc & _). cbn. apply (recv_close_agrees news (close_state p)) in H.
    rewrite <- Hc in H. exact H.
  - destruct m; cbn; rewrite ?orb_false_r, ?orb_true_r; try done. case_bool_decide as Es; cbn.
    + rewrite Es in *. cbn in *. split; [done|lia].
    + split; [|done]. by destruct (state p); cbn in *; first [done|by destruct H].
  - case_bool_decide as Es; cbn; [rewrite Es in *; cbn in *; split; [done|lia]|].
    split; [|done]. destruct (state p); cbn in *; first [done|by destruct H].
  - case_bool_decide as Es; cbn in *; [rewrite Es in *; cbn in *; split; [done|lia]|].
    split; [|done]. destruct (state p); cbn in *; first [done|by destruct H].
Qed.

(** In every sequence of receives, sends and close responses the
    state says what went over the wire: the connection counts as closed only
    after a close frame was sent and one was received, an open one has received none, a close that was sent
    and not answered is remembered as such; and the state never goes back. *)
Theorem closing_handshake_invariant r mf mm e1 e2 :
  rtc close_step (Ep (new r mf mm) false false) e1 -> rtc close_step e1 e2 ->
  close_agrees (state (ep e2)) (sent_close e2) (got_close e2) /\
  (close_rank (state (ep e1)) <= close_rank (state (ep e2)))%nat.
Proof.
  intros H1 H2.
  assert (Hinv : forall e e', rtc close_step e e' -> close_agrees (state (ep e)) (sent_close e) (got_close e) ->
    close_agrees (state (ep e')) (sent_close e') (got_close e') /\
    (close_rank (state (ep e)) <= close_rank (state (ep e')))%nat).
  { induction 1 as [|x y z Hxy _ IH]; intros H; [done|]. apply close_step_agrees in Hxy as [Hy Hr]; [|done].
    destruct (IH Hy). split; [done|lia]. }
  destruct (Hinv _ _ H1) as [Ha _]; [done|]. by apply Hinv.
Qed.
End closing.

Lemma closing_handshake_invariant_witness :
  let p1 := fst (encode_message_into [1; 2; 3; 4] (new Client 100 100) (Message.Close None) []) in
  close_agrees (state p1) true false /\ (close_rank Open <= close_rank (state p1))%nat.
Proof.
  apply (closing_handshake_invariant (SU := simdutf8_std) test_arch (fun _ => 0) Client 100 100
    (Ep (new Client 100 100) false false)
    (Ep (fst (encode_message_into [1; 2; 3; 4] (new Client 100 100) (Message.Close None) [])) true false)).
  - apply rtc_refl.
  - apply rtc_once. exact (step_send _ _ (new Client 100 100) false false [1; 2; 3; 4] (Message.Close None) []).
Defined.

(** ** Two endpoints *)

Definition peer (r : Role) : Role := match r with Client => Server | Server => Client end.

Lemma peer_peer r : peer (peer r) = r.
Proof. by destruct r. Qed.

(** What the documentation of [Message] asks of a sender, with the receiver's limits. *)
Definition msg_ok (mf mm : Z) (m : Message.t) : Prop :=
  match m with
  | Message.Text b => bytes_ok b /\ str_from_utf8 b = true /\ len b <= mm /\ len b <= mf /\ len b < 2 ^ 63
  | Message.Binary b => bytes_ok b /\ len b <= mm /\ len b <= mf /\ len b < 2 ^ 63
  | Message.Ping b | Message.Pong b => bytes_ok b /\ len b <= 125 /\ len b <= mf
  | Message.Close None => 0 <= mf
  | Message.Close (Some r) => CloseReason.is_valid_code (CloseReason.code r) = true /\
      bytes_ok (CloseReason.reason r) /\ str_from_utf8 (CloseReason.reason r) = true /\
      len (CloseReason.reason r) <= 123 /\ 2 + len (CloseReason.reason r) <= mf
  end.

Definition key_fine (key : bytes) : Prop := len key = 4 /\ bytes_ok key.

(** Messages with the masking key drawn for each, encoded one after the other. *)
Definition encode_messages (p : t) (kms : list (bytes * Message.t)) (buf : bytes) : t * bytes :=
  fold_left (fun '(p, buf) '(key, m) => encode_message_into key p m buf) kms (p, buf).

Definition msg_frame (r : Role) (km : bytes * Message.t) : outgoing :=
  let '(key, m) := km in
  (match m with
   | Message.Text _ => Text | Message.Binary _ => Binary | Message.Ping _ => Ping
   | Message.Pong _ => Pong | Message.Close _ => Close
   end,
   match m with Message.Close r => close_payload r | m => Message.as_bytes m end,
   true, choose_mask r key, false).

Lemma encode_message_frame key p m buf :
  snd (encode_message_into key p m buf) = buf ++ encode_all [msg_frame (role p) (key, m)] /\
  role (fst (encode_message_into key p m buf)) = role p.
Proof. destruct m; cbn; try done. by case_bool_decide. Qed.

Lemma encode_messages_frames p kms buf :
  snd (encode_messages p kms buf) = buf ++ encode_all (map (msg_frame (role p)) kms) /\
  role (fst (encode_messages p kms buf)) = role p.
Proof.
  revert p buf. induction kms as [|[key m] kms IH]; intros p buf; [by cbn; rewrite app_nil_r|].
  unfold encode_messages. cbn [fold_left]. cbv beta iota. pose proof (encode_message_frame key p m buf) as [E1 E2].
  destruct (encode_message_into key p m buf) as [p' buf']. cbn [fst snd] in E1, E2. subst buf'.
  destruct (IH p' (buf ++ encode_all [msg_frame (role p) (key, m)])) as [H1 H2].
  unfold encode_messages in H1, H2. rewrite H1, H2, E2. cbn [map]. rewrite (encode_all_cons _ (map _ kms)).
  by rewrite <- app_assoc.
Qed.

Lemma valid_code_range c : CloseReason.is_valid_code c = true -> 0 <= c < 65536.
Proof. unfold CloseReason.is_valid_code. intros H. repeat (apply orb_true_iff in H as [H|H]); zb; lia. Qed.

Lemma msg_sendable r mf mm key m : msg_ok mf mm m -> key_fine key ->
  out_ok (initial_policy (peer r) mf) (msg_frame r (key, m)).
Proof.
  intros Hm [Hk Hkok]. unfold msg_frame, out_ok.
  assert (Hkey : pol_masked (initial_policy (peer r) mf) = match choose_mask r key with Some _ => true | None => false end
    /\ match choose_mask r key with Some m => len m = 4 /\ bytes_ok m | None => True end) by (by destruct r).
  destruct Hkey as [Hmask Hkey].
  destruct m as [b|b|b|b|[c|]]; cbn [msg_ok Message.as_bytes close_payload] in *; inv_all;
    split; try done; cbn [pol_max initial_policy]; rewrite ?len_app, ?len_to_be_bytes, ?len_nil; try (intros _; split; [done|]); try lia.
  - apply bytes_ok_app; split; [apply to_be_bytes_ok|done].
  - constructor.
Qed.

Section roundtrip.
Context {SU : Simdutf8} {SUok : Simdutf8Spec}.

Lemma close_reason_payload c : match c with
    | Some c => CloseReason.is_valid_code (CloseReason.code c) = true /\ str_from_utf8 (CloseReason.reason c) = true
    | None => True end -> close_reason (close_payload c) = Ok c.
Proof.
  intros Hc. destruct c as [[code reason]|]; [|done]. cbn in Hc. destruct Hc as [Hv Hu].
  pose proof (valid_code_range _ Hv). unfold close_reason, close_payload. cbn [CloseReason.code CloseReason.reason].
  rewrite len_app, len_to_be_bytes. pose proof (len_nonneg reason). ztrue (2 <=? Z.of_nat 2 + len reason).
  change (from_be_bytes _) with (from_be_bytes (to_be_bytes 2 code)).
  rewrite from_to_be_bytes, Z.mod_small by (cbn; lia). rewrite Hv. cbn [negb].
  change (from 2 _) with reason. destruct reason as [|b t]; [done|].
  rewrite len_cons in *. pose proof (len_nonneg t). ztrue (2 <? Z.of_nat 2 + (1 + len t)).
  unfold validate_utf8. rewrite basic_from_utf8_spec, Hu, lossy_valid by done. done.
Qed.

Lemma ref_frame_sent mf mm r key m : msg_ok mf mm m ->
  ref_frame mm true None (out_frame (msg_frame r (key, m))) = Ok (None, Some m).
Proof.
  intros Hm. unfold ref_frame, msg_frame, out_frame, sent. cbn [header opcode payload fin].
  destruct m as [b|b|b|b|c]; cbn [Message.as_bytes] in *; try done.
  - destruct Hm as (_ & Hu & Hl & _). unfold ref_data, text_ok. zfalse (mm <? len b).
    apply scan_valid in Hu. by rewrite Hu.
  - destruct Hm as (_ & Hl & _). unfold ref_data, text_ok. by zfalse (mm <? len b).
  - rewrite close_reason_payload; [done|]. destruct c; [|done]. cbn in Hm. by inv_all.
Qed.

Lemma ref_run_sent mf mm r kms : Forall (fun km => key_fine (fst km) /\ msg_ok mf mm (snd km)) kms ->
  let raw := encode_all (map (msg_frame r) kms) in
  bytes_ok raw /\ ref_run (ref_frame mm true) (initial_policy (peer r) mf) None raw = (map snd kms, Ok None).
Proof.
  intros H. cbn zeta.
  assert (Hout : Forall (out_ok (initial_policy (peer r) mf)) (map (msg_frame r) kms)).
  { apply Forall_map. eapply Forall_impl; [exact H|]. intros [key m] [Hk Hm]. by eapply msg_sendable. }
  destruct (spec_frames_sent _ _ Hout) as [Hok Hs]. split; [done|]. unfold ref_run. rewrite Hs.
  assert (E : ref_frames (ref_frame mm true) None (map out_frame (map (msg_frame r) kms)) = (map snd kms, Ok None)).
  { clear -H SUok. induction H as [|[key m] kms [Hk Hm] _ IH]; [done|]. cbn [map ref_frames].
    rewrite (ref_frame_sent mf) by done. by rewrite IH. }
  by rewrite E.
Qed.

Context (arch : Arch) (slice_addr : bytes -> Z).

(** A well-formed stream is received without an error: a further ping would be delivered. *)
Lemma process_reads_sent mf mm r q kms chunks : arch_ok arch -> 0 <= mf ->
  sim mm true (initial_policy (peer r) mf) q [] [] None ->
  Forall (fun km => key_fine (fst km) /\ msg_ok mf mm (snd km)) kms ->
  concat chunks = encode_all (map (msg_frame r) kms) ->
  exists p buf a, process_reads arch slice_addr q chunks = Done (p, buf, map snd kms, a) (Ok tt).
Proof.
  intros Harch Hmf Hsim Hms Hc. destruct (ref_run_sent mf mm r kms Hms) as [Hok Href]. rewrite <- Hc in Hok, Href.
  pose proof (process_reads_post arch slice_addr _ mm true q chunks Harch Hok Hsim) as H.
  apply received_news in H as (p & buf & ms & a & res & -> & Hm & Hres); [|done].
  rewrite list_fmap_id, Href in Hm. cbn in Hm. subst ms. exists p, buf, a.
  destruct res as [[]|e]; [done|]. exfalso. destruct Hres as [Hres|[_ Hres]]; [by rewrite Href in Hres|].
  set (ping := ([0; 0; 0; 0], Message.Ping [])).
  assert (Hping : Forall (fun km => key_fine (fst km) /\ msg_ok mf mm (snd km)) (kms ++ [ping])).
  { apply Forall_app; split; [done|]. constructor; [|constructor]. split.
    - split; [done|by repeat constructor].
    - cbn. rewrite len_nil. split_and!; [constructor|lia|lia]. }
  destruct (ref_run_sent mf mm r (kms ++ [ping]) Hping) as [Hok' Href'].
  assert (Esplit : encode_all (map (msg_frame r) (kms ++ [ping])) = concat chunks ++ encode_all [msg_frame r ping]).
  { rewrite Hc, map_app. generalize (map (msg_frame r) kms) as l. intros l. clear.
    induction l as [|x l IH]; [done|]. cbn [app]. rewrite encode_all_cons, IH, (encode_all_cons x l). by rewrite <- app_assoc. }
  rewrite Esplit in Hok', Href'. apply bytes_ok_app in Hok' as [_ Hok'].
  specialize (Hres _ Hok'). rewrite Href', Href in Hres. cbn in Hres. rewrite map_app in Hres.
  apply (f_equal length) in Hres. rewrite length_app in Hres. cbn in Hres. lia.
Qed.

(** [C29] Messages that respect the documented limits, encoded by one
    endpoint one after the other and cut into arbitrary reads, are delivered by the other endpoint
    in order, unchanged, and without an error. *)
Theorem message_roundtrip mf mm r max_frame max_message kms chunks : arch_ok arch -> 0 <= mf ->
  Forall (fun km => key_fine (fst km) /\ msg_ok mf mm (snd km)) kms ->
  concat chunks = snd (encode_messages (new r max_frame max_message) kms []) ->
  exists p buf a, process_reads arch slice_addr (new (peer r) mf mm) chunks =
    Done (p, buf, map snd kms, a) (Ok tt).
Proof.
  intros Harch Hmf Hms Hc. apply (process_reads_sent mf mm r); try done; [apply (sim_new (peer r) mf mm true)|].
  by rewrite Hc, (proj1 (encode_messages_frames _ _ _)).
Qed.

(** A close started by one endpoint is delivered to the other with its code and
    reason; the answer the other encodes carries the same code and reason back,
    and when it has been received both endpoints are closed, whichever way the two frames are cut into reads. *)
Theorem closing_handshake_completes mf mm r reason k1 k2 c1 c2 : arch_ok arch ->
  key_fine k1 -> key_fine k2 -> 0 <= mf -> msg_ok mf mm (Message.Close reason) ->
  let a1 := encode_message_into k1 (new r mf mm) (Message.Close reason) [] in
  concat c1 = snd a1 ->
  exists b1 buf1 x1, process_reads arch slice_addr (new (peer r) mf mm) c1 =
      Done (b1, buf1, [Message.Close reason], x1) (Ok tt) /\
    let b2 := encode_close_response k2 b1 [] in
    is_closed (fst b2) = true /\
    (concat c2 = snd b2 ->
     exists a2 buf2 x2, process_reads arch slice_addr (fst a1) c2 =
       Done (a2, buf2, [Message.Close reason], x2) (Ok tt) /\ is_closed a2 = true).
Proof.
  intros Harch Hk1 Hk2 Hmf Hm a1 Hc1.
  assert (Hkms : forall k, key_fine k ->
    Forall (fun km => key_fine (fst km) /\ msg_ok mf mm (snd km)) [(k, Message.Close reason)])
    by (intros; constructor; [done|constructor]).
  destruct (process_reads_sent mf mm r (new (peer r) mf mm) [(k1, Message.Close reason)] c1)
    as (b1 & buf1 & x1 & E1); [done|done|apply (sim_new (peer r) mf mm true)|by apply Hkms|exact Hc1|].
  exists b1, buf1, x1. split; [done|]. cbn zeta.
  unfold process_reads in E1. apply reads_close in E1 as (news & Hn & Hst & Hrole). cbn in Hn. subst news. cbn in Hst. injection Hst as Hst Hpc.
  unfold encode_close_response. rewrite Hst, Hpc, Hrole. rewrite bool_decide_eq_true_2 by done.
  split; [done|]. cbn [snd]. intros Hc2.
  destruct (process_reads_sent mf mm (peer r) (fst a1) [(k2, Message.Close reason)] c2)
    as (a2 & buf2 & x2 & E2); [done|done| |by apply Hkms|exact Hc2|].
  { rewrite peer_peer. destruct (sim_new r mf mm true). by split. }
  exists a2, buf2, x2. split; [done|].
  unfold process_reads in E2. apply reads_close in E2 as (news & Hn & Hst2 & _). cbn in Hn. subst news. cbn in Hst2. injection Hst2 as Hst2 _.
  unfold is_closed. by apply bool_decide_eq_true_2.
Qed.
End roundtrip.

(** ** Concrete runs *)

Lemma delivered_messages_good_witness : exists p buf ds res,
  run_calls (SU := simdutf8_std) test_arch (fun _ => 0) (with_text_utf8_validation true (new Client 100 100)) [] []
    [Raw [0x01; 1; 0xC3]; Typed [0x80; 1; 0xA9]] = Done (p, buf, ds) res /\ Forall (delivered_good 100 true) ds.
Proof.
  apply (delivered_messages_good (SU := simdutf8_std) (SUok := simdutf8_std_spec) test_arch (fun _ => 0) 100 100 true Client);
    [by vm_compute|by repeat constructor].
Defined.

Lemma message_roundtrip_witness : exists p buf a,
  process_reads (SU := simdutf8_std) test_arch (fun _ => 0) (new Server 100 100)
    [snd (encode_messages (new Client 5 5) [([1; 2; 3; 4], Message.Text [104; 105])] [])] =
  Done (p, buf, [Message.Text [104; 105]], a) (Ok tt).
Proof.
  apply (message_roundtrip (SU := simdutf8_std) (SUok := simdutf8_std_spec) test_arch (fun _ => 0) 100 100 Client 5 5
    [([1; 2; 3; 4], Message.Text [104; 105])]); [by vm_compute|done| |reflexivity].
  repeat constructor; done.
Defined.

Lemma closing_handshake_completes_witness :
  let reason := Some (CloseReason.new 1000 [98; 121; 101]) in
  let a1 := encode_message_into [1; 2; 3; 4] (new Client 200 100) (Message.Close reason) [] in
  exists b1 buf1 x1, process_reads (SU := simdutf8_std) test_arch (fun _ => 0) (new Server 200 100) [snd a1] =
      Done (b1, buf1, [Message.Close reason], x1) (Ok tt) /\
    let b2 := encode_close_response [0; 0; 0; 0] b1 [] in
    is_closed (fst b2) = true /\
    (concat [snd b2] = snd b2 ->
     exists a2 buf2 x2, process_reads (SU := simdutf8_std) test_arch (fun _ => 0) (fst a1) [snd b2] =
       Done (a2, buf2, [Message.Close reason], x2) (Ok tt) /\ is_closed a2 = true).
Proof.
  intros reason a1.
  assert (Hb : exists b1 buf1 x1, process_reads (SU := simdutf8_std) test_arch (fun _ => 0) (new Server 200 100) [snd a1] =
      Done (b1, buf1, [Message.Close reason], x1) (Ok tt)) by (vm_compute; eauto).
  destruct Hb as (b1 & buf1 & x1 & E1).
  destruct (closing_handshake_completes (SU := simdutf8_std) (SUok := simdutf8_std_spec) test_arch (fun _ => 0) 200 100 Client
    reason [1; 2; 3; 4] [0; 0; 0; 0] [snd a1] [snd (encode_close_response [0; 0; 0; 0] b1 [])])
    as (b1' & buf1' & x1' & E1' & H); [by vm_compute|by repeat constructor|by repeat constructor|done| |reflexivity|].
  { cbn. split_and!; try done. by repeat constructor. }
  change (peer Client) with Server in E1'. rewrite E1 in E1'. injection E1' as -> -> ->. by exists b1', buf1', x1'.
Defined.
