(* ===== verification/NextSpec.v ===== *)
(** * Reading one message at a time

    [process_next_with_activity] stops at the first complete message and tries
    the complete-data fast path before the parser.  Called until it has nothing
    left, it delivers what the batch reader delivers. *)

From stdpp Require Import base list strings.
From S2P Require Import Prelude Error Mask Utf8 Frame FrameSpec Protocol ReceiveSpec ProtocolSpec.
Import Protocol.

Section next.
Context {SU : Simdutf8} {SUok : Simdutf8Spec}.
Context (arch : Arch) (slice_addr : bytes -> Z).

Abbreviation recv := (receive_step typed_receiver arch slice_addr).
Abbreviation next := (process_next_step arch slice_addr).

(** A turn of the batch loop, seen by a reader that stops at a message. *)
Definition stop_at_message (x : (t * bytes * list Message.t * bool) + comp (t * bytes * list Message.t * bool) unit) :
    (t * bytes * bool) + comp (t * bytes * bool) (option Message.t) :=
  match x with
  | inl (p, buf, [], a) => inl (p, buf, a)
  | inl (p, buf, m :: _, a) => inr (Done (p, buf, a) (Ok (Some m)))
  | inr (Done (p, buf, _, a) (Ok _)) => inr (Done (p, buf, a) (Ok None))
  | inr (Done (p, buf, _, a) (Err e)) => inr (Done (p, buf, a) (Err e))
  | inr Panic => inr Panic
  | inr NoFuel => inr NoFuel
  end.

Lemma try_parse_opcode ps buf o d rest :
  FrameParser.try_parse_complete_unmasked_data ps buf = Some (o, d, rest) -> o = Text \/ o = Binary.
Proof.
  unfold FrameParser.try_parse_complete_unmasked_data. repeat case_match; try done; intros; simplify_eq; auto.
Qed.

Lemma next_step_eq p buf a : next (p, buf, a) = stop_at_message (recv (p, buf, [], a)).
Proof.
  cbn [process_next_step receive_step]. case_bool_decide; [done|].
  cbn [r_parser typed_receiver on_frame on_need r_set_parser]. unfold FrameParser.parse.
  destruct (FrameParser.try_parse_complete_unmasked_data (parser p) buf) as [[[o d] rest]|] eqn:E.
  - assert (Hp : set_parser (parser p) p = p) by (by destruct p). rewrite Hp.
    unfold take_and_handle, handle_frame. cbn [header opcode].
    apply try_parse_opcode in E as [-> | ->]; unfold handle_text, handle_binary; cbn [header fin payload].
    + by destruct (handle_complete_data _ _ _ _) as [p1 [m|e]| |].
    + unfold handle_complete_data. change (bool_decide (Binary = Text)) with false. repeat (case_match; try done).
  - destruct (FrameParser.parse_after_complete_data_miss _ _ _ _) as [[ps b] [[f|]|e]| |]; try done.
    + by destruct (take_and_handle _ _) as [p1 [[m|]|e]| |].
    + by destruct (prevalidate_partial_text _ _) as [p1 [u|e]| |].
Qed.

(** Earlier messages and the activity flag are only carried along. *)
Definition carry_along (ms : list Message.t) (a : bool) (r : comp (t * bytes * list Message.t * bool) unit) :
    comp (t * bytes * list Message.t * bool) unit :=
  match r with
  | Done (p, buf, ms', a') r => Done (p, buf, ms ++ ms', a || a') r
  | Panic => Panic
  | NoFuel => NoFuel
  end.

Lemma recv_step_carry p buf ms a : recv (p, buf, ms, a) =
  match recv (p, buf, [], false) with
  | inl (p', buf', ms', a') => inl (p', buf', ms ++ ms', a || a')
  | inr r => inr (carry_along ms a r)
  end.
Proof.
  cbn [receive_step]. case_bool_decide; [cbn; by rewrite app_nil_r, orb_false_r|].
  destruct (FrameParser.parse _ _ _ _) as [[ps b] [[f|]|e]| |]; try done.
  - destruct (on_frame _ _ _) as [p1 [[m|]|e]| |]; cbn; rewrite ?app_nil_r, ?orb_false_r, ?orb_true_r; done.
  - destruct (on_need _ _ _) as [p1 [u|e]| |]; cbn; rewrite ?app_nil_r, ?orb_false_r; done.
  - cbn. by rewrite app_nil_r, orb_false_r.
Qed.

Lemma recv_carry n p buf ms a :
  loop_fuel n recv (p, buf, ms, a) = carry_along ms a (loop_fuel n recv (p, buf, [], false)).
Proof.
  revert p buf ms a. induction n as [|n IH]; intros p buf ms a; [done|]. cbn [loop_fuel]. rewrite recv_step_carry.
  destruct (recv (p, buf, [], false)) as [[[[p' buf'] ms'] a']|r]; [|done].
  rewrite (IH p' buf' (ms ++ ms')), (IH p' buf' ms').
  destruct (loop_fuel n recv _) as [[[[p2 b2] ms2] a2] r| |]; cbn; [|done|done].
  by rewrite app_assoc, orb_assoc.
Qed.

(** A call of the one-message reader, against the batch loop with the same fuel. *)
Definition first_message n (r : comp (t * bytes * list Message.t * bool) unit)
    (x : comp (t * bytes * bool) (option Message.t)) : Prop :=
  match x with
  | Done (p, buf, a) (Ok (Some m)) => exists k, (k < n)%nat /\ r = loop_fuel k recv (p, buf, [m], a)
  | Done (p, buf, a) (Ok None) => r = Done (p, buf, [], a) (Ok tt)
  | Done (p, buf, a) (Err e) => r = Done (p, buf, [], a) (Err e)
  | Panic => r = Panic
  | NoFuel => False
  end.

Lemma recv_step_one p buf a p' buf' ms a' : recv (p, buf, [], a) = inl (p', buf', ms, a') -> (length ms <= 1)%nat.
Proof. cbn [receive_step]. repeat case_match; intros; simplify_eq; cbn; lia. Qed.

Lemma recv_step_none p buf a p' buf' ms a' r : recv (p, buf, [], a) = inr (Done (p', buf', ms, a') r) -> ms = [].
Proof. cbn [receive_step]. repeat case_match; intros; by simplify_eq. Qed.

Lemma first_message_ok n p buf a : loop_fuel n recv (p, buf, [], a) <> NoFuel ->
  first_message n (loop_fuel n recv (p, buf, [], a)) (loop_fuel n next (p, buf, a)).
Proof.
  revert p buf a. induction n as [|n IH]; intros p buf a; [done|]. cbn [loop_fuel]. rewrite next_step_eq.
  destruct (recv (p, buf, [], a)) as [[[[p' buf'] ms] a']|r] eqn:E.
  - pose proof (recv_step_one _ _ _ _ _ _ _ E). destruct ms as [|m [|? ?]]; cbn in *; [|intros _; exists n; split; [lia|done]|lia].
    intros Hne. specialize (IH _ _ _ Hne). unfold first_message in *.
    destruct (loop_fuel n next _) as [[[p1 b1] a1] [[m|]|e]| |]; try done.
    destruct IH as (k & Hk & ->). exists k. split; [lia|done].
  - intros Hne. destruct r as [[[[p' buf'] ms] a'] [[]|e]| |]; cbn; try done;
      by rewrite (recv_step_none _ _ _ _ _ _ _ _ E).
Qed.

Context (Harch : arch_ok arch) (max : Z) (pol : policy).
Abbreviation sim := (sim max true pol).

(** After a message the reader is between frames. *)
Lemma next_sim n p buf raw fr a p' buf' a' m : sim p buf raw fr ->
  loop_fuel n next (p, buf, a) = Done (p', buf', a') (Ok (Some m)) -> exists fr', sim p' buf' buf' fr'.
Proof.
  revert p buf raw fr a. induction n as [|n IH]; intros p buf raw fr a Hsim; [done|].
  cbn [loop_fuel]. rewrite next_step_eq. cbn [receive_step]. case_bool_decide; [done|].
  destruct (f_views (Follows := typed_follows arch slice_addr max true pol) _ _ _ _ Hsim) as [Hv Hpol].
  pose proof (parse_post arch slice_addr Harch _ buf raw Hv) as Hpost. unfold post in Hpost. rewrite Hpol in Hpost.
  destruct (spec_parse pol raw) as [|e|f rest] eqn:E.
  - destruct Hpost as (ps & buf2 & -> & _). by destruct (on_need _ _ _) as [p1 [u|e]| |].
  - destruct Hpost as [[ps buf2] ->]. done.
  - destruct Hpost as (ps & Ep & Hfr & Hp' & Hok' & Hl). rewrite Ep.
    pose proof (f_frame (Follows := typed_follows arch slice_addr max true pol) _ _ _ _ _ _ _ Hsim Ep E Hfr Hp' Hok') as Hstep.
    destruct (ref_frame max true fr f) as [[fr' m']|e].
    + destruct Hstep as (s' & m2 & -> & _ & Hs'). destruct m2 as [m2|]; cbn.
      * intros [= <- <- <- <-]. by exists fr'.
      * intros Hrun. by eapply IH.
    + destruct Hstep as (s' & ->). done.
Qed.

Lemma recv_enough p buf raw fr a : sim p buf raw fr -> (buf = [] -> spec_parse pol raw = Need) ->
  loop_fuel (length buf + 2) recv (p, buf, [], a) <> NoFuel.
Proof.
  intros Hsim Hn E. pose proof (receive_loop typed_receiver arch slice_addr Harch id (ref_frame max true) pol
    sim (length buf + 2) p buf raw [] a fr Hsim Hn ltac:(left; lia)) as H. by rewrite E in H.
Qed.

(** Call the one-message reader until it has none. *)
Fixpoint next_all (n : nat) (p : t) (buf : bytes) (ms : list Message.t) : comp (t * bytes * list Message.t) unit :=
  match n with
  | O => NoFuel
  | S n => match process_next_with_activity arch slice_addr p buf with
           | Done (p, buf, _) (Ok (Some m)) => next_all n p buf (ms ++ [m])
           | Done (p, buf, _) (Ok None) => Done (p, buf, ms) (Ok tt)
           | Done (p, buf, _) (Err e) => Done (p, buf, ms) (Err e)
           | Panic => Panic
           | NoFuel => NoFuel
           end
  end.

Definition drop_flag (r : comp (t * bytes * list Message.t * bool) unit) : comp (t * bytes * list Message.t) unit :=
  match r with
  | Done (p, buf, ms, _) r => Done (p, buf, ms) r
  | Panic => Panic
  | NoFuel => NoFuel
  end.

Lemma next_all_eq n k p buf raw fr ms : sim p buf raw fr -> (buf = [] -> spec_parse pol raw = Need) ->
  loop_fuel n recv (p, buf, [], false) <> NoFuel -> (n <= k)%nat ->
  next_all k p buf ms = drop_flag (carry_along ms false (loop_fuel n recv (p, buf, [], false))).
Proof.
  revert k p buf raw fr ms. induction n as [n IH] using lt_wf_ind. intros k p buf raw fr ms Hsim Hn Hne Hk.
  destruct n as [|n]; [done|]. destruct k as [|k]; [lia|]. cbn [next_all]. unfold process_next_with_activity.
  pose proof (first_message_ok _ _ _ _ Hne) as H.
  pose proof (first_message_ok _ _ _ _ (recv_enough p buf raw fr false Hsim Hn)) as H'.
  replace (loop_fuel (length buf + 2) next (p, buf, false)) with (loop_fuel (S n) next (p, buf, false)) in *.
  2:{ destruct (le_ge_dec (length buf + 2) (S n)) as [Hle|Hge]; [|symmetry];
        apply loop_fuel_mono; try done; intros E; [by rewrite E in H'|by rewrite E in H]. }
  destruct (loop_fuel (S n) next (p, buf, false)) as [[[p1 b1] a1] [[m|]|e]| |] eqn:En;
    unfold first_message in H.
  - destruct (next_sim _ _ _ _ _ _ _ _ _ _ Hsim En) as (fr1 & Hsim1). destruct H as (k' & Hk' & H).
    rewrite H, recv_carry in Hne |- *.
    rewrite (IH k' Hk' k p1 b1 b1 fr1 (ms ++ [m])); try done; [|by intros ->| |lia].
    + destruct (loop_fuel k' recv _) as [[[[p2 b2] ms2] a2] r| |]; cbn; [by rewrite <- app_assoc|done..].
    + intros E. by rewrite E in Hne.
  - rewrite H. cbn. by rewrite app_nil_r.
  - rewrite H. cbn. by rewrite app_nil_r.
  - by rewrite H.
  - done.
Qed.

(** Successive reads, each read drained message by message. *)
Fixpoint next_reads (p : t) (buf : bytes) (ms : list Message.t) (chunks : list bytes) :
    comp (t * bytes * list Message.t) unit :=
  match chunks with
  | [] => Done (p, buf, ms) (Ok tt)
  | c :: cs => match next_all (length (buf ++ c) + 2) p (buf ++ c) ms with
               | Done (p, buf, ms) (Ok _) => next_reads p buf ms cs
               | r => r
               end
  end.

Lemma next_reads_eq chunks p buf raw fr ms a : sim p buf raw fr -> spec_parse pol raw = Need ->
  bytes_ok (concat chunks) ->
  next_reads p buf ms chunks = drop_flag (receive_all typed_receiver arch slice_addr p buf ms a chunks).
Proof.
  revert p buf raw fr ms a. induction chunks as [|c cs IH]; intros p buf raw fr ms a Hsim Hn Hok; [done|].
  cbn [concat] in Hok. apply bytes_ok_app in Hok as [Hc Hcs]. cbn [next_reads receive_all]. unfold receive_into.
  assert (Hsim' : sim p (buf ++ c) (raw ++ c) fr) by (by apply sim_more).
  assert (Hn' : buf ++ c = [] -> spec_parse pol (raw ++ c) = Need) by (intros [-> ->]%app_eq_nil; by rewrite app_nil_r).
  rewrite (next_all_eq (length (buf ++ c) + 2) _ p (buf ++ c) (raw ++ c) fr ms Hsim' Hn'
    (recv_enough _ _ _ _ _ Hsim' Hn')) by lia.
  pose proof (receive_into_post typed_receiver arch slice_addr Harch id (ref_frame max true) pol sim
    p buf raw fr c Hsim Hn Hc) as H. unfold receive_into in H.
  destruct (loop_fuel _ _ _) as [[[[p1 b1] ms1] a1] [u|e]| |]; try done. cbn.
  destruct H as (fr' & raw' & _ & _ & Hs' & Hn2 & _). by eapply IH.
Qed.
End next.

(** Draining every read with the one-message reader, fast path
    included, ends in the same protocol state and the same unread bytes, delivers
    the same messages in the same order and stops with the same error as the
    batch reader, for every way of cutting the stream. *)
Theorem one_message_reader_equivalent {SU : Simdutf8} {SUok : Simdutf8Spec} arch slice_addr r mf mm chunks :
  arch_ok arch -> bytes_ok (concat chunks) ->
  next_reads arch slice_addr (new r mf mm) [] [] chunks =
  drop_flag (process_reads arch slice_addr (new r mf mm) chunks).
Proof.
  intros Harch Hok. apply (next_reads_eq arch slice_addr Harch mm (initial_policy r mf) chunks _ [] [] None);
    [apply (sim_new r mf mm true)|done|done].
Qed.

Lemma one_message_reader_equivalent_witness :
  next_reads (SU := simdutf8_std) test_arch (fun _ => 0) (new Client 100 100) [] [] [[0x81; 1]; [65; 0x82; 0]] =
  drop_flag (process_reads (SU := simdutf8_std) test_arch (fun _ => 0) (new Client 100 100) [[0x81; 1]; [65; 0x82; 0]]).
Proof.
  apply (one_message_reader_equivalent (SU := simdutf8_std) (SUok := simdutf8_std_spec) test_arch (fun _ => 0)
    Client 100 100 [[0x81; 1]; [65; 0x82; 0]]); [by vm_compute|by repeat constructor].
Defined.
