(* ===== verification/PubSub.v ===== *)
(** * Publish/subscribe (src/src/pubsub.rs)

    The subscriber registry with its two indexes (topic to members, subscriber
    to positions), the socket-id map and message delivery.  Every operation holds the lock of the
    registry for its whole duration, so an execution is a sequence of operations.  [None] is a panic: a failed
    [expect] or [debug_assert], an index out of range, a socket id in use. *)

From stdpp Require Import base gmap list strings fin_maps sets.
From S2P Require Import Prelude Protocol.

Abbreviation SubscriberId := Z (only parsing).
(** A channel handle ([UnboundedSender<Message>]), by identity. *)
Abbreviation Sender := Z (only parsing).

Inductive PublishResult := Published (n : nat) | NoSubscribers.

#[export] Instance PublishResult_eq_dec : EqDecision PublishResult.
Proof. solve_decision. Defined.

Definition count (r : PublishResult) : nat := match r with Published n => n | NoSubscribers => 0%nat end.

Inductive RecipientSnapshot := One (s : Sender) | Many (l : list Sender).

Module Subscriber.
(** [topics]: the position of the subscriber in each topic's member list *)
Record t := Mk { sender : Sender; topics : gmap string nat; socket_id : option string }.
Definition set_topics (m : gmap string nat) (s : t) : t := Mk (sender s) m (socket_id s).
End Subscriber.

Record PubSubData := MkData {
  topics : gmap string (list (SubscriberId * Sender));
  subscribers : gmap SubscriberId Subscriber.t;
  socket_id_map : gmap string SubscriberId
}.

(** The registry and its two counters. *)
Record PubSub := MkPubSub {
  data : PubSubData;
  next_subscriber_id : Z;
  messages_published : Z
}.

Definition set_data (d : PubSubData) (p : PubSub) : PubSub :=
  MkPubSub d (next_subscriber_id p) (messages_published p).

Definition pubsub_new : PubSub := MkPubSub (MkData ∅ ∅ ∅) 1 0.

(** [Vec::swap_remove] *)
Definition swap_remove {A} (l : list A) (position : nat) : option (list A) :=
  x ← last l;
  if decide (position < length l)%nat then Some (take (length l - 1) (<[position := x]> l)) else None.

Definition insert_subscriber (d : PubSubData) (id : SubscriberId) (sender : Sender)
    (socket_id : option string) : option PubSubData :=
  let subscriber := Subscriber.Mk sender ∅ socket_id in
  if bool_decide (is_Some (subscribers d !! id)) then None
  else
    let d' := MkData (topics d) (<[id := subscriber]> (subscribers d)) (socket_id_map d) in
    match socket_id with
    | None => Some d'
    | Some sid =>
        if bool_decide (is_Some (socket_id_map d !! sid)) then None
        else Some (MkData (topics d') (subscribers d') (<[sid := id]> (socket_id_map d')))
    end.

Definition remove_topic_member (d : PubSubData) (topic : string) (position : nat) : option PubSubData :=
  members ← topics d !! topic;
  members ← swap_remove members position;
  let moved := fst <$> members !! position in
  let remove_topic := bool_decide (members = []) in
  let d := MkData (<[topic := members]> (topics d)) (subscribers d) (socket_id_map d) in
  d ← match moved with
      | None => Some d
      | Some moved =>
          s ← subscribers d !! moved;
          _old ← Subscriber.topics s !! topic;
          let s := Subscriber.set_topics (<[topic := position]> (Subscriber.topics s)) s in
          Some (MkData (topics d) (<[moved := s]> (subscribers d)) (socket_id_map d))
      end;
  Some (if remove_topic then MkData (delete topic (topics d)) (subscribers d) (socket_id_map d) else d).

(** [for (topic, position) in ..] over the entries in the order of the iterator *)
Fixpoint remove_topic_members (d : PubSubData) (entries : list (string * nat)) : option PubSubData :=
  match entries with
  | [] => Some d
  | (topic, position) :: entries =>
      d ← remove_topic_member d topic position; remove_topic_members d entries
  end.

(** [order] is the iteration order of the hash map. *)
Definition remove_subscriber_from (order : gmap string nat -> list (string * nat)) (d : PubSubData)
    (id : SubscriberId) : option (PubSubData * option Sender) :=
  match subscribers d !! id with
  | None => Some (d, None)
  | Some s =>
      let d := MkData (topics d) (delete id (subscribers d)) (socket_id_map d) in
      d ← match Subscriber.socket_id s with
          | None => Some d
          | Some sid =>
              if bool_decide (socket_id_map d !! sid = Some id)
              then Some (MkData (topics d) (subscribers d) (delete sid (socket_id_map d)))
              else None
          end;
      d ← remove_topic_members d (order (Subscriber.topics s));
      Some (d, Some (Subscriber.sender s))
  end.

Definition subscribe_in (d : PubSubData) (id : SubscriberId) (topic : string) : PubSubData * bool :=
  match subscribers d !! id with
  | None => (d, false)
  | Some s =>
      if bool_decide (is_Some (Subscriber.topics s !! topic)) then (d, false)
      else
        let members := default [] (topics d !! topic) in
        let s' := Subscriber.set_topics (<[topic := length members]> (Subscriber.topics s)) s in
        (MkData (<[topic := members ++ [(id, Subscriber.sender s)]]> (topics d))
                (<[id := s']> (subscribers d)) (socket_id_map d), true)
  end.

Definition unsubscribe_in (d : PubSubData) (id : SubscriberId) (topic : string) : option (PubSubData * bool) :=
  match subscribers d !! id with
  | None => Some (d, false)
  | Some s =>
      match Subscriber.topics s !! topic with
      | None => Some (d, false)
      | Some position =>
          let s := Subscriber.set_topics (delete topic (Subscriber.topics s)) s in
          d ← remove_topic_member (MkData (topics d) (<[id := s]> (subscribers d)) (socket_id_map d))
                topic position;
          Some (d, true)
      end
  end.

(** ** Public operations *)

(** [self.next_subscriber_id.fetch_add(1, ..)] *)
Definition fresh_id (p : PubSub) : SubscriberId * PubSub :=
  (next_subscriber_id p, MkPubSub (data p) (wrap 64 (next_subscriber_id p + 1)) (messages_published p)).

Definition create_subscriber (p : PubSub) (sender : Sender) : option (PubSub * SubscriberId) :=
  let '(id, p) := fresh_id p in
  d ← insert_subscriber (data p) id sender None;
  Some (set_data d p, id).

Definition remove_subscriber order (p : PubSub) (id : SubscriberId) : option PubSub :=
  '(d, _) ← remove_subscriber_from order (data p) id; Some (set_data d p).

Definition create_subscriber_with_id (p : PubSub) (socket_id : string) (sender : Sender) :
    option (PubSub * SubscriberId) :=
  if bool_decide (is_Some (socket_id_map (data p) !! socket_id)) then None
  else
    let '(id, p) := fresh_id p in
    d ← insert_subscriber (data p) id sender (Some socket_id);
    Some (set_data d p, id).

Definition create_subscriber_with_id_or_get (p : PubSub) (socket_id : string) (sender : Sender) :
    option (PubSub * (SubscriberId * bool)) :=
  match socket_id_map (data p) !! socket_id with
  | Some id => Some (p, (id, false))
  | None =>
      let '(id, p) := fresh_id p in
      d ← insert_subscriber (data p) id sender (Some socket_id);
      Some (set_data d p, (id, true))
  end.

Definition get_subscriber_by_socket_id (p : PubSub) (socket_id : string) : option SubscriberId :=
  socket_id_map (data p) !! socket_id.
Definition get_socket_id (p : PubSub) (id : SubscriberId) : option string :=
  s ← subscribers (data p) !! id; Subscriber.socket_id s.

Definition subscribe (p : PubSub) (id : SubscriberId) (topic : string) : PubSub * bool :=
  let '(d, b) := subscribe_in (data p) id topic in (set_data d p, b).
Definition unsubscribe (p : PubSub) (id : SubscriberId) (topic : string) : option (PubSub * bool) :=
  '(d, b) ← unsubscribe_in (data p) id topic; Some (set_data d p, b).

Definition remove_subscriber_by_socket_id order (p : PubSub) (socket_id : string) : option (PubSub * bool) :=
  match socket_id_map (data p) !! socket_id with
  | None => Some (p, false)
  | Some id =>
      '(d, sender) ← remove_subscriber_from order (data p) id;
      Some (set_data d p, bool_decide (is_Some sender))
  end.
Definition subscribe_by_socket_id (p : PubSub) (socket_id topic : string) : PubSub * bool :=
  match socket_id_map (data p) !! socket_id with
  | None => (p, false)
  | Some id => subscribe p id topic
  end.
Definition unsubscribe_by_socket_id (p : PubSub) (socket_id topic : string) : option (PubSub * bool) :=
  match socket_id_map (data p) !! socket_id with
  | None => Some (p, false)
  | Some id => unsubscribe p id topic
  end.

Definition is_subscribed (p : PubSub) (id : SubscriberId) (topic : string) : bool :=
  match subscribers (data p) !! id with
  | Some s => bool_decide (is_Some (Subscriber.topics s !! topic))
  | None => false
  end.
Definition is_subscribed_by_socket_id (p : PubSub) (socket_id topic : string) : bool :=
  match socket_id_map (data p) !! socket_id with
  | None => false
  | Some id => is_subscribed p id topic
  end.
Definition topic_subscriber_count (p : PubSub) (topic : string) : nat :=
  match topics (data p) !! topic with Some members => length members | None => 0%nat end.
Definition topic_count (p : PubSub) : nat := size (topics (data p)).
Definition subscriber_count (p : PubSub) : nat := size (subscribers (data p)).
(** The key sets; the vectors the code returns list them in an unspecified order. *)
Definition subscriber_topics (p : PubSub) (id : SubscriberId) : gset string :=
  match subscribers (data p) !! id with Some s => dom (Subscriber.topics s) | None => ∅ end.
Definition all_topics (p : PubSub) : gset string := dom (topics (data p)).
Definition all_socket_ids (p : PubSub) : gset string := dom (socket_id_map (data p)).
Definition has_socket_id (p : PubSub) (socket_id : string) : bool :=
  bool_decide (is_Some (socket_id_map (data p) !! socket_id)).

(** ** Delivery *)

(** [exclude.filter(..)]: an identifier that is not a member excludes nobody. *)
Definition effective_exclude (d : PubSubData) (topic : string) (members : list (SubscriberId * Sender))
    (exclude : option SubscriberId) : option SubscriberId :=
  match exclude with
  | None => None
  | Some id =>
      if match members with
         | [(member, _)] => bool_decide (member = id)
         | _ => match subscribers d !! id with
                | Some s => bool_decide (is_Some (Subscriber.topics s !! topic))
                | None => false
                end
         end
      then Some id else None
  end.

(** [recipient_snapshot]; the outer [option] is a panic (a [usize] underflow or an
    index out of range), the inner one the code's. *)
Definition recipient_snapshot (d : PubSubData) (topic : string) (exclude : option SubscriberId) :
    option (option RecipientSnapshot) :=
  match topics d !! topic with
  | None => Some None
  | Some members =>
      let exclude := effective_exclude d topic members exclude in
      let excluded := match exclude with Some _ => 1%nat | None => 0%nat end in
      if decide (length members < excluded)%nat then None
      else if decide (length members - excluded = 1)%nat then
        first ← members !! 0%nat;
        if bool_decide (Some (fst first) = exclude)
        then second ← members !! 1%nat; Some (Some (One (snd second)))
        else Some (Some (One (snd first)))
      else Some (Some (Many (snd <$> filter (fun m => Some (fst m) <> exclude) members)))
  end.

(** [UnboundedSender::send] succeeds while the receiver of the channel is open;
    the log is what the channels have been given. *)
Definition send {M} (is_open : Sender -> bool) (log : list (Sender * M)) (s : Sender) (m : M) :
    list (Sender * M) * bool :=
  if is_open s then (log ++ [(s, m)], true) else (log, false).

Definition send_to_recipients (is_open : Sender -> bool) (p : PubSub) (log : list (Sender * Message.t))
    (recipients : option RecipientSnapshot) (m : Message.t) :
    PubSub * list (Sender * Message.t) * PublishResult :=
  match recipients with
  | None => (p, log, NoSubscribers)
  | Some recipients =>
      let '(log, sent) :=
        match recipients with
        | One s => let '(log, ok) := send is_open log s m in (log, if ok then 1%nat else 0%nat)
        | Many l => foldl (fun '(log, sent) s =>
                             let '(log, ok) := send is_open log s m in
                             (log, if ok then S sent else sent)) (log, 0%nat) l
        end in
      let p := MkPubSub (data p) (next_subscriber_id p) (wrap 64 (messages_published p + 1)) in
      (p, log, if decide (0 < sent)%nat then Published sent else NoSubscribers)
  end.

(** [publish_excluding] with [Some id], [publish] with [None] *)
Definition publish_excluding is_open (p : PubSub) log (exclude : option SubscriberId) (topic : string)
    (m : Message.t) : option (PubSub * list (Sender * Message.t) * PublishResult) :=
  recipients ← recipient_snapshot (data p) topic exclude;
  Some (send_to_recipients is_open p log recipients m).
Definition publish is_open (p : PubSub) log (topic : string) (m : Message.t) :=
  publish_excluding is_open p log None topic m.
Definition publish_excluding_socket_id is_open (p : PubSub) log (socket_id topic : string) (m : Message.t) :=
  publish_excluding is_open p log (socket_id_map (data p) !! socket_id) topic m.
