(* ===== verification/PubSubSpec.v ===== *)
(** * The registry keeps its indexes in step

    The two indexes and the socket-id map always describe the same subscriptions, so no
    [expect] of the code can fail; every operation acts on the abstract registry (a subscriber
    has a channel, a set of topics and a socket id) as documented; a publication reaches
    each subscriber of the topic exactly once. *)

From stdpp Require Import base gmap list strings fin_maps sets.
From S2P Require Import Prelude Protocol PubSub.

(** ** Invariant *)

(** [holes] are entries of subscriber [id] in the topic index that the reverse
    index no longer has: an operation on the way. *)
Record indexed (d : PubSubData) (id : Z) (holes : gmap string nat) : Prop := {
  i_forward : forall i s topic pos, subscribers d !! i = Some s -> Subscriber.topics s !! topic = Some pos ->
    exists members, topics d !! topic = Some members /\ members !! pos = Some (i, Subscriber.sender s);
  i_backward : forall topic members pos i snd, topics d !! topic = Some members -> members !! pos = Some (i, snd) ->
    (i = id /\ holes !! topic = Some pos) \/
    (exists s, subscribers d !! i = Some s /\ Subscriber.topics s !! topic = Some pos /\ Subscriber.sender s = snd);
  i_holes : forall topic pos, holes !! topic = Some pos ->
    (exists members snd, topics d !! topic = Some members /\ members !! pos = Some (id, snd)) /\
    (forall s, subscribers d !! id = Some s -> Subscriber.topics s !! topic = None);
  i_nonempty : forall topic members, topics d !! topic = Some members -> members <> []
}.

(** The socket-id map is the inverse of the socket ids of the subscribers. *)
Definition sockets_ok (d : PubSubData) : Prop :=
  forall sid i, socket_id_map d !! sid = Some i <->
    exists s, subscribers d !! i = Some s /\ Subscriber.socket_id s = Some sid.

Record registry_ok (p : PubSub) : Prop := {
  r_indexed : forall id, indexed (data p) id ∅;
  r_sockets : sockets_ok (data p);
  r_fresh : forall i, is_Some (subscribers (data p) !! i) -> 0 <= i < next_subscriber_id p;
  r_next : 0 <= next_subscriber_id p
}.

(** ** What the indexes stand for *)

Record entry := MkEntry { e_sender : Z; e_topics : gset string; e_socket : option string }.

Definition entry_of (s : Subscriber.t) : entry :=
  MkEntry (Subscriber.sender s) (dom (Subscriber.topics s)) (Subscriber.socket_id s).
Definition abs (d : PubSubData) : gmap Z entry := entry_of <$> subscribers d.

(** ** [swap_remove] *)

Lemma swap_remove_spec {A} (l : list A) pos x : l !! pos = Some x ->
  exists l', swap_remove l pos = Some l' /\ length l = S (length l') /\
    (forall i, l' !! i = if decide (i < length l')%nat
                         then (if decide (i = pos) then l !! length l' else l !! i) else None).
Proof.
  intros Hx. pose proof (lookup_lt_Some _ _ _ Hx) as Hlt. unfold swap_remove.
  destruct (last l) as [y|] eqn:Hl; [|by apply last_None in Hl; subst]. cbn. rewrite decide_True by done.
  eexists. split; [done|]. rewrite last_lookup in Hl.
  rewrite length_take, length_insert. split; [lia|]. intros i.
  replace (pred (length l)) with (length l - 1)%nat in Hl by lia.
  replace ((length l - 1) `min` length l)%nat with (length l - 1)%nat by lia.
  destruct (decide (i < length l - 1)%nat) as [Hi|Hi].
  - rewrite lookup_take_lt by done. destruct (decide (i = pos)) as [->|Hne].
    + by rewrite list_lookup_insert_eq, Hl by done.
    + by rewrite list_lookup_insert_ne by done.
  - rewrite lookup_take_ge by lia. done.
Qed.

(** A subscriber appears once in a member list. *)
Lemma members_unique d id holes topic l i j a x y : indexed d id holes -> topics d !! topic = Some l ->
  l !! i = Some (a, x) -> l !! j = Some (a, y) -> i = j.
Proof.
  intros Hd Hl Hi Hj.
  destruct (i_backward _ _ _ Hd _ _ _ _ _ Hl Hi) as [[-> Hhi]|(s & Hs & Hsi & _)];
    destruct (i_backward _ _ _ Hd _ _ _ _ _ Hl Hj) as [[Eid Hhj]|(s' & Hs' & Hsj & _)]; subst.
  - congruence.
  - destruct (i_holes _ _ _ Hd _ _ Hhi) as [_ Hn]. rewrite (Hn _ Hs') in Hsj. done.
  - destruct (i_holes _ _ _ Hd _ _ Hhj) as [_ Hn]. rewrite (Hn _ Hs) in Hsi. done.
  - congruence.
Qed.

Lemma abs_insert_position d a s topic pos : subscribers d !! a = Some s -> is_Some (Subscriber.topics s !! topic) ->
  entry_of <$> <[a := Subscriber.set_topics (<[topic := pos]> (Subscriber.topics s)) s]> (subscribers d) = abs d.
Proof.
  intros Hs Ht. unfold abs. rewrite fmap_insert. apply insert_id. rewrite lookup_fmap, Hs. cbn. f_equal.
  unfold entry_of. cbn. f_equal. rewrite dom_insert_L. symmetry. apply subseteq_union_L.
  apply singleton_subseteq_l. by apply elem_of_dom.
Qed.

(** Filling one hole: [l'] is the member list [l] of [T] with the entry at [pos] replaced by the last one. *)
Section DeleteHole.
Context (d : PubSubData) (tp : gmap string (list (Z * Z))) (subs : gmap Z Subscriber.t)
  (id : Z) (holes : gmap string nat) (T : string) (pos : nat) (l l' : list (Z * Z)).

(** Positions change only for the member moved into the gap. *)
Definition moved_topics (s : Subscriber.t) : gmap string nat :=
  if decide (Subscriber.topics s !! T = Some (length l') /\ length l' <> pos)
  then <[T := pos]> (Subscriber.topics s) else Subscriber.topics s.

Context (Hd : indexed d id holes) (Hl : topics d !! T = Some l) (Hh : holes !! T = Some pos)
  (Hlen : length l = S (length l'))
  (Hlk : forall i, l' !! i = if decide (i < length l')%nat
                             then (if decide (i = pos) then l !! length l' else l !! i) else None)
  (Htp : forall T', tp !! T' = if decide (T' = T) then (if decide (l' = []) then None else Some l') else topics d !! T')
  (Hsubs : forall i s', subs !! i = Some s' <-> exists s, subscribers d !! i = Some s /\
     Subscriber.sender s' = Subscriber.sender s /\ Subscriber.socket_id s' = Subscriber.socket_id s /\
     Subscriber.topics s' = moved_topics s).

Lemma hole_here : (exists x, l !! pos = Some (id, x)) /\
  (forall s, subscribers d !! id = Some s -> Subscriber.topics s !! T = None) /\ (pos < S (length l'))%nat.
Proof.
  destruct (i_holes _ _ _ Hd _ _ Hh) as [(l2 & x & Hl2 & Hpos) Hnone]. rewrite Hl in Hl2. injection Hl2 as <-.
  split; [by exists x|]. split; [done|]. rewrite <- Hlen. by eapply lookup_lt_Some.
Qed.

Lemma moved_topics_ne s T' : T' <> T -> moved_topics s !! T' = Subscriber.topics s !! T'.
Proof.
  intros. unfold moved_topics. destruct (decide (Subscriber.topics s !! T = Some (length l') /\ length l' <> pos)); [by rewrite lookup_insert_ne|done].
Qed.

Lemma delete_hole_forward i s' T' p : subs !! i = Some s' -> Subscriber.topics s' !! T' = Some p ->
  exists m, tp !! T' = Some m /\ m !! p = Some (i, Subscriber.sender s').
Proof.
  intros Hs' Hp. destruct hole_here as ((x & Hpos) & Hnone & Hposlt). apply Hsubs in Hs' as (s & Hs & Hsend & _ & Ht). rewrite Hsend.
  destruct (decide (T' = T)) as [->|HT].
  - assert (Hcase : exists q, Subscriber.topics s !! T = Some q /\
      ((q = length l' /\ q <> pos /\ p = pos) \/ (~ (q = length l' /\ length l' <> pos) /\ p = q))).
    { rewrite Ht in Hp. unfold moved_topics in Hp.
        destruct (decide (Subscriber.topics s !! T = Some (length l') /\ length l' <> pos)) as [Hq|Hq].
      - destruct Hq as [Hq Hne]. rewrite lookup_insert_eq in Hp. injection Hp as <-. exists (length l'). split; [done|]. left. done.
      - exists p. split; [done|]. right. split; [|done]. intros [-> ?]. by apply Hq. }
    destruct Hcase as (q & Hq & Hc). destruct (i_forward _ _ _ Hd _ _ _ _ Hs Hq) as (m & Hm & Hmq).
    rewrite Hl in Hm. injection Hm as <-. pose proof (lookup_lt_Some _ _ _ Hmq) as Hqlt.
    assert (Hi : i <> id). { intros ->. rewrite (Hnone _ Hs) in Hq. done. }
    assert (Hqp : q <> pos). { intros ->. rewrite Hpos in Hmq. congruence. }
    assert (Hget : l' !! p = Some (i, Subscriber.sender s)).
    { rewrite Hlk. destruct Hc as [(-> & _ & ->)|[Hc ->]].
      - rewrite decide_True, decide_True by (done || lia). done.
      - rewrite decide_True, decide_False by (done || lia). done. }
    exists l'. split; [|done]. rewrite Htp, decide_True by done.
    rewrite decide_False; [done|]. intros ->. done.
  - assert (Hp' : Subscriber.topics s !! T' = Some p).
    { by rewrite Ht, moved_topics_ne in Hp. }
    destruct (i_forward _ _ _ Hd _ _ _ _ Hs Hp') as (m & Hm & Hmp). exists m. split; [|done].
    by rewrite Htp, decide_False.
Qed.

Lemma delete_hole_backward T' m p i x : tp !! T' = Some m -> m !! p = Some (i, x) ->
  (i = id /\ delete T holes !! T' = Some p) \/
  exists s, subs !! i = Some s /\ Subscriber.topics s !! T' = Some p /\ Subscriber.sender s = x.
Proof.
  intros Hm Hp. destruct hole_here as ((x0 & Hpos) & Hnone & Hposlt). rewrite Htp in Hm. destruct (decide (T' = T)) as [->|HT].
  - destruct (decide (l' = [])); [done|]. injection Hm as <-. right. rewrite Hlk in Hp.
    destruct (decide (p < length l')%nat) as [Hplt|]; [|done].
    assert (Hold : exists q, l !! q = Some (i, x) /\ q <> pos /\
      ((q = length l' /\ p = pos) \/ (q = p /\ q <> length l'))).
    { destruct (decide (p = pos)) as [->|Hne].
      - exists (length l'). split; [done|]. split; [lia|by left].
      - exists p. split; [done|]. split; [done|right; split; [done|lia]]. }
    destruct Hold as (q & Hq & Hqp & Hc).
    assert (Hi : i <> id). { intros ->. apply Hqp. by eapply members_unique. }
    destruct (i_backward _ _ _ Hd _ _ _ _ _ Hl Hq) as [[? _]|(s & Hs & Hsq & Hsend)]; [done|].
    exists (Subscriber.Mk (Subscriber.sender s) (moved_topics s) (Subscriber.socket_id s)).
    split; [apply Hsubs; by exists s|]. cbn. split; [|done]. unfold moved_topics. destruct Hc as [(-> & ->)|(-> & Hne)].
    + rewrite decide_True by (split; [done|lia]). by rewrite lookup_insert_eq.
    + rewrite decide_False; [done|]. intros [Hx _]. congruence.
  - destruct (i_backward _ _ _ Hd _ _ _ _ _ Hm Hp) as [[-> Hh']|(s & Hs & Hsp & Hsend)].
    + left. by rewrite lookup_delete_ne.
    + right. exists (Subscriber.Mk (Subscriber.sender s) (moved_topics s) (Subscriber.socket_id s)).
      split; [apply Hsubs; by exists s|]. cbn. split; [|done]. by rewrite moved_topics_ne.
Qed.

Lemma indexed_delete_hole : indexed (MkData tp subs (socket_id_map d)) id (delete T holes).
Proof.
  split; cbn; [exact delete_hole_forward|exact delete_hole_backward|..].
  - intros T' p Hp. apply lookup_delete_Some in Hp as [HT Hp]. destruct (i_holes _ _ _ Hd _ _ Hp) as [(m & x & Hm & Hx) Hn].
    split; [exists m, x; split; [by rewrite Htp, decide_False|done]|].
    intros s' Hs'. apply Hsubs in Hs' as (s & Hs & _ & _ & ->). rewrite moved_topics_ne by done. auto.
  - intros T' m. rewrite Htp. destruct (decide (T' = T)).
    + destruct (decide (l' = [])); [done|]. by intros [= <-].
    + apply (i_nonempty _ _ _ Hd).
Qed.
End DeleteHole.

Lemma subscriber_eta s s' : Subscriber.sender s' = Subscriber.sender s ->
  Subscriber.socket_id s' = Subscriber.socket_id s -> Subscriber.topics s' = Subscriber.topics s -> s' = s.
Proof. destruct s, s'. cbn. congruence. Qed.

(** Filling a hole never panics and changes positions only. *)
Lemma remove_topic_member_ok d id holes T pos : indexed d id holes -> holes !! T = Some pos ->
  exists d', remove_topic_member d T pos = Some d' /\ indexed d' id (delete T holes) /\
    abs d' = abs d /\ socket_id_map d' = socket_id_map d.
Proof.
  intros Hd Hh. destruct (i_holes _ _ _ Hd _ _ Hh) as [(l & x & Hl & Hpos) Hnone].
  destruct (swap_remove_spec l pos _ Hpos) as (l' & E & Hlen & Hlk).
  unfold remove_topic_member. rewrite Hl. cbn. rewrite E. cbn.
  pose proof (lookup_lt_Some _ _ _ Hpos) as Hposlt. rewrite Hlen in Hposlt.
  destruct (decide (pos = length l')) as [Heq|Hne].
  - assert (Hgone : l' !! pos = None) by (by rewrite Hlk, decide_False by lia). rewrite Hgone. cbn.
    assert (Hsubs : forall i s', subscribers d !! i = Some s' <-> exists s, subscribers d !! i = Some s /\
     Subscriber.sender s' = Subscriber.sender s /\ Subscriber.socket_id s' = Subscriber.socket_id s /\
     Subscriber.topics s' = if decide (Subscriber.topics s !! T = Some (length l') /\ length l' <> pos)
                            then <[T := pos]> (Subscriber.topics s) else Subscriber.topics s).
    { intros i s'. split.
      - intros Hs. exists s'. split_and!; try done. rewrite decide_False; [done|]. by intros [_ ?].
      - intros (s & Hs & H1 & H2 & H3). rewrite decide_False in H3 by (by intros [_ ?]).
        by rewrite (subscriber_eta s s'). }
    eexists. split; [done|]. case_bool_decide as Hnil.
    + split; [|done]. eapply (indexed_delete_hole d _ _ _ _ _ pos l l'); try done.
      intros T'. cbn. destruct (decide (T' = T)) as [->|?]; [|by rewrite lookup_delete_ne, lookup_insert_ne].
      rewrite decide_True by done. apply lookup_delete_eq.
    + split; [|done]. eapply (indexed_delete_hole d _ _ _ _ _ pos l l'); try done.
      intros T'. cbn. destruct (decide (T' = T)) as [->|?]; [|by rewrite lookup_insert_ne].
      rewrite decide_False by done. apply lookup_insert_eq.
  - assert (Hplt : (pos < length l')%nat) by lia.
    destruct (lookup_lt_is_Some_2 l (length l')) as [[a sa] Ha]; [lia|].
    assert (Hmoved : l' !! pos = Some (a, sa)) by (rewrite Hlk, !decide_True by done; done). rewrite Hmoved. cbn.
    assert (Haid : a <> id). { intros ->. apply Hne. by eapply members_unique. }
    destruct (i_backward _ _ _ Hd _ _ _ _ _ Hl Ha) as [[? _]|(s & Hs & Hst & Hsend)]; [done|].
    rewrite Hs. cbn. rewrite Hst. cbn. rewrite bool_decide_eq_false_2 by (intros ->; done).
    eexists. split; [done|]. split; [|split; [by apply abs_insert_position|done]].
    eapply (indexed_delete_hole d _ _ _ _ _ pos l l'); try done.
    + intros T'. destruct (decide (T' = T)) as [->|?]; [|by rewrite lookup_insert_ne].
      rewrite decide_False by (intros ->; done). apply lookup_insert_eq.
    + unfold moved_topics. intros i s'. destruct (decide (i = a)) as [->|Hia].
      * rewrite lookup_insert_eq. split.
        -- intros [= <-]. exists s. split_and!; try done. cbn. by rewrite decide_True.
        -- intros (s2 & Hs2 & H1 & H2 & H3). rewrite Hs in Hs2. injection Hs2 as <-. rewrite decide_True in H3 by done.
           f_equal. symmetry. by apply subscriber_eta.
      * rewrite lookup_insert_ne by done.
        assert (Hno : forall s2, subscribers d !! i = Some s2 ->
          ~ (Subscriber.topics s2 !! T = Some (length l') /\ length l' <> pos)).
        { intros s2 Hs2 [Hx _]. destruct (i_forward _ _ _ Hd _ _ _ _ Hs2 Hx) as (m & Hm & Hmx).
          rewrite Hl in Hm. injection Hm as <-. rewrite Ha in Hmx. congruence. }
        split.
        -- intros Hs'. exists s'. split_and!; try done. by rewrite decide_False by (by apply Hno).
        -- intros (s2 & Hs2 & H1 & H2 & H3). rewrite decide_False in H3 by (by apply Hno).
           by rewrite (subscriber_eta s2 s').
Qed.

Lemma indexed_any d id id' : indexed d id ∅ -> indexed d id' ∅.
Proof.
  intros [Hf Hb _ Hn]. split; try done. intros topic members pos i x Hm Hp.
  destruct (Hb _ _ _ _ _ Hm Hp) as [[_ H]|H]; [by rewrite lookup_empty in H|by right].
Qed.

(** Dropping some entries of a reverse index opens holes in the topic index. *)
Lemma open_holes d id s (kept holes : gmap string nat) subs sm : indexed d id ∅ -> subscribers d !! id = Some s ->
  (forall T, Subscriber.topics s !! T = match kept !! T with Some p => Some p | None => holes !! T end) ->
  (forall T p, holes !! T = Some p -> kept !! T = None) ->
  subs = delete id (subscribers d) /\ kept = ∅ \/ subs = <[id := Subscriber.set_topics kept s]> (subscribers d) ->
  indexed (MkData (topics d) subs sm) id holes.
Proof.
  intros Hd Hs Hsplit Hdisj Hsubs.
  assert (Hget : forall i s', subs !! i = Some s' ->
    (i = id /\ s' = Subscriber.set_topics kept s) \/ (i <> id /\ subscribers d !! i = Some s')).
  { intros i s'. destruct Hsubs as [[-> _] | ->].
    - intros [? ?]%lookup_delete_Some. right. done.
    - intros [[<- <-]|[? ?]]%lookup_insert_Some; [by left|right; done]. }
  assert (Hput : forall i s', i <> id -> subscribers d !! i = Some s' -> subs !! i = Some s').
  { intros i s' Hi Hs'. destruct Hsubs as [[-> _] | ->]; [by rewrite lookup_delete_ne|by rewrite lookup_insert_ne]. }
  split; cbn.
  - intros i s' T p Hi Hp. apply Hget in Hi as [[-> ->]|[Hi Hs']]; [|by eapply (i_forward _ _ _ Hd)].
    cbn in Hp. apply (i_forward _ _ _ Hd _ s); [done|]. by rewrite Hsplit, Hp.
  - intros T m p i x Hm Hp. destruct (i_backward _ _ _ Hd _ _ _ _ _ Hm Hp) as [[_ H]|(s' & Hs' & Ht & Hx)];
      [by rewrite lookup_empty in H|]. destruct (decide (i = id)) as [->|Hi]; [|right; exists s'; auto].
    rewrite Hs in Hs'. injection Hs' as <-. rewrite Hsplit in Ht. destruct (kept !! T) as [q|] eqn:Ek; [|by left].
    injection Ht as ->. right. exists (Subscriber.set_topics kept s). split_and!; try done.
    destruct Hsubs as [[_ ->] | ->]; [by rewrite lookup_empty in Ek|apply lookup_insert_eq].
  - intros T p Hp. pose proof (Hdisj _ _ Hp) as Hk. split.
    + destruct (i_forward _ _ _ Hd id s T p Hs) as (m & Hm & Hmp); [by rewrite Hsplit, Hk|]. eauto.
    + intros s' Hs'. by apply Hget in Hs' as [[_ ->]|[? _]].
  - apply (i_nonempty _ _ _ Hd).
Qed.

Lemma remove_topic_members_ok entries d id holes : indexed d id holes ->
  (forall T p, (T, p) ∈ entries -> holes !! T = Some p) -> NoDup entries.*1 ->
  exists d', remove_topic_members d entries = Some d' /\
    indexed d' id (foldr (fun e h => delete (fst e) h) holes entries) /\
    abs d' = abs d /\ socket_id_map d' = socket_id_map d.
Proof.
  revert d holes. induction entries as [|[T p] entries IH]; intros d holes Hd Hin Hnd; [by exists d|].
  cbn in Hnd. apply NoDup_cons in Hnd as [Hnot Hnd].
  destruct (remove_topic_member_ok d id holes T p Hd) as (d1 & E1 & Hd1 & Ha1 & Hsm1).
  { apply Hin. by left. }
  destruct (IH d1 (delete T holes) Hd1) as (d2 & E2 & Hd2 & Ha2 & Hsm2); [|done|].
  { intros T' p' Hel. rewrite lookup_delete_ne.
    - apply Hin. by right.
    - intros ->. apply Hnot. apply list_elem_of_fmap. by exists (T', p'). }
  exists d2. cbn. rewrite E1. cbn. split; [done|]. split; [|split; congruence].
  replace (delete T (foldr (fun e h => delete (fst e) h) holes entries))
    with (foldr (fun e h => delete (fst e) h) (delete T holes) entries); [done|].
  clear. induction entries as [|e entries IH]; [done|]. cbn. rewrite IH. apply delete_delete.
Qed.

Lemma all_holes_filled (m : gmap string nat) entries : entries ≡ₚ map_to_list m ->
  foldr (fun e h => delete (fst e) h) m entries = ∅.
Proof.
  intros Hperm. apply map_empty. intros T.
  assert (H : forall l : list (string * nat), foldr (fun e h => delete (fst e) h) m l !! T = if decide (T ∈ l.*1) then None else m !! T).
  { induction l as [|[T' p] l IH]; cbn; [by rewrite decide_False by set_solver|].
    destruct (decide (T = T')) as [->|Hne].
    - rewrite lookup_delete_eq, decide_True by (by left). done.
    - rewrite lookup_delete_ne, IH by done. apply decide_ext. rewrite elem_of_cons. tauto. }
  rewrite H. destruct (decide (T ∈ entries.*1)) as [|Hn]; [done|].
  destruct (m !! T) as [p|] eqn:E; [|done]. exfalso. apply Hn. rewrite Hperm. apply list_elem_of_fmap.
  exists (T, p). split; [done|]. by apply elem_of_map_to_list.
Qed.

(** ** Each operation on the abstract registry *)

Definition spec_subscribe (m : gmap Z entry) (id : Z) (topic : string) : gmap Z entry * bool :=
  match m !! id with
  | Some e => if decide (topic ∈ e_topics e) then (m, false)
              else (<[id := MkEntry (e_sender e) ({[topic]} ∪ e_topics e) (e_socket e)]> m, true)
  | None => (m, false)
  end.
Definition spec_unsubscribe (m : gmap Z entry) (id : Z) (topic : string) : gmap Z entry * bool :=
  match m !! id with
  | Some e => if decide (topic ∈ e_topics e)
              then (<[id := MkEntry (e_sender e) (e_topics e ∖ {[topic]}) (e_socket e)]> m, true)
              else (m, false)
  | None => (m, false)
  end.

Lemma abs_lookup d id : abs d !! id = entry_of <$> subscribers d !! id.
Proof. apply lookup_fmap. Qed.

Lemma subscribe_in_ok d id topic : indexed d id ∅ ->
  let '(d', b) := subscribe_in d id topic in
  indexed d' id ∅ /\ (abs d', b) = spec_subscribe (abs d) id topic /\ socket_id_map d' = socket_id_map d.
Proof.
  intros Hd. unfold subscribe_in, spec_subscribe. rewrite abs_lookup.
  destruct (subscribers d !! id) as [s|] eqn:Hs; cbn; [|done].
  case_bool_decide as Hsub; [by rewrite decide_True by (by apply elem_of_dom)|].
  rewrite decide_False by (by rewrite elem_of_dom).
  apply eq_None_not_Some in Hsub. set (l := default [] (topics d !! topic)).
  assert (Hl : forall pos x, l !! pos = Some x -> topics d !! topic = Some l).
  { intros pos x. unfold l. by destruct (topics d !! topic). }
  split; [|split; [|done]].
  - split; cbn.
    + intros i s' T p Hi Hp. apply lookup_insert_Some in Hi as [[<- <-]|[Hne Hi]]; cbn in *.
      * apply lookup_insert_Some in Hp as [[<- <-]|[HT Hp]].
        -- exists (l ++ [(id, Subscriber.sender s)]). rewrite lookup_insert_eq. split; [done|].
           rewrite lookup_app_r, Nat.sub_diag by lia. done.
        -- rewrite lookup_insert_ne by done. by eapply (i_forward _ _ _ Hd).
      * destruct (i_forward _ _ _ Hd _ _ _ _ Hi Hp) as (m & Hm & Hmp). destruct (decide (T = topic)) as [->|HT].
        -- exists (l ++ [(id, Subscriber.sender s)]). rewrite lookup_insert_eq. split; [done|].
           assert (l = m) as -> by (unfold l; by rewrite Hm). rewrite lookup_app_l; [done|]. by eapply lookup_lt_Some.
        -- exists m. by rewrite lookup_insert_ne.
    + intros T m p i x Hm Hp. right. apply lookup_insert_Some in Hm as [[<- <-]|[HT Hm]].
      * apply lookup_app_Some in Hp as [Hp|[Hge Hp]].
        -- destruct (i_backward _ _ _ Hd _ _ _ _ _ (Hl _ _ Hp) Hp) as [[_ H]|(s' & Hs' & Ht & Hx)];
             [by rewrite lookup_empty in H|].
           destruct (decide (i = id)) as [->|Hi]; [congruence|]. exists s'. by rewrite lookup_insert_ne.
        -- apply list_lookup_singleton_Some in Hp as [Hp [= <- <-]].
           assert (p = length l) as -> by lia. exists (Subscriber.set_topics (<[topic:=length l]> (Subscriber.topics s)) s).
           by rewrite lookup_insert_eq; cbn; rewrite lookup_insert_eq.
      * destruct (i_backward _ _ _ Hd _ _ _ _ _ Hm Hp) as [[_ H]|(s' & Hs' & Ht & Hx)]; [by rewrite lookup_empty in H|].
        destruct (decide (i = id)) as [->|Hi]; [|exists s'; by rewrite lookup_insert_ne].
        rewrite Hs in Hs'. injection Hs' as <-. eexists. rewrite lookup_insert_eq. split; [done|]. cbn.
        by rewrite lookup_insert_ne.
    + intros T p Hp. by rewrite lookup_empty in Hp.
    + intros T m Hm. apply lookup_insert_Some in Hm as [[_ <-]|[_ Hm]]; [by destruct l|by eapply (i_nonempty _ _ _ Hd)].
  - unfold abs. cbn. rewrite fmap_insert. do 3 f_equal. unfold entry_of. cbn. f_equal. by rewrite dom_insert_L.
Qed.

Lemma unsubscribe_in_ok d id topic : indexed d id ∅ -> exists d' b, unsubscribe_in d id topic = Some (d', b) /\
  indexed d' id ∅ /\ (abs d', b) = spec_unsubscribe (abs d) id topic /\ socket_id_map d' = socket_id_map d.
Proof.
  intros Hd. unfold unsubscribe_in, spec_unsubscribe. rewrite abs_lookup.
  destruct (subscribers d !! id) as [s|] eqn:Hs; cbn; [|by exists d, false].
  destruct (Subscriber.topics s !! topic) as [pos|] eqn:Hp.
  2:{ exists d, false. split_and!; try done. rewrite decide_False; [done|]. rewrite elem_of_dom, Hp. by intros [? ?]. }
  rewrite decide_True by (apply elem_of_dom; eauto).
  destruct (remove_topic_member_ok (MkData (topics d)
    (<[id := Subscriber.set_topics (delete topic (Subscriber.topics s)) s]> (subscribers d)) (socket_id_map d))
    id {[topic := pos]} topic pos) as (d' & E & Hd' & Ha & Hsm).
  - eapply (open_holes d id s (delete topic (Subscriber.topics s))); try done; [| |by right].
    + intros T. destruct (decide (T = topic)) as [->|HT].
      * by rewrite lookup_delete_eq, lookup_singleton_eq.
      * rewrite lookup_delete_ne, lookup_singleton_ne by done. by destruct (_ !! T).
    + intros T p [<- <-]%lookup_singleton_Some. apply lookup_delete_eq.
  - apply lookup_singleton_eq.
  - rewrite E. cbn. exists d', true. split; [done|]. rewrite delete_singleton_eq in Hd'.
    split_and!; [done| |done]. f_equal. rewrite Ha. unfold abs. cbn. rewrite fmap_insert. f_equal.
    unfold entry_of. cbn. f_equal. apply dom_delete_L.
Qed.

(** The socket-id map only depends on the socket ids of the abstract registry. *)
Lemma sockets_ok_ext d d' : sockets_ok d -> e_socket <$> abs d' = e_socket <$> abs d ->
  socket_id_map d' = socket_id_map d -> sockets_ok d'.
Proof.
  intros Hs Ha Hm sid i. rewrite Hm, (Hs sid i).
  assert (Hi : forall d, (exists s, subscribers d !! i = Some s /\ Subscriber.socket_id s = Some sid) <->
                         (e_socket <$> abs d) !! i = Some (Some sid)).
  { intros d0. rewrite lookup_fmap, abs_lookup. destruct (subscribers d0 !! i) as [s|]; cbn; split.
    - by intros (s' & [= <-] & ->).
    - intros [= H]. eauto.
    - by intros (? & ? & _).
    - done. }
  by rewrite !Hi, Ha.
Qed.

Lemma remove_subscriber_from_ok order d id : (forall m, order m ≡ₚ map_to_list m) -> indexed d id ∅ -> sockets_ok d ->
  exists d' r, remove_subscriber_from order d id = Some (d', r) /\ indexed d' id ∅ /\ sockets_ok d' /\
    abs d' = delete id (abs d) /\ r = e_sender <$> abs d !! id.
Proof.
  intros Horder Hd Hsock. unfold remove_subscriber_from. rewrite abs_lookup.
  destruct (subscribers d !! id) as [s|] eqn:Hs; cbn.
  2:{ exists d, None. split_and!; try done. symmetry. apply delete_id. by rewrite abs_lookup, Hs. }
  set (sm := match Subscriber.socket_id s with Some sid => delete sid (socket_id_map d) | None => socket_id_map d end).
  assert (Hmid : indexed (MkData (topics d) (delete id (subscribers d)) sm) id (Subscriber.topics s)).
  { eapply (open_holes d id s ∅); try done. by left. }
  destruct (remove_topic_members_ok (order (Subscriber.topics s)) _ _ _ Hmid) as (d' & E & Hd' & Ha & Hsm).
  { intros T p. rewrite Horder. apply elem_of_map_to_list. }
  { rewrite Horder. apply NoDup_fst_map_to_list. }
  assert (Estep : match Subscriber.socket_id s with
    | Some sid => if bool_decide (socket_id_map d !! sid = Some id)
                  then Some (MkData (topics d) (delete id (subscribers d)) (delete sid (socket_id_map d))) else None
    | None => Some (MkData (topics d) (delete id (subscribers d)) (socket_id_map d))
    end = Some (MkData (topics d) (delete id (subscribers d)) sm)).
  { unfold sm. destruct (Subscriber.socket_id s) as [sid|] eqn:Es; [|done].
    by rewrite bool_decide_eq_true_2 by (apply Hsock; eauto). }
  rewrite Estep. cbn. rewrite E. cbn. rewrite all_holes_filled in Hd' by done.
  exists d', (Some (Subscriber.sender s)). split_and!; try done.
  - eapply sockets_ok_ext; [|by rewrite Ha|exact Hsm]. intros sid i. cbn. unfold sm.
    destruct (Subscriber.socket_id s) as [sid'|] eqn:Es.
    + rewrite lookup_delete_Some, (Hsock sid i). setoid_rewrite lookup_delete_Some. split.
      * intros [Hne (s' & Hs' & Hsid)]. exists s'. split_and!; try done. intros ->. congruence.
      * intros (s' & [Hne Hs'] & Hsid). split; [|eauto]. intros <-. apply Hne.
        assert (Some id = Some i) by (rewrite <- (proj2 (Hsock sid' id)), <- (proj2 (Hsock sid' i)); eauto). congruence.
    + rewrite (Hsock sid i). setoid_rewrite lookup_delete_Some. split.
      * intros (s' & Hs' & Hsid). exists s'. split_and!; try done. intros ->. congruence.
      * intros (s' & [Hne Hs'] & Hsid). eauto.
  - rewrite Ha. unfold abs. cbn. apply fmap_delete.
Qed.

Lemma insert_subscriber_ok d id sender sock : indexed d id ∅ -> sockets_ok d -> subscribers d !! id = None ->
  (forall sid, sock = Some sid -> socket_id_map d !! sid = None) ->
  exists d', insert_subscriber d id sender sock = Some d' /\ indexed d' id ∅ /\ sockets_ok d' /\
    abs d' = <[id := MkEntry sender ∅ sock]> (abs d).
Proof.
  intros Hd Hsock Hnone Hfree. unfold insert_subscriber.
  rewrite bool_decide_eq_false_2 by (rewrite Hnone; by intros [? ?]).
  assert (Hidx : forall sm, indexed (MkData (topics d) (<[id := Subscriber.Mk sender ∅ sock]> (subscribers d)) sm) id ∅).
  { intros sm. split; cbn.
    - intros i s T p Hi Hp. apply lookup_insert_Some in Hi as [[<- <-]|[Hne Hi]];
        [cbn in Hp; by rewrite lookup_empty in Hp|by eapply (i_forward _ _ _ Hd)].
    - intros T m p i x Hm Hp. right. destruct (i_backward _ _ _ Hd _ _ _ _ _ Hm Hp) as [[_ H]|(s & Hs & Ht & Hx)];
        [by rewrite lookup_empty in H|]. exists s. rewrite lookup_insert_ne; [done|]. intros ->. congruence.
    - intros T p Hp. by rewrite lookup_empty in Hp.
    - apply (i_nonempty _ _ _ Hd). }
  assert (Hold : forall sid i, socket_id_map d !! sid = Some i <->
    exists s, i <> id /\ subscribers d !! i = Some s /\ Subscriber.socket_id s = Some sid).
  { intros sid i. rewrite (Hsock sid i). split.
    - intros (s & Hs & Hsid). exists s. split_and!; try done. intros ->. congruence.
    - intros (s & _ & Hs & Hsid). eauto. }
  assert (Hnew : forall i sid, (exists s, <[id := Subscriber.Mk sender ∅ sock]> (subscribers d) !! i = Some s /\
      Subscriber.socket_id s = Some sid) <-> (i = id /\ sock = Some sid) \/ socket_id_map d !! sid = Some i).
  { intros i sid. rewrite Hold. split.
    - intros (s & [[<- <-]|[Hne Hs]]%lookup_insert_Some & Hsid); [by left|right; eauto].
    - intros [[-> Hsid]|(s & Hne & Hs & Hsid)]; eexists; [by rewrite lookup_insert_eq|by rewrite lookup_insert_ne]. }
  destruct sock as [sid|].
  - cbn. rewrite bool_decide_eq_false_2 by (rewrite (Hfree sid eq_refl); by intros [? ?]).
    eexists. split; [done|]. split; [apply Hidx|]. split; [|unfold abs; cbn; rewrite fmap_insert; unfold entry_of; cbn; by rewrite dom_empty_L].
    intros sid' i. cbn. rewrite Hnew, lookup_insert_Some. split.
    + intros [[<- <-]|[Hne H]]; [by left|by right].
    + intros [[-> [= ->]]|H]; [by left|]. destruct (decide (sid = sid')) as [->|Hne]; [|by right].
      rewrite (Hfree sid' eq_refl) in H. done.
  - eexists. split; [done|]. split; [apply Hidx|]. split; [|unfold abs; cbn; rewrite fmap_insert; unfold entry_of; cbn; by rewrite dom_empty_L].
    intros sid' i. cbn. rewrite Hnew. split; [by right|]. by intros [[_ ?]|H].
Qed.

(** ** Sequences of operations *)

Inductive op :=
  | OCreate (sender : Z)
  | OCreateWithId (sid : string) (sender : Z)
  | OCreateOrGet (sid : string) (sender : Z)
  | ORemove (id : Z)
  | ORemoveBySocket (sid : string)
  | OSubscribe (id : Z) (topic : string)
  | OUnsubscribe (id : Z) (topic : string)
  | OSubscribeBySocket (sid topic : string)
  | OUnsubscribeBySocket (sid topic : string).

Definition apply_op (order : gmap string nat -> list (string * nat)) (p : PubSub) (o : op) : option PubSub :=
  match o with
  | OCreate s => fst <$> create_subscriber p s
  | OCreateWithId sid s => fst <$> create_subscriber_with_id p sid s
  | OCreateOrGet sid s => fst <$> create_subscriber_with_id_or_get p sid s
  | ORemove id => remove_subscriber order p id
  | ORemoveBySocket sid => fst <$> remove_subscriber_by_socket_id order p sid
  | OSubscribe id t => Some (fst (subscribe p id t))
  | OUnsubscribe id t => fst <$> unsubscribe p id t
  | OSubscribeBySocket sid t => Some (fst (subscribe_by_socket_id p sid t))
  | OUnsubscribeBySocket sid t => fst <$> unsubscribe_by_socket_id p sid t
  end.

(** The abstract registry: the subscribers and the next identifier. *)
Abbreviation registry := (gmap Z entry * Z)%type.

Definition find_socket (m : gmap Z entry) (sid : string) : option Z :=
  fst <$> head (map_to_list (filter (fun kv => e_socket kv.2 = Some sid) m)).

Definition spec_create (m : registry) (sender : Z) (sock : option string) : registry :=
  (<[m.2 := MkEntry sender ∅ sock]> m.1, m.2 + 1).

(** [None]: the documented panic on a socket id in use. *)
Definition spec_op (m : registry) (o : op) : option registry :=
  match o with
  | OCreate s => Some (spec_create m s None)
  | OCreateWithId sid s => match find_socket m.1 sid with
                           | Some _ => None
                           | None => Some (spec_create m s (Some sid))
                           end
  | OCreateOrGet sid s => match find_socket m.1 sid with
                          | Some _ => Some m
                          | None => Some (spec_create m s (Some sid))
                          end
  | ORemove id => Some (delete id m.1, m.2)
  | ORemoveBySocket sid => match find_socket m.1 sid with
                           | Some id => Some (delete id m.1, m.2)
                           | None => Some m
                           end
  | OSubscribe id t => Some (fst (spec_subscribe m.1 id t), m.2)
  | OUnsubscribe id t => Some (fst (spec_unsubscribe m.1 id t), m.2)
  | OSubscribeBySocket sid t => match find_socket m.1 sid with
                                | Some id => Some (fst (spec_subscribe m.1 id t), m.2)
                                | None => Some m
                                end
  | OUnsubscribeBySocket sid t => match find_socket m.1 sid with
                                  | Some id => Some (fst (spec_unsubscribe m.1 id t), m.2)
                                  | None => Some m
                                  end
  end.

Fixpoint run_all {A} (f : A -> op -> option A) (a : A) (os : list op) : option A :=
  match os with
  | [] => Some a
  | o :: os => a ← f a o; run_all f a os
  end.

Definition abs_state (p : PubSub) : registry := (abs (data p), next_subscriber_id p).

Lemma find_socket_ok d sid : sockets_ok d -> find_socket (abs d) sid = socket_id_map d !! sid.
Proof.
  intros Hs. unfold find_socket. destruct (socket_id_map d !! sid) as [i|] eqn:E.
  - pose proof (proj1 (Hs sid i) E) as (s & Hi & Hsid).
    replace (filter _ (abs d)) with ({[i := entry_of s]} : gmap Z entry); [by rewrite map_to_list_singleton|].
    apply map_eq. intros j. destruct (decide (j = i)) as [->|Hne].
    + rewrite lookup_singleton_eq. symmetry. apply map_lookup_filter_Some. rewrite abs_lookup, Hi. done.
    + rewrite lookup_singleton_ne by done. symmetry. apply map_lookup_filter_None. right. intros e He Hes. cbn in Hes.
      rewrite abs_lookup in He. apply fmap_Some in He as (s' & Hj & ->). apply Hne.
      assert (Some j = Some i) by (rewrite <- E; symmetry; apply Hs; eauto). congruence.
  - replace (filter _ (abs d)) with (∅ : gmap Z entry); [by rewrite map_to_list_empty|].
    symmetry. apply map_empty_filter_2. intros j e He Hes. cbn in Hes.
    rewrite abs_lookup in He. apply fmap_Some in He as (s' & Hj & ->).
    assert (socket_id_map d !! sid = Some j) by (apply Hs; eauto). congruence.
Qed.

(** Rebuild the invariant from that of the new data. *)
Lemma registry_ok_data p d id next : registry_ok p -> indexed d id ∅ -> sockets_ok d ->
  next_subscriber_id p <= next -> (forall i, is_Some (abs d !! i) -> is_Some (abs (data p) !! i) \/ 0 <= i < next) ->
  registry_ok (MkPubSub d next (messages_published p)).
Proof.
  intros [_ _ Hf Hn] Hi Hs Hle Hdom. split; cbn; [|done| |lia].
  - intros id'. by eapply indexed_any.
  - intros i Hsome. destruct (Hdom i) as [H|H]; [by rewrite abs_lookup, fmap_is_Some| |lia].
    rewrite abs_lookup, fmap_is_Some in H. apply Hf in H. lia.
Qed.

Lemma create_ok p sender sock : registry_ok p -> next_subscriber_id p < 2 ^ 64 - 1 ->
  (forall sid, sock = Some sid -> socket_id_map (data p) !! sid = None) ->
  exists d', insert_subscriber (data p) (next_subscriber_id p) sender sock = Some d' /\
    let p' := MkPubSub d' (wrap 64 (next_subscriber_id p + 1)) (messages_published p) in
    registry_ok p' /\ abs_state p' = spec_create (abs_state p) sender sock.
Proof.
  intros Hp Hlt Hfree. pose proof Hp as [Hi Hs Hf Hn].
  destruct (insert_subscriber_ok (data p) (next_subscriber_id p) sender sock) as (d' & E & Hd' & Hs' & Ha); try done.
  { destruct (subscribers (data p) !! next_subscriber_id p) eqn:E; [|done].
    assert (is_Some (subscribers (data p) !! next_subscriber_id p)) as H%Hf by eauto. lia. }
  exists d'. split; [done|]. unfold wrap. rewrite Z.mod_small by lia. cbn zeta. split.
  - eapply registry_ok_data; [done|done|done|lia|]. intros i. rewrite Ha.
    destruct (decide (i = next_subscriber_id p)) as [->|?]; [intros _; right; lia|].
    rewrite lookup_insert_ne by done. by left.
  - unfold abs_state, spec_create. cbn. by rewrite Ha.
Qed.

Lemma spec_subscribe_sockets m id topic : e_socket <$> fst (spec_subscribe m id topic) = e_socket <$> m.
Proof.
  unfold spec_subscribe. destruct (m !! id) as [e|] eqn:E; [|done]. destruct (decide _); [done|]. cbn.
  rewrite fmap_insert. apply insert_id. by rewrite lookup_fmap, E.
Qed.

Lemma spec_unsubscribe_sockets m id topic : e_socket <$> fst (spec_unsubscribe m id topic) = e_socket <$> m.
Proof.
  unfold spec_unsubscribe. destruct (m !! id) as [e|] eqn:E; [|done]. destruct (decide _); [|done]. cbn.
  rewrite fmap_insert. apply insert_id. by rewrite lookup_fmap, E.
Qed.

(** An operation on topics keeps the rest of the invariant. *)
Lemma registry_ok_topics p d id : registry_ok p -> indexed d id ∅ ->
  e_socket <$> abs d = e_socket <$> abs (data p) -> socket_id_map d = socket_id_map (data p) ->
  registry_ok (set_data d p).
Proof.
  intros Hp Hd Ha Hsm. eapply registry_ok_data; [done|done| |lia|].
  - eapply sockets_ok_ext; [apply Hp|done|done].
  - intros i Hi. left. apply (f_equal (lookup i)) in Ha. rewrite !lookup_fmap in Ha.
    destruct Hi as [e He]. rewrite He in Ha. by destruct (abs (data p) !! i).
Qed.

Lemma subscribe_ok p id topic : registry_ok p ->
  registry_ok (fst (subscribe p id topic)) /\
  abs_state (fst (subscribe p id topic)) = (fst (spec_subscribe (abs (data p)) id topic), next_subscriber_id p) /\
  snd (subscribe p id topic) = snd (spec_subscribe (abs (data p)) id topic).
Proof.
  intros Hp. unfold subscribe. pose proof (subscribe_in_ok (data p) id topic (r_indexed _ Hp id)) as H.
  destruct (subscribe_in (data p) id topic) as [d' b]. destruct H as (Hd' & Ha & Hsm). cbn.
  pose proof (spec_subscribe_sockets (abs (data p)) id topic) as Hk. rewrite <- Ha in Hk |- *.
  split; [by eapply registry_ok_topics|done].
Qed.

Lemma unsubscribe_ok p id topic : registry_ok p -> exists p', 
  unsubscribe p id topic = Some (p', snd (spec_unsubscribe (abs (data p)) id topic)) /\
  registry_ok p' /\ abs_state p' = (fst (spec_unsubscribe (abs (data p)) id topic), next_subscriber_id p).
Proof.
  intros Hp. unfold unsubscribe.
  destruct (unsubscribe_in_ok (data p) id topic (r_indexed _ Hp id)) as (d' & b & -> & Hd' & Ha & Hsm). cbn.
  pose proof (spec_unsubscribe_sockets (abs (data p)) id topic) as Hk. rewrite <- Ha in Hk |- *.
  eexists. split; [done|]. split; [by eapply registry_ok_topics|done].
Qed.

Section refinement.
Context (order : gmap string nat -> list (string * nat)) (Horder : forall m, order m ≡ₚ map_to_list m).

Lemma remove_ok p id : registry_ok p -> exists d' r, remove_subscriber_from order (data p) id = Some (d', r) /\
  registry_ok (set_data d' p) /\ abs_state (set_data d' p) = (delete id (abs (data p)), next_subscriber_id p).
Proof.
  intros Hp. destruct (remove_subscriber_from_ok order (data p) id Horder (r_indexed _ Hp id) (r_sockets _ Hp))
    as (d' & r & E & Hd' & Hs' & Ha & _).
  exists d', r. split; [done|]. unfold abs_state. cbn. rewrite Ha. split; [|done].
  eapply registry_ok_data; [done|done|done|lia|]. rewrite Ha. intros i [e [_ He]%lookup_delete_Some]. left. eauto.
Qed.

(** One operation, against the abstract registry. *)
Lemma apply_op_ok p o : registry_ok p -> next_subscriber_id p < 2 ^ 64 - 1 ->
  match spec_op (abs_state p) o with
  | None => apply_op order p o = None
  | Some m => exists p', apply_op order p o = Some p' /\ registry_ok p' /\ abs_state p' = m /\
              next_subscriber_id p' <= next_subscriber_id p + 1
  end.
Proof.
  intros Hp Hlt. pose proof (r_sockets _ Hp) as Hs.
  assert (Hnext : forall p' m, abs_state p' = (m, next_subscriber_id p) -> next_subscriber_id p' <= next_subscriber_id p + 1).
  { intros p' m [= _ ->]. lia. }
  assert (Hcreate : forall sender sock, (forall sid, sock = Some sid -> socket_id_map (data p) !! sid = None) ->
    exists d', insert_subscriber (data p) (next_subscriber_id p) sender sock = Some d' /\
      let p' := MkPubSub d' (wrap 64 (next_subscriber_id p + 1)) (messages_published p) in
      registry_ok p' /\ abs_state p' = spec_create (abs_state p) sender sock /\
      next_subscriber_id p' <= next_subscriber_id p + 1).
  { intros sender sock Hfree. destruct (create_ok p sender sock Hp Hlt Hfree) as (d' & E & Hp' & Ha).
    exists d'. split; [done|]. split; [exact Hp'|]. split; [exact Ha|]. unfold wrap. cbn. rewrite Z.mod_small by (pose proof (r_next _ Hp); lia). lia. }
  destruct o; cbn; rewrite ?find_socket_ok by done.
  - unfold create_subscriber. cbn. destruct (Hcreate sender None) as (d' & -> & Hp' & Ha & Hn); [done|]. cbn. eauto.
  - unfold create_subscriber_with_id. destruct (socket_id_map (data p) !! sid) as [i|] eqn:E;
      [by rewrite bool_decide_eq_true_2|]. rewrite bool_decide_eq_false_2 by (by intros [? ?]). cbn.
    destruct (Hcreate sender (Some sid)) as (d' & -> & Hp' & Ha & Hn); [by intros ? [= <-]|]. cbn. eauto.
  - unfold create_subscriber_with_id_or_get. destruct (socket_id_map (data p) !! sid) as [i|] eqn:E.
    + cbn. exists p. split_and!; try done. lia.
    + cbn. destruct (Hcreate sender (Some sid)) as (d' & -> & Hp' & Ha & Hn); [by intros ? [= <-]|]. cbn. eauto.
  - unfold remove_subscriber. destruct (remove_ok p id Hp) as (d' & r & -> & Hp' & Ha). cbn. eauto 6.
  - unfold remove_subscriber_by_socket_id. destruct (socket_id_map (data p) !! sid) as [i|] eqn:E.
    + destruct (remove_ok p i Hp) as (d' & r & -> & Hp' & Ha). cbn. eauto 6.
    + cbn. exists p. split_and!; try done. lia.
  - destruct (subscribe_ok p id topic Hp) as (Hp' & Ha & _). eauto 6.
  - destruct (unsubscribe_ok p id topic Hp) as (p' & -> & Hp' & Ha). cbn. eauto 6.
  - unfold subscribe_by_socket_id. destruct (socket_id_map (data p) !! sid) as [i|] eqn:E.
    + destruct (subscribe_ok p i topic Hp) as (Hp' & Ha & _). eauto 6.
    + cbn. exists p. split_and!; try done. lia.
  - unfold unsubscribe_by_socket_id. destruct (socket_id_map (data p) !! sid) as [i|] eqn:E.
    + destruct (unsubscribe_ok p i topic Hp) as (p' & -> & Hp' & Ha). cbn. eauto 6.
    + cbn. exists p. split_and!; try done. lia.
Qed.

Lemma run_all_ok os p : registry_ok p -> next_subscriber_id p + Z.of_nat (length os) < 2 ^ 64 ->
  match run_all spec_op (abs_state p) os with
  | None => run_all (apply_op order) p os = None
  | Some m => exists p', run_all (apply_op order) p os = Some p' /\ registry_ok p' /\ abs_state p' = m
  end.
Proof.
  revert p. induction os as [|o os IH]; intros p Hp Hlt; cbn [run_all]; [by exists p|].
  cbn [length] in Hlt. pose proof (apply_op_ok p o Hp ltac:(lia)) as Hstep.
  destruct (spec_op (abs_state p) o) as [m|]; cbn; [|by rewrite Hstep].
  destruct Hstep as (p' & -> & Hp' & <- & Hn). cbn. apply IH; [done|lia].
Qed.

Lemma registry_new : registry_ok pubsub_new.
Proof.
  split; cbn; [|intros sid i; cbn; split| |done].
  - intros id. by split.
  - done.
  - by intros (s & Hs & _).
  - by intros i [s Hs].
Qed.

(** [C33] Through every sequence of operations the pair of indexes stays consistent and the registry
    is exactly the abstract one: subscribers with their channel, their set of topics and
    their socket id.  The only panic is the documented one, a socket id that is in use; none of the [expect]s and
    assertions on the indexes can fail, whatever order the hash maps are iterated in. *)
Theorem registry_refines os : Z.of_nat (length os) < 2 ^ 64 - 1 ->
  match run_all spec_op (∅, 1) os with
  | None => run_all (apply_op order) pubsub_new os = None
  | Some m => exists p, run_all (apply_op order) pubsub_new os = Some p /\ registry_ok p /\ abs_state p = m
  end.
Proof.
  intros Hlen. change (∅, 1) with (abs_state pubsub_new). apply run_all_ok; [apply registry_new|]. cbn. lia.
Qed.
End refinement.

Lemma registry_refines_witness : exists p,
  run_all (apply_op map_to_list) pubsub_new
    [OCreate 10; OCreateWithId "s" 11; OSubscribe 1 "a"; OSubscribeBySocket "s" "a"; OUnsubscribe 1 "a"] = Some p /\
  registry_ok p /\
  abs_state p = ({[1 := MkEntry 10 ∅ None; 2 := MkEntry 11 {["a"]} (Some "s")]}, 3).
Proof.
  pose proof (registry_refines map_to_list (fun m => Permutation_refl _)
    [OCreate 10; OCreateWithId "s" 11; OSubscribe 1 "a"; OSubscribeBySocket "s" "a"; OUnsubscribe 1 "a"] ltac:(cbn; lia)) as H.
  vm_compute (run_all spec_op _ _) in H. destruct H as (p & Hr & Hp & Ha). exists p. split; [exact Hr|].
  split; [exact Hp|]. rewrite Ha. by vm_compute.
Defined.

(** ** Delivery *)

(** The channels a publication is meant for, in the order of the member list. *)
Definition meant_for (d : PubSubData) (topic : string) (exclude : option Z) : list Z :=
  snd <$> filter (fun m => Some (fst m) <> exclude) (default [] (topics d !! topic)).

Definition snapshot_list (r : option RecipientSnapshot) : list Z :=
  match r with None => [] | Some (One s) => [s] | Some (Many l) => l end.

Lemma filter_none {A} (P : A -> Prop) `{forall x, Decision (P x)} (l : list A) : (forall x, x ∈ l -> P x) -> filter P l = l.
Proof.
  induction l as [|x l IH]; intros H'; [done|]. rewrite filter_cons_True by (apply H'; by left).
  f_equal. apply IH. intros y Hy. apply H'. by right.
Qed.

(** An exclusion is dropped exactly when it concerns no member. *)
Lemma effective_exclude_ok d topic l exclude : (forall id, indexed d id ∅) -> topics d !! topic = Some l ->
  let ex := effective_exclude d topic l exclude in
  (forall id, ex = Some id -> exists pos x, l !! pos = Some (id, x)) /\
  filter (fun m => Some (fst m) <> exclude) l = filter (fun m => Some (fst m) <> ex) l.
Proof.
  intros Hd El ex. destruct exclude as [id|]; [|done].
  assert (Hgen : (match subscribers d !! id with
     | Some s => bool_decide (is_Some (Subscriber.topics s !! topic)) | None => false end) = true <->
     exists pos x, l !! pos = Some (id, x)).
  { split.
    - destruct (subscribers d !! id) as [s|] eqn:Es; [|done]. intros [pos Hpos]%bool_decide_eq_true.
      destruct (i_forward _ _ _ (Hd 0) _ _ _ _ Es Hpos) as (m & Hm & Hmp). rewrite El in Hm. injection Hm as <-. eauto.
    - intros (pos & x & Hp). destruct (i_backward _ _ _ (Hd 0) _ _ _ _ _ El Hp) as [[_ H]|(s & -> & Ht & _)];
        [by rewrite lookup_empty in H|]. apply bool_decide_eq_true. eauto. }
  assert (Hkeep : ex = Some id /\ (exists pos x, l !! pos = Some (id, x)) \/
                  ex = None /\ ~ (exists pos x, l !! pos = Some (id, x))).
  { unfold ex, effective_exclude. destruct l as [|[a x] [|? ?]].
    - right. split; [|by intros (? & ? & ?)]. destruct (subscribers d !! id); [|done]. case_bool_decide; [|done].
      by destruct (proj1 Hgen eq_refl) as (? & ? & ?).
    - case_bool_decide as Ha.
      + subst. left. split; [done|]. by exists 0%nat, x.
      + right. split; [done|]. intros (pos & y & Hp). apply list_lookup_singleton_Some in Hp as [_ [= -> _]]. done.
    - destruct (match subscribers d !! id with Some s => _ | None => _ end) eqn:E.
      + left. split; [done|]. by apply Hgen.
      + right. split; [done|]. intros H. apply Hgen in H. congruence. }
  destruct Hkeep as [[-> Hin]|[-> Hnot]]; [by split; [intros ? [= <-]|]|]. split; [done|].
  rewrite !filter_none; [done|..]; intros [a x] Hin; [done|]. cbn. intros [= ->]. apply Hnot.
  apply list_elem_of_lookup in Hin as [pos Hp]. eauto.
Qed.

(** The snapshot is the reference filter, whatever its shortcuts. *)
Lemma recipient_snapshot_ok d topic exclude : (forall id, indexed d id ∅) ->
  exists r, recipient_snapshot d topic exclude = Some r /\ snapshot_list r = meant_for d topic exclude.
Proof.
  intros Hd. unfold recipient_snapshot, meant_for. destruct (topics d !! topic) as [l|] eqn:El; [|by exists None].
  cbn. pose proof (i_nonempty _ _ _ (Hd 0) _ _ El) as Hne.
  destruct (effective_exclude_ok d topic l exclude Hd El) as [Hex ->].
  generalize dependent (effective_exclude d topic l exclude). intros ex Hex.
  assert (Hlen : (0 < length l)%nat) by (destruct l; [done|cbn; lia]).
  rewrite decide_False by (destruct ex; cbn; lia).
  destruct (decide (length l - match ex with Some _ => 1 | None => 0 end = 1)%nat) as [Hone|Hmany]; [|by eexists].
  destruct ex as [id|].
  - destruct l as [|[a x] [|[b y] [|? ?]]]; cbn in Hone; try lia. cbn [lookup list_lookup mbind option_bind fst snd].
    assert (Hab : a <> b).
    { intros ->. by pose proof (members_unique _ _ _ _ _ 0 1 b x y (Hd 0) El eq_refl eq_refl). }
    destruct (Hex id eq_refl) as (pos & z & Hpos).
    destruct (decide (a = id)) as [->|Hneq].
    + rewrite bool_decide_eq_true_2 by done. eexists. split; [done|].
      assert (Hf : filter (fun m : Z * Z => Some (fst m) <> Some id) [(id, x); (b, y)] = [(b, y)]).
      { rewrite filter_cons_False, filter_cons_True by (cbn; congruence). done. }
      by rewrite Hf.
    + rewrite bool_decide_eq_false_2 by congruence. eexists. split; [done|].
      assert (b = id) as ->. { destruct pos as [|[|?]]; cbn in Hpos; simplify_eq; done. }
      assert (Hf : filter (fun m : Z * Z => Some (fst m) <> Some id) [(a, x); (id, y)] = [(a, x)]).
      { rewrite filter_cons_True, filter_cons_False by (cbn; congruence). done. }
      by rewrite Hf.
  - destruct l as [|[a x] [|? ?]]; cbn in Hone; try lia. cbn. by eexists.
Qed.

Lemma send_all_ok {M} is_open (l : list Z) (log : list (Z * M)) m n :
  foldl (fun '(log, sent) s => let '(log, ok) := send is_open log s m in (log, if ok then S sent else sent)) (log, n) l =
  (log ++ ((fun s => (s, m)) <$> filter (fun s => is_open s = true) l), (n + length (filter (fun s => is_open s = true) l))%nat).
Proof.
  revert log n. induction l as [|s l IH]; intros log n; cbn [foldl]; [cbn; by rewrite app_nil_r, Nat.add_0_r|].
  unfold send at 2. destruct (is_open s) eqn:E; rewrite IH.
  - rewrite filter_cons_True by done. cbn. rewrite <- app_assoc. cbn. f_equal. lia.
  - by rewrite filter_cons_False by congruence.
Qed.

(** A publication never panics and gives the message, once each, to exactly the channels of the
    current subscribers of the topic other than the excluded one whose receiver
    is open; it reports how many that were, leaves the registry as it is, and the subscribers it reaches are those
    whose topic set holds the topic. *)
Theorem publish_reaches_subscribers is_open p log exclude topic m : registry_ok p ->
  let sent := filter (fun s => is_open s = true) (meant_for (data p) topic exclude) in
  exists p', publish_excluding is_open p log exclude topic m =
    Some (p', log ++ ((fun s => (s, m)) <$> sent), if decide (sent = []) then NoSubscribers else Published (length sent)) /\
  data p' = data p /\
  NoDup (fst <$> default [] (topics (data p) !! topic)) /\
  forall id s, (id, s) ∈ default [] (topics (data p) !! topic) <->
    exists e, abs (data p) !! id = Some e /\ topic ∈ e_topics e /\ e_sender e = s.
Proof.
  intros Hp. cbn zeta. pose proof (r_indexed _ Hp) as Hi. unfold publish_excluding.
  destruct (recipient_snapshot_ok (data p) topic exclude Hi) as (r & -> & <-). cbn.
  assert (Hsend : exists p', send_to_recipients is_open p log r m =
    (p', log ++ ((fun s => (s, m)) <$> filter (fun s => is_open s = true) (snapshot_list r)),
     if decide (filter (fun s => is_open s = true) (snapshot_list r) = []) then NoSubscribers
     else Published (length (filter (fun s => is_open s = true) (snapshot_list r)))) /\ data p' = data p).
  { assert (Hcount : forall l : list Z, (if decide (0 < length l)%nat then Published (length l) else NoSubscribers) =
      if decide (l = []) then NoSubscribers else Published (length l)).
    { intros [|? ?]; [done|]. rewrite decide_True by (cbn; lia). by rewrite decide_False. }
    destruct r as [[s|l]|]; cbn [send_to_recipients snapshot_list].
    - unfold send. destruct (is_open s) eqn:E.
      + rewrite filter_cons_True by done. by eexists.
      + rewrite filter_cons_False by congruence. eexists. cbn. by rewrite app_nil_r.
    - rewrite send_all_ok. cbn. rewrite Hcount. by eexists.
    - exists p. cbn. by rewrite app_nil_r. }
  destruct Hsend as (p' & -> & Hdata). exists p'. split; [done|]. split; [done|]. split.
  - destruct (topics (data p) !! topic) as [l|] eqn:El; cbn; [|constructor]. apply NoDup_alt.
    intros i j a Ha Hb. rewrite list_lookup_fmap in Ha, Hb.
    apply fmap_Some in Ha as ([a1 x] & Ha & ->), Hb as ([b1 y] & Hb & E). cbn in E. subst b1.
    by eapply (members_unique _ 0).
  - intros id s. setoid_rewrite abs_lookup. split.
    + destruct (topics (data p) !! topic) as [l|] eqn:El; cbn; [|by intros ?%elem_of_nil].
      intros [pos Hpos]%list_elem_of_lookup.
      destruct (i_backward _ _ _ (Hi 0) _ _ _ _ _ El Hpos) as [[_ H]|(sb & Hs & Ht & Hx)];
        [by rewrite lookup_empty in H|]. exists (entry_of sb). rewrite Hs. split; [done|]. cbn.
      split; [|done]. apply elem_of_dom. eauto.
    + intros (e & (sb & Hs & ->)%fmap_Some & Hin & <-). cbn in Hin. apply elem_of_dom in Hin as [pos Hpos].
      destruct (i_forward _ _ _ (Hi 0) _ _ _ _ Hs Hpos) as (l & -> & Hl). cbn. by eapply list_elem_of_lookup_2.
Qed.

Lemma publish_reaches_subscribers_witness : exists p p',
  run_all (apply_op map_to_list) pubsub_new
    [OCreate 10; OCreate 11; OSubscribe 1 "a"; OSubscribe 2 "a"] = Some p /\
  publish_excluding (fun _ => true) p [] (Some 1) "a" (Message.Text [104]) =
    Some (p', [(11, Message.Text [104])], Published 1).
Proof.
  pose proof (run_all_ok map_to_list (fun m => Permutation_refl _) [OCreate 10; OCreate 11; OSubscribe 1 "a"; OSubscribe 2 "a"]
    pubsub_new registry_new ltac:(cbn; lia)) as H.
  vm_compute (run_all spec_op _ _) in H. destruct H as (p & Hr & Hp & _). exists p.
  pose proof Hr as Hr'. vm_compute in Hr'. injection Hr' as <-.
  destruct (publish_reaches_subscribers (fun _ => true) _ [] (Some 1) "a" (Message.Text [104]) Hp) as (p' & E & _).
  exists p'. split; [exact Hr|]. rewrite E. by vm_compute.
Defined.
