(* ===== verification/Cork.v ===== *)
(** * Write coalescing (src/src/cork.rs)

    The cork buffer keeps small writes in one growing buffer and large payloads as
    segments of their own, and hands both to vectored writes.  It is a queue of
    bytes: the theorems relate every operation to that queue, and a
    flush over a transport that accepts any number of bytes at a time to the
    bytes put in. *)

From stdpp Require Import base list.
From S2P Require Import Prelude.

Inductive CorkState := Uncorked | Corked.

#[export] Instance CorkState_eq_dec : EqDecision CorkState.
Proof. solve_decision. Defined.

Definition ZERO_COPY_MIN := 8 * 1024.
Definition CORK_BUFFER_SIZE := 16 * 1024.

Module CorkBuffer.
Record t := Mk {
  buffer : bytes;
  max_size : Z;
  state : CorkState;
  segments : list bytes;
  segment_bytes : Z
}.

Definition with_capacity (capacity : Z) : t := Mk [] capacity Uncorked [] 0.
Definition new : t := with_capacity CORK_BUFFER_SIZE.

Definition set_state (s : CorkState) (c : t) : t := Mk (buffer c) (max_size c) s (segments c) (segment_bytes c).
Definition set_buffer (b : bytes) (c : t) : t := Mk b (max_size c) (state c) (segments c) (segment_bytes c).
Definition set_segments (l : list bytes) (n : Z) (c : t) : t := Mk (buffer c) (max_size c) (state c) l n.

Definition has_data (c : t) : bool := negb (bool_decide (buffer c = [])) || negb (bool_decide (segments c = [])).
Definition has_segments (c : t) : bool := negb (bool_decide (segments c = [])).
Definition is_corked (c : t) : bool := bool_decide (state c = Corked).
Definition pending_bytes (c : t) : Z := len (buffer c) + segment_bytes c.

Definition cork (c : t) : t := set_state Corked c.
Definition uncork (c : t) : t * bool := let c := set_state Uncorked c in (c, has_data c).

Definition write (c : t) (data : bytes) : t * bool :=
  let c := set_buffer (buffer c ++ data) c in (c, len (buffer c) <=? max_size c).

Definition push_segment (c : t) (data : bytes) : t :=
  if bool_decide (data = []) then c
  else
    let c := if negb (bool_decide (buffer c = []))
             then let closed := buffer c in
                  set_segments (segments c ++ [closed]) (segment_bytes c + len closed) (set_buffer [] c)
             else c in
    set_segments (segments c ++ [data]) (segment_bytes c + len data) c.

Definition write_bytes (c : t) (data : bytes) : t :=
  if len data <? ZERO_COPY_MIN then set_buffer (buffer c ++ data) c else push_segment c data.

(** [fill_write_slices] into [out] of length [room]: the slices filled in. *)
Definition fill_write_slices (c : t) (room : nat) : list bytes :=
  let filled := take room (segments c) in
  if decide (length filled < room)%nat
  then filled ++ (if bool_decide (buffer c = []) then [] else [buffer c])
  else filled.

Definition get_write_slices (c : t) : list bytes :=
  segments c ++ (if bool_decide (buffer c = []) then [] else [buffer c]).

(** The loop of [consume] over the segments: what is left of them, of
    [segment_bytes] and of [n]; [None] when a subtraction would underflow. *)
Fixpoint consume_segments (segs : list bytes) (total n : Z) : option (list bytes * Z * Z) :=
  if n <=? 0 then Some (segs, total, n)
  else match segs with
  | [] => Some ([], total, n)
  | front :: segs' =>
      if len front <=? n then
        if total <? len front then None
        else consume_segments segs' (total - len front) (n - len front)
      else if total <? n then None
      else Some (from n front :: segs', total - n, 0)
  end.

Definition consume (c : t) (n : Z) : option t :=
  '(segs, total, n) ← consume_segments (segments c) (segment_bytes c) n;
  let c := set_segments segs total c in
  Some (if 0 <? n then set_buffer (from (Z.min n (len (buffer c))) (buffer c)) c else c).

Definition take_buffer (c : t) : t * bytes := (set_buffer [] c, buffer c).
Definition clear (c : t) : t := set_segments [] 0 (set_buffer [] c).

(** What the holder of [buffer_mut] does to the open buffer. *)
Definition buffer_mut (f : bytes -> bytes) (c : t) : t := set_buffer (f (buffer c)) c.

(** [impl Buf]: [remaining], [chunk] and [advance] *)
Definition remaining (c : t) : Z := pending_bytes c.
Definition chunk (c : t) : bytes := match segments c with front :: _ => front | [] => buffer c end.
Definition advance (c : t) (cnt : Z) : option t := consume c cnt.

(** [BatchWriter::new] returns whether the buffer was corked; its [drop] uses it. *)
Definition batch_new (c : t) : t * bool := (cork c, is_corked c).
Definition batch_write (c : t) (data : bytes) : t := fst (write c data).
Definition batch_write_bytes (c : t) (data : bytes) : t := write_bytes c data.
Definition batch_drop (was_corked : bool) (c : t) : t := if negb was_corked then fst (uncork c) else c.
End CorkBuffer.

(** ** The queue of bytes it stands for *)

Module CorkSpec.
Import CorkBuffer.

Definition contents (c : t) : bytes := concat (segments c) ++ buffer c.

Record wf (c : t) : Prop := {
  wf_bytes : segment_bytes c = len (concat (segments c));
  wf_segments : Forall (fun s => s <> []) (segments c)
}.

Lemma concat_snoc {A} (l : list (list A)) x : concat (l ++ [x]) = concat l ++ x.
Proof. induction l as [|y l IH]; cbn; [by rewrite app_nil_r|]. by rewrite IH, app_assoc. Qed.

Lemma push_segment_ok c data : wf c ->
  wf (push_segment c data) /\ contents (push_segment c data) = contents c ++ data.
Proof.
  intros [Hb Hs]. unfold push_segment. case_bool_decide as Hd; [subst; by rewrite app_nil_r|].
  unfold contents. case_bool_decide as Hc; cbn.
  - rewrite Hc, concat_snoc, !app_nil_r. split; [|done]. split; cbn.
    + rewrite concat_snoc, len_app. lia.
    + by apply Forall_app; split; [|constructor].
  - rewrite !concat_snoc, !app_nil_r. split; [|done]. split; cbn.
    + rewrite !concat_snoc, !len_app. lia.
    + rewrite !Forall_app. by repeat split; repeat constructor.
Qed.

Lemma write_bytes_ok c data : wf c -> wf (write_bytes c data) /\ contents (write_bytes c data) = contents c ++ data.
Proof.
  intros Hc. unfold write_bytes. destruct (_ <? _); [|by apply push_segment_ok].
  split; [by destruct Hc|]. unfold contents. cbn. by rewrite app_assoc.
Qed.

Lemma consume_segments_ok segs n : Forall (fun s => s <> []) segs -> 0 <= n ->
  exists segs' n', consume_segments segs (len (concat segs)) n = Some (segs', len (concat segs'), n') /\
    Forall (fun s => s <> []) segs' /\ 0 <= n' <= n /\ concat segs' = from n (concat segs) /\
    n' = n - Z.min n (len (concat segs)).
Proof.
  revert n. induction segs as [|front segs IH]; intros n Hs Hn.
  - cbn [consume_segments concat]. exists [], n. change (len (@nil Z)) with 0. unfold from.
    split; [by destruct (n <=? 0)|]. split_and!; [constructor|lia|lia|by rewrite drop_nil|lia].
  - apply Forall_cons in Hs as [Hf Hs]. cbn [consume_segments concat].
    pose proof (len_nonneg front). pose proof (len_nonneg (concat segs)). destruct (Z.leb_spec n 0).
    { assert (n = 0) as -> by lia. exists (front :: segs), 0. cbn [concat]. rewrite from_0, len_app.
      split_and!; try done; try lia. by constructor. }
    rewrite len_app. destruct (Z.leb_spec (len front) n).
    + zfalse (len front + len (concat segs) <? len front).
      replace (len front + len (concat segs) - len front) with (len (concat segs)) by lia.
      destruct (IH (n - len front) Hs ltac:(lia)) as (segs' & n' & E & Hs' & Hn' & Hc & Hr).
      exists segs', n'. rewrite E. split_and!; try done; try lia. rewrite from_app_ge by lia. done.
    + zfalse (len front + len (concat segs) <? n).
      exists (from n front :: segs), 0. cbn [concat]. rewrite len_app, len_from, from_app_le by lia.
      split; [do 2 f_equal; f_equal; lia|]. split_and!; try lia; [|done]. constructor; [|done].
      intros Hnil. apply (f_equal len) in Hnil. rewrite len_from, len_nil in Hnil by lia. lia.
Qed.

Lemma consume_ok c n : wf c -> 0 <= n -> exists c', consume c n = Some c' /\ wf c' /\
  contents c' = from n (contents c) /\ max_size c' = max_size c /\ state c' = state c.
Proof.
  intros [Hb Hs] Hn. unfold consume. rewrite Hb.
  destruct (consume_segments_ok (segments c) n Hs Hn) as (segs' & n' & E & Hs' & Hn' & Hc & Hr). rewrite E. cbn.
  pose proof (len_nonneg (concat (segments c))). pose proof (len_nonneg (buffer c)).
  eexists. split; [done|]. unfold contents. destruct (Z.ltb_spec 0 n').
  - split_and!; try done. cbn. rewrite Hc, from_ge, from_app_ge by lia. cbn.
    replace n' with (n - len (concat (segments c))) by lia.
    destruct (Z.min_spec (n - len (concat (segments c))) (len (buffer c))) as [[? ->]|[? ->]]; [done|].
    rewrite !from_ge by lia. done.
  - split_and!; try done. cbn. rewrite Hc, from_app_le by lia. done.
Qed.

Lemma write_ok c data : wf c ->
  wf (fst (write c data)) /\ contents (fst (write c data)) = contents c ++ data /\
  snd (write c data) = bool_decide (len (buffer c) + len data <= max_size c).
Proof.
  intros Hc. unfold write, contents. cbn. split; [by destruct Hc|]. split; [by rewrite app_assoc|].
  rewrite len_app. case_bool_decide; [apply Z.leb_le|apply Z.leb_gt]; lia.
Qed.

(** Closed at a non-empty segment or buffer, the contents are not empty. *)
Lemma has_data_contents c : wf c -> has_data c = negb (bool_decide (contents c = [])).
Proof.
  intros [_ Hs]. unfold has_data, contents. destruct (segments c) as [|[|x s] segs]; cbn.
  - by rewrite orb_false_r.
  - by inversion Hs.
  - by rewrite orb_true_r.
Qed.

Lemma pending_bytes_contents c : wf c -> pending_bytes c = len (contents c).
Proof. intros [Hb _]. unfold pending_bytes, contents. rewrite len_app. lia. Qed.

Lemma get_write_slices_contents c : concat (get_write_slices c) = contents c.
Proof.
  unfold get_write_slices, contents. rewrite concat_app. case_bool_decide as H; cbn; by rewrite ?H, ?app_nil_r.
Qed.

Lemma fill_write_slices_prefix c room : fill_write_slices c room = take room (get_write_slices c).
Proof.
  unfold fill_write_slices, get_write_slices. rewrite take_app. case_decide as Hd.
  - rewrite length_take in Hd. f_equal. case_bool_decide; [by rewrite take_nil|]. by rewrite take_ge by (cbn; lia).
  - rewrite length_take in Hd. replace (room - length (segments c))%nat with 0%nat by lia. by rewrite app_nil_r.
Qed.

Lemma concat_take_prefix {A} n (l : list (list A)) : exists k, concat l = concat (take n l) ++ k.
Proof. exists (concat (drop n l)). by rewrite <- concat_app, take_drop. Qed.

(** What is offered to the transport: a prefix of the queue, not empty unless the queue is. *)
Lemma offered_slices c room : wf c -> (0 < room)%nat ->
  (exists k, contents c = concat (fill_write_slices c room) ++ k) /\
  (concat (fill_write_slices c room) = [] -> contents c = []).
Proof.
  intros [_ Hs] Hr. rewrite fill_write_slices_prefix, <- get_write_slices_contents.
  split; [apply concat_take_prefix|]. destruct room as [|room]; [lia|]. unfold get_write_slices.
  destruct (segments c) as [|[|x s] segs]; cbn; [|by inversion Hs|done].
  case_bool_decide; [done|]. cbn. by rewrite take_nil, !app_nil_r.
Qed.

Lemma offered_chunk c : wf c ->
  (exists k, contents c = chunk c ++ k) /\ (chunk c = [] -> contents c = []).
Proof.
  intros [_ Hs]. unfold chunk, contents. destruct (segments c) as [|[|x s] segs]; cbn.
  - split; [exists []; by rewrite app_nil_r|done].
  - by inversion Hs.
  - split; [|done]. exists (concat segs ++ buffer c). by rewrite app_assoc.
Qed.

(** ** The operations of a user of the buffer *)

Inductive op :=
  | OpWrite (data : bytes)
  | OpWriteBytes (data : bytes)
  | OpPushSegment (data : bytes)
  | OpEncode (data : bytes)      (** appended through [buffer_mut] *)
  | OpConsume (n : Z)
  | OpTakeBuffer
  | OpClear
  | OpBatch (writes : list (bool * bytes)).   (** copied ([write]) or not ([write_bytes]) *)

Definition batch_put (c : t) (w : bool * bytes) : t :=
  if fst w then batch_write c (snd w) else batch_write_bytes c (snd w).

Definition step (c : t) (o : op) : option t :=
  match o with
  | OpWrite d => Some (fst (write c d))
  | OpWriteBytes d => Some (write_bytes c d)
  | OpPushSegment d => Some (push_segment c d)
  | OpEncode d => Some (buffer_mut (fun b => b ++ d) c)
  | OpConsume n => consume c n
  | OpTakeBuffer => Some (fst (take_buffer c))
  | OpClear => Some (clear c)
  | OpBatch ws => let '(c1, was) := batch_new c in Some (batch_drop was (foldl batch_put c1 ws))
  end.

(** The same operations on a plain queue; only [take_buffer] looks at where the open buffer begins. *)
Definition spec_step (open : bytes) (q : bytes) (o : op) : bytes :=
  match o with
  | OpWrite d | OpWriteBytes d | OpPushSegment d | OpEncode d => q ++ d
  | OpConsume n => from n q
  | OpTakeBuffer => upto (len q - len open) q
  | OpClear => []
  | OpBatch ws => q ++ concat (map snd ws)
  end.

Definition op_ok (o : op) : Prop := match o with OpConsume n => 0 <= n | _ => True end.

Fixpoint steps (c : t) (q : bytes) (ops : list op) : option (t * bytes) :=
  match ops with
  | [] => Some (c, q)
  | o :: ops => c' ← step c o; steps c' (spec_step (buffer c) q o) ops
  end.

Lemma batch_put_ok c w : wf c -> wf (batch_put c w) /\ contents (batch_put c w) = contents c ++ snd w.
Proof.
  intros Hc. destruct w as [[] d]; [|by apply write_bytes_ok].
  by destruct (write_ok c d Hc) as (? & ? & _).
Qed.

Lemma batch_writes_ok c ws : wf c -> wf (foldl batch_put c ws) /\
  contents (foldl batch_put c ws) = contents c ++ concat (map snd ws).
Proof.
  revert c. induction ws as [|w ws IH]; intros c Hc; cbn [foldl map concat]; [by rewrite app_nil_r|].
  destruct (batch_put_ok c w Hc) as [Hc' E]. destruct (IH _ Hc') as [Hw E'].
  split; [done|]. by rewrite E', E, app_assoc.
Qed.

Lemma push_segment_state c d : state (push_segment c d) = state c /\ max_size (push_segment c d) = max_size c.
Proof. unfold push_segment. repeat case_bool_decide; done. Qed.

Lemma write_bytes_state c d : state (write_bytes c d) = state c /\ max_size (write_bytes c d) = max_size c.
Proof. unfold write_bytes. destruct (_ <? _); [done|apply push_segment_state]. Qed.

Lemma batch_state c ws : state (foldl batch_put c ws) = state c /\ max_size (foldl batch_put c ws) = max_size c.
Proof.
  revert c. induction ws as [|[[] d] ws IH]; intros c; cbn [foldl]; [done| |].
  - by destruct (IH (batch_put c (true, d))) as [-> ->].
  - destruct (IH (batch_put c (false, d))) as [-> ->]. apply write_bytes_state.
Qed.

Lemma step_ok c o : wf c -> op_ok o -> exists c', step c o = Some c' /\ wf c' /\
  contents c' = spec_step (buffer c) (contents c) o /\ state c' = state c /\ max_size c' = max_size c.
Proof.
  intros Hc Ho. destruct o as [d|d|d|d|n| | |ws]; cbn [step spec_step].
  - destruct (write_ok c d Hc) as (? & ? & _). by eexists.
  - destruct (write_bytes_ok c d Hc) as (? & ?). destruct (write_bytes_state c d). by eexists.
  - destruct (push_segment_ok c d Hc) as (? & ?). destruct (push_segment_state c d). by eexists.
  - destruct (write_ok c d Hc) as (? & ? & _). by eexists.
  - destruct (consume_ok c n Hc Ho) as (c' & ? & ? & ? & ? & ?). by exists c'.
  - eexists. split; [done|]. split; [by destruct Hc|]. split; [|done]. unfold contents. cbn.
    rewrite app_nil_r, len_app. by replace (_ + _ - _) with (len (concat (segments c))) by lia; rewrite upto_app_exact.
  - eexists. split; [done|]. split; [split; [done|constructor]|done].
  - cbn. assert (Hk : wf (cork c)) by by destruct Hc.
    destruct (batch_writes_ok (cork c) ws Hk) as [Hw E]. destruct (batch_state (cork c) ws) as [Hst Hm].
    eexists. split; [done|]. unfold batch_drop, is_corked. destruct (state c) eqn:Es; case_bool_decide; try done; cbn.
    split; [by destruct Hw|]. split; [done|]. by rewrite Hm.
Qed.

(** For every sequence of writes (copied, queued by reference, encoded in place or
    made through a batch writer), consumed prefixes, taken buffers and clears, the
    cork buffer never underflows its byte count, holds exactly the bytes of
    a plain queue under the same operations, reports their number and whether there are any, offers
    them in order as slices, and keeps its cork state across every batch. *)
Theorem cork_is_a_queue capacity ops : Forall op_ok ops ->
  exists c q, steps (with_capacity capacity) [] ops = Some (c, q) /\
    contents c = q /\ pending_bytes c = len q /\ has_data c = negb (bool_decide (q = [])) /\
    concat (get_write_slices c) = q /\ (exists k, q = chunk c ++ k) /\
    (forall room, fill_write_slices c room = take room (get_write_slices c)) /\
    state c = Uncorked /\ max_size c = capacity.
Proof.
  intros Hops. assert (H : forall c, wf c -> exists c' q, steps c (contents c) ops = Some (c', q) /\
    wf c' /\ contents c' = q /\ state c' = state c /\ max_size c' = max_size c).
  { induction Hops as [|o ops Ho Hops IH]; intros c Hc; cbn; [by eexists _, _|].
    destruct (step_ok c o Hc Ho) as (c1 & -> & Hc1 & <- & Hs1 & Hm1). cbn.
    destruct (IH c1 Hc1) as (c' & q & E & ? & ? & ? & ?). exists c', q. by rewrite <- Hs1, <- Hm1. }
  destruct (H (with_capacity capacity)) as (c & q & E & Hc & <- & Hs & Hm); [split; [done|constructor]|].
  exists c, (contents c). split; [done|]. split; [done|]. split; [by apply pending_bytes_contents|].
  split; [by apply has_data_contents|]. split; [apply get_write_slices_contents|].
  split; [by apply offered_chunk|]. split; [apply fill_write_slices_prefix|done].
Qed.

Lemma cork_is_a_queue_witness :
  exists c q, steps (with_capacity 4) []
      [OpWrite [1; 2; 3]; OpPushSegment [4; 5]; OpBatch [(true, [6]); (false, [7; 8])]; OpConsume 4; OpWrite [9]] = Some (c, q) /\
    contents c = [5; 6; 7; 8; 9].
Proof.
  destruct (cork_is_a_queue 4
    [OpWrite [1; 2; 3]; OpPushSegment [4; 5]; OpBatch [(true, [6]); (false, [7; 8])]; OpConsume 4; OpWrite [9]])
    as (c & q & E & Hq & _).
  - repeat constructor; cbn; lia.
  - exists c, q. split; [exact E|]. rewrite Hq. vm_compute in E. by inversion E.
Defined.
End CorkSpec.
