(* ===== verification/Heartbeat.v ===== *)
(** * Keep-alive (src/src/heartbeat.rs)

    The heartbeat decides when to ping an inactive peer and when to give up on
    it.  Times are milliseconds since the connection's epoch, as [u64].  The
    theorems say which deadline it reports, and characterise the one for a
    missing Pong by the history of the connection alone. *)

From stdpp Require Import base list option.
From S2P Require Import Prelude Utf8.

Definition u64_max := 2 ^ 64 - 1.
Definition saturating_add (a b : Z) : Z := Z.min (a + b) u64_max.

Inductive Deadline :=
  | DPong (at_ms : Z)
  | DIdle (at_ms : Z)
  | DPing (at_ms : Z).

(** [Deadline::at] *)
Definition deadline_at (d : Deadline) : Z :=
  match d with DPong t | DIdle t | DPing t => t end.

Definition seconds_ms (seconds : Z) : Z := wrap 64 (seconds * 1000).

Module Heartbeat.
Record OutstandingPing := MkPing {
  payload : bytes;
  deadline_ms : option Z;
  flushed : bool;
  acknowledged : bool
}.

Record t := Mk {
  auto_ping : bool;
  ping_interval_ms : Z;
  idle_timeout_ms : Z;
  pong_timeout_ms : Z;
  last_inbound_ms : Z;
  outstanding : option OutstandingPing;
  stopped : bool
}.

Definition set_outstanding (o : option OutstandingPing) (h : t) : t :=
  Mk (auto_ping h) (ping_interval_ms h) (idle_timeout_ms h) (pong_timeout_ms h) (last_inbound_ms h) o (stopped h).
Definition set_last_inbound (z : Z) (h : t) : t :=
  Mk (auto_ping h) (ping_interval_ms h) (idle_timeout_ms h) (pong_timeout_ms h) z (outstanding h) (stopped h).
Definition set_stopped (b : bool) (h : t) : t :=
  Mk (auto_ping h) (ping_interval_ms h) (idle_timeout_ms h) (pong_timeout_ms h) (last_inbound_ms h) (outstanding h) b.

(** [Heartbeat::new], given the four fields of the configuration it reads. *)
Definition new (cfg_auto_ping : bool) (ping_interval idle_timeout pong_timeout now_ms : Z) : t :=
  Mk (cfg_auto_ping && negb (ping_interval =? 0)) (seconds_ms ping_interval) (seconds_ms idle_timeout)
     (seconds_ms pong_timeout) now_ms None false.

Definition tracks_inbound_activity (h : t) : bool :=
  negb (stopped h) && (auto_ping h || negb (idle_timeout_ms h =? 0)).

Definition idle_deadline (h : t) : option Z :=
  if negb (idle_timeout_ms h =? 0) then Some (saturating_add (last_inbound_ms h) (idle_timeout_ms h)) else None.

Definition next_hard_deadline (h : t) : option Deadline :=
  if stopped h then None
  else
    let pong := outstanding h ≫= deadline_ms in
    let idle := idle_deadline h in
    match pong, idle with
    | Some pong, Some idle => if idle <? pong then Some (DIdle idle) else Some (DPong pong)
    | Some pong, None => Some (DPong pong)
    | None, Some idle => Some (DIdle idle)
    | None, None => None
    end.

Definition next_deadline (h : t) : option Deadline :=
  if stopped h then None
  else match outstanding h ≫= deadline_ms with
  | Some _ => next_hard_deadline h
  | None =>
      let idle := idle_deadline h in
      let ping := if auto_ping h && negb (bool_decide (is_Some (outstanding h)))
                  then Some (saturating_add (last_inbound_ms h) (ping_interval_ms h)) else None in
      match idle, ping with
      | Some idle, Some ping => if idle <=? ping then Some (DIdle idle) else Some (DPing ping)
      | Some idle, None => Some (DIdle idle)
      | None, Some ping => Some (DPing ping)
      | None, None => None
      end
  end.

(** [ping_due]; the process-wide nonce counter is an argument, returned updated. *)
Definition ping_due (next_nonce : Z) (h : t) (now_ms : Z) : Z * t * option bytes :=
  match next_deadline h with
  | Some (DPing at_ms) =>
      if at_ms <=? now_ms then
        let payload := to_be_bytes 8 next_nonce in
        (wrap 64 (next_nonce + 1), set_outstanding (Some (MkPing payload None false false)) h, Some payload)
      else (next_nonce, h, None)
  | _ => (next_nonce, h, None)
  end.

Definition ping_flushed (h : t) (now_ms : Z) : t :=
  match outstanding h with
  | Some ping =>
      if negb (flushed ping) then
        if acknowledged ping then set_outstanding None h
        else set_outstanding (Some (MkPing (payload ping)
               (if negb (pong_timeout_ms h =? 0) then Some (saturating_add now_ms (pong_timeout_ms h)) else None)
               true (acknowledged ping))) h
      else h
  | None => h
  end.

Definition on_inbound (h : t) (now_ms : Z) (pong : option bytes) : t * bool :=
  if stopped h then (h, false)
  else
    let h := set_last_inbound (Z.max (last_inbound_ms h) now_ms) h in
    match outstanding h with
    | Some ping =>
        let matching_payload := bool_decide (pong = Some (payload ping)) in
        let ping' := if matching_payload && negb (flushed ping)
                     then MkPing (payload ping) (deadline_ms ping) (flushed ping) true else ping in
        let matched := matching_payload && flushed ping' &&
                       match deadline_ms ping' with Some deadline => now_ms <? deadline | None => true end in
        (set_outstanding (if matched then None else Some ping') h, matched)
    | None => (h, false)
    end.

Definition stop (h : t) : t := set_outstanding None (set_stopped true h).
End Heartbeat.

(** [reason.is_char_boundary(end)], for [end <= reason.len()] *)
Definition is_char_boundary (reason : bytes) (n : Z) : bool :=
  (n =? 0) || (n =? len reason) || negb (cont reason.[n]).

(** The loop of [bounded_close_reason]; position 0 is a boundary, so [n] turns are enough from [n]. *)
Fixpoint boundary_before (reason : bytes) (n : nat) : Z :=
  if is_char_boundary reason (Z.of_nat n) then Z.of_nat n
  else match n with O => 0 | S m => boundary_before reason m end.

Definition MAX_REASON_BYTES := 123.
Definition bounded_close_reason (reason : bytes) : bytes :=
  if len reason <=? MAX_REASON_BYTES then reason
  else upto (boundary_before reason (Z.to_nat MAX_REASON_BYTES)) reason.

(** ** Close reasons cut at a character *)

Definition starts_char (l : bytes) : bool := match l with [] => true | b :: _ => negb (cont b) end.

Lemma lead_not_cont a lo hi : 0xC0 <= lo -> in_range lo hi a = true -> cont a = false.
Proof. intros Hlo [? ?]%in_range_iff. apply in_range_f. lia. Qed.

Lemma valid_starts_char l : str_from_utf8 l = true -> starts_char l = true.
Proof.
  destruct l as [|a t]; [done|]. cbn [str_from_utf8 starts_char]. destruct (Z.ltb_spec a 128).
  { intros _. unfold cont. rewrite in_range_f by lia. done. }
  destruct (in_range 194 223 a) eqn:E2; [by rewrite (lead_not_cont a 194 223)|].
  destruct (in_range 224 239 a) eqn:E3; [by rewrite (lead_not_cont a 224 239)|].
  destruct (in_range 240 244 a) eqn:E4; [by rewrite (lead_not_cont a 240 244)|done].
Qed.

Lemma second_ok_is_cont a b : second_ok a b = true -> cont b = true.
Proof.
  unfold second_ok, cont. repeat destruct (_ =? _); rewrite ?in_range_iff; lia.
Qed.

(** A cut of a well-formed string is well formed exactly at the start of a character. *)
Lemma cut_valid l n : str_from_utf8 l = true -> str_from_utf8 (take n l) = starts_char (drop n l).
Proof.
  revert n. induction l as [|a t IH] using utf8_ind; intros n Hl; [by rewrite take_nil, drop_nil|].
  destruct n as [|n]; [symmetry; by apply (valid_starts_char (a :: t))|]. revert Hl. cbn [str_from_utf8 take drop].
  destruct (a <? 128); [intros; by apply IH|].
  destruct (in_range 194 223 a).
  { destruct t as [|b t]; [done|]. intros [Hb H]%andb_prop. destruct n as [|n]; cbn; rewrite Hb; [done|].
    apply IH; [cbn; lia|done]. }
  destruct (in_range 224 239 a).
  { destruct t as [|b [|c t]]; try done. intros [[Hb Hc]%andb_prop H]%andb_prop.
    destruct n as [|[|n]]; cbn; rewrite ?Hb, ?Hc, ?(second_ok_is_cont _ _ Hb); try done. apply IH; [cbn; lia|done]. }
  destruct (in_range 240 244 a); [|done].
  destruct t as [|b [|c [|d t]]]; try done. intros [[[Hb Hc]%andb_prop Hd]%andb_prop H]%andb_prop.
  destruct n as [|[|[|n]]]; cbn; rewrite ?Hb, ?Hc, ?Hd, ?(second_ok_is_cont _ _ Hb); try done.
  apply IH; [cbn; lia|done].
Qed.

Lemma char_boundary_valid l n : str_from_utf8 l = true -> 0 <= n <= len l ->
  is_char_boundary l n = str_from_utf8 (upto n l).
Proof.
  intros Hl Hn. unfold upto. rewrite cut_valid by done. unfold is_char_boundary.
  destruct (Z.eqb_spec n 0) as [->|Hz]; [symmetry; by apply (valid_starts_char l)|].
  destruct (Z.eqb_spec n (len l)) as [->|Hlen].
  { unfold len. by rewrite Nat2Z.id, drop_all. }
  fold (from n l). rewrite from_cons by lia. done.
Qed.

(** The backwards search finds the last boundary at or before its start. *)
Lemma boundary_before_last l n : 0 <= boundary_before l n <= Z.of_nat n /\
  is_char_boundary l (boundary_before l n) = true /\
  forall k, boundary_before l n < k <= Z.of_nat n -> is_char_boundary l k = false.
Proof.
  induction n as [|n IH].
  - change (boundary_before l 0) with 0. split; [lia|]. split; [done|]. lia.
  - cbn [boundary_before]. destruct (is_char_boundary l (Z.of_nat (S n))) eqn:E.
    + split; [lia|]. split; [done|]. lia.
    + destruct IH as (H1 & H2 & H3). split; [lia|]. split; [done|]. intros k Hk.
      destruct (decide (k = Z.of_nat (S n))) as [->|]; [done|]. apply H3. lia.
Qed.

(** A close reason built from text is cut to at most 123 bytes, so that with its code it
    fits a control frame: it is unchanged when short enough, and otherwise the longest prefix of at most 123
    bytes that is still UTF-8. *)
Theorem close_reason_bounded reason : str_from_utf8 reason = true ->
  let r := bounded_close_reason reason in
  len r <= MAX_REASON_BYTES /\ str_from_utf8 r = true /\ (exists k, reason = r ++ k) /\
  (len reason <= MAX_REASON_BYTES -> r = reason) /\
  (forall p k, reason = p ++ k -> str_from_utf8 p = true -> len p <= MAX_REASON_BYTES -> len p <= len r).
Proof.
  intros Hv. cbn zeta. unfold bounded_close_reason. destruct (Z.leb_spec (len reason) MAX_REASON_BYTES).
  { split_and!; try done; [exists []; by rewrite app_nil_r|]. intros p k E _ _. rewrite E, len_app.
    pose proof (len_nonneg k). lia. }
  destruct (boundary_before_last reason (Z.to_nat MAX_REASON_BYTES)) as (Hb & Hc & Hlast).
  set (e := boundary_before reason (Z.to_nat MAX_REASON_BYTES)) in *. clearbody e.
  rewrite Z2Nat.id in Hb, Hlast by (unfold MAX_REASON_BYTES; lia).
  rewrite len_upto by lia. split_and!; [lia| | |lia|].
  - rewrite <- char_boundary_valid by (done || lia). done.
  - exists (from e reason). by rewrite upto_from.
  - intros p k E Hp Hlen. destruct (Z.le_gt_cases (len p) e) as [|Hgt]; [done|].
    specialize (Hlast (len p) ltac:(lia)). rewrite char_boundary_valid, E, upto_app_exact, Hp in Hlast; [done|done|].
    pose proof (len_nonneg p). lia.
Qed.

(** A reason of 122 letters followed by a three-byte character loses the character. *)


(** ** Which deadline is reported *)

Module HeartbeatSpec.
Import Heartbeat.

(** The deadlines that apply in a state, each on its own. *)
Inductive enabled (h : t) : Deadline -> Prop :=
  | enabled_pong ping d : stopped h = false -> outstanding h = Some ping -> deadline_ms ping = Some d ->
      enabled h (DPong d)
  | enabled_idle : stopped h = false -> idle_timeout_ms h <> 0 ->
      enabled h (DIdle (saturating_add (last_inbound_ms h) (idle_timeout_ms h)))
  | enabled_ping : stopped h = false -> auto_ping h = true -> outstanding h = None ->
      enabled h (DPing (saturating_add (last_inbound_ms h) (ping_interval_ms h))).

(** A tie goes to the missing Pong, then to the idle timeout. *)
Definition rank (d : Deadline) : Z := match d with DPong _ => 0 | DIdle _ => 1 | DPing _ => 2 end.
Definition no_later (d e : Deadline) : Prop :=
  deadline_at d < deadline_at e \/ (deadline_at d = deadline_at e /\ rank d <= rank e).

Definition is_hard (d : Deadline) : Prop := match d with DPing _ => False | _ => True end.

(** [o] is the first of the deadlines in [P], if there are any. *)
Definition first_of (P : Deadline -> Prop) (o : option Deadline) : Prop :=
  match o with
  | Some d => P d /\ forall e, P e -> no_later d e
  | None => forall e, ~ P e
  end.

Lemma idle_deadline_eq h : idle_deadline h =
  if decide (idle_timeout_ms h = 0) then None else Some (saturating_add (last_inbound_ms h) (idle_timeout_ms h)).
Proof. unfold idle_deadline. case_decide; [ztrue (idle_timeout_ms h =? 0)|zfalse (idle_timeout_ms h =? 0)]; done. Qed.

(** Case analysis on the deadlines of a state. *)
Ltac deadlines :=
  repeat first
    [ progress (unfold not; intros)
    | match goal with
      | H : _ /\ _ |- _ => destruct H
      | H : enabled _ _ |- _ => inversion H; clear H; simplify_eq
      end
    | progress simplify_eq/=
    | done
    | eapply enabled_pong; eassumption
    | apply enabled_idle; assumption
    | apply enabled_ping; assumption
    | match goal with |- _ /\ _ => split end ].

Lemma next_hard_deadline_first h : first_of (fun d => enabled h d /\ is_hard d) (next_hard_deadline h).
Proof.
  unfold next_hard_deadline. rewrite idle_deadline_eq. destruct (stopped h) eqn:Hs; [cbn; deadlines; congruence|].
  destruct (outstanding h) as [ping|] eqn:Ho; cbn; [destruct (deadline_ms ping) as [d|] eqn:Hd|];
    (case_decide as Hi; [|try destruct (Z.ltb_spec (saturating_add (last_inbound_ms h) (idle_timeout_ms h)) d)]);
    cbn; deadlines; unfold no_later; cbn; lia.
Qed.

Lemma next_deadline_min h : first_of (enabled h) (next_deadline h).
Proof.
  unfold next_deadline. destruct (stopped h) eqn:Hs; [cbn; deadlines; congruence|].
  destruct (outstanding h ≫= deadline_ms) as [d|] eqn:Hd.
  - pose proof (next_hard_deadline_first h) as H. apply bind_Some in Hd as (ping & Ho & Hd).
    destruct (next_hard_deadline h) as [e|]; cbn in *.
    + destruct H as [[He _] Hmin]. split; [done|]. intros e' He'. apply Hmin. split; [done|].
      by inversion He'; simplify_eq.
    + intros e He. apply (H (DPong d)). split; [|done]. by econstructor.
  - rewrite idle_deadline_eq. destruct (outstanding h) as [ping|] eqn:Ho; cbn in *; destruct (auto_ping h) eqn:Ha; cbn;
      rewrite ?bool_decide_eq_true_2, ?bool_decide_eq_false_2 by (by eexists || by intros [? ?]); cbn;
      (case_decide as Hi; [|cbn; try destruct (Z.leb_spec (saturating_add (last_inbound_ms h) (idle_timeout_ms h))
                                          (saturating_add (last_inbound_ms h) (ping_interval_ms h)))]);
      cbn; deadlines; unfold no_later; cbn; first [congruence | lia].
Qed.

(** The deadline the timer is armed for is the earliest of those that apply: the Pong
    expected for a flushed Ping, the hard idle timeout, and, while no Ping is outstanding, the next
    Ping; ties go to them in that order, and none is reported exactly when none applies.  The hard deadline
    is the earliest of the first two. *)
Theorem next_deadline_first h :
  first_of (enabled h) (next_deadline h) /\
  first_of (fun d => enabled h d /\ is_hard d) (next_hard_deadline h).
Proof. split; [apply next_deadline_min|apply next_hard_deadline_first]. Qed.

(** ** What a history says *)

Inductive op :=
  | OpPing (now : Z)
  | OpFlushed (now : Z)
  | OpInbound (now : Z) (pong : option bytes)
  | OpStop.

(** What an observer of the connection sees: Pings queued, flushes, inbound frames, the end. *)
Inductive event :=
  | Sent (payload : bytes)
  | Flushed (now : Z)
  | Inbound (now : Z) (pong : option bytes)
  | Stopped.

Definition step (s : Z * t) (o : op) : (Z * t) * list event :=
  let '(n, h) := s in
  match o with
  | OpPing now =>
      match ping_due n h now with
      | (n', h', Some p) => ((n', h'), [Sent p])
      | (n', h', None) => ((n', h'), [])
      end
  | OpFlushed now => ((n, ping_flushed h now), [Flushed now])
  | OpInbound now pong => ((n, fst (on_inbound h now pong)), [Inbound now pong])
  | OpStop => ((n, stop h), [Stopped])
  end.

Fixpoint run_ops (s : Z * t) (ops : list op) : (Z * t) * list event :=
  match ops with
  | [] => (s, [])
  | o :: ops => let '(s1, e) := step s o in let '(s2, es) := run_ops s1 ops in (s2, e ++ es)
  end.

(** While the Ping [p] waits for its flush: no flush, no end, no answer to it. *)
Definition unanswered (p : bytes) (e : event) : Prop :=
  match e with
  | Flushed _ | Stopped => False
  | Inbound _ pong => pong <> Some p
  | Sent _ => True
  end.

(** While its Pong is awaited until [d]: no end, and an answer only when it is too late. *)
Definition awaited (p : bytes) (d : Z) (e : event) : Prop :=
  match e with
  | Stopped => False
  | Inbound now pong => pong = Some p -> d <= now
  | _ => True
  end.

Definition awaiting (timeout d : Z) (hist : list event) : Prop :=
  exists before p between now after,
    hist = before ++ Sent p :: between ++ Flushed now :: after /\
    Forall (unanswered p) between /\ timeout <> 0 /\ d = saturating_add now timeout /\
    Forall (awaited p d) after.

(** The timeouts never change, and a Ping is outstanding only while the heartbeat runs. *)
Record consistent (h : t) : Prop := {
  con_stopped : stopped h = true -> outstanding h = None;
  con_fresh ping : outstanding h = Some ping -> flushed ping = false -> deadline_ms ping = None;
  con_flushed ping : outstanding h = Some ping -> flushed ping = true -> acknowledged ping = false
}.

Lemma ping_due_cases n h now : let '(n', h', r) := ping_due n h now in
  (r = None /\ n' = n /\ h' = h) \/
  (outstanding h = None /\ stopped h = false /\ exists p, r = Some p /\ h' = set_outstanding (Some (MkPing p None false false)) h).
Proof.
  pose proof (next_deadline_min h) as H. unfold ping_due.
  destruct (next_deadline h) as [[d|d|d]|]; try by left. destruct (d <=? now); [|by left]. right.
  destruct H as [H _]. inversion H. split_and!; try done. by eexists.
Qed.

(** [awaiting] one event at a time. *)
Definition pending_in (hist : list event) (p : bytes) : Prop :=
  exists before between, hist = before ++ Sent p :: between /\ Forall (unanswered p) between.

Definition awaiting_for (timeout : Z) (hist : list event) (p : bytes) (d : Z) : Prop :=
  exists before between now after,
    hist = before ++ Sent p :: between ++ Flushed now :: after /\
    Forall (unanswered p) between /\ timeout <> 0 /\ d = saturating_add now timeout /\
    Forall (awaited p d) after.

(** The last event is the distinguished one or belongs to what follows it. *)
Lemma snoc_split {A} (P : A -> Prop) (hist : list A) e x :
  (exists before after, hist ++ [e] = before ++ x :: after /\ Forall P after) <->
  e = x \/ (P e /\ exists before after, hist = before ++ x :: after /\ Forall P after).
Proof.
  split.
  - intros (before & after & E & H). destruct after as [|y after _] using rev_ind.
    + apply app_inj_tail in E as [_ ->]. by left.
    + rewrite app_comm_cons, app_assoc in E. apply app_inj_tail in E as [-> ->].
      apply Forall_app in H as [H Hy]. rewrite Forall_singleton in Hy. right. split; [done|]. by exists before, after.
  - intros [->|(He & before & after & -> & H)]; [by exists hist, []|].
    exists before, (after ++ [e]). rewrite <- app_assoc. split; [done|]. apply Forall_app. by repeat constructor.
Qed.

Lemma pending_snoc hist e p : pending_in (hist ++ [e]) p <-> e = Sent p \/ (unanswered p e /\ pending_in hist p).
Proof. apply snoc_split. Qed.

Lemma awaiting_unfold timeout hist p d : awaiting_for timeout hist p d <->
  exists now, timeout <> 0 /\ d = saturating_add now timeout /\
    exists before after, hist = before ++ Flushed now :: after /\ pending_in before p /\ Forall (awaited p d) after.
Proof.
  split.
  - intros (b & m & now & a & -> & Hm & Ht & Hd & Ha). exists now. split_and!; try done.
    exists (b ++ Sent p :: m), a. rewrite <- app_assoc. split; [done|]. split; [by exists b, m|done].
  - intros (now & Ht & Hd & b' & a & -> & (b & m & -> & Hm) & Ha). exists b, m, now, a.
    rewrite <- app_assoc. by split_and!.
Qed.

Lemma awaiting_snoc timeout hist e p d : awaiting_for timeout (hist ++ [e]) p d <->
  match e with
  | Flushed now => timeout <> 0 /\ d = saturating_add now timeout /\ pending_in hist p
  | _ => False
  end \/ (awaited p d e /\ awaiting_for timeout hist p d).
Proof.
  rewrite !awaiting_unfold. split.
  - intros (now & Ht & Hd & b & a & E & Hp & Ha). destruct a as [|y a _] using rev_ind.
    + apply app_inj_tail in E as [<- ->]. by left.
    + rewrite app_comm_cons, app_assoc in E. apply app_inj_tail in E as [-> ->].
      apply Forall_app in Ha as [Ha Hy]. rewrite Forall_singleton in Hy. right. split; [done|].
      exists now. split_and!; try done. by exists b, a.
  - intros [H|(He & now & Ht & Hd & b & a & -> & Hp & Ha)].
    + destruct e as [|now| |]; try done. exists now. split_and!; try apply H. by exists hist, []; split_and!; [|apply H|].
    + exists now. split_and!; try done. exists b, (a ++ [e]). rewrite <- app_assoc.
      split; [done|]. split; [done|]. apply Forall_app. split; [done|]. by apply Forall_singleton.
Qed.

Definition inbound_times (hist : list event) : list Z :=
  omap (fun e => match e with Inbound now _ => Some now | _ => None end) hist.

(** The state after a history. *)
Record tracks (h0 h : t) (hist : list event) : Prop := {
  tr_settings : auto_ping h = auto_ping h0 /\ ping_interval_ms h = ping_interval_ms h0 /\
    idle_timeout_ms h = idle_timeout_ms h0 /\ pong_timeout_ms h = pong_timeout_ms h0;
  tr_stopped : stopped h = true <-> Stopped ∈ hist;
  tr_inbound : stopped h = false -> last_inbound_ms h = foldl Z.max (last_inbound_ms h0) (inbound_times hist);
  tr_consistent : consistent h;
  tr_pending p : pending_in hist p <-> outstanding h = Some (MkPing p None false false);
  tr_awaiting p d : awaiting_for (pong_timeout_ms h0) hist p d <-> outstanding h = Some (MkPing p (Some d) true false)
}.

Lemma stopped_snoc hist e : Stopped ∈ hist ++ [e] <-> Stopped ∈ hist \/ e = Stopped.
Proof. rewrite elem_of_app, list_elem_of_singleton. by split; intros [?|?]; auto. Qed.

Lemma inbound_snoc start hist e : foldl Z.max start (inbound_times (hist ++ [e])) =
  match e with
  | Inbound now _ => Z.max (foldl Z.max start (inbound_times hist)) now
  | _ => foldl Z.max start (inbound_times hist)
  end.
Proof. unfold inbound_times. rewrite omap_app, foldl_app. by destruct e. Qed.

(** A consistent state has one of four shapes. *)
Inductive shape (h : t) : Prop :=
  | shape_none : outstanding h = None -> shape h
  | shape_fresh p a : stopped h = false -> outstanding h = Some (MkPing p None false a) -> shape h
  | shape_flushed p d : stopped h = false -> outstanding h = Some (MkPing p d true false) -> shape h.

Lemma consistent_shape h : consistent h -> shape h.
Proof.
  intros [Hs Hf Ha]. destruct (outstanding h) as [[p d f a]|] eqn:Eo; [|by apply shape_none].
  destruct (stopped h) eqn:Es; [by specialize (Hs eq_refl)|].
  destruct f.
  - specialize (Ha _ eq_refl eq_refl). cbn in Ha. subst. by eapply shape_flushed.
  - specialize (Hf _ eq_refl eq_refl). cbn in Hf. subst. by eapply shape_fresh.
Qed.

Ltac solve_consistent := split; cbn; intros; simplify_eq/=; try done; congruence.

(** Finish a goal that the history no longer matters for. *)
Ltac by_shape :=
  repeat match goal with
  | H : _ <-> _ |- _ => clear H
  | H : forall _, _ |- _ => clear H
  | H : consistent _ |- _ => clear H
  | H : shape _ |- _ => clear H
  end; cbn in *; intuition congruence.

Lemma sent_tracks h0 h hist p : tracks h0 h hist -> outstanding h = None -> stopped h = false ->
  tracks h0 (set_outstanding (Some (MkPing p None false false)) h) (hist ++ [Sent p]).
Proof.
  intros [Hset Hst Hin Hc Hp Ha] Ho Hs. split; cbn.
  - done.
  - rewrite stopped_snoc, <- Hst. by_shape.
  - intros. by rewrite inbound_snoc, Hin.
  - solve_consistent.
  - intros q. rewrite pending_snoc, Hp, Ho. by_shape.
  - intros q d. rewrite awaiting_snoc, Ha, Ho. by_shape.
Qed.

Lemma flushed_tracks h0 h hist now : tracks h0 h hist -> tracks h0 (ping_flushed h now) (hist ++ [Flushed now]).
Proof.
  intros [Hset Hst Hin Hc Hp Ha]. destruct Hset as (Hs1 & Hs2 & Hs3 & Hs4).
  pose proof (consistent_shape h Hc) as Hsh. split.
  - unfold ping_flushed. by repeat case_match.
  - rewrite stopped_snoc, <- Hst. unfold ping_flushed. repeat case_match; cbn; by_shape.
  - rewrite inbound_snoc. unfold ping_flushed. by repeat case_match.
  - unfold ping_flushed. inversion Hsh as [Ho|p a Hs Ho|p d Hs Ho]; rewrite Ho; cbn; [done| |done].
    destruct a; solve_consistent.
  - intros q. rewrite pending_snoc. unfold ping_flushed.
    inversion Hsh as [Ho|p a Hs Ho|p d Hs Ho]; rewrite Ho; cbn; [by_shape|destruct a; by_shape|by_shape].
  - intros q d. rewrite awaiting_snoc, Hp, Ha. unfold ping_flushed. rewrite Hs4.
    inversion Hsh as [Ho|p a Hs Ho|p e Hs Ho]; rewrite Ho; cbn; [by_shape| |by_shape].
    destruct a; cbn; [by_shape|]. destruct (Z.eqb_spec (pong_timeout_ms h0) 0); cbn; by_shape.
Qed.

(** The fields of [tracks] after an inbound frame, by the shape of the state. *)
Ltac inbound_field Hp Ha Ho Es :=
  split; cbn; try done;
  first [ solve_consistent
        | intros q; rewrite pending_snoc, Hp, Ho; by_shape
        | intros q d; rewrite awaiting_snoc, Ha, Ho; cbn; by_shape
        | by rewrite Es
        | idtac ].

Lemma inbound_tracks h0 h hist now pong : tracks h0 h hist ->
  tracks h0 (fst (on_inbound h now pong)) (hist ++ [Inbound now pong]).
Proof.
  intros [Hset Hst Hin Hc Hp Ha]. pose proof (consistent_shape h Hc) as Hsh. unfold on_inbound.
  destruct (stopped h) eqn:Es; cbn.
  { pose proof (con_stopped h Hc Es) as Ho. split; try done.
    - rewrite stopped_snoc, Es, <- Hst. by_shape.
    - congruence.
    - intros q. rewrite pending_snoc, Hp, Ho. by_shape.
    - intros q d. rewrite awaiting_snoc, Ha, Ho. by_shape. }
  assert (Hin' : Z.max (last_inbound_ms h) now =
    foldl Z.max (last_inbound_ms h0) (inbound_times (hist ++ [Inbound now pong]))) by by rewrite inbound_snoc, Hin.
  assert (Hst' : false = true <-> Stopped ∈ hist ++ [Inbound now pong]) by (rewrite stopped_snoc, <- Hst; by_shape).
  inversion Hsh as [Ho|p a Hs Ho|p e Hs Ho]; rewrite Ho; cbn.
  - inbound_field Hp Ha Ho Es.
  - case_bool_decide as Hm; destruct a; cbn; inbound_field Hp Ha Ho Es.
  - case_bool_decide as Hm; cbn; [destruct e as [e|]; [destruct (Z.ltb_spec now e)|]|]; inbound_field Hp Ha Ho Es.
    intros q d. rewrite awaiting_snoc, Ha, Ho. split; [|done]. intros [?|[H1 [= <- <-]]]; [done|].
    specialize (H1 Hm). lia.
Qed.

Lemma stop_tracks h0 h hist : tracks h0 h hist -> tracks h0 (stop h) (hist ++ [Stopped]).
Proof.
  intros [Hset Hst Hin Hc Hp Ha]. split; cbn; try done.
  - rewrite stopped_snoc. tauto.
  - intros q. rewrite pending_snoc. by_shape.
  - intros q d. rewrite awaiting_snoc. by_shape.
Qed.

Lemma step_tracks h0 n h hist o : tracks h0 h hist ->
  let '((n', h'), es) := step (n, h) o in tracks h0 h' (hist ++ es).
Proof.
  intros H. destruct o as [now|now|now pong|]; cbn.
  - pose proof (ping_due_cases n h now) as Hd. destruct (ping_due n h now) as [[n' h'] r].
    destruct Hd as [(-> & -> & ->)|(Ho & Hs & p & -> & ->)]; [by rewrite app_nil_r|by apply sent_tracks].
  - by apply flushed_tracks.
  - by apply inbound_tracks.
  - by apply stop_tracks.
Qed.

Lemma run_tracks h0 n h hist ops : tracks h0 h hist ->
  let '((n', h'), es) := run_ops (n, h) ops in tracks h0 h' (hist ++ es).
Proof.
  revert n h hist. induction ops as [|o ops IH]; intros n h hist H; cbn [run_ops]; [by rewrite app_nil_r|].
  pose proof (step_tracks h0 n h hist o H) as Hs. destruct (step (n, h) o) as [[n1 h1] e].
  specialize (IH n1 h1 _ Hs). destruct (run_ops (n1, h1) ops) as [[n2 h2] es]. by rewrite app_assoc.
Qed.

Lemma new_tracks auto ping_s idle_s pong_s now : let h := new auto ping_s idle_s pong_s now in tracks h h [].
Proof.
  cbn. split; cbn; try done.
  - split; [done|]. by intros ?%elem_of_nil.
  - intros p. split; [|done]. by intros ([] & ? & ? & _).
  - intros p d. split; [|done]. by intros ([] & ? & ? & ? & ? & _).
Qed.

(** The deadline for a missing Pong depends on the history of the connection alone.
    After any operations it is pending, at [d], exactly when a Ping was sent and then flushed, [d] is that
    flush plus the timeout (which is not zero), the Ping was not answered before the flush nor
    before [d], and the heartbeat was not stopped.  The idle and Ping deadlines are measured from the
    latest inbound frame, whatever the order frames are reported in. *)
Theorem pong_deadline_from_history auto ping_s idle_s pong_s start n ops :
  let '((n', h), hist) := run_ops (n, new auto ping_s idle_s pong_s start) ops in
  (forall d, enabled h (DPong d) <-> awaiting (seconds_ms pong_s) d hist) /\
  (forall d, enabled h (DIdle d) <-> (Stopped ∉ hist) /\ seconds_ms idle_s <> 0 /\
     d = saturating_add (foldl Z.max start (inbound_times hist)) (seconds_ms idle_s)) /\
  (forall d, enabled h (DPing d) -> auto = true /\ ping_s <> 0 /\
     d = saturating_add (foldl Z.max start (inbound_times hist)) (seconds_ms ping_s)).
Proof.
  pose proof (run_tracks _ n _ _ ops (new_tracks auto ping_s idle_s pong_s start)) as H.
  cbn zeta in H. destruct (run_ops _ ops) as [[n' h] hist]. cbn [app] in H.
  destruct H as [(Hs1 & Hs2 & Hs3 & Hs4) Hst Hin Hc Hp Ha]. cbn in *. split_and!.
  - intros d. split.
    + intros He. inversion He as [[p d' f a] ? Hs Ho Hd| |]; cbn in Hd; subst.
      destruct f; [|by pose proof (con_fresh h Hc _ Ho eq_refl)].
      pose proof (con_flushed h Hc _ Ho eq_refl) as Hack. cbn in Hack. subst.
      apply Ha in Ho as (b & m & now & af & ?). by exists b, p, m, now, af.
    + intros (b & p & m & now & af & H). assert (Ho : awaiting_for (seconds_ms pong_s) hist p d) by by exists b, m, now, af.
      apply Ha in Ho. eapply enabled_pong; [|done|done].
      destruct (stopped h) eqn:Es; [|done]. by rewrite (con_stopped h Hc Es) in Ho.
  - intros d. rewrite <- Hst, not_true_iff_false. split.
    + intros He. inversion He; subst. split; [done|]. rewrite <- Hs3. split; [done|]. by rewrite Hin.
    + intros (Hs & Hi & ->). rewrite <- (Hin Hs), <- Hs3. apply enabled_idle; [done|congruence].
  - intros d He. inversion He as [| |Hs Hau Ho]; subst. rewrite Hs1 in Hau. apply andb_prop in Hau as [-> Hz].
    apply negb_true_iff, Z.eqb_neq in Hz. by rewrite Hin, Hs2.
Qed.
End HeartbeatSpec.
