(* ===== verification/Output.v ===== *)
(** * Draining queued output (src/src/stream/websocket.rs, [UnifiedOutput])

    Both halves of a stream may drain the same output: the cork buffer, one Pong
    that has not been encoded yet, and the wakers of the tasks that wait.  The
    transport is an interface: it accepts any part of what it is offered, is
    not ready, or fails.  The theorems say that the bytes on the wire are
    the bytes queued, in order, whatever the transport does, and that no task
    that waits is forgotten. *)

From stdpp Require Import base list option sets.
From S2P Require Import Prelude Error Utf8 Frame FrameSpec Protocol Heartbeat Cork.
Import CorkBuffer CorkSpec.

Inductive poll (A : Type) := Pending | Ready (a : A).
Arguments Pending {A}.
Arguments Ready {A} a.

(** ** The transport ([tokio::io::AsyncWrite]) *)

Class Transport (T : Type) := {
  is_write_vectored : T -> bool;
  poll_write : T -> bytes -> T * poll (res IoError Z);
  poll_write_vectored : T -> list bytes -> T * poll (res IoError Z);
  poll_flush : T -> T * poll (res IoError unit)
}.

(** Its documented behaviour: [Ok n] means that the first [n] bytes offered were
    accepted, [Pending] and errors mean that none were. *)
Definition accepts {T} (accepted : T -> bytes) (t : T) (offered : bytes) (r : T * poll (res IoError Z)) : Prop :=
  match snd r with
  | Ready (Ok n) => 0 <= n <= len offered /\ accepted (fst r) = accepted t ++ upto n offered
  | _ => accepted (fst r) = accepted t
  end.

Class TransportSpec (T : Type) `{Transport T} := {
  accepted : T -> bytes;
  poll_write_accepts t b : accepts accepted t b (poll_write t b);
  poll_write_vectored_accepts t bs : accepts accepted t (concat bs) (poll_write_vectored t bs);
  poll_flush_accepts t : accepted (fst (poll_flush t)) = accepted t
}.

(** ** Wakers *)

Inductive Half := Stream | Sink.
#[export] Instance Half_eq_dec : EqDecision Half.
Proof. solve_decision. Defined.

(** A waker is known by the task it wakes. *)
Definition Task := Z.

Module HalfWakers.
Record HalfSlot := MkSlot { waker : option Task; armed : bool; waiting : bool }.
Record t := Mk { stream : HalfSlot; sink : HalfSlot; woken : list Task }.

Definition default : t := Mk (MkSlot None false false) (MkSlot None false false) [].

Definition slot (half : Half) (w : t) : HalfSlot := match half with Stream => stream w | Sink => sink w end.
Definition set_slot (half : Half) (s : HalfSlot) (w : t) : t :=
  match half with
  | Stream => Mk s (sink w) (woken w)
  | Sink => Mk (stream w) s (woken w)
  end.

Definition take_waker (half : Half) (w : t) : t * option Task :=
  let s := slot half w in
  if negb (waiting s) then (w, None)
  else (set_slot half (MkSlot None false (waiting s)) w, waker s).

(** Waking a task is recorded in [woken]. *)
Definition wakes (l : list Task) (w : t) : t := Mk (stream w) (sink w) (woken w ++ l).

Definition wake (half : Half) (w : t) : t :=
  match take_waker half w with
  | (w, Some task) => wakes [task] w
  | (w, None) => w
  end.

Definition wake_both (w : t) : t :=
  let '(w, s) := take_waker Stream w in
  let '(w, k) := take_waker Sink w in
  match s, k with
  | Some a, Some b => if decide (a = b) then wakes [a] w else wakes [a; b] w
  | Some a, None | None, Some a => wakes [a] w
  | None, None => w
  end.
End HalfWakers.

(** ** The output state *)

Module UnifiedOutput.
Import HalfWakers.

Record t := Mk {
  write_buf : CorkBuffer.t;
  pending_pong : option bytes;
  ping_flush_pending : bool;
  ready_flush_pending : bool;
  wakers : HalfWakers.t;
  registered : Half -> option Task
}.

Definition new (write_buffer_size : Z) : t :=
  Mk (with_capacity write_buffer_size) None false false HalfWakers.default (fun _ => None).

Definition set_write_buf (c : CorkBuffer.t) (o : t) : t :=
  Mk c (pending_pong o) (ping_flush_pending o) (ready_flush_pending o) (wakers o) (registered o).
Definition set_pending_pong (p : option bytes) (o : t) : t :=
  Mk (write_buf o) p (ping_flush_pending o) (ready_flush_pending o) (wakers o) (registered o).
Definition set_ping_flush_pending (b : bool) (o : t) : t :=
  Mk (write_buf o) (pending_pong o) b (ready_flush_pending o) (wakers o) (registered o).
Definition set_ready_flush_pending (b : bool) (o : t) : t :=
  Mk (write_buf o) (pending_pong o) (ping_flush_pending o) b (wakers o) (registered o).
Definition set_wakers (w : HalfWakers.t) (o : t) : t :=
  Mk (write_buf o) (pending_pong o) (ping_flush_pending o) (ready_flush_pending o) w (registered o).
Definition set_registered (half : Half) (task : Task) (o : t) : t :=
  Mk (write_buf o) (pending_pong o) (ping_flush_pending o) (ready_flush_pending o) (wakers o)
     (fun h => if decide (h = half) then Some task else registered o h).

Definition register_slow (half : Half) (task : Task) (o : t) : t :=
  let s := slot half (wakers o) in
  let o := set_wakers (set_slot half (MkSlot (Some task) true (waiting s)) (wakers o)) o in
  set_registered half task o.

Definition register (half : Half) (task : Task) (o : t) : t :=
  let s := slot half (wakers o) in
  let o := if negb (waiting s)
           then set_wakers (set_slot half (MkSlot (waker s) (armed s) true) (wakers o)) o else o in
  if armed (slot half (wakers o)) && bool_decide (registered o half = Some task) then o
  else register_slow half task o.

Definition settle {A} (half : Half) (r : poll A) (o : t) : t :=
  match half, r with
  | Sink, Ready _ =>
      let s := slot half (wakers o) in set_wakers (set_slot half (MkSlot (waker s) (armed s) false) (wakers o)) o
  | _, _ => o
  end.

Definition needs_drain_before_send (threshold : Z) (o : t) : bool :=
  ready_flush_pending o || bool_decide (is_Some (pending_pong o)) || (threshold <=? pending_bytes (write_buf o)).

(** [record_ping_flush]; the flag is cleared by the first call, so one reading [now] of the clock is enough. *)
Definition record_ping_flush (half : Half) (now : Z) (o : t) (hb : Heartbeat.t) : t * Heartbeat.t :=
  if ping_flush_pending o then
    let o := set_ping_flush_pending false o in
    let hb := Heartbeat.ping_flushed hb now in
    (if decide (half = Sink) then set_wakers (wake Stream (wakers o)) o else o, hb)
  else (o, hb).

Definition MAX_WRITE_SLICES := 16%nat.

Section Drain.
Context {T : Type} `{Transport T}.

(** One write of what is pending: vectored when there are segments and the transport can. *)
Definition poll_write_pending (c : CorkBuffer.t) (inner : T) : T * poll (res IoError Z) :=
  if has_segments c && is_write_vectored inner
  then poll_write_vectored inner (fill_write_slices c MAX_WRITE_SLICES)
  else poll_write inner (chunk c).

Definition st : Type := t * T * Heartbeat.t.

Definition drain_write (s : st) : st + run Error st (poll unit) :=
  let '(o, inner, hb) := s in
  let '(inner, r) := poll_write_pending (write_buf o) inner in
  match r with
  | Ready (Ok n) =>
      if n =? 0 then inr (Done (o, inner, hb) (Err ConnectionClosed))
      else match consume (write_buf o) n with
           | Some c => inl (set_write_buf c o, inner, hb)
           | None => inr Panic
           end
  | Ready (Err e) => inr (Done (o, inner, hb) (Err (from_io e)))
  | Pending => inr (Done (o, inner, hb) (Ok Pending))
  end.

(** The flush after the loop. *)
Definition drain_end (half : Half) (now : Z) (s : st) : run Error st (poll unit) :=
  let '(o, inner, hb) := s in
  let '(inner, r) := poll_flush inner in
  match r with
  | Ready (Ok _) =>
      let '(o, hb) := record_ping_flush half now o hb in
      Done (set_ready_flush_pending false o, inner, hb) (Ok (Ready tt))
  | Ready (Err e) => Done (o, inner, hb) (Err (from_io e))
  | Pending => Done (o, inner, hb) (Ok Pending)
  end.

Definition drain_step (encode_pong : bytes -> bytes -> bytes) (half : Half) (now : Z) (s : st) :
    st + run Error st (poll unit) :=
  let '(o, inner, hb) := s in
  if has_data (write_buf o) || bool_decide (is_Some (pending_pong o)) then
    if negb (has_data (write_buf o)) then
      let '(inner, r) := poll_flush inner in
      match r with
      | Ready (Ok _) =>
          let '(o, hb) := record_ping_flush half now o hb in
          match pending_pong o with
          | Some payload =>
              let o := set_pending_pong None o in
              let c := write_buf o in
              drain_write (set_write_buf (set_buffer (encode_pong payload (buffer c)) c) o, inner, hb)
          | None => inr Panic
          end
      | Ready (Err e) => inr (Done (o, inner, hb) (Err (from_io e)))
      | Pending => inr (Done (o, inner, hb) (Ok Pending))
      end
    else drain_write s
  else inr (drain_end half now s).

(** Every turn writes a byte or ends; a Pong adds the bytes of its frame. *)
Definition drain_fuel (encode_pong : bytes -> bytes -> bytes) (o : t) : nat :=
  S (S (Z.to_nat (pending_bytes (write_buf o) +
    match pending_pong o with Some p => len (encode_pong p []) | None => 0 end))).

Definition drain (encode_pong : bytes -> bytes -> bytes) (half : Half) (now : Z) (s : st) :
    run Error st (poll unit) :=
  loop_fuel (drain_fuel encode_pong (fst (fst s))) (drain_step encode_pong half now) s.

Definition poll_drain (encode_pong : bytes -> bytes -> bytes) (half : Half) (task : Task) (now : Z) (s : st) :
    run Error st (poll unit) :=
  let '(o, inner, hb) := s in
  match drain encode_pong half now (register half task o, inner, hb) with
  | Done (o, inner, hb) (Ok r) => Done (settle half r o, inner, hb) (Ok r)
  | Done (o, inner, hb) (Err e) => Done (settle half (Ready tt) o, inner, hb) (Err e)
  | Panic => Panic
  | NoFuel => NoFuel
  end.
End Drain.

(** [poll_shutdown] and [poll_read], given what the transport answered. *)
Definition poll_shutdown {A} (half : Half) (task : Task) (r : poll A) (o : t) : t := settle half r (register half task o).
Definition poll_read (task : Task) (o : t) : t := register Stream task o.
End UnifiedOutput.

(** ** The wire *)

Module OutputSpec.
Import UnifiedOutput.

Section Wire.
Context {T : Type} `{TransportSpec T}.
Variable encode_pong : bytes -> bytes -> bytes.

Definition pong_frame (p : option bytes) : bytes := match p with Some p => encode_pong p [] | None => [] end.

(** The bytes accepted by the transport followed by those still queued. *)
Definition stream_of (s : t * T * Heartbeat.t) : bytes := let '(o, inner, _) := s in accepted inner ++ contents (write_buf o).

(** What a drain has done between [s0] and [s]. *)
Record progress (now : Z) (s0 s : t * T * Heartbeat.t) : Prop := {
  pr_wf : wf (write_buf (fst (fst s)));
  pr_stream :
    (pending_pong (fst (fst s)) = pending_pong (fst (fst s0)) /\ stream_of s = stream_of s0) \/
    (is_Some (pending_pong (fst (fst s0))) /\ pending_pong (fst (fst s)) = None /\
     stream_of s = stream_of s0 ++ pong_frame (pending_pong (fst (fst s0))));
  pr_heartbeat :
    (ping_flush_pending (fst (fst s)) = ping_flush_pending (fst (fst s0)) /\ snd s = snd s0) \/
    (ping_flush_pending (fst (fst s0)) = true /\ ping_flush_pending (fst (fst s)) = false /\
     snd s = Heartbeat.ping_flushed (snd s0) now /\ exists k, accepted (snd (fst s)) = stream_of s0 ++ k)
}.

Lemma progress_refl now s : wf (write_buf (fst (fst s))) -> progress now s s.
Proof. intros. split; [done|by left..]. Qed.

(** The offer of a turn is a prefix of the queue, and empty only if the queue is. *)
Lemma poll_write_pending_ok c inner : wf c ->
  let '(inner', r) := poll_write_pending c inner in
  match r with
  | Ready (Ok n) => 0 <= n <= len (contents c) /\ accepted inner' = accepted inner ++ upto n (contents c)
  | _ => accepted inner' = accepted inner
  end.
Proof.
  intros Hc. unfold poll_write_pending. set (offered := if has_segments c && is_write_vectored inner
    then concat (fill_write_slices c MAX_WRITE_SLICES) else chunk c).
  assert (Ho : exists k, contents c = offered ++ k).
  { unfold offered. destruct (_ && _); [apply offered_slices; [done|unfold MAX_WRITE_SLICES; lia]|by apply offered_chunk]. }
  assert (Ha : accepts accepted inner offered (if has_segments c && is_write_vectored inner
    then poll_write_vectored inner (fill_write_slices c MAX_WRITE_SLICES) else poll_write inner (chunk c))).
  { unfold offered. destruct (_ && _); [apply poll_write_vectored_accepts|apply poll_write_accepts]. }
  unfold accepts in Ha. clearbody offered.
  match type of Ha with context [snd ?x] => destruct x as [inner' r] end. cbn in Ha |- *.
  destruct r as [|[n|e]]; try done. destruct Ho as [k ->]. destruct Ha as [Hn ->]. rewrite len_app.
  pose proof (len_nonneg k). split; [lia|]. by rewrite upto_app_le by lia.
Qed.

(** One write moves bytes from the queue to the wire. *)
Lemma drain_write_ok s : wf (write_buf (fst (fst s))) ->
  match drain_write s with
  | inl s' => wf (write_buf (fst (fst s'))) /\ stream_of s' = stream_of s /\ snd s' = snd s /\
      pending_pong (fst (fst s')) = pending_pong (fst (fst s)) /\
      ping_flush_pending (fst (fst s')) = ping_flush_pending (fst (fst s)) /\
      ready_flush_pending (fst (fst s')) = ready_flush_pending (fst (fst s)) /\
      wakers (fst (fst s')) = wakers (fst (fst s)) /\ registered (fst (fst s')) = registered (fst (fst s)) /\
      (exists k, accepted (snd (fst s')) = accepted (snd (fst s)) ++ k) /\
      len (contents (write_buf (fst (fst s')))) < len (contents (write_buf (fst (fst s))))
  | inr (Done s' r) => fst (fst s') = fst (fst s) /\ snd s' = snd s /\ stream_of s' = stream_of s /\
      accepted (snd (fst s')) = accepted (snd (fst s)) /\ r <> Ok (Ready tt)
  | inr _ => False
  end.
Proof.
  destruct s as [[o inner] hb]. cbn. intros Hc. unfold drain_write.
  pose proof (poll_write_pending_ok (write_buf o) inner Hc) as Hw.
  destruct (poll_write_pending (write_buf o) inner) as [inner' [|[n|e]]]; cbn; try by rewrite Hw.
  destruct Hw as [Hn Ha]. destruct (Z.eqb_spec n 0) as [->|Hz]; cbn.
  { rewrite Ha, upto_0, app_nil_r. done. }
  destruct (consume_ok (write_buf o) n Hc ltac:(lia)) as (c' & -> & Hc' & Hcont & _). cbn.
  split_and!; try done.
  - rewrite Hcont, Ha, <- app_assoc, upto_from. done.
  - by eexists.
  - rewrite Hcont, len_from by lia. lia.
Qed.

Lemma progress_trans now s0 s s' : progress now s0 s ->
  wf (write_buf (fst (fst s'))) -> stream_of s' = stream_of s -> snd s' = snd s ->
  pending_pong (fst (fst s')) = pending_pong (fst (fst s)) ->
  ping_flush_pending (fst (fst s')) = ping_flush_pending (fst (fst s)) ->
  (exists k, accepted (snd (fst s')) = accepted (snd (fst s)) ++ k) -> progress now s0 s'.
Proof.
  intros [Hw Hs Hh] Hw' Es Eh Ep Ef [k Ek]. split; [done| |].
  - by rewrite Ep, Es.
  - rewrite Ef, Eh, Ek. destruct Hh as [Hh|(Hf & Hf' & Hb & k' & Hk)]; [by left|right].
    split_and!; try done. exists (k' ++ k). by rewrite Hk, app_assoc.
Qed.

(** With the queue empty, everything queued at the start is on the wire. *)
Lemma progress_empty now s0 s : progress now s0 s -> contents (write_buf (fst (fst s))) = [] ->
  exists k, accepted (snd (fst s)) = stream_of s0 ++ k.
Proof.
  intros [_ Hs _] He. destruct s as [[o inner] hb]. cbn in *. rewrite He, app_nil_r in Hs.
  destruct Hs as [[_ ->]|(_ & _ & ->)]; [exists []; by rewrite app_nil_r|by eexists].
Qed.

Lemma record_ping_flush_ok half now s0 o inner hb : progress now s0 (o, inner, hb) ->
  contents (write_buf o) = [] ->
  let '(o', hb') := record_ping_flush half now o hb in
  progress now s0 (o', inner, hb') /\ write_buf o' = write_buf o /\ pending_pong o' = pending_pong o /\
  ping_flush_pending o' = false /\ ready_flush_pending o' = ready_flush_pending o.
Proof.
  intros Hp He. destruct (progress_empty _ _ _ Hp He) as [k Hk]. cbn in Hk. unfold record_ping_flush.
  destruct (ping_flush_pending o) eqn:Ef; [|done].
  destruct Hp as [Hw Hs Hh]. cbn in Hw, Hs, Hh. rewrite Ef in Hh.
  assert (Hh' : ping_flush_pending (fst (fst s0)) = true /\ hb = snd s0) by (destruct Hh as [[? ?]|(_ & ? & _)]; [by split|done]).
  destruct Hh' as [Hf0 ->].
  case_decide; (split; [split; cbn; [done|done|right; by split_and!; [..|exists k]]|by split_and!]).
Qed.

Definition measure (s : t * T * Heartbeat.t) : Z :=
  len (contents (write_buf (fst (fst s)))) +
  match pending_pong (fst (fst s)) with Some p => 1 + len (encode_pong p []) | None => 0 end.

(** What a finished drain leaves. *)
Definition drained (now : Z) (s0 s : t * T * Heartbeat.t) (r : res Error (poll unit)) : Prop :=
  progress now s0 s /\
  match r with
  | Ok (Ready _) =>
      contents (write_buf (fst (fst s))) = [] /\ pending_pong (fst (fst s)) = None /\
      ping_flush_pending (fst (fst s)) = false /\ ready_flush_pending (fst (fst s)) = false
  | _ => ready_flush_pending (fst (fst s)) = ready_flush_pending (fst (fst s0))
  end.

Lemma drain_write_progress now s0 s : progress now s0 s ->
  ready_flush_pending (fst (fst s)) = ready_flush_pending (fst (fst s0)) ->
  match drain_write s with
  | inl s' => progress now s0 s' /\ measure s' < measure s /\
      ready_flush_pending (fst (fst s')) = ready_flush_pending (fst (fst s0))
  | inr (Done s' r) => drained now s0 s' r
  | inr _ => False
  end.
Proof.
  intros Hp Hr. pose proof (drain_write_ok s (pr_wf _ _ _ Hp)) as Hw.
  destruct (drain_write s) as [s'|[s' r| |]]; [| |done|done].
  - destruct Hw as (Hw' & Es & Eh & Ep & Ef & Er & _ & _ & Hk & Hlt).
    split; [by eapply progress_trans|]. unfold measure. rewrite Ep, Er. split; [lia|done].
  - destruct Hw as (Eo & Eh & Es & Ea & Hne). split.
    + eapply progress_trans; [done|rewrite Eo; by apply Hp|done|done|by rewrite Eo..|]. exists []. by rewrite app_nil_r.
    + rewrite Eo. destruct r as [[|[]]|]; done.
Qed.

(** A flush changes nothing on the wire. *)
Lemma progress_flush now s0 o inner inner' hb r : progress now s0 (o, inner, hb) -> poll_flush inner = (inner', r) ->
  progress now s0 (o, inner', hb).
Proof.
  intros Hp E. pose proof (poll_flush_accepts inner) as Ha. rewrite E in Ha. cbn in Ha.
  eapply progress_trans; [done|by apply Hp|cbn; by rewrite Ha|done..|]. exists []. cbn. by rewrite Ha, app_nil_r.
Qed.

Lemma no_data_contents o : wf (write_buf o) -> has_data (write_buf o) = false ->
  contents (write_buf o) = [] /\ buffer (write_buf o) = [].
Proof.
  intros Hw. rewrite has_data_contents by done. intros Hd%negb_false_iff%bool_decide_eq_true. split; [done|].
  unfold contents in Hd. by apply app_eq_nil in Hd as [_ ?].
Qed.

(** Encoding the Pong behind an empty queue. *)
Lemma encode_pong_progress now s0 o inner hb p : progress now s0 (o, inner, hb) ->
  contents (write_buf o) = [] -> buffer (write_buf o) = [] -> pending_pong o = Some p ->
  let o' := set_write_buf (set_buffer (encode_pong p (buffer (write_buf o))) (write_buf o)) (set_pending_pong None o) in
  progress now s0 (o', inner, hb) /\ measure (o', inner, hb) < measure (o, inner, hb).
Proof.
  intros [Hw Hs Hh] He Hb Hp. cbn in *. rewrite Hb.
  assert (Hsegs : concat (segments (write_buf o)) = []) by (unfold contents in He; by apply app_eq_nil in He as [? _]).
  split; [split; cbn|].
  - destruct Hw as [? ?]. by split.
  - right. rewrite Hp in Hs. destruct Hs as [[Hp0 Hs]|(_ & ? & _)]; [|done]. rewrite <- Hp0. split; [done|]. split; [done|].
    rewrite <- Hs, He. cbn. unfold contents. cbn. by rewrite Hsegs, app_nil_r.
  - done.
  - unfold measure. cbn. rewrite Hp, He. unfold contents. cbn. rewrite Hsegs. cbn [app]. change (len (@nil Z)) with 0. lia.
Qed.

Lemma drain_step_ok half now s0 s : progress now s0 s ->
  ready_flush_pending (fst (fst s)) = ready_flush_pending (fst (fst s0)) ->
  match drain_step encode_pong half now s with
  | inl s' => progress now s0 s' /\ measure s' < measure s /\
      ready_flush_pending (fst (fst s')) = ready_flush_pending (fst (fst s0))
  | inr (Done s' r) => drained now s0 s' r
  | inr _ => False
  end.
Proof.
  destruct s as [[o inner] hb]. intros Hp Hr. cbn in Hr. unfold drain_step.
  destruct (has_data (write_buf o)) eqn:Hd; cbn [orb negb]; [by apply drain_write_progress|].
  destruct (no_data_contents o (pr_wf _ _ _ Hp) Hd) as [He Hb].
  case_bool_decide as Hpong; cbn [drain_end]; destruct (poll_flush inner) as [inner' r] eqn:Ef;
    pose proof (progress_flush _ _ _ _ _ _ _ Hp Ef) as Hp'; (destruct r as [|[[]|e]]; [by split| |by split]);
    pose proof (record_ping_flush_ok half now s0 o inner' hb Hp' He) as Hrec;
    destruct (record_ping_flush half now o hb) as [o' hb']; destruct Hrec as (Hp2 & Ec & Epp & Epf & Erf).
  - destruct Hpong as [p Hpong]. rewrite Epp, Hpong.
    destruct (encode_pong_progress now s0 o' inner' hb' p) as [Hp3 Hm]; [done|by rewrite Ec|by rewrite Ec|by rewrite Epp|].
    match goal with |- context [drain_write ?s] =>
      pose proof (drain_write_progress now s0 s Hp3) as Hw; destruct (drain_write s) as [s'|[s' r'| |]] end;
      cbn in Hw; specialize (Hw ltac:(by rewrite Erf)); try done.
    destruct Hw as (? & ? & ?). split; [done|]. split; [|done].
    assert (measure (o', inner', hb') = measure (o, inner, hb)) by (unfold measure; cbn; by rewrite Ec, Epp). lia.
  - split.
    + destruct Hp2 as [? ? ?]. by split.
    + cbn. rewrite Ec, Epp. split_and!; try done. destruct (pending_pong o); [|done]. by exfalso; apply Hpong.
Qed.

Lemma measure_nonneg s : 0 <= measure s.
Proof.
  unfold measure. pose proof (len_nonneg (contents (write_buf (fst (fst s))))).
  destruct (pending_pong _) as [p|]; [pose proof (len_nonneg (encode_pong p []))|]; lia.
Qed.

Lemma drain_loop_ok half now s0 fuel s : progress now s0 s ->
  ready_flush_pending (fst (fst s)) = ready_flush_pending (fst (fst s0)) -> measure s < Z.of_nat fuel ->
  exists s' r, loop_fuel fuel (drain_step encode_pong half now) s = Done s' r /\ drained now s0 s' r.
Proof.
  revert s. induction fuel as [|fuel IH]; intros s Hp Hr Hm; [pose proof (measure_nonneg s); lia|].
  cbn [loop_fuel]. pose proof (drain_step_ok half now s0 s Hp Hr) as Hs.
  destruct (drain_step _ _ _ s) as [s'|[s' r| |]]; [|by exists s', r|done|done].
  destruct Hs as (? & ? & ?). apply IH; [done|done|lia].
Qed.

Lemma drain_ok half now s : wf (write_buf (fst (fst s))) ->
  exists s' r, drain encode_pong half now s = Done s' r /\ drained now s s' r.
Proof.
  intros Hw. apply drain_loop_ok; [by apply progress_refl|done|]. unfold measure, drain_fuel.
  rewrite pending_bytes_contents by done. pose proof (len_nonneg (contents (write_buf (fst (fst s))))).
  destruct (pending_pong _) as [p|]; [pose proof (len_nonneg (encode_pong p []))|]; lia.
Qed.

(** Registration and settling touch the wakers only. *)
Definition same_output (o o' : t) : Prop :=
  write_buf o' = write_buf o /\ pending_pong o' = pending_pong o /\
  ping_flush_pending o' = ping_flush_pending o /\ ready_flush_pending o' = ready_flush_pending o.

Lemma register_output half task o : same_output o (register half task o).
Proof. unfold register, register_slow. destruct (negb _), (_ && _); done. Qed.

Lemma settle_output {A} half (r : poll A) o : same_output o (settle half r o).
Proof. by destruct half, r. Qed.

Lemma drained_same now o1 o o2 o2' inner inner' hb hb' r : same_output o1 o -> same_output o2 o2' ->
  drained now (o, inner, hb) (o2, inner', hb') r -> drained now (o1, inner, hb) (o2', inner', hb') r.
Proof.
  intros (E1 & E2 & E3 & E4) (F1 & F2 & F3 & F4) [[Hw Hs Hh] Hr]. cbn in *.
  rewrite E1, E2 in Hs. rewrite E1, E3 in Hh. rewrite E4 in Hr.
  split; [split; cbn; rewrite ?F1, ?F2, ?F3; done|]. cbn. by rewrite F1, F2, F3, F4.
Qed.

Lemma poll_drain_ok half task now o inner hb : wf (write_buf o) ->
  exists s' r, poll_drain encode_pong half task now (o, inner, hb) = Done s' r /\ drained now (o, inner, hb) s' r.
Proof.
  intros Hw. unfold poll_drain. pose proof (register_output half task o) as Hro.
  destruct (drain_ok half now (register half task o, inner, hb)) as ([[o' inner'] hb'] & r & -> & Hd).
  { cbn. by destruct Hro as [-> _]. }
  destruct r as [r|e]; eexists _, _; (split; [done|]); (eapply drained_same; [done|apply settle_output|done]).
Qed.

(** *** Any use of the output *)

Inductive op :=
  | OpSend (data : bytes)            (** [write_bytes] *)
  | OpSegment (data : bytes)         (** [push_segment] *)
  | OpEncode (data : bytes)          (** a frame encoded through [buffer_mut] *)
  | OpPong (payload : bytes)         (** a Ping was received *)
  | OpDrain (half : Half) (task : Task) (now : Z).

(** The state after an operation, and what it added to the output. *)
Definition step (s : t * T * Heartbeat.t) (x : op) : option (t * T * Heartbeat.t * bytes) :=
  let '(o, inner, hb) := s in
  match x with
  | OpSend d => Some (set_write_buf (write_bytes (write_buf o) d) o, inner, hb, d)
  | OpSegment d => Some (set_write_buf (push_segment (write_buf o) d) o, inner, hb, d)
  | OpEncode d => Some (set_write_buf (set_buffer (buffer (write_buf o) ++ d) (write_buf o)) o, inner, hb, d)
  | OpPong p => Some (set_pending_pong (Some p) o, inner, hb, [])
  | OpDrain half task now =>
      match poll_drain encode_pong half task now s with
      | Done s' _ => Some (s', if bool_decide (pending_pong (fst (fst s')) = pending_pong o) then []
                               else pong_frame (pending_pong o))
      | _ => None
      end
  end.

Fixpoint steps (s : t * T * Heartbeat.t) (ops : list op) : option (t * T * Heartbeat.t * bytes) :=
  match ops with
  | [] => Some (s, [])
  | x :: ops => '(s1, d) ← step s x; '(s2, ds) ← steps s1 ops; Some (s2, d ++ ds)
  end.

Lemma output_step_ok s x : wf (write_buf (fst (fst s))) ->
  exists s' d, step s x = Some (s', d) /\ wf (write_buf (fst (fst s'))) /\ stream_of s' = stream_of s ++ d.
Proof.
  destruct s as [[o inner] hb]. cbn [fst snd]. intros Hw. destruct x as [d|d|d|p|half task now].
  - destruct (write_bytes_ok (write_buf o) d Hw) as [? E]. eexists _, _. split; [done|]. cbn. by rewrite E, app_assoc.
  - destruct (push_segment_ok (write_buf o) d Hw) as [? E]. eexists _, _. split; [done|]. cbn. by rewrite E, app_assoc.
  - eexists _, _. split; [done|]. cbn. split; [by destruct Hw|]. unfold contents. cbn. by rewrite !app_assoc.
  - eexists _, _. split; [done|]. cbn. by rewrite app_nil_r.
  - cbn [step]. destruct (poll_drain_ok half task now o inner hb Hw) as (s' & r & -> & [[Hw' Hs _] _]).
    eexists _, _. split; [done|]. split; [done|]. cbn in Hs.
    destruct Hs as [[-> ->]|([p Hp] & Hn & ->)]; [by rewrite bool_decide_eq_true_2, app_nil_r|].
    rewrite bool_decide_eq_false_2; [done|]. by rewrite Hn, Hp.
Qed.

Lemma steps_ok s ops : wf (write_buf (fst (fst s))) ->
  exists s' ds, steps s ops = Some (s', ds) /\ wf (write_buf (fst (fst s'))) /\ stream_of s' = stream_of s ++ ds.
Proof.
  revert s. induction ops as [|x ops IH]; intros s Hw; cbn [steps].
  - exists s, []. by rewrite app_nil_r.
  - destruct (output_step_ok s x Hw) as (s1 & d & -> & Hw1 & E1). cbn.
    destruct (IH s1 Hw1) as (s2 & ds & -> & Hw2 & E2). cbn. eexists _, _. split; [done|].
    split; [done|]. by rewrite E2, E1, app_assoc.
Qed.
End Wire.

(** [C34] For every sequence of sends (copied or queued by reference), encoded frames, received Pings
    and polls of either half, over a transport that accepts any part of what it is offered, is not ready or
    fails, no step panics or loops, and the bytes on the wire followed by those still queued are exactly the
    bytes queued so far in order, each Pong frame whole and behind everything queued before it.  A poll that
    completes leaves nothing queued; only then, or before encoding a Pong, is the heartbeat told that
    its Ping was flushed, and then all that was queued before the poll is on the wire. *)
Theorem output_in_order {T : Type} `{TransportSpec T} (encode_pong : bytes -> bytes -> bytes) size inner hb ops :
  exists o' inner' hb' queued,
    steps encode_pong (new size, inner, hb) ops = Some (o', inner', hb', queued) /\
    accepted inner' ++ contents (write_buf o') = accepted inner ++ queued /\
    pending_bytes (write_buf o') = len (contents (write_buf o')) /\
    forall half task now, exists o2 inner2 hb2 r,
      poll_drain encode_pong half task now (o', inner', hb') = Done (o2, inner2, hb2) r /\
      (r = Ok (Ready tt) ->
         accepted inner2 = accepted inner ++ queued ++ pong_frame encode_pong (pending_pong o') /\
         has_data (write_buf o2) = false /\ pending_pong o2 = None /\
         (forall threshold, 0 < threshold -> needs_drain_before_send threshold o2 = false)) /\
      (hb2 <> hb' -> hb2 = Heartbeat.ping_flushed hb' now /\ ping_flush_pending o2 = false /\
         exists k, accepted inner2 = accepted inner ++ queued ++ k).
Proof.
  assert (Hnew : wf (write_buf (new size))) by (split; [done|constructor]).
  destruct (steps_ok encode_pong (new size, inner, hb) ops Hnew) as ([[o' inner'] hb'] & ds & E & Hw & Hs).
  cbn in Hw, Hs. rewrite app_nil_r in Hs.
  exists o', inner', hb', ds. split; [done|]. split; [done|]. split; [by apply pending_bytes_contents|].
  intros half task now.
  destruct (poll_drain_ok encode_pong half task now o' inner' hb' Hw) as ([[o2 inner2] hb2] & r & Ed & [[Hw2 Hs2 Hh2] Hr]).
  cbn in Hw2, Hs2, Hh2, Hr. exists o2, inner2, hb2, r. split; [done|]. rewrite Hs in Hs2, Hh2. split.
  - intros ->. destruct Hr as (He & Hp & Hf & Hrd). rewrite He, app_nil_r in Hs2. split_and!.
    + rewrite Hp in Hs2. destruct Hs2 as [[<- ->]|(_ & _ & ->)]; cbn; by rewrite ?app_nil_r, <- ?app_assoc.
    + rewrite has_data_contents, He by done. done.
    + done.
    + intros th Hth. unfold needs_drain_before_send. rewrite Hrd, Hp, pending_bytes_contents, He by done. cbn.
      apply Z.leb_gt. done.
  - intros Hne. destruct Hh2 as [[_ ?]|(_ & Hf & -> & k & Hk)]; [done|]. split; [done|]. split; [done|].
    exists k. by rewrite Hk, <- app_assoc.
Qed.

(** ** No task is forgotten *)

Import HalfWakers.

(** A slot mirrors its waker, which is the one last registered. *)
Definition slots_ok (o : UnifiedOutput.t) : Prop := forall half,
  armed (slot half (wakers o)) = bool_decide (is_Some (waker (slot half (wakers o)))) /\
  (forall a, waker (slot half (wakers o)) = Some a -> registered o half = Some a).

Lemma slot_set half half' s w : slot half' (set_slot half s w) = if decide (half' = half) then s else slot half' w.
Proof. by destruct half, half'. Qed.

Lemma woken_set half s w : woken (set_slot half s w) = woken w.
Proof. by destruct half. Qed.

Lemma set_slot_self half w : set_slot half (slot half w) w = w.
Proof. by destruct w, half. Qed.

Lemma register_slow_wakers half task o : slots_ok o -> waiting (slot half (wakers o)) = true ->
  slots_ok (register_slow half task o) /\
  wakers (register_slow half task o) = set_slot half (MkSlot (Some task) true true) (wakers o).
Proof.
  intros Ho Hw. unfold register_slow. cbn. rewrite Hw. split; [|done].
  intros h. cbn. rewrite slot_set. case_decide; [|apply Ho]. cbn. split; [done|]. by intros a [= <-].
Qed.

Lemma set_waiting_ok half b o : slots_ok o ->
  slots_ok (set_wakers (set_slot half (MkSlot (waker (slot half (wakers o))) (armed (slot half (wakers o))) b) (wakers o)) o).
Proof. intros Ho h. cbn. rewrite slot_set. case_decide; [subst|]; apply Ho. Qed.

Lemma set_slot_twice half s s' w : set_slot half s (set_slot half s' w) = set_slot half s w.
Proof. by destruct half. Qed.

Lemma register_wakers half task o : slots_ok o ->
  slots_ok (register half task o) /\
  wakers (register half task o) = set_slot half (MkSlot (Some task) true true) (wakers o).
Proof.
  intros Ho. unfold register.
  set (o1 := if negb (waiting (slot half (wakers o))) then _ else o).
  assert (H1 : slots_ok o1 /\ waiting (slot half (wakers o1)) = true /\
    forall s, set_slot half s (wakers o1) = set_slot half s (wakers o)).
  { unfold o1. destruct (waiting (slot half (wakers o))) eqn:Ew; [done|]. cbn [negb].
    split; [by apply set_waiting_ok|]. cbn. rewrite slot_set, decide_True by done. split; [done|].
    intros s. apply set_slot_twice. }
  clearbody o1. destruct H1 as (Hok & Hw & Hset). destruct (_ && _) eqn:E.
  - apply andb_prop in E as [Ha Hr%bool_decide_eq_true]. split; [done|]. rewrite <- Hset.
    destruct (Hok half) as [Harm Hreg]. rewrite Ha in Harm. symmetry in Harm.
    apply bool_decide_eq_true in Harm as [a Hwk]. pose proof (Hreg a Hwk) as Hr'. rewrite Hr in Hr'. injection Hr' as <-.
    rewrite <- (set_slot_self half (wakers o1)) at 1. f_equal. destruct (slot half (wakers o1)); cbn in *. by subst.
  - destruct (register_slow_wakers half task o1 Hok Hw) as [? ->]. split; [done|]. apply Hset.
Qed.

Lemma settle_wakers {A} half (r : poll A) o : slots_ok o -> slots_ok (settle half r o).
Proof. intros Ho. unfold settle. destruct half, r; try done. by apply (set_waiting_ok Sink). Qed.

Lemma take_waker_ok half o : slots_ok o -> slots_ok (set_wakers (fst (take_waker half (wakers o))) o).
Proof.
  intros Ho. unfold take_waker. destruct (negb _); cbn [fst]; [by destruct o|].
  intros h. cbn. rewrite slot_set. case_decide; [done|apply Ho].
Qed.

(** The task would be woken through its half. *)
Definition holds (half : Half) (task : Task) (w : HalfWakers.t) : Prop :=
  waker (slot half w) = Some task /\ waiting (slot half w) = true.

Lemma wake_effect half w : exists l, woken (wake half w) = woken w ++ l /\
  (forall h, h <> half -> slot h (wake half w) = slot h w) /\ (forall a, holds half a w -> a ∈ l).
Proof.
  unfold wake, take_waker. destruct (waiting (slot half w)) eqn:Ew; cbn.
  - destruct (waker (slot half w)) as [b|] eqn:Eb.
    + exists [b]. cbn. rewrite woken_set. split; [done|]. split; [by destruct half; intros [] ?|].
      intros a [Ha _]. rewrite Eb in Ha. injection Ha as <-. set_solver.
    + exists []. rewrite woken_set, app_nil_r. split; [done|]. split; [by destruct half; intros [] ?|].
      by intros a [Ha _]; rewrite Eb in Ha.
  - exists []. rewrite app_nil_r. split; [done|]. split; [done|]. intros a [_ Ha]. congruence.
Qed.

Lemma wake_both_effect w : exists l, woken (wake_both w) = woken w ++ l /\ (forall half a, holds half a w -> a ∈ l).
Proof.
  destruct w as [[w1 a1 t1] [w2 a2 t2] wk]. unfold wake_both, take_waker, holds. cbn.
  destruct t1, t2, w1 as [a|], w2 as [b|]; cbn; try case_decide; subst; cbn;
    first [by eexists; split; [done|]; intros [] c [[= <-] ?]; set_solver
          | exists []; rewrite app_nil_r; split; [done|]; intros [] c [? ?]; done].
Qed.

Lemma wake_slots_ok half o : slots_ok o -> slots_ok (set_wakers (wake half (wakers o)) o).
Proof.
  intros Ho. pose proof (take_waker_ok half o Ho) as Ht. unfold wake.
  destruct (take_waker half (wakers o)) as [w [a|]]; [|done]. exact Ht.
Qed.

Lemma wake_both_slots_ok o : slots_ok o -> slots_ok (set_wakers (wake_both (wakers o)) o).
Proof.
  intros Ho. pose proof (take_waker_ok Stream o Ho) as Ht. unfold wake_both.
  destruct (take_waker Stream (wakers o)) as [w r]. cbn [fst] in Ht.
  pose proof (take_waker_ok Sink _ Ht) as Ht2. cbn in Ht2.
  destruct (take_waker Sink w) as [w2 k]. cbn [fst] in Ht2.
  destruct r, k; try case_decide; exact Ht2.
Qed.

(** A drain of one half disturbs no waker, except that the Sink may wake the Stream. *)
Definition disturbed (half : Half) (w w' : HalfWakers.t) : Prop := exists l, woken w' = woken w ++ l /\
  (forall h a, holds h a w -> holds h a w' \/ (h <> half /\ a ∈ l)).

Lemma disturbed_refl half w : disturbed half w w.
Proof. exists []. rewrite app_nil_r. split; [done|by left]. Qed.

Lemma disturbed_trans half w1 w2 w3 : disturbed half w1 w2 -> disturbed half w2 w3 -> disturbed half w1 w3.
Proof.
  intros (l1 & E1 & H1) (l2 & E2 & H2). exists (l1 ++ l2). rewrite E2, E1, app_assoc. split; [done|].
  intros h a Ha. rewrite elem_of_app. destruct (H1 h a Ha) as [Ha'|[? ?]]; [|by right; auto].
  destruct (H2 h a Ha') as [|[? ?]]; [by left|by right; auto].
Qed.

Definition quiet (half : Half) (o o' : UnifiedOutput.t) : Prop := (slots_ok o -> slots_ok o') /\ disturbed half (wakers o) (wakers o').

Lemma quiet_refl half o : quiet half o o.
Proof. split; [done|apply disturbed_refl]. Qed.

Lemma quiet_trans half o1 o2 o3 : quiet half o1 o2 -> quiet half o2 o3 -> quiet half o1 o3.
Proof. intros [A1 B1] [A2 B2]. split; [auto|by eapply disturbed_trans]. Qed.

Lemma record_ping_flush_quiet half now o hb : quiet half o (fst (record_ping_flush half now o hb)).
Proof.
  unfold record_ping_flush. destruct (ping_flush_pending o); [|apply quiet_refl]. case_decide as Hh; [|split; [done|apply disturbed_refl]].
  split; cbn; [intros Ho; by apply (wake_slots_ok Stream (set_ping_flush_pending false o))|].
  destruct (wake_effect Stream (wakers o)) as (l & El & Hother & Hl). exists l. split; [done|].
  intros [] a Ha; [right; split; [by subst|by apply Hl]|left]. unfold holds. rewrite Hother by done. exact Ha.
Qed.

Section Wakeups.
Context {T : Type} `{Transport T}.
Variable encode_pong : bytes -> bytes -> bytes.
Abbreviation state := (UnifiedOutput.t * T * Heartbeat.t)%type.

Definition step_quiet (half : Half) (o : UnifiedOutput.t) (r : state + run Error state (poll unit)) : Prop :=
  match r with
  | inl s => quiet half o (fst (fst s))
  | inr (Done s _) => quiet half o (fst (fst s))
  | inr _ => True
  end.

Lemma drain_write_quiet half s o : quiet half o (fst (fst s)) -> step_quiet half o (drain_write s).
Proof.
  destruct s as [[o' inner] hb]. cbn. intros Hq. unfold drain_write.
  destruct (poll_write_pending _ _) as [inner' [|[n|e]]]; cbn; [done| |done].
  destruct (n =? 0); [done|]. by destruct (consume _ _).
Qed.

Lemma drain_step_quiet half now s o : quiet half o (fst (fst s)) -> step_quiet half o (drain_step encode_pong half now s).
Proof.
  destruct s as [[o' inner] hb]. cbn [fst]. intros Hq. unfold drain_step, drain_end.
  destruct (has_data (write_buf o') || _); [destruct (negb _); [|by apply drain_write_quiet]|];
    destruct (poll_flush inner) as [inner' [|[[]|e]]]; try done;
    pose proof (record_ping_flush_quiet half now o' hb) as Hr; destruct (record_ping_flush half now o' hb) as [o2 hb2];
    pose proof (quiet_trans _ _ _ _ Hq Hr) as Hq2; [|done].
  destruct (pending_pong o2); [|done]. apply drain_write_quiet. done.
Qed.

Lemma drain_quiet half now s s' r : drain encode_pong half now s = Done s' r -> quiet half (fst (fst s)) (fst (fst s')).
Proof.
  unfold drain. generalize (drain_fuel encode_pong (fst (fst s))) as fuel.
  intros fuel. assert (Hq : quiet half (fst (fst s)) (fst (fst s))) by apply quiet_refl. revert Hq.
  generalize (fst (fst s)) at 1 3 as o. intros o. revert s. induction fuel as [|fuel IH]; intros s Hq; [done|]. cbn [loop_fuel].
  pose proof (drain_step_quiet half now s o Hq) as Hs.
  destruct (drain_step encode_pong half now s) as [s1|[s1 r1| |]]; try done; [by apply IH|]. by intros [= <- <-].
Qed.

(** *** Polls and readiness, in any order *)

Inductive event :=
  | EvDrain (half : Half) (task : Task) (now : Z)
  | EvShutdown (half : Half) (task : Task) (r : poll (res IoError unit))   (** the transport answered [r] *)
  | EvRead (task : Task) (r : poll (res IoError unit))
  | EvWake.                                                          (** the proxy waker is invoked *)

(** The half and task of a poll, its new state, and whether it has to be woken. *)
Definition polled (s : state) (e : event) : option (state * option (Half * Task * bool)) :=
  let '(o, inner, hb) := s in
  match e with
  | EvDrain half task now =>
      match poll_drain encode_pong half task now s with
      | Done s r => Some (s, Some (half, task, match r with Ok Pending => true | _ => false end))
      | _ => None
      end
  | EvShutdown half task r =>
      Some (poll_shutdown half task r o, inner, hb,
            Some (half, task, match r with Pending => true | _ => false end))
  | EvRead task r =>
      Some (poll_read task o, inner, hb, Some (Stream, task, match r with Pending => true | _ => false end))
  | EvWake => Some (set_wakers (wake_both (wakers o)) o, inner, hb, None)
  end.

(** The task each half still has to be woken for: that of its last poll, if it
    returned [Pending] and the task was not woken since. *)
Definition owed_after (before after : list Task) (owed : Half -> option Task) (p : option (Half * Task * bool)) (h : Half) :
    option Task :=
  let still := match owed h with
               | Some a => if decide (a ∈ drop (length before) after) then None else Some a
               | None => None
               end in
  match p with
  | Some (half, task, pending) => if decide (h = half) then (if pending : bool then Some task else None) else still
  | None => still
  end.

Fixpoint events (s : state) (owed : Half -> option Task) (es : list event) : option (state * (Half -> option Task)) :=
  match es with
  | [] => Some (s, owed)
  | e :: es => '(s', p) ← polled s e;
      events s' (owed_after (woken (wakers (fst (fst s)))) (woken (wakers (fst (fst s')))) owed p) es
  end.

Definition remembered (o : UnifiedOutput.t) (owed : Half -> option Task) : Prop :=
  slots_ok o /\ forall h a, owed h = Some a -> holds h a (wakers o).

Lemma still_holds (before l : list Task) (owed : Half -> option Task) h a :
  (match owed h with
   | Some a => if decide (a ∈ drop (length before) (before ++ l)) then None else Some a
   | None => None
   end) = Some a -> owed h = Some a /\ ~ a ∈ l.
Proof. rewrite drop_app_length. destruct (owed h) as [b|]; [|done]. case_decide; [done|]. by intros [= <-]. Qed.

Lemma settle_slots {A} half (r : poll A) o : woken (wakers (settle half r o)) = woken (wakers o) /\
  (forall h a, holds h a (wakers o) -> h <> half \/ r = Pending -> holds h a (wakers (settle half r o))).
Proof.
  destruct half, r as [|x]; cbn; (split; [done|]); intros h a Ha Hr; try done.
  destruct Hr as [Hr|]; [|done]. by destruct h.
Qed.

Lemma poll_remembered {A} half task o o2 owed (r : poll A) (pending : bool) : remembered o owed ->
  quiet half (register half task o) o2 -> (pending = true -> r = Pending) ->
  remembered (settle half r o2)
    (owed_after (woken (wakers o)) (woken (wakers (settle half r o2))) owed (Some (half, task, pending))).
Proof.
  intros [Hok Howed] [Hq (l & El & Hd)] Hr. destruct (register_wakers half task o Hok) as [Hok1 Ew1].
  split; [by apply settle_wakers, Hq|]. rewrite Ew1 in Hd, El. rewrite woken_set in El.
  destruct (settle_slots half r o2) as [-> Hs]. rewrite El. intros h a. unfold owed_after. case_decide as Hh.
  - subst h. destruct pending; [|done]. intros [= <-]. apply Hs; [|right; auto].
    destruct (Hd half task) as [|[? _]]; [|done|done]. unfold holds. by rewrite slot_set, decide_True.
  - intros [Ha Hnl]%still_holds. apply Hs; [|by left].
    destruct (Hd h a) as [|[_ ?]]; [|done|done]. unfold holds. rewrite slot_set, decide_False by done. by apply Howed.
Qed.

Lemma wake_remembered o owed : remembered o owed ->
  remembered (set_wakers (wake_both (wakers o)) o) (owed_after (woken (wakers o)) (woken (wake_both (wakers o))) owed None).
Proof.
  intros [Hok Howed]. split; [by apply wake_both_slots_ok|]. destruct (wake_both_effect (wakers o)) as (l & -> & Hl).
  intros h a [Ha Hn]%still_holds. exfalso. by apply Hn, (Hl h), Howed.
Qed.
End Wakeups.

Lemma polled_ok {T : Type} `{TransportSpec T} encode_pong (s : UnifiedOutput.t * T * Heartbeat.t) owed e :
  wf (write_buf (fst (fst s))) -> remembered (fst (fst s)) owed ->
  exists s' p, polled encode_pong s e = Some (s', p) /\ wf (write_buf (fst (fst s'))) /\
    remembered (fst (fst s')) (owed_after (woken (wakers (fst (fst s)))) (woken (wakers (fst (fst s')))) owed p).
Proof.
  destruct s as [[o inner] hb]. cbn [fst snd]. intros Hw Hrem. destruct e as [half task now|half task r|task r|].
  - destruct (poll_drain_ok encode_pong half task now o inner hb Hw) as (s' & r & Ed & [[Hw' _ _] _]).
    unfold polled. rewrite Ed. eexists _, _. split; [done|]. split; [done|]. unfold poll_drain in Ed.
    destruct (drain _ _ _ _) as [[[o2 inner2] hb2] r2| |] eqn:E2; try done.
    pose proof (drain_quiet _ _ _ _ _ _ E2) as Hq. cbn [fst] in Hq.
    destruct r2 as [r2|e]; injection Ed as <- <-; apply poll_remembered; try done. by destruct r2 as [|[]].
  - eexists _, _. split; [done|]. split; [|apply poll_remembered; [done|apply quiet_refl|by destruct r]]. cbn. unfold poll_shutdown.
    destruct (settle_output half r (register half task o)) as [-> _]. by destruct (register_output half task o) as [-> _].
  - eexists _, _. split; [done|]. split; [cbn; unfold poll_read; by destruct (register_output Stream task o) as [-> _]|].
    apply (poll_remembered Stream task o (register Stream task o) owed r); [done|apply quiet_refl|by destruct r].
  - eexists _, _. split; [done|]. split; [done|]. by apply wake_remembered.
Qed.

(** *** A transport that follows a script

    Each write accepts at most the scripted number of bytes, or is not ready; after the script it accepts all. *)

Record Script := MkScript { script : list (option Z); wire : bytes }.

Definition script_write (t : Script) (offered : bytes) : Script * poll (res IoError Z) :=
  match script t with
  | [] => (MkScript [] (wire t ++ offered), Ready (Ok (len offered)))
  | None :: s => (MkScript s (wire t), Pending)
  | Some n :: s =>
      let n := Z.min (Z.max 0 n) (len offered) in (MkScript s (wire t ++ upto n offered), Ready (Ok n))
  end.

#[export] Instance script_transport : Transport Script := {
  is_write_vectored _ := true;
  poll_write := script_write;
  poll_write_vectored t bs := script_write t (concat bs);
  poll_flush t := (t, Ready (Ok tt))
}.

Lemma script_write_accepts t b : accepts wire t b (script_write t b).
Proof.
  unfold accepts, script_write. pose proof (len_nonneg b). destruct (script t) as [|[n|] s]; cbn; [|split; [lia|done]|done].
  split; [lia|]. by rewrite upto_ge by lia.
Qed.

#[export] Instance script_transport_spec : TransportSpec Script := {
  accepted := wire;
  poll_write_accepts t b := script_write_accepts t b;
  poll_write_vectored_accepts t bs := script_write_accepts t (concat bs);
  poll_flush_accepts t := eq_refl
}.

(** Two bytes are taken, then the transport is not ready; the Pong follows once the queue is empty. *)
Lemma output_in_order_witness :
  exists o' inner' hb' queued,
    steps (fun p buf => buf ++ 138 :: p) (new 4, MkScript [Some 2; None; Some 1] [], Heartbeat.new true 1 0 1 0)
      [OpEncode [1; 2]; OpSegment [3; 4; 5]; OpPong [9]; OpDrain Sink 7 0] = Some (o', inner', hb', queued) /\
    wire inner' ++ contents (write_buf o') = [1; 2; 3; 4; 5] /\ wire inner' = [1; 2].
Proof.
  destruct (output_in_order (T := Script) (fun p buf => buf ++ 138 :: p) 4 (MkScript [Some 2; None; Some 1] [])
    (Heartbeat.new true 1 0 1 0) [OpEncode [1; 2]; OpSegment [3; 4; 5]; OpPong [9]; OpDrain Sink 7 0])
    as (o' & inner' & hb' & queued & E & Hs & _).
  exists o', inner', hb', queued. split; [exact E|]. cbn in Hs. rewrite Hs.
  vm_compute in E. injection E as <- <- <- <-. done.
Defined.

(** However the two halves of a stream are polled, by whatever tasks, and whenever the transport or
    the timer invokes the proxy waker: a half whose last poll returned [Pending] keeps the waker of the task
    that polled it until that task is woken, and the next invocation of the proxy wakes the task. *)
Theorem no_lost_wakeup {T : Type} `{TransportSpec T} encode_pong size (inner : T) hb es :
  exists o inner' hb' owed,
    events encode_pong (new size, inner, hb) (fun _ => None) es = Some (o, inner', hb', owed) /\
    forall half task, owed half = Some task ->
      exists l, woken (wake_both (wakers o)) = woken (wakers o) ++ l /\ task ∈ l.
Proof.
  assert (H' : forall s owed, wf (write_buf (fst (fst s))) -> remembered (fst (fst s)) owed ->
    exists s' owed', events encode_pong s owed es = Some (s', owed') /\ remembered (fst (fst s')) owed').
  { induction es as [|e es IH]; intros s owed Hw Hr; cbn [events]; [by eexists _, _|].
    destruct (polled_ok encode_pong s owed e Hw Hr) as (s1 & p & -> & Hw1 & Hr1). cbn. by apply IH. }
  destruct (H' (new size, inner, hb) (fun _ => None)) as ([[o inner'] hb'] & owed & E & Hok & Howed).
  - split; [done|constructor].
  - split; [|done]. by intros [].
  - exists o, inner', hb', owed. split; [done|]. intros half task Ho.
    destruct (wake_both_effect (wakers o)) as (l & El & Hl). exists l. split; [done|]. by apply (Hl half), Howed.
Qed.

(** The Stream waits as task 1, the Sink as task 2 on a transport that is not ready; both are woken. *)
Lemma no_lost_wakeup_witness :
  exists o inner' hb' owed,
    events (fun p buf => buf ++ p) (new 4, MkScript [None] [], Heartbeat.new true 1 0 1 0) (fun _ => None)
      [EvRead 1 Pending; EvShutdown Sink 2 Pending; EvDrain Stream 3 0] = Some (o, inner', hb', owed) /\
    owed Sink = Some 2 /\ exists l, woken (wake_both (wakers o)) = woken (wakers o) ++ l /\ 2 ∈ l.
Proof.
  destruct (no_lost_wakeup (T := Script) (fun p buf => buf ++ p) 4 (MkScript [None] []) (Heartbeat.new true 1 0 1 0)
    [EvRead 1 Pending; EvShutdown Sink 2 Pending; EvDrain Stream 3 0]) as (o & inner' & hb' & owed & E & Hw).
  exists o, inner', hb', owed. split; [exact E|].
  assert (Ho : owed Sink = Some 2) by (vm_compute in E; injection E as _ _ _ <-; by vm_compute).
  split; [exact Ho|]. apply (Hw Sink 2 Ho).
Defined.
End OutputSpec.
