(* ===== verification/Stream.v ===== *)
(** * Sending through a stream (src/src/stream/websocket.rs)

    [WebSocketStream::start_send] encodes a message into the output; large
    unmasked payloads are queued by reference behind their header.  Together with
    the drain, the wire and the receiver this gives the end-to-end theorem:
    messages sent on one side are the messages delivered on the other. *)

From stdpp Require Import base list option.
From S2P Require Import Prelude Error Mask Utf8 Frame FrameSpec Protocol ReceiveSpec ProtocolSpec ProtocolProps.
From S2P Require Import Heartbeat Cork Output.
Import CorkBuffer CorkSpec UnifiedOutput OutputSpec.

(** The header written in place and the payload queued as a segment. *)
Definition queue_by_reference (opcode : OpCode) (payload : bytes) (c : CorkBuffer.t) : CorkBuffer.t :=
  push_segment (set_buffer (encode_frame_header (buffer c) opcode (len payload) true None) c) payload.

(** The encoding part of [start_send]. *)
Definition start_send_frame (key : bytes) (p : Protocol.t) (item : Message.t) (c : CorkBuffer.t) :
    Protocol.t * CorkBuffer.t :=
  let copied := let '(p, b) := Protocol.encode_message_into key p item (buffer c) in (p, set_buffer b c) in
  if bool_decide (Protocol.role p = Server) then
    match item with
    | Message.Text payload =>
        if ZERO_COPY_MIN <=? len payload then (p, queue_by_reference Text payload c) else copied
    | Message.Binary payload =>
        if ZERO_COPY_MIN <=? len payload then (p, queue_by_reference Binary payload c) else copied
    | _ => copied
    end
  else copied.

(** Payloads whose bytes are bytes. *)
Definition msg_bytes_ok (m : Message.t) : Prop :=
  match m with Message.Text b | Message.Binary b => bytes_ok b | _ => True end.

Lemma queue_by_reference_ok o payload c : wf c -> bytes_ok payload ->
  wf (queue_by_reference o payload c) /\
  contents (queue_by_reference o payload c) = contents c ++ encode_frame [] o payload true None.
Proof.
  intros Hc Hok. unfold queue_by_reference, encode_frame, encode_frame_header.
  destruct (push_segment_ok (set_buffer (encode_frame_header (buffer c) o (len payload) true None) c) payload) as [Hw E];
    [by destruct Hc|].
  split; [done|]. unfold encode_frame_header in E. rewrite E. unfold contents. cbn [segments buffer set_buffer].
  rewrite <- !app_assoc. f_equal. rewrite <- (header_payload_bytes [] o payload true None false) by done.
  unfold encode_frame_header_with_rsv. by rewrite <- !app_assoc.
Qed.

(** Sending queues the bytes of the encoder, whichever path is taken. *)
Lemma start_send_frame_ok key p m c : wf c -> msg_bytes_ok m ->
  let '(p', c') := start_send_frame key p m c in
  wf c' /\ contents c' = contents c ++ snd (Protocol.encode_message_into key p m []) /\
  p' = fst (Protocol.encode_message_into key p m []).
Proof.
  intros Hc Hm.
  assert (Hcopy : let '(p', b) := Protocol.encode_message_into key p m (buffer c) in
    wf (set_buffer b c) /\ contents (set_buffer b c) = contents c ++ snd (Protocol.encode_message_into key p m []) /\
    p' = fst (Protocol.encode_message_into key p m [])).
  { destruct (encode_message_frame key p m (buffer c)) as [E _]. destruct (encode_message_frame key p m []) as [E0 _].
    assert (Ep : fst (Protocol.encode_message_into key p m (buffer c)) = fst (Protocol.encode_message_into key p m []))
      by by destruct m.
    destruct (Protocol.encode_message_into key p m (buffer c)) as [p' b]. cbn [fst snd] in E, Ep. subst.
    split; [by destruct Hc|]. split; [|done]. rewrite E0. unfold contents. cbn [segments buffer set_buffer].
    by rewrite app_assoc. }
  unfold start_send_frame. destruct (Protocol.encode_message_into key p m (buffer c)) as [p' b].
  case_bool_decide as Hr; [|done].
  destruct m as [pl|pl|pl|pl|r]; try done; (destruct (_ <=? _); [|done]);
    unfold Protocol.encode_message_into, Protocol.choose_mask; rewrite Hr; cbn [fst snd];
    [by destruct (queue_by_reference_ok Text pl c Hc Hm)|by destruct (queue_by_reference_ok Binary pl c Hc Hm)].
Qed.

(** ** End to end *)

Section EndToEnd.
Context {T : Type} `{TransportSpec T}.

Inductive action :=
  | Send (key : bytes) (m : Message.t)
  | GotPing (payload : bytes)
  | Poll (half : Half) (task : Task) (now : Z).

Definition sent_by (l : list action) : list (bytes * Message.t) :=
  omap (fun a => match a with Send key m => Some (key, m) | _ => None end) l.

Abbreviation state := (Protocol.t * (UnifiedOutput.t * T * Heartbeat.t))%type.

(** A message put on the stream: sent by the user, or the answer to a Ping. *)
Inductive origin := ByUser (key : bytes) (m : Message.t) | Answer (key payload : bytes).

Definition message_of (x : origin) : bytes * Message.t :=
  match x with ByUser key m => (key, m) | Answer key payload => (key, Message.Pong payload) end.
Definition users (l : list origin) : list (bytes * Message.t) :=
  omap (fun x => match x with ByUser key m => Some (key, m) | _ => None end) l.
Definition answers (l : list origin) : list bytes :=
  omap (fun x => match x with Answer _ p => Some p | _ => None end) l.
Definition pings (l : list action) : list bytes :=
  omap (fun a => match a with GotPing p => Some p | _ => None end) l.

(** [pong_key]: the key drawn for the Pongs. *)
Variable pong_key : bytes.

(** One action: the new state and what it put on the stream. *)
Definition act (s : state) (a : action) : option (state * list origin) :=
  let '(p, (o, inner, hb)) := s in
  match a with
  | Send key m =>
      let '(p', c) := start_send_frame key p m (write_buf o) in Some ((p', (set_write_buf c o, inner, hb)), [ByUser key m])
  | GotPing payload => Some ((p, (set_pending_pong (Some payload) o, inner, hb)), [])
  | Poll half task now =>
      match poll_drain (Protocol.encode_pong pong_key p) half task now (o, inner, hb) with
      | Done (o', inner', hb') _ =>
          Some ((p, (o', inner', hb')), match pending_pong o, pending_pong o' with
                                        | Some payload, None => [Answer pong_key payload]
                                        | _, _ => []
                                        end)
      | _ => None
      end
  end.

Fixpoint acts (s : state) (l : list action) : option (state * list origin) :=
  match l with
  | [] => Some (s, [])
  | a :: l => '(s1, x) ← act s a; '(s2, xs) ← acts s1 l; Some (s2, x ++ xs)
  end.

Definition frames_of (r : Role) (l : list origin) : bytes := encode_all (map (msg_frame r) (map message_of l)).

Lemma frames_of_app r l k : frames_of r (l ++ k) = frames_of r l ++ frames_of r k.
Proof.
  unfold frames_of. rewrite !map_app. generalize (map (msg_frame r) (map message_of l)) as x. intros x.
  induction x as [|y x IH]; [done|]. cbn [app]. by rewrite encode_all_cons, IH, (encode_all_cons y x), <- app_assoc.
Qed.

(** What the sender keeps: everything put on the stream so far is on the wire or queued. *)
Record sending (s : state) (base : bytes) (r : Role) : Prop := {
  sn_wf : wf (write_buf (fst (fst (snd s))));
  sn_role : Protocol.role (fst s) = r;
  sn_stream : stream_of (snd s) = base
}.

Definition pong_put (before after : option bytes) : list origin :=
  match before, after with Some payload, None => [Answer pong_key payload] | _, _ => [] end.

Lemma poll_sending p o inner hb base r half task now : sending (p, (o, inner, hb)) base r ->
  exists o' inner' hb' res, poll_drain (Protocol.encode_pong pong_key p) half task now (o, inner, hb) = Done (o', inner', hb') res /\
    sending (p, (o', inner', hb')) (base ++ frames_of r (pong_put (pending_pong o) (pending_pong o'))) r /\
    (pending_pong o' = pending_pong o \/ pending_pong o' = None) /\
    (res = Ok (Ready tt) -> pending_pong o' = None /\
       accepted inner' = base ++ frames_of r (pong_put (pending_pong o) None)).
Proof.
  intros [Hw Hr Hs]. cbn [fst snd] in *.
  destruct (poll_drain_ok (Protocol.encode_pong pong_key p) half task now o inner hb Hw)
    as ([[o' inner'] hb'] & res & E & [[Hw' Hs' _] Hres]).
  cbn [fst snd] in Hw', Hs', Hres. rewrite Hs in Hs'.
  assert (Hs2 : stream_of (o', inner', hb') = base ++ frames_of r (pong_put (pending_pong o) (pending_pong o')) /\
    (pending_pong o' = pending_pong o \/ pending_pong o' = None)).
  { destruct Hs' as [[Hp' Hs']|([pl Hp] & Hp' & Hs')]; rewrite Hs', Hp'; [split; [|by left]|split; [|by right]].
    - destruct (pending_pong o); cbn; by rewrite app_nil_r.
    - rewrite Hp. cbn [pong_put]. f_equal. unfold pong_frame, Protocol.encode_pong. subst r.
      by rewrite <- (app_nil_l (frames_of _ _)). }
  destruct Hs2 as [Hs2 Hpp]. exists o', inner', hb', res. split; [done|]. split; [by split|]. split; [done|].
  intros ->. destruct Hres as (He & Hp' & _). split; [done|]. rewrite Hp' in Hs2. cbn in Hs2. by rewrite He, app_nil_r in Hs2.
Qed.

Definition action_ok (mf mm : Z) (a : action) : Prop :=
  match a with
  | Send key m => key_fine key /\ msg_ok mf mm m
  | GotPing payload => bytes_ok payload /\ len payload <= 125 /\ len payload <= mf
  | Poll _ _ _ => True
  end.

Definition pong_ok (mf : Z) (p : option bytes) : Prop :=
  match p with Some b => bytes_ok b /\ len b <= 125 /\ len b <= mf | None => True end.

Lemma msg_ok_bytes mf mm m : msg_ok mf mm m -> msg_bytes_ok m.
Proof. by destruct m; cbn; intros; inv_all. Qed.

Definition origin_ok (mf mm : Z) (x : origin) : Prop := key_fine (fst (message_of x)) /\ msg_ok mf mm (snd (message_of x)).

Lemma pong_put_ok mf mm before after : key_fine pong_key -> pong_ok mf before ->
  Forall (origin_ok mf mm) (pong_put before after).
Proof.
  intros Hk Hp. destruct before, after; try apply Forall_nil_2. by apply Forall_singleton.
Qed.

Lemma act_sending mf mm p o inner hb base r a : key_fine pong_key ->
  sending (p, (o, inner, hb)) base r -> pong_ok mf (pending_pong o) -> action_ok mf mm a ->
  exists p' o' inner' hb' x, act (p, (o, inner, hb)) a = Some ((p', (o', inner', hb')), x) /\
    sending (p', (o', inner', hb')) (base ++ frames_of r x) r /\ pong_ok mf (pending_pong o') /\
    Forall (origin_ok mf mm) x /\ users x = sent_by [a].
Proof.
  intros Hkey Hs Hp Ha. destruct a as [key m|payload|half task now]; cbn [action_ok] in Ha; unfold act.
  - destruct Ha as [Hk Hm], Hs as [Hw Hr Hst]. cbn [fst snd] in *.
    pose proof (start_send_frame_ok key p m (write_buf o) Hw (msg_ok_bytes _ _ _ Hm)) as Hf.
    destruct (start_send_frame key p m (write_buf o)) as [p' c]. destruct Hf as (Hc & Hcont & ->).
    destruct (encode_message_frame key p m []) as [Eb Er]. rewrite Eb in Hcont.
    eexists _, _, _, _, _. split; [done|]. split; [split; cbn [fst snd write_buf set_write_buf]; [done|congruence|]|].
    + unfold stream_of in *. cbn [write_buf set_write_buf]. rewrite Hcont, app_assoc, Hst, Hr. done.
    + split; [done|]. split; [by apply Forall_singleton|done].
  - eexists _, _, _, _, _. split; [done|]. split; [cbn; rewrite app_nil_r; by destruct Hs|]. split; [done|]. split; [apply Forall_nil_2|done].
  - destruct (poll_sending p o inner hb base r half task now Hs) as (o' & inner' & hb' & res & E & Hs' & Hpp & _).
    rewrite E. eexists _, _, _, _, _. split; [done|]. split; [exact Hs'|]. split; [by destruct Hpp as [-> | ->]|].
    split; [by apply (pong_put_ok mf mm (pending_pong o) (pending_pong o'))|].
    by destruct (pending_pong o), (pending_pong o').
Qed.

Lemma acts_sending mf mm p o inner hb base r l : key_fine pong_key ->
  sending (p, (o, inner, hb)) base r -> pong_ok mf (pending_pong o) -> Forall (action_ok mf mm) l ->
  exists p' o' inner' hb' xs, acts (p, (o, inner, hb)) l = Some ((p', (o', inner', hb')), xs) /\
    sending (p', (o', inner', hb')) (base ++ frames_of r xs) r /\ pong_ok mf (pending_pong o') /\
    Forall (origin_ok mf mm) xs /\ users xs = sent_by l.
Proof.
  intros Hkey Hs Hp Hl. revert p o inner hb base Hs Hp.
  induction Hl as [|a l Ha Hl IH]; intros p o inner hb base Hs Hp; cbn [acts].
  - exists p, o, inner, hb, []. split; [done|]. cbn. rewrite app_nil_r. split; [done|]. split; [done|]. split; [apply Forall_nil_2|done].
  - destruct (act_sending mf mm p o inner hb base r a Hkey Hs Hp Ha) as (p1 & o1 & i1 & h1 & x & -> & Hs1 & Hp1 & Hx & Hu).
    cbn [mbind option_bind]. destruct (IH p1 o1 i1 h1 _ Hs1 Hp1) as (p2 & o2 & i2 & h2 & xs & E & Hs2 & Hp2 & Hxs & Hus).
    rewrite E. cbn [mbind option_bind]. eexists _, _, _, _, _. split; [done|].
    rewrite frames_of_app, app_assoc. split; [done|]. split; [done|]. split; [by apply Forall_app|].
    unfold users, sent_by in *. rewrite omap_app, Hu, Hus. by rewrite <- omap_app.
Qed.
End EndToEnd.

(** [C1] End to end.  A side sends messages, receives Pings and polls its output in any
    order, over a transport that takes what it likes of what it is offered; no step fails.  Once a poll
    completes, whatever reads the other side makes of the bytes on the wire, it delivers exactly the messages sent,
    unchanged and in order, with only answers to Pings between them. *)
Theorem sent_messages_delivered {T : Type} `{TransportSpec T} {SU : Simdutf8} {SUok : Simdutf8Spec}
    (arch : Arch) (slice_addr : bytes -> Z) pong_key r max_frame max_message mf mm size (inner : T) hb l :
  arch_ok arch -> 0 <= mf -> key_fine pong_key -> accepted inner = [] -> Forall (action_ok mf mm) l ->
  exists p o inner1 hb1 log,
    acts pong_key (Protocol.new r max_frame max_message, (UnifiedOutput.new size, inner, hb)) l =
      Some ((p, (o, inner1, hb1)), log) /\
    users log = sent_by l /\
    forall half task now, exists o2 inner2 hb2 res,
      poll_drain (Protocol.encode_pong pong_key p) half task now (o, inner1, hb1) = Done (o2, inner2, hb2) res /\
      (res = Ok (Ready tt) ->
       forall chunks, concat chunks = accepted inner2 ->
       exists q buf a, process_reads arch slice_addr (Protocol.new (peer r) mf mm) chunks =
         Done (q, buf, map snd (map message_of (log ++ pong_put pong_key (pending_pong o) None)), a) (Ok tt)).
Proof.
  intros Harch Hmf Hkey Hacc Hl.
  assert (Hnew : sending (T := T) (Protocol.new r max_frame max_message, (UnifiedOutput.new size, inner, hb)) [] r).
  { split; cbn; [split; [done|constructor]|done|by rewrite Hacc]. }
  destruct (acts_sending pong_key mf mm _ _ inner hb [] r l Hkey Hnew I Hl)
    as (p & o & i1 & h1 & log & E & Hs & Hp & Hlog & Hu).
  exists p, o, i1, h1, log. split; [done|]. split; [done|]. intros half task now.
  destruct (poll_sending pong_key p o i1 h1 _ r half task now Hs) as (o2 & i2 & h2 & res & Ed & _ & _ & Hready).
  exists o2, i2, h2, res. split; [done|]. intros Hres chunks Hc. destruct (Hready Hres) as [_ Ha].
  rewrite Ha, app_nil_l, <- frames_of_app in Hc.
  apply (process_reads_sent arch slice_addr mf mm r _ (map message_of (log ++ pong_put pong_key (pending_pong o) None))); try done.
  - apply (sim_new (peer r) mf mm true).
  - apply Forall_map, Forall_app. split; [done|by apply pong_put_ok].
Qed.

(** A client sends a text in two polls of a slow transport; a Ping is answered behind it. *)
Lemma sent_messages_delivered_witness :
  let l := [Send [1; 2; 3; 4] (Message.Text [104; 105]); Poll Sink 1 0; GotPing [7]; Poll Stream 2 0] in
  exists p o inner1 hb1 log,
    acts [5; 6; 7; 8] (Protocol.new Client 100 100, (UnifiedOutput.new 16, MkScript [Some 3; None] [], Heartbeat.new false 0 0 0 0)) l =
      Some ((p, (o, inner1, hb1)), log) /\ users log = [([1; 2; 3; 4], Message.Text [104; 105])] /\
    exists o2 inner2 hb2,
      poll_drain (Protocol.encode_pong [5; 6; 7; 8] p) Sink 1 0 (o, inner1, hb1) = Done (o2, inner2, hb2) (Ok (Ready tt)) /\
      exists q buf a, process_reads (SU := simdutf8_std) test_arch (fun _ => 0) (Protocol.new Server 100 100)
          [upto 5 (wire inner2); from 5 (wire inner2)] =
        Done (q, buf, [Message.Text [104; 105]; Message.Pong [7]], a) (Ok tt).
Proof.
  intros l.
  destruct (sent_messages_delivered (T := Script) (SU := simdutf8_std) (SUok := simdutf8_std_spec) test_arch (fun _ => 0)
    [5; 6; 7; 8] Client 100 100 100 100 16 (MkScript [Some 3; None] []) (Heartbeat.new false 0 0 0 0) l)
    as (p & o & i1 & h1 & log & E & Hu & H); [by vm_compute|done| |done| |].
  - split; [done|by repeat constructor].
  - unfold l. repeat (apply Forall_cons_2; [first [exact I | cbn; split_and!; try done; by repeat constructor]|]). apply Forall_nil_2.
  - exists p, o, i1, h1, log. split; [exact E|]. split; [exact Hu|].
    destruct (H Sink 1 0) as (o2 & i2 & h2 & res & Ed & Hd). exists o2, i2, h2.
    vm_compute in E. injection E as <- <- <- <- <-.
    assert (Er : res = Ok (Ready tt)) by (vm_compute in Ed; by injection Ed). subst res.
    split; [exact Ed|]. destruct (Hd eq_refl [upto 5 (wire i2); from 5 (wire i2)]) as (q & buf & a & Eq).
    { cbn [concat]. by rewrite app_nil_r, upto_from. }
    exists q, buf, a. exact Eq.
Defined.
