(* ===== verification/Deflate.v ===== *)
(** * Negotiating permessage-deflate (src/src/deflate.rs)

    The offers of a client are parsed, checked against the server's policy, and
    answered; the client reads the answer with the same parser.  The theorems
    say which offer is chosen and with which parameters, and that both sides end
    up with the same codec configuration. *)

From stdpp Require Import base list option strings.
From Stdlib Require Import Ascii.
From S2P Require Import Prelude Error.

(** ** String operations of the standard library

    All separators are ASCII, so splitting bytes and splitting characters agree. *)

Definition is_char (c : ascii) (a : ascii) : bool := bool_decide (a = c).
Definition quote_char : ascii := "034"%char.
Definition tab_char : ascii := "009"%char.
Definition is_ows (a : ascii) : bool := is_char " "%char a || is_char tab_char a.

(** [s.split(c)] *)
Fixpoint split (c : ascii) (s : string) : list string :=
  match s with
  | EmptyString => [EmptyString]
  | String a s' =>
      if is_char c a then EmptyString :: split c s'
      else match split c s' with
           | x :: r => String a x :: r
           | [] => [String a EmptyString]
           end
  end.

(** [s.split_once(c)] *)
Fixpoint split_once (c : ascii) (s : string) : option (string * string) :=
  match s with
  | EmptyString => None
  | String a s' =>
      if is_char c a then Some (EmptyString, s')
      else '(x, y) ← split_once c s'; Some (String a x, y)
  end.

Fixpoint trim_start (s : string) : string :=
  match s with
  | String a s' => if is_ows a then trim_start s' else s
  | EmptyString => EmptyString
  end.
Fixpoint trim_end (s : string) : string :=
  match s with
  | EmptyString => EmptyString
  | String a s' =>
      match trim_end s' with
      | EmptyString => if is_ows a then EmptyString else String a EmptyString
      | t => String a t
      end
  end.

(** [handshake::trim_optional_whitespace] *)
Definition trim_optional_whitespace (s : string) : string := trim_end (trim_start s).

Definition strip_prefix (c : ascii) (s : string) : option string :=
  match s with String a s' => if is_char c a then Some s' else None | EmptyString => None end.
Fixpoint strip_suffix (c : ascii) (s : string) : option string :=
  match s with
  | EmptyString => None
  | String a EmptyString => if is_char c a then Some EmptyString else None
  | String a s' => String a <$> strip_suffix c s'
  end.
Fixpoint string_all (f : ascii -> bool) (s : string) : bool :=
  match s with EmptyString => true | String a s' => f a && string_all f s' end.
Definition string_contains (c : ascii) (s : string) : bool := negb (string_all (fun a => negb (is_char c a)) s).

Definition code (a : ascii) : Z := Z.of_N (N_of_ascii a).
Definition is_ascii_digit (a : ascii) : bool := (48 <=? code a) && (code a <=? 57).

(** [value.parse::<u8>()], for a non-empty string of digits *)
Fixpoint digits_value (acc : Z) (s : string) : Z :=
  match s with EmptyString => acc | String a s' => digits_value (acc * 10 + (code a - 48)) s' end.
Definition parse_u8 (s : string) : option Z := let v := digits_value 0 s in if v <=? 255 then Some v else None.

(** [format!("{n}")] for a [u8] *)
Definition digit (n : Z) : ascii := ascii_of_N (Z.to_N (48 + n)).
Definition show_u8 (n : Z) : string :=
  if n <? 10 then String (digit n) EmptyString
  else if n <? 100 then String (digit (n / 10)) (String (digit (n mod 10)) EmptyString)
  else String (digit (n / 100)) (String (digit (n / 10 mod 10)) (String (digit (n mod 10)) EmptyString)).

(** [parts.join("; ")] *)
Fixpoint join (sep : string) (parts : list string) : string :=
  match parts with
  | [] => EmptyString
  | [x] => x
  | x :: r => String.append x (String.append sep (join sep r))
  end.

(** ** Window sizes (src/src/lib.rs) *)

Inductive DeflateWindowBits := Bits9 | Bits10 | Bits11 | Bits12 | Bits13 | Bits14 | Bits15.
#[export] Instance DeflateWindowBits_eq_dec : EqDecision DeflateWindowBits.
Proof. solve_decision. Defined.

Definition try_from (value : Z) : option DeflateWindowBits :=
  match value with
  | 9 => Some Bits9 | 10 => Some Bits10 | 11 => Some Bits11 | 12 => Some Bits12
  | 13 => Some Bits13 | 14 => Some Bits14 | 15 => Some Bits15
  | _ => None
  end.
Definition to_u8 (b : DeflateWindowBits) : Z :=
  match b with
  | Bits9 => 9 | Bits10 => 10 | Bits11 => 11 | Bits12 => 12 | Bits13 => 13 | Bits14 => 14 | Bits15 => 15
  end.
(** The derived order *)
Definition bits_lt (a b : DeflateWindowBits) : bool := to_u8 a <? to_u8 b.
Definition bits_min (a b : DeflateWindowBits) : DeflateWindowBits := if bits_lt b a then b else a.

Definition MIN_RFC_WINDOW_BITS := 8.
Definition MAX_RFC_WINDOW_BITS := 15.
Definition DEFAULT_WINDOW_BITS := Bits15.
Definition MIN_WINDOW_BITS := Bits9.
Definition MAX_WINDOW_BITS := Bits15.

(** ** Configuration and offers *)

Module DeflateConfig.
Record t := Mk {
  server_max_window_bits : DeflateWindowBits;
  client_max_window_bits : DeflateWindowBits;
  server_no_context_takeover : bool;
  client_no_context_takeover : bool;
  compression_level : Z;
  compression_threshold : Z
}.
Definition default : t := Mk DEFAULT_WINDOW_BITS DEFAULT_WINDOW_BITS false false 6 32.
Definition low_memory : t := Mk Bits10 Bits10 true true 1 64.
Definition best_compression : t := Mk MAX_WINDOW_BITS MAX_WINDOW_BITS false false 9 16.
End DeflateConfig.

Definition params := list (string * option string).

Definition response_header (config : DeflateConfig.t) (server_bits client_bits : option Z) : string :=
  let parts := ["permessage-deflate"%string]
    ++ (if DeflateConfig.server_no_context_takeover config then ["server_no_context_takeover"%string] else [])
    ++ (if DeflateConfig.client_no_context_takeover config then ["client_no_context_takeover"%string] else [])
    ++ (match server_bits with Some b => [String.append "server_max_window_bits="%string (show_u8 b)] | None => [] end)
    ++ (match client_bits with Some b => [String.append "client_max_window_bits="%string (show_u8 b)] | None => [] end) in
  join "; "%string parts.

(** The quoted or plain value of a parameter. *)
Definition unquote (value : string) : option string :=
  match strip_prefix quote_char value, strip_suffix quote_char value with
  | Some value, Some _ => strip_suffix quote_char value
  | None, None => if negb (string_contains quote_char value) then Some value else None
  | _, _ => None
  end.

Fixpoint parse_params (parts : list string) : option params :=
  match parts with
  | [] => Some []
  | part :: parts =>
      let part := trim_optional_whitespace part in
      if bool_decide (part = EmptyString) then None
      else
        param ← (match split_once "="%char part with
                 | Some (name, value) =>
                     let name := trim_optional_whitespace name in
                     let value := trim_optional_whitespace value in
                     value ← unquote value; Some (name, Some value)
                 | None => Some (part, None)
                 end);
        rest ← parse_params parts; Some (param :: rest)
  end.

Definition parse_deflate_offer (value : string) : option params :=
  match split ";"%char value with
  | [] => None
  | first :: parts =>
      if bool_decide (trim_optional_whitespace first = "permessage-deflate"%string) then parse_params parts else None
  end.

Definition parse_window_bits (value : string) : option Z :=
  if bool_decide (value = EmptyString) || negb (string_all is_ascii_digit value)
     || ((1 <? Z.of_nat (String.length value)) && bool_decide (is_Some (strip_prefix "0"%char value)))
  then None
  else
    window_bits ← parse_u8 value;
    if (MIN_RFC_WINDOW_BITS <=? window_bits) && (window_bits <=? MAX_RFC_WINDOW_BITS) then Some window_bits else None.

Module DeflateOffer.
Record t := Mk {
  server_no_context_takeover : bool;
  client_no_context_takeover : bool;
  server_max_window_bits : option Z;
  client_max_window_bits : option (option Z)
}.
Definition default : t := Mk false false None None.

(** One turn of the loop of [from_params]; the error is its message. *)
Definition add_param (offer : t) (param : string * option string) : res string t :=
  let '(name, value) := param in
  if bool_decide (name = "server_no_context_takeover"%string) then
    if server_no_context_takeover offer then Err "duplicate server_no_context_takeover"%string
    else if bool_decide (is_Some value) then Err "server_no_context_takeover must not have a value"%string
    else Ok (Mk true (client_no_context_takeover offer) (server_max_window_bits offer) (client_max_window_bits offer))
  else if bool_decide (name = "client_no_context_takeover"%string) then
    if client_no_context_takeover offer then Err "duplicate client_no_context_takeover"%string
    else if bool_decide (is_Some value) then Err "client_no_context_takeover must not have a value"%string
    else Ok (Mk (server_no_context_takeover offer) true (server_max_window_bits offer) (client_max_window_bits offer))
  else if bool_decide (name = "server_max_window_bits"%string) then
    if bool_decide (is_Some (server_max_window_bits offer)) then Err "duplicate server_max_window_bits"%string
    else match value with
    | None => Err "server_max_window_bits requires a value"%string
    | Some value =>
        match parse_window_bits value with
        | None => Err "invalid server_max_window_bits value"%string
        | Some bits => Ok (Mk (server_no_context_takeover offer) (client_no_context_takeover offer) (Some bits)
                              (client_max_window_bits offer))
        end
    end
  else if bool_decide (name = "client_max_window_bits"%string) then
    if bool_decide (is_Some (client_max_window_bits offer)) then Err "duplicate client_max_window_bits"%string
    else match value with
    | Some value =>
        match parse_window_bits value with
        | None => Err "invalid client_max_window_bits value"%string
        | Some bits => Ok (Mk (server_no_context_takeover offer) (client_no_context_takeover offer)
                              (server_max_window_bits offer) (Some (Some bits)))
        end
    | None => Ok (Mk (server_no_context_takeover offer) (client_no_context_takeover offer)
                     (server_max_window_bits offer) (Some None))
    end
  else Err "unknown permessage-deflate parameter"%string.

Fixpoint from_params_in (offer : t) (ps : params) : res string t :=
  match ps with
  | [] => Ok offer
  | p :: ps => match add_param offer p with Ok offer => from_params_in offer ps | Err e => Err e end
  end.
Definition from_params (ps : params) : res string t := from_params_in default ps.
End DeflateOffer.

(** [DeflateConfig::from_params] *)
Definition config_from_params (ps : params) : res Error DeflateConfig.t :=
  match DeflateOffer.from_params ps with
  | Err e => Err (HandshakeFailed e)
  | Ok parsed =>
      let server := match DeflateOffer.server_max_window_bits parsed with
                    | Some bits => try_from bits
                    | None => Some DEFAULT_WINDOW_BITS
                    end in
      let client := match DeflateOffer.client_max_window_bits parsed with
                    | Some (Some bits) => try_from bits
                    | _ => Some DEFAULT_WINDOW_BITS
                    end in
      match server with
      | None => Err (HandshakeFailed "unsupported server_max_window_bits value"%string)
      | Some server =>
          match client with
          | None => Err (HandshakeFailed "unsupported client_max_window_bits value"%string)
          | Some client =>
              Ok (DeflateConfig.Mk server client (DeflateOffer.server_no_context_takeover parsed)
                    (DeflateOffer.client_no_context_takeover parsed)
                    (DeflateConfig.compression_level DeflateConfig.default)
                    (DeflateConfig.compression_threshold DeflateConfig.default))
          end
      end
  end.

(** [DeflateConfig::to_response_header] *)
Definition announced (b : DeflateWindowBits) : option Z := if bits_lt b MAX_WINDOW_BITS then Some (to_u8 b) else None.
Definition config_to_response_header (c : DeflateConfig.t) : string :=
  response_header c (announced (DeflateConfig.server_max_window_bits c)) (announced (DeflateConfig.client_max_window_bits c)).

Module DeflateNegotiation.
Record t := Mk {
  config : DeflateConfig.t;
  response_server_max_window_bits : option Z;
  response_client_max_window_bits : option Z
}.
Definition to_response_header (n : t) : string :=
  response_header (config n) (response_server_max_window_bits n) (response_client_max_window_bits n).
End DeflateNegotiation.
Import DeflateConfig.

(** What the loop of [negotiate_server_deflate] does with one offer. *)
Inductive verdict := Continue | Return (r : option DeflateNegotiation.t).

Definition negotiate_server_bits (policy : DeflateConfig.t) (offer : DeflateOffer.t) :
    option (DeflateWindowBits * option Z) :=
  match DeflateOffer.server_max_window_bits offer with
  | Some limit =>
      limit ← try_from limit;
      let selected := bits_min (server_max_window_bits policy) limit in Some (selected, Some (to_u8 selected))
  | None => Some (server_max_window_bits policy, announced (server_max_window_bits policy))
  end.

Definition negotiate_offer (policy : DeflateConfig.t) (offer : DeflateOffer.t) : verdict :=
  match negotiate_server_bits policy offer with
  | None => Continue
  | Some (server_bits, response_server) =>
      let finish (client_bits : DeflateWindowBits) (response_client : option Z) : verdict :=
        Return (Some (DeflateNegotiation.Mk
          (Mk server_bits client_bits
              (server_no_context_takeover policy || DeflateOffer.server_no_context_takeover offer)
              (client_no_context_takeover policy || DeflateOffer.client_no_context_takeover offer)
              (compression_level policy) (compression_threshold policy))
          response_server response_client)) in
      match DeflateOffer.client_max_window_bits offer with
      | Some (Some limit) =>
          let selected := Z.min (to_u8 (client_max_window_bits policy)) limit in
          match (if selected =? MIN_RFC_WINDOW_BITS then Some MIN_WINDOW_BITS else try_from selected) with
          | Some backend => finish backend (if selected <? to_u8 MAX_WINDOW_BITS then Some selected else None)
          | None => Return None
          end
      | Some None => finish (client_max_window_bits policy) (announced (client_max_window_bits policy))
      | None => if bool_decide (client_max_window_bits policy = MAX_WINDOW_BITS) then finish MAX_WINDOW_BITS None
                else Continue
      end
  end.

(** The offer an element of the header stands for, if it is well formed. *)
Definition read_offer (element : string) : option DeflateOffer.t :=
  ps ← parse_deflate_offer (trim_optional_whitespace element);
  match DeflateOffer.from_params ps with Ok offer => Some offer | Err _ => None end.

Fixpoint negotiate_list (policy : DeflateConfig.t) (elements : list string) : option DeflateNegotiation.t :=
  match elements with
  | [] => None
  | element :: elements =>
      match read_offer element with
      | None => negotiate_list policy elements
      | Some offer => match negotiate_offer policy offer with
                      | Continue => negotiate_list policy elements
                      | Return r => r
                      end
      end
  end.

Definition negotiate_server_deflate (offers : string) (policy : DeflateConfig.t) : option DeflateNegotiation.t :=
  negotiate_list policy (split ","%char offers).

(** ** The parameters of an offer *)

(** A window size announced on the wire. *)
Definition wire_bits (b : Z) : Prop := MIN_RFC_WINDOW_BITS <= b <= MAX_RFC_WINDOW_BITS.

Record offer_ok (o : DeflateOffer.t) : Prop := {
  ok_server b : DeflateOffer.server_max_window_bits o = Some b -> wire_bits b;
  ok_client b : DeflateOffer.client_max_window_bits o = Some (Some b) -> wire_bits b
}.

Lemma parse_window_bits_ok s b : parse_window_bits s = Some b -> wire_bits b.
Proof.
  unfold parse_window_bits. destruct (_ || _); [done|]. destruct (parse_u8 s) as [v|]; [|done]. cbn.
  destruct (_ && _) eqn:E; [|done]. intros [= <-]. apply andb_prop in E as [?%Z.leb_le ?%Z.leb_le]. done.
Qed.

Lemma add_param_ok o p o' : offer_ok o -> DeflateOffer.add_param o p = Ok o' -> offer_ok o'.
Proof.
  intros [Hs Hc] E. destruct p as [name value]. unfold DeflateOffer.add_param in E.
  repeat case_match; simplify_eq; split; cbn; intros; simplify_eq; eauto using parse_window_bits_ok.
Qed.

Lemma from_params_ok ps o : DeflateOffer.from_params ps = Ok o -> offer_ok o.
Proof.
  unfold DeflateOffer.from_params. assert (Hd : offer_ok DeflateOffer.default) by by split.
  revert Hd. generalize DeflateOffer.default as o0. induction ps as [|p ps IH]; intros o0 H0; cbn; [by intros [= <-]|].
  destruct (DeflateOffer.add_param o0 p) as [o1|e] eqn:E; [|done]. apply IH. by eapply add_param_ok.
Qed.

Lemma read_offer_ok element o : read_offer element = Some o -> offer_ok o.
Proof.
  unfold read_offer. intros (ps & _ & H)%bind_Some. destruct (DeflateOffer.from_params ps) eqn:E; [|done].
  injection H as <-. by eapply from_params_ok.
Qed.

(** ** Which offer is accepted, and how it is answered *)

(** The backend has no 8-bit encoder window; without a parameter of its own the client may use any window. *)
Definition acceptable (policy : DeflateConfig.t) (o : DeflateOffer.t) : Prop :=
  DeflateOffer.server_max_window_bits o <> Some 8 /\
  (DeflateOffer.client_max_window_bits o = None -> client_max_window_bits policy = Bits15).

(** An omitted limit is the largest window. *)
Definition limit_of (b : option Z) : Z := match b with Some b => b | None => 15 end.

Record agreed (policy : DeflateConfig.t) (o : DeflateOffer.t) (n : DeflateNegotiation.t) : Prop := {
  ag_server : to_u8 (server_max_window_bits (DeflateNegotiation.config n)) =
    Z.min (to_u8 (server_max_window_bits policy)) (limit_of (DeflateOffer.server_max_window_bits o));
  ag_response_server : DeflateNegotiation.response_server_max_window_bits n =
    let b := to_u8 (server_max_window_bits (DeflateNegotiation.config n)) in
    if bool_decide (is_Some (DeflateOffer.server_max_window_bits o)) || (b <? 15) then Some b else None;
  (** The limit the client is held to, and the window its messages are decoded with. *)
  ag_client : let c := Z.min (to_u8 (client_max_window_bits policy))
                             (limit_of (mjoin (DeflateOffer.client_max_window_bits o))) in
    DeflateNegotiation.response_client_max_window_bits n = (if c <? 15 then Some c else None) /\
    to_u8 (client_max_window_bits (DeflateNegotiation.config n)) = Z.max 9 c;
  ag_flags : server_no_context_takeover (DeflateNegotiation.config n) =
      server_no_context_takeover policy || DeflateOffer.server_no_context_takeover o /\
    client_no_context_takeover (DeflateNegotiation.config n) =
      client_no_context_takeover policy || DeflateOffer.client_no_context_takeover o;
  ag_codec : compression_level (DeflateNegotiation.config n) = compression_level policy /\
    compression_threshold (DeflateNegotiation.config n) = compression_threshold policy
}.

Lemma try_from_to_u8 b : try_from (to_u8 b) = Some b.
Proof. by destruct b. Qed.

Lemma try_from_range z : 9 <= z <= 15 -> exists b, try_from z = Some b /\ to_u8 b = z.
Proof.
  intros H. assert (z = 9 \/ z = 10 \/ z = 11 \/ z = 12 \/ z = 13 \/ z = 14 \/ z = 15) as Hz by lia.
  destruct_or! Hz; subst; by eexists.
Qed.

Lemma to_u8_range b : 9 <= to_u8 b <= 15.
Proof. destruct b; cbn; lia. Qed.

Lemma to_u8_inj a b : to_u8 a = to_u8 b -> a = b.
Proof. by destruct a, b. Qed.

Lemma bits_min_u8 a b : to_u8 (bits_min a b) = Z.min (to_u8 a) (to_u8 b).
Proof. unfold bits_min, bits_lt. destruct (Z.ltb_spec (to_u8 b) (to_u8 a)); lia. Qed.

Lemma announced_u8 b : announced b = if to_u8 b <? 15 then Some (to_u8 b) else None.
Proof. by destruct b. Qed.

Lemma negotiate_server_bits_ok policy o : offer_ok o ->
  match negotiate_server_bits policy o with
  | Some (b, r) => DeflateOffer.server_max_window_bits o <> Some 8 /\
      to_u8 b = Z.min (to_u8 (server_max_window_bits policy)) (limit_of (DeflateOffer.server_max_window_bits o)) /\
      r = if bool_decide (is_Some (DeflateOffer.server_max_window_bits o)) || (to_u8 b <? 15) then Some (to_u8 b) else None
  | None => DeflateOffer.server_max_window_bits o = Some 8
  end.
Proof.
  intros [Hs _]. unfold negotiate_server_bits. destruct (DeflateOffer.server_max_window_bits o) as [limit|].
  - specialize (Hs _ eq_refl) as Hl. unfold wire_bits, MIN_RFC_WINDOW_BITS, MAX_RFC_WINDOW_BITS in Hl.
    destruct (decide (limit = 8)) as [->|Hne]; [done|]. destruct (try_from_range limit) as (b & -> & Hb); [lia|]. cbn.
    split; [congruence|]. rewrite bits_min_u8, Hb. done.
  - cbn. pose proof (to_u8_range (server_max_window_bits policy)). split; [done|]. split; [lia|].
    by rewrite announced_u8.
Qed.

Lemma negotiate_offer_ok policy o : offer_ok o ->
  match negotiate_offer policy o with
  | Continue => ~ acceptable policy o
  | Return (Some n) => acceptable policy o /\ agreed policy o n
  | Return None => False
  end.
Proof.
  intros Ho. pose proof (negotiate_server_bits_ok policy o Ho) as Hs. unfold negotiate_offer.
  destruct (negotiate_server_bits policy o) as [[b r]|]; [|by intros [? _]].
  destruct Hs as (H8 & Hb & Hr). pose proof (to_u8_range (client_max_window_bits policy)) as Hc.
  unfold acceptable. destruct (DeflateOffer.client_max_window_bits o) as [[limit|]|] eqn:Eo.
  - destruct (ok_client o Ho _ Eo) as [Hl1 Hl2]. unfold MIN_RFC_WINDOW_BITS, MAX_RFC_WINDOW_BITS in *.
    set (c := Z.min (to_u8 (client_max_window_bits policy)) limit).
    assert (Hback : exists backend, (if c =? 8 then Some MIN_WINDOW_BITS else try_from c) = Some backend /\
      to_u8 backend = Z.max 9 c).
    { destruct (Z.eqb_spec c 8) as [->|]; [by eexists|]. destruct (try_from_range c) as (x & ? & ?); [lia|].
      exists x. split; [done|lia]. }
    destruct Hback as (backend & -> & Hbk). split; [done|]. by split; cbn; rewrite ?Eo.
  - split; [done|]. split; cbn; rewrite ?Eo; try done. cbn.
    replace (Z.min _ 15) with (to_u8 (client_max_window_bits policy)) by lia. rewrite announced_u8. split; [done|lia].
  - destruct (decide (client_max_window_bits policy = MAX_WINDOW_BITS)) as [Hp|Hp];
      [rewrite bool_decide_eq_true_2 by done|rewrite bool_decide_eq_false_2 by done; by intros [_ Hx]; apply Hp, Hx].
    split; [done|]. split; cbn; rewrite ?Eo, ?Hp; done.
Qed.

(** An element of the header that is not an offer, or not one the server can satisfy. *)
Definition unusable (policy : DeflateConfig.t) (e : string) : Prop :=
  forall o, read_offer e = Some o -> ~ acceptable policy o.

Lemma negotiate_list_ok policy elements :
  match negotiate_list policy elements with
  | Some n => exists before element after o, elements = before ++ element :: after /\
      Forall (unusable policy) before /\ read_offer element = Some o /\ acceptable policy o /\ agreed policy o n
  | None => Forall (unusable policy) elements
  end.
Proof.
  induction elements as [|e es IH]; cbn [negotiate_list]; [constructor|].
  assert (Hskip : unusable policy e ->
    match negotiate_list policy es with
    | Some n => exists before element after o, e :: es = before ++ element :: after /\
        Forall (unusable policy) before /\
        read_offer element = Some o /\ acceptable policy o /\ agreed policy o n
    | None => Forall (unusable policy) (e :: es)
    end).
  { intros Hu. destruct (negotiate_list policy es) as [n|]; [|by constructor].
    destruct IH as (b & el & a & o & -> & Hb & H). exists (e :: b), el, a, o. split; [done|]. split; [by constructor|done]. }
  destruct (read_offer e) as [o|] eqn:Er; [|apply Hskip; intros o Ho; congruence].
  pose proof (negotiate_offer_ok policy o (read_offer_ok e o Er)) as Ho.
  destruct (negotiate_offer policy o) as [|[n|]]; [| |done].
  - apply Hskip. intros o' Ho'. rewrite Er in Ho'. by injection Ho' as <-.
  - destruct Ho as [Ha Hag]. exists [], e, es, o. split; [done|]. split; [constructor|done].
Qed.

(** The server accepts the first element of the header that is a well-formed offer it can satisfy, and
    none when there is none.  In what it agrees to, each window is the smaller of the client's limit and
    the policy's, the limit of the client is announced only when it is below the
    default (so never to a client that did not offer the parameter), an 8-bit client window is
    decoded with the backend's smallest, and context takeover is given up when either side asks for it. *)
Theorem negotiation_picks_first_acceptable offers policy :
  match negotiate_server_deflate offers policy with
  | Some n => exists before element after o, split ","%char offers = before ++ element :: after /\
      Forall (unusable policy) before /\ read_offer element = Some o /\ acceptable policy o /\ agreed policy o n
  | None => Forall (unusable policy) (split ","%char offers)
  end.
Proof. apply negotiate_list_ok. Qed.
(** ** Both sides agree *)

Definition all_bools := [true; false].
Definition all_limits : list (option Z) := None :: map Some [8; 9; 10; 11; 12; 13; 14; 15].

#[export] Instance DeflateOffer_eq_dec : EqDecision DeflateOffer.t.
Proof. solve_decision. Defined.

Definition limit_ok (b : option Z) : Prop := match b with Some b => wire_bits b | None => True end.

Lemma limit_listed b : limit_ok b -> b ∈ all_limits.
Proof.
  destruct b as [b|]; [|intros _; by left]. unfold limit_ok, wire_bits, MIN_RFC_WINDOW_BITS, MAX_RFC_WINDOW_BITS. intros Hb.
  right. apply list_elem_of_fmap. exists b. split; [done|].
  assert (b = 8 \/ b = 9 \/ b = 10 \/ b = 11 \/ b = 12 \/ b = 13 \/ b = 14 \/ b = 15) as H by lia.
  destruct_or! H; subst; by repeat constructor.
Qed.

Lemma bool_listed b : b ∈ all_bools.
Proof. destruct b; repeat constructor. Qed.

(** An answer as its receiver reads it. *)
Definition read_response (header : string) : option DeflateOffer.t :=
  ps ← parse_deflate_offer header;
  match DeflateOffer.from_params ps with Ok offer => Some offer | Err _ => None end.

(** The finitely many answers are read back as written, by evaluation. *)
Definition reads_back (f g : bool) (s c : option Z) : bool :=
  bool_decide (read_response (response_header (Mk Bits15 Bits15 f g 0 0) s c) = Some (DeflateOffer.Mk f g s (Some <$> c))).

Lemma all_read_back : Forall (fun f => Forall (fun g => Forall (fun s => Forall (fun c => reads_back f g s c = true)
  all_limits) all_limits) all_bools) all_bools.
Proof. rewrite <- (bool_decide_spec (Forall _ _)). vm_compute. exact I. Qed.

Lemma response_read_back c sb cb : limit_ok sb -> limit_ok cb ->
  read_response (response_header c sb cb) =
  Some (DeflateOffer.Mk (server_no_context_takeover c) (client_no_context_takeover c) sb (Some <$> cb)).
Proof.
  intros Hs%limit_listed Hc%limit_listed. destruct c as [? ? f g ? ?].
  pose proof all_read_back as H1. rewrite Forall_forall in H1. specialize (H1 f (bool_listed f)).
  rewrite Forall_forall in H1. specialize (H1 g (bool_listed g)). rewrite Forall_forall in H1. specialize (H1 sb Hs).
  rewrite Forall_forall in H1. specialize (H1 cb Hc). by apply bool_decide_eq_true in H1.
Qed.

Lemma agreed_limits policy o n : offer_ok o -> acceptable policy o -> agreed policy o n ->
  limit_ok (DeflateNegotiation.response_server_max_window_bits n) /\
  limit_ok (DeflateNegotiation.response_client_max_window_bits n).
Proof.
  intros Ho [_ Ha] [Hs Hrs [Hrc Hc] _ _]. unfold limit_ok, wire_bits, MIN_RFC_WINDOW_BITS, MAX_RFC_WINDOW_BITS.
  pose proof (to_u8_range (server_max_window_bits (DeflateNegotiation.config n))).
  pose proof (to_u8_range (client_max_window_bits policy)). rewrite Hrs, Hrc. split.
  - cbn. destruct (_ || _); lia.
  - destruct (Z.ltb_spec (Z.min (to_u8 (client_max_window_bits policy))
      (limit_of (mjoin (DeflateOffer.client_max_window_bits o)))) 15); [|done].
    destruct (DeflateOffer.client_max_window_bits o) as [[b|]|] eqn:E; cbn in *; try lia.
    destruct (ok_client o Ho b E). unfold MIN_RFC_WINDOW_BITS, MAX_RFC_WINDOW_BITS in *. lia.
Qed.

(** The windows read from an answer. *)
Lemma server_window_read policy o n : agreed policy o n ->
  match DeflateNegotiation.response_server_max_window_bits n with
  | Some bits => try_from bits
  | None => Some DEFAULT_WINDOW_BITS
  end = Some (server_max_window_bits (DeflateNegotiation.config n)).
Proof.
  intros [_ Hrs _ _ _]. rewrite Hrs. cbn. destruct (bool_decide _ || _) eqn:E; [apply try_from_to_u8|].
  apply orb_false_iff in E as [_ E]. apply Z.ltb_ge in E. f_equal. apply to_u8_inj.
  pose proof (to_u8_range (server_max_window_bits (DeflateNegotiation.config n))). cbn. lia.
Qed.

Lemma client_window_read policy o n : offer_ok o -> agreed policy o n ->
  match Some <$> DeflateNegotiation.response_client_max_window_bits n with
  | Some (Some bits) => try_from bits
  | _ => Some DEFAULT_WINDOW_BITS
  end = if bool_decide (DeflateNegotiation.response_client_max_window_bits n = Some 8) then None
        else Some (client_max_window_bits (DeflateNegotiation.config n)).
Proof.
  intros Ho [_ _ [Hrc Hc] _ _]. cbn zeta in Hrc, Hc. rewrite Hrc. clear Hrc.
  pose proof (to_u8_range (client_max_window_bits policy)).
  assert (Hl : 8 <= limit_of (mjoin (DeflateOffer.client_max_window_bits o))).
  { destruct (DeflateOffer.client_max_window_bits o) as [[b|]|] eqn:E; cbn; try lia. by destruct (ok_client o Ho b E). }
  set (c := Z.min _ _) in *. destruct (Z.ltb_spec c 15); cbn.
  - case_bool_decide as H8; [by injection H8 as ->|]. destruct (try_from_range c) as (b & -> & Hb).
    { assert (c <> 8) by (by intros ->). lia. }
    f_equal. apply to_u8_inj. rewrite Hc, Hb. assert (c <> 8) by (by intros ->). lia.
  - rewrite bool_decide_eq_false_2 by done. f_equal. apply to_u8_inj. rewrite Hc. cbn. lia.
Qed.

(** The answer of the server, read with the crate's own parser, gives the windows and takeover flags the
    server's codec was configured with; only for an 8-bit client window,
    which the backend cannot encode, does reading it fail, with an error that says so. *)
Theorem negotiated_endpoints_agree offers policy n : negotiate_server_deflate offers policy = Some n ->
  exists ps, parse_deflate_offer (DeflateNegotiation.to_response_header n) = Some ps /\
  match config_from_params ps with
  | Ok c =>
      server_max_window_bits c = server_max_window_bits (DeflateNegotiation.config n) /\
      client_max_window_bits c = client_max_window_bits (DeflateNegotiation.config n) /\
      server_no_context_takeover c = server_no_context_takeover (DeflateNegotiation.config n) /\
      client_no_context_takeover c = client_no_context_takeover (DeflateNegotiation.config n)
  | Err e => DeflateNegotiation.response_client_max_window_bits n = Some 8 /\
      e = HandshakeFailed "unsupported client_max_window_bits value"%string
  end.
Proof.
  intros En. pose proof (negotiate_list_ok policy (split ","%char offers)) as H. unfold negotiate_server_deflate in En.
  rewrite En in H. destruct H as (_ & e & _ & o & _ & _ & Er & Hacc & Hag).
  destruct (agreed_limits policy o n (read_offer_ok e o Er) Hacc Hag) as [Hls Hlc].
  pose proof (response_read_back (DeflateNegotiation.config n) _ _ Hls Hlc) as Hr.
  unfold read_response in Hr. apply bind_Some in Hr as (ps & Eps & Hps). exists ps. split; [done|].
  unfold config_from_params. destruct (DeflateOffer.from_params ps) as [po|]; [|done]. injection Hps as ->. cbn.
  rewrite (server_window_read policy o n Hag), (client_window_read policy o n (read_offer_ok e o Er) Hag).
  by case_bool_decide.
Qed.

Lemma negotiated_endpoints_agree_witness :
  let offers := "x-other, permessage-deflate; client_max_window_bits; server_max_window_bits=12"%string in
  exists n, negotiate_server_deflate offers low_memory = Some n /\
    exists ps, parse_deflate_offer (DeflateNegotiation.to_response_header n) = Some ps /\
    config_from_params ps = Ok (Mk Bits10 Bits10 true true 6 32).
Proof.
  intros offers. destruct (negotiate_server_deflate offers low_memory) as [n|] eqn:E; [|vm_compute in E; done].
  exists n. split; [done|]. destruct (negotiated_endpoints_agree offers low_memory n E) as (ps & Eps & _).
  exists ps. split; [exact Eps|]. vm_compute in E. injection E as <-. vm_compute in Eps. injection Eps as <-. by vm_compute.
Defined.
