(* ===== verification/Inflate.v ===== *)
(** * Bounded decompression (src/src/deflate.rs)

    [DeflateDecoder::decompress] drives zlib's [inflate] over growing output
    buffers and never lets a message exceed its limit.  zlib is an interface.  One
    theorem needs nothing of it but that it stays within the buffers it is given; another says that, for a zlib that
    decodes the input to some output, the result is that output or [MessageTooLarge], whatever
    buffers the allocator returns. *)

From stdpp Require Import base list option strings pretty.
From S2P Require Import Prelude Error.

Definition DEFLATE_TRAILER : bytes := [0x00; 0x00; 0xff; 0xff].
Definition u32_max := 2 ^ 32 - 1.

(** [flate2::Status] *)
Inductive Status := StatusOk | StatusBufError | StatusStreamEnd.
#[export] Instance Status_eq_dec : EqDecision Status.
Proof. solve_decision. Defined.

Definition Z_OK := 0.
Definition Z_STREAM_END := 1.
Definition Z_BUF_ERROR := -5.

(** ** zlib and the allocator *)

(** [inflate(stream, Z_SYNC_FLUSH)] on an input and an output of the given length: the code it returns, the
    bytes it consumed and those it wrote; [inflateReset] and [inflateResetKeep]. *)
Class Zlib (S : Type) := {
  zlib_inflate : S -> bytes -> Z -> S * Z * Z * bytes;
  zlib_reset : bool -> S -> S
}.

(** It does not leave the buffers it is given. *)
Class ZlibBounds (S : Type) `{Zlib S} : Prop :=
  zlib_bounds s input avail_out : 0 <= avail_out ->
    let '(_, _, consumed, produced) := zlib_inflate s input avail_out in
    0 <= consumed <= len input /\ len produced <= avail_out.

(** The capacity [BytesMut] has after [with_capacity(n)], and after [reserve(additional)]. *)
Class Alloc := {
  alloc_capacity : Z -> Z;
  alloc_reserve (capacity length additional : Z) : Z
}.
Class AllocBounds `{Alloc} : Prop := {
  alloc_capacity_ge n : n <= alloc_capacity n;
  alloc_reserve_ge capacity length additional : length + additional <= alloc_reserve capacity length additional
}.

Definition compression_error (msg : string) : Error := CompressionError (str msg).

Section Decoder.
Context {S : Type} `{Zlib S} `{Alloc}.

(** [RawDeflateDecoder::inflate] into an output of length [output_len] *)
Definition raw_inflate (s : S) (input : bytes) (output_len : Z) : S * res Error (Status * Z * bytes) :=
  let input := upto (Z.min (len input) u32_max) input in
  let output_len := Z.min output_len u32_max in
  let '(s, status, consumed, produced) := zlib_inflate s input output_len in
  (s, if status =? Z_OK then Ok (StatusOk, consumed, produced)
      else if status =? Z_BUF_ERROR then Ok (StatusBufError, consumed, produced)
      else if status =? Z_STREAM_END then Ok (StatusStreamEnd, consumed, produced)
      else Err (compression_error (String.append "inflate error: status code " (pretty status)))).

Definition raw_reset (keep_window : bool) (s : S) : S := zlib_reset keep_window s.

Record DeflateDecoder := MkDecoder { decompress_state : S; no_context_takeover : bool }.

(** The variables of the loop: the stream, the output and its capacity, the
    position in the input, and the number of iterations. *)
Record vars := MkVars { zs : S; output : bytes; capacity : Z; total_in : Z; iterations : Z }.

Definition MAX_ITERATIONS := 100000.

(** After the call of [inflate]. *)
Definition after_inflate (data_len input_len : Z) (at_limit : bool) (offered : Z) (v : vars) (capacity : Z) (s : S)
    (status : Status) (consumed : Z) (produced : bytes) : vars + run Error S bytes :=
  let output := if at_limit then output v else output v ++ produced in
  let total_in := total_in v + consumed in
  let v := MkVars s output capacity total_in (iterations v) in
  if at_limit && negb (len produced =? 0) then inr (Done s (Err MessageTooLarge))
  else if bool_decide (status = StatusStreamEnd) then
    let s := raw_reset true s in
    if data_len <=? total_in then inr (Done s (Ok output))
    else inl (MkVars s output capacity total_in (iterations v))
  else if (consumed =? 0) && (len produced =? 0) then
    if total_in <? input_len then inr (Done s (Err (compression_error "inflate made no progress with input remaining")))
    else inr (Done s (Ok output))
  else if (input_len <=? total_in) && (len produced <? offered) then inr (Done s (Ok output))
  else inl v.

Definition decompress_step (data_len max_size : Z) (input : bytes) (v : vars) : vars + run Error S bytes :=
  let v := MkVars (zs v) (output v) (capacity v) (total_in v) (iterations v + 1) in
  if MAX_ITERATIONS <? iterations v
  then inr (Done (zs v) (Err (compression_error "decompression took too many iterations")))
  else if len input <? total_in v then inr Panic
  else
    let at_limit := len (output v) =? max_size in
    if at_limit then
      match raw_inflate (zs v) (from (total_in v) input) 1 with
      | (s, Err e) => inr (Done s (Err e))
      | (s, Ok (status, consumed, produced)) =>
          after_inflate data_len (len input) at_limit 1 v (capacity v) s status consumed produced
      end
    else if max_size <? len (output v) then inr Panic
    else
      let remaining := max_size - len (output v) in
      let capacity := if len (output v) =? capacity v
                      then alloc_reserve (capacity v) (len (output v)) (Z.min (Z.max (capacity v) 4096) remaining)
                      else capacity v in
      let writable := Z.min (capacity - len (output v)) remaining in
      let offered := Z.min writable u32_max in
      match raw_inflate (zs v) (from (total_in v) input) offered with
      | (s, Err e) => inr (Done s (Err e))
      | (s, Ok (status, consumed, produced)) =>
          after_inflate data_len (len input) at_limit offered v capacity s status consumed produced
      end.

Definition initial_capacity (data_len max_size : Z) : Z :=
  Z.min (Z.max 1024 (Z.min (data_len * 4) (2 ^ 64 - 1))) max_size.

Definition decompress_run (s : S) (data : bytes) (max_size : Z) : run Error S bytes :=
  let input := data ++ DEFLATE_TRAILER in
  loop_fuel (Z.to_nat (MAX_ITERATIONS + 1)) (decompress_step (len data) max_size input)
    (MkVars s [] (alloc_capacity (initial_capacity (len data) max_size)) 0 0).

Definition decompress (d : DeflateDecoder) (data : bytes) (max_size : Z) : run Error DeflateDecoder bytes :=
  let s := if no_context_takeover d then raw_reset false (decompress_state d) else decompress_state d in
  match decompress_run s data max_size with
  | Done s r => Done (MkDecoder s (no_context_takeover d)) r
  | Panic => Panic
  | NoFuel => NoFuel
  end.

Definition reset (d : DeflateDecoder) : DeflateDecoder :=
  MkDecoder (raw_reset false (decompress_state d)) (no_context_takeover d).
End Decoder.
Arguments vars S : clear implicits.
Arguments DeflateDecoder S : clear implicits.

(** ** The limit holds for any zlib *)

Section Bounded.
Context {S : Type} `{ZlibBounds S} `{AllocBounds}.

Lemma raw_inflate_bounds s input k : 0 <= k ->
  match snd (raw_inflate s input k) with
  | Ok (_, consumed, produced) => 0 <= consumed <= len input /\ len produced <= k
  | Err _ => True
  end.
Proof.
  intros Hk. unfold raw_inflate. set (input' := upto _ _). set (k' := Z.min k u32_max).
  assert (Hk' : 0 <= k' <= k) by (unfold k', u32_max; lia).
  assert (Hi : len input' <= len input).
  { unfold input'. rewrite len_upto; [lia|]. pose proof (len_nonneg input). unfold u32_max. lia. }
  pose proof (zlib_bounds s input' k' ltac:(lia)) as Hb. destruct (zlib_inflate s input' k') as [[[s' status] consumed] produced].
  destruct Hb as [Hc Hp]. cbn. repeat destruct (_ =? _); cbn; try done; split; lia.
Qed.

(** The state of the loop between iterations. *)
Record loop_ok (max_size : Z) (input : bytes) (v : vars S) : Prop := {
  lo_in : 0 <= total_in v <= len input;
  lo_out : len (output v) <= max_size;
  lo_cap : len (output v) <= capacity v;
  lo_iter : 0 <= iterations v <= MAX_ITERATIONS
}.

Definition result_ok (max_size : Z) (r : run Error S bytes) : Prop :=
  match r with Done _ (Ok out) => len out <= max_size | Done _ (Err _) => True | _ => False end.

Lemma after_inflate_ok data_len max_size input at_limit offered (v : vars S) cap s status consumed produced :
  loop_ok max_size input v -> 0 <= consumed <= len (from (total_in v) input) ->
  len (output v) <= cap ->
  (at_limit = false -> len (output v) + len produced <= max_size /\ len (output v) + len produced <= cap) ->
  match after_inflate data_len (len input) at_limit offered v cap s status consumed produced with
  | inl v' => loop_ok max_size input v' /\ iterations v' = iterations v
  | inr r => result_ok max_size r
  end.
Proof.
  intros [Hin Hout Hcap Hit] Hc Hcap' Hp. rewrite len_from in Hc by lia. unfold after_inflate.
  set (out' := if at_limit then output v else output v ++ produced).
  assert (Hlen : len out' <= max_size /\ len out' <= cap).
  { unfold out'. destruct at_limit; [lia|]. specialize (Hp eq_refl). rewrite len_app. lia. }
  clearbody out'. destruct (at_limit && _); [done|]. case_bool_decide.
  { destruct (_ <=? _); cbn; [lia|]. split; [|done]. split; cbn; lia. }
  destruct (_ && _); [destruct (_ <? _); cbn; [done|lia]|]. destruct (_ && _); cbn; [lia|].
  split; [|done]. split; cbn; lia.
Qed.

Lemma decompress_step_ok data_len max_size input v : loop_ok max_size input v ->
  match decompress_step data_len max_size input v with
  | inl v' => loop_ok max_size input v' /\ iterations v' = iterations v + 1
  | inr r => result_ok max_size r
  end.
Proof.
  intros [Hin Hout Hcap Hit]. unfold decompress_step. cbn [iterations total_in output capacity zs].
  destruct (Z.ltb_spec MAX_ITERATIONS (iterations v + 1)); [done|]. zfalse (len input <? total_in v).
  set (v1 := MkVars _ _ _ _ _). assert (Hv1 : loop_ok max_size input v1) by (split; cbn; lia).
  destruct (Z.eqb_spec (len (output v)) max_size) as [Hlim|Hlim].
  - pose proof (raw_inflate_bounds (zs v) (from (total_in v) input) 1 ltac:(lia)) as Hb.
    destruct (raw_inflate _ _ _) as [s [[[status consumed] produced]|e]]; [|done]. cbn in Hb.
    apply (after_inflate_ok _ max_size input true 1 v1); try done; apply Hb.
  - zfalse (max_size <? len (output v)).
    set (cap := if _ =? _ then _ else _).
    assert (Hc : len (output v) <= cap).
    { unfold cap. destruct (_ =? _); [|done]. pose proof (alloc_reserve_ge (capacity v) (len (output v))
        (Z.min (Z.max (capacity v) 4096) (max_size - len (output v)))). lia. }
    set (offered := Z.min (Z.min (cap - len (output v)) (max_size - len (output v))) u32_max).
    assert (Ho : 0 <= offered <= cap - len (output v) /\ offered <= max_size - len (output v))
      by (unfold offered, u32_max; lia).
    pose proof (raw_inflate_bounds (zs v) (from (total_in v) input) offered ltac:(lia)) as Hb.
    destruct (raw_inflate _ _ _) as [s [[[status consumed] produced]|e]]; [|done]. cbn in Hb.
    apply (after_inflate_ok _ max_size input false offered v1); try done; cbn; lia.
Qed.

Lemma decompress_loop data_len max_size input fuel v : loop_ok max_size input v ->
  MAX_ITERATIONS - iterations v < Z.of_nat fuel ->
  result_ok max_size (loop_fuel fuel (decompress_step data_len max_size input) v).
Proof.
  revert v. induction fuel as [|fuel IH]; intros v Hv Hf; [destruct Hv; lia|]. cbn [loop_fuel].
  pose proof (decompress_step_ok data_len max_size input v Hv) as Hs.
  destruct (decompress_step _ _ _ v) as [v'|r]; [|done]. destruct Hs as [Hv' Hi]. apply IH; [done|lia].
Qed.

Lemma decompress_returns (d : DeflateDecoder S) data max_size : 0 <= max_size ->
  exists d' r, decompress d data max_size = Done d' r /\ (forall out, r = Ok out -> len out <= max_size).
Proof.
  intros Hm. unfold decompress, decompress_run.
  set (s := if no_context_takeover d then _ else _). set (v := MkVars _ _ _ _ _).
  assert (Hv : loop_ok max_size (data ++ DEFLATE_TRAILER) v).
  { split; cbn; try (unfold MAX_ITERATIONS; lia).
    - pose proof (len_nonneg (data ++ DEFLATE_TRAILER)). lia.
    - done.
    - pose proof (alloc_capacity_ge (initial_capacity (len data) max_size)). unfold initial_capacity in *.
      pose proof (len_nonneg data). change (len (@nil Z)) with 0. lia. }
  pose proof (decompress_loop (len data) max_size _ (Z.to_nat (MAX_ITERATIONS + 1)) v Hv) as Hr.
  destruct (loop_fuel _ _ v) as [s' r| |]; [|destruct Hr; unfold MAX_ITERATIONS; cbn; lia..].
  eexists _, _. split; [done|]. intros out ->. apply Hr. unfold MAX_ITERATIONS. cbn. lia.
Qed.

(** Whatever zlib answers within the buffers it is given, and whatever capacities the allocator
    returns, decompression ends without a panic after at most 100000 calls of [inflate], with an error or with at most
    [max_size] bytes: a message cannot expand beyond its limit. *)
Theorem decompress_bounded (d : DeflateDecoder S) data max_size : 0 <= max_size ->
  exists d' r, decompress d data max_size = Done d' r /\ (forall out, r = Ok out -> len out <= max_size).
Proof. apply decompress_returns. Qed.
End Bounded.

(** ** Exactly the decoded message *)

(** zlib's documented behaviour on a stream without errors and without a final block: [decodes s input out] when
    from [s] the [input] decodes to [out].  A call makes as much progress as possible: it stops short of
    filling its output only when it has consumed its input and nothing is pending. *)
Class ZlibDecodes (S : Type) `{Zlib S} := {
  decodes : S -> bytes -> bytes -> Prop;
  zlib_decodes s input out avail_out : decodes s input out -> 0 < avail_out ->
    exists s' status consumed produced rest, zlib_inflate s input avail_out = (s', status, consumed, produced) /\
      (status = Z_OK \/ status = Z_BUF_ERROR) /\ 0 <= consumed <= len input /\ len produced <= avail_out /\
      out = produced ++ rest /\ decodes s' (from consumed input) rest /\
      (len produced < avail_out -> consumed = len input /\ rest = [])
}.

Section Exact.
Context {S : Type} `{ZlibDecodes S} `{AllocBounds}.

Lemma raw_inflate_decodes s input out k : decodes s input out -> 0 < k <= u32_max -> len input <= u32_max ->
  exists s' status consumed produced rest, raw_inflate s input k = (s', Ok (status, consumed, produced)) /\
    status <> StatusStreamEnd /\ 0 <= consumed <= len input /\ len produced <= k /\
    out = produced ++ rest /\ decodes s' (from consumed input) rest /\
    (len produced < k -> consumed = len input /\ rest = []).
Proof.
  intros Hd Hk Hi. unfold raw_inflate. rewrite Z.min_l, upto_ge, (Z.min_l k) by lia.
  destruct (zlib_decodes s input out k Hd ltac:(lia)) as (s' & status & c & p & rest & -> & Hst & H').
  destruct Hst as [-> | ->]; cbn; by eexists _, _, _, _, _.
Qed.

(** What has been decoded so far, and how many iterations it can have taken: every one that goes round filled
    its buffer, and the buffer grows by 4096 bytes at least. *)
Record exact (max_size : Z) (input out : bytes) (v : vars S) : Prop := {
  ex_in : 0 <= total_in v <= len input;
  ex_rest : exists rest, out = output v ++ rest /\ decodes (zs v) (from (total_in v) input) rest;
  ex_out : len (output v) <= max_size;
  ex_iter :
    (iterations v = 0 /\ len (output v) = 0 /\ Z.min 1 max_size <= capacity v) \/
    (1 <= iterations v /\ len (output v) = capacity v /\ 4096 * (iterations v - 1) <= len (output v)) \/
    (1 <= iterations v /\ len (output v) = max_size /\ 4096 * (iterations v - 2) <= len (output v))
}.

(** The result the message should have. *)
Definition exact_result (max_size : Z) (out : bytes) (r : run Error S bytes) : Prop :=
  exists s, r = Done s (if len out <=? max_size then Ok out else Err MessageTooLarge) /\
    (len out <= max_size -> decodes s [] []).

(** More than fits: at the limit one more byte is enough to know. *)
Lemma limit_probe_exact data_len max_size input out v : exact max_size input out v -> len input <= u32_max ->
  iterations v < MAX_ITERATIONS -> len (output v) = max_size ->
  exists r, decompress_step data_len max_size input v = inr r /\ exact_result max_size out r.
Proof.
  intros [Hin (rest & -> & Hd) Hout _] Hi Hit Hlim. unfold decompress_step. cbn [iterations total_in output capacity zs].
  zfalse (MAX_ITERATIONS <? iterations v + 1). zfalse (len input <? total_in v). ztrue (len (output v) =? max_size).
  destruct (raw_inflate_decodes _ _ _ 1 Hd) as (s' & status & c & p & rest' & -> & Hst & Hc & Hp & -> & Hd' & Hshort);
    [unfold u32_max; lia|rewrite len_from by lia; lia|].
  rewrite len_from in Hc, Hshort by lia. unfold after_inflate. cbn [andb output total_in iterations].
  pose proof (len_nonneg rest'). destruct (Z.eqb_spec (len p) 0) as [Hp0|Hp0]; cbn [negb].
  - destruct Hshort as [-> ->]; [lia|]. apply len_0_nil in Hp0 as ->. rewrite bool_decide_eq_false_2 by done.
    rewrite app_nil_r. assert (E : from (len input - total_in v) (from (total_in v) input) = []).
    { rewrite from_ge; [done|]. rewrite len_from by lia. lia. }
    rewrite E in Hd'. change (len (@nil Z)) with 0.
    assert (Hres : exact_result max_size (output v) (Done s' (Ok (output v)))).
    { exists s'. by ztrue (len (output v) <=? max_size). }
    destruct (_ && _); [zfalse (total_in v + (len input - total_in v) <? len input); by eexists|].
    ztrue (len input <=? total_in v + (len input - total_in v)). cbn. by eexists.
  - eexists. split; [done|]. exists s'. rewrite !len_app. pose proof (len_nonneg p).
    zfalse (len (output v) + (len p + len rest') <=? max_size). split; [done|lia].
Qed.

(** Below the limit: done, or the offered buffer was filled. *)
Lemma fill_exact data_len max_size input out v : exact max_size input out v -> len input <= u32_max ->
  max_size <= u32_max -> iterations v < MAX_ITERATIONS -> len (output v) < max_size ->
  match decompress_step data_len max_size input v with
  | inl v' => exact max_size input out v' /\ iterations v' = iterations v + 1
  | inr r => exact_result max_size out r
  end.
Proof.
  intros [Hin (rest & -> & Hd) Hout Hiter] Hi Hm Hit Hlim. unfold decompress_step. cbn [iterations total_in output capacity zs].
  zfalse (MAX_ITERATIONS <? iterations v + 1). zfalse (len input <? total_in v).
  zfalse (len (output v) =? max_size). zfalse (max_size <? len (output v)).
  set (cap := if _ =? _ then _ else _). set (offered := Z.min (Z.min _ _) u32_max).
  pose proof (len_nonneg (output v)).
  assert (Hcap : offered = Z.min (cap - len (output v)) (max_size - len (output v)) /\ 0 < offered /\
    (1 <= iterations v -> len (output v) + Z.min 4096 (max_size - len (output v)) <= cap)).
  { assert (Hc : 0 < cap - len (output v) /\
      (1 <= iterations v -> len (output v) + Z.min 4096 (max_size - len (output v)) <= cap)).
    { unfold cap. pose proof (alloc_reserve_ge (capacity v) (len (output v))
        (Z.min (Z.max (capacity v) 4096) (max_size - len (output v)))).
      destruct (Z.eqb_spec (len (output v)) (capacity v)); lia. }
    unfold offered. unfold u32_max in *. lia. }
  destruct Hcap as (Hoff & Hoff0 & Hgrow).
  destruct (raw_inflate_decodes _ _ _ offered Hd) as (s' & status & c & p & rest' & -> & Hst & Hc & Hp & -> & Hd' & Hshort);
    [lia|rewrite len_from by lia; lia|].
  rewrite len_from in Hc, Hshort by lia. unfold after_inflate. cbn [andb output total_in iterations].
  rewrite bool_decide_eq_false_2 by done. rewrite from_from in Hd' by lia.
  destruct (Z.ltb_spec (len p) offered) as [Hlt|Hge].
  - destruct (Hshort Hlt) as [-> ->]. rewrite app_nil_r in *.
    rewrite from_ge in Hd' by lia.
    assert (Hres : exact_result max_size (output v ++ p) (Done s' (Ok (output v ++ p)))).
    { exists s'. rewrite len_app. by ztrue (len (output v) + len p <=? max_size). }
    destruct (_ && _); [by zfalse (total_in v + (len input - total_in v) <? len input)|].
    by ztrue (len input <=? total_in v + (len input - total_in v)).
  - zfalse (len p =? 0). rewrite !andb_false_r. split; [|done]. split; cbn [iterations total_in output capacity zs].
    + lia.
    + exists rest'. by rewrite <- app_assoc.
    + rewrite len_app. lia.
    + rewrite len_app. right. destruct (Z.lt_ge_cases cap max_size); [left|right]; lia.
Qed.

Lemma decompress_loop_exact data_len max_size input out fuel v : exact max_size input out v -> len input <= u32_max ->
  max_size <= 4096 * 99990 -> MAX_ITERATIONS - iterations v < Z.of_nat fuel ->
  exact_result max_size out (loop_fuel fuel (decompress_step data_len max_size input) v).
Proof.
  revert v. induction fuel as [|fuel IH]; intros v Hv Hi Hm Hf.
  { destruct Hv as [_ _ ? Hiter]. unfold MAX_ITERATIONS in *. lia. }
  cbn [loop_fuel].
  assert (Hit : iterations v < MAX_ITERATIONS) by (destruct Hv as [_ _ ? Hiter]; unfold MAX_ITERATIONS; lia).
  destruct (decide (len (output v) = max_size)) as [Hl|Hl].
  - destruct (limit_probe_exact data_len max_size input out v Hv Hi Hit Hl) as (r & -> & Hr). done.
  - pose proof (fill_exact data_len max_size input out v Hv Hi ltac:(unfold u32_max; lia) Hit) as Hs.
    destruct (decompress_step _ _ _ v) as [v'|r]; [|apply Hs; destruct Hv; lia].
    destruct Hs as [Hv' Hi']; [destruct Hv; lia|]. apply IH; [done..|lia].
Qed.

Lemma decompress_decodes (d : DeflateDecoder S) data max_size out :
  0 <= max_size <= 4096 * 99990 -> len data + 4 <= u32_max ->
  decodes (if no_context_takeover d then raw_reset false (decompress_state d) else decompress_state d)
    (data ++ DEFLATE_TRAILER) out ->
  exists s, decompress d data max_size =
      Done (MkDecoder s (no_context_takeover d)) (if len out <=? max_size then Ok out else Err MessageTooLarge) /\
    (len out <= max_size -> decodes s [] []).
Proof.
  intros Hm Hi Hd. unfold decompress, decompress_run.
  set (s := if no_context_takeover d then _ else _) in *. set (v := MkVars _ _ _ _ _).
  assert (Hv : exact max_size (data ++ DEFLATE_TRAILER) out v).
  { split; cbn [total_in output zs iterations capacity v].
    - pose proof (len_nonneg (data ++ DEFLATE_TRAILER)). lia.
    - by exists out.
    - change (len (@nil Z)) with 0. lia.
    - left. split; [done|]. split; [done|]. pose proof (alloc_capacity_ge (initial_capacity (len data) max_size)).
      unfold initial_capacity in *. pose proof (len_nonneg data). lia. }
  destruct (decompress_loop_exact (len data) max_size _ out (Z.to_nat (MAX_ITERATIONS + 1)) v Hv) as (s' & -> & Hs').
  - rewrite len_app. unfold DEFLATE_TRAILER. change (len [_; _; _; _]) with 4. lia.
  - lia.
  - unfold MAX_ITERATIONS. cbn [iterations v]. lia.
  - by exists s'.
Qed.

(** For a message whose compressed bytes zlib decodes to [out], within the sizes the C interface can hold and a limit of at
    most 400 MB, decompression returns exactly [out] when it fits the limit and [MessageTooLarge] when it does not,
    whatever capacities the allocator returns; the bound on iterations is not reached, and the decoder is left ready for
    the next message. *)
Theorem decompress_exact (d : DeflateDecoder S) data max_size out :
  0 <= max_size <= 4096 * 99990 -> len data + 4 <= u32_max ->
  decodes (if no_context_takeover d then raw_reset false (decompress_state d) else decompress_state d)
    (data ++ DEFLATE_TRAILER) out ->
  exists s, decompress d data max_size =
      Done (MkDecoder s (no_context_takeover d)) (if len out <=? max_size then Ok out else Err MessageTooLarge) /\
    (len out <= max_size -> decodes s [] []).
Proof. apply decompress_decodes. Qed.
End Exact.

(** ** A decoder that copies *)

#[export] Instance copy_zlib : Zlib unit := {
  zlib_inflate s input k := let n := Z.min (len input) k in (s, Z_OK, n, upto n input);
  zlib_reset _ s := s
}.

Lemma copy_bounds : ZlibBounds unit.
Proof.
  intros s input k Hk. cbn. pose proof (len_nonneg input). rewrite len_upto by lia. lia.
Qed.

#[export] Instance copy_decodes : ZlibDecodes unit.
Proof.
  refine {| decodes _ input out := out = input |}. intros s input out k -> Hk. pose proof (len_nonneg input).
  eexists _, _, _, _, (from (Z.min (len input) k) input). split; [done|]. rewrite len_upto by lia.
  split; [by left|]. split; [lia|]. split; [lia|]. split; [by rewrite upto_from|]. split; [done|].
  intros Hlt. rewrite Z.min_l by lia. split; [done|]. by apply from_ge.
Defined.

(** The capacities asked for, exactly. *)
#[export] Instance exact_alloc : Alloc := { alloc_capacity n := n; alloc_reserve c l a := l + a }.
#[export] Instance exact_alloc_bounds : AllocBounds.
Proof. by split. Qed.

Lemma decompress_bounded_witness :
  exists d' r, decompress (MkDecoder tt true) [1; 2; 3] 6 = Done d' r /\ (forall out, r = Ok out -> len out <= 6).
Proof. apply (decompress_bounded (H0 := copy_bounds) (MkDecoder tt true) [1; 2; 3] 6). lia. Defined.

(** Seven bytes fit a limit of seven and not one of six. *)
Lemma decompress_exact_witness :
  (exists s, decompress (MkDecoder tt true) [1; 2; 3] 7 = Done (MkDecoder s true) (Ok [1; 2; 3; 0; 0; 255; 255])) /\
  (exists s, decompress (MkDecoder tt true) [1; 2; 3] 6 = Done (MkDecoder s true) (Err MessageTooLarge)).
Proof.
  split.
  - destruct (decompress_exact (MkDecoder tt true) [1; 2; 3] 7 [1; 2; 3; 0; 0; 255; 255]) as (s & E & _);
      [lia|vm_compute; discriminate|reflexivity|]. exists s. exact E.
  - destruct (decompress_exact (MkDecoder tt true) [1; 2; 3] 6 [1; 2; 3; 0; 0; 255; 255]) as (s & E & _);
      [lia|vm_compute; discriminate|reflexivity|]. exists s. exact E.
Defined.
