(* ===== verification/Queue.v ===== *)
(** * Lock-free queues (src/src/queue.rs)

    Both ring buffers are modelled as interleavings of the atomic accesses of
    their threads: one step is one load, store or compare-exchange of a shared counter, or
    one access of a slot, together with the local computation that follows it.  The accesses are interleaved
    sequentially; that a slot's contents are visible where a counter or a sequence number says so is what the acquire and release orderings
    of the code provide.

    The single-producer queue is linearizable to a bounded queue for any number of operations, the counters
    wrapping at 64 bits.  The multi-producer queue hands out tickets: the item a consumer
    gets is the one its ticket was claimed for, every ticket is used once. *)

From stdpp Require Import base list option.
From Stdlib Require Import Lia.
From S2P Require Import Prelude.

Section Ring.
Context {T : Type}.

(** [N = 2 ^ k], as [ASSERT_POWER_OF_TWO] requires. *)
Variable k : Z.
Definition N : Z := 2 ^ k.
(** [head & Self::mask()] *)
Definition mask : Z := N - 1.
Definition index (counter : Z) : nat := Z.to_nat (Z.land counter mask).
Definition wrapping_add (a b : Z) : Z := wrap 64 (a + b).
Definition wrapping_sub (a b : Z) : Z := wrap 64 (a - b).

(** ** One producer, one consumer *)

Record SpscQueue := MkSpsc { head : Z; tail : Z; buffer : list (option T) }.

Definition spsc_new : SpscQueue := MkSpsc 0 0 (replicate (Z.to_nat N) None).

(** Where [try_push] and [try_pop] stand between two accesses. *)
Inductive ProducerPc :=
  | PIdle
  | PLoadHead (item : T)
  | PLoadTail (item : T) (head : Z)
  | PWrite (item : T) (head : Z)
  | PStoreHead (item : T) (head : Z).

Inductive ConsumerPc :=
  | CIdle
  | CLoadTail
  | CLoadHead (tail : Z)
  | CRead (tail : Z)
  | CStoreTail (tail : Z) (item : T).

(** What an operation returned. *)
Inductive QueueEvent :=
  | Pushed (item : T)
  | Full (item : T)
  | Popped (item : T)
  | Empty.

(** [try_push]; [None] when a slot is accessed out of range. *)
Definition spsc_push_step (q : SpscQueue) (pc : ProducerPc) : option (SpscQueue * ProducerPc * list QueueEvent) :=
  match pc with
  | PIdle => None
  | PLoadHead item => Some (q, PLoadTail item (head q), [])
  | PLoadTail item h =>
      if N <=? wrapping_sub h (tail q) then Some (q, PIdle, [Full item]) else Some (q, PWrite item h, [])
  | PWrite item h =>
      if decide (index h < length (buffer q))%nat
      then Some (MkSpsc (head q) (tail q) (<[index h := Some item]> (buffer q)), PStoreHead item h, [])
      else None
  | PStoreHead item h => Some (MkSpsc (wrapping_add h 1) (tail q) (buffer q), PIdle, [Pushed item])
  end.

(** [try_pop]; [None] also when a slot that holds no item is read. *)
Definition spsc_pop_step (q : SpscQueue) (pc : ConsumerPc) : option (SpscQueue * ConsumerPc * list QueueEvent) :=
  match pc with
  | CIdle => None
  | CLoadTail => Some (q, CLoadHead (tail q), [])
  | CLoadHead t => if t =? head q then Some (q, CIdle, [Empty]) else Some (q, CRead t, [])
  | CRead t => item ← mjoin (buffer q !! index t); Some (q, CStoreTail t item, [])
  | CStoreTail t item => Some (MkSpsc (head q) (wrapping_add t 1) (buffer q), CIdle, [Popped item])
  end.

(** [is_empty] and [len], each of whose two loads is a step of its own; here for a thread that runs alone. *)
Definition spsc_is_empty (q : SpscQueue) : bool := tail q =? head q.
Definition spsc_len (q : SpscQueue) : Z := wrapping_sub (head q) (tail q).
Definition capacity : Z := N.

(** [try_pop] of a thread that runs alone, from its call to its return. *)
Fixpoint spsc_pop_alone (fuel : nat) (q : SpscQueue) (pc : ConsumerPc) : option (SpscQueue * option T) :=
  match fuel with
  | O => None
  | S fuel =>
      '(q, pc, ev) ← spsc_pop_step q pc;
      match ev with
      | [Popped x] => Some (q, Some x)
      | [Empty] => Some (q, None)
      | _ => spsc_pop_alone fuel q pc
      end
  end.
Definition spsc_try_pop (q : SpscQueue) : option (SpscQueue * option T) := spsc_pop_alone 4 q CLoadTail.

(** [drop]: the items that [while self.try_pop().is_some() {}] drops. *)
Fixpoint spsc_drop (fuel : nat) (q : SpscQueue) : option (list T) :=
  match fuel with
  | O => None
  | S fuel =>
      '(q, r) ← spsc_try_pop q;
      match r with Some x => xs ← spsc_drop fuel q; Some (x :: xs) | None => Some [] end
  end.

(** The schedule: which thread takes its next step, or calls an operation. *)
Inductive SpscAction := CallPush (item : T) | StepProducer | CallPop | StepConsumer.

Record SpscState := MkSpscState { queue : SpscQueue; producer : ProducerPc; consumer : ConsumerPc }.

(** An action of a thread that cannot take it changes nothing. *)
Definition spsc_step (s : SpscState) (a : SpscAction) : option (SpscState * list QueueEvent) :=
  match a, producer s, consumer s with
  | CallPush item, PIdle, c => Some (MkSpscState (queue s) (PLoadHead item) c, [])
  | StepProducer, PIdle, _ => Some (s, [])
  | StepProducer, pc, c =>
      '(q, pc, ev) ← spsc_push_step (queue s) pc; Some (MkSpscState q pc c, ev)
  | CallPop, p, CIdle => Some (MkSpscState (queue s) p CLoadTail, [])
  | StepConsumer, _, CIdle => Some (s, [])
  | StepConsumer, p, pc =>
      '(q, pc, ev) ← spsc_pop_step (queue s) pc; Some (MkSpscState q p pc, ev)
  | _, _, _ => Some (s, [])
  end.

Fixpoint spsc_run (s : SpscState) (l : list SpscAction) : option (SpscState * list QueueEvent) :=
  match l with
  | [] => Some (s, [])
  | a :: l => '(s1, ev) ← spsc_step s a; '(s2, evs) ← spsc_run s1 l; Some (s2, ev ++ evs)
  end.

Definition spsc_start : SpscState := MkSpscState spsc_new PIdle CIdle.

(** *** A bounded queue *)

Definition bounded_step (q : list T) (e : QueueEvent) (q' : list T) : Prop :=
  match e with
  | Pushed x => len q < N /\ q' = q ++ [x]
  | Full _ => len q = N /\ q' = q
  | Popped x => q = x :: q'
  | Empty => q = [] /\ q' = q
  end.

Inductive bounded_run : list T -> list QueueEvent -> list T -> Prop :=
  | bounded_nil q : bounded_run q [] q
  | bounded_cons q e q1 es q2 : bounded_step q e q1 -> bounded_run q1 es q2 -> bounded_run q (e :: es) q2.

(** *** Counters and slots *)

Hypothesis k_range : 0 <= k <= 62.

Lemma N_pos : 0 < N.
Proof. unfold N. apply Z.pow_pos_nonneg; lia. Qed.

Lemma N_bound : 2 * N <= 2 ^ 63.
Proof. unfold N. change (2 * 2 ^ k) with (2 ^ 1 * 2 ^ k). rewrite <- Z.pow_add_r by lia. apply Z.pow_le_mono_r; lia. Qed.

Lemma index_mod v : index (wrap 64 v) = Z.to_nat (v mod N).
Proof.
  unfold index, mask, wrap. f_equal. unfold N.
  replace (2 ^ k - 1) with (Z.ones k) by (rewrite Z.ones_equiv; lia). rewrite Z.land_ones by lia.
  replace (2 ^ 64) with (2 ^ k * 2 ^ (64 - k)) by (rewrite <- Z.pow_add_r by lia; f_equal; lia).
  pose proof (Z.pow_pos_nonneg 2 k ltac:(lia) ltac:(lia)). pose proof (Z.pow_pos_nonneg 2 (64 - k) ltac:(lia) ltac:(lia)).
  rewrite Z.rem_mul_r by lia.
  by rewrite (Z.mul_comm (2 ^ k)), Z.mod_add, Z.mod_mod by lia.
Qed.

Lemma wrap_add v : wrapping_add (wrap 64 v) 1 = wrap 64 (v + 1).
Proof. unfold wrapping_add, wrap. by rewrite Z.add_mod_idemp_l. Qed.

Lemma wrap_sub a b : 0 <= a - b < 2 ^ 64 -> wrapping_sub (wrap 64 a) (wrap 64 b) = a - b.
Proof. intros. unfold wrapping_sub, wrap. rewrite <- Zminus_mod. by apply Z.mod_small. Qed.

Lemma wrap_inj a b : 0 <= a - b < 2 ^ 64 -> wrap 64 b = wrap 64 a -> a = b.
Proof.
  intros H E. pose proof (wrap_sub a b H) as Hs. rewrite E in Hs. unfold wrapping_sub, wrap in Hs.
  rewrite Z.sub_diag, Zmod_0_l in Hs. lia.
Qed.

(** The slot of a position. *)
Definition slot (p : Z) : nat := Z.to_nat (p mod N).

Lemma slot_lt p : (slot p < Z.to_nat N)%nat.
Proof. unfold slot. pose proof N_pos. pose proof (Z.mod_pos_bound p N ltac:(lia)). lia. Qed.

Lemma slot_eq p q : slot p = slot q <-> p mod N = q mod N.
Proof.
  unfold slot. pose proof N_pos. pose proof (Z.mod_pos_bound p N ltac:(lia)). pose proof (Z.mod_pos_bound q N ltac:(lia)).
  lia.
Qed.

(** Positions closer than [N] have different slots. *)
Lemma slot_near p q : slot p = slot q -> p - q < N -> q - p < N -> p = q.
Proof.
  rewrite slot_eq. intros E H1 H2. pose proof N_pos.
  pose proof (Z.div_mod p N ltac:(lia)). pose proof (Z.div_mod q N ltac:(lia)).
  rewrite E in *. assert (Hd : N * (p / N - q / N) < N /\ N * (q / N - p / N) < N) by lia.
  assert (p / N = q / N) by nia. congruence.
Qed.

(** *** The invariant: [H] and [L] count the pushes and pops *)

Record spsc_inv (s : SpscState) (H L : Z) (q : list T) : Prop := {
  si_head : head (queue s) = wrap 64 H;
  si_tail : tail (queue s) = wrap 64 L;
  si_length : length (buffer (queue s)) = Z.to_nat N;
  si_count : len q = H - L;
  si_full : H <= L + N;
  si_items i x : q !! i = Some x -> buffer (queue s) !! slot (L + Z.of_nat i) = Some (Some x);
  si_producer : match producer s with
    | PIdle | PLoadHead _ => True
    | PLoadTail _ h => h = wrap 64 H
    | PWrite _ h => h = wrap 64 H /\ H < L + N
    | PStoreHead x h => h = wrap 64 H /\ H < L + N /\ buffer (queue s) !! slot H = Some (Some x)
    end;
  si_consumer : match consumer s with
    | CIdle | CLoadTail => True
    | CLoadHead t => t = wrap 64 L
    | CRead t => t = wrap 64 L /\ L < H
    | CStoreTail t x => t = wrap 64 L /\ q !! 0%nat = Some x
    end
}.

Lemma spsc_inv_new : spsc_inv spsc_start 0 0 [].
Proof.
  pose proof N_pos. split; cbn; try done; [by rewrite length_replicate|lia].
Qed.

(** The outcome of a step: the invariant for the new counts, and the events as steps of the bounded queue. *)
Definition spsc_post (q : list T) (r : option (SpscState * list QueueEvent)) : Prop :=
  exists s' ev H L q', r = Some (s', ev) /\ spsc_inv s' H L q' /\ bounded_run q ev q'.

Lemma spsc_post_quiet q s' H L : spsc_inv s' H L q -> spsc_post q (Some (s', [])).
Proof. intros. eexists _, _, H, L, q. split; [done|]. split; [done|constructor]. Qed.

Lemma spsc_post_event q s' e H L q' : bounded_step q e q' -> spsc_inv s' H L q' -> spsc_post q (Some (s', [e])).
Proof. intros. eexists _, _, H, L, q'. split; [done|]. split; [done|]. by econstructor; [|constructor]. Qed.

Lemma producer_step_ok s H L q : spsc_inv s H L q -> spsc_post q (spsc_step s StepProducer).
Proof.
  destruct s as [[hd tl buf] p c]. intros [Hh Ht Hlen Hc Hf Hi Hp Hcons]. cbn in *. subst hd tl.
  pose proof (len_nonneg q). pose proof N_bound. pose proof N_pos.
  destruct p as [|x|x h|x h|x h]; cbn.
  - by apply (spsc_post_quiet q _ H L).
  - by apply (spsc_post_quiet q _ H L).
  - subst h. rewrite wrap_sub by lia. destruct (Z.leb_spec N (H - L)).
    + apply (spsc_post_event q _ _ H L q); [by split; [lia|]|done].
    + apply (spsc_post_quiet q _ H L). split; cbn; try done. split; [done|lia].
  - destruct Hp as [-> Hlt]. rewrite index_mod. fold (slot H). rewrite Hlen, decide_True by apply slot_lt. cbn.
    apply (spsc_post_quiet q _ H L). split; cbn; try done; [by rewrite length_insert| |].
    + intros i y Hy. rewrite list_lookup_insert_ne; [by apply Hi|]. intros E.
      apply lookup_lt_Some in Hy as Hl. unfold len in Hc. apply slot_near in E; lia.
    + split; [done|]. split; [done|]. apply list_lookup_insert_eq. rewrite Hlen. apply slot_lt.
  - destruct Hp as (-> & Hlt & Hx). rewrite wrap_add. apply (spsc_post_event q _ _ (H + 1) L (q ++ [x])).
    + split; [lia|done].
    + split; cbn; try done; [rewrite len_app; change (len [x]) with 1; lia|lia| |].
      * intros i y Hy. apply lookup_app_Some in Hy as [Hy|[Hle Hy]]; [by apply Hi|].
        apply list_lookup_singleton_Some in Hy as [Hz <-]. replace (L + Z.of_nat i) with H; [done|]. unfold len in Hc. lia.
      * destruct c as [| |t|t|t y]; try done; [by destruct Hcons; split; [|lia]|].
        destruct Hcons as [-> Hy]. split; [done|]. by apply lookup_app_l_Some.
Qed.

Lemma consumer_step_ok s H L q : spsc_inv s H L q -> spsc_post q (spsc_step s StepConsumer).
Proof.
  destruct s as [[hd tl buf] p c]. intros [Hh Ht Hlen Hc Hf Hi Hp Hcons].
  cbn in Hh, Ht, Hlen, Hi, Hp, Hcons. subst hd tl.
  pose proof (len_nonneg q). pose proof N_bound. pose proof N_pos.
  assert (E : spsc_step (MkSpscState (MkSpsc (wrap 64 H) (wrap 64 L) buf) p c) StepConsumer =
    match c with
    | CIdle => Some (MkSpscState (MkSpsc (wrap 64 H) (wrap 64 L) buf) p c, [])
    | pc => '(q, pc, ev) ← spsc_pop_step (MkSpsc (wrap 64 H) (wrap 64 L) buf) pc; Some (MkSpscState q p pc, ev)
    end) by by destruct p, c.
  rewrite E. clear E. destruct c as [| |t|t|t x]; cbn.
  - by apply (spsc_post_quiet q _ H L).
  - by apply (spsc_post_quiet q _ H L).
  - subst t. destruct (Z.eqb_spec (wrap 64 L) (wrap 64 H)) as [E|E].
    + apply wrap_inj in E; [|lia]. apply (spsc_post_event q _ _ H L q); [|done]. split; [|done]. apply len_0_nil. lia.
    + apply (spsc_post_quiet q _ H L). split; cbn; try done. split; [done|].
      destruct (Z.eq_dec L H) as [->|]; [done|lia].
  - destruct Hcons as [-> Hlt]. destruct q as [|x q]; [change (len (@nil T)) with 0 in Hc; lia|].
    rewrite index_mod. pose proof (Hi 0%nat x eq_refl) as Hx. rewrite Z.add_0_r in Hx. unfold slot in Hx. rewrite Hx. cbn.
    by apply (spsc_post_quiet (x :: q) _ H L).
  - destruct Hcons as [-> Hx]. destruct q as [|y q]; [done|]. injection Hx as ->. rewrite wrap_add. rewrite len_cons in Hc.
    apply (spsc_post_event (x :: q) _ _ H (L + 1) q); [done|]. split; cbn; try done; [lia|lia| |].
    + intros i y Hy. rewrite <- (Hi (S i) y Hy). do 2 f_equal. lia.
    + destruct p as [|z|z h|z h|z h]; try done; [by destruct Hp; split; [|lia]|].
      destruct Hp as (? & ? & ?). by split_and!; [|lia|].
Qed.

Lemma spsc_step_ok s H L q a : spsc_inv s H L q -> spsc_post q (spsc_step s a).
Proof.
  intros Hs. destruct a as [x| | |]; [|by eapply producer_step_ok| |by eapply consumer_step_ok].
  - unfold spsc_step. destruct (producer s) eqn:Ep; try (by apply (spsc_post_quiet q _ H L)).
    apply (spsc_post_quiet q _ H L). by destruct Hs; split.
  - unfold spsc_step. destruct (producer s) eqn:Ep, (consumer s) eqn:Ec; try (by apply (spsc_post_quiet q _ H L));
      apply (spsc_post_quiet q _ H L); destruct Hs as [? ? ? ? ? ? Hp Hcons]; split; cbn; try done; by rewrite Ep in Hp.
Qed.

Lemma bounded_app q es q1 es' q2 : bounded_run q es q1 -> bounded_run q1 es' q2 -> bounded_run q (es ++ es') q2.
Proof. induction 1; cbn; [done|]. intros. by econstructor; [|auto]. Qed.

Lemma spsc_run_ok s H L q l : spsc_inv s H L q -> spsc_post q (spsc_run s l).
Proof.
  revert s H L q. induction l as [|a l IH]; intros s H L q Hs; cbn; [by apply (spsc_post_quiet q _ H L)|].
  destruct (spsc_step_ok s H L q a Hs) as (s1 & ev & H1 & L1 & q1 & -> & Hs1 & Hb1). cbn.
  destruct (IH s1 H1 L1 q1 Hs1) as (s2 & evs & H2 & L2 & q2 & -> & Hs2 & Hb2). cbn.
  eexists _, _, H2, L2, q2. split; [done|]. split; [done|]. by eapply bounded_app.
Qed.

(** The producer is about to write a slot that the consumer is about to read. *)
Definition spsc_race (s : SpscState) : Prop :=
  match producer s, consumer s with PWrite _ h, CRead t => index h = index t | _, _ => False end.

Lemma spsc_no_race s H L q : spsc_inv s H L q -> ~ spsc_race s.
Proof.
  intros [_ _ _ Hc Hf _ Hp Hcons]. unfold spsc_race. destruct (producer s) as [| | |x h|]; try tauto.
  destruct (consumer s) as [| | |t|]; try tauto. destruct Hp as [-> ?], Hcons as [-> ?]. rewrite !index_mod. fold (slot H) (slot L).
  intros E. pose proof N_pos. apply slot_near in E; lia.
Qed.

Lemma spsc_len_inv s H L q : spsc_inv s H L q -> spsc_len (queue s) = len q.
Proof.
  intros [Hh Ht _ Hc Hf _ _ _]. unfold spsc_len. rewrite Hh, Ht, wrap_sub; [lia|].
  pose proof (len_nonneg q). pose proof N_bound. lia.
Qed.

Lemma spsc_is_empty_inv s H L q : spsc_inv s H L q -> spsc_is_empty (queue s) = (len q =? 0).
Proof.
  intros [Hh Ht _ Hc Hf _ _ _]. unfold spsc_is_empty. rewrite Hh, Ht, Hc.
  destruct (Z.eqb_spec (wrap 64 L) (wrap 64 H)) as [E|E].
  - pose proof (len_nonneg q). pose proof N_bound. apply wrap_inj in E; [|lia]. subst. symmetry. lia.
  - symmetry. apply Z.eqb_neq. intros ?. apply E. f_equal. lia.
Qed.

(** A call of [try_pop] alone takes the oldest item. *)
Lemma spsc_try_pop_ok s H L q : spsc_inv s H L q ->
  match q with
  | [] => spsc_try_pop (queue s) = Some (queue s, None)
  | x :: q' => exists q1, spsc_try_pop (queue s) = Some (q1, Some x) /\
      spsc_inv (MkSpscState q1 (producer s) CIdle) H (L + 1) q'
  end.
Proof.
  intros Hs. destruct s as [[hd tl buf] p c]. cbn [queue producer]. destruct Hs as [Hh Ht Hlen Hc Hf Hi Hp _].
  cbn in Hh, Ht, Hlen, Hi, Hp. subst hd tl. pose proof (len_nonneg q). pose proof N_bound.
  unfold spsc_try_pop. cbn. destruct q as [|x q].
  - change (len (@nil T)) with 0 in Hc. replace H with L by lia. by rewrite Z.eqb_refl.
  - rewrite len_cons in Hc. destruct (Z.eqb_spec (wrap 64 L) (wrap 64 H)) as [E|E].
    { apply wrap_inj in E; [|pose proof (len_nonneg q); lia]. pose proof (len_nonneg q). lia. }
    cbn. rewrite index_mod. pose proof (Hi 0%nat x eq_refl) as Hx. rewrite Z.add_0_r in Hx. unfold slot in Hx. rewrite Hx. cbn.
    rewrite wrap_add. eexists. split; [done|]. split; cbn; try done; [lia|lia| |].
    + intros i y Hy. rewrite <- (Hi (S i) y Hy). do 2 f_equal. lia.
    + destruct p as [|z|z h|z h|z h]; try done; [by destruct Hp; split; [|lia]|].
      destruct Hp as (? & ? & ?). by split_and!; [|lia|].
Qed.

Lemma spsc_drop_ok q : forall s H L fuel, spsc_inv s H L q -> (length q < fuel)%nat -> spsc_drop fuel (queue s) = Some q.
Proof.
  induction q as [|x q IH]; intros s H L [|fuel] Hs Hl; cbn in Hl; try lia; pose proof (spsc_try_pop_ok s H L _ Hs) as Hp; cbn [spsc_drop].
  - by rewrite Hp.
  - destruct Hp as (q1 & -> & Hs'). cbn. pose proof (IH (MkSpscState q1 (producer s) CIdle) H (L + 1) fuel Hs' ltac:(lia)) as E. cbn in E. by rewrite E.
Qed.

(** [C37] For every capacity [2^k] up to [2^62] and every interleaving of the accesses of a producer and a
    consumer, however long (the counters wrap), no access is out of range and no uninitialised slot is read; the
    results, in the order of the linearization points, are those of a FIFO queue of capacity [N] ([try_push]
    fails exactly when it holds [N] items, [try_pop] exactly when it holds none); [len] and [is_empty] tell
    its size; the two threads are never about to access one slot; and [drop] drops its items, each once. *)
Theorem spsc_linearizable l : exists s evs q,
  spsc_run spsc_start l = Some (s, evs) /\ bounded_run [] evs q /\
  spsc_len (queue s) = len q /\ spsc_is_empty (queue s) = (len q =? 0) /\ ~ spsc_race s /\
  spsc_drop (S (Z.to_nat N)) (queue s) = Some q.
Proof.
  destruct (spsc_run_ok _ _ _ _ l spsc_inv_new) as (s & ev & H & L & q & E & Hs & Hb).
  exists s, ev, q. split_and!; try done.
  - by eapply spsc_len_inv.
  - by eapply spsc_is_empty_inv.
  - by eapply spsc_no_race.
  - eapply spsc_drop_ok; [done|]. destruct Hs as [_ _ _ Hc Hf _ _ _]. unfold len in Hc. pose proof N_pos. lia.
Qed.
End Ring.

Lemma spsc_linearizable_witness :
  let l := [CallPush 7; StepProducer; StepProducer; CallPop; StepConsumer; StepProducer; StepProducer; StepConsumer;
            CallPush 8; StepProducer; StepConsumer; StepProducer; StepConsumer; CallPop; StepConsumer] in
  option_map snd (spsc_run 0 (spsc_start 0) l) = Some [Pushed 7; Full 8; Popped 7] /\
  exists s evs q, spsc_run 0 (spsc_start 0) l = Some (s, evs) /\ bounded_run 0 [] evs q /\
    spsc_len (queue s) = len q /\ spsc_is_empty (queue s) = (len q =? 0) /\ ~ spsc_race 0 s /\
    spsc_drop 0 (S (Z.to_nat (N 0))) (queue s) = Some q.
Proof. split; [reflexivity|]. apply (spsc_linearizable 0). lia. Defined.

