(* ===== verification/Mpmc.v ===== *)
(** * The multi-producer multi-consumer queue (src/src/queue.rs, [MpmcQueue])

    Any number of threads call [try_push] and [try_pop]; one step of a thread is one atomic access of a counter or of
    a sequence number, or one access of a slot, with the local computation that follows it.  The specification hands
    out tickets: the compare-exchange of [head] claims the next ticket for an item, the one of [tail] takes the oldest ticket, and
    the consumer that took a ticket returns the item claimed for it.  A refusal is exact when no operation is
    in progress; otherwise it may be due to a ticket claimed and not yet published, or taken and not yet released. *)

From stdpp Require Import base list option gmap sets.
From Stdlib Require Import Lia.
From S2P Require Import Prelude Queue.

Section Mpmc.
Context {T : Type}.
Variable k : Z.

Record MpmcQueue := MkMpmc { m_head : Z; m_tail : Z; sequences : list Z; m_buffer : list (option T) }.

(** [std::array::from_fn(AtomicUsize::new)]: sequence [i] starts at [i]. *)
Definition mpmc_new : MpmcQueue :=
  MkMpmc 0 0 (seqZ 0 (N k)) (replicate (Z.to_nat (N k)) None).

(** Where an operation of a thread stands between two accesses. *)
Inductive MpmcPc :=
  | MIdle
  | PushLoad (item : T)
  | PushSeq (item : T) (head : Z)
  | PushCas (item : T) (head : Z)
  | PushWrite (item : T) (head : Z)
  | PushStore (item : T) (head : Z)
  | PopLoad
  | PopSeq (tail : Z)
  | PopCas (tail : Z)
  | PopRead (tail : Z)
  | PopStore (tail : Z) (item : T).

(** The successful compare-exchanges and the returns. *)
Inductive MpmcEvent :=
  | Claimed (ticket : Z) (item : T)
  | Published (ticket : Z)
  | PushFull (item : T)
  | Taken (ticket : Z)
  | Returned (ticket : Z) (item : T)
  | PopEmpty.

(** [seq as isize - x as isize]; [None] for an overflow of the subtraction. *)
Definition as_isize (v : Z) : Z := if v <? 2 ^ 63 then v else v - 2 ^ 64.
Definition isize_diff (a b : Z) : option Z :=
  let d := as_isize a - as_isize b in
  if (- 2 ^ 63 <=? d) && (d <? 2 ^ 63) then Some d else None.

(** [compare_exchange(current, new)] of a counter: the value to store, or the one found. *)
Definition compare_exchange (counter current new : Z) : Z + Z :=
  if counter =? current then inl new else inr counter.

(** [try_push] and [try_pop], one access at a time; [None] for a slot out of range, an item that is not there or an
    overflow. *)
Definition mpmc_thread_step (q : MpmcQueue) (pc : MpmcPc) : option (MpmcQueue * MpmcPc * list MpmcEvent) :=
  match pc with
  | MIdle => None
  | PushLoad x => Some (q, PushSeq x (m_head q), [])
  | PushSeq x h =>
      seq ← sequences q !! index k h;
      diff ← isize_diff seq h;
      if diff =? 0 then Some (q, PushCas x h, [])
      else if diff <? 0 then Some (q, MIdle, [PushFull x])
      else Some (q, PushLoad x, [])
  | PushCas x h =>
      match compare_exchange (m_head q) h (wrapping_add h 1) with
      | inl h' => Some (MkMpmc h' (m_tail q) (sequences q) (m_buffer q), PushWrite x h, [Claimed h x])
      | inr h' => Some (q, PushSeq x h', [])
      end
  | PushWrite x h =>
      if decide (index k h < length (m_buffer q))%nat
      then Some (MkMpmc (m_head q) (m_tail q) (sequences q) (<[index k h := Some x]> (m_buffer q)), PushStore x h, [])
      else None
  | PushStore x h =>
      if decide (index k h < length (sequences q))%nat
      then Some (MkMpmc (m_head q) (m_tail q) (<[index k h := wrapping_add h 1]> (sequences q)) (m_buffer q), MIdle,
                 [Published h])
      else None
  | PopLoad => Some (q, PopSeq (m_tail q), [])
  | PopSeq t =>
      seq ← sequences q !! index k t;
      diff ← isize_diff seq (wrapping_add t 1);
      if diff =? 0 then Some (q, PopCas t, [])
      else if diff <? 0 then Some (q, MIdle, [PopEmpty])
      else Some (q, PopLoad, [])
  | PopCas t =>
      match compare_exchange (m_tail q) t (wrapping_add t 1) with
      | inl t' => Some (MkMpmc (m_head q) t' (sequences q) (m_buffer q), PopRead t, [Taken t])
      | inr t' => Some (q, PopSeq t', [])
      end
  | PopRead t => x ← mjoin (m_buffer q !! index k t); Some (q, PopStore t x, [])
  | PopStore t x =>
      if decide (index k t < length (sequences q))%nat
      then Some (MkMpmc (m_head q) (m_tail q) (<[index k t := wrapping_add t (N k)]> (sequences q)) (m_buffer q), MIdle,
                 [Returned t x])
      else None
  end.

(** [is_empty] and [len], for a thread that runs alone. *)
Definition mpmc_is_empty (q : MpmcQueue) : bool := m_tail q =? m_head q.
Definition mpmc_len (q : MpmcQueue) : Z := wrapping_sub (m_head q) (m_tail q).

(** [try_pop] of a thread that runs alone, from its call to its return. *)
Fixpoint mpmc_pop_alone (fuel : nat) (q : MpmcQueue) (pc : MpmcPc) : option (MpmcQueue * option T) :=
  match fuel with
  | O => None
  | S fuel =>
      '(q, pc, ev) ← mpmc_thread_step q pc;
      match ev with
      | [Returned _ x] => Some (q, Some x)
      | [PopEmpty] => Some (q, None)
      | _ => mpmc_pop_alone fuel q pc
      end
  end.
(** [drop]: the items that [while self.try_pop().is_some() {}] drops. *)
Fixpoint mpmc_drop (fuel : nat) (q : MpmcQueue) : option (list T) :=
  match fuel with
  | O => None
  | S fuel =>
      '(q, r) ← mpmc_pop_alone 6 q PopLoad;
      match r with Some x => xs ← mpmc_drop fuel q; Some (x :: xs) | None => Some [] end
  end.

(** The schedule. *)
Inductive MpmcAction := MCallPush (tid : nat) (item : T) | MCallPop (tid : nat) | MStep (tid : nat).
Record MpmcState := MkMpmcState { m_queue : MpmcQueue; threads : list MpmcPc }.

(** An action that its thread cannot take changes nothing. *)
Definition mpmc_step (s : MpmcState) (a : MpmcAction) : option (MpmcState * list MpmcEvent) :=
  match a with
  | MCallPush i x =>
      match threads s !! i with
      | Some MIdle => Some (MkMpmcState (m_queue s) (<[i := PushLoad x]> (threads s)), [])
      | _ => Some (s, [])
      end
  | MCallPop i =>
      match threads s !! i with
      | Some MIdle => Some (MkMpmcState (m_queue s) (<[i := PopLoad]> (threads s)), [])
      | _ => Some (s, [])
      end
  | MStep i =>
      match threads s !! i with
      | None | Some MIdle => Some (s, [])
      | Some pc => '(q, pc, ev) ← mpmc_thread_step (m_queue s) pc; Some (MkMpmcState q (<[i := pc]> (threads s)), ev)
      end
  end.

Fixpoint mpmc_run (s : MpmcState) (l : list MpmcAction) : option (MpmcState * list MpmcEvent) :=
  match l with
  | [] => Some (s, [])
  | a :: l => '(s1, ev) ← mpmc_step s a; '(s2, evs) ← mpmc_run s1 l; Some (s2, ev ++ evs)
  end.

Definition mpmc_start (n : nat) : MpmcState := MkMpmcState mpmc_new (replicate n MIdle).

(** ** Tickets: the specification *)

(** Every item claimed so far, in order; how many tickets were taken; the tickets whose push has not returned, and those
    whose pop has not. *)
Record Tickets := MkTickets { items : list T; taken : Z; pushing : gset Z; popping : gset Z }.

Definition no_tickets : Tickets := MkTickets [] 0 ∅ ∅.

Inductive ticket_step : Tickets -> MpmcEvent -> Tickets -> Prop :=
  | claim_ticket xs t pu po x : len xs < t + N k ->
      ticket_step (MkTickets xs t pu po) (Claimed (len xs) x) (MkTickets (xs ++ [x]) t ({[len xs]} ∪ pu) po)
  | publish_ticket xs t pu po p : p ∈ pu ->
      ticket_step (MkTickets xs t pu po) (Published p) (MkTickets xs t (pu ∖ {[p]}) po)
  | refuse_push xs t pu po x : len xs = t + N k \/ po ≠ ∅ ->
      ticket_step (MkTickets xs t pu po) (PushFull x) (MkTickets xs t pu po)
  | take_ticket xs t pu po : t < len xs -> t ∉ pu ->
      ticket_step (MkTickets xs t pu po) (Taken t) (MkTickets xs (t + 1) pu ({[t]} ∪ po))
  | return_ticket xs t pu po p x : p ∈ po -> xs !! Z.to_nat p = Some x ->
      ticket_step (MkTickets xs t pu po) (Returned p x) (MkTickets xs t pu (po ∖ {[p]}))
  | refuse_pop xs t pu po : t = len xs \/ pu ≠ ∅ ->
      ticket_step (MkTickets xs t pu po) PopEmpty (MkTickets xs t pu po).

Inductive ticket_run : Tickets -> list MpmcEvent -> Tickets -> Prop :=
  | ticket_nil g : ticket_run g [] g
  | ticket_cons g e g1 es g2 : ticket_step g e g1 -> ticket_run g1 es g2 -> ticket_run g (e :: es) g2.

(** ** The invariant *)

Hypothesis k_range : 1 <= k <= 61.

Lemma N_two : 2 <= N k.
Proof. unfold N. change 2 with (2 ^ 1) at 1. apply Z.pow_le_mono_r; lia. Qed.

Lemma slot_shift p : slot k (p - N k) = slot k p.
Proof. apply slot_eq; [lia|]. pose proof N_two. rewrite <- (Z.mod_add (p - N k) 1) by lia. f_equal. lia. Qed.

Lemma index_slot v : 0 <= v < 2 ^ 64 -> index k v = slot k v.
Proof. intros. rewrite <- (Z.mod_small v (2 ^ 64)) at 1 by lia. apply (index_mod k). lia. Qed.

Abbreviation claimed g := (len (items g)).

(** The sequence number of the slot of one of the last [N] tickets. *)
Definition sequence_of (g : Tickets) (p : Z) : Z :=
  if decide (p ∈ pushing g) then p
  else if decide (taken g <= p \/ p ∈ popping g) then p + 1
  else p + N k.

Record shared_inv (q : MpmcQueue) (g : Tickets) : Prop := {
  mi_head : m_head q = claimed g;
  mi_tail : m_tail q = taken g;
  mi_order : 0 <= taken g <= claimed g /\ claimed g <= taken g + N k;
  mi_seq_len : length (sequences q) = Z.to_nat (N k);
  mi_buf_len : length (m_buffer q) = Z.to_nat (N k);
  mi_pushing p : p ∈ pushing g -> taken g <= p < claimed g;
  mi_popping p : p ∈ popping g -> 0 <= p /\ claimed g - N k <= p < taken g;
  mi_sequence p : claimed g - N k <= p < claimed g -> sequences q !! slot k p = Some (sequence_of g p);
  mi_item p x : taken g <= p -> p ∉ pushing g -> items g !! Z.to_nat p = Some x -> m_buffer q !! slot k p = Some (Some x)
}.

(** What a thread that stands at [pc] knows. *)
Definition pc_ok (q : MpmcQueue) (g : Tickets) (pc : MpmcPc) : Prop :=
  match pc with
  | MIdle | PushLoad _ | PopLoad => True
  | PushSeq _ h => 0 <= h <= claimed g
  | PushCas _ h => 0 <= h /\ (h < claimed g \/ h = claimed g /\ h - N k < taken g /\ h - N k ∉ popping g)
  | PushWrite x p => p ∈ pushing g /\ items g !! Z.to_nat p = Some x
  | PushStore x p => p ∈ pushing g /\ items g !! Z.to_nat p = Some x /\ m_buffer q !! slot k p = Some (Some x)
  | PopSeq t => 0 <= t <= taken g
  | PopCas t => 0 <= t /\ (t < taken g \/ t = taken g /\ t < claimed g /\ t ∉ pushing g)
  | PopRead p => p ∈ popping g /\ exists x, items g !! Z.to_nat p = Some x /\ m_buffer q !! slot k p = Some (Some x)
  | PopStore p x => p ∈ popping g /\ items g !! Z.to_nat p = Some x
  end.

(** The ticket a thread holds. *)
Definition ticket_of (pc : MpmcPc) : option Z :=
  match pc with
  | PushWrite _ p | PushStore _ p | PopRead p | PopStore p _ => Some p
  | _ => None
  end.

Record mpmc_inv (s : MpmcState) (g : Tickets) : Prop := {
  mi_shared : shared_inv (m_queue s) g;
  mi_threads i pc : threads s !! i = Some pc -> pc_ok (m_queue s) g pc;
  mi_unique i j pc pc' p : threads s !! i = Some pc -> threads s !! j = Some pc' ->
    ticket_of pc = Some p -> ticket_of pc' = Some p -> i = j;
  mi_owned p : p ∈ pushing g ∪ popping g -> exists i pc, threads s !! i = Some pc /\ ticket_of pc = Some p
}.

Lemma mpmc_inv_start n : mpmc_inv (mpmc_start n) no_tickets.
Proof.
  pose proof N_two. split; cbn.
  - split; cbn; try done; try (by rewrite ?length_replicate, ?length_seqZ); change (len (@nil T)) with 0; [lia|].
    + intros p Hp. unfold sequence_of. rewrite decide_False by (cbn; set_solver).
      rewrite decide_False by (cbn; intros [?|?]; [lia|set_solver]).
      assert (Hs : slot k p = Z.to_nat (p + N k)).
      { replace p with (p + N k - N k) at 1 by lia. rewrite slot_shift. unfold slot. f_equal. apply Z.mod_small. lia. }
      rewrite Hs. rewrite lookup_seqZ_lt by lia. f_equal. lia.
  - intros i pc Hi. apply lookup_replicate in Hi as [-> _]. done.
  - intros i j pc pc' p Hi Hj. apply lookup_replicate in Hi as [-> _]. done.
  - set_solver.
Qed.

(** Position in the last [N] tickets of the slot of an older position. *)
Lemma window_position g c : 0 <= c <= claimed g ->
  exists p, claimed g - N k <= p < claimed g /\ slot k p = slot k c /\ (c = claimed g /\ p = c - N k \/ c <= p).
Proof.
  intros Hc. pose proof N_two. destruct (decide (c = claimed g)) as [->|Hne].
  { exists (claimed g - N k). split; [lia|]. split; [apply slot_shift|]. by left. }
  remember (claimed g - 1 - c) as d eqn:Hd. exists (claimed g - 1 - d mod N k).
  pose proof (Z.mod_pos_bound d (N k) ltac:(lia)). pose proof (Z.mod_le d (N k) ltac:(lia) ltac:(lia)).
  split; [lia|]. split; [|right; lia]. apply slot_eq; [lia|].
  replace (claimed g - 1 - d mod N k) with (c + (d / N k) * N k) by (pose proof (Z.div_mod d (N k) ltac:(lia)); nia).
  by rewrite Z.mod_add by lia.
Qed.

(** *** The transitions of the shared state *)

Definition claim (g : Tickets) (x : T) : Tickets :=
  MkTickets (items g ++ [x]) (taken g) ({[claimed g]} ∪ pushing g) (popping g).
Definition publish (g : Tickets) (p : Z) : Tickets := MkTickets (items g) (taken g) (pushing g ∖ {[p]}) (popping g).
Definition take_oldest (g : Tickets) : Tickets :=
  MkTickets (items g) (taken g + 1) (pushing g) ({[taken g]} ∪ popping g).
Definition release (g : Tickets) (p : Z) : Tickets := MkTickets (items g) (taken g) (pushing g) (popping g ∖ {[p]}).

Lemma sequence_pushing g p : p ∈ pushing g -> sequence_of g p = p.
Proof. intros. unfold sequence_of. by rewrite decide_True. Qed.

Lemma sequence_live g p : p ∉ pushing g -> taken g <= p \/ p ∈ popping g -> sequence_of g p = p + 1.
Proof. intros. unfold sequence_of. by rewrite decide_False, decide_True. Qed.

Lemma sequence_free g p : p ∉ pushing g -> p < taken g -> p ∉ popping g -> sequence_of g p = p + N k.
Proof. intros. unfold sequence_of. rewrite !decide_False; [done| |done]. intros [?|?]; [lia|done]. Qed.

Lemma sequence_ext g g' p : (p ∈ pushing g <-> p ∈ pushing g') -> (p ∈ popping g <-> p ∈ popping g') ->
  (taken g <= p <-> taken g' <= p) -> sequence_of g p = sequence_of g' p.
Proof. intros E1 E2 E3. unfold sequence_of. repeat case_decide; tauto. Qed.

Lemma claimed_claim g x : claimed (claim g x) = claimed g + 1.
Proof. cbn. rewrite len_app. done. Qed.

Lemma items_claim_old g x p y : items g !! Z.to_nat p = Some y -> items (claim g x) !! Z.to_nat p = Some y.
Proof. intros. cbn. by apply lookup_app_l_Some. Qed.

Lemma items_claim_new g x : items (claim g x) !! Z.to_nat (claimed g) = Some x.
Proof. cbn. unfold len. rewrite Nat2Z.id. by apply list_lookup_middle. Qed.

Lemma items_claim_inv g x p y : 0 <= p -> p <> claimed g -> items (claim g x) !! Z.to_nat p = Some y ->
  items g !! Z.to_nat p = Some y.
Proof.
  cbn. intros Hp Hne Hy. apply lookup_app_Some in Hy as [Hy|[Hle Hy]]; [done|].
  apply list_lookup_singleton_Some in Hy as [Hz _]. unfold len in Hne. lia.
Qed.

Lemma items_lt g p x : items g !! Z.to_nat p = Some x -> p < claimed g.
Proof. intros Hx. apply lookup_lt_Some in Hx. unfold len. lia. Qed.

Lemma claim_shared q g x : shared_inv q g -> claimed g - N k < taken g -> claimed g - N k ∉ popping g ->
  shared_inv (MkMpmc (claimed g + 1) (m_tail q) (sequences q) (m_buffer q)) (claim g x).
Proof.
  intros [Hh Ht Ho Hsl Hbl Hpu Hpo Hs Hi] Hfree Hnp. pose proof N_two.
  split; rewrite ?claimed_claim; cbn; try done; [lia| | | |].
  - intros p Hp. apply elem_of_union in Hp as [Hp%elem_of_singleton|Hp%Hpu]; lia.
  - intros p Hp. pose proof (Hpo p Hp). assert (p <> claimed g - N k) by (intros ->; done). lia.
  - intros p Hp. destruct (decide (p = claimed g)) as [->|Hne].
    + rewrite <- slot_shift, Hs, sequence_free; [|intros Hx%Hpu; lia|done..|lia].
      rewrite sequence_pushing by (cbn; set_solver). f_equal. lia.
    + rewrite Hs by lia. f_equal. apply sequence_ext; cbn; [set_solver|done|done].
  - intros p y Hp Hnew Hy. apply Hi; [done|set_solver|]. apply (items_claim_inv g x); [lia|set_solver|done].
Qed.

Lemma publish_shared q g p x : shared_inv q g -> p ∈ pushing g -> items g !! Z.to_nat p = Some x ->
  m_buffer q !! slot k p = Some (Some x) ->
  shared_inv (MkMpmc (m_head q) (m_tail q) (<[slot k p := p + 1]> (sequences q)) (m_buffer q)) (publish g p).
Proof.
  intros [Hh Ht Ho Hsl Hbl Hpu Hpo Hs Hi] Hp Hx Hb. pose proof N_two. pose proof (Hpu p Hp).
  split; cbn; try done; [by rewrite length_insert|set_solver| |].
  - intros p' Hp'. destruct (decide (p' = p)) as [->|Hne].
    + rewrite list_lookup_insert_eq by (rewrite Hsl; apply slot_lt; lia). rewrite sequence_live; [done|set_solver|left; cbn; lia].
    + rewrite list_lookup_insert_ne by (intros E; apply slot_near in E; lia). rewrite Hs by lia.
      f_equal. apply sequence_ext; cbn; [set_solver|done|done].
  - intros p' y Hp' Hnew Hy. destruct (decide (p' = p)) as [->|Hne]; [by simplify_eq|]. apply Hi; set_solver.
Qed.

Lemma write_shared q g p x : shared_inv q g -> p ∈ pushing g ->
  shared_inv (MkMpmc (m_head q) (m_tail q) (sequences q) (<[slot k p := Some x]> (m_buffer q))) g.
Proof.
  intros [Hh Ht Ho Hsl Hbl Hpu Hpo Hs Hi] Hp. pose proof N_two. pose proof (Hpu p Hp).
  split; cbn; try done; [by rewrite length_insert|]. intros p' y Hp' Hnew Hy. pose proof (items_lt _ _ _ Hy).
  rewrite list_lookup_insert_ne; [by apply Hi|]. intros E; apply slot_near in E; [|lia..]. by subst.
Qed.

Lemma take_shared q g : shared_inv q g -> taken g < claimed g -> taken g ∉ pushing g ->
  shared_inv (MkMpmc (m_head q) (taken g + 1) (sequences q) (m_buffer q)) (take_oldest g).
Proof.
  intros [Hh Ht Ho Hsl Hbl Hpu Hpo Hs Hi] Hlt Hnew. pose proof N_two.
  split; cbn; try done; [lia| | | |].
  - intros p Hp. assert (p <> taken g) by (intros ->; done). pose proof (Hpu p Hp). lia.
  - intros p Hp. apply elem_of_union in Hp as [Hp%elem_of_singleton|Hp%Hpo]; lia.
  - intros p Hp. rewrite Hs by lia. f_equal. destruct (decide (p = taken g)) as [->|Hne].
    + rewrite !sequence_live; cbn; [done|done|set_solver|done|left; lia].
    + apply sequence_ext; cbn; [done|set_solver|lia].
  - intros p x Hp ? ?. apply Hi; [lia|done|done].
Qed.

Lemma release_shared q g p : shared_inv q g -> p ∈ popping g ->
  shared_inv (MkMpmc (m_head q) (m_tail q) (<[slot k p := p + N k]> (sequences q)) (m_buffer q)) (release g p).
Proof.
  intros [Hh Ht Ho Hsl Hbl Hpu Hpo Hs Hi] Hp. pose proof N_two. pose proof (Hpo p Hp).
  split; cbn; try done; [by rewrite length_insert|set_solver|].
  intros p' Hp'. destruct (decide (p' = p)) as [->|Hne].
  - rewrite list_lookup_insert_eq by (rewrite Hsl; apply slot_lt; lia). rewrite sequence_free; [done|intros Hx%Hpu; lia|cbn; lia|set_solver].
  - rewrite list_lookup_insert_ne by (intros E; apply slot_near in E; lia). rewrite Hs by lia.
    f_equal. apply sequence_ext; cbn; [done|set_solver|done].
Qed.

(** *** What the other threads know stays true *)

Lemma claim_stable q g x hd pc : shared_inv q g -> pc_ok q g pc ->
  pc_ok (MkMpmc hd (m_tail q) (sequences q) (m_buffer q)) (claim g x) pc.
Proof.
  intros [Hh Ht Ho Hsl Hbl Hpu Hpo Hs Hi] Hpc. pose proof N_two.
  destruct pc; cbn [pc_ok] in *; rewrite ?claimed_claim; try done.
  - lia.
  - destruct Hpc as [? Hpc]. split; [done|]. left. destruct Hpc as [?|(? & ? & ?)]; lia.
  - destruct Hpc as [? Hx]. split; [cbn; set_solver|]. by apply items_claim_old.
  - destruct Hpc as (? & ? & ?). split; [cbn; set_solver|]. split; [by apply items_claim_old|done].
  - destruct Hpc as [? Hpc]. split; [done|]. destruct Hpc as [?|(? & ? & ?)]; [by left|right].
    split; [done|]. split; [lia|]. cbn. intros Hx. apply elem_of_union in Hx as [Hx%elem_of_singleton|?]; [lia|done].
  - destruct Hpc as (? & y & ? & ?). split; [done|]. exists y. split; [by apply items_claim_old|done].
  - destruct Hpc as [? ?]. split; [done|]. by apply items_claim_old.
Qed.

Lemma publish_stable q g p sq pc : shared_inv q g -> ticket_of pc <> Some p -> pc_ok q g pc ->
  pc_ok (MkMpmc (m_head q) (m_tail q) sq (m_buffer q)) (publish g p) pc.
Proof.
  intros Hq Hne Hpc. destruct pc; cbn in *; try done.
  - destruct Hpc as [? Hx]. split; [set_solver|done].
  - destruct Hpc as (? & ? & ?). split; [set_solver|done].
  - destruct Hpc as [? Hpc]. split; [done|]. destruct Hpc as [?|(? & ? & ?)]; [by left|right]. set_solver.
Qed.

Lemma write_stable q g p x pc : shared_inv q g -> p ∈ pushing g -> ticket_of pc <> Some p -> pc_ok q g pc ->
  pc_ok (MkMpmc (m_head q) (m_tail q) (sequences q) (<[slot k p := Some x]> (m_buffer q))) g pc.
Proof.
  intros [Hh Ht Ho Hsl Hbl Hpu Hpo Hs Hi] Hp Hne Hpc. pose proof N_two. pose proof (Hpu p Hp).
  destruct pc as [| | | |? p'|? p'| | | |p'|p' ?]; cbn in *; try done.
  - destruct Hpc as (Hp' & ? & ?). pose proof (Hpu _ Hp'). split; [done|]. split; [done|].
    rewrite list_lookup_insert_ne; [done|]. intros E; apply slot_near in E; [congruence|lia..].
  - destruct Hpc as (Hp' & y & ? & ?). pose proof (Hpo _ Hp'). split; [done|]. exists y. split; [done|].
    rewrite list_lookup_insert_ne; [done|]. intros E; apply slot_near in E; [congruence|lia..].
Qed.

Lemma take_stable q g pc : shared_inv q g -> taken g < claimed g -> pc_ok q g pc ->
  pc_ok (MkMpmc (m_head q) (taken g + 1) (sequences q) (m_buffer q)) (take_oldest g) pc.
Proof.
  intros [Hh Ht Ho Hsl Hbl Hpu Hpo Hs Hi] Hlt Hpc. pose proof N_two.
  destruct pc; cbn in *; try done.
  - destruct Hpc as [? Hpc]. split; [done|]. destruct Hpc as [?|(? & ? & Hx)]; [by left|right].
    split; [done|]. split; [lia|]. intros Hy. apply elem_of_union in Hy as [Hy%elem_of_singleton|?]; [|done]. lia.
  - lia.
  - destruct Hpc as [? Hpc]. split; [done|]. left. destruct Hpc as [?|(? & ? & ?)]; lia.
  - destruct Hpc as (? & Hpc). split; [set_solver|done].
  - destruct Hpc as (? & Hpc). split; [set_solver|done].
Qed.

Lemma release_stable q g p sq pc : shared_inv q g -> ticket_of pc <> Some p -> pc_ok q g pc ->
  pc_ok (MkMpmc (m_head q) (m_tail q) sq (m_buffer q)) (release g p) pc.
Proof.
  intros Hq Hne Hpc. destruct pc; cbn in *; try done.
  - destruct Hpc as [? Hpc]. split; [done|]. destruct Hpc as [?|(? & ? & ?)]; [by left|right]. set_solver.
  - destruct Hpc as (? & Hpc). split; [set_solver|done].
  - destruct Hpc as (? & Hpc). split; [set_solver|done].
Qed.

(** The step of a thread leaves the others as they are. *)
Lemma mpmc_inv_update s g i pc q' g' pc' : mpmc_inv s g -> threads s !! i = Some pc ->
  shared_inv q' g' -> pc_ok q' g' pc' ->
  (forall j pcj, j <> i -> threads s !! j = Some pcj -> pc_ok q' g' pcj) ->
  (forall j pcj p, j <> i -> threads s !! j = Some pcj -> ticket_of pc' = Some p -> ticket_of pcj <> Some p) ->
  (forall p, p ∈ pushing g' ∪ popping g' ->
    ticket_of pc' = Some p \/ p ∈ pushing g ∪ popping g /\ ticket_of pc <> Some p) ->
  mpmc_inv (MkMpmcState q' (<[i := pc']> (threads s))) g'.
Proof.
  intros [Hs Ht Hu Hw] Hi Hs' Hpc' Hothers Htick Hown. pose proof (lookup_lt_Some _ _ _ Hi). split; cbn; [done| | |].
  - intros j pcj Hj. apply list_lookup_insert_Some in Hj as [(<- & <- & _)|[? Hj]]; [done|]. by apply (Hothers j).
  - intros j1 j2 pc1 pc2 p H1 H2 E1 E2.
    apply list_lookup_insert_Some in H1 as [(<- & <- & _)|[Hn1 H1]];
      apply list_lookup_insert_Some in H2 as [(<- & <- & _)|[Hn2 H2]]; [done| | |by eapply Hu].
    + by destruct (Htick j2 pc2 p (not_eq_sym Hn2) H2 E1).
    + by destruct (Htick j1 pc1 p (not_eq_sym Hn1) H1 E2).
  - intros p [E|[Hm Hne]]%Hown; [exists i, pc'; split; [by apply list_lookup_insert_eq|done]|].
    destruct (Hw p Hm) as (j & pcj & Hj & E). exists j, pcj. split; [|done].
    rewrite list_lookup_insert_ne; [done|]. intros ->. congruence.
Qed.

(** *** The steps of a thread *)

(** How many more steps a thread that runs alone takes. *)
Definition steps_left (g : Tickets) (pc : MpmcPc) : nat :=
  match pc with
  | MIdle => 0
  | PushLoad _ | PopLoad => 5
  | PushSeq _ h => if decide (h = claimed g) then 4 else 6
  | PushCas _ h => if decide (h = claimed g) then 3 else 5
  | PopSeq t => if decide (t = taken g) then 4 else 6
  | PopCas t => if decide (t = taken g) then 3 else 5
  | PushWrite _ _ | PopRead _ => 2
  | PushStore _ _ | PopStore _ _ => 1
  end.

Definition thread_post (s : MpmcState) (g : Tickets) (i : nat) (pc : MpmcPc)
  (r : option (MpmcQueue * MpmcPc * list MpmcEvent)) : Prop :=
  exists q' pc' ev g', r = Some (q', pc', ev) /\ mpmc_inv (MkMpmcState q' (<[i := pc']> (threads s))) g' /\
    ticket_run g ev g' /\ claimed g' <= claimed g + 1 /\ (steps_left g' pc' < steps_left g pc)%nat.

Lemma ticket_one g e g' : ticket_step g e g' -> ticket_run g [e] g'.
Proof. intros. by econstructor; [|constructor]. Qed.

(** A step that changes no shared state and takes no ticket. *)
Lemma quiet_post s g i pc pc' ev : mpmc_inv s g -> threads s !! i = Some pc -> pc_ok (m_queue s) g pc' ->
  ticket_of pc' = ticket_of pc -> ticket_run g ev g -> (steps_left g pc' < steps_left g pc)%nat ->
  thread_post s g i pc (Some (m_queue s, pc', ev)).
Proof.
  intros Hinv Hi Hpc Ht Hr Hm. exists (m_queue s), pc', ev, g. split; [done|]. split; [|split; [done|split; [lia|done]]].
  eapply mpmc_inv_update; [done|done|apply Hinv|done| | |].
  - intros j pcj _ Hj. by eapply Hinv.
  - intros j pcj p Hne Hj E1 E2. apply Hne. rewrite E1 in Ht. by eapply Hinv.
  - intros p Hp. rewrite Ht. destruct (decide (ticket_of pc = Some p)); auto.
Qed.

Lemma isize_diff_small a b : 0 <= a < 2 ^ 63 -> 0 <= b < 2 ^ 63 -> isize_diff a b = Some (a - b).
Proof.
  intros. unfold isize_diff, as_isize. rewrite !(proj2 (Z.ltb_lt _ _)), (proj2 (Z.leb_le _ _)) by lia. done.
Qed.

Lemma wrapping_add_small a b : 0 <= a + b < 2 ^ 64 -> wrapping_add a b = a + b.
Proof. intros. unfold wrapping_add, wrap. by apply Z.mod_small. Qed.

Lemma sequence_cases g p :
  ((p ∈ pushing g) /\ sequence_of g p = p) \/
  ((p ∉ pushing g) /\ (taken g <= p \/ p ∈ popping g) /\ sequence_of g p = p + 1) \/
  ((p ∉ pushing g) /\ p < taken g /\ (p ∉ popping g) /\ sequence_of g p = p + N k).
Proof.
  unfold sequence_of. destruct (decide (p ∈ pushing g)) as [?|?]; [by left|right].
  destruct (decide (taken g <= p \/ p ∈ popping g)) as [?|Hn]; [by left|right].
  split_and!; [done| |by auto|done]. destruct (Z.lt_ge_cases p (taken g)); [done|tauto].
Qed.

(** The sequence number a thread finds at the slot of a position it read from a counter. *)
Lemma sequence_found q g c : shared_inv q g -> claimed g + 2 * N k < 2 ^ 63 -> 0 <= c <= claimed g ->
  exists p, (p < claimed g /\ (claimed g - N k <= c < claimed g -> p = c)) /\ (c = claimed g /\ p = c - N k \/ c <= p) /\
    sequences q !! index k c = Some (sequence_of g p) /\ 0 <= sequence_of g p < 2 ^ 63.
Proof.
  intros Hq Hb Hc. pose proof N_two. destruct (window_position g c Hc) as (p & Hp & Hslot & Hcase).
  exists p. split; [split; [lia|]; intros; apply (slot_near k); [lia|done|lia..]|]. split; [done|]. rewrite index_slot by lia. rewrite <- Hslot. split; [by apply Hq|].
  destruct Hq as [Hh Ht Ho Hsl Hbl Hpu Hpo Hs Hi].
  destruct (sequence_cases g p) as [[Hm ->]|[(_ & [?|Hm] & ->)|(_ & _ & _ & ->)]]; try apply Hpu in Hm; try apply Hpo in Hm; lia.
Qed.

Lemma push_seq_ok s g i x h : mpmc_inv s g -> claimed g + 2 * N k < 2 ^ 63 -> threads s !! i = Some (PushSeq x h) ->
  thread_post s g i (PushSeq x h) (mpmc_thread_step (m_queue s) (PushSeq x h)).
Proof.
  intros Hinv Hb Hi. pose proof N_two. pose proof (mi_threads _ _ Hinv _ _ Hi) as Hpc. cbn in Hpc.
  pose proof (mi_shared _ _ Hinv) as Hq. destruct (sequence_found _ _ _ Hq Hb Hpc) as (p & [Hlt Hnear] & Hcase & Hseq & Hr).
  pose proof (mi_pushing _ _ Hq p) as Hpu. destruct (mi_order _ _ Hq) as [Ho Ho'].
  cbn [mpmc_thread_step]. rewrite Hseq. cbn. rewrite isize_diff_small by lia. cbn.
  destruct (Z.eqb_spec (sequence_of g p - h) 0) as [E|E]; [|destruct (Z.ltb_spec (sequence_of g p - h) 0) as [L|L]].
  - apply quiet_post; try done; [|constructor|cbn; destruct (decide (h = claimed g)); lia].
    cbn. split; [lia|]. destruct Hcase as [[-> ->]|Hle]; [right|].
    + destruct (sequence_cases g (claimed g - N k)) as [[?%Hpu ?]|[(_ & _ & ?)|(_ & ? & ? & _)]]; [lia|lia|done].
    + destruct (decide (h = claimed g)) as [Hn|?]; [|left; lia].
      destruct (sequence_cases g p) as [[?%Hpu ?]|[(_ & _ & ?)|(_ & ? & ? & ?)]]; lia.
  - apply quiet_post; try done; [|cbn; destruct (decide (h = claimed g)); lia]. apply ticket_one. destruct g. constructor.
    cbn in *. destruct Hcase as [[Hh ->]|Hle].
    + destruct (sequence_cases (MkTickets items0 taken0 pushing0 popping0) (h - N k)) as [[?%Hpu ?]|[(_ & [?|?] & _)|(_ & ? & ? & ?)]]; cbn in *; [lia|left; lia|right; set_solver|lia].
    + destruct (sequence_cases (MkTickets items0 taken0 pushing0 popping0) p) as [[? ?]|[(_ & _ & ?)|(_ & ? & ? & ?)]]; lia.
  - apply quiet_post; try done; [constructor|]. cbn. destruct (decide (h = claimed g)) as [Hn|]; [|lia]. exfalso.
    destruct (sequence_cases g p) as [[?%Hpu ?]|[(_ & _ & ?)|(_ & ? & ? & ?)]]; lia.
Qed.

Lemma pop_seq_ok s g i t : mpmc_inv s g -> claimed g + 2 * N k < 2 ^ 63 -> threads s !! i = Some (PopSeq t) ->
  thread_post s g i (PopSeq t) (mpmc_thread_step (m_queue s) (PopSeq t)).
Proof.
  intros Hinv Hb Hi. pose proof N_two. pose proof (mi_threads _ _ Hinv _ _ Hi) as Hpc. cbn in Hpc.
  pose proof (mi_shared _ _ Hinv) as Hq. destruct (mi_order _ _ Hq) as [Ho Ho'].
  destruct (sequence_found _ _ t Hq Hb ltac:(lia)) as (p & [Hlt Hnear] & Hcase & Hseq & Hr).
  pose proof (mi_pushing _ _ Hq p) as Hpu. pose proof (mi_popping _ _ Hq p) as Hpo.
  cbn [mpmc_thread_step]. rewrite Hseq. cbn. rewrite wrapping_add_small, isize_diff_small by lia. cbn.
  destruct (Z.eqb_spec (sequence_of g p - (t + 1)) 0) as [E|E]; [|destruct (Z.ltb_spec (sequence_of g p - (t + 1)) 0) as [L|L]].
  - apply quiet_post; try done; [|constructor|cbn; destruct (decide (t = taken g)); lia].
    cbn. split; [lia|]. destruct (decide (t = taken g)) as [Hn|?]; [right|left; lia].
    destruct (sequence_cases g p) as [[?%Hpu ?]|[(? & [?|?%Hpo] & ?)|(_ & ? & ? & ?)]]; [lia| |lia|lia].
    split; [done|]. destruct Hcase as [[? ?]|?]; [lia|]. assert (t = p) as -> by lia. split; [lia|done].
  - apply quiet_post; try done; [|cbn; destruct (decide (t = taken g)); lia]. apply ticket_one.
    destruct Hcase as [[Hh _]|Hle]; [destruct g; constructor; left; cbn in *; lia|].
    destruct (sequence_cases g p) as [[? ?]|[(_ & _ & ?)|(_ & ? & ? & ?)]]; [|lia..].
    destruct g; constructor; right; set_solver.
  - apply quiet_post; try done; [constructor|]. cbn. destruct (decide (t = taken g)) as [Hn|]; [|lia]. exfalso.
    destruct (sequence_cases g p) as [[?%Hpu ?]|[(_ & [?|?%Hpo] & ?)|(_ & ? & ? & ?)]]; lia.
Qed.

Lemma push_cas_ok s g i x h : mpmc_inv s g -> claimed g + 2 * N k < 2 ^ 63 -> threads s !! i = Some (PushCas x h) ->
  thread_post s g i (PushCas x h) (mpmc_thread_step (m_queue s) (PushCas x h)).
Proof.
  intros Hinv Hb Hi. pose proof N_two. pose proof (mi_threads _ _ Hinv _ _ Hi) as [Hh Hpc].
  pose proof (mi_shared _ _ Hinv) as Hq. destruct (mi_order _ _ Hq) as [Ho Ho'].
  cbn [mpmc_thread_step]. unfold compare_exchange. rewrite (mi_head _ _ Hq).
  destruct (Z.eqb_spec (claimed g) h) as [<-|Hne].
  - destruct Hpc as [?|(_ & Hfree & Hnp)]; [lia|]. rewrite wrapping_add_small by lia.
    eexists _, _, _, (claim g x). split; [done|]. split; [|split; [|split; [rewrite claimed_claim; lia|]]].
    + eapply mpmc_inv_update; [done|done|by apply claim_shared| | | |].
      * split; [cbn; set_solver|apply items_claim_new].
      * intros j pcj _ Hj. apply claim_stable; [done|]. by eapply Hinv.
      * intros j pcj p _ Hj [= <-] E. pose proof (mi_threads _ _ Hinv _ _ Hj) as Hpcj.
        destruct pcj; cbn in E, Hpcj; try done; injection E as ->; destruct Hpcj as [Hm _];
          apply Hq in Hm; lia.
      * intros p. cbn. set_solver.
    + apply ticket_one. destruct g. apply claim_ticket. cbn in *. lia.
    + cbn. destruct (decide _); lia.
  - apply quiet_post; try done; [cbn; lia|constructor|]. cbn. rewrite decide_True by done. rewrite decide_False by done. lia.
Qed.

Lemma pop_cas_ok s g i t : mpmc_inv s g -> claimed g + 2 * N k < 2 ^ 63 -> threads s !! i = Some (PopCas t) ->
  thread_post s g i (PopCas t) (mpmc_thread_step (m_queue s) (PopCas t)).
Proof.
  intros Hinv Hb Hi. pose proof N_two. pose proof (mi_threads _ _ Hinv _ _ Hi) as [Hh Hpc].
  pose proof (mi_shared _ _ Hinv) as Hq. destruct (mi_order _ _ Hq) as [Ho Ho'].
  cbn [mpmc_thread_step]. unfold compare_exchange. rewrite (mi_tail _ _ Hq).
  destruct (Z.eqb_spec (taken g) t) as [<-|Hne].
  - destruct Hpc as [?|(_ & Hlt & Hnew)]; [lia|]. rewrite wrapping_add_small by lia.
    eexists _, _, _, (take_oldest g). split; [done|]. split; [|split; [|split; [cbn; lia|]]].
    + eapply mpmc_inv_update; [done|done|by apply take_shared| | | |].
      * split; [cbn; set_solver|]. cbn.
        destruct (lookup_lt_is_Some_2 (items g) (Z.to_nat (taken g)) ltac:(unfold len in *; lia)) as [x Hx].
        exists x. split; [done|]. by apply Hq.
      * intros j pcj _ Hj. apply take_stable; [done|done|]. by eapply Hinv.
      * intros j pcj p _ Hj [= <-] E. pose proof (mi_threads _ _ Hinv _ _ Hj) as Hpcj.
        destruct pcj; cbn in E, Hpcj; try done; injection E as ->; destruct Hpcj as [Hm _]; try done;
          apply Hq in Hm; lia.
      * intros p. cbn. set_solver.
    + apply ticket_one. destruct g. by apply take_ticket.
    + cbn. destruct (decide _); lia.
  - apply quiet_post; try done; [cbn; lia|constructor|]. cbn. rewrite decide_True by done. rewrite decide_False by done. lia.
Qed.

(** A thread that holds a ticket: its slot, and the tickets of the others. *)
Lemma other_ticket s g i pc p : mpmc_inv s g -> threads s !! i = Some pc -> ticket_of pc = Some p ->
  forall j pcj, j <> i -> threads s !! j = Some pcj -> ticket_of pcj <> Some p.
Proof. intros Hinv Hi Hp j pcj Hne Hj E. apply Hne. by eapply (mi_unique _ _ Hinv). Qed.

Lemma ticket_small q g p : shared_inv q g -> claimed g + 2 * N k < 2 ^ 63 -> p ∈ pushing g \/ p ∈ popping g ->
  0 <= p < claimed g /\ index k p = slot k p.
Proof.
  intros Hq Hb Hp. pose proof N_two. destruct (mi_order _ _ Hq). assert (0 <= p < claimed g) by (destruct Hp as [Hp|Hp]; apply Hq in Hp; lia).
  split; [done|]. apply index_slot. lia.
Qed.

Lemma push_write_ok s g i x p : mpmc_inv s g -> claimed g + 2 * N k < 2 ^ 63 -> threads s !! i = Some (PushWrite x p) ->
  thread_post s g i (PushWrite x p) (mpmc_thread_step (m_queue s) (PushWrite x p)).
Proof.
  intros Hinv Hb Hi. pose proof (mi_threads _ _ Hinv _ _ Hi) as [Hp Hx]. pose proof (mi_shared _ _ Hinv) as Hq.
  destruct (ticket_small _ _ p Hq Hb (or_introl Hp)) as [Hr Hslot]. cbn [mpmc_thread_step].
  assert (Hl : (slot k p < length (m_buffer (m_queue s)))%nat) by (rewrite (mi_buf_len _ _ Hq); apply slot_lt; lia).
  rewrite Hslot, decide_True by done.
  eexists _, _, _, g. split; [done|]. split; [|split; [constructor|split; [lia|cbn; lia]]].
  eapply mpmc_inv_update; [done|done|by apply write_shared| | | |].
  - cbn. split; [done|]. split; [done|]. by apply list_lookup_insert_eq.
  - intros j pcj Hne Hj. apply write_stable; [done|done| |by eapply Hinv]. by apply (other_ticket s g i _ p Hinv Hi eq_refl j).
  - intros j pcj p' Hne Hj [= <-]. by apply (other_ticket s g i _ p Hinv Hi eq_refl j).
  - intros p' Hp'. cbn. destruct (decide (p = p')) as [->|]; [by left|right]. split; [done|congruence].
Qed.

Lemma push_store_ok s g i x p : mpmc_inv s g -> claimed g + 2 * N k < 2 ^ 63 -> threads s !! i = Some (PushStore x p) ->
  thread_post s g i (PushStore x p) (mpmc_thread_step (m_queue s) (PushStore x p)).
Proof.
  intros Hinv Hb Hi. pose proof (mi_threads _ _ Hinv _ _ Hi) as (Hp & Hx & Hbuf). pose proof (mi_shared _ _ Hinv) as Hq.
  pose proof N_two. destruct (ticket_small _ _ p Hq Hb (or_introl Hp)) as [Hr Hslot]. cbn [mpmc_thread_step].
  assert (Hl : (slot k p < length (sequences (m_queue s)))%nat) by (rewrite (mi_seq_len _ _ Hq); apply slot_lt; lia).
  rewrite Hslot, decide_True, wrapping_add_small by (done || lia).
  eexists _, _, _, (publish g p). split; [done|]. split; [|split; [|split; [cbn; lia|cbn; lia]]].
  - eapply mpmc_inv_update; [done|done|by apply (publish_shared _ _ _ x)|done| |done|].
    + intros j pcj Hne Hj. apply publish_stable; [done| |by eapply Hinv]. by apply (other_ticket s g i _ p Hinv Hi eq_refl j).
    + intros p' Hp'. right. cbn in *. destruct (mi_order _ _ Hq). pose proof (mi_pushing _ _ Hq p Hp).
      destruct (decide (p' = p)) as [->|]; [|split; [set_solver|congruence]].
      assert (p ∈ popping g) as Hm%Hq by set_solver. lia.
  - apply ticket_one. destruct g. by apply publish_ticket.
Qed.

Lemma pop_read_ok s g i p : mpmc_inv s g -> claimed g + 2 * N k < 2 ^ 63 -> threads s !! i = Some (PopRead p) ->
  thread_post s g i (PopRead p) (mpmc_thread_step (m_queue s) (PopRead p)).
Proof.
  intros Hinv Hb Hi. pose proof (mi_threads _ _ Hinv _ _ Hi) as (Hp & x & Hx & Hbuf). pose proof (mi_shared _ _ Hinv) as Hq.
  destruct (ticket_small _ _ p Hq Hb (or_intror Hp)) as [Hr Hslot]. cbn [mpmc_thread_step].
  rewrite Hslot, Hbuf. cbn. by apply quiet_post; [..|constructor|cbn; lia].
Qed.

Lemma pop_store_ok s g i p x : mpmc_inv s g -> claimed g + 2 * N k < 2 ^ 63 -> threads s !! i = Some (PopStore p x) ->
  thread_post s g i (PopStore p x) (mpmc_thread_step (m_queue s) (PopStore p x)).
Proof.
  intros Hinv Hb Hi. pose proof (mi_threads _ _ Hinv _ _ Hi) as (Hp & Hx). pose proof (mi_shared _ _ Hinv) as Hq.
  pose proof N_two. destruct (ticket_small _ _ p Hq Hb (or_intror Hp)) as [Hr Hslot]. cbn [mpmc_thread_step].
  assert (Hl : (slot k p < length (sequences (m_queue s)))%nat) by (rewrite (mi_seq_len _ _ Hq); apply slot_lt; lia).
  rewrite Hslot, decide_True, wrapping_add_small by (done || lia).
  eexists _, _, _, (release g p). split; [done|]. split; [|split; [|split; [cbn; lia|cbn; lia]]].
  - eapply mpmc_inv_update; [done|done|by apply release_shared|done| |done|].
    + intros j pcj Hne Hj. apply release_stable; [done| |by eapply Hinv]. by apply (other_ticket s g i _ p Hinv Hi eq_refl j).
    + intros p' Hp'. right. cbn in *. pose proof (mi_popping _ _ Hq p Hp).
      destruct (decide (p' = p)) as [->|]; [|split; [set_solver|congruence]].
      assert (p ∈ pushing g) as Hm%Hq by set_solver. lia.
  - apply ticket_one. destruct g. by apply return_ticket.
Qed.

Lemma thread_step_ok s g i pc : mpmc_inv s g -> claimed g + 2 * N k < 2 ^ 63 -> threads s !! i = Some pc -> pc <> MIdle ->
  thread_post s g i pc (mpmc_thread_step (m_queue s) pc).
Proof.
  intros Hinv Hb Hi Hne. pose proof (mi_shared _ _ Hinv) as Hq. destruct (mi_order _ _ Hq).
  destruct pc; [done| |by apply push_seq_ok|by apply push_cas_ok|by apply push_write_ok|by apply push_store_ok| |
    by apply pop_seq_ok|by apply pop_cas_ok|by apply pop_read_ok|by apply pop_store_ok].
  - apply quiet_post; try done; [cbn; rewrite (mi_head _ _ Hq); lia|constructor|].
    cbn. rewrite decide_True by apply Hq. lia.
  - apply quiet_post; try done; [cbn; rewrite (mi_tail _ _ Hq); lia|constructor|].
    cbn. rewrite decide_True by apply Hq. lia.
Qed.

(** *** Executions *)

Lemma ticket_app g es g1 es' g2 : ticket_run g es g1 -> ticket_run g1 es' g2 -> ticket_run g (es ++ es') g2.
Proof. induction 1; cbn; [done|]. intros. by econstructor; [|auto]. Qed.

Definition run_post (g : Tickets) (n : Z) (r : option (MpmcState * list MpmcEvent)) : Prop :=
  exists s' ev g', r = Some (s', ev) /\ mpmc_inv s' g' /\ ticket_run g ev g' /\ claimed g' <= claimed g + n.

Lemma run_post_same s g n : mpmc_inv s g -> 0 <= n -> run_post g n (Some (s, [])).
Proof. intros. exists s, [], g. split_and!; [done|done|constructor|lia]. Qed.

(** A call of an operation by a thread that runs none. *)
Lemma call_ok s g i pc : mpmc_inv s g -> threads s !! i = Some MIdle -> pc = PopLoad \/ (exists x, pc = PushLoad x) ->
  mpmc_inv (MkMpmcState (m_queue s) (<[i := pc]> (threads s))) g.
Proof.
  intros Hinv Hi Hpc. eapply mpmc_inv_update; [done|done|apply Hinv| | | |].
  - by destruct Hpc as [->|[x ->]].
  - intros j pcj _ Hj. by eapply Hinv.
  - intros j pcj p _ _. by destruct Hpc as [->|[x ->]].
  - intros p Hp. right. done.
Qed.

Lemma mpmc_step_ok s g a : mpmc_inv s g -> claimed g + 2 * N k < 2 ^ 63 -> run_post g 1 (mpmc_step s a).
Proof.
  intros Hinv Hb. destruct a as [i x|i|i]; cbn; destruct (threads s !! i) as [pc|] eqn:Hi; try by apply run_post_same.
  - destruct pc; try by apply run_post_same. apply run_post_same; [|lia]. apply call_ok; eauto.
  - destruct pc; try by apply run_post_same. apply run_post_same; [|lia]. apply call_ok; eauto.
  - assert (Hstep : pc <> MIdle -> run_post g 1
      ('(q, pc, ev) ← mpmc_thread_step (m_queue s) pc; Some (MkMpmcState q (<[i := pc]> (threads s)), ev))).
    { intros Hne. destruct (thread_step_ok s g i pc Hinv Hb Hi Hne) as (q' & pc' & ev & g' & -> & ? & ? & ? & _).
      by exists (MkMpmcState q' (<[i := pc']> (threads s))), ev, g'. }
    destruct pc; try (by apply Hstep). by apply run_post_same.
Qed.

Lemma mpmc_run_ok l : forall s g, mpmc_inv s g -> claimed g + len l + 2 * N k < 2 ^ 63 -> run_post g (len l) (mpmc_run s l).
Proof.
  induction l as [|a l IH]; intros s g Hinv Hb; [by apply run_post_same|]. rewrite len_cons in *. pose proof (len_nonneg l).
  destruct (mpmc_step_ok s g a Hinv ltac:(lia)) as (s1 & ev & g1 & E & Hinv1 & Hr & Hc). cbn [mpmc_run]. rewrite E. cbn.
  destruct (IH s1 g1 Hinv1 ltac:(lia)) as (s2 & evs & g2 & -> & Hinv2 & Hr2 & Hc2). cbn.
  exists s2, (ev ++ evs), g2. split_and!; [done|done|by eapply ticket_app|lia].
Qed.

Lemma mpmc_counts s g : mpmc_inv s g -> claimed g < 2 ^ 64 ->
  mpmc_len (m_queue s) = claimed g - taken g /\ mpmc_is_empty (m_queue s) = (claimed g - taken g =? 0).
Proof.
  intros [[Hh Ht Ho _ _ _ _ _ _] _ _ _] Hb. unfold mpmc_len, mpmc_is_empty. rewrite Hh, Ht. split; [|lia].
  unfold wrapping_sub, wrap. apply Z.mod_small. lia.
Qed.

Lemma mpmc_quiescent s g : mpmc_inv s g -> Forall (eq MIdle) (threads s) -> pushing g ∪ popping g = ∅.
Proof.
  intros Hinv Hidle. apply set_eq. intros p. split; [|set_solver]. intros (i & pc & Hi & Hp)%(mi_owned _ _ Hinv).
  rewrite Forall_lookup in Hidle. by rewrite <- (Hidle _ _ Hi) in Hp.
Qed.

(** No two threads are about to access the contents of one slot. *)
Definition mpmc_race (s : MpmcState) : Prop :=
  exists i j pc pc' p p', i <> j /\ threads s !! i = Some pc /\ threads s !! j = Some pc' /\
    match pc with PushWrite _ h => h = p | PopRead t => t = p | _ => False end /\
    match pc' with PushWrite _ h => h = p' | PopRead t => t = p' | _ => False end /\ index k p = index k p'.

Lemma mpmc_no_race s g : mpmc_inv s g -> claimed g + 2 * N k < 2 ^ 63 -> ~ mpmc_race s.
Proof.
  intros Hinv Hb (i & j & pc & pc' & p & p' & Hne & Hi & Hj & Hp & Hp' & E). pose proof (mi_shared _ _ Hinv) as Hq.
  assert (H1 : (p ∈ pushing g \/ p ∈ popping g) /\ ticket_of pc = Some p).
  { pose proof (mi_threads _ _ Hinv _ _ Hi) as Hpc. destruct pc; try done; subst; cbn in *; tauto. }
  assert (H2 : (p' ∈ pushing g \/ p' ∈ popping g) /\ ticket_of pc' = Some p').
  { pose proof (mi_threads _ _ Hinv _ _ Hj) as Hpc. destruct pc'; try done; subst; cbn in *; tauto. }
  destruct H1 as [H1 T1], H2 as [H2 T2].
  destruct (ticket_small _ _ _ Hq Hb H1) as [R1 S1], (ticket_small _ _ _ Hq Hb H2) as [R2 S2].
  rewrite S1, S2 in E. destruct (mi_order _ _ Hq).
  apply slot_near in E; [|lia|destruct H1 as [H1|H1], H2 as [H2|H2]; apply Hq in H1, H2; lia..].
  subst p'. apply Hne. by eapply (mi_unique _ _ Hinv).
Qed.

(** [C32] For every capacity [2^k >= 2], any number of threads and every interleaving of their accesses (short enough that
    the counters stay below [2^63]), no access is out of range, no uninitialised slot is read and no subtraction
    overflows; the events are those of the ticket queue: tickets are claimed in order for the items pushed, at most [N] are
    outstanding, they are taken in the same order, a consumer returns the item of the ticket it took, each ticket once; a push
    is refused only when [N] tickets are outstanding or a pop is in progress, a pop only when none is or a push is in
    progress; no two threads are about to access the contents of one slot; when no operation runs none is in progress. *)
Theorem mpmc_tickets n l : len l + 2 * N k < 2 ^ 63 -> exists s evs g,
  mpmc_run (mpmc_start n) l = Some (s, evs) /\ ticket_run no_tickets evs g /\
  mpmc_len (m_queue s) = len (items g) - taken g /\ mpmc_is_empty (m_queue s) = (len (items g) - taken g =? 0) /\
  0 <= len (items g) - taken g <= N k /\ ~ mpmc_race s /\
  (Forall (eq MIdle) (threads s) -> pushing g ∪ popping g = ∅).
Proof.
  intros Hb. pose proof N_two. pose proof (len_nonneg l).
  destruct (mpmc_run_ok l _ _ (mpmc_inv_start n)) as (s & evs & g & E & Hinv & Hr & Hc);
    change (claimed no_tickets) with 0 in *; [lia|].
  exists s, evs, g. destruct (mpmc_counts s g Hinv ltac:(lia)) as [Hl He]. destruct (mi_order _ _ (mi_shared _ _ Hinv)).
  split_and!; try done; [lia|lia| |by apply mpmc_quiescent]. eapply mpmc_no_race; [done|lia].
Qed.

(** *** A thread that runs alone *)

Lemma solo_ok m : forall s g i pc, mpmc_inv s g -> claimed g + Z.of_nat m + 2 * N k < 2 ^ 63 -> threads s !! i = Some pc ->
  (steps_left g pc <= m)%nat -> exists s' evs, mpmc_run s (replicate m (MStep i)) = Some (s', evs) /\ threads s' !! i = Some MIdle.
Proof.
  induction m as [|m IH]; intros s g i pc Hinv Hb Hi Hm.
  - exists s, []. split; [done|]. destruct pc; cbn in Hm; try (repeat case_decide; lia). done.
  - cbn [replicate mpmc_run]. assert (Hd0 : pc = MIdle \/ pc <> MIdle) by (destruct pc; auto). destruct Hd0 as [->|Hne].
    + cbn [mpmc_step]. rewrite Hi. cbn. destruct (IH s g i MIdle Hinv ltac:(lia) Hi ltac:(cbn; lia)) as (s' & evs & -> & ?). cbn. eauto.
    + destruct (thread_step_ok s g i pc Hinv ltac:(lia) Hi Hne) as (q' & pc' & ev & g' & E & Hinv' & _ & Hc & Hd).
      assert (Es : mpmc_step s (MStep i) = Some (MkMpmcState q' (<[i := pc']> (threads s)), ev)).
      { cbn [mpmc_step]. rewrite Hi. destruct pc; [done|..]; rewrite E; done. }
      rewrite Es. cbn. destruct (IH _ g' i pc' Hinv') as (s' & evs & -> & ?); [lia| |lia|cbn; eauto].
      cbn. apply list_lookup_insert_eq. by eapply lookup_lt_Some.
Qed.

End Mpmc.

(** Two producers and a consumer, the first producer delayed between its claim and its write. *)
Definition two_producers : list (MpmcAction (T := Z)) :=
  [MCallPush 0 7; MStep 0; MStep 0; MStep 0; MCallPush 1 8; MStep 1; MStep 1; MStep 1; MStep 1; MStep 1;
   MCallPop 2; MStep 2; MStep 2; MStep 0; MStep 0; MCallPop 2; MStep 2; MStep 2; MStep 2; MStep 2; MStep 2].

Lemma mpmc_tickets_witness :
  option_map snd (mpmc_run 1 (mpmc_start 1 3) two_producers) =
    Some [Claimed 0 7; Claimed 1 8; Published 1; PopEmpty; Published 0; Taken 0; Returned 0 7] /\
  exists s evs g, mpmc_run 1 (mpmc_start 1 3) two_producers = Some (s, evs) /\ ticket_run 1 no_tickets evs g /\
    mpmc_len (m_queue s) = len (items g) - taken g /\ mpmc_is_empty (m_queue s) = (len (items g) - taken g =? 0) /\
    0 <= len (items g) - taken g <= N 1 /\ ~ mpmc_race 1 s /\
    (Forall (eq MIdle) (threads s) -> pushing g ∪ popping g = ∅).
Proof. split; [vm_compute; reflexivity|]. apply (mpmc_tickets 1); [lia|vm_compute; reflexivity]. Defined.


(** What is left is dropped. *)
Example two_producers_dropped :
  ('(s, _) ← mpmc_run 1 (mpmc_start 1 3) two_producers; mpmc_drop 1 3 (m_queue s)) = Some [8].
Proof. vm_compute. reflexivity. Qed.

(** *** Capacity one

    [MpmcQueue<T, 1>] passes [ASSERT_POWER_OF_TWO]: the sequence number that publishes a ticket is then the one that
    frees its slot for the next. *)

Definition push_call (i : nat) (x : Z) : list MpmcAction := MCallPush i x :: replicate 5 (MStep i).

(** Two pushes succeed, the second overwriting the first item. *)
Definition one_slot_twice : option (MpmcState * list MpmcEvent) :=
  mpmc_run 0 (mpmc_start 0 1) (push_call 0 7 ++ push_call 0 8).

(** With [N = 1] two pushes in a row both return [Ok]: the queue then counts two items in its one slot, the first item is
    overwritten, and a [try_pop] that runs alone never returns, however long it runs. *)
Theorem mpmc_capacity_one :
  exists s, one_slot_twice = Some (s, [Claimed 0 7; Published 0; Claimed 1 8; Published 1]) /\
    mpmc_len (m_queue s) = 2 /\ m_buffer (m_queue s) = [Some 8] /\
    forall n, exists s', mpmc_run 0 s (MCallPop 0 :: replicate n (MStep 0)) = Some (s', []) /\ threads s' !! 0%nat <> Some MIdle.
Proof.
  eexists. split; [vm_compute; reflexivity|]. split; [reflexivity|]. split; [reflexivity|]. intros n.
  cbn [mpmc_run mpmc_step threads lookup list_lookup insert list_insert mbind option_bind m_queue].
  assert (H : forall n s', s' = MkMpmcState (MkMpmc 2 0 [2] [Some 8]) [PopLoad] \/ s' = MkMpmcState (MkMpmc 2 0 [2] [Some 8]) [PopSeq 0] ->
    exists s'', mpmc_run 0 s' (replicate n (MStep 0)) = Some (s'', []) /\ threads s'' !! 0%nat <> Some MIdle).
  { clear n. induction n as [|n IH]; intros s' Hs; [exists s'; split; [done|]; by destruct Hs as [->| ->]|].
    cbn [replicate mpmc_run]. destruct Hs as [->| ->].
    - destruct (IH _ (or_intror eq_refl)) as (s'' & E & Ht). exists s''. split; [|done].
      change (mpmc_step 0 _ _) with (Some (MkMpmcState (MkMpmc 2 0 [2] [Some 8]) [PopSeq 0], @nil (MpmcEvent (T := Z)))). cbn. by rewrite E.
    - destruct (IH _ (or_introl eq_refl)) as (s'' & E & Ht). exists s''. split; [|done].
      replace (mpmc_step 0 _ _) with (Some (MkMpmcState (MkMpmc 2 0 [2] [Some 8]) [PopLoad], @nil (MpmcEvent (T := Z)))) by (vm_compute; reflexivity).
      cbn. by rewrite E. }
  destruct (H n _ (or_introl eq_refl)) as (s'' & E & Ht). exists s''. split; [|done]. by rewrite E.
Qed.
