(* ===== verification/Header.v ===== *)
(** * Header values (src/src/handshake.rs)

    The string operations of the standard library on the bytes of a [&str], and the grammar of handshake fields:
    tokens, comma-separated lists, extension parameters, percent escapes.  All separators are ASCII, so splitting bytes
    and splitting characters agree. *)

From stdpp Require Import base list option gmap sets strings.
From Stdlib Require Import Lia.
From S2P Require Import Prelude Error.

#[local] Open Scope string_scope.
#[local] Open Scope list_scope.
#[local] Open Scope Z_scope.

(** ** Strings *)

(** [s.split(c)] *)
Fixpoint split_on (c : Z) (s : bytes) : list bytes :=
  match s with
  | [] => [[]]
  | b :: s =>
      if b =? c then [] :: split_on c s
      else match split_on c s with
           | x :: r => (b :: x) :: r
           | [] => [[b]]
           end
  end.

(** [s.split_once(c)] *)
Fixpoint split_at (c : Z) (s : bytes) : option (bytes * bytes) :=
  match s with
  | [] => None
  | b :: s => if b =? c then Some ([], s) else '(x, y) ← split_at c s; Some (b :: x, y)
  end.

Definition is_space_or_tab (b : Z) : bool := (b =? 32) || (b =? 9).
Fixpoint skip_ows (s : bytes) : bytes :=
  match s with b :: t => if is_space_or_tab b then skip_ows t else s | [] => [] end.
(** [s.trim_matches(|c| matches!(c, ' ' | '\t'))] *)
Definition trim_optional_whitespace (s : bytes) : bytes := reverse (skip_ows (reverse (skip_ows s))).

Definition to_ascii_lowercase (b : Z) : Z := if (65 <=? b) && (b <=? 90) then b + 32 else b.
Definition eq_ignore_ascii_case (a b : bytes) : bool :=
  bool_decide (map to_ascii_lowercase a = map to_ascii_lowercase b).

(** [haystack.find(needle)] *)
Fixpoint starts_with (needle s : bytes) : bool :=
  match needle, s with
  | [], _ => true
  | a :: n, b :: s => (a =? b) && starts_with n s
  | _ :: _, [] => false
  end.
Fixpoint find (needle s : bytes) : option Z :=
  if starts_with needle s then Some 0
  else match s with [] => None | _ :: s => i ← find needle s; Some (i + 1) end.

(** [s.get(a..b)] of a [&str]: in range, and not inside a character *)
Definition is_char_boundary (s : bytes) (i : Z) : bool :=
  (i =? len s) || ((0 <=? i) && (i <? len s) && negb ((128 <=? s.[i]) && (s.[i] <=? 191))).
Definition get_range (s : bytes) (a b : Z) : option bytes :=
  if (a <=? b) && (b <=? len s) && is_char_boundary s a && is_char_boundary s b then Some (upto (b - a) (from a s)) else None.

(** ** The grammar of fields *)

Definition is_ascii_alphanumeric (b : Z) : bool :=
  ((48 <=? b) && (b <=? 57)) || ((65 <=? b) && (b <=? 90)) || ((97 <=? b) && (b <=? 122)).
Definition is_ascii_hexdigit (b : Z) : bool :=
  ((48 <=? b) && (b <=? 57)) || ((65 <=? b) && (b <=? 70)) || ((97 <=? b) && (b <=? 102)).
Definition is_ascii_digit_byte (b : Z) : bool := (48 <=? b) && (b <=? 57).

Definition is_header_value_byte (b : Z) : bool := (b =? 9) || ((32 <=? b) && negb (b =? 127)).
Definition is_request_target_byte (b : Z) : bool := (32 <? b) && negb (b =? 127).
Definition is_header_name_byte (b : Z) : bool :=
  is_ascii_alphanumeric b || existsb (Z.eqb b) (str "!#$%&'*+-.^_`|~").
Definition is_token (v : bytes) : bool := negb (bool_decide (v = [])) && forallb is_header_name_byte v.

Definition list_elements (v : bytes) : list bytes := map trim_optional_whitespace (split_on 44 v).

Definition is_zero_content_length (v : bytes) : bool :=
  forallb (fun l => negb (bool_decide (l = [])) && forallb (Z.eqb 48) l) (list_elements v).

Definition has_token_ignore_case (v token : bytes) : bool :=
  existsb (fun part => eq_ignore_ascii_case (trim_optional_whitespace part) token) (split_on 44 v).

(** [is_valid_protocol_list]: the loop over the offers with the set of those seen. *)
Fixpoint protocols_loop (seen : gset bytes) (l : list bytes) : bool :=
  match l with
  | [] => negb (bool_decide (seen = ∅))
  | p :: l =>
      if negb (is_token p) || bool_decide (p ∈ seen) then false else protocols_loop ({[p]} ∪ seen) l
  end.
Definition non_empty (v : bytes) : bool := negb (bool_decide (v = [])).
Definition is_valid_protocol_list (v : bytes) : bool := protocols_loop ∅ (List.filter non_empty (list_elements v)).

(** [strip_prefix('"')] then [strip_suffix('"')] *)
Definition strip_quotes (v : bytes) : option bytes :=
  match v with
  | a :: t =>
      if a =? 34 then match reverse t with b :: r => if b =? 34 then Some (reverse r) else None | [] => None end else None
  | [] => None
  end.
Fixpoint unescaped_token (v : bytes) : bool :=
  match v with
  | [] => true
  | b :: t =>
      if b =? 92 then match t with [] => false | e :: t' => is_header_name_byte e && unescaped_token t' end
      else is_header_name_byte b && unescaped_token t
  end.
Definition is_valid_extension_value (v : bytes) : bool :=
  is_token v ||
  match strip_quotes v with
  | None => false
  | Some v => non_empty v && unescaped_token v
  end.

Definition is_valid_parameter (p : bytes) : bool :=
  match split_at 61 p with
  | Some (name, v) => is_token (trim_optional_whitespace name) && is_valid_extension_value (trim_optional_whitespace v)
  | None => is_token p
  end.
Definition is_valid_extension (e : bytes) : bool :=
  match map trim_optional_whitespace (split_on 59 e) with
  | [] => false
  | name :: params => is_token name && forallb is_valid_parameter params
  end.
Definition is_valid_extension_list (v : bytes) : bool :=
  let l := List.filter non_empty (list_elements v) in
  forallb is_valid_extension l && negb (bool_decide (l = [])).

(** [has_valid_percent_encoding]: jump from one ['%'] to the next. *)
Fixpoint position (c : Z) (s : bytes) : option Z :=
  match s with [] => None | b :: s => if b =? c then Some 0 else i ← position c s; Some (i + 1) end.
Fixpoint percent_loop (fuel : nat) (s : bytes) (index : Z) : option bool :=
  match fuel with
  | O => None
  | S fuel =>
      match position 37 (from index s) with
      | None => Some true
      | Some offset =>
          let index := index + offset in
          if len s <? index + 3 then Some false
          else if forallb is_ascii_hexdigit (upto 2 (from (index + 1) s)) then percent_loop fuel s (index + 3)
          else Some false
      end
  end.
Definition has_valid_percent_encoding (s : bytes) : bool :=
  match percent_loop (S (length s)) s 0 with Some b => b | None => false end.

(** ** Choosing a subprotocol *)

Definition select_default_subprotocol (v : option bytes) : option bytes :=
  v ← v; List.find non_empty (list_elements v).
Definition validate_supported_protocols (protocols : list bytes) : result unit :=
  if forallb is_token protocols then Ok tt else Err (InvalidHttp "invalid supported subprotocol").
Definition select_supported_subprotocol (offered : option bytes) (supported : list bytes) : option bytes :=
  offered ← offered;
  List.find (fun candidate => existsb (fun offer => bool_decide (offer = candidate)) (list_elements offered)) supported.
Definition validate_selected_protocol (offered selected : option bytes) : result unit :=
  match selected with
  | None => Ok tt
  | Some selected =>
      if match offered with
         | Some offered => existsb (fun candidate => bool_decide (candidate = selected)) (list_elements offered)
         | None => false
         end
      then Ok tt else Err (HandshakeFailed "server returned an unoffered subprotocol")
  end.

(** ** Bytes of fields *)

Lemma split_on_cons c s : exists x r, split_on c s = x :: r.
Proof. induction s as [|b s (x & r & E)]; cbn; [eauto|]. destruct (b =? c); [eauto|]. rewrite E. eauto. Qed.

(** A property of the separator and of every byte of the parts holds of every byte. *)
Lemma split_on_Forall (P : Z -> Prop) c s : P c -> Forall (Forall P) (split_on c s) -> Forall P s.
Proof.
  intros Hc. induction s as [|b s IH]; cbn; [done|]. destruct (Z.eqb_spec b c) as [->|].
  - intros [_ Hs]%Forall_cons. constructor; [done|by apply IH].
  - destruct (split_on_cons c s) as (x & r & E). rewrite E in *. intros [[Hb Hx]%Forall_cons Hr]%Forall_cons.
    constructor; [done|]. apply IH. by constructor.
Qed.

Lemma skip_ows_Forall (P : Z -> Prop) s : P 32 -> P 9 -> Forall P (skip_ows s) -> Forall P s.
Proof.
  intros H32 H9. induction s as [|b s IH]; cbn; [done|]. unfold is_space_or_tab.
  destruct (Z.eqb_spec b 32) as [->|]; cbn; [intros; constructor; auto|]. destruct (Z.eqb_spec b 9) as [->|]; cbn; [intros; constructor; auto|done].
Qed.

Lemma trim_Forall (P : Z -> Prop) s : P 32 -> P 9 -> Forall P (trim_optional_whitespace s) -> Forall P s.
Proof.
  intros H32 H9. unfold trim_optional_whitespace. rewrite Forall_reverse. intros Hs%skip_ows_Forall; [|done..].
  rewrite Forall_reverse in Hs. by apply skip_ows_Forall in Hs.
Qed.

Lemma list_elements_Forall (P : Z -> Prop) v : P 44 -> P 32 -> P 9 -> Forall (Forall P) (list_elements v) -> Forall P v.
Proof.
  intros H44 H32 H9 Hv. apply (split_on_Forall _ 44); [done|]. unfold list_elements in Hv. rewrite Forall_map in Hv.
  eapply Forall_impl; [exact Hv|]. intros part. by apply trim_Forall.
Qed.

Lemma split_at_eq c s x y : split_at c s = Some (x, y) -> s = x ++ c :: y.
Proof.
  revert x y. induction s as [|b s IH]; intros x y E; cbn in E; [done|].
  destruct (Z.eqb_spec b c) as [->|]; [by injection E as <- <-|]. destruct (split_at c s) as [[x' y']|]; cbn in E; [|done].
  injection E as <- <-. cbn. f_equal. by apply IH.
Qed.

Lemma skip_ows_id s : Forall (fun b => is_space_or_tab b = false) s -> skip_ows s = s.
Proof. destruct s as [|b s]; [done|]. intros [Hb _]%Forall_cons. cbn. by rewrite Hb. Qed.

Lemma trim_id s : Forall (fun b => is_space_or_tab b = false) s -> trim_optional_whitespace s = s.
Proof.
  intros Hs. unfold trim_optional_whitespace. rewrite (skip_ows_id s) by done.
  rewrite skip_ows_id by by apply Forall_reverse. apply reverse_involutive.
Qed.

(** What a byte of a token, of a value or of a target can be. *)
Definition is_text_byte (b : Z) : Prop := is_header_value_byte b = true.

Lemma name_byte_range b : is_header_name_byte b = true -> 33 <= b <= 126 /\ b <> 44.
Proof.
  unfold is_header_name_byte, is_ascii_alphanumeric.
  change (str _) with [33; 35; 36; 37; 38; 39; 42; 43; 45; 46; 94; 95; 96; 124; 126]. cbn [existsb]. lia.
Qed.

Lemma text_byte b : 32 <= b <= 126 \/ b = 9 -> is_text_byte b.
Proof. unfold is_text_byte, is_header_value_byte. lia. Qed.
#[export] Hint Resolve text_byte : ws.

Lemma forallb_Forall_true {A} (f : A -> bool) l : forallb f l = true <-> Forall (fun x => f x = true) l.
Proof. induction l as [|x l IH]; cbn; [by split|]. by rewrite andb_true_iff, Forall_cons, IH. Qed.

Lemma is_token_spec v : is_token v = true <-> v <> [] /\ Forall (fun b => is_header_name_byte b = true) v.
Proof.
  unfold is_token. by rewrite andb_true_iff, negb_true_iff, bool_decide_eq_false, forallb_Forall_true.
Qed.

Lemma token_range v : is_token v = true -> Forall (fun b => 33 <= b <= 126) v.
Proof. intros [_ Hv]%is_token_spec. eapply Forall_impl; [exact Hv|]. by intros b [? _]%name_byte_range. Qed.

Lemma token_text v : is_token v = true -> Forall is_text_byte v.
Proof. intros Hv%token_range. eapply Forall_impl; [exact Hv|]. intros b Hb. cbn in Hb. apply text_byte. lia. Qed.

Lemma range_trimmed v : Forall (fun b => 33 <= b <= 126) v -> trim_optional_whitespace v = v.
Proof. intros Hv. apply trim_id. eapply Forall_impl; [exact Hv|]. intros b Hb. unfold is_space_or_tab. cbn beta in Hb. lia. Qed.

(** ** Lists of tokens *)

Lemma non_empty_spec v : non_empty v = true <-> v <> [].
Proof. unfold non_empty. by rewrite negb_true_iff, bool_decide_eq_false. Qed.

Lemma protocols_loop_spec l : forall seen, protocols_loop seen l = true <->
  Forall (fun p => is_token p = true) l /\ NoDup l /\ Forall (fun p => p ∉ seen) l /\ (l <> [] \/ seen <> ∅).
Proof.
  induction l as [|p l IH]; intros seen; cbn.
  - rewrite negb_true_iff, bool_decide_eq_false. split; [|by intros (_ & _ & _ & [?|?])]. intros ?. split_and!; [done|constructor|done|by right].
  - rewrite !Forall_cons, NoDup_cons. destruct (is_token p); cbn; [|naive_solver].
    destruct (decide (p ∈ seen)) as [Hin|Hin]; [rewrite bool_decide_eq_true_2 by done; naive_solver|].
    rewrite bool_decide_eq_false_2 by done. rewrite IH. split.
    + intros (Ht & Hn & Hs & _). split_and!; try done; [|rewrite Forall_forall in *; set_solver|by left].
      rewrite Forall_forall in Hs. set_solver.
    + intros (_Ht & [Hp Hn] & [_ Hs] & _). split_and!; [naive_solver|done| |right; set_solver].
      rewrite Forall_forall in *. intros x Hx [->%elem_of_singleton|?]%elem_of_union; [done|by eapply Hs].
Qed.

Definition offers (v : bytes) : list bytes := List.filter non_empty (list_elements v).

Lemma valid_protocol_list v : is_valid_protocol_list v = true <->
  Forall (fun p => is_token p = true) (offers v) /\ NoDup (offers v) /\ offers v <> [].
Proof.
  unfold is_valid_protocol_list. rewrite protocols_loop_spec. fold (offers v). split; [naive_solver|].
  intros (? & ? & ?). split_and!; [done|done| |by left]. apply Forall_forall. set_solver.
Qed.

(** A valid list has only bytes of its elements, commas and optional whitespace. *)
Lemma offers_text v : Forall (Forall is_text_byte) (offers v) -> Forall is_text_byte v.
Proof.
  intros Hv. apply list_elements_Forall; [apply text_byte; lia..|]. unfold offers in Hv.
  induction (list_elements v) as [|p l IH]; [done|]. cbn in Hv. unfold non_empty in Hv at 1.
  destruct (decide (p = [])) as [->|Hne].
  - rewrite bool_decide_eq_true_2 in Hv by done. constructor; [done|by apply IH].
  - rewrite bool_decide_eq_false_2 in Hv by done. apply Forall_cons in Hv as [? ?]. constructor; [done|by apply IH].
Qed.

Lemma protocol_list_text v : is_valid_protocol_list v = true -> Forall is_text_byte v.
Proof. intros (Hv & _ & _)%valid_protocol_list. apply offers_text. eapply Forall_impl; [exact Hv|]. apply token_text. Qed.

Lemma unescaped_text v : forall n, (length v <= n)%nat -> unescaped_token v = true -> Forall is_text_byte v.
Proof.
  assert (Hname : forall b, is_header_name_byte b = true -> is_text_byte b).
  { intros b [Hb _]%name_byte_range. apply text_byte. lia. }
  intros n. revert v. induction n as [|n IH]; intros [|b v] Hl; cbn in *; try (done || lia).
  destruct (Z.eqb_spec b 92) as [->|].
  - destruct v as [|e v]; [done|]. intros [He Hv]%andb_prop. cbn in Hl.
    constructor; [apply text_byte; lia|]. constructor; [by apply Hname|]. apply IH; [lia|done].
  - intros [Hb Hv]%andb_prop. constructor; [by apply Hname|]. apply IH; [lia|done].
Qed.

Lemma extension_value_text v : is_valid_extension_value v = true -> Forall is_text_byte v.
Proof.
  unfold is_valid_extension_value. intros [Hv|Hv]%orb_prop; [by apply token_text|].
  destruct (strip_quotes v) as [w|] eqn:E; [|done]. apply andb_prop in Hv as [_ Hw].
  apply (unescaped_text _ _ ltac:(done)) in Hw. unfold strip_quotes in E. destruct v as [|a t]; [done|].
  destruct (Z.eqb_spec a 34) as [->|]; [|done]. destruct (reverse t) as [|b r] eqn:Er; [done|].
  destruct (Z.eqb_spec b 34) as [->|]; [|done]. injection E as <-. constructor; [apply text_byte; lia|].
  apply Forall_reverse. rewrite Er. constructor; [apply text_byte; lia|]. by rewrite Forall_reverse in Hw.
Qed.

Lemma parameter_text p : is_valid_parameter p = true -> Forall is_text_byte p.
Proof.
  unfold is_valid_parameter. destruct (split_at 61 p) as [[x y]|] eqn:E; [|apply token_text].
  intros [Hx%token_text Hy%extension_value_text]%andb_prop. rewrite (split_at_eq _ _ _ _ E).
  apply Forall_app. split; [|constructor]; [|apply text_byte; lia|]; eapply trim_Forall; try (apply text_byte; lia); done.
Qed.

Lemma extension_text e : is_valid_extension e = true -> Forall is_text_byte e.
Proof.
  unfold is_valid_extension. intros He. apply (split_on_Forall _ 59); [apply text_byte; lia|].
  destruct (split_on_cons 59 e) as (x & r & E). rewrite E in *. cbn in He. apply andb_prop in He as [Hx%token_text Hr].
  constructor; [by eapply trim_Forall; try (apply text_byte; lia)|].
  apply forallb_Forall_true in Hr. rewrite Forall_map in Hr. eapply Forall_impl; [exact Hr|]. intros p Hp%parameter_text.
  eapply trim_Forall; try (apply text_byte; lia); done.
Qed.

Lemma extension_list_text v : is_valid_extension_list v = true -> Forall is_text_byte v.
Proof.
  unfold is_valid_extension_list. intros [Hv _]%andb_prop. apply forallb_Forall_true in Hv. apply offers_text.
  eapply Forall_impl; [exact Hv|]. apply extension_text.
Qed.

(** ** Percent escapes: every ['%'] is followed by two hexadecimal digits *)

Fixpoint percent_ok (s : bytes) : bool :=
  match s with
  | [] => true
  | b :: t =>
      if b =? 37 then
        match t with
        | x :: y :: t' => is_ascii_hexdigit x && is_ascii_hexdigit y && percent_ok t'
        | _ => false
        end
      else percent_ok t
  end.

Lemma position_spec c s :
  match position c s with
  | None => Forall (fun b => b <> c) s
  | Some i => exists pre post, s = pre ++ c :: post /\ Forall (fun b => b <> c) pre /\ i = len pre
  end.
Proof.
  induction s as [|b s IH]; cbn; [done|]. destruct (Z.eqb_spec b c) as [->|Hne]; [by exists [], s|].
  destruct (position c s) as [i|]; cbn; [|by constructor].
  destruct IH as (pre & post & -> & Hp & ->). exists (b :: pre), post. rewrite len_cons. split_and!; [done|by constructor|lia].
Qed.

Lemma percent_ok_skip pre s : Forall (fun b => b <> 37) pre -> percent_ok (pre ++ s) = percent_ok s.
Proof. induction 1 as [|b pre Hb _ IH]; [done|]. cbn. by rewrite (proj2 (Z.eqb_neq _ _) Hb). Qed.

Lemma percent_loop_ok fuel : forall s index, 0 <= index <= len s -> len s - index < Z.of_nat fuel ->
  percent_loop fuel s index = Some (percent_ok (from index s)).
Proof.
  induction fuel as [|fuel IH]; intros s index Hi Hf; [lia|]. cbn [percent_loop].
  pose proof (position_spec 37 (from index s)) as Hp. destruct (position 37 (from index s)) as [i|].
  - destruct Hp as (pre & post & E & Hp & ->). rewrite E, percent_ok_skip by done. cbn [percent_ok].
    pose proof (f_equal len E) as El. rewrite len_from, len_app, len_cons in El by lia.
    pose proof (len_nonneg pre). pose proof (len_nonneg post).
    assert (E1 : from (index + len pre + 1) s = post).
    { rewrite <- Z.add_assoc, <- from_from, E, from_app_ge by lia. replace (len pre + 1 - len pre) with 1 by lia. done. }
    assert (E3 : from (index + len pre + 3) s = from 2 post).
    { replace (index + len pre + 3) with ((index + len pre + 1) + 2) by lia. rewrite <- from_from by lia. by rewrite E1. }
    rewrite Z.eqb_refl, E1. destruct post as [|x [|y post]].
    + change (len (@nil Z)) with 0 in El. by ztrue (len s <? index + len pre + 3).
    + rewrite len_cons in El. change (len (@nil Z)) with 0 in El. by ztrue (len s <? index + len pre + 3).
    + rewrite !len_cons in El. pose proof (len_nonneg post). zfalse (len s <? index + len pre + 3).
      change (upto 2 (x :: y :: post)) with [x; y]. cbn [forallb]. rewrite andb_true_r.
      destruct (is_ascii_hexdigit x && is_ascii_hexdigit y); [|done].
      rewrite IH by lia. by rewrite E3.
  - rewrite <- (app_nil_r (from index s)). by rewrite percent_ok_skip.
Qed.

Lemma has_valid_percent_encoding_ok s : has_valid_percent_encoding s = percent_ok s.
Proof.
  unfold has_valid_percent_encoding. pose proof (len_nonneg s). rewrite percent_loop_ok; [by rewrite from_0|lia|unfold len; lia].
Qed.

(** ** Selection *)

Lemma select_supported_spec offered supported :
  match select_supported_subprotocol (Some offered) supported with
  | Some p => exists before after, supported = before ++ p :: after /\ p ∈ list_elements offered /\
      Forall (fun q => q ∉ list_elements offered) before
  | None => Forall (fun q => q ∉ list_elements offered) supported
  end.
Proof.
  cbn. induction supported as [|p l IH]; cbn; [done|].
  destruct (existsb _ (list_elements offered)) eqn:E.
  - apply existsb_exists in E as (q & Hq & ->%bool_decide_eq_true). exists [], l. split; [done|]. split; [|done].
    by apply list_elem_of_In.
  - assert (Hn : p ∉ list_elements offered).
    { intros Hp%list_elem_of_In. rewrite <- not_true_iff_false in E. apply E, existsb_exists. exists p.
      by rewrite bool_decide_eq_true. }
    destruct (List.find _ l) as [q|]; [|by constructor].
    destruct IH as (before & after & -> & ? & ?). exists (p :: before), after. split; [done|]. split; [done|by constructor].
Qed.

Lemma select_default_spec offered p : select_default_subprotocol (Some offered) = Some p ->
  p ∈ offers offered.
Proof.
  cbn. unfold offers. intros E. apply List.find_some in E as [Hin Hp]. apply list_elem_of_In, filter_In. done.
Qed.

Lemma offers_elements v p : p ∈ offers v -> p ∈ list_elements v.
Proof. rewrite !list_elem_of_In. unfold offers. by intros [? _]%filter_In. Qed.

Lemma validate_selected_ok offered p : p ∈ list_elements offered -> validate_selected_protocol (Some offered) (Some p) = Ok tt.
Proof.
  intros Hp. cbn. rewrite (proj2 (existsb_exists _ _)); [done|]. exists p. split; [by apply list_elem_of_In|].
  by apply bool_decide_eq_true.
Qed.
