(* ===== verification/Handshake.v ===== *)
(** * The HTTP/1.1 upgrade (src/src/handshake.rs)

    Building and parsing the upgrade request and response, and the two handshakes over a transport.  The crates the code
    calls are parameters: httparse, base64, sha1, and the URI parser of http. *)

From stdpp Require Import base list option strings.
From Stdlib Require Import Lia.
From S2P Require Import Prelude Error Utf8 Header.

#[local] Open Scope string_scope.
#[local] Open Scope list_scope.
#[local] Open Scope Z_scope.

(** ** The crates *)

(** [httparse]: a head is complete, with its length, or partial; [None] for an error. *)
Record HttpHeader := MkHeader { h_name : bytes; h_value : bytes }.
Record HttpRequest := MkHttpRequest {
  r_method : option bytes; r_path : option bytes; r_version : option Z; r_headers : list HttpHeader }.
Record HttpResponse := MkHttpResponse { r_code : option Z; r_minor : option Z; r_fields : list HttpHeader }.
Inductive ParseStatus (A : Type) := Complete (head : A) (length : Z) | Partial.
Arguments Complete {A} head length.
Arguments Partial {A}.

Class Httparse := {
  request_parse : bytes -> option (ParseStatus HttpRequest);
  response_parse : bytes -> option (ParseStatus HttpResponse) }.

(** [base64::engine::general_purpose::STANDARD]; [decode_slice] gives the number of bytes decoded. *)
Class Base64 := { b64_encode : bytes -> bytes; b64_decode_slice : bytes -> Z -> option Z }.

Class Sha1 := sha1 : bytes -> bytes.

(** [http::Uri]: the parts of a URI; an authority is its text and the host in it. *)
Record Uri := MkUri { scheme_str : option bytes; authority : option (bytes * bytes); path_and_query : option bytes }.
Class UriParser := uri_parse : bytes -> option Uri.

Definition MAX_HEADER_SIZE := 8192.
Definition WS_GUID : bytes := str "258EAFA5-E914-47DA-95CA-C5AB0DC85B11".
Definition CRLF : bytes := [13; 10].

Definition RESERVED_HANDSHAKE_HEADERS : list bytes :=
  [str "host"; str "upgrade"; str "connection"; str "sec-websocket-key"; str "sec-websocket-version";
   str "sec-websocket-protocol"; str "sec-websocket-extensions"; str "content-length"; str "transfer-encoding"].

Section Handshake.
Context `{Httparse, Base64, Sha1, UriParser}.

(** ** Keys *)

Definition is_valid_websocket_key (value : bytes) : bool :=
  match b64_decode_slice value 24 with Some n => n =? 16 | None => false end.
Definition generate_accept_key (key : bytes) : bytes := b64_encode (sha1 (key ++ WS_GUID)).
Definition validate_accept_key (sent_key received_accept : bytes) : bool :=
  bool_decide (generate_accept_key sent_key = received_accept).
(** [generate_key], for the random bytes drawn *)
Definition generate_key (random : bytes) : bytes := b64_encode random.

(** ** Request targets *)

Definition is_valid_origin_form (target : bytes) : bool :=
  starts_with [47] target && has_valid_percent_encoding target &&
  match uri_parse target with
  | None => false
  | Some uri =>
      match scheme_str uri, authority uri, path_and_query uri with
      | None, None, Some pq => bool_decide (pq = target)
      | _, _, _ => false
      end
  end.

Definition valid_port_suffix (suffix : bytes) : bool :=
  bool_decide (suffix = []) ||
  match suffix with c :: port => (c =? 58) && forallb is_ascii_digit_byte port | [] => false end.

Definition parse_server_request_target (target header_host : bytes) : option (bytes * bytes) :=
  if is_valid_origin_form target then Some (target, header_host)
  else
    uri ← uri_parse target;
    scheme ← scheme_str uri;
    if negb (eq_ignore_ascii_case scheme (str "http")) && negb (eq_ignore_ascii_case scheme (str "https")) then None else
    '(parsed_authority, host) ← authority uri;
    if bool_decide (host = []) || existsb (Z.eqb 64) parsed_authority then None else
    port_suffix ← get_range parsed_authority (len host) (len parsed_authority);
    if negb (valid_port_suffix port_suffix) then None else
    scheme_end ← find (str "://") target;
    let authority_start := scheme_end + 3 in
    if 2 ^ 64 <=? authority_start + len parsed_authority then None else
    let authority_end := authority_start + len parsed_authority in
    authority ← get_range target authority_start authority_end;
    if negb (bool_decide (authority = parsed_authority)) then None else
    resource ← get_range target authority_end (len target);
    if existsb (Z.eqb 35) resource || negb (has_valid_percent_encoding resource) then None else
    if bool_decide (resource = []) then Some (str "/", authority)
    else if starts_with [63] resource then Some (str "/" ++ resource, authority)
    else if match path_and_query uri with Some pq => bool_decide (pq = resource) | None => false end
         then Some (resource, authority)
    else None.

(** ** Parsing the request *)

Record HandshakeRequest := MkRequest {
  path : bytes; host : option bytes; key : bytes; version : bytes;
  protocol : option bytes; extensions : option bytes; origin : option bytes }.

(** The local variables of the loop over the headers. *)
Record RequestFields := MkFields {
  f_key : option bytes; f_version : option bytes; f_host : option bytes; f_protocol : option bytes;
  f_extensions : option bytes; f_origin : option bytes; f_upgrade : bool; f_connection_upgrade : bool }.
Definition no_fields : RequestFields := MkFields None None None None None None false false.

Definition request_header (f : RequestFields) (h : HttpHeader) : result RequestFields :=
  let '(MkFields key version host protocol extensions origin upgrade connection_upgrade) := f in
  let name := h_name h in
  let value := h_value h in
  if negb (str_from_utf8 value) then Err (InvalidHttp "invalid header value")
  else if eq_ignore_ascii_case name (str "sec-websocket-key") then
    if bool_decide (is_Some key) then Err (HandshakeFailed "duplicate Sec-WebSocket-Key")
    else Ok (MkFields (Some value) version host protocol extensions origin upgrade connection_upgrade)
  else if eq_ignore_ascii_case name (str "sec-websocket-version") then
    if bool_decide (is_Some version) then Err (HandshakeFailed "duplicate Sec-WebSocket-Version")
    else Ok (MkFields key (Some value) host protocol extensions origin upgrade connection_upgrade)
  else if eq_ignore_ascii_case name (str "sec-websocket-protocol") then
    if negb (is_valid_protocol_list value) then Err (HandshakeFailed "invalid Sec-WebSocket-Protocol")
    else Ok (MkFields key version host (Some value) extensions origin upgrade connection_upgrade)
  else if eq_ignore_ascii_case name (str "sec-websocket-extensions") then
    if negb (is_valid_extension_list value) then Err (HandshakeFailed "invalid Sec-WebSocket-Extensions")
    else Ok (MkFields key version host protocol (Some value) origin upgrade connection_upgrade)
  else if eq_ignore_ascii_case name (str "host") then
    Ok (MkFields key version (Some value) protocol extensions origin upgrade connection_upgrade)
  else if eq_ignore_ascii_case name (str "origin") then
    Ok (MkFields key version host protocol extensions (Some value) upgrade connection_upgrade)
  else if eq_ignore_ascii_case name (str "upgrade") then
    Ok (MkFields key version host protocol extensions origin
          (has_token_ignore_case value (str "websocket") || upgrade) connection_upgrade)
  else if eq_ignore_ascii_case name (str "connection") && has_token_ignore_case value (str "upgrade") then
    Ok (MkFields key version host protocol extensions origin upgrade true)
  else if eq_ignore_ascii_case name (str "content-length") then
    if negb (is_zero_content_length value) then Err (InvalidHttp "WebSocket handshake must not contain a body") else Ok f
  else if eq_ignore_ascii_case name (str "transfer-encoding") then
    Err (InvalidHttp "WebSocket handshake must not use Transfer-Encoding")
  else Ok f.

Fixpoint request_headers (f : RequestFields) (l : list HttpHeader) : result RequestFields :=
  match l with
  | [] => Ok f
  | h :: l => match request_header f h with Ok f => request_headers f l | Err e => Err e end
  end.

(** The checks after the loop. *)
Definition check_request (f : RequestFields) (target : option bytes) : result HandshakeRequest :=
  if negb (f_upgrade f) then Err (HandshakeFailed "missing Upgrade: websocket") else
  if negb (f_connection_upgrade f) then Err (HandshakeFailed "missing Connection: Upgrade") else
  match f_key f with None => Err (HandshakeFailed "missing Sec-WebSocket-Key") | Some key =>
  match f_version f with None => Err (HandshakeFailed "missing Sec-WebSocket-Version") | Some version =>
  match f_host f with
  | None | Some [] => Err (HandshakeFailed "missing Host")
  | Some host =>
    if negb (bool_decide (version = str "13")) then Err (HandshakeFailed "unsupported WebSocket version") else
    if negb (is_valid_websocket_key key) then Err (HandshakeFailed "invalid Sec-WebSocket-Key") else
    match target with None => Err (InvalidHttp "missing request target") | Some target =>
    match parse_server_request_target target host with
    | None => Err (InvalidHttp "invalid request target")
    | Some (path, host) => Ok (MkRequest path (Some host) key version (f_protocol f) (f_extensions f) (f_origin f))
    end end
  end end end.

Definition parse_request (buf : bytes) : result (option (HandshakeRequest * Z)) :=
  let parse_buf := upto (Z.min (len buf) (MAX_HEADER_SIZE + 1)) buf in
  match request_parse parse_buf with
  | Some (Complete req n) =>
      if MAX_HEADER_SIZE <? n then Err (InvalidHttp "request too large") else
      if negb (bool_decide (r_method req = Some (str "GET"))) then Err (InvalidHttp "method must be GET") else
      if negb (bool_decide (r_version req = Some 1)) then Err (InvalidHttp "HTTP version must be 1.1") else
      match request_headers no_fields (r_headers req) with
      | Err e => Err e
      | Ok f => match check_request f (r_path req) with Err e => Err e | Ok r => Ok (Some (r, n)) end
      end
  | Some Partial => if MAX_HEADER_SIZE <? len buf then Err (InvalidHttp "request too large") else Ok None
  | None => Err (InvalidHttp "failed to parse HTTP request")
  end.

(** ** Building the request *)

Definition header_line (name value : bytes) : bytes := name ++ str ": " ++ value ++ CRLF.
Definition optional_line (name : bytes) (value : option bytes) : bytes :=
  match value with Some v => header_line name v | None => [] end.

Definition build_request_inner (host path key : bytes) (protocol extensions : option bytes)
    (extra_headers : option (list (bytes * bytes))) : bytes :=
  str "GET " ++ path ++ str " HTTP/1.1" ++ CRLF ++
  header_line (str "Host") host ++
  str "Upgrade: websocket" ++ CRLF ++
  str "Connection: Upgrade" ++ CRLF ++
  header_line (str "Sec-WebSocket-Key") key ++
  str "Sec-WebSocket-Version: 13" ++ CRLF ++
  optional_line (str "Sec-WebSocket-Protocol") protocol ++
  optional_line (str "Sec-WebSocket-Extensions") extensions ++
  match extra_headers with
  | Some headers => concat (map (fun '(name, value) => header_line name value) headers)
  | None => []
  end ++
  CRLF.

Definition build_request (host path key : bytes) (protocol extensions : option bytes) : bytes :=
  build_request_inner host path key protocol extensions None.

Definition validate_header_value (value : bytes) (error : string) : result unit :=
  if forallb is_header_value_byte value then Ok tt else Err (InvalidHttp error).

Definition validate_request_fields (host path key : bytes) (protocol extensions : option bytes) : result unit :=
  match validate_header_value host "invalid Host" with
  | Err e => Err e
  | Ok _ =>
    if bool_decide (host = []) then Err (InvalidHttp "invalid Host") else
    if negb (forallb is_request_target_byte path) then Err (InvalidHttp "invalid request target") else
    if negb (is_valid_websocket_key key) then Err (InvalidHttp "invalid Sec-WebSocket-Key") else
    if match protocol with
       | Some p => negb (is_valid_protocol_list p) || existsb (fun e => bool_decide (e = [])) (list_elements p)
       | None => false
       end
    then Err (InvalidHttp "invalid Sec-WebSocket-Protocol") else
    if match extensions with
       | Some p => negb (is_valid_extension_list p) || existsb (fun e => bool_decide (e = [])) (list_elements p)
       | None => false
       end
    then Err (InvalidHttp "invalid Sec-WebSocket-Extensions") else
    Ok tt
  end.

Fixpoint validate_extra_headers (headers : list (bytes * bytes)) : result unit :=
  match headers with
  | [] => Ok tt
  | (name, value) :: headers =>
      if negb (is_token name) then Err (InvalidHttp "invalid header name")
      else if existsb (fun reserved => eq_ignore_ascii_case name reserved) RESERVED_HANDSHAKE_HEADERS
      then Err (InvalidHttp "reserved handshake header")
      else if negb (forallb is_header_value_byte value) then Err (InvalidHttp "invalid header value")
      else validate_extra_headers headers
  end.

Definition build_request_with_headers (host path key : bytes) (protocol extensions : option bytes)
    (extra_headers : option (list (bytes * bytes))) : result bytes :=
  match validate_request_fields host path key protocol extensions with
  | Err e => Err e
  | Ok _ =>
      match match extra_headers with Some headers => validate_extra_headers headers | None => Ok tt end with
      | Err e => Err e
      | Ok _ => Ok (build_request_inner host path key protocol extensions extra_headers)
      end
  end.

(** ** The response *)

Definition build_response (accept_key : bytes) (protocol extensions : option bytes) : bytes :=
  str "HTTP/1.1 101 Switching Protocols" ++ CRLF ++
  str "Upgrade: websocket" ++ CRLF ++
  str "Connection: Upgrade" ++ CRLF ++
  header_line (str "Sec-WebSocket-Accept") accept_key ++
  optional_line (str "Sec-WebSocket-Protocol") protocol ++
  optional_line (str "Sec-WebSocket-Extensions") extensions ++
  CRLF.

Record HandshakeResponse := MkResponse {
  status : Z; accept : option bytes; s_protocol : option bytes; s_extensions : option bytes }.
Record ResponseFields := MkResponseFields {
  g_accept : option bytes; g_protocol : option bytes; g_extensions : option bytes;
  g_upgrade : bool; g_connection_upgrade : bool }.

Definition response_header (f : ResponseFields) (h : HttpHeader) : result ResponseFields :=
  let '(MkResponseFields accept protocol extensions upgrade connection_upgrade) := f in
  let name := h_name h in
  let value := h_value h in
  if negb (str_from_utf8 value) then Err (InvalidHttp "invalid header value")
  else if eq_ignore_ascii_case name (str "sec-websocket-accept") then
    if bool_decide (is_Some accept) then Err (HandshakeFailed "duplicate Sec-WebSocket-Accept")
    else Ok (MkResponseFields (Some value) protocol extensions upgrade connection_upgrade)
  else if eq_ignore_ascii_case name (str "sec-websocket-protocol") then
    if bool_decide (is_Some protocol) then Err (HandshakeFailed "duplicate Sec-WebSocket-Protocol")
    else if negb (is_token value) then Err (HandshakeFailed "invalid Sec-WebSocket-Protocol")
    else Ok (MkResponseFields accept (Some value) extensions upgrade connection_upgrade)
  else if eq_ignore_ascii_case name (str "sec-websocket-extensions") then
    if bool_decide (is_Some extensions) then Err (HandshakeFailed "duplicate Sec-WebSocket-Extensions")
    else if negb (is_valid_extension_list value) then Err (HandshakeFailed "invalid Sec-WebSocket-Extensions")
    else Ok (MkResponseFields accept protocol (Some value) upgrade connection_upgrade)
  else if eq_ignore_ascii_case name (str "upgrade") then
    if negb (eq_ignore_ascii_case value (str "websocket")) then Err (HandshakeFailed "missing Upgrade: websocket")
    else Ok (MkResponseFields accept protocol extensions true connection_upgrade)
  else if eq_ignore_ascii_case name (str "connection") then
    Ok (MkResponseFields accept protocol extensions upgrade
          (connection_upgrade || has_token_ignore_case value (str "upgrade")))
  else Ok f.

Fixpoint response_headers (f : ResponseFields) (l : list HttpHeader) : result ResponseFields :=
  match l with
  | [] => Ok f
  | h :: l => match response_header f h with Ok f => response_headers f l | Err e => Err e end
  end.

Definition parse_response (buf : bytes) : result (option (HandshakeResponse * Z)) :=
  let parse_buf := upto (Z.min (len buf) (MAX_HEADER_SIZE + 1)) buf in
  match response_parse parse_buf with
  | Some (Complete res n) =>
      if MAX_HEADER_SIZE <? n then Err (InvalidHttp "response too large") else
      let status := default 0 (r_code res) in
      if negb (status =? 101) then Err (HandshakeFailed "expected 101 Switching Protocols") else
      if negb (bool_decide (r_minor res = Some 1)) then Err (InvalidHttp "HTTP version must be 1.1") else
      match response_headers (MkResponseFields None None None false false) (r_fields res) with
      | Err e => Err e
      | Ok f =>
          if negb (g_upgrade f) then Err (HandshakeFailed "missing Upgrade: websocket") else
          if negb (g_connection_upgrade f) then Err (HandshakeFailed "missing Connection: Upgrade") else
          Ok (Some (MkResponse status (g_accept f) (g_protocol f) (g_extensions f), n))
      end
  | Some Partial => if MAX_HEADER_SIZE <? len buf then Err (InvalidHttp "response too large") else Ok None
  | None => Err (InvalidHttp "failed to parse HTTP response")
  end.

(** ** The handshakes over a transport

    [reads] are the results of the coming [read_buf] calls (the end of the stream after the last), [write_error] says
    after how many bytes [write_all] fails, if it does. *)

Record Peer := MkPeer {
  reads : list (IoError + bytes); write_error : option (Z * IoError); flush_error : option IoError; written : bytes }.

Definition write_flush (p : Peer) (data : bytes) : Peer * result unit :=
  match write_error p with
  | Some (n, e) =>
      (MkPeer (reads p) (write_error p) (flush_error p) (written p ++ upto n data), Err (from_io e))
  | None =>
      let p := MkPeer (reads p) None (flush_error p) (written p ++ data) in
      match flush_error p with Some e => (p, Err (from_io e)) | None => (p, Ok tt) end
  end.

Record HandshakeResult := MkResult {
  h_path : bytes; h_protocol : option bytes; h_extensions : option bytes; h_leftover : option bytes }.

(** [if consumed < buf.len() { Some(buf.split_off(consumed).freeze()) }] *)
Definition leftover (buf : bytes) (consumed : Z) : option bytes :=
  if consumed <? len buf then Some (from consumed buf) else None.

Definition with_reads (p : Peer) (rs : list (IoError + bytes)) : Peer :=
  MkPeer rs (write_error p) (flush_error p) (written p).

(** The request is complete: answer it. *)
Definition server_answer (p : Peer) (supported : option (list bytes)) (buf : bytes) (req : HandshakeRequest)
    (consumed : Z) : Peer * result HandshakeResult :=
  let selected := match supported with
    | Some supported => select_supported_subprotocol (protocol req) supported
    | None => select_default_subprotocol (protocol req)
    end in
  match write_flush p (build_response (generate_accept_key (key req)) selected None) with
  | (p, Err e) => (p, Err e)
  | (p, Ok _) => (p, Ok (MkResult (path req) selected (extensions req) (leftover buf consumed)))
  end.

Fixpoint server_loop (p : Peer) (supported : option (list bytes)) (rs : list (IoError + bytes)) (buf : bytes)
    : Peer * result HandshakeResult :=
  if MAX_HEADER_SIZE <? len buf then (with_reads p rs, Err (InvalidHttp "request too large")) else
  match rs with
  | [] => (with_reads p [], Err ConnectionClosed)
  | inl e :: rs => (with_reads p rs, Err (from_io e))
  | inr chunk :: rs =>
      if len chunk =? 0 then (with_reads p rs, Err ConnectionClosed) else
      match parse_request (buf ++ chunk) with
      | Err e => (with_reads p rs, Err e)
      | Ok (Some (req, consumed)) => server_answer (with_reads p rs) supported (buf ++ chunk) req consumed
      | Ok None => server_loop p supported rs (buf ++ chunk)
      end
  end.
Definition server_handshake_with_supported_protocols (p : Peer) (supported : option (list bytes)) :=
  server_loop p supported (reads p) [].
Definition server_handshake (p : Peer) := server_handshake_with_supported_protocols p None.

(** The response is complete: check it. *)
Definition client_accept (key path : bytes) (protocol : option bytes) (buf : bytes) (res : HandshakeResponse)
    (consumed : Z) : result HandshakeResult :=
  match accept res with
  | None => Err (HandshakeFailed "missing Sec-WebSocket-Accept")
  | Some accept =>
      if negb (validate_accept_key key accept) then Err (HandshakeFailed "invalid Sec-WebSocket-Accept") else
      match validate_selected_protocol protocol (s_protocol res) with
      | Err e => Err e
      | Ok _ => Ok (MkResult path (s_protocol res) (s_extensions res) (leftover buf consumed))
      end
  end.

Fixpoint client_loop (p : Peer) (key path : bytes) (protocol : option bytes) (rs : list (IoError + bytes)) (buf : bytes)
    : Peer * result HandshakeResult :=
  if MAX_HEADER_SIZE <? len buf then (with_reads p rs, Err (InvalidHttp "response too large")) else
  match rs with
  | [] => (with_reads p [], Err ConnectionClosed)
  | inl e :: rs => (with_reads p rs, Err (from_io e))
  | inr chunk :: rs =>
      if len chunk =? 0 then (with_reads p rs, Err ConnectionClosed) else
      match parse_response (buf ++ chunk) with
      | Err e => (with_reads p rs, Err e)
      | Ok (Some (res, consumed)) => (with_reads p rs, client_accept key path protocol (buf ++ chunk) res consumed)
      | Ok None => client_loop p key path protocol rs (buf ++ chunk)
      end
  end.

(** [random]: the bytes [generate_key] draws *)
Definition client_handshake_with_headers (p : Peer) (random host path : bytes) (protocol : option bytes)
    (extra_headers : option (list (bytes * bytes))) : Peer * result HandshakeResult :=
  let key := generate_key random in
  match build_request_with_headers host path key protocol None extra_headers with
  | Err e => (p, Err e)
  | Ok request =>
      match write_flush p request with
      | (p, Err e) => (p, Err e)
      | (p, Ok _) => client_loop p key path protocol (reads p) []
      end
  end.
Definition client_handshake (p : Peer) (random host path : bytes) (protocol : option bytes) :=
  client_handshake_with_headers p random host path protocol None.
End Handshake.
