(* ===== verification/HandshakeSpec.v ===== *)
(** * Correctness of the upgrade (src/src/handshake.rs)

    What an accepted request satisfies, that building and parsing are inverse, that no field can inject
    lines into a request, and that a client and a server complete the handshake with the same subprotocol. *)

From stdpp Require Import base list option strings.
From Stdlib Require Import Lia.
From S2P Require Import Prelude Error Utf8 Header Handshake.

#[local] Open Scope string_scope.
#[local] Open Scope list_scope.
#[local] Open Scope Z_scope.

(** ** Contracts of the crates *)

(** The characters of a request target that every URI parser takes as they are. *)
Definition is_plain_byte (b : Z) : bool := is_ascii_alphanumeric b || existsb (Z.eqb b) (str "-._~/?&=%:@!$'()*+,;").

(** A field as RFC 9110 has it: a token, and a value of visible bytes without whitespace around it. *)
Definition plain_header (h : HttpHeader) : Prop :=
  is_token (h_name h) = true /\ Forall is_text_byte (h_value h) /\ trim_optional_whitespace (h_value h) = h_value h.

Definition render_headers (l : list HttpHeader) : bytes := concat (map (fun h => header_line (h_name h) (h_value h)) l).
Definition render_request (target : bytes) (l : list HttpHeader) : bytes :=
  str "GET " ++ target ++ str " HTTP/1.1" ++ CRLF ++ render_headers l ++ CRLF.
Definition render_response (l : list HttpHeader) : bytes :=
  str "HTTP/1.1 101 Switching Protocols" ++ CRLF ++ render_headers l ++ CRLF.

(** httparse finds the parts of a well-formed head, whatever follows it, and asks for more of an incomplete one; the code gives it
    room for 32 fields. *)
Class HttparseSpec `{Httparse} : Prop := {
  request_complete target l rest : target <> [] -> Forall (fun b => is_plain_byte b = true) target ->
    Forall plain_header l -> len l <= 32 ->
    request_parse (render_request target l ++ rest) =
      Some (Complete (MkHttpRequest (Some (str "GET")) (Some target) (Some 1) l) (len (render_request target l)));
  request_partial target l n : target <> [] -> Forall (fun b => is_plain_byte b = true) target ->
    Forall plain_header l -> len l <= 32 -> 0 <= n < len (render_request target l) ->
    request_parse (upto n (render_request target l)) = Some Partial;
  response_complete l rest : Forall plain_header l -> len l <= 32 ->
    response_parse (render_response l ++ rest) =
      Some (Complete (MkHttpResponse (Some 101) (Some 1) l) (len (render_response l)));
  response_partial l n : Forall plain_header l -> len l <= 32 -> 0 <= n < len (render_response l) ->
    response_parse (upto n (render_response l)) = Some Partial }.

(** The standard alphabet, with padding. *)
Definition is_base64_byte (b : Z) : bool := is_ascii_alphanumeric b || existsb (Z.eqb b) (str "+/=").
Class Base64Spec `{Base64} : Prop := {
  encode_alphabet b : Forall (fun c => is_base64_byte c = true) (b64_encode b);
  decode_alphabet v n m : b64_decode_slice v n = Some m -> Forall (fun c => is_base64_byte c = true) v;
  decode_encode b : len b = 16 -> b64_decode_slice (b64_encode b) 24 = Some 16 }.

(** A path of plain characters is a URI without scheme and authority. *)
Class UriSpec `{UriParser} : Prop :=
  uri_origin target : starts_with [47] target = true -> Forall (fun b => is_plain_byte b = true) target ->
    uri_parse target = Some (MkUri None None (Some target)).

(** ** Bytes *)

Lemma base64_range b : is_base64_byte b = true -> 33 <= b <= 126.
Proof.
  unfold is_base64_byte, is_ascii_alphanumeric. change (str _) with [43; 47; 61]. cbn [existsb]. lia.
Qed.

Lemma plain_range b : is_plain_byte b = true -> 33 <= b <= 126.
Proof.
  unfold is_plain_byte, is_ascii_alphanumeric.
  change (str _) with [45; 46; 95; 126; 47; 63; 38; 61; 37; 58; 64; 33; 36; 39; 40; 41; 42; 43; 44; 59]. cbn [existsb]. lia.
Qed.

Lemma str_ascii v : Forall (fun b => 33 <= b <= 126) v -> str_from_utf8 v = true.
Proof. induction 1 as [|b v Hb _ IH]; [done|]. cbn [str_from_utf8]. by ztrue (b <? 0x80). Qed.

Lemma range_text v : Forall (fun b => 33 <= b <= 126) v -> Forall is_text_byte v.
Proof. intros Hv. eapply Forall_impl; [exact Hv|]. intros b Hb. cbn in Hb. apply text_byte. lia. Qed.

(** A value of visible ASCII bytes. *)
Lemma visible_header name v : is_token name = true -> Forall (fun b => 33 <= b <= 126) v -> plain_header (MkHeader name v).
Proof. intros Hn Hv. split_and!; [done|by apply range_text|by apply range_trimmed]. Qed.

(** A field of the code's own text. *)
Lemma literal_header name v : is_token name && forallb (fun b => (33 <=? b) && (b <=? 126)) v = true ->
  plain_header (MkHeader name v).
Proof.
  intros [Hn Hv]%andb_prop. apply visible_header; [done|]. apply forallb_Forall_true in Hv.
  eapply Forall_impl; [exact Hv|]. cbn. intros b. lia.
Qed.

(** ** No injection *)

(** The lines of a request, with the empty line that ends it. *)
Definition unlines (l : list bytes) : bytes := concat (map (fun line => line ++ CRLF) l) ++ CRLF.
Definition one_line (l : bytes) : Prop := l <> [] /\ Forall (fun b => b <> 13 /\ b <> 10) l.

Definition field_line (h : bytes * bytes) : bytes := fst h ++ str ": " ++ snd h.
Definition optional_field (name : bytes) (v : option bytes) : list bytes :=
  match v with Some v => [field_line (name, v)] | None => [] end.

Definition request_lines (host path key : bytes) (protocol extensions : option bytes) (extra : option (list (bytes * bytes)))
    : list bytes :=
  (str "GET " ++ path ++ str " HTTP/1.1") ::
  field_line (str "Host", host) :: str "Upgrade: websocket" :: str "Connection: Upgrade" ::
  field_line (str "Sec-WebSocket-Key", key) :: str "Sec-WebSocket-Version: 13" ::
  optional_field (str "Sec-WebSocket-Protocol") protocol ++ optional_field (str "Sec-WebSocket-Extensions") extensions ++
  map field_line (default [] extra).

Lemma unlines_app l k : unlines (l ++ k) = concat (map (fun line => line ++ CRLF) l) ++ unlines k.
Proof. unfold unlines. by rewrite map_app, concat_app, <- app_assoc. Qed.

Lemma unlines_cons x l : unlines (x :: l) = x ++ CRLF ++ unlines l.
Proof. unfold unlines. cbn [map concat]. by rewrite <- !app_assoc. Qed.

Lemma build_request_unlines host path key protocol extensions extra :
  build_request_inner host path key protocol extensions extra = unlines (request_lines host path key protocol extensions extra).
Proof.
  unfold build_request_inner, request_lines, header_line, optional_line, optional_field, header_line, field_line.
  rewrite !unlines_cons, !unlines_app. cbn [fst snd].
  assert (E : match extra with Some headers => concat (map (fun '(name, value) => name ++ str ": " ++ value ++ CRLF) headers) | None => [] end ++ CRLF
    = unlines (map (fun h : bytes * bytes => fst h ++ str ": " ++ snd h) (default [] extra))).
  { unfold unlines. f_equal. destruct extra as [l|]; [|done]. cbn. rewrite map_map. f_equal. apply map_ext.
    intros [n v]. cbn [fst snd]. by rewrite <- !app_assoc. }
  rewrite <- !app_assoc. rewrite <- E.
  destruct protocol, extensions; cbn [map concat]; rewrite <- ?app_assoc, ?app_nil_l; rewrite <- ?app_assoc; done.
Qed.

Lemma text_one_line l : Forall is_text_byte l -> Forall (fun b => b <> 13 /\ b <> 10) l.
Proof.
  intros Hl. eapply Forall_impl; [exact Hl|]. intros b. unfold is_text_byte, is_header_value_byte. lia.
Qed.

Section Spec.
Context `{Httparse, Base64, Sha1, UriParser}.

Definition extra_ok (h : bytes * bytes) : Prop :=
  is_token (fst h) = true /\ existsb (fun reserved => eq_ignore_ascii_case (fst h) reserved) RESERVED_HANDSHAKE_HEADERS = false /\
  Forall is_text_byte (snd h).

(** What the checks of [build_request_with_headers] establish. *)
Record request_valid (host path key : bytes) (protocol extensions : option bytes) (extra : option (list (bytes * bytes))) : Prop := {
  rv_host : Forall is_text_byte host /\ host <> [];
  rv_path : Forall (fun b => is_request_target_byte b = true) path;
  rv_key : is_valid_websocket_key key = true;
  rv_protocol p : protocol = Some p -> is_valid_protocol_list p = true;
  rv_extensions e : extensions = Some e -> is_valid_extension_list e = true;
  rv_extra : Forall extra_ok (default [] extra) }.

Lemma validate_extra_ok l : validate_extra_headers l = Ok tt -> Forall extra_ok l.
Proof.
  induction l as [|[n v] l IH]; [done|]. cbn [validate_extra_headers].
  destruct (is_token n) eqn:Hn; [|done]. cbn [negb]. destruct (existsb _ _) eqn:Hr; [done|].
  destruct (forallb _ v) eqn:Hv; [|done]. cbn [negb]. intros Hl. constructor; [|by apply IH].
  split_and!; [done|done|]. by apply forallb_Forall_true.
Qed.

Lemma build_valid host path key protocol extensions extra r :
  build_request_with_headers host path key protocol extensions extra = Ok r ->
  r = build_request_inner host path key protocol extensions extra /\ request_valid host path key protocol extensions extra.
Proof.
  unfold build_request_with_headers, validate_request_fields, validate_header_value.
  destruct (forallb is_header_value_byte host) eqn:Hh; [|done]. destruct (bool_decide (host = [])) eqn:Hne; [done|].
  destruct (forallb is_request_target_byte path) eqn:Hp; [|done]. cbn [negb].
  destruct (is_valid_websocket_key key) eqn:Hk; [|done]. cbn [negb].
  destruct (match protocol with Some p => _ | None => false end) eqn:Hpr; [done|].
  destruct (match extensions with Some p => _ | None => false end) eqn:Hex; [done|].
  destruct (match extra with Some headers => _ | None => _ end) as [[]|] eqn:Hx; [|done]. intros [= <-]. split; [done|].
  rewrite bool_decide_eq_false in Hne. split; [|by apply forallb_Forall_true|done| | |].
  - split; [by apply forallb_Forall_true|done].
  - intros p ->. apply orb_false_elim in Hpr as [Hpr%negb_false_iff _]. done.
  - intros e ->. apply orb_false_elim in Hex as [Hex%negb_false_iff _]. done.
  - destruct extra; [|done]. by apply validate_extra_ok.
Qed.

Context `{!Base64Spec}.

Lemma key_range key : is_valid_websocket_key key = true -> Forall (fun b => 33 <= b <= 126) key.
Proof.
  unfold is_valid_websocket_key. destruct (b64_decode_slice key 24) as [n|] eqn:E; [|done]. intros _.
  apply decode_alphabet in E. eapply Forall_impl; [exact E|]. apply base64_range.
Qed.

Lemma field_one_line n v : is_token n = true -> Forall is_text_byte v -> one_line (field_line (n, v)).
Proof.
  intros Hn Hv. apply is_token_spec in Hn as Hne. destruct Hne as [Hne _]. split; [destruct n; done|].
  apply text_one_line. unfold field_line. cbn [fst snd]. apply Forall_app. split; [by apply token_text|].
  apply Forall_app. split; [|done]. repeat constructor.
Qed.

(** A request that [build_request_with_headers] accepts to build has exactly the lines of the request line, the
    handshake fields and the fields given: no host, path, key, subprotocol, extension or extra header, whatever its bytes, can
    end a line, and the first empty line is the end of the request. *)
Theorem request_no_injection host path key protocol extensions extra r :
  build_request_with_headers host path key protocol extensions extra = Ok r ->
  r = unlines (request_lines host path key protocol extensions extra) /\
  Forall one_line (request_lines host path key protocol extensions extra).
Proof.
  intros [-> [Hh Hp Hk Hpr Hex Hx]]%build_valid. split; [apply build_request_unlines|].
  assert (Hlit : forall s : bytes, forallb is_header_value_byte s = true -> Forall (fun b => b <> 13 /\ b <> 10) s).
  { intros s Hs%forallb_Forall_true. by apply text_one_line. }
  unfold request_lines. constructor.
  { split; [done|]. rewrite !Forall_app. split_and!; [by apply Hlit| |by apply Hlit].
    eapply Forall_impl; [exact Hp|]. intros b. unfold is_request_target_byte. lia. }
  constructor; [by apply field_one_line; [|apply Hh]|]. constructor; [by split; [|apply Hlit]|]. constructor; [by split; [|apply Hlit]|].
  constructor; [apply field_one_line; [done|]; by apply range_text, key_range|]. constructor; [by split; [|apply Hlit]|].
  rewrite !Forall_app. split_and!.
  - destruct protocol as [p|]; [|done]. constructor; [|done]. apply field_one_line; [done|]. by apply protocol_list_text, Hpr.
  - destruct extensions as [e|]; [|done]. constructor; [|done]. apply field_one_line; [done|]. by apply extension_list_text, Hex.
  - rewrite Forall_map. eapply Forall_impl; [exact Hx|]. intros [n v] (Hn & _ & Hv). by apply field_one_line.
Qed.

(** ** Building and parsing the request *)

Definition optional_header (name : bytes) (v : option bytes) : list HttpHeader :=
  match v with Some v => [MkHeader name v] | None => [] end.
Definition extra_fields (extra : option (list (bytes * bytes))) : list HttpHeader :=
  map (fun h => MkHeader (fst h) (snd h)) (default [] extra).
Definition request_fields (host key : bytes) (protocol extensions : option bytes) (extra : option (list (bytes * bytes)))
    : list HttpHeader :=
  MkHeader (str "Host") host :: MkHeader (str "Upgrade") (str "websocket") :: MkHeader (str "Connection") (str "Upgrade") ::
  MkHeader (str "Sec-WebSocket-Key") key :: MkHeader (str "Sec-WebSocket-Version") (str "13") ::
  optional_header (str "Sec-WebSocket-Protocol") protocol ++ optional_header (str "Sec-WebSocket-Extensions") extensions ++
  extra_fields extra.

Lemma render_app l k : render_headers (l ++ k) = render_headers l ++ render_headers k.
Proof. unfold render_headers. by rewrite map_app, concat_app. Qed.

Lemma render_cons h l : render_headers (h :: l) = header_line (h_name h) (h_value h) ++ render_headers l.
Proof. done. Qed.

Lemma render_optional name v : render_headers (optional_header name v) = optional_line name v.
Proof. destruct v; cbn [optional_header optional_line]; [|done]. rewrite render_cons. apply app_nil_r. Qed.

Lemma build_request_render host path key protocol extensions extra :
  build_request_inner host path key protocol extensions extra = render_request path (request_fields host key protocol extensions extra).
Proof.
  unfold build_request_inner, render_request, request_fields. rewrite !render_cons, !render_app, !render_optional.
  cbn [h_name h_value]. do 4 f_equal. rewrite <- !app_assoc. f_equal.
  change (str "Upgrade: websocket" ++ CRLF ++ ?r) with (header_line (str "Upgrade") (str "websocket") ++ r). f_equal.
  change (str "Connection: Upgrade" ++ CRLF ++ ?r) with (header_line (str "Connection") (str "Upgrade") ++ r). f_equal. f_equal.
  change (str "Sec-WebSocket-Version: 13" ++ CRLF ++ ?r) with (header_line (str "Sec-WebSocket-Version") (str "13") ++ r). do 3 f_equal.
  unfold render_headers, extra_fields. destruct extra as [l|]; [|done]. cbn [default from_option]. rewrite map_map. f_equal. f_equal.
  apply map_ext. by intros [n v].
Qed.

(** The strings a caller passes: UTF-8, without whitespace around them. *)
Definition clean (v : bytes) : Prop := str_from_utf8 v = true /\ trim_optional_whitespace v = v.
Definition clean_args (host : bytes) (protocol extensions : option bytes) (extra : option (list (bytes * bytes))) : Prop :=
  clean host /\ (forall p, protocol = Some p -> clean p) /\ (forall e, extensions = Some e -> clean e) /\
  Forall (fun h => clean (snd h)) (default [] extra).

(** The last Origin among the extra headers. *)
Fixpoint last_origin (o : option bytes) (l : list (bytes * bytes)) : option bytes :=
  match l with
  | [] => o
  | (n, v) :: l => last_origin (if eq_ignore_ascii_case n (str "origin") then Some v else o) l
  end.

Lemma request_fields_plain host path key protocol extensions extra :
  request_valid host path key protocol extensions extra -> clean_args host protocol extensions extra ->
  Forall plain_header (request_fields host key protocol extensions extra).
Proof.
  intros [Hh _ Hk Hp He Hx] (Ch & Cp & Ce & Cx). unfold request_fields.
  constructor; [by split_and!; [|apply Hh|apply Ch]|].
  constructor; [by apply literal_header|].
  constructor; [by apply literal_header|].
  constructor; [apply visible_header; [done|]; by apply key_range|].
  constructor; [by apply literal_header|].
  rewrite !Forall_app. split_and!.
  - destruct protocol as [p|]; [|done]. constructor; [|done]. split_and!; [done|by apply protocol_list_text, Hp|by apply Cp].
  - destruct extensions as [e|]; [|done]. constructor; [|done]. split_and!; [done|by apply extension_list_text, He|by apply Ce].
  - unfold extra_fields. rewrite Forall_map. apply Forall_forall. intros h Hin. rewrite Forall_forall in Hx, Cx.
    destruct (Hx h Hin) as (? & _ & ?). destruct (Cx h Hin). done.
Qed.

(** A field that is not reserved sets at most the origin. *)
Lemma extra_header_step f n v : extra_ok (n, v) -> str_from_utf8 v = true ->
  request_header f (MkHeader n v) =
    Ok (MkFields (f_key f) (f_version f) (f_host f) (f_protocol f) (f_extensions f)
          (if eq_ignore_ascii_case n (str "origin") then Some v else f_origin f) (f_upgrade f) (f_connection_upgrade f)).
Proof.
  intros (_ & Hr & _) Hv. destruct f. unfold RESERVED_HANDSHAKE_HEADERS in Hr. cbn [fst existsb] in Hr.
  repeat (apply orb_false_elim in Hr as [? Hr]). unfold request_header. cbn [h_name h_value]. rewrite Hv. cbn [negb].
  repeat match goal with E : eq_ignore_ascii_case n _ = false |- _ => rewrite E; clear E end. cbn [andb].
  by destruct (eq_ignore_ascii_case n (str "origin")).
Qed.

Lemma extra_headers_ok l : forall f, Forall extra_ok l -> Forall (fun h => clean (snd h)) l ->
  request_headers f (map (fun h => MkHeader (fst h) (snd h)) l) =
    Ok (MkFields (f_key f) (f_version f) (f_host f) (f_protocol f) (f_extensions f) (last_origin (f_origin f) l)
          (f_upgrade f) (f_connection_upgrade f)).
Proof.
  induction l as [|[n v] l IH]; intros f Hx Cx; [by destruct f|].
  apply Forall_cons in Hx as [Hn Hx]. apply Forall_cons in Cx as [[Hv _] Cx]. cbn [map request_headers fst snd].
  rewrite extra_header_step by done. rewrite IH by done. done.
Qed.

Lemma request_headers_app l : forall f k,
  request_headers f (l ++ k) = match request_headers f l with Ok f => request_headers f k | Err e => Err e end.
Proof. induction l as [|h l IH]; intros f k; [done|]. cbn. destruct (request_header f h); [apply IH|done]. Qed.

Lemma key_str key : is_valid_websocket_key key = true -> str_from_utf8 key = true.
Proof. intros. by apply str_ascii, key_range. Qed.

Ltac field_step := unfold request_header, response_header; cbn [h_name h_value];
  repeat match goal with E : _ = true |- _ => rewrite E; clear E end; reflexivity.

Lemma host_step v k ve ho p e o u c : str_from_utf8 v = true ->
  request_header (MkFields k ve ho p e o u c) (MkHeader (str "Host") v) = Ok (MkFields k ve (Some v) p e o u c).
Proof. intros. field_step. Qed.

Lemma key_step v ve ho p e o u c : str_from_utf8 v = true ->
  request_header (MkFields None ve ho p e o u c) (MkHeader (str "Sec-WebSocket-Key") v) = Ok (MkFields (Some v) ve ho p e o u c).
Proof. intros. field_step. Qed.

Lemma protocol_step v k ve ho p e o u c : str_from_utf8 v = true -> is_valid_protocol_list v = true ->
  request_header (MkFields k ve ho p e o u c) (MkHeader (str "Sec-WebSocket-Protocol") v) = Ok (MkFields k ve ho (Some v) e o u c).
Proof. intros. field_step. Qed.

Lemma extensions_step v k ve ho p e o u c : str_from_utf8 v = true -> is_valid_extension_list v = true ->
  request_header (MkFields k ve ho p e o u c) (MkHeader (str "Sec-WebSocket-Extensions") v) = Ok (MkFields k ve ho p (Some v) o u c).
Proof. intros. field_step. Qed.

Lemma request_headers_ok host path key protocol extensions extra :
  request_valid host path key protocol extensions extra -> clean_args host protocol extensions extra ->
  request_headers no_fields (request_fields host key protocol extensions extra) =
    Ok (MkFields (Some key) (Some (str "13")) (Some host) protocol extensions (last_origin None (default [] extra)) true true).
Proof.
  intros [Hh _ Hk Hp He Hx] (Ch & Cp & Ce & Cx). unfold request_fields, no_fields. cbn [request_headers].
  rewrite host_step by apply Ch.
  change (request_header _ (MkHeader (str "Upgrade") _)) with (Ok (E := Error) (MkFields None None (Some host) None None None true false)). cbn iota.
  change (request_header _ (MkHeader (str "Connection") _)) with (Ok (E := Error) (MkFields None None (Some host) None None None true true)). cbn iota.
  rewrite key_step by by apply key_str.
  change (request_header _ (MkHeader (str "Sec-WebSocket-Version") _)) with (Ok (E := Error) (MkFields (Some key) (Some (str "13")) (Some host) None None None true true)). cbn iota.
  rewrite !request_headers_app.
  assert (Ep : request_headers (MkFields (Some key) (Some (str "13")) (Some host) None None None true true)
      (optional_header (str "Sec-WebSocket-Protocol") protocol) =
    Ok (MkFields (Some key) (Some (str "13")) (Some host) protocol None None true true)).
  { destruct protocol as [p|]; [|done]. cbn [optional_header request_headers]. by rewrite protocol_step by (apply Cp || apply Hp; done). }
  rewrite Ep, request_headers_app.
  assert (Ee : request_headers (MkFields (Some key) (Some (str "13")) (Some host) protocol None None true true)
      (optional_header (str "Sec-WebSocket-Extensions") extensions) =
    Ok (MkFields (Some key) (Some (str "13")) (Some host) protocol extensions None true true)).
  { destruct extensions as [e|]; [|done]. cbn [optional_header request_headers]. by rewrite extensions_step by (apply Ce || apply He; done). }
  rewrite Ee. unfold extra_fields. by rewrite extra_headers_ok.
Qed.

Context `{!HttparseSpec, !UriSpec}.

(** A request the server is bound to understand: plain path, clean strings, at most 32 fields, within the size limit. *)
Record sendable (host path key : bytes) (protocol extensions : option bytes) (extra : option (list (bytes * bytes))) (r : bytes)
    : Prop := {
  sd_built : build_request_with_headers host path key protocol extensions extra = Ok r;
  sd_clean : clean_args host protocol extensions extra;
  sd_path : starts_with [47] path = true /\ Forall (fun b => is_plain_byte b = true) path /\ percent_ok path = true;
  sd_fields : len (request_fields host key protocol extensions extra) <= 32;
  sd_size : len r <= MAX_HEADER_SIZE }.

Lemma upto_min_app (r rest : bytes) m : len r <= m -> exists rest', upto (Z.min (len (r ++ rest)) m) (r ++ rest) = r ++ rest'.
Proof.
  intros Hm. pose proof (len_nonneg rest). rewrite len_app. exists (upto (Z.min (len r + len rest) m - len r) rest).
  by rewrite upto_app_ge by lia.
Qed.

Lemma origin_form_ok path : starts_with [47] path = true -> Forall (fun b => is_plain_byte b = true) path ->
  percent_ok path = true -> is_valid_origin_form path = true.
Proof.
  intros Hs Hp Hpc. unfold is_valid_origin_form. rewrite Hs, has_valid_percent_encoding_ok, Hpc, uri_origin by done. cbn.
  by apply bool_decide_eq_true.
Qed.

Lemma check_request_ok host path key protocol extensions o : is_valid_origin_form path = true -> host <> [] ->
  is_valid_websocket_key key = true ->
  check_request (MkFields (Some key) (Some (str "13")) (Some host) protocol extensions o true true) (Some path) =
    Ok (MkRequest path (Some host) key (str "13") protocol extensions o).
Proof.
  intros Hp Hh Hk. unfold check_request. cbn [f_upgrade f_connection_upgrade f_key f_version f_host negb f_protocol f_extensions f_origin].
  destruct host as [|b host]; [done|]. rewrite Hk. unfold parse_server_request_target. rewrite Hp. done.
Qed.

Lemma parse_request_ok host path key protocol extensions extra r rest :
  sendable host path key protocol extensions extra r ->
  parse_request (r ++ rest) =
    Ok (Some (MkRequest path (Some host) key (str "13") protocol extensions (last_origin None (default [] extra)), len r)).
Proof.
  intros [Hb Hc (Hs & Hp & Hpc) Hf Hl]. apply build_valid in Hb as [-> Hv]. rewrite build_request_render in *.
  unfold parse_request. destruct (upto_min_app (render_request path (request_fields host key protocol extensions extra)) rest
    (MAX_HEADER_SIZE + 1) ltac:(lia)) as [rest' ->].
  rewrite request_complete; [|by destruct path|done|by eapply request_fields_plain|done].
  zfalse (MAX_HEADER_SIZE <? len (render_request path (request_fields host key protocol extensions extra))).
  cbn [r_method r_version r_headers r_path]. rewrite !bool_decide_eq_true_2 by done. cbn [negb].
  rewrite (request_headers_ok host path) by done. rewrite check_request_ok; [done|by apply origin_form_ok|apply Hv|apply Hv].
Qed.

Lemma parse_request_prefix host path key protocol extensions extra r n :
  sendable host path key protocol extensions extra r -> 0 <= n < len r -> parse_request (upto n r) = Ok None.
Proof.
  intros [Hb Hc (Hs & Hp & Hpc) Hf Hl] Hn. apply build_valid in Hb as [-> Hv]. rewrite build_request_render in *.
  unfold parse_request. rewrite len_upto by lia. rewrite Z.min_l by lia. rewrite upto_upto by lia.
  rewrite request_partial; [|by destruct path|done|by eapply request_fields_plain|done|done].
  by zfalse (MAX_HEADER_SIZE <? n).
Qed.

(** Parsing what [build_request_with_headers] builds, whatever follows it in the buffer, gives back the path, the host, the key,
    the subprotocols and extensions offered and the Origin among the extra headers, and consumes exactly the request; every
    proper prefix of it asks for more. *)
Theorem request_roundtrip host path key protocol extensions extra r :
  sendable host path key protocol extensions extra r ->
  (forall rest, parse_request (r ++ rest) =
    Ok (Some (MkRequest path (Some host) key (str "13") protocol extensions (last_origin None (default [] extra)), len r))) /\
  (forall n, 0 <= n < len r -> parse_request (upto n r) = Ok None).
Proof.
  intros Hs. split; [intros rest; by apply parse_request_ok|intros n Hn; by eapply parse_request_prefix].
Qed.

(** ** The response *)

Definition response_fields (accept : bytes) (protocol : option bytes) : list HttpHeader :=
  MkHeader (str "Upgrade") (str "websocket") :: MkHeader (str "Connection") (str "Upgrade") ::
  MkHeader (str "Sec-WebSocket-Accept") accept :: optional_header (str "Sec-WebSocket-Protocol") protocol.

Lemma build_response_render accept protocol :
  build_response accept protocol None = render_response (response_fields accept protocol).
Proof.
  unfold build_response, render_response, response_fields. rewrite !render_cons, render_optional. cbn [h_name h_value optional_line].
  do 2 f_equal. rewrite <- !app_assoc.
  change (str "Upgrade: websocket" ++ CRLF ++ ?r) with (header_line (str "Upgrade") (str "websocket") ++ r). f_equal.
Qed.

Lemma accept_range key : Forall (fun b => 33 <= b <= 126) (generate_accept_key key).
Proof. eapply Forall_impl; [apply encode_alphabet|]. apply base64_range. Qed.

Lemma response_fields_plain key protocol : (forall p, protocol = Some p -> is_token p = true) ->
  Forall plain_header (response_fields (generate_accept_key key) protocol).
Proof.
  intros Hp. constructor; [by apply literal_header|]. constructor; [by apply literal_header|].
  constructor; [apply visible_header; [done|apply accept_range]|]. destruct protocol as [p|]; [|done].
  constructor; [|done]. apply visible_header; [done|]. by apply token_range, Hp.
Qed.

Lemma response_headers_ok key protocol : (forall p, protocol = Some p -> is_token p = true) ->
  response_headers (MkResponseFields None None None false false) (response_fields (generate_accept_key key) protocol) =
    Ok (MkResponseFields (Some (generate_accept_key key)) protocol None true true).
Proof.
  intros Hp. unfold response_fields. cbn [response_headers].
  change (response_header _ (MkHeader (str "Upgrade") _)) with (Ok (E := Error) (MkResponseFields None None None true false)). cbn iota.
  change (response_header _ (MkHeader (str "Connection") _)) with (Ok (E := Error) (MkResponseFields None None None true true)). cbn iota.
  pose proof (str_ascii _ (accept_range key)) as Ha.
  assert (E : response_header (MkResponseFields None None None true true) (MkHeader (str "Sec-WebSocket-Accept") (generate_accept_key key)) =
    Ok (MkResponseFields (Some (generate_accept_key key)) None None true true)) by field_step.
  rewrite E. destruct protocol as [p|]; [|done]. cbn [optional_header response_headers].
  specialize (Hp p eq_refl). pose proof (str_ascii _ (token_range _ Hp)) as Hu.
  assert (E2 : response_header (MkResponseFields (Some (generate_accept_key key)) None None true true) (MkHeader (str "Sec-WebSocket-Protocol") p) =
    Ok (MkResponseFields (Some (generate_accept_key key)) (Some p) None true true)) by (clear Ha E; field_step).
  by rewrite E2.
Qed.

Lemma parse_response_ok key protocol rest : (forall p, protocol = Some p -> is_token p = true) ->
  len (build_response (generate_accept_key key) protocol None) <= MAX_HEADER_SIZE ->
  parse_response (build_response (generate_accept_key key) protocol None ++ rest) =
    Ok (Some (MkResponse 101 (Some (generate_accept_key key)) protocol None,
              len (build_response (generate_accept_key key) protocol None))).
Proof.
  intros Hp Hl. rewrite build_response_render in *. unfold parse_response.
  destruct (upto_min_app (render_response (response_fields (generate_accept_key key) protocol)) rest (MAX_HEADER_SIZE + 1)) as [rest' ->]; [lia|].
  rewrite response_complete; [|by apply response_fields_plain|by destruct protocol].
  zfalse (MAX_HEADER_SIZE <? len (render_response (response_fields (generate_accept_key key) protocol))).
  cbn [r_code r_minor r_fields default from_option]. rewrite bool_decide_eq_true_2 by done. cbn [negb Z.eqb Pos.eqb].
  by rewrite response_headers_ok.
Qed.

Lemma parse_response_prefix key protocol n : (forall p, protocol = Some p -> is_token p = true) ->
  len (build_response (generate_accept_key key) protocol None) <= MAX_HEADER_SIZE ->
  0 <= n < len (build_response (generate_accept_key key) protocol None) ->
  parse_response (upto n (build_response (generate_accept_key key) protocol None)) = Ok None.
Proof.
  intros Hp Hl Hn. rewrite build_response_render in *. unfold parse_response. rewrite len_upto by lia. rewrite Z.min_l by lia.
  rewrite upto_upto by lia. rewrite response_partial; [|by apply response_fields_plain|by destruct protocol|done].
  by zfalse (MAX_HEADER_SIZE <? n).
Qed.

(** ** The handshakes *)

(** A read either leaves the head incomplete or brings some of what follows it. *)
Lemma cut_read (got more r tail : bytes) : got ++ more = r ++ tail ->
  (len got < len r /\ got = upto (len got) r) \/ (exists l, got = r ++ l /\ l ++ more = tail).
Proof.
  intros E. destruct (Z.lt_ge_cases (len got) (len r)) as [Hlt|Hge].
  - left. split; [done|]. pose proof (upto_app_exact got more) as Hu. rewrite E, upto_app_le in Hu by lia. done.
  - right. exists (from (len r) got). pose proof (upto_app_exact r tail) as Hu. rewrite <- E, upto_app_le in Hu by lia.
    split; [rewrite <- Hu at 1; apply (eq_sym (upto_from _ _))|].
    pose proof (from_app_exact r tail) as Hf. rewrite <- E, from_app_le in Hf by lia. done.
Qed.

Definition non_empty_reads (chunks : list bytes) : Prop := Forall (fun c => c <> []) chunks.

Lemma chunk_len (c : bytes) : c <> [] -> (len c =? 0) = false.
Proof. intros. apply Z.eqb_neq. intros ?%len_0_nil. done. Qed.

Lemma server_loop_ok p supported host path key protocol extensions extra r tail chunks : forall buf,
  sendable host path key protocol extensions extra r -> non_empty_reads chunks -> len buf < len r ->
  buf ++ concat chunks = r ++ tail ->
  exists l rest, l ++ concat rest = tail /\
    server_loop p supported (map inr chunks) buf =
      server_answer (with_reads p (map inr rest)) supported (r ++ l)
        (MkRequest path (Some host) key (str "13") protocol extensions (last_origin None (default [] extra))) (len r).
Proof.
  induction chunks as [|c cs IH]; intros buf Hs Hne Hlt E.
  { apply (f_equal len) in E. cbn [concat] in E. rewrite app_nil_r, len_app in E. pose proof (len_nonneg tail). lia. }
  apply Forall_cons in Hne as [Hc Hne]. cbn [map server_loop]. pose proof (sd_size _ _ _ _ _ _ _ Hs).
  zfalse (MAX_HEADER_SIZE <? len buf). rewrite chunk_len by done. cbn [concat] in E. rewrite app_assoc in E.
  destruct (cut_read _ _ _ _ E) as [[Hl Hp]|(l & El & Et)].
  - rewrite Hp, (parse_request_prefix _ _ _ _ _ _ r) by (done || (split; [apply len_nonneg|done])).
    rewrite <- Hp. by apply IH.
  - exists l, cs. split; [done|]. rewrite El. by rewrite (parse_request_ok host path key protocol extensions extra).
Qed.

Lemma client_loop_ok p key path offered selected tail chunks : forall buf,
  (forall x, selected = Some x -> is_token x = true) ->
  len (build_response (generate_accept_key key) selected None) <= MAX_HEADER_SIZE ->
  non_empty_reads chunks -> len buf < len (build_response (generate_accept_key key) selected None) ->
  buf ++ concat chunks = build_response (generate_accept_key key) selected None ++ tail ->
  exists l rest, l ++ concat rest = tail /\
    client_loop p key path offered (map inr chunks) buf =
      (with_reads p (map inr rest),
       client_accept key path offered (build_response (generate_accept_key key) selected None ++ l)
         (MkResponse 101 (Some (generate_accept_key key)) selected None)
         (len (build_response (generate_accept_key key) selected None))).
Proof.
  induction chunks as [|c cs IH]; intros buf Hsel Hsz Hne Hlt E.
  { apply (f_equal len) in E. cbn [concat] in E. rewrite app_nil_r, len_app in E. pose proof (len_nonneg tail). lia. }
  apply Forall_cons in Hne as [Hc Hne]. cbn [map client_loop].
  zfalse (MAX_HEADER_SIZE <? len buf). rewrite chunk_len by done. cbn [concat] in E. rewrite app_assoc in E.
  destruct (cut_read _ _ _ _ E) as [[Hl Hp]|(l & El & Et)].
  - rewrite Hp, parse_response_prefix by (done || (split; [apply len_nonneg|done])). rewrite <- Hp. by apply IH.
  - exists l, cs. split; [done|]. rewrite El. by rewrite parse_response_ok.
Qed.

Definition read_bytes (x : IoError + bytes) : option bytes := match x with inr c => Some c | inl _ => None end.
(** The bytes a side received after the head: what the handshake returns and what is still to be read. *)
Definition after_head (p : Peer) (r : HandshakeResult) : bytes :=
  default [] (h_leftover r) ++ concat (omap read_bytes (reads p)).

Lemma reads_concat (l : list bytes) : concat (omap read_bytes (map inr l)) = concat l.
Proof. induction l as [|c l IH]; [done|]. cbn. by f_equal. Qed.

Lemma leftover_app (r l : bytes) : default [] (leftover (r ++ l) (len r)) = l.
Proof.
  unfold leftover. rewrite len_app. pose proof (len_nonneg l). destruct (Z.ltb_spec (len r) (len r + len l)); cbn.
  - apply from_app_exact.
  - symmetry. apply len_0_nil. lia.
Qed.

(** The subprotocol the server settles on. *)
Definition selection (supported : option (list bytes)) (offered : option bytes) : option bytes :=
  match supported with
  | Some supported => select_supported_subprotocol offered supported
  | None => select_default_subprotocol offered
  end.

(** It is the first of the server's that was offered, or the first offered. *)
Definition agreed (supported : option (list bytes)) (offered selected : option bytes) : Prop :=
  match offered, supported, selected with
  | None, _, _ => selected = None
  | Some o, Some s, Some p => exists before after, s = before ++ p :: after /\ p ∈ list_elements o /\
      Forall (fun q => q ∉ list_elements o) before
  | Some o, Some s, None => Forall (fun q => q ∉ list_elements o) s
  | Some o, None, _ => selected = head (offers o)
  end.

Lemma find_filter {A} (f : A -> bool) l : List.find f l = head (List.filter f l).
Proof. induction l as [|x l IH]; [done|]. cbn. by destruct (f x). Qed.

Lemma selection_agreed supported offered : agreed supported offered (selection supported offered).
Proof.
  destruct offered as [o|]; [|by destruct supported]. destruct supported as [s|].
  - pose proof (select_supported_spec o s). unfold agreed, selection. by destruct (select_supported_subprotocol (Some o) s).
  - cbn. apply find_filter.
Qed.

Lemma selection_ok supported offered p : (forall o, offered = Some o -> is_valid_protocol_list o = true) ->
  (forall s, supported = Some s -> validate_supported_protocols s = Ok tt) -> selection supported offered = Some p ->
  is_token p = true /\ validate_selected_protocol offered (Some p) = Ok tt.
Proof.
  intros Ho Hsup E. destruct offered as [o|]; [|by destruct supported]. specialize (Ho o eq_refl). destruct supported as [s|].
  - specialize (Hsup s eq_refl). unfold validate_supported_protocols in Hsup. destruct (forallb is_token s) eqn:Ht; [|done].
    pose proof (select_supported_spec o s) as Hsel. unfold selection in E. rewrite E in Hsel.
    destruct Hsel as (before & after & -> & Hin & _). split; [|by apply validate_selected_ok].
    apply forallb_Forall_true in Ht. apply Forall_app in Ht as [_ Ht]. by apply Forall_cons in Ht as [? _].
  - apply select_default_spec in E. apply valid_protocol_list in Ho as (Ht & _ & _). rewrite Forall_forall in Ht.
    split; [by apply Ht|]. by apply validate_selected_ok, offers_elements.
Qed.

Lemma selection_validated supported offered : (forall o, offered = Some o -> is_valid_protocol_list o = true) ->
  (forall s, supported = Some s -> validate_supported_protocols s = Ok tt) ->
  validate_selected_protocol offered (selection supported offered) = Ok tt.
Proof.
  intros Ho Hs. destruct (selection supported offered) as [p|] eqn:E; [|done]. by eapply selection_ok.
Qed.

(** A peer that accepts writes and delivers the given bytes in the given reads. *)
Definition delivers (p : Peer) (chunks : list bytes) : Prop :=
  reads p = map inr chunks /\ write_error p = None /\ flush_error p = None /\ non_empty_reads chunks.

Lemma both_complete random host path offered extra supported request server client early_client early_server
    server_reads client_reads :
  let key := generate_key random in
  let response := build_response (generate_accept_key key) (selection supported offered) None in
  sendable host path key offered None extra request ->
  (forall s, supported = Some s -> validate_supported_protocols s = Ok tt) -> len response <= MAX_HEADER_SIZE ->
  delivers server server_reads -> concat server_reads = request ++ early_client ->
  delivers client client_reads -> concat client_reads = response ++ early_server ->
  exists server' client' rs rc,
    server_handshake_with_supported_protocols server supported = (server', Ok rs) /\
    client_handshake_with_headers client random host path offered extra = (client', Ok rc) /\
    written server' = written server ++ response /\ written client' = written client ++ request /\
    h_path rs = path /\ h_path rc = path /\ h_protocol rs = h_protocol rc /\ agreed supported offered (h_protocol rc) /\
    after_head server' rs = early_client /\ after_head client' rc = early_server.
Proof.
  intros key response Hs Hsup Hsz (Er & Ew & Ef & Hne) Es (Er' & Ew' & Ef' & Hne') Ec.
  pose proof (sd_built _ _ _ _ _ _ _ Hs) as Hb. destruct (build_valid _ _ _ _ _ _ _ Hb) as [_ Hv].
  assert (Hsel : forall x, selection supported offered = Some x -> is_token x = true).
  { intros x Ex. eapply selection_ok; [apply Hv|done|done]. }
  destruct (server_loop_ok server supported host path key offered None extra request early_client server_reads [] Hs Hne)
    as (l & rest & El & Hserver); [|done|].
  { destruct request; [|rewrite len_cons; pose proof (len_nonneg request); change (len (@nil Z)) with 0; lia].
    pose proof (build_valid _ _ _ _ _ _ _ Hb) as [E _]. done. }
  set (client1 := MkPeer (reads client) None (flush_error client) (written client ++ request)).
  destruct (client_loop_ok client1 key path offered (selection supported offered) early_server client_reads [] Hsel Hsz Hne')
    as (l' & rest' & El' & Hclient); [|done|].
  { unfold build_response. cbn. pose proof (len_nonneg (@nil Z)). unfold len. cbn. lia. }
  eexists _, _, _, _. split_and!.
  - unfold server_handshake_with_supported_protocols. rewrite Er, Hserver. unfold server_answer, write_flush. cbn [write_error with_reads].
    rewrite Ew. cbn [flush_error with_reads]. rewrite Ef. cbn [protocol]. reflexivity.
  - unfold client_handshake_with_headers. fold key. rewrite Hb. unfold write_flush. rewrite Ew'. cbn [flush_error]. rewrite Ef'.
    cbn [reads]. rewrite Er'. unfold client1 in Hclient. rewrite Ef' , Er' in Hclient. rewrite Hclient.
    unfold client_accept. cbn [accept s_protocol s_extensions]. unfold validate_accept_key. rewrite bool_decide_eq_true_2 by done.
    cbn [negb]. rewrite selection_validated by (done || apply Hv). reflexivity.
  - done.
  - done.
  - done.
  - done.
  - cbn [h_protocol]. reflexivity.
  - apply selection_agreed.
  - unfold after_head. cbn [h_leftover reads with_reads]. by rewrite leftover_app, reads_concat.
  - unfold after_head. cbn [h_leftover reads with_reads]. by rewrite leftover_app, reads_concat.
Qed.

(** A client and a server complete the handshake: when the server is delivered the client's request and the client the
    server's response, in reads of any sizes, each followed by bytes the other side sent early, both succeed; the server
    reports the client's path, both report the same subprotocol, which is the server's first choice among those offered (the first offered,
    for a server without a list); each side wrote exactly its head, and keeps every byte that followed the other's. *)
Theorem handshake_completes random host path offered extra supported request server client early_client early_server
    server_reads client_reads :
  let key := generate_key random in
  let response := build_response (generate_accept_key key) (selection supported offered) None in
  sendable host path key offered None extra request ->
  (forall s, supported = Some s -> validate_supported_protocols s = Ok tt) -> len response <= MAX_HEADER_SIZE ->
  delivers server server_reads -> concat server_reads = request ++ early_client ->
  delivers client client_reads -> concat client_reads = response ++ early_server ->
  exists server' client' rs rc,
    server_handshake_with_supported_protocols server supported = (server', Ok rs) /\
    client_handshake_with_headers client random host path offered extra = (client', Ok rc) /\
    written server' = written server ++ response /\ written client' = written client ++ request /\
    h_path rs = path /\ h_path rc = path /\ h_protocol rs = h_protocol rc /\ agreed supported offered (h_protocol rc) /\
    after_head server' rs = early_client /\ after_head client' rc = early_server.
Proof. apply both_complete. Qed.
End Spec.
