(* ===== verification/RequestSpec.v ===== *)
(** * Which upgrade requests are accepted (src/src/handshake.rs)

    A declarative account of the header rules of [parse_request], in terms of the values of each field, and its equivalence
    with the loop of the code; every refusal is a handshake error. *)

From stdpp Require Import base list option strings.
From Stdlib Require Import Lia.
From S2P Require Import Prelude Error Utf8 Header Handshake.

#[local] Open Scope string_scope.
#[local] Open Scope list_scope.
#[local] Open Scope Z_scope.

(** ** Fields by name *)

Inductive FieldName :=
  | FKey | FVersion | FProtocol | FExtensions | FHost | FOrigin | FUpgrade | FConnection | FContentLength
  | FTransferEncoding | FOther.
#[export] Instance FieldName_eq_dec : EqDecision FieldName.
Proof. solve_decision. Defined.

Definition field_names : list (string * FieldName) :=
  [("sec-websocket-key", FKey); ("sec-websocket-version", FVersion); ("sec-websocket-protocol", FProtocol);
   ("sec-websocket-extensions", FExtensions); ("host", FHost); ("origin", FOrigin); ("upgrade", FUpgrade);
   ("connection", FConnection); ("content-length", FContentLength); ("transfer-encoding", FTransferEncoding)].

Fixpoint lookup_name (l : list (string * FieldName)) (name : bytes) : FieldName :=
  match l with
  | [] => FOther
  | (n, f) :: l => if eq_ignore_ascii_case name (str n) then f else lookup_name l name
  end.
Definition classify (h : HttpHeader) : FieldName := lookup_name field_names (h_name h).

(** The values of a field, in order. *)
Definition values (f : FieldName) (l : list HttpHeader) : list bytes :=
  map h_value (List.filter (fun h => bool_decide (classify h = f)) l).

Lemma values_app f l k : values f (l ++ k) = values f l ++ values f k.
Proof. unfold values. by rewrite List.filter_app, map_app. Qed.

Lemma values_one f h : values f [h] = if decide (classify h = f) then [h_value h] else [].
Proof.
  unfold values. cbn [List.filter]. destruct (decide (classify h = f)) as [E|E].
  - by rewrite bool_decide_eq_true_2.
  - by rewrite bool_decide_eq_false_2.
Qed.

(** The rules for the fields of a request. *)
Record field_rules (l : list HttpHeader) : Prop := {
  fr_text : Forall (fun h => str_from_utf8 (h_value h) = true) l;
  fr_key : (length (values FKey l) <= 1)%nat;
  fr_version : (length (values FVersion l) <= 1)%nat;
  fr_protocol : Forall (fun v => is_valid_protocol_list v = true) (values FProtocol l);
  fr_extensions : Forall (fun v => is_valid_extension_list v = true) (values FExtensions l);
  fr_body : Forall (fun v => is_zero_content_length v = true) (values FContentLength l);
  fr_transfer : values FTransferEncoding l = [] }.

(** What the fields say: the last value of each. *)
Definition collected (l : list HttpHeader) : RequestFields :=
  MkFields (last (values FKey l)) (last (values FVersion l)) (last (values FHost l)) (last (values FProtocol l))
    (last (values FExtensions l)) (last (values FOrigin l))
    (existsb (fun v => has_token_ignore_case v (str "websocket")) (values FUpgrade l))
    (existsb (fun v => has_token_ignore_case v (str "upgrade")) (values FConnection l)).

(** ** One header *)

Definition header_rule (f : RequestFields) (h : HttpHeader) : option RequestFields :=
  let '(MkFields key version host protocol extensions origin upgrade connection_upgrade) := f in
  let v := h_value h in
  if negb (str_from_utf8 v) then None else
  match classify h with
  | FKey => match key with Some _ => None | None => Some (MkFields (Some v) version host protocol extensions origin upgrade connection_upgrade) end
  | FVersion => match version with Some _ => None | None => Some (MkFields key (Some v) host protocol extensions origin upgrade connection_upgrade) end
  | FProtocol => if is_valid_protocol_list v then Some (MkFields key version host (Some v) extensions origin upgrade connection_upgrade) else None
  | FExtensions => if is_valid_extension_list v then Some (MkFields key version host protocol (Some v) origin upgrade connection_upgrade) else None
  | FHost => Some (MkFields key version (Some v) protocol extensions origin upgrade connection_upgrade)
  | FOrigin => Some (MkFields key version host protocol extensions (Some v) upgrade connection_upgrade)
  | FUpgrade => Some (MkFields key version host protocol extensions origin (upgrade || has_token_ignore_case v (str "websocket")) connection_upgrade)
  | FConnection => Some (MkFields key version host protocol extensions origin upgrade (connection_upgrade || has_token_ignore_case v (str "upgrade")))
  | FContentLength => if is_zero_content_length v then Some f else None
  | FTransferEncoding => None
  | FOther => Some f
  end.

(** Names that differ from one constant cannot equal another. *)
Lemma name_unique name a b : eq_ignore_ascii_case name a = true -> eq_ignore_ascii_case a b = false ->
  eq_ignore_ascii_case name b = false.
Proof.
  unfold eq_ignore_ascii_case. intros E1%bool_decide_eq_true E2%bool_decide_eq_false. apply bool_decide_eq_false. congruence.
Qed.

Definition refused (e : Error) : Prop := kind e = KHandshake /\ suggested_http_status e = 400.

Lemma request_header_rule f h :
  match header_rule f h with
  | Some f' => request_header f h = Ok f'
  | None => exists e, request_header f h = Err e /\ refused e
  end.
Proof.
  destruct f as [key version host protocol extensions origin upgrade connection]. unfold header_rule, request_header.
  destruct (str_from_utf8 (h_value h)); cbn [negb]; [|by eexists].
  unfold classify, field_names. cbn [lookup_name].
  destruct (eq_ignore_ascii_case (h_name h) (str "sec-websocket-key")); [destruct key; [by eexists|done]|].
  destruct (eq_ignore_ascii_case (h_name h) (str "sec-websocket-version")); [destruct version; [by eexists|done]|].
  destruct (eq_ignore_ascii_case (h_name h) (str "sec-websocket-protocol")); [destruct (is_valid_protocol_list _); [done|by eexists]|].
  destruct (eq_ignore_ascii_case (h_name h) (str "sec-websocket-extensions")); [destruct (is_valid_extension_list _); [done|by eexists]|].
  destruct (eq_ignore_ascii_case (h_name h) (str "host")); [done|].
  destruct (eq_ignore_ascii_case (h_name h) (str "origin")); [done|].
  destruct (eq_ignore_ascii_case (h_name h) (str "upgrade")); [by rewrite orb_comm|].
  destruct (eq_ignore_ascii_case (h_name h) (str "connection")) eqn:Ec.
  - rewrite (name_unique _ _ (str "content-length") Ec), (name_unique _ _ (str "transfer-encoding") Ec) by done.
    destruct (has_token_ignore_case (h_value h) (str "upgrade")); cbn [andb]; by rewrite ?orb_true_r, ?orb_false_r.
  - cbn [andb]. destruct (eq_ignore_ascii_case (h_name h) (str "content-length")); [destruct (is_zero_content_length _); [done|by eexists]|].
    destruct (eq_ignore_ascii_case (h_name h) (str "transfer-encoding")); [by eexists|done].
Qed.

(** ** All headers *)

(** The later value counts. *)
Definition or_else {A} (new old : option A) : option A := match new with Some _ => new | None => old end.
Definition value_if (h : HttpHeader) (f : FieldName) : option bytes := if decide (classify h = f) then Some (h_value h) else None.

Lemma collected_snoc l h : collected (l ++ [h]) =
  let old := collected l in
  MkFields (or_else (value_if h FKey) (f_key old)) (or_else (value_if h FVersion) (f_version old))
    (or_else (value_if h FHost) (f_host old)) (or_else (value_if h FProtocol) (f_protocol old))
    (or_else (value_if h FExtensions) (f_extensions old)) (or_else (value_if h FOrigin) (f_origin old))
    (f_upgrade old || ((if decide (classify h = FUpgrade) then true else false) && has_token_ignore_case (h_value h) (str "websocket")))
    (f_connection_upgrade old || ((if decide (classify h = FConnection) then true else false) && has_token_ignore_case (h_value h) (str "upgrade"))).
Proof.
  assert (Hlast : forall f, last (values f (l ++ [h])) = or_else (value_if h f) (last (values f l))).
  { intros f. rewrite values_app, values_one. unfold value_if. destruct (decide (classify h = f)); [by rewrite last_snoc|].
    by rewrite app_nil_r. }
  unfold collected. cbn zeta. rewrite !Hlast. cbn [f_key f_version f_host f_protocol f_extensions f_origin f_upgrade f_connection_upgrade].
  rewrite !values_app, !values_one, !existsb_app.
  f_equal; f_equal; [destruct (decide (classify h = FUpgrade))|destruct (decide (classify h = FConnection))]; cbn [existsb];
    by rewrite ?orb_false_r.
Qed.

Lemma one_more {A} (l : list A) x : (length (l ++ [x]) <= 1)%nat <-> last l = None.
Proof.
  rewrite last_None. destruct l as [|y l]; cbn; [split; [done|lia]|]. split; [rewrite length_app; cbn; lia|done].
Qed.

(** What a further header has to satisfy. *)
Definition rule_for (l : list HttpHeader) (h : HttpHeader) : Prop :=
  str_from_utf8 (h_value h) = true /\
  match classify h with
  | FKey => last (values FKey l) = None
  | FVersion => last (values FVersion l) = None
  | FProtocol => is_valid_protocol_list (h_value h) = true
  | FExtensions => is_valid_extension_list (h_value h) = true
  | FContentLength => is_zero_content_length (h_value h) = true
  | FTransferEncoding => False
  | _ => True
  end.

Lemma field_rules_snoc l h : field_rules (l ++ [h]) <-> field_rules l /\ rule_for l h.
Proof.
  assert (Hone : forall f, values f (l ++ [h]) = values f l ++ (if decide (classify h = f) then [h_value h] else [])).
  { intros f. by rewrite values_app, values_one. }
  unfold rule_for. split.
  - intros [Ht Hk Hv Hp He Hb Htr]. rewrite Hone in Hk, Hv, Hp, He, Hb, Htr.
    apply Forall_app in Ht as [Ht Hh], Hp as [Hp Hp1], He as [He He1], Hb as [Hb Hb1]. apply app_eq_nil in Htr as [Htr Htr1].
    rewrite Forall_singleton in Hh. split; [split; try done; rewrite length_app in *; lia|]. split; [done|].
    destruct (classify h) eqn:Ec; try done.
    + rewrite decide_True in Hk by done. by apply one_more in Hk.
    + rewrite decide_True in Hv by done. by apply one_more in Hv.
    + rewrite decide_True, Forall_singleton in Hp1 by done. done.
    + rewrite decide_True, Forall_singleton in He1 by done. done.
    + rewrite decide_True, Forall_singleton in Hb1 by done. done.
  - intros [[Ht Hk Hv Hp He Hb Htr] [Hh Hr]].
    split; rewrite ?Hone, ?Forall_app, ?Forall_singleton; [done|destruct (decide (classify h = FKey)) as [E|E]|
      destruct (decide (classify h = FVersion)) as [E|E]|destruct (decide (classify h = FProtocol)) as [E|E]|
      destruct (decide (classify h = FExtensions)) as [E|E]|destruct (decide (classify h = FContentLength)) as [E|E]|
      destruct (decide (classify h = FTransferEncoding)) as [E|E]]; rewrite ?E in Hr; rewrite ?app_nil_r; try done.
    + by apply one_more.
    + by apply one_more.
    + by rewrite Forall_singleton.
    + by rewrite Forall_singleton.
    + by rewrite Forall_singleton.
Qed.

(** A header is accepted exactly then, and taken into account. *)
Lemma header_rule_snoc l h :
  match header_rule (collected l) h with
  | Some f => rule_for l h /\ f = collected (l ++ [h])
  | None => ~ rule_for l h
  end.
Proof.
  rewrite collected_snoc. unfold header_rule, rule_for, value_if, collected.
  cbn [f_key f_version f_host f_protocol f_extensions f_origin f_upgrade f_connection_upgrade]. cbv zeta.
  destruct (str_from_utf8 (h_value h)); cbn [negb]; [|by intros [? _]].
  destruct (classify h);
    repeat match goal with |- context [decide (?a = ?b)] => (rewrite (decide_True (P := a = b)) by done || rewrite (decide_False (P := a = b)) by done) end;
    cbn [or_else andb]; rewrite ?orb_false_r; try done;
    try (match goal with |- context [match last ?x with _ => _ end] => destruct (last x) end; [by intros [_ ?]|done]);
    try (match goal with |- context [if ?x then Some _ else None] => destruct x end; [done|by intros [_ ?]]).
  by intros [_ ?].
Qed.

Lemma request_headers_snoc f l h : request_headers f (l ++ [h]) =
  match request_headers f l with Ok f => request_header f h | Err e => Err e end.
Proof.
  revert f. induction l as [|h' l IH]; intros f; cbn; [by destruct (request_header f h)|].
  destruct (request_header f h'); [apply IH|done].
Qed.

(** The loop accepts exactly the fields that follow the rules. *)
Lemma request_headers_rules l :
  match request_headers no_fields l with
  | Ok f => field_rules l /\ f = collected l
  | Err e => ~ field_rules l /\ refused e
  end.
Proof.
  induction l as [|h l IH] using rev_ind.
  { split; [|done]. split; cbn; try done; lia. }
  rewrite request_headers_snoc. destruct (request_headers no_fields l) as [f|e].
  - destruct IH as [Hl ->]. pose proof (request_header_rule (collected l) h) as Hh. pose proof (header_rule_snoc l h) as Hr.
    destruct (header_rule (collected l) h) as [f|].
    + rewrite Hh. destruct Hr as [Hr ->]. split; [|done]. by apply field_rules_snoc.
    + destruct Hh as (e & -> & He). split; [|done]. by intros [_ ?]%field_rules_snoc.
  - destruct IH as [Hl He]. split; [|done]. by intros [? _]%field_rules_snoc.
Qed.

(** ** The whole request *)

Section Accepted.
Context `{Httparse, Base64, Sha1, UriParser}.

(** The fields are those of an upgrade to version 13 with a 16-byte key, for a host, and the target names a resource there. *)
Record fields_accepted (f : RequestFields) (target : option bytes) (req : HandshakeRequest) : Prop := {
  fa_upgrade : f_upgrade f = true /\ f_connection_upgrade f = true;
  fa_key : f_key f = Some (key req) /\ is_valid_websocket_key (key req) = true;
  fa_version : f_version f = Some (version req) /\ version req = str "13";
  fa_protocol : protocol req = f_protocol f;
  fa_extensions : extensions req = f_extensions f;
  fa_origin : origin req = f_origin f;
  fa_target : exists t h h', target = Some t /\ f_host f = Some h /\ h <> [] /\
    parse_server_request_target t h = Some (path req, h') /\ host req = Some h' }.

Record accepted (head : HttpRequest) (req : HandshakeRequest) : Prop := {
  ac_line : r_method head = Some (str "GET") /\ r_version head = Some 1;
  ac_rules : field_rules (r_headers head);
  ac_fields : fields_accepted (collected (r_headers head)) (r_path head) req }.

Lemma check_request_exact f target :
  match check_request f target with
  | Ok req => fields_accepted f target req
  | Err e => refused e /\ forall req, ~ fields_accepted f target req
  end.
Proof.
  destruct f as [k v h p e o u c]. unfold check_request.
  cbn [f_upgrade f_connection_upgrade f_key f_version f_host f_protocol f_extensions f_origin].
  destruct u; cbn [negb]; [|split; [done|]; by intros req [[? _] _ _ _ _ _ _]].
  destruct c; cbn [negb]; [|split; [done|]; by intros req [[_ ?] _ _ _ _ _ _]].
  destruct k as [k|]; [|split; [done|]; by intros req [_ [? _] _ _ _ _ _]].
  destruct v as [v|]; [|split; [done|]; by intros req [_ _ [? _] _ _ _ _]].
  destruct h as [[|b h]|]; [split; [done|]; intros req [_ _ _ _ _ _ (t & h' & h'' & _ & E & ? & _)]; cbn in E; congruence| |
    split; [done|]; by intros req [_ _ _ _ _ _ (t & h' & h'' & _ & E & _)]].
  destruct (decide (v = str "13")) as [->|Hv]; [rewrite bool_decide_eq_true_2 by done|rewrite bool_decide_eq_false_2 by done]; cbn [negb];
    [|split; [done|]; intros req [_ _ [E ?] _ _ _ _]; cbn in E; congruence].
  destruct (is_valid_websocket_key k) eqn:Hk; cbn [negb]; [|split; [done|]; intros req [_ [E ?] _ _ _ _ _]; cbn in E; congruence].
  destruct target as [t|]; [|split; [done|]; by intros req [_ _ _ _ _ _ (t & h' & h'' & ? & _)]].
  destruct (parse_server_request_target t (b :: h)) as [[pa ho]|] eqn:Ep.
  - split; cbn; try done. by exists t, (b :: h), ho.
  - split; [done|]. intros req [_ _ _ _ _ _ (t' & h' & h'' & [= <-] & E & _ & Ep' & _)]. cbn in E. congruence.
Qed.

(** What httparse is given: the buffer up to one byte over the limit. *)
Definition parsed_prefix (buf : bytes) : bytes := upto (Z.min (len buf) (MAX_HEADER_SIZE + 1)) buf.

End Accepted.
