(* ===== verification/HandshakeWitness.v ===== *)
(** * Concrete crates for the upgrade

    Small implementations that satisfy the contracts of [HandshakeSpec]: a head parser, base64, a URI parser; and the theorems of
    [HandshakeSpec] at concrete requests. *)

From stdpp Require Import base list option strings.
From Stdlib Require Import Lia.
From S2P Require Import Prelude Error Utf8 Header Handshake HandshakeSpec.

#[local] Open Scope string_scope.
#[local] Open Scope list_scope.
#[local] Open Scope Z_scope.

(** ** A head parser *)

(** The first line and what follows it. *)
Fixpoint cut_line (s : bytes) : option (bytes * bytes) :=
  match s with
  | [] => None
  | a :: t =>
      if a =? 13 then match t with b :: t' => if b =? 10 then Some ([], t') else None | [] => None end
      else '(x, y) ← cut_line t; Some (a :: x, y)
  end.

Fixpoint parse_fields (fuel : nat) (s : bytes) : option (list HttpHeader * bytes) :=
  match fuel with
  | O => None
  | S fuel =>
      '(line, rest) ← cut_line s;
      if bool_decide (line = []) then Some ([], rest)
      else '(name, v) ← split_at 58 line; '(l, r) ← parse_fields fuel rest;
           Some (MkHeader name (trim_optional_whitespace v) :: l, r)
  end.

Definition simple_request_parse (s : bytes) : option (ParseStatus HttpRequest) :=
  match cut_line s with
  | None => Some Partial
  | Some (line, rest) =>
      match split_on 32 line with
      | [m; t; v] =>
          if negb (bool_decide (v = str "HTTP/1.1")) then None else
          match parse_fields (S (length s)) rest with
          | None => Some Partial
          | Some (l, r) => if 32 <? len l then None
                           else Some (Complete (MkHttpRequest (Some m) (Some t) (Some 1) l) (len s - len r))
          end
      | _ => None
      end
  end.
Definition simple_response_parse (s : bytes) : option (ParseStatus HttpResponse) :=
  match cut_line s with
  | None => Some Partial
  | Some (line, rest) =>
      if negb (bool_decide (line = str "HTTP/1.1 101 Switching Protocols")) then None else
      match parse_fields (S (length s)) rest with
      | None => Some Partial
      | Some (l, r) => if 32 <? len l then None
                       else Some (Complete (MkHttpResponse (Some 101) (Some 1) l) (len s - len r))
      end
  end.
Definition simple_httparse : Httparse := Build_Httparse simple_request_parse simple_response_parse.

Definition no_cr (l : bytes) : Prop := Forall (fun b => b <> 13) l.

Lemma cut_line_app l rest : no_cr l -> cut_line (l ++ CRLF ++ rest) = Some (l, rest).
Proof.
  induction 1 as [|b l Hb _ IH]; [done|]. cbn [app cut_line]. rewrite (proj2 (Z.eqb_neq _ _) Hb).
  change (l ++ 13 :: 10 :: rest) with (l ++ CRLF ++ rest). by rewrite IH.
Qed.

Lemma cut_line_prefix l rest : no_cr l -> forall n, n < len l + 2 -> cut_line (upto n (l ++ CRLF ++ rest)) = None.
Proof.
  induction 1 as [|b l Hb _ IH]; intros n Hn.
  - change (len (@nil Z)) with 0 in Hn. assert (Hc : n <= 0 \/ n = 1) by lia. destruct Hc as [Hc| ->]; [|done].
    unfold upto. by replace (Z.to_nat n) with 0%nat by lia.
  - rewrite len_cons in Hn. destruct (Z.le_gt_cases n 0); [unfold upto; by replace (Z.to_nat n) with 0%nat by lia|].
    unfold upto. replace (Z.to_nat n) with (S (Z.to_nat (n - 1))) by lia. cbn [app take cut_line].
    rewrite (proj2 (Z.eqb_neq _ _) Hb). fold (upto (n - 1) (l ++ CRLF ++ rest)). rewrite IH by lia. done.
Qed.

Lemma text_no_cr l : Forall is_text_byte l -> no_cr l.
Proof. intros Hl. eapply Forall_impl; [exact Hl|]. intros b. unfold is_text_byte, is_header_value_byte. lia. Qed.

Lemma field_no_cr h : plain_header h -> no_cr (h_name h ++ str ": " ++ h_value h).
Proof.
  intros (Hn & Hv & _). apply text_no_cr, Forall_app. split; [by apply token_text|]. apply Forall_app. split; [|done].
  by apply (proj1 (forallb_Forall_true is_header_value_byte _)).
Qed.

Lemma split_at_app c x y : Forall (fun b => b <> c) x -> split_at c (x ++ c :: y) = Some (x, y).
Proof.
  induction 1 as [|b x Hb _ IH]; cbn; [by rewrite Z.eqb_refl|]. rewrite (proj2 (Z.eqb_neq _ _) Hb). by rewrite IH.
Qed.

Lemma split_on_app c x y : Forall (fun b => b <> c) x -> split_on c (x ++ c :: y) = x :: split_on c y.
Proof.
  induction 1 as [|b x Hb _ IH]; cbn; [by rewrite Z.eqb_refl|]. rewrite (proj2 (Z.eqb_neq _ _) Hb). by rewrite IH.
Qed.

Lemma field_split h : plain_header h -> split_at 58 (h_name h ++ str ": " ++ h_value h) = Some (h_name h, 32 :: h_value h).
Proof.
  intros (Hn & _ & _). change (str ": " ++ h_value h) with (58 :: 32 :: h_value h). apply split_at_app.
  apply is_token_spec in Hn as [_ Hn]. eapply Forall_impl; [exact Hn|]. cbn. intros b Hb ->. done.
Qed.

Lemma trim_space v : trim_optional_whitespace (32 :: v) = trim_optional_whitespace v.
Proof. done. Qed.

Lemma render_cons' h l rest : render_headers (h :: l) ++ rest = (h_name h ++ str ": " ++ h_value h) ++ CRLF ++ render_headers l ++ rest.
Proof. unfold render_headers. cbn [map concat]. unfold header_line. by rewrite <- !app_assoc. Qed.

Lemma parse_fields_ok l rest : forall fuel, Forall plain_header l -> (length l < fuel)%nat ->
  parse_fields fuel (render_headers l ++ CRLF ++ rest) = Some (l, rest).
Proof.
  induction l as [|h l IH]; intros [|fuel] Hl Hf; cbn in Hf; try lia.
  - cbn [parse_fields]. change (render_headers [] ++ CRLF ++ rest) with ([] ++ CRLF ++ rest). rewrite cut_line_app by constructor. done.
  - apply Forall_cons in Hl as [Hh Hl]. rewrite render_cons'. cbn [parse_fields]. rewrite cut_line_app by by apply field_no_cr.
    cbn [mbind option_bind]. rewrite bool_decide_eq_false_2; [|destruct Hh as (Hn & _); apply is_token_spec in Hn as [Hn _]; by destruct (h_name h)].
    rewrite field_split by done. cbn [mbind option_bind]. rewrite IH by (done || lia). cbn [mbind option_bind].
    rewrite trim_space. destruct Hh as (_ & _ & ->). by destruct h.
Qed.

Lemma parse_fields_prefix l : forall fuel n, Forall plain_header l -> n < len (render_headers l ++ CRLF) ->
  parse_fields fuel (upto n (render_headers l ++ CRLF)) = None.
Proof.
  induction l as [|h l IH]; intros [|fuel] n Hl Hn; try done; cbn [parse_fields].
  - change (render_headers [] ++ CRLF) with ([] ++ CRLF ++ []) in *. rewrite cut_line_prefix; [done|constructor|].
    change (len ([] ++ CRLF ++ [])) with 2 in Hn. change (len (@nil Z)) with 0. lia.
  - apply Forall_cons in Hl as [Hh Hl]. rewrite render_cons' in *. set (line := h_name h ++ str ": " ++ h_value h) in *.
    destruct (Z.lt_ge_cases n (len line + 2)) as [Hlt|Hge]; [by rewrite cut_line_prefix by (done || by apply field_no_cr)|].
    rewrite app_assoc, upto_app_ge by (rewrite len_app; change (len CRLF) with 2; lia). rewrite <- app_assoc, cut_line_app by by apply field_no_cr.
    cbn [mbind option_bind]. rewrite bool_decide_eq_false_2; [|unfold line; destruct Hh as (Hn' & _); apply is_token_spec in Hn' as [Hn' _]; by destruct (h_name h)].
    subst line. rewrite field_split by done. cbn [mbind option_bind]. rewrite IH; [done|done|].
    rewrite !len_app in *. change (len CRLF) with 2 in *. lia.
Qed.

Lemma fields_fuel l : (length l <= length (render_headers l))%nat.
Proof.
  induction l as [|h l IH]; [done|]. unfold render_headers, header_line in *. cbn [map concat length].
  rewrite !length_app. cbn [length]. change (length (str ": ")) with 2%nat. lia.
Qed.

Lemma plain_no_space target : Forall (fun b => is_plain_byte b = true) target -> Forall (fun b => b <> 32) target.
Proof. intros Ht. eapply Forall_impl; [exact Ht|]. intros b Hb%plain_range. lia. Qed.

Lemma request_line_ok target : Forall (fun b => is_plain_byte b = true) target ->
  no_cr (str "GET " ++ target ++ str " HTTP/1.1") /\
  split_on 32 (str "GET " ++ target ++ str " HTTP/1.1") = [str "GET"; target; str "HTTP/1.1"].
Proof.
  intros Ht. split.
  - apply text_no_cr. rewrite !Forall_app. split_and!; [by apply (proj1 (forallb_Forall_true is_header_value_byte _))| |
      by apply (proj1 (forallb_Forall_true is_header_value_byte _))].
    eapply Forall_impl; [exact Ht|]. intros b Hb%plain_range. apply text_byte. lia.
  - change (str "GET " ++ target ++ str " HTTP/1.1") with (str "GET" ++ 32 :: (target ++ 32 :: str "HTTP/1.1")).
    rewrite split_on_app by (repeat constructor; done). by rewrite split_on_app by by apply plain_no_space.
Qed.

Lemma status_line_ok : no_cr (str "HTTP/1.1 101 Switching Protocols").
Proof. apply text_no_cr. by apply (proj1 (forallb_Forall_true is_header_value_byte _)). Qed.

#[export] Instance simple_httparse_spec : @HttparseSpec simple_httparse.
Proof.
  split; cbn [request_parse response_parse simple_httparse].
  - intros target l rest _ Ht Hl Hn. destruct (request_line_ok target Ht) as [Hc Hs].
    assert (E : render_request target l ++ rest =
      (str "GET " ++ target ++ str " HTTP/1.1") ++ CRLF ++ render_headers l ++ CRLF ++ rest) by (unfold render_request; by rewrite <- !app_assoc).
    unfold simple_request_parse. rewrite E, cut_line_app, Hs by done. rewrite bool_decide_eq_true_2 by done. cbn [negb].
    rewrite parse_fields_ok; [|done|]. 2: { rewrite !length_app. pose proof (fields_fuel l). lia. }
    zfalse (32 <? len l). do 2 f_equal. rewrite <- E. rewrite !len_app. lia.
  - intros target l n _ Ht Hl Hn Hlt. destruct (request_line_ok target Ht) as [Hc Hs].
    assert (E : render_request target l =
      (str "GET " ++ target ++ str " HTTP/1.1") ++ CRLF ++ render_headers l ++ CRLF) by (unfold render_request; by rewrite <- !app_assoc).
    unfold simple_request_parse. rewrite E in *. set (line := str "GET " ++ target ++ str " HTTP/1.1") in *.
    destruct (Z.lt_ge_cases n (len line + 2)) as [Hl2|Hg2]; [by rewrite cut_line_prefix|].
    rewrite app_assoc, upto_app_ge by (rewrite len_app; change (len CRLF) with 2; lia). rewrite <- app_assoc, cut_line_app, Hs by done.
    rewrite bool_decide_eq_true_2 by done. cbn [negb]. rewrite parse_fields_prefix; [done|done|].
    rewrite !len_app in *. change (len CRLF) with 2 in *. lia.
  - intros l rest Hl Hn.
    assert (E : render_response l ++ rest = str "HTTP/1.1 101 Switching Protocols" ++ CRLF ++ render_headers l ++ CRLF ++ rest)
      by (unfold render_response; by rewrite <- !app_assoc).
    unfold simple_response_parse. rewrite E, cut_line_app by apply status_line_ok. rewrite bool_decide_eq_true_2 by done. cbn [negb].
    rewrite parse_fields_ok; [|done|]. 2: { rewrite !length_app. pose proof (fields_fuel l). lia. }
    zfalse (32 <? len l). do 2 f_equal. rewrite <- E. rewrite !len_app. lia.
  - intros l n Hl Hn Hlt.
    assert (E : render_response l = str "HTTP/1.1 101 Switching Protocols" ++ CRLF ++ render_headers l ++ CRLF) by done.
    unfold simple_response_parse. rewrite E in *. set (line := str "HTTP/1.1 101 Switching Protocols") in *.
    destruct (Z.lt_ge_cases n (len line + 2)) as [Hl2|Hg2]; [by rewrite cut_line_prefix by (done || apply status_line_ok)|].
    rewrite app_assoc, upto_app_ge by (rewrite len_app; change (len CRLF) with 2; lia). rewrite <- app_assoc, cut_line_app by apply status_line_ok.
    rewrite bool_decide_eq_true_2 by done. cbn [negb]. rewrite parse_fields_prefix; [done|done|].
    rewrite !len_app in *. change (len CRLF) with 2 in *. lia.
Qed.

(** ** base64, a digest, URIs *)

Definition alphabet : bytes := str "ABCDEFGHIJKLMNOPQRSTUVWXYZabcdefghijklmnopqrstuvwxyz0123456789+/".
Definition letter (i : Z) : Z := nth (Z.to_nat i) alphabet 61.
Fixpoint encode (l : bytes) : bytes :=
  match l with
  | a :: b :: c :: t =>
      [letter (a / 4); letter (a mod 4 * 16 + b / 16); letter (b mod 16 * 4 + c / 64); letter (c mod 64)] ++ encode t
  | [a; b] => [letter (a / 4); letter (a mod 4 * 16 + b / 16); letter (b mod 16 * 4); 61]
  | [a] => [letter (a / 4); letter (a mod 4 * 16); 61; 61]
  | [] => []
  end.
Definition padding (v : bytes) : Z :=
  match reverse v with a :: b :: _ => if a =? 61 then if b =? 61 then 2 else 1 else 0 | _ => 0 end.
Definition decode_slice (v : bytes) (size : Z) : option Z :=
  if forallb is_base64_byte v && (len v mod 4 =? 0) then
    let n := len v / 4 * 3 - padding v in if n <=? size then Some n else None
  else None.
#[export] Instance simple_base64 : Base64 := Build_Base64 encode decode_slice.

Lemma letter_ok i : is_base64_byte (letter i) = true.
Proof.
  unfold letter. destruct (nth_in_or_default (Z.to_nat i) alphabet 61) as [Hin|E]; [|by rewrite E].
  revert Hin. generalize (nth (Z.to_nat i) alphabet 61). apply List.Forall_forall.
  by apply (proj1 (forallb_Forall_true is_base64_byte alphabet)).
Qed.

Lemma encode_ok n : forall l, (length l <= n)%nat -> Forall (fun c => is_base64_byte c = true) (encode l).
Proof.
  induction n as [|n IH]; intros [|a [|b [|c t]]] Hl; cbn in Hl; try lia; cbn [encode];
    repeat (constructor; [apply letter_ok || done|]); try done.
  apply IH. lia.
Qed.

#[export] Instance simple_base64_spec : Base64Spec.
Proof.
  split; cbn [b64_encode b64_decode_slice simple_base64].
  - intros b. by apply (encode_ok (length b)).
  - intros v n m. unfold decode_slice. destruct (forallb is_base64_byte v) eqn:E; [|done]. intros _. by apply forallb_Forall_true.
  - intros b Hb%len_length. do 16 (destruct b as [|? b]; [done|]). destruct b; [|done]. unfold decode_slice.
    rewrite (proj2 (forallb_Forall_true _ _)) by by apply (encode_ok 16). reflexivity.
Qed.

#[export] Instance simple_digest : Sha1 := fun b => upto 20 (b ++ replicate 20 0).
#[export] Instance simple_uri : UriParser := fun t => if starts_with [47] t then Some (MkUri None None (Some t)) else None.
#[export] Instance simple_uri_spec : UriSpec.
Proof. intros target Hs _. unfold uri_parse, simple_uri. by rewrite Hs. Qed.
#[local] Existing Instance simple_httparse.

(** ** A request and a handshake *)

Definition the_key : bytes := generate_key (str "0123456789abcdef").
Definition the_extra : option (list (bytes * bytes)) := Some [(str "Origin", str "https://example.com"); (str "X-Trace", str "a b")].
Definition the_request : bytes := build_request_inner (str "example.com") (str "/chat?x=%20") the_key (Some (str "chat, superchat")) None the_extra.

Lemma the_request_sendable :
  sendable (str "example.com") (str "/chat?x=%20") the_key (Some (str "chat, superchat")) None the_extra the_request.
Proof.
  split; [vm_compute; reflexivity| |split_and!|vm_compute; discriminate|vm_compute; discriminate].
  - split_and!; [vm_compute; done| | |].
    + intros p [= <-]. by vm_compute.
    + done.
    + repeat constructor; by vm_compute.
  - reflexivity.
  - by apply (proj1 (forallb_Forall_true is_plain_byte _)).
  - reflexivity.
Qed.

Lemma request_no_injection_witness :
  build_request_with_headers (str "example.com") (str "/chat?x=%20") the_key (Some (str "chat, superchat")) None the_extra = Ok the_request /\
  the_request = unlines (request_lines (str "example.com") (str "/chat?x=%20") the_key (Some (str "chat, superchat")) None the_extra) /\
  Forall one_line (request_lines (str "example.com") (str "/chat?x=%20") the_key (Some (str "chat, superchat")) None the_extra).
Proof.
  assert (E : build_request_with_headers (str "example.com") (str "/chat?x=%20") the_key (Some (str "chat, superchat")) None the_extra = Ok the_request)
    by (vm_compute; reflexivity).
  split; [exact E|]. exact (request_no_injection _ _ _ _ _ _ _ E).
Defined.


(** The server supports two subprotocols and prefers the second offered; its request arrives in two reads with a first frame. *)
Definition the_supported : option (list bytes) := Some [str "superchat"; str "chat"].
Definition the_response : bytes :=
  build_response (generate_accept_key the_key) (selection the_supported (Some (str "chat, superchat"))) None.
Definition server_peer : Peer := MkPeer [inr (upto 40 the_request); inr (from 40 the_request ++ [129; 0])] None None [].
Definition client_peer : Peer := MkPeer [inr (upto 7 the_response); inr (from 7 the_response)] None None [].

Lemma handshake_completes_witness :
  exists server' client' rs rc,
    server_handshake_with_supported_protocols server_peer the_supported = (server', Ok rs) /\
    client_handshake_with_headers client_peer (str "0123456789abcdef") (str "example.com") (str "/chat?x=%20")
      (Some (str "chat, superchat")) the_extra = (client', Ok rc) /\
    written server' = written server_peer ++ the_response /\ written client' = written client_peer ++ the_request /\
    h_path rs = str "/chat?x=%20" /\ h_path rc = str "/chat?x=%20" /\ h_protocol rs = h_protocol rc /\
    agreed the_supported (Some (str "chat, superchat")) (h_protocol rc) /\
    after_head server' rs = [129; 0] /\ after_head client' rc = [].
Proof.
  pose proof (handshake_completes (str "0123456789abcdef") (str "example.com") (str "/chat?x=%20") (Some (str "chat, superchat")) the_extra
    the_supported the_request server_peer client_peer [129; 0] [] [upto 40 the_request; from 40 the_request ++ [129; 0]]
    [upto 7 the_response; from 7 the_response]) as Hc.
  cbv zeta in Hc. fold the_key in Hc. fold the_response in Hc. apply Hc.
  - exact the_request_sendable.
  - intros s [= <-]. vm_compute. reflexivity.
  - vm_compute. discriminate.
  - split_and!; [reflexivity|reflexivity|reflexivity|]. repeat constructor; vm_compute; discriminate.
  - vm_compute. reflexivity.
  - split_and!; [reflexivity|reflexivity|reflexivity|]. repeat constructor; vm_compute; discriminate.
  - vm_compute. reflexivity.
Defined.
