(* ===== verification/Compressed.v ===== *)
(** * The compressed protocol (src/src/protocol.rs, second half)

    [CompressedProtocol] and its two halves, over a codec: the encoder and the decoder of [deflate.rs] are an interface here, which [DeflateCodec]
    implements.  Theorems are in [CompressedSpec]. *)

From stdpp Require Import base list strings.
From S2P Require Import Prelude Error Mask Utf8 Frame Protocol Deflate.

(** ** The codec *)

Class Codec (E D : Type) := {
  (** [DeflateEncoder::new(window_bits, no_context_takeover, level, threshold)] and [compress] *)
  encoder_new : DeflateWindowBits -> bool -> Z -> Z -> E;
  codec_compress : E -> bytes -> comp E (option bytes);
  (** [DeflateDecoder::new(window_bits, no_context_takeover)] and [decompress] *)
  decoder_new : DeflateWindowBits -> bool -> D;
  codec_decompress : D -> bytes -> Z -> comp D bytes
}.

Module DeflateContext.
Record t (E D : Type) := Mk { encoder : E; decoder : D; config : DeflateConfig.t }.
Arguments Mk {E D}. Arguments encoder {E D}. Arguments decoder {E D}. Arguments config {E D}.

Definition server `{Codec E D} (c : DeflateConfig.t) : t E D :=
  Mk (encoder_new (DeflateConfig.server_max_window_bits c) (DeflateConfig.server_no_context_takeover c)
        (DeflateConfig.compression_level c) (DeflateConfig.compression_threshold c))
     (decoder_new (DeflateConfig.client_max_window_bits c) (DeflateConfig.client_no_context_takeover c)) c.
Definition client `{Codec E D} (c : DeflateConfig.t) : t E D :=
  Mk (encoder_new (DeflateConfig.client_max_window_bits c) (DeflateConfig.client_no_context_takeover c)
        (DeflateConfig.compression_level c) (DeflateConfig.compression_threshold c))
     (decoder_new (DeflateConfig.server_max_window_bits c) (DeflateConfig.server_no_context_takeover c)) c.

Definition compress `{Codec E D} (d : t E D) (data : bytes) : comp (t E D) (option bytes) :=
  match codec_compress (encoder d) data with
  | Done e r => Done (Mk e (decoder d) (config d)) r
  | Panic => Panic
  | NoFuel => NoFuel
  end.
Definition decompress `{Codec E D} (d : t E D) (data : bytes) (max_size : Z) : comp (t E D) bytes :=
  match codec_decompress (decoder d) data max_size with
  | Done dec r => Done (Mk (encoder d) dec (config d)) r
  | Panic => Panic
  | NoFuel => NoFuel
  end.
End DeflateContext.

(** Text that arrived whole. *)
Definition check_text {S} `{Simdutf8} (validate : bool) (s : S) (data : bytes) : comp S (option Message.t) :=
  if validate && negb (validate_utf8 data) then Done s (Err InvalidUtf8) else Done s (Ok (Some (Message.Text data))).

(** ** Both directions *)

Module CompressedProtocol.
Import Protocol.

(** [decompress_buf] is never used. *)
Record t (E D : Type) := Mk { inner : Protocol.t; deflate : DeflateContext.t E D; fragment_compressed : bool }.
Arguments Mk {E D}. Arguments inner {E D}. Arguments deflate {E D}. Arguments fragment_compressed {E D}.

Section compressed.
Context {E D : Type} `{Codec E D} {SU : Simdutf8}.

Definition set_inner (v : Protocol.t) (p : t E D) : t E D := Mk v (deflate p) (fragment_compressed p).
Definition set_deflate (v : DeflateContext.t E D) (p : t E D) : t E D := Mk (inner p) v (fragment_compressed p).
Definition set_compressed (v : bool) (p : t E D) : t E D := Mk (inner p) (deflate p) v.

Definition server (max_frame_size max_message_size : Z) (c : DeflateConfig.t) : t E D :=
  Mk (enable_compression (Protocol.new Server max_frame_size max_message_size)) (DeflateContext.server c) false.
Definition client (max_frame_size max_message_size : Z) (c : DeflateConfig.t) : t E D :=
  Mk (enable_compression (Protocol.new Client max_frame_size max_message_size)) (DeflateContext.client c) false.
Definition with_text_utf8_validation (enabled : bool) (p : t E D) : t E D :=
  set_inner (Protocol.with_text_utf8_validation enabled (inner p)) p.
Definition is_closed (p : t E D) : bool := Protocol.is_closed (inner p).
Definition is_closing (p : t E D) : bool := Protocol.is_closing (inner p).

(** A call on [inner]. *)
Definition on_inner {A} (p : t E D) (m : comp Protocol.t A) : comp (t E D) A :=
  match m with
  | Done i r => Done (set_inner i p) r
  | Panic => Panic
  | NoFuel => NoFuel
  end.

(** [self.deflate.decompress(data, self.inner.max_message_size)] *)
Definition decompress (p : t E D) (data : bytes) : comp (t E D) bytes :=
  match DeflateContext.decompress (deflate p) data (max_message_size (inner p)) with
  | Done d r => Done (set_deflate d p) r
  | Panic => Panic
  | NoFuel => NoFuel
  end.

(** The payload of a data frame that is a whole message. *)
Definition whole_payload (p : t E D) (f : Frame) (compressed : bool) : comp (t E D) bytes :=
  if compressed then decompress p (payload f)
  else match ensure_message_size (len (payload f)) (max_message_size (inner p)) with
       | Err e => Done p (Err e)
       | Ok _ => Done p (Ok (payload f))
       end.

Definition handle_text (p : t E D) (f : Frame) (compressed : bool) : comp (t E D) (option Message.t) :=
  if negb (bool_decide (fragment_opcode (inner p) = None))
  then Done p (Err (ProtocolError "expected continuation frame"))
  else if fin (header f) then
    let! (p, data) := whole_payload p f compressed in check_text (validate_text_utf8 (inner p)) p data
  else
    let p := set_compressed compressed p in
    let! (p, _u) := on_inner p (if compressed || negb (validate_text_utf8 (inner p))
                                then start_raw_fragment (inner p) Text (payload f)
                                else start_fragment (inner p) Text (payload f) 0) in
    Done p (Ok None).

Definition handle_binary (p : t E D) (f : Frame) (compressed : bool) : comp (t E D) (option Message.t) :=
  if negb (bool_decide (fragment_opcode (inner p) = None))
  then Done p (Err (ProtocolError "expected continuation frame"))
  else if fin (header f) then
    let! (p, data) := whole_payload p f compressed in Done p (Ok (Some (Message.Binary data)))
  else
    let p := set_compressed compressed p in
    let! (p, _u) := on_inner p (start_fragment (inner p) Binary (payload f) 0) in Done p (Ok None).

Definition complete_fragment (p : t E D) (o : OpCode) : comp (t E D) (option Message.t) :=
  let compressed_data := fragment_buf (inner p) in
  let p := set_inner (set_fragment [] None (inner p)) p in
  let! (p, data) := (if fragment_compressed p then decompress (set_compressed false p) compressed_data
                     else Done p (Ok compressed_data)) in
  match o with
  | Text => check_text (validate_text_utf8 (inner p)) p data
  | Binary => Done p (Ok (Some (Message.Binary data)))
  | _ => Done p (Err (ProtocolError "invalid fragment opcode"))
  end.

Definition handle_continuation (p : t E D) (f : Frame) : comp (t E D) (option Message.t) :=
  match fragment_opcode (inner p) with
  | None => Done p (Err (ProtocolError "unexpected continuation frame"))
  | Some o =>
      let new_size := len (fragment_buf (inner p)) + len (payload f) in
      if max_message_size (inner p) <? new_size then Done p (Err MessageTooLarge)
      else
        let p := set_inner (set_fragment (fragment_buf (inner p) ++ payload f) (Some o) (inner p)) p in
        if fin (header f) then complete_fragment p o else Done p (Ok None)
  end.

Definition handle_frame (p : t E D) (f : Frame) : comp (t E D) (option Message.t) :=
  match opcode (header f) with
  | Continuation => handle_continuation p f
  | Text => handle_text p f (rsv1 (header f))
  | Binary => handle_binary p f (rsv1 (header f))
  | Close => on_inner p (handle_close (inner p) f)
  | Ping => on_inner p (handle_ping (inner p) f)
  | Pong => on_inner p (handle_pong (inner p) f)
  end.

Definition receiver : Receiver (t E D) Message.t :=
  MkReceiver _ _ (fun p => parser (inner p)) (fun ps p => set_inner (set_parser ps (inner p)) p)
    handle_frame (fun p _ => Done p (Ok tt)).

Definition process_into_with_activity (arch : Arch) (slice_addr : bytes -> Z) (p : t E D) (buf : bytes) :
    comp (t E D * bytes * list Message.t * bool) unit :=
  receive_into receiver arch slice_addr p buf.

(** A data frame, compressed when that is worth while. *)
Definition encode_data (key : bytes) (p : t E D) (o : OpCode) (b buf : bytes) : comp (t E D * bytes) unit :=
  let mask := choose_mask (role (inner p)) key in
  match DeflateContext.compress (deflate p) b with
  | Done d (Ok (Some compressed)) =>
      Done (set_deflate d p, encode_frame_with_rsv buf o compressed true mask true) (Ok tt)
  | Done d (Ok None) => Done (set_deflate d p, encode_frame buf o b true mask) (Ok tt)
  | Done d (Err e) => Done (set_deflate d p, buf) (Err e)
  | Panic => Panic
  | NoFuel => NoFuel
  end.

(** [close_key]: the key [self.inner.encode_message] draws for a close frame *)
Definition encode_message (key close_key : bytes) (p : t E D) (msg : Message.t) (buf : bytes) : comp (t E D * bytes) unit :=
  let mask := choose_mask (role (inner p)) key in
  match msg with
  | Message.Text b => encode_data key p Text b buf
  | Message.Binary b => encode_data key p Binary b buf
  | Message.Ping b => Done (p, encode_frame buf Ping b true mask) (Ok tt)
  | Message.Pong b => Done (p, encode_frame buf Pong b true mask) (Ok tt)
  | Message.Close _ =>
      let '(i, buf) := encode_message_into close_key (inner p) msg buf in Done (set_inner i p, buf) (Ok tt)
  end.
Definition encode_pong (key : bytes) (p : t E D) (ping_data buf : bytes) : bytes :=
  Protocol.encode_pong key (inner p) ping_data buf.
Definition encode_close_response (key : bytes) (p : t E D) (buf : bytes) : t E D * bytes :=
  let '(i, buf) := Protocol.encode_close_response key (inner p) buf in (set_inner i p, buf).
End compressed.
End CompressedProtocol.

(** ** The reading half *)

Module CompressedReader.
Record t (D : Type) := Mk {
  validate_text_utf8 : bool;
  role : Role;
  parser : FrameParser.t;
  fragment_buf : bytes;
  fragment_opcode : option OpCode;
  max_message_size : Z;
  decoder : D;
  fragment_compressed : bool
}.
Arguments Mk {D}. Arguments validate_text_utf8 {D}. Arguments role {D}. Arguments parser {D}. Arguments fragment_buf {D}.
Arguments fragment_opcode {D}. Arguments max_message_size {D}. Arguments decoder {D}. Arguments fragment_compressed {D}.

Section reader.
Context {E D : Type} `{Codec E D} {SU : Simdutf8}.

Definition set_parser (v : FrameParser.t) (p : t D) : t D :=
  Mk (validate_text_utf8 p) (role p) v (fragment_buf p) (fragment_opcode p) (max_message_size p) (decoder p) (fragment_compressed p).
Definition set_fragment (b : bytes) (o : option OpCode) (p : t D) : t D :=
  Mk (validate_text_utf8 p) (role p) (parser p) b o (max_message_size p) (decoder p) (fragment_compressed p).
Definition set_decoder (v : D) (p : t D) : t D :=
  Mk (validate_text_utf8 p) (role p) (parser p) (fragment_buf p) (fragment_opcode p) (max_message_size p) v (fragment_compressed p).
Definition set_compressed (v : bool) (p : t D) : t D :=
  Mk (validate_text_utf8 p) (role p) (parser p) (fragment_buf p) (fragment_opcode p) (max_message_size p) (decoder p) v.

Definition server (max_frame_size max_message_size : Z) (c : DeflateConfig.t) : t D :=
  Mk true Server (FrameParser.new max_frame_size true) [] None max_message_size
     (decoder_new (DeflateConfig.client_max_window_bits c) (DeflateConfig.client_no_context_takeover c)) false.
Definition client (max_frame_size max_message_size : Z) (c : DeflateConfig.t) : t D :=
  Mk true Client (FrameParser.new max_frame_size false) [] None max_message_size
     (decoder_new (DeflateConfig.server_max_window_bits c) (DeflateConfig.server_no_context_takeover c)) false.

Definition decompress (p : t D) (data : bytes) : comp (t D) bytes :=
  match codec_decompress (decoder p) data (max_message_size p) with
  | Done d r => Done (set_decoder d p) r
  | Panic => Panic
  | NoFuel => NoFuel
  end.
Definition whole_payload (p : t D) (f : Frame) (compressed : bool) : comp (t D) bytes :=
  if compressed then decompress p (payload f)
  else match ensure_message_size (len (payload f)) (max_message_size p) with
       | Err e => Done p (Err e)
       | Ok _ => Done p (Ok (payload f))
       end.
Definition start_fragment (p : t D) (o : OpCode) (payload : bytes) : comp (t D) unit :=
  if max_message_size p <? len payload then Done p (Err MessageTooLarge)
  else Done (set_fragment payload (Some o) p) (Ok tt).

Definition handle_text (p : t D) (f : Frame) (compressed : bool) : comp (t D) (option Message.t) :=
  if negb (bool_decide (fragment_opcode p = None)) then Done p (Err (ProtocolError "expected continuation frame"))
  else if fin (header f) then
    let! (p, data) := whole_payload p f compressed in check_text (validate_text_utf8 p) p data
  else
    let p := set_compressed compressed p in
    let! (p, _u) := start_fragment p Text (payload f) in Done p (Ok None).
Definition handle_binary (p : t D) (f : Frame) (compressed : bool) : comp (t D) (option Message.t) :=
  if negb (bool_decide (fragment_opcode p = None)) then Done p (Err (ProtocolError "expected continuation frame"))
  else if fin (header f) then
    let! (p, data) := whole_payload p f compressed in Done p (Ok (Some (Message.Binary data)))
  else
    let p := set_compressed compressed p in
    let! (p, _u) := start_fragment p Binary (payload f) in Done p (Ok None).

Definition complete_fragment (p : t D) (o : OpCode) : comp (t D) (option Message.t) :=
  let compressed_data := fragment_buf p in
  let p := set_fragment [] None p in
  let! (p, data) := (if fragment_compressed p then decompress (set_compressed false p) compressed_data
                     else Done p (Ok compressed_data)) in
  match o with
  | Text => check_text (validate_text_utf8 p) p data
  | Binary => Done p (Ok (Some (Message.Binary data)))
  | _ => Done p (Err (ProtocolError "invalid fragment opcode"))
  end.
Definition handle_continuation (p : t D) (f : Frame) : comp (t D) (option Message.t) :=
  match fragment_opcode p with
  | None => Done p (Err (ProtocolError "unexpected continuation frame"))
  | Some o =>
      let new_size := len (fragment_buf p) + len (payload f) in
      if max_message_size p <? new_size then Done p (Err MessageTooLarge)
      else
        let p := set_fragment (fragment_buf p ++ payload f) (Some o) p in
        if fin (header f) then complete_fragment p o else Done p (Ok None)
  end.
(** The checks of [handle_close] are those of [Protocol]; there is no state to change. *)
Definition handle_close (p : t D) (f : Frame) : comp (t D) (option Message.t) :=
  match Protocol.close_reason (payload f) with
  | Err e => Done p (Err e)
  | Ok reason => Done p (Ok (Some (Message.Close reason)))
  end.
Definition handle_frame (p : t D) (f : Frame) : comp (t D) (option Message.t) :=
  match opcode (header f) with
  | Continuation => handle_continuation p f
  | Text => handle_text p f (rsv1 (header f))
  | Binary => handle_binary p f (rsv1 (header f))
  | Close => handle_close p f
  | Ping => Done p (Ok (Some (Message.Ping (payload f))))
  | Pong => Done p (Ok (Some (Message.Pong (payload f))))
  end.

Definition receiver : Receiver (t D) Message.t :=
  MkReceiver _ _ parser set_parser handle_frame (fun p _ => Done p (Ok tt)).
Definition process_into_with_activity (arch : Arch) (slice_addr : bytes -> Z) (p : t D) (buf : bytes) :
    comp (t D * bytes * list Message.t * bool) unit :=
  receive_into receiver arch slice_addr (set_parser (FrameParser.set_compression true (parser p)) p) buf.
End reader.
End CompressedReader.

(** ** The writing half *)

Module CompressedWriter.
Import Protocol.
Record t (E : Type) := Mk { role : Role; encoder : E }.
Arguments Mk {E}. Arguments role {E}. Arguments encoder {E}.

Section writer.
Context {E D : Type} `{Codec E D}.

Definition server (c : DeflateConfig.t) : t E :=
  Mk Server (encoder_new (DeflateConfig.server_max_window_bits c) (DeflateConfig.server_no_context_takeover c)
    (DeflateConfig.compression_level c) (DeflateConfig.compression_threshold c)).
Definition client (c : DeflateConfig.t) : t E :=
  Mk Client (encoder_new (DeflateConfig.client_max_window_bits c) (DeflateConfig.client_no_context_takeover c)
    (DeflateConfig.compression_level c) (DeflateConfig.compression_threshold c)).

Definition encode_data (key : bytes) (p : t E) (o : OpCode) (b buf : bytes) : comp (t E * bytes) unit :=
  let mask := choose_mask (role p) key in
  match codec_compress (encoder p) b with
  | Done e (Ok (Some compressed)) => Done (Mk (role p) e, encode_frame_with_rsv buf o compressed true mask true) (Ok tt)
  | Done e (Ok None) => Done (Mk (role p) e, encode_frame buf o b true mask) (Ok tt)
  | Done e (Err err) => Done (Mk (role p) e, buf) (Err err)
  | Panic => Panic
  | NoFuel => NoFuel
  end.
Definition encode_message (key : bytes) (p : t E) (msg : Message.t) (buf : bytes) : comp (t E * bytes) unit :=
  let mask := choose_mask (role p) key in
  match msg with
  | Message.Text b => encode_data key p Text b buf
  | Message.Binary b => encode_data key p Binary b buf
  | Message.Ping b => Done (p, encode_frame buf Ping b true mask) (Ok tt)
  | Message.Pong b => Done (p, encode_frame buf Pong b true mask) (Ok tt)
  | Message.Close reason => Done (p, encode_frame buf Close (close_payload reason) true mask) (Ok tt)
  end.
Definition encode_pong (key : bytes) (p : t E) (ping_data buf : bytes) : bytes :=
  encode_frame buf Pong ping_data true (choose_mask (role p) key).
Definition encode_close_response (key : bytes) (p : t E) (buf : bytes) : bytes :=
  encode_frame buf Close [] true (choose_mask (role p) key).
End writer.
End CompressedWriter.

(** [CompressedProtocol::split] *)
Definition split_compressed {E D : Type} (p : CompressedProtocol.t E D) (max_frame_size max_message_size : Z) :
    CompressedReader.t D * CompressedWriter.t E :=
  let i := CompressedProtocol.inner p in
  let d := CompressedProtocol.deflate p in
  (CompressedReader.Mk (Protocol.validate_text_utf8 i) (Protocol.role i)
     (FrameParser.set_max_frame_size max_frame_size (Protocol.parser i)) (Protocol.fragment_buf i) (Protocol.fragment_opcode i)
     max_message_size (DeflateContext.decoder d) (CompressedProtocol.fragment_compressed p),
   CompressedWriter.Mk (Protocol.role i) (DeflateContext.encoder d)).
