(* ===== verification/CompressedSpec.v ===== *)
(** * What the compressed protocol delivers

    A reference receiver over whole frames that decompresses a message once it is complete; the unified handler and the reading half
    both follow it, whatever the read boundaries.  With a codec whose decoder undoes its encoder ([CodecSync]), what one
    endpoint encodes the other delivers. *)

From stdpp Require Import base list strings.
From S2P Require Import Prelude Error Mask Utf8 Frame FrameSpec Protocol ReceiveSpec ProtocolSpec ProtocolProps Deflate Compressed.
Import (notations) FrameParser.

(** ** What the codec promises *)

(** Decompression returns, and never more than its limit. *)
Class CodecTotal (E D : Type) `{Codec E D} : Prop :=
  decompress_total (d : D) z max : 0 <= max ->
    exists d' r, codec_decompress d z max = Done d' r /\ forall out, r = Ok out -> len out <= max.

(** An encoder and the decoder at the other end: what is compressed is decompressed to the same data, within any limit that
    the data respects, and what is left uncompressed need not be decompressed. *)
Class CodecSync (E D : Type) `{Codec E D} := {
  in_sync : E -> D -> Prop;
  (** how long compressed data can be *)
  compressed_bound : Z -> Z;
  compress_sync e d data : in_sync e d -> len data <= 400000000 -> bytes_ok data ->
    exists e' r, codec_compress e data = Done e' (Ok r) /\
      match r with
      | None => in_sync e' d
      | Some z => bytes_ok z /\ len z <= compressed_bound (len data) /\
          forall max, len data <= max <= 400000000 ->
            exists d', codec_decompress d z max = Done d' (Ok data) /\ in_sync e' d'
      end
}.

(** ** The reference receiver *)

Section reference.
Context {E D : Type} `{Codec E D} {SU : Simdutf8}.

(** The message being reassembled: its opcode, whether it is compressed, and the bytes so far; and the decoder. *)
Definition cstate : Type := option (OpCode * bool * bytes) * D.

(** The bytes of a complete message. *)
Definition expand (max : Z) (compressed : bool) (d : D) (z : bytes) : result (D * bytes) :=
  if compressed then
    match codec_decompress d z max with
    | Done d (Ok data) => Ok (d, data)
    | Done _ (Err e) => Err e
    | _ => Err (InvalidState "codec")
    end
  else if max <? len z then Err MessageTooLarge else Ok (d, z).

Definition complete (max : Z) (validate : bool) (o : OpCode) (compressed : bool) (d : D) (z : bytes) :
    result (cstate * option Message.t) :=
  match expand max compressed d z with
  | Err e => Err e
  | Ok (d, data) =>
      if validate && bool_decide (o = Text) && negb (str_from_utf8 data) then Err InvalidUtf8
      else Ok ((None, d), Some (data_message o data))
  end.

(** [early]: an uncompressed text is given up at its first fragment when no continuation can make it valid. *)
Definition cref_start (max : Z) (validate early : bool) (o : OpCode) (d : D) (f : Frame) : result (cstate * option Message.t) :=
  let c := rsv1 (header f) in
  if fin (header f) then complete max validate o c d (payload f)
  else if max <? len (payload f) then Err MessageTooLarge
  else if early && negb c && negb (text_ok validate o (payload f) false) then Err InvalidUtf8
  else Ok ((Some (o, c, payload f), d), None).

Definition cref_frame (max : Z) (validate early : bool) (s : cstate) (f : Frame) : result (cstate * option Message.t) :=
  let '(fr, d) := s in
  match opcode (header f), fr with
  | Continuation, None => Err (ProtocolError "unexpected continuation frame")
  | Continuation, Some (o, c, b) =>
      if max <? len (b ++ payload f) then Err MessageTooLarge
      else if fin (header f) then complete max validate o c d (b ++ payload f)
      else Ok ((Some (o, c, b ++ payload f), d), None)
  | Text, None => cref_start max validate early Text d f
  | Binary, None => cref_start max validate early Binary d f
  | Text, Some _ | Binary, Some _ => Err (ProtocolError "expected continuation frame")
  | Close, _ => match Protocol.close_reason (payload f) with
                | Ok r => Ok (s, Some (Message.Close r))
                | Err e => Err e
                end
  | Ping, _ => Ok (s, Some (Message.Ping (payload f)))
  | Pong, _ => Ok (s, Some (Message.Pong (payload f)))
  end.
End reference.

(** ** The unified handler *)

Section follows.
Context {E D : Type} `{CodecTotal E D} {SU : Simdutf8} {SUok : Simdutf8Spec}.
Context (arch : Arch) (slice_addr : bytes -> Z) (Harch : arch_ok arch) (max : Z) (Hmax : 0 <= max) (validate : bool) (pol : policy).

(** The handler stands for a state of the reference. *)
Record cholds (p : CompressedProtocol.t E D) (s : cstate) : Prop := {
  ch_max : Protocol.max_message_size (CompressedProtocol.inner p) = max;
  ch_validate : Protocol.validate_text_utf8 (CompressedProtocol.inner p) = validate;
  ch_utf8 : Utf8StreamFacts.wf (Protocol.utf8 (CompressedProtocol.inner p));
  ch_decoder : DeflateContext.decoder (CompressedProtocol.deflate p) = snd s;
  ch_fragment : match fst s with
    | None => Protocol.fragment_opcode (CompressedProtocol.inner p) = None
    | Some (o, c, b) => Protocol.fragment_opcode (CompressedProtocol.inner p) = Some o /\ (o = Text \/ o = Binary) /\
        CompressedProtocol.fragment_compressed p = c /\ Protocol.fragment_buf (CompressedProtocol.inner p) = b
    end }.

(** What handling a frame should give. *)
Definition cpost (p : CompressedProtocol.t E D) (spec : result (cstate * option Message.t)) (r : comp (CompressedProtocol.t E D) (option Message.t)) : Prop :=
  match spec with
  | Ok (s', m) => exists p', r = Done p' (Ok m) /\ cholds p' s' /\
      Protocol.parser (CompressedProtocol.inner p') = Protocol.parser (CompressedProtocol.inner p)
  | Err e => exists p', r = Done p' (Err e)
  end.

Lemma check_text_post p s d (data : bytes) q : cholds q (None, d) -> 
  Protocol.parser (CompressedProtocol.inner q) = Protocol.parser (CompressedProtocol.inner p) ->
  s = (None, d) ->
  cpost p (if validate && bool_decide (Text = Text) && negb (str_from_utf8 data) then Err InvalidUtf8
           else Ok (s, Some (data_message Text data)))
    (check_text validate q data).
Proof.
  intros Hq Hps ->. unfold check_text, validate_utf8. rewrite basic_from_utf8_spec, bool_decide_eq_true_2, andb_true_r by done.
  destruct (validate && _); [by exists q|]. by exists q.
Qed.

(** The end of a message: decompress, then validate. *)
Lemma complete_post p q o c d z : o = Text \/ o = Binary ->
  cholds q (None, d) -> Protocol.parser (CompressedProtocol.inner q) = Protocol.parser (CompressedProtocol.inner p) ->
  (c = true \/ len z <= max) ->
  cpost p (complete max validate o c d z)
    (let! (q, data) := (if c then CompressedProtocol.decompress q z else Done q (Ok z)) in
     match o with
     | Text => check_text (Protocol.validate_text_utf8 (CompressedProtocol.inner q)) q data
     | Binary => Done q (Ok (Some (Message.Binary data)))
     | _ => Done q (Err (ProtocolError "invalid fragment opcode"))
     end).
Proof.
  intros Ho Hq Hps Hz. pose proof Hq as [Hm Hv Hu Hd Hf]. cbn in Hd, Hf.
  assert (Hfin : forall q' d' data, cholds q' (None, d') -> Protocol.parser (CompressedProtocol.inner q') = Protocol.parser (CompressedProtocol.inner p) ->
    cpost p (if validate && bool_decide (o = Text) && negb (str_from_utf8 data) then Err InvalidUtf8
             else Ok ((None, d'), Some (data_message o data)))
      (match o with
       | Text => check_text (Protocol.validate_text_utf8 (CompressedProtocol.inner q')) q' data
       | Binary => Done q' (Ok (Some (Message.Binary data)))
       | _ => Done q' (Err (ProtocolError "invalid fragment opcode"))
       end)).
  { intros q' d' data Hq' Hps'. destruct Ho as [-> | ->].
    - rewrite (ch_validate _ _ Hq'). by eapply check_text_post.
    - rewrite (bool_decide_eq_false_2 (Binary = Text)), andb_false_r by done. cbn [andb]. by exists q'. }
  unfold complete, expand. destruct c.
  - destruct (decompress_total d z max Hmax) as (d' & r & Ed & _).
    unfold CompressedProtocol.decompress, DeflateContext.decompress. rewrite Hd, Hm, Ed.
    destruct r as [data|e]; cbn [run_bind]; [|by eexists].
    apply Hfin; [|done]. split; cbn; done.
  - destruct Hz as [?|Hz]; [done|]. zfalse (max <? len z). cbn [run_bind]. by apply Hfin.
Qed.

Lemma whole_post p f o c d : o = Text \/ o = Binary -> cholds p (None, d) ->
  cpost p (complete max validate o c d (payload f))
    (let! (q, data) := CompressedProtocol.whole_payload p f c in
     match o with
     | Text => check_text (Protocol.validate_text_utf8 (CompressedProtocol.inner q)) q data
     | Binary => Done q (Ok (Some (Message.Binary data)))
     | _ => Done q (Err (ProtocolError "invalid fragment opcode"))
     end).
Proof.
  intros Ho Hp. pose proof Hp as [Hm _ _ _ _]. unfold CompressedProtocol.whole_payload. destruct c; [apply (complete_post p p o true); auto|].
  unfold ensure_message_size. rewrite Hm. destruct (Z.ltb_spec max (len (payload f))) as [Hl|Hl].
  - unfold complete, expand. ztrue (max <? len (payload f)). by exists p.
  - apply (complete_post p p o false); auto.
Qed.

Lemma cstart_post p f o c d (r : comp Protocol.t unit) : cholds p (None, d) -> o = Text \/ o = Binary -> c = rsv1 (header f) ->
  unit_post (CompressedProtocol.inner p) (ref_data max (validate && negb c) o (payload f) false) r ->
  forall spec, spec = (if max <? len (payload f) then Err MessageTooLarge
     else if negb c && negb (text_ok validate o (payload f) false) then Err InvalidUtf8
     else Ok ((Some (o, c, payload f), d), None)) ->
  cpost p spec (let! (q, _u) := CompressedProtocol.on_inner (CompressedProtocol.set_compressed c p) r in Done q (Ok None)).
Proof.
  intros [Hm Hv Hu Hd Hf] Ho Hc Hr spec ->. cbn in Hd, Hf. unfold unit_post, frame_post, ref_data in Hr.
  assert (Ht : text_ok (validate && negb c) o (payload f) false = c || text_ok validate o (payload f) false).
  { unfold text_ok. destruct c; cbn; [by rewrite andb_false_r|]. by rewrite andb_true_r. }
  rewrite Ht in Hr. destruct (max <? len (payload f)).
  - destruct Hr as (i & Ei). unfold CompressedProtocol.on_inner. destruct r as [i' [u|e]| |]; try done. cbn in *. injection Ei as -> ->. by eexists.
  - replace (negb c && negb (text_ok validate o (payload f) false)) with (negb (c || text_ok validate o (payload f) false)) by (by destruct c).
    destruct (negb (c || _)).
    + destruct Hr as (i & Ei). unfold CompressedProtocol.on_inner. destruct r as [i' [u|e]| |]; try done. cbn in *. injection Ei as -> ->. by eexists.
    + destruct Hr as (i & Ei & Hh & Hcfg). unfold CompressedProtocol.on_inner. destruct r as [i' [u|e]| |]; try done. cbn in *. injection Ei as ->.
      destruct Hcfg as (C1 & C2 & C3 & C4 & C5). destruct Hh as [Hwf Hop Hdat _].
      eexists. split; [done|]. split; [|cbn; congruence]. split; cbn; try congruence.
      * rewrite Hop. destruct (Hdat o (payload f) eq_refl) as [-> _]. done.
Qed.

Lemma ccontinuation_post p fr d f : cholds p (fr, d) ->
  cpost p (match fr with
    | None => Err (ProtocolError "unexpected continuation frame")
    | Some (o, c, b) =>
        if max <? len (b ++ payload f) then Err MessageTooLarge
        else if fin (header f) then complete max validate o c d (b ++ payload f)
        else Ok ((Some (o, c, b ++ payload f), d), None)
    end) (CompressedProtocol.handle_continuation p f).
Proof.
  intros [Hm Hv Hu Hd Hf]. cbn in Hd, Hf. unfold CompressedProtocol.handle_continuation.
  destruct fr as [[[o c] b]|]; [|rewrite Hf; by exists p]. destruct Hf as (-> & Ho & Hc & Hb).
  rewrite Hm, Hb, len_app. destruct (Z.ltb_spec max (len b + len (payload f))) as [Hl|Hl]; [by exists p|].
  destruct (fin (header f)).
  - unfold CompressedProtocol.complete_fragment. cbn [CompressedProtocol.inner CompressedProtocol.set_inner Protocol.set_fragment Protocol.fragment_buf
      CompressedProtocol.fragment_compressed]. rewrite Hc. destruct c.
    + apply (complete_post p _ o true); [done| |done|by left]. split; cbn; done.
    + apply (complete_post p _ o false); [done| |done|right; rewrite len_app; lia]. split; cbn; done.
  - eexists. split; [done|]. split; [|done]. split; cbn; done.
Qed.

Lemma cdata_post p f o d fr : cholds p (fr, d) -> o = Text \/ o = Binary ->
  cpost p (match fr with None => cref_start max validate true o d f | Some _ => Err (ProtocolError "expected continuation frame") end)
    (match o with
     | Text => CompressedProtocol.handle_text p f (rsv1 (header f))
     | _ => CompressedProtocol.handle_binary p f (rsv1 (header f))
     end).
Proof.
  intros Hp Ho. pose proof Hp as [Hm Hv Hu Hd Hf]. cbn in Hd, Hf.
  unfold CompressedProtocol.handle_text, CompressedProtocol.handle_binary.
  destruct fr as [[[o' c'] b]|].
  { destruct Hf as (-> & _). destruct Ho as [-> | ->]; by exists p. }
  rewrite Hf, bool_decide_eq_true_2 by done. cbn [negb]. unfold cref_start. destruct (fin (header f)) eqn:Ef.
  - destruct Ho as [-> | ->]; [exact (whole_post p f Text _ d (or_introl eq_refl) Hp)|exact (whole_post p f Binary _ d (or_intror eq_refl) Hp)].
  - assert (Hh : holds (CompressedProtocol.inner p) None) by (split; [done|done|done|done]).
    destruct Ho as [-> | ->]; [eapply (cstart_post p f Text); [exact Hp|by left|reflexivity| |reflexivity]|
      eapply (cstart_post p f Binary); [exact Hp|by right|reflexivity| |reflexivity]].
    + cbn [CompressedProtocol.inner CompressedProtocol.set_compressed]. rewrite Hv.
      destruct (rsv1 (header f)); cbn [orb negb]; rewrite ?andb_false_r, ?andb_true_r.
      * rewrite <- Hm. by apply start_raw_fragment_post; [|left].
      * destruct validate eqn:Ev; cbn [negb].
        -- rewrite <- Hm, <- Hv. apply start_fragment_post; [done|by left; left|by left|by left].
        -- rewrite <- Hm. by apply start_raw_fragment_post; [|left].
    + cbn [CompressedProtocol.inner CompressedProtocol.set_compressed].
      assert (Er : ref_data max (validate && negb (rsv1 (header f))) Binary (payload f) false = ref_data max validate Binary (payload f) false).
      { unfold ref_data, text_ok. by rewrite !andb_false_r. }
      rewrite Er, <- Hm, <- Hv. apply start_fragment_post; [done|by right|by right|by right].
Qed.

Lemma chandle_frame_post p s f : cholds p s -> cpost p (cref_frame max validate true s f) (CompressedProtocol.handle_frame p f).
Proof.
  intros Hp. destruct s as [fr d]. unfold CompressedProtocol.handle_frame, cref_frame. destruct (opcode (header f)).
  - by apply ccontinuation_post.
  - pose proof (cdata_post p f Text d fr Hp (or_introl eq_refl)). by destruct fr as [[[? ?] ?]|].
  - pose proof (cdata_post p f Binary d fr Hp (or_intror eq_refl)). by destruct fr as [[[? ?] ?]|].
  - unfold Protocol.handle_close. destruct (Protocol.close_reason (payload f)) as [r|e]; [|by eexists].
    eexists. split; [done|]. destruct Hp as [Hm Hv Hu Hd Hf]. split; [|cbn; by destruct (Protocol.state _)].
    split; cbn; destruct (Protocol.state (CompressedProtocol.inner p)); done.
  - eexists. split; [done|]. split; [|done]. by destruct Hp.
  - eexists. split; [done|]. split; [|done]. by destruct Hp.
Qed.

(** The parser's view, and the state of the handler. *)
Record csim (p : CompressedProtocol.t E D) (buf raw : bytes) (s : cstate) : Prop := {
  cs_views : views (Protocol.parser (CompressedProtocol.inner p)) buf raw;
  cs_pol : policy_of (Protocol.parser (CompressedProtocol.inner p)) = pol;
  cs_holds : cholds p s }.

#[export] Instance compressed_follows :
  Follows CompressedProtocol.receiver arch slice_addr id (cref_frame max validate true) pol csim.
Proof.
  split.
  - by intros s buf raw fr [].
  - intros s buf raw fr more [Hv Hp Hh] Hok. split; [by apply views_app|done|done].
  - intros s buf raw fr ps rest f [Hv Hp Hh] _ _ Hfr Hpol Hok.
    cbn [on_frame CompressedProtocol.receiver r_set_parser].
    set (q := CompressedProtocol.set_inner (Protocol.set_parser ps (CompressedProtocol.inner s)) s).
    assert (Hq : cholds q fr) by (by destruct Hh).
    pose proof (chandle_frame_post q fr f Hq) as Hpost. unfold cpost in Hpost.
    destruct (cref_frame max validate true fr f) as [[fr' m]|e]; [|done].
    destruct Hpost as (p' & -> & Hh' & Hps). exists p', m. split_and!; [done|by destruct m|]. cbn in Hps.
    split; [rewrite Hps; by apply fresh_views|congruence|done].
  - intros s buf raw fr ps buf' [Hv Hp Hh] _ Hv' Hp' _. left. eexists. split; [done|]. split; [done|done|]. by destruct Hh.
Qed.

(** ** The reading half *)

Record rholds (p : CompressedReader.t D) (s : cstate) : Prop := {
  rh_max : CompressedReader.max_message_size p = max;
  rh_validate : CompressedReader.validate_text_utf8 p = validate;
  rh_decoder : CompressedReader.decoder p = snd s;
  rh_fragment : match fst s with
    | None => CompressedReader.fragment_opcode p = None
    | Some (o, c, b) => CompressedReader.fragment_opcode p = Some o /\ (o = Text \/ o = Binary) /\
        CompressedReader.fragment_compressed p = c /\ CompressedReader.fragment_buf p = b
    end }.

Definition rpost (p : CompressedReader.t D) (spec : result (cstate * option Message.t)) (r : comp (CompressedReader.t D) (option Message.t)) : Prop :=
  match spec with
  | Ok (s', m) => exists p', r = Done p' (Ok m) /\ rholds p' s' /\ CompressedReader.parser p' = CompressedReader.parser p
  | Err e => exists p', r = Done p' (Err e)
  end.

Lemma rcomplete_post p q o c d z : o = Text \/ o = Binary ->
  rholds q (None, d) -> CompressedReader.parser q = CompressedReader.parser p -> (c = true \/ len z <= max) ->
  rpost p (complete max validate o c d z)
    (let! (q, data) := (if c then CompressedReader.decompress q z else Done q (Ok z)) in
     match o with
     | Text => check_text (CompressedReader.validate_text_utf8 q) q data
     | Binary => Done q (Ok (Some (Message.Binary data)))
     | _ => Done q (Err (ProtocolError "invalid fragment opcode"))
     end).
Proof.
  intros Ho Hq Hps Hz. pose proof Hq as [Hm Hv Hd Hf]. cbn in Hd, Hf.
  assert (Hfin : forall q' d' data, rholds q' (None, d') -> CompressedReader.parser q' = CompressedReader.parser p ->
    rpost p (if validate && bool_decide (o = Text) && negb (str_from_utf8 data) then Err InvalidUtf8
             else Ok ((None, d'), Some (data_message o data)))
      (match o with
       | Text => check_text (CompressedReader.validate_text_utf8 q') q' data
       | Binary => Done q' (Ok (Some (Message.Binary data)))
       | _ => Done q' (Err (ProtocolError "invalid fragment opcode"))
       end)).
  { intros q' d' data Hq' Hps'. destruct Ho as [-> | ->].
    - rewrite (rh_validate _ _ Hq'). unfold check_text, validate_utf8. rewrite basic_from_utf8_spec, bool_decide_eq_true_2, andb_true_r by done.
      destruct (validate && _); by exists q'.
    - rewrite (bool_decide_eq_false_2 (Binary = Text)), andb_false_r by done. cbn [andb]. by exists q'. }
  unfold complete, expand. destruct c.
  - destruct (decompress_total d z max Hmax) as (d' & r & Ed & _). unfold CompressedReader.decompress. rewrite Hd, Hm, Ed.
    destruct r as [data|e]; cbn [run_bind]; [|by eexists]. apply Hfin; [|done]. split; cbn; done.
  - destruct Hz as [?|Hz]; [done|]. zfalse (max <? len z). cbn [run_bind]. by apply Hfin.
Qed.

Lemma rdata_post p f o d fr : rholds p (fr, d) -> o = Text \/ o = Binary ->
  rpost p (match fr with None => cref_start max validate false o d f | Some _ => Err (ProtocolError "expected continuation frame") end)
    (match o with
     | Text => CompressedReader.handle_text p f (rsv1 (header f))
     | _ => CompressedReader.handle_binary p f (rsv1 (header f))
     end).
Proof.
  intros Hp Ho. pose proof Hp as [Hm Hv Hd Hf]. cbn in Hd, Hf.
  unfold CompressedReader.handle_text, CompressedReader.handle_binary.
  destruct fr as [[[o' c'] b]|].
  { destruct Hf as (-> & _). destruct Ho as [-> | ->]; by exists p. }
  rewrite Hf, bool_decide_eq_true_2 by done. cbn [negb]. unfold cref_start. destruct (fin (header f)) eqn:Ef.
  - assert (Hw : rpost p (complete max validate o (rsv1 (header f)) d (payload f))
      (let! (q, data) := CompressedReader.whole_payload p f (rsv1 (header f)) in
       match o with
       | Text => check_text (CompressedReader.validate_text_utf8 q) q data
       | Binary => Done q (Ok (Some (Message.Binary data)))
       | _ => Done q (Err (ProtocolError "invalid fragment opcode"))
       end)).
    { unfold CompressedReader.whole_payload. destruct (rsv1 (header f)); [apply (rcomplete_post p p o true); auto|].
      unfold ensure_message_size. rewrite Hm. destruct (Z.ltb_spec max (len (payload f))) as [Hl|Hl].
      - unfold complete, expand. ztrue (max <? len (payload f)). by exists p.
      - apply (rcomplete_post p p o false); auto. }
    by destruct Ho as [-> | ->].
  - unfold CompressedReader.start_fragment. cbn [CompressedReader.max_message_size CompressedReader.set_compressed]. rewrite Hm.
    destruct Ho as [-> | ->]; (destruct (max <? len (payload f)); [by eexists|]); cbn [andb run_bind]; eexists; (split; [done|]); (split; [|done]);
      split; cbn; auto.
Qed.

Lemma rhandle_frame_post p s f : rholds p s -> rpost p (cref_frame max validate false s f) (CompressedReader.handle_frame p f).
Proof.
  intros Hp. destruct s as [fr d]. unfold CompressedReader.handle_frame, cref_frame. destruct (opcode (header f)).
  - pose proof Hp as [Hm Hv Hd Hf]. cbn in Hd, Hf. unfold CompressedReader.handle_continuation.
    destruct fr as [[[o c] b]|]; [|rewrite Hf; by exists p]. destruct Hf as (-> & Ho & Hc & Hb).
    rewrite Hm, Hb, len_app. destruct (Z.ltb_spec max (len b + len (payload f))) as [Hl|Hl]; [by exists p|].
    destruct (fin (header f)).
    + unfold CompressedReader.complete_fragment. cbn [CompressedReader.set_fragment CompressedReader.fragment_buf CompressedReader.fragment_compressed].
      rewrite Hc. destruct c.
      * apply (rcomplete_post p _ o true); [done| |done|by left]. split; cbn; done.
      * apply (rcomplete_post p _ o false); [done| |done|right; rewrite len_app; lia]. split; cbn; done.
    + eexists. split; [done|]. split; [|done]. split; cbn; done.
  - pose proof (rdata_post p f Text d fr Hp (or_introl eq_refl)). by destruct fr as [[[? ?] ?]|].
  - pose proof (rdata_post p f Binary d fr Hp (or_intror eq_refl)). by destruct fr as [[[? ?] ?]|].
  - unfold CompressedReader.handle_close. destruct (Protocol.close_reason (payload f)) as [r|e]; [|by eexists]. by exists p.
  - by exists p.
  - by exists p.
Qed.

Record rsim (p : CompressedReader.t D) (buf raw : bytes) (s : cstate) : Prop := {
  rs_views : views (CompressedReader.parser p) buf raw;
  rs_pol : policy_of (CompressedReader.parser p) = pol;
  rs_holds : rholds p s }.

#[export] Instance reader_follows :
  Follows CompressedReader.receiver arch slice_addr id (cref_frame max validate false) pol rsim.
Proof.
  split.
  - by intros s buf raw fr [].
  - intros s buf raw fr more [Hv Hp Hh] Hok. split; [by apply views_app|done|done].
  - intros s buf raw fr ps rest f [Hv Hp Hh] _ _ Hfr Hpol Hok. cbn [on_frame CompressedReader.receiver r_set_parser].
    assert (Hq : rholds (CompressedReader.set_parser ps s) fr) by (by destruct Hh).
    pose proof (rhandle_frame_post _ fr f Hq) as Hpost. unfold rpost in Hpost.
    destruct (cref_frame max validate false fr f) as [[fr' m]|e]; [|done].
    destruct Hpost as (p' & -> & Hh' & Hps). exists p', m. split_and!; [done|by destruct m|]. cbn in Hps.
    split; [rewrite Hps; by apply fresh_views|congruence|done].
  - intros s buf raw fr ps buf' [Hv Hp Hh] _ Hv' Hp' _. left. eexists. split; [done|]. split; [done|done|]. by destruct Hh.
Qed.
End follows.

(** ** What is delivered *)

Section delivery.
Context {E D : Type} `{CodecTotal E D} {SU : Simdutf8} {SUok : Simdutf8Spec}.
Context (arch : Arch) (slice_addr : bytes -> Z).

Definition compressed_policy (r : Role) (mf : Z) : policy := MkPolicy mf (bool_decide (r = Server)) true.
Definition compressed_new (r : Role) (mf mm : Z) (c : DeflateConfig.t) : CompressedProtocol.t E D :=
  match r with Server => CompressedProtocol.server mf mm c | Client => CompressedProtocol.client mf mm c end.
Definition reader_new (r : Role) (mf mm : Z) (c : DeflateConfig.t) : CompressedReader.t D :=
  match r with Server => CompressedReader.server mf mm c | Client => CompressedReader.client mf mm c end.
(** The decoder an endpoint starts with. *)
Definition first_decoder (r : Role) (c : DeflateConfig.t) : D :=
  DeflateContext.decoder (match r with Server => DeflateContext.server c | Client => DeflateContext.client c end).

(** Successive reads given to [process_into] of the unified handler, and of the reading half. *)
Definition compressed_reads (p : CompressedProtocol.t E D) (chunks : list bytes) :=
  receive_all CompressedProtocol.receiver arch slice_addr p [] [] false chunks.

Fixpoint reader_reads (p : CompressedReader.t D) (buf : bytes) (ms : list Message.t) (a : bool) (chunks : list bytes) :
    comp (CompressedReader.t D * bytes * list Message.t * bool) unit :=
  match chunks with
  | [] => Done (p, buf, ms, a) (Ok tt)
  | c :: cs => match CompressedReader.process_into_with_activity arch slice_addr p (buf ++ c) with
               | Done (p, buf, news, a') (Ok _) => reader_reads p buf (ms ++ news) (a || a') cs
               | Done (p, buf, news, a') (Err e) => Done (p, buf, ms ++ news, a || a') (Err e)
               | Panic => Panic
               | NoFuel => NoFuel
               end
  end.

(** The outcome of reading against the reference: the same messages, and the same error or an early report of text that
    cannot become valid. *)
Definition outcome {S F : Type} (ref : bytes -> list Message.t * result F) (res : comp (S * bytes * list Message.t * bool) unit) : Prop :=
  exists s buf a r, res = Done (s, buf, fst (ref []), a) r /\
    match r with
    | Ok _ => exists fr, snd (ref []) = Ok fr
    | Err e => snd (ref []) = Err e \/
        (e = InvalidUtf8 /\ forall more, bytes_ok more -> fst (ref more) = fst (ref []))
    end.

Lemma received_outcome {S F : Type} (spec : F -> Frame -> result (F * option Message.t)) pol (sm : S -> bytes -> bytes -> F -> Prop) fr raw res :
  bytes_ok raw -> received id spec pol sm [] fr raw res -> outcome (fun more => ref_run spec pol fr (raw ++ more)) res.
Proof.
  intros Hok Hr. apply received_news in Hr as (s & buf & ms & a & r & -> & Hms & Hres); [|done]. rewrite list_fmap_id in Hms. subst ms.
  exists s, buf, a, r. rewrite app_nil_r. split; [done|]. destruct r as [u|e]; [done|]. done.
Qed.

Lemma compressed_sim r mf mm c : csim mm true (compressed_policy r mf) (compressed_new r mf mm c) [] [] (None, first_decoder r c).
Proof.
  destruct r; (split; [apply fresh_views; [done|constructor]|done|]); split; done.
Qed.

Lemma compressed_reads_post mf mm c r chunks : arch_ok arch -> 0 <= mm -> bytes_ok (concat chunks) ->
  received id (cref_frame mm true true) (compressed_policy r mf) (csim mm true (compressed_policy r mf)) []
    (None, first_decoder r c) (concat chunks) (compressed_reads (compressed_new r mf mm c) chunks).
Proof.
  intros Harch Hmm Hok. change (concat chunks) with ([] ++ concat chunks) at 1.
  pose proof (compressed_follows arch slice_addr mm Hmm true (compressed_policy r mf)) as Hf.
  by apply (receive_all_post CompressedProtocol.receiver arch slice_addr Harch id (cref_frame mm true true) (compressed_policy r mf)
    (csim mm true (compressed_policy r mf)) (compressed_new r mf mm c) [] [] (None, first_decoder r c) [] false chunks (compressed_sim r mf mm c)).
Qed.

(** Enabling compression again changes nothing. *)
Lemma reader_enabled mm pol (p : CompressedReader.t D) buf raw (s : cstate (D := D)) : pol_rsv1 pol = true -> rsim mm true pol p buf raw s ->
  CompressedReader.set_parser (FrameParser.set_compression true (CompressedReader.parser p)) p = p.
Proof. intros Hp [_ Hpol _]. destruct p as [? ? [] ? ? ? ? ?]. subst pol. cbn in *. by subst. Qed.

Lemma reader_reads_eq mm pol chunks : arch_ok arch -> 0 <= mm -> pol_rsv1 pol = true -> forall p buf raw s ms a,
  rsim (D := D) mm true pol p buf raw s -> spec_parse pol raw = Need -> bytes_ok (concat chunks) ->
  reader_reads p buf ms a chunks = receive_all CompressedReader.receiver arch slice_addr p buf ms a chunks.
Proof.
  intros Harch Hmm Hp. pose proof (reader_follows arch slice_addr mm Hmm true pol) as Hf.
  induction chunks as [|c cs IH]; intros p buf raw s ms a Hs Hn Hok; [done|].
  cbn [concat] in Hok. apply bytes_ok_app in Hok as [Hc Hcs].
  cbn [reader_reads receive_all]. unfold CompressedReader.process_into_with_activity. rewrite (reader_enabled mm pol p buf raw s) by done.
  pose proof (receive_into_post CompressedReader.receiver arch slice_addr Harch id (cref_frame mm true false) pol (rsim mm true pol) p buf raw s c Hs Hn Hc) as Hr.
  destruct (receive_into _ _ _ p (buf ++ c)) as [[[[p' buf'] news] a'] [u|e]| |]; try done.
  destruct Hr as (fr' & raw' & news' & _ & Hs' & Hn' & _). by eapply IH.
Qed.

Lemma reader_sim r mf mm c : rsim mm true (compressed_policy r mf)
  (CompressedReader.set_parser (FrameParser.set_compression true (CompressedReader.parser (reader_new r mf mm c))) (reader_new r mf mm c)) [] []
  (None, first_decoder r c).
Proof. destruct r; (split; [apply fresh_views; [done|constructor]|done|]); split; done. Qed.

Lemma reader_reads_post mf mm c r chunks : arch_ok arch -> 0 <= mm -> bytes_ok (concat chunks) -> chunks <> [] ->
  received id (cref_frame mm true false) (compressed_policy r mf) (rsim mm true (compressed_policy r mf)) []
    (None, first_decoder r c) (concat chunks) (reader_reads (reader_new r mf mm c) [] [] false chunks).
Proof.
  intros Harch Hmm Hok Hne.
  assert (E1 : reader_reads (reader_new r mf mm c) [] [] false chunks =
    reader_reads (CompressedReader.set_parser (FrameParser.set_compression true (CompressedReader.parser (reader_new r mf mm c))) (reader_new r mf mm c)) [] [] false chunks).
  { destruct chunks as [|x cs]; [done|]. cbn [reader_reads]. by destruct r. }
  rewrite E1. erewrite reader_reads_eq; [|done|exact Hmm| |apply (reader_sim r mf mm c)|done|done]; [|by destruct r].
  change (concat chunks) with ([] ++ concat chunks) at 1.
  pose proof (reader_follows arch slice_addr mm Hmm true (compressed_policy r mf)) as Hf.
  by apply (receive_all_post CompressedReader.receiver arch slice_addr Harch id (cref_frame mm true false) (compressed_policy r mf)
    (rsim mm true (compressed_policy r mf)) _ [] [] (None, first_decoder r c) [] false chunks (reader_sim r mf mm c)).
Qed.

(** With permessage-deflate, for any codec that returns within its limit: however the transport cuts the stream into reads, the unified
    handler and the reading half deliver the messages of the reference receiver, which decompresses each message once it is
    complete, checks the sizes before and after and validates the whole text; errors are the reference's, or an early
    report of text that cannot become valid.  They always return. *)
Theorem compressed_any_chunking r mf mm c chunks : arch_ok arch -> 0 <= mm -> bytes_ok (concat chunks) -> chunks <> [] ->
  let ref early more := ref_run (cref_frame mm true early) (compressed_policy r mf) (None, first_decoder r c) (concat chunks ++ more) in
  outcome (ref true) (compressed_reads (compressed_new r mf mm c) chunks) /\
  outcome (ref false) (reader_reads (reader_new r mf mm c) [] [] false chunks).
Proof.
  intros Harch Hmm Hok Hne. split.
  - eapply received_outcome; [done|]. by apply compressed_reads_post.
  - eapply received_outcome; [done|]. by apply reader_reads_post.
Qed.
End delivery.

(** ** Two endpoints *)

Section endpoints.
Context {E D : Type} `{CodecTotal E D} `{!CodecSync E D} {SU : Simdutf8} {SUok : Simdutf8Spec}.

(** A message within the receiver's limits, also when it is compressed. *)
Definition cmsg_ok (mf mm : Z) (m : Message.t) : Prop :=
  msg_ok mf mm m /\
  match m with
  | Message.Text b | Message.Binary b => compressed_bound (len b) <= mf /\ compressed_bound (len b) < 2 ^ 63
  | _ => True
  end.

(** Messages with the masking keys drawn for each, encoded one after the other. *)
Fixpoint encode_all_compressed (p : CompressedProtocol.t E D) (kms : list (bytes * bytes * Message.t)) (buf : bytes) :
    comp (CompressedProtocol.t E D * bytes) unit :=
  match kms with
  | [] => Done (p, buf) (Ok tt)
  | (key, close_key, m) :: kms =>
      match CompressedProtocol.encode_message key close_key p m buf with
      | Done (p, buf) (Ok _) => encode_all_compressed p kms buf
      | r => r
      end
  end.

Definition kms_ok (mf mm : Z) (km : bytes * bytes * Message.t) : Prop :=
  key_fine (fst (fst km)) /\ key_fine (snd (fst km)) /\ cmsg_ok mf mm (snd km).

Abbreviation cenc p := (DeflateContext.encoder (CompressedProtocol.deflate p)).
Abbreviation crole p := (Protocol.role (CompressedProtocol.inner p)).

(** The frame that carries a data message, and what the receiver makes of it. *)
Lemma encode_data_ok p o b key buf mf mm d : o = Text \/ o = Binary -> in_sync (cenc p) d ->
  bytes_ok b -> len b <= mm -> mm <= 400000000 -> len b <= mf -> (o = Text -> str_from_utf8 b = true) ->
  compressed_bound (len b) <= mf -> compressed_bound (len b) < 2 ^ 63 -> key_fine key ->
  exists p' out d', CompressedProtocol.encode_data key p o b buf = Done (p', buf ++ encode_all [out]) (Ok tt) /\
    out_ok (compressed_policy (peer (crole p)) mf) out /\
    cref_frame mm true true (None, d) (out_frame out) = Ok ((None, d'), Some (data_message o b)) /\
    in_sync (cenc p') d' /\ crole p' = crole p.
Proof.
  intros Ho Hsync Hb Hl Hmm Hmf Hu Hbound Hbound' [Hk Hkok].
  assert (Hkey : pol_masked (compressed_policy (peer (crole p)) mf) = match Protocol.choose_mask (crole p) key with Some _ => true | None => false end
    /\ match Protocol.choose_mask (crole p) key with Some m => len m = 4 /\ bytes_ok m | None => True end) by (by destruct (crole p)).
  destruct Hkey as [Hmask Hkey].
  assert (Hdone : forall (c : bool) data (d' : D), (if c then codec_decompress (E := E) d data mm = Done d' (Ok b) else d' = d /\ data = b) ->
    cref_frame mm true true (None, d) (out_frame (o, data, true, Protocol.choose_mask (crole p) key, c)) = Ok ((None, d'), Some (data_message o b))).
  { intros c data d' Hd. unfold cref_frame, out_frame, sent. cbn [header opcode].
    assert (Hcomp : complete mm true o c d data = Ok ((None, d'), Some (data_message o b))).
    { unfold complete, expand. destruct c; [rewrite Hd|destruct Hd as [-> ->]; zfalse (mm <? len b)].
      - destruct Ho as [-> | ->]; [by rewrite Hu|done].
      - destruct Ho as [-> | ->]; [by rewrite Hu|done]. }
    destruct Ho as [-> | ->]; unfold cref_start; cbn [fin header rsv1 payload]; exact Hcomp. }
  destruct (compress_sync (cenc p) d b Hsync ltac:(lia) Hb) as (e' & r & Ec & Hr).
  unfold CompressedProtocol.encode_data, DeflateContext.compress. rewrite Ec.
  set (p' := CompressedProtocol.set_deflate (DeflateContext.Mk e' (DeflateContext.decoder (CompressedProtocol.deflate p)) (DeflateContext.config (CompressedProtocol.deflate p))) p).
  destruct r as [z|].
  - destruct Hr as (Hz & Hlz & Hd). destruct (Hd mm ltac:(lia)) as (d' & Ed & Hs).
    exists p', (o, z, true, Protocol.choose_mask (crole p) key, true), d'. split; [reflexivity|]. split; [|split; [exact (Hdone true z d' Ed)|done]].
    split; try done; cbn [pol_max compressed_policy]; try lia. by destruct Ho as [-> | ->].
  - exists p', (o, b, true, Protocol.choose_mask (crole p) key, false), d. split; [reflexivity|].
    split; [|split; [exact (Hdone false b d (conj eq_refl eq_refl))|done]].
    split; try done; cbn [pol_max compressed_policy]; try lia. by destruct Ho as [-> | ->].
Qed.

(** A message of any kind. *)
Lemma encode_message_ok p m key close_key buf mf mm d : in_sync (cenc p) d -> cmsg_ok mf mm m -> mm <= 400000000 ->
  key_fine key -> key_fine close_key ->
  exists p' out d', CompressedProtocol.encode_message key close_key p m buf = Done (p', buf ++ encode_all [out]) (Ok tt) /\
    out_ok (compressed_policy (peer (crole p)) mf) out /\
    cref_frame mm true true (None, d) (out_frame out) = Ok ((None, d'), Some m) /\
    in_sync (cenc p') d' /\ crole p' = crole p.
Proof.
  intros Hsync [Hm Hc] Hmm Hk Hk'.
  assert (Hctl : forall m' key', msg_ok mf mm m' -> key_fine key' -> Message.is_control m' = true ->
    out_ok (compressed_policy (peer (crole p)) mf) (msg_frame (crole p) (key', m')) /\
    cref_frame mm true true (None, d) (out_frame (msg_frame (crole p) (key', m'))) = Ok ((None, d), Some m')).
  { intros m' key' Hm' Hkey Hctl. pose proof (msg_sendable (crole p) mf mm key' m' Hm' Hkey) as Hs.
    pose proof (ref_frame_sent mf mm (crole p) key' m' Hm') as Hf. split.
    - destruct m' as [b|b|b|b|reason]; try done; destruct Hs; by split.
    - destruct m' as [b|b|b|b|reason]; try done. unfold cref_frame, ref_frame, msg_frame, out_frame, sent in *. cbn [header opcode payload] in *.
      by destruct (Protocol.close_reason _) as [r|]; simplify_eq. }
  destruct m as [b|b|b|b|reason].
  - destruct Hm as (Hb & Hu & Hl & Hf & _), Hc as [Hc1 Hc2]. by apply (encode_data_ok p Text b key buf mf mm d (or_introl eq_refl)).
  - destruct Hm as (Hb & Hl & Hf & _), Hc as [Hc1 Hc2]. by apply (encode_data_ok p Binary b key buf mf mm d (or_intror eq_refl)).
  - destruct (Hctl (Message.Ping b) key Hm Hk eq_refl). by exists p, (msg_frame (crole p) (key, Message.Ping b)), d.
  - destruct (Hctl (Message.Pong b) key Hm Hk eq_refl). by exists p, (msg_frame (crole p) (key, Message.Pong b)), d.
  - destruct (Hctl (Message.Close reason) close_key Hm Hk' eq_refl).
    exists (CompressedProtocol.set_inner (fst (Protocol.encode_message_into close_key (CompressedProtocol.inner p) (Message.Close reason) buf)) p),
      (msg_frame (crole p) (close_key, Message.Close reason)), d.
    split; [reflexivity|]. split; [done|]. split; [done|]. split; [done|]. cbn. by case_bool_decide.
Qed.

(** All messages: the bytes on the wire are frames that the reference receiver turns back into the messages. *)
Lemma encode_all_ok mf mm kms : mm <= 400000000 -> Forall (kms_ok mf mm) kms -> forall p buf d, in_sync (cenc p) d ->
  exists p' outs d', encode_all_compressed p kms buf = Done (p', buf ++ encode_all outs) (Ok tt) /\
    Forall (out_ok (compressed_policy (peer (crole p)) mf)) outs /\
    ref_frames (cref_frame mm true true) (None, d) (map out_frame outs) = (map snd kms, Ok (None, d')) /\
    in_sync (cenc p') d' /\ crole p' = crole p.
Proof.
  intros Hmm. induction 1 as [|[[key ck] m] kms (Hk & Hck & Hm) _ IH]; intros p buf d Hs.
  { exists p, [], d. cbn. rewrite app_nil_r. done. }
  destruct (encode_message_ok p m key ck buf mf mm d Hs Hm Hmm Hk Hck) as (p1 & out & d1 & E1 & Ho & Hr & Hs1 & Hrole).
  destruct (IH p1 (buf ++ encode_all [out]) d1 Hs1) as (p2 & outs & d2 & E2 & Hos & Hrs & Hs2 & Hrole2).
  exists p2, (out :: outs), d2. cbn [encode_all_compressed]. rewrite E1, E2. split; [by rewrite (encode_all_cons out outs), app_assoc|].
  rewrite Hrole in Hos. split; [by constructor|]. cbn [map ref_frames]. rewrite Hr, Hrs. split; [done|]. split; [done|congruence].
Qed.

Context (arch : Arch) (slice_addr : bytes -> Z).

(** Messages that respect the receiver's limits, encoded by an endpoint with permessage-deflate (each compressed or not, as the
    encoder decides) and cut into any reads, are delivered by the other endpoint in order, unchanged and without an error, when the
    sender's encoder and the receiver's decoder start in step; they are in step again afterwards. *)
Lemma compressed_roundtrip mf mm c r (p : CompressedProtocol.t E D) kms chunks : arch_ok arch -> 0 <= mf -> 0 <= mm <= 400000000 ->
  crole p = peer r -> in_sync (cenc p) (first_decoder r c) -> Forall (kms_ok mf mm) kms ->
  exists p' wire, encode_all_compressed p kms [] = Done (p', wire) (Ok tt) /\
    (concat chunks = wire -> exists q buf a,
      compressed_reads arch slice_addr (compressed_new r mf mm c) chunks = Done (q, buf, map snd kms, a) (Ok tt)) /\
    exists d', in_sync (cenc p') d' /\
      snd (ref_run (cref_frame mm true true) (compressed_policy r mf) (None, first_decoder r c) wire) = Ok (None, d').
Proof.
  intros Harch Hmf Hmm Hrole Hsync Hkms.
  destruct (encode_all_ok mf mm kms ltac:(lia) Hkms p [] _ Hsync) as (p' & outs & d' & E1 & Hos & Hrs & Hs & Hrole').
  rewrite Hrole, peer_peer in Hos. destruct (spec_frames_sent _ _ Hos) as [Hok Hsf].
  assert (Href : ref_run (cref_frame mm true true) (compressed_policy r mf) (None, first_decoder r c) (encode_all outs) = (map snd kms, Ok (None, d')))
    by (unfold ref_run; by rewrite Hsf, Hrs).
  exists p', (encode_all outs). split; [done|]. split; [|exists d'; by rewrite Href]. intros Hc.
  pose proof (compressed_reads_post arch slice_addr mf mm c r chunks Harch ltac:(lia) ltac:(by rewrite Hc)) as Hr.
  apply received_news in Hr as (q & buf & ms & a & res & -> & Hm & Hres); [|by rewrite Hc].
  rewrite list_fmap_id, Hc, Href in Hm. cbn in Hm. subst ms. exists q, buf, a.
  destruct res as [[]|e]; [done|]. exfalso. rewrite Hc in Hres. destruct Hres as [Hres|[_ Hres]]; [by rewrite Href in Hres|].
  set (ping := (Ping, @nil Z, true, Protocol.choose_mask (peer r) [0; 0; 0; 0], false) : outgoing).
  assert (Hping : Forall (out_ok (compressed_policy r mf)) (outs ++ [ping])).
  { apply Forall_app; split; [done|]. constructor; [|constructor].
    destruct r; (split; [done|first [done|split; [done|by repeat constructor]]|done|done|change (len (@nil Z)) with 0; cbn; lia|done|constructor]). }
  destruct (spec_frames_sent _ _ Hping) as [Hok' Hsf'].
  assert (Hsplit : encode_all (outs ++ [ping]) = encode_all outs ++ encode_all [ping]).
  { clear. induction outs as [|x l IH]; [done|]. cbn [app]. rewrite encode_all_cons, IH, (encode_all_cons x l). by rewrite <- app_assoc. }
  assert (Href' : ref_run (cref_frame mm true true) (compressed_policy r mf) (None, first_decoder r c) (encode_all (outs ++ [ping])) =
    (map snd kms ++ [Message.Ping []], Ok (None, d'))).
  { unfold ref_run. rewrite Hsf', map_app.
    assert (Happ : forall l fr, ref_frames (cref_frame mm true true) fr (map out_frame l ++ map out_frame [ping]) =
      let '(ms, r) := ref_frames (cref_frame mm true true) fr (map out_frame l) in
      match r with Ok fr => (ms ++ [Message.Ping []], Ok fr) | Err e => (ms, Err e) end).
    { clear. induction l as [|x l IH]; intros fr; [by destruct fr as [[[[? ?] ?]|] ?]|]. cbn [map app ref_frames].
      destruct (cref_frame mm true true fr (out_frame x)) as [[fr' m]|e]; [|done]. rewrite IH.
      destruct (ref_frames _ fr' (map out_frame l)) as [ms [fr''|e]]; cbn; [|done]. by rewrite app_assoc. }
    rewrite Happ, Hrs. done. }
  rewrite Hsplit in Hok', Href'. apply bytes_ok_app in Hok' as [_ Hok']. specialize (Hres _ Hok'). rewrite Href', Href in Hres.
  cbn in Hres. apply (f_equal length) in Hres. rewrite length_app in Hres. cbn in Hres. lia.
Qed.
End endpoints.
