(* ===== verification/DeflateCodec.v ===== *)
(** * The deflate codec (src/src/deflate.rs, [DeflateEncoder] and [DeflateContext])

    [DeflateEncoder::compress] drives flate2's compressor until a flush is complete.  Over the contracts of the compressor and of
    zlib's [inflate] it implements, with [DeflateDecoder], the codec interface of the compressed protocol: the decoder returns
    what was compressed, and both keep the same history, with and without context takeover. *)

From stdpp Require Import base list option strings.
From S2P Require Import Prelude Error Mask Utf8 Frame Protocol ReceiveSpec ProtocolSpec ProtocolProps Deflate Inflate Compressed CompressedSpec.

(** ** flate2 *)

(** [Compress::new_with_window_bits(level, false, bits)]; [compress_uninit(input, spare, flush)] with [FlushCompress::Full] or [Sync] into a
    buffer of the given length: the status, the bytes consumed and those written, or the text of the error; [reset]. *)
Class Compressor (C : Type) := {
  flate_new : Z -> DeflateWindowBits -> C;
  flate_compress : C -> bytes -> Z -> bool -> C * res bytes (Status * Z * bytes);
  flate_reset : C -> C
}.
(** [inflateInit2_(-window_bits)] *)
Class ZlibInit (S : Type) := zlib_init : DeflateWindowBits -> S.

Module DeflateEncoder.
Record t (C : Type) := Mk {
  compress_state : C;
  no_context_takeover : bool;
  window_bits : DeflateWindowBits;
  compression_level : Z;
  threshold : Z
}.
Arguments Mk {C}. Arguments compress_state {C}. Arguments no_context_takeover {C}. Arguments window_bits {C}.
Arguments compression_level {C}. Arguments threshold {C}.

Section encoder.
Context {C : Type} `{Compressor C} `{Alloc}.

Definition new (window_bits : DeflateWindowBits) (no_context_takeover : bool) (level threshold : Z) : t C :=
  Mk (flate_new level window_bits) no_context_takeover window_bits level threshold.
Definition set_state (c : C) (e : t C) : t C :=
  Mk c (no_context_takeover e) (window_bits e) (compression_level e) (threshold e).
Definition reset (e : t C) : t C := set_state (flate_reset (compress_state e)) e.

(** The variables of the loop. *)
Record vars := MkVars { cs : C; output : bytes; capacity : Z; total_in : Z; iterations : Z }.

(** An error leaves an encoder without takeover ready for an independent message. *)
Definition fail (takeover : bool) (c : C) (e : Error) : run Error C bytes :=
  Done (if takeover then c else flate_reset c) (Err e).

Definition compress_step (takeover : bool) (data : bytes) (v : vars) : vars + run Error C bytes :=
  let iterations := iterations v + 1 in
  if 100000 <? iterations then inr (fail takeover (cs v) (compression_error "compression took too many iterations"))
  else
    let available := capacity v - len (output v) in
    let capacity := if available =? 0 then alloc_reserve (capacity v) (len (output v)) 4096 else capacity v in
    if len data <? total_in v then inr Panic
    else
      let spare_len := capacity - len (output v) in
      match flate_compress (cs v) (from (total_in v) data) spare_len (negb takeover) with
      | (c, Err text) => inr (fail takeover c (CompressionError (str "deflate error: " ++ text)))
      | (c, Ok (status, consumed, produced)) =>
          let total_in := total_in v + consumed in
          let output := output v ++ produced in
          match status with
          | StatusOk | StatusBufError =>
              if (total_in =? len data) && (len produced <? spare_len) then inr (Done c (Ok output))
              else inl (MkVars c output capacity total_in iterations)
          | StatusStreamEnd => inr (Done c (Ok output))
          end
      end.

(** Remove a trailing [00 00 ff ff]. *)
Definition strip_trailer (output : bytes) : bytes :=
  if (4 <=? len output) && bool_decide (from (len output - 4) output = DEFLATE_TRAILER) then upto (len output - 4) output
  else output.

Definition compress (e : t C) (data : bytes) : comp (t C) (option bytes) :=
  if len data <? threshold e then Done e (Ok None)
  else
    match loop_fuel (Z.to_nat 100001) (compress_step (negb (no_context_takeover e)) data)
            (MkVars (compress_state e) [] (alloc_capacity (len data + 64)) 0 0) with
    | Done c (Ok output) =>
        let output := strip_trailer output in
        if no_context_takeover e && (len data <=? len output) then Done (set_state c e) (Ok None)
        else Done (set_state c e) (Ok (Some output))
    | Done c (Err err) => Done (set_state c e) (Err err)
    | Panic => Panic
    | NoFuel => NoFuel
    end.
End encoder.
Arguments vars C : clear implicits.
End DeflateEncoder.

(** [DeflateDecoder::new] *)
Definition deflate_decoder_new {S : Type} `{ZlibInit S} (window_bits : DeflateWindowBits) (no_context_takeover : bool) : DeflateDecoder S :=
  MkDecoder (zlib_init window_bits) no_context_takeover.

(** The codec of the connection. *)
#[export] Instance deflate_codec {C S : Type} `{Compressor C} `{Zlib S} `{ZlibInit S} `{Alloc} :
    Codec (DeflateEncoder.t C) (DeflateDecoder S) := {
  encoder_new := DeflateEncoder.new;
  codec_compress := DeflateEncoder.compress;
  decoder_new := deflate_decoder_new;
  codec_decompress := decompress
}.

#[export] Instance deflate_total {C S : Type} `{Compressor C} `{ZlibBounds S} `{ZlibInit S} `{AllocBounds} :
    CodecTotal (DeflateEncoder.t C) (DeflateDecoder S).
Proof. intros d z max Hmax. by apply decompress_returns. Qed.

(** ** Contracts *)

(** From state [c], compressing [input] with the flush produces [out] in all and ends in [c'].  A call makes as much progress as
    it can: it either finishes, short of filling its buffer, or fills it; the buffers have more than the six bytes a flush marker
    needs. *)
Class CompressorSpec (C : Type) `{Compressor C} := {
  encodes : bool -> C -> bytes -> bytes -> C -> Prop;
  flate_encodes full c input out c' avail : encodes full c input out c' -> 6 < avail ->
    exists c1 status consumed produced rest, flate_compress c input avail full = (c1, Ok (status, consumed, produced)) /\
      status <> StatusStreamEnd /\ 0 <= consumed <= len input /\ out = produced ++ rest /\
      ((len produced < avail /\ consumed = len input /\ rest = [] /\ c1 = c') \/
       (len produced = avail /\ encodes full c1 (from consumed input) rest c'))
}.

(** [follows c s input out]: from [s], [input] decodes to [out] and leaves the decoder with the history of an encoder in state [c].  A message flushed by
    an encoder ends with the empty block, decodes to the data and leaves both in step; it takes at most twice the bytes and a
    little more; after a full flush a decoder with the same window that was reset is in step too.  The window of a decoder does not change. *)
Class Deflates (C S : Type) `{CompressorSpec C} `{Zlib S} := {
  follows : C -> S -> bytes -> bytes -> Prop;
  window : S -> Z;
  inflate_window s input avail_out : window (zlib_inflate s input avail_out).1.1.1 = window s;
  reset_window keep s : window (zlib_reset keep s) = window s;
  follows_inflate c s input out avail_out : follows c s input out -> 0 < avail_out ->
    exists s' status consumed produced rest, zlib_inflate s input avail_out = (s', status, consumed, produced) /\
      (status = Z_OK \/ status = Z_BUF_ERROR) /\ 0 <= consumed <= len input /\ len produced <= avail_out /\
      out = produced ++ rest /\ follows c s' (from consumed input) rest /\
      (len produced < avail_out -> consumed = len input /\ rest = []);
  follows_message full c s data : follows c s [] [] -> bytes_ok data -> len data <= 400000000 ->
    exists out c', encodes full c data (out ++ DEFLATE_TRAILER) c' /\ bytes_ok out /\ len out + 4 <= 2 * len data + 128 /\
      follows c' s (out ++ DEFLATE_TRAILER) data /\
      (full = true -> forall s', window s' = window s -> follows c' (zlib_reset false s') [] [])
}.

(** Fresh contexts are in step when the decoder's window is no smaller, and so is a reset decoder with a fresh encoder. *)
Class DeflatesInit (C S : Type) `{Deflates C S} `{ZlibInit S} : Prop := {
  init_window w : window (zlib_init w) = to_u8 w;
  fresh_follows level w w' : to_u8 w <= to_u8 w' -> follows (flate_new level w) (zlib_init w') [] [];
  fresh_reset level w (s : S) : to_u8 w <= window s -> follows (flate_new level w) (zlib_reset false s) [] []
}.

(** ** The encoder's loop *)

Section Encoder.
Context {C : Type} `{CompressorSpec C} `{AllocBounds}.
Import DeflateEncoder.

(** What is left of the message, and how many iterations it can have taken: each that went round filled a buffer. *)
Record progress (takeover : bool) (data out : bytes) (c' : C) (v : vars C) : Prop := {
  pr_in : 0 <= total_in v <= len data;
  pr_rest : exists rest, out = output v ++ rest /\ encodes (negb takeover) (cs v) (from (total_in v) data) rest c';
  pr_iter : (iterations v = 0 /\ output v = [] /\ len data + 64 <= capacity v) \/
            (1 <= iterations v /\ len (output v) = capacity v /\ len data + 64 + 4096 * (iterations v - 1) <= len (output v))
}.

Lemma compress_step_ok takeover data out c' v : progress takeover data out c' v -> len out <= 2 * len data + 128 -> len data <= 400000000 ->
  match compress_step takeover data v with
  | inl v' => progress takeover data out c' v' /\ iterations v' = iterations v + 1 /\ iterations v < 99990
  | inr r => r = Done c' (Ok out)
  end.
Proof.
  intros [Hin (rest & -> & He) Hit] Hout Hd. unfold compress_step. pose proof (len_nonneg (output v)) as Ho.
  rewrite len_app in Hout. pose proof (len_nonneg rest). pose proof (len_nonneg data).
  assert (Hi : iterations v < 99990) by lia.
  zfalse (100000 <? iterations v + 1). zfalse (len data <? total_in v).
  set (cap := if _ =? 0 then _ else _).
  assert (Hcap : 6 < cap - len (output v) /\ (1 <= iterations v -> 4096 <= cap - len (output v)) /\ (iterations v = 0 -> len data + 64 <= cap)).
  { unfold cap. pose proof (alloc_reserve_ge (capacity v) (len (output v)) 4096).
    destruct (Z.eqb_spec (capacity v - len (output v)) 0); destruct Hit as [(? & E & ?)|(? & ? & ?)]; try rewrite E in *; try change (len (@nil Z)) with 0 in *; lia. }
  destruct Hcap as (Hc1 & Hc2 & Hc3). clearbody cap.
  destruct (flate_encodes _ _ _ _ _ (cap - len (output v)) He Hc1) as (c1 & status & consumed & produced & rest' & -> & Hst & Hcon & -> & Hcase).
  rewrite len_from in Hcon by lia.
  destruct Hcase as [(Hlt & -> & -> & ->)|(Hfull & He')].
  - rewrite len_from by lia. rewrite app_nil_r. ztrue (total_in v + (len data - total_in v) =? len data).
    ztrue (len produced <? cap - len (output v)). by destruct status.
  - zfalse (len produced <? cap - len (output v)). rewrite andb_false_r. rewrite from_from in He' by lia.
    destruct status; [| |done]; (split; [|split; [done|lia]]); (split; cbn;
      [lia|exists rest'; by rewrite <- app_assoc|right; rewrite len_app; destruct Hit as [(Hz & _)|(Hz & ? & ?)]; lia]).
Qed.

Lemma compress_loop_ok takeover data out c' fuel v : progress takeover data out c' v -> len out <= 2 * len data + 128 -> len data <= 400000000 ->
  99991 - iterations v <= Z.of_nat fuel -> loop_fuel fuel (compress_step takeover data) v = Done c' (Ok out).
Proof.
  revert v. induction fuel as [|fuel IH]; intros v Hv Ho Hd Hf.
  - pose proof (compress_step_ok takeover data out c' v Hv Ho Hd) as Hs. exfalso.
    destruct Hv as [_ (rest & E & _) Hit]. apply (f_equal len) in E. rewrite len_app in E. pose proof (len_nonneg rest). pose proof (len_nonneg data). lia.
  - cbn [loop_fuel]. pose proof (compress_step_ok takeover data out c' v Hv Ho Hd) as Hs.
    destruct (compress_step takeover data v) as [v'|r]; [|done]. destruct Hs as (Hv' & Hi & _). apply IH; [done..|lia].
Qed.

Lemma strip_trailer_app out : strip_trailer (out ++ DEFLATE_TRAILER) = out.
Proof.
  unfold strip_trailer. rewrite len_app. change (len DEFLATE_TRAILER) with 4. pose proof (len_nonneg out).
  ztrue (4 <=? len out + 4). replace (len out + 4 - 4) with (len out) by lia. rewrite from_app_exact, bool_decide_eq_true_2 by done.
  cbn [andb]. apply upto_app_exact.
Qed.

(** The whole call. *)
Lemma compress_ok (e : t C) data out c' : encodes (no_context_takeover e) (compress_state e) data (out ++ DEFLATE_TRAILER) c' ->
  len out + 4 <= 2 * len data + 128 -> len data <= 400000000 ->
  compress e data =
    if len data <? threshold e then Done e (Ok None)
    else Done (set_state c' e) (Ok (if no_context_takeover e && (len data <=? len out) then None else Some out)).
Proof.
  intros He Ho Hd. unfold compress. destruct (len data <? threshold e); [done|]. pose proof (len_nonneg data).
  rewrite (compress_loop_ok _ data (out ++ DEFLATE_TRAILER) c').
  - rewrite strip_trailer_app. by destruct (_ && _).
  - split; cbn [total_in output cs iterations capacity].
    + lia.
    + exists (out ++ DEFLATE_TRAILER). rewrite from_0, negb_involutive. done.
    + left. pose proof (alloc_capacity_ge (len data + 64)). done.
  - rewrite len_app. change (len DEFLATE_TRAILER) with 4. lia.
  - done.
  - cbn. lia.
Qed.
End Encoder.

(** ** The codec interface *)

Section Sync.
Context {C S : Type} `{Deflates C S} `{ZlibInit S} `{AllocBounds}.

(** The decoder of a message starts from the history of the encoder: the one it kept, or none. *)
Definition deflate_in_sync (e : DeflateEncoder.t C) (d : DeflateDecoder S) : Prop :=
  DeflateEncoder.no_context_takeover e = no_context_takeover d /\
  if no_context_takeover d then forall s, window s = window (decompress_state d) -> follows (DeflateEncoder.compress_state e) (zlib_reset false s) [] []
  else follows (DeflateEncoder.compress_state e) (decompress_state d) [] [].

(** zlib as the decoder of an encoder's stream, with a given window. *)
#[local] Instance follows_decodes (c : C) (w : Z) : ZlibDecodes S.
Proof.
  refine {| decodes s input out := follows c s input out /\ window s = w |}. intros s input out avail_out [Hf Hw] Ha.
  destruct (follows_inflate c s input out avail_out Hf Ha) as (s' & status & consumed & produced & rest & E & ? & ? & ? & ? & ? & ?).
  pose proof (inflate_window s input avail_out) as Hw'. rewrite E in Hw'. cbn in Hw'. exists s', status, consumed, produced, rest.
  split_and!; try done; [lia|lia|exact (eq_trans Hw' Hw)].
Defined.

(** The state a decoder starts a message from. *)
Definition start (d : DeflateDecoder S) : S := if no_context_takeover d then raw_reset false (decompress_state d) else decompress_state d.

Lemma window_start d : window (start d) = window (decompress_state d).
Proof. unfold start, raw_reset. destruct (no_context_takeover d); [apply reset_window|done]. Qed.

Lemma decompress_follows c d out max data : follows c (start d) (out ++ DEFLATE_TRAILER) data -> len out + 4 <= 2 * len data + 128 -> len data <= max <= 400000000 ->
  exists s, decompress d out max = Done (MkDecoder s (no_context_takeover d)) (Ok data) /\ follows c s [] [] /\ window s = window (decompress_state d).
Proof.
  intros Hf Ho Hm. pose proof (len_nonneg data).
  destruct (@decompress_decodes S _ (follows_decodes c (window (decompress_state d))) _ _ d out max data) as (s & E & Hs);
    [lia|unfold u32_max; lia|exact (conj Hf (window_start d))|].
  exists s. split; [rewrite E; by ztrue (len data <=? max)|]. apply Hs. lia.
Qed.

Lemma deflate_compress_sync e d data : deflate_in_sync e d -> len data <= 400000000 -> bytes_ok data ->
  exists e' r, codec_compress (D := DeflateDecoder S) e data = Done e' (Ok r) /\
    match r with
    | None => deflate_in_sync e' d
    | Some z => bytes_ok z /\ len z <= 2 * len data + 128 /\
        forall max, len data <= max <= 400000000 ->
          exists d', codec_decompress (E := DeflateEncoder.t C) d z max = Done d' (Ok data) /\ deflate_in_sync e' d'
    end.
Proof.
  intros [Ht Hs] Hl Hok. cbn [codec_compress codec_decompress deflate_codec].
  assert (Hs0 : follows (DeflateEncoder.compress_state e) (start d) [] []).
  { unfold start, raw_reset. destruct (no_context_takeover d); [by apply Hs|done]. }
  destruct (follows_message (DeflateEncoder.no_context_takeover e) _ (start d) data Hs0 Hok Hl) as (out & c' & He & Hob & Hol & Hf & Hfull).
  rewrite (compress_ok e data out c' He Hol Hl).
  destruct (Z.ltb_spec (len data) (DeflateEncoder.threshold e)) as [Hlt|Hge].
  { exists e, None. split; [done|]. by split. }
  eexists _, _. split; [done|].
  destruct (DeflateEncoder.no_context_takeover e && (len data <=? len out)) eqn:Eskip.
  - apply andb_prop in Eskip as [En _]. split; [done|]. rewrite <- Ht, En. cbn. intros s Hw. apply Hfull; [done|]. by rewrite window_start.
  - split; [done|]. split; [lia|]. intros max Hm. destruct (decompress_follows c' d out max data Hf Hol Hm) as (s & E & Hs' & Hw).
    eexists. split; [exact E|]. split; [done|]. cbn. destruct (no_context_takeover d) eqn:End; [|done].
    intros s1 Hw1. apply Hfull; [congruence|]. rewrite window_start. congruence.
Qed.

#[export] Instance deflate_sync : CodecSync (DeflateEncoder.t C) (DeflateDecoder S) := {|
  in_sync := deflate_in_sync;
  compressed_bound n := 2 * n + 128;
  compress_sync := deflate_compress_sync |}.

Context `{!ZlibBounds S} `{!DeflatesInit C S} {SU : Simdutf8} {SUok : Simdutf8Spec}.
Context (arch : Arch) (slice_addr : bytes -> Z).

(** Two endpoints with one configuration start in step. *)
Lemma endpoints_in_sync r mf mm mf' mm' c :
  deflate_in_sync (DeflateContext.encoder (CompressedProtocol.deflate (compressed_new (D := DeflateDecoder S) (peer r) mf mm c))) (first_decoder r c) /\
  Protocol.role (CompressedProtocol.inner (compressed_new (E := DeflateEncoder.t C) (D := DeflateDecoder S) (peer r) mf' mm' c)) = peer r.
Proof.
  split; [|by destruct r]. split; [by destruct r|].
  assert (Hr : forall w (b : bool) l, (if b then forall s : S, window s = window (zlib_init w : S) -> follows (flate_new l w) (zlib_reset false s) [] [] else follows (flate_new l w) (zlib_init w) [] [])).
  { intros w [] l; [intros s Hw; apply fresh_reset; rewrite Hw, init_window; lia|by apply fresh_follows]. }
  destruct r; cbn; apply Hr.
Qed.

End Sync.
