(* ===== verification/CodecWitness.v ===== *)
(** * A concrete codec

    A byte-stuffing compressor and its decoder, which satisfy the contracts of [DeflateCodec], and the theorems of the compressed protocol at
    concrete messages. *)

From stdpp Require Import base list option strings.
From S2P Require Import Prelude Error Mask Utf8 Frame FrameSpec Protocol ReceiveSpec ProtocolSpec ProtocolProps Deflate Inflate Compressed CompressedSpec DeflateCodec.

(** ** The compressor: each byte after a one, then the empty block; [Some p] while [p] is still to be output *)

Definition stuff (data : bytes) : bytes := concat (map (fun b => [1; b]) data).

Definition emit (p : bytes) (avail : Z) : option bytes * bytes :=
  if len p <? avail then (None, p) else (Some (from avail p), upto avail p).

#[export] Instance stuffing : Compressor (option bytes) := {
  flate_new _ _ := None;
  flate_compress c input avail _ :=
    let p := match c with None => stuff input ++ DEFLATE_TRAILER | Some p => p end in
    let '(c, out) := emit p avail in
    (c, Ok (StatusOk, len input, out));
  flate_reset _ := None
}.

#[export] Instance stuffing_spec : CompressorSpec (option bytes).
Proof.
  refine {| encodes (full : bool) c input out c' := c' = None /\ match c with None => out = stuff input ++ DEFLATE_TRAILER | Some p => input = [] /\ out = p end |}.
  intros full c input out c' avail [-> Hc] Ha. cbn. set (p := match c with None => _ | Some p => p end).
  assert (Ep : out = p) by (unfold p; destruct c; [apply Hc|done]). unfold emit. destruct (Z.ltb_spec (len p) avail) as [Hl|Hl].
  - exists None, StatusOk, (len input), p, []. rewrite app_nil_r. split_and!; try done; [apply len_nonneg|by left].
  - exists (Some (from avail p)), StatusOk, (len input), (upto avail p), (from avail p).
    split_and!; try done; [apply len_nonneg|by rewrite Ep, upto_from|]. right. rewrite len_upto by lia. split; [done|]. split; [done|].
    split; [apply from_ge; lia|done].
Defined.

(** ** The decoder *)

Inductive stuffed := SNormal | SByte | SSkip (n : nat).

Fixpoint unstuff (s : stuffed) (input : bytes) : bytes * stuffed :=
  match input with
  | [] => ([], s)
  | b :: t =>
      match s with
      | SNormal => if b =? 1 then unstuff SByte t else unstuff (SSkip 2) t
      | SByte => let '(o, s) := unstuff SNormal t in (b :: o, s)
      | SSkip O => unstuff SNormal t
      | SSkip (S n) => unstuff (SSkip n) t
      end
  end.

(** As much as fits the output. *)
Fixpoint unstuff_into (s : stuffed) (input : bytes) (avail : nat) : stuffed * nat * bytes :=
  match input, avail with
  | [], _ | _, O => (s, O, [])
  | b :: t, S k =>
      match s with
      | SNormal => let '(s, n, o) := unstuff_into (if b =? 1 then SByte else SSkip 2) t avail in (s, S n, o)
      | SByte => let '(s, n, o) := unstuff_into SNormal t k in (s, S n, b :: o)
      | SSkip O => let '(s, n, o) := unstuff_into SNormal t avail in (s, S n, o)
      | SSkip (S m) => let '(s, n, o) := unstuff_into (SSkip m) t avail in (s, S n, o)
      end
  end.

(** With the size of its window. *)
Definition inflater : Type := Z * stuffed.
#[export] Instance unstuffing : Zlib inflater := {
  zlib_inflate s input avail := let '(w, s) := s in let '(s, n, o) := unstuff_into s input (Z.to_nat avail) in ((w, s), Z_OK, Z.of_nat n, o);
  zlib_reset _ s := (fst s, SNormal)
}.
#[export] Instance unstuffing_init : ZlibInit inflater := fun w => (to_u8 w, SNormal).

Lemma unstuff_into_ok input : forall s avail s' n o, unstuff_into s input avail = (s', n, o) ->
  (n <= length input)%nat /\ (length o <= avail)%nat /\
  exists rest, unstuff s input = (o ++ rest, snd (unstuff s' (drop n input))) /\ fst (unstuff s' (drop n input)) = rest /\
    ((length o < avail)%nat -> n = length input /\ rest = []).
Proof.
  assert (Hstop : forall s input (avail : nat), (avail = 0%nat \/ input = []) ->
    exists rest, unstuff s input = ([] ++ rest, snd (unstuff s (drop 0 input))) /\ fst (unstuff s (drop 0 input)) = rest /\
      ((0 < avail)%nat -> 0%nat = length input /\ rest = [])).
  { intros s i avail Hc. rewrite drop_0. exists (fst (unstuff s i)). split; [apply surjective_pairing|]. split; [done|]. intros Ha.
    destruct Hc as [->| ->]; [lia|done]. }
  induction input as [|b t IH]; intros s avail s' n o E.
  { cbn in E. injection E as <- <- <-. split; [done|]. split; [cbn; lia|]. apply Hstop. by right. }
  destruct avail as [|k].
  { cbn in E. injection E as <- <- <-. split; [lia|]. split; [done|]. apply Hstop. by left. }
  cbn in E. destruct s as [| |[|m]].
  - destruct (unstuff_into (if b =? 1 then SByte else SSkip 2) t (S k)) as [[s1 n1] o1] eqn:E1. injection E as <- <- <-.
    destruct (IH _ _ _ _ _ E1) as (Hn & Ho & rest & Hr & Hf & Hx). cbn. split; [lia|]. split; [done|]. exists rest.
    split; [by destruct (b =? 1)|]. split; [done|]. intros Hl. destruct (Hx Hl). split; [lia|done].
  - destruct (unstuff_into SNormal t k) as [[s1 n1] o1] eqn:E1. injection E as <- <- <-.
    destruct (IH _ _ _ _ _ E1) as (Hn & Ho & rest & Hr & Hf & Hx). cbn. split; [lia|]. split; [lia|]. exists rest.
    rewrite Hr. split; [done|]. split; [done|]. intros Hl. destruct Hx; [lia|]. split; [lia|done].
  - destruct (unstuff_into SNormal t (S k)) as [[s1 n1] o1] eqn:E1. injection E as <- <- <-.
    destruct (IH _ _ _ _ _ E1) as (Hn & Ho & rest & Hr & Hf & Hx). cbn. split; [lia|]. split; [done|]. exists rest.
    split; [done|]. split; [done|]. intros Hl. destruct (Hx Hl). split; [lia|done].
  - destruct (unstuff_into (SSkip m) t (S k)) as [[s1 n1] o1] eqn:E1. injection E as <- <- <-.
    destruct (IH _ _ _ _ _ E1) as (Hn & Ho & rest & Hr & Hf & Hx). cbn. split; [lia|]. split; [done|]. exists rest.
    split; [done|]. split; [done|]. intros Hl. destruct (Hx Hl). split; [lia|done].
Qed.

#[export] Instance unstuffing_bounds : ZlibBounds inflater.
Proof.
  intros [w s] input avail Ha. cbn. destruct (unstuff_into s input (Z.to_nat avail)) as [[s' n] o] eqn:E.
  apply unstuff_into_ok in E as (Hn & Ho & _). unfold len. lia.
Qed.

Lemma unstuff_message data : unstuff SNormal (stuff data ++ DEFLATE_TRAILER) = (data, SNormal).
Proof. induction data as [|b data IH]; [done|]. cbn [stuff map concat app unstuff Z.eqb Pos.eqb]. unfold stuff in IH. by rewrite IH. Qed.

Lemma stuff_ok data : bytes_ok data -> bytes_ok (stuff data) /\ len (stuff data) = 2 * len data.
Proof.
  induction 1 as [|b data Hb _ [IH1 IH2]]; [split; [constructor|done]|]. unfold stuff in *. cbn [map concat app]. split.
  - constructor; [unfold is_byte; lia|]. by constructor.
  - rewrite !len_cons, IH2. lia.
Qed.

#[export] Instance stuffing_deflates : Deflates (option bytes) inflater.
Proof.
  refine {| follows (c : option bytes) (s : inflater) input out := c = None /\ unstuff (snd s) input = (out, SNormal); window := fst |}.
  - intros [w s] input avail. cbn. by destruct (unstuff_into s input (Z.to_nat avail)) as [[??]?].
  - done.
  - intros c [w s] input out avail [-> Hu] Ha. cbn [snd] in Hu. cbn. destruct (unstuff_into s input (Z.to_nat avail)) as [[s' n] o] eqn:E.
    apply unstuff_into_ok in E as (Hn & Ho & rest & Hr & Hf & Hx). rewrite Hu in Hr. injection Hr as -> Hs.
    exists (w, s'), Z_OK, (Z.of_nat n), o, rest. split; [done|]. split; [by left|]. split; [unfold len; lia|]. split; [unfold len; lia|].
    split; [done|]. split.
    + split; [done|]. unfold from. rewrite Nat2Z.id. cbn [snd]. destruct (unstuff s' (drop n input)) as [r sf]. cbn in *. congruence.
    + intros Hl. unfold len in *. destruct Hx; [lia|]. split; [lia|done].
  - intros full c [w s] data [-> Hu] Hok Hl. destruct (stuff_ok data Hok) as [Hb Hlen]. cbn in Hu. injection Hu as ->.
    exists (stuff data), None. split; [done|]. split; [done|]. split; [lia|]. split; [split; [done|apply unstuff_message]|].
    intros _ s'. done.
Defined.
#[export] Instance stuffing_init : DeflatesInit (option bytes) inflater.
Proof. by split. Qed.

(** ** Concrete messages *)

Definition cw_config : DeflateConfig.t := DeflateConfig.Mk Bits15 Bits15 false true 6 3.
(** A text above the threshold, one below it, a ping and a close. *)
Definition cw_messages : list (bytes * bytes * Message.t) :=
  [([1; 2; 3; 4], [0; 0; 0; 0], Message.Text [104; 101; 108; 108; 111]); ([1; 2; 3; 4], [0; 0; 0; 0], Message.Binary [7]);
   ([9; 9; 9; 9], [0; 0; 0; 0], Message.Ping [1]); ([9; 9; 9; 9], [5; 5; 5; 5], Message.Close None)].

Lemma cw_messages_ok : Forall (kms_ok (E := DeflateEncoder.t (option bytes)) (D := DeflateDecoder inflater) 1000 1000) cw_messages.
Proof.
  repeat constructor; unfold key_fine; cbn; try done; try lia.
Qed.

Lemma compressed_any_chunking_witness :
  outcome (fun more => ref_run (cref_frame (E := DeflateEncoder.t (option bytes)) (SU := simdutf8_std) 100 true true) (compressed_policy Client 100)
      (None, first_decoder (E := DeflateEncoder.t (option bytes)) (D := DeflateDecoder inflater) Client cw_config)
      (concat [[0xC1; 6; 1]; [104; 1; 105]] ++ more))
    (compressed_reads (E := DeflateEncoder.t (option bytes)) (D := DeflateDecoder inflater) (SU := simdutf8_std) test_arch (fun _ => 0)
      (compressed_new Client 100 100 cw_config) [[0xC1; 6; 1]; [104; 1; 105]]).
Proof.
  apply (compressed_any_chunking (SU := simdutf8_std) (SUok := simdutf8_std_spec) test_arch (fun _ => 0) Client 100 100 cw_config [[0xC1; 6; 1]; [104; 1; 105]]);
    [by vm_compute|lia|by repeat constructor|done].
Defined.

