(* ===== verification/Config.v ===== *)
(** * Configuration (src/src/lib.rs)

    Compression modes and the settings of a connection; the settings of other transports are left out.  Reasons are the bytes of a string. *)

From stdpp Require Import base list option strings.
From S2P Require Import Prelude Error Deflate Cork.

#[local] Open Scope Z_scope.

Inductive Compression :=
  | Disabled | Dedicated | Shared
  | Window1KB | Window2KB | Window4KB | Window8KB | Window16KB | Window32KB.

Definition is_enabled (c : Compression) : bool := match c with Disabled => false | _ => true end.
Definition is_shared (c : Compression) : bool := match c with Shared => true | _ => false end.
Definition is_dedicated (c : Compression) : bool := match c with Disabled | Shared => false | _ => true end.

Definition window_bits (c : Compression) : option DeflateWindowBits :=
  match c with
  | Disabled => None
  | Window1KB => Some Bits10
  | Window2KB => Some Bits11
  | Window4KB => Some Bits12
  | Window8KB => Some Bits13
  | Window16KB => Some Bits14
  | Dedicated | Shared | Window32KB => Some Bits15
  end.

Definition compression_threshold (c : Compression) : Z :=
  match c with
  | Disabled => 2 ^ 64 - 1
  | Window1KB => 64
  | Window2KB => 48
  | Window4KB => 40
  | Window8KB => 32
  | Window16KB | Window32KB => 24
  | Dedicated | Shared => 16
  end.

Definition context_takeover (c : Compression) : bool :=
  match c with Disabled | Shared | Window1KB | Window2KB => false | _ => true end.

Definition to_deflate_config (c : Compression) : option DeflateConfig.t :=
  bits ← window_bits c;
  let no_context_takeover := negb (context_takeover c) in
  Some (DeflateConfig.Mk bits bits no_context_takeover no_context_takeover
    (match c with
     | Window1KB => 1
     | Window2KB | Window4KB => 3
     | Window8KB | Window16KB => 5
     | _ => 6
     end) (compression_threshold c)).

Definition RECV_BUFFER_SIZE := 64 * 1024.

Module Config.
Record t := Mk {
  validate_text_utf8 : bool;
  max_message_size : Z;
  max_frame_size : Z;
  write_buffer_size : Z;
  read_buffer_size : Z;
  compression : Compression;
  idle_timeout : Z;
  max_backpressure : Z;
  auto_ping : bool;
  ping_interval : Z;
  pong_timeout : Z;
  pong_timeout_close_code : Z;
  pong_timeout_close_reason : bytes;
  close_timeout : Z;
  write_coalescing : bool;
  deflate : option DeflateConfig.t
}.

Definition set_validate_text_utf8 (v : bool) (c : t) : t :=
  Mk v (max_message_size c) (max_frame_size c) (write_buffer_size c) (read_buffer_size c) (compression c) (idle_timeout c) (max_backpressure c) (auto_ping c) (ping_interval c) (pong_timeout c) (pong_timeout_close_code c) (pong_timeout_close_reason c) (close_timeout c) (write_coalescing c) (deflate c).
Definition set_max_message_size (v : Z) (c : t) : t :=
  Mk (validate_text_utf8 c) v (max_frame_size c) (write_buffer_size c) (read_buffer_size c) (compression c) (idle_timeout c) (max_backpressure c) (auto_ping c) (ping_interval c) (pong_timeout c) (pong_timeout_close_code c) (pong_timeout_close_reason c) (close_timeout c) (write_coalescing c) (deflate c).
Definition set_max_frame_size (v : Z) (c : t) : t :=
  Mk (validate_text_utf8 c) (max_message_size c) v (write_buffer_size c) (read_buffer_size c) (compression c) (idle_timeout c) (max_backpressure c) (auto_ping c) (ping_interval c) (pong_timeout c) (pong_timeout_close_code c) (pong_timeout_close_reason c) (close_timeout c) (write_coalescing c) (deflate c).
Definition set_write_buffer_size (v : Z) (c : t) : t :=
  Mk (validate_text_utf8 c) (max_message_size c) (max_frame_size c) v (read_buffer_size c) (compression c) (idle_timeout c) (max_backpressure c) (auto_ping c) (ping_interval c) (pong_timeout c) (pong_timeout_close_code c) (pong_timeout_close_reason c) (close_timeout c) (write_coalescing c) (deflate c).
Definition set_read_buffer_size (v : Z) (c : t) : t :=
  Mk (validate_text_utf8 c) (max_message_size c) (max_frame_size c) (write_buffer_size c) v (compression c) (idle_timeout c) (max_backpressure c) (auto_ping c) (ping_interval c) (pong_timeout c) (pong_timeout_close_code c) (pong_timeout_close_reason c) (close_timeout c) (write_coalescing c) (deflate c).
Definition set_compression (v : Compression) (c : t) : t :=
  Mk (validate_text_utf8 c) (max_message_size c) (max_frame_size c) (write_buffer_size c) (read_buffer_size c) v (idle_timeout c) (max_backpressure c) (auto_ping c) (ping_interval c) (pong_timeout c) (pong_timeout_close_code c) (pong_timeout_close_reason c) (close_timeout c) (write_coalescing c) (deflate c).
Definition set_idle_timeout (v : Z) (c : t) : t :=
  Mk (validate_text_utf8 c) (max_message_size c) (max_frame_size c) (write_buffer_size c) (read_buffer_size c) (compression c) v (max_backpressure c) (auto_ping c) (ping_interval c) (pong_timeout c) (pong_timeout_close_code c) (pong_timeout_close_reason c) (close_timeout c) (write_coalescing c) (deflate c).
Definition set_max_backpressure (v : Z) (c : t) : t :=
  Mk (validate_text_utf8 c) (max_message_size c) (max_frame_size c) (write_buffer_size c) (read_buffer_size c) (compression c) (idle_timeout c) v (auto_ping c) (ping_interval c) (pong_timeout c) (pong_timeout_close_code c) (pong_timeout_close_reason c) (close_timeout c) (write_coalescing c) (deflate c).
Definition set_auto_ping (v : bool) (c : t) : t :=
  Mk (validate_text_utf8 c) (max_message_size c) (max_frame_size c) (write_buffer_size c) (read_buffer_size c) (compression c) (idle_timeout c) (max_backpressure c) v (ping_interval c) (pong_timeout c) (pong_timeout_close_code c) (pong_timeout_close_reason c) (close_timeout c) (write_coalescing c) (deflate c).
Definition set_ping_interval (v : Z) (c : t) : t :=
  Mk (validate_text_utf8 c) (max_message_size c) (max_frame_size c) (write_buffer_size c) (read_buffer_size c) (compression c) (idle_timeout c) (max_backpressure c) (auto_ping c) v (pong_timeout c) (pong_timeout_close_code c) (pong_timeout_close_reason c) (close_timeout c) (write_coalescing c) (deflate c).
Definition set_pong_timeout (v : Z) (c : t) : t :=
  Mk (validate_text_utf8 c) (max_message_size c) (max_frame_size c) (write_buffer_size c) (read_buffer_size c) (compression c) (idle_timeout c) (max_backpressure c) (auto_ping c) (ping_interval c) v (pong_timeout_close_code c) (pong_timeout_close_reason c) (close_timeout c) (write_coalescing c) (deflate c).
Definition set_pong_timeout_close_code (v : Z) (c : t) : t :=
  Mk (validate_text_utf8 c) (max_message_size c) (max_frame_size c) (write_buffer_size c) (read_buffer_size c) (compression c) (idle_timeout c) (max_backpressure c) (auto_ping c) (ping_interval c) (pong_timeout c) v (pong_timeout_close_reason c) (close_timeout c) (write_coalescing c) (deflate c).
Definition set_pong_timeout_close_reason (v : bytes) (c : t) : t :=
  Mk (validate_text_utf8 c) (max_message_size c) (max_frame_size c) (write_buffer_size c) (read_buffer_size c) (compression c) (idle_timeout c) (max_backpressure c) (auto_ping c) (ping_interval c) (pong_timeout c) (pong_timeout_close_code c) v (close_timeout c) (write_coalescing c) (deflate c).
Definition set_close_timeout (v : Z) (c : t) : t :=
  Mk (validate_text_utf8 c) (max_message_size c) (max_frame_size c) (write_buffer_size c) (read_buffer_size c) (compression c) (idle_timeout c) (max_backpressure c) (auto_ping c) (ping_interval c) (pong_timeout c) (pong_timeout_close_code c) (pong_timeout_close_reason c) v (write_coalescing c) (deflate c).
Definition set_write_coalescing (v : bool) (c : t) : t :=
  Mk (validate_text_utf8 c) (max_message_size c) (max_frame_size c) (write_buffer_size c) (read_buffer_size c) (compression c) (idle_timeout c) (max_backpressure c) (auto_ping c) (ping_interval c) (pong_timeout c) (pong_timeout_close_code c) (pong_timeout_close_reason c) (close_timeout c) v (deflate c).
Definition set_deflate (v : option DeflateConfig.t) (c : t) : t :=
  Mk (validate_text_utf8 c) (max_message_size c) (max_frame_size c) (write_buffer_size c) (read_buffer_size c) (compression c) (idle_timeout c) (max_backpressure c) (auto_ping c) (ping_interval c) (pong_timeout c) (pong_timeout_close_code c) (pong_timeout_close_reason c) (close_timeout c) (write_coalescing c) v.

Definition default : t :=
  Mk true (64 * 1024 * 1024) (16 * 1024 * 1024) CORK_BUFFER_SIZE RECV_BUFFER_SIZE Disabled 120 (1024 * 1024) true 30 10
    CloseReason.GOING_AWAY (str "Pong reply not received in time") 5 true None.

Definition uws_defaults : t :=
  Mk true (16 * 1024) (16 * 1024) CORK_BUFFER_SIZE RECV_BUFFER_SIZE Shared 0 (1024 * 1024) true 30 10
    CloseReason.GOING_AWAY (str "Pong reply not received in time") 5 true None.
End Config.

(** [ConfigBuilder] holds the configuration it builds. *)
Module ConfigBuilder.
Import Config.

Definition new : t := default.
Definition validate_text_utf8 (enabled : bool) (b : t) : t := set_validate_text_utf8 enabled b.
Definition compression (mode : Compression) (b : t) : t := set_compression mode b.
Definition max_payload_length (size : Z) (b : t) : t := set_max_frame_size size (set_max_message_size size b).
Definition max_message_size (size : Z) (b : t) : t := set_max_message_size size b.
Definition max_frame_size (size : Z) (b : t) : t := set_max_frame_size size b.
Definition idle_timeout (seconds : Z) (b : t) : t := set_idle_timeout seconds b.
Definition max_backpressure (n : Z) (b : t) : t := set_max_backpressure n b.
Definition write_buffer_size (size : Z) (b : t) : t := set_write_buffer_size size b.
Definition read_buffer_size (size : Z) (b : t) : t := set_read_buffer_size size b.
Definition auto_ping (enabled : bool) (b : t) : t := set_auto_ping enabled b.
Definition ping_interval (seconds : Z) (b : t) : t := set_ping_interval seconds b.
Definition pong_timeout (seconds : Z) (b : t) : t := set_pong_timeout seconds b.
Definition pong_timeout_close (code : Z) (reason : bytes) (b : t) : t :=
  set_pong_timeout_close_reason reason (set_pong_timeout_close_code code b).
Definition close_timeout (seconds : Z) (b : t) : t := set_close_timeout seconds b.
Definition write_coalescing (enabled : bool) (b : t) : t := set_write_coalescing enabled b.
Definition enable_deflate (b : t) : t := set_deflate (Some DeflateConfig.default) b.
Definition deflate_config (c : DeflateConfig.t) (b : t) : t := set_deflate (Some c) b.
Definition build (b : t) : t := b.
End ConfigBuilder.
