(* ===== verification/WebSocket.v ===== *)
(** * The message stream (src/src/stream/websocket.rs, [WebSocketStream]; src/src/stream/clock.rs)

    [poll_next] reads, parses, answers Pings and Closes, keeps the heartbeat and the deadline of the closing
    handshake; [poll_ready], [start_send], [poll_flush], [poll_close] and [close] send.  Everything outside the stream (the transport, the
    clock, the timer, random keys and nonces) is one environment [T], passed through explicitly.  The receive window only sizes
    the read buffer, and is not part of the state here. *)

From stdpp Require Import base list option strings.
From S2P Require Import Prelude Error Mask Utf8 Frame FrameSpec Protocol Heartbeat Cork Output Stream Deflate Config.

(** ** The environment *)

(** Besides writing: reading (any number of bytes, none at the end), shutting down the sending side, the clock in
    milliseconds since the stream was created, a [tokio::time::Sleep] armed for a deadline, masking keys and Ping nonces. *)
Class Runtime (T : Type) `{Transport T} := {
  poll_read : T -> T * poll (res IoError bytes);
  poll_shutdown : T -> T * poll (res IoError unit);
  elapsed : T -> T * Z;
  sleep_poll : T -> Z -> T * bool;
  draw_mask : T -> T * bytes;
  draw_nonce : T -> T * Z
}.

(** ** Timers ([HeartbeatTimer]): the deadline the sleep is armed for *)

Section Timer.
Context {T : Type} `{Runtime T}.

Fixpoint timer_loop (fuel : nat) (timer deadline : Z) (inner : T) : comp (Z * T) bool :=
  match fuel with
  | O => NoFuel
  | S fuel =>
      let '(inner, fired) := sleep_poll inner timer in
      if negb fired then Done (timer, inner) (Ok false)
      else
        let '(inner, now) := elapsed inner in
        if deadline <=? now then Done (timer, inner) (Ok true)
        else timer_loop fuel deadline deadline inner
  end.

Definition timer_poll (fuel : nat) (timer deadline : Z) (inner : T) : comp (Z * T) bool :=
  timer_loop fuel (if deadline <? timer then deadline else timer) deadline inner.
End Timer.

(** ** The state of a stream *)

Module StreamState.
Inductive t := Open | ReadErrorPending | Flushing | CloseSent | Closed.
#[global] Instance t_eq_dec : EqDecision t.
Proof. solve_decision. Defined.
End StreamState.

Module WriteShutdownState.
Inductive t := NotStarted | Pending | Complete | Failed.
Definition can_poll (s : t) : bool := match s with NotStarted | Pending => true | _ => false end.
Definition is_complete (s : t) : bool := match s with Complete => true | _ => false end.
End WriteShutdownState.

Module WebSocketStream.
Record t := Mk {
  protocol : Protocol.t;
  read_buf : bytes;
  has_unprocessed_read_data : bool;
  output : UnifiedOutput.t;
  state : StreamState.t;
  closing_deadline : option Z;
  post_expiry_read_attempted : bool;
  immediate_write_shutdown : bool;
  write_shutdown_state : WriteShutdownState.t;
  config : Config.t;
  pending_message : option Message.t;
  pending_ping_batch : list Message.t;
  pending_parse_error : option Error;
  pending_control_message : option Message.t;
  pending_terminal_error : option Error;
  flush_on_read : bool;
  close_after_flush : bool;
  heartbeat : Heartbeat.t;
  heartbeat_sleep : option Z;
  high_water_mark : Z;
  low_water_mark : Z
}.

Definition set_protocol (v : Protocol.t) (s : t) : t :=
  Mk v (read_buf s) (has_unprocessed_read_data s) (output s) (state s) (closing_deadline s) (post_expiry_read_attempted s) (immediate_write_shutdown s) (write_shutdown_state s) (config s) (pending_message s) (pending_ping_batch s) (pending_parse_error s) (pending_control_message s) (pending_terminal_error s) (flush_on_read s) (close_after_flush s) (heartbeat s) (heartbeat_sleep s) (high_water_mark s) (low_water_mark s).
Definition set_read_buf (v : bytes) (s : t) : t :=
  Mk (protocol s) v (has_unprocessed_read_data s) (output s) (state s) (closing_deadline s) (post_expiry_read_attempted s) (immediate_write_shutdown s) (write_shutdown_state s) (config s) (pending_message s) (pending_ping_batch s) (pending_parse_error s) (pending_control_message s) (pending_terminal_error s) (flush_on_read s) (close_after_flush s) (heartbeat s) (heartbeat_sleep s) (high_water_mark s) (low_water_mark s).
Definition set_has_unprocessed_read_data (v : bool) (s : t) : t :=
  Mk (protocol s) (read_buf s) v (output s) (state s) (closing_deadline s) (post_expiry_read_attempted s) (immediate_write_shutdown s) (write_shutdown_state s) (config s) (pending_message s) (pending_ping_batch s) (pending_parse_error s) (pending_control_message s) (pending_terminal_error s) (flush_on_read s) (close_after_flush s) (heartbeat s) (heartbeat_sleep s) (high_water_mark s) (low_water_mark s).
Definition set_output (v : UnifiedOutput.t) (s : t) : t :=
  Mk (protocol s) (read_buf s) (has_unprocessed_read_data s) v (state s) (closing_deadline s) (post_expiry_read_attempted s) (immediate_write_shutdown s) (write_shutdown_state s) (config s) (pending_message s) (pending_ping_batch s) (pending_parse_error s) (pending_control_message s) (pending_terminal_error s) (flush_on_read s) (close_after_flush s) (heartbeat s) (heartbeat_sleep s) (high_water_mark s) (low_water_mark s).
Definition set_state (v : StreamState.t) (s : t) : t :=
  Mk (protocol s) (read_buf s) (has_unprocessed_read_data s) (output s) v (closing_deadline s) (post_expiry_read_attempted s) (immediate_write_shutdown s) (write_shutdown_state s) (config s) (pending_message s) (pending_ping_batch s) (pending_parse_error s) (pending_control_message s) (pending_terminal_error s) (flush_on_read s) (close_after_flush s) (heartbeat s) (heartbeat_sleep s) (high_water_mark s) (low_water_mark s).
Definition set_closing_deadline (v : option Z) (s : t) : t :=
  Mk (protocol s) (read_buf s) (has_unprocessed_read_data s) (output s) (state s) v (post_expiry_read_attempted s) (immediate_write_shutdown s) (write_shutdown_state s) (config s) (pending_message s) (pending_ping_batch s) (pending_parse_error s) (pending_control_message s) (pending_terminal_error s) (flush_on_read s) (close_after_flush s) (heartbeat s) (heartbeat_sleep s) (high_water_mark s) (low_water_mark s).
Definition set_post_expiry_read_attempted (v : bool) (s : t) : t :=
  Mk (protocol s) (read_buf s) (has_unprocessed_read_data s) (output s) (state s) (closing_deadline s) v (immediate_write_shutdown s) (write_shutdown_state s) (config s) (pending_message s) (pending_ping_batch s) (pending_parse_error s) (pending_control_message s) (pending_terminal_error s) (flush_on_read s) (close_after_flush s) (heartbeat s) (heartbeat_sleep s) (high_water_mark s) (low_water_mark s).
Definition set_immediate_write_shutdown (v : bool) (s : t) : t :=
  Mk (protocol s) (read_buf s) (has_unprocessed_read_data s) (output s) (state s) (closing_deadline s) (post_expiry_read_attempted s) v (write_shutdown_state s) (config s) (pending_message s) (pending_ping_batch s) (pending_parse_error s) (pending_control_message s) (pending_terminal_error s) (flush_on_read s) (close_after_flush s) (heartbeat s) (heartbeat_sleep s) (high_water_mark s) (low_water_mark s).
Definition set_write_shutdown_state (v : WriteShutdownState.t) (s : t) : t :=
  Mk (protocol s) (read_buf s) (has_unprocessed_read_data s) (output s) (state s) (closing_deadline s) (post_expiry_read_attempted s) (immediate_write_shutdown s) v (config s) (pending_message s) (pending_ping_batch s) (pending_parse_error s) (pending_control_message s) (pending_terminal_error s) (flush_on_read s) (close_after_flush s) (heartbeat s) (heartbeat_sleep s) (high_water_mark s) (low_water_mark s).
Definition set_pending_message (v : option Message.t) (s : t) : t :=
  Mk (protocol s) (read_buf s) (has_unprocessed_read_data s) (output s) (state s) (closing_deadline s) (post_expiry_read_attempted s) (immediate_write_shutdown s) (write_shutdown_state s) (config s) v (pending_ping_batch s) (pending_parse_error s) (pending_control_message s) (pending_terminal_error s) (flush_on_read s) (close_after_flush s) (heartbeat s) (heartbeat_sleep s) (high_water_mark s) (low_water_mark s).
Definition set_pending_ping_batch (v : list Message.t) (s : t) : t :=
  Mk (protocol s) (read_buf s) (has_unprocessed_read_data s) (output s) (state s) (closing_deadline s) (post_expiry_read_attempted s) (immediate_write_shutdown s) (write_shutdown_state s) (config s) (pending_message s) v (pending_parse_error s) (pending_control_message s) (pending_terminal_error s) (flush_on_read s) (close_after_flush s) (heartbeat s) (heartbeat_sleep s) (high_water_mark s) (low_water_mark s).
Definition set_pending_parse_error (v : option Error) (s : t) : t :=
  Mk (protocol s) (read_buf s) (has_unprocessed_read_data s) (output s) (state s) (closing_deadline s) (post_expiry_read_attempted s) (immediate_write_shutdown s) (write_shutdown_state s) (config s) (pending_message s) (pending_ping_batch s) v (pending_control_message s) (pending_terminal_error s) (flush_on_read s) (close_after_flush s) (heartbeat s) (heartbeat_sleep s) (high_water_mark s) (low_water_mark s).
Definition set_pending_control_message (v : option Message.t) (s : t) : t :=
  Mk (protocol s) (read_buf s) (has_unprocessed_read_data s) (output s) (state s) (closing_deadline s) (post_expiry_read_attempted s) (immediate_write_shutdown s) (write_shutdown_state s) (config s) (pending_message s) (pending_ping_batch s) (pending_parse_error s) v (pending_terminal_error s) (flush_on_read s) (close_after_flush s) (heartbeat s) (heartbeat_sleep s) (high_water_mark s) (low_water_mark s).
Definition set_pending_terminal_error (v : option Error) (s : t) : t :=
  Mk (protocol s) (read_buf s) (has_unprocessed_read_data s) (output s) (state s) (closing_deadline s) (post_expiry_read_attempted s) (immediate_write_shutdown s) (write_shutdown_state s) (config s) (pending_message s) (pending_ping_batch s) (pending_parse_error s) (pending_control_message s) v (flush_on_read s) (close_after_flush s) (heartbeat s) (heartbeat_sleep s) (high_water_mark s) (low_water_mark s).
Definition set_flush_on_read (v : bool) (s : t) : t :=
  Mk (protocol s) (read_buf s) (has_unprocessed_read_data s) (output s) (state s) (closing_deadline s) (post_expiry_read_attempted s) (immediate_write_shutdown s) (write_shutdown_state s) (config s) (pending_message s) (pending_ping_batch s) (pending_parse_error s) (pending_control_message s) (pending_terminal_error s) v (close_after_flush s) (heartbeat s) (heartbeat_sleep s) (high_water_mark s) (low_water_mark s).
Definition set_close_after_flush (v : bool) (s : t) : t :=
  Mk (protocol s) (read_buf s) (has_unprocessed_read_data s) (output s) (state s) (closing_deadline s) (post_expiry_read_attempted s) (immediate_write_shutdown s) (write_shutdown_state s) (config s) (pending_message s) (pending_ping_batch s) (pending_parse_error s) (pending_control_message s) (pending_terminal_error s) (flush_on_read s) v (heartbeat s) (heartbeat_sleep s) (high_water_mark s) (low_water_mark s).
Definition set_heartbeat (v : Heartbeat.t) (s : t) : t :=
  Mk (protocol s) (read_buf s) (has_unprocessed_read_data s) (output s) (state s) (closing_deadline s) (post_expiry_read_attempted s) (immediate_write_shutdown s) (write_shutdown_state s) (config s) (pending_message s) (pending_ping_batch s) (pending_parse_error s) (pending_control_message s) (pending_terminal_error s) (flush_on_read s) (close_after_flush s) v (heartbeat_sleep s) (high_water_mark s) (low_water_mark s).
Definition set_heartbeat_sleep (v : option Z) (s : t) : t :=
  Mk (protocol s) (read_buf s) (has_unprocessed_read_data s) (output s) (state s) (closing_deadline s) (post_expiry_read_attempted s) (immediate_write_shutdown s) (write_shutdown_state s) (config s) (pending_message s) (pending_ping_batch s) (pending_parse_error s) (pending_control_message s) (pending_terminal_error s) (flush_on_read s) (close_after_flush s) (heartbeat s) v (high_water_mark s) (low_water_mark s).
Definition set_high_water_mark (v : Z) (s : t) : t :=
  Mk (protocol s) (read_buf s) (has_unprocessed_read_data s) (output s) (state s) (closing_deadline s) (post_expiry_read_attempted s) (immediate_write_shutdown s) (write_shutdown_state s) (config s) (pending_message s) (pending_ping_batch s) (pending_parse_error s) (pending_control_message s) (pending_terminal_error s) (flush_on_read s) (close_after_flush s) (heartbeat s) (heartbeat_sleep s) v (low_water_mark s).
Definition set_low_water_mark (v : Z) (s : t) : t :=
  Mk (protocol s) (read_buf s) (has_unprocessed_read_data s) (output s) (state s) (closing_deadline s) (post_expiry_read_attempted s) (immediate_write_shutdown s) (write_shutdown_state s) (config s) (pending_message s) (pending_ping_batch s) (pending_parse_error s) (pending_control_message s) (pending_terminal_error s) (flush_on_read s) (close_after_flush s) (heartbeat s) (heartbeat_sleep s) (high_water_mark s) v.

Definition on_output (f : UnifiedOutput.t -> UnifiedOutput.t) (s : t) : t := set_output (f (output s)) s.
Definition on_write_buf (f : CorkBuffer.t -> CorkBuffer.t) (s : t) : t :=
  on_output (fun o => UnifiedOutput.set_write_buf (f (UnifiedOutput.write_buf o)) o) s.
Definition buffer (s : t) : bytes := CorkBuffer.buffer (UnifiedOutput.write_buf (output s)).
Definition set_buffer (b : bytes) (s : t) : t := on_write_buf (CorkBuffer.set_buffer b) s.

Definition DEFAULT_HIGH_WATER_MARK := 64 * 1024.
Definition DEFAULT_LOW_WATER_MARK := 16 * 1024.

Definition from_raw_with_leftover (role : Role) (c : Config.t) (leftover : option bytes) : t :=
  let read_buf := default [] leftover in
  Mk (Protocol.with_text_utf8_validation (Config.validate_text_utf8 c)
        (Protocol.new role (Config.max_frame_size c) (Config.max_message_size c)))
    read_buf (negb (bool_decide (read_buf = []))) (UnifiedOutput.new (Config.write_buffer_size c)) StreamState.Open None false false
    WriteShutdownState.NotStarted c None [] None None None false false
    (Heartbeat.new (Config.auto_ping c) (Config.ping_interval c) (Config.idle_timeout c) (Config.pong_timeout c) 0) None
    DEFAULT_HIGH_WATER_MARK DEFAULT_LOW_WATER_MARK.
Definition from_raw (role : Role) (c : Config.t) : t := from_raw_with_leftover role c None.
Definition server (c : Config.t) : t := from_raw Server c.
Definition client (c : Config.t) : t := from_raw Client c.
Definition with_immediate_write_shutdown (s : t) : t := set_immediate_write_shutdown true s.

Definition is_closed (s : t) : bool := bool_decide (state s = StreamState.Closed).
Definition write_buffer_len (s : t) : Z := CorkBuffer.pending_bytes (UnifiedOutput.write_buf (output s)).
Definition is_backpressured (s : t) : bool := high_water_mark s <? write_buffer_len s.
Definition is_write_buffer_low (s : t) : bool := write_buffer_len s <=? low_water_mark s.
Definition read_buffer_len (s : t) : Z := len (read_buf s).

(** ** Steps of both halves *)

Definition close_terminal (s : t) : t :=
  let s := set_state StreamState.Closed s in
  let s := set_heartbeat (Heartbeat.stop (heartbeat s)) s in
  let s := set_heartbeat_sleep None s in
  let s := on_output (UnifiedOutput.set_pending_pong None) s in
  on_output (fun o => UnifiedOutput.set_wakers (HalfWakers.wake_both (UnifiedOutput.wakers o)) o) s.

Definition or_else {A} (x y : option A) : option A := match x with Some a => Some a | None => y end.

Definition finish_read_close (fallback : option Error) (s : t) : t * option (result Message.t) :=
  let s := match write_shutdown_state s with
           | WriteShutdownState.Pending => set_write_shutdown_state WriteShutdownState.Failed s
           | _ => s
           end in
  let s := close_terminal s in
  let s := set_flush_on_read false s in
  let s := set_close_after_flush false s in
  let s := on_output (UnifiedOutput.set_ping_flush_pending false) s in
  let s := set_pending_message None s in
  let s := set_pending_ping_batch [] s in
  let close := match pending_control_message s with
               | Some m => if Message.is_close m then Some m else None
               | None => None
               end in
  let s := set_pending_control_message None s in
  let error := pending_terminal_error s in
  let s := set_pending_terminal_error None s in
  (s, or_else (Err <$> error) (or_else (Ok <$> close) (Err <$> fallback))).

Definition next_pending_message (s : t) : t * option Message.t :=
  match pending_message s with
  | Some m => (set_pending_message None s, Some m)
  | None =>
      match reverse (pending_ping_batch s) with
      | m :: rest => (set_pending_ping_batch (reverse rest) s, Some m)
      | [] => (s, None)
      end
  end.

(** The results of [poll_next] and the places of its loops: a turn is at the head of the outer loop, with its two local variables, or at the head
    of the inner one. *)
Definition Item : Type := option (result Message.t).

Inductive pos :=
  | Top (expired_deadline : option Deadline) (parsed_message : option Message.t)
  | Reading.

(** How a part of a turn ends: a [return], a [continue], or the next part. *)
Inductive flow (A : Type) := Return (r : poll Item) | Continue (p : pos) | Through (a : A).
Arguments Return {A} r.
Arguments Continue {A} p.
Arguments Through {A} a.

Section Polling.
Context {T : Type} `{Runtime T} {SU : Simdutf8}.
Context (arch : Arch) (slice_addr : bytes -> Z).
(** Turns for the loops that end when the environment has nothing more. *)
Context (fuel : nat).

Definition W : Type := t * T.

Definition on_stream (f : t -> t) (w : W) : W := (f (fst w), snd w).

Definition now_ms (w : W) : W * Z := let '(inner, v) := elapsed (snd w) in ((fst w, inner), v).

(** [generate_mask], which a server does not call *)
Definition draw_key (w : W) : W * bytes :=
  if bool_decide (Protocol.role (protocol (fst w)) = Client)
  then let '(inner, key) := draw_mask (snd w) in ((fst w, inner), key) else (w, []).

Definition poll_heartbeat_timer (deadline : Z) (w : W) : comp W bool :=
  let '(s, inner) := w in
  match timer_poll fuel (default deadline (heartbeat_sleep s)) deadline inner with
  | Done (timer, inner) r => Done (set_heartbeat_sleep (Some timer) s, inner) r
  | Panic => Panic
  | NoFuel => NoFuel
  end.

Definition poll_closing_expired (w : W) : comp W bool :=
  match closing_deadline (fst w) with
  | None => Done w (Ok false)
  | Some deadline =>
      let '(w, now) := now_ms w in
      if deadline <=? now then Done w (Ok true) else poll_heartbeat_timer deadline w
  end.

Definition begin_closing (w : W) : W :=
  let w := on_stream (on_output (UnifiedOutput.set_pending_pong None)) w in
  let w := on_stream (fun s => set_heartbeat (Heartbeat.stop (heartbeat s)) s) w in
  match closing_deadline (fst w) with
  | Some _ => w
  | None =>
      let w := on_stream (set_heartbeat_sleep None) w in
      let '(w, now) := now_ms w in
      on_stream (set_closing_deadline (Some (wrap 64 (now + Config.close_timeout (config (fst w)) * 1000)))) w
  end.

Definition poll_transport_shutdown (half : Half) (task : Task) (w : W) : W * poll (res IoError unit) :=
  let '(s, inner) := w in
  let s := set_write_shutdown_state WriteShutdownState.Pending s in
  let '(inner, r) := poll_shutdown inner in
  let s := on_output (UnifiedOutput.poll_shutdown half task r) s in
  let s := match r with
           | Ready (Ok _) => set_write_shutdown_state WriteShutdownState.Complete s
           | Ready (Err _) => set_write_shutdown_state WriteShutdownState.Failed s
           | Pending => s
           end in
  ((s, inner), r).

(** The key of a Pong and the time of a flush: drawn and read before the drain instead of where they are used; nothing else asks for them in between. *)
Definition pong_key (w : W) : W * bytes :=
  match UnifiedOutput.pending_pong (output (fst w)) with Some _ => draw_key w | None => (w, []) end.
Definition flush_time (w : W) : W * Z := if UnifiedOutput.ping_flush_pending (output (fst w)) then now_ms w else (w, 0).

Definition poll_write_out (half : Half) (task : Task) (w : W) : comp W (poll (result unit)) :=
  let '(w, key) := pong_key w in
  let '(w, now) := flush_time w in
  let '(s, inner) := w in
  match UnifiedOutput.poll_drain (Protocol.encode_pong key (protocol s)) half task now (output s, inner, heartbeat s) with
  | Done (o, inner, hb) (Ok Pending) => Done (set_heartbeat hb (set_output o s), inner) (Ok Pending)
  | Done (o, inner, hb) (Ok (Ready _)) => Done (set_heartbeat hb (set_output o s), inner) (Ok (Ready (Ok tt)))
  | Done (o, inner, hb) (Err e) => Done (close_terminal (set_heartbeat hb (set_output o s)), inner) (Ok (Ready (Err e)))
  | Panic => Panic
  | NoFuel => NoFuel
  end.

(** [self.protocol.encode_message(msg, self.output.write_buf.buffer_mut())] *)
Definition encode_message (msg : Message.t) (w : W) : comp W unit :=
  let '(w, key) := draw_key w in
  let '(s, inner) := w in
  match Protocol.encode_message key (protocol s) msg (buffer s) with
  | Done (p, b) r => Done (set_buffer b (set_protocol p s), inner) r
  | Panic => Panic
  | NoFuel => NoFuel
  end.

(** ** Reading *)

Definition poll_read_more (task : Task) (w : W) : W * poll (res IoError Z) :=
  let '(s, inner) := w in
  let s := on_output (UnifiedOutput.poll_read task) s in
  let '(inner, r) := poll_read inner in
  match r with
  | Ready (Ok data) => ((set_read_buf (read_buf s ++ data) s, inner), Ready (Ok (len data)))
  | Ready (Err e) => ((s, inner), Ready (Err e))
  | Pending => ((s, inner), Pending)
  end.

(** [self.heartbeat.on_inbound(now, pong)] when activity is tracked *)
Definition note_inbound (pong : option bytes) (w : W) : W :=
  if Heartbeat.tracks_inbound_activity (heartbeat (fst w)) then
    let '(w, now) := now_ms w in
    on_stream (fun s => set_heartbeat (fst (Heartbeat.on_inbound (heartbeat s) now pong)) s) w
  else w.

Definition process_read_buf (w : W) : comp W (option Message.t) :=
  let '(s, inner) := w in
  assert! (bool_decide (pending_message s = None) && bool_decide (pending_ping_batch s = []));
  match Protocol.process_next_with_activity arch slice_addr (protocol s) (read_buf s) with
  | Done (p, buf, accepted_fragment) r =>
      let w := (set_read_buf buf (set_protocol p s), inner) in
      let w := if accepted_fragment then note_inbound None w else w in
      let w := on_stream (set_has_unprocessed_read_data false) w in
      match r with
      | Err e => Done w (Err e)
      | Ok message =>
          Done (on_stream (fun s => set_has_unprocessed_read_data
                  (bool_decide (is_Some message) && negb (bool_decide (read_buf s = []))) s) w) (Ok message)
      end
  | Panic => Panic
  | NoFuel => NoFuel
  end.

(** A parse failure is kept until the accepted messages have been delivered. *)
Definition keep_parse_error (e : Error) (s : t) : t :=
  let s := set_pending_parse_error (Some e) s in
  if bool_decide (state s = StreamState.Open) then set_state StreamState.ReadErrorPending s else s.

Definition process_buffered_after_ping (w : W) : comp W unit :=
  let '(s, inner) := w in
  assert! (bool_decide (pending_ping_batch s = []) && has_unprocessed_read_data s);
  match Protocol.process_into_with_activity arch slice_addr (protocol s) (read_buf s) with
  | Done (p, buf, messages, accepted_fragment) r =>
      let w := (set_pending_ping_batch messages (set_read_buf buf (set_protocol p s)), inner) in
      let w := if accepted_fragment then note_inbound None w else w in
      let w := on_stream (set_has_unprocessed_read_data false) w in
      let w := on_stream (fun s => set_pending_ping_batch (reverse (pending_ping_batch s)) s) w in
      Done (match r with Err e => on_stream (keep_parse_error e) w | Ok _ => w end) (Ok tt)
  | Panic => Panic
  | NoFuel => NoFuel
  end.

(** ** [poll_next] *)

Definition finished_read {A} (fallback : option Error) (w : W) : comp W (flow A) :=
  let '(s, item) := finish_read_close fallback (fst w) in Done (s, snd w) (Ok (Return (Ready item))).

(** [if let Some(message) = parsed_message.take() { this.pending_message = Some(message); } return Poll::Pending] *)
Definition suspend {A} (parsed : option Message.t) (w : W) : comp W (flow A) :=
  Done (match parsed with Some m => on_stream (set_pending_message (Some m)) w | None => w end) (Ok (Return Pending)).

(** [pending_control_message] is returned, or the turn goes on. *)
Definition deliver_control (w : W) : comp W (flow unit) :=
  match pending_control_message (fst w) with
  | Some msg => Done (on_stream (set_pending_control_message None) w) (Ok (Return (Ready (Some (Ok msg)))))
  | None => Done w (Ok (Through tt))
  end.

(** The output is on the wire, and shut down if it had to be. *)
Definition flush_done (w : W) : comp W (flow unit) :=
  if close_after_flush (fst w) then finished_read None w else deliver_control (on_stream (set_flush_on_read false) w).

Definition after_flush (task : Task) (parsed : option Message.t) (w : W) : comp W (flow unit) :=
  if close_after_flush (fst w) && negb (WriteShutdownState.is_complete (write_shutdown_state (fst w))) then
    let '(w, r) := poll_transport_shutdown Stream task w in
    match r with
    | Ready _ => flush_done w
    | Pending =>
        let! (w, expired) := poll_closing_expired w in
        if expired then finished_read None w else suspend parsed w
    end
  else flush_done w.

(** The output is blocked; while the stream is not closing this must not prevent it from reading. *)
Definition keep_reading (parsed : option Message.t) (w : W) : comp W (flow unit) :=
  if bool_decide (is_Some (closing_deadline (fst w))) then suspend parsed w else deliver_control w.

Definition flush_blocked (parsed : option Message.t) (w : W) : comp W (flow unit) :=
  let! (w, expired) := poll_closing_expired w in
  if expired then finished_read (Some ConnectionClosed) w
  else
    match Heartbeat.next_hard_deadline (heartbeat (fst w)) with
    | Some deadline =>
        let! (w, fired) := poll_heartbeat_timer (deadline_at deadline) w in
        if fired then Done w (Ok (Continue (Top (Some deadline) parsed))) else keep_reading parsed w
    | None => keep_reading parsed w
    end.

Definition flush_part (task : Task) (expired : option Deadline) (parsed : option Message.t) (w : W) : comp W (flow unit) :=
  if flush_on_read (fst w) && bool_decide (expired = None) then
    let! (w, r) := poll_write_out Stream task w in
    match r with
    | Ready (Ok _) => after_flush task parsed w
    | Ready (Err e) => finished_read (Some e) w
    | Pending => flush_blocked parsed w
    end
  else Done w (Ok (Through tt)).

Definition error_part (parsed : option Message.t) (w : W) : comp W (flow unit) :=
  let s := fst w in
  if bool_decide (parsed = None) && bool_decide (pending_message s = None) && bool_decide (pending_ping_batch s = []) then
    match pending_parse_error s with
    | Some error =>
        let s := set_pending_parse_error None s in
        let s := on_write_buf CorkBuffer.clear s in
        Done (close_terminal s, snd w) (Ok (Return (Ready (Some (Err error)))))
    | None => Done w (Ok (Through tt))
    end
  else Done w (Ok (Through tt)).

(** Queue the Close of a timeout. *)
Definition timeout_close (code : Z) (reason : bytes) (error : Error) (w : W) : comp W (option Error) :=
  match encode_message (Message.Close (Some (CloseReason.new code reason))) w with
  | Done w (Err e) => Done (on_stream close_terminal w) (Ok (Some e))
  | Done w (Ok _) =>
      let w := begin_closing w in
      let w := on_stream (set_state StreamState.CloseSent) w in
      let w := on_stream (set_pending_terminal_error (Some error)) w in
      let w := on_stream (set_flush_on_read true) w in
      Done (on_stream (set_close_after_flush true) w) (Ok None)
  | Panic => Panic
  | NoFuel => NoFuel
  end.

Definition ping_part (now : Z) (w : W) : comp W (option Error) :=
  let '(s, inner) := w in
  let '(inner, nonce) := draw_nonce inner in
  let '(_, hb, ping) := Heartbeat.ping_due nonce (heartbeat s) now in
  let w := (set_heartbeat hb s, inner) in
  match ping with
  | Some payload =>
      match encode_message (Message.Ping payload) w with
      | Done w (Err e) => Done (on_stream close_terminal w) (Ok (Some e))
      | Done w (Ok _) =>
          let w := on_stream (on_output (UnifiedOutput.set_ping_flush_pending true)) w in
          Done (on_stream (set_flush_on_read true) w) (Ok None)
      | Panic => Panic
      | NoFuel => NoFuel
      end
  | None => Done w (Ok None)
  end.

Definition deadline_part (expired : option Deadline) (parsed : option Message.t) (w : W) : comp W (flow unit) :=
  let deadline := or_else expired
    (if bool_decide (pending_parse_error (fst w) = None) then Heartbeat.next_deadline (heartbeat (fst w)) else None) in
  match deadline with
  | None => Done w (Ok (Through tt))
  | Some deadline =>
      let '(w, now) := now_ms w in
      if deadline_at deadline <=? now then
        let c := config (fst w) in
        let! (w, failed) := match deadline with
          | DPing _ => ping_part now w
          | DPong _ => timeout_close (Config.pong_timeout_close_code c) (bounded_close_reason (Config.pong_timeout_close_reason c))
                         HeartbeatTimeout w
          | DIdle _ => timeout_close CloseReason.GOING_AWAY (str "Connection idle timeout"%string) IdleTimeout w
          end in
        match failed with
        | Some e => Done w (Ok (Return (Ready (Some (Err e)))))
        | None => Done (on_stream (set_heartbeat_sleep None) w) (Ok (Continue (Top None parsed)))
        end
      else Done w (Ok (Through tt))
  end.

Definition handle_ping (msg : Message.t) (data : bytes) (w : W) : comp W (flow unit) :=
  let! (w, _u) := (if has_unprocessed_read_data (fst w) then process_buffered_after_ping w else Done w (Ok tt)) in
  let answer (w : W) : comp W (flow unit) :=
    let w := on_stream (on_output (UnifiedOutput.set_pending_pong (Some data))) w in
    let w := on_stream (set_pending_control_message (Some msg)) w in
    Done (on_stream (set_flush_on_read true) w) (Ok (Continue (Top None None))) in
  let deliver (w : W) : comp W (flow unit) := Done w (Ok (Return (Ready (Some (Ok msg))))) in
  if WriteShutdownState.is_complete (write_shutdown_state (fst w)) then deliver w
  else
    let! (w, expired) := poll_closing_expired w in
    if expired || existsb Message.is_close (pending_ping_batch (fst w)) then deliver w else answer w.

Definition handle_close (reason : option CloseReason.t) (w : W) : comp W (flow unit) :=
  let w := begin_closing w in
  let w := on_stream (set_pending_message None) w in
  let w := on_stream (set_pending_ping_batch []) w in
  let w := on_stream (set_pending_parse_error None) w in
  let w := on_stream (set_read_buf []) w in
  let w := match state (fst w) with
           | StreamState.Open | StreamState.ReadErrorPending =>
               let '(w, key) := draw_key w in
               let '(s, inner) := w in
               let '(p, b) := Protocol.encode_close_response key (protocol s) (buffer s) in
               (set_buffer b (set_protocol p s), inner)
           | _ => w
           end in
  let w := on_stream (set_pending_control_message (Some (Message.Close reason))) w in
  let w := on_stream (set_flush_on_read true) w in
  Done (on_stream (set_close_after_flush true) w) (Ok (Continue (Top None None))).

Definition message_part (parsed : option Message.t) (w : W) : comp W (flow unit) :=
  let '(w, msg) := match parsed with
                   | Some m => (w, Some m)
                   | None => let '(s, m) := next_pending_message (fst w) in ((s, snd w), m)
                   end in
  match msg with
  | None => Done w (Ok (Continue Reading))
  | Some msg =>
      let w := note_inbound (match msg with Message.Pong payload => Some payload | _ => None end) w in
      match msg with
      | Message.Ping data => handle_ping msg data w
      | Message.Close reason => handle_close reason w
      | _ => Done w (Ok (Return (Ready (Some (Ok msg)))))
      end
  end.

(** A part that is followed by another. *)
Definition part {A} (m : comp W (flow A)) (k : W -> comp W (flow unit)) : comp W (flow unit) :=
  let! (w, f) := m in
  match f with
  | Return r => Done w (Ok (Return r))
  | Continue p => Done w (Ok (Continue p))
  | Through _ => k w
  end.

Definition top (task : Task) (expired : option Deadline) (parsed : option Message.t) (w : W) : comp W (flow unit) :=
  if is_closed (fst w) then Done w (Ok (Return (Ready None)))
  else
    part (flush_part task expired parsed w) (fun w =>
    part (error_part parsed w) (fun w =>
    part (deadline_part expired parsed w) (fun w =>
    message_part parsed w))).

(** The read would wait. *)
Definition read_blocked {A} (on_rest : W -> comp W (flow A)) (w : W) : comp W (flow A) :=
  let! (w, expired) := poll_closing_expired w in
  if expired then finished_read (Some ConnectionClosed) w
  else
    match pending_parse_error (fst w), Heartbeat.next_deadline (heartbeat (fst w)) with
    | None, Some deadline =>
        let! (w, fired) := poll_heartbeat_timer (deadline_at deadline) w in
        if fired then Done w (Ok (Continue (Top (Some deadline) None))) else on_rest w
    | _, _ => on_rest w
    end.

(** Frames queued by [feed] are written before waiting. *)
Definition write_queued (task : Task) (w : W) : comp W (flow unit) :=
  if CorkBuffer.has_data (UnifiedOutput.write_buf (output (fst w))) then
    let! (w, r) := poll_write_out Stream task w in
    match r with
    | Ready (Ok _) => Done w (Ok (Through tt))
    | Ready (Err e) => Done w (Ok (Return (Ready (Some (Err e)))))
    | Pending => read_blocked (fun w => if bool_decide (is_Some (closing_deadline (fst w))) then Done w (Ok (Return Pending))
                                        else Done w (Ok (Through tt))) w
    end
  else Done w (Ok (Through tt)).

(** The closing budget is spent, and so is the one read after it. *)
Definition last_shutdown (task : Task) (w : W) : comp W (flow unit) :=
  let w := if WriteShutdownState.can_poll (write_shutdown_state (fst w)) &&
              negb (CorkBuffer.has_data (UnifiedOutput.write_buf (output (fst w))))
           then fst (poll_transport_shutdown Stream task w) else w in
  finished_read (Some ConnectionClosed) w.

Definition read_part (task : Task) (w : W) : comp W (flow unit) :=
  let! (w, closing_expired) := poll_closing_expired w in
  if closing_expired && post_expiry_read_attempted (fst w) then last_shutdown task w
  else
    part (write_queued task w) (fun w =>
    let w := if closing_expired then on_stream (set_post_expiry_read_attempted true) w else w in
    let '(w, r) := poll_read_more task w in
    match r with
    | Ready (Ok n) =>
        if n =? 0 then Done (on_stream close_terminal w) (Ok (Return (Ready None))) else Done w (Ok (Through tt))
    | Ready (Err e) => Done (on_stream close_terminal w) (Ok (Return (Ready (Some (Err (from_io e))))))
    | Pending => read_blocked (fun w => Done w (Ok (Return Pending))) w
    end).

Definition reading (task : Task) (w : W) : comp W (flow unit) :=
  let buffered_input := has_unprocessed_read_data (fst w) in
  part (if buffered_input then Done w (Ok (Through tt)) else read_part task w) (fun w =>
    match process_read_buf w with
    | Done w (Ok message) =>
        if bool_decide (is_Some message) || negb buffered_input
        then Done w (Ok (Continue (Top None message))) else Done w (Ok (Continue Reading))
    | Done w (Err e) => Done (on_stream (keep_parse_error e) w) (Ok (Continue (Top None None)))
    | Panic => Panic
    | NoFuel => NoFuel
    end).

Definition next_step (task : Task) (x : pos * W) : pos * W + comp W (poll Item) :=
  let '(p, w) := x in
  match match p with Top expired parsed => top task expired parsed w | Reading => reading task w end with
  | Done w (Ok (Return r)) => inr (Done w (Ok r))
  | Done w (Ok (Continue p)) => inl (p, w)
  | Done _ (Ok (Through _)) | Done _ (Err _) | Panic => inr Panic
  | NoFuel => inr NoFuel
  end.

Definition poll_next (task : Task) (w : W) : comp W (poll Item) :=
  loop_fuel fuel (next_step task) (Top None None, w).

(** ** Sending *)

Definition poll_ready_drain (task : Task) (w : W) : comp W (poll (result unit)) :=
  poll_write_out Sink task (on_stream (on_output (UnifiedOutput.set_ready_flush_pending true)) w).

Definition poll_ready (task : Task) (w : W) : comp W (poll (result unit)) :=
  let s := fst w in
  if negb (bool_decide (state s = StreamState.Open)) then Done w (Ok (Ready (Err ConnectionClosed)))
  else
    let threshold := if Config.write_coalescing (config s)
                     then Z.max (Z.min (high_water_mark s) (Config.max_backpressure (config s))) 1 else 1 in
    if UnifiedOutput.needs_drain_before_send threshold (output s) then poll_ready_drain task w
    else Done w (Ok (Ready (Ok tt))).

Definition start_send (item : Message.t) (w : W) : W * result unit :=
  if negb (bool_decide (state (fst w) = StreamState.Open)) then (w, Err ConnectionClosed)
  else
    let w := if Message.is_close item
             then begin_closing (on_stream (set_state StreamState.CloseSent) w) else w in
    let '(w, key) := draw_key w in
    let '(s, inner) := w in
    let '(p, c) := start_send_frame key (protocol s) item (UnifiedOutput.write_buf (output s)) in
    ((on_write_buf (fun _ => c) (set_protocol p s), inner), Ok tt).

Definition poll_flush (task : Task) (w : W) : comp W (poll (result unit)) :=
  if is_closed (fst w) then Done w (Ok (Ready (Err ConnectionClosed)))
  else
    let! (w, r) := poll_write_out Sink task w in
    match r with
    | Ready (Ok _) => Done w (Ok (Ready (Ok tt)))
    | Ready (Err e) => Done w (Ok (Ready (Err e)))
    | Pending =>
        let! (w, expired) := poll_closing_expired w in
        if expired then Done (on_stream (fun s => fst (finish_read_close None s)) w) (Ok (Ready (Err ConnectionClosed)))
        else Done w (Ok Pending)
    end.

Definition finish_with (r : result unit) (w : W) : comp W (poll (result unit)) :=
  Done (on_stream (fun s => fst (finish_read_close None s)) w) (Ok (Ready r)).

Definition io_result (r : res IoError unit) : result unit := match r with Ok _ => Ok tt | Err e => Err (from_io e) end.

(** The transport is shut down after the stream has ended. *)
Definition close_ended (task : Task) (w : W) : comp W (poll (result unit)) :=
  if WriteShutdownState.can_poll (write_shutdown_state (fst w)) &&
     negb (CorkBuffer.has_data (UnifiedOutput.write_buf (output (fst w)))) then
    let '(w, r) := poll_transport_shutdown Sink task (begin_closing w) in
    match r with
    | Ready r => finish_with (io_result r) w
    | Pending =>
        let! (w, expired) := poll_closing_expired w in
        if expired then finish_with (Err ConnectionClosed) w else Done w (Ok Pending)
    end
  else finish_with (Ok tt) w.

Definition poll_close (task : Task) (w : W) : comp W (poll (result unit)) :=
  if is_closed (fst w) || WriteShutdownState.is_complete (write_shutdown_state (fst w)) then close_ended task w
  else
    let '(w, sent) := if bool_decide (state (fst w) = StreamState.Open)
                      then start_send (Message.Close (Some (CloseReason.new 1000 []))) w else (w, Ok tt) in
    match sent with
    | Err e => Done w (Ok (Ready (Err e)))
    | Ok _ =>
        let! (w, r) := poll_write_out Sink task (begin_closing w) in
        let '(w, r) := match r with
                       | Ready (Ok _) =>
                           let '(w, r) := poll_transport_shutdown Sink task w in
                           (w, match r with Ready r => Ready (io_result r) | Pending => Pending end)
                       | other => (w, other)
                       end in
        match r with
        | Ready r => finish_with r w
        | Pending =>
            let! (w, expired) := poll_closing_expired w in
            if expired then finish_with (Err ConnectionClosed) w else Done w (Ok Pending)
        end
    end.
(** *** [close]

    The future of [close] first writes out and flushes, then, if configured, shuts down the sending side; the timer bounds both. *)

Inductive CloseStage := CloseFlushing | CloseShuttingDown.

Definition flush_step (st : UnifiedOutput.st) : UnifiedOutput.st + comp (UnifiedOutput.st (T := T)) (poll unit) :=
  let '(o, inner, hb) := st in
  if CorkBuffer.has_data (UnifiedOutput.write_buf o) then UnifiedOutput.drain_write st
  else
    let '(inner, r) := Output.poll_flush inner in
    inr (match r with
         | Ready (Ok _) => Done (o, inner, hb) (Ok (Ready tt))
         | Ready (Err e) => Done (o, inner, hb) (Err (from_io e))
         | Pending => Done (o, inner, hb) (Ok Pending)
         end).

Definition flush_write_buf (w : W) : comp W (poll (result unit)) :=
  let '(s, inner) := w in
  match loop_fuel (S (Z.to_nat (write_buffer_len s))) flush_step (output s, inner, heartbeat s) with
  | Done (o, inner, _) (Ok (Ready _)) => Done (set_output o s, inner) (Ok (Ready (Ok tt)))
  | Done (o, inner, _) (Ok Pending) => Done (set_output o s, inner) (Ok Pending)
  | Done (o, inner, _) (Err e) => Done (set_output o s, inner) (Ok (Ready (Err e)))
  | Panic => Panic
  | NoFuel => NoFuel
  end.

(** Up to the first await; [None] when there is nothing to do, or the deadline. *)
Definition close_start (code : Z) (reason : bytes) (w : W) : comp W (option Z) :=
  if negb (bool_decide (state (fst w) = StreamState.Open)) then Done w (Ok None)
  else
    let! (w, _u) := encode_message (Message.Close (Some (CloseReason.new code reason))) w in
    let w := begin_closing (on_stream (set_state StreamState.CloseSent) w) in
    Done w (Ok (closing_deadline (fst w))).

Definition close_shutdown (w : W) : comp W (CloseStage * poll (result unit)) :=
  let '(s, inner) := w in
  let '(inner, r) := poll_shutdown inner in
  match r with
  | Ready (Ok _) => Done (set_write_shutdown_state WriteShutdownState.Complete s, inner) (Ok (CloseShuttingDown, Ready (Ok tt)))
  | Ready (Err e) =>
      Done (set_write_shutdown_state WriteShutdownState.Failed s, inner) (Ok (CloseShuttingDown, Ready (Err (from_io e))))
  | Pending => Done (s, inner) (Ok (CloseShuttingDown, Pending))
  end.

(** One poll of the bounded part. *)
Definition close_body (stage : CloseStage) (w : W) : comp W (CloseStage * poll (result unit)) :=
  match stage with
  | CloseShuttingDown => close_shutdown w
  | CloseFlushing =>
      let! (w, r) := flush_write_buf w in
      match r with
      | Ready (Ok _) =>
          if immediate_write_shutdown (fst w)
          then close_shutdown (on_stream (set_write_shutdown_state WriteShutdownState.Pending) w)
          else Done w (Ok (CloseFlushing, Ready (Ok tt)))
      | other => Done w (Ok (CloseFlushing, other))
      end
  end.

(** One poll of the future: the stage and the timer it is left with, or its result. *)
Definition close_poll (stage : CloseStage) (timer deadline : Z) (w : W) : comp W (CloseStage * Z * poll (result unit)) :=
  let finish (r : result unit) (w : W) :=
    (match r with Ok _ => w | Err _ => on_stream (fun s => fst (finish_read_close None s)) w end) in
  let! (w, x) := close_body stage w in
  match x with
  | (stage, Ready r) => Done (finish r w) (Ok (stage, timer, Ready r))
  | (stage, Pending) =>
      match timer_poll fuel timer deadline (snd w) with
      | Done (timer, inner) (Ok true) => Done (finish (Err ConnectionClosed) (fst w, inner)) (Ok (stage, timer, Ready (Err ConnectionClosed)))
      | Done (timer, inner) _ => Done (fst w, inner) (Ok (stage, timer, Pending))
      | Panic => Panic
      | NoFuel => NoFuel
      end
  end.
End Polling.
End WebSocketStream.

(** The builder of streams. *)
Module WebSocketStreamBuilder.
Record t := Mk { config : Config.t; role_ : Role; high_water : Z; low_water : Z }.

Definition new : t := Mk Config.default Server WebSocketStream.DEFAULT_HIGH_WATER_MARK WebSocketStream.DEFAULT_LOW_WATER_MARK.
Definition role (r : Role) (b : t) : t := Mk (config b) r (high_water b) (low_water b).
Definition with_config (c : Config.t) (b : t) : t := Mk c (role_ b) (high_water b) (low_water b).
Definition max_message_size (size : Z) (b : t) : t := with_config (Config.set_max_message_size size (config b)) b.
Definition max_frame_size (size : Z) (b : t) : t := with_config (Config.set_max_frame_size size (config b)) b.
Definition write_buffer_size (size : Z) (b : t) : t := with_config (Config.set_write_buffer_size size (config b)) b.
Definition high_water_mark (size : Z) (b : t) : t := Mk (config b) (role_ b) size (low_water b).
Definition low_water_mark (size : Z) (b : t) : t := Mk (config b) (role_ b) (high_water b) size.
Definition build (b : t) : WebSocketStream.t :=
  WebSocketStream.set_low_water_mark (low_water b) (WebSocketStream.set_high_water_mark (high_water b) (WebSocketStream.from_raw (role_ b) (config b))).
End WebSocketStreamBuilder.
