(* ===== verification/Scripted.v ===== *)
(** * A scripted environment

    A transport whose reads, accepted lengths and shutdown are given in advance, over a clock that stands still until it is moved, for concrete
    runs of a stream. *)

From stdpp Require Import base list option.
From S2P Require Import Prelude Error Mask Utf8 Frame FrameSpec Protocol Heartbeat Cork Output Stream Deflate Config WebSocket.

(** [room]: how much the next writes accept; none is left when the list ends. *)
Record Script := MkScript {
  incoming : list (res IoError bytes);
  taken_in : bytes;
  room : list Z;
  wire : bytes;
  clock : Z
}.

Definition script_write (t : Script) (b : bytes) : Script * poll (res IoError Z) :=
  match room t with
  | [] => (t, Pending)
  | n :: room =>
      let n := Z.max 0 (Z.min n (len b)) in
      (MkScript (incoming t) (taken_in t) room (wire t ++ upto n b) (clock t), Ready (Ok n))
  end.

#[export] Instance script_transport : Transport Script := {
  is_write_vectored _ := false;
  poll_write := script_write;
  poll_write_vectored t bs := script_write t (concat bs);
  poll_flush t := (t, match room t with [] => Pending | _ => Ready (Ok tt) end)
}.

#[export] Instance script_runtime : Runtime Script := {
  poll_read t :=
    match incoming t with
    | [] => (t, Pending)
    | Ok b :: rest => let b := map (wrap 8) b in (MkScript rest (taken_in t ++ b) (room t) (wire t) (clock t), Ready (Ok b))
    | Err e :: rest => (MkScript rest (taken_in t) (room t) (wire t) (clock t), Ready (Err e))
    end;
  poll_shutdown t := (t, Ready (Ok tt));
  elapsed t := (t, clock t);
  sleep_poll t _ := (t, false);
  draw_mask t := (t, [0; 0; 0; 0]);
  draw_nonce t := (t, 1)
}.
