(* ===== verification/StreamSpec.v ===== *)
(** * The message stream against the reference receiver

    Whatever the transport, the clock and the timer do, and however the two halves of a stream are polled, the messages [poll_next] returns are
    those of the reference receiver, in order; the stream ends once, and a closing handshake is bounded by its deadline. *)

From stdpp Require Import base list option strings.
From S2P Require Import Prelude Error Mask Utf8 Frame FrameSpec Protocol ReceiveSpec ProtocolSpec ProtocolProps NextSpec.
From S2P Require Import Heartbeat Cork Output Stream Deflate Config WebSocket.
Import WebSocketStream.

(** ** One message *)

Section next_message.
Context {SU : Simdutf8} {SUok : Simdutf8Spec}.
Context (arch : Arch) (slice_addr : bytes -> Z) (Harch : arch_ok arch) (max : Z) (validate : bool) (pol : policy).

Abbreviation sim := (sim max validate pol).
Abbreviation ref := (ref_run (ref_frame max validate) pol).

(** The outcome of the one-message reader on [raw] from state [fr]. *)
Definition one_received (fr : fragments) (raw : bytes) (res : comp (Protocol.t * bytes * bool) (option Message.t)) : Prop :=
  match res with
  | Done (p', buf', _) (Ok (Some m)) => exists fr', sim p' buf' buf' fr' /\
      forall more, bytes_ok more -> ref fr (raw ++ more) = after [m] (ref fr' (buf' ++ more))
  | Done (p', buf', _) (Ok None) => exists fr' raw', sim p' buf' raw' fr' /\ spec_parse pol raw' = Need /\
      forall more, bytes_ok more -> ref fr (raw ++ more) = ref fr' (raw' ++ more)
  | Done _ (Err e) => forall more, bytes_ok more -> fst (ref fr (raw ++ more)) = []
  | _ => False
  end.

Lemma one_received_skip fr raw f rest fr' res : bytes_ok raw -> spec_parse pol raw = Got f rest ->
  ref_frame max validate fr f = Ok (fr', None) -> one_received fr' rest res -> one_received fr raw res.
Proof.
  intros Hok E Es H.
  assert (Hstep : forall more, bytes_ok more -> ref fr (raw ++ more) = ref fr' (rest ++ more)).
  { intros more Hm. rewrite ref_run_eq by (by apply bytes_ok_app).
    rewrite spec_parse_app, E by (done || by rewrite E). cbn. rewrite Es. apply after_nil. }
  destruct res as [[[p' buf'] a] [[m|]|e]| |]; cbn in *; try done.
  - destruct H as (fr2 & Hs & Hr). exists fr2. split; [done|]. intros more Hm. by rewrite Hstep, Hr.
  - destruct H as (fr2 & raw2 & Hs & Hn & Hr). exists fr2, raw2. split_and!; try done. intros more Hm. by rewrite Hstep, Hr.
  - intros more Hm. by rewrite Hstep, H.
Qed.

Lemma next_loop n : forall p buf raw a fr, sim p buf raw fr -> (buf = [] -> spec_parse pol raw = Need) ->
  (length buf + 2 <= n)%nat \/ (raw = buf /\ (length buf + 1 <= n)%nat) ->
  one_received fr raw (loop_fuel n (Protocol.process_next_step arch slice_addr) (p, buf, a)).
Proof.
  induction n as [|n IH]; intros p buf raw a fr Hsim Hempty Hn; [lia|].
  cbn [loop_fuel]. rewrite next_step_eq. cbn [receive_step].
  destruct (f_views (Follows := typed_follows arch slice_addr max validate pol) _ _ _ _ Hsim) as [Hv Hpol]. pose proof (v_raw _ _ _ Hv) as Hok.
  case_bool_decide as Hb.
  { cbn. exists fr, raw. split_and!; auto. }
  pose proof (parse_post arch slice_addr Harch _ buf raw Hv) as Hpost. unfold post in Hpost. rewrite Hpol in Hpost.
  destruct (spec_parse pol raw) as [|e|f rest] eqn:E.
  - destruct Hpost as (ps & buf' & Ep & Hv' & Hp' & Hr). rewrite Ep.
    destruct (f_need (Follows := typed_follows arch slice_addr max validate pol) _ _ _ _ _ _ Hsim Ep Hv' Hp' Hr) as [(s' & -> & Hs')|(s' & -> & Hh)]; cbn.
    + by exists fr, raw.
    + intros more Hm. rewrite ref_run_eq by (by apply bytes_ok_app).
      destruct (spec_parse pol (raw ++ more)) as [|e|f rest] eqn:E2; try done. by destruct (Hh more f rest Hm E2) as [e ->].
  - destruct Hpost as [[ps buf'] ->]. cbn. intros more Hm. rewrite ref_run_eq by (by apply bytes_ok_app).
    by rewrite spec_parse_app, E by (done || by rewrite E).
  - destruct Hpost as (ps & Ep & Hfr & Hp' & Hok' & Hl). rewrite Ep.
    pose proof (f_frame (Follows := typed_follows arch slice_addr max validate pol) _ _ _ _ _ _ _ Hsim Ep E Hfr Hp' Hok') as Hstep.
    destruct (ref_frame max validate fr f) as [[fr' m]|e] eqn:Es.
    + destruct Hstep as (s' & m' & -> & Hm & Hs'). destruct m' as [m'|]; cbn in Hm; subst m; cbn.
      * exists fr'. split; [done|]. intros more Hm. rewrite ref_run_eq by (by apply bytes_ok_app).
        rewrite spec_parse_app, E by (done || by rewrite E). cbn. by rewrite Es.
      * eapply one_received_skip; [done|done|exact Es|]. apply IH; [done|by intros ->|right; split; [done|]].
        destruct Hn as [Hn|[-> Hn]]; [unfold len in Hl; lia|].
        destruct (spec_parse_got _ _ _ _ Hok E) as (c & -> & Hc). rewrite length_app in Hn. unfold len in Hc. lia.
    + destruct Hstep as (s' & ->). cbn. intros more Hm. rewrite ref_run_eq by (by apply bytes_ok_app).
      rewrite spec_parse_app, E by (done || by rewrite E). cbn. by rewrite Es.
Qed.

Lemma next_post p buf raw fr : sim p buf raw fr -> (buf = [] -> spec_parse pol raw = Need) ->
  one_received fr raw (Protocol.process_next_with_activity arch slice_addr p buf).
Proof. intros Hsim Hn. apply next_loop; [done|done|left; lia]. Qed.

(** The batch reader, with its messages in a list. *)
Lemma batch_post p buf fr : sim p buf buf fr -> bytes_ok buf ->
  received id (ref_frame max validate) pol sim [] fr buf (Protocol.process_into_with_activity arch slice_addr p buf).
Proof.
  intros Hsim Hok. apply (receive_loop Protocol.typed_receiver arch slice_addr Harch id (ref_frame max validate) pol sim _ p buf buf [] false fr); [done| |left; lia].
  by intros ->.
Qed.
End next_message.

(** ** What the environment promises *)

(** [taken]: the bytes read so far.  [time]: a time the clock has reached; it does not go back.  [budget]: the operations that can still be
    ready before the task has to yield, as tokio's cooperative scheduling grants them. *)
Class RuntimeSpec (T : Type) `{TransportSpec T} `{!Runtime T} := {
  taken : T -> bytes;
  time : T -> Z;
  budget : T -> nat;
  quiet : T -> T -> Prop := fun i i' => taken i' = taken i /\ time i <= time i' /\ (budget i' <= budget i)%nat;
  poll_write_quiet i b : quiet i (fst (poll_write i b));
  poll_write_vectored_quiet i bs : quiet i (fst (poll_write_vectored i bs));
  poll_flush_quiet i : quiet i (fst (Output.poll_flush i));
  poll_read_takes i : let '(i', r) := WebSocket.poll_read i in time i <= time i' /\
    match r with
    | Ready (Ok data) => taken i' = taken i ++ data /\ bytes_ok data /\ (data <> [] -> (budget i' < budget i)%nat)
    | _ => quiet i i'
    end;
  poll_shutdown_quiet i : quiet i (fst (WebSocket.poll_shutdown i));
  elapsed_quiet i : quiet i (fst (elapsed i)) /\ time i <= snd (elapsed i) <= time (fst (elapsed i));
  sleep_poll_quiet i d : quiet i (fst (sleep_poll i d)) /\ (snd (sleep_poll i d) = true -> (budget (fst (sleep_poll i d)) < budget i)%nat);
  draw_mask_quiet i : quiet i (fst (draw_mask i));
  draw_nonce_quiet i : quiet i (fst (draw_nonce i))
}.

Section Stream.
Context {T : Type} `{RuntimeSpec T} {SU : Simdutf8} {SUok : Simdutf8Spec}.
Context (arch : Arch) (slice_addr : bytes -> Z) (Harch : arch_ok arch).

Lemma env_refl i : quiet i i.
Proof. split_and!; [done|lia|lia]. Qed.

Lemma env_trans i i' i'' : quiet i i' -> quiet i' i'' -> quiet i i''.
Proof. intros (? & ? & ?) (? & ? & ?). split_and!; [congruence|lia|lia]. Qed.

(** *** Writing *)

Lemma poll_write_pending_quiet c i : quiet i (fst (UnifiedOutput.poll_write_pending c i)).
Proof. unfold UnifiedOutput.poll_write_pending. destruct (_ && _); [apply poll_write_vectored_quiet|apply poll_write_quiet]. Qed.

Definition drain_quiet (i : T) (x : UnifiedOutput.st (T := T) + comp (UnifiedOutput.st (T := T)) (poll unit)) : Prop :=
  match x with
  | inl s | inr (Done s _) => quiet i (snd (fst s))
  | _ => True
  end.

Lemma drain_write_env s : drain_quiet (snd (fst s)) (UnifiedOutput.drain_write s).
Proof.
  destruct s as [[o i] hb]. unfold UnifiedOutput.drain_write. cbn [fst snd].
  pose proof (poll_write_pending_quiet (UnifiedOutput.write_buf o) i) as Hq.
  destruct (UnifiedOutput.poll_write_pending _ i) as [i' [|[n|e]]]; cbn in *; try done.
  destruct (n =? 0); [done|]. by destruct (CorkBuffer.consume _ _).
Qed.

Lemma drain_step_env enc half now s : drain_quiet (snd (fst s)) (UnifiedOutput.drain_step enc half now s).
Proof.
  destruct s as [[o i] hb]. unfold UnifiedOutput.drain_step. pose proof (poll_flush_quiet i) as Hq. cbn [fst snd].
  destruct (_ || _).
  - destruct (negb _); [|apply (drain_write_env (o, i, hb))].
    destruct (Output.poll_flush i) as [i' [|[[]|e]]]; cbn in Hq; try done.
    destruct (UnifiedOutput.record_ping_flush _ _ _ _) as [o' hb']. destruct (UnifiedOutput.pending_pong o') as [pl|]; [|done].
    match goal with |- context [UnifiedOutput.drain_write ?s] => pose proof (drain_write_env s) as Hw; destruct (UnifiedOutput.drain_write s) as [s'|[s' r| |]] end;
      cbn in *; try done; by eapply env_trans.
  - unfold UnifiedOutput.drain_end. destruct (Output.poll_flush i) as [i' [|[[]|e]]]; cbn in Hq; try done.
    by destruct (UnifiedOutput.record_ping_flush _ _ _ _).
Qed.

Lemma loop_quiet n body : (forall s, drain_quiet (snd (fst s)) (body s)) ->
  forall s s' r, loop_fuel n body s = Done s' r -> quiet (snd (fst s)) (snd (fst s')).
Proof.
  intros Hb. induction n as [|n IH]; intros s s' r; [done|]. cbn [loop_fuel]. pose proof (Hb s) as Hs.
  destruct (body s) as [s1|r1]; cbn in Hs; [intros E; eapply env_trans; [done|by eapply IH]|intros ->; done].
Qed.

(** *** The heartbeat during a poll *)

(** Pings the heartbeat can still ask for before the next inbound message. *)
Definition pings (hb : Heartbeat.t) : nat :=
  if Heartbeat.stopped hb then 0
  else match Heartbeat.outstanding hb with
       | None => 1
       | Some p => if Heartbeat.acknowledged p && negb (Heartbeat.flushed p) then 2 else 0
       end.

Definition calmer (hb hb' : Heartbeat.t) : Prop := Heartbeat.stopped hb' = Heartbeat.stopped hb /\ (pings hb' <= pings hb)%nat.

Lemma calmer_refl hb : calmer hb hb.
Proof. by split. Qed.
Lemma calmer_trans hb hb' hb'' : calmer hb hb' -> calmer hb' hb'' -> calmer hb hb''.
Proof. intros [? ?] [? ?]. split; [congruence|lia]. Qed.

Lemma ping_flushed_calmer hb now : calmer hb (Heartbeat.ping_flushed hb now).
Proof.
  unfold calmer, Heartbeat.ping_flushed, pings. destruct (Heartbeat.outstanding hb) as [p|] eqn:E; [|by rewrite E].
  destruct (Heartbeat.flushed p) eqn:Ef; cbn; [by rewrite E, Ef|]. destruct (Heartbeat.acknowledged p) eqn:Ea; cbn;
    (split; [done|]; destruct (Heartbeat.stopped hb); lia).
Qed.

Lemma drained_heartbeat enc now s s' r : OutputSpec.drained (T := T) enc now s s' r -> calmer (snd s) (snd s').
Proof.
  intros [[_ _ Hh] _]. destruct Hh as [[_ ->]|(_ & _ & -> & _)]; [apply calmer_refl|apply ping_flushed_calmer].
Qed.
(** *** The clock, keys, timers *)

Lemma now_ms_ok (s : t) (i : T) : exists i' v, now_ms (s, i) = ((s, i'), v) /\ quiet i i' /\ time i <= v <= time i'.
Proof.
  unfold now_ms. cbn [fst snd]. pose proof (elapsed_quiet i) as [Hq Ht]. destruct (elapsed i) as [i' v]. by exists i', v.
Qed.

Lemma draw_key_ok (s : t) (i : T) : exists i' key, draw_key (s, i) = ((s, i'), key) /\ quiet i i'.
Proof.
  unfold draw_key. cbn [fst snd]. case_bool_decide; [|exists i, []; split; [done|apply env_refl]].
  pose proof (draw_mask_quiet i) as Hq. destruct (draw_mask i) as [i' key]. by exists i', key.
Qed.

Lemma timer_loop_ok n : forall timer deadline (i : T), (budget i < n)%nat ->
  exists timer' i' b, timer_loop n timer deadline i = Done (timer', i') (Ok b) /\ quiet i i' /\
    (b = true -> deadline <= time i' /\ (budget i' < budget i)%nat).
Proof.
  induction n as [|n IH]; intros timer deadline i Hn; [lia|]. cbn [timer_loop].
  pose proof (sleep_poll_quiet i timer) as [Hq Hb]. destruct (sleep_poll i timer) as [i1 fired]. cbn [fst snd] in *.
  destruct fired; cbn [negb]; [|by exists timer, i1, false].
  pose proof (elapsed_quiet i1) as [Hq1 Ht]. destruct (elapsed i1) as [i2 v]. cbn [fst snd] in *.
  assert (Hlt : (budget i2 < budget i)%nat) by (specialize (Hb eq_refl); destruct Hq1 as (_ & _ & ?); lia).
  destruct (Z.leb_spec deadline v) as [Hl|Hl].
  - exists timer, i2, true. split; [done|]. split; [by eapply env_trans|]. intros _. split; [lia|done].
  - destruct (IH deadline deadline i2) as (timer' & i' & b & E & Hq' & Hb'); [lia|]. exists timer', i', b. split; [done|].
    split; [eapply env_trans; [|exact Hq']; by eapply env_trans|]. intros Hf. destruct (Hb' Hf). split; [done|lia].
Qed.

Section Polls.
Context (fuel : nat).

Lemma heartbeat_timer_ok deadline (s : t) (i : T) : (budget i < fuel)%nat ->
  exists sl i' b, poll_heartbeat_timer fuel deadline (s, i) = Done (set_heartbeat_sleep sl s, i') (Ok b) /\ quiet i i' /\
    (b = true -> deadline <= time i' /\ (budget i' < budget i)%nat).
Proof.
  intros Hn. unfold poll_heartbeat_timer, timer_poll.
  destruct (timer_loop_ok fuel (if deadline <? default deadline (heartbeat_sleep s) then deadline else default deadline (heartbeat_sleep s))
    deadline i Hn) as (timer' & i' & b & -> & Hq & Hb). by exists (Some timer'), i', b.
Qed.

Lemma set_sleep_self (s : t) : set_heartbeat_sleep (heartbeat_sleep s) s = s.
Proof. by destruct s. Qed.

Lemma closing_expired_ok (s : t) (i : T) : (budget i < fuel)%nat ->
  exists sl i' b, poll_closing_expired fuel (s, i) = Done (set_heartbeat_sleep sl s, i') (Ok b) /\ quiet i i' /\
    (closing_deadline s = None -> b = false) /\ (b = false -> forall d, closing_deadline s = Some d -> time i < d) /\
    (b = true -> exists d, closing_deadline s = Some d /\ d <= time i').
Proof.
  intros Hn. unfold poll_closing_expired. cbn [fst]. destruct (closing_deadline s) as [d|] eqn:E.
  - destruct (now_ms_ok s i) as (i1 & v & -> & Hq & Ht). destruct (Z.leb_spec d v) as [Hl|Hl].
    + exists (heartbeat_sleep s), i1, true. rewrite set_sleep_self. split_and!; try done. intros _. exists d. split; [done|lia].
    + destruct (heartbeat_timer_ok d s i1) as (sl & i2 & b & -> & Hq2 & Hb); [destruct Hq as (_ & _ & ?); lia|].
      exists sl, i2, b. split_and!; try done; [by eapply env_trans|intros _ d' [= <-]; lia|].
      intros Hf. exists d. split; [done|]. by destruct (Hb Hf).
  - exists (heartbeat_sleep s), i, false. rewrite set_sleep_self. split_and!; try done.
Qed.

Lemma write_out_ok half task (s : t) (i : T) : CorkSpec.wf (UnifiedOutput.write_buf (output s)) -> exists o hb i' r,
  poll_write_out half task (s, i) =
    Done (let s' := set_heartbeat hb (set_output o s) in match r with Ready (Err _) => close_terminal s' | _ => s' end, i') (Ok r) /\
  CorkSpec.wf (UnifiedOutput.write_buf o) /\ calmer (heartbeat s) hb /\ quiet i i'.
Proof.
  intros Hw. unfold poll_write_out. cbn [fst].
  assert (Hk : exists i1 key, pong_key (s, i) = ((s, i1), key) /\ quiet i i1).
  { unfold pong_key. cbn [fst]. destruct (UnifiedOutput.pending_pong (output s)); [apply draw_key_ok|exists i, []; split; [done|apply env_refl]]. }
  destruct Hk as (i1 & key & -> & Hq1). cbn [fst].
  assert (Ht : exists i2 now, flush_time (s, i1) = ((s, i2), now) /\ quiet i1 i2).
  { unfold flush_time. cbn [fst]. destruct (UnifiedOutput.ping_flush_pending (output s)); [|exists i1, 0; split; [done|apply env_refl]].
    destruct (now_ms_ok s i1) as (i2 & v & -> & Hq & _). by exists i2, v. }
  destruct Ht as (i2 & now & -> & Hq2).
  destruct (OutputSpec.poll_drain_ok (Protocol.encode_pong key (protocol s)) half task now (output s) i2 (heartbeat s) Hw)
    as ([[o i3] hb] & r & Ed & Hd).
  assert (Hq3 : quiet i2 i3).
  { unfold UnifiedOutput.poll_drain in Ed. destruct (UnifiedOutput.drain _ _ _ _) as [[[o' i'] hb'] [r'|e']| |] eqn:El; try done;
      simplify_eq; exact (loop_quiet _ _ (drain_step_env _ half now) _ _ _ El). }
  rewrite Ed. pose proof (drained_heartbeat _ _ _ _ _ Hd) as Hc. destruct Hd as [Hp _]. pose proof (OutputSpec.pr_wf _ _ _ _ Hp) as Hw'. cbn in Hc, Hw'.
  assert (Hq : quiet i i3) by (eapply env_trans; [|exact Hq3]; by eapply env_trans).
  destruct r as [[|[]]|e].
  - by exists o, hb, i3, Pending.
  - by exists o, hb, i3, (Ready (Ok tt)).
  - by exists o, hb, i3, (Ready (Err e)).
Qed.
End Polls.
(** *** Steps that leave most of the state alone *)

Lemma on_inbound_calmer hb now : calmer hb (fst (Heartbeat.on_inbound hb now None)).
Proof.
  unfold calmer, Heartbeat.on_inbound, pings. destruct (Heartbeat.stopped hb) eqn:Es; [cbn; by rewrite Es|].
  cbn. destruct (Heartbeat.outstanding hb) as [p|] eqn:Eo; cbn; [|by rewrite Es, Eo].
  rewrite bool_decide_eq_false_2 by done. cbn. by rewrite Es.
Qed.

Lemma on_inbound_stopped hb now pong : Heartbeat.stopped (fst (Heartbeat.on_inbound hb now pong)) = Heartbeat.stopped hb.
Proof. unfold Heartbeat.on_inbound. destruct (Heartbeat.stopped hb) eqn:Es; [done|]. by destruct (Heartbeat.outstanding _). Qed.

Lemma set_heartbeat_self (s : t) : set_heartbeat (heartbeat s) s = s.
Proof. by destruct s. Qed.

Lemma note_inbound_ok pong (s : t) (i : T) : exists hb i', note_inbound pong (s, i) = (set_heartbeat hb s, i') /\ quiet i i' /\
  Heartbeat.stopped hb = Heartbeat.stopped (heartbeat s) /\ (pong = None -> calmer (heartbeat s) hb).
Proof.
  unfold note_inbound. cbn [fst]. destruct (Heartbeat.tracks_inbound_activity _).
  - destruct (now_ms_ok s i) as (i' & v & -> & Hq & _). exists (fst (Heartbeat.on_inbound (heartbeat s) v pong)), i'.
    split; [done|]. split; [done|]. split; [apply on_inbound_stopped|]. intros ->. apply on_inbound_calmer.
  - exists (heartbeat s), i. rewrite set_heartbeat_self. split; [done|]. split; [apply env_refl|]. split; [done|]. intros _. apply calmer_refl.
Qed.

Lemma begin_closing_ok (s : t) (i : T) : exists sl d i', begin_closing (s, i) =
    (set_closing_deadline (Some d) (set_heartbeat_sleep sl (set_heartbeat (Heartbeat.stop (heartbeat s))
      (on_output (UnifiedOutput.set_pending_pong None) s))), i') /\ quiet i i' /\
  (forall d', closing_deadline s = Some d' -> d = d').
Proof.
  unfold begin_closing. cbn [fst on_stream]. change (closing_deadline _) with (closing_deadline s) at 1.
  destruct (closing_deadline s) as [d|] eqn:E.
  - exists (heartbeat_sleep s), d, i. split; [|split; [apply env_refl|by intros ? [= ->]]]. destruct s. cbn in *. by subst.
  - unfold on_stream at 1. cbn [fst snd].
    match goal with |- context [now_ms (?s', ?j)] => destruct (now_ms_ok s' j) as (i' & v & E' & Hq & _) end.
    exists None. eexists _, i'. split; [|by split; [exact Hq|]]. cbv [on_stream] in *. cbn [fst snd] in *. by rewrite E'.
Qed.

Lemma shutdown_ok half task (s : t) (i : T) : exists o st i' r, poll_transport_shutdown half task (s, i) =
    ((set_write_shutdown_state st (set_output o s), i'), r) /\ quiet i i' /\ UnifiedOutput.write_buf o = UnifiedOutput.write_buf (output s).
Proof.
  unfold poll_transport_shutdown. pose proof (poll_shutdown_quiet i) as Hq. destruct (WebSocket.poll_shutdown i) as [i' r]. cbn in Hq.
  exists (UnifiedOutput.poll_shutdown half task r (output s)).
  assert (Ho : UnifiedOutput.write_buf (UnifiedOutput.poll_shutdown half task r (output s)) = UnifiedOutput.write_buf (output s)).
  { unfold UnifiedOutput.poll_shutdown. destruct (OutputSpec.settle_output half r (UnifiedOutput.register half task (output s))) as [-> _].
    by destruct (OutputSpec.register_output half task (output s)) as [-> _]. }
  destruct r as [|[[]|e]]; eexists _, i', _; (split; [reflexivity|done]).
Qed.

(** The receiving side of the protocol does not depend on the close state. *)
Definition same_reader (p p' : Protocol.t) : Prop := forall max validate pol buf raw fr,
  ProtocolSpec.sim max validate pol p buf raw fr -> ProtocolSpec.sim max validate pol p' buf raw fr.

Lemma same_reader_refl p : same_reader p p.
Proof. by intros ? ? ? ? ? ? ?. Qed.

Lemma set_state_reader v p : same_reader p (Protocol.set_state v p).
Proof. intros max validate pol buf raw fr [? ? ? ? [? ? ? ?] ? ?]. by split. Qed.

Lemma encode_reader key p m b : same_reader p (fst (Protocol.encode_message_into key p m b)).
Proof. destruct m; cbn; try apply same_reader_refl. case_bool_decide; [apply set_state_reader|apply same_reader_refl]. Qed.

Lemma set_buffer_wf b (s : t) : CorkSpec.wf (UnifiedOutput.write_buf (output s)) ->
  CorkSpec.wf (UnifiedOutput.write_buf (output (set_buffer b s))).
Proof. intros [? ?]. by split. Qed.

Lemma encode_message_kept msg (s : t) (i : T) : exists p b i', encode_message msg (s, i) = Done (set_buffer b (set_protocol p s), i') (Ok tt) /\
  same_reader (protocol s) p /\ quiet i i'.
Proof.
  unfold encode_message. destruct (draw_key_ok s i) as (i' & key & -> & Hq). unfold Protocol.encode_message.
  pose proof (encode_reader key (protocol s) msg (buffer s)) as Hr.
  destruct (Protocol.encode_message_into key (protocol s) msg (buffer s)) as [p b]. by exists p, b, i'.
Qed.
(** ** The invariant *)

Section Delivery.
Context (leftover : bytes) (max : Z) (validate : bool) (pol : policy).
Abbreviation sim := (ProtocolSpec.sim max validate pol).
Abbreviation ref := (ref_run (ref_frame max validate) pol).

(** The messages of the reference receiver on what has been read and what may follow. *)
Definition all_messages (i : T) (more : bytes) : list Message.t := fst (ref None (leftover ++ taken i ++ more)).

(** Messages parsed and not yet returned; a turn may hold one more in a local variable. *)
Definition held (parsed : option Message.t) (s : t) : list Message.t :=
  option_list (pending_control_message s) ++ option_list parsed ++ option_list (pending_message s) ++ reverse (pending_ping_batch s).

Definition accounted (D : list Message.t) (parsed : option Message.t) (s : t) (i : T) : Prop :=
  match pending_parse_error s with
  | None => exists fr raw, sim (protocol s) (read_buf s) raw fr /\
      (if has_unprocessed_read_data s then raw = read_buf s /\ read_buf s <> [] else spec_parse pol raw = Need) /\
      forall more, bytes_ok more -> all_messages i more = D ++ held parsed s ++ fst (ref fr (raw ++ more))
  | Some _ => has_unprocessed_read_data s = false /\ forall more, bytes_ok more -> all_messages i more = D ++ held parsed s
  end.

(** Reading goes on. *)
Definition live (D : list Message.t) (parsed : option Message.t) (s : t) (i : T) : Prop :=
  close_after_flush s = false /\ pending_terminal_error s = None /\
  (forall m, pending_control_message s = Some m -> Message.is_close m = false /\ flush_on_read s = true) /\
  (has_unprocessed_read_data s = true -> pending_ping_batch s = []) /\
  (parsed <> None -> pending_control_message s = None /\ pending_message s = None /\ pending_ping_batch s = []) /\
  accounted D parsed s i.

Definition prefix_of_all (D : list Message.t) (i : T) : Prop :=
  forall more, bytes_ok more -> exists rest, all_messages i more = D ++ rest.

Definition accepted_close (s : t) : list Message.t :=
  match pending_control_message s with Some m => if Message.is_close m then [m] else [] | None => [] end.

(** A Close is to be flushed, and then the stream ends. *)
Definition ending (D : list Message.t) (s : t) (i : T) : Prop :=
  close_after_flush s = true /\ flush_on_read s = true /\ is_Some (closing_deadline s) /\ prefix_of_all (D ++ accepted_close s) i.

(** [d0]: the deadline of the closing handshake, if it was set before. *)
Context (d0 : option Z).
Definition common (s : t) : Prop :=
  CorkSpec.wf (UnifiedOutput.write_buf (output s)) /\ (is_Some (closing_deadline s) -> Heartbeat.stopped (heartbeat s) = true) /\
  (forall d, d0 = Some d -> closing_deadline s = Some d).

(** The heartbeat changes, and the queue may, but not whether the heartbeat runs. *)
Ltac keep_closing Hc E :=
  let H1 := fresh in let H2 := fresh in let Hd := fresh in
  destruct Hc as [_ [H1 H2]]; split; [intros Hd; etransitivity; [exact E|exact (H1 Hd)]|exact H2].

Definition inv (D : list Message.t) (parsed : option Message.t) (s : t) (i : T) : Prop :=
  common s /\ ((state s <> StreamState.Closed /\ (live D parsed s i \/ ending D s i)) \/
               (state s = StreamState.Closed /\ prefix_of_all D i)).

(** *** A poll that began at time [t0] *)

Context (fuel : nat) (t0 : Z).
Definition world_ok (i : T) : Prop := t0 <= time i /\ (budget i < fuel)%nat.

Definition returned (D : list Message.t) (w : W) (r : poll Item) : Prop :=
  match r with
  | Pending => inv D None (fst w) (snd w) /\ state (fst w) <> StreamState.Closed /\
      (closing_deadline (fst w) = None -> all_messages (snd w) [] = D) /\
      (forall d, closing_deadline (fst w) = Some d -> t0 < d)
  | Ready None | Ready (Some (Err _)) => inv D None (fst w) (snd w) /\ state (fst w) = StreamState.Closed
  | Ready (Some (Ok m)) => inv (D ++ [m]) None (fst w) (snd w) /\ (Message.is_close m = true -> state (fst w) = StreamState.Closed)
  end.

Definition nothing_held (parsed : option Message.t) (s : t) : bool :=
  bool_decide (parsed = None) && bool_decide (pending_message s = None) && bool_decide (pending_ping_batch s = []) &&
  bool_decide (pending_parse_error s = None).

(** How far a turn is from the end, the budget and the Pings aside. *)
Definition weight (p : pos) (s : t) : nat :=
  if close_after_flush s then 1
  else match p with
       | Reading => if has_unprocessed_read_data s then 5 else 4
       | Top _ parsed =>
           match pending_control_message s with
           | Some _ => 2
           | None => if nothing_held parsed s then 6 else 3
           end
       end.
Definition rank (p : pos) (s : t) (i : T) : nat := 10 * budget i + 10 * pings (heartbeat s) + weight p s.

Definition at_pos (D : list Message.t) (p : pos) (s : t) (i : T) : Prop :=
  world_ok i /\
  match p with
  | Top expired parsed => inv D parsed s i /\
      forall d, expired = Some d -> deadline_at d <= time i /\
        (Heartbeat.next_deadline (heartbeat s) = Some d \/ Heartbeat.next_hard_deadline (heartbeat s) = Some d)
  | Reading => common s /\ state s <> StreamState.Closed /\ live D None s i /\ pending_control_message s = None /\ nothing_held None s = true
  end.

(** A part of a turn that started with rank [R]; [P] holds where the next part begins. *)
Definition part_ok (D : list Message.t) (R : nat) (P : t -> T -> Prop) (m : comp (W (T := T)) (flow unit)) : Prop :=
  match m with
  | Done w (Ok (Return r)) => returned D w r
  | Done w (Ok (Continue p)) => at_pos D p (fst w) (snd w) /\ (rank p (fst w) (snd w) < R)%nat
  | Done w (Ok (Through _)) => P (fst w) (snd w)
  | _ => False
  end.

Lemma part_bind D R P Q m k : part_ok D R P m -> (forall s i, P s i -> part_ok D R Q (k (s, i))) -> part_ok D R Q (part m k).
Proof.
  intros Hm Hk. unfold part, run_bind. destruct m as [[s i] [[r|p|[]]|e]| |]; cbn in *; try done. by apply Hk.
Qed.

Lemma quiet_world i i' : quiet i i' -> world_ok i -> world_ok i'.
Proof. intros (_ & ? & ?) [? ?]. split; lia. Qed.

Lemma quiet_all i i' more : quiet i i' -> all_messages i' more = all_messages i more.
Proof. intros (E & _). unfold all_messages. by rewrite E. Qed.

Lemma quiet_accounted D parsed s i i' : quiet i i' -> accounted D parsed s i -> accounted D parsed s i'.
Proof.
  intros Hq. unfold accounted. destruct (pending_parse_error s).
  - intros [? Ha]. split; [done|]. intros more Hm. rewrite (quiet_all i i') by done. by apply Ha.
  - intros (fr & raw & Hs & Hu & Ha). exists fr, raw. split; [done|]. split; [done|]. intros more Hm. rewrite (quiet_all i i') by done. by apply Ha.
Qed.

Lemma quiet_live D parsed s i i' : quiet i i' -> live D parsed s i -> live D parsed s i'.
Proof. intros Hq (? & ? & ? & ? & ? & Ha). split_and!; try done. by eapply quiet_accounted. Qed.

Lemma quiet_prefix D i i' : quiet i i' -> prefix_of_all D i -> prefix_of_all D i'.
Proof. intros Hq Hp more Hm. rewrite (quiet_all i i') by done. by apply Hp. Qed.

Lemma quiet_ending D s i i' : quiet i i' -> ending D s i -> ending D s i'.
Proof. intros Hq (? & ? & ? & ?). split_and!; try done. by eapply quiet_prefix. Qed.

Lemma live_prefix D parsed s i : live D parsed s i -> prefix_of_all D i.
Proof.
  intros (_ & _ & _ & _ & _ & Ha) more Hm. unfold accounted in Ha. destruct (pending_parse_error s).
  - destruct Ha as [_ Ha]. eexists. by apply Ha.
  - destruct Ha as (fr & raw & _ & _ & Ha). eexists. by apply Ha.
Qed.

Lemma ending_prefix D s i : ending D s i -> prefix_of_all D i.
Proof. intros (_ & _ & _ & Hp) more Hm. destruct (Hp more Hm) as [rest ->]. rewrite <- app_assoc. by eexists. Qed.

(** *** Ends of a poll *)

Lemma finish_common fb s : common s -> common (fst (finish_read_close fb s)) /\ state (fst (finish_read_close fb s)) = StreamState.Closed.
Proof. intros (Hw & _ & Hd). unfold finish_read_close. destruct (write_shutdown_state s); cbn [fst]; (split; [split; [exact Hw|split; [done|exact Hd]]|done]). Qed.

Lemma terminal_common s : common s -> common (close_terminal s).
Proof. intros (Hw & _ & Hd). split; [exact Hw|]. split; [done|exact Hd]. Qed.

Lemma finished_read_ok D parsed fb R P s i : common s -> live D parsed s i \/ ending D s i -> part_ok D R P (finished_read fb (s, i)).
Proof.
  intros Hc0 Hl. unfold finished_read. cbn [fst snd]. destruct (finish_common fb s Hc0) as [Hc Hs].
  destruct (finish_read_close fb s) as [s' item] eqn:E. cbn [fst] in *.
  assert (Hp : prefix_of_all D i) by (destruct Hl; [by eapply live_prefix|by eapply ending_prefix]).
  assert (Hend : forall D', prefix_of_all D' i -> inv D' None s' i) by (intros D' HD; split; [done|by right]).
  cbn. destruct item as [[m|e]|]; cbn; [|by split; [apply Hend|]..]. split; [|done]. apply Hend.
  unfold finish_read_close in E. injection E as _ Hi. unfold or_else in Hi.
  destruct Hl as [(_ & Ht & Hctl & _)|(_ & _ & _ & Hpre)].
  - replace (pending_terminal_error _) with (pending_terminal_error s) in Hi by (by destruct (write_shutdown_state s)).
    replace (pending_control_message _) with (pending_control_message s) in Hi by (by destruct (write_shutdown_state s)).
    rewrite Ht in Hi. cbn in Hi. destruct (pending_control_message s) as [m'|]; [|by destruct fb].
    destruct (Hctl m' eq_refl) as [Hm _]. rewrite Hm in Hi. by destruct fb.
  - replace (pending_terminal_error _) with (pending_terminal_error s) in Hi by (by destruct (write_shutdown_state s)).
    replace (pending_control_message _) with (pending_control_message s) in Hi by (by destruct (write_shutdown_state s)).
    destruct (pending_terminal_error s); [done|]. cbn in Hi. unfold accepted_close in Hpre.
    destruct (pending_control_message s) as [m'|]; [|by destruct fb]. destruct (Message.is_close m'); [|by destruct fb].
    cbn in Hi. by simplify_eq.
Qed.

Lemma suspend_ok D parsed R P s i d : common s -> state s <> StreamState.Closed -> live D parsed s i \/ ending D s i ->
  closing_deadline s = Some d -> t0 < d -> part_ok D R P (suspend parsed (s, i)).
Proof.
  intros Hc Hs Hl Hd Ht. unfold suspend. destruct parsed as [m|]; cbn.
  - split; [|split; [done|by rewrite Hd; split; [|by intros ? [= <-]]]]. split; [done|]. left. split; [done|].
    destruct Hl as [(? & ? & ? & ? & Hpm & Ha)|He]; [left|by right]. destruct (Hpm ltac:(done)) as (_ & Hm & Hb).
    split_and!; try done. unfold accounted, held in *. cbn in *. by rewrite Hm in Ha.
  - split; [by split; [|left]|]. split; [done|]. rewrite Hd. split; [done|]. by intros ? [= <-].
Qed.

(** *** Flushing from the read side *)

Definition flushed_ok (D : list Message.t) (parsed : option Message.t) (R : nat) (s : t) (i : T) : Prop :=
  world_ok i /\ common s /\ state s <> StreamState.Closed /\ live D parsed s i /\ pending_control_message s = None /\
  (rank (Top None parsed) s i <= R)%nat.

Lemma weight_pos p s : (1 <= weight p s <= 6)%nat.
Proof. unfold weight. repeat case_match; lia. Qed.

Lemma rank_le p s i s' i' : quiet i i' -> (pings (heartbeat s') <= pings (heartbeat s))%nat -> (weight p s' <= weight p s)%nat ->
  (rank p s' i' <= rank p s i)%nat.
Proof. intros (_ & _ & ?). unfold rank. lia. Qed.

(** Spending budget or a Ping makes up for any change of place. *)
Lemma rank_spent p p' s i s' i' : (budget i' < budget i)%nat -> (pings (heartbeat s') <= pings (heartbeat s))%nat -> (rank p' s' i' < rank p s i)%nat.
Proof. intros. unfold rank. pose proof (weight_pos p s). pose proof (weight_pos p' s'). lia. Qed.

(** Where the reading side stands. *)
Definition reader_of (s : t) := (protocol s, read_buf s, has_unprocessed_read_data s, pending_parse_error s).

(** What is held loses its head to what has been delivered, or is only rearranged. *)
Lemma accounted_move D D' parsed parsed' s s' i : accounted D parsed s i -> reader_of s' = reader_of s ->
  D' ++ held parsed' s' = D ++ held parsed s -> accounted D' parsed' s' i.
Proof.
  unfold accounted, reader_of. intros Ha [= -> -> -> ->] Eh. destruct (pending_parse_error s).
  - destruct Ha as [? Ha]. split; [done|]. intros more Hm. by rewrite Ha, Eh.
  - destruct Ha as (fr & raw & Hs & Hu & Ha). exists fr, raw. split; [done|]. split; [done|]. intros more Hm.
    by rewrite Ha, !app_assoc, Eh.
Qed.

Lemma control_returned D R P parsed msg s i : common s -> state s <> StreamState.Closed -> live D parsed s i ->
  pending_control_message s = Some msg ->
  part_ok D R P (Done (set_pending_control_message None s, i) (Ok (Return (Ready (Some (Ok msg)))))).
Proof.
  intros Hc Hs (Hcaf & Hterm & Hctl & Hunp & Hpar & Ha) Em. destruct (Hctl msg Em) as [Hm _]. cbn. split; [|by rewrite Hm].
  assert (Hn : parsed = None) by (destruct parsed; [|done]; destruct (Hpar ltac:(done)) as [? _]; congruence). subst parsed.
  split; [done|]. left. split; [done|]. left. split_and!; try done.
  eapply accounted_move; [exact Ha|done|]. unfold held. cbn. by rewrite Em, <- app_assoc.
Qed.

Lemma deliver_control_ok D R parsed s i : world_ok i -> common s -> state s <> StreamState.Closed -> live D parsed s i ->
  (rank (Top None parsed) s i <= R)%nat -> part_ok D R (flushed_ok D parsed R) (deliver_control (s, i)).
Proof.
  intros Hw Hc Hs Hl HR. unfold deliver_control. cbn [fst]. destruct (pending_control_message s) as [msg|] eqn:Em; [|done].
  by eapply control_returned.
Qed.

Lemma flush_done_ok D R parsed s i : world_ok i -> common s -> state s <> StreamState.Closed -> live D parsed s i \/ ending D s i ->
  (rank (Top None parsed) s i <= R)%nat -> part_ok D R (flushed_ok D parsed R) (flush_done (s, i)).
Proof.
  intros Hw Hc Hs Hl HR. unfold flush_done. cbn [fst]. destruct (close_after_flush s) eqn:Ecaf; [by eapply finished_read_ok|].
  destruct Hl as [(? & ? & Hctl & ? & Hpar & Ha)|(? & _)]; [|congruence]. unfold deliver_control. cbn [fst snd on_stream].
  change (pending_control_message (set_flush_on_read false s)) with (pending_control_message s).
  destruct (pending_control_message s) as [msg|] eqn:Em.
  - destruct (Hctl msg eq_refl) as [Hm _].
    assert (Hn : parsed = None) by (destruct parsed; [|done]; by destruct (Hpar ltac:(done))). subst parsed. cbn.
    split; [|by rewrite Hm]. split; [done|]. left. split; [done|]. left. split_and!; try done.
    eapply accounted_move; [exact Ha|done|]. unfold held. cbn. by rewrite Em, <- app_assoc.
  - cbn. split_and!; try done. unfold live. cbn. rewrite Em. by split_and!.
Qed.

Lemma after_flush_ok task D R parsed s i : world_ok i -> common s -> state s <> StreamState.Closed -> live D parsed s i \/ ending D s i ->
  (rank (Top None parsed) s i <= R)%nat -> part_ok D R (flushed_ok D parsed R) (after_flush fuel task parsed (s, i)).
Proof.
  intros Hw Hc Hs Hl HR. unfold after_flush. cbn [fst].
  destruct (_ && _) eqn:Eb; [|by apply flush_done_ok].
  apply andb_prop in Eb as [Ecaf _]. destruct Hl as [(? & _)|He]; [congruence|].
  destruct (shutdown_ok Stream task s i) as (o & st & i' & r & -> & Hq & Ho).
  assert (Hc' : common (set_write_shutdown_state st (set_output o s))) by (destruct Hc; split; [cbn; by rewrite Ho|done]).
  destruct r as [|r].
  - destruct (closing_expired_ok fuel (set_write_shutdown_state st (set_output o s)) i') as (sl & i2 & b & -> & Hq2 & _ & Hf & _);
      [by apply (quiet_world _ _ Hq) in Hw as [_ ?]|]. cbn [run_bind].
    assert (He2 : ending D s i2) by (eapply quiet_ending; [exact Hq2|]; by eapply quiet_ending).
    destruct b; [apply (finished_read_ok D parsed); [exact Hc'|right; exact He2]|].
    destruct He as (? & ? & [d Hd] & ?). eapply suspend_ok; [exact Hc'|exact Hs|right; exact He2|exact Hd|].
    apply (quiet_world _ _ Hq) in Hw as [? ?]. specialize (Hf eq_refl d Hd). lia.
  - apply flush_done_ok; [by eapply quiet_world|exact Hc'|exact Hs|right; exact (quiet_ending _ _ _ _ Hq He)|].
    etrans; [|exact HR]. apply rank_le; [done|reflexivity|]. unfold weight. cbn. by rewrite Ecaf.
Qed.

Lemma flush_blocked_ok D R parsed s i : world_ok i -> common s -> state s <> StreamState.Closed -> live D parsed s i \/ ending D s i ->
  (rank (Top None parsed) s i <= R)%nat -> part_ok D R (flushed_ok D parsed R) (flush_blocked fuel parsed (s, i)).
Proof.
  intros Hw Hc Hs Hl HR. unfold flush_blocked.
  destruct (closing_expired_ok fuel s i) as (sl & i2 & b & -> & Hq2 & _ & Hf & _); [by apply Hw|]. cbn [run_bind fst].
  assert (Hl2 : live D parsed s i2 \/ ending D s i2) by (destruct Hl; [left; by eapply quiet_live|right; by eapply quiet_ending]).
  assert (Hw2 : world_ok i2) by (by eapply quiet_world).
  destruct b; [apply (finished_read_ok D parsed); [exact Hc|exact Hl2]|]. specialize (Hf eq_refl).
  assert (Hkeep : forall sl' i3, quiet i2 i3 -> part_ok D R (flushed_ok D parsed R) (keep_reading parsed (set_heartbeat_sleep sl' s, i3))).
  { intros sl' i3 Hq3. unfold keep_reading. cbn [fst]. change (closing_deadline (set_heartbeat_sleep sl' s)) with (closing_deadline s).
    assert (Hl3 : live D parsed s i3 \/ ending D s i3) by (destruct Hl2; [left; by eapply quiet_live|right; by eapply quiet_ending]).
    case_bool_decide as Hd.
    - destruct Hd as [d Hd]. eapply suspend_ok; [exact Hc|exact Hs|exact Hl3|exact Hd|]. destruct Hw as [? _]. specialize (Hf d Hd). lia.
    - destruct Hl3 as [Hl3|(_ & _ & ? & _)]; [|done].
      apply deliver_control_ok; [by eapply quiet_world|exact Hc|exact Hs|exact Hl3|]. etrans; [|exact HR]. apply rank_le; [by eapply env_trans|reflexivity|reflexivity]. }
  change (heartbeat (set_heartbeat_sleep sl s)) with (heartbeat s).
  destruct (Heartbeat.next_hard_deadline (heartbeat s)) as [d|] eqn:Ed; [|apply Hkeep, env_refl].
  destruct (heartbeat_timer_ok fuel (deadline_at d) (set_heartbeat_sleep sl s) i2) as (sl' & i3 & b & -> & Hq3 & Hb); [by apply Hw2|]. cbn [run_bind].
  destruct b; [|by apply Hkeep]. destruct (Hb eq_refl) as [Ht Hlt]. cbn [part_ok fst snd]. split; [split; [by eapply quiet_world|]|].
  - split.
    + split; [exact Hc|]. left. split; [exact Hs|]. destruct Hl2 as [Hl2|Hl2]; [left; exact (quiet_live _ _ _ _ _ Hq3 Hl2)|right; exact (quiet_ending _ _ _ _ Hq3 Hl2)].
    + intros d' [= <-]. split; [exact Ht|]. right. exact Ed.
  - eapply Nat.lt_le_trans; [|exact HR]. apply rank_spent; [|reflexivity]. destruct Hq2 as (_ & _ & ?). lia.
Qed.

Lemma hard_deadline_kind hb at_ms : Heartbeat.next_hard_deadline hb <> Some (DPing at_ms).
Proof. unfold Heartbeat.next_hard_deadline. repeat case_match; done. Qed.

Lemma deadline_running hb d : Heartbeat.next_deadline hb = Some d \/ Heartbeat.next_hard_deadline hb = Some d -> Heartbeat.stopped hb = false.
Proof. unfold Heartbeat.next_deadline, Heartbeat.next_hard_deadline. destruct (Heartbeat.stopped hb); [|done]. by intros [|]. Qed.

Definition expired_ok (expired : option Deadline) (s : t) (i : T) : Prop := forall d, expired = Some d -> deadline_at d <= time i /\
  (Heartbeat.next_deadline (heartbeat s) = Some d \/ Heartbeat.next_hard_deadline (heartbeat s) = Some d).

(** Between the parts of a turn. *)
Definition between (D : list Message.t) (expired : option Deadline) (parsed : option Message.t) (R : nat) (s : t) (i : T) : Prop :=
  world_ok i /\ common s /\ state s <> StreamState.Closed /\ live D parsed s i /\
  (expired = None -> pending_control_message s = None) /\ expired_ok expired s i /\ (rank (Top None parsed) s i <= R)%nat.

Lemma flush_part_ok task D expired parsed s i : at_pos D (Top expired parsed) s i -> state s <> StreamState.Closed ->
  let R := rank (Top expired parsed) s i in part_ok D R (between D expired parsed R) (flush_part fuel task expired parsed (s, i)).
Proof.
  intros (Hw & (Hc & Hl) & He) Hs R. destruct Hl as [[_ Hl]|[? _]]; [|done]. unfold flush_part. cbn [fst].
  assert (Hexp : forall d, expired = Some d -> live D parsed s i).
  { intros d Ed. destruct Hl as [|(_ & _ & Hd & _)]; [done|]. exfalso. destruct (He d Ed) as [_ Hn%deadline_running].
    destruct Hc as (_ & Hst & _). rewrite Hst in Hn by done. done. }
  destruct (flush_on_read s) eqn:Ef; [case_bool_decide as Hx|]; cbn [andb].
  - subst expired. destruct (write_out_ok Stream task s i (proj1 Hc)) as (o & hb & i' & r & -> & Hwf & [Hst Hpi] & Hq).
    set (s1 := set_heartbeat hb (set_output o s)). cbn [run_bind].
    assert (Hc1 : common s1) by (split; [exact Hwf|keep_closing Hc Hst]).
    assert (Hl1 : live D parsed s1 i' \/ ending D s1 i')
      by (destruct Hl as [Hl|Hl]; [left; exact (quiet_live _ _ _ _ _ Hq Hl)|right; exact (quiet_ending _ _ _ _ Hq Hl)]).
    assert (HR : (rank (Top None parsed) s1 i' <= R)%nat) by (apply rank_le; [done|exact Hpi|reflexivity]).
    assert (Himp : forall m, part_ok D R (flushed_ok D parsed R) m -> part_ok D R (between D None parsed R) m).
    { intros [w [[]|]| |]; try done. cbn. intros (? & ? & ? & ? & ? & ?). split_and!; try done. }
    apply (quiet_world _ _ Hq) in Hw. destruct r as [|[[]|e]].
    + apply Himp, flush_blocked_ok; done.
    + apply Himp, after_flush_ok; done.
    + apply (finished_read_ok D parsed); [exact (terminal_common s1 Hc1)|exact Hl1].
  - cbn. destruct expired as [d|]; [|done]. split_and!; try done. by eapply Hexp.
  - cbn. destruct Hl as [Hl|(_ & ? & _)]; [|congruence]. split_and!; try done. intros _.
    destruct Hl as (_ & _ & Hctl & _). destruct (pending_control_message s) as [m|] eqn:Em; [|done]. destruct (Hctl m eq_refl). congruence.
Qed.

Lemma error_part_ok D expired parsed R s i : between D expired parsed R s i ->
  part_ok D R (fun s i => between D expired parsed R s i /\
    (parsed = None -> pending_message s = None -> pending_ping_batch s = [] -> pending_parse_error s = None)) (error_part parsed (s, i)).
Proof.
  intros Hb. pose proof Hb as (Hw & Hc & Hs & Hl & _). unfold error_part. cbn [fst snd].
  destruct (_ && _) eqn:E.
  - destruct (pending_parse_error s) as [e|] eqn:Ee; [|done]. cbn. split; [|done].
    split; [split; [split; [done|constructor]|split; [done|exact (proj2 (proj2 Hc))]]|]. right. split; [done|]. by eapply live_prefix.
  - cbn. split; [done|]. intros -> Hm Hba. by rewrite Hm, Hba in E.
Qed.

(** *** Deadlines *)

Lemma ping_deadline_facts hb at_ms : Heartbeat.next_deadline hb = Some (DPing at_ms) ->
  Heartbeat.stopped hb = false /\ Heartbeat.outstanding hb = None.
Proof.
  unfold Heartbeat.next_deadline, Heartbeat.next_hard_deadline. destruct (Heartbeat.stopped hb); [done|]. intros E. split; [done|].
  destruct (Heartbeat.outstanding hb) as [p|]; [|done]. exfalso. rewrite andb_false_r in E. revert E. cbn. repeat case_match; done.
Qed.

Definition timed_out (D : list Message.t) (parsed : option Message.t) (R : nat) (m : comp (W (T := T)) (option Error)) : Prop :=
  match m with
  | Done w (Ok None) => world_ok (snd w) /\ inv D parsed (fst w) (snd w) /\ (rank (Top None parsed) (fst w) (snd w) < R)%nat
  | _ => False
  end.

Lemma timeout_close_ok code reason error D parsed R s i : world_ok i -> common s -> state s <> StreamState.Closed -> live D parsed s i ->
  (rank (Top None parsed) s i <= R)%nat -> timed_out D parsed R (timeout_close code reason error (s, i)).
Proof.
  intros Hw Hc Hs Hl HR. unfold timeout_close.
  destruct (encode_message_kept (Message.Close (Some (CloseReason.new code reason))) s i) as (p & b & i1 & -> & _ & Hq1).
  set (s1 := set_buffer b (set_protocol p s)). destruct (begin_closing_ok s1 i1) as (sl & d & i2 & -> & Hq2 & Hd).
  assert (Hq : quiet i i2) by (by eapply env_trans). cbn [timed_out on_stream fst snd].
  split; [by eapply quiet_world|]. split.
  - split; [split; [exact (set_buffer_wf b _ (proj1 Hc))|split; [done|intros d' E; by rewrite (Hd d' (proj2 (proj2 Hc) d' E))]]|].
    left. split; [done|]. right. split_and!; try done.
    intros more Hm. destruct (live_prefix _ _ _ _ Hl more Hm) as [rest Er]. exists rest. rewrite (quiet_all i i2), Er by done.
    f_equal. destruct Hl as (_ & _ & Hctl & _). unfold accepted_close. change (pending_control_message _) with (pending_control_message s).
    destruct (pending_control_message s) as [m|]; [|by rewrite app_nil_r]. destruct (Hctl m eq_refl) as [-> _]. by rewrite app_nil_r.
  - eapply Nat.lt_le_trans; [|exact HR]. destruct Hq as (_ & _ & Hb). unfold rank. change (weight _ _) with 1%nat at 1.
    change (pings _) with 0%nat at 1. assert (1 < weight (Top None parsed) s)%nat; [|lia].
    destruct Hl as (Hcaf & _). unfold weight. rewrite Hcaf. repeat case_match; lia.
Qed.

Lemma ping_part_ok now D parsed R s i at_ms : world_ok i -> common s -> state s <> StreamState.Closed -> live D parsed s i ->
  Heartbeat.next_deadline (heartbeat s) = Some (DPing at_ms) -> at_ms <= now ->
  (rank (Top None parsed) s i <= R)%nat -> timed_out D parsed R (ping_part now (s, i)).
Proof.
  intros Hw Hc Hs Hl Hd Ht HR. unfold ping_part. pose proof (draw_nonce_quiet i) as Hq0. destruct (draw_nonce i) as [i1 nonce]. cbn [fst] in Hq0.
  destruct (ping_deadline_facts _ _ Hd) as [Hst Hout]. unfold Heartbeat.ping_due. rewrite Hd. rewrite (proj2 (Z.leb_le _ _) Ht).
  set (hb := Heartbeat.set_outstanding _ _).
  destruct (encode_message_kept (Message.Ping (to_be_bytes 8 nonce)) (set_heartbeat hb s) i1) as (p & b & i2 & -> & Hp & Hq1).
  assert (Hq : quiet i i2) by (by eapply env_trans). cbn [timed_out on_stream fst snd].
  split; [by eapply quiet_world|]. split.
  - split; [split; [exact (set_buffer_wf b _ (proj1 Hc))|exact (proj2 Hc)]|]. left. split; [exact Hs|]. left.
    destruct Hl as (? & ? & Hctl & ? & ? & Ha). split_and!; try done.
    + intros m Hm. split; [exact (proj1 (Hctl m Hm))|done].
    + eapply quiet_accounted; [exact Hq|]. unfold accounted in *. change (protocol _) with p at 1.
      change (pending_parse_error _) with (pending_parse_error s) at 1. destruct (pending_parse_error s); [done|].
      destruct Ha as (fr & raw & Hsim & Ha). exists fr, raw. split; [by apply Hp|exact Ha].
  - eapply Nat.lt_le_trans; [|exact HR]. destruct Hq as (_ & _ & Hb). unfold rank. pose proof (weight_pos (Top None parsed) s).
    change (heartbeat (set_flush_on_read true _)) with hb.
    assert (Ep : pings hb = 0%nat) by (unfold pings, hb; cbn; by rewrite Hst).
    assert (Ep0 : pings (heartbeat s) = 1%nat) by (unfold pings; by rewrite Hst, Hout). rewrite Ep, Ep0.
    match goal with |- context [weight ?p ?x] => pose proof (weight_pos p x) end. lia.
Qed.

Definition errors_last (parsed : option Message.t) (s : t) : Prop :=
  parsed = None -> pending_message s = None -> pending_ping_batch s = [] -> pending_parse_error s = None.

Lemma deadline_part_ok D expired parsed R s i : between D expired parsed R s i -> errors_last parsed s ->
  part_ok D R (fun s i => between D None parsed R s i /\ errors_last parsed s) (deadline_part expired parsed (s, i)).
Proof.
  intros (Hw & Hc & Hs & Hl & Hctl & Hx & HR) Herr. unfold deadline_part. cbn [fst].
  set (next := if bool_decide (pending_parse_error s = None) then _ else None).
  destruct (or_else expired next) as [d|] eqn:Ed.
  - assert (Hd : Heartbeat.next_deadline (heartbeat s) = Some d \/ Heartbeat.next_hard_deadline (heartbeat s) = Some d).
    { destruct expired as [d'|]; cbn in Ed; [injection Ed as ->; by apply Hx|]. subst next. case_bool_decide; [by left|done]. }
    destruct (now_ms_ok s i) as (i1 & now & -> & Hq & Ht). cbn [fst].
    assert (Hl1 : live D parsed s i1) by (by eapply quiet_live).
    assert (Hw1 : world_ok i1) by (by eapply quiet_world).
    assert (HR1 : (rank (Top None parsed) s i1 <= R)%nat) by (etrans; [|exact HR]; by apply rank_le).
    destruct (Z.leb_spec (deadline_at d) now) as [Hle|Hlt].
    + match goal with |- part_ok _ _ _ (run_bind ?m _ _) => assert (Hto : timed_out D parsed R m) end.
      { destruct d as [at_ms|at_ms|at_ms]; cbn in Hle; [by apply timeout_close_ok..|].
        destruct Hd as [Hd|Hd]; [|by apply hard_deadline_kind in Hd]. by eapply ping_part_ok. }
      match type of Hto with timed_out _ _ _ ?m => destruct m as [[s2 i2] [[e|]|e]| |] end; try done.
      destruct Hto as (Hw2 & Hi2 & Hr2). cbn [run_bind part_ok fst snd on_stream]. cbn [fst snd] in Hw2, Hi2, Hr2. split; [|exact Hr2].
      split; [exact Hw2|]. split; [exact Hi2|]. by intros ? [=].
    + destruct expired as [d'|]; cbn in Ed; [injection Ed as ->; destruct (Hx d eq_refl); lia|].
      cbn [part_ok fst snd]. split; [|exact Herr]. split_and!; try done.
  - destruct expired as [d'|]; [done|]. cbn. by split.
Qed.

(** *** Messages *)

(** The turn holds [m], which is the next message. *)
Definition carrying (D : list Message.t) (m : Message.t) (s : t) (i : T) : Prop :=
  close_after_flush s = false /\ pending_terminal_error s = None /\ pending_control_message s = None /\
  (has_unprocessed_read_data s = true -> pending_ping_batch s = []) /\ accounted D (Some m) s i.

Lemma quiet_carrying D m s i i' : quiet i i' -> carrying D m s i -> carrying D m s i'.
Proof. intros Hq (? & ? & ? & ? & Ha). split_and!; try done. by eapply quiet_accounted. Qed.

Lemma carried_returned D R P m s i : common s -> state s <> StreamState.Closed -> carrying D m s i -> Message.is_close m = false ->
  part_ok D R P (Done (s, i) (Ok (Return (Ready (Some (Ok m)))))).
Proof.
  intros Hc Hs (Hcaf & Hterm & Hctl & Hunp & Ha) Hm. cbn. split; [|by rewrite Hm]. split; [done|]. left. split; [done|]. left.
  split_and!; try done; [by rewrite Hctl|]. eapply accounted_move; [exact Ha|done|]. unfold held. by rewrite Hctl, <- app_assoc.
Qed.

(** A kept error changes the state and nothing else. *)
Lemma keep_parse_error_fields e s : let s' := keep_parse_error e s in
  pending_parse_error s' = Some e /\ has_unprocessed_read_data s' = has_unprocessed_read_data s /\
  close_after_flush s' = close_after_flush s /\ pending_terminal_error s' = pending_terminal_error s /\
  pending_control_message s' = pending_control_message s /\ pending_message s' = pending_message s /\
  pending_ping_batch s' = pending_ping_batch s /\ heartbeat s' = heartbeat s /\ flush_on_read s' = flush_on_read s.
Proof. unfold keep_parse_error. by case_bool_decide. Qed.

Lemma keep_parse_error_common e s : common s -> state s <> StreamState.Closed ->
  common (keep_parse_error e s) /\ state (keep_parse_error e s) <> StreamState.Closed.
Proof. intros Hc Hs. unfold keep_parse_error. case_bool_decide; (split; [exact Hc|done]). Qed.

Lemma process_buffered_ok D m s i : common s -> state s <> StreamState.Closed -> carrying D m s i -> has_unprocessed_read_data s = true ->
  exists s' i', process_buffered_after_ping arch slice_addr (s, i) = Done (s', i') (Ok tt) /\ quiet i i' /\ carrying D m s' i' /\
    common s' /\ state s' <> StreamState.Closed /\ calmer (heartbeat s) (heartbeat s').
Proof.
  intros Hc Hs (Hcaf & Hterm & Hctl & Hunp & Ha) Hu. unfold process_buffered_after_ping. rewrite (Hunp Hu), Hu. cbn [assert_or_panic andb bool_decide].
  rewrite bool_decide_eq_true_2 by done. cbn [andb assert_or_panic].
  unfold accounted in Ha. rewrite Hu in Ha. destruct (pending_parse_error s) eqn:Ep; [by destruct Ha|].
  destruct Ha as (fr & raw & Hsim & [-> Hne] & Ha).
  pose proof (batch_post arch slice_addr Harch max validate pol _ _ _ Hsim (v_raw _ _ _ (s_views _ _ _ _ _ _ _ Hsim))) as Hb.
  destruct (Protocol.process_into_with_activity _ _ _ _) as [[[[p buf] ms] accepted] r| |]; [|by destruct Hb..].
  set (s1 := set_pending_ping_batch ms (set_read_buf buf (set_protocol p s))).
  assert (Hn : exists hb i', (if accepted then note_inbound None (s1, i) else (s1, i)) = (set_heartbeat hb s1, i') /\ quiet i i' /\ calmer (heartbeat s) hb).
  { destruct accepted; [destruct (note_inbound_ok None s1 i) as (hb & i' & -> & Hq & _ & Hcal); by exists hb, i'; split_and!; auto|].
    exists (heartbeat s), i. split; [by rewrite <- (set_heartbeat_self s1)|]. split; [apply env_refl|apply calmer_refl]. }
  destruct Hn as (hb & i' & -> & Hq & Hcal).
  assert (Hheld : forall s', pending_control_message s' = None -> pending_message s' = pending_message s -> pending_ping_batch s' = reverse ms ->
    held (Some m) s' = held (Some m) s ++ ms).
  { intros s' E1 E2 E3. unfold held. rewrite E1, E2, E3, Hctl, (Hunp Hu), reverse_involutive. cbn. by rewrite app_nil_r. }
  destruct r as [[]|e]; cbn [on_stream fst snd]; eexists _, i'; (split; [reflexivity|]); (split; [exact Hq|]).
  - destruct Hb as (fr' & raw' & news & Hms & Hsim' & Hneed & Hr). rewrite list_fmap_id in Hms. cbn in Hms. subst news.
    split; [|split; [split; [exact (proj1 Hc)|keep_closing Hc (proj1 Hcal)]|by split]].
    split_and!; try done. unfold accounted. change (pending_parse_error _) with (pending_parse_error s). rewrite Ep. cbn [has_unprocessed_read_data].
    exists fr', raw'. split; [exact Hsim'|]. split; [exact Hneed|]. intros more Hm.
    rewrite (quiet_all i i'), Ha by done. rewrite Hr by done. cbn [after fst]. rewrite (Hheld (set_pending_ping_batch _ _)) by done. by rewrite !app_assoc.
  - destruct Hb as (news & Hms & Hr & _). rewrite list_fmap_id in Hms. cbn in Hms. subst news.
    match goal with |- context [keep_parse_error e ?x] => destruct (keep_parse_error_fields e x) as (P1 & P2 & P3 & P4 & P5 & P6 & P7 & P8 & _);
      destruct (keep_parse_error_common e x) as [Hk1 Hk2] end;
      [split; [exact (proj1 Hc)|keep_closing Hc (proj1 Hcal)]|exact Hs|].
    rewrite P8. split; [|by split].
    unfold carrying, accounted. rewrite P1, P2, P3, P4, P5. split_and!; try done. intros more Hm.
    rewrite (quiet_all i i'), Ha by done. rewrite Hr by done. rewrite (Hheld (keep_parse_error e _)); [done|by rewrite P5|by rewrite P6|by rewrite P7].
Qed.

Lemma handle_ping_ok D R P m data s i : world_ok i -> common s -> state s <> StreamState.Closed -> carrying D m s i ->
  Message.is_close m = false -> (10 * budget i + 10 * pings (heartbeat s) + 3 <= R)%nat ->
  part_ok D R P (handle_ping arch slice_addr fuel m data (s, i)).
Proof.
  intros Hw Hc Hs Hm Hnc HR. unfold handle_ping. cbn [fst].
  match goal with |- part_ok _ _ _ (run_bind ?b _ _) => assert (Hp : exists s' i', b = Done (s', i') (Ok tt) /\
    quiet i i' /\ carrying D m s' i' /\ common s' /\ state s' <> StreamState.Closed /\ calmer (heartbeat s) (heartbeat s')) end.
  { destruct (has_unprocessed_read_data s) eqn:Eu; [by apply process_buffered_ok|].
    exists s, i. split; [done|]. split; [apply env_refl|]. split_and!; try done. }
  destruct Hp as (s1 & i1 & -> & Hq & Hm1 & Hc1 & Hs1 & [_ Hcal]). cbn [run_bind fst snd].
  destruct (WriteShutdownState.is_complete _); [by apply carried_returned|].
  assert (Hw1 : world_ok i1) by (by eapply quiet_world).
  destruct (closing_expired_ok fuel s1 i1) as (sl & i2 & b & -> & Hq2 & _); [by apply Hw1|]. cbn [run_bind fst].
  pose proof (quiet_carrying _ _ _ _ _ Hq2 Hm1) as Hm2.
  destruct (b || _); [apply carried_returned; [exact Hc1|exact Hs1|exact Hm2|done]|]. cbn [part_ok on_stream fst snd].
  destruct Hm2 as (Hcaf & Hterm & Hctl & Hunp & Ha). split; [split; [by eapply quiet_world|split; [split; [exact Hc1|]|by intros ? [=]]]|].
  - left. split; [exact Hs1|]. left. split_and!; try done; [by intros ? [= <-]|].
    eapply accounted_move; [exact Ha|done|]. unfold held. by rewrite Hctl.
  - destruct Hq as (_ & _ & ?), Hq2 as (_ & _ & ?). eapply Nat.lt_le_trans; [|exact HR]. unfold rank.
    match goal with |- context [weight (Top None None) ?x] => assert (weight (Top None None) x = 2)%nat as -> end.
    { unfold weight. change (close_after_flush _) with (close_after_flush s1). by rewrite Hcaf. }
    change (pings _) with (pings (heartbeat s1)) at 1. lia.
Qed.

Lemma handle_close_ok D R P reason s i : world_ok i -> common s -> state s <> StreamState.Closed -> carrying D (Message.Close reason) s i ->
  (10 * budget i + 10 * pings (heartbeat s) + 3 <= R)%nat -> part_ok D R P (handle_close reason (s, i)).
Proof.
  intros Hw Hc Hs Hm HR. unfold handle_close. destruct (begin_closing_ok s i) as (sl & d & i1 & -> & Hq1 & Hd).
  set (s1 := set_closing_deadline _ _). cbn [on_stream fst snd].
  set (s2 := set_read_buf [] _).
  set (w3 := match state s2 with StreamState.Open => _ | _ => _ end).
  assert (Hw3 : exists p b i2, (w3 = (s2, i2) \/ w3 = (set_buffer b (set_protocol p s2), i2)) /\ quiet i1 i2).
  { assert (Hresp : exists p b i2, (let '(w, key) := draw_key (s2, i1) in let '(s, inner) := w in
      let '(p, b) := Protocol.encode_close_response key (protocol s) (buffer s) in (set_buffer b (set_protocol p s), inner)) = (set_buffer b (set_protocol p s2), i2) /\ quiet i1 i2).
    { destruct (draw_key_ok s2 i1) as (i2 & key & -> & Hq2). destruct (Protocol.encode_close_response _ _ _) as [p b]. by exists p, b, i2. }
    destruct Hresp as (p & b & i2 & E & Hq2). unfold w3. destruct (state s2).
    all: first [exists p, b, i2; split; [by right|done] | exists (protocol s2), [], i1; split; [by left|apply env_refl]]. }
  destruct Hw3 as (p & b & i2 & Hw3 & Hq2). clearbody w3.
  assert (Hq : quiet i i2) by (by eapply env_trans).
  assert (Hpre : prefix_of_all (D ++ [Message.Close reason]) i2).
  { destruct Hm as (_ & _ & Hctl & _ & Ha). eapply quiet_prefix; [exact Hq|]. intros more Hmo. unfold accounted, held in Ha. rewrite Hctl in Ha.
    destruct (pending_parse_error s); [destruct Ha as [_ Ha]|destruct Ha as (fr & raw & _ & _ & Ha)]; rewrite Ha by done; eexists; rewrite <- !app_assoc; done. }
  assert (Hgoal : forall s3, CorkSpec.wf (UnifiedOutput.write_buf (output s3)) -> state s3 <> StreamState.Closed -> closing_deadline s3 = Some d ->
    heartbeat s3 = Heartbeat.stop (heartbeat s) ->
    part_ok D R P (Done (set_close_after_flush true (set_flush_on_read true (set_pending_control_message (Some (Message.Close reason)) s3)), i2)
      (Ok (Continue (Top None None))))).
  { intros s3 Hwf3 Hs3 Hd3 Hh3. cbn [part_ok fst snd]. split; [split; [by eapply quiet_world|split; [split; [split; [exact Hwf3|]|]|by intros ? [=]]]|].
    - split; [intros _; change (Heartbeat.stopped (heartbeat s3) = true); by rewrite Hh3|].
      intros d' E. change (closing_deadline s3 = Some d'). rewrite Hd3. f_equal. apply Hd. by apply (proj2 (proj2 Hc)).
    - left. split; [exact Hs3|]. right. split_and!; try done.
    - destruct Hq as (_ & _ & ?). unfold rank. change (weight _ _) with 1%nat. change (heartbeat _) with (heartbeat s3) at 1. rewrite Hh3.
      change (pings _) with 0%nat at 1. lia. }
  destruct Hw3 as [->| ->]; apply Hgoal; try done; [exact (proj1 Hc)|exact (set_buffer_wf b _ (proj1 Hc))].
Qed.

Lemma next_pending_ok D s i : live D None s i -> pending_control_message s = None ->
  match next_pending_message s with
  | (s', Some m) => carrying D m s' i /\ (common s -> common s') /\ state s' = state s /\ heartbeat s' = heartbeat s /\ nothing_held None s = false
  | (s', None) => s' = s /\ pending_message s = None /\ pending_ping_batch s = []
  end.
Proof.
  intros (Hcaf & Hterm & _ & Hunp & _ & Ha) Hctl. unfold next_pending_message. destruct (pending_message s) as [m|] eqn:Em.
  - split; [|split_and!; try done; unfold nothing_held; by rewrite Em]. split_and!; try done.
    eapply accounted_move; [exact Ha|done|]. unfold held. cbn. by rewrite Hctl, Em.
  - destruct (reverse (pending_ping_batch s)) as [|m rest] eqn:Er.
    + split_and!; try done. by rewrite <- (reverse_involutive (pending_ping_batch s)), Er.
    + assert (Hb : pending_ping_batch s <> []) by (intros E; by rewrite E in Er). split.
      * split_and!; try done; [intros Hu; by rewrite (Hunp Hu) in Hb|].
        eapply accounted_move; [exact Ha|done|]. f_equal.
        change (option_list (pending_control_message s) ++ [m] ++ option_list (pending_message s) ++ reverse (reverse rest) = held None s).
        unfold held. by rewrite Hctl, Em, Er, reverse_involutive.
      * split_and!; try done. unfold nothing_held. rewrite (bool_decide_eq_false_2 (pending_ping_batch s = [])) by done. by rewrite andb_false_r.
Qed.

Lemma carried_ok D R m s i : world_ok i -> common s -> state s <> StreamState.Closed -> carrying D m s i ->
  (10 * budget i + 10 * pings (heartbeat s) + 3 <= R)%nat ->
  part_ok D R (fun _ _ => False) (let w := note_inbound (match m with Message.Pong payload => Some payload | _ => None end) (s, i) in
    match m with
    | Message.Ping data => handle_ping arch slice_addr fuel m data w
    | Message.Close reason => handle_close reason w
    | _ => Done w (Ok (Return (Ready (Some (Ok m)))))
    end).
Proof.
  intros Hw Hc Hs Hm HR.
  destruct (note_inbound_ok (match m with Message.Pong payload => Some payload | _ => None end) s i) as (hb & i' & -> & Hq & Hst & Hcal).
  assert (Hc' : common (set_heartbeat hb s)) by (split; [exact (proj1 Hc)|keep_closing Hc Hst]).
  pose proof (quiet_carrying _ _ _ _ _ Hq Hm) as Hm'. apply (quiet_world _ _ Hq) in Hw.
  assert (HR' : calmer (heartbeat s) hb -> (10 * budget i' + 10 * pings hb + 3 <= R)%nat).
  { intros [_ ?]. destruct Hq as (_ & _ & ?). lia. }
  destruct m; cbn zeta; try (apply carried_returned; [exact Hc'|exact Hs|exact Hm'|done]).
  - apply handle_ping_ok; [done|exact Hc'|exact Hs|exact Hm'|done|]. by apply HR', Hcal.
  - apply handle_close_ok; [done|exact Hc'|exact Hs|exact Hm'|]. by apply HR', Hcal.
Qed.

Lemma message_part_ok D parsed R s i : between D None parsed R s i -> errors_last parsed s ->
  part_ok D R (fun _ _ => False) (message_part arch slice_addr fuel parsed (s, i)).
Proof.
  intros (Hw & Hc & Hs & Hl & Hctl & _ & HR) Herr. specialize (Hctl eq_refl). unfold message_part.
  assert (Hwt : nothing_held parsed s = false -> (10 * budget i + 10 * pings (heartbeat s) + 3 <= R)%nat).
  { intros En. unfold rank, weight in HR. rewrite Hctl, En in HR. destruct Hl as (Hcaf & _). rewrite Hcaf in HR. lia. }
  destruct parsed as [m|].
  - apply carried_ok; try done; [|by apply Hwt]. destruct Hl as (? & ? & ? & ? & ? & ?). by split_and!.
  - cbn [fst snd]. pose proof (next_pending_ok D s i Hl Hctl) as Hn. destruct (next_pending_message s) as [s' [m|]].
    + destruct Hn as (Hm & Hc' & Es & Eh & En). apply carried_ok; [done|by apply Hc'|by rewrite Es|done|rewrite Eh; by apply Hwt].
    + destruct Hn as (-> & Ep & Eb). specialize (Herr eq_refl Ep Eb).
      assert (En : nothing_held None s = true) by (unfold nothing_held; by rewrite Ep, Eb, Herr).
      cbn [part_ok fst snd]. split; [by split_and!|]. unfold rank, weight in *. rewrite Hctl, En in HR. destruct Hl as (Hcaf & _). rewrite Hcaf in *.
      destruct (has_unprocessed_read_data s); lia.
Qed.

Lemma top_ok task D expired parsed s i : at_pos D (Top expired parsed) s i ->
  part_ok D (rank (Top expired parsed) s i) (fun _ _ => False) (top arch slice_addr fuel task expired parsed (s, i)).
Proof.
  intros Hp. unfold top, is_closed. cbn [fst]. case_bool_decide as Hs.
  - cbn. split; [|done]. destruct Hp as (_ & (Hc & [[? _]|[_ ?]]) & _); [done|]. split; [done|by right].
  - eapply part_bind; [by apply flush_part_ok|]. intros s1 i1 H1'. eapply part_bind; [by apply (error_part_ok D expired)|].
    intros s2 i2 [Hb2 He2]. eapply part_bind; [by apply (deadline_part_ok D expired)|]. intros s3 i3 [Hb3 He3]. by apply message_part_ok.
Qed.

(** *** Reading *)

(** At the head of the inner loop. *)
Definition idle (D : list Message.t) (R : nat) (s : t) (i : T) : Prop :=
  world_ok i /\ common s /\ state s <> StreamState.Closed /\ live D None s i /\ pending_control_message s = None /\ nothing_held None s = true /\
  (rank Reading s i <= R)%nat.

(** Bytes that have not been parsed are in the buffer. *)
Definition to_process (D : list Message.t) (s : t) (i : T) : Prop :=
  world_ok i /\ common s /\ state s <> StreamState.Closed /\ close_after_flush s = false /\ pending_terminal_error s = None /\
  pending_control_message s = None /\ nothing_held None s = true /\
  exists fr raw, sim (protocol s) (read_buf s) raw fr /\ (read_buf s = [] -> spec_parse pol raw = Need) /\
    forall more, bytes_ok more -> all_messages i more = D ++ fst (ref fr (raw ++ more)).

Lemma nothing_held_fields parsed s : nothing_held parsed s = true ->
  parsed = None /\ pending_message s = None /\ pending_ping_batch s = [] /\ pending_parse_error s = None.
Proof.
  unfold nothing_held. rewrite !andb_true_iff, !bool_decide_eq_true. tauto.
Qed.

Lemma nothing_held_none parsed s : nothing_held parsed s = true -> pending_control_message s = None -> held parsed s = [].
Proof. intros (-> & Em & Eb & _)%nothing_held_fields Ec. unfold held. by rewrite Ec, Em, Eb. Qed.

Lemma idle_delivered D s i : live D None s i -> has_unprocessed_read_data s = false -> pending_control_message s = None -> nothing_held None s = true ->
  all_messages i [] = D.
Proof.
  intros (_ & _ & _ & _ & _ & Ha) Hu Hctl Hn. pose proof (nothing_held_none _ _ Hn Hctl) as Hh. apply nothing_held_fields in Hn as (_ & _ & _ & Hp).
  unfold accounted in Ha. rewrite Hp, Hu, Hh in Ha. destruct Ha as (fr & raw & Hsim & Hneed & Ha). rewrite Ha by constructor.
  rewrite app_nil_r, ref_run_eq by apply (v_raw _ _ _ (s_views _ _ _ _ _ _ _ Hsim)). rewrite Hneed. cbn. by rewrite app_nil_r.
Qed.

Lemma read_blocked_ok D R P on_rest s i : idle D R s i -> has_unprocessed_read_data s = false ->
  (forall s' i', idle D R s' i' -> has_unprocessed_read_data s' = false -> (forall d, closing_deadline s' = Some d -> t0 < d) ->
    part_ok D R P (on_rest (s', i'))) -> part_ok D R P (read_blocked fuel on_rest (s, i)).
Proof.
  intros (Hw & Hc & Hs & Hl & Hctl & Hn & HR) Hu Hk. unfold read_blocked.
  destruct (closing_expired_ok fuel s i) as (sl & i1 & b & -> & Hq & _ & Hf & _); [by apply Hw|]. cbn [run_bind fst].
  pose proof (quiet_live _ _ _ _ _ Hq Hl) as Hl1. pose proof (quiet_world _ _ Hq Hw) as Hw1.
  destruct b; [apply (finished_read_ok D None); [exact Hc|left; exact Hl1]|].
  assert (Hrest : forall sl' i2, quiet i1 i2 -> part_ok D R P (on_rest (set_heartbeat_sleep sl' s, i2))).
  { intros sl' i2 Hq2. apply Hk; [|exact Hu|].
    - split_and!; try done; [by eapply quiet_world|exact (quiet_live _ _ _ _ _ Hq2 Hl1)|].
      etrans; [|exact HR]. apply rank_le; [by eapply env_trans|reflexivity|reflexivity].
    - intros d Hd. destruct Hw as [? _]. specialize (Hf eq_refl d Hd). lia. }
  change (pending_parse_error (set_heartbeat_sleep sl s)) with (pending_parse_error s).
  change (heartbeat (set_heartbeat_sleep sl s)) with (heartbeat s).
  destruct (pending_parse_error s); [apply Hrest, env_refl|].
  destruct (Heartbeat.next_deadline (heartbeat s)) as [d|] eqn:Ed; [|apply Hrest, env_refl].
  destruct (heartbeat_timer_ok fuel (deadline_at d) (set_heartbeat_sleep sl s) i1) as (sl' & i2 & b & -> & Hq2 & Hb); [by apply Hw1|]. cbn [run_bind].
  destruct b; [|by apply Hrest]. destruct (Hb eq_refl) as [Ht Hlt]. cbn [part_ok fst snd]. split.
  - split; [by eapply quiet_world|]. split; [split; [exact Hc|left; split; [exact Hs|left; exact (quiet_live _ _ _ _ _ Hq2 Hl1)]]|].
    intros d' [= <-]. split; [exact Ht|left; exact Ed].
  - eapply Nat.lt_le_trans; [|exact HR]. apply rank_spent; [|reflexivity]. destruct Hq as (_ & _ & ?). lia.
Qed.

Lemma idle_pending D R P s i : idle D R s i -> has_unprocessed_read_data s = false -> (forall d, closing_deadline s = Some d -> t0 < d) ->
  part_ok D R P (Done (s, i) (Ok (Return Pending))).
Proof.
  intros (Hw & Hc & Hs & Hl & Hctl & Hn & _) Hu Hd. cbn. split; [by split; [|left; split; [|left]]|]. split; [done|]. split; [|done].
  intros _. by apply (idle_delivered D s).
Qed.

Lemma write_queued_ok task D R s i : idle D R s i -> has_unprocessed_read_data s = false ->
  part_ok D R (fun s i => idle D R s i /\ has_unprocessed_read_data s = false) (write_queued fuel task (s, i)).
Proof.
  intros Hi Hu. pose proof Hi as (Hw & Hc & Hs & Hl & Hctl & Hn & HR). unfold write_queued. cbn [fst].
  destruct (CorkBuffer.has_data _); [|done].
  destruct (write_out_ok Stream task s i (proj1 Hc)) as (o & hb & i' & r & -> & Hwf & [Hst Hpi] & Hq).
  set (s1 := set_heartbeat hb (set_output o s)). cbn [run_bind].
  assert (Hc1 : common s1) by (split; [exact Hwf|keep_closing Hc Hst]).
  assert (Hi1 : idle D R s1 i').
  { split_and!; [by eapply quiet_world|done|exact Hs|exact (quiet_live _ _ _ _ _ Hq Hl)|exact Hctl|exact Hn|].
    etrans; [|exact HR]. apply rank_le; [done|exact Hpi|reflexivity]. }
  destruct r as [|[[]|e]].
  - apply read_blocked_ok; [done|exact Hu|]. intros s2 i2 Hi2 Hu2 Hd2. cbn [fst]. case_bool_decide; [by apply idle_pending|done].
  - cbn. done.
  - cbn [part_ok returned fst snd]. split; [|done]. split; [exact (terminal_common s1 Hc1)|]. right. split; [done|].
    eapply (live_prefix _ _ s1). exact (quiet_live _ _ _ _ _ Hq Hl).
Qed.

Lemma last_shutdown_ok task D R P s i : common s -> live D None s i -> part_ok D R P (last_shutdown task (s, i)).
Proof.
  intros Hc Hl. unfold last_shutdown. cbn [fst]. destruct (_ && _); [|by apply (finished_read_ok D None); [|left]].
  destruct (shutdown_ok Stream task s i) as (o & st & i' & r & -> & Hq & Ho). cbn [fst].
  apply (finished_read_ok D None); [split; [change (CorkSpec.wf (UnifiedOutput.write_buf o)); rewrite Ho; apply Hc|exact (proj2 Hc)]|].
  left. exact (quiet_live _ _ _ _ _ Hq Hl).
Qed.

Lemma poll_read_more_ok task D R s i : idle D R s i -> has_unprocessed_read_data s = false ->
  exists o i' r, UnifiedOutput.write_buf o = UnifiedOutput.write_buf (output s) /\
    match r with
    | Ready (Ok data) => poll_read_more task (s, i) = ((set_read_buf (read_buf s ++ data) (set_output o s), i'), Ready (Ok (len data))) /\
        (data <> [] -> (budget i' < budget i)%nat /\ to_process D (set_read_buf (read_buf s ++ data) (set_output o s)) i') /\
        (data = [] -> prefix_of_all D i')
    | Ready (Err e) => poll_read_more task (s, i) = ((set_output o s, i'), Ready (Err e)) /\ quiet i i'
    | Pending => poll_read_more task (s, i) = ((set_output o s, i'), Pending) /\ quiet i i'
    end.
Proof.
  intros (Hw & Hc & Hs & Hl & Hctl & Hn & _) Hu. unfold poll_read_more. exists (UnifiedOutput.poll_read task (output s)).
  pose proof (poll_read_takes i) as Hr. destruct (WebSocket.poll_read i) as [i' r]. destruct Hr as [Ht Hr]. exists i', r.
  assert (Ho : UnifiedOutput.write_buf (UnifiedOutput.poll_read task (output s)) = UnifiedOutput.write_buf (output s))
    by (by destruct (OutputSpec.register_output Stream task (output s)) as [? _]).
  split; [exact Ho|]. destruct r as [|[data|e]]; [done| |done]. split; [done|]. destruct Hr as (Etk & Hok & Hb).
  assert (Hall : forall more, all_messages i' more = all_messages i (data ++ more)).
  { intros more. unfold all_messages. by rewrite Etk, <- !app_assoc. }
  split.
  - intros Hne. specialize (Hb Hne). split; [done|]. destruct Hw as [? ?]. pose proof (nothing_held_none _ _ Hn Hctl) as Hh. pose proof Hn as (_ & _ & _ & Hp)%nothing_held_fields.
    destruct Hl as (Hcaf & Hterm & _ & _ & _ & Ha). unfold accounted in Ha. rewrite Hp, Hu, Hh in Ha. destruct Ha as (fr & raw & Hsim & Hneed & Ha).
    split; [split; lia|]. split; [split; [change (CorkSpec.wf (UnifiedOutput.write_buf (UnifiedOutput.poll_read task (output s)))); rewrite Ho; apply Hc|exact (proj2 Hc)]|].
    split_and!; try done. exists fr, (raw ++ data). split; [exact (sim_more max validate pol (protocol s) (read_buf s) raw fr data Hsim Hok)|].
    split; [intros E; by apply app_eq_nil in E as [_ ?]|]. intros more Hm. rewrite Hall, Ha by (by apply bytes_ok_app). by rewrite <- app_assoc.
  - intros ->. intros more Hm. rewrite Hall. cbn. by apply (live_prefix _ _ _ _ Hl).
Qed.

Lemma read_part_ok task D s i : at_pos D Reading s i -> has_unprocessed_read_data s = false ->
  part_ok D (rank Reading s i) (fun s' i' => to_process D s' i' /\ (10 * budget i' + 10 * pings (heartbeat s') + 10 < rank Reading s i)%nat)
    (read_part fuel task (s, i)).
Proof.
  intros (Hw & Hc & Hs & Hl & Hctl & Hn) Hu. set (R := rank Reading s i). unfold read_part.
  destruct (closing_expired_ok fuel s i) as (sl & i1 & b & -> & Hq & _); [by apply Hw|]. cbn [run_bind fst].
  pose proof (quiet_live _ _ _ _ _ Hq Hl) as Hl1. set (s1 := set_heartbeat_sleep sl s).
  destruct (b && _); [apply last_shutdown_ok; [exact Hc|exact Hl1]|].
  assert (Hi1 : idle D R s1 i1) by (split_and!; [by eapply quiet_world|exact Hc|exact Hs|exact Hl1|exact Hctl|exact Hn|by apply rank_le]).
  eapply (part_bind D R (fun s' i' => (idle D R s' i' /\ has_unprocessed_read_data s' = false))); [by apply write_queued_ok|].
  intros s2 i2 [Hi2 Hu2]. cbn beta zeta.
  match goal with |- context [poll_read_more task ?w] => assert (Hpe : exists v, w = (set_post_expiry_read_attempted v s2, i2)) end.
  { destruct b; [by exists true|]. exists (post_expiry_read_attempted s2). by destruct s2. }
  destruct Hpe as [v Hpe]. rewrite Hpe. set (s3 := set_post_expiry_read_attempted v s2).
  assert (Hi3 : idle D R s3 i2) by exact Hi2.
  destruct (poll_read_more_ok task D R s3 i2 Hi3 Hu2) as (o & i3 & r & Ho & Hr).
  pose proof Hi3 as (Hw3 & Hc3 & Hs3 & Hl3 & Hctl3 & Hn3 & HR3).
  assert (Hwf : CorkSpec.wf (UnifiedOutput.write_buf o)) by (rewrite Ho; apply Hc3).
  destruct r as [|[data|e]].
  - destruct Hr as [-> Hq3]. apply read_blocked_ok; [|exact Hu2|].
    + split_and!; [by eapply quiet_world|split; [exact Hwf|exact (proj2 Hc3)]|exact Hs3|exact (quiet_live _ _ _ _ _ Hq3 Hl3)|exact Hctl3|exact Hn3|].
      etrans; [|exact HR3]. by apply rank_le.
    + intros s4 i4 Hi4 Hu4 Hd4. by apply idle_pending.
  - destruct Hr as (-> & Hne & Hemp). destruct (Z.eqb_spec (len data) 0) as [E|E].
    + cbn [part_ok returned on_stream fst snd]. split; [|done]. split; [exact (terminal_common (set_output o s3) (conj Hwf (proj2 Hc3)))|]. right. split; [done|].
      apply Hemp. destruct data; [done|]. rewrite len_cons in E. pose proof (len_nonneg data). lia.
    + destruct (Hne ltac:(by intros ->)) as [Hb Htp]. cbn [part_ok fst snd]. split; [exact Htp|].
      fold R. eapply Nat.lt_le_trans; [|exact HR3]. unfold rank. pose proof (weight_pos Reading s3).
      change (heartbeat (set_read_buf (read_buf s3 ++ data) (set_output o s3))) with (heartbeat s3). lia.
  - destruct Hr as [-> Hq3]. cbn [part_ok returned on_stream fst snd]. split; [|done]. split; [exact (terminal_common (set_output o s3) (conj Hwf (proj2 Hc3)))|].
    right. split; [done|]. eapply (live_prefix _ _ s3). exact (quiet_live _ _ _ _ _ Hq3 Hl3).
Qed.

(** What parsing leaves. *)
Definition parsed_ok (D : list Message.t) (hb : Heartbeat.t) (i0 : T) (m : comp (W (T := T)) (option Message.t)) : Prop :=
  match m with
  | Done (s, i) r => quiet i0 i /\ calmer hb (heartbeat s) /\ common s /\ state s <> StreamState.Closed /\ close_after_flush s = false /\
      pending_terminal_error s = None /\ pending_control_message s = None /\ nothing_held None s = true /\
      match r with
      | Ok message => accounted D message s i /\ (message = None -> has_unprocessed_read_data s = false)
      | Err e => has_unprocessed_read_data s = false /\ forall more, bytes_ok more -> all_messages i more = D
      end
  | _ => False
  end.

Lemma process_read_buf_ok D s i : to_process D s i -> parsed_ok D (heartbeat s) i (process_read_buf arch slice_addr (s, i)).
Proof.
  intros (Hw & Hc & Hs & Hcaf & Hterm & Hctl & Hn & fr & raw & Hsim & Hne & Ha). unfold process_read_buf.
  pose proof Hn as (_ & Em & Eb & Ep)%nothing_held_fields. rewrite Em, Eb. cbn [bool_decide]. rewrite !bool_decide_eq_true_2 by done. cbn [andb assert_or_panic].
  pose proof (next_post arch slice_addr Harch max validate pol _ _ _ _ Hsim Hne) as Hr.
  destruct (Protocol.process_next_with_activity _ _ _ _) as [[[p buf] accepted] r| |]; [|by destruct Hr..].
  set (s1 := set_read_buf buf (set_protocol p s)).
  assert (Hni : exists hb i', (if accepted then note_inbound None (s1, i) else (s1, i)) = (set_heartbeat hb s1, i') /\ quiet i i' /\ calmer (heartbeat s) hb).
  { destruct accepted; [destruct (note_inbound_ok None s1 i) as (hb & i' & -> & Hq & _ & Hcal); by exists hb, i'; split_and!; auto|].
    exists (heartbeat s), i. split; [by rewrite <- (set_heartbeat_self s1)|]. split; [apply env_refl|apply calmer_refl]. }
  destruct Hni as (hb & i' & -> & Hq & Hcal).
  assert (Hc' : common (set_heartbeat hb s1)) by (split; [exact (proj1 Hc)|keep_closing Hc (proj1 Hcal)]).
  assert (Hh : forall message s', pending_control_message s' = None -> pending_message s' = None -> pending_ping_batch s' = [] -> held message s' = option_list message).
  { intros message s' E1 E2 E3. unfold held. rewrite E1, E2, E3. cbn. by rewrite app_nil_r. }
  destruct r as [message|e]; cbn [on_stream fst snd parsed_ok]; split_and!; try done.
  - unfold accounted. change (pending_parse_error _) with (pending_parse_error s). rewrite Ep.
    change (read_buf _) with buf. change (protocol _) with p. change (has_unprocessed_read_data _) with (bool_decide (is_Some message) && negb (bool_decide (buf = []))).
    rewrite Hh by done. destruct message as [m|]; cbn [option_list option_rect].
    + destruct Hr as (fr' & Hsim' & Hr). exists fr', buf. split; [done|]. split.
      * cbn. destruct (decide (buf = [])) as [->|Hb]; [by rewrite bool_decide_eq_true_2|by rewrite bool_decide_eq_false_2].
      * intros more Hm. rewrite (quiet_all i i'), Ha, Hr by done. done.
    + destruct Hr as (fr' & raw' & Hsim' & Hneed & Hr). exists fr', raw'. split; [done|]. split; [done|].
      intros more Hm. by rewrite (quiet_all i i'), Ha, Hr by done.
  - by intros ->.
  - intros more Hm. rewrite (quiet_all i i'), Ha by done. rewrite (Hr more Hm). by rewrite app_nil_r.
Qed.

Lemma reading_ok task D s i : at_pos D Reading s i ->
  part_ok D (rank Reading s i) (fun _ _ => False) (reading arch slice_addr fuel task (s, i)).
Proof.
  intros Hp. unfold reading. cbn [fst]. set (R := rank Reading s i).
  eapply (part_bind D R (fun s' i' => to_process D s' i' /\
    (10 * budget i' + 10 * pings (heartbeat s') + (if has_unprocessed_read_data s then 4 else 10) < R)%nat)).
  { destruct (has_unprocessed_read_data s) eqn:Eu.
    - destruct Hp as (Hw & Hc & Hs & Hl & Hctl & Hn). cbn. destruct Hl as (Hcaf & Hterm & _ & _ & _ & Ha). split.
      + split_and!; try done. pose proof (nothing_held_none _ _ Hn Hctl) as Hh. apply nothing_held_fields in Hn as (_ & _ & _ & Ep).
        unfold accounted in Ha. rewrite Ep, Eu, Hh in Ha. destruct Ha as (fr & raw & Hsim & [-> Hne] & Ha). by exists fr, (read_buf s).
      + unfold R, rank, weight. rewrite Hcaf, Eu. lia.
    - by apply read_part_ok. }
  intros s1 i1 [Htp HR]. pose proof (process_read_buf_ok D s1 i1 Htp) as Hr. destruct Htp as (Hw1 & _).
  destruct (process_read_buf arch slice_addr (s1, i1)) as [[s2 i2] r| |]; try done.
  destruct Hr as (Hq & [_ Hpi] & Hc & Hs & Hcaf & Hterm & Hctl & Hn & Hr). pose proof Hn as (_ & Em & Eb & Ep)%nothing_held_fields.
  assert (Hb : (10 * budget i2 + 10 * pings (heartbeat s2) <= 10 * budget i1 + 10 * pings (heartbeat s1))%nat) by (destruct Hq as (_ & _ & ?); lia).
  apply (quiet_world _ _ Hq) in Hw1.
  destruct r as [message|e].
  - destruct Hr as [Ha Hun]. assert (Hl : live D message s2 i2) by (split_and!; try done; by rewrite Hctl).
    destruct (bool_decide (is_Some message) || _) eqn:Eo; cbn [part_ok fst snd].
    + split; [split; [done|split; [split; [done|left; split; [done|by left]]|by intros ? [=]]]|]. unfold rank, weight. rewrite Hcaf, Hctl.
      destruct message as [m|]; [change (nothing_held (Some m) s2) with false; destruct (has_unprocessed_read_data s); lia|].
      cbn in Eo. destruct (has_unprocessed_read_data s); [done|]. destruct (nothing_held None s2); lia.
    + apply orb_false_iff in Eo as [Eo1 Eo2%negb_false_iff]. rewrite Eo2 in HR. apply bool_decide_eq_false in Eo1.
      destruct message as [m|]; [by destruct Eo1|]. split; [by split_and!|]. unfold rank, weight. rewrite Hcaf, (Hun eq_refl). lia.
  - destruct Hr as [Hu Ha]. cbn [part_ok on_stream fst snd].
    destruct (keep_parse_error_common e s2 Hc Hs) as [Hc' Hs'].
    destruct (keep_parse_error_fields e s2) as (P1 & P2 & P3 & P4 & P5 & P6 & P7 & P8 & P9). split.
    + split; [done|]. split; [split; [done|left; split; [done|left]]|by intros ? [=]].
      unfold live, accounted, held. rewrite P1, P2, P3, P4, P5, P6, P7, Hctl, Em, Eb, Hu. split_and!; try done. intros more Hm. rewrite Ha by done.
      by rewrite app_nil_r.
    + unfold rank, weight. rewrite P3, P5, P8, Hcaf, Hctl. unfold nothing_held. rewrite P1.
      rewrite (bool_decide_eq_false_2 (Some e = None)) by done. rewrite andb_false_r. destruct (has_unprocessed_read_data s); lia.
Qed.

(** *** The loop *)

Lemma next_step_ok task D p s i : at_pos D p s i ->
  match next_step arch slice_addr fuel task (p, (s, i)) with
  | inl (p', w) => at_pos D p' (fst w) (snd w) /\ (rank p' (fst w) (snd w) < rank p s i)%nat
  | inr (Done w (Ok r)) => returned D w r
  | inr _ => False
  end.
Proof.
  intros Hp. unfold next_step.
  assert (H2 : part_ok D (rank p s i) (fun _ _ => False)
    (match p with Top expired parsed => top arch slice_addr fuel task expired parsed (s, i) | Reading => reading arch slice_addr fuel task (s, i) end))
    by (destruct p; [by apply top_ok|by apply reading_ok]).
  destruct (match p with Top _ _ => _ | Reading => _ end) as [w [[]|]| |]; done.
Qed.

Lemma next_loop_ok task D n : forall p s i, at_pos D p s i -> (rank p s i < n)%nat ->
  exists w r, loop_fuel n (next_step arch slice_addr fuel task) (p, (s, i)) = Done w (Ok r) /\ returned D w r.
Proof.
  induction n as [|n IH]; intros p s i Hp Hn; [lia|]. cbn [loop_fuel]. pose proof (next_step_ok task D p s i Hp) as Hs.
  destruct (next_step _ _ _ _ _) as [[p' [s' i']]|[w [r|]| |]]; [|by exists w, r|done|done|done]. destruct Hs as [? ?]. apply IH; [done|cbn in *; lia].
Qed.

(** ** The sending side keeps the invariant *)

Lemma inv_prefix D parsed s i : inv D parsed s i -> prefix_of_all D i.
Proof. intros [_ [[_ [Hl|He]]|[_ ?]]]; [by eapply live_prefix|by eapply ending_prefix|done]. Qed.

Lemma quiet_inv D parsed s i i' : quiet i i' -> inv D parsed s i -> inv D parsed s i'.
Proof.
  intros Hq [Hc Hl]. split; [done|]. destruct Hl as [[? [Hl|He]]|[? ?]]; [left; split; [done|left; by eapply quiet_live]|left; split; [done|right; by eapply quiet_ending]|].
  right. split; [done|by eapply quiet_prefix].
Qed.

Lemma inv_finish D parsed fb s i : inv D parsed s i -> inv D None (fst (finish_read_close fb s)) i /\ state (fst (finish_read_close fb s)) = StreamState.Closed.
Proof.
  intros Hi. destruct (finish_common fb s (proj1 Hi)) as [Hc Hs]. split; [|done]. split; [done|]. right. split; [done|]. by eapply inv_prefix.
Qed.

Lemma inv_write_out half task D s i : inv D None s i -> exists s' i' r, poll_write_out half task (s, i) = Done (s', i') (Ok r) /\
  inv D None s' i' /\ quiet i i' /\ closing_deadline s' = closing_deadline s /\ (state s = StreamState.Closed -> state s' = StreamState.Closed).
Proof.
  intros Hi. pose proof Hi as [[Hw Hst] Hl]. destruct (write_out_ok half task s i Hw) as (o & hb & i' & r & -> & Hwf & [Est _] & Hq).
  set (s1 := set_heartbeat hb (set_output o s)).
  assert (Hc1 : common s1) by (split; [exact Hwf|keep_closing (proj1 Hi) Est]).
  assert (Hi1 : inv D None s1 i') by (split; [exact Hc1|exact (proj2 (quiet_inv _ _ _ _ _ Hq Hi))]).
  destruct r as [|[[]|e]]; eexists _, i', _; (split; [reflexivity|]).
  - by split_and!.
  - by split_and!.
  - split; [|by split_and!]. split; [exact (terminal_common s1 Hc1)|]. right. split; [done|]. exact (inv_prefix _ _ _ _ Hi1).
Qed.

Lemma inv_begin_closing D s i : inv D None s i -> exists s' i', begin_closing (s, i) = (s', i') /\ inv D None s' i' /\ quiet i i' /\
  state s' = state s /\ (forall d, closing_deadline s = Some d -> closing_deadline s' = Some d) /\ is_Some (closing_deadline s') /\ protocol s' = protocol s /\
  UnifiedOutput.write_buf (output s') = UnifiedOutput.write_buf (output s).
Proof.
  intros Hi. destruct (begin_closing_ok s i) as (sl & d & i' & -> & Hq & Hd). eexists _, i'. split; [reflexivity|]. split; [|split_and!; try done].
  - pose proof (quiet_inv _ _ _ _ _ Hq Hi) as [Hc Hl]. split; [split; [exact (proj1 Hc)|split; [done|intros d' E; by rewrite (Hd d' (proj2 (proj2 Hc) d' E))]]|].
    destruct Hl as [[Hs [Hl|(? & ? & _ & ?)]]|[Hs Hp]]; [left; split; [exact Hs|left; exact Hl]|left; split; [exact Hs|right; split_and!; done]|right; by split].
  - intros d' E. by rewrite (Hd d' E).
Qed.

Lemma start_send_frame_wf key p m c : CorkSpec.wf c -> CorkSpec.wf (snd (start_send_frame key p m c)) /\ same_reader p (fst (start_send_frame key p m c)).
Proof.
  intros Hc. unfold start_send_frame. pose proof (encode_reader key p m (CorkBuffer.buffer c)) as Hr.
  destruct (Protocol.encode_message_into key p m (CorkBuffer.buffer c)) as [p' b]. cbn [fst] in Hr.
  assert (Hcp : CorkSpec.wf (snd (p', CorkBuffer.set_buffer b c)) /\ same_reader p (fst (p', CorkBuffer.set_buffer b c))) by (destruct Hc; by split).
  assert (Hq : forall o pl, CorkSpec.wf (queue_by_reference o pl c)).
  { intros o pl. unfold queue_by_reference. apply CorkSpec.push_segment_ok. by destruct Hc. }
  case_bool_decide; [|done]. destruct m; try done; (destruct (_ <=? _); [|done]); (split; [apply Hq|apply same_reader_refl]).
Qed.

(** A new protocol state for the same reader, and another queue. *)
Lemma inv_sent D s i p o : inv D None s i -> same_reader (protocol s) p -> CorkSpec.wf (UnifiedOutput.write_buf o) -> inv D None (set_output o (set_protocol p s)) i.
Proof.
  intros [[_ Hst] Hl] Hp Hw. split; [by split|]. destruct Hl as [[Hs [Hl|He]]|[Hs Hpr]]; [|left; split; [exact Hs|right; exact He]|right; by split].
  left. split; [exact Hs|]. left. destruct Hl as (? & ? & ? & ? & ? & Ha). split_and!; try done. unfold accounted in *.
  change (pending_parse_error (set_output o (set_protocol p s))) with (pending_parse_error s). destruct (pending_parse_error s); [exact Ha|].
  destruct Ha as (fr & raw & Hsim & Ha). exists fr, raw. split; [by apply Hp|exact Ha].
Qed.

Lemma inv_close_sent D s i : inv D None s i -> state s = StreamState.Open -> inv D None (set_state StreamState.CloseSent s) i.
Proof. intros [Hc [[_ Hl]|[? _]]] Hs; [|congruence]. split; [exact Hc|]. left. split; [done|exact Hl]. Qed.

Lemma inv_start_send D m s i : inv D None s i -> exists s' i' r, start_send m (s, i) = ((s', i'), r) /\ inv D None s' i' /\ quiet i i' /\
  (state s <> StreamState.Open -> s' = s /\ r = Err ConnectionClosed) /\ (state s = StreamState.Open -> r = Ok tt) /\
  (state s = StreamState.Closed -> state s' = StreamState.Closed).
Proof.
  intros Hi. unfold start_send. cbn [fst]. case_bool_decide as Hs; cbn [negb].
  - match goal with |- context [draw_key ?w] => assert (Hw : exists s1 i1, w = (s1, i1) /\ inv D None s1 i1 /\ quiet i i1) end.
    { destruct (Message.is_close m); [|by exists s, i; split_and!; [| |apply env_refl]]. destruct (inv_begin_closing D (set_state StreamState.CloseSent s) i (inv_close_sent D s i Hi Hs)) as (s1 & i1 & E & ? & ? & _).
      exists s1, i1. split; [exact E|done]. }
    destruct Hw as (s1 & i1 & -> & Hi1 & Hq1). destruct (draw_key_ok s1 i1) as (i2 & key & -> & Hq2).
    destruct (start_send_frame_wf key (protocol s1) m (UnifiedOutput.write_buf (output s1)) (proj1 (proj1 Hi1))) as [Hwf Hrd].
    destruct (start_send_frame _ _ _ _) as [p c]. cbn [fst snd] in Hwf, Hrd. eexists _, i2, _. split; [reflexivity|].
    split; [exact (inv_sent D s1 i2 p (UnifiedOutput.set_write_buf c (output s1)) (quiet_inv _ _ _ _ _ Hq2 Hi1) Hrd Hwf)|].
    split; [by eapply env_trans|]. split_and!; try done; by rewrite Hs.
  - exists s, i, (Err ConnectionClosed). split_and!; try done.
Qed.

(** The outcome of a call of the sending side. *)
Definition kept {A} (D : list Message.t) (s : t) (i : T) (waits : A -> bool) (m : comp (W (T := T)) A) : Prop :=
  exists s' i' r, m = Done (s', i') (Ok r) /\ inv D None s' i' /\ quiet i i' /\
    (state s = StreamState.Closed -> state s' = StreamState.Closed) /\
    (waits r = true -> forall d, closing_deadline s' = Some d -> time i < d).

Definition is_pending {A} (r : poll A) : bool := match r with Pending => true | _ => false end.

Lemma poll_ready_kept task D s i : inv D None s i -> kept D s i (fun _ => false) (poll_ready task (s, i)).
Proof.
  intros Hi. unfold poll_ready. cbn [fst].
  destruct (negb _); [exists s, i; eexists; by split_and!; [|done|apply env_refl|..]|].
  destruct (UnifiedOutput.needs_drain_before_send _ _); [|exists s, i; eexists; by split_and!; [|done|apply env_refl|..]].
  unfold poll_ready_drain. cbn [on_stream fst snd].
  destruct (inv_write_out Sink task D (on_output (UnifiedOutput.set_ready_flush_pending true) s) i) as (s' & i' & r & E & ? & ? & _ & ?); [exact Hi|].
  exists s', i', r. by split_and!.
Qed.

Lemma closing_kept D s i : (budget i < fuel)%nat -> inv D None s i ->
  kept D s i is_pending (let! (w, expired) := poll_closing_expired fuel (s, i) in
    if expired then finish_with (Err ConnectionClosed) w else Done w (Ok Pending)).
Proof.
  intros Hb Hi. destruct (closing_expired_ok fuel s i Hb) as (sl & i' & b & -> & Hq & _ & Hf & _). cbn [run_bind].
  pose proof (quiet_inv _ _ _ _ _ Hq Hi) as Hi'. destruct b.
  - unfold finish_with. cbn [on_stream fst snd]. destruct (inv_finish D None None (set_heartbeat_sleep sl s) i') as [? ?]; [exact Hi'|].
    eexists _, i', _. by split_and!.
  - eexists _, i', _. split; [reflexivity|]. split_and!; try done. intros _. exact (Hf eq_refl).
Qed.

Lemma kept_after {A} D s i s1 i1 (waits : A -> bool) m : quiet i i1 -> (state s = StreamState.Closed -> state s1 = StreamState.Closed) ->
  kept D s1 i1 waits m -> kept D s i waits m.
Proof.
  intros Hq Hs (s' & i' & r & -> & Hi & Hq' & Hs' & Hd). exists s', i', r. split_and!; try done; [by eapply env_trans|auto|].
  intros Hw d Ed. specialize (Hd Hw d Ed). destruct Hq as (_ & ? & _). lia.
Qed.

Lemma finish_kept D s i r : inv D None s i -> kept D s i is_pending (finish_with r (s, i)).
Proof.
  intros Hi. destruct (inv_finish D None None s i Hi) as [? ?]. eexists _, i, _. split; [reflexivity|]. split_and!; try done.
Qed.

Lemma inv_shutdown half task D s i : inv D None s i -> exists s' i' r, poll_transport_shutdown half task (s, i) = ((s', i'), r) /\ inv D None s' i' /\ quiet i i' /\
  state s' = state s.
Proof.
  intros Hi. destruct (shutdown_ok half task s i) as (o & st & i' & r & -> & Hq & Ho). eexists _, i', r. split; [reflexivity|]. split; [|by split].
  pose proof (quiet_inv _ _ _ _ _ Hq Hi) as [Hc Hl]. split; [split; [change (CorkSpec.wf (UnifiedOutput.write_buf o)); rewrite Ho; apply Hc|exact (proj2 Hc)]|exact Hl].
Qed.

Lemma poll_flush_kept task D s i : (budget i < fuel)%nat -> inv D None s i -> kept D s i is_pending (poll_flush fuel task (s, i)).
Proof.
  intros Hb Hi. unfold poll_flush. cbn [fst]. destruct (is_closed s); [exists s, i; eexists; by split_and!; [|done|apply env_refl|..]|].
  destruct (inv_write_out Sink task D s i Hi) as (s1 & i1 & r & -> & Hi1 & Hq1 & _ & Hs1). cbn [run_bind]. eapply (kept_after D s i s1 i1); [done|done|].
  destruct r as [|[[]|e]].
  - apply closing_kept; [destruct Hq1 as (_ & _ & ?); lia|done].
  - exists s1, i1. eexists. by split_and!; [|done|apply env_refl|..].
  - exists s1, i1. eexists. by split_and!; [|done|apply env_refl|..].
Qed.

Lemma close_ended_kept task D s i : (budget i < fuel)%nat -> inv D None s i -> kept D s i is_pending (close_ended fuel task (s, i)).
Proof.
  intros Hb Hi. unfold close_ended. cbn [fst]. destruct (_ && _); [|by apply finish_kept].
  destruct (inv_begin_closing D s i Hi) as (s1 & i1 & -> & Hi1 & Hq1 & Es1 & _).
  destruct (inv_shutdown Sink task D s1 i1 Hi1) as (s2 & i2 & r & -> & Hi2 & Hq2 & Es2).
  eapply (kept_after D s i s2 i2); [by eapply env_trans|by rewrite Es2, Es1|]. destruct r as [|r]; [|by apply finish_kept].
  apply closing_kept; [destruct Hq1 as (_ & _ & ?), Hq2 as (_ & _ & ?); lia|done].
Qed.

Lemma poll_close_kept task D s i : (budget i < fuel)%nat -> inv D None s i -> kept D s i is_pending (poll_close fuel task (s, i)).
Proof.
  intros Hb Hi. unfold poll_close. cbn [fst]. destruct (_ || _); [by apply close_ended_kept|].
  match goal with |- context [let '(w, sent) := ?x in _] => assert (Hsent : exists s1 i1 r, x = ((s1, i1), r) /\ inv D None s1 i1 /\ quiet i i1 /\
    (state s = StreamState.Closed -> state s1 = StreamState.Closed)) end.
  { case_bool_decide.
    - destruct (inv_start_send D (Message.Close (Some (CloseReason.new 1000 []))) s i Hi) as (s1 & i1 & r & -> & ? & ? & _ & _ & ?). by exists s1, i1, r.
    - exists s, i, (Ok tt). by split_and!; [|done|apply env_refl|]. }
  destruct Hsent as (s1 & i1 & r & -> & Hi1 & Hq1 & Hs1). eapply (kept_after D s i s1 i1); [done|done|].
  destruct r as [[]|e]; [|exists s1, i1; eexists; by split_and!; [|done|apply env_refl|..]].
  destruct (inv_begin_closing D s1 i1 Hi1) as (s2 & i2 & -> & Hi2 & Hq2 & Es2 & _).
  destruct (inv_write_out Sink task D s2 i2 Hi2) as (s3 & i3 & r3 & -> & Hi3 & Hq3 & _ & Hs3). cbn [run_bind].
  eapply (kept_after D s1 i1 s3 i3); [by eapply env_trans|intros; apply Hs3; by rewrite Es2|].
  assert (Hb3 : (budget i3 < fuel)%nat) by (destruct Hq1 as (_ & _ & ?), Hq2 as (_ & _ & ?), Hq3 as (_ & _ & ?); lia).
  destruct r3 as [|[[]|e]]; [by apply closing_kept| |by apply finish_kept].
  destruct (inv_shutdown Sink task D s3 i3 Hi3) as (s4 & i4 & r4 & -> & Hi4 & Hq4 & Es4).
  eapply (kept_after D s3 i3 s4 i4); [done|by rewrite Es4|]. destruct r4 as [|r4]; [|by apply finish_kept].
  apply closing_kept; [destruct Hq4 as (_ & _ & ?); lia|done].
Qed.

(** *** The future of [close] *)

Lemma flush_loop_ok n : forall (st : UnifiedOutput.st (T := T)), CorkSpec.wf (UnifiedOutput.write_buf (fst (fst st))) ->
  (len (CorkSpec.contents (UnifiedOutput.write_buf (fst (fst st)))) < Z.of_nat n) ->
  exists st' r, loop_fuel n flush_step st = Done st' r /\ CorkSpec.wf (UnifiedOutput.write_buf (fst (fst st'))) /\ snd st' = snd st.
Proof.
  induction n as [|n IH]; intros [[o i] hb] Hw Hn; cbn [fst snd] in *; [pose proof (len_nonneg (CorkSpec.contents (UnifiedOutput.write_buf o))); lia|].
  cbn [loop_fuel]. unfold flush_step at 1. destruct (CorkBuffer.has_data _).
  - pose proof (OutputSpec.drain_write_ok (o, i, hb) Hw) as Hd. destruct (UnifiedOutput.drain_write (o, i, hb)) as [st'|[st' r| |]]; try done.
    + destruct Hd as (Hw' & _ & Eh & _ & _ & _ & _ & _ & _ & Hlt). cbn [fst snd] in *. destruct (IH st' Hw' ltac:(lia)) as (st2 & r & -> & ? & E2).
      exists st2, r. split_and!; try done. by rewrite E2, Eh.
    + destruct Hd as (Eo & Eh & _). exists st', r. rewrite Eo. by split_and!.
  - destruct (Output.poll_flush i) as [i' [|[[]|e]]]; eexists _, _; by split_and!.
Qed.

Lemma flush_step_quiet (st : UnifiedOutput.st (T := T)) : drain_quiet (snd (fst st)) (flush_step st).
Proof.
  destruct st as [[o i] hb]. unfold flush_step. cbn [fst snd]. destruct (CorkBuffer.has_data _); [apply (drain_write_env (o, i, hb))|].
  pose proof (poll_flush_quiet i) as Hq. by destruct (Output.poll_flush i) as [i' [|[[]|e]]].
Qed.

Lemma flush_write_buf_ok D s i : inv D None s i -> exists s' i' r, flush_write_buf (s, i) = Done (s', i') (Ok r) /\ inv D None s' i' /\ quiet i i' /\
  state s' = state s.
Proof.
  intros Hi. unfold flush_write_buf. pose proof Hi as [[Hw Hst] Hl].
  destruct (flush_loop_ok (S (Z.to_nat (write_buffer_len s))) (output s, i, heartbeat s) Hw) as ([[o i'] hb] & r & E & Hw' & Eh).
  { unfold write_buffer_len. rewrite CorkSpec.pending_bytes_contents by done. cbn [fst]. pose proof (len_nonneg (CorkSpec.contents (UnifiedOutput.write_buf (output s)))). lia. }
  pose proof (loop_quiet _ _ flush_step_quiet _ _ _ E) as Hq. rewrite E. cbn [fst snd] in *.
  assert (Hi' : inv D None (set_output o s) i') by (split; [by split|exact (proj2 (quiet_inv _ _ _ _ _ Hq Hi))]).
  destruct r as [[|[]]|e]; eexists _, i', _; by split_and!.
Qed.

Lemma close_start_kept code reason D s i : inv D None s i -> kept D s i (fun _ => false) (close_start code reason (s, i)).
Proof.
  intros Hi. unfold close_start. cbn [fst]. case_bool_decide as Hs; cbn [negb]; [|exists s, i; eexists; by split_and!; [|done|apply env_refl|..]].
  destruct (encode_message_kept (Message.Close (Some (CloseReason.new code reason))) s i) as (p & b & i1 & -> & Hp & Hq1). cbn [run_bind].
  set (o1 := UnifiedOutput.set_write_buf (CorkBuffer.set_buffer b (UnifiedOutput.write_buf (output s))) (output s)).
  assert (Hi1 : inv D None (set_output o1 (set_protocol p s)) i1)
    by (apply inv_sent; [by eapply quiet_inv|done|exact (set_buffer_wf b s (proj1 (proj1 Hi)))]).
  destruct (inv_begin_closing D (set_state StreamState.CloseSent (set_buffer b (set_protocol p s))) i1) as (s2 & i2 & E & Hi2 & Hq2 & _);
    [exact (inv_close_sent D _ i1 Hi1 Hs)|].
  exists s2, i2. eexists. split; [unfold on_stream; cbn [fst snd]; by rewrite E|]. split_and!; try done; [by eapply env_trans|by rewrite Hs].
Qed.

Lemma inv_shutdown_state D s i st : inv D None s i -> inv D None (set_write_shutdown_state st s) i.
Proof. intros Hi. exact Hi. Qed.

Lemma close_shutdown_ok D s i : inv D None s i -> exists s' i' x, close_shutdown (s, i) = Done (s', i') (Ok x) /\ inv D None s' i' /\ quiet i i' /\ state s' = state s.
Proof.
  intros Hi. unfold close_shutdown. pose proof (poll_shutdown_quiet i) as Hq. destruct (WebSocket.poll_shutdown i) as [i' r]. cbn [fst] in Hq.
  pose proof (quiet_inv _ _ _ _ _ Hq Hi) as Hi'.
  destruct r as [|[[]|e]]; eexists _, i', _; (split; [reflexivity|]); (split; [|done]); [exact Hi'|by apply inv_shutdown_state..].
Qed.

Lemma close_body_ok stage D s i : inv D None s i -> exists s' i' x, close_body stage (s, i) = Done (s', i') (Ok x) /\ inv D None s' i' /\ quiet i i' /\ state s' = state s.
Proof.
  intros Hi. destruct stage; [|by apply close_shutdown_ok]. unfold close_body.
  destruct (flush_write_buf_ok D s i Hi) as (s1 & i1 & r & -> & Hi1 & Hq1 & Es1). cbn [run_bind fst].
  destruct r as [|[[]|e]]; [by exists s1, i1; eexists| |by exists s1, i1; eexists]. destruct (immediate_write_shutdown s1); [|by exists s1, i1; eexists].
  destruct (close_shutdown_ok D (set_write_shutdown_state WriteShutdownState.Pending s1) i1) as (s2 & i2 & x & E & Hi2 & Hq2 & Es2); [by apply inv_shutdown_state|].
  exists s2, i2, x. split; [exact E|]. split; [done|]. split; [by eapply env_trans|]. by rewrite Es2.
Qed.

Lemma close_poll_kept stage timer deadline D s i : (budget i < fuel)%nat -> inv D None s i ->
  kept D s i (fun _ => false) (close_poll fuel stage timer deadline (s, i)).
Proof.
  intros Hb Hi. unfold close_poll. destruct (close_body_ok stage D s i Hi) as (s1 & i1 & [stage1 r] & -> & Hi1 & Hq1 & Es1). cbn [run_bind fst snd].
  assert (Hfin : forall e i2 stage timer, quiet i1 i2 -> kept D s i (fun _ : CloseStage * Z * poll (result unit) => false)
    (Done (on_stream (fun s => fst (finish_read_close None s)) (s1, i2)) (Ok (stage, timer, Ready (Err e))))).
  { intros e i2 st tm Hq2. destruct (inv_finish D None None s1 i2 (quiet_inv _ _ _ _ _ Hq2 Hi1)) as [? ?].
    eexists _, i2, _. split; [reflexivity|]. split_and!; try done. by eapply env_trans. }
  destruct r as [|[[]|e]].
  - assert (Hb1 : (budget i1 < fuel)%nat) by (destruct Hq1 as (_ & _ & ?); lia). unfold timer_poll.
    destruct (timer_loop_ok fuel (if deadline <? timer then deadline else timer) deadline i1 Hb1) as (timer' & i2 & b & -> & Hq2 & _).
    destruct b; [by apply Hfin|]. eexists s1, i2, _. split; [reflexivity|]. split_and!; try done; [by eapply quiet_inv|by eapply env_trans|by rewrite Es1].
  - eexists s1, i1, _. split; [reflexivity|]. split_and!; try done. by rewrite Es1.
  - by apply Hfin, env_refl.
Qed.
End Delivery.
End Stream.
