(* ===== verification/StreamProps.v ===== *)
(** * What a message stream promises its user

    The theorems hold in every state a stream reaches through its public operations, with any environment that keeps the contract of [RuntimeSpec]:
    what [poll_next] returns, how the stream ends, and that closing is bounded. *)

From stdpp Require Import base list option strings.
From S2P Require Import Prelude Error Mask Utf8 Frame FrameSpec Protocol ReceiveSpec ProtocolSpec ProtocolProps NextSpec.
From S2P Require Import Heartbeat Cork Output Stream Deflate Config WebSocket Scripted StreamSpec.
Import WebSocketStream.

(** What a poll hands to the user. *)
Definition delivered (r : poll Item) : list Message.t := match r with Ready (Some (Ok m)) => [m] | _ => [] end.

Section Props.
Context {T : Type} `{RuntimeSpec T} {SU : Simdutf8} {SUok : Simdutf8Spec}.
Context (arch : Arch) (slice_addr : bytes -> Z) (Harch : arch_ok arch).
Context (role : Role) (c : Config.t) (leftover : option bytes).

(** Turns that are enough for every loop of a call. *)
Definition enough (fuel : nat) (i : T) : Prop := (10 * budget i + 27 <= fuel)%nat.

(** The states of a stream, with the messages delivered so far: any calls in any order; between them the world goes on. *)
Inductive reachable : list Message.t -> t -> T -> Prop :=
  | r_start i : taken i = [] -> reachable [] (from_raw_with_leftover role c leftover) i
  | r_world D s i i' : reachable D s i -> taken i' = taken i -> time i <= time i' -> reachable D s i'
  | r_immediate D s i : reachable D s i -> reachable D (with_immediate_write_shutdown s) i
  | r_marks D s i high low : reachable D s i -> reachable D (set_low_water_mark low (set_high_water_mark high s)) i
  | r_next D s i fuel task s' i' r : reachable D s i -> enough fuel i ->
      poll_next arch slice_addr fuel task (s, i) = Done (s', i') (Ok r) -> reachable (D ++ delivered r) s' i'
  | r_ready D s i task s' i' r : reachable D s i -> poll_ready task (s, i) = Done (s', i') (Ok r) -> reachable D s' i'
  | r_send D s i m s' i' r : reachable D s i -> start_send m (s, i) = ((s', i'), r) -> reachable D s' i'
  | r_flush D s i fuel task s' i' r : reachable D s i -> enough fuel i -> poll_flush fuel task (s, i) = Done (s', i') (Ok r) -> reachable D s' i'
  | r_close D s i fuel task s' i' r : reachable D s i -> enough fuel i -> poll_close fuel task (s, i) = Done (s', i') (Ok r) -> reachable D s' i'
  | r_close_start D s i code reason s' i' r : reachable D s i -> close_start code reason (s, i) = Done (s', i') (Ok r) -> reachable D s' i'
  | r_close_poll D s i fuel stage timer deadline s' i' r : reachable D s i -> enough fuel i ->
      close_poll fuel stage timer deadline (s, i) = Done (s', i') (Ok r) -> reachable D s' i'.

Abbreviation max := (Config.max_message_size c).
Abbreviation validate := (Config.validate_text_utf8 c).
Abbreviation pol := (initial_policy role (Config.max_frame_size c)).
Abbreviation inv := (StreamSpec.inv (default [] leftover) max validate pol).
Abbreviation reference := (fun raw => fst (ref_run (ref_frame max validate) pol None (default [] leftover ++ raw))).

Lemma inv_start i : bytes_ok (default [] leftover) -> taken i = [] -> inv None [] None (from_raw_with_leftover role c leftover) i.
Proof.
  intros Hok Ht. split; [split; [split; [done|constructor]|split; [by intros []|done]]|]. left. split; [done|]. left.
  split_and!; try done. exists None, (default [] leftover).
  pose proof (sim_more max validate pol _ [] [] None (default [] leftover) (sim_new role (Config.max_frame_size c) max validate) Hok) as Hsim.
  split; [exact Hsim|]. split.
  - cbn. case_bool_decide as E; cbn; [by rewrite E|by split].
  - intros more _. unfold all_messages. by rewrite Ht.
Qed.

(** Time passes, and a new budget is granted. *)
Lemma inv_world d0 D s i i' : inv d0 D None s i -> taken i' = taken i -> inv d0 D None s i'.
Proof.
  intros [Hc Hl] Ht. split; [done|].
  assert (Ha : forall more, all_messages (default [] leftover) max validate pol i' more = all_messages (default [] leftover) max validate pol i more)
    by (intros more; unfold all_messages; by rewrite Ht).
  destruct Hl as [[Hs [Hl|(? & ? & ? & Hp)]]|[Hs Hp]].
  - left. split; [done|]. left. destruct Hl as (? & ? & ? & ? & ? & Hacc). split_and!; try done. unfold accounted in *. destruct (pending_parse_error s).
    + destruct Hacc as [? Hacc]. split; [done|]. intros more Hm. rewrite Ha. by apply Hacc.
    + destruct Hacc as (fr & raw & ? & ? & Hacc). exists fr, raw. split; [done|]. split; [done|]. intros more Hm. rewrite Ha. by apply Hacc.
  - left. split; [done|]. right. split_and!; try done. intros more Hm. rewrite Ha. by apply Hp.
  - right. split; [done|]. intros more Hm. rewrite Ha. by apply Hp.
Qed.

Lemma inv_deadline D s i : inv None D None s i -> inv (closing_deadline s) D None s i.
Proof. intros [(? & ? & _) Hl]. split; [|exact Hl]. split_and!; try done. Qed.

Lemma inv_no_deadline d0 D s i : inv d0 D None s i -> inv None D None s i.
Proof. intros [(? & ? & _) Hl]. split; [|exact Hl]. split_and!; try done. Qed.

Lemma poll_next_ok d0 fuel task D s i : enough fuel i -> inv d0 D None s i -> exists s' i' r,
  poll_next arch slice_addr fuel task (s, i) = Done (s', i') (Ok r) /\ returned (default [] leftover) max validate pol d0 (time i) D (s', i') r.
Proof.
  intros Hf Hi. unfold poll_next.
  destruct (next_loop_ok arch slice_addr Harch (default [] leftover) max validate pol d0 fuel (time i) task D fuel (Top None None) s i) as ([s' i'] & r & E & Hr).
  - split; [split; [lia|unfold enough in Hf; lia]|]. split; [done|]. by intros ? [=].
  - unfold rank, enough in *. pose proof (weight_pos (Top None None) s). unfold pings. repeat case_match; lia.
  - by exists s', i', r.
Qed.

Lemma returned_inv d0 t0 D s i r : returned (default [] leftover) max validate pol d0 t0 D (s, i) r -> inv d0 (D ++ delivered r) None s i.
Proof. destruct r as [|[[m|e]|]]; cbn [returned delivered fst snd]; rewrite ?app_nil_r; intros [Hi _]; exact Hi. Qed.

Lemma enough_budget fuel i : enough fuel i -> (budget i < fuel)%nat.
Proof. unfold enough. lia. Qed.

Lemma reachable_inv D s i : bytes_ok (default [] leftover) -> reachable D s i -> inv None D None s i.
Proof.
  intros Hok. induction 1 as [i Ht|D s i i' _ IH Ht _|D s i _ IH|D s i h l _ IH|D s i fuel task s' i' r _ IH Hf E|D s i task s' i' r _ IH E|
    D s i m s' i' r _ IH E|D s i fuel task s' i' r _ IH Hf E|D s i fuel task s' i' r _ IH Hf E|D s i code reason s' i' r _ IH E|
    D s i fuel stage timer dl s' i' r _ IH Hf E].
  - by apply inv_start.
  - by eapply inv_world.
  - exact IH.
  - exact IH.
  - destruct (poll_next_ok None fuel task D s i Hf IH) as (s2 & i2 & r2 & E2 & Hr). rewrite E in E2. injection E2 as <- <- <-. exact (returned_inv _ _ _ _ _ _ Hr).
  - destruct (poll_ready_kept (default [] leftover) max validate pol None task D s i IH) as (s2 & i2 & r2 & E2 & Hr & _). rewrite E in E2. injection E2 as <- <- <-. exact Hr.
  - destruct (inv_start_send (default [] leftover) max validate pol None D m s i IH) as (s2 & i2 & r2 & E2 & Hr & _). rewrite E in E2. injection E2 as <- <- <-. exact Hr.
  - destruct (poll_flush_kept (default [] leftover) max validate pol None fuel task D s i (enough_budget _ _ Hf) IH) as (s2 & i2 & r2 & E2 & Hr & _). rewrite E in E2. injection E2 as <- <- <-. exact Hr.
  - destruct (poll_close_kept (default [] leftover) max validate pol None fuel task D s i (enough_budget _ _ Hf) IH) as (s2 & i2 & r2 & E2 & Hr & _). rewrite E in E2. injection E2 as <- <- <-. exact Hr.
  - destruct (close_start_kept (default [] leftover) max validate pol None code reason D s i IH) as (s2 & i2 & r2 & E2 & Hr & _). rewrite E in E2. injection E2 as <- <- <-. exact Hr.
  - destruct (close_poll_kept (default [] leftover) max validate pol None fuel stage timer dl D s i (enough_budget _ _ Hf) IH) as (s2 & i2 & r2 & E2 & Hr & _). rewrite E in E2. injection E2 as <- <- <-. exact Hr.
Qed.

Lemma poll_next_delivers D s i fuel task : bytes_ok (default [] leftover) -> reachable D s i -> enough fuel i ->
  exists s' i' r, poll_next arch slice_addr fuel task (s, i) = Done (s', i') (Ok r) /\
    (forall more, bytes_ok more -> exists rest, reference (taken i' ++ more) = D ++ delivered r ++ rest) /\
    (r = Pending -> closing_deadline s' = None -> reference (taken i') = D).
Proof.
  intros Hok Hre Hf. destruct (poll_next_ok None fuel task D s i Hf (reachable_inv _ _ _ Hok Hre)) as (s' & i' & r & E & Hr).
  exists s', i', r. split; [done|]. split.
  - intros more Hm. destruct (inv_prefix _ _ _ _ _ _ _ _ _ (returned_inv _ _ _ _ _ _ Hr) more Hm) as [rest Er]. exists rest.
    unfold all_messages in Er. by rewrite Er, app_assoc.
  - intros -> Hd. destruct Hr as (_ & _ & Hall & _). specialize (Hall Hd). unfold all_messages in Hall. by rewrite app_nil_r in Hall.
Qed.

(** [C2] However a stream is used and whatever its environment does, [poll_next] returns, without a panic; the messages it has returned are at every time
    the first messages of the reference receiver on the leftover of the handshake and the bytes read since, in order, none missing and none twice.  When it returns
    [Pending] and no closing handshake is under way, every message that is complete in those bytes has been returned. *)
Theorem stream_delivers D s i fuel task : bytes_ok (default [] leftover) -> reachable D s i -> enough fuel i ->
  exists s' i' r, poll_next arch slice_addr fuel task (s, i) = Done (s', i') (Ok r) /\
    (forall more, bytes_ok more -> exists rest, reference (taken i' ++ more) = D ++ delivered r ++ rest) /\
    (r = Pending -> closing_deadline s' = None -> reference (taken i') = D).
Proof. apply poll_next_delivers. Qed.

(** The stream is over: an end, an error, or the Close of the peer. *)
Definition ends (r : poll Item) : bool :=
  match r with
  | Ready None | Ready (Some (Err _)) => true
  | Ready (Some (Ok m)) => Message.is_close m
  | Pending => false
  end.


(** [C4] Once the deadline of the closing handshake has passed no call waits any more: [poll_next], [poll_flush] and [poll_close] return at once, whatever the
    transport and the timer do. *)
Theorem closing_bounded D s i d fuel task : bytes_ok (default [] leftover) -> reachable D s i -> closing_deadline s = Some d -> d <= time i -> enough fuel i ->
  (exists w r, poll_next arch slice_addr fuel task (s, i) = Done w (Ok (Ready r))) /\
  (exists w r, poll_flush fuel task (s, i) = Done w (Ok (Ready r))) /\
  (exists w r, poll_close fuel task (s, i) = Done w (Ok (Ready r))).
Proof.
  intros Hok Hre Hd Ht Hf. pose proof (inv_deadline _ _ _ (reachable_inv _ _ _ Hok Hre)) as Hi. rewrite Hd in Hi.
  assert (Hkept : forall m : comp (W (T := T)) (poll (result unit)), kept (default [] leftover) max validate pol (Some d) D s i is_pending m -> exists w r, m = Done w (Ok (Ready r))).
  { intros m (s' & i' & r & -> & [(_ & _ & Hd') _] & _ & _ & Hp). destruct r as [|r]; [|by eexists _, _].
    specialize (Hp eq_refl d (Hd' d eq_refl)). lia. }
  split_and!.
  - destruct (poll_next_ok (Some d) fuel task D s i Hf Hi) as (s' & i' & r & E & Hr). destruct r as [|r]; [|by eexists _, _].
    destruct Hr as ([(_ & _ & Hd') _] & _ & _ & Hlt). specialize (Hlt d (Hd' d eq_refl)). lia.
  - apply Hkept, poll_flush_kept; [by apply enough_budget|done].
  - apply Hkept, poll_close_kept; [by apply enough_budget|done].
Qed.
End Props.

(** ** Concrete runs *)

Lemma script_accepts t b : accepts wire t b (script_write t b).
Proof.
  unfold accepts, script_write. destruct (room t) as [|n room]; cbn; [done|]. pose proof (len_nonneg b). split; [lia|done].
Qed.

#[export] Instance script_transport_spec : TransportSpec Script.
Proof. refine {| accepted := wire |}; [apply script_accepts|intros; apply script_accepts|done]. Defined.

#[export] Instance script_spec : RuntimeSpec Script.
Proof.
  assert (Hw : forall t b, taken_in (fst (script_write t b)) = taken_in t /\ clock (fst (script_write t b)) = clock t /\
    incoming (fst (script_write t b)) = incoming t) by (intros t b; unfold script_write; by destruct (room t)).
  refine {| taken := taken_in; time := clock; budget t := length (incoming t) |}; cbn.
  - intros i b. destruct (Hw i b) as (-> & -> & ->). split_and!; [done|lia|lia].
  - intros i bs. destruct (Hw i (concat bs)) as (-> & -> & ->). split_and!; [done|lia|lia].
  - intros i. split_and!; [done|lia|lia].
  - intros i. destruct (incoming i) as [|[b|e] rest] eqn:E; cbn; rewrite ?E; cbn.
    + split_and!; [lia|done|lia|lia].
    + split_and!; [lia|done| |lia]. apply Forall_map, Forall_true. intros x. unfold is_byte, compose, wrap. apply Z.mod_pos_bound. lia.
    + split_and!; [lia|done|lia|lia].
  - intros i. split_and!; [done|lia|lia].
  - intros i. split_and!; [done|lia|lia|lia|lia].
  - intros i d. split_and!; [done|lia|lia|done].
  - intros i. split_and!; [done|lia|lia].
  - intros i. split_and!; [done|lia|lia].
Defined.

Definition demo_fuel : nat := 60.
Abbreviation demo_reachable := (reachable (T := Script) (SU := simdutf8_std) test_arch (fun _ => 0) Client Config.default None).

(** A text is split over two reads; then nothing more arrives. *)
Definition demo_input : Script := MkScript [Ok [0x81; 2; 65]; Ok [66]] [] [100] [] 0.

Lemma stream_delivers_witness : exists s' i' r,
  poll_next (SU := simdutf8_std) test_arch (fun _ => 0) demo_fuel 1 (client Config.default, demo_input) = Done (s', i') (Ok r) /\
  (forall more, bytes_ok more -> exists rest, fst (ref_run (ref_frame (SU := simdutf8_std) (Config.max_message_size Config.default) true)
     (initial_policy Client (Config.max_frame_size Config.default)) None (taken i' ++ more)) = [] ++ delivered r ++ rest) /\
  (r = Pending -> closing_deadline s' = None -> fst (ref_run (ref_frame (SU := simdutf8_std) (Config.max_message_size Config.default) true)
     (initial_policy Client (Config.max_frame_size Config.default)) None (taken i')) = []).
Proof.
  apply (stream_delivers (SU := simdutf8_std) (SUok := simdutf8_std_spec) test_arch (fun _ => 0) ltac:(by vm_compute) Client Config.default None [] (client Config.default) demo_input);
    [constructor|by apply r_start|unfold enough, demo_fuel; cbn; lia].
Defined.

(** The transport ends. *)
Definition demo_end : Script := MkScript [Ok []] [] [100] [] 0.


(** A local Close at time 0 with the output blocked, polled again after six seconds. *)
Definition demo_blocked (now : Z) : Script := MkScript [] [] [] [] now.

Lemma closing_bounded_witness : exists s, closing_deadline s = Some 5000 /\ demo_reachable [] s (demo_blocked 6000) /\
  (exists w r, poll_next (SU := simdutf8_std) test_arch (fun _ => 0) demo_fuel 1 (s, demo_blocked 6000) = Done w (Ok (Ready r))) /\
  (exists w r, poll_flush demo_fuel 1 (s, demo_blocked 6000) = Done w (Ok (Ready r))) /\
  (exists w r, poll_close demo_fuel 1 (s, demo_blocked 6000) = Done w (Ok (Ready r))).
Proof.
  eexists ?[s]. assert (Hr : demo_reachable [] ?s (demo_blocked 6000)).
  { eapply (r_world _ _ _ _ _ [] _ (demo_blocked 0)); [|reflexivity|cbn; lia].
    eapply (r_close_start _ _ _ _ _ [] _ (demo_blocked 0) 1000 []); [by apply r_start|]. vm_compute. reflexivity. }
  split; [|split; [exact Hr|]]; [reflexivity|].
  apply (closing_bounded (SU := simdutf8_std) (SUok := simdutf8_std_spec) test_arch (fun _ => 0) ltac:(by vm_compute) Client Config.default None [] _ (demo_blocked 6000) 5000 demo_fuel 1);
    [constructor|exact Hr|reflexivity|cbn; lia|unfold enough, demo_fuel; cbn; lia].
Defined.

(** ** Sending after the peer's Close

    The state stays [Open] when a Close arrives, until its answer is flushed. *)

Definition got_close : Script := MkScript [Ok [0x88; 2; 3; 232]] [] [] [] 0.

Definition world_after {E A} (r : run E (t * Script) A) : t * Script := match r with Done w _ => w | _ => (client Config.default, got_close) end.
Definition close_read : t * Script := world_after (poll_next (SU := simdutf8_std) test_arch (fun _ => 0) demo_fuel 1 (client Config.default, got_close)).
Definition data_queued : t * Script := fst (start_send (Message.Text [65]) close_read).

(** When the peer's Close has been read and its answer cannot be written yet, the sink is still ready: a message is accepted and queued behind the
    Close frame of the answer, and closing the sink queues a second Close frame. *)
Theorem send_after_peer_close : exists w1 w2 w3,
  poll_next (SU := simdutf8_std) test_arch (fun _ => 0) demo_fuel 1 (client Config.default, got_close) = Done w1 (Ok Pending) /\
  buffer (fst w1) = [136; 130; 0; 0; 0; 0; 3; 232] /\
  poll_ready 1 w1 = Done w1 (Ok (Ready (Ok tt))) /\
  start_send (Message.Text [65]) w1 = (w2, Ok tt) /\
  buffer (fst w2) = buffer (fst w1) ++ [129; 129; 0; 0; 0; 0; 65] /\
  poll_close demo_fuel 1 w2 = Done w3 (Ok Pending) /\
  buffer (fst w3) = buffer (fst w2) ++ [136; 130; 0; 0; 0; 0; 3; 232].
Proof. exists close_read, data_queued, (world_after (poll_close demo_fuel 1 data_queued)). split_and!; vm_compute; reflexivity. Qed.
