(* ===== verification/Pool.v ===== *)
(** * Compression contexts and the shared pool (src/src/compression.rs)

    A connection compresses with an encoder of its own or with one of the four of a pool that other connections use at the same time.  Pools live in a
    heap, as the server and the client side of one may share their encoders ([Arc::clone]), and choosing an encoder ([fetch_add]) and
    using it ([lock]) are separate steps.  Whatever the threads do, every message is recovered by the peer. *)

From stdpp Require Import base list option strings.
From S2P Require Import Prelude Error Deflate Inflate Compressed CompressedSpec DeflateCodec CodecWitness Config.

Definition SHARED_POOL_SIZE : Z := 4.

(** ** Pools *)

Module SharedEncoderPool.
Record t (E : Type) := Mk { encoders : list E; next_encoder : Z }.
Arguments Mk {E}. Arguments encoders {E}. Arguments next_encoder {E}.

Section encoders.
Context `{Codec E D}.

Definition new (config : DeflateConfig.t) (window_bits : DeflateWindowBits) : t E :=
  Mk (replicate (Z.to_nat SHARED_POOL_SIZE)
        (encoder_new window_bits true (DeflateConfig.compression_level config) (DeflateConfig.compression_threshold config))) 0.

(** [next_encoder.fetch_add(1) % SHARED_POOL_SIZE] *)
Definition select (p : t E) : t E * Z := (Mk (encoders p) (wrap 64 (next_encoder p + 1)), next_encoder p mod SHARED_POOL_SIZE).

(** [encoders[index].lock().compress(data)] *)
Definition compress_at (index : Z) (data : bytes) (p : t E) : comp (t E) (option bytes) :=
  match encoders p !! Z.to_nat index with
  | None => Panic
  | Some e =>
      match codec_compress e data with
      | Done e r => Done (Mk (<[Z.to_nat index := e]> (encoders p)) (next_encoder p)) r
      | Panic => Panic
      | NoFuel => NoFuel
      end
  end.

Definition compress (data : bytes) (p : t E) : comp (t E) (option bytes) :=
  let '(p, index) := select p in compress_at index data p.
End encoders.
End SharedEncoderPool.

(** The addresses of the two sets of encoders. *)
Record SharedCompressorPoolInner := MkInner { server_encoders : nat; client_encoders : nat; pool_config : DeflateConfig.t }.
Record SharedCompressorPool := MkPool { inner : SharedCompressorPoolInner; is_server : bool }.

(** The sets of encoders, and [GLOBAL_POOL]. *)
Record Heap (E : Type) := MkHeap { pools : list (SharedEncoderPool.t E); global_pool : option SharedCompressorPool }.
Arguments MkHeap {E}. Arguments pools {E}. Arguments global_pool {E}.

Section pool.
Context `{Codec E D}.

(** [Arc::new] *)
Definition arc_new (p : SharedEncoderPool.t E) (h : Heap E) : Heap E * nat := (MkHeap (pools h ++ [p]) (global_pool h), length (pools h)).

Definition shared_pool_new (config : DeflateConfig.t) (h : Heap E) : Heap E * SharedCompressorPool :=
  let '(h, server) := arc_new (SharedEncoderPool.new config (DeflateConfig.server_max_window_bits config)) h in
  let '(h, client) :=
    if bool_decide (DeflateConfig.server_max_window_bits config = DeflateConfig.client_max_window_bits config) then (h, server)
    else arc_new (SharedEncoderPool.new config (DeflateConfig.client_max_window_bits config)) h in
  (h, MkPool (MkInner server client config) true).

Definition for_role (p : SharedCompressorPool) (is_server : bool) : SharedCompressorPool := MkPool (inner p) is_server.

Definition role_encoders (p : SharedCompressorPool) : nat :=
  if is_server p then server_encoders (inner p) else client_encoders (inner p).

(** A step on the encoders at an address. *)
Definition select_at (r : nat) (h : Heap E) : comp (Heap E) Z :=
  match pools h !! r with
  | None => Panic
  | Some p => let '(p, index) := SharedEncoderPool.select p in Done (MkHeap (<[r := p]> (pools h)) (global_pool h)) (Ok index)
  end.
Definition compress_slot (r : nat) (index : Z) (data : bytes) (h : Heap E) : comp (Heap E) (option bytes) :=
  match pools h !! r with
  | None => Panic
  | Some p =>
      match SharedEncoderPool.compress_at index data p with
      | Done p result => Done (MkHeap (<[r := p]> (pools h)) (global_pool h)) result
      | Panic => Panic
      | NoFuel => NoFuel
      end
  end.

(** [SharedCompressorPool::compress], undisturbed: both steps *)
Definition shared_compress (p : SharedCompressorPool) (data : bytes) (h : Heap E) : comp (Heap E) (option bytes) :=
  match pools h !! role_encoders p with
  | None => Panic
  | Some encoders =>
      match SharedEncoderPool.compress data encoders with
      | Done encoders result => Done (MkHeap (<[role_encoders p := encoders]> (pools h)) (global_pool h)) result
      | Panic => Panic
      | NoFuel => NoFuel
      end
  end.

Definition global_shared_pool (h : Heap E) : comp (Heap E) SharedCompressorPool :=
  match global_pool h with
  | Some p => Done h (Ok p)
  | None =>
      match to_deflate_config Shared with
      | None => Panic
      | Some config => let '(h, p) := shared_pool_new config h in Done (MkHeap (pools h) (Some p)) (Ok p)
      end
  end.
End pool.

(** ** Contexts *)

Module CompressionContext.
Inductive t (E D : Type) :=
  | CDisabled
  | CDedicated (ctx : DeflateContext.t E D)
  | CShared (pool : SharedCompressorPool) (decoder : D) (config : DeflateConfig.t).
Arguments CDisabled {E D}. Arguments CDedicated {E D}. Arguments CShared {E D}.

Section context.
Context `{Codec E D}.

Definition with_shared_pool (pool : SharedCompressorPool) (is_server : bool) : t E D :=
  let config := pool_config (inner pool) in
  let decoder := if is_server then decoder_new (DeflateConfig.client_max_window_bits config) (DeflateConfig.client_no_context_takeover config)
                 else decoder_new (DeflateConfig.server_max_window_bits config) (DeflateConfig.server_no_context_takeover config) in
  CShared (for_role pool is_server) decoder config.

Definition server (mode : Compression) (h : Heap E) : comp (Heap E) (t E D) :=
  match to_deflate_config mode with
  | None => Done h (Ok CDisabled)
  | Some config =>
      if is_shared mode then let! (h, pool) := global_shared_pool h in Done h (Ok (with_shared_pool pool true))
      else Done h (Ok (CDedicated (DeflateContext.server config)))
  end.

Definition client (mode : Compression) (h : Heap E) : comp (Heap E) (t E D) :=
  match to_deflate_config mode with
  | None => Done h (Ok CDisabled)
  | Some config =>
      if is_shared mode then let! (h, pool) := global_shared_pool h in Done h (Ok (with_shared_pool pool false))
      else Done h (Ok (CDedicated (DeflateContext.client config)))
  end.

Definition is_enabled (c : t E D) : bool := match c with CDisabled => false | _ => true end.

Definition config (c : t E D) : option DeflateConfig.t :=
  match c with
  | CDisabled => None
  | CDedicated ctx => Some (DeflateContext.config ctx)
  | CShared _ _ config => Some config
  end.

(** [compress] up to the lock of a shared encoder: the result, or the encoder chosen. *)
Definition compress_begin (c : t E D) (data : bytes) (h : Heap E) :
    comp (t E D * Heap E) (option bytes + nat * Z) :=
  match c with
  | CDisabled => Done (c, h) (Ok (inl None))
  | CDedicated ctx =>
      match DeflateContext.compress ctx data with
      | Done ctx (Ok r) => Done (CDedicated ctx, h) (Ok (inl r))
      | Done ctx (Err e) => Done (CDedicated ctx, h) (Err e)
      | Panic => Panic
      | NoFuel => NoFuel
      end
  | CShared pool _ config =>
      if len data <? DeflateConfig.compression_threshold config then Done (c, h) (Ok (inl None))
      else
        match select_at (role_encoders pool) h with
        | Done h (Ok index) => Done (c, h) (Ok (inr (role_encoders pool, index)))
        | Done h (Err e) => Done (c, h) (Err e)
        | Panic => Panic
        | NoFuel => NoFuel
        end
  end.

Definition decompress (c : t E D) (data : bytes) (max_size : Z) : comp (t E D) bytes :=
  match c with
  | CDisabled => Done c (Ok data)
  | CDedicated ctx =>
      match DeflateContext.decompress ctx data max_size with
      | Done ctx r => Done (CDedicated ctx) r
      | Panic => Panic
      | NoFuel => NoFuel
      end
  | CShared pool decoder config =>
      match codec_decompress decoder data max_size with
      | Done decoder r => Done (CShared pool decoder config) r
      | Panic => Panic
      | NoFuel => NoFuel
      end
  end.
End context.
End CompressionContext.

(** ** Interleavings

    Connections between endpoints of one process; the messages that wait for the lock of a pool's encoder; the messages handed over, each as sent and as received. *)

Section world.
Context `{Codec E D}.
Import CompressionContext.

Record Waiting := MkWaiting { conn : nat; from_server : bool; payload : bytes; address : nat; slot : Z }.
Record World := MkWorld { heap : Heap E; conns : list (t E D * t E D); waiting : list Waiting; delivered : list (bytes * bytes) }.

Definition sender (from_server : bool) (c : t E D * t E D) : t E D := if from_server then fst c else snd c.
Definition receiver (from_server : bool) (c : t E D * t E D) : t E D := sender (negb from_server) c.
Definition set_sender (from_server : bool) (x : t E D) (c : t E D * t E D) : t E D * t E D :=
  if from_server then (x, snd c) else (fst c, x).

(** What was compressed is decompressed by the peer; the rest is sent as it is. *)
Definition hand_over (max : Z) (k : nat) (from_server : bool) (data : bytes) (result : option bytes) (w : World) : comp World unit :=
  match result with
  | None => Done (MkWorld (heap w) (conns w) (waiting w) (delivered w ++ [(data, data)])) (Ok tt)
  | Some z =>
      match conns w !! k with
      | None => Panic
      | Some c =>
          match decompress (receiver from_server c) z max with
          | Done x (Ok out) =>
              Done (MkWorld (heap w) (<[k := set_sender (negb from_server) x c]> (conns w)) (waiting w) (delivered w ++ [(data, out)])) (Ok tt)
          | Done x (Err e) => Done w (Err e)
          | Panic => Panic
          | NoFuel => NoFuel
          end
      end
  end.

Inductive event :=
  | Open (mode : Compression)
  | OpenPool (config : DeflateConfig.t)
  | Begin (k : nat) (from_server : bool) (data : bytes)
  | Finish (n : nat).

Definition connect (h : Heap E) (s c : t E D) (w : World) : World := MkWorld h (conns w ++ [(s, c)]) (waiting w) (delivered w).

Definition begin (max : Z) (k : nat) (from_server : bool) (data : bytes) (w : World) : comp World unit :=
  match conns w !! k with
  | None => Done w (Ok tt)
  | Some c =>
      match compress_begin (sender from_server c) data (heap w) with
      | Done (x, h) (Ok r) =>
          let w := MkWorld h (<[k := set_sender from_server x c]> (conns w)) (waiting w) (delivered w) in
          match r with
          | inl result => hand_over max k from_server data result w
          | inr (r, index) => Done (MkWorld (heap w) (conns w) (waiting w ++ [MkWaiting k from_server data r index]) (delivered w)) (Ok tt)
          end
      | Done _ (Err e) => Done w (Err e)
      | Panic => Panic
      | NoFuel => NoFuel
      end
  end.

Definition finish (max : Z) (n : nat) (w : World) : comp World unit :=
  match waiting w !! n with
  | None => Done w (Ok tt)
  | Some m =>
      match compress_slot (address m) (slot m) (payload m) (heap w) with
      | Done h (Ok result) =>
          hand_over max (conn m) (from_server m) (payload m) result (MkWorld h (conns w) (delete n (waiting w)) (delivered w))
      | Done _ (Err e) => Done w (Err e)
      | Panic => Panic
      | NoFuel => NoFuel
      end
  end.

Definition act (max : Z) (ev : event) (w : World) : comp World unit :=
  match ev with
  | Open mode =>
      match server mode (heap w) with
      | Done h (Ok s) =>
          match client mode h with
          | Done h (Ok c) => Done (connect h s c w) (Ok tt)
          | Done _ (Err e) => Done w (Err e)
          | Panic => Panic
          | NoFuel => NoFuel
          end
      | Done _ (Err e) => Done w (Err e)
      | Panic => Panic
      | NoFuel => NoFuel
      end
  | OpenPool config => let '(h, p) := shared_pool_new config (heap w) in Done (connect h (with_shared_pool p true) (with_shared_pool p false) w) (Ok tt)
  | Begin k from_server data => begin max k from_server data w
  | Finish n => finish max n w
  end.

Fixpoint acts (max : Z) (evs : list event) (w : World) : comp World unit :=
  match evs with
  | [] => Done w (Ok tt)
  | ev :: evs => let! (w, _u) := act max ev w in acts max evs w
  end.

Definition world_new : World := MkWorld (MkHeap [] None) [] [] [].

(** The messages of a run on connections that were open: those handed over and those that still wait. *)
Definition accounted (w : World) : list bytes := map fst (delivered w) ++ map payload (waiting w).
Fixpoint begun (n : nat) (evs : list event) : list bytes :=
  match evs with
  | [] => []
  | (Open _ | OpenPool _) :: evs => begun (S n) evs
  | Begin k _ data :: evs => if (k <? n)%nat then data :: begun n evs else begun n evs
  | Finish _ :: evs => begun n evs
  end.
End world.
Arguments World E D : clear implicits.

(** The two steps of the interleaving, one after the other, are the call. *)
Lemma shared_compress_steps `{Codec E D} p data (h : Heap E) :
  shared_compress p data h = (let! (h, index) := select_at (role_encoders p) h in compress_slot (role_encoders p) index data h).
Proof.
  unfold shared_compress, select_at. destruct (pools h !! role_encoders p) as [x|] eqn:Ep; [|done].
  unfold SharedEncoderPool.compress. destruct (SharedEncoderPool.select x) as [x' index]. cbn. unfold compress_slot. cbn.
  rewrite list_lookup_insert_eq by (by eapply lookup_lt_Some). destruct (SharedEncoderPool.compress_at index data x') as [y r| |]; [|done..].
  by rewrite list_insert_insert_eq.
Qed.

(** ** What the pool relies on *)

(** [encoder_for w e]: without takeover and with window [w], its messages depend on nothing before; [decoder_for w d] likewise.  A fresh pair with one
    window and one takeover setting is in step. *)
Class CodecFresh (E D : Type) `{CodecSync E D} := {
  encoder_for : DeflateWindowBits -> E -> Prop;
  decoder_for : DeflateWindowBits -> D -> Prop;
  encoder_for_new w level threshold : encoder_for w (encoder_new w true level threshold);
  decoder_for_new w : decoder_for w (decoder_new w true);
  fresh_sync w takeover level threshold : in_sync (encoder_new w takeover level threshold) (decoder_new w takeover);
  compress_for w e data : encoder_for w e -> len data <= 400000000 -> bytes_ok data ->
    exists e' r, codec_compress e data = Done e' (Ok r) /\ encoder_for w e' /\
      match r with
      | None => True
      | Some z => forall d max, decoder_for w d -> len data <= max <= 400000000 ->
          exists d', codec_decompress d z max = Done d' (Ok data) /\ decoder_for w d'
      end
}.

#[export] Instance deflate_fresh {C S : Type} `{DeflatesInit C S} `{AllocBounds} : CodecFresh (DeflateEncoder.t C) (DeflateDecoder S).
Proof.
  refine {| encoder_for w e := DeflateEncoder.no_context_takeover e = true /\ (forall s : S, window s = to_u8 w -> follows (DeflateEncoder.compress_state e) (zlib_reset false s) [] []);
            decoder_for w d := no_context_takeover d = true /\ window (decompress_state d) = to_u8 w |}.
  - intros w level threshold. split; [done|]. intros s Hs. apply fresh_reset. lia.
  - intros w. split; [done|]. apply init_window.
  - intros w [] level threshold; (split; [done|]); cbn; [intros s Hs; apply fresh_reset; rewrite Hs, init_window; lia|by apply fresh_follows].
  - intros w e data [Ht He] Hl Hok. set (s := zlib_reset false (zlib_init w) : S).
    assert (Hs : window s = to_u8 w) by (unfold s; rewrite reset_window; apply init_window).
    destruct (follows_message true _ s data (He _ (init_window w)) Hok Hl) as (out & c' & Henc & _ & Hol & _ & Hfull).
    cbn [codec_compress codec_decompress deflate_codec]. rewrite (compress_ok e data out c'); [|by rewrite Ht|done|done].
    destruct (len data <? DeflateEncoder.threshold e) eqn:Eth; [by exists e, None|]. rewrite Ht. cbn [andb].
    assert (He' : forall s : S, window s = to_u8 w -> follows c' (zlib_reset false s) [] []) by (intros s1 Hs1; apply Hfull; [done|congruence]).
    destruct (len data <=? len out) eqn:Eskip; eexists _, _; (split; [done|]); (split; [done|]); [done|].
    intros d max [Hd Hw] Hm. assert (Hsd : window (start d) = to_u8 w) by (by rewrite window_start).
    assert (Hf : follows (DeflateEncoder.compress_state e) (start d) [] []) by (unfold start, raw_reset; rewrite Hd; by apply He).
    destruct (follows_message true _ (start d) data Hf Hok Hl) as (out2 & c2 & Henc2 & _ & Hol2 & Hf2 & _).
    pose proof (compress_ok e data out2 c2 ltac:(by rewrite Ht) Hol2 Hl) as E2.
    rewrite (compress_ok e data out c') in E2 by (done || by rewrite Ht). rewrite Eth, Ht, Eskip in E2. cbn [andb] in E2.
    assert (Eo : out = out2) by (destruct (len data <=? len out2); congruence). subst out2.
    destruct (decompress_follows c2 d out max data Hf2 Hol Hm) as (s1 & E1 & _ & Hw1). eexists. split; [exact E1|]. split; [done|]. cbn. congruence.
Defined.

(** ** The invariant *)

Section Recover.
Context `{CodecFresh E D}.
Context (max : Z) (Hmax : max <= 400000000).
Import CompressionContext.

Abbreviation Heap := (Heap E).
Abbreviation World := (World E D).
Abbreviation endpoint := (CompressionContext.t E D).

Definition pool_has (h : Heap) (r : nat) (w : DeflateWindowBits) : Prop := exists p, pools h !! r = Some p /\
  length (SharedEncoderPool.encoders p) = Z.to_nat SHARED_POOL_SIZE /\ Forall (encoder_for w) (SharedEncoderPool.encoders p).

(** Encoders change, but never what they are good for. *)
Definition grows (h h' : Heap) : Prop := forall r w, pool_has h r w -> pool_has h' r w.
#[local] Instance grows_preorder : PreOrder grows.
Proof. split; [by intros h r w|]. intros h1 h2 h3 H12 H23 r w Hp. by apply H23, H12. Qed.

Definition resets (c : DeflateConfig.t) : Prop := DeflateConfig.server_no_context_takeover c = true /\ DeflateConfig.client_no_context_takeover c = true.

Definition pool_ok (h : Heap) (p : SharedCompressorPool) : Prop :=
  let c := pool_config (inner p) in resets c /\
  pool_has h (server_encoders (inner p)) (DeflateConfig.server_max_window_bits c) /\
  pool_has h (client_encoders (inner p)) (DeflateConfig.client_max_window_bits c).

(** What [a] compresses next, [b] can decompress. *)
Definition link (h : Heap) (a b : endpoint) : Prop :=
  match a, b with
  | CDisabled, CDisabled => True
  | CDedicated x, CDedicated y => in_sync (DeflateContext.encoder x) (DeflateContext.decoder y)
  | CShared p _ _, CShared _ d _ => exists w, pool_has h (role_encoders p) w /\ decoder_for w d
  | _, _ => False
  end.

Definition conn_ok (h : Heap) (c : endpoint * endpoint) : Prop := forall from_server, link h (sender from_server c) (receiver from_server c).
Definition data_ok (data : bytes) : Prop := bytes_ok data /\ len data <= max.
Definition waiting_ok (cs : list (endpoint * endpoint)) (m : Waiting) : Prop := data_ok (payload m) /\ 0 <= slot m < SHARED_POOL_SIZE /\
  exists c p d cfg, cs !! conn m = Some c /\ sender (from_server m) c = CShared p d cfg /\ address m = role_encoders p.
Definition global_ok (h : Heap) : Prop := match global_pool h with Some p => pool_ok h p | None => True end.
Definition same (x : bytes * bytes) : Prop := fst x = snd x.

Definition world_ok (w : World) : Prop := global_ok (heap w) /\ (forall k c, conns w !! k = Some c -> conn_ok (heap w) c) /\
  Forall (waiting_ok (conns w)) (waiting w) /\ Forall same (delivered w).

(** The same but for the decoder, or but for the encoder. *)
Definition same_encoder (a b : endpoint) : Prop :=
  match a, b with
  | CDisabled, CDisabled => True
  | CDedicated x, CDedicated y => DeflateContext.encoder x = DeflateContext.encoder y
  | CShared p _ c, CShared q _ c' => p = q /\ c = c'
  | _, _ => False
  end.
Definition same_decoder (a b : endpoint) : Prop :=
  match a, b with
  | CDisabled, CDisabled => True
  | CDedicated x, CDedicated y => DeflateContext.decoder x = DeflateContext.decoder y
  | CShared p d c, CShared q d' c' => p = q /\ d = d' /\ c = c'
  | _, _ => False
  end.
Definition received (h : Heap) (a b : endpoint) (data z : bytes) : Prop :=
  exists b', decompress b z max = Done b' (Ok data) /\ link h a b' /\ same_encoder b b'.

Lemma grows_link h h' a b : grows h h' -> link h a b -> link h' a b.
Proof. intros Hg. destruct a, b; cbn; try done. intros (w & Hp & Hd). exists w. split; [by apply Hg|done]. Qed.
Lemma grows_global h h' : grows h h' -> global_pool h' = global_pool h -> global_ok h -> global_ok h'.
Proof. intros Hg Eg. unfold global_ok. rewrite Eg. destruct (global_pool h); [|done]. intros (? & ? & ?). split_and!; [done|by apply Hg..]. Qed.
Lemma link_same_encoder h a a' b : same_encoder a a' -> link h a b -> link h a' b.
Proof. destruct a, a', b; cbn; try done; [by intros ->|]. by intros [-> _]. Qed.
Lemma link_same_decoder h a b b' : same_decoder b b' -> link h a b -> link h a b'.
Proof. destruct a, b, b'; cbn; try done; [by intros ->|]. by intros (_ & -> & _). Qed.

Lemma sender_set dir (x : endpoint) c : sender dir (set_sender dir x c) = x.
Proof. by destruct dir. Qed.
Lemma receiver_set dir (x : endpoint) c : receiver dir (set_sender dir x c) = receiver dir c.
Proof. by destruct dir. Qed.
Lemma sender_set_other dir (x : endpoint) c : sender dir (set_sender (negb dir) x c) = sender dir c.
Proof. by destruct dir. Qed.
Lemma receiver_set_other dir (x : endpoint) c : receiver dir (set_sender (negb dir) x c) = x.
Proof. by destruct dir. Qed.

Lemma conn_ok_both h dir c : link h (sender dir c) (receiver dir c) -> link h (receiver dir c) (sender dir c) -> conn_ok h c.
Proof. intros H1' H2'. intros dir'. by destruct dir, dir'. Qed.

(** *** Steps on the heap *)

Lemma grows_update h r p p' : pools h !! r = Some p -> length (SharedEncoderPool.encoders p') = length (SharedEncoderPool.encoders p) ->
  (forall w, Forall (encoder_for w) (SharedEncoderPool.encoders p) -> Forall (encoder_for w) (SharedEncoderPool.encoders p')) ->
  grows h (MkHeap (<[r := p']> (pools h)) (global_pool h)).
Proof.
  intros Hp Hl Hw r' w (q & Hq & Hlq & Hqw). destruct (decide (r = r')) as [<-|Hne].
  - exists p'. cbn. rewrite list_lookup_insert_eq by (by eapply lookup_lt_Some). rewrite Hp in Hq. injection Hq as ->.
    split_and!; [done|congruence|by apply Hw].
  - exists q. cbn. by rewrite list_lookup_insert_ne.
Qed.

Lemma select_at_ok h r w : pool_has h r w -> exists h' index, select_at r h = Done h' (Ok index) /\ 0 <= index < SHARED_POOL_SIZE /\
  grows h h' /\ global_pool h' = global_pool h.
Proof.
  intros (p & Hp & Hl & Hw). unfold select_at. rewrite Hp. cbn. eexists _, _. split; [done|]. split; [unfold SHARED_POOL_SIZE; apply Z.mod_pos_bound; lia|].
  split; [|done]. by eapply grows_update.
Qed.

Lemma compress_slot_ok h r w index data : pool_has h r w -> 0 <= index < SHARED_POOL_SIZE -> data_ok data ->
  exists h' result, compress_slot r index data h = Done h' (Ok result) /\ grows h h' /\ global_pool h' = global_pool h /\
    match result with
    | None => True
    | Some z => forall d, decoder_for w d -> exists d', codec_decompress d z max = Done d' (Ok data) /\ decoder_for w d'
    end.
Proof.
  intros (p & Hp & Hl & Hw) Hi [Hok Hd]. unfold compress_slot, SharedEncoderPool.compress_at. rewrite Hp.
  destruct (lookup_lt_is_Some_2 (SharedEncoderPool.encoders p) (Z.to_nat index)) as [e He]; [lia|]. rewrite He.
  destruct (compress_for w e data) as (e' & result & Ec & He' & Hr); [by eapply Forall_lookup_1|lia|done|]. rewrite Ec.
  eexists _, _. split; [done|]. split.
  - eapply grows_update; [done|cbn; by rewrite length_insert|]. intros w0 Hw0. cbn. apply Forall_insert; [done|].
    destruct (compress_for w0 e data) as (e2 & r2 & Ec2 & He2 & _); [by eapply Forall_lookup_1|lia|done|]. congruence.
  - split; [done|]. destruct result as [z|]; [|done]. intros d Hdf. apply Hr; [done|lia].
Qed.

Lemma pool_has_new h c w : pool_has (fst (arc_new (SharedEncoderPool.new c w) h)) (snd (arc_new (SharedEncoderPool.new c w) h)) w.
Proof.
  eexists. cbn. rewrite lookup_app_r, Nat.sub_diag by lia. split; [done|]. split; [done|]. repeat constructor; apply encoder_for_new.
Qed.
Lemma grows_arc h p : grows h (fst (arc_new p h)).
Proof. intros r w (q & Hq & ?). exists q. cbn. split; [by apply lookup_app_l_Some|done]. Qed.

Lemma shared_pool_new_ok c h : resets c -> exists h' p, shared_pool_new c h = (h', p) /\ grows h h' /\ global_pool h' = global_pool h /\ pool_ok h' p.
Proof.
  intros Hc. unfold shared_pool_new. pose proof (pool_has_new h c (DeflateConfig.server_max_window_bits c)) as Hs.
  pose proof (grows_arc h (SharedEncoderPool.new c (DeflateConfig.server_max_window_bits c))) as Hg.
  destruct (arc_new _ h) as [h1 r1] eqn:E1. cbn [fst snd] in *. assert (Hgl : global_pool h1 = global_pool h) by (by injection E1 as <- _).
  case_bool_decide as Eb.
  - eexists _, _. split; [done|]. split_and!; [done..|]. split; [done|]. split; [done|]. cbn. by rewrite <- Eb.
  - pose proof (pool_has_new h1 c (DeflateConfig.client_max_window_bits c)) as Hs2.
    pose proof (grows_arc h1 (SharedEncoderPool.new c (DeflateConfig.client_max_window_bits c))) as Hg2.
    destruct (arc_new _ h1) as [h2 r2] eqn:E2. cbn [fst snd] in *. assert (global_pool h2 = global_pool h1) by (by injection E2 as <- _).
    eexists _, _. split; [done|]. split_and!; [by etrans|congruence|]. split; [done|]. split; [by apply Hg2|done].
Qed.

Lemma global_pool_ok h : global_ok h -> exists h' p, global_shared_pool h = Done h' (Ok p) /\ grows h h' /\ global_pool h' = Some p /\ pool_ok h' p.
Proof.
  intros Hg. unfold global_shared_pool. destruct (global_pool h) as [p|] eqn:Eg.
  - exists h, p. unfold global_ok in Hg. by rewrite Eg in Hg.
  - set (c := DeflateConfig.Mk Bits15 Bits15 true true 6 16). change (to_deflate_config Shared) with (Some c). cbv iota.
    destruct (shared_pool_new_ok c h) as (h' & p & -> & Hgr & _ & Hp); [done|].
    eexists _, _. split; [done|]. split_and!; done.
Qed.

Lemma shared_conn_ok h p : pool_ok h p -> conn_ok h (with_shared_pool p true, with_shared_pool p false).
Proof.
  intros ([Hcs Hcc] & Hs & Hc). intros []; cbn; [exists (DeflateConfig.server_max_window_bits (pool_config (inner p)))|exists (DeflateConfig.client_max_window_bits (pool_config (inner p)))];
    (split; [done|]); rewrite ?Hcs, ?Hcc; apply decoder_for_new.
Qed.

(** *** Steps of the world *)

Lemma waiting_update dir k c x cs m : cs !! k = Some c -> (same_encoder (sender dir c) x \/ same_decoder (sender dir c) x) ->
  waiting_ok cs m -> waiting_ok (<[k := set_sender dir x c]> cs) m.
Proof.
  intros Hk Hs (Hd & Hi & c' & p & d & cfg & Hc' & Hse & Ha). split; [done|]. split; [done|].
  destruct (decide (k = conn m)) as [->|Hne]; [|exists c', p, d, cfg; by rewrite list_lookup_insert_ne].
  rewrite list_lookup_insert_eq by (by eapply lookup_lt_Some). rewrite Hk in Hc'. injection Hc' as <-.
  assert (Hx : exists d', (if bool_decide (from_server m = dir) then x else sender (from_server m) c) = CShared p d' cfg).
  { case_bool_decide as Ed; [|by eexists]. subst dir. rewrite Hse in Hs. destruct x; cbn in Hs; try by destruct Hs.
    destruct Hs as [[-> ->]|(-> & _ & ->)]; by eexists. }
  destruct Hx as [d' Hx]. exists (set_sender dir x c), p, d', cfg. split; [done|]. split; [|done]. rewrite <- Hx. by destruct (from_server m), dir.
Qed.

Lemma hand_over_ok k dir data result w c : conns w !! k = Some c -> data_ok data ->
  global_ok (heap w) -> (forall j c', j <> k -> conns w !! j = Some c' -> conn_ok (heap w) c') -> link (heap w) (receiver dir c) (sender dir c) ->
  Forall (waiting_ok (conns w)) (waiting w) -> Forall same (delivered w) ->
  match result with None => link (heap w) (sender dir c) (receiver dir c) | Some z => received (heap w) (sender dir c) (receiver dir c) data z end ->
  exists w', hand_over max k dir data result w = Done w' (Ok tt) /\ world_ok w'.
Proof.
  intros Hk Hd Hg Hcs Hback Hw Hdel Hr. assert (Hdel' : Forall same (delivered w ++ [(data, data)])) by (apply Forall_app; split; [done|by repeat constructor]).
  destruct result as [z|]; cbn [hand_over].
  - destruct Hr as (b' & Ed & Hl & Hse). rewrite Hk, Ed. eexists. split; [done|]. split_and!; [done| |cbn|done].
    + intros j c' Hj. cbn in Hj. destruct (decide (j = k)) as [->|Hne].
      * rewrite list_lookup_insert_eq in Hj by (by eapply lookup_lt_Some). injection Hj as <-.
        apply (conn_ok_both _ dir); rewrite sender_set_other, receiver_set_other; [done|by eapply link_same_encoder].
      * rewrite list_lookup_insert_ne in Hj by done. by apply (Hcs j).
    + eapply Forall_impl; [exact Hw|]. intros m. eapply waiting_update; [done|]. left. exact Hse.
  - eexists. split; [done|]. split_and!; [done| |done|done]. intros j c' Hj. cbn in Hj. destruct (decide (j = k)) as [->|Hne]; [|by apply (Hcs j)].
    rewrite Hk in Hj. injection Hj as <-. by apply (conn_ok_both _ dir).
Qed.

(** The first half of a call. *)
Lemma compress_begin_ok a b data h : link h a b -> data_ok data ->
  exists a' h' r, compress_begin a data h = Done (a', h') (Ok r) /\ grows h h' /\ global_pool h' = global_pool h /\ same_decoder a a' /\
    match r with
    | inl None => link h' a' b
    | inl (Some z) => received h' a' b data z
    | inr (r, index) => link h' a' b /\ 0 <= index < SHARED_POOL_SIZE /\ exists p d cfg, a' = CShared p d cfg /\ r = role_encoders p
    end.
Proof.
  intros Hl [Hok Hd]. destruct a as [|x|p d cfg], b as [|y|q d' cfg']; try done; cbn in Hl.
  - by exists CDisabled, h, (inl None).
  - cbn [compress_begin]. unfold DeflateContext.compress. destruct (compress_sync _ _ data Hl) as (e' & r & -> & Hr); [lia|done|].
    eexists _, h, (inl r). split; [done|]. split_and!; [done..|]. destruct r as [z|]; [|done]. destruct Hr as (_ & _ & Hr).
    destruct (Hr max) as (d' & Ed & Hs); [lia|]. eexists (CDedicated _). cbn [decompress]. unfold DeflateContext.decompress. rewrite Ed. done.
  - destruct Hl as (w & Hp & Hdf). cbn [compress_begin]. destruct (len data <? _); [by exists (CShared p d cfg), h, (inl None); split_and!; try done; exists w|].
    destruct (select_at_ok h (role_encoders p) w Hp) as (h' & index & -> & Hi & Hg & Eg).
    eexists _, h', (inr (role_encoders p, index)). split; [done|]. split_and!; try done; [exists w; split; [by apply Hg|done]|lia|lia|by eexists _, _, _].
Qed.

Lemma begin_ok k dir data w : world_ok w -> data_ok data -> exists w', begin max k dir data w = Done w' (Ok tt) /\ world_ok w'.
Proof.
  intros (Hg & Hcs & Hw & Hdel) Hd. unfold begin. destruct (conns w !! k) as [c|] eqn:Hk; [|by exists w].
  destruct (compress_begin_ok _ _ data (heap w) (Hcs k c Hk dir) Hd) as (a' & h' & r & -> & Hgr & Eg & Hsd & Hr).
  set (w1 := MkWorld h' _ _ _). assert (Hk1 : conns w1 !! k = Some (set_sender dir a' c)) by (cbn; by rewrite list_lookup_insert_eq by (by eapply lookup_lt_Some)).
  assert (Hg1 : global_ok (heap w1)) by (by eapply grows_global).
  assert (Hcs1 : forall j c', j <> k -> conns w1 !! j = Some c' -> conn_ok (heap w1) c').
  { intros j c' Hj Hc'. cbn in Hc'. rewrite list_lookup_insert_ne in Hc' by done. intros dir'. eapply grows_link; [done|]. by apply (Hcs j). }
  assert (Hback : link (heap w1) (receiver dir (set_sender dir a' c)) (sender dir (set_sender dir a' c))).
  { rewrite sender_set, receiver_set. eapply link_same_decoder; [done|]. eapply grows_link; [done|]. pose proof (Hcs k c Hk (negb dir)) as Hb. by destruct dir. }
  assert (Hw1 : Forall (waiting_ok (conns w1)) (waiting w1)).
  { eapply Forall_impl; [exact Hw|]. intros m. eapply waiting_update; [done|]. by right. }
  destruct r as [result|[r index]].
  - eapply (hand_over_ok k dir data result w1 _ Hk1 Hd Hg1 Hcs1 Hback Hw1 Hdel). rewrite sender_set, receiver_set. by destruct result.
  - destruct Hr as (Hl & Hi & p & d & cfg & -> & ->). eexists. split; [done|]. split_and!; [done| |cbn|done].
    + intros j c' Hj. destruct (decide (j = k)) as [->|Hne]; [|by apply (Hcs1 j)]. change (conns w1 !! k = Some c') in Hj. rewrite Hk1 in Hj. injection Hj as <-.
      apply (conn_ok_both _ dir); [by rewrite sender_set, receiver_set|exact Hback].
    + apply Forall_app. split; [exact Hw1|]. constructor; [|constructor]. split; [done|]. split; [done|]. eexists _, p, d, cfg. split; [exact Hk1|]. by rewrite sender_set.
Qed.

Lemma finish_ok n w : world_ok w -> exists w', finish max n w = Done w' (Ok tt) /\ world_ok w'.
Proof.
  intros (Hg & Hcs & Hw & Hdel). unfold finish. destruct (waiting w !! n) as [m|] eqn:Hn; [|by exists w].
  destruct (Forall_lookup_1 _ _ _ _ Hw Hn) as (Hd & Hi & c & p & d & cfg & Hc & Hse & Ea).
  pose proof (Hcs _ c Hc (from_server m)) as Hl. unfold link in Hl. rewrite Hse in Hl. destruct (receiver (from_server m) c) as [| |q d' cfg'] eqn:Hre; try done.
  destruct Hl as (v & Hp & Hdf). rewrite Ea. destruct (compress_slot_ok (heap w) _ v (slot m) (payload m) Hp Hi Hd) as (h' & result & -> & Hgr & Eg & Hr).
  assert (Hl : forall dir, link h' (sender dir c) (receiver dir c)) by (intros dir; eapply grows_link; [done|]; by apply (Hcs (conn m))).
  apply (hand_over_ok (conn m) (from_server m) (payload m) result (MkWorld h' (conns w) (delete n (waiting w)) (delivered w)) c Hc Hd); cbn [heap conns waiting delivered].
  - by eapply grows_global.
  - intros j c' _ Hj dir. eapply grows_link; [done|]. by apply (Hcs j).
  - pose proof (Hl (negb (from_server m))) as Hb. by destruct (from_server m).
  - by apply Forall_delete.
  - done.
  - destruct result as [z|]; [|apply Hl]. destruct (Hr d' Hdf) as (d2 & Ed & Hd2). rewrite Hre. eexists. cbn [decompress]. rewrite Ed. split; [done|].
    rewrite Hse. split; [|done]. exists v. split; [by apply Hgr|done].
Qed.

Lemma connect_ok h s c w : world_ok w -> grows (heap w) h -> global_ok h -> conn_ok h (s, c) -> world_ok (connect h s c w).
Proof.
  intros (_ & Hcs & Hw & Hdel) Hg Hgl Hc. split_and!; [done| |cbn|done].
  - intros k c' Hk. cbn in *. apply lookup_app_Some in Hk as [Hk|[_ Hk]].
    + intros dir. eapply grows_link; [done|]. by apply (Hcs k).
    + apply list_lookup_singleton_Some in Hk as [_ <-]. done.
  - eapply Forall_impl; [exact Hw|]. intros m (? & ? & c' & p & d & cfg & Hc' & ?). split; [done|]. split; [done|]. exists c', p, d, cfg.
    split; [by apply lookup_app_l_Some|done].
Qed.

Definition event_ok (ev : event) : Prop :=
  match ev with
  | Begin _ _ data => data_ok data
  | OpenPool config => resets config
  | _ => True
  end.

Lemma open_ok mode h : global_ok h -> exists h1 h2 s c, server mode h = Done h1 (Ok s) /\ client mode h1 = Done h2 (Ok c) /\
  grows h h2 /\ global_ok h2 /\ conn_ok h2 (s, c).
Proof.
  intros Hg. unfold server, client. destruct (to_deflate_config mode) as [config|] eqn:Em.
  - destruct (is_shared mode).
    + destruct (global_pool_ok h Hg) as (h1 & p & E1 & Hgr & Eg & Hp). rewrite E1. cbn [run_bind].
      assert (E2 : global_shared_pool h1 = Done h1 (Ok p)) by (unfold global_shared_pool; by rewrite Eg).
      exists h1, h1, (with_shared_pool p true), (with_shared_pool p false). rewrite E2. split_and!; try done; [unfold global_ok; by rewrite Eg|by apply shared_conn_ok].
    + eexists h, h, _, _. split_and!; [done..|]. intros []; apply fresh_sync.
  - exists h, h, CDisabled, CDisabled. split_and!; try done. by intros [].
Qed.

Lemma act_ok ev w : world_ok w -> event_ok ev -> exists w', act max ev w = Done w' (Ok tt) /\ world_ok w'.
Proof.
  intros Hw Hev. destruct ev as [mode|config|k dir data|n]; cbn [act].
  - destruct (open_ok mode (heap w)) as (h1 & h2 & s & c & -> & -> & Hg & Hgl & Hc); [apply Hw|]. eexists. split; [done|]. by apply connect_ok.
  - destruct (shared_pool_new_ok config (heap w) Hev) as (h' & p & -> & Hg & Eg & Hp). eexists. split; [done|].
    apply connect_ok; [done..|eapply grows_global; [done..|apply Hw]|by apply shared_conn_ok].
  - by apply begin_ok.
  - by apply finish_ok.
Qed.

Lemma acts_ok evs : forall w, world_ok w -> Forall event_ok evs -> exists w', acts max evs w = Done w' (Ok tt) /\ world_ok w'.
Proof.
  induction evs as [|ev evs IH]; intros w Hw Hevs; [by exists w|]. apply Forall_cons in Hevs as [Hev Hevs]. cbn [acts].
  destruct (act_ok ev w Hw Hev) as (w1 & -> & Hw1). cbn [run_bind]. by apply IH.
Qed.

(** *** No message is lost *)

Lemma hand_over_accounted k dir data result (w w' : World) : hand_over max k dir data result w = Done w' (Ok tt) ->
  accounted w' ≡ₚ data :: accounted w /\ length (conns w') = length (conns w).
Proof.
  assert (Hp : forall (x : bytes) a b, map fst (a ++ [(data, x)]) ++ b ≡ₚ data :: map fst a ++ b).
  { intros x a b. rewrite map_app, <- app_assoc. symmetry. apply Permutation_middle. }
  unfold hand_over, accounted. destruct result as [z|]; [|by intros [= <-]; cbn].
  destruct (conns w !! k); [|done]. destruct (decompress _ _ _) as [x [out|]| |]; try done. intros [= <-]. cbn [delivered waiting conns].
  by rewrite length_insert.
Qed.

Lemma begin_accounted k dir data (w w' : World) : begin max k dir data w = Done w' (Ok tt) ->
  accounted w' ≡ₚ (if (k <? length (conns w))%nat then [data] else []) ++ accounted w /\ length (conns w') = length (conns w).
Proof.
  unfold begin. destruct (conns w !! k) as [c|] eqn:Hk.
  - replace (k <? length (conns w))%nat with true by (symmetry; apply Nat.ltb_lt; by eapply lookup_lt_Some).
    destruct (compress_begin _ _ _) as [[x h] [[result|[r index]]|]| |]; try done.
    + intros Hh. apply hand_over_accounted in Hh as [Ha Hl]. split; [exact Ha|]. rewrite Hl. cbn. apply length_insert.
    + intros [= <-]. unfold accounted. cbn [delivered waiting conns]. rewrite map_app, length_insert. split; [|done]. cbn.
      rewrite app_assoc. symmetry. apply Permutation_cons_append.
  - replace (k <? length (conns w))%nat with false by (symmetry; apply Nat.ltb_ge; by apply lookup_ge_None). by intros [= <-].
Qed.

Lemma finish_accounted n (w w' : World) : finish max n w = Done w' (Ok tt) -> accounted w' ≡ₚ accounted w /\ length (conns w') = length (conns w).
Proof.
  unfold finish. destruct (waiting w !! n) as [m|] eqn:Hn; [|by intros [= <-]]. destruct (compress_slot _ _ _ _) as [h [result|]| |]; try done.
  intros Hh. apply hand_over_accounted in Hh as [Ha Hl]. split; [|exact Hl]. rewrite Ha. unfold accounted. cbn [delivered waiting].
  pose proof (Permutation_map payload (delete_Permutation (waiting w) n m Hn)) as Hp. cbn [map] in Hp. rewrite Permutation_middle. by rewrite Hp.
Qed.

Lemma acts_accounted evs : forall (w w' : World), acts max evs w = Done w' (Ok tt) -> accounted w' ≡ₚ accounted w ++ begun (length (conns w)) evs.
Proof.
  induction evs as [|ev evs IH]; intros w w' Ha; [injection Ha as <-; by rewrite app_nil_r|]. cbn [acts] in Ha.
  destruct (act max ev w) as [w1 [[]|]| |] eqn:E1; try done. cbn [run_bind] in Ha. apply IH in Ha. rewrite Ha.
  assert (Hopen : forall h s c, w1 = connect h s c w -> accounted w1 ++ begun (length (conns w1)) evs = accounted w ++ begun (S (length (conns w))) evs).
  { intros h s c ->. cbn. by rewrite length_app, Nat.add_comm. }
  destruct ev as [mode|config|k dir data|n]; cbn [act begun] in *.
  - destruct (server _ _) as [h1 [s|]| |]; try done. destruct (client _ _) as [h2 [c|]| |]; try done. injection E1 as E1. by rewrite (Hopen h2 s c).
  - destruct (shared_pool_new _ _) as [h p]. injection E1 as E1. by erewrite Hopen.
  - apply begin_accounted in E1 as [-> ->]. destruct (k <? _)%nat; [|done]. cbn. apply Permutation_middle.
  - by apply finish_accounted in E1 as [-> ->].
Qed.
End Recover.


(** Two connections on the global pool whose messages cross, one with an encoder of its own, and one on a pool with different windows. *)
Definition pool_run : list event :=
  [Open Shared; Open Dedicated; Open Shared; OpenPool (DeflateConfig.Mk Bits12 Bits9 true true 6 2);
   Begin 0 true (replicate 20 7); Begin 2 false (replicate 20 9); Begin 1 true (replicate 20 3); Finish 1; Begin 3 false [1; 2; 3]; Finish 0; Begin 0 false [5]].

