(* ===== verification/Buffers.v ===== *)
(** * Buffers of the io_uring transport (src/src/io_uring/buffer.rs)

    A fixed array with a write and a read position, and a pool of such buffers.  A buffer is a bounded byte queue, and the pool hands out every buffer to one owner at
    a time. *)

From stdpp Require Import base list option sorting.
From S2P Require Import Prelude.

(** ** A buffer *)

Module RegisteredBuffer.
Record t := Mk { index : Z; data : bytes; length_ : Z; pos : Z }.

Definition new (index size : Z) : t := Mk index (replicate (Z.to_nat size) 0) 0 0.
Definition capacity (b : t) : Z := len (data b).
Definition is_empty (b : t) : bool := (length_ b =? 0) || (length_ b <=? pos b).
(** [saturating_sub] *)
Definition remaining (b : t) : Z := Z.max (length_ b - pos b) 0.
(** [&data[pos..len]] panics out of range. *)
Definition as_slice (b : t) : option bytes :=
  if (pos b <=? length_ b) && (length_ b <=? len (data b)) then Some (upto (length_ b - pos b) (from (pos b) (data b))) else None.
Definition spare_capacity (b : t) : Z := wrap 64 (len (data b) - length_ b).
(** Writing [src] at the start of [spare_capacity_mut()] *)
Definition fill_spare (src : bytes) (b : t) : option t :=
  if (length_ b <=? len (data b)) && (len src <=? len (data b) - length_ b)
  then Some (Mk (index b) (blit (data b) (length_ b) src) (length_ b) (pos b)) else None.
Definition set_len (n : Z) (b : t) : t := Mk (index b) (data b) n (pos b).
Definition add_len (additional : Z) (b : t) : t := Mk (index b) (data b) (Z.min (wrap 64 (length_ b + additional)) (len (data b))) (pos b).
Definition advance (count : Z) (b : t) : t := Mk (index b) (data b) (length_ b) (Z.min (wrap 64 (pos b + count)) (length_ b)).
Definition clear (b : t) : t := Mk (index b) (data b) 0 0.
Definition compact (b : t) : t :=
  if (0 <? pos b) && (pos b <? length_ b)
  then Mk (index b) (blit (data b) 0 (upto (length_ b - pos b) (from (pos b) (data b)))) (length_ b - pos b) 0
  else if length_ b <=? pos b then clear b else b.

(** The slices of [write] and [read] panic out of range. *)
Definition write (src : bytes) (b : t) : option (t * Z) :=
  let to_write := Z.min (len src) (spare_capacity b) in
  if length_ b + to_write <=? len (data b)
  then Some (Mk (index b) (blit (data b) (length_ b) (upto to_write src)) (length_ b + to_write) (pos b), to_write) else None.
(** Into a slice of the given length: what is copied. *)
Definition read (n : Z) (b : t) : option (t * bytes) :=
  let to_read := Z.min n (remaining b) in
  if pos b + to_read <=? len (data b)
  then Some (Mk (index b) (data b) (length_ b) (pos b + to_read), upto to_read (from (pos b) (data b))) else None.

Definition into_inner (b : t) : bytes := data b.
Definition from_vec (index : Z) (data : bytes) (len : Z) : t := Mk index data len 0.
End RegisteredBuffer.

(** ** The pool *)

Module RegisteredBufferPool.
Record t := Mk { free_list : list RegisteredBuffer.t; buffer_size : Z; max_buffers : Z; allocated_count : Z }.

Definition new (count buffer_size : Z) : t :=
  Mk (map (fun i => RegisteredBuffer.new (Z.of_nat i) buffer_size) (seq 0 (Z.to_nat count))) buffer_size count count.

Definition acquire (p : t) : t * option RegisteredBuffer.t :=
  match free_list p with
  | [] => (p, None)
  | b :: rest => (Mk rest (buffer_size p) (max_buffers p) (allocated_count p), Some b)
  end.
Definition acquire_or_alloc (p : t) : t * option RegisteredBuffer.t :=
  match free_list p with
  | b :: rest => (Mk rest (buffer_size p) (max_buffers p) (allocated_count p), Some b)
  | [] =>
      if allocated_count p <? wrap 64 (max_buffers p * 2)
      then (Mk [] (buffer_size p) (max_buffers p) (allocated_count p + 1), Some (RegisteredBuffer.new (allocated_count p) (buffer_size p)))
      else (p, None)
  end.
Definition release (b : RegisteredBuffer.t) (p : t) : t :=
  Mk (free_list p ++ [RegisteredBuffer.clear b]) (buffer_size p) (max_buffers p) (allocated_count p).
Definition available (p : t) : Z := len (free_list p).
Definition is_empty (p : t) : bool := available p =? 0.
End RegisteredBufferPool.

(** ** A buffer is a bounded queue *)

Module BufferSpec.
Import RegisteredBuffer.

Inductive op :=
  | OWrite (src : bytes)
  | ORead (n : Z)
  | OAdvance (n : Z)
  | OComplete (src : bytes)   (** a read of the kernel into the spare capacity, and [add_len] *)
  | OCompact
  | OClear.

(** The code: a panic, or the new buffer with the count and the bytes returned. *)
Definition run_op (o : op) (b : t) : option (t * Z * bytes) :=
  match o with
  | OWrite src => '(b, n) ← write src b; Some (b, n, [])
  | ORead n => '(b, out) ← read n b; Some (b, len out, out)
  | OAdvance n => Some (advance n b, 0, [])
  | OComplete src => b ← fill_spare src b; Some (add_len (len src) b, 0, [])
  | OCompact => Some (compact b, 0, [])
  | OClear => Some (clear b, 0, [])
  end.

(** The queue: the space lost to bytes already read, and the unread bytes. *)
Definition queue : Type := Z * bytes.
Definition spare (cap : Z) (q : queue) : Z := cap - fst q - len (snd q).
Definition queue_op (cap : Z) (o : op) (q : queue) : queue * Z * bytes :=
  let '(used, unread) := q in
  match o with
  | OWrite src => let n := Z.min (len src) (spare cap q) in (used, unread ++ upto n src, n, [])
  | ORead n => let n := Z.min n (len unread) in (used + n, from n unread, n, upto n unread)
  | OAdvance n => let n := Z.min n (len unread) in (used + n, from n unread, 0, [])
  | OComplete src => (used, unread ++ src, 0, [])
  | OCompact => (0, unread, 0, [])
  | OClear => (0, [], 0, [])
  end.

(** Sizes are machine sizes, and the kernel writes no more than it was offered. *)
Definition op_ok (cap : Z) (q : queue) (o : op) : Prop :=
  match o with
  | OWrite src => True
  | ORead n => 0 <= n
  | OAdvance n => 0 <= n /\ fst q + n < 2 ^ 64
  | OComplete src => len src <= spare cap q
  | OCompact | OClear => True
  end.

Definition represents (cap : Z) (b : t) (q : queue) : Prop := exists front back,
  data b = front ++ snd q ++ back /\ len front = fst q /\ pos b = fst q /\ length_ b = fst q + len (snd q) /\ len (data b) = cap /\ cap < 2 ^ 64.

Lemma from_front {A} (x y : list A) n : len x = n -> from n (x ++ y) = y.
Proof. intros <-. apply from_app_exact. Qed.
Lemma blit_front (x y src : bytes) n : len x = n -> blit (x ++ y) n src = x ++ src ++ from (len src) y.
Proof.
  intros <-. unfold blit. rewrite upto_app_exact. do 2 f_equal. rewrite from_app_ge by (pose proof (len_nonneg src); lia). f_equal. lia.
Qed.

(** What can be observed of a buffer. *)
Lemma represents_slice cap b q : represents cap b q -> as_slice b = Some (snd q) /\ remaining b = len (snd q) /\ spare_capacity b = spare cap q /\
  is_empty b = bool_decide (snd q = []) /\ 0 <= fst q /\ 0 <= spare cap q.
Proof.
  intros (front & back & Hd & Hf & Hp & Hl & Hc & Hcap). pose proof (len_nonneg front). pose proof (len_nonneg (snd q)). pose proof (len_nonneg back).
  assert (Hlen : len (data b) = fst q + len (snd q) + len back) by (rewrite Hd, !len_app; lia).
  unfold as_slice, remaining, spare_capacity, is_empty, spare, wrap. rewrite Hp, Hl. ztrue (fst q <=? fst q + len (snd q)). ztrue (fst q + len (snd q) <=? len (data b)).
  rewrite Hd at 1. rewrite (from_front front) by done. replace (fst q + len (snd q) - fst q) with (len (snd q)) by lia. rewrite upto_app_exact.
  rewrite Z.mod_small by lia. split_and!; [done|lia|lia| |lia|lia].
  case_bool_decide as E.
  - assert (len (snd q) = 0) by (by rewrite E). ztrue (fst q + len (snd q) <=? fst q). by rewrite orb_true_r.
  - assert (len (snd q) <> 0) by (intros E0; by apply len_0_nil in E0). zfalse (fst q + len (snd q) =? 0). by zfalse (fst q + len (snd q) <=? fst q).
Qed.

Lemma represents_take cap b q n : represents cap b q -> 0 <= n <= len (snd q) ->
  represents cap (Mk (index b) (data b) (length_ b) (pos b + n)) (fst q + n, from n (snd q)).
Proof.
  intros (front & back & Hd & Hf & Hp & Hl & Hc & Hcap) Hn. exists (front ++ upto n (snd q)), back. cbn. split_and!; try done.
  - rewrite <- app_assoc, (app_assoc (upto n (snd q))), upto_from. done.
  - rewrite len_app, len_upto by done. lia.
  - lia.
  - rewrite len_from by done. lia.
Qed.

Lemma represents_put cap b q src : represents cap b q -> len src <= spare cap q ->
  represents cap (Mk (index b) (blit (data b) (length_ b) src) (length_ b + len src) (pos b)) (fst q, snd q ++ src).
Proof.
  intros (front & back & Hd & Hf & Hp & Hl & Hc & Hcap) Hs. unfold spare in Hs. exists front, (from (len src) back). cbn.
  assert (Hblit : blit (data b) (length_ b) src = front ++ (snd q ++ src) ++ from (len src) back).
  { rewrite Hd, app_assoc, blit_front by (rewrite len_app; lia). by rewrite !app_assoc. }
  rewrite Hblit. assert (len src <= len back) by (rewrite Hd, !len_app in Hc; lia). pose proof (len_nonneg src).
  split_and!; try done; rewrite ?len_app; [lia|]. rewrite len_from by lia. rewrite Hd, !len_app in Hc. lia.
Qed.

Lemma represents_compact cap b q : represents cap b q -> represents cap (compact b) (0, snd q).
Proof.
  intros (front & back & Hd & Hf & Hp & Hl & Hc & Hcap). pose proof (len_nonneg front). pose proof (len_nonneg (snd q)). unfold compact. rewrite Hp, Hl.
  destruct (Z.ltb_spec 0 (fst q)); destruct (Z.ltb_spec (fst q) (fst q + len (snd q))); cbn [andb];
    destruct (Z.leb_spec (fst q + len (snd q)) (fst q)); try lia.
  - rewrite Hd, (from_front front) by done. replace (fst q + len (snd q) - fst q) with (len (snd q)) by lia. rewrite upto_app_exact.
    exists [], (from (len (snd q)) (front ++ snd q ++ back)).
    assert (Eb : blit (front ++ snd q ++ back) 0 (snd q) = snd q ++ from (len (snd q)) (front ++ snd q ++ back)).
    { unfold blit. by rewrite upto_0, Z.add_0_l. }
    cbn [data length_ pos fst snd]. rewrite Eb. split_and!; try done.
    rewrite len_app, len_from; [|rewrite !len_app; pose proof (len_nonneg back); lia]. rewrite Hd in Hc. lia.
  - assert (E : snd q = []) by (apply len_0_nil; lia). exists [], (data b). cbn. rewrite E. split_and!; try done.
  - assert (E : fst q = 0) by lia. assert (front = []) as -> by (apply len_0_nil; lia). exists [], back. cbn [fst snd app] in *. split_and!; try done; lia.
  - assert (E : snd q = []) by (apply len_0_nil; lia). exists [], (data b). cbn. rewrite E. split_and!; try done.
Qed.

Lemma run_op_ok cap b q o : represents cap b q -> op_ok cap q o ->
  exists b', run_op o b = Some (b', snd (fst (queue_op cap o q)), snd (queue_op cap o q)) /\ represents cap b' (fst (fst (queue_op cap o q))).
Proof.
  intros Hr Ho. destruct (represents_slice cap b q Hr) as (Hs & Hre & Hsp & _ & Hq0 & Hsp0). pose proof (len_nonneg (snd q)).
  destruct q as [used unread]; cbn [fst snd] in *. destruct o as [src|n|n|src| |]; cbn [run_op queue_op op_ok fst snd] in *.
  - unfold write. rewrite Hsp. set (n := Z.min (len src) (spare cap (used, unread))). pose proof (len_nonneg src).
    assert (Hn : 0 <= n <= len src) by (unfold n; lia).
    destruct (represents_put cap b (used, unread) (upto n src) Hr) as (front & back & Hput); [rewrite len_upto by lia; unfold n; lia|].
    rewrite (len_upto n src) in Hput by lia.
    assert (Hfit : length_ b + n <= len (data b)) by (destruct Hr as (f & k & _ & _ & _ & -> & -> & _); unfold n, spare; cbn [fst snd]; lia).
    ztrue (length_ b + n <=? len (data b)). eexists. split; [done|]. by exists front, back.
  - unfold read. rewrite Hre. set (m := Z.min n (len unread)). assert (Hn : 0 <= m <= len unread) by (unfold m; lia).
    pose proof (represents_take cap b (used, unread) m Hr Hn) as Ht. pose proof Hr as (front & back & Hd & Hf & Hp & Hl & Hc & _). cbn [fst snd] in *.
    assert (Hlen : len (data b) = used + len unread + len back) by (rewrite Hd, !len_app; lia). pose proof (len_nonneg back). 
    ztrue (pos b + m <=? len (data b)). eexists. assert (E : upto m (from (pos b) (data b)) = upto m unread).
    { rewrite Hd, Hp, (from_front front) by done. apply upto_app_le. lia. }
    cbn [mbind option_bind]. rewrite E, len_upto by done. split; [done|exact Ht].
  - set (n' := Z.min n (len unread)). assert (Hn : 0 <= n' <= len unread) by (unfold n'; lia). eexists. split; [done|].
    pose proof (represents_take cap b (used, unread) n' Hr Hn) as Ht. replace (advance n b) with (Mk (index b) (data b) (length_ b) (pos b + n')); [exact Ht|].
    destruct Hr as (front & back & Hd & Hf & Hp & Hl & Hc & _). cbn [fst snd] in *. unfold advance, wrap. rewrite Hp, Hl, Z.mod_small by lia. f_equal. unfold n'. lia.
  - unfold fill_spare. pose proof (represents_put cap b (used, unread) src Hr Ho) as Hput. pose proof Hr as (front & back & Hd & Hf & Hp & Hl & Hc & Hcap). unfold spare in *.
    cbn [fst snd] in *. ztrue (length_ b <=? len (data b)). ztrue (len src <=? len (data b) - length_ b). cbn [andb mbind option_bind]. eexists. split; [done|].
    pose proof Hput as (front' & back' & Hd' & _ & _ & _ & Hc' & _). cbn [data length_] in Hd', Hc'. pose proof (len_nonneg src).
    unfold add_len, wrap. cbn [data length_ index pos]. rewrite Hc', Z.mod_small, Z.min_l by lia. exact Hput.
  - eexists. split; [done|]. exact (represents_compact _ _ _ Hr).
  - eexists. split; [done|]. destruct Hr as (front & back & ? & ? & ? & ? & ? & ?). exists [], (data b). done.
Qed.

Lemma represents_new index size : 0 <= size < 2 ^ 64 -> represents size (new index size) (0, []).
Proof.
  intros Hs. exists [], (replicate (Z.to_nat size) 0). cbn. split_and!; try done; [|lia]. unfold len. rewrite length_replicate. lia.
Qed.

(** A sequence of operations, with what each returns. *)
Fixpoint run_ops (ops : list op) (b : t) : option (t * list (Z * bytes)) :=
  match ops with
  | [] => Some (b, [])
  | o :: ops => '(b, n, out) ← run_op o b; '(b, rest) ← run_ops ops b; Some (b, (n, out) :: rest)
  end.
Fixpoint queue_ops (cap : Z) (ops : list op) (q : queue) : queue * list (Z * bytes) :=
  match ops with
  | [] => (q, [])
  | o :: ops => let '(q, n, out) := queue_op cap o q in let '(q, rest) := queue_ops cap ops q in (q, (n, out) :: rest)
  end.
Fixpoint ops_ok (cap : Z) (ops : list op) (q : queue) : Prop :=
  match ops with
  | [] => True
  | o :: ops => op_ok cap q o /\ ops_ok cap ops (fst (fst (queue_op cap o q)))
  end.

Lemma run_ops_ok cap ops : forall b q, represents cap b q -> ops_ok cap ops q ->
  exists b', run_ops ops b = Some (b', snd (queue_ops cap ops q)) /\ represents cap b' (fst (queue_ops cap ops q)).
Proof.
  induction ops as [|o ops IH]; intros b q Hr Ho; [by exists b|]. destruct Ho as [Ho Hos]. cbn [run_ops queue_ops].
  destruct (run_op_ok cap b q o Hr Ho) as (b1 & -> & Hr1). destruct (queue_op cap o q) as [[q1 n] out]. cbn [fst snd mbind option_bind] in *.
  destruct (IH b1 q1 Hr1 Hos) as (b2 & -> & Hr2). destruct (queue_ops cap ops q1) as [q2 rest]. by exists b2.
Qed.

(** A buffer is a bounded byte queue: for any sequence of writes, reads, kernel completions, compactions and clears nothing panics, each operation returns what
    the queue returns, and in the end the unread bytes, their count and the room for more are those of the queue; compaction gives back all the room that was read. *)
Theorem buffer_is_a_queue index size ops : 0 <= size < 2 ^ 64 -> ops_ok size ops (0, []) ->
  let '(q, results) := queue_ops size ops (0, []) in
  exists b, run_ops ops (new index size) = Some (b, results) /\ as_slice b = Some (snd q) /\ remaining b = len (snd q) /\
    spare_capacity b = spare size q /\ is_empty b = bool_decide (snd q = []) /\
    as_slice (compact b) = Some (snd q) /\ spare_capacity (compact b) = size - len (snd q).
Proof.
  intros Hs Ho. destruct (run_ops_ok size ops _ _ (represents_new index size Hs) Ho) as (b & E & Hr).
  destruct (queue_ops size ops (0, [])) as [q results]. exists b. split; [exact E|]. pose proof (represents_slice _ _ _ Hr) as (? & ? & ? & ? & _).
  pose proof (represents_slice _ _ _ (represents_compact _ _ _ Hr)) as (? & ? & Hc & _). split_and!; try done. rewrite Hc. unfold spare. cbn. lia.
Qed.

Definition queue_run : list op := [OWrite [1; 2; 3; 4; 5; 6]; ORead 2; OComplete [7]; OCompact; OWrite [8; 9; 10; 11]; OAdvance 1; ORead 100].
Lemma buffer_is_a_queue_witness : 0 <= 8 < 2 ^ 64 /\ ops_ok 8 queue_run (0, []) /\
  let '(q, results) := queue_ops 8 queue_run (0, []) in
  exists b, run_ops queue_run (new 3 8) = Some (b, results) /\ as_slice b = Some (snd q) /\ remaining b = len (snd q) /\
    spare_capacity b = spare 8 q /\ is_empty b = bool_decide (snd q = []) /\
    as_slice (compact b) = Some (snd q) /\ spare_capacity (compact b) = 8 - len (snd q).
Proof.
  assert (Ho : ops_ok 8 queue_run (0, [])) by (vm_compute; repeat split; discriminate).
  split; [lia|]. split; [exact Ho|]. apply (buffer_is_a_queue 3 8 queue_run); [lia|exact Ho].
Defined.
End BufferSpec.

(** ** The pool *)

Module PoolSpec.
Import RegisteredBufferPool.

Inductive pool_op :=
  | PAcquire
  | PAcquireOrAlloc
  | PUse (k : nat) (b : RegisteredBuffer.t)   (** the owner of the [k]-th buffer handed out changes it *)
  | PRelease (k : nat).

(** The pool and the buffers handed out. *)
Definition state : Type := t * list RegisteredBuffer.t.
Definition hand_out (r : t * option RegisteredBuffer.t) (out : list RegisteredBuffer.t) : state := (fst r, out ++ option_list (snd r)).
Definition pool_step (o : pool_op) (s : state) : state :=
  let '(p, out) := s in
  match o with
  | PAcquire => hand_out (acquire p) out
  | PAcquireOrAlloc => hand_out (acquire_or_alloc p) out
  | PUse k b => (p, <[k := b]> out)
  | PRelease k => match out !! k with Some b => (release b p, delete k out) | None => (p, out) end
  end.
(** A buffer keeps its index and its allocation, whatever its owner does with it. *)
Definition pool_op_ok (s : state) (o : pool_op) : Prop :=
  match o with
  | PUse k b => forall b0, snd s !! k = Some b0 -> RegisteredBuffer.index b = RegisteredBuffer.index b0 /\ RegisteredBuffer.capacity b = RegisteredBuffer.capacity b0
  | _ => True
  end.

Inductive pool_reachable (count size : Z) : state -> Prop :=
  | pool_start : pool_reachable count size (new count size, [])
  | pool_next s o : pool_reachable count size s -> pool_op_ok s o -> pool_reachable count size (pool_step o s).

Definition fresh (size : Z) (b : RegisteredBuffer.t) : Prop :=
  RegisteredBuffer.length_ b = 0 /\ RegisteredBuffer.pos b = 0 /\ RegisteredBuffer.capacity b = size.
Definition numbered (n : Z) : list Z := map Z.of_nat (seq 0 (Z.to_nat n)).

Record pool_wf (count size : Z) (s : state) : Prop := {
  wf_size : buffer_size (fst s) = size;
  wf_max : max_buffers (fst s) = count;
  wf_count : count <= allocated_count (fst s) <= 2 * count;
  wf_index : map RegisteredBuffer.index (free_list (fst s) ++ snd s) ≡ₚ numbered (allocated_count (fst s));
  wf_free : Forall (fresh size) (free_list (fst s));
  wf_out : Forall (fun b => RegisteredBuffer.capacity b = size) (snd s)
}.

Lemma numbered_succ n : 0 <= n -> numbered (n + 1) = numbered n ++ [n].
Proof. intros Hn. unfold numbered. replace (Z.to_nat (n + 1)) with (S (Z.to_nat n)) by lia. rewrite seq_S, map_app. cbn. by rewrite Z2Nat.id by lia. Qed.

Lemma fresh_buffer size i : 0 <= size -> fresh size (RegisteredBuffer.new i size).
Proof. intros Hs. split_and!; [done..|]. unfold RegisteredBuffer.capacity, len. cbn. rewrite length_replicate. lia. Qed.

Lemma pool_wf_new count size : 0 <= count -> 0 <= size -> pool_wf count size (new count size, []).
Proof.
  intros Hc Hs. split; cbn; try done; [lia| |by apply Forall_map, Forall_true; intros; apply fresh_buffer].
  rewrite app_nil_r, map_map. done.
Qed.

Lemma pool_wf_take count size p rest b out : pool_wf count size (p, out) -> free_list p = b :: rest ->
  pool_wf count size (Mk rest (buffer_size p) (max_buffers p) (allocated_count p), out ++ [b]) /\ fresh size b.
Proof.
  intros [? ? ? Hi Hf Ho] Ep. cbn in *. rewrite Ep in *. apply Forall_cons in Hf as [Hb Hf]. split; [|done]. split; cbn; try done.
  - rewrite <- Hi. cbn. rewrite app_assoc, map_app. cbn. symmetry. apply Permutation_cons_append.
  - apply Forall_app. split; [done|]. constructor; [apply Hb|done].
Qed.

Lemma pool_wf_alloc count size p out : 0 <= count < 2 ^ 63 -> 0 <= size -> pool_wf count size (p, out) -> free_list p = [] -> allocated_count p < 2 * count ->
  pool_wf count size (Mk [] (buffer_size p) (max_buffers p) (allocated_count p + 1), out ++ [RegisteredBuffer.new (allocated_count p) (buffer_size p)]).
Proof.
  intros Hc Hs [Hsz Hm Ha Hi Hf Ho] Ep Hlt. cbn in *. rewrite Ep in *. split; cbn; try done; [lia| |].
  - rewrite map_app, numbered_succ by lia. cbn in Hi |- *. by rewrite Hi.
  - apply Forall_app. split; [done|]. constructor; [|done]. rewrite Hsz. by apply fresh_buffer.
Qed.

Lemma acquire_or_alloc_cases count size p out : 0 <= count < 2 ^ 63 -> 0 <= size -> pool_wf count size (p, out) ->
  match acquire_or_alloc p with
  | (p', Some b) => fresh size b /\ pool_wf count size (p', out ++ [b])
  | (p', None) => p' = p /\ free_list p = [] /\ allocated_count p = 2 * count
  end.
Proof.
  intros Hc Hs Hw. unfold acquire_or_alloc. destruct (free_list p) as [|b rest] eqn:Ep.
  - pose proof Hw as [Hsz Hm Ha Hi Hf Ho]. cbn in Hm, Ha, Hsz. unfold wrap. rewrite Hm, Z.mod_small by lia.
    destruct (Z.ltb_spec (allocated_count p) (count * 2)).
    + split; [rewrite Hsz; by apply fresh_buffer|]. rewrite <- Hm. apply pool_wf_alloc; rewrite ?Hm; try done; lia.
    + split_and!; [done..|lia].
  - destruct (pool_wf_take count size p rest b out Hw Ep) as [? ?]. done.
Qed.

Lemma pool_wf_release count size p out k b : pool_wf count size (p, out) -> out !! k = Some b -> pool_wf count size (release b p, delete k out).
Proof.
  intros [? ? ? Hi Hf Ho] Hk. cbn in *. split; cbn; try done.
  - rewrite <- Hi, !map_app. pose proof (Permutation_map RegisteredBuffer.index (delete_Permutation out k b Hk)) as Hp. rewrite Hp. cbn.
    by rewrite <- app_assoc.
  - apply Forall_app. split; [done|]. constructor; [|done]. split_and!; [done..|]. exact (Forall_lookup_1 _ _ _ _ Ho Hk).
  - by apply Forall_delete.
Qed.

Lemma pool_wf_use count size p out k b : pool_wf count size (p, out) -> pool_op_ok (p, out) (PUse k b) -> pool_wf count size (p, <[k := b]> out).
Proof.
  intros [? ? ? Hi Hf Ho] Hb. cbn in *. destruct (out !! k) as [b0|] eqn:Hk; [|by rewrite list_insert_ge by (by apply lookup_ge_None)].
  destruct (Hb b0 eq_refl) as [Ei Ec]. split; cbn; try done.
  - rewrite <- Hi, !map_app, list_fmap_insert. f_equiv. rewrite list_insert_id; [done|]. by rewrite list_lookup_fmap, Hk, Ei.
  - apply Forall_insert; [done|]. rewrite Ec. exact (Forall_lookup_1 _ _ _ _ Ho Hk).
Qed.

Lemma pool_reachable_wf count size s : 0 <= count < 2 ^ 63 -> 0 <= size -> pool_reachable count size s -> pool_wf count size s.
Proof.
  intros Hc Hs. induction 1 as [|[p out] o _ IH Ho]; [apply pool_wf_new; lia|]. destruct o as [| |k b|k]; cbn [pool_step].
  - unfold acquire. destruct (free_list p) as [|b rest] eqn:Ep; unfold hand_out; cbn; [by rewrite app_nil_r|]. by apply pool_wf_take.
  - pose proof (acquire_or_alloc_cases count size p out Hc Hs IH) as Ha. destruct (acquire_or_alloc p) as [p' [b|]]; unfold hand_out; cbn; [apply Ha|].
    destruct Ha as [-> _]. by rewrite app_nil_r.
  - by apply pool_wf_use.
  - destruct (out !! k) eqn:Hk; [|done]. by apply pool_wf_release.
Qed.

(** Whatever sequence of acquisitions, uses and releases: every buffer has one owner, the pool or the caller it was handed to (indices are all different, and count
    from 0); all have the configured size; what is handed out is empty; the pool never holds more than twice the configured number of
    buffers, and [acquire_or_alloc] fails only when exactly that many are handed out. *)
Theorem pool_well_formed count size p out : 0 <= count < 2 ^ 63 -> 0 <= size -> pool_reachable count size (p, out) ->
  NoDup (map RegisteredBuffer.index (free_list p ++ out)) /\ map RegisteredBuffer.index (free_list p ++ out) ≡ₚ numbered (available p + len out) /\
  available p + len out <= 2 * count /\
  Forall (fun b => RegisteredBuffer.capacity b = size) out /\
  (forall p' b, acquire_or_alloc p = (p', Some b) -> fresh size b /\ RegisteredBuffer.index b ∉ map RegisteredBuffer.index out) /\
  (snd (acquire_or_alloc p) = None <-> len out = 2 * count).
Proof.
  intros Hc Hs Hr. pose proof (pool_reachable_wf _ _ _ Hc Hs Hr) as Hw. pose proof Hw as [Hsz Hm Ha Hi Hf Ho]. cbn in *.
  assert (Hn : forall n, NoDup (numbered n)) by (intros n; apply NoDup_fmap_2; [intros ???; lia|apply NoDup_seq]).
  assert (Hl : allocated_count p = available p + len out).
  { apply Permutation_length in Hi. unfold numbered in Hi. rewrite !length_map, length_app, length_seq in Hi. unfold available, len. lia. }
  pose proof (acquire_or_alloc_cases count size p out Hc Hs Hw) as Hcase. split_and!.
  - rewrite Hi. apply Hn.
  - by rewrite <- Hl.
  - lia.
  - done.
  - intros p' b E. rewrite E in Hcase. destruct Hcase as [Hb [_ _ _ Hi' _ _]]. cbn in Hi'. split; [done|].
    assert (Hnd : NoDup (map RegisteredBuffer.index (free_list p' ++ out ++ [b]))) by (rewrite Hi'; apply Hn).
    rewrite app_assoc, map_app in Hnd. apply NoDup_app in Hnd as (_ & Hd & _). intros Hin. apply (Hd (RegisteredBuffer.index b)); [|by left].
    rewrite map_app. apply elem_of_app. by right.
  - destruct (acquire_or_alloc p) as [p' [b|]]; cbn.
    + split; [done|]. intros El. destruct Hcase as [_ [_ _ Hc' Hi' _ _]]. cbn in *. apply Permutation_length in Hi'. unfold numbered in Hi'.
      rewrite !length_map, !length_app, length_seq in Hi'. cbn in Hi'. unfold len in El. lia.
    + destruct Hcase as (_ & Ef & Ea). split; [intros _|done]. unfold available in Hl. rewrite Ef in Hl. unfold len in *. cbn in Hl. lia.
Qed.
(** One buffer is configured; a second is allocated when the first is out, and no third. *)
Definition both_out : state := pool_step PAcquireOrAlloc (pool_step PAcquire (new 1 4, [])).
Lemma pool_well_formed_witness : pool_reachable 1 4 (fst both_out, snd both_out) /\ len (snd both_out) = 2 /\
  NoDup (map RegisteredBuffer.index (free_list (fst both_out) ++ snd both_out)) /\
  map RegisteredBuffer.index (free_list (fst both_out) ++ snd both_out) ≡ₚ numbered (available (fst both_out) + len (snd both_out)) /\
  available (fst both_out) + len (snd both_out) <= 2 * 1 /\
  Forall (fun b => RegisteredBuffer.capacity b = 4) (snd both_out) /\
  (forall p' b, acquire_or_alloc (fst both_out) = (p', Some b) -> fresh 4 b /\ RegisteredBuffer.index b ∉ map RegisteredBuffer.index (snd both_out)) /\
  (snd (acquire_or_alloc (fst both_out)) = None <-> len (snd both_out) = 2 * 1).
Proof.
  assert (Hr : pool_reachable 1 4 (fst both_out, snd both_out)) by (apply (pool_next _ _ (pool_step PAcquire (new 1 4, [])) PAcquireOrAlloc); [|done]; by apply (pool_next _ _ _ PAcquire); [apply pool_start|]).
  split; [exact Hr|]. split; [reflexivity|]. apply (pool_well_formed 1 4 (fst both_out) (snd both_out)); [lia|lia|exact Hr].
Defined.
End PoolSpec.
