(* ===== verification/ReceiveWindow.v ===== *)
(** * Receive-buffer sizing (src/src/stream/receive_window.rs)

    Before each read of the transport the stream makes room in its buffer.  A read into a full buffer would return no bytes, which the stream takes for the end of the
    connection, so there must always be room; and a connection that has gone quiet must not keep a buffer that a large frame made grow.  The buffer is a [BytesMut] with its contents and its
    capacity; what the allocator returns is an interface. *)

From stdpp Require Import base list option.
From S2P Require Import Prelude Inflate.

Definition MIN_RECEIVE_WINDOW : Z := 1024.
Definition MAX_READ_SPARE : Z := 4096.

Record BytesMut := MkBytesMut { contents : bytes; cap : Z }.

(** [try_reclaim(additional)]: whether it could, with the capacity then.  It never moves to another allocation. *)
Class Reclaim := try_reclaim : BytesMut -> Z -> option Z.
Class ReclaimSpec `{Reclaim} : Prop :=
  try_reclaim_ge b additional c : try_reclaim b additional = Some c -> len (contents b) + additional <= c.

Module ReceiveWindow.
Record t := Mk { size : Z; reclaim : bool; last_read_small : bool }.

Section window.
Context `{Alloc} `{Reclaim}.

Definition new (size : Z) : t := Mk (Z.max size MIN_RECEIVE_WINDOW) false false.
Definition allocate (w : t) : BytesMut := MkBytesMut [] (alloc_capacity (size w)).
Definition min_spare (w : t) : Z := Z.min (size w / 4) MAX_READ_SPARE.

Definition reserve (additional : Z) (b : BytesMut) : BytesMut :=
  if cap b - len (contents b) <? additional then MkBytesMut (contents b) (alloc_reserve (cap b) (len (contents b)) additional) else b.

(** [saturating_mul] *)
Definition saturating_mul (a b : Z) : Z := Z.min (a * b) (2 ^ 64 - 1).

Definition prepare (w : t) (grow_retained : bool) (b : BytesMut) : t * BytesMut :=
  let '(w, b) :=
    if len (contents b) =? 0 then
      if last_read_small w && (saturating_mul (size w) 2 <? cap b) then (Mk (size w) false (last_read_small w), allocate w)
      else if reclaim w then
        let w := Mk (size w) false (last_read_small w) in
        match try_reclaim b (size w) with
        | Some c => (w, MkBytesMut (contents b) c)
        | None => (w, if grow_retained then reserve (size w) b else b)
        end
      else (w, b)
    else (w, b) in
  (w, if cap b - len (contents b) <? min_spare w then reserve (size w) b else b).

Definition record_read (w : t) (buffered read : Z) : t :=
  Mk (size w) (if size w / 2 <=? buffered then true else reclaim w) (read <? min_spare w).
End window.
End ReceiveWindow.

(** ** There is always room *)

Section Room.
Context `{AllocBounds} `{ReclaimSpec}.
Import ReceiveWindow.

Lemma reserve_room additional b : contents (reserve additional b) = contents b /\ additional <= cap (reserve additional b) - len (contents b) /\
  cap b - len (contents b) <= Z.max (cap (reserve additional b) - len (contents b)) additional.
Proof.
  unfold reserve. destruct (Z.ltb_spec (cap b - len (contents b)) additional); cbn; [|split_and!; [done|lia|lia]].
  pose proof (alloc_reserve_ge (cap b) (len (contents b)) additional). split_and!; [done|lia|lia].
Qed.

(** What [prepare] leaves: the bytes that were there, room for a read, and a fresh window in place of a buffer that grew. *)
Lemma prepare_room w grow b : MIN_RECEIVE_WINDOW <= size w ->
  let '(w', b') := prepare w grow b in
  contents b' = contents b /\ 256 <= min_spare w <= cap b' - len (contents b') /\ size w' = size w /\
  (contents b = [] -> last_read_small w = true -> saturating_mul (size w) 2 < cap b -> b' = allocate w).
Proof.
  unfold MIN_RECEIVE_WINDOW. intros Hs. unfold prepare. set (r := if len (contents b) =? 0 then _ else _).
  assert (Hq : 256 <= size w / 4) by (apply Z.div_le_lower_bound; lia).
  assert (Hm : 256 <= min_spare w /\ min_spare w <= size w) by (unfold min_spare, MAX_READ_SPARE; pose proof (Z.div_le_upper_bound (size w) 4 (size w)); lia).
  assert (Hr : contents (snd r) = contents b /\ size (fst r) = size w /\
    (contents b = [] -> last_read_small w = true -> saturating_mul (size w) 2 < cap b -> snd r = allocate w)).
  { unfold r. destruct (Z.eqb_spec (len (contents b)) 0) as [E|E].
    - apply len_0_nil in E. destruct (last_read_small w && _) eqn:Eb; [by cbn; rewrite E|].
      assert (Hno : contents b = [] -> last_read_small w = true -> saturating_mul (size w) 2 < cap b -> False).
      { intros _ Hl Hc. rewrite Hl in Eb. cbn in Eb. apply Z.ltb_ge in Eb. lia. }
      destruct (reclaim w); [|split_and!; [done..|by intros; exfalso; apply Hno]].
      destruct (try_reclaim b _); cbn; [split_and!; [done..|by intros; exfalso; apply Hno]|].
      destruct grow; cbn; [rewrite (proj1 (reserve_room _ _))|]; (split_and!; [done..|by intros; exfalso; apply Hno]).
    - split_and!; [done..|]. intros En. by rewrite En in E. }
  destruct r as [w1 b1]. cbn [fst snd] in Hr. destruct Hr as (Hc & Hsz & Hfresh). pose proof (reserve_room (size w1) b1) as (Rc & Rr & _).
  assert (Hms : min_spare w1 = min_spare w) by (unfold min_spare; by rewrite Hsz). rewrite Hms.
  destruct (Z.ltb_spec (cap b1 - len (contents b1)) (min_spare w)) as [Hlt|Hge].
  - rewrite Rc. split_and!; [done|lia|lia|done|]. intros H1' H2' H3'. exfalso. rewrite (Hfresh H1' H2' H3') in Hlt. unfold allocate in Hlt. cbn in Hlt.
    pose proof (alloc_capacity_ge (size w)). unfold len in Hlt. cbn in Hlt. lia.
  - split_and!; [done|lia|lia|done|done].
Qed.

(** A round of a stream: make room, read what the transport has, parse some of it. *)
Record round := MkRound { grow_retained : bool; available : bytes; parsed : Z }.
Definition run_round (r : round) (s : t * BytesMut) : t * BytesMut * bytes :=
  let '(w, b) := prepare (fst s) (grow_retained r) (snd s) in
  let got := upto (cap b - len (contents b)) (available r) in
  let b := MkBytesMut (contents b ++ got) (cap b) in
  let w := record_read w (len (contents b)) (len got) in
  let k := Z.min (parsed r) (len (contents b)) in
  (w, MkBytesMut (from k (contents b)) (cap b - k), got).
Fixpoint run_rounds (rs : list round) (s : t * BytesMut) : t * BytesMut * list bytes :=
  match rs with
  | [] => (s, [])
  | r :: rs => let '(s, got) := run_round r s in let '(s, gots) := run_rounds rs s in (s, got :: gots)
  end.

(** What is read, and that it is only nothing when there is nothing. *)
Definition read_well (r : round) (got : bytes) : Prop := got `prefix_of` available r /\ Z.min 256 (len (available r)) <= len got.

Lemma upto_prefix {A} n (l : list A) : upto n l `prefix_of` l.
Proof. exists (from n l). by rewrite upto_from. Qed.

Lemma from_suffix {A} n (l : list A) : from n l `suffix_of` l.
Proof. exists (upto n l). by rewrite upto_from. Qed.

Lemma run_round_ok r s : MIN_RECEIVE_WINDOW <= size (fst s) ->
  let '(s', got) := run_round r s in size (fst s') = size (fst s) /\ read_well r got /\ contents (snd s') `suffix_of` contents (snd s) ++ got.
Proof.
  destruct s as [w b]. cbn [fst snd]. intros Hs. unfold run_round. cbn [fst snd]. pose proof (prepare_room w (grow_retained r) b Hs) as Hp.
  destruct (prepare w (grow_retained r) b) as [w1 b1]. destruct Hp as (Hc & Hr & Hsz & _). cbn [fst snd contents]. split; [done|]. split.
  - split; [apply upto_prefix|]. destruct (Z.le_gt_cases (len (available r)) (cap b1 - len (contents b1))); [rewrite upto_ge by lia; lia|]. rewrite len_upto by lia. lia.
  - rewrite Hc. apply from_suffix.
Qed.

Lemma run_rounds_ok rs : forall s, MIN_RECEIVE_WINDOW <= size (fst s) ->
  let '(s', gots) := run_rounds rs s in size (fst s') = size (fst s) /\ Forall2 read_well rs gots /\ contents (snd s') `suffix_of` contents (snd s) ++ concat gots.
Proof.
  induction rs as [|r rs IH]; intros s Hs; cbn; [rewrite app_nil_r; by split_and!|]. pose proof (run_round_ok r s Hs) as Hr. destruct (run_round r s) as [s1 got].
  destruct Hr as (Hs1 & Hg & Hc1). pose proof (IH s1 ltac:(by rewrite Hs1)) as Hrest. destruct (run_rounds rs s1) as [s2 gots]. destruct Hrest as (Hs2 & Hf & Hc2).
  split_and!; [congruence|by constructor|]. cbn. etrans; [exact Hc2|]. destruct Hc1 as [pre Hpre]. exists pre. by rewrite !app_assoc, Hpre.
Qed.
End Room.

(** Whatever window is configured, whatever the allocator returns, and however much is read and parsed in each round: a read always takes the next bytes of the
    transport and at least 256 of them if there are as many, so that an empty read always means the end of the connection; the buffer holds the last of the bytes read; and once it is
    empty after a small read, a buffer larger than twice the window is replaced by a fresh window. *)
Theorem reads_have_room `{AllocBounds} `{ReclaimSpec} configured rs : let w := ReceiveWindow.new configured in
  let '((w', b), gots) := run_rounds rs (w, ReceiveWindow.allocate w) in Forall2 read_well rs gots /\ contents b `suffix_of` concat gots /\
  (contents b = [] -> ReceiveWindow.last_read_small w' = true -> ReceiveWindow.saturating_mul (Z.max configured MIN_RECEIVE_WINDOW) 2 < cap b ->
    forall grow, snd (ReceiveWindow.prepare w' grow b) = MkBytesMut [] (alloc_capacity (Z.max configured MIN_RECEIVE_WINDOW))).
Proof.
  intros w. assert (Hw : MIN_RECEIVE_WINDOW <= ReceiveWindow.size w) by (cbn; lia).
  pose proof (run_rounds_ok rs (w, ReceiveWindow.allocate w) Hw) as Hr. destruct (run_rounds rs (w, ReceiveWindow.allocate w)) as [[w' b] gots].
  destruct Hr as (Hs & Hf & Hc). cbn [fst snd] in *. split_and!; [done..|]. intros He Hl Hcap grow.
  assert (Hs' : ReceiveWindow.size w' = Z.max configured MIN_RECEIVE_WINDOW) by (by rewrite Hs).
  pose proof (prepare_room w' grow b ltac:(by rewrite Hs)) as Hp. destruct (ReceiveWindow.prepare w' grow b) as [w2 b2]. destruct Hp as (_ & _ & _ & Hfresh).
  rewrite (Hfresh He Hl) by (by rewrite Hs'). unfold ReceiveWindow.allocate. by rewrite Hs'.
Qed.

(** An allocator that returns what it is asked for and never reclaims; three rounds, the first with a frame larger than the window. *)
#[export] Instance no_reclaim : Reclaim := fun _ _ => None.
#[export] Instance no_reclaim_spec : ReclaimSpec.
Proof. intros b additional c [=]. Qed.

Definition window_rounds : list round :=
  [MkRound true (replicate 1024 7) 0; MkRound true (replicate 2000 8) 3024; MkRound true [9] 1].
Lemma reads_have_room_witness : let w := ReceiveWindow.new 0 in
  let '((w', b), gots) := run_rounds window_rounds (w, ReceiveWindow.allocate w) in Forall2 read_well window_rounds gots /\ contents b `suffix_of` concat gots /\
  (contents b = [] -> ReceiveWindow.last_read_small w' = true -> ReceiveWindow.saturating_mul (Z.max 0 MIN_RECEIVE_WINDOW) 2 < cap b ->
    forall grow, snd (ReceiveWindow.prepare w' grow b) = MkBytesMut [] (alloc_capacity (Z.max 0 MIN_RECEIVE_WINDOW))).
Proof. apply (reads_have_room 0 window_rounds). Defined.
