(* ===== verification/Split.v ===== *)
(** * Split streams: the writing side (src/src/stream/websocket.rs, [SplitShared], [SplitSink], [SplitWriterCore], [split_writer_driver];
      src/src/stream/split_transport.rs)

    [split] gives the application a reading and a writing handle and spawns a driver task for the automatic frames.  The three tasks
    run in any interleaving, so the model is a transition system: [app_step], [driver_step] and a reader's step each do one
    access to what is shared and move their task's program counter.  Where the outside decides (what the transport answers to a poll,
    which ready branch a [select!] takes, when a future is dropped, how far the clock goes), a label says what happens. *)

From stdpp Require Import base list option strings.
From S2P Require Import Prelude Error Mask Utf8 Frame Protocol Heartbeat Output Deflate Compressed Config WebSocket.
Import WebSocketStream (Item).

Definition SPLIT_CONTROL_CAPACITY : nat := 32.
Definition SPLIT_OPEN := 0.
Definition SPLIT_LOCAL_CLOSING := 1.
Definition SPLIT_PEER_CLOSING := 2.
Definition SPLIT_READ_ERROR_PENDING := 3.
Definition SPLIT_CLOSED := 4.
Definition SPLIT_CLOSED_HEARTBEAT := 5.
Definition SPLIT_CLOSED_IDLE := 6.

Module TerminalCause.
Inductive t := ConnectionClosed | HeartbeatTimeout | IdleTimeout.
Definition error (c : t) : Error :=
  match c with
  | ConnectionClosed => Error.ConnectionClosed
  | HeartbeatTimeout => Error.HeartbeatTimeout
  | IdleTimeout => Error.IdleTimeout
  end.
(** [cause as u8] *)
Definition as_u8 (c : t) : Z :=
  match c with
  | ConnectionClosed => SPLIT_CLOSED
  | HeartbeatTimeout => SPLIT_CLOSED_HEARTBEAT
  | IdleTimeout => SPLIT_CLOSED_IDLE
  end.
End TerminalCause.

(** Instants are milliseconds since the epoch of the connection. *)
Module ControlRequest.
Inductive t :=
  | Ping (payload : bytes) (received_at : Z)
  | Pong (payload : bytes) (received_at : Z)
  | PeerClose (reason : option CloseReason.t)
  | LocalCloseStarted (started : Z)
  | LocalCloseSent
  | ReadError
  | Eof.
End ControlRequest.

(** ** What the tasks share *)

Module SplitShared.
(** [published]: [terminal_tx] has been sent to. *)
Record t := Mk { status : Z; published : bool; cancelled : bool; last_inbound_ms : Z; tracks_inbound_activity : bool }.

Definition set_status (v : Z) (s : t) : t := Mk v (published s) (cancelled s) (last_inbound_ms s) (tracks_inbound_activity s).
Definition set_published (v : bool) (s : t) : t := Mk (status s) v (cancelled s) (last_inbound_ms s) (tracks_inbound_activity s).
Definition cancel (s : t) : t := Mk (status s) (published s) true (last_inbound_ms s) (tracks_inbound_activity s).
Definition set_last_inbound_ms (v : Z) (s : t) : t := Mk (status s) (published s) (cancelled s) v (tracks_inbound_activity s).

Definition new (closed tracks_inbound_activity : bool) : t :=
  Mk (if closed then SPLIT_CLOSED else SPLIT_OPEN) false false 0 tracks_inbound_activity.

Definition note_inbound (now_ms : Z) (s : t) : t :=
  if negb (tracks_inbound_activity s) then s
  else if last_inbound_ms s <? now_ms then set_last_inbound_ms now_ms s else s.

(** [compare_exchange(SPLIT_OPEN, v)] *)
Definition from_open (v : Z) (s : t) : t * bool := if status s =? SPLIT_OPEN then (set_status v s, true) else (s, false).
Definition begin_local_closing (s : t) : t * bool := from_open SPLIT_LOCAL_CLOSING s.
Definition begin_peer_closing (s : t) : t * bool := from_open SPLIT_PEER_CLOSING s.
Definition begin_read_error (s : t) : t * bool := from_open SPLIT_READ_ERROR_PENDING s.
Definition is_local_closing (s : t) : bool := status s =? SPLIT_LOCAL_CLOSING.

Definition terminate (cause : TerminalCause.t) (s : t) : t :=
  if status s <? SPLIT_CLOSED then set_published true (set_status (TerminalCause.as_u8 cause) s) else s.

Definition terminal_cause (s : t) : option TerminalCause.t :=
  if status s =? SPLIT_CLOSED then Some TerminalCause.ConnectionClosed
  else if status s =? SPLIT_CLOSED_HEARTBEAT then Some TerminalCause.HeartbeatTimeout
  else if status s =? SPLIT_CLOSED_IDLE then Some TerminalCause.IdleTimeout
  else None.

Definition is_open (s : t) : bool := status s =? SPLIT_OPEN.
End SplitShared.

(** The bounded channel of control requests: [reserved] permits are held by senders that have not sent yet. *)
Module Control.
Record t := Mk { queue : list ControlRequest.t; reserved : nat; rx_open : bool }.
Definition new : t := Mk [] 0 true.

Definition room (c : t) : bool := Nat.ltb (length (queue c) + reserved c) SPLIT_CONTROL_CAPACITY.
Definition reserve (c : t) : t := Mk (queue c) (S (reserved c)) (rx_open c).
Definition drop_permit (c : t) : t := Mk (queue c) (pred (reserved c)) (rx_open c).
Definition push (r : ControlRequest.t) (c : t) : t := Mk (if rx_open c then queue c ++ [r] else queue c) (reserved c) (rx_open c).
Definition permit_send (r : ControlRequest.t) (c : t) : t := push r (drop_permit c).
Definition drop_rx (c : t) : t := Mk [] (reserved c) false.
End Control.

Module TransportState.
Inductive t := Open | Closing | Closed.
#[global] Instance t_eq_dec : EqDecision t.
Proof. solve_decision. Defined.
(** [None] where the code panics. *)
Definition begin_close (s : t) : option t := match s with Open => Some Closing | _ => None end.
Definition finish_close (s : t) : option t := match s with Closing => Some Closed | _ => None end.
End TransportState.

(** What a reader reaches, and the clock. *)
Module Conn.
Record t := Mk { shared : SplitShared.t; control : Control.t; transport : TransportState.t; now : Z }.
Definition on_shared (f : SplitShared.t -> SplitShared.t) (c : t) : t := Mk (f (shared c)) (control c) (transport c) (now c).
Definition on_control (f : Control.t -> Control.t) (c : t) : t := Mk (shared c) (f (control c)) (transport c) (now c).
Definition set_transport (v : TransportState.t) (c : t) : t := Mk (shared c) (control c) v (now c).
Definition set_now (v : Z) (c : t) : t := Mk (shared c) (control c) (transport c) v.
Definition terminate (cause : TerminalCause.t) : t -> t := on_shared (SplitShared.terminate cause).
Definition cancel : t -> t := on_shared SplitShared.cancel.
End Conn.

(** [SplitEncoder]; [key] is what [generate_mask] returns. *)
Class SplitEncoder (E : Type) := {
  encode_message : bytes -> E -> Message.t -> bytes -> comp (E * bytes) unit;
  encode_pong : bytes -> E -> bytes -> bytes -> E * bytes;
  encode_close_response : bytes -> E -> option CloseReason.t -> bytes -> comp (E * bytes) unit
}.

#[export] Instance protocol_encoder : SplitEncoder Protocol.t := {
  encode_message key p msg buf := Done (Protocol.encode_message_into key p msg buf) (Ok tt);
  encode_pong key p payload buf := (p, Protocol.encode_pong key p payload buf);
  encode_close_response key p reason buf := Done (Protocol.encode_split_close_response key p reason buf) (Ok tt)
}.

#[export] Instance compressed_encoder {E D : Type} `{Codec E D} : SplitEncoder (CompressedWriter.t E) := {
  encode_message key p msg buf := CompressedWriter.encode_message key p msg buf;
  encode_pong key p payload buf := (p, CompressedWriter.encode_pong key p payload buf);
  encode_close_response key p reason buf := CompressedWriter.encode_message key p (Message.Close reason) buf
}.

(** A step is not possible, panics, or leads to a state. *)
Inductive outcome (A : Type) := Blocked | Panicked | To (a : A).
Arguments Blocked {A}.
Arguments Panicked {A}.
Arguments To {A} a.

(** A reading handle: a step of [next], given what it meets in the transport or in a [select!].  The value it returns, if it
    returns, is the third component. *)
Inductive ReaderLabel :=
  | RCall
  | RStep
  | RRead (r : res IoError bytes)
  | RChanged
  | RAbort.
Class SplitReading (R : Type) := {
  reader_step : ReaderLabel -> Conn.t -> R -> outcome (Conn.t * R * option Item)
}.

(** ** The sink *)

Module SplitSink.
Record t (E : Type) := Mk { encoder : E; buf : bytes }.
Arguments Mk {E}. Arguments encoder {E}. Arguments buf {E}.
Definition clear_buf {E} (s : t E) : t E := Mk (encoder s) [].
(** [encode_frame], for one of the methods of the encoder *)
Definition encode_frame {E} (encode : E -> bytes -> comp (E * bytes) unit) (s : t E) : comp (t E) unit :=
  match encode (encoder s) [] with
  | Done (e, b) r => Done (Mk e b) r
  | Panic => Panic
  | NoFuel => NoFuel
  end.
End SplitSink.

(** Who holds the lock of the sink: a [send] or [flush] of the application, [write_split_control], or the driver itself. *)
Inductive Owner := ByApp | ByControl | ByDriver.
#[global] Instance Owner_eq_dec : EqDecision Owner.
Proof. solve_decision. Defined.

(** A frame that was encoded to be written, and how much of it the transport has taken. *)
Record Written := MkWritten { w_by : Owner; w_message : Message.t; w_frame : bytes; w_sent : nat }.

(** What the transport answers when it is polled: it takes bytes (or has flushed), fails, or is not ready.  [Interrupt] is taken where
    a [select!] offers a signal or a timer that is ready. *)
Inductive answer := Accept (n : nat) | Refuse (e : IoError) | NotReady | Interrupt.

(** Errors of [SplitTransport] and of [write_all]; the latter's kind is one of those the code does not tell apart. *)
Definition broken_pipe : IoError := MkIoError IoBrokenPipe (str "broken pipe").
Definition write_zero : IoError := MkIoError (IoKind 0) (str "write zero").

(** A future of [write_split_bytes]: not yet polled, being polled, returned [Pending]. *)
Inductive WriteState := WStart (rest : bytes) | WRun (rest : bytes) | WWait (rest : bytes).

(** What one poll of the transport does to it; the frame is flushed once all of it is written. *)
Inductive write_result := WMore (rest : bytes) | WPending | WDone (r : result unit).

(** ** The application's handle *)

(** The places of [send] and [flush] between accesses to shared state.  [once]: the closing budget is zero, and the permit is held until the
    end.  [held]: the sink is locked. *)
Inductive ending := Report (permit : bool) (error : option Error) | Abandoned.
Inductive AppPc :=
  | AIdle
  | ADropped
  | ACheck (msg : Message.t)
  | AReserve (msg : Message.t)
  | ALocal (msg : Message.t)
  | AStarted (msg : Message.t)
  | ALock (msg : Message.t)
  | ARecheck (msg : Message.t)
  | AEncode (msg : Message.t) (once : bool)
  | AWrite (msg : Message.t) (once : bool) (w : WriteState)
  | AGuard (msg : Message.t) (held : bool) (e : ending)
  | ACancel (msg : Message.t) (held : bool) (e : ending)
  | AUnlock (msg : Message.t) (e : ending)
  | AFail (msg : Message.t) (permit : bool) (error : option Error)
  | ANotify (msg : Message.t)
  | FCheck
  | FLock
  | FRun (waiting : bool)
  | FError (e : Error)
  | FTerminate (e : Error)
  | FReport.

Definition is_idle (a : AppPc) : bool := match a with AIdle => true | _ => false end.
Definition is_dropped (a : AppPc) : bool := match a with ADropped => true | _ => false end.

(** ** The driver *)

Module SplitControlFrame.
Inductive t := Ping (payload : bytes) | Pong (payload : bytes) | Close (reason : option CloseReason.t).
Definition message (f : t) : Message.t :=
  match f with Ping p => Message.Ping p | Pong p => Message.Pong p | Close r => Message.Close r end.
End SplitControlFrame.

(** A future of [write_split_control]. *)
Inductive ControlWrite :=
  | PWait (frame : SplitControlFrame.t)
  | PLocked (frame : SplitControlFrame.t)
  | PWrite (frame : SplitControlFrame.t) (w : WriteState)
  | PDone (frame : SplitControlFrame.t) (ok : bool).

(** Straight-line code at the end of the driver. *)
Inductive closing_act := BeginClose | Shutdown | FinishClose (cause : TerminalCause.t) | ReleaseSink | CancelAll.

Inductive DriverPc :=
  | DTop
  | DArm
  | DSelect (heartbeat_enabled : bool)
  | DLockUntil (deadline : Z) (locked timed_out : list closing_act)
  | DTimeout (code : Z) (reason : bytes) (cause : TerminalCause.t)
  | DTimeoutBegin (msg : Message.t) (deadline : Z) (cause : TerminalCause.t)
  | DTimeoutEncode (msg : Message.t) (deadline : Z) (cause : TerminalCause.t)
  | DTimeoutWrite (w : WriteState) (deadline : Z) (cause : TerminalCause.t)
  | DActs (l : list closing_act)
  | DEnd.

Module Driver.
Record t := Mk {
  pc : DriverPc;
  heartbeat : Heartbeat.t;
  closing_deadline : option Z;
  local_close_sent : bool;
  peer_close : bool;
  peer_close_reason : option CloseReason.t;
  pending_pong : option bytes;
  ping_payload : option bytes;
  early_pong_ms : option Z;
  read_error : bool;
  pending_write : option ControlWrite;
  last_synced_inbound_ms : Z
}.
Definition set_pc (v : DriverPc) (d : t) : t :=
  Mk v (heartbeat d) (closing_deadline d) (local_close_sent d) (peer_close d) (peer_close_reason d) (pending_pong d) (ping_payload d) (early_pong_ms d) (read_error d) (pending_write d) (last_synced_inbound_ms d).
Definition set_heartbeat (v : Heartbeat.t) (d : t) : t :=
  Mk (pc d) v (closing_deadline d) (local_close_sent d) (peer_close d) (peer_close_reason d) (pending_pong d) (ping_payload d) (early_pong_ms d) (read_error d) (pending_write d) (last_synced_inbound_ms d).
Definition set_closing_deadline (v : option Z) (d : t) : t :=
  Mk (pc d) (heartbeat d) v (local_close_sent d) (peer_close d) (peer_close_reason d) (pending_pong d) (ping_payload d) (early_pong_ms d) (read_error d) (pending_write d) (last_synced_inbound_ms d).
Definition set_local_close_sent (v : bool) (d : t) : t :=
  Mk (pc d) (heartbeat d) (closing_deadline d) v (peer_close d) (peer_close_reason d) (pending_pong d) (ping_payload d) (early_pong_ms d) (read_error d) (pending_write d) (last_synced_inbound_ms d).
Definition set_peer_close (v : bool) (r : option CloseReason.t) (d : t) : t :=
  Mk (pc d) (heartbeat d) (closing_deadline d) (local_close_sent d) v r (pending_pong d) (ping_payload d) (early_pong_ms d) (read_error d) (pending_write d) (last_synced_inbound_ms d).
Definition set_pending_pong (v : option bytes) (d : t) : t :=
  Mk (pc d) (heartbeat d) (closing_deadline d) (local_close_sent d) (peer_close d) (peer_close_reason d) v (ping_payload d) (early_pong_ms d) (read_error d) (pending_write d) (last_synced_inbound_ms d).
Definition set_ping_payload (v : option bytes) (d : t) : t :=
  Mk (pc d) (heartbeat d) (closing_deadline d) (local_close_sent d) (peer_close d) (peer_close_reason d) (pending_pong d) v (early_pong_ms d) (read_error d) (pending_write d) (last_synced_inbound_ms d).
Definition set_early_pong_ms (v : option Z) (d : t) : t :=
  Mk (pc d) (heartbeat d) (closing_deadline d) (local_close_sent d) (peer_close d) (peer_close_reason d) (pending_pong d) (ping_payload d) v (read_error d) (pending_write d) (last_synced_inbound_ms d).
Definition set_read_error (v : bool) (d : t) : t :=
  Mk (pc d) (heartbeat d) (closing_deadline d) (local_close_sent d) (peer_close d) (peer_close_reason d) (pending_pong d) (ping_payload d) (early_pong_ms d) v (pending_write d) (last_synced_inbound_ms d).
Definition set_pending_write (v : option ControlWrite) (d : t) : t :=
  Mk (pc d) (heartbeat d) (closing_deadline d) (local_close_sent d) (peer_close d) (peer_close_reason d) (pending_pong d) (ping_payload d) (early_pong_ms d) (read_error d) v (last_synced_inbound_ms d).
Definition set_last_synced_inbound_ms (v : Z) (d : t) : t :=
  Mk (pc d) (heartbeat d) (closing_deadline d) (local_close_sent d) (peer_close d) (peer_close_reason d) (pending_pong d) (ping_payload d) (early_pong_ms d) (read_error d) (pending_write d) v.

Definition new (c : Config.t) : t :=
  Mk DTop (Heartbeat.new (Config.auto_ping c) (Config.ping_interval c) (Config.idle_timeout c) (Config.pong_timeout c) 0)
    None false false None None None None false None 0.
End Driver.

(** ** The whole system *)

(** What the application has been told. *)
Inductive observation := Sent (msg : Message.t) (r : result unit) | Flushed (r : result unit) | Got (i : Item).

Record State (E R : Type) := MkState {
  conn : Conn.t;
  lock : option Owner;
  sink : SplitSink.t E;
  broken : bool;
  wire : list Written;
  app : AppPc;
  driver : Driver.t;
  reader : R;
  reader_dropped : bool;
  log : list observation
}.
Arguments MkState {E R}.
Arguments conn {E R}. Arguments lock {E R}. Arguments sink {E R}. Arguments broken {E R}. Arguments wire {E R}.
Arguments app {E R}. Arguments driver {E R}. Arguments reader {E R}. Arguments reader_dropped {E R}. Arguments log {E R}.

Section System.
Context {E R : Type} `{SplitEncoder E} `{SplitReading R}.
Abbreviation State := (State E R).
(** [sticky]: once the transport has refused a write it refuses all. *)
Context (config : Config.t) (sticky : bool).

Definition set_conn (v : Conn.t) (s : State) : State :=
  MkState v (lock s) (sink s) (broken s) (wire s) (app s) (driver s) (reader s) (reader_dropped s) (log s).
Definition set_lock (v : option Owner) (s : State) : State :=
  MkState (conn s) v (sink s) (broken s) (wire s) (app s) (driver s) (reader s) (reader_dropped s) (log s).
Definition set_sink (v : SplitSink.t E) (s : State) : State :=
  MkState (conn s) (lock s) v (broken s) (wire s) (app s) (driver s) (reader s) (reader_dropped s) (log s).
Definition set_broken (v : bool) (s : State) : State :=
  MkState (conn s) (lock s) (sink s) v (wire s) (app s) (driver s) (reader s) (reader_dropped s) (log s).
Definition set_wire (v : list Written) (s : State) : State :=
  MkState (conn s) (lock s) (sink s) (broken s) v (app s) (driver s) (reader s) (reader_dropped s) (log s).
Definition set_app (v : AppPc) (s : State) : State :=
  MkState (conn s) (lock s) (sink s) (broken s) (wire s) v (driver s) (reader s) (reader_dropped s) (log s).
Definition set_driver (v : Driver.t) (s : State) : State :=
  MkState (conn s) (lock s) (sink s) (broken s) (wire s) (app s) v (reader s) (reader_dropped s) (log s).
Definition set_reader (v : R) (s : State) : State :=
  MkState (conn s) (lock s) (sink s) (broken s) (wire s) (app s) (driver s) v (reader_dropped s) (log s).
Definition set_reader_dropped (v : bool) (s : State) : State :=
  MkState (conn s) (lock s) (sink s) (broken s) (wire s) (app s) (driver s) (reader s) v (log s).
Definition observe (o : observation) (s : State) : State :=
  MkState (conn s) (lock s) (sink s) (broken s) (wire s) (app s) (driver s) (reader s) (reader_dropped s) (log s ++ [o]).

Definition on_conn (f : Conn.t -> Conn.t) (s : State) : State := set_conn (f (conn s)) s.
Definition shared (s : State) : SplitShared.t := Conn.shared (conn s).
Definition status (s : State) : Z := SplitShared.status (shared s).
Definition cancelled (s : State) : bool := SplitShared.cancelled (shared s).
Definition terminate (cause : TerminalCause.t) : State -> State := on_conn (Conn.terminate cause).
Definition cancel : State -> State := on_conn Conn.cancel.

(** *** Writing a frame *)

(** A frame is encoded into the sink's buffer; what is to be written is remembered in [wire]. *)
Definition encode_for (o : Owner) (msg : Message.t) (encode : E -> bytes -> comp (E * bytes) unit) (s : State) : outcome (State * option bytes) :=
  match SplitSink.encode_frame encode (sink s) with
  | Done k (Ok _) => To (set_wire (wire s ++ [MkWritten o msg (SplitSink.buf k) 0]) (set_sink k s), Some (SplitSink.buf k))
  | Done k (Err _) => To (set_sink k s, None)
  | Panic | NoFuel => Panicked
  end.

(** Like [encode_for], where the error is wanted. *)
Definition encode_error (encode : E -> bytes -> comp (E * bytes) unit) (s : State) : Error :=
  match SplitSink.encode_frame encode (sink s) with Done _ (Err e) => e | _ => ConnectionClosed end.

Definition take_bytes (n : nat) (s : State) : State :=
  match last (wire s) with
  | Some w => set_wire (removelast (wire s) ++ [MkWritten (w_by w) (w_message w) (w_frame w) (w_sent w + n)]) s
  | None => s
  end.

(** One poll of the stream, by [write_all] while bytes are left and then by [flush]. *)
Definition poll_stream (a : answer) (rest : bytes) (s : State) : State * write_result :=
  match if sticky && broken s then Refuse broken_pipe else a with
  | Refuse e => (set_broken true s, WDone (Err (from_io e)))
  | NotReady | Interrupt => (s, WPending)
  | Accept n =>
      if bool_decide (rest = []) then (s, WDone (Ok tt))
      else let n := Nat.min n (length rest) in
        if Nat.eqb n 0 then (set_broken true s, WDone (Err (from_io write_zero)))
        else (take_bytes n s, WMore (drop n rest))
  end.

(** The same through [SplitTransport]. *)
Definition poll_split (a : answer) (rest : bytes) (s : State) : State * write_result :=
  match Conn.transport (conn s) with
  | TransportState.Open => poll_stream a rest s
  | TransportState.Closing => (s, WPending)
  | TransportState.Closed => (s, WDone (Err (from_io broken_pipe)))
  end.

(** *** [SplitWriterCore] *)

Definition current_error (s : State) : Error :=
  match SplitShared.terminal_cause (shared s) with Some c => TerminalCause.error c | None => ConnectionClosed end.
Definition preferred_write_error (e : Error) (s : State) : Error :=
  match SplitShared.terminal_cause (shared s) with
  | Some TerminalCause.HeartbeatTimeout => HeartbeatTimeout
  | Some TerminalCause.IdleTimeout => IdleTimeout
  | _ => e
  end.

Definition app_encode (key : bytes) (msg : Message.t) (e : E) (b : bytes) : comp (E * bytes) unit := encode_message key e msg b.

(** The frame is flushed and the sink released. *)
Definition app_sent (msg : Message.t) (once : bool) (s : State) : State :=
  if once then observe (Sent msg (Ok tt))
    (set_app AIdle (on_conn (Conn.on_control (Control.permit_send ControlRequest.LocalCloseSent)) s))
  else if Message.is_close msg then set_app (ANotify msg) s
  else observe (Sent msg (Ok tt)) (set_app AIdle s).

Definition app_write (a : answer) (msg : Message.t) (once : bool) (w : WriteState) (s : State) : outcome State :=
  let failed e := set_app (AGuard msg true (Report once e)) in
  match w with
  | WStart rest =>
      if cancelled s then To (failed (Some ConnectionClosed) (set_sink (SplitSink.clear_buf (sink s)) s))
      else To (set_app (AWrite msg once (WRun rest)) s)
  | WRun rest =>
      let '(s, r) := poll_split a rest s in
      match r with
      | WMore rest => To (set_app (AWrite msg once (WRun rest)) s)
      | WDone (Ok _) => To (app_sent msg once (set_lock None (set_sink (SplitSink.clear_buf (sink s)) s)))
      | WDone (Err e) => To (failed (Some e) (set_sink (SplitSink.clear_buf (sink s)) s))
      | WPending => if once then To (failed None s) else To (set_app (AWrite msg once (WWait rest)) s)
      end
  | WWait rest =>
      if cancelled s then To (failed (Some ConnectionClosed) (set_sink (SplitSink.clear_buf (sink s)) s))
      else To (set_app (AWrite msg once (WRun rest)) s)
  end.

Definition app_step (a : answer) (key : bytes) (s : State) : outcome State :=
  match app s with
  | AIdle | ADropped => Blocked
  | ACheck msg =>
      if negb (SplitShared.is_open (shared s)) then To (set_app (AFail msg false None) s)
      else To (set_app (if Message.is_close msg then AReserve msg else ALock msg) s)
  | AReserve msg =>
      let c := Conn.control (conn s) in
      if negb (Control.rx_open c) then To (set_app (AFail msg false None) s)
      else if Control.room c then To (set_app (ALocal msg) (on_conn (Conn.on_control Control.reserve) s))
      else Blocked
  | ALocal msg =>
      let '(sh, ok) := SplitShared.begin_local_closing (shared s) in
      To (set_app (if ok then AStarted msg else AFail msg true None) (on_conn (Conn.on_shared (fun _ => sh)) s))
  | AStarted msg =>
      if Config.close_timeout config =? 0 then
        match lock s with
        | Some _ => To (set_app (AGuard msg false (Report true None)) s)
        | None => To (set_app (AEncode msg true) (set_lock (Some ByApp) s))
        end
      else To (set_app (ALock msg)
        (on_conn (Conn.on_control (Control.permit_send (ControlRequest.LocalCloseStarted (Conn.now (conn s))))) s))
  | ALock msg =>
      match lock s with
      | Some _ => Blocked
      | None => To (set_app (ARecheck msg) (set_lock (Some ByApp) s))
      end
  | ARecheck msg =>
      if negb (status s =? SPLIT_OPEN) && negb (Message.is_close msg && (status s =? SPLIT_LOCAL_CLOSING))
      then To (set_app (AUnlock msg (Report false None)) s)
      else To (set_app (AEncode msg false) s)
  | AEncode msg once =>
      if cancelled s then To (set_app (AGuard msg true (Report once (Some ConnectionClosed))) s)
      else
        match encode_for ByApp msg (app_encode key msg) s with
        | To (s', Some b) => To (set_app (AWrite msg once (WStart b)) s')
        | To (s', None) => To (set_app (AGuard msg true (Report once (Some (encode_error (app_encode key msg) s)))) s')
        | Blocked => Blocked
        | Panicked => Panicked
        end
  | AWrite msg once w => app_write a msg once w s
  | AGuard msg held e => To (set_app (ACancel msg held e) (terminate TerminalCause.ConnectionClosed s))
  | ACancel msg held e =>
      To (set_app (if held then AUnlock msg e else match e with Report p err => AFail msg p err | Abandoned => AIdle end) (cancel s))
  | AUnlock msg e =>
      To (set_app (match e with Report p err => AFail msg p err | Abandoned => AIdle end) (set_lock None s))
  | AFail msg permit error =>
      let e := match error with None => current_error s | Some e => preferred_write_error e s end in
      To (observe (Sent msg (Err e)) (set_app AIdle (if permit then on_conn (Conn.on_control Control.drop_permit) s else s)))
  | ANotify msg =>
      let c := Conn.control (conn s) in
      if negb (Control.rx_open c) then To (observe (Sent msg (Ok tt)) (set_app AIdle s))
      else if Control.room c then
        To (observe (Sent msg (Ok tt)) (set_app AIdle (on_conn (Conn.on_control (Control.push ControlRequest.LocalCloseSent)) s)))
      else Blocked
  | FCheck => To (set_app (if SplitShared.is_open (shared s) then FLock else FReport) s)
  | FLock =>
      match lock s with
      | Some _ => Blocked
      | None => To (set_app (FRun false) (set_lock (Some ByApp) s))
      end
  | FRun waiting =>
      match a with
      | Interrupt => if cancelled s then To (set_app (FError ConnectionClosed) (set_lock None s)) else Blocked
      | _ =>
          let '(s, r) := poll_split a [] s in
          match r with
          | WDone (Ok _) => To (observe (Flushed (Ok tt)) (set_app AIdle (set_lock None s)))
          | WDone (Err e) => To (set_app (FError e) (set_lock None s))
          | _ => To (set_app (FRun true) s)
          end
      end
  | FError e =>
      match SplitShared.terminal_cause (shared s) with
      | Some _ => To (set_app FReport s)
      | None => To (set_app (FTerminate e) s)
      end
  | FTerminate e => To (observe (Flushed (Err e)) (set_app AIdle (terminate TerminalCause.ConnectionClosed s)))
  | FReport => To (observe (Flushed (Err (current_error s))) (set_app AIdle s))
  end.

(** The future of [send] or [flush] is dropped where it waits; dropping [SplitSendGuard] comes before the release of the sink. *)
Definition app_abort (s : State) : outcome State :=
  match app s with
  | AReserve _ | ALock _ | ANotify _ | FLock => To (set_app AIdle s)
  | AWrite msg false (WWait _) => To (set_app (AGuard msg true Abandoned) s)
  | FRun true => To (set_app AIdle (set_lock None s))
  | _ => Blocked
  end.

(** *** [write_split_control], polled by the driver *)

Definition control_encode (key : bytes) (f : SplitControlFrame.t) (e : E) (b : bytes) : comp (E * bytes) unit :=
  match f with
  | SplitControlFrame.Ping payload => encode_message key e (Message.Ping payload) b
  | SplitControlFrame.Pong payload => Done (encode_pong key e payload b) (Ok tt)
  | SplitControlFrame.Close reason => encode_close_response key e reason b
  end.

Definition set_pending_write (v : option ControlWrite) (s : State) : State := set_driver (Driver.set_pending_write v (driver s)) s.
Definition goto (pc : DriverPc) (s : State) : State := set_driver (Driver.set_pc pc (driver s)) s.

(** The future ends, and releases the sink. *)
Definition control_done (f : SplitControlFrame.t) (ok : bool) (s : State) : State :=
  set_pending_write (Some (PDone f ok)) (set_lock None s).

Definition control_step (a : answer) (key : bytes) (p : ControlWrite) (s : State) : outcome State :=
  match p with
  | PWait f =>
      if cancelled s then To (set_pending_write (Some (PDone f false)) s)
      else match lock s with
           | Some _ => Blocked
           | None => To (set_pending_write (Some (PLocked f)) (set_lock (Some ByControl) s))
           end
  | PLocked f =>
      if cancelled s then To (control_done f false s)
      else
        match encode_for ByControl (SplitControlFrame.message f) (control_encode key f) s with
        | To (s, Some b) => To (set_pending_write (Some (PWrite f (WStart b))) s)
        | To (s, None) => To (control_done f false s)
        | Blocked => Blocked
        | Panicked => Panicked
        end
  | PWrite f (WStart rest) =>
      if cancelled s then To (control_done f false (set_sink (SplitSink.clear_buf (sink s)) s))
      else To (set_pending_write (Some (PWrite f (WRun rest))) s)
  | PWrite f (WRun rest) =>
      let '(s, r) := poll_split a rest s in
      match r with
      | WMore rest => To (set_pending_write (Some (PWrite f (WRun rest))) s)
      | WDone r => To (control_done f (match r with Ok _ => true | Err _ => false end) (set_sink (SplitSink.clear_buf (sink s)) s))
      | WPending => To (set_pending_write (Some (PWrite f (WWait rest))) s)
      end
  | PWrite f (WWait rest) =>
      if cancelled s then To (control_done f false s)
      else To (set_pending_write (Some (PWrite f (WRun rest))) s)
  | PDone _ _ => Blocked
  end.

(** *** [split_writer_driver] *)

(** Between polls of the pending write, so that another branch of the [select!] can be taken. *)
Definition suspended (p : option ControlWrite) : bool :=
  match p with
  | None | Some (PWait _) | Some (PWrite _ (WWait _)) => true
  | _ => false
  end.

Definition sync_inbound (s : State) : State :=
  let d := driver s in
  let observed := SplitShared.last_inbound_ms (shared s) in
  if Driver.last_synced_inbound_ms d <? observed then
    set_driver (Driver.set_heartbeat (fst (Heartbeat.on_inbound (Driver.heartbeat d) observed None))
      (Driver.set_last_synced_inbound_ms observed d)) s
  else s.

(** [transport.close_with(..)], then [cancel] and [break] *)
Definition close_and_cancel (cause : TerminalCause.t) : list closing_act := [BeginClose; FinishClose cause; CancelAll].

Definition driver_top (s : State) : outcome State :=
  let s := sync_inbound s in
  let d := driver s in
  match Driver.pending_write d with
  | Some _ => To (goto DArm s)
  | None =>
  if Driver.read_error d then
    match Driver.closing_deadline d with
    | None => Panicked
    | Some deadline =>
        To (goto (DLockUntil deadline (close_and_cancel TerminalCause.ConnectionClosed ++ [ReleaseSink])
                    (close_and_cancel TerminalCause.ConnectionClosed)) s)
    end
  else if Driver.peer_close d then
    if Driver.local_close_sent d then
      match Driver.closing_deadline d with
      | None => Panicked
      | Some deadline =>
          To (goto (DLockUntil deadline
                      [BeginClose; Shutdown; FinishClose TerminalCause.ConnectionClosed; ReleaseSink; CancelAll]
                      (close_and_cancel TerminalCause.ConnectionClosed)) s)
      end
    else if negb (SplitShared.is_local_closing (shared s)) then
      To (goto DArm (set_driver (Driver.set_pending_write (Some (PWait (SplitControlFrame.Close (Driver.peer_close_reason d))))
                                  (Driver.set_peer_close true None d)) s))
    else To (goto DArm s)
  else
    match Driver.pending_pong d with
    | Some payload =>
        To (goto DArm (set_driver (Driver.set_pending_write (Some (PWait (SplitControlFrame.Pong payload)))
                                    (Driver.set_pending_pong None d)) s))
    | None => To (goto DArm s)
    end
  end.

Definition driver_deadline (d : Driver.t) : option Deadline :=
  match Driver.pending_write d with
  | Some _ => Heartbeat.next_hard_deadline (Driver.heartbeat d)
  | None => Heartbeat.next_deadline (Driver.heartbeat d)
  end.

Definition stop_heartbeat (d : Driver.t) : Driver.t := Driver.set_heartbeat (Heartbeat.stop (Driver.heartbeat d)) d.
(** [closing_deadline.get_or_insert] *)
Definition get_or_insert_deadline (v : Z) (d : Driver.t) : Driver.t :=
  Driver.set_closing_deadline (Some (default v (Driver.closing_deadline d))) d.
Definition close_budget (started : Z) : Z := started + Config.close_timeout config * 1000.

Definition driver_request (r : ControlRequest.t) (s : State) : State :=
  let d := driver s in
  let now := Conn.now (conn s) in
  match r with
  | ControlRequest.Ping payload received_at =>
      goto DTop (set_driver (Driver.set_pending_pong (Some payload)
        (Driver.set_heartbeat (fst (Heartbeat.on_inbound (Driver.heartbeat d) received_at None)) d)) s)
  | ControlRequest.Pong payload received_at =>
      let d := if bool_decide (Driver.ping_payload d = Some payload) then Driver.set_early_pong_ms (Some received_at) d else d in
      goto DTop (set_driver (Driver.set_heartbeat (fst (Heartbeat.on_inbound (Driver.heartbeat d) received_at (Some payload))) d) s)
  | ControlRequest.PeerClose reason =>
      let d := Driver.set_peer_close true reason (stop_heartbeat d) in
      goto DTop (set_driver (if negb (SplitShared.is_local_closing (shared s)) then get_or_insert_deadline (close_budget now) d else d) s)
  | ControlRequest.LocalCloseStarted started =>
      goto DTop (set_driver (get_or_insert_deadline (close_budget started) (stop_heartbeat d)) s)
  | ControlRequest.LocalCloseSent =>
      goto DTop (set_driver (get_or_insert_deadline (close_budget now) (Driver.set_local_close_sent true (stop_heartbeat d))) s)
  | ControlRequest.ReadError =>
      goto DTop (set_driver (get_or_insert_deadline (close_budget now) (Driver.set_read_error true (stop_heartbeat d))) s)
  | ControlRequest.Eof => goto (DActs (close_and_cancel TerminalCause.ConnectionClosed)) (set_driver (stop_heartbeat d) s)
  end.

(** [control_rx.recv()]: the next request, or the end of the channel when both handles are gone. *)
Definition driver_recv (s : State) : outcome State :=
  let c := Conn.control (conn s) in
  match Control.queue c with
  | r :: queue => To (driver_request r (on_conn (Conn.on_control (fun _ => Control.Mk queue (Control.reserved c) (Control.rx_open c))) s))
  | [] =>
      if is_dropped (app s) && reader_dropped s
      then To (goto (DActs (close_and_cancel TerminalCause.ConnectionClosed)) s) else Blocked
  end.

Definition driver_close_timer (s : State) : outcome State :=
  match Driver.closing_deadline (driver s) with
  | Some deadline =>
      if deadline <=? Conn.now (conn s) then
        match lock s with
        | None => To (goto (DActs [BeginClose; Shutdown; FinishClose TerminalCause.ConnectionClosed; ReleaseSink; CancelAll])
                        (set_lock (Some ByDriver) s))
        | Some _ => To (goto (DActs (close_and_cancel TerminalCause.ConnectionClosed)) s)
        end
      else Blocked
  | None => Blocked
  end.

Definition driver_heartbeat (nonce : Z) (s : State) : outcome State :=
  match driver_deadline (driver s) with
  | None => Blocked
  | Some armed =>
      if deadline_at armed <=? Conn.now (conn s) then
        let s := sync_inbound s in
        let now := Conn.now (conn s) in
        let d := driver s in
        match driver_deadline d with
        | Some (DPing at_ms) =>
            if at_ms <=? now then
              let '(_, hb, ping) := Heartbeat.ping_due nonce (Driver.heartbeat d) now in
              let d := Driver.set_heartbeat hb d in
              To (goto DTop (set_driver
                (match ping with
                 | Some payload => Driver.set_pending_write (Some (PWait (SplitControlFrame.Ping payload)))
                                     (Driver.set_ping_payload (Some payload) d)
                 | None => d
                 end) s))
            else To (goto DTop s)
        | Some (DPong at_ms) =>
            To (goto (if at_ms <=? now then DTimeout (Config.pong_timeout_close_code config) (Config.pong_timeout_close_reason config)
                                              TerminalCause.HeartbeatTimeout else DTop) s)
        | Some (DIdle at_ms) =>
            To (goto (if at_ms <=? now then DTimeout CloseReason.GOING_AWAY (str "Connection idle timeout") TerminalCause.IdleTimeout
                      else DTop) s)
        | None => To (goto DTop s)
        end
      else Blocked
  end.

(** The pending write has ended. *)
Definition driver_written (f : SplitControlFrame.t) (ok : bool) (s : State) : State :=
  let d := Driver.set_pending_write None (driver s) in
  if negb ok then goto (DActs (close_and_cancel TerminalCause.ConnectionClosed)) (set_driver d s)
  else
    goto DTop (set_driver
      (match f with
       | SplitControlFrame.Ping payload =>
           let hb := Heartbeat.ping_flushed (Driver.heartbeat d) (Conn.now (conn s)) in
           let hb := match Driver.early_pong_ms d with
                     | Some received_ms => fst (Heartbeat.on_inbound hb received_ms (Some payload))
                     | None => hb
                     end in
           Driver.set_ping_payload None (Driver.set_early_pong_ms None (Driver.set_heartbeat hb d))
       | SplitControlFrame.Close _ => Driver.set_local_close_sent true d
       | SplitControlFrame.Pong _ => d
       end) s).

Inductive branch := BCancelled | BRequest | BCloseTimer | BHeartbeat | BWrite.

Definition driver_select (b : branch) (a : answer) (key : bytes) (nonce : Z) (enabled : bool) (s : State) : outcome State :=
  let pending := Driver.pending_write (driver s) in
  match b with
  | BWrite =>
      match pending with
      | None => Blocked
      | Some (PDone f ok) => To (driver_written f ok s)
      | Some p => control_step a key p s
      end
  | _ =>
      if negb (suspended pending) then Blocked
      else match b with
           | BCancelled =>
               if cancelled s then To (goto (DActs [BeginClose; FinishClose TerminalCause.ConnectionClosed]) s) else Blocked
           | BRequest => driver_recv s
           | BCloseTimer => driver_close_timer s
           | _ => if enabled then driver_heartbeat nonce s else Blocked
           end
  end.

(** [break]: the pending write and the channel are dropped. *)
Definition driver_break (s : State) : State :=
  let s := match Driver.pending_write (driver s) with
           | Some (PLocked _) | Some (PWrite _ _) => set_lock None s
           | _ => s
           end in
  goto DEnd (on_conn (Conn.on_control Control.drop_rx) (set_pending_write None s)).

Definition driver_act (act : closing_act) (rest : list closing_act) (s : State) : outcome State :=
  let next := goto (DActs rest) in
  match act with
  | BeginClose =>
      match TransportState.begin_close (Conn.transport (conn s)) with
      | Some v => To (next (on_conn (Conn.set_transport v) s))
      | None => Panicked
      end
  | Shutdown => To (next s)
  | FinishClose cause =>
      match TransportState.finish_close (Conn.transport (conn s)) with
      | Some v => To (next (terminate cause (on_conn (Conn.set_transport v) s)))
      | None => Panicked
      end
  | ReleaseSink => To (next (set_lock None s))
  | CancelAll => To (next (cancel s))
  end.

(** After the Close of [timeout_close] *)
Definition timeout_finish (cause : TerminalCause.t) : list closing_act := [Shutdown; FinishClose cause; ReleaseSink; CancelAll].

Definition timeout_write (a : answer) (w : WriteState) (deadline : Z) (cause : TerminalCause.t) (s : State) : outcome State :=
  let finish (s : State) := goto (DActs (timeout_finish cause)) (set_sink (SplitSink.clear_buf (sink s)) s) in
  match w with
  | WStart rest => if cancelled s then To (finish s) else To (goto (DTimeoutWrite (WRun rest) deadline cause) s)
  | WRun rest =>
      let '(s, r) := poll_stream a rest s in
      match r with
      | WMore rest => To (goto (DTimeoutWrite (WRun rest) deadline cause) s)
      | WDone _ => To (finish s)
      | WPending => To (goto (DTimeoutWrite (WWait rest) deadline cause) s)
      end
  | WWait rest =>
      if cancelled s then To (finish s)
      else match a with
           | Interrupt => if deadline <=? Conn.now (conn s) then To (finish s) else Blocked
           | _ => To (goto (DTimeoutWrite (WRun rest) deadline cause) s)
           end
  end.

Definition driver_step (b : branch) (a : answer) (key : bytes) (nonce : Z) (s : State) : outcome State :=
  match Driver.pc (driver s) with
  | DTop => driver_top s
  | DArm => To (goto (DSelect (bool_decide (is_Some (driver_deadline (driver s))) && SplitShared.is_open (shared s))) s)
  | DSelect enabled => driver_select b a key nonce enabled s
  | DLockUntil deadline locked timed_out =>
      match a with
      | Interrupt => if deadline <=? Conn.now (conn s) then To (goto (DActs timed_out) s) else Blocked
      | _ => match lock s with
             | None => To (goto (DActs locked) (set_lock (Some ByDriver) s))
             | Some _ => Blocked
             end
      end
  | DTimeout code reason cause =>
      let deadline := close_budget (Conn.now (conn s)) in
      match lock s with
      | None => To (goto (DTimeoutBegin (Message.Close (Some (CloseReason.new code (bounded_close_reason reason)))) deadline cause)
                      (set_lock (Some ByDriver) s))
      | Some _ => To (goto (DActs (close_and_cancel cause)) s)
      end
  | DTimeoutBegin msg deadline cause =>
      match TransportState.begin_close (Conn.transport (conn s)) with
      | Some v => To (goto (DTimeoutEncode msg deadline cause) (on_conn (Conn.set_transport v) s))
      | None => Panicked
      end
  | DTimeoutEncode msg deadline cause =>
      match encode_for ByDriver msg (app_encode key msg) s with
      | To (s, Some b) => To (goto (DTimeoutWrite (WStart b) deadline cause) s)
      | To (s, None) => To (goto (DActs (timeout_finish cause)) (set_sink (SplitSink.clear_buf (sink s)) s))
      | Blocked => Blocked
      | Panicked => Panicked
      end
  | DTimeoutWrite w deadline cause => timeout_write a w deadline cause s
  | DActs [] => To (driver_break s)
  | DActs (act :: rest) => driver_act act rest s
  | DEnd => Blocked
  end.

(** *** Interleaving *)

Inductive label :=
  | LTick (ms : Z)
  | LSend (msg : Message.t)
  | LFlush
  | LApp (a : answer) (key : bytes)
  | LAbort
  | LDropWriter
  | LDriver (b : branch) (a : answer) (key : bytes) (nonce : Z)
  | LReader (l : ReaderLabel)
  | LDropReader.

Definition step (l : label) (s : State) : outcome State :=
  match l with
  | LTick ms => if 0 <=? ms then To (on_conn (fun c => Conn.set_now (Conn.now c + ms) c) s) else Blocked
  | LSend msg => if is_idle (app s) then To (set_app (ACheck msg) s) else Blocked
  | LFlush => if is_idle (app s) then To (set_app FCheck s) else Blocked
  | LApp a key => app_step a key s
  | LAbort => app_abort s
  | LDropWriter => if is_idle (app s) then To (cancel (set_app ADropped s)) else Blocked
  | LDriver b a key nonce => driver_step b a key nonce s
  | LReader l =>
      if reader_dropped s then Blocked
      else match reader_step l (conn s) (reader s) with
           | To (c, r, returned) =>
               let s := set_reader r (set_conn c s) in
               To (match returned with Some i => observe (Got i) s | None => s end)
           | Blocked => Blocked
           | Panicked => Panicked
           end
  | LDropReader => if reader_dropped s then Blocked else To (cancel (set_reader_dropped true s))
  end.

(** The steps of a run, one after the other; [Blocked] when one is not possible. *)
Fixpoint steps (ls : list label) (s : State) : outcome State :=
  match ls with
  | [] => To s
  | l :: ls => match step l s with To s => steps ls s | r => r end
  end.
End System.
