(* ===== verification/SplitReader.v ===== *)
(** * Split streams: the reading handles (src/src/stream/websocket.rs, [SplitReader], [CompressedSplitReader]) and [split]

    [next] is cut at its accesses to what the tasks share and at its awaits; a call dropped at an await leaves the fields of the handle as they
    are there.  The receive window only sizes the read buffer, and is not part of the state. *)

From stdpp Require Import base list option strings.
From S2P Require Import Prelude Error Mask Utf8 Frame Protocol Heartbeat Output Deflate Compressed Config WebSocket Split.
Import WebSocketStream (Item).

(** ** Steps both handles share *)

(** The places of [next].  [RTerminate]: [terminate(ConnectionClosed)], then the loop goes on. *)
Inductive ReaderPc :=
  | RIdle
  | RTop
  | RTake
  | RGot (msg : Message.t)
  | RReserve
  | RError
  | RReading
  | RAfter (r : res IoError bytes)
  | REof
  | RTerminate
  | RFailed (e : IoError).

(** [take_terminal]: what [next] returns. *)
Definition take_terminal (sh : SplitShared.t) : option Item :=
  match SplitShared.terminal_cause sh with
  | None => None
  | Some TerminalCause.HeartbeatTimeout => Some (Some (Err HeartbeatTimeout))
  | Some TerminalCause.IdleTimeout => Some (Some (Err IdleTimeout))
  | Some TerminalCause.ConnectionClosed => Some None
  end.

(** [poll_read] of [SplitTransport], when the stream would answer [r]. *)
Definition poll_read (r : res IoError bytes) (c : Conn.t) : option (res IoError bytes) :=
  match Conn.transport c with
  | TransportState.Open => Some r
  | TransportState.Closing => None
  | TransportState.Closed => Some (Ok [])
  end.

Definition note_inbound (c : Conn.t) : Conn.t := Conn.on_shared (SplitShared.note_inbound (Conn.now c)) c.

(** [control_tx.reserve()], then [permit.send(r)]: sent, waiting, or the driver is gone. *)
Inductive sending := SendNow (c : Conn.t) | SendWait | SendClosed.
Definition send_request (r : ControlRequest.t) (c : Conn.t) : sending :=
  if negb (Control.rx_open (Conn.control c)) then SendClosed
  else if Control.room (Conn.control c) then SendNow (Conn.on_control (Control.push r) c) else SendWait.

(** The request for a control message, made when it is first seen; [None] for a Close, which changes more. *)
Definition request_for (now : Z) (msg : Message.t) : option ControlRequest.t :=
  match msg with
  | Message.Ping data => Some (ControlRequest.Ping data now)
  | Message.Pong data => Some (ControlRequest.Pong data now)
  | _ => None
  end.

(** [Vec::pop] *)
Definition pop (l : list Message.t) : option (Message.t * list Message.t) :=
  match reverse l with m :: rest => Some (m, reverse rest) | [] => None end.

(** ** [SplitReader] *)

Module SplitReader.
(** [terminal_seen]: the version of [terminal_rx] that has been seen is the one sent. *)
Record t := Mk {
  protocol : Protocol.t;
  read_buf : bytes;
  has_unprocessed_read_data : bool;
  pending_message : option Message.t;
  pending_ping_batch : list Message.t;
  pending_parse_error : option Error;
  pending_request : option ControlRequest.t;
  terminal_seen : bool;
  terminal_reported : bool;
  pc : ReaderPc
}.

Definition goto (v : ReaderPc) (r : t) : t :=
  Mk (protocol r) (read_buf r) (has_unprocessed_read_data r) (pending_message r) (pending_ping_batch r) (pending_parse_error r) (pending_request r) (terminal_seen r) (terminal_reported r) v.
Definition set_terminal_reported (r : t) : t :=
  Mk (protocol r) (read_buf r) (has_unprocessed_read_data r) (pending_message r) (pending_ping_batch r) (pending_parse_error r) (pending_request r) (terminal_seen r) true (pc r).
Definition set_terminal_seen (r : t) : t :=
  Mk (protocol r) (read_buf r) (has_unprocessed_read_data r) (pending_message r) (pending_ping_batch r) (pending_parse_error r) (pending_request r) true (terminal_reported r) (pc r).
Definition set_pending (m : option Message.t) (q : option ControlRequest.t) (r : t) : t :=
  Mk (protocol r) (read_buf r) (has_unprocessed_read_data r) m (pending_ping_batch r) (pending_parse_error r) q (terminal_seen r) (terminal_reported r) (pc r).
Definition set_pending_ping_batch (v : list Message.t) (r : t) : t :=
  Mk (protocol r) (read_buf r) (has_unprocessed_read_data r) (pending_message r) v (pending_parse_error r) (pending_request r) (terminal_seen r) (terminal_reported r) (pc r).
Definition set_pending_parse_error (v : option Error) (r : t) : t :=
  Mk (protocol r) (read_buf r) (has_unprocessed_read_data r) (pending_message r) (pending_ping_batch r) v (pending_request r) (terminal_seen r) (terminal_reported r) (pc r).
Definition set_input (p : Protocol.t) (buf : bytes) (more : bool) (r : t) : t :=
  Mk p buf more (pending_message r) (pending_ping_batch r) (pending_parse_error r) (pending_request r) (terminal_seen r) (terminal_reported r) (pc r).

(** [return v] *)
Definition return_ (v : Item) (c : Conn.t) (r : t) : outcome (Conn.t * t * option Item) := To (c, goto RIdle r, Some v).
Definition continue (v : ReaderPc) (c : Conn.t) (r : t) : outcome (Conn.t * t * option Item) := To (c, goto v r, None).

Section next.
Context {SU : Simdutf8} (arch : Arch) (slice_addr : bytes -> Z).

Definition top (c : Conn.t) (r : t) : outcome (Conn.t * t * option Item) :=
  if terminal_reported r then return_ None c r
  else
    match pending_parse_error r, take_terminal (Conn.shared c) with
    | None, Some result => return_ result c (set_terminal_reported r)
    | _, _ => continue RTake c r
    end.

(** No message is at hand. *)
Definition no_message (c : Conn.t) (r : t) : outcome (Conn.t * t * option Item) :=
  continue (if bool_decide (is_Some (pending_parse_error r)) then RError else RReading) c r.

Definition take_message (c : Conn.t) (r : t) : outcome (Conn.t * t * option Item) :=
  match pending_message r with
  | Some msg => continue (RGot msg) c (set_pending None (pending_request r) r)
  | None =>
      match pop (pending_ping_batch r) with
      | Some (msg, rest) => continue (RGot msg) c (set_pending_ping_batch rest r)
      | None =>
          if bool_decide (pending_parse_error r = None) && has_unprocessed_read_data r then
            match Protocol.process_next_with_activity arch slice_addr (protocol r) (read_buf r) with
            | Done (p, buf, accepted_fragment) (Ok message) =>
                let c := if accepted_fragment then note_inbound c else c in
                match message with
                | Some msg => continue (RGot msg) c (set_input p buf (negb (bool_decide (buf = []))) r)
                | None => no_message c (set_input p buf false r)
                end
            | Done (p, buf, _) (Err error) =>
                no_message (Conn.on_shared (fun sh => fst (SplitShared.begin_read_error sh)) c)
                  (set_pending_parse_error (Some error) (set_input p buf false r))
            | Panic | NoFuel => Panicked
            end
          else no_message c r
      end
  end.

Definition got (msg : Message.t) (c : Conn.t) (r : t) : outcome (Conn.t * t * option Item) :=
  let wait (q : ControlRequest.t) (c : Conn.t) (r : t) := continue RReserve c (set_pending (Some msg) (Some q) r) in
  match msg with
  | Message.Text _ | Message.Binary _ => return_ (Some (Ok msg)) (note_inbound c) r
  | _ =>
      match pending_request r with
      | Some q => wait q c r
      | None =>
          match msg with
          | Message.Close reason =>
              wait (ControlRequest.PeerClose reason) (Conn.on_shared (fun sh => fst (SplitShared.begin_peer_closing sh)) c)
                (set_pending_ping_batch [] (set_pending_parse_error None (set_input (protocol r) [] (has_unprocessed_read_data r) r)))
          | _ => match request_for (Conn.now c) msg with Some q => wait q c r | None => Panicked end
          end
      end
  end.

Definition reserve (c : Conn.t) (r : t) : outcome (Conn.t * t * option Item) :=
  match pending_request r with
  | None => Panicked
  | Some q =>
      match send_request q c with
      | SendNow c => return_ (Ok <$> pending_message r) c (set_pending None None r)
      | SendWait => Blocked
      | SendClosed => continue RTerminate c (set_pending None None r)
      end
  end.

Definition report_error (c : Conn.t) (r : t) : outcome (Conn.t * t * option Item) :=
  let report (c : Conn.t) := return_ (Err <$> pending_parse_error r) c (set_pending_parse_error None (set_terminal_reported r)) in
  match send_request ControlRequest.ReadError c with
  | SendNow c => report c
  | SendWait => Blocked
  | SendClosed => report c
  end.

(** A read is ready: its bytes are in the buffer. *)
Definition read_ready (x : res IoError bytes) (c : Conn.t) (r : t) : outcome (Conn.t * t * option Item) :=
  match poll_read x c with
  | None => Blocked
  | Some (Ok data) => continue (RAfter (Ok data)) c (set_input (protocol r) (read_buf r ++ data) (has_unprocessed_read_data r) r)
  | Some (Err e) => continue (RAfter (Err e)) c r
  end.

Definition after_read (x : res IoError bytes) (c : Conn.t) (r : t) : outcome (Conn.t * t * option Item) :=
  match take_terminal (Conn.shared c) with
  | Some result => return_ result c (set_terminal_reported r)
  | None =>
      match x with
      | Ok [] => continue REof c r
      | Ok _ => continue RTop c (set_input (protocol r) (read_buf r) true r)
      | Err e => continue (RFailed e) c r
      end
  end.

Definition end_of_input (c : Conn.t) (r : t) : outcome (Conn.t * t * option Item) :=
  match send_request ControlRequest.Eof c with
  | SendNow c => continue RTerminate c r
  | SendWait => Blocked
  | SendClosed => continue RTerminate c r
  end.

Definition next_step (l : ReaderLabel) (c : Conn.t) (r : t) : outcome (Conn.t * t * option Item) :=
  match pc r, l with
  | RIdle, RCall => continue RTop c r
  | RTop, RStep => top c r
  | RTake, RStep => take_message c r
  | RGot msg, RStep => got msg c r
  | RReserve, RStep => reserve c r
  | RError, RStep => report_error c r
  | RReading, RRead x => read_ready x c r
  | RReading, RChanged =>
      if SplitShared.published (Conn.shared c) && negb (terminal_seen r) then continue RTop c (set_terminal_seen r) else Blocked
  | RAfter x, RStep => after_read x c r
  | REof, RStep => end_of_input c r
  | RTerminate, RStep => continue RTop (Conn.terminate TerminalCause.ConnectionClosed c) r
  | RFailed e, RStep => return_ (Some (Err (from_io e))) (Conn.terminate TerminalCause.ConnectionClosed c) r
  | RReserve, RAbort | RError, RAbort | RReading, RAbort | REof, RAbort => continue RIdle c r
  | _, _ => Blocked
  end.
End next.

Definition is_closed (sh : SplitShared.t) (r : t) : bool :=
  terminal_reported r || (bool_decide (pending_parse_error r = None) && negb (SplitShared.is_open sh)).
End SplitReader.

#[export] Instance split_reader {SU : Simdutf8} (arch : Arch) (slice_addr : bytes -> Z) : SplitReading SplitReader.t :=
  {| reader_step := SplitReader.next_step arch slice_addr |}.

(** ** [CompressedSplitReader] *)

Module CompressedSplitReader.
Record t (D : Type) := Mk {
  protocol : CompressedReader.t D;
  read_buf : bytes;
  has_unprocessed_read_data : bool;
  pending_messages : list Message.t;
  pending_parse_error : option Error;
  pending_request : option ControlRequest.t;
  terminal_seen : bool;
  terminal_reported : bool;
  pc : ReaderPc
}.
Arguments Mk {D}. Arguments protocol {D}. Arguments read_buf {D}. Arguments has_unprocessed_read_data {D}. Arguments pending_messages {D}.
Arguments pending_parse_error {D}. Arguments pending_request {D}. Arguments terminal_seen {D}. Arguments terminal_reported {D}. Arguments pc {D}.

Section next.
Context {E D : Type} `{Codec E D} {SU : Simdutf8} (arch : Arch) (slice_addr : bytes -> Z).
Abbreviation t := (t D).

Definition goto (v : ReaderPc) (r : t) : t :=
  Mk (protocol r) (read_buf r) (has_unprocessed_read_data r) (pending_messages r) (pending_parse_error r) (pending_request r) (terminal_seen r) (terminal_reported r) v.
Definition set_terminal_reported (r : t) : t :=
  Mk (protocol r) (read_buf r) (has_unprocessed_read_data r) (pending_messages r) (pending_parse_error r) (pending_request r) (terminal_seen r) true (pc r).
Definition set_terminal_seen (r : t) : t :=
  Mk (protocol r) (read_buf r) (has_unprocessed_read_data r) (pending_messages r) (pending_parse_error r) (pending_request r) true (terminal_reported r) (pc r).
Definition set_pending (ms : list Message.t) (q : option ControlRequest.t) (r : t) : t :=
  Mk (protocol r) (read_buf r) (has_unprocessed_read_data r) ms (pending_parse_error r) q (terminal_seen r) (terminal_reported r) (pc r).
Definition set_pending_parse_error (v : option Error) (r : t) : t :=
  Mk (protocol r) (read_buf r) (has_unprocessed_read_data r) (pending_messages r) v (pending_request r) (terminal_seen r) (terminal_reported r) (pc r).
Definition set_input (p : CompressedReader.t D) (buf : bytes) (more : bool) (r : t) : t :=
  Mk p buf more (pending_messages r) (pending_parse_error r) (pending_request r) (terminal_seen r) (terminal_reported r) (pc r).

Definition return_ (v : Item) (c : Conn.t) (r : t) : outcome (Conn.t * t * option Item) := To (c, goto RIdle r, Some v).
Definition continue (v : ReaderPc) (c : Conn.t) (r : t) : outcome (Conn.t * t * option Item) := To (c, goto v r, None).

Definition top (c : Conn.t) (r : t) : outcome (Conn.t * t * option Item) :=
  if terminal_reported r then return_ None c r
  else
    match pending_parse_error r, take_terminal (Conn.shared c) with
    | None, Some result => return_ result c (set_terminal_reported r)
    | _, _ => continue RTake c r
    end.

(** [process_into_with_activity] into the empty [pending_messages], and the [reverse] after it; [more] is what becomes of
    [has_unprocessed_read_data].  [empty]: where [next] goes on when there is no message. *)
Definition process (empty : ReaderPc) (more : bool) (c : Conn.t) (r : t) : outcome (Conn.t * t * option Item) :=
  match CompressedReader.process_into_with_activity arch slice_addr (protocol r) (read_buf r) with
  | Done (p, buf, messages, accepted_fragment) (Ok _) =>
      let c := if accepted_fragment then note_inbound c else c in
      continue (if bool_decide (messages = []) then empty else RTop) c (set_pending (reverse messages) (pending_request r) (set_input p buf more r))
  | Done (p, buf, messages, _) (Err error) =>
      continue RTop (Conn.on_shared (fun sh => fst (SplitShared.begin_read_error sh)) c)
        (set_pending_parse_error (Some error) (set_pending (reverse messages) (pending_request r) (set_input p buf more r)))
  | Panic | NoFuel => Panicked
  end.

Definition take_message (c : Conn.t) (r : t) : outcome (Conn.t * t * option Item) :=
  match pop (pending_messages r) with
  | Some (msg, rest) => continue (RGot msg) c (set_pending rest (pending_request r) r)
  | None =>
      if bool_decide (is_Some (pending_parse_error r)) then continue RError c r
      else if has_unprocessed_read_data r then process RReading false c r
      else continue RReading c r
  end.

Definition got (msg : Message.t) (c : Conn.t) (r : t) : outcome (Conn.t * t * option Item) :=
  let wait (q : ControlRequest.t) (c : Conn.t) (r : t) := continue RReserve c (set_pending (pending_messages r ++ [msg]) (Some q) r) in
  match msg with
  | Message.Text _ | Message.Binary _ => return_ (Some (Ok msg)) (note_inbound c) r
  | _ =>
      match pending_request r with
      | Some q => wait q c r
      | None =>
          match msg with
          | Message.Close reason =>
              wait (ControlRequest.PeerClose reason) (Conn.on_shared (fun sh => fst (SplitShared.begin_peer_closing sh)) c)
                (set_pending [] None (set_pending_parse_error None (set_input (protocol r) [] (has_unprocessed_read_data r) r)))
          | _ => match request_for (Conn.now c) msg with Some q => wait q c r | None => Panicked end
          end
      end
  end.

Definition reserve (c : Conn.t) (r : t) : outcome (Conn.t * t * option Item) :=
  match pending_request r with
  | None => Panicked
  | Some q =>
      let popped := pop (pending_messages r) in
      let r := set_pending (match popped with Some (_, rest) => rest | None => [] end) None r in
      match send_request q c with
      | SendNow c => return_ (match popped with Some (msg, _) => Some (Ok msg) | None => None end) c r
      | SendWait => Blocked
      | SendClosed => continue RTerminate c r
      end
  end.

Definition report_error (c : Conn.t) (r : t) : outcome (Conn.t * t * option Item) :=
  let report (c : Conn.t) := return_ (Err <$> pending_parse_error r) c (set_pending_parse_error None (set_terminal_reported r)) in
  match send_request ControlRequest.ReadError c with
  | SendNow c => report c
  | SendWait => Blocked
  | SendClosed => report c
  end.

Definition read_ready (x : res IoError bytes) (c : Conn.t) (r : t) : outcome (Conn.t * t * option Item) :=
  match poll_read x c with
  | None => Blocked
  | Some (Ok data) => continue (RAfter (Ok data)) c (set_input (protocol r) (read_buf r ++ data) (has_unprocessed_read_data r) r)
  | Some (Err e) => continue (RAfter (Err e)) c r
  end.

Definition after_read (x : res IoError bytes) (c : Conn.t) (r : t) : outcome (Conn.t * t * option Item) :=
  match take_terminal (Conn.shared c) with
  | Some result => return_ result c (set_terminal_reported r)
  | None =>
      match x with
      | Ok [] => continue REof c r
      | Ok _ => process RTop (has_unprocessed_read_data r) c r
      | Err e => continue (RFailed e) c r
      end
  end.

Definition end_of_input (c : Conn.t) (r : t) : outcome (Conn.t * t * option Item) :=
  match send_request ControlRequest.Eof c with
  | SendNow c => continue RTerminate c r
  | SendWait => Blocked
  | SendClosed => continue RTerminate c r
  end.

Definition next_step (l : ReaderLabel) (c : Conn.t) (r : t) : outcome (Conn.t * t * option Item) :=
  match pc r, l with
  | RIdle, RCall => continue RTop c r
  | RTop, RStep => top c r
  | RTake, RStep => take_message c r
  | RGot msg, RStep => got msg c r
  | RReserve, RStep => reserve c r
  | RError, RStep => report_error c r
  | RReading, RRead x => read_ready x c r
  | RReading, RChanged =>
      if SplitShared.published (Conn.shared c) && negb (terminal_seen r) then continue RTop c (set_terminal_seen r) else Blocked
  | RAfter x, RStep => after_read x c r
  | REof, RStep => end_of_input c r
  | RTerminate, RStep => continue RTop (Conn.terminate TerminalCause.ConnectionClosed c) r
  | RFailed e, RStep => return_ (Some (Err (from_io e))) (Conn.terminate TerminalCause.ConnectionClosed c) r
  | RReserve, RAbort | RError, RAbort | RReading, RAbort | REof, RAbort => continue RIdle c r
  | _, _ => Blocked
  end.

Definition is_closed (sh : SplitShared.t) (r : t) : bool :=
  terminal_reported r || (bool_decide (pending_parse_error r = None) && negb (SplitShared.is_open sh)).
End next.
End CompressedSplitReader.

#[export] Instance compressed_split_reader {E D : Type} `{Codec E D} {SU : Simdutf8} (arch : Arch) (slice_addr : bytes -> Z) :
    SplitReading (CompressedSplitReader.t D) :=
  {| reader_step := CompressedSplitReader.next_step arch slice_addr |}.

(** ** [WebSocketStream::split] *)

(** What [split] puts in place for the tasks: [state] and [pending_parse_error] are the unified stream's. *)
Definition split_conn (state : StreamState.t) (tracks : bool) (pending_parse_error : option Error) : Conn.t :=
  let closed := match state with StreamState.Open | StreamState.ReadErrorPending => false | _ => true end in
  let sh := SplitShared.new closed tracks in
  Conn.Mk (if bool_decide (is_Some pending_parse_error) then fst (SplitShared.begin_read_error sh) else sh) Control.new TransportState.Open 0.

Definition split_state {E R : Type} (c : Conn.t) (encoder : E) (config : Config.t) (r : R) : State E R :=
  MkState c None (SplitSink.Mk encoder []) false [] AIdle (Driver.new config) r false [].

Definition split (ws : WebSocketStream.t) : State Protocol.t SplitReader.t :=
  let config := WebSocketStream.config ws in
  let '(reader_protocol, writer_protocol) :=
    Protocol.split (WebSocketStream.protocol ws) (Config.max_frame_size config) (Config.max_message_size config) in
  split_state (split_conn (WebSocketStream.state ws) (Heartbeat.tracks_inbound_activity (WebSocketStream.heartbeat ws))
                 (WebSocketStream.pending_parse_error ws)) writer_protocol config
    (SplitReader.Mk reader_protocol (WebSocketStream.read_buf ws) (WebSocketStream.has_unprocessed_read_data ws)
       (WebSocketStream.pending_message ws) (WebSocketStream.pending_ping_batch ws) (WebSocketStream.pending_parse_error ws) None
       false false RIdle).
