(* ===== verification/SplitSpec.v ===== *)
(** * Split streams in every interleaving

    Invariants of the transition system of Split.v.  The reading handle enters only through an interface ([ReaderSpec]: what its steps may do to
    the shared state), so that they hold for plain and compressed readers. *)

From stdpp Require Import base list option strings.
From S2P Require Import Prelude Error Mask Utf8 Frame Protocol Heartbeat Output Deflate Compressed Config WebSocket Split SplitReader.
Import WebSocketStream (Item).

(** ** Interfaces *)

(** The status only moves forward: open, then closing, then one terminal value. *)
Definition status_ok (z : Z) : Prop := 0 <= z <= 6.
Definition status_le (a b : Z) : Prop := a = b \/ (a = 0 /\ 1 <= b <= 6) \/ (1 <= a <= 3 /\ 4 <= b <= 6).

Definition from_reader (r : ControlRequest.t) : Prop :=
  match r with ControlRequest.LocalCloseStarted _ | ControlRequest.LocalCloseSent => False | _ => True end.

Definition conn_status (c : Conn.t) : Z := SplitShared.status (Conn.shared c).

(** What a reader may do: publish activity, move the status (but not to a local closing), and queue a request of its own, a Close only
    when the connection is no longer open. *)
Record reader_effect (c c' : Conn.t) : Prop := {
  re_transport : Conn.transport c' = Conn.transport c;
  re_now : Conn.now c' = Conn.now c;
  re_status : status_le (conn_status c) (conn_status c');
  re_local : conn_status c' = SPLIT_LOCAL_CLOSING -> conn_status c = SPLIT_LOCAL_CLOSING;
  re_cancelled : SplitShared.cancelled (Conn.shared c') = SplitShared.cancelled (Conn.shared c);
  re_control : Conn.control c' = Conn.control c \/
    exists r, Control.rx_open (Conn.control c) = true /\ Control.room (Conn.control c) = true /\
      Conn.control c' = Control.push r (Conn.control c) /\ from_reader r /\
      (forall reason, r = ControlRequest.PeerClose reason -> conn_status c' <> SPLIT_OPEN)
}.

Class ReaderSpec (R : Type) `{SplitReading R} := {
  reader_ok : Conn.t -> R -> Prop;
  reader_ok_stable c c' r : status_le (conn_status c) (conn_status c') -> reader_ok c r -> reader_ok c' r;
  reader_step_ok l c r c' r' i : status_ok (conn_status c) -> reader_ok c r -> reader_step l c r = To (c', r', i) ->
    reader_effect c c' /\ reader_ok c' r'
}.

Class EncoderSpec (E : Type) `{SplitEncoder E} := {
  encode_message_total key e m b : finished (encode_message key e m b);
  encode_close_total key e r b : finished (encode_close_response key e r b)
}.

#[export] Instance protocol_encoder_spec : EncoderSpec Protocol.t.
Proof. split; intros; cbn; done. Qed.

Lemma status_le_refl z : status_le z z.
Proof. by left. Qed.
Lemma status_le_trans a b c : status_le a b -> status_le b c -> status_le a c.
Proof. unfold status_le. lia. Qed.
#[export] Hint Resolve status_le_refl : ws.

Lemma terminate_le cause sh : status_ok (SplitShared.status sh) ->
  status_le (SplitShared.status sh) (SplitShared.status (SplitShared.terminate cause sh)) /\
  4 <= SplitShared.status (SplitShared.terminate cause sh) <= 6 /\
  (4 <= SplitShared.status sh -> SplitShared.terminate cause sh = sh).
Proof.
  unfold status_ok, SplitShared.terminate, SPLIT_CLOSED. intros. destruct (Z.ltb_spec (SplitShared.status sh) 4); cbn.
  - unfold status_le. destruct cause; cbn; unfold SPLIT_CLOSED, SPLIT_CLOSED_HEARTBEAT, SPLIT_CLOSED_IDLE; lia.
  - refine (conj _ (conj _ _)); [apply status_le_refl|lia|done].
Qed.

Lemma terminate_cancelled cause sh : SplitShared.cancelled (SplitShared.terminate cause sh) = SplitShared.cancelled sh.
Proof. unfold SplitShared.terminate. by destruct (_ <? _). Qed.

Lemma terminal_known sh : 4 <= SplitShared.status sh <= 6 -> is_Some (SplitShared.terminal_cause sh).
Proof.
  unfold SplitShared.terminal_cause, SPLIT_CLOSED, SPLIT_CLOSED_HEARTBEAT, SPLIT_CLOSED_IDLE. intros Hs.
  assert (SplitShared.status sh = 4 \/ SplitShared.status sh = 5 \/ SplitShared.status sh = 6) as [-> |[-> | ->]] by lia; by eexists.
Qed.

Lemma from_open_le v sh : 1 <= v <= 3 ->
  status_le (SplitShared.status sh) (SplitShared.status (fst (SplitShared.from_open v sh))) /\
  (SplitShared.status sh = 0 -> SplitShared.status (fst (SplitShared.from_open v sh)) = v) /\
  (SplitShared.status sh <> 0 -> fst (SplitShared.from_open v sh) = sh) /\
  SplitShared.cancelled (fst (SplitShared.from_open v sh)) = SplitShared.cancelled sh.
Proof.
  intros. unfold SplitShared.from_open, SPLIT_OPEN. destruct (Z.eqb_spec (SplitShared.status sh) 0); cbn; split_and!; unfold status_le; lia || done.
Qed.

Lemma begin_closing_eq sh sh' b : SplitShared.begin_local_closing sh = (sh', b) ->
  status_le (SplitShared.status sh) (SplitShared.status sh') /\ SplitShared.cancelled sh' = SplitShared.cancelled sh /\
  (if b then SplitShared.status sh = SPLIT_OPEN /\ SplitShared.status sh' = SPLIT_LOCAL_CLOSING
   else sh' = sh /\ SplitShared.status sh <> SPLIT_OPEN).
Proof.
  unfold SplitShared.begin_local_closing, SplitShared.from_open.
  destruct (Z.eqb_spec (SplitShared.status sh) SPLIT_OPEN) as [E1|E1]; intros; simplify_eq/=.
  - split_and!; try done. right; left. unfold SPLIT_OPEN, SPLIT_LOCAL_CLOSING in *. lia.
  - split_and!; auto with ws.
Qed.

Lemma room_spec c : Control.room c = true -> (length (Control.queue c) + Control.reserved c < SPLIT_CONTROL_CAPACITY)%nat.
Proof. unfold Control.room. by intros ?%Nat.ltb_lt. Qed.

Lemma status_le_ok a b : status_ok a -> status_le a b -> status_ok b.
Proof. unfold status_ok, status_le. lia. Qed.

(** ** Who holds the sink, and the phase of the transport *)

Definition app_holds (a : AppPc) : bool :=
  match a with
  | ARecheck _ | AEncode _ _ | AWrite _ _ _ | AUnlock _ _ | FRun _ => true
  | AGuard _ held _ | ACancel _ held _ => held
  | _ => false
  end.

(** A [send] with a permit in its hand. *)
Definition app_permit (a : AppPc) : nat :=
  match a with
  | ALocal _ | AStarted _ | AEncode _ true | AWrite _ true _ | AGuard _ _ (Report true _) | ACancel _ _ (Report true _)
  | AUnlock _ (Report true _) | AFail _ true _ => 1
  | _ => 0
  end.

Definition control_holds (p : option ControlWrite) : bool :=
  match p with Some (PLocked _) | Some (PWrite _ _) => true | _ => false end.

Definition releases (l : list closing_act) : bool :=
  existsb (fun a => match a with ReleaseSink => true | _ => false end) l.
Definition will_cancel (l : list closing_act) : bool :=
  existsb (fun a => match a with CancelAll => true | _ => false end) l.

Definition driver_holds (pc : DriverPc) : bool :=
  match pc with
  | DTimeoutBegin _ _ _ | DTimeoutEncode _ _ _ | DTimeoutWrite _ _ _ => true
  | DActs l => releases l
  | _ => false
  end.

(** Those whose program counter says that they hold the sink. *)
Definition holders (a : AppPc) (p : option ControlWrite) (pc : DriverPc) : list Owner :=
  (if app_holds a then [ByApp] else []) ++ (if control_holds p then [ByControl] else []) ++ (if driver_holds pc then [ByDriver] else []).

(** The straight-line end of the driver from a state of the transport: it closes the transport once, and gives the sink back only after the cause
    is published. *)
Fixpoint acts_ok (l : list closing_act) (tr : TransportState.t) : bool :=
  match l with
  | [] => bool_decide (tr = TransportState.Closed)
  | BeginClose :: l => bool_decide (tr = TransportState.Open) && acts_ok l TransportState.Closing
  | FinishClose _ :: l => bool_decide (tr = TransportState.Closing) && acts_ok l TransportState.Closed
  | ReleaseSink :: l => bool_decide (tr = TransportState.Closed) && negb (releases l) && acts_ok l tr
  | (Shutdown | CancelAll) :: l => acts_ok l tr
  end.

Definition driver_phase (pc : DriverPc) (tr : TransportState.t) (cancelled : bool) : bool :=
  match pc with
  | DTop | DArm | DSelect _ | DTimeout _ _ _ | DTimeoutBegin _ _ _ => bool_decide (tr = TransportState.Open)
  | DLockUntil _ l l' =>
      bool_decide (tr = TransportState.Open) && (acts_ok l tr && releases l && will_cancel l) &&
      (acts_ok l' tr && negb (releases l') && will_cancel l')
  | DTimeoutEncode _ _ _ | DTimeoutWrite _ _ _ => bool_decide (tr = TransportState.Closing)
  | DActs l => acts_ok l tr && (cancelled || will_cancel l)
  | DEnd => bool_decide (tr = TransportState.Closed) && cancelled
  end.

Lemma driver_phase_cancel pc tr b b' : (b = true -> b' = true) -> driver_phase pc tr b = true -> driver_phase pc tr b' = true.
Proof.
  intros Hb. destruct pc, b, b'; cbn; try done; try (specialize (Hb eq_refl); done); rewrite ?andb_true_iff, ?orb_true_iff; intuition.
Qed.

(** All cases of a step, as equations on the states in between. *)
Ltac step_cases := repeat (case_match; simplify_eq/=); intros; simplify_eq/=.

(** The equations the tests of a step leave behind, in the form the invariants use. *)
Ltac learn :=
  repeat match goal with
  | E : SplitShared.begin_local_closing _ = _ |- _ => apply begin_closing_eq in E as (? & ? & ?)
  | E : Control.room _ = true |- _ => apply room_spec in E
  end.

Ltac rewrite_parts :=
  repeat match goal with
  | E : conn _ = _ |- _ => rewrite E in *; clear E
  | E : lock _ = _ |- _ => rewrite E in *; clear E
  | E : app _ = _ |- _ => rewrite E in *; clear E
  | E : driver _ = _ |- _ => rewrite E in *; clear E
  | E : reader _ = _ |- _ => rewrite E in *; clear E
  | E : log _ = _ |- _ => rewrite E in *; clear E
  end.

Section System.
Context {E R : Type} `{SplitEncoder E} `{SplitReading R}.
Context (config : Config.t) (sticky : bool).
Abbreviation State := (State E R).
Implicit Types s : State.

Record base (s : State) : Prop := {
  b_status : status_ok (status s);
  b_holder : holders (app s) (Driver.pending_write (driver s)) (Driver.pc (driver s)) = option_list (lock s);
  b_phase : driver_phase (Driver.pc (driver s)) (Conn.transport (conn s)) (cancelled s) = true;
  b_closed : Conn.transport (conn s) = TransportState.Closed -> 4 <= status s;
  b_select : suspended (Driver.pending_write (driver s)) = true \/ exists b, Driver.pc (driver s) = DSelect b;
  b_end : Driver.pc (driver s) = DEnd -> Driver.pending_write (driver s) = None /\ Control.rx_open (Conn.control (conn s)) = false;
  b_permit : Control.reserved (Conn.control (conn s)) = app_permit (app s);
  b_queue : (length (Control.queue (Conn.control (conn s))) + Control.reserved (Conn.control (conn s)) <= SPLIT_CONTROL_CAPACITY)%nat
}.

(** Reachable by any interleaving. *)
Inductive reach (s0 : State) : State -> Prop :=
  | reach_refl : reach s0 s0
  | reach_step s l s' : reach s0 s -> step config sticky l s = To s' -> reach s0 s'.

Lemma reach_inv s0 (P : State -> Prop) : P s0 -> (forall s l s', P s -> step config sticky l s = To s' -> P s') ->
  forall s, reach s0 s -> P s.
Proof. intros H0' Hs s Hr. induction Hr; eauto. Qed.

Lemma steps_reach ls : forall s0 s s', reach s0 s -> steps config sticky ls s = To s' -> reach s0 s'.
Proof.
  induction ls as [|l ls IH]; intros s0 s s' Hr Hs; [by injection Hs as <-|]. cbn in Hs.
  destruct (step config sticky l s) as [| |s1] eqn:E1; [done|done|]. eapply IH; [|done]. by eapply reach_step.
Qed.

(** *** What a step of the sink does *)

(** Encoding a frame touches the sink and remembers the frame. *)
Lemma encode_for_to o msg enc s s' b : encode_for o msg enc s = To (s', b) ->
  exists k, match b with Some b => s' = set_wire (wire s ++ [MkWritten o msg b 0]) (set_sink k s) | None => s' = set_sink k s end.
Proof. unfold encode_for. repeat case_match; intros; simplify_eq; by eexists. Qed.

(** A poll of the stream changes at most the flag and how much of the last frame is out. *)
Inductive polled (rest : bytes) (s : State) : State * write_result -> Prop :=
  | polled_pending : polled rest s (s, WPending)
  | polled_error e : polled rest s (set_broken true s, WDone (Err e))
  | polled_flushed : rest = [] -> polled rest s (s, WDone (Ok tt))
  | polled_took n : sticky && broken s = false -> (0 < n <= length rest)%nat -> polled rest s (take_bytes n s, WMore (drop n rest)).

Lemma poll_stream_polled a rest s : polled rest s (poll_stream sticky a rest s).
Proof.
  unfold poll_stream. destruct (sticky && broken s) eqn:Eb; [constructor|].
  destruct a as [n| | |]; try constructor. case_bool_decide; [by constructor|].
  destruct (Nat.eqb_spec (n `min` length rest) 0); constructor; [done|lia].
Qed.

(** Through [SplitTransport]: only while it is open. *)
Lemma poll_split_polled a rest s :
  (Conn.transport (conn s) = TransportState.Open /\ polled rest s (poll_split sticky a rest s)) \/
  (Conn.transport (conn s) = TransportState.Closing /\ poll_split sticky a rest s = (s, WPending)) \/
  (Conn.transport (conn s) = TransportState.Closed /\ exists e, poll_split sticky a rest s = (s, WDone (Err e))).
Proof.
  unfold poll_split. destruct (Conn.transport (conn s)); [left|right; left|right; right]; eauto using poll_stream_polled.
Qed.

(** *** The base invariant is kept *)

(** The parts of the state that are not about the bytes on the wire. *)
Definition same_base s s' : Prop := conn s' = conn s /\ lock s' = lock s /\ app s' = app s /\ driver s' = driver s /\
  reader s' = reader s /\ log s' = log s.

Lemma encode_for_base o msg enc s s' b : encode_for o msg enc s = To (s', b) -> same_base s s'.
Proof. intros (k & Hk)%encode_for_to. destruct b; by subst. Qed.
Lemma take_bytes_base n s : same_base s (take_bytes n s).
Proof. unfold take_bytes. by destruct (last _). Qed.
Lemma poll_stream_base a rest s s' r : poll_stream sticky a rest s = (s', r) -> same_base s s'.
Proof.
  intros E1. pose proof (poll_stream_polled a rest s) as Hp. rewrite E1 in Hp. inversion Hp; subst; try done. apply take_bytes_base.
Qed.
Lemma poll_split_base a rest s s' r : poll_split sticky a rest s = (s', r) -> same_base s s'.
Proof. unfold poll_split. case_match; [apply poll_stream_base|..]; intros; by simplify_eq. Qed.
End System.

Ltac same_base_eqs :=
  repeat match goal with
  | E : encode_for _ _ _ _ = To (_, _) |- _ => apply encode_for_base in E as (? & ? & ? & ? & ? & ?)
  | E : poll_split _ _ _ _ = (_, _) |- _ => apply poll_split_base in E as (? & ? & ? & ? & ? & ?)
  | E : poll_stream _ _ _ _ = (_, _) |- _ => apply poll_stream_base in E as (? & ? & ? & ? & ? & ?)
  end.

(** One field of [base] after a step, from those before it. *)
Ltac solve_holders :=
  unfold holders in *; cbn in *;
  by repeat match goal with
  | E : _ = option_list ?lk |- _ => destruct lk; simplify_eq/=
  | |- context [app_holds ?x] => destruct (app_holds x); simplify_eq/=
  | |- context [control_holds ?x] => destruct (control_holds x); simplify_eq/=
  | |- context [driver_holds ?x] => destruct (driver_holds x); simplify_eq/=
  end.

Ltac solve_base :=
  unfold status, cancelled, shared; cbn; rewrite_parts; cbn; rewrite ?terminate_cancelled, ?orb_true_r, ?andb_true_r; cbn;
  try done;
  first
  [ solve_holders
  | match goal with
    | B : status_ok (SplitShared.status ?sh) |- context [SplitShared.terminate ?c ?sh] =>
        pose proof (terminate_le c sh B); unfold status_ok, status_le in *; intuition (congruence || lia)
    end
  | eapply driver_phase_cancel; [|done]; by intros; congruence
  | by eauto
  | unfold status_ok, status_le, SPLIT_OPEN, SPLIT_LOCAL_CLOSING in *; intuition (congruence || lia)
  | match goal with |- context [Control.rx_open ?c] => destruct (Control.rx_open c); rewrite ?length_app; cbn; lia end
  | lia ].

(** The state in its parts. *)
Ltac open_state s :=
  destruct s as [[sh [q rs rx] tr nw] lk sk br wr ap [pc hb cd lcs pcl pcr pp ppl ep re pw ls] rd rdd lg];
  unfold status, cancelled, shared in *; cbn -[poll_split poll_stream Control.room SplitShared.is_open] in *; simplify_eq/=.

(** The program counter of the driver is known, so the transport is too. *)
Ltac at_pc :=
  match goal with
  | tr : TransportState.t |- _ => destruct tr; try (by match goal with B : _ = true |- _ => vm_compute in B end)
  end;
  try match goal with B : suspended _ = true \/ _ |- _ => destruct B as [B|[? B]]; simplify_eq/= end.

Section Base.
Context {E R : Type} `{SplitEncoder E} `{ReaderSpec R}.
Context (config : Config.t) (sticky : bool).
Abbreviation State := (State E R).
Implicit Types s : State.

Lemma base_app a key s s' : base s -> app_step config sticky a key s = To s' -> base s'.
Proof.
  intros [B1 B2 B3 B4 B5 B6 B7 B8]. destruct s as [[sh ct tr nw] lk sk br wr ap dr rd rdd lg].
  unfold status, cancelled, shared, app_step, app_write, app_sent in *. cbn -[poll_split Control.room SplitShared.is_open] in *.
  step_cases; same_base_eqs; learn; split; solve_base.
Qed.

Lemma base_abort s s' : base s -> app_abort s = To s' -> base s'.
Proof.
  intros [B1 B2 B3 B4 B5 B6 B7 B8]. destruct s as [[sh ct tr nw] lk sk br wr ap dr rd rdd lg].
  unfold status, cancelled, shared, app_abort in *. cbn in *. step_cases; split; solve_base.
Qed.

Lemma sync_inbound_base s :
  exists hb n, sync_inbound s = set_driver (Driver.set_heartbeat hb (Driver.set_last_synced_inbound_ms n (driver s))) s.
Proof.
  unfold sync_inbound. destruct (_ <? _); [by eexists _, _|].
  exists (Driver.heartbeat (driver s)), (Driver.last_synced_inbound_ms (driver s)). by destruct s as [? ? ? ? ? ? []].
Qed.

Lemma base_top s s' : base s -> Driver.pc (driver s) = DTop -> driver_top s = To s' -> base s'.
Proof.
  intros [B1 B2 B3 B4 B5 B6 B7 B8] Hpc. unfold driver_top. destruct (sync_inbound_base s) as (hb' & n & ->).
  open_state s. at_pc. step_cases; split; solve_base.
Qed.

Lemma base_control a key p s s' b : base s -> Driver.pc (driver s) = DSelect b -> Driver.pending_write (driver s) = Some p ->
  control_step sticky a key p s = To s' -> base s'.
Proof.
  intros [B1 B2 B3 B4 B5 B6 B7 B8] Hpc Hp. unfold control_step, control_done. open_state s.
  at_pc; step_cases; same_base_eqs; split; solve_base.
Qed.

(** The other branches of the [select!], which are taken while the pending write is not being polled. *)
Section Select.
Context s (b : bool) (Hpc : Driver.pc (driver s) = DSelect b) (Hp : suspended (Driver.pending_write (driver s)) = true).

Lemma base_recv s' : base s -> driver_recv config s = To s' -> base s'.
Proof using Hp Hpc.
  intros [B1 B2 B3 B4 B5 B6 B7 B8]. unfold driver_recv, driver_request. open_state s. at_pc; step_cases; split; solve_base.
Qed.

Lemma base_timer s' : base s -> driver_close_timer s = To s' -> base s'.
Proof using Hp Hpc.
  intros [B1 B2 B3 B4 B5 B6 B7 B8]. unfold driver_close_timer. open_state s. at_pc; step_cases; split; solve_base.
Qed.

Lemma hard_is_no_ping hb at_ms : Heartbeat.next_hard_deadline hb <> Some (DPing at_ms).
Proof. unfold Heartbeat.next_hard_deadline. by repeat case_match. Qed.

Lemma base_heartbeat n s' : base s -> driver_heartbeat config n s = To s' -> base s'.
Proof using Hp Hpc.
  intros [B1 B2 B3 B4 B5 B6 B7 B8]. unfold driver_heartbeat. destruct (sync_inbound_base s) as (hb' & n' & ->).
  unfold driver_deadline. open_state s. destruct pw as [p|]; at_pc; step_cases; try (by edestruct hard_is_no_ping); split; solve_base.
Qed.
End Select.

Lemma base_written f ok s b : base s -> Driver.pc (driver s) = DSelect b -> Driver.pending_write (driver s) = Some (PDone f ok) ->
  base (driver_written f ok s).
Proof.
  intros [B1 B2 B3 B4 B5 B6 B7 B8] Hpc Hp. unfold driver_written. open_state s. at_pc; step_cases; split; solve_base.
Qed.

Lemma base_act a l s s' : base s -> Driver.pc (driver s) = DActs (a :: l) -> driver_act a l s = To s' -> base s'.
Proof.
  intros [B1 B2 B3 B4 B5 B6 B7 B8] Hpc. unfold driver_act, terminate, cancel. open_state s.
  destruct B5 as [B5|[? ?]]; [|done]. apply andb_true_iff in B3 as [L1 L2].
  destruct a; cbn in L1, L2; destruct tr; step_cases; rewrite ?andb_true_iff, ?negb_true_iff in L1;
    split; unfold status, cancelled, shared, holders in *; cbn; rewrite ?terminate_cancelled; auto; try done;
    try (by rewrite ?andb_true_iff, ?orb_true_l; intuition); try (pose proof (terminate_le cause sh B1); unfold status_ok; lia).
  destruct L1 as [-> _]. cbn in B2. by destruct (app_holds ap), (control_holds pw), lk; simplify_eq/=.
Qed.

Lemma base_break s : base s -> Driver.pc (driver s) = DActs [] -> base (driver_break s).
Proof.
  intros [B1 B2 B3 B4 B5 B6 B7 B8] Hpc. unfold driver_break. open_state s. destruct tr; try done.
  destruct B5 as [B5|[? ?]]; [|done]. rewrite orb_false_r in B3.
  step_cases; split; try solve_base; unfold status, cancelled, shared; cbn; try done; lia.
Qed.

Lemma base_timeout_write a w d c s s' : base s -> Driver.pc (driver s) = DTimeoutWrite w d c ->
  timeout_write sticky a w d c s = To s' -> base s'.
Proof.
  intros [B1 B2 B3 B4 B5 B6 B7 B8] Hpc. unfold timeout_write. open_state s. at_pc; step_cases; same_base_eqs; split; solve_base.
Qed.

Lemma base_select b a key nonce enabled s s' : base s -> Driver.pc (driver s) = DSelect enabled ->
  driver_select config sticky b a key nonce enabled s = To s' -> base s'.
Proof.
  intros Hb Hpc. unfold driver_select.
  destruct b; try (destruct (suspended (Driver.pending_write (driver s))) eqn:Hs; cbn; [|done]).
  - destruct (cancelled s) eqn:Ec; [|done]. intros [= <-]. destruct Hb as [B1 B2 B3 B4 B5 B6 B7 B8]. open_state s.
    at_pc; split; try solve_base; unfold cancelled, shared; cbn; by rewrite Ec.
  - by eapply base_recv.
  - by eapply base_timer.
  - destruct enabled; [|done]. by eapply base_heartbeat.
  - destruct (Driver.pending_write (driver s)) as [[| | |f ok]|] eqn:Ep; [by eapply base_control..| |done].
    intros [= <-]. by eapply base_written.
Qed.

Lemma base_driver b a key nonce s s' : base s -> driver_step config sticky b a key nonce s = To s' -> base s'.
Proof.
  intros Hb. unfold driver_step. destruct (Driver.pc (driver s)) as [| |enabled|d l l'|code reason cause|m d c|m d c|w d c|[|act l]|] eqn:Hpc.
  - by apply base_top.
  - intros [= <-]. destruct Hb as [B1 B2 B3 B4 B5 B6 B7 B8]. open_state s. at_pc; split; solve_base.
  - by apply base_select.
  - destruct Hb as [B1 B2 B3 B4 B5 B6 B7 B8]. open_state s. rewrite ?andb_true_iff in B3.
    destruct B3 as [[Htr [[L1 L2] L3]] [[L4 L5%negb_true_iff] L6]]. apply bool_decide_eq_true in Htr as ->.
    destruct B5 as [B5|[? ?]]; [|done]. unfold holders in *. cbn in B2.
    step_cases; split; unfold status, cancelled, shared, holders; cbn; rewrite ?L1, ?L2, ?L3, ?L4, ?L5, ?L6, ?orb_true_r; auto;
      by destruct (app_holds ap), (control_holds pw).
  - destruct Hb as [B1 B2 B3 B4 B5 B6 B7 B8]. open_state s. at_pc; step_cases; split; solve_base.
  - destruct Hb as [B1 B2 B3 B4 B5 B6 B7 B8]. open_state s. at_pc; step_cases; split; solve_base.
  - destruct Hb as [B1 B2 B3 B4 B5 B6 B7 B8]. open_state s. at_pc; step_cases; same_base_eqs; split; solve_base.
  - by apply base_timeout_write.
  - intros [= <-]. by apply base_break.
  - by apply base_act.
  - done.
Qed.

(** A step of the reader, and the ends of the handles. *)
Lemma base_conn c s : base s -> Conn.transport c = Conn.transport (conn s) -> status_le (status s) (conn_status c) ->
  (cancelled s = true -> SplitShared.cancelled (Conn.shared c) = true) ->
  Control.reserved (Conn.control c) = Control.reserved (Conn.control (conn s)) ->
  Control.rx_open (Conn.control c) = Control.rx_open (Conn.control (conn s)) ->
  (length (Control.queue (Conn.control c)) + Control.reserved (Conn.control c) <= SPLIT_CONTROL_CAPACITY)%nat ->
  base (set_conn c s).
Proof.
  intros [B1 B2 B3 B4 B5 B6 B7 B8] Ht Hst Hc Hr Hx Hq. split; unfold status, cancelled, shared, conn_status in *; cbn; try done.
  - by eapply status_le_ok.
  - rewrite Ht. by eapply driver_phase_cancel.
  - rewrite Ht. intros Hcl. specialize (B4 Hcl). unfold status_le in Hst. lia.
  - intros Hd. destruct (B6 Hd). split; [done|congruence].
  - congruence.
Qed.

Lemma base_reader l s c r i : base s -> reader_ok (conn s) (reader s) -> reader_step l (conn s) (reader s) = To (c, r, i) ->
  base (set_conn c s) /\ reader_ok c r.
Proof.
  intros Hb Hr Hs. destruct (reader_step_ok l _ _ _ _ _ (b_status _ Hb) Hr Hs) as [[Ht _ Hst _ Hc Hq] Hr']. split; [|done].
  pose proof (b_queue _ Hb) as B8. pose proof Hst as Hle. apply base_conn; try done; [intros; unfold cancelled, shared in *; congruence|..].
  - destruct Hq as [->|(q & _ & _ & -> & _)]; done.
  - destruct Hq as [->|(q & _ & _ & -> & _)]; done.
  - destruct Hq as [->|(q & Hx & Hroom & -> & _)]; [done|]. apply room_spec in Hroom. cbn. rewrite Hx, length_app. cbn. lia.
Qed.

(** *** All steps *)

Definition inv s : Prop := base s /\ reader_ok (conn s) (reader s).


(** Every step moves the status forward, keeps a cancellation, and does not reopen the transport. *)
Definition advances s s' : Prop :=
  status_le (status s) (status s') /\ (cancelled s = true -> cancelled s' = true) /\
  (Conn.transport (conn s) <> TransportState.Open -> Conn.transport (conn s') <> TransportState.Open) /\
  (broken s = true -> broken s' = true).

Lemma advances_refl s s' : Conn.shared (conn s') = Conn.shared (conn s) -> Conn.transport (conn s') = Conn.transport (conn s) ->
  broken s' = broken s -> advances s s'.
Proof. intros Hc Ht Hb. unfold advances, status, cancelled, shared. rewrite Hc, Ht, Hb. auto with ws. Qed.

Lemma take_bytes_broken n s : broken (take_bytes n s) = broken s.
Proof. unfold take_bytes. by destruct (last _). Qed.

Lemma poll_split_broken a rest s s' r : poll_split sticky a rest s = (s', r) -> broken s = true -> broken s' = true.
Proof.
  intros E1. destruct (poll_split_polled sticky a rest s) as [[_ Hp]|[[_ Hp]|[_ [e Hp]]]]; rewrite E1 in Hp; simplify_eq; try done.
  inversion Hp; subst; try done. by rewrite take_bytes_broken.
Qed.
Lemma poll_stream_broken a rest s s' r : poll_stream sticky a rest s = (s', r) -> broken s = true -> broken s' = true.
Proof.
  intros E1. pose proof (poll_stream_polled sticky a rest s) as Hp. rewrite E1 in Hp. inversion Hp; subst; try done. by rewrite take_bytes_broken.
Qed.
Lemma encode_for_broken o msg enc s s' b : encode_for o msg enc s = To (s', b) -> broken s' = broken s.
Proof. intros (k & Hk)%encode_for_to. destruct b; by subst. Qed.
End Base.

Ltac broken_eqs :=
  repeat match goal with
  | E : encode_for _ _ _ _ = To (_, _) |- _ => pose proof (encode_for_broken _ _ _ _ _ _ E); apply encode_for_base in E as (? & ? & ? & ? & ? & ?)
  | E : poll_split _ _ _ _ = (_, _) |- _ => pose proof (poll_split_broken _ _ _ _ _ _ E); apply poll_split_base in E as (? & ? & ? & ? & ? & ?)
  | E : poll_stream _ _ _ _ = (_, _) |- _ => pose proof (poll_stream_broken _ _ _ _ _ _ E); apply poll_stream_base in E as (? & ? & ? & ? & ? & ?)
  end.

Ltac solve_advances :=
  unfold advances, status, cancelled, shared in *; cbn in *; rewrite_parts; cbn in *; rewrite ?terminate_cancelled;
  repeat match goal with
  | B : status_ok (SplitShared.status ?sh) |- context [SplitShared.terminate ?c ?sh] => pose proof (terminate_le c sh B); generalize dependent (SplitShared.terminate c sh); intros
  end; intuition (auto with ws; congruence).

Section Advance.
Context {E R : Type} `{SplitEncoder E} `{ReaderSpec R}.
Context (config : Config.t) (sticky : bool).
Abbreviation State := (State E R).
Implicit Types s : State.

Lemma app_advances a key s s' : base s -> app_step config sticky a key s = To s' -> advances s s'.
Proof.
  intros [B1 _ _ _ _ _ _ _]. destruct s as [[sh ct tr nw] lk sk br wr ap dr rd rdd lg].
  unfold status, cancelled, shared, app_step, app_write, app_sent in *. cbn -[poll_split Control.room SplitShared.is_open] in *.
  step_cases; broken_eqs; learn; try (by apply advances_refl); solve_advances.
Qed.

Lemma abort_advances s s' : app_abort s = To s' -> advances s s'.
Proof. unfold app_abort. repeat case_match; intros; simplify_eq; by apply advances_refl. Qed.

Lemma control_advances a key p s s' : control_step sticky a key p s = To s' -> advances s s'.
Proof.
  unfold control_step, control_done. destruct s as [[sh ct tr nw] lk sk br wr ap dr rd rdd lg]. cbn -[poll_split].
  step_cases; broken_eqs; try (by apply advances_refl); solve_advances.
Qed.

Lemma driver_advances b a key nonce s s' : base s -> driver_step config sticky b a key nonce s = To s' -> advances s s'.
Proof.
  intros [B1 _ _ _ _ _ _ _]. unfold driver_step.
  assert (Hd : forall d, advances s (set_driver d s)) by (intros; by apply advances_refl).
  case_match; try (intros; simplify_eq; by apply advances_refl).
  - unfold driver_top. destruct (sync_inbound_base s) as (hb & n & ->). step_cases; by apply advances_refl.
  - unfold driver_select. destruct b; try (case_match; [done|]).
    + case_match; intros; simplify_eq; by apply advances_refl.
    + unfold driver_recv, driver_request. step_cases; by apply advances_refl.
    + unfold driver_close_timer. step_cases; by apply advances_refl.
    + unfold driver_heartbeat. destruct (sync_inbound_base s) as (hb & n & ->). step_cases; by apply advances_refl.
    + repeat case_match; try done; try apply control_advances. unfold driver_written. step_cases; by apply advances_refl.
  - step_cases; by apply advances_refl.
  - step_cases; by apply advances_refl.
  - destruct s as [[sh ct tr nw] lk sk br wr ap dr rd rdd lg]. destruct tr; step_cases; solve_advances.
  - destruct s as [[sh ct tr nw] lk sk br wr ap dr rd rdd lg]. step_cases; broken_eqs; solve_advances.
  - unfold timeout_write. destruct s as [[sh ct tr nw] lk sk br wr ap dr rd rdd lg]. cbn -[poll_stream].
    step_cases; broken_eqs; solve_advances.
  - unfold driver_break, driver_act, terminate, cancel. destruct s as [[sh ct tr nw] lk sk br wr ap dr rd rdd lg].
    destruct tr; step_cases; solve_advances.
Qed.

Lemma step_advances l s s' : inv s -> step config sticky l s = To s' -> advances s s'.
Proof.
  intros [Hb Hr]. destruct l; cbn.
  - case_match; intros; simplify_eq. unfold advances. cbn. auto with ws.
  - case_match; intros; simplify_eq. by apply advances_refl.
  - case_match; intros; simplify_eq. by apply advances_refl.
  - by apply app_advances.
  - by apply abort_advances.
  - case_match; intros; simplify_eq. unfold advances. cbn. auto with ws.
  - by apply driver_advances.
  - case_match; [done|]. destruct (reader_step l (conn s) (reader s)) as [| |[[c r] i]] eqn:Es; intros; simplify_eq.
    destruct (reader_step_ok l _ _ _ _ _ (b_status _ Hb) Hr Es) as [[Ht _ Hst _ Hc _] _].
    unfold advances, status, cancelled, shared, conn_status in *. destruct i; cbn; by rewrite ?Hc, ?Ht.
  - case_match; intros; simplify_eq. unfold advances. cbn. auto with ws.
Qed.

(** Only the reader's own steps change it. *)
Lemma step_reader l s s' : step config sticky l s = To s' -> (forall x, l <> LReader x) -> reader s' = reader s.
Proof.
  destruct l as [ms|m| |a key| | |b a key nonce|x|]; cbn; intros Hs Hl; try (by case_match; simplify_eq); [..|by destruct (Hl x)].
  - unfold app_step, app_write, app_sent in Hs. step_cases; same_base_eqs; cbn; by rewrite_parts.
  - unfold app_abort in Hs. by step_cases.
  - unfold driver_step, driver_top, driver_select, driver_recv, driver_request, driver_close_timer, driver_heartbeat, control_step,
      control_done, driver_written, timeout_write, driver_act, driver_break in Hs.
    destruct (sync_inbound_base s) as (hb & n & Hsync). rewrite Hsync in Hs. step_cases; same_base_eqs; cbn; by rewrite_parts.
Qed.

Lemma inv_step l s s' : inv s -> step config sticky l s = To s' -> inv s'.
Proof.
  intros Hi Hs. pose proof (step_advances _ _ _ Hi Hs) as (Hle & _ & _ & _). pose proof (step_reader _ _ _ Hs) as Hrd. destruct Hi as [Hb Hr].
  assert (Hst : (forall x, l <> LReader x) -> base s' -> inv s').
  { intros Hl Hb'. split; [done|]. rewrite (Hrd Hl). by eapply reader_ok_stable. }
  destruct l as [ms|m| |a key| | |b a key nonce|x|]; cbn in Hs; try (apply Hst; [done|]).
  - case_match; simplify_eq. destruct Hb as [B1 B2 B3 B4 B5 B6 B7 B8]. by split.
  - destruct Hb as [B1 B2 B3 B4 B5 B6 B7 B8]. open_state s. destruct ap; simplify_eq/=. by split.
  - destruct Hb as [B1 B2 B3 B4 B5 B6 B7 B8]. open_state s. destruct ap; simplify_eq/=. by split.
  - by eapply base_app.
  - by eapply base_abort.
  - destruct Hb as [B1 B2 B3 B4 B5 B6 B7 B8]. open_state s. destruct ap; simplify_eq/=. split; try done.
    cbn. by eapply driver_phase_cancel; [|done].
  - by eapply base_driver.
  - case_match; [done|]. destruct (reader_step x (conn s) (reader s)) as [| |[[c r] i]] eqn:Es; simplify_eq.
    destruct (base_reader _ _ _ _ _ Hb Hr Es) as [[B1 B2 B3 B4 B5 B6 B7 B8] Hr']. by destruct i; (split; [by split|done]).
  - case_match; simplify_eq. destruct Hb as [B1 B2 B3 B4 B5 B6 B7 B8]. split; try done. by eapply driver_phase_cancel; [|done].
Qed.
End Advance.
