(* ===== verification/SplitWire.v ===== *)
(** * Split streams: what is on the wire

    Frames of the application, of the automatic responses and of a timeout reach the transport one at a time and whole: a frame that is cut short is
    the last thing the transport sees. *)

From stdpp Require Import base list option strings.
From S2P Require Import Prelude Error Mask Utf8 Frame Protocol Heartbeat Output Deflate Compressed Config WebSocket Split SplitReader SplitSpec.
Import WebSocketStream (Item).

(** ** Frames and bytes *)

Definition whole (w : Written) : Prop := w_sent w = length (w_frame w).
Definition within (w : Written) : Prop := (w_sent w <= length (w_frame w))%nat.
Definition unsent (w : Written) : Prop := w_sent w = 0%nat.

(** Whole frames, then one that may be cut short, then nothing. *)
Definition cut_short (ws : list Written) : Prop :=
  exists ws1 w ws2, ws = ws1 ++ w :: ws2 /\ Forall whole ws1 /\ within w /\ Forall unsent ws2.

Definition rest_of (w : WriteState) : bytes := match w with WStart r | WRun r | WWait r => r end.
Definition running (w : option WriteState) : Prop := match w with Some (WRun _) => True | _ => False end.

(** All frames are whole, but for the one being written. *)
Definition clean (ws : list Written) (wr : option WriteState) : Prop :=
  match wr with
  | None => Forall whole ws
  | Some st => exists ws1 w, ws = ws1 ++ [w] /\ Forall whole ws1 /\ within w /\ drop (w_sent w) (w_frame w) = rest_of st
  end.

(** [dead]: nothing can be written any more; [canc]: the connection is cancelled, which a write looks at before it goes on. *)
Definition frames_ok (ws : list Written) (wr : option WriteState) (dead canc : bool) : Prop :=
  clean ws wr \/ (cut_short ws /\ (dead = true \/ (canc = true /\ ~ running wr))).

Section frames.
Context (ws : list Written) (dead canc : bool).

Lemma frames_keep wr dead' canc' : frames_ok ws wr dead canc ->
  (dead = true -> dead' = true \/ (canc' = true /\ ~ running wr)) -> (canc = true -> canc' = true) -> frames_ok ws wr dead' canc'.
Proof. intros [Hc|[Ht Hd]] Hdead Hcanc; [by left|right]. naive_solver. Qed.

(** The same write, further along. *)
Lemma frames_move st st' dead' canc' : rest_of st' = rest_of st -> frames_ok ws (Some st) dead canc ->
  (running (Some st') -> canc = false \/ running (Some st)) -> (dead = true -> dead' = true) -> (canc = true -> canc' = true) ->
  frames_ok ws (Some st') dead' canc'.
Proof.
  intros Er [Hc|[Ht Hd]] Hr Hdead Hcanc; [left; cbn in *; by rewrite Er|right]. split; [done|].
  destruct Hd as [Hd|[Hd Hn]]; [by left; apply Hdead|]. right. split; [by apply Hcanc|]. intros Hr'. destruct (Hr Hr') as [Hf|Hf]; [congruence|done].
Qed.

Lemma frames_encode o m b dead' canc' : frames_ok ws None dead canc -> (dead = true -> dead' = true) -> (canc = true -> canc' = true) ->
  frames_ok (ws ++ [MkWritten o m b 0]) (Some (WStart b)) dead' canc'.
Proof.
  intros [Hc|[(ws1 & w & ws2 & -> & H1 & H2 & H3) Hd]] Hdead Hcanc.
  - left. cbn. eexists _, _. split_and!; [done|done|unfold within; cbn; lia|done].
  - right. split; [|naive_solver]. exists ws1, w, (ws2 ++ [MkWritten o m b 0]). rewrite <- app_assoc. split_and!; try done.
    apply Forall_app. split; [done|]. by repeat constructor.
Qed.

(** Bytes are taken: only possible while nothing has been cut. *)
Lemma frames_take n rest dead' canc' w : frames_ok (ws ++ [w]) (Some (WRun rest)) dead canc -> dead = false -> (n <= length rest)%nat ->
  frames_ok (ws ++ [MkWritten (w_by w) (w_message w) (w_frame w) (w_sent w + n)]) (Some (WRun (drop n rest))) dead' canc'.
Proof.
  intros [(ws1 & w' & [-> ->]%app_inj_tail & H1 & H2 & H3)|[_ [Hd|[_ Hd]]]] Hdead Hn; [|congruence|by destruct Hd].
  left. cbn in *. eexists ws1, _. split_and!; [done|done| |].
  - unfold within in *. cbn. rewrite <- H3, length_drop in Hn. lia.
  - cbn. rewrite <- H3. by rewrite drop_drop.
Qed.

Lemma frames_done dead' canc' : frames_ok ws (Some (WRun [])) dead canc -> (dead = true -> dead' = true) -> frames_ok ws None dead' canc'.
Proof.
  intros [(ws1 & w & -> & H1 & H2 & H3)|[Ht [Hd|[_ Hd]]]] Hdead; [left|right; auto|by destruct Hd].
  cbn in *. apply Forall_app. split; [done|]. constructor; [|done]. unfold whole, within in *. apply (f_equal length) in H3. rewrite length_drop in H3.
  cbn in H3. lia.
Qed.

(** A write is given up. *)
Lemma frames_fail st dead' canc' : frames_ok ws (Some st) dead canc -> dead' = true \/ canc' = true -> frames_ok ws None dead' canc'.
Proof.
  intros [(ws1 & w & -> & H1 & H2 & H3)|[Ht _]] Hd; right.
  - split; [by exists ws1, w, []|]. cbn. tauto.
  - split; [done|]. cbn. tauto.
Qed.
End frames.

(** ** The invariant *)

Definition is_acts (pc : DriverPc) : bool := match pc with DActs _ | DEnd => true | _ => false end.
(** A send that was given up still holds the sink. *)
Definition guarding (a : AppPc) : bool := match a with AGuard _ true _ | ACancel _ true _ => true | _ => false end.

Definition driver_write (p : option ControlWrite) (pc : DriverPc) : option WriteState :=
  match p with
  | Some (PWrite _ w) => Some w
  | _ => match pc with DTimeoutWrite w _ _ => Some w | _ => None end
  end.
Definition writing (a : AppPc) (p : option ControlWrite) (pc : DriverPc) : option WriteState :=
  match a with AWrite _ _ w => Some w | _ => driver_write p pc end.

Section Wire.
Context {E R : Type} `{SplitEncoder E} `{ReaderSpec R}.
Context (config : Config.t).
Abbreviation State := (State E R).
Implicit Types s : State.

Definition dead s : bool :=
  broken s || (bool_decide (Conn.transport (conn s) <> TransportState.Open) && is_acts (Driver.pc (driver s))) || guarding (app s).

Definition frames_inv s : Prop :=
  frames_ok (wire s) (writing (app s) (Driver.pending_write (driver s)) (Driver.pc (driver s))) (dead s) (cancelled s).

(** A holder of the sink is the only one who writes. *)
Lemma app_holds_alone s : base s -> app_holds (app s) = true ->
  driver_write (Driver.pending_write (driver s)) (Driver.pc (driver s)) = None.
Proof.
  intros [_ Hh _ _ _ _ _ _] Ha. unfold holders in Hh. rewrite Ha in Hh. unfold driver_write.
  destruct (Driver.pending_write (driver s)) as [[| | |]|], (Driver.pc (driver s)), (lock s); try done.
Qed.

Lemma control_holds_alone s : base s -> control_holds (Driver.pending_write (driver s)) = true ->
  app_holds (app s) = false /\ driver_holds (Driver.pc (driver s)) = false.
Proof.
  intros [_ Hh _ _ _ _ _ _] Ha. unfold holders in Hh. rewrite Ha in Hh. destruct (app_holds _), (driver_holds _), (lock s); done.
Qed.

Lemma driver_holds_alone s : base s -> driver_holds (Driver.pc (driver s)) = true ->
  app_holds (app s) = false /\ control_holds (Driver.pending_write (driver s)) = false.
Proof.
  intros [_ Hh _ _ _ _ _ _] Ha. unfold holders in Hh. rewrite Ha in Hh. destruct (app_holds _), (control_holds _), (lock s); done.
Qed.

(** What a poll makes of the frame that is being written. *)
Definition poll_outcome (rest : bytes) (closed : Prop) s s' (r : write_result) : Prop :=
  match r with
  | WMore rest' => (forall d c, frames_ok (wire s') (Some (WRun rest')) d c) /\ broken s' = broken s
  | WPending => s' = s
  | WDone (Ok _) => s' = s /\ rest = []
  | WDone (Err _) => wire s' = wire s /\ (broken s' = true \/ closed)
  end.

Lemma take_frames n rest d c s : frames_ok (wire s) (Some (WRun rest)) d c -> d = false -> (n <= length rest)%nat ->
  forall d' c', frames_ok (wire (take_bytes n s)) (Some (WRun (drop n rest))) d' c'.
Proof.
  intros Hf Hd Hn d' c'. unfold take_bytes. destruct (wire s) as [|w ws _] eqn:Ew using rev_ind.
  { destruct Hf as [(ws & w & Hw & _)|[_ [?|[_ ?]]]]; [by destruct ws|congruence|done]. }
  rewrite last_snoc, removelast_last. cbn. by eapply frames_take.
Qed.

Lemma poll_stream_frames a rest d s s' r : poll_stream true a rest s = (s', r) -> frames_ok (wire s) (Some (WRun rest)) d (cancelled s) ->
  (broken s = false -> d = false) -> poll_outcome rest False s s' r.
Proof.
  intros E1 Hf Hd. pose proof (poll_stream_polled true a rest s) as Hp. rewrite E1 in Hp.
  inversion Hp as [|e|Hr|n Hb Hn]; subst; cbn; auto. split; [|by rewrite take_bytes_broken].
  intros d' c'. eapply take_frames; [done|by apply Hd|lia].
Qed.

Lemma poll_split_frames a rest d s s' r : poll_split true a rest s = (s', r) -> frames_ok (wire s) (Some (WRun rest)) d (cancelled s) ->
  (broken s = false -> Conn.transport (conn s) = TransportState.Open -> d = false) ->
  poll_outcome rest (Conn.transport (conn s) = TransportState.Closed) s s' r.
Proof.
  intros E1 Hf Hd. unfold poll_split in E1. destruct (Conn.transport (conn s)) eqn:Et; simplify_eq/=; [|done|auto].
  assert (Hp : poll_outcome rest False s s' r) by (eapply poll_stream_frames; [done|done|auto]).
  destruct r as [| |[u|e]]; cbn in *; try done. destruct Hp as [? [?|?]]; auto.
Qed.

(** The wire and the write in progress stay. *)
Lemma frames_same s s' : frames_inv s -> wire s' = wire s ->
  writing (app s') (Driver.pending_write (driver s')) (Driver.pc (driver s')) =
    writing (app s) (Driver.pending_write (driver s)) (Driver.pc (driver s)) ->
  (dead s = true -> dead s' = true) -> (cancelled s = true -> cancelled s' = true) -> frames_inv s'.
Proof. unfold frames_inv. intros Hf -> -> Hd Hc. eapply frames_keep; [done|auto|done]. Qed.

Lemma frames_app_write a msg once w s s' : base s -> frames_inv s -> app s = AWrite msg once w ->
  app_write true a msg once w s = To s' -> frames_inv s'.
Proof.
  intros Hb Hf Ha. pose proof (app_holds_alone s Hb ltac:(by rewrite Ha)) as Hal. unfold frames_inv, app_write, app_sent, dead in *.
  rewrite Ha in Hf. cbn [writing guarding] in Hf. rewrite orb_false_r in Hf. destruct w as [rest|rest|rest].
  - destruct (cancelled s) eqn:Ec; intros [= <-]; cbn; rewrite ?orb_false_r, ?orb_true_r.
    + rewrite Hal. by eapply frames_fail; [|left].
    + by eapply frames_move; [|done|..]; auto.
  - destruct (poll_split true a rest s) as [s1 r] eqn:Ep. pose proof (poll_split_base _ _ _ _ _ _ Ep) as (Hc1 & Hl1 & Ha1 & Hd1 & _ & _).
    eapply poll_split_frames in Ep; [|exact Hf|by intros -> ->]. rewrite <- Hd1 in Hal.
    destruct r as [rest'| |[[]|e]]; cbn in Ep.
    + destruct Ep as [Hf' Hb']. intros [= <-]. apply Hf'.
    + subst s1. destruct once; intros [= <-]; cbn; rewrite ?orb_false_r, ?orb_true_r.
      * rewrite Hal. by eapply frames_fail; [|left].
      * by eapply frames_move; [|done|..]; auto.
    + destruct Ep as [-> ->]. destruct once; [|destruct (Message.is_close msg)]; intros [= <-]; cbn; rewrite ?orb_false_r, Hal;
        by eapply frames_done.
    + destruct Ep as [Hw _]. intros [= <-]; cbn; rewrite ?orb_true_r, Hal, Hw. by eapply frames_fail; [|left].
  - destruct (cancelled s) eqn:Ec; intros [= <-]; cbn; rewrite ?orb_false_r, ?orb_true_r.
    + rewrite Hal. by eapply frames_fail; [|left].
    + by eapply frames_move; [|done|..]; auto.
Qed.

Lemma dead_stays s s' : advances s s' -> (is_acts (Driver.pc (driver s)) = true -> is_acts (Driver.pc (driver s')) = true) ->
  (guarding (app s) = true -> guarding (app s') = true) -> dead s = true -> dead s' = true.
Proof.
  intros (_ & _ & Ht & Hb) Hp Hg. unfold dead. rewrite !orb_true_iff, !andb_true_iff, !bool_decide_eq_true. naive_solver.
Qed.

(** A flush writes nothing. *)
Lemma poll_split_flush a s s' r : poll_split true a [] s = (s', r) -> wire s' = wire s /\ forall rest, r <> WMore rest.
Proof.
  intros E1. destruct (poll_split_polled true a [] s) as [[_ Hp]|[[_ Hp]|[_ [e Hp]]]]; rewrite E1 in Hp; simplify_eq; try done.
  inversion Hp as [|e|Hr|n Hb Hn]; subst; try done. cbn in Hn. lia.
Qed.

Lemma frames_app a key s s' : base s -> frames_inv s -> app_step config true a key s = To s' -> frames_inv s'.
Proof.
  intros Hb Hf Hs. pose proof (app_holds_alone s Hb) as Hal. pose proof (app_advances _ _ _ _ _ _ Hb Hs) as Hadv. unfold app_step in Hs.
  destruct (app s) as [| |m|m|m|m|m|m|m once|m once w|m held e|m held e|m e|m p e|m| | |w|e|e|] eqn:Ha; cbn in Hal;
    try (step_cases; (apply (frames_same s); [done|done|by rewrite Ha| |by apply Hadv]); by (apply dead_stays; rewrite ?Ha)).
  - destruct (cancelled s) eqn:Ec.
    { simplify_eq. apply (frames_same s); rewrite ?Ha; try done; unfold dead; cbn; by rewrite ?orb_true_r. }
    unfold frames_inv, dead in Hf |- *. rewrite Ha in Hf. cbn in Hf. rewrite Hal in Hf by done.
    destruct (encode_for ByApp m _ s) as [| |[s1 [b|]]] eqn:Ee; simplify_eq; apply encode_for_to in Ee as [k ->]; cbn.
    + by eapply frames_encode; [done|..].
    + rewrite Hal by done. by eapply frames_keep; [done|..]; rewrite ?orb_true_r; auto.
  - by eapply frames_app_write.
  - destruct held.
    + unfold frames_inv in *. rewrite Ha in Hf. cbn in Hf. rewrite Hal in Hf by done. simplify_eq. cbn. rewrite Hal by done.
      by eapply frames_keep; [done|auto|].
    + destruct e; simplify_eq; (apply (frames_same s); [done|done|by rewrite Ha| |by apply Hadv]); by (apply dead_stays; rewrite ?Ha).
  - assert (Hw : wire s' = wire s /\ guarding (app s') = false /\ driver s' = driver s /\ forall p pc, writing (app s') p pc = driver_write p pc).
    { destruct a; [..|by destruct (cancelled s); simplify_eq]; destruct (poll_split true _ [] s) as [s1 r] eqn:Ep;
        pose proof (poll_split_base _ _ _ _ _ _ Ep) as (_ & _ & _ & Hd & _); apply poll_split_flush in Ep as [Hw _];
        destruct r as [| |[]]; by simplify_eq. }
    destruct Hw as (Hw & Hg & Hd & Hwr). apply (frames_same s); [done|done|by rewrite Hwr, Hd, Ha| |apply Hadv].
    apply dead_stays; [done|by rewrite Hd|by rewrite Ha].
Qed.

Lemma frames_abort s s' : base s -> frames_inv s -> app_abort s = To s' -> frames_inv s'.
Proof.
  intros Hb Hf Hs. pose proof (app_holds_alone s Hb) as Hal. pose proof (abort_advances _ _ Hs) as Hadv. unfold app_abort in Hs.
  destruct (app s) as [| |m|m|m|m|m|m|m once|m once w|m held e|m held e|m e|m p e|m| | |w|e|e|] eqn:Ha; simplify_eq;
    try ((apply (frames_same s); [done|done|by rewrite Ha| |by apply Hadv]); by (apply dead_stays; rewrite ?Ha)).
  - destruct once; [done|]. destruct w as [|rest|rest]; simplify_eq. unfold frames_inv, dead in *. rewrite Ha in Hf. cbn in *. rewrite Hal by done.
    rewrite orb_true_r. by eapply frames_fail; [|left].
  - destruct w; simplify_eq. apply (frames_same s); [done|done|by rewrite Ha| |by apply Hadv]. by apply dead_stays; rewrite ?Ha.
Qed.

Lemma no_app_write a p pc : app_holds a = false -> writing a p pc = driver_write p pc /\ guarding a = false.
Proof. destruct a as [| | | | | | | | | |? []|? []| | | | | | | | | ]; try done. Qed.

Lemma dead_driver s : app_holds (app s) = false -> is_acts (Driver.pc (driver s)) = false -> dead s = broken s.
Proof. intros Ha Hp. unfold dead. destruct (no_app_write _ None DTop Ha) as [_ ->]. by rewrite Hp, andb_false_r, !orb_false_r. Qed.

(** The frames as the one who writes sees them. *)
Lemma app_view s msg once w : frames_inv s -> app s = AWrite msg once w ->
  frames_ok (wire s) (Some w) (dead s) (cancelled s) /\ (broken s = false -> Conn.transport (conn s) = TransportState.Open -> dead s = false).
Proof. unfold frames_inv. intros Hf Ha. rewrite Ha in Hf. split; [done|]. unfold dead. by intros -> ->; rewrite Ha. Qed.

Lemma control_view s f w b : base s -> frames_inv s -> Driver.pc (driver s) = DSelect b -> Driver.pending_write (driver s) = Some (PWrite f w) ->
  app_holds (app s) = false /\ frames_ok (wire s) (Some w) (broken s) (cancelled s).
Proof.
  intros Hb Hf Hpc Hp. destruct (control_holds_alone s Hb ltac:(by rewrite Hp)) as [Ha _]. split; [done|]. unfold frames_inv in *.
  rewrite dead_driver in Hf by (done || by rewrite Hpc). rewrite Hp, Hpc in Hf.
  by destruct (no_app_write _ (Some (PWrite f w)) (DSelect b) Ha) as [Hw _]; rewrite Hw in Hf.
Qed.

Lemma timeout_view s w d c : base s -> frames_inv s -> Driver.pc (driver s) = DTimeoutWrite w d c ->
  app_holds (app s) = false /\ (forall pc, driver_write (Driver.pending_write (driver s)) pc = driver_write None pc) /\
  frames_ok (wire s) (Some w) (broken s) (cancelled s).
Proof.
  intros Hb Hf Hpc. destruct (driver_holds_alone s Hb ltac:(by rewrite Hpc)) as [Ha Hc]. split; [done|]. unfold frames_inv in *.
  rewrite dead_driver in Hf by (done || by rewrite Hpc). rewrite Hpc in Hf.
  destruct (no_app_write _ (Driver.pending_write (driver s)) (DTimeoutWrite w d c) Ha) as [Hw _]. rewrite Hw in Hf.
  assert (Hpw : forall pc, driver_write (Driver.pending_write (driver s)) pc = driver_write None pc)
    by (intros; destruct (Driver.pending_write (driver s)) as [[]|]; done).
  by rewrite Hpw in Hf.
Qed.

(** The write of the driver goes on, or ends. *)
Lemma frames_control_write a key f w b s s' : base s -> frames_inv s -> Driver.pc (driver s) = DSelect b ->
  Driver.pending_write (driver s) = Some (PWrite f w) -> control_step true a key (PWrite f w) s = To s' -> frames_inv s'.
Proof.
  intros Hb Hf0 Hpc Hp. destruct (control_view s f w b Hb Hf0 Hpc Hp) as [Ha Hf].
  assert (Hnew : forall s1, app s1 = app s -> Driver.pc (driver s1) = DSelect b ->
    frames_ok (wire s1) (driver_write (Driver.pending_write (driver s1)) (DSelect b)) (broken s1) (cancelled s1) -> frames_inv s1).
  { intros s1 Ha1 Hp1. unfold frames_inv. rewrite dead_driver, Hp1, Ha1 by (by rewrite ?Hp1, ?Ha1).
    by destruct (no_app_write _ (Driver.pending_write (driver s1)) (DSelect b) Ha) as [-> _]. }
  unfold control_step, control_done. destruct w as [rest|rest|rest].
  - destruct (cancelled s) eqn:Ec; intros [= <-]; apply Hnew; try done; cbn.
    + by eapply frames_fail; [|right].
    + by eapply frames_move; [|done|..]; auto.
  - destruct (poll_split true a rest s) as [s1 r] eqn:Ep. pose proof (poll_split_base _ _ _ _ _ _ Ep) as (Hc1 & Hl1 & Ha1 & Hd1 & _ & _).
    eapply poll_split_frames in Ep; [|exact Hf|by intros ->].
    destruct r as [rest'| |[[]|e]]; cbn in Ep; intros [= <-]; apply Hnew; cbn; rewrite ?Hd1; try done.
    + apply Ep.
    + subst s1. by eapply frames_move; [|done|..]; auto.
    + destruct Ep as [-> ->]. by eapply frames_done.
    + destruct Ep as [-> [Hbr|Hcl]]; [by eapply frames_fail; [|left]|]. exfalso. pose proof (b_phase _ Hb) as Hph. rewrite Hpc, Hcl in Hph. done.
  - destruct (cancelled s) eqn:Ec; intros [= <-]; apply Hnew; try done; cbn.
    + by eapply frames_fail; [|right].
    + by eapply frames_move; [|done|..]; auto.
Qed.

Lemma frames_timeout_write a w d c s s' : base s -> frames_inv s -> Driver.pc (driver s) = DTimeoutWrite w d c ->
  timeout_write true a w d c s = To s' -> frames_inv s'.
Proof.
  intros Hb Hf0 Hpc. destruct (timeout_view s w d c Hb Hf0 Hpc) as (Ha & Hpw & Hf).
  pose proof (b_phase _ Hb) as Hph. rewrite Hpc in Hph. apply bool_decide_eq_true in Hph.
  (* while it writes, and when it has finished *)
  assert (Hmore : forall s1 w1, app s1 = app s -> driver s1 = Driver.set_pc (DTimeoutWrite w1 d c) (driver s) ->
    frames_ok (wire s1) (Some w1) (broken s1) (cancelled s1) -> frames_inv s1).
  { intros s1 w1 Ha1 Hd1. unfold frames_inv. rewrite dead_driver, Hd1, Ha1 by (by rewrite ?Hd1, ?Ha1). cbn.
    destruct (no_app_write _ (Driver.pending_write (driver s)) (DTimeoutWrite w1 d c) Ha) as [-> _]. by rewrite Hpw. }
  assert (Hend : forall s1 l, app s1 = app s -> conn s1 = conn s -> driver s1 = Driver.set_pc (DActs l) (driver s) ->
    wire s1 = wire s -> frames_inv s1).
  { intros s1 l Ha1 Hc1 Hd1 Hw1. unfold frames_inv, dead. rewrite Hd1, Ha1, Hw1, Hc1, Hph. cbn. rewrite orb_true_r.
    destruct (no_app_write _ (Driver.pending_write (driver s)) (DActs l) Ha) as [-> _]. rewrite Hpw. by eapply frames_fail; [|left]. }
  unfold timeout_write. destruct w as [rest|rest|rest].
  - destruct (cancelled s) eqn:Ec; intros [= <-]; [by eapply Hend|]. eapply Hmore; [done|done|]. cbn.
    by eapply frames_move; [|done|..]; auto.
  - destruct (poll_stream true a rest s) as [s1 r] eqn:Ep. pose proof (poll_stream_base _ _ _ _ _ _ Ep) as (Hc1 & Hl1 & Ha1 & Hd1 & _ & _).
    eapply poll_stream_frames in Ep; [|exact Hf|by intros ->].
    destruct r as [rest'| |[[]|e]]; cbn in Ep; intros [= <-].
    + eapply Hmore; [done|cbn; by rewrite Hd1|]. apply Ep.
    + subst s1. eapply Hmore; [done|done|]. by eapply frames_move; [|done|..]; auto.
    + destruct Ep as [-> ->]. by eapply Hend.
    + destruct Ep as [Hw1 _]. eapply Hend; cbn; by rewrite ?Hd1.
  - destruct (cancelled s) eqn:Ec; [intros [= <-]; by eapply Hend|].
    destruct a; try (case_match); intros; simplify_eq; try (by eapply Hend);
      (eapply Hmore; [done|done|]; cbn; by eapply frames_move; [|done|..]; auto).
Qed.

(** Steps of the driver that do not write: the pending write and the Close of a timeout stay as they are. *)
Lemma frames_driver_keep s s' : frames_inv s -> advances s s' -> wire s' = wire s -> app s' = app s ->
  driver_write (Driver.pending_write (driver s')) (Driver.pc (driver s')) = driver_write (Driver.pending_write (driver s)) (Driver.pc (driver s)) ->
  (is_acts (Driver.pc (driver s)) = true -> is_acts (Driver.pc (driver s')) = true) -> frames_inv s'.
Proof.
  intros Hf Hadv Hw Ha Hd Hp. apply (frames_same s); [done|done| |apply dead_stays; rewrite ?Ha; done|apply Hadv].
  rewrite Ha. unfold writing. by destruct (app s).
Qed.

Lemma suspended_write s pc : suspended (Driver.pending_write (driver s)) = true -> control_holds (Driver.pending_write (driver s)) = false ->
  driver_write (Driver.pending_write (driver s)) pc = driver_write None pc.
Proof. by destruct (Driver.pending_write (driver s)) as [[| | |]|]. Qed.

Lemma frames_select b a key nonce enabled s s' : base s -> frames_inv s -> Driver.pc (driver s) = DSelect enabled ->
  driver_select config true b a key nonce enabled s = To s' -> frames_inv s'.
Proof.
  intros Hb Hf Hpc Hs.
  assert (Hadv : advances s s') by (eapply (driver_advances config true b a key nonce); [done|unfold driver_step; by rewrite Hpc]).
  unfold driver_select in Hs. destruct b; try (destruct (suspended (Driver.pending_write (driver s))) eqn:Hsu; cbn in Hs; [|done]).
  - destruct (cancelled s); simplify_eq. eapply frames_driver_keep; rewrite ?Hpc; done.
  - unfold driver_recv, driver_request in Hs. step_cases; eapply frames_driver_keep; rewrite ?Hpc; done.
  - unfold driver_close_timer in Hs. step_cases; eapply frames_driver_keep; rewrite ?Hpc; done.
  - destruct enabled; [|done]. unfold driver_heartbeat in Hs. destruct (sync_inbound_base s) as (hb' & n' & Hsy). rewrite Hsy in Hs.
    unfold driver_deadline in Hs. cbn in Hs. destruct (Driver.pending_write (driver s)) as [p|] eqn:Ep;
      step_cases; try (by edestruct hard_is_no_ping); eapply frames_driver_keep; cbn; rewrite ?Hpc, ?Ep; done.
  - destruct (Driver.pending_write (driver s)) as [[f|f|f w|f ok]|] eqn:Ep; [..|done].
    + unfold control_step in Hs. step_cases; eapply frames_driver_keep; cbn; rewrite ?Hpc, ?Ep; done.
    + destruct (control_holds_alone s Hb ltac:(by rewrite Ep)) as [Ha _]. destruct (no_app_write _ (Some (PLocked f)) (DSelect enabled) Ha) as [Hw Hg].
      unfold control_step, control_done in Hs. destruct (cancelled s) eqn:Ec; simplify_eq.
      { eapply frames_driver_keep; cbn; rewrite ?Hpc, ?Ep; done. }
      destruct (encode_for ByControl _ _ s) as [| |[s1 [bs|]]] eqn:Ee; simplify_eq; apply encode_for_to in Ee as [k ->]; cbn.
      * unfold frames_inv in *. rewrite dead_driver in Hf |- * by (done || cbn; by rewrite Hpc). cbn. rewrite Hpc, Ep, Hw in Hf.
        destruct (no_app_write _ (Some (PWrite f (WStart bs))) (Driver.pc (driver s)) Ha) as [-> _]. cbn. by eapply frames_encode; [done|..].
      * eapply frames_driver_keep; cbn; rewrite ?Hpc, ?Ep; done.
    + by eapply frames_control_write.
    + simplify_eq. unfold driver_written in *. destruct ok; cbn -[goto]; [|eapply frames_driver_keep; cbn; rewrite ?Hpc, ?Ep; done].
      destruct f; (eapply frames_driver_keep; cbn; rewrite ?Hpc, ?Ep; done).
Qed.

Lemma frames_driver b a key nonce s s' : base s -> frames_inv s -> driver_step config true b a key nonce s = To s' -> frames_inv s'.
Proof.
  intros Hb Hf Hs. pose proof (driver_advances _ _ _ _ _ _ _ _ Hb Hs) as Hadv. unfold driver_step in Hs.
  destruct (Driver.pc (driver s)) as [| |enabled|d l l'|code reason cause|m d c|m d c|w d c|[|act l]|] eqn:Hpc.
  - unfold driver_top in Hs. destruct (sync_inbound_base s) as (hb' & n' & Hsy). rewrite Hsy in Hs. cbn in Hs.
    step_cases; eapply frames_driver_keep; cbn; rewrite ?Hpc; try done;
      by match goal with E1 : Driver.pending_write _ = _ |- _ => rewrite E1 end.
  - simplify_eq. eapply frames_driver_keep; cbn; rewrite ?Hpc; done.
  - by eapply frames_select.
  - step_cases; eapply frames_driver_keep; cbn; rewrite ?Hpc; done.
  - step_cases; eapply frames_driver_keep; cbn; rewrite ?Hpc; done.
  - step_cases; eapply frames_driver_keep; cbn; rewrite ?Hpc; done.
  - destruct (driver_holds_alone s Hb ltac:(by rewrite Hpc)) as [Ha Hc].
    assert (Hsu : suspended (Driver.pending_write (driver s)) = true) by (destruct (b_select _ Hb) as [|[? Hx]]; [done|by rewrite Hpc in Hx]).
    pose proof (suspended_write s) as Hpw.
    destruct (encode_for ByDriver m _ s) as [| |[s1 [bs|]]] eqn:Ee; simplify_eq; apply encode_for_to in Ee as [k ->]; cbn.
    + unfold frames_inv in *. rewrite dead_driver in Hf |- * by (done || cbn; by rewrite Hpc). cbn. rewrite Hpc in Hf.
      destruct (no_app_write _ (Driver.pending_write (driver s)) (DTimeoutEncode m d c) Ha) as [Hw _]. rewrite Hw, Hpw in Hf by done.
      destruct (no_app_write _ (Driver.pending_write (driver s)) (DTimeoutWrite (WStart bs) d c) Ha) as [-> _]. rewrite Hpw by done. cbn in *.
      by eapply frames_encode; [done|..].
    + eapply frames_driver_keep; cbn; rewrite ?Hpc; done.
  - by eapply frames_timeout_write.
  - simplify_eq. pose proof (b_phase _ Hb) as Hph. rewrite Hpc in Hph. apply andb_true_iff in Hph as [Hph%bool_decide_eq_true _].
    destruct (control_holds (Driver.pending_write (driver s))) eqn:Hch; cycle 1.
    + eapply frames_driver_keep; [done|done|..]; unfold driver_break; rewrite ?Hpc;
        by destruct (Driver.pending_write (driver s)) as [[| | |]|].
    + destruct (control_holds_alone s Hb Hch) as [Ha _]. unfold frames_inv, dead, driver_break in *.
      destruct (Driver.pending_write (driver s)) as [[f|f|f w|f ok]|] eqn:Ep; try done; cbn; rewrite Hph; cbn; rewrite orb_true_r;
      rewrite Hpc in Hf; destruct (no_app_write (app s) None DEnd Ha) as [-> _].
      * destruct (no_app_write (app s) (Some (PLocked f)) (DActs []) Ha) as [Hw _]. rewrite Hw in Hf. by eapply frames_keep; [done|auto|].
      * destruct (no_app_write (app s) (Some (PWrite f w)) (DActs []) Ha) as [Hw _]. rewrite Hw in Hf. by eapply frames_fail; [done|left].
  - unfold driver_act in Hs. step_cases; eapply frames_driver_keep; cbn; rewrite ?Hpc; done.
  - done.
Qed.

Lemma frames_step l s s' : inv s -> frames_inv s -> step config true l s = To s' -> frames_inv s'.
Proof.
  intros Hi Hf Hs. pose proof (step_advances _ _ _ _ _ Hi Hs) as Hadv. destruct Hi as [Hb Hr].
  destruct l as [ms|m| |a key| | |b a key nonce|x|]; cbn in Hs.
  - case_match; simplify_eq. by apply (frames_same s).
  - destruct (app s) eqn:Ha; simplify_eq/=. eapply (frames_same s); [done|done|by rewrite Ha| |done]. by apply dead_stays; rewrite ?Ha.
  - destruct (app s) eqn:Ha; simplify_eq/=. eapply (frames_same s); [done|done|by rewrite Ha| |done]. by apply dead_stays; rewrite ?Ha.
  - by eapply frames_app.
  - by eapply frames_abort.
  - destruct (app s) eqn:Ha; simplify_eq/=. eapply (frames_same s); [done|done|by rewrite Ha| |apply Hadv]. by apply dead_stays; rewrite ?Ha.
  - by eapply frames_driver.
  - case_match; [done|]. destruct (reader_step x (conn s) (reader s)) as [| |[[c r] i]] eqn:Es; simplify_eq.
    assert (Hd : dead s = true -> dead (match i with Some i => observe (Got i) (set_reader r (set_conn c s)) | None => set_reader r (set_conn c s) end) = true)
      by (apply dead_stays; by destruct i).
    by destruct i; eapply (frames_same s); try done; apply Hadv.
  - case_match; simplify_eq. eapply (frames_same s); [done|done|done| |apply Hadv]. by apply dead_stays.
Qed.
End Wire.
