(* ===== verification/SplitOrder.v ===== *)
(** * Split streams: the order of frames, and what a successful send means

    No data frame follows a Close frame; the frames of the application are on the wire in the order of its calls, and those whose [send] returned
    [Ok] are there whole. *)

From stdpp Require Import base list option strings.
From S2P Require Import Prelude Error Mask Utf8 Frame Protocol Heartbeat Output Deflate Compressed Config WebSocket Split SplitReader SplitSpec SplitWire.
Import WebSocketStream (Item).

Definition is_data (m : Message.t) : bool := match m with Message.Text _ | Message.Binary _ => true | _ => false end.
Definition has_close (ms : list Message.t) : bool := existsb Message.is_close ms.

(** No data message follows a Close. *)
Fixpoint ordered (ms : list Message.t) : bool :=
  match ms with
  | [] => true
  | m :: ms => (negb (Message.is_close m) || negb (existsb is_data ms)) && ordered ms
  end.

Lemma ordered_snoc ms m : ordered (ms ++ [m]) = ordered ms && (negb (has_close ms) || negb (is_data m)).
Proof.
  unfold has_close. induction ms as [|a ms IH]; cbn; [by rewrite orb_true_r|]. rewrite IH, existsb_app. cbn. rewrite orb_false_r.
  by destruct (Message.is_close a), (existsb is_data ms), (ordered ms), (existsb Message.is_close ms), (is_data m).
Qed.

Lemma has_close_snoc ms m : has_close (ms ++ [m]) = has_close ms || Message.is_close m.
Proof. unfold has_close. rewrite existsb_app. cbn. by rewrite orb_false_r. Qed.

Definition is_peer_close (r : ControlRequest.t) : bool := match r with ControlRequest.PeerClose _ => true | _ => false end.
Definition control_close (p : option ControlWrite) : bool :=
  match p with
  | Some (PWait (SplitControlFrame.Close _)) | Some (PLocked (SplitControlFrame.Close _)) | Some (PWrite (SplitControlFrame.Close _) _) => true
  | _ => false
  end.

(** The application's place, the status, and whether a Close has been written: a Close is sent only when the status is no longer open, and a data
    frame that is about to be encoded finds no Close. *)
Definition app_order (a : AppPc) (st : Z) (closed : bool) : Prop :=
  match a with
  | AReserve m | ALocal m => Message.is_close m = true
  | AStarted m => Message.is_close m = true /\ st <> SPLIT_OPEN
  | ALock m | ARecheck m | AWrite m _ _ | ANotify m => Message.is_close m = true -> st <> SPLIT_OPEN
  | AEncode m _ => if Message.is_close m then st <> SPLIT_OPEN else closed = false
  | _ => True
  end.

Definition timeout_message (pc : DriverPc) : option Message.t :=
  match pc with DTimeoutBegin m _ _ | DTimeoutEncode m _ _ => Some m | _ => None end.

Section Order.
Context {E R : Type} `{SplitEncoder E} `{ReaderSpec R}.
Context (config : Config.t) (sticky : bool).
Abbreviation State := (State E R).
Implicit Types s : State.

Definition messages s : list Message.t := map w_message (wire s).

Record order_inv s : Prop := {
  o_order : ordered (messages s) = true;
  o_open : status s = SPLIT_OPEN -> has_close (messages s) = true -> lock s = Some ByDriver;
  o_app : app_order (app s) (status s) (has_close (messages s));
  o_peer : Driver.peer_close (driver s) = true -> status s <> SPLIT_OPEN;
  o_queue : existsb is_peer_close (Control.queue (Conn.control (conn s))) = true -> status s <> SPLIT_OPEN;
  o_control : control_close (Driver.pending_write (driver s)) = true -> status s <> SPLIT_OPEN;
  o_timeout : forall m, timeout_message (Driver.pc (driver s)) = Some m -> Message.is_close m = true
}.

Lemma take_bytes_messages n s : messages (take_bytes n s) = messages s.
Proof.
  unfold take_bytes, messages. destruct (wire s) as [|w ws _] eqn:Ew using rev_ind; [cbn; by rewrite Ew|].
  rewrite last_snoc. cbn. rewrite removelast_last. by rewrite !map_app.
Qed.
Lemma poll_stream_messages a rest s s' r : poll_stream sticky a rest s = (s', r) -> messages s' = messages s.
Proof.
  intros E1. pose proof (poll_stream_polled sticky a rest s) as Hp. rewrite E1 in Hp. inversion Hp; subst; try done. apply take_bytes_messages.
Qed.
Lemma poll_split_messages a rest s s' r : poll_split sticky a rest s = (s', r) -> messages s' = messages s.
Proof. unfold poll_split. case_match; [apply poll_stream_messages|..]; intros; by simplify_eq. Qed.
Lemma encode_for_messages o m enc s s' b : encode_for o m enc s = To (s', b) ->
  messages s' = match b with Some _ => messages s ++ [m] | None => messages s end.
Proof. intros (k & Hk)%encode_for_to. destruct b; subst; [|done]. unfold messages. cbn. by rewrite map_app. Qed.
End Order.

Ltac message_eqs :=
  repeat match goal with
  | E : encode_for _ _ _ _ = To (_, _) |- _ => pose proof (encode_for_messages _ _ _ _ _ _ E); apply encode_for_base in E as (? & ? & ? & ? & ? & ?)
  | E : poll_split _ _ _ _ = (_, _) |- _ => pose proof (poll_split_messages _ _ _ _ _ _ E); apply poll_split_base in E as (? & ? & ? & ? & ? & ?)
  | E : poll_stream _ _ _ _ = (_, _) |- _ => pose proof (poll_stream_messages _ _ _ _ _ _ E); apply poll_stream_base in E as (? & ? & ? & ? & ? & ?)
  end.

Section Steps.
Context {E R : Type} `{SplitEncoder E} `{ReaderSpec R}.
Context (config : Config.t) (sticky : bool).
Abbreviation State := (State E R).
Implicit Types s : State.

(** A Close that is out excludes an open status from then on. *)
Lemma not_open s s' : status_le (status s) (status s') -> status s <> SPLIT_OPEN -> status s' <> SPLIT_OPEN.
Proof. unfold status_le, SPLIT_OPEN. lia. Qed.

Lemma app_order_le a st st' closed : status_le st st' -> app_order a st closed -> app_order a st' closed.
Proof. unfold status_le. destruct a as [| | | | | | | |? ?| | | | | | | | | | | |]; cbn; try done; try case_match; unfold SPLIT_OPEN; intuition lia. Qed.

(** Steps of the application that write nothing. *)
Lemma order_app_intro s s' : order_inv s -> status_le (status s) (status s') -> driver s' = driver s -> messages s' = messages s ->
  existsb is_peer_close (Control.queue (Conn.control (conn s'))) = existsb is_peer_close (Control.queue (Conn.control (conn s))) ->
  (lock s = Some ByDriver -> lock s' = Some ByDriver) -> app_order (app s') (status s') (has_close (messages s)) -> order_inv s'.
Proof.
  intros [O1 O2 O3 O4 O5 O6 O7] Hle Hd Hm Hq Hl Ha. pose proof (not_open _ _ Hle) as Hn. split; rewrite ?Hd, ?Hm, ?Hq; auto.
  intros Ho Hc. apply Hl, O2; [|done]. destruct (decide (status s = SPLIT_OPEN)); [done|by apply Hn in Ho].
Qed.

Lemma push_peer_close r c : is_peer_close r = false ->
  existsb is_peer_close (Control.queue (Control.push r c)) = existsb is_peer_close (Control.queue c).
Proof. unfold Control.push. cbn. destruct (Control.rx_open c); [|done]. rewrite existsb_app. cbn. intros ->. by rewrite !orb_false_r. Qed.

Lemma app_lock s : base s -> app_holds (app s) = true -> lock s = Some ByApp.
Proof. intros [_ B2 _ _ _ _ _ _] Ha. unfold holders in B2. rewrite Ha in B2. by destruct (lock s); simplify_eq/=. Qed.

(** A frame is encoded: an application's, not after a Close if it is data, or a Close once the status has moved on. *)
Lemma order_push s s' m : order_inv s -> status_le (status s) (status s') -> driver s' = driver s -> messages s' = messages s ++ [m] ->
  conn s' = conn s -> lock s' = lock s -> app_order (app s') (status s') (has_close (messages s')) ->
  (is_data m = true -> has_close (messages s) = false) -> (Message.is_close m = true -> status s <> SPLIT_OPEN \/ lock s = Some ByDriver) -> order_inv s'.
Proof.
  intros [O1 O2 O3 O4 O5 O6 O7] Hle Hd Hm Hc Hl Ha Hdata Hclose. pose proof (not_open _ _ Hle) as Hn. split; rewrite ?Hd, ?Hc, ?Hl; auto.
  - rewrite Hm, ordered_snoc, O1. cbn. destruct (is_data m); [by rewrite Hdata|by rewrite orb_true_r].
  - intros Ho. rewrite Hm, has_close_snoc. intros [Hcl|Hcl]%orb_true_iff.
    + apply O2; [|done]. destruct (decide (status s = SPLIT_OPEN)); [done|by apply Hn in Ho].
    + destruct (Hclose Hcl) as [Ho'|]; [by apply Hn in Ho'|done].
Qed.

Lemma order_app a key s s' : base s -> order_inv s -> app_step config sticky a key s = To s' -> order_inv s'.
Proof.
  intros Hb Ho Hs. pose proof (app_advances _ _ _ _ _ _ Hb Hs) as (Hle & _). pose proof (app_lock _ Hb) as Hlock.
  pose proof (o_app _ Ho) as Ha. pose proof (o_open _ Ho) as Hopen. clear Hb. unfold app_step, app_write, app_sent in Hs.
  step_cases; message_eqs; learn;
    try (eapply order_app_intro; [exact Ho|exact Hle|cbn; by rewrite_parts|by cbn; rewrite_parts|
      cbn -[Control.push Control.permit_send]; unfold Control.permit_send; rewrite ?push_peer_close by done; by rewrite_parts|
      cbn; rewrite_parts; try specialize (Hlock eq_refl); by intros; simplify_eq|]); try done; cbn.
  - congruence.
  - split; [done|]. cbn in *. destruct_and!. unfold status, shared. cbn. unfold SPLIT_OPEN, SPLIT_LOCAL_CLOSING in *. lia.
  - destruct Ha as [-> ?]. done.
  - by destruct Ha.
  - destruct (Message.is_close msg) eqn:Em; [by apply Ha|]. cbn in *. destruct (Z.eqb_spec (status s) SPLIT_OPEN) as [Eo|]; [|done].
    specialize (Hlock eq_refl). destruct (has_close (messages s)) eqn:Eh; [|done]. rewrite Hopen in Hlock by done. done.
  - assert (Hn : status (set_app (AWrite msg once (WStart l)) s0) <> SPLIT_OPEN) by (by eapply not_open).
    match goal with Hm : messages _ = _ |- _ => eapply (order_push s); [exact Ho|exact Hle| |exact Hm|..] end; cbn; auto; by destruct msg.
  - match goal with Hm : messages _ = _ |- _ => eapply (order_push s); [exact Ho|exact Hle| |exact Hm|..] end; cbn; auto; congruence.
  - intros Hm. eapply not_open; [exact Hle|auto].
  - intros Hm. eapply not_open; [exact Hle|auto].
  - intros Hm. eapply not_open; [exact Hle|auto].
Qed.

Lemma order_abort s s' : base s -> order_inv s -> app_abort s = To s' -> order_inv s'.
Proof.
  intros Hb Ho Hs. pose proof (abort_advances _ _ Hs) as (Hle & _). pose proof (app_lock _ Hb) as Hlock. unfold app_abort in Hs.
  step_cases; (eapply order_app_intro; [exact Ho|exact Hle|done|done|done|cbn; try specialize (Hlock eq_refl); by intros; simplify_eq|done]).
Qed.

Lemma control_lock s : base s -> control_holds (Driver.pending_write (driver s)) = true -> lock s = Some ByControl.
Proof.
  intros Hb Hc. destruct (control_holds_alone s Hb Hc) as [Ha Hd]. destruct Hb as [_ B2 _ _ _ _ _ _]. unfold holders in B2.
  rewrite Ha, Hc, Hd in B2. by destruct (lock s); simplify_eq/=.
Qed.
Lemma driver_lock s : base s -> driver_holds (Driver.pc (driver s)) = true -> lock s = Some ByDriver.
Proof.
  intros Hb Hc. destruct (driver_holds_alone s Hb Hc) as [Ha Hd]. destruct Hb as [_ B2 _ _ _ _ _ _]. unfold holders in B2.
  rewrite Ha, Hc, Hd in B2. by destruct (lock s); simplify_eq/=.
Qed.

(** Steps of the driver that write nothing. *)
Lemma order_driver_intro s s' : order_inv s -> advances s s' -> app s' = app s -> messages s' = messages s ->
  (existsb is_peer_close (Control.queue (Conn.control (conn s'))) = true -> existsb is_peer_close (Control.queue (Conn.control (conn s))) = true) ->
  (lock s = Some ByDriver -> lock s' = Some ByDriver \/ status s' <> SPLIT_OPEN) ->
  (Driver.peer_close (driver s') = true -> Driver.peer_close (driver s) = true \/ status s' <> SPLIT_OPEN) ->
  (control_close (Driver.pending_write (driver s')) = true -> control_close (Driver.pending_write (driver s)) = true \/ status s' <> SPLIT_OPEN) ->
  (forall m, timeout_message (Driver.pc (driver s')) = Some m -> Message.is_close m = true) -> order_inv s'.
Proof.
  intros [O1 O2 O3 O4 O5 O6 O7] (Hle & _) Ha Hm Hq Hl Hp Hc Ht. pose proof (not_open _ _ Hle) as Hn. split; rewrite ?Ha, ?Hm; auto.
  - intros Ho Hcl. destruct Hl as [|Hno]; [|done|done]. apply O2; [|done]. destruct (decide (status s = SPLIT_OPEN)); [done|by apply Hn in Ho].
  - by eapply app_order_le.
  - intros ?. destruct Hp; auto.
  - intros ?. destruct Hc; auto.
Qed.

(** A frame of the driver, which holds the sink. *)
Lemma order_driver_push s s' m : order_inv s -> app_holds (app s) = false -> app s' = app s -> messages s' = messages s ++ [m] -> conn s' = conn s ->
  lock s' = lock s -> Driver.peer_close (driver s') = Driver.peer_close (driver s) ->
  control_close (Driver.pending_write (driver s')) = control_close (Driver.pending_write (driver s)) ->
  timeout_message (Driver.pc (driver s')) = None \/ Driver.pc (driver s') = Driver.pc (driver s) -> is_data m = false ->
  (Message.is_close m = true -> status s <> SPLIT_OPEN \/ lock s = Some ByDriver) -> order_inv s'.
Proof.
  intros [O1 O2 O3 O4 O5 O6 O7] Ha Ha' Hm Hc Hl Hp Hcc Ht Hdata Hclose.
  assert (Hst : status s' = status s) by (unfold status, shared; by rewrite Hc).
  split; rewrite ?Ha', ?Hst, ?Hc, ?Hl, ?Hp, ?Hcc; auto.
  - by rewrite Hm, ordered_snoc, O1, Hdata, orb_true_r.
  - rewrite Hm, has_close_snoc. intros Ho [Hcl|Hcl]%orb_true_iff; [by apply O2|]. by destruct (Hclose Hcl).
  - by destruct (app s).
  - intros m'. destruct Ht as [-> | ->]; [done|apply O7].
Qed.

Ltac keep_order Ho Hadv :=
  eapply order_driver_intro; [exact Ho|exact Hadv|..]; cbn; rewrite_parts; auto; try (by intros; simplify_eq).

Lemma control_message_not_data f : is_data (SplitControlFrame.message f) = false.
Proof. by destruct f. Qed.

Lemma order_control a key p b s s' : base s -> order_inv s -> Driver.pc (driver s) = DSelect b -> Driver.pending_write (driver s) = Some p ->
  control_step sticky a key p s = To s' -> order_inv s'.
Proof.
  intros Hb Ho Hpc Hp Hs. pose proof (control_advances _ _ _ _ _ _ Hs) as Hadv. pose proof (control_lock s Hb) as Hlock. rewrite Hp in Hlock.
  pose proof (not_open _ _ (proj1 Hadv)) as Hn. pose proof (o_control _ Ho) as Oc. rewrite Hp in Oc.
  unfold control_step, control_done in Hs.
  step_cases; message_eqs;
    try (by keep_order Ho Hadv; rewrite ?Hp, ?Hpc; cbn; auto; try specialize (Hlock eq_refl); intros; simplify_eq).
  all: destruct (control_holds_alone s Hb ltac:(by rewrite Hp)) as [Ha _];
    match goal with Hm : messages _ = _ |- _ => eapply (order_driver_push s); [exact Ho|exact Ha| |exact Hm|..] end;
    cbn; rewrite_parts; rewrite ?Hp; try done; auto.
Qed.

Lemma order_driver b a key nonce s s' : base s -> order_inv s -> driver_step config sticky b a key nonce s = To s' -> order_inv s'.
Proof.
  intros Hb Ho Hs. pose proof (driver_advances _ _ _ _ _ _ _ _ Hb Hs) as Hadv. pose proof (not_open _ _ (proj1 Hadv)) as Hn.
  pose proof (o_timeout _ Ho) as Ot. pose proof (o_peer _ Ho) as Op. pose proof (o_queue _ Ho) as Oq. unfold driver_step in Hs.
  destruct (Driver.pc (driver s)) as [| |enabled|d l l'|code reason cause|m d c|m d c|w d c|[|act l]|] eqn:Hpc; try done.
  - unfold driver_top in Hs. destruct (sync_inbound_base s) as (hb' & n' & Hsy). rewrite Hsy in Hs. cbn in Hs.
    step_cases; keep_order Ho Hadv.
  - simplify_eq. keep_order Ho Hadv.
  - unfold driver_select in Hs. destruct b; try (destruct (suspended (Driver.pending_write (driver s))) eqn:Hsu; cbn in Hs; [|done]).
    + destruct (cancelled s); simplify_eq. keep_order Ho Hadv.
    + unfold driver_recv, driver_request in Hs. destruct (Control.queue (Conn.control (conn s))) as [|r q] eqn:Eq;
        step_cases; keep_order Ho Hadv; rewrite Eq; cbn; intros Hx; by rewrite ?Hx, ?orb_true_r.
    + unfold driver_close_timer in Hs. step_cases; keep_order Ho Hadv.
    + destruct enabled; [|done]. unfold driver_heartbeat in Hs. destruct (sync_inbound_base s) as (hb' & n' & Hsy). rewrite Hsy in Hs.
      step_cases; keep_order Ho Hadv.
    + destruct (Driver.pending_write (driver s)) as [p|] eqn:Ep; [|done].
      destruct p; try (by eapply order_control). unfold driver_written in Hs. step_cases; keep_order Ho Hadv.
  - step_cases; keep_order Ho Hadv.
  - step_cases; keep_order Ho Hadv.
  - step_cases; keep_order Ho Hadv.
  - step_cases; message_eqs; [|keep_order Ho Hadv]. destruct (driver_holds_alone s Hb ltac:(by rewrite Hpc)) as [Ha _].
    pose proof (driver_lock s Hb ltac:(by rewrite Hpc)) as Hl. specialize (Ot _ eq_refl).
    match goal with Hm : messages _ = _ |- _ => eapply (order_driver_push s); [exact Ho|exact Ha| |exact Hm|..] end;
      cbn; rewrite_parts; auto. by destruct m.
  - unfold timeout_write in Hs. step_cases; message_eqs; keep_order Ho Hadv.
  - simplify_eq. pose proof (b_phase _ Hb) as Hph. rewrite Hpc in Hph. apply andb_true_iff in Hph as [Hph%bool_decide_eq_true _].
    assert (Ho' : status s <> SPLIT_OPEN) by (pose proof (b_closed _ Hb Hph); unfold SPLIT_OPEN; lia).
    unfold driver_break in *. repeat case_match; keep_order Ho Hadv.
  - unfold driver_act in Hs. step_cases; keep_order Ho Hadv. intros _. right. pose proof (b_phase _ Hb) as Hph. rewrite Hpc in Hph. cbn in Hph.
    rewrite !andb_true_iff, bool_decide_eq_true in Hph. destruct Hph as [[[Hcl _] _] _]. pose proof (b_closed _ Hb Hcl). unfold status, SPLIT_OPEN in *. cbn. lia.
Qed.

Lemma order_step l s s' : inv s -> order_inv s -> step config sticky l s = To s' -> order_inv s'.
Proof.
  intros Hi Ho Hs. pose proof (step_advances _ _ _ _ _ Hi Hs) as Hadv. destruct Hi as [Hb Hr]. pose proof (not_open _ _ (proj1 Hadv)) as Hn.
  destruct l as [ms|m| |a key| | |b a key nonce|x|]; cbn in Hs.
  - case_match; simplify_eq. keep_order Ho Hadv. apply Ho.
  - destruct (app s) eqn:Ha; simplify_eq/=. by eapply order_app_intro; [exact Ho|apply Hadv|..].
  - destruct (app s) eqn:Ha; simplify_eq/=. by eapply order_app_intro; [exact Ho|apply Hadv|..].
  - by eapply order_app.
  - by eapply order_abort.
  - destruct (app s) eqn:Ha; simplify_eq/=. by eapply order_app_intro; [exact Ho|apply Hadv|..].
  - by eapply order_driver.
  - case_match; [done|]. destruct (reader_step x (conn s) (reader s)) as [| |[[c r] i]] eqn:Es; simplify_eq.
    destruct (reader_step_ok x _ _ _ _ _ (b_status _ Hb) Hr Es) as [[_ _ Hst _ _ Hq] _].
    destruct Ho as [O1 O2 O3 O4 O5 O6 O7].
    assert (Hn' : status s <> SPLIT_OPEN -> conn_status c <> SPLIT_OPEN) by (by destruct i).
    assert (Hq' : existsb is_peer_close (Control.queue (Conn.control c)) = true -> conn_status c <> SPLIT_OPEN).
    { destruct Hq as [->|(q & Hx & _ & -> & _ & Hpc)]; [by auto|]. cbn. rewrite Hx, existsb_app. cbn.
      intros [Hy|[Hy|Hy]%orb_true_iff]%orb_true_iff; [by auto| |done]. destruct q; try done. by eapply Hpc. }
    assert (Hop : conn_status c = SPLIT_OPEN -> status s = SPLIT_OPEN).
    { intros Hc. destruct (decide (status s = SPLIT_OPEN)) as [|Hne]; [done|]. by destruct (Hn' Hne). }
    destruct i; split; cbn; auto; try (by eapply app_order_le).
  - case_match; simplify_eq. keep_order Ho Hadv. apply Ho.
Qed.
End Steps.
