(* ===== verification/SplitSend.v ===== *)
(** * Split streams: what a successful send means

    The frames of the application are on the wire in the order of its calls; those whose [send] returned [Ok] are there whole, and at most
    one other is. *)

From stdpp Require Import base list option strings.
From S2P Require Import Prelude Error Mask Utf8 Frame Protocol Heartbeat Output Deflate Compressed Config WebSocket Split SplitReader SplitSpec SplitWire SplitOrder.
Import WebSocketStream (Item).

Definition by_app (w : Written) : bool := match w_by w with ByApp => true | _ => false end.
Definition app_frames (ws : list Written) : list Written := List.filter by_app ws.

(** The messages for which [send] has returned [Ok], in order. *)
Definition acked (l : list observation) : list Message.t :=
  omap (fun o => match o with Sent m (Ok _) => Some m | _ => None end) l.

(** The frames of the application: first those acknowledged, all of them whole, then the others. *)
Definition acks (ws : list Written) (sent extra : list Message.t) : Prop :=
  exists done rest, app_frames ws = done ++ rest /\ map w_message done = sent /\ Forall whole done /\ map w_message rest = extra.

(** The frame at the end is not yet whole, and more of it is out. *)
Definition moved (ws ws' : list Written) : Prop :=
  ws' = ws \/ exists ws1 w n, ws = ws1 ++ [w] /\ ~ whole w /\ ws' = ws1 ++ [MkWritten (w_by w) (w_message w) (w_frame w) (w_sent w + n)].

Lemma app_frames_app ws ws' : app_frames (ws ++ ws') = app_frames ws ++ app_frames ws'.
Proof. apply List.filter_app. Qed.

Lemma acks_moved ws ws' sent extra : acks ws sent extra -> moved ws ws' -> acks ws' sent extra.
Proof.
  intros (done & rest & Hf & Hd & Hw & Hr) [->|(ws1 & w & n & -> & Hn & ->)]; [by exists done, rest|].
  rewrite app_frames_app in Hf. unfold acks. rewrite app_frames_app.
  assert (Hb : by_app (MkWritten (w_by w) (w_message w) (w_frame w) (w_sent w + n)) = by_app w) by done.
  cbn in *. rewrite Hb. destruct (by_app w); [|by exists done, rest].
  destruct rest as [|w' rest _] using rev_ind.
  - rewrite app_nil_r in Hf. subst done. apply Forall_app in Hw as [_ Hw]. inversion Hw. done.
  - rewrite app_assoc in Hf. apply app_inj_tail in Hf as [Hf <-].
    exists done, (rest ++ [MkWritten (w_by w) (w_message w) (w_frame w) (w_sent w + n)]). rewrite app_assoc, Hf. split_and!; try done.
    rewrite <- Hr, !map_app. done.
Qed.

Lemma acks_push o m b ws sent extra : acks ws sent extra ->
  acks (ws ++ [MkWritten o m b 0]) sent (match o with ByApp => extra ++ [m] | _ => extra end).
Proof.
  intros (done & rest & Hf & Hd & Hw & Hr). unfold acks. rewrite app_frames_app, Hf.
  destruct o; cbn; rewrite ?app_nil_r; [|by exists done, rest..].
  exists done, (rest ++ [MkWritten ByApp m b 0]). rewrite app_assoc. split_and!; try done. by rewrite map_app, Hr.
Qed.

Lemma acks_done ws sent extra : acks ws sent extra -> Forall whole ws -> acks ws (sent ++ extra) [].
Proof.
  intros (done & rest & Hf & Hd & Hw & Hr) Hall. exists (done ++ rest), []. rewrite app_nil_r, map_app, Hd, Hr. split_and!; try done.
  rewrite <- Hf. unfold app_frames. rewrite List.Forall_forall in *. intros w [Hin _]%filter_In. by apply Hall.
Qed.

Lemma acks_undo ws sent m : acks ws (sent ++ [m]) [] -> acks ws sent [m].
Proof.
  intros (done & rest & Hf & Hd & Hw & Hr). apply map_eq_nil in Hr as ->. rewrite app_nil_r in Hf.
  destruct done as [|w done _] using rev_ind; [by destruct sent|]. rewrite map_app in Hd. cbn in Hd. apply app_inj_tail in Hd as [Hd <-].
  apply Forall_app in Hw as [Hw _]. by exists done, [w].
Qed.

(** What may be on the wire beyond the acknowledged frames: the frame of the [send] in progress, or one of a [send] that did not succeed, after which
    the status is no longer open. *)
Definition left_over (st : Z) (extra : list Message.t) : Prop := extra = [] \/ ((length extra <= 1)%nat /\ st <> SPLIT_OPEN).
(** A Close whose frame is out, while the driver has not been told. *)
Definition notifying (a : AppPc) : list Message.t := match a with ANotify m => [m] | _ => [] end.
Definition app_extra (a : AppPc) (st : Z) (extra : list Message.t) : Prop :=
  match a with
  | AStarted _ | AEncode _ _ => extra = []
  | ALock m | ARecheck m => extra = [] \/ (Message.is_close m = false /\ left_over st extra)
  | AWrite m _ _ => extra = [m]
  | ANotify m => extra = [] /\ st <> SPLIT_OPEN
  | AGuard _ _ _ => (length extra <= 1)%nat
  | _ => left_over st extra
  end.

Lemma left_over_le st st' extra : status_le st st' -> left_over st extra -> left_over st' extra.
Proof. unfold status_le, left_over, SPLIT_OPEN. intuition lia. Qed.
Lemma app_extra_le a st st' extra : status_le st st' -> app_extra a st extra -> app_extra a st' extra.
Proof.
  intros Hle. destruct a; cbn; try done; try (by apply left_over_le).
  - intros [?|[? ?]]; [by left|right]. split; [done|]. by eapply left_over_le.
  - intros [?|[? ?]]; [by left|right]. split; [done|]. by eapply left_over_le.
  - intros [? ?]. split; [done|]. unfold status_le, SPLIT_OPEN in *. lia.
Qed.

Section Send.
Context {E R : Type} `{SplitEncoder E} `{ReaderSpec R}.
Context (config : Config.t).
Abbreviation State := (State E R).
Implicit Types s : State.

Definition ack_inv s : Prop := exists extra, acks (wire s) (acked (log s) ++ notifying (app s)) extra /\ app_extra (app s) (status s) extra.

(** A frame that can take more bytes is not whole. *)
Lemma took_moved n rest d c s : frames_ok (wire s) (Some (WRun rest)) d c -> d = false -> (0 < n <= length rest)%nat ->
  moved (wire s) (wire (take_bytes n s)).
Proof.
  intros [(ws1 & w & Hw & _ & Hin & Hr)|[_ [?|[_ ?]]]] Hd Hn; [|congruence|done]. right. unfold take_bytes. rewrite Hw, last_snoc, removelast_last.
  exists ws1, w, n. split_and!; [done| |done]. unfold whole. intros Hwh. cbn in Hr. rewrite Hwh, drop_all in Hr. subst rest. cbn in Hn. lia.
Qed.

Lemma poll_stream_moved a rest d s s' r : poll_stream true a rest s = (s', r) -> frames_ok (wire s) (Some (WRun rest)) d (cancelled s) ->
  (broken s = false -> d = false) -> moved (wire s) (wire s').
Proof.
  intros E1 Hf Hd. pose proof (poll_stream_polled true a rest s) as Hp. rewrite E1 in Hp.
  inversion Hp as [|e|Hr|n Hb Hn]; subst; try (by left). eapply took_moved; [done|by apply Hd|done].
Qed.

Lemma poll_split_moved a rest d s s' r : poll_split true a rest s = (s', r) -> frames_ok (wire s) (Some (WRun rest)) d (cancelled s) ->
  (broken s = false -> Conn.transport (conn s) = TransportState.Open -> d = false) -> moved (wire s) (wire s').
Proof.
  intros E1 Hf Hd. unfold poll_split in E1. destruct (Conn.transport (conn s)) eqn:Et; simplify_eq/=; [|by left|by left].
  eapply poll_stream_moved; [done|done|auto].
Qed.

(** A step that leaves the application and the log alone. *)
Lemma ack_other s s' : ack_inv s -> status_le (status s) (status s') -> app s' = app s -> log s' = log s ->
  (moved (wire s) (wire s') \/ exists o m b, o <> ByApp /\ wire s' = wire s ++ [MkWritten o m b 0]) -> ack_inv s'.
Proof.
  intros (extra & Ha & He) Hle Happ Hlog Hw. exists extra. rewrite Happ, Hlog. split; [|by eapply app_extra_le].
  destruct Hw as [Hw|(o & m & b & Ho & ->)]; [by eapply acks_moved|]. pose proof (acks_push o m b _ _ _ Ha) as Hp. by destruct o.
Qed.

(** The driver's frames. *)
Lemma driver_wire b a key nonce s s' : base s -> frames_inv s -> driver_step config true b a key nonce s = To s' ->
  app s' = app s /\ log s' = log s /\
  (moved (wire s) (wire s') \/ exists o m bs, o <> ByApp /\ wire s' = wire s ++ [MkWritten o m bs 0]).
Proof.
  intros Hb Hf Hs. unfold driver_step in Hs.
  assert (Hm : forall ws : list Written, moved ws ws) by (by left).
  destruct (Driver.pc (driver s)) as [| |enabled|d l l'|code reason cause|m d c|m d c|w d c|[|act l]|] eqn:Hpc; try done.
  - unfold driver_top in Hs. destruct (sync_inbound_base s) as (hb' & n' & Hsy). rewrite Hsy in Hs. by step_cases; auto.
  - by simplify_eq; auto.
  - unfold driver_select in Hs. destruct b; try (destruct (suspended (Driver.pending_write (driver s))) eqn:Hsu; cbn in Hs; [|done]).
    + destruct (cancelled s); by simplify_eq; auto.
    + unfold driver_recv, driver_request in Hs. by step_cases; auto.
    + unfold driver_close_timer in Hs. by step_cases; auto.
    + destruct enabled; [|done]. unfold driver_heartbeat in Hs. destruct (sync_inbound_base s) as (hb' & n' & Hsy). rewrite Hsy in Hs.
      by step_cases; auto.
    + destruct (Driver.pending_write (driver s)) as [[f|f|f w|f ok]|] eqn:Ep; [| |destruct w as [rest|rest|rest]| |done]; cbn in Hs;
        unfold control_done, driver_written in Hs; try (by step_cases; auto).
      * destruct (cancelled s); simplify_eq; [by auto|]. destruct (encode_for _ _ _ s) as [| |[s1 [bs|]]] eqn:Ee; simplify_eq;
          apply encode_for_to in Ee as [k ->]; cbn; [|by auto]. split_and!; try done. right. by eexists ByControl, _, _.
      * destruct (control_view s f _ enabled Hb Hf Hpc Ep) as [_ Hv]. destruct (poll_split true a rest s) as [s1 r] eqn:Epo.
        pose proof (poll_split_base _ _ _ _ _ _ Epo) as (_ & _ & Ha1 & _ & _ & Hl1).
        eapply poll_split_moved in Epo; [|exact Hv|done]. by destruct r as [| |[]]; simplify_eq; auto.
  - by step_cases; auto.
  - by step_cases; auto.
  - by step_cases; auto.
  - destruct (encode_for _ _ _ s) as [| |[s1 [bs|]]] eqn:Ee; simplify_eq; apply encode_for_to in Ee as [k ->]; cbn; [|by auto].
    split_and!; try done. right. by eexists ByDriver, _, _.
  - unfold timeout_write in Hs. destruct w as [rest|rest|rest]; try (by step_cases; auto).
    destruct (timeout_view s _ d c Hb Hf Hpc) as (_ & _ & Hv). destruct (poll_stream true a rest s) as [s1 r] eqn:Epo.
    pose proof (poll_stream_base _ _ _ _ _ _ Epo) as (_ & _ & Ha1 & _ & _ & Hl1).
    eapply poll_stream_moved in Epo; [|exact Hv|done]. by destruct r as [| |[]]; simplify_eq; auto.
  - simplify_eq. unfold driver_break. by repeat case_match; auto.
  - unfold driver_act in Hs. by step_cases; auto.
Qed.

Lemma acked_snoc l o : acked (l ++ [o]) = acked l ++ match o with Sent m (Ok _) => [m] | _ => [] end.
Proof. unfold acked. rewrite omap_app. cbn. by destruct o as [m [|]| |]. Qed.

(** Steps of the application that do not write. *)
Lemma ack_app_intro s s' sent extra : acks (wire s) sent extra -> wire s' = wire s ->
  acked (log s') ++ notifying (app s') = sent -> app_extra (app s') (status s') extra -> ack_inv s'.
Proof. intros Ha Hw <- He. exists extra. by rewrite Hw. Qed.

Lemma left_over_one st extra : left_over st extra -> (length extra <= 1)%nat.
Proof. unfold left_over. intros [->|[? _]]; cbn; lia. Qed.

Lemma app_extra_length a st extra : app_extra a st extra -> (length extra <= 1)%nat.
Proof.
  destruct a; cbn; try apply left_over_one; intros Hx; try (by subst; cbn; lia); try done; try (destruct Hx as [-> _]; cbn; lia);
    destruct Hx as [->|[_ Hx]]; [cbn; lia|by eapply left_over_one|cbn; lia|by eapply left_over_one].
Qed.

Lemma poll_split_ok a rest s s' u : poll_split true a rest s = (s', WDone (Ok u)) ->
  rest = [] /\ s' = s /\ broken s = false /\ Conn.transport (conn s) = TransportState.Open.
Proof.
  unfold poll_split. destruct (Conn.transport (conn s)); [|done|done]. unfold poll_stream. cbn. destruct (broken s); [done|].
  destruct a; try done. case_bool_decide; [by intros [= <-]|]. by destruct (Nat.eqb _ _).
Qed.

Lemma ack_write a msg once w s s' : base s -> frames_inv s -> order_inv s -> ack_inv s -> app s = AWrite msg once w ->
  app_write true a msg once w s = To s' -> ack_inv s'.
Proof.
  intros Hb Hf Ho (extra & Ha & He) Happ Hs. destruct (app_view s msg once w Hf Happ) as [Hv Hd].
  pose proof (o_app _ Ho) as Hoa. rewrite Happ in Ha, He, Hoa. cbn in Ha, He, Hoa. subst extra. rewrite app_nil_r in Ha.
  assert (Hfail : forall s1 e, wire s1 = wire s -> log s1 = log s -> app s1 = AGuard msg true e -> ack_inv s1).
  { intros s1 e Hw Hl Ha1. eapply ack_app_intro; [exact Ha|done|rewrite Hl, Ha1; apply app_nil_r|]. rewrite Ha1. cbn. lia. }
  assert (Hgo : forall s1 w1, moved (wire s) (wire s1) -> log s1 = log s -> app s1 = AWrite msg once w1 -> ack_inv s1).
  { intros s1 w1 Hw Hl Ha1. exists [msg]. rewrite Hl, Ha1. cbn. rewrite app_nil_r. split; [by eapply acks_moved|done]. }
  unfold app_write in Hs. destruct w as [rest|rest|rest].
  - destruct (cancelled s); simplify_eq; [by eapply Hfail|]. by eapply Hgo; [left|..].
  - destruct (poll_split true a rest s) as [s1 r] eqn:Ep. pose proof (poll_split_base _ _ _ _ _ _ Ep) as (Hc1 & _ & Ha1 & _ & _ & Hl1).
    pose proof (poll_split_moved _ _ _ _ _ _ Ep Hv Hd) as Hmv. pose proof Ep as Ep'. eapply poll_split_frames in Ep; [|exact Hv|exact Hd].
    destruct r as [rest'| |[[]|e]]; cbn in Ep; simplify_eq.
    + by eapply Hgo.
    + destruct once; simplify_eq; [by eapply Hfail|by eapply Hgo].
    + apply poll_split_ok in Ep' as (-> & -> & Hbr & Htr). specialize (Hd Hbr Htr).
      assert (Hwh : Forall whole (wire s)).
      { rewrite Hd in Hv. destruct (frames_done _ false (cancelled s) false false Hv ltac:(done)) as [Hc|[_ [Hx|[Hx _]]]]; done. }
      pose proof (acks_done _ _ _ Ha Hwh) as Hdone. unfold app_sent.
      destruct once; [|destruct (Message.is_close msg) eqn:Em]; exists []; cbn; rewrite ?acked_snoc, ?app_nil_r; (split; [done|by left||auto]).
    + by eapply Hfail; [apply Ep|..].
  - destruct (cancelled s); simplify_eq; [by eapply Hfail|]. by eapply Hgo; [left|..].
Qed.

Lemma ack_app a key s s' : base s -> frames_inv s -> order_inv s -> ack_inv s -> app_step config true a key s = To s' -> ack_inv s'.
Proof.
  intros Hb Hf Ho Hk Hs. pose proof (app_advances _ _ _ _ _ _ Hb Hs) as (Hle & _). unfold app_step in Hs.
  destruct (app s) as [| |m|m|m|m|m|m|m once|m once w|m held e|m held e|m e|m p e|m| | |w|e|e|] eqn:Happ;
    try done; try (by eapply ack_write); destruct Hk as (extra & Ha & He); rewrite Happ in Ha, He; cbn in Ha, He;
    try rewrite app_nil_r in Ha; pose proof (left_over_le _ _ extra Hle) as Hlo;
    try (step_cases; (eapply ack_app_intro; [exact Ha|done|cbn; rewrite ?acked_snoc, ?app_nil_r; done|cbn; auto]); fail).
  - destruct (SplitShared.begin_local_closing (shared s)) as [sh ok] eqn:Eb. apply begin_closing_eq in Eb as (_ & _ & Hst). simplify_eq.
    eapply ack_app_intro; [exact Ha|done|destruct ok; apply app_nil_r|]. destruct ok; cbn; [|by apply Hlo].
    destruct Hst as [Hop _]. destruct He as [?|[_ He]]; [done|by destruct He].
  - assert (Hr : left_over (status s) extra) by (destruct He as [->|[_ He]]; [by left|done]).
    destruct (_ && _) eqn:Ec; simplify_eq; (eapply ack_app_intro; [exact Ha|done|apply app_nil_r|]); cbn; [by apply Hlo|].
    destruct He as [?|[Hm [?|[_ Hno]]]]; try done. rewrite Hm in Ec. cbn in Ec. destruct (Z.eqb_spec (status s) SPLIT_OPEN); done.
  - subst extra. destruct (cancelled s); simplify_eq; [eapply ack_app_intro; [exact Ha|done|apply app_nil_r|cbn; lia]|].
    destruct (encode_for ByApp m _ s) as [| |[s1 [b|]]] eqn:Ee; simplify_eq; apply encode_for_to in Ee as [k ->].
    + exists [m]. cbn. rewrite app_nil_r. split; [|done]. apply (acks_push ByApp m b _ _ _ Ha).
    + eapply ack_app_intro; [exact Ha|done|apply app_nil_r|cbn; lia].
  - simplify_eq. eapply ack_app_intro; [exact Ha|done|apply app_nil_r|]. cbn. right. split; [done|].
    pose proof (terminate_le TerminalCause.ConnectionClosed (shared s) (b_status _ Hb)) as (_ & Ht & _). unfold status, shared, SPLIT_OPEN in *. cbn. lia.
  - destruct He as [-> Hno]. step_cases; (eapply ack_app_intro; [exact Ha|done|cbn; rewrite acked_snoc; apply app_nil_r|by left]).
  - assert (Hw : wire s' = wire s /\ acked (log s') ++ notifying (app s') = acked (log s) /\
      app_extra (app s') (status s') extra = left_over (status s') extra).
    { destruct a; [..|by destruct (cancelled s); simplify_eq; cbn; rewrite app_nil_r]; destruct (poll_split true _ [] s) as [s1 r] eqn:Ep;
        pose proof (poll_split_base _ _ _ _ _ _ Ep) as (_ & _ & _ & _ & _ & Hl); apply poll_split_flush in Ep as [Hw _];
        destruct r as [| |[]]; simplify_eq; cbn; rewrite ?acked_snoc, ?app_nil_r, Hl; done. }
    destruct Hw as (Hw & Hl & Hx). eapply ack_app_intro; [exact Ha|done|done|]. rewrite Hx. by apply Hlo.
Qed.

Lemma ack_abort s s' : base s -> order_inv s -> ack_inv s -> app_abort s = To s' -> ack_inv s'.
Proof.
  intros Hb Ho (extra & Ha & He) Hs. pose proof (abort_advances _ _ Hs) as (Hle & _). unfold app_abort in Hs.
  pose proof (left_over_le _ _ extra Hle) as Hlo.
  destruct (app s) as [| |m|m|m|m|m|m|m once|m once w|m held e|m held e|m e|m p e|m| | |w|e|e|] eqn:Happ; simplify_eq; cbn in Ha, He;
    try rewrite app_nil_r in Ha.
  - eapply ack_app_intro; [exact Ha|done|apply app_nil_r|by apply Hlo].
  - eapply ack_app_intro; [exact Ha|done|apply app_nil_r|]. cbn. apply Hlo. destruct He as [->|[_ He]]; [by left|done].
  - destruct once; [done|]. destruct w; simplify_eq. eapply ack_app_intro; [exact Ha|done|apply app_nil_r|]. cbn. lia.
  - destruct He as [-> Hno]. apply acks_undo in Ha. eapply ack_app_intro; [exact Ha|done|apply app_nil_r|]. right. split; [cbn; lia|done].
  - eapply ack_app_intro; [exact Ha|done|apply app_nil_r|by apply Hlo].
  - destruct w; simplify_eq. eapply ack_app_intro; [exact Ha|done|apply app_nil_r|by apply Hlo].
Qed.

Lemma ack_step l s s' : inv s -> frames_inv s -> order_inv s -> ack_inv s -> step config true l s = To s' -> ack_inv s'.
Proof.
  intros Hi Hf Ho Hk Hs. pose proof (step_advances _ _ _ _ _ Hi Hs) as (Hle & _). destruct Hi as [Hb _].
  destruct l as [ms|m| |a key| | |b a key nonce|x|]; cbn in Hs.
  - case_match; simplify_eq. eapply ack_other; [exact Hk|exact Hle|done|done|by left; left].
  - destruct (app s) eqn:Ha; simplify_eq/=. destruct Hk as (extra & H1' & H2'). rewrite Ha in *. eapply ack_app_intro; done.
  - destruct (app s) eqn:Ha; simplify_eq/=. destruct Hk as (extra & H1' & H2'). rewrite Ha in *. eapply ack_app_intro; done.
  - by eapply ack_app.
  - by eapply ack_abort.
  - destruct (app s) eqn:Ha; simplify_eq/=. destruct Hk as (extra & H1' & H2'). rewrite Ha in *. eapply ack_app_intro; done.
  - destruct (driver_wire _ _ _ _ _ _ Hb Hf Hs) as (? & ? & ?). by eapply ack_other.
  - case_match; [done|]. destruct (reader_step x (conn s) (reader s)) as [| |[[c r] i]] eqn:Es; simplify_eq.
    destruct Hk as (extra & H1' & H2'). exists extra. split.
    + destruct i; cbn; rewrite ?acked_snoc, ?app_nil_r; done.
    + destruct i; by eapply app_extra_le.
  - case_match; simplify_eq. eapply ack_other; [exact Hk|exact Hle|done|done|by left; left].
Qed.
End Send.
