(* ===== verification/SplitReaderSpec.v ===== *)
(** * The reading handles of a split stream, as the other tasks see them

    Both handles keep to the interface of SplitSpec.v. *)

From stdpp Require Import base list option strings.
From S2P Require Import Prelude Error Mask Utf8 Frame Protocol Heartbeat Output Deflate Compressed Config WebSocket Split SplitReader SplitSpec.
Import WebSocketStream (Item).

(** ** Effects on what is shared *)

Lemma effect_none c : reader_effect c c.
Proof. split; auto with ws. Qed.

Lemma effect_shared f c : status_le (conn_status c) (SplitShared.status (f (Conn.shared c))) ->
  (SplitShared.status (f (Conn.shared c)) = SPLIT_LOCAL_CLOSING -> conn_status c = SPLIT_LOCAL_CLOSING) ->
  SplitShared.cancelled (f (Conn.shared c)) = SplitShared.cancelled (Conn.shared c) -> reader_effect c (Conn.on_shared f c).
Proof. intros Hle Hl Hc. split; try done. by left. Qed.

Lemma note_inbound_shared now sh : SplitShared.status (SplitShared.note_inbound now sh) = SplitShared.status sh /\
  SplitShared.cancelled (SplitShared.note_inbound now sh) = SplitShared.cancelled sh.
Proof. unfold SplitShared.note_inbound. by repeat case_match. Qed.

Lemma effect_note c : reader_effect c (note_inbound c).
Proof.
  destruct (note_inbound_shared (Conn.now c) (Conn.shared c)) as [Hs Hc]. apply effect_shared; rewrite ?Hs; auto with ws.
Qed.

Lemma effect_from_open v c : v = SPLIT_PEER_CLOSING \/ v = SPLIT_READ_ERROR_PENDING ->
  reader_effect c (Conn.on_shared (fun sh => fst (SplitShared.from_open v sh)) c).
Proof.
  unfold SPLIT_PEER_CLOSING, SPLIT_READ_ERROR_PENDING. intros Hv.
  destruct (from_open_le v (Conn.shared c) ltac:(lia)) as (Hle & Ho & Hn & Hc). apply effect_shared; [done| |done].
  unfold conn_status, SPLIT_LOCAL_CLOSING. destruct (decide (SplitShared.status (Conn.shared c) = 0)) as [E1|E1]; [rewrite Ho by done; lia|by rewrite Hn].
Qed.

Lemma effect_terminate cause c : status_ok (conn_status c) -> reader_effect c (Conn.terminate cause c).
Proof.
  intros Hok. destruct (terminate_le cause _ Hok) as (Hle & Hr & _). apply effect_shared; [done| |apply terminate_cancelled].
  unfold SPLIT_LOCAL_CLOSING. lia.
Qed.

Lemma effect_send q c c' : send_request q c = SendNow c' -> from_reader q ->
  (forall reason, q = ControlRequest.PeerClose reason -> conn_status c <> SPLIT_OPEN) -> reader_effect c c'.
Proof.
  unfold send_request. intros Hs Hq Hp. destruct (Control.rx_open (Conn.control c)) eqn:Ex; [|done]. cbn [negb] in Hs.
  destruct (Control.room (Conn.control c)) eqn:Er; simplify_eq. split; try done; [apply status_le_refl|]. right. by exists q.
Qed.

(** A request at hand is the reader's own, and a Close only when the status has moved. *)
Definition request_ok (c : Conn.t) (q : option ControlRequest.t) : Prop :=
  match q with
  | Some q => from_reader q /\ forall reason, q = ControlRequest.PeerClose reason -> conn_status c <> SPLIT_OPEN
  | None => True
  end.

Lemma request_ok_stable c c' q : status_le (conn_status c) (conn_status c') -> request_ok c q -> request_ok c' q.
Proof.
  destruct q as [q|]; [|done]. intros Hle [? Hp]. split; [done|]. intros reason Hq. specialize (Hp _ Hq). unfold status_le, SPLIT_OPEN in *. lia.
Qed.

Lemma request_for_ok c now m q : request_for now m = Some q -> request_ok c (Some q).
Proof. destruct m; cbn; intros; simplify_eq; by split. Qed.

Lemma begin_peer_closing_moves sh : SplitShared.status (fst (SplitShared.begin_peer_closing sh)) <> SPLIT_OPEN.
Proof.
  unfold SplitShared.begin_peer_closing, SplitShared.from_open. destruct (Z.eqb_spec (SplitShared.status sh) SPLIT_OPEN); [done|by cbn].
Qed.

#[export] Hint Resolve effect_none effect_note : ws.
Ltac reader_cases := repeat (case_match; simplify_eq/=).

Section Plain.
Context {SU : Simdutf8} (arch : Arch) (slice_addr : bytes -> Z).
Import SplitReader.

Lemma plain_effect l c r c' r' i : status_ok (conn_status c) -> request_ok c (pending_request r) ->
  next_step arch slice_addr l c r = To (c', r', i) -> reader_effect c c' /\ request_ok c' (pending_request r').
Proof.
  intros Hok Hq Hs.
  assert (Hdone : reader_effect c c' -> pending_request r' = pending_request r \/ pending_request r' = None -> reader_effect c c' /\ request_ok c' (pending_request r')).
  { intros He Hr. split; [done|]. destruct Hr as [-> | ->]; [|done]. by eapply request_ok_stable; [apply He|]. }
  unfold next_step, top, take_message, no_message, got, reserve, report_error, read_ready, after_read, end_of_input, return_, continue in Hs.
  destruct (pc r) as [| | |m| | | |x| | |e], l as [| |x'| |]; try done; cbn in Hs; simplify_eq;
    try (apply Hdone; [by auto with ws|by (left + right)]).
  - reader_cases; (apply Hdone; [by auto with ws|by (left + right)]).
  - reader_cases; (apply Hdone; [first [by auto with ws|by apply effect_from_open; right]|by (left + right)]).
  - destruct m as [b|b|b|b|reason]; simplify_eq; try (apply Hdone; [by auto with ws|by (left + right)]).
    + destruct (pending_request r) as [q|] eqn:Eq; simplify_eq/=; (split; [by auto with ws|]); [exact Hq|by split].
    + destruct (pending_request r) as [q|] eqn:Eq; simplify_eq/=; (split; [by auto with ws|]); [exact Hq|by split].
    + destruct (pending_request r) as [q|] eqn:Eq; simplify_eq/=; [split; [by auto with ws|exact Hq]|].
      split; [by apply effect_from_open; left|]. cbn. split; [done|]. intros _ _. apply begin_peer_closing_moves.
  - destruct (pending_request r) as [q|] eqn:Eq; [|done]. destruct Hq as [Hq1 Hq2].
    destruct (send_request q c) as [c1| |] eqn:Es; simplify_eq; [|by apply Hdone; [auto with ws|(left + right)]]. split; [by eapply effect_send|done].
  - destruct (send_request _ c) as [c1| |] eqn:Es; simplify_eq; [|by apply Hdone; [auto with ws|(left + right)]].
    apply Hdone; [by eapply effect_send|by left].
  - reader_cases; (apply Hdone; [by auto with ws|by (left + right)]).
  - destruct (_ && _); simplify_eq. (apply Hdone; [by auto with ws|by (left + right)]).
  - reader_cases; (apply Hdone; [by auto with ws|by (left + right)]).
  - destruct (send_request _ c) as [c1| |] eqn:Es; simplify_eq; [|by apply Hdone; [auto with ws|(left + right)]].
    apply Hdone; [by eapply effect_send|by left].
  - apply Hdone; [by apply effect_terminate|by left].
  - apply Hdone; [by apply effect_terminate|by left].
Qed.

#[export] Instance plain_reader_spec : @ReaderSpec SplitReader.t (split_reader arch slice_addr) := {
  reader_ok c r := request_ok c (pending_request r);
  reader_ok_stable c c' r := request_ok_stable c c' (pending_request r);
  reader_step_ok := plain_effect
}.
End Plain.

Section Deflated.
Context {E D : Type} `{Codec E D} {SU : Simdutf8} (arch : Arch) (slice_addr : bytes -> Z).
Import CompressedSplitReader.

Lemma compressed_effect l c (r : CompressedSplitReader.t D) c' r' i : status_ok (conn_status c) -> request_ok c (pending_request r) ->
  next_step arch slice_addr l c r = To (c', r', i) -> reader_effect c c' /\ request_ok c' (pending_request r').
Proof.
  intros Hok Hq Hs.
  assert (Hdone : reader_effect c c' -> pending_request r' = pending_request r \/ pending_request r' = None -> reader_effect c c' /\ request_ok c' (pending_request r')).
  { intros He Hr. split; [done|]. destruct Hr as [-> | ->]; [|done]. by eapply request_ok_stable; [apply He|]. }
  unfold next_step, top, take_message, got, reserve, report_error, read_ready, after_read, end_of_input, process, return_, continue in Hs.
  destruct (pc r) as [| | |m| | | |x| | |e], l as [| |x'| |]; try done; cbn -[CompressedReader.process_into_with_activity] in Hs; simplify_eq;
    try (apply Hdone; [by auto with ws|by (left + right)]).
  - reader_cases; (apply Hdone; [by auto with ws|by (left + right)]).
  - reader_cases; (apply Hdone; [first [by auto with ws|by apply effect_from_open; right]|by (left + right)]).
  - destruct m as [b|b|b|b|reason]; simplify_eq; try (apply Hdone; [by auto with ws|by (left + right)]).
    + destruct (pending_request r) as [q|] eqn:Eq; simplify_eq/=; (split; [by auto with ws|]); [exact Hq|by split].
    + destruct (pending_request r) as [q|] eqn:Eq; simplify_eq/=; (split; [by auto with ws|]); [exact Hq|by split].
    + destruct (pending_request r) as [q|] eqn:Eq; simplify_eq/=; [split; [by auto with ws|exact Hq]|].
      split; [by apply effect_from_open; left|]. cbn. split; [done|]. intros _ _. apply begin_peer_closing_moves.
  - destruct (pending_request r) as [q|] eqn:Eq; [|done]. destruct Hq as [Hq1 Hq2].
    destruct (send_request q c) as [c1| |] eqn:Es; simplify_eq; [|by apply Hdone; [auto with ws|(left + right)]]. split; [by eapply effect_send|done].
  - destruct (send_request _ c) as [c1| |] eqn:Es; simplify_eq; [|by apply Hdone; [auto with ws|(left + right)]].
    apply Hdone; [by eapply effect_send|by left].
  - reader_cases; (apply Hdone; [by auto with ws|by (left + right)]).
  - destruct (_ && _); simplify_eq. (apply Hdone; [by auto with ws|by (left + right)]).
  - reader_cases; (apply Hdone; [first [by auto with ws|by apply effect_from_open; right]|by (left + right)]).
  - destruct (send_request _ c) as [c1| |] eqn:Es; simplify_eq; [|by apply Hdone; [auto with ws|(left + right)]].
    apply Hdone; [by eapply effect_send|by left].
  - apply Hdone; [by apply effect_terminate|by left].
  - apply Hdone; [by apply effect_terminate|by left].
Qed.

#[export] Instance compressed_reader_spec : @ReaderSpec (CompressedSplitReader.t D) (compressed_split_reader arch slice_addr) := {
  reader_ok c r := request_ok c (pending_request r);
  reader_ok_stable c c' r := request_ok_stable c c' (pending_request r);
  reader_step_ok := compressed_effect
}.
End Deflated.
