(* ===== verification/SplitProps.v ===== *)
(** * Split streams: theorems

    For every interleaving of the application, the driver and the reader, every answer of the transport and every dropped future. *)

From stdpp Require Import base list option strings.
From S2P Require Import Prelude Error Mask Utf8 Frame Protocol Heartbeat Output Deflate Compressed Config WebSocket.
From S2P Require Import Split SplitReader SplitSpec SplitWire SplitOrder SplitSend SplitReaderSpec.
Import WebSocketStream (Item).

Section Reachable.
Context {E R : Type} `{SplitEncoder E} `{ReaderSpec R}.
Context (config : Config.t).
Abbreviation State := (State E R).
Implicit Types s : State.

(** A state that [split] makes: from the state of the unified stream, whether activity is tracked and the parse error. *)
Definition fresh_split (st : StreamState.t) (tracks : bool) (err : option Error) (e : E) (r : R) : State :=
  split_state (split_conn st tracks err) e config r.

Section Fresh.
Context (st : StreamState.t) (tracks : bool) (err : option Error) (e : E) (r : R).
Abbreviation s0 := (fresh_split st tracks err e r).
Context (Hr : reader_ok (split_conn st tracks err) r).

Lemma fresh_status : status s0 = SPLIT_OPEN \/ status s0 = SPLIT_READ_ERROR_PENDING \/ status s0 = SPLIT_CLOSED.
Proof. clear Hr. unfold status, shared, fresh_split, split_state, split_conn. destruct st, err; cbn; auto. Qed.

Lemma fresh_inv : inv s0.
Proof.
  split; [|done]. pose proof fresh_status as Hs. split; cbn; try done.
  - unfold status_ok, SPLIT_OPEN, SPLIT_READ_ERROR_PENDING, SPLIT_CLOSED in *. cbn in *. lia.
  - by left.
  - unfold SPLIT_CONTROL_CAPACITY. lia.
Qed.

Lemma fresh_frames : frames_inv s0.
Proof. left. constructor. Qed.
Lemma fresh_order : order_inv s0.
Proof. by split. Qed.
Lemma fresh_ack : ack_inv s0.
Proof. exists []. split; [by exists [], []|by left]. Qed.

Lemma reach_base sticky s : reach config sticky s0 s -> inv s.
Proof. apply reach_inv; [apply fresh_inv|]. intros; by eapply inv_step. Qed.

Lemma reach_order sticky s : reach config sticky s0 s -> inv s /\ order_inv s.
Proof.
  apply (reach_inv config sticky s0 (fun s => inv s /\ order_inv s)); [split; [apply fresh_inv|apply fresh_order]|]. intros ? ? ? [? ?] ?. split; [by eapply inv_step|by eapply order_step].
Qed.

Lemma reach_all s : reach config true s0 s -> inv s /\ frames_inv s /\ order_inv s /\ ack_inv s.
Proof.
  apply (reach_inv config true s0 (fun s => inv s /\ frames_inv s /\ order_inv s /\ ack_inv s)); [split_and!; [apply fresh_inv|apply fresh_frames|apply fresh_order|apply fresh_ack]|].
  intros ? ? ? (? & ? & ? & ?) ?. split_and!; [by eapply inv_step|by eapply frames_step|by eapply order_step|by eapply ack_step].
Qed.
End Fresh.

(** ** Frames *)

(** The bytes the transport has taken. *)
Definition wire_bytes (ws : list Written) : bytes := concat (map (fun w => take (w_sent w) (w_frame w)) ws).

Lemma whole_bytes ws : Forall whole ws -> wire_bytes ws = concat (map w_frame ws).
Proof. unfold wire_bytes. induction 1 as [|w ws Hw _ IH]; [done|]. cbn. by rewrite IH, Hw, firstn_all. Qed.
Lemma unsent_bytes ws : Forall unsent ws -> wire_bytes ws = [].
Proof. unfold wire_bytes. induction 1 as [|w ws Hw _ IH]; [done|]. cbn. by rewrite IH, Hw. Qed.
Lemma wire_bytes_app ws ws' : wire_bytes (ws ++ ws') = wire_bytes ws ++ wire_bytes ws'.
Proof. unfold wire_bytes. by rewrite map_app, concat_app. Qed.

Lemma frames_shape ws wr d c : frames_ok ws wr d c -> cut_short ws \/ Forall whole ws.
Proof.
  intros [Hc|[Ht _]]; [|by left]. destruct wr as [st|]; [left|by right].
  destruct Hc as (ws1 & w & -> & Hw & Hin & _). by exists ws1, w, [].
Qed.

(** ** Panics and deadlines *)

Definition closing_write (p : option ControlWrite) : bool :=
  match p with Some (PDone (SplitControlFrame.Close _) true) => true | _ => control_close p end.

(** A driver that has to end the connection has a deadline for it, unless the status is already terminal. *)
Record deadline_inv s : Prop := {
  d_peer : Driver.peer_close (driver s) = true -> Driver.closing_deadline (driver s) = None -> status s = SPLIT_LOCAL_CLOSING \/ 4 <= status s;
  d_control : closing_write (Driver.pending_write (driver s)) = true -> Driver.closing_deadline (driver s) = None -> 4 <= status s;
  d_sent : Driver.local_close_sent (driver s) = true -> Driver.closing_deadline (driver s) = None -> 4 <= status s;
  d_error : Driver.read_error (driver s) = true -> Driver.closing_deadline (driver s) <> None
}.

Lemma deadline_keep s s' : deadline_inv s -> status_le (status s) (status s') -> driver s' = driver s -> deadline_inv s'.
Proof.
  intros [D1 D2 D3 D4] Hle Hd. split; unfold status_le, SPLIT_LOCAL_CLOSING in *; rewrite Hd; [intros Ha Hb; destruct (D1 Ha Hb)|intros Ha Hb; specialize (D2 Ha Hb)|intros Ha Hb; specialize (D3 Ha Hb)|done]; lia.
Qed.

Lemma app_driver a key s s' sticky : app_step config sticky a key s = To s' -> driver s' = driver s.
Proof.
  unfold app_step, app_write, app_sent. intros Hs. step_cases; same_base_eqs; cbn; by rewrite_parts.
Qed.

Lemma deadline_intro s s' : deadline_inv s -> status_le (status s) (status s') ->
  (Driver.closing_deadline (driver s') = None -> Driver.closing_deadline (driver s) = None) ->
  (Driver.peer_close (driver s') = true -> Driver.closing_deadline (driver s') = None ->
     Driver.peer_close (driver s) = true \/ status s' = SPLIT_LOCAL_CLOSING) ->
  (closing_write (Driver.pending_write (driver s')) = true -> Driver.closing_deadline (driver s') = None ->
     closing_write (Driver.pending_write (driver s)) = true \/ 4 <= status s') ->
  (Driver.local_close_sent (driver s') = true -> Driver.closing_deadline (driver s') = None ->
     Driver.local_close_sent (driver s) = true \/ closing_write (Driver.pending_write (driver s)) = true) ->
  (Driver.read_error (driver s') = true -> Driver.closing_deadline (driver s') = None -> Driver.read_error (driver s) = true) -> deadline_inv s'.
Proof.
  intros [D1 D2 D3 D4] Hle Hc Hp Hw Hl He. unfold status_le, SPLIT_LOCAL_CLOSING in *. split.
  - intros Ha Hn. destruct (Hp Ha Hn) as [Hx|Hx]; [|by left]. destruct (D1 Hx (Hc Hn)); unfold SPLIT_LOCAL_CLOSING; lia.
  - intros Ha Hn. destruct (Hw Ha Hn) as [Hx|Hx]; [|done]. specialize (D2 Hx (Hc Hn)). lia.
  - intros Ha Hn. destruct (Hl Ha Hn) as [Hx|Hx]; [specialize (D3 Hx (Hc Hn))|specialize (D2 Hx (Hc Hn))]; lia.
  - intros Ha Hn. by apply (D4 (He Ha Hn)), Hc.
Qed.

Ltac keep_deadline Hd Hle := eapply deadline_intro; [exact Hd|exact Hle|..]; cbn; rewrite_parts; cbn; auto; try (by intros; simplify_eq).

Lemma closing_write_control p : control_holds p = true -> closing_write p = control_close p.
Proof. by destruct p as [[]|]. Qed.

Lemma deadline_control sticky a key p b s s' : base s -> deadline_inv s -> Driver.pc (driver s) = DSelect b -> Driver.pending_write (driver s) = Some p ->
  control_step sticky a key p s = To s' -> deadline_inv s'.
Proof.
  intros Hb Hd Hpc Hp Hs. pose proof (control_advances _ _ _ _ _ _ Hs) as (Hle & _). unfold control_step, control_done in Hs.
  step_cases; same_base_eqs; keep_deadline Hd Hle; rewrite Hp; auto; by destruct frame; auto.
Qed.

Lemma deadline_driver sticky b a key nonce s s' : base s -> deadline_inv s -> driver_step config sticky b a key nonce s = To s' -> deadline_inv s'.
Proof.
  intros Hb Hd Hs. pose proof (driver_advances _ _ _ _ _ _ _ _ Hb Hs) as (Hle & _). unfold driver_step in Hs.
  destruct (Driver.pc (driver s)) as [| |enabled|d l l'|code reason cause|m d c|m d c|w d c|[|act l]|] eqn:Hpc; try done.
  - pose proof (d_peer _ Hd) as D1. unfold driver_top in Hs. destruct (sync_inbound_base s) as (hb' & n' & Hsy). rewrite Hsy in Hs. cbn in Hs.
    step_cases; keep_deadline Hd Hle. intros _ Hn. right.
    match goal with E1 : negb _ = true |- _ => apply negb_true_iff, Z.eqb_neq in E1; by destruct (D1 eq_refl Hn) end.
  - simplify_eq. keep_deadline Hd Hle.
  - unfold driver_select in Hs. destruct b; try (destruct (suspended (Driver.pending_write (driver s))) eqn:Hsu; cbn in Hs; [|done]).
    + destruct (cancelled s); simplify_eq. keep_deadline Hd Hle.
    + unfold driver_recv, driver_request in Hs. step_cases; keep_deadline Hd Hle. intros _ _. right.
      match goal with E1 : negb _ = false |- _ => apply negb_false_iff, Z.eqb_eq in E1; done end.
    + unfold driver_close_timer in Hs. step_cases; keep_deadline Hd Hle.
    + destruct enabled; [|done]. unfold driver_heartbeat in Hs. destruct (sync_inbound_base s) as (hb' & n' & Hsy). rewrite Hsy in Hs.
      step_cases; keep_deadline Hd Hle.
    + destruct (Driver.pending_write (driver s)) as [p|] eqn:Ep; [|done].
      destruct p; try (by eapply deadline_control). unfold driver_written in Hs. step_cases; keep_deadline Hd Hle. destruct ok; [|done]. rewrite Ep. auto.
  - step_cases; keep_deadline Hd Hle.
  - step_cases; keep_deadline Hd Hle.
  - step_cases; keep_deadline Hd Hle.
  - step_cases; same_base_eqs; keep_deadline Hd Hle.
  - unfold timeout_write in Hs. step_cases; same_base_eqs; keep_deadline Hd Hle.
  - simplify_eq. unfold driver_break in *. repeat case_match; keep_deadline Hd Hle.
  - unfold driver_act in Hs. step_cases; keep_deadline Hd Hle.
Qed.

Lemma deadline_step sticky l s s' : inv s -> deadline_inv s -> step config sticky l s = To s' -> deadline_inv s'.
Proof.
  intros Hi Hd Hs. pose proof (step_advances _ _ _ _ _ Hi Hs) as (Hle & _). destruct Hi as [Hb _].
  destruct l as [ms|m| |a key| | |b a key nonce|x|]; cbn in Hs; try (by eapply deadline_driver);
    (eapply deadline_keep; [exact Hd|exact Hle|]).
  - by case_match; simplify_eq.
  - by case_match; simplify_eq.
  - by case_match; simplify_eq.
  - by eapply app_driver.
  - unfold app_abort in Hs. by step_cases.
  - by case_match; simplify_eq.
  - destruct (reader_dropped s); [done|]. destruct (reader_step x (conn s) (reader s)) as [| |[[c r] i]]; simplify_eq. by destruct i.
  - by case_match; simplify_eq.
Qed.

(** The one panic of the driver: the connection was terminated while the driver did not know of a local Close. *)
Definition lost_deadline s : Prop :=
  Driver.pc (driver s) = DTop /\ Driver.peer_close (driver s) = true /\ Driver.local_close_sent (driver s) = true /\
  Driver.closing_deadline (driver s) = None /\ 4 <= status s.

Context {Enc : EncoderSpec E}.

Lemma encode_total o m enc s : finished (enc (SplitSink.encoder (sink s)) []) -> encode_for o m enc s <> Panicked.
Proof.
  unfold encode_for, SplitSink.encode_frame. intros Hf. destruct (enc _ []) as [[e' b] [u|er]| |]; done.
Qed.

Lemma app_no_panic sticky a key s : app_step config sticky a key s <> Panicked.
Proof.
  intros Hs. unfold app_step, app_write, app_sent in Hs. step_cases.
  eapply encode_total; [|done]. apply encode_message_total.
Qed.

Lemma control_no_panic sticky a key p s : control_step sticky a key p s <> Panicked.
Proof.
  intros Hs. unfold control_step, control_done in Hs. step_cases. eapply encode_total; [|done].
  destruct frame; cbn; auto using encode_message_total, encode_close_total.
Qed.

Lemma driver_panic sticky b a key nonce s : base s -> deadline_inv s -> driver_step config sticky b a key nonce s = Panicked -> lost_deadline s.
Proof.
  intros Hb Hd Hs. pose proof (b_phase _ Hb) as Hph. unfold driver_step in Hs.
  destruct (Driver.pc (driver s)) as [| |enabled|d l l'|code reason cause|m d c|m d c|w d c|[|act l]|] eqn:Hpc; try done.
  - unfold driver_top in Hs. destruct (sync_inbound_base s) as (hb' & n' & Hsy). rewrite Hsy in Hs. cbn in Hs. destruct Hd as [_ _ D3 D4].
    step_cases; [by destruct D4|]. split_and!; auto.
  - unfold driver_select in Hs. destruct b; try (destruct (suspended _); cbn in Hs; [|done]).
    + by step_cases.
    + unfold driver_recv in Hs. by step_cases.
    + unfold driver_close_timer in Hs. by step_cases.
    + unfold driver_heartbeat in Hs. by step_cases.
    + destruct (Driver.pending_write (driver s)) as [p|]; [|done]. destruct p; try done; by edestruct control_no_panic.
  - by step_cases.
  - by step_cases.
  - apply bool_decide_eq_true in Hph. by rewrite Hph in Hs.
  - step_cases. edestruct encode_total; [|done]. apply encode_message_total.
  - unfold timeout_write in Hs. by step_cases.
  - unfold driver_act in Hs. cbn in Hph. rewrite !andb_true_iff in Hph.
    destruct act; try done; cbn in Hph; rewrite !andb_true_iff, bool_decide_eq_true in Hph; destruct Hph as [[Ht _] _]; by rewrite Ht in Hs.
Qed.

(** *** The driver ends on its own *)

(** Steps of the driver in which the transport is never ready, and of the clock. *)
Definition on_its_own (l : label) : Prop :=
  match l with LTick _ => True | LDriver _ (NotReady | Interrupt) _ _ => True | _ => False end.

(** From [s] the driver reaches its end, or the panic, without the application, the reader and the transport. *)
Definition ends_alone sticky s : Prop :=
  exists ls s', Forall on_its_own ls /\ steps config sticky ls s = To s' /\ (Driver.pc (driver s') = DEnd \/ lost_deadline s').

Lemma ends_step sticky l s s' : on_its_own l -> step config sticky l s = To s' -> ends_alone sticky s' -> ends_alone sticky s.
Proof.
  intros Hl Hs (ls & s2 & Hls & Hst & Hend). exists (l :: ls), s2. split; [by constructor|]. cbn. by rewrite Hs.
Qed.

Section Alone.
Context (sticky : bool).
Abbreviation ends := (ends_alone sticky).
Abbreviation drive b a := (LDriver b a [] 0).

Lemma ends_acts l : forall s, base s -> Driver.pc (driver s) = DActs l -> ends s.
Proof.
  induction l as [|act l IH]; intros s Hb Hpc.
  - exists [drive BWrite NotReady], (driver_break s). split; [by repeat constructor|]. cbn. unfold driver_step. rewrite Hpc. split; [done|by left].
  - assert (Hs : exists s', driver_act act l s = To s' /\ Driver.pc (driver s') = DActs l).
    { pose proof (b_phase _ Hb) as Hph. rewrite Hpc in Hph. cbn in Hph. rewrite !andb_true_iff in Hph.
      destruct act; cbn in Hph; rewrite ?andb_true_iff, ?bool_decide_eq_true in Hph; cbn; try (by eexists);
        destruct Hph as [[Ht _] _]; rewrite Ht; by eexists. }
    destruct Hs as (s' & Hs & Hpc'). eapply (ends_step sticky (drive BWrite NotReady) s s'); [done|cbn; unfold driver_step; by rewrite Hpc|].
    apply IH; [|done]. by eapply base_act.
Qed.

(** Time passes until a deadline. *)
Lemma ends_tick d s : base s -> (forall s', base s' -> driver s' = driver s -> lock s' = lock s -> status s' = status s -> cancelled s' = cancelled s ->
  d <= Conn.now (conn s') -> ends s') -> ends s.
Proof.
  intros Hb Hend. set (ms := Z.max 0 (d - Conn.now (conn s))).
  eapply (ends_step sticky (LTick ms) s (on_conn (fun c => Conn.set_now (Conn.now c + ms) c) s)); [done| |].
  - cbn. by destruct (Z.leb_spec 0 ms); [|lia].
  - apply Hend; try done; [|cbn; lia]. destruct Hb as [B1 B2 B3 B4 B5 B6 B7 B8]. by split.
Qed.

(** The driver at its [select!], between polls of the pending write, cancelled or with a deadline. *)
Definition leaving s : Prop := cancelled s = true \/ Driver.closing_deadline (driver s) <> None.

Lemma ends_select_suspended s b : base s -> Driver.pc (driver s) = DSelect b -> suspended (Driver.pending_write (driver s)) = true -> leaving s -> ends s.
Proof.
  intros Hb Hpc Hsu [Hc|Hd].
  - set (s' := goto (DActs [BeginClose; FinishClose TerminalCause.ConnectionClosed]) s).
    assert (Hs : driver_step config sticky BCancelled NotReady [] 0 s = To s') by (unfold driver_step, driver_select; by rewrite Hpc, Hsu, Hc).
    eapply (ends_step sticky (drive BCancelled NotReady)); [done|exact Hs|]. eapply ends_acts; [|done]. by eapply base_driver.
  - destruct (Driver.closing_deadline (driver s)) as [d|] eqn:Ed; [|done]. apply (ends_tick d); [done|].
    intros s1 Hb1 Hd1 Hl1 _ _ Hnow. rewrite <- Hd1 in *.
    assert (Hs : exists s', driver_step config sticky BCloseTimer NotReady [] 0 s1 = To s' /\ exists l, Driver.pc (driver s') = DActs l).
    { unfold driver_step, driver_select. rewrite Hpc, Hsu. cbn. unfold driver_close_timer. rewrite Ed.
      destruct (Z.leb_spec d (Conn.now (conn s1))); [|lia]. destruct (lock s1); eexists; (split; [done|by eexists]). }
    destruct Hs as (s' & Hs & l & Hl). eapply (ends_step sticky (drive BCloseTimer NotReady)); [done|exact Hs|].
    eapply ends_acts; [|done]. by eapply base_driver.
Qed.

(** A step of the driver, and what is left after it. *)
Lemma ends_drive b a s s' : a = NotReady \/ a = Interrupt -> base s -> deadline_inv s -> driver_step config sticky b a [] 0 s = To s' ->
  (base s' -> deadline_inv s' -> ends s') -> ends s.
Proof.
  intros Ha Hb Hd Hs Hend. eapply (ends_step sticky (drive b a)); [by destruct Ha; subst|exact Hs|].
  apply Hend; [by eapply base_driver|by eapply deadline_driver].
Qed.

Lemma ends_lock_until s d l l' : base s -> deadline_inv s -> Driver.pc (driver s) = DLockUntil d l l' -> ends s.
Proof.
  intros Hb Hd Hpc. apply (ends_tick d); [done|]. intros s1 Hb1 Hd1 _ Hst _ Hnow.
  assert (Hdl : deadline_inv s1) by (eapply deadline_keep; [exact Hd|rewrite Hst; auto with ws|done]).
  eapply (ends_drive BWrite Interrupt s1); [by right|done|done| |].
  - unfold driver_step. rewrite Hd1, Hpc. destruct (Z.leb_spec d (Conn.now (conn s1))); [done|lia].
  - intros Hb2 _. by eapply ends_acts.
Qed.

Lemma ends_arm s : base s -> deadline_inv s -> Driver.pc (driver s) = DArm -> leaving s -> ends s.
Proof.
  intros Hb Hd Hpc Hl. destruct (b_select _ Hb) as [Hsu|[b Hx]]; [|by rewrite Hpc in Hx].
  eapply (ends_drive BWrite NotReady); [by left|done|done|unfold driver_step; by rewrite Hpc|]. intros Hb2 _. by eapply ends_select_suspended.
Qed.

Lemma ends_top s : base s -> deadline_inv s -> Driver.pc (driver s) = DTop -> leaving s -> ends s.
Proof.
  intros Hb Hd Hpc Hl. destruct (driver_step config sticky BWrite NotReady [] 0 s) as [| |s'] eqn:Hs.
  - exfalso. unfold driver_step, driver_top in Hs. rewrite Hpc in Hs. by step_cases.
  - exists [], s. split; [done|]. split; [done|]. right. by eapply driver_panic.
  - pose proof (driver_advances _ _ _ _ _ _ _ _ Hb Hs) as (_ & Hc & _). eapply (ends_drive BWrite NotReady); [by left|done|done|exact Hs|].
    intros Hb' Hd'. unfold driver_step, driver_top in Hs. rewrite Hpc in Hs. destruct (sync_inbound_base s) as (hb' & n' & Hsy). rewrite Hsy in Hs.
    cbn in Hs. step_cases; first [by eapply ends_lock_until|eapply ends_arm; [done|done|done|]]; (destruct Hl as [Hl|Hl]; [left; by apply Hc|by right]).
Qed.

(** The pending write is brought to an end or to where it waits. *)
Lemma ends_pdone s b f ok : base s -> deadline_inv s -> Driver.pc (driver s) = DSelect b -> Driver.pending_write (driver s) = Some (PDone f ok) ->
  leaving s -> ends s.
Proof.
  intros Hb Hd Hpc Hp Hl. eapply (ends_drive BWrite NotReady); [by left|done|done|unfold driver_step, driver_select; by rewrite Hpc, Hp|].
  intros Hb' Hd'. unfold driver_written in *. destruct ok; [|by eapply ends_acts].
  destruct f; (eapply ends_top; [done|done|done|]); (destruct Hl; [by left|by right]).
Qed.

Lemma ends_wwait s b f rest : base s -> deadline_inv s -> Driver.pc (driver s) = DSelect b ->
  Driver.pending_write (driver s) = Some (PWrite f (WRun rest)) -> leaving s -> ends s.
Proof.
  intros Hb Hd Hpc Hp Hl. pose proof (b_phase _ Hb) as Hph. rewrite Hpc in Hph. apply bool_decide_eq_true in Hph.
  assert (Hs : driver_step config sticky BWrite NotReady [] 0 s = control_step sticky NotReady [] (PWrite f (WRun rest)) s)
    by (unfold driver_step, driver_select; by rewrite Hpc, Hp).
  cbn in Hs. unfold poll_split, poll_stream in Hs. rewrite Hph in Hs. destruct (sticky && broken s);
    (eapply (ends_drive BWrite NotReady); [by left|done|done|exact Hs|]; intros Hb' Hd').
  - eapply ends_pdone; [done|done|exact Hpc|done|]. destruct Hl; [by left|by right].
  - eapply ends_select_suspended; [done|exact Hpc|done|]. destruct Hl; [by left|by right].
Qed.

Lemma ends_wstart s b f rest : base s -> deadline_inv s -> Driver.pc (driver s) = DSelect b ->
  Driver.pending_write (driver s) = Some (PWrite f (WStart rest)) -> leaving s -> ends s.
Proof.
  intros Hb Hd Hpc Hp Hl.
  assert (Hs : driver_step config sticky BWrite NotReady [] 0 s = control_step sticky NotReady [] (PWrite f (WStart rest)) s)
    by (unfold driver_step, driver_select; by rewrite Hpc, Hp).
  cbn in Hs. destruct (cancelled s) eqn:Ec; (eapply (ends_drive BWrite NotReady); [by left|done|done|exact Hs|]; intros Hb' Hd').
  - eapply ends_pdone; [done|done|exact Hpc|done|]. by left.
  - eapply ends_wwait; [done|done|exact Hpc|done|]. destruct Hl as [Hl|Hl]; [by rewrite Ec in Hl|by right].
Qed.

Lemma ends_select s b : base s -> deadline_inv s -> Driver.pc (driver s) = DSelect b -> leaving s -> ends s.
Proof.
  intros Hb Hd Hpc Hl. destruct (Driver.pending_write (driver s)) as [[f|f|f [rest|rest|rest]|f ok]|] eqn:Ep;
    try (by eapply ends_select_suspended; [..|rewrite Ep|]); [|by eapply ends_wstart|by eapply ends_wwait|by eapply ends_pdone].
  assert (Hs : driver_step config sticky BWrite NotReady [] 0 s = control_step sticky NotReady [] (PLocked f) s)
    by (unfold driver_step, driver_select; by rewrite Hpc, Ep).
  pose proof (control_no_panic sticky NotReady [] (PLocked f) s) as Hnp. cbn in Hs, Hnp.
  destruct (cancelled s) eqn:Ec.
  { eapply (ends_drive BWrite NotReady); [by left|done|done|exact Hs|]. intros Hb' Hd'. eapply ends_pdone; [done|done|exact Hpc|done|by left]. }
  assert (Hl' : Driver.closing_deadline (driver s) <> None) by (destruct Hl as [Hl|Hl]; [by rewrite Ec in Hl|done]).
  destruct (encode_for ByControl _ _ s) as [| |[s1 [bs|]]] eqn:Ee; [|done|..].
  - unfold encode_for in Ee. by step_cases.
  - apply encode_for_to in Ee as [k ->]. eapply (ends_drive BWrite NotReady); [by left|done|done|exact Hs|]. intros Hb' Hd'.
    eapply ends_wstart; [done|done|exact Hpc|done|by right].
  - apply encode_for_to in Ee as [k ->]. eapply (ends_drive BWrite NotReady); [by left|done|done|exact Hs|]. intros Hb' Hd'.
    eapply ends_pdone; [done|done|exact Hpc|done|by right].
Qed.

(** The Close of a timeout. *)
Lemma ends_timeout_wait s rest d c : base s -> deadline_inv s -> Driver.pc (driver s) = DTimeoutWrite (WWait rest) d c -> ends s.
Proof.
  intros Hb Hd Hpc. apply (ends_tick d); [done|]. intros s1 Hb1 Hd1 _ Hst _ Hnow.
  assert (Hdl : deadline_inv s1) by (eapply deadline_keep; [exact Hd|rewrite Hst; auto with ws|done]).
  assert (Hs : exists s', driver_step config sticky BWrite Interrupt [] 0 s1 = To s' /\ exists l, Driver.pc (driver s') = DActs l).
  { unfold driver_step. rewrite Hd1, Hpc. cbn. destruct (cancelled s1); [|destruct (Z.leb_spec d (Conn.now (conn s1))); [|lia]];
      eexists; (split; [done|by eexists]). }
  destruct Hs as (s' & Hs & l & Hl). eapply (ends_drive BWrite Interrupt s1); [by right|done|done|exact Hs|]. intros. by eapply ends_acts.
Qed.

Lemma ends_timeout_run s rest d c : base s -> deadline_inv s -> Driver.pc (driver s) = DTimeoutWrite (WRun rest) d c -> ends s.
Proof.
  intros Hb Hd Hpc. destruct (sticky && broken s) eqn:Es;
    (eapply (ends_drive BWrite NotReady); [by left|done|done|unfold driver_step; rewrite Hpc; cbn; unfold poll_stream; by rewrite Es|]); intros.
  - by eapply ends_acts.
  - by eapply ends_timeout_wait.
Qed.

Lemma ends_timeout_write s w d c : base s -> deadline_inv s -> Driver.pc (driver s) = DTimeoutWrite w d c -> ends s.
Proof.
  intros Hb Hd Hpc. destruct w as [rest|rest|rest]; [|by eapply ends_timeout_run|by eapply ends_timeout_wait].
  destruct (cancelled s) eqn:Ec;
    (eapply (ends_drive BWrite NotReady); [by left|done|done|unfold driver_step; rewrite Hpc; cbn; by rewrite Ec|]); intros.
  - by eapply ends_acts.
  - by eapply ends_timeout_run.
Qed.

Lemma ends_timeout_encode s m d c : base s -> deadline_inv s -> Driver.pc (driver s) = DTimeoutEncode m d c -> ends s.
Proof.
  intros Hb Hd Hpc.
  pose proof (encode_total ByDriver m (app_encode [] m) s (encode_message_total [] _ m [])) as Hnp.
  destruct (encode_for ByDriver m (app_encode [] m) s) as [| |[s1 [bs|]]] eqn:Ee; [|done|..].
  - unfold encode_for in Ee. by step_cases.
  - eapply (ends_drive BWrite NotReady); [by left|done|done|unfold driver_step; by rewrite Hpc, Ee|]. intros. by eapply ends_timeout_write.
  - eapply (ends_drive BWrite NotReady); [by left|done|done|unfold driver_step; by rewrite Hpc, Ee|]. intros. by eapply ends_acts.
Qed.

Lemma ends_timeout_begin s m d c : base s -> deadline_inv s -> Driver.pc (driver s) = DTimeoutBegin m d c -> ends s.
Proof.
  intros Hb Hd Hpc. pose proof (b_phase _ Hb) as Hph. rewrite Hpc in Hph. apply bool_decide_eq_true in Hph.
  eapply (ends_drive BWrite NotReady); [by left|done|done|unfold driver_step; by rewrite Hpc, Hph|]. intros. by eapply ends_timeout_encode.
Qed.

Lemma ends_any s : base s -> deadline_inv s -> Driver.pc (driver s) <> DEnd -> leaving s -> ends s.
Proof.
  intros Hb Hd Hne Hl. destruct (Driver.pc (driver s)) as [| |enabled|d l l'|code reason cause|m d c|m d c|w d c|l|] eqn:Hpc; [..|done].
  - by eapply ends_top.
  - by eapply ends_arm.
  - by eapply ends_select.
  - by eapply ends_lock_until.
  - destruct (lock s) eqn:El.
    + eapply (ends_drive BWrite NotReady); [by left|done|done|unfold driver_step; by rewrite Hpc, El|]. intros. by eapply ends_acts.
    + eapply (ends_drive BWrite NotReady); [by left|done|done|unfold driver_step; by rewrite Hpc, El|]. intros. by eapply ends_timeout_begin.
  - by eapply ends_timeout_begin.
  - by eapply ends_timeout_encode.
  - by eapply ends_timeout_write.
  - by eapply ends_acts.
Qed.
End Alone.

Definition is_end (pc : DriverPc) : bool := match pc with DEnd => true | _ => false end.

Lemma reach_deadline st tracks err e r : reader_ok (split_conn st tracks err) r -> forall sticky s,
  reach config sticky (fresh_split st tracks err e r) s -> inv s /\ deadline_inv s.
Proof.
  intros Hr sticky s. apply (reach_inv config sticky _ (fun s => inv s /\ deadline_inv s)); [split; [by apply fresh_inv|by split]|].
  intros ? ? ? [? ?] ?. split; [by eapply inv_step|by eapply deadline_step].
Qed.
End Reachable.
