(* ===== verification/SplitPeer.v ===== *)
(** * Split streams: what the peer receives

    The frames the tasks of a split stream write, received by the other endpoint. *)

From stdpp Require Import base list option strings.
From S2P Require Import Prelude Error Mask Utf8 Frame FrameSpec Protocol ReceiveSpec ProtocolSpec ProtocolProps.
From S2P Require Import Heartbeat Output Deflate Compressed Config WebSocket.
From S2P Require Import Split SplitReader SplitSpec SplitWire SplitOrder SplitSend SplitProps.

(** ** A stream that is cut within a frame *)

Section Cut.
Context {SU : Simdutf8} {SUok : Simdutf8Spec}.
Context (mf mm : Z) (r : Role).
Abbreviation pol := (initial_policy (peer r) mf).
Abbreviation fine := (fun km : bytes * Message.t => key_fine (fst km) /\ msg_ok mf mm (snd km)).
Abbreviation frame km := (encode_all [msg_frame r km]).

Lemma frame_ok km : fine km -> bytes_ok (frame km).
Proof. intros H. apply (ref_run_sent mf mm r [km]). by constructor. Qed.

Lemma frame_parses km tail : fine km -> spec_parse pol (frame km ++ tail) = FrameSpec.Got (out_frame (msg_frame r km)) tail.
Proof.
  destruct km as [key m]. intros [Hk Hm]. pose proof (msg_sendable r mf mm key m Hm Hk) as Ho. unfold out_ok, msg_frame, out_frame in *.
  by apply spec_parse_sent.
Qed.

Lemma part_needs_more km part rest : fine km -> part ++ rest = frame km -> rest <> [] -> spec_parse pol part = Need.
Proof.
  intros Hf He Hr. pose proof (frame_ok km Hf) as Hok. rewrite <- He in Hok. apply bytes_ok_app in Hok as [Hok _].
  pose proof (frame_parses km [] Hf) as Hp. rewrite app_nil_r, <- He in Hp.
  destruct (spec_parse pol part) as [|er|f tl] eqn:Ep; [done|..]; rewrite spec_parse_app, Ep in Hp by (done || by rewrite Ep); [done|].
  cbn in Hp. injection Hp as _ Hp. by apply app_eq_nil in Hp as [_ ?].
Qed.

Lemma ref_run_frames kms tail : Forall fine kms -> bytes_ok tail ->
  bytes_ok (encode_all (map (msg_frame r) kms) ++ tail) /\
  ref_run (ref_frame mm true) pol None (encode_all (map (msg_frame r) kms) ++ tail) = after (map snd kms) (ref_run (ref_frame mm true) pol None tail).
Proof.
  intros Hf Ht. induction Hf as [|km kms Hk Hf [IH1 IH2]]; [by split; [|cbn [map]; rewrite after_nil]|]. cbn [map]. rewrite encode_all_cons, <- app_assoc.
  assert (Hok : bytes_ok (frame km ++ encode_all (map (msg_frame r) kms) ++ tail)) by (apply bytes_ok_app; split; [by apply frame_ok|done]).
  split; [done|]. rewrite ref_run_eq, frame_parses by done. destruct km as [key m]. rewrite (ref_frame_sent mf) by apply Hk.
  rewrite IH2. unfold after. cbn. done.
Qed.

(** Whole frames, then a part of one: the receiver delivers the messages of the whole ones, and has no error. *)
Lemma process_reads_cut arch slice_addr km kms part rest chunks : arch_ok arch -> Forall fine kms -> fine km -> part ++ rest = frame km -> rest <> [] ->
  concat chunks = encode_all (map (msg_frame r) kms) ++ part ->
  exists p buf a, process_reads arch slice_addr (Protocol.new (peer r) mf mm) chunks = Done (p, buf, map snd kms, a) (Ok tt).
Proof.
  intros Harch Hf Hk He Hr Hc. pose proof (frame_ok km Hk) as Hpok. pose proof Hpok as Hfull. rewrite <- He in Hpok. apply bytes_ok_app in Hpok as [Hp1 Hp2].
  destruct (ref_run_frames kms part Hf Hp1) as [Hok Href]. rewrite <- Hc in Hok, Href.
  rewrite (ref_run_eq _ _ None part), (part_needs_more km part rest) in Href by done. unfold after in Href. cbn in Href. rewrite app_nil_r in Href.
  pose proof (process_reads_post arch slice_addr _ mm true (Protocol.new (peer r) mf mm) chunks Harch Hok (sim_new (peer r) mf mm true)) as H.
  apply received_news in H as (p & buf & ms & a & res & -> & Hm & Hres); [|done].
  rewrite list_fmap_id, Href in Hm. cbn in Hm. subst ms. exists p, buf, a.
  destruct res as [[]|er]; [done|]. exfalso. destruct Hres as [Hres|[_ Hres]]; [by rewrite Href in Hres|].
  specialize (Hres rest Hp2). rewrite Href, Hc, <- app_assoc, He in Hres. destruct (ref_run_frames kms (frame km) Hf Hfull) as [_ Hall].
  rewrite Hall in Hres. destruct (ref_run_sent mf mm r [km]) as [_ H1]; [by constructor|]. cbn [map] in H1. rewrite H1 in Hres. cbn in Hres.
  apply (f_equal length) in Hres. rewrite length_app in Hres. cbn in Hres. lia.
Qed.
End Cut.

(** ** The frames on the wire *)

Section Framed.
Context {R : Type} `{ReaderSpec R} (config : Config.t) (sticky : bool) (r : Role).
Abbreviation State := (State Protocol.t R).
Implicit Types s : State.

(** A frame of its message, with some masking key. *)
Definition frame_of (w : Written) (key : bytes) : Prop := key_fine key /\ w_frame w = encode_all [msg_frame r (key, w_message w)].
Definition framed s : Prop := Protocol.role (SplitSink.encoder (sink s)) = r /\ Forall (fun w => exists key, frame_of w key) (wire s).

(** The masking keys that are drawn have four bytes. *)
Definition keyed (l : label) : Prop := match l with LApp _ key | LDriver _ _ key _ => key_fine key | _ => True end.

Lemma framed_push o m k s : framed s -> Protocol.role (SplitSink.encoder k) = r -> (exists key, frame_of (MkWritten o m (SplitSink.buf k) 0) key) ->
  framed (set_wire (wire s ++ [MkWritten o m (SplitSink.buf k) 0]) (set_sink k s)).
Proof. intros [Hr Hw] Hk Hf. split; [done|]. cbn. apply Forall_app. split; [done|by constructor]. Qed.

Lemma framed_encode_app o key m s s' b : framed s -> key_fine key -> encode_for o m (app_encode key m) s = To (s', b) -> framed s'.
Proof.
  intros Hf Hk. unfold encode_for, SplitSink.encode_frame, app_encode. cbn.
  pose proof (encode_message_frame key (SplitSink.encoder (sink s)) m []) as [E1 E2]. rewrite (proj1 Hf) in E1, E2.
  destruct (Protocol.encode_message_into key (SplitSink.encoder (sink s)) m []) as [p buf]. cbn in *. intros [= <- _].
  apply framed_push; [done|done|]. exists key. by split.
Qed.

Lemma framed_encode_control o key f s s' b : framed s -> key_fine key ->
  encode_for o (SplitControlFrame.message f) (control_encode key f) s = To (s', b) -> framed s'.
Proof.
  intros Hf Hk. destruct f as [data|data|reason].
  - by apply (framed_encode_app o key (Message.Ping data)).
  - unfold encode_for, SplitSink.encode_frame. cbn. intros [= <- _]. apply framed_push; [done|apply Hf|]. exists key. split; [done|]. by rewrite (proj1 Hf).
  - unfold encode_for, SplitSink.encode_frame. cbn.
    destruct (Protocol.encode_split_close_response key (SplitSink.encoder (sink s)) reason []) as [p buf] eqn:Ep. intros [= <- _].
    unfold Protocol.encode_split_close_response, Protocol.encode_close_response in Ep. cbn in Ep. injection Ep as <- <-.
    apply framed_push; [done|cbn; case_bool_decide; apply Hf|]. exists key. split; [done|]. by rewrite (proj1 Hf).
Qed.

Lemma framed_take n s : framed s -> framed (take_bytes n s).
Proof.
  intros [Hr Hw]. unfold take_bytes, framed. destruct (wire s) as [|w ws _] eqn:Ew using rev_ind; [cbn; by rewrite Ew|].
  rewrite last_snoc. cbn. rewrite removelast_last. split; [done|]. apply Forall_app in Hw as [Hw1 Hw2]. apply Forall_app. split; [done|].
  constructor; [|done]. by inversion Hw2.
Qed.

Lemma framed_poll_stream a rest s s' x : framed s -> poll_stream sticky a rest s = (s', x) -> framed s'.
Proof.
  intros Hf E1. pose proof (poll_stream_polled sticky a rest s) as Hp. rewrite E1 in Hp. inversion Hp; subst; try done. by apply framed_take.
Qed.
Lemma framed_poll_split a rest s s' x : framed s -> poll_split sticky a rest s = (s', x) -> framed s'.
Proof. intros Hf. unfold poll_split. case_match; [by apply framed_poll_stream|..]; intros; by simplify_eq. Qed.

Ltac framed_eqs :=
  repeat match goal with
  | Hf : framed ?s, E : encode_for _ _ _ ?s = To _ |- _ => first [apply framed_encode_app in E|apply framed_encode_control in E]; [|assumption..]
  | Hf : framed ?s, E : poll_split _ _ _ ?s = _ |- _ => apply framed_poll_split in E; [|assumption]
  | Hf : framed ?s, E : poll_stream _ _ _ ?s = _ |- _ => apply framed_poll_stream in E; [|assumption]
  end.

Lemma framed_step l s s' : keyed l -> framed s -> step config sticky l s = To s' -> framed s'.
Proof.
  intros Hl Hf Hs. destruct l as [ms|m| |a key| | |b a key nonce|x|]; cbn in Hs, Hl; try (by case_match; simplify_eq).
  - unfold app_step, app_write, app_sent in Hs. step_cases; framed_eqs; done.
  - unfold app_abort in Hs. by step_cases.
  - unfold driver_step, driver_top, driver_select, driver_recv, driver_request, driver_close_timer, driver_heartbeat, control_step,
      control_done, driver_written, timeout_write, driver_act, driver_break in Hs.
    destruct (sync_inbound_base s) as (hb & n & Hsync). rewrite Hsync in Hs. step_cases; framed_eqs; done.
  - repeat case_match; simplify_eq; done.
Qed.
End Framed.

(** ** What has been written, for the receiver *)

Definition unfinished (w : Written) : Prop := (w_sent w < length (w_frame w))%nat.

(** The whole frames come first, and nothing after the first that is not whole has been sent. *)
Lemma whole_first ws : cut_short ws \/ Forall whole ws -> Forall (fun w => w_frame w <> []) ws ->
  exists done rest, ws = done ++ rest /\ Forall whole done /\ Forall unfinished rest /\
    wire_bytes ws = concat (map w_frame done) ++ match rest with w :: _ => take (w_sent w) (w_frame w) | [] => [] end.
Proof.
  intros Hws Hne. assert (Hunsent : forall ws, Forall unsent ws -> Forall (fun w => w_frame w <> []) ws -> Forall unfinished ws).
  { intros ws' Hu Hn. rewrite Forall_forall in *. intros w Hin. specialize (Hu w Hin). specialize (Hn w Hin). unfold unfinished, unsent in *. rewrite Hu.
    destruct (w_frame w); [done|cbn; lia]. }
  assert (Hall : Forall whole ws -> exists done rest, ws = done ++ rest /\ Forall whole done /\ Forall unfinished rest /\
    wire_bytes ws = concat (map w_frame done) ++ match rest with w :: _ => take (w_sent w) (w_frame w) | [] => [] end).
  { intros Hall. exists ws, []. rewrite !app_nil_r. split_and!; try done. by apply whole_bytes. }
  destruct Hws as [(ws1 & w & ws2 & -> & H1 & Hw & H2)|]; [|by apply Hall]. apply Forall_app in Hne as [_ [_ Hn2]%Forall_cons].
  assert (Hb : wire_bytes (ws1 ++ w :: ws2) = concat (map w_frame ws1) ++ take (w_sent w) (w_frame w)).
  { rewrite wire_bytes_app, whole_bytes by done. change (w :: ws2) with ([w] ++ ws2). rewrite wire_bytes_app, (unsent_bytes ws2) by done.
    unfold wire_bytes. cbn. by rewrite !app_nil_r. }
  destruct (decide (w_sent w = length (w_frame w))) as [Hwh|Hwh].
  - exists (ws1 ++ [w]), ws2. split_and!; [by rewrite <- app_assoc|by apply Forall_app; split; [|constructor]|by apply Hunsent|].
    rewrite Hb, map_app, concat_app. cbn. rewrite app_nil_r, Hwh, firstn_all. destruct H2 as [|w2 ws2 H2 _]; [by rewrite app_nil_r|].
    rewrite H2. by rewrite !app_nil_r.
  - exists ws1, (w :: ws2). split_and!; try done. constructor; [unfold unfinished, within in *; lia|by apply Hunsent].
Qed.

(** The masking keys that were drawn. *)
Lemma keys_of mf mm r ws : Forall (fun w => exists key, frame_of r w key) ws -> Forall (msg_ok mf mm) (map w_message ws) ->
  exists kms, map snd kms = map w_message ws /\ encode_all (map (msg_frame r) kms) = concat (map w_frame ws) /\
    Forall (fun km => key_fine (fst km) /\ msg_ok mf mm (snd km)) kms.
Proof.
  induction 1 as [|w ws (key & Hk & Hw) _ IH]; intros Hm; [by exists []|]. cbn in Hm. apply Forall_cons in Hm as [Hm1 Hm2].
  destruct (IH Hm2) as (kms & E1 & E2 & Hf). exists ((key, w_message w) :: kms). cbn [map concat]. rewrite encode_all_cons, E1, E2, Hw.
  split_and!; [done|done|]. by constructor.
Qed.

Lemma frame_nonempty r km : encode_all [msg_frame r km] <> [].
Proof. intros E1. destruct km as [key m]. apply (f_equal length) in E1. by destruct m. Qed.

(** The acknowledged frames are among the whole ones. *)
Lemma acked_first dn rest sent left acks pending : Forall unfinished rest -> app_frames dn ++ app_frames rest = sent ++ left -> Forall whole sent ->
  map w_message sent = acks ++ pending -> exists more, map w_message (app_frames dn) = acks ++ more.
Proof.
  intros Hrest Happ Hw Hm.
  assert (Hp : exists more, app_frames dn = sent ++ more).
  { apply app_eq_inv in Happ as [(k & -> & E1)|(k & -> & E1)]; [by eexists|]. exists []. rewrite app_nil_r.
    destruct k as [|w k]; [by rewrite app_nil_r|exfalso]. apply Forall_app in Hw as [_ [Hw _]%Forall_cons].
    assert (Hin : w ∈ app_frames rest) by (rewrite E1; left). unfold app_frames in Hin. apply list_elem_of_In, filter_In in Hin as [Hin%list_elem_of_In _].
    rewrite Forall_forall in Hrest. specialize (Hrest w Hin). unfold unfinished, whole in *. lia. }
  destruct Hp as [more ->]. rewrite map_app, Hm, <- app_assoc. by eexists.
Qed.

Section Receives.
Context {R : Type} `{ReaderSpec R} {SU : Simdutf8} {SUok : Simdutf8Spec} (config : Config.t) (r : Role).

Lemma framed_steps sticky ls : forall s s' : State Protocol.t R, Forall keyed ls -> framed r s -> steps config sticky ls s = To s' -> framed r s'.
Proof.
  induction ls as [|l ls IH]; intros s s' Hk Hf Hs; [by injection Hs as <-|]. cbn in Hs. apply Forall_cons in Hk as [Hk1 Hk2].
  destruct (step config sticky l s) as [| |s1] eqn:E1; try done. eapply IH; [done| |done]. by eapply framed_step.
Qed.

(** The receiver of the other endpoint, on what has been sent. *)
Lemma peer_receives arch slice_addr mf mm (s : State Protocol.t R) chunks : arch_ok arch -> 0 <= mf -> framed r s -> cut_short (wire s) \/ Forall whole (wire s) ->
  Forall (msg_ok mf mm) (messages s) -> concat chunks = wire_bytes (wire s) ->
  exists ws rest p buf a, wire s = ws ++ rest /\ Forall whole ws /\ Forall unfinished rest /\
    process_reads arch slice_addr (Protocol.new (peer r) mf mm) chunks = Done (p, buf, map w_message ws, a) (Ok tt).
Proof.
  intros Harch Hmf [_ Hf] Hsh Hm Hc.
  destruct (whole_first (wire s) Hsh) as (ws & rest & Ews & Hws & Hrest & Hb).
  { eapply Forall_impl; [exact Hf|]. intros w (key & _ & ->). apply frame_nonempty. }
  unfold messages in Hm. rewrite Ews in Hf, Hm. rewrite map_app in Hm. apply Forall_app in Hf as [Hf1 Hf2]. apply Forall_app in Hm as [Hm1 Hm2].
  destruct (keys_of mf mm r ws Hf1 Hm1) as (kms & E1 & E2 & Hk). rewrite Hb, <- E2 in Hc.
  exists ws, rest. rewrite <- E1. destruct rest as [|w rest'].
  - destruct (process_reads_cut mf mm r arch slice_addr ([0; 0; 0; 0], Message.Ping []) kms [] (encode_all [msg_frame r ([0; 0; 0; 0], Message.Ping [])]) chunks)
      as (p & buf & a & E3); try done; [|by exists p, buf, a].
    split; [by split; [|repeat constructor]|]. cbn. rewrite len_nil. split_and!; [constructor|lia|lia].
  - apply Forall_cons in Hf2 as [(key & Hkey & Hw) _]. apply Forall_cons in Hm2 as [Hmw _]. apply Forall_cons in Hrest as [Hnw Hrest'].
    destruct (process_reads_cut mf mm r arch slice_addr (key, w_message w) kms (take (w_sent w) (w_frame w)) (drop (w_sent w) (w_frame w)) chunks)
      as (p & buf & a & E3); try done; [by rewrite take_drop| |].
    + intros Hd. apply (f_equal length) in Hd. rewrite length_drop in Hd. unfold unfinished in Hnw. cbn in Hd. lia.
    + exists p, buf, a. split_and!; try done. by constructor.
Qed.
End Receives.
