(* ===== verification/SplitReceive.v ===== *)
(** * Split streams: what the reading handle returns

    The messages [SplitReader::next] returns are those of the reference receiver, in order, up to the first Close, whatever the other tasks do and
    however often a call is dropped and made again. *)

From stdpp Require Import base list option strings.
From S2P Require Import Prelude Error Mask Utf8 Frame FrameSpec Protocol ReceiveSpec ProtocolSpec ProtocolProps NextSpec.
From S2P Require Import Heartbeat Output Deflate Compressed Config WebSocket StreamSpec Split SplitReader SplitSpec SplitReaderSpec SplitOrder.
Import WebSocketStream (Item).
Import SplitReader.

(** The messages up to the first Close, and it. *)
Fixpoint upto_close (ms : list Message.t) : list Message.t :=
  match ms with
  | [] => []
  | m :: ms => m :: (if Message.is_close m then [] else upto_close ms)
  end.

Lemma upto_close_open ms : has_close ms = false -> upto_close ms = ms.
Proof. unfold has_close. induction ms as [|m ms IH]; [done|]. cbn. destruct (Message.is_close m); [done|]. intros ?. by rewrite IH. Qed.
Lemma upto_close_app ms ms' : has_close ms = true -> upto_close (ms ++ ms') = upto_close ms.
Proof. unfold has_close. induction ms as [|m ms IH]; [done|]. cbn. destruct (Message.is_close m); [done|]. intros ?. by rewrite IH. Qed.
Lemma upto_close_snoc ms m : has_close ms = false -> upto_close (ms ++ [m]) = ms ++ [m].
Proof.
  unfold has_close. induction ms as [|a ms IH]; [by cbn; destruct (Message.is_close m)|]. cbn. destruct (Message.is_close a); [done|].
  intros ?. by rewrite IH.
Qed.

Lemma pop_spec l : match pop l with Some (m, rest) => l = rest ++ [m] | None => l = [] end.
Proof.
  unfold pop. destruct (reverse l) as [|m rest] eqn:El; apply (f_equal reverse) in El; rewrite reverse_involutive in El; [done|].
  by rewrite reverse_cons in El.
Qed.

Lemma terminal_taken sh : 4 <= SplitShared.status sh <= 6 -> is_Some (take_terminal sh).
Proof. intros [cause Hc]%terminal_known. unfold take_terminal. rewrite Hc. by destruct cause; eexists. Qed.

Lemma terminated cause c : status_ok (conn_status c) -> 4 <= conn_status (Conn.terminate cause c).
Proof. intros Hok. destruct (terminate_le cause _ Hok) as (_ & Hr & _). unfold conn_status, Conn.terminate. cbn. lia. Qed.

Section Receive.
Context {SU : Simdutf8} {SUok : Simdutf8Spec}.
Context (arch : Arch) (slice_addr : bytes -> Z) (Harch : arch_ok arch) (leftover : bytes) (max : Z) (validate : bool) (pol : policy).
Abbreviation sim := (ProtocolSpec.sim max validate pol).
Abbreviation ref := (ref_run (ref_frame max validate) pol).
Abbreviation next := (next_step arch slice_addr).

(** The messages of the reference receiver on what was read before and after [split], and what may follow. *)
Definition sent_by_peer (input more : bytes) : list Message.t := fst (ref None (leftover ++ input ++ more)).

(** Parsed and not yet returned. *)
Definition in_hand (r : t) : list Message.t :=
  match pc r with RGot m => [m] | _ => [] end ++ option_list (pending_message r) ++ reverse (pending_ping_batch r).
(** Bytes that have not been looked at. *)
Definition unread (r : t) : bool := has_unprocessed_read_data r || match pc r with RAfter (Ok (_ :: _)) => true | _ => false end.

Inductive account (c : Conn.t) (r : t) (input : bytes) (D : list Message.t) : Prop :=
  | acc_live fr raw : terminal_reported r = false -> pending_parse_error r = None -> has_close D = false ->
      sim (protocol r) (read_buf r) raw fr -> (read_buf r = [] -> spec_parse pol raw = Need) -> (unread r = false -> spec_parse pol raw = Need) ->
      (is_Some (pending_request r) -> exists m ms, in_hand r = m :: ms /\ Message.is_close m = false) ->
      (forall more, bytes_ok more -> sent_by_peer input more = D ++ in_hand r ++ fst (ref fr (raw ++ more))) -> account c r input D
  | acc_failed : is_Some (pending_parse_error r) -> in_hand r = [] -> has_close D = false ->
      (pc r = RIdle \/ pc r = RTop \/ pc r = RTake \/ pc r = RError) ->
      (forall more, bytes_ok more -> sent_by_peer input more = D) -> account c r input D
  | acc_closing reason : in_hand r = [Message.Close reason] -> is_Some (pending_request r) -> has_close D = false -> pending_parse_error r = None ->
      (forall more, bytes_ok more -> exists rest, sent_by_peer input more = (D ++ [Message.Close reason]) ++ rest) -> account c r input D
  | acc_ended : has_close D = false -> pending_parse_error r = None ->
      (terminal_reported r = true \/ 4 <= conn_status c \/ pc r = RTerminate) -> (pc r = RIdle \/ pc r = RTop \/ pc r = RTerminate) ->
      (forall more, bytes_ok more -> exists rest, sent_by_peer input more = D ++ rest) -> account c r input D
  | acc_closed : has_close D = true -> (forall more, bytes_ok more -> exists rest, sent_by_peer input more = upto_close D ++ rest) ->
      account c r input D.

(** What the places of [next] say about the message in hand. *)
Definition shape (r : t) : Prop :=
  match pc r with
  | RGot m => pending_message r = None /\ (is_Some (pending_request r) -> is_data m = false)
  | RReserve => is_Some (pending_request r) /\ exists m, pending_message r = Some m /\ is_data m = false
  | RReading => has_unprocessed_read_data r = false /\ pending_message r = None /\ pending_ping_batch r = [] /\ pending_request r = None
  | RAfter _ | REof | RFailed _ | RError => pending_message r = None /\ pending_ping_batch r = [] /\ pending_request r = None
  | RTerminate => pending_message r = None /\ pending_request r = None
  | _ => is_Some (pending_request r) -> exists m, pending_message r = Some m /\ is_data m = false
  end.

Definition returned (i : option Item) : list Message.t := match i with Some (Some (Ok m)) => [m] | _ => [] end.
Definition read_by (l : ReaderLabel) (c : Conn.t) : bytes :=
  match l with RRead (Ok data) => if bool_decide (Conn.transport c = TransportState.Open) then data else [] | _ => [] end.

Ltac open_reader r :=
  destruct r as [p buf more pm batch perr rq seen rep pc0]; cbn [pc] in *; subst pc0;
  cbn -[Protocol.process_next_with_activity pop take_terminal send_request poll_read] in *.

Lemma shape_step l c r c' r' i : shape r -> next l c r = To (c', r', i) -> shape r'.
Proof.
  intros Hsh Hs. unfold next_step, top, take_message, no_message, got, reserve, report_error, read_ready, after_read, end_of_input, return_, continue in Hs.
  unfold shape in *. destruct (pc r) as [| | |m| | | |x| | |e] eqn:Epc, l as [| |x'| |]; try done; open_reader r.
  all: reader_cases; cbn; try done; try naive_solver.
  all: match goal with E1 : pop ?b = None |- _ => pose proof (pop_spec b) as Hp; rewrite E1 in Hp end; split_and!; try done; try (by destruct more, perr);
    match goal with |- ?q = None => destruct q; [|done] end; by destruct (Hsh ltac:(by eexists)) as (? & ? & _).
Qed.

(** A prefix of the messages is right whatever comes. *)
Lemma account_prefix c r input D more : account c r input D -> bytes_ok more -> exists rest, sent_by_peer input more = upto_close D ++ rest.
Proof.
  intros Ha Hm. destruct Ha as [fr raw _ _ Hc _ _ _ _ Hall|_ _ Hc _ Hall|reason _ _ Hc _ Hall|Hc _ _ _ Hall|Hc Hall].
  - rewrite upto_close_open by done. eexists. by apply Hall.
  - rewrite upto_close_open, Hall by done. exists []. by rewrite app_nil_r.
  - rewrite upto_close_open by done. destruct (Hall more Hm) as [rest ->]. rewrite <- app_assoc. by eexists.
  - rewrite upto_close_open by done. by apply Hall.
  - by apply Hall.
Qed.

Lemma account_stable c c' r input D : status_le (conn_status c) (conn_status c') -> account c r input D -> account c' r input D.
Proof.
  intros Hle Ha. destruct Ha as [fr raw H1 H2 H3 H4 H5 H6 H7 H8|H1 H2 H3 Hf H4|reason H1 H2 H3 H4 H5|H1 H2 H3 H4 H5|H1 H2].
  - by eapply acc_live.
  - by eapply acc_failed.
  - by eapply acc_closing.
  - apply acc_ended; try done. unfold status_le in Hle. destruct H3 as [?|[?|?]]; auto. right; left. lia.
  - by apply acc_closed.
Qed.

(** The same, seen from after a read. *)
Lemma sent_by_peer_app input data more : sent_by_peer (input ++ data) more = sent_by_peer input (data ++ more).
Proof. unfold sent_by_peer. by rewrite <- !app_assoc. Qed.

(** Only the place in [next] changes, and it has no message or bytes of its own. *)
Lemma account_move c c' r r' input D : account c r input D -> protocol r' = protocol r -> read_buf r' = read_buf r -> in_hand r' = in_hand r ->
  unread r' = unread r -> pending_parse_error r' = pending_parse_error r -> pending_request r' = pending_request r -> terminal_reported r' = terminal_reported r ->
  (pc r = RIdle \/ pc r = RTop \/ pc r = RTerminate -> (terminal_reported r = true \/ 4 <= conn_status c \/ pc r = RTerminate) ->
     (terminal_reported r = true \/ 4 <= conn_status c' \/ pc r' = RTerminate) /\ (pc r' = RIdle \/ pc r' = RTop \/ pc r' = RTerminate)) ->
  (pc r = RIdle \/ pc r = RTop \/ pc r = RTake \/ pc r = RError -> is_Some (pending_parse_error r) -> in_hand r = [] ->
     pc r' = RIdle \/ pc r' = RTop \/ pc r' = RTake \/ pc r' = RError) ->
  account c' r' input D.
Proof.
  intros Ha Ep Eb Eh Eu Ee Eq Et Hend Hfail. destruct Ha as [fr raw H1 H2 H3 H4 H5 H6 H7 H8|H1 H2 H3 Hf H4|reason H1 H2 H3 H4 H5|H1 H2 H3 H4 H5|H1 H2].
  - apply (acc_live _ _ _ _ fr raw); by rewrite ?Ep, ?Eb, ?Eh, ?Eu, ?Ee, ?Eq, ?Et.
  - apply acc_failed; rewrite ?Ee, ?Eh; auto.
  - apply (acc_closing _ _ _ _ reason); by rewrite ?Eh, ?Eq, ?Ee.
  - destruct (Hend H4 H3) as [Ha Hb]. apply acc_ended; try done; by rewrite ?Ee, ?Et.
  - by apply acc_closed.
Qed.

(** [next] ends the connection, without a message. *)
Lemma account_end c c' r r' input D : account c r input D -> (has_close D = false -> pending_parse_error r' = None) ->
  (terminal_reported r' = true \/ 4 <= conn_status c' \/ pc r' = RTerminate) -> (pc r' = RIdle \/ pc r' = RTop \/ pc r' = RTerminate) ->
  account c' r' input D.
Proof.
  intros Ha He Ht Hp. pose proof (fun more => account_prefix c r input D more Ha) as Hpre.
  destruct (has_close D) eqn:Hc; [by apply acc_closed|]. apply acc_ended; auto. intros more Hm.
  destruct (Hpre more Hm) as [rest Hr]. rewrite upto_close_open in Hr by done. by exists rest.
Qed.

(** After the first Close there is nothing more to say. *)
Lemma account_kept c c' r r' input data D ms : has_close D = true -> account c r input D -> bytes_ok data -> account c' r' (input ++ data) (D ++ ms).
Proof.
  intros Hc Ha Hd. apply acc_closed; [unfold has_close in *; by rewrite existsb_app, Hc|]. intros more Hm.
  rewrite upto_close_app, sent_by_peer_app by done. eapply account_prefix; [exact Ha|by apply bytes_ok_app].
Qed.

Section Steps.
Context (c c' : Conn.t) (r r' : t) (i : option Item) (input : bytes) (D : list Message.t).
Context (Hok : status_ok (conn_status c)) (Hsh : shape r) (Ha : account c r input D) (Hopen : has_close D = false).

(** The reference has nothing in less than a frame. *)
Lemma need_nil : spec_parse pol [] = Need.
Proof. done. Qed.

Lemma account_top : pc r = RTop -> top c r = To (c', r', i) -> account c' r' input (D ++ returned i).
Proof.
  intros Hpc Hs. unfold top, return_, continue in Hs. destruct (terminal_reported r) eqn:Et; simplify_eq/=; rewrite ?app_nil_r.
  { eapply account_move; [exact Ha|done|done|by unfold in_hand; rewrite Hpc|by unfold unread; rewrite Hpc|done|done|done|by auto|by auto]. }
  assert (Hmove : account c (goto RTake r) input D \/ (4 <= conn_status c /\ pending_parse_error r = None)).
  { destruct Ha as [fr raw H1 H2 H3 H4 H5 H6 H7 H8|H1 H2 H3 Hf H4|reason H1 H2 H3 H4 H5|H1 H2 H3 H4 H5|H1 H2].
    - left. eapply (acc_live _ _ _ _ fr raw); try done; unfold in_hand, unread in *; by rewrite Hpc in *.
    - left. apply acc_failed; try done; [unfold in_hand in *; by rewrite Hpc in *|by auto].
    - left. apply (acc_closing _ _ _ _ reason); try done. unfold in_hand in *. by rewrite Hpc in *.
    - right. destruct H3 as [?|[?|?]]; [congruence|done|congruence].
    - left. by apply acc_closed. }
  destruct (pending_parse_error r) as [e|] eqn:Ee.
  { simplify_eq/=. rewrite app_nil_r. destruct Hmove as [?|[_ ?]]; done. }
  destruct (take_terminal (Conn.shared c)) as [item|] eqn:Ett; simplify_eq/=.
  - assert (Hret : returned (Some item) = []).
    { unfold take_terminal in Ett. by destruct (SplitShared.terminal_cause _) as [[]|]; simplify_eq. }
    cbn in Hret. rewrite Hret, app_nil_r. eapply account_end; [exact Ha|done|by left|by left].
  - rewrite app_nil_r. destruct Hmove as [?|[Hst _]]; [done|].
    destruct (terminal_taken (Conn.shared c')) as [x Hx]; [unfold status_ok, conn_status in *; lia|]. by rewrite Hx in Ett.
Qed.

Ltac here Hpc := unfold in_hand, unread; rewrite Hpc; cbn.

Lemma account_take : pc r = RTake -> take_message arch slice_addr c r = To (c', r', i) -> account c' r' input (D ++ returned i).
Proof.
  intros Hpc Hs. unfold take_message, no_message, continue in Hs. unfold shape in Hsh. rewrite Hpc in Hsh.
  assert (Hhand : in_hand r = option_list (pending_message r) ++ reverse (pending_ping_batch r)) by (unfold in_hand; by rewrite Hpc).
  assert (Hunread : unread r = has_unprocessed_read_data r) by (unfold unread; rewrite Hpc; apply orb_false_r).
  destruct (pending_message r) as [m|] eqn:Em.
  { simplify_eq/=. rewrite app_nil_r.
    eapply account_move; [exact Ha|done|done| |by unfold unread; rewrite Hpc|done|done|done|by rewrite Hpc; intuition|by rewrite Hhand].
    by rewrite Hhand. }
  pose proof (pop_spec (pending_ping_batch r)) as Hpop. destruct (pop (pending_ping_batch r)) as [[m rest]|].
  { rewrite Hpop, reverse_snoc in Hhand. simplify_eq/=. rewrite app_nil_r.
    eapply account_move; [exact Ha|done|done| |by unfold unread; rewrite Hpc|done|done|done|by rewrite Hpc; intuition|by rewrite Hhand].
    rewrite Hhand. unfold in_hand. cbn. by rewrite Em. }
  rewrite Hpop in Hhand. cbn in Hhand.
  destruct (bool_decide (pending_parse_error r = None) && has_unprocessed_read_data r) eqn:Ec; cycle 1.
  { simplify_eq/=. rewrite app_nil_r. eapply account_move; [exact Ha|done|done| | |done|done|done|by rewrite Hpc; intuition|].
    - rewrite Hhand. unfold in_hand. cbn. rewrite Em, Hpop. by destruct (bool_decide (is_Some (pending_parse_error r))).
    - rewrite Hunread. unfold unread. cbn. destruct (bool_decide (is_Some (pending_parse_error r))); apply orb_false_r.
    - intros _ He _. cbn. rewrite bool_decide_eq_true_2 by done. auto. }
  apply andb_true_iff in Ec as [Hpe%bool_decide_eq_true Hun].
  assert (Hq : pending_request r = None).
  { destruct (pending_request r); [|done]. by destruct (Hsh ltac:(by eexists)) as (? & ? & _). }
  destruct Ha as [fr raw H1 H2 H3 H4 H5 H6 H7 H8|[? ?] H2 H3 Hf H4|reason H1 H2 H3 H4 H5|H1 H2 H3 H4 H5|H1 H2]; try congruence.
  - pose proof (next_post arch slice_addr Harch max validate pol _ _ _ _ H4 H5) as Hr.
    destruct (Protocol.process_next_with_activity _ _ _ _) as [[[p buf] accepted] [[m|]|e]| |]; simplify_eq/=; rewrite app_nil_r.
    + destruct Hr as (fr' & Hsim' & Hr). apply (acc_live _ _ _ _ fr' buf); try done.
      * cbn. by intros ->.
      * unfold unread. cbn. rewrite orb_false_r. intros Hb%negb_false_iff%bool_decide_eq_true. by rewrite Hb.
      * cbn. by rewrite Hq.
      * intros more Hm. rewrite H8, Hr, Hhand by done. unfold in_hand. cbn. by rewrite Em, Hpop.
    + destruct Hr as (fr' & raw' & Hsim' & Hneed & Hr). apply (acc_live _ _ _ _ fr' raw'); try done; cbn; [by rewrite Hq|].
      intros more Hm. rewrite H8, Hr, Hhand by done. unfold in_hand. cbn. rewrite Em, Hpop, Hpe. done.
    + apply acc_failed; try done.
      * unfold in_hand. cbn. by rewrite Em, Hpop.
      * cbn. auto.
      * intros more Hm. rewrite H8, Hr, Hhand by done. by rewrite app_nil_r.
  - destruct H4 as [?|[?|?]]; congruence.
Qed.

Lemma account_got m : pc r = RGot m -> got m c r = To (c', r', i) -> account c' r' input (D ++ returned i).
Proof.
  intros Hpc Hs. unfold got, return_, continue in Hs. unfold shape in Hsh. rewrite Hpc in Hsh. destruct Hsh as [Em Hdata].
  assert (Hhand : in_hand r = m :: reverse (pending_ping_batch r)) by (unfold in_hand; by rewrite Hpc, Em).
  assert (Hunread : unread r = has_unprocessed_read_data r) by (unfold unread; rewrite Hpc; apply orb_false_r).
  destruct Ha as [fr raw H1 H2 H3 H4 H5 H6 H7 H8|H1 H2 H3 Hf H4|reason H1 H2 H3 H4 H5|H1 H2 H3 H4 H5|H1 H2]; try congruence;
    [| |by destruct H4 as [?|[?|?]]; congruence].
  - destruct (is_data m) eqn:Em'.
    { assert (Hq : pending_request r = None) by (destruct (pending_request r); [by specialize (Hdata ltac:(by eexists))|done]).
      assert (To (note_inbound c, goto RIdle r, Some (Some (Ok m))) = To (c', r', i)) as [= <- <- <-] by (by destruct m).
      apply (acc_live _ _ _ _ fr raw); try done.
      - cbn. rewrite has_close_snoc, Hopen. by destruct m.
      - unfold unread. cbn. rewrite orb_false_r, <- Hunread. done.
      - cbn. by rewrite Hq.
      - intros more Hm. rewrite H8, Hhand by done. unfold in_hand. cbn. rewrite Em. cbn. by rewrite <- !app_assoc. }
    assert (Hwait : Message.is_close m = false -> forall q, account c (goto RReserve (set_pending (Some m) (Some q) r)) input D).
    { intros Hc q. apply (acc_live _ _ _ _ fr raw); try done.
      - unfold unread. cbn. by rewrite orb_false_r, <- Hunread.
      - intros _. by exists m, (reverse (pending_ping_batch r)).
      - intros more Hm. by rewrite H8, Hhand. }
    destruct (pending_request r) as [q|] eqn:Eq.
    { destruct (H7 ltac:(by eexists)) as (m0 & ms & E1 & E2). rewrite Hhand in E1. injection E1 as -> _.
      assert (To (c, goto RReserve (set_pending (Some m0) (Some q) r), None) = To (c', r', i)) as [= <- <- <-] by (by destruct m0).
      rewrite app_nil_r. by apply Hwait. }
    destruct m as [| |data|data|reason]; try done; simplify_eq/=; rewrite app_nil_r; [by apply Hwait..|].
    apply (acc_closing _ _ _ _ reason); try done. intros more Hm. rewrite H8, Hhand by done. eexists. by rewrite <- app_assoc.
  - rewrite Hhand in H1. injection H1 as -> Hb. destruct H2 as [q Eq]. rewrite Eq in Hs. simplify_eq/=. rewrite app_nil_r.
    apply (acc_closing _ _ _ _ reason); try done. change (Message.Close reason :: reverse (pending_ping_batch r) = [Message.Close reason]). by rewrite Hb.
Qed.

Lemma account_reserve : pc r = RReserve -> reserve c r = To (c', r', i) -> account c' r' input (D ++ returned i).
Proof.
  intros Hpc Hs. unfold reserve, return_, continue in Hs. unfold shape in Hsh. rewrite Hpc in Hsh. destruct Hsh as [[q Eq] (m & Em & Hdata)]. rewrite Eq in Hs.
  assert (Hhand : in_hand r = m :: reverse (pending_ping_batch r)) by (unfold in_hand; by rewrite Hpc, Em).
  assert (Hunread : unread r = has_unprocessed_read_data r) by (unfold unread; rewrite Hpc; apply orb_false_r).
  assert (He : pending_parse_error r = None).
  { destruct Ha as [fr raw H1 H2 H3 H4 H5 H6 H7 H8|H1 H2 H3 Hf H4|reason H1 H2 H3 H4 H5|H1 H2 H3 H4 H5|H1 H2]; congruence. }
  destruct (send_request q c) as [c1| |]; [|done|]; simplify_eq/=; cycle 1.
  { rewrite app_nil_r. eapply account_end; [exact Ha|done|by auto|by auto]. }
  rewrite Em in *. cbn [fmap option_fmap option_map] in *. cbn.
  destruct Ha as [fr raw H1 H2 H3 H4 H5 H6 H7 H8|H1 H2 H3 Hf H4|reason H1 H2 H3 H4 H5|H1 H2 H3 H4 H5|H1 H2]; try congruence;
    [| |by destruct H4 as [?|[?|?]]; congruence].
  - apply (acc_live _ _ _ _ fr raw); try done.
    + destruct (H7 ltac:(by eexists)) as (m0 & ms & E1 & E2). rewrite Hhand in E1. injection E1 as -> _. by rewrite has_close_snoc, Hopen.
    + unfold unread. cbn. by rewrite orb_false_r, <- Hunread.
    + intros [? [=]].
    + intros more Hm. rewrite H8, Hhand by done. unfold in_hand. cbn. by rewrite <- !app_assoc.
  - rewrite Hhand in H1. injection H1 as -> Hb. apply acc_closed; [by rewrite has_close_snoc, Hopen|]. by rewrite upto_close_snoc.
Qed.

(** At the places after the messages there is only a live connection. *)
Lemma account_waits : match pc r with RReading | RAfter _ | REof | RFailed _ => True | _ => False end -> pending_parse_error r = None /\
  in_hand r = [] /\ (terminal_reported r = false -> exists fr raw, sim (protocol r) (read_buf r) raw fr /\ (read_buf r = [] -> spec_parse pol raw = Need) /\
    (unread r = false -> spec_parse pol raw = Need) /\ forall more, bytes_ok more -> sent_by_peer input more = D ++ fst (ref fr (raw ++ more))).
Proof.
  intros Hp. assert (Hs : pending_message r = None /\ pending_ping_batch r = [] /\ pending_request r = None).
  { unfold shape in Hsh. destruct (pc r); tauto. }
  destruct Hs as (Em & Eb & Eq). assert (Hhand : in_hand r = []) by (unfold in_hand; rewrite Em, Eb; by destruct (pc r)).
  destruct Ha as [fr raw H1 H2 H3 H4 H5 H6 H7 H8|H1 H2 H3 Hf H4|reason H1 H2 H3 H4 H5|H1 H2 H3 H4 H5|H1 H2]; try congruence.
  - split_and!; try done. intros _. exists fr, raw. split_and!; try done. intros more Hm. by rewrite H8, Hhand.
  - by destruct Hf as [E|[E|[E|E]]]; rewrite E in Hp.
  - by destruct H4 as [E|[E|E]]; rewrite E in Hp.
Qed.

Lemma account_error : pc r = RError -> report_error c r = To (c', r', i) -> account c' r' input (D ++ returned i).
Proof.
  intros Hpc Hs. unfold report_error, return_ in Hs.
  destruct (send_request ControlRequest.ReadError c); simplify_eq/=; destruct (pending_parse_error r) as [e|]; cbn; rewrite app_nil_r;
    (eapply account_end; [exact Ha|done|by left|by left]).
Qed.

Lemma account_after x : pc r = RAfter x -> after_read x c r = To (c', r', i) -> account c' r' input (D ++ returned i).
Proof.
  intros Hpc Hs. destruct account_waits as (He & Hhand & Hlive); [by rewrite Hpc|]. unfold after_read, return_, continue in Hs.
  destruct (take_terminal (Conn.shared c)) as [item|] eqn:Ett; simplify_eq/=.
  { assert (Hret : returned (Some item) = []).
    { unfold take_terminal in Ett. by destruct (SplitShared.terminal_cause _) as [[]|]; simplify_eq. }
    cbn in Hret. rewrite Hret, app_nil_r. eapply account_end; [exact Ha|done|by left|by left]. }
  destruct x as [[|b data]|e]; simplify_eq/=; rewrite app_nil_r.
  - eapply account_move; [exact Ha|done|done|by unfold in_hand; rewrite Hpc|by unfold unread; rewrite Hpc|done|done|done|by rewrite Hpc; intuition|by rewrite He].
  - destruct Ha as [fr raw H1 H2 H3 H4 H5 H6 H7 H8|H1 H2 H3 Hf H4|reason H1 H2 H3 H4 H5|H1 H2 H3 H4 H5|H1 H2]; try congruence.
    + apply (acc_live _ _ _ _ fr raw); try done; unfold in_hand in *; by rewrite Hpc in *.
    + by destruct H1 as [? ?]; congruence.
    + destruct H4 as [?|[?|?]]; congruence.
  - eapply account_move; [exact Ha|done|done|by unfold in_hand; rewrite Hpc|by unfold unread; rewrite Hpc|done|done|done|by rewrite Hpc; intuition|by rewrite He].
Qed.

Lemma account_reading x : pc r = RReading -> read_ready x c r = To (c', r', i) -> bytes_ok (read_by (RRead x) c) ->
  account c' r' (input ++ read_by (RRead x) c) (D ++ returned i).
Proof.
  intros Hpc Hs Hd. destruct account_waits as (He & Hhand & Hlive); [by rewrite Hpc|]. unfold read_ready, poll_read, continue in Hs.
  assert (Hgo : forall data, bytes_ok data -> account c (goto (RAfter (Ok data)) (set_input (protocol r) (read_buf r ++ data) (has_unprocessed_read_data r) r)) (input ++ data) D).
  { intros data Hok'. destruct Ha as [fr raw H1 H2 H3 H4 H5 H6 H7 H8|H1 H2 H3 Hf H4|reason H1 H2 H3 H4 H5|H1 H2 H3 H4 H5|H1 H2]; try congruence.
    - apply (acc_live _ _ _ _ fr (raw ++ data)); try done.
      + by apply sim_more.
      + cbn. intros [E ->]%app_eq_nil. rewrite app_nil_r. auto.
      + unfold unread in *. rewrite Hpc in H6. cbn in *. destruct data; [|by rewrite orb_true_r]. by rewrite app_nil_r.
      + unfold in_hand in *. rewrite Hpc in H7. by cbn in *.
      + intros more Hm. rewrite sent_by_peer_app, H8 by (by apply bytes_ok_app). rewrite <- app_assoc. unfold in_hand in *. by rewrite Hpc in *.
    - destruct Hf as [?|[?|[?|?]]]; congruence.
    - destruct H4 as [?|[?|?]]; congruence. }
  assert (Hnil := Hgo [] (Forall_nil_2 _)). rewrite !app_nil_r in Hnil. unfold read_by in *. destruct x as [data|e]; cbn in *.
  - destruct (Conn.transport c) eqn:Et; simplify_eq/=; rewrite ?app_nil_r; [by apply Hgo|done].
  - destruct (Conn.transport c) eqn:Et; simplify_eq/=; rewrite ?app_nil_r; [|done].
    eapply account_move; [exact Ha|done|done|by unfold in_hand; rewrite Hpc|by unfold unread; rewrite Hpc|done|done|done|by rewrite Hpc; intuition|by rewrite He].
Qed.
End Steps.

Lemma account_step l c r c' r' i input D : status_ok (conn_status c) -> shape r -> account c r input D -> bytes_ok (read_by l c) ->
  next l c r = To (c', r', i) -> account c' r' (input ++ read_by l c) (D ++ returned i).
Proof.
  intros Hok Hsh Ha Hd Hs. destruct (has_close D) eqn:Hopen; [by eapply account_kept|]. unfold next_step in Hs.
  assert (Hkeep : forall v, match pc r, v with RIdle, RTop | RReserve, RIdle | RError, RIdle | RReading, RIdle | RReading, RTop | REof, RIdle => True | _, _ => False end ->
    forall r', r' = goto v r \/ r' = goto v (set_terminal_seen r) -> account c r' input D).
  { intros v Hv r2 Hr2. assert (Hf : pc r = RReading \/ pc r = REof -> pending_parse_error r = None).
    { intros Hp. by destruct (account_waits c r input D Hsh Ha Hopen) as (He & _); [destruct Hp as [-> | ->]|]. }
    eapply account_move; [exact Ha|..]; destruct Hr2; subst r2; try done; unfold in_hand, unread; destruct (pc r) eqn:Hpc, v; try done; cbn; auto.
    all: naive_solver. }
  destruct (pc r) as [| | |m| | | |x| | |e] eqn:Hpc, l as [| |x'| |]; try done; cbn [read_by] in *; rewrite ?(app_nil_r input).
  - unfold continue in Hs. simplify_eq. rewrite app_nil_r. eapply (Hkeep RTop); auto.
  - by eapply account_top.
  - by eapply account_take.
  - by eapply account_got.
  - by eapply account_reserve.
  - unfold continue in Hs. simplify_eq. rewrite app_nil_r. eapply (Hkeep RIdle); auto.
  - by eapply account_error.
  - unfold continue in Hs. simplify_eq. rewrite app_nil_r. eapply (Hkeep RIdle); auto.
  - by eapply account_reading.
  - unfold continue in Hs. case_match; simplify_eq. rewrite app_nil_r. eapply (Hkeep RTop); auto.
  - unfold continue in Hs. simplify_eq. rewrite app_nil_r. eapply (Hkeep RIdle); auto.
  - by eapply account_after.
  - unfold end_of_input, continue in Hs. destruct (account_waits c r input D Hsh Ha Hopen) as (He & _); [by rewrite Hpc|].
    destruct (send_request _ c); simplify_eq; rewrite app_nil_r; (eapply account_end; [exact Ha|done|by right; right|by auto]).
  - unfold continue in Hs. simplify_eq. rewrite app_nil_r. eapply (Hkeep RIdle); auto.
  - unfold continue in Hs. simplify_eq. rewrite app_nil_r. eapply account_end; [exact Ha| |right; left; by apply terminated|by auto].
    intros _. change (pending_parse_error r = None). unfold shape in Hsh. rewrite Hpc in Hsh.
    destruct Ha as [fr raw H1 H2 H3 H4 H5 H6 H7 H8|H1 H2 H3 Hf H4|reason H1 H2 H3 H4 H5|H1 H2 H3 H4 H5|H1 H2]; try congruence.
    by destruct Hf as [?|[?|[?|?]]]; congruence.
  - unfold return_ in Hs. simplify_eq. rewrite app_nil_r. destruct (account_waits c r input D Hsh Ha Hopen) as (He & _); [by rewrite Hpc|].
    eapply account_end; [exact Ha|done|right; left; by apply terminated|by auto].
Qed.

(** [next] waits for bytes: it has returned everything. *)
Lemma waiting_all c r input D : pc r = RReading -> shape r -> account c r input D -> has_close D = false ->
  sent_by_peer input [] = D.
Proof.
  intros Hpc Hsh Ha Hc. destruct Ha as [fr raw H1 H2 H3 H4 H5 H6 H7 H8|H1 H2 H3 Hf H4|reason H1 H2 H3 H4 H5|H1 H2 H3 H4 H5|H1 H2].
  - rewrite H8 by constructor. unfold shape in Hsh. rewrite Hpc in Hsh. destruct Hsh as (Hu & Em & Eb & _).
    unfold in_hand, unread in *. rewrite Hpc, Hu, ?Em, ?Eb in *. cbn.
    pose proof (v_raw _ _ _ (s_views _ _ _ _ _ _ _ H4)) as Hraw.
    rewrite app_nil_r, ref_run_eq by done. rewrite (H6 eq_refl). by rewrite app_nil_r.
  - destruct Hf as [?|[?|[?|?]]]; congruence.
  - unfold shape in Hsh. rewrite Hpc in Hsh. unfold in_hand in H1. destruct Hsh as (_ & Em & Eb & _). by rewrite Hpc, Em, Eb in H1.
  - destruct H4 as [?|[?|?]]; congruence.
  - congruence.
Qed.

(** ** Along a run *)

Context {E : Type} `{SplitEncoder E} (config : Config.t) (sticky : bool).
#[local] Instance this_reader : SplitReading t := split_reader arch slice_addr.
#[local] Instance this_spec : ReaderSpec t := plain_reader_spec arch slice_addr.
Abbreviation State := (State E t).
Abbreviation step := (Split.step (H0 := this_reader) config sticky).
Abbreviation steps := (Split.steps (H0 := this_reader) config sticky).

(** The bytes the reader takes from the transport in a run. *)
Fixpoint inbound (ls : list label) (s : State) : bytes :=
  match ls with
  | [] => []
  | l :: ls => match step l s with To s' => match l with LReader x => read_by x (conn s) | _ => [] end ++ inbound ls s' | _ => [] end
  end.
(** The messages [next] has returned. *)
Definition got_messages (obs : list observation) : list Message.t := omap (fun o => match o with Got (Some (Ok m)) => Some m | _ => None end) obs.

Definition reader_inv (s : State) (input : bytes) : Prop :=
  shape (reader s) /\ account (conn s) (reader s) input (got_messages (log s)).

Lemma got_messages_snoc obs o : got_messages (obs ++ [o]) = got_messages obs ++ match o with Got (Some (Ok m)) => [m] | _ => [] end.
Proof. unfold got_messages. rewrite omap_app. cbn. by destruct o as [| |[[]|]]. Qed.

(** Only the reader's steps return a message from [next]. *)
Lemma step_log l s s' : step l s = To s' -> (forall x, l <> LReader x) -> got_messages (log s') = got_messages (log s).
Proof.
  destruct l as [ms|m| |a key| | |b a key nonce|x|]; cbn; intros Hs Hl; try (by case_match; simplify_eq); [..|by destruct (Hl x)].
  - unfold app_step, app_write, app_sent in Hs. step_cases; same_base_eqs; cbn; rewrite_parts; rewrite ?got_messages_snoc, ?app_nil_r; done.
  - unfold app_abort in Hs. by step_cases.
  - unfold driver_step, driver_top, driver_select, driver_recv, driver_request, driver_close_timer, driver_heartbeat, control_step,
      control_done, driver_written, timeout_write, driver_act, driver_break in Hs.
    destruct (sync_inbound_base s) as (hb & n & Hsync). rewrite Hsync in Hs. step_cases; same_base_eqs; cbn; by rewrite_parts.
Qed.

Lemma reader_inv_step l s s' input : inv s -> reader_inv s input -> bytes_ok (match l with LReader x => read_by x (conn s) | _ => [] end) ->
  step l s = To s' -> reader_inv s' (input ++ match l with LReader x => read_by x (conn s) | _ => [] end).
Proof.
  intros Hi [Hsh Ha] Hd Hs. pose proof (step_advances config sticky l s s' Hi Hs) as (Hle & _).
  assert (Hother : (forall x, l <> LReader x) -> reader_inv s' input).
  { intros Hl. unfold reader_inv. rewrite (step_reader _ _ _ _ _ Hs Hl), (step_log _ _ _ Hs Hl). split; [done|]. by eapply account_stable. }
  destruct l as [ms|m| |a key| | |b a key nonce|x|]; rewrite ?app_nil_r; try (by apply Hother).
  cbn in Hs. case_match; [done|]. destruct (next_step arch slice_addr x (conn s) (reader s)) as [| |[[c r] i]] eqn:Es; try done.
  pose proof (shape_step _ _ _ _ _ _ Hsh Es) as Hsh'.
  pose proof (account_step _ _ _ _ _ _ _ _ (b_status _ (proj1 Hi)) Hsh Ha Hd Es) as Ha'.
  assert (s' = set_reader r (set_conn c (match i with Some i => observe (Got i) s | None => s end))) as -> by (destruct i; by simplify_eq).
  split; [by destruct i|]. destruct i as [i|]; [|by rewrite app_nil_r in Ha']. cbn. rewrite got_messages_snoc. exact Ha'.
Qed.

Lemma reader_inv_steps ls : forall s s' input, inv s -> reader_inv s input -> bytes_ok (inbound ls s) -> steps ls s = To s' ->
  inv s' /\ reader_inv s' (input ++ inbound ls s).
Proof.
  induction ls as [|l ls IH]; intros s s' input Hi Hr Hd Hs; cbn in *.
  - simplify_eq. by rewrite app_nil_r.
  - destruct (step l s) as [| |s1] eqn:E1; try done. apply bytes_ok_app in Hd as [Hd1 Hd2]. rewrite app_assoc. apply (IH s1); try done.
    + by eapply inv_step.
    + by eapply reader_inv_step.
Qed.
End Receive.
