(* ===== verification/SplitTheorems.v ===== *)
(** * What a split stream promises

    For every interleaving of the application, the driver and the reader, every answer of the transport and every dropped future.  [sticky]: a stream
    that has failed a write fails the following ones too, as a socket does; only the theorems about whole frames use it. *)

From stdpp Require Import base list option strings.
From S2P Require Import Prelude Error Mask Utf8 Frame FrameSpec Protocol ReceiveSpec ProtocolSpec ProtocolProps NextSpec.
From S2P Require Import Heartbeat Output Deflate Compressed Config WebSocket Scripted StreamSpec.
From S2P Require Import Split SplitReader SplitSpec SplitWire SplitOrder SplitSend SplitReaderSpec SplitProps SplitPeer SplitReceive.
Import WebSocketStream (Item).

(** ** Every reader and encoder *)

Section Any.
Context {E R : Type} `{Enc : EncoderSpec E} `{ReaderSpec R}.
Context (config : Config.t) (st : StreamState.t) (tracks : bool) (err : option Error) (e : E) (r : R).
Abbreviation s0 := (fresh_split config st tracks err e r).
Abbreviation ready := (reader_ok (split_conn st tracks err) r).

(** What the tasks of a split stream write is never interleaved within a frame: the bytes the transport has taken are whole frames, one
    after the other, and then at most a part of one frame; whoever writes, whenever a [send] is dropped and whenever the transport fails. *)
Theorem split_frames_whole s : ready -> reach config true s0 s ->
  exists ws w ws', wire s = ws ++ w ++ ws' /\ (length w <= 1)%nat /\ Forall whole ws /\
    exists part rest, concat (map w_frame w) = part ++ rest /\ wire_bytes (wire s) = concat (map w_frame ws) ++ part.
Proof.
  intros Hr Hs. destruct (reach_all _ _ _ _ _ _ Hr _ Hs) as (_ & Hf & _). destruct (frames_shape _ _ _ _ Hf) as [(ws1 & w & ws2 & E1 & Hws1 & Hw & Hws2)|Hall].
  - exists ws1, [w], ws2. split_and!; try done. exists (take (w_sent w) (w_frame w)), (drop (w_sent w) (w_frame w)). cbn.
    rewrite app_nil_r, take_drop. split; [done|]. rewrite E1, wire_bytes_app, whole_bytes by done.
    change (w :: ws2) with ([w] ++ ws2). rewrite wire_bytes_app, (unsent_bytes ws2) by done. unfold wire_bytes. cbn. by rewrite !app_nil_r.
  - exists (wire s), [], []. split_and!; try done; [by rewrite app_nil_r|cbn; lia|]. exists [], []. split; [done|]. by rewrite app_nil_r, whole_bytes.
Qed.

(** [C9] After a Close frame, the application's or the driver's, no frame of a data message is written any more, though
    [send] and the driver race for the sink. *)
Theorem split_no_data_after_close sticky s : ready -> reach config sticky s0 s -> ordered (messages s) = true.
Proof. intros Hr Hs. by apply o_order, (proj2 (reach_order _ _ _ _ _ _ Hr _ _ Hs)). Qed.

(** When [send] has returned [Ok] for messages, their frames are on the wire, whole and in the order of the calls; of the
    frames of the application there is at most one more, of the call in progress or of one that failed or was dropped. *)
Theorem split_send_ok s : ready -> reach config true s0 s ->
  exists sent extra, app_frames (wire s) = sent ++ extra /\ Forall whole sent /\ (length extra <= 1)%nat /\
    (map w_message sent = acked (log s) \/ exists m, app s = ANotify m /\ map w_message sent = acked (log s) ++ [m]).
Proof.
  intros Hr Hs. destruct (reach_all _ _ _ _ _ _ Hr _ Hs) as (_ & _ & _ & (extra & (sent & rest & E1 & E2 & Hw & E3) & Hx)).
  exists sent, rest. split_and!; try done.
  - rewrite <- (length_map w_message), E3. eapply app_extra_length. exact Hx.
  - rewrite E2. destruct (app s); cbn; rewrite ?app_nil_r; eauto.
Qed.

(** [C10] In every state: the lock of the sink is held by exactly the task that is between taking and releasing it; the control channel
    never holds more than 32 requests and permits; when the driver has ended, the transport is closed, a terminal cause is published, the tasks are cancelled and
    no one can queue a request; and each step moves the status only forward, so that the first terminal cause stays. *)
Theorem split_state_invariant sticky s : ready -> reach config sticky s0 s ->
  holders (app s) (Driver.pending_write (driver s)) (Driver.pc (driver s)) = option_list (lock s) /\
  (length (Control.queue (Conn.control (conn s))) + Control.reserved (Conn.control (conn s)) <= SPLIT_CONTROL_CAPACITY)%nat /\
  (Driver.pc (driver s) = DEnd -> Conn.transport (conn s) = TransportState.Closed /\ is_Some (SplitShared.terminal_cause (shared s)) /\
     cancelled s = true /\ Control.rx_open (Conn.control (conn s)) = false) /\
  forall l s', step config sticky l s = To s' -> advances s s'.
Proof.
  intros Hr Hs. pose proof (reach_base _ _ _ _ _ _ Hr _ _ Hs) as Hi. pose proof (proj1 Hi) as [B1 B2 B3 B4 B5 B6 B7 B8].
  split_and!; [done|done| |intros; by eapply step_advances].
  intros Hpc. rewrite Hpc in B3. cbn in B3. apply andb_true_iff in B3 as [Ht%bool_decide_eq_true Hc]. split_and!; try done; [|by apply B6].
  apply terminal_known. specialize (B4 Ht). unfold status_ok, status in *. lia.
Qed.

(** [C12] No task of a split stream panics, with one exception: the reader's own panic apart, a step panics only in the driver, when the
    Close handshake is complete, no closing deadline is armed and the status is terminal.  [lost_deadline_reached] is a run in which that happens. *)
Theorem split_driver_panics sticky s l : ready -> reach config sticky s0 s -> step config sticky l s = Panicked ->
  (exists x, l = LReader x /\ reader_step x (conn s) (reader s) = Panicked) \/ ((exists b a key nonce, l = LDriver b a key nonce) /\ lost_deadline s).
Proof.
  intros Hr Hs Hp. destruct (reach_deadline _ _ _ _ _ _ Hr _ _ Hs) as [Hi Hd]. destruct l as [ms|m| |a key| | |b a key nonce|x|]; cbn in Hp; try (by case_match).
  - by destruct (app_no_panic config sticky a key s).
  - unfold app_abort in Hp. by step_cases.
  - right. split; [eauto|]. exact (driver_panic _ _ _ _ _ _ _ (proj1 Hi) Hd Hp).
  - left. exists x. split; [done|]. by repeat case_match.
Qed.

End Any.

(** [split] makes such a state. *)
Lemma split_fresh ws : exists e r, split ws = fresh_split (WebSocketStream.config ws) (WebSocketStream.state ws)
  (Heartbeat.tracks_inbound_activity (WebSocketStream.heartbeat ws)) (WebSocketStream.pending_parse_error ws) e r /\ SplitReader.pending_request r = None.
Proof. unfold split. destruct (Protocol.split _ _ _) as [a b]. by eexists _, _. Qed.

(** ** The plain reader *)

Section Plain.
Context {SU : Simdutf8} {SUok : Simdutf8Spec}.
Context (arch : Arch) (slice_addr : bytes -> Z) (Harch : arch_ok arch).
Context (role : Role) (c : Config.t) (leftover : option bytes) (sticky : bool).
#[local] Instance here : SplitReading SplitReader.t := split_reader arch slice_addr.
Abbreviation start := (split (WebSocketStream.from_raw_with_leftover role c leftover)).
Abbreviation reference := (fun raw => fst (ref_run (ref_frame (Config.max_message_size c) (Config.validate_text_utf8 c))
  (initial_policy role (Config.max_frame_size c)) None (default [] leftover ++ raw))).
Abbreviation received := (inbound arch slice_addr c sticky).

Lemma start_inv : bytes_ok (default [] leftover) -> inv (H1 := plain_reader_spec arch slice_addr) start /\
  reader_inv (default [] leftover) (Config.max_message_size c) (Config.validate_text_utf8 c) (initial_policy role (Config.max_frame_size c)) start [].
Proof.
  intros Hok. split; [by apply (fresh_inv (H1 := plain_reader_spec arch slice_addr))|]. split; [by intros [? ?]|].
  pose proof (sim_more (Config.max_message_size c) (Config.validate_text_utf8 c) _ _ [] [] None (default [] leftover)
    (sim_new role (Config.max_frame_size c) (Config.max_message_size c) (Config.validate_text_utf8 c)) Hok) as Hsim.
  apply (acc_live _ _ _ _ _ _ _ _ None (default [] leftover)); try done; cbn.
  - by intros ->.
  - unfold SplitReceive.unread. cbn. rewrite orb_false_r. intros Hb%negb_false_iff%bool_decide_eq_true. by rewrite Hb.
  - by intros [? ?].
Qed.

(** [C8] Whatever the other tasks do and however often a call of [next] is dropped and made again, the messages [SplitReader::next]
    returns are, up to the first Close, the first messages of the reference receiver on the leftover of the handshake and the bytes read since, in
    order, none missing and none twice; and while [next] waits for bytes and has not returned a Close, it has returned every message that is complete. *)
Theorem split_reader_delivers ls s : bytes_ok (default [] leftover) -> bytes_ok (received ls start) -> steps c sticky ls start = To s ->
  (forall more, bytes_ok more -> exists rest, reference (received ls start ++ more) = upto_close (got_messages (log s)) ++ rest) /\
  (SplitReader.pc (reader s) = RReading -> has_close (got_messages (log s)) = false -> reference (received ls start) = got_messages (log s)).
Proof.
  intros Hok Hin Hs. destruct (start_inv Hok) as [Hi Hr].
  destruct (reader_inv_steps arch slice_addr Harch _ _ _ _ c sticky ls start s [] Hi Hr Hin Hs) as [_ [Hsh Ha]]. cbn [app] in *. split.
  - intros more Hm. exact (account_prefix _ _ _ _ _ _ _ _ more Ha Hm).
  - intros Hpc Hc. pose proof (waiting_all _ _ _ _ _ _ _ _ Hpc Hsh Ha Hc) as Hw. unfold sent_by_peer in Hw. by rewrite app_nil_r in Hw.
Qed.

End Plain.

(** ** Runs *)

Section Runs.
#[local] Instance std_utf8 : Simdutf8 := simdutf8_std.
#[local] Instance std_reader : SplitReading SplitReader.t := split_reader test_arch (fun _ => 0).
#[local] Instance std_reader_spec : ReaderSpec SplitReader.t := plain_reader_spec test_arch (fun _ => 0).

Definition demo_split (c : Config.t) : State Protocol.t SplitReader.t := split (WebSocketStream.client c).

Abbreviation R := LReader.
Abbreviation A a := (LApp a [1; 2; 3; 4]).
Abbreviation D b a := (LDriver b a [5; 6; 7; 8] 0).
(** [next] is called, and waits for bytes. *)
Definition call_next : list label := [R RCall; R RStep; R RStep].
(** [data] arrives, and is one control message that is handed to the driver and returned. *)
Definition control_arrives (data : bytes) : list label := [R (RRead (Ok data)); R RStep; R RStep; R RStep; R RStep; R RStep].
(** The driver goes from its top to [select!]. *)
Definition to_select : list label := [D BWrite NotReady; D BWrite NotReady].

(** A Ping and a text message: the driver answers the one while [send] writes the other. *)
Definition demo_run : list label :=
  call_next ++ control_arrives [0x89; 1; 9] ++ to_select ++ [D BRequest NotReady] ++ to_select ++
  [LSend (Message.Text [104; 105]); A NotReady; A NotReady; A NotReady; A NotReady; A NotReady; A (Accept 3); A (Accept 5); A (Accept 9);
   D BWrite NotReady; D BWrite NotReady; D BWrite NotReady; D BWrite (Accept 4)].
Definition demo_after (c : Config.t) (ls : list label) : State Protocol.t SplitReader.t :=
  match steps c true ls (demo_split c) with To s => s | _ => demo_split c end.
Definition demo_start (c : Config.t) : State Protocol.t SplitReader.t :=
  fresh_split c StreamState.Open true None (SplitSink.encoder (sink (demo_split c))) (reader (demo_split c)).

Lemma demo_reach c ls : demo_start c = demo_split c -> reach c true (demo_start c) (demo_after c ls).
Proof.
  intros E1. unfold demo_after. destruct (steps c true ls (demo_split c)) as [| |s] eqn:Es; rewrite E1; try apply reach_refl.
  eapply steps_reach; [apply reach_refl|exact Es].
Qed.

Lemma split_frames_whole_witness : exists ws w ws', wire (demo_after Config.default demo_run) = ws ++ w ++ ws' /\ (length w <= 1)%nat /\ Forall whole ws /\
  exists part rest, concat (map w_frame w) = part ++ rest /\ wire_bytes (wire (demo_after Config.default demo_run)) = concat (map w_frame ws) ++ part.
Proof.
  apply (split_frames_whole Config.default StreamState.Open true None (SplitSink.encoder (sink (demo_split Config.default))) (reader (demo_split Config.default)));
    [done|by apply demo_reach].
Defined.

Lemma split_no_data_after_close_witness : ordered (messages (demo_after Config.default demo_run)) = true.
Proof.
  apply (split_no_data_after_close Config.default StreamState.Open true None (SplitSink.encoder (sink (demo_split Config.default))) (reader (demo_split Config.default)) true);
    [done|by apply demo_reach].
Defined.

Lemma split_send_ok_witness : exists sent extra, app_frames (wire (demo_after Config.default demo_run)) = sent ++ extra /\ Forall whole sent /\ (length extra <= 1)%nat /\
  (map w_message sent = acked (log (demo_after Config.default demo_run)) \/
   exists m, app (demo_after Config.default demo_run) = ANotify m /\ map w_message sent = acked (log (demo_after Config.default demo_run)) ++ [m]).
Proof.
  apply (split_send_ok Config.default StreamState.Open true None (SplitSink.encoder (sink (demo_split Config.default))) (reader (demo_split Config.default)));
    [done|by apply demo_reach].
Defined.


Lemma split_state_invariant_witness :
  let s := demo_after Config.default demo_run in
  holders (app s) (Driver.pending_write (driver s)) (Driver.pc (driver s)) = option_list (lock s) /\
  (length (Control.queue (Conn.control (conn s))) + Control.reserved (Conn.control (conn s)) <= SPLIT_CONTROL_CAPACITY)%nat /\
  (Driver.pc (driver s) = DEnd -> Conn.transport (conn s) = TransportState.Closed /\ is_Some (SplitShared.terminal_cause (shared s)) /\
     cancelled s = true /\ Control.rx_open (Conn.control (conn s)) = false) /\
  forall l s', step Config.default true l s = To s' -> advances s s'.
Proof.
  apply (split_state_invariant Config.default StreamState.Open true None (SplitSink.encoder (sink (demo_split Config.default))) (reader (demo_split Config.default)) true);
    [done|by apply demo_reach].
Defined.

(** With a closing budget of zero.  The application's Close finds the sink held by a Pong and gives up: it publishes the end and is about to cancel the tasks.  The
    driver has received the peer's Close in between, when it left the deadline to the local Close; it completes the Pong, answers with a Close, and panics for want
    of a deadline. *)
Definition no_budget : Config.t := Config.set_close_timeout 0 Config.default.
Definition lost_deadline_run : list label :=
  call_next ++ control_arrives [0x89; 0] ++ to_select ++ [D BRequest NotReady] ++ to_select ++
  [D BWrite NotReady; D BWrite NotReady; D BWrite NotReady; D BWrite NotReady] ++
  [LSend (Message.Close None); A NotReady; A NotReady; A NotReady; A NotReady] ++
  call_next ++ control_arrives [0x88; 0] ++ [D BRequest NotReady; A NotReady] ++
  to_select ++ [D BWrite NotReady; D BWrite (Accept 6); D BWrite (Accept 1); D BWrite NotReady] ++
  to_select ++ [D BWrite NotReady; D BWrite NotReady; D BWrite NotReady; D BWrite (Accept 6); D BWrite (Accept 1); D BWrite NotReady].

Lemma split_driver_panics_witness :
  (exists x, D BWrite NotReady = LReader x /\ reader_step x (conn (demo_after no_budget lost_deadline_run)) (reader (demo_after no_budget lost_deadline_run)) = Panicked) \/
  ((exists b a key nonce, D BWrite NotReady = LDriver b a key nonce) /\ lost_deadline (demo_after no_budget lost_deadline_run)).
Proof.
  apply (split_driver_panics no_budget StreamState.Open true None (SplitSink.encoder (sink (demo_split no_budget))) (reader (demo_split no_budget)) true
    (demo_after no_budget lost_deadline_run) (D BWrite NotReady)); [done|by apply demo_reach|by vm_compute].
Defined.

Theorem lost_deadline_reached : steps no_budget true (lost_deadline_run ++ [D BWrite NotReady]) (demo_split no_budget) = Panicked.
Proof. by vm_compute. Qed.

(** A Close has been sent, and the driver knows of it. *)
Definition closing_run : list label :=
  to_select ++ [LSend (Message.Close None); A NotReady; A NotReady; A NotReady; A NotReady; D BRequest NotReady].

Definition reading_run : list label := call_next ++ control_arrives [0x89; 1; 9; 0x81; 1] ++ call_next.
Abbreviation read_so_far := (inbound test_arch (fun _ => 0) Config.default true reading_run (split (WebSocketStream.from_raw_with_leftover Client Config.default None))).
Lemma split_reader_delivers_witness :
  let s := demo_after Config.default reading_run in
  let reference raw := fst (ref_run (ref_frame (Config.max_message_size Config.default) (Config.validate_text_utf8 Config.default))
    (initial_policy Client (Config.max_frame_size Config.default)) None (default [] None ++ raw)) in
  (forall more, bytes_ok more -> exists rest, reference (read_so_far ++ more) = upto_close (got_messages (log s)) ++ rest) /\
  (SplitReader.pc (reader s) = RReading -> has_close (got_messages (log s)) = false -> reference read_so_far = got_messages (log s)).
Proof.
  assert (Hin : read_so_far = [0x89; 1; 9; 0x81; 1]) by (by vm_compute).
  refine (split_reader_delivers (SUok := simdutf8_std_spec) test_arch (fun _ => 0) ltac:(by vm_compute) Client Config.default None true reading_run
    (demo_after Config.default reading_run) _ _ _).
  - constructor.
  - refine (eq_ind_r bytes_ok _ Hin). by repeat constructor.
  - by vm_compute.
Defined.
End Runs.
