(* ===== verification/CompressedStream.v ===== *)
(** * The compressed message stream (src/src/stream/websocket.rs, [CompressedWebSocketStream])

    The message stream with permessage-deflate.  Where [WebSocketStream] parses one message at a time, this one parses everything that has been
    read into a batch, remembers whether the batch has a Close, and hands the messages out one by one; a parse error waits until the
    batch is empty.  The environment is that of WebSocket.v, the codec that of Compressed.v. *)

From stdpp Require Import base list option strings.
From S2P Require Import Prelude Error Mask Utf8 Frame FrameSpec Protocol Heartbeat Cork Output Stream Deflate Compressed Config WebSocket Split SplitReader.

Module CompressedWebSocketStream.
Record t (E D : Type) := Mk {
  protocol : CompressedProtocol.t E D;
  read_buf : bytes;
  has_unprocessed_read_data : bool;
  output : UnifiedOutput.t;
  state : StreamState.t;
  closing_deadline : option Z;
  post_expiry_read_attempted : bool;
  batch_has_close : bool;
  immediate_write_shutdown : bool;
  write_shutdown_complete : bool;
  config : Config.t;
  pending_messages : list Message.t;
  pending_parse_error : option Error;
  pending_control_message : option Message.t;
  pending_terminal_error : option Error;
  flush_on_read : bool;
  close_after_flush : bool;
  heartbeat : Heartbeat.t;
  heartbeat_sleep : option Z;
  high_water_mark : Z;
  low_water_mark : Z
}.
Arguments Mk {E D}. Arguments protocol {E D}. Arguments read_buf {E D}. Arguments has_unprocessed_read_data {E D}. Arguments output {E D}. Arguments state {E D}. Arguments closing_deadline {E D}. Arguments post_expiry_read_attempted {E D}. Arguments batch_has_close {E D}. Arguments immediate_write_shutdown {E D}. Arguments write_shutdown_complete {E D}. Arguments config {E D}. Arguments pending_messages {E D}. Arguments pending_parse_error {E D}. Arguments pending_control_message {E D}. Arguments pending_terminal_error {E D}. Arguments flush_on_read {E D}. Arguments close_after_flush {E D}. Arguments heartbeat {E D}. Arguments heartbeat_sleep {E D}. Arguments high_water_mark {E D}. Arguments low_water_mark {E D}.

Section Setters.
Context {E D : Type}.
Abbreviation t := (t E D).

Definition set_protocol (v : CompressedProtocol.t E D) (s : t) : t :=
  Mk v (read_buf s) (has_unprocessed_read_data s) (output s) (state s) (closing_deadline s) (post_expiry_read_attempted s) (batch_has_close s) (immediate_write_shutdown s) (write_shutdown_complete s) (config s) (pending_messages s) (pending_parse_error s) (pending_control_message s) (pending_terminal_error s) (flush_on_read s) (close_after_flush s) (heartbeat s) (heartbeat_sleep s) (high_water_mark s) (low_water_mark s).
Definition set_read_buf (v : bytes) (s : t) : t :=
  Mk (protocol s) v (has_unprocessed_read_data s) (output s) (state s) (closing_deadline s) (post_expiry_read_attempted s) (batch_has_close s) (immediate_write_shutdown s) (write_shutdown_complete s) (config s) (pending_messages s) (pending_parse_error s) (pending_control_message s) (pending_terminal_error s) (flush_on_read s) (close_after_flush s) (heartbeat s) (heartbeat_sleep s) (high_water_mark s) (low_water_mark s).
Definition set_has_unprocessed_read_data (v : bool) (s : t) : t :=
  Mk (protocol s) (read_buf s) v (output s) (state s) (closing_deadline s) (post_expiry_read_attempted s) (batch_has_close s) (immediate_write_shutdown s) (write_shutdown_complete s) (config s) (pending_messages s) (pending_parse_error s) (pending_control_message s) (pending_terminal_error s) (flush_on_read s) (close_after_flush s) (heartbeat s) (heartbeat_sleep s) (high_water_mark s) (low_water_mark s).
Definition set_output (v : UnifiedOutput.t) (s : t) : t :=
  Mk (protocol s) (read_buf s) (has_unprocessed_read_data s) v (state s) (closing_deadline s) (post_expiry_read_attempted s) (batch_has_close s) (immediate_write_shutdown s) (write_shutdown_complete s) (config s) (pending_messages s) (pending_parse_error s) (pending_control_message s) (pending_terminal_error s) (flush_on_read s) (close_after_flush s) (heartbeat s) (heartbeat_sleep s) (high_water_mark s) (low_water_mark s).
Definition set_state (v : StreamState.t) (s : t) : t :=
  Mk (protocol s) (read_buf s) (has_unprocessed_read_data s) (output s) v (closing_deadline s) (post_expiry_read_attempted s) (batch_has_close s) (immediate_write_shutdown s) (write_shutdown_complete s) (config s) (pending_messages s) (pending_parse_error s) (pending_control_message s) (pending_terminal_error s) (flush_on_read s) (close_after_flush s) (heartbeat s) (heartbeat_sleep s) (high_water_mark s) (low_water_mark s).
Definition set_closing_deadline (v : option Z) (s : t) : t :=
  Mk (protocol s) (read_buf s) (has_unprocessed_read_data s) (output s) (state s) v (post_expiry_read_attempted s) (batch_has_close s) (immediate_write_shutdown s) (write_shutdown_complete s) (config s) (pending_messages s) (pending_parse_error s) (pending_control_message s) (pending_terminal_error s) (flush_on_read s) (close_after_flush s) (heartbeat s) (heartbeat_sleep s) (high_water_mark s) (low_water_mark s).
Definition set_post_expiry_read_attempted (v : bool) (s : t) : t :=
  Mk (protocol s) (read_buf s) (has_unprocessed_read_data s) (output s) (state s) (closing_deadline s) v (batch_has_close s) (immediate_write_shutdown s) (write_shutdown_complete s) (config s) (pending_messages s) (pending_parse_error s) (pending_control_message s) (pending_terminal_error s) (flush_on_read s) (close_after_flush s) (heartbeat s) (heartbeat_sleep s) (high_water_mark s) (low_water_mark s).
Definition set_batch_has_close (v : bool) (s : t) : t :=
  Mk (protocol s) (read_buf s) (has_unprocessed_read_data s) (output s) (state s) (closing_deadline s) (post_expiry_read_attempted s) v (immediate_write_shutdown s) (write_shutdown_complete s) (config s) (pending_messages s) (pending_parse_error s) (pending_control_message s) (pending_terminal_error s) (flush_on_read s) (close_after_flush s) (heartbeat s) (heartbeat_sleep s) (high_water_mark s) (low_water_mark s).
Definition set_immediate_write_shutdown (v : bool) (s : t) : t :=
  Mk (protocol s) (read_buf s) (has_unprocessed_read_data s) (output s) (state s) (closing_deadline s) (post_expiry_read_attempted s) (batch_has_close s) v (write_shutdown_complete s) (config s) (pending_messages s) (pending_parse_error s) (pending_control_message s) (pending_terminal_error s) (flush_on_read s) (close_after_flush s) (heartbeat s) (heartbeat_sleep s) (high_water_mark s) (low_water_mark s).
Definition set_write_shutdown_complete (v : bool) (s : t) : t :=
  Mk (protocol s) (read_buf s) (has_unprocessed_read_data s) (output s) (state s) (closing_deadline s) (post_expiry_read_attempted s) (batch_has_close s) (immediate_write_shutdown s) v (config s) (pending_messages s) (pending_parse_error s) (pending_control_message s) (pending_terminal_error s) (flush_on_read s) (close_after_flush s) (heartbeat s) (heartbeat_sleep s) (high_water_mark s) (low_water_mark s).
Definition set_pending_messages (v : list Message.t) (s : t) : t :=
  Mk (protocol s) (read_buf s) (has_unprocessed_read_data s) (output s) (state s) (closing_deadline s) (post_expiry_read_attempted s) (batch_has_close s) (immediate_write_shutdown s) (write_shutdown_complete s) (config s) v (pending_parse_error s) (pending_control_message s) (pending_terminal_error s) (flush_on_read s) (close_after_flush s) (heartbeat s) (heartbeat_sleep s) (high_water_mark s) (low_water_mark s).
Definition set_pending_parse_error (v : option Error) (s : t) : t :=
  Mk (protocol s) (read_buf s) (has_unprocessed_read_data s) (output s) (state s) (closing_deadline s) (post_expiry_read_attempted s) (batch_has_close s) (immediate_write_shutdown s) (write_shutdown_complete s) (config s) (pending_messages s) v (pending_control_message s) (pending_terminal_error s) (flush_on_read s) (close_after_flush s) (heartbeat s) (heartbeat_sleep s) (high_water_mark s) (low_water_mark s).
Definition set_pending_control_message (v : option Message.t) (s : t) : t :=
  Mk (protocol s) (read_buf s) (has_unprocessed_read_data s) (output s) (state s) (closing_deadline s) (post_expiry_read_attempted s) (batch_has_close s) (immediate_write_shutdown s) (write_shutdown_complete s) (config s) (pending_messages s) (pending_parse_error s) v (pending_terminal_error s) (flush_on_read s) (close_after_flush s) (heartbeat s) (heartbeat_sleep s) (high_water_mark s) (low_water_mark s).
Definition set_pending_terminal_error (v : option Error) (s : t) : t :=
  Mk (protocol s) (read_buf s) (has_unprocessed_read_data s) (output s) (state s) (closing_deadline s) (post_expiry_read_attempted s) (batch_has_close s) (immediate_write_shutdown s) (write_shutdown_complete s) (config s) (pending_messages s) (pending_parse_error s) (pending_control_message s) v (flush_on_read s) (close_after_flush s) (heartbeat s) (heartbeat_sleep s) (high_water_mark s) (low_water_mark s).
Definition set_flush_on_read (v : bool) (s : t) : t :=
  Mk (protocol s) (read_buf s) (has_unprocessed_read_data s) (output s) (state s) (closing_deadline s) (post_expiry_read_attempted s) (batch_has_close s) (immediate_write_shutdown s) (write_shutdown_complete s) (config s) (pending_messages s) (pending_parse_error s) (pending_control_message s) (pending_terminal_error s) v (close_after_flush s) (heartbeat s) (heartbeat_sleep s) (high_water_mark s) (low_water_mark s).
Definition set_close_after_flush (v : bool) (s : t) : t :=
  Mk (protocol s) (read_buf s) (has_unprocessed_read_data s) (output s) (state s) (closing_deadline s) (post_expiry_read_attempted s) (batch_has_close s) (immediate_write_shutdown s) (write_shutdown_complete s) (config s) (pending_messages s) (pending_parse_error s) (pending_control_message s) (pending_terminal_error s) (flush_on_read s) v (heartbeat s) (heartbeat_sleep s) (high_water_mark s) (low_water_mark s).
Definition set_heartbeat (v : Heartbeat.t) (s : t) : t :=
  Mk (protocol s) (read_buf s) (has_unprocessed_read_data s) (output s) (state s) (closing_deadline s) (post_expiry_read_attempted s) (batch_has_close s) (immediate_write_shutdown s) (write_shutdown_complete s) (config s) (pending_messages s) (pending_parse_error s) (pending_control_message s) (pending_terminal_error s) (flush_on_read s) (close_after_flush s) v (heartbeat_sleep s) (high_water_mark s) (low_water_mark s).
Definition set_heartbeat_sleep (v : option Z) (s : t) : t :=
  Mk (protocol s) (read_buf s) (has_unprocessed_read_data s) (output s) (state s) (closing_deadline s) (post_expiry_read_attempted s) (batch_has_close s) (immediate_write_shutdown s) (write_shutdown_complete s) (config s) (pending_messages s) (pending_parse_error s) (pending_control_message s) (pending_terminal_error s) (flush_on_read s) (close_after_flush s) (heartbeat s) v (high_water_mark s) (low_water_mark s).
End Setters.

(** The results of [poll_next].  The loop has one local variable, the deadline whose timer has fired; a part of a turn ends with a [return],
    a [continue], or goes on to the next part. *)
Definition Item : Type := option (result Message.t).

Inductive flow := Return (r : poll Item) | Continue (expired_deadline : option Deadline) | Through.

Section Stream.
Context {E D : Type} `{Codec E D}.
Abbreviation t := (t E D).

Definition on_output (f : UnifiedOutput.t -> UnifiedOutput.t) (s : t) : t := set_output (f (output s)) s.
Definition buffer (s : t) : bytes := CorkBuffer.buffer (UnifiedOutput.write_buf (output s)).
Definition set_buffer (b : bytes) (s : t) : t :=
  on_output (fun o => UnifiedOutput.set_write_buf (CorkBuffer.set_buffer b (UnifiedOutput.write_buf o)) o) s.

(** What both constructors do with the protocol of their role. *)
Definition with_protocol (p : CompressedProtocol.t E D) (c : Config.t) (leftover : option bytes) : t :=
  let read_buf := default [] leftover in
  Mk (CompressedProtocol.with_text_utf8_validation (Config.validate_text_utf8 c) p)
    read_buf (negb (bool_decide (read_buf = []))) (UnifiedOutput.new (Config.write_buffer_size c)) StreamState.Open None false false false false
    c [] None None None false false
    (Heartbeat.new (Config.auto_ping c) (Config.ping_interval c) (Config.idle_timeout c) (Config.pong_timeout c) 0) None
    WebSocketStream.DEFAULT_HIGH_WATER_MARK WebSocketStream.DEFAULT_LOW_WATER_MARK.
Definition server_with_leftover (c : Config.t) (d : DeflateConfig.t) (leftover : option bytes) : t :=
  with_protocol (CompressedProtocol.server (Config.max_frame_size c) (Config.max_message_size c) d) c leftover.
Definition client_with_leftover (c : Config.t) (d : DeflateConfig.t) (leftover : option bytes) : t :=
  with_protocol (CompressedProtocol.client (Config.max_frame_size c) (Config.max_message_size c) d) c leftover.
Definition server (c : Config.t) (d : DeflateConfig.t) : t := server_with_leftover c d None.
Definition client (c : Config.t) (d : DeflateConfig.t) : t := client_with_leftover c d None.

Definition is_closed (s : t) : bool := bool_decide (state s = StreamState.Closed) || CompressedProtocol.is_closed (protocol s).
Definition with_immediate_write_shutdown (s : t) : t := set_immediate_write_shutdown true s.
Definition write_buffer_len (s : t) : Z := CorkBuffer.pending_bytes (UnifiedOutput.write_buf (output s)).
Definition is_backpressured (s : t) : bool := high_water_mark s <? write_buffer_len s.
Definition has_output (s : t) : bool := CorkBuffer.has_data (UnifiedOutput.write_buf (output s)).

(** ** Steps of both halves *)

Definition close_terminal (s : t) : t :=
  let s := set_state StreamState.Closed s in
  let s := set_heartbeat (Heartbeat.stop (heartbeat s)) s in
  let s := set_heartbeat_sleep None s in
  let s := on_output (UnifiedOutput.set_pending_pong None) s in
  on_output (fun o => UnifiedOutput.set_wakers (HalfWakers.wake_both (UnifiedOutput.wakers o)) o) s.

Definition finish_read_close (fallback : option Error) (s : t) : t * Item :=
  let s := close_terminal s in
  let s := set_flush_on_read false s in
  let s := set_close_after_flush false s in
  let s := on_output (UnifiedOutput.set_ping_flush_pending false) s in
  let s := set_pending_messages [] s in
  let close := match pending_control_message s with
               | Some m => if Message.is_close m then Some m else None
               | None => None
               end in
  let s := set_pending_control_message None s in
  let error := pending_terminal_error s in
  let s := set_pending_terminal_error None s in
  (s, WebSocketStream.or_else (Err <$> error) (WebSocketStream.or_else (Ok <$> close) (Err <$> fallback))).

(** [self.pending_messages.pop()] *)
Definition next_pending_message (s : t) : t * option Message.t :=
  match reverse (pending_messages s) with
  | m :: rest => (set_pending_messages (reverse rest) s, Some m)
  | [] => (s, None)
  end.

(** A parse failure is kept until the accepted messages have been delivered. *)
Definition keep_parse_error (e : Error) (s : t) : t :=
  let s := set_pending_parse_error (Some e) s in
  if bool_decide (state s = StreamState.Open) then set_state StreamState.ReadErrorPending s else s.

Section Polling.
Context {T : Type} `{Runtime T} {SU : Simdutf8}.
Context (arch : Arch) (slice_addr : bytes -> Z).
(** Turns for the loops that end when the environment has nothing more. *)
Context (fuel : nat).

Definition W : Type := t * T.
Definition on_stream (f : t -> t) (w : W) : W := (f (fst w), snd w).
Definition now_ms (w : W) : W * Z := let '(inner, v) := elapsed (snd w) in ((fst w, inner), v).
Definition draw_key (w : W) : W * bytes :=
  if bool_decide (Protocol.role (CompressedProtocol.inner (protocol (fst w))) = Client)
  then let '(inner, key) := draw_mask (snd w) in ((fst w, inner), key) else (w, []).

Definition poll_heartbeat_timer (deadline : Z) (w : W) : comp W bool :=
  let '(s, inner) := w in
  match timer_poll fuel (default deadline (heartbeat_sleep s)) deadline inner with
  | Done (timer, inner) r => Done (set_heartbeat_sleep (Some timer) s, inner) r
  | Panic => Panic
  | NoFuel => NoFuel
  end.

Definition poll_closing_expired (w : W) : comp W bool :=
  match closing_deadline (fst w) with
  | None => Done w (Ok false)
  | Some deadline =>
      let '(w, now) := now_ms w in
      if deadline <=? now then Done w (Ok true) else poll_heartbeat_timer deadline w
  end.

Definition begin_closing (w : W) : W :=
  let w := on_stream (on_output (UnifiedOutput.set_pending_pong None)) w in
  let w := on_stream (fun s => set_heartbeat (Heartbeat.stop (heartbeat s)) s) w in
  match closing_deadline (fst w) with
  | Some _ => w
  | None =>
      let w := on_stream (set_heartbeat_sleep None) w in
      let '(w, now) := now_ms w in
      on_stream (set_closing_deadline (Some (wrap 64 (now + Config.close_timeout (config (fst w)) * 1000)))) w
  end.

Definition poll_transport_shutdown (half : Half) (task : Task) (w : W) : W * poll (res IoError unit) :=
  let '(s, inner) := w in
  let '(inner, r) := WebSocket.poll_shutdown inner in
  let s := on_output (UnifiedOutput.poll_shutdown half task r) s in
  ((match r with Ready (Ok _) => set_write_shutdown_complete true s | _ => s end, inner), r).

(** The key of a Pong and the time of a flush, drawn and read before the drain instead of where they are used; nothing else asks for them in between. *)
Definition pong_key (w : W) : W * bytes :=
  match UnifiedOutput.pending_pong (output (fst w)) with Some _ => draw_key w | None => (w, []) end.
Definition flush_time (w : W) : W * Z := if UnifiedOutput.ping_flush_pending (output (fst w)) then now_ms w else (w, 0).

Definition poll_write_out (half : Half) (task : Task) (w : W) : comp W (poll (result unit)) :=
  let '(w, key) := pong_key w in
  let '(w, now) := flush_time w in
  let '(s, inner) := w in
  match UnifiedOutput.poll_drain (CompressedProtocol.encode_pong key (protocol s)) half task now (output s, inner, heartbeat s) with
  | Done (o, inner, hb) (Ok Pending) => Done (set_heartbeat hb (set_output o s), inner) (Ok Pending)
  | Done (o, inner, hb) (Ok (Ready _)) => Done (set_heartbeat hb (set_output o s), inner) (Ok (Ready (Ok tt)))
  | Done (o, inner, hb) (Err e) => Done (close_terminal (set_heartbeat hb (set_output o s)), inner) (Ok (Ready (Err e)))
  | Panic => Panic
  | NoFuel => NoFuel
  end.

(** [self.protocol.encode_message(msg, self.output.write_buf.buffer_mut())]; a Close draws a key of its own. *)
Definition encode_message (msg : Message.t) (w : W) : comp W unit :=
  let '(w, key) := draw_key w in
  let '(w, close_key) := if Message.is_close msg then draw_key w else (w, []) in
  let '(s, inner) := w in
  match CompressedProtocol.encode_message key close_key (protocol s) msg (buffer s) with
  | Done (p, b) r => Done (set_buffer b (set_protocol p s), inner) r
  | Panic => Panic
  | NoFuel => NoFuel
  end.

(** ** Reading *)

Definition poll_read_more (task : Task) (w : W) : W * poll (res IoError Z) :=
  let '(s, inner) := w in
  let s := on_output (UnifiedOutput.poll_read task) s in
  let '(inner, r) := WebSocket.poll_read inner in
  match r with
  | Ready (Ok data) => ((set_read_buf (read_buf s ++ data) s, inner), Ready (Ok (len data)))
  | Ready (Err e) => ((s, inner), Ready (Err e))
  | Pending => ((s, inner), Pending)
  end.

(** [self.heartbeat.on_inbound(now, pong)] when activity is tracked *)
Definition note_inbound (pong : option bytes) (w : W) : W :=
  if Heartbeat.tracks_inbound_activity (heartbeat (fst w)) then
    let '(w, now) := now_ms w in
    on_stream (fun s => set_heartbeat (fst (Heartbeat.on_inbound (heartbeat s) now pong)) s) w
  else w.

Definition process_read_buf (w : W) : comp W unit :=
  let '(s, inner) := w in
  if bool_decide (read_buf s = []) then Done w (Ok tt)
  else
    assert! (bool_decide (pending_messages s = []));
    match CompressedProtocol.process_into_with_activity arch slice_addr (protocol s) (read_buf s) with
    | Done (p, buf, messages, accepted_fragment) r =>
        let w := (set_pending_messages messages (set_read_buf buf (set_protocol p s)), inner) in
        let w := if accepted_fragment then note_inbound None w else w in
        let w := on_stream (fun s => set_batch_has_close (existsb Message.is_close (pending_messages s)) s) w in
        Done (on_stream (fun s => set_pending_messages (reverse (pending_messages s)) s) w) r
    | Panic => Panic
    | NoFuel => NoFuel
    end.

(** ** [poll_next] *)

Definition finished_read (fallback : option Error) (w : W) : comp W flow :=
  let '(s, item) := finish_read_close fallback (fst w) in Done (s, snd w) (Ok (Return (Ready item))).

(** [pending_control_message] is returned, or the turn goes on. *)
Definition deliver_control (w : W) : comp W flow :=
  match pending_control_message (fst w) with
  | Some msg => Done (on_stream (set_pending_control_message None) w) (Ok (Return (Ready (Some (Ok msg)))))
  | None => Done w (Ok Through)
  end.

(** The output is on the wire, and shut down if it had to be. *)
Definition flush_done (w : W) : comp W flow :=
  if close_after_flush (fst w) then finished_read None w else deliver_control (on_stream (set_flush_on_read false) w).

Definition after_flush (task : Task) (w : W) : comp W flow :=
  if close_after_flush (fst w) && negb (write_shutdown_complete (fst w)) then
    let '(w, r) := poll_transport_shutdown Stream task w in
    match r with
    | Ready _ => flush_done w
    | Pending =>
        let! (w, expired) := poll_closing_expired w in
        if expired then finished_read None w else Done w (Ok (Return Pending))
    end
  else flush_done w.

(** The output is blocked; while the stream is not closing this must not prevent it from reading. *)
Definition keep_reading (w : W) : comp W flow :=
  if bool_decide (is_Some (closing_deadline (fst w))) then Done w (Ok (Return Pending)) else deliver_control w.

Definition flush_blocked (w : W) : comp W flow :=
  let! (w, expired) := poll_closing_expired w in
  if expired then finished_read (Some ConnectionClosed) w
  else
    match Heartbeat.next_hard_deadline (heartbeat (fst w)) with
    | Some deadline =>
        let! (w, fired) := poll_heartbeat_timer (deadline_at deadline) w in
        if fired then Done w (Ok (Continue (Some deadline))) else keep_reading w
    | None => keep_reading w
    end.

Definition flush_part (task : Task) (expired : option Deadline) (w : W) : comp W flow :=
  if flush_on_read (fst w) && bool_decide (expired = None) then
    let! (w, r) := poll_write_out Stream task w in
    match r with
    | Ready (Ok _) => after_flush task w
    | Ready (Err e) => finished_read (Some e) w
    | Pending => flush_blocked w
    end
  else Done w (Ok Through).

Definition error_part (w : W) : comp W flow :=
  let s := fst w in
  if bool_decide (pending_messages s = []) then
    match pending_parse_error s with
    | Some error => Done (close_terminal (set_pending_parse_error None s), snd w) (Ok (Return (Ready (Some (Err error)))))
    | None => Done w (Ok Through)
    end
  else Done w (Ok Through).

(** Queue the Close of a timeout. *)
Definition timeout_close (code : Z) (reason : bytes) (error : Error) (w : W) : comp W (option Error) :=
  match encode_message (Message.Close (Some (CloseReason.new code reason))) w with
  | Done w (Err e) => Done (on_stream close_terminal w) (Ok (Some e))
  | Done w (Ok _) =>
      let w := begin_closing w in
      let w := on_stream (set_state StreamState.CloseSent) w in
      let w := on_stream (set_pending_terminal_error (Some error)) w in
      let w := on_stream (set_flush_on_read true) w in
      Done (on_stream (set_close_after_flush true) w) (Ok None)
  | Panic => Panic
  | NoFuel => NoFuel
  end.

Definition ping_part (now : Z) (w : W) : comp W (option Error) :=
  let '(s, inner) := w in
  let '(inner, nonce) := draw_nonce inner in
  let '(_, hb, ping) := Heartbeat.ping_due nonce (heartbeat s) now in
  let w := (set_heartbeat hb s, inner) in
  match ping with
  | Some payload =>
      match encode_message (Message.Ping payload) w with
      | Done w (Err e) => Done (on_stream close_terminal w) (Ok (Some e))
      | Done w (Ok _) =>
          let w := on_stream (on_output (UnifiedOutput.set_ping_flush_pending true)) w in
          Done (on_stream (set_flush_on_read true) w) (Ok None)
      | Panic => Panic
      | NoFuel => NoFuel
      end
  | None => Done w (Ok None)
  end.

Definition deadline_part (expired : option Deadline) (w : W) : comp W flow :=
  let deadline := WebSocketStream.or_else expired
    (if bool_decide (pending_parse_error (fst w) = None) then Heartbeat.next_deadline (heartbeat (fst w)) else None) in
  match deadline with
  | None => Done w (Ok Through)
  | Some deadline =>
      let '(w, now) := now_ms w in
      if deadline_at deadline <=? now then
        let c := config (fst w) in
        let! (w, failed) := match deadline with
          | DPing _ => ping_part now w
          | DPong _ => timeout_close (Config.pong_timeout_close_code c) (bounded_close_reason (Config.pong_timeout_close_reason c))
                         HeartbeatTimeout w
          | DIdle _ => timeout_close CloseReason.GOING_AWAY (str "Connection idle timeout"%string) IdleTimeout w
          end in
        match failed with
        | Some e => Done w (Ok (Return (Ready (Some (Err e)))))
        | None => Done (on_stream (set_heartbeat_sleep None) w) (Ok (Continue None))
        end
      else Done w (Ok Through)
  end.

Definition handle_ping (msg : Message.t) (data : bytes) (w : W) : comp W flow :=
  let answer (w : W) : comp W flow :=
    let w := on_stream (on_output (UnifiedOutput.set_pending_pong (Some data))) w in
    let w := on_stream (set_pending_control_message (Some msg)) w in
    Done (on_stream (set_flush_on_read true) w) (Ok (Continue None)) in
  let deliver (w : W) : comp W flow := Done w (Ok (Return (Ready (Some (Ok msg))))) in
  if write_shutdown_complete (fst w) || batch_has_close (fst w) then deliver w
  else
    let! (w, expired) := poll_closing_expired w in
    if expired then deliver w else answer w.

(** The peer's Close is answered if none has been sent. *)
Definition answer_close (w : W) : W :=
  match state (fst w) with
  | StreamState.Open | StreamState.ReadErrorPending =>
      let '(w, key) := draw_key w in
      let '(s, inner) := w in
      let '(p, b) := CompressedProtocol.encode_close_response key (protocol s) (buffer s) in
      (set_buffer b (set_protocol p s), inner)
  | _ => w
  end.

Definition handle_close (reason : option CloseReason.t) (w : W) : comp W flow :=
  let w := begin_closing w in
  let w := on_stream (fun s => set_read_buf [] (set_pending_parse_error None (set_pending_messages [] s))) w in
  let w := answer_close w in
  let w := on_stream (fun s => set_close_after_flush true (set_flush_on_read true (set_pending_control_message (Some (Message.Close reason)) s))) w in
  Done w (Ok (Continue None)).

Definition message_part (w : W) : comp W flow :=
  match next_pending_message (fst w) with
  | (_, None) => Done w (Ok Through)
  | (s, Some msg) =>
      let w := note_inbound (match msg with Message.Pong payload => Some payload | _ => None end) (s, snd w) in
      match msg with
      | Message.Ping data => handle_ping msg data w
      | Message.Close reason => handle_close reason w
      | _ => Done w (Ok (Return (Ready (Some (Ok msg)))))
      end
  end.

(** The batch of what has been read. *)
Definition read_batch (w : W) (continue_empty : bool) : comp W flow :=
  match process_read_buf w with
  | Done w (Ok _) => Done w (Ok (if continue_empty || negb (bool_decide (pending_messages (fst w) = [])) then Continue None else Through))
  | Done w (Err e) => Done (on_stream (keep_parse_error e) w) (Ok (Continue None))
  | Panic => Panic
  | NoFuel => NoFuel
  end.

Definition leftover_part (w : W) : comp W flow :=
  if has_unprocessed_read_data (fst w) then read_batch (on_stream (set_has_unprocessed_read_data false) w) false else Done w (Ok Through).

(** The read, or a write before it, would wait. *)
Definition read_blocked (on_rest : W -> comp W flow) (w : W) : comp W flow :=
  let! (w, expired) := poll_closing_expired w in
  if expired then finished_read (Some ConnectionClosed) w
  else
    match pending_parse_error (fst w), Heartbeat.next_deadline (heartbeat (fst w)) with
    | None, Some deadline =>
        let! (w, fired) := poll_heartbeat_timer (deadline_at deadline) w in
        if fired then Done w (Ok (Continue (Some deadline))) else on_rest w
    | _, _ => on_rest w
    end.

(** Frames queued by [feed] are written before waiting. *)
Definition write_queued (task : Task) (w : W) : comp W flow :=
  if has_output (fst w) then
    let! (w, r) := poll_write_out Stream task w in
    match r with
    | Ready (Ok _) => Done w (Ok Through)
    | Ready (Err e) => Done w (Ok (Return (Ready (Some (Err e)))))
    | Pending => read_blocked (fun w => if bool_decide (is_Some (closing_deadline (fst w))) then Done w (Ok (Return Pending)) else Done w (Ok Through)) w
    end
  else Done w (Ok Through).

(** A part that is followed by another. *)
Definition part (m : comp W flow) (k : W -> comp W flow) : comp W flow :=
  let! (w, f) := m in
  match f with
  | Return r => Done w (Ok (Return r))
  | Continue p => Done w (Ok (Continue p))
  | Through => k w
  end.

(** The closing budget is spent, and so is the one read after it. *)
Definition last_shutdown (task : Task) (w : W) : comp W flow :=
  let w := if negb (write_shutdown_complete (fst w)) && negb (has_output (fst w)) then fst (poll_transport_shutdown Stream task w) else w in
  finished_read (Some ConnectionClosed) w.

Definition read_part (task : Task) (w : W) : comp W flow :=
  let! (w, closing_expired) := poll_closing_expired w in
  if closing_expired && post_expiry_read_attempted (fst w) then last_shutdown task w
  else
    part (write_queued task w) (fun w =>
    let w := if closing_expired then on_stream (set_post_expiry_read_attempted true) w else w in
    let '(w, r) := poll_read_more task w in
    match r with
    | Ready (Ok n) => if n =? 0 then Done (on_stream close_terminal w) (Ok (Return (Ready None))) else read_batch w true
    | Ready (Err e) => Done (on_stream close_terminal w) (Ok (Return (Ready (Some (Err (from_io e))))))
    | Pending => read_blocked (fun w => Done w (Ok (Return Pending))) w
    end).

(** A turn of the loop. *)
Definition turn (task : Task) (expired : option Deadline) (w : W) : comp W flow :=
  if bool_decide (state (fst w) = StreamState.Closed) then Done w (Ok (Return (Ready None)))
  else
    part (flush_part task expired w) (fun w =>
    part (error_part w) (fun w =>
    part (deadline_part expired w) (fun w =>
    part (message_part w) (fun w =>
    part (leftover_part w) (fun w =>
    read_part task w))))).

Definition next_step (task : Task) (x : option Deadline * W) : option Deadline * W + comp W (poll Item) :=
  match turn task (fst x) (snd x) with
  | Done w (Ok (Return r)) => inr (Done w (Ok r))
  | Done w (Ok (Continue expired)) => inl (expired, w)
  | Done _ (Ok Through) | Done _ (Err _) | Panic => inr Panic
  | NoFuel => inr NoFuel
  end.

Definition poll_next (task : Task) (w : W) : comp W (poll Item) := loop_fuel fuel (next_step task) (None, w).

(** ** Sending *)

Definition poll_ready_drain (task : Task) (w : W) : comp W (poll (result unit)) :=
  poll_write_out Sink task (on_stream (on_output (UnifiedOutput.set_ready_flush_pending true)) w).

Definition poll_ready (task : Task) (w : W) : comp W (poll (result unit)) :=
  let s := fst w in
  if negb (bool_decide (state s = StreamState.Open)) then Done w (Ok (Ready (Err ConnectionClosed)))
  else
    let threshold := if Config.write_coalescing (config s)
                     then Z.max (Z.min (high_water_mark s) (Config.max_backpressure (config s))) 1 else 1 in
    if UnifiedOutput.needs_drain_before_send threshold (output s) then poll_ready_drain task w
    else Done w (Ok (Ready (Ok tt))).

Definition start_send (item : Message.t) (w : W) : comp W unit :=
  if negb (bool_decide (state (fst w) = StreamState.Open)) then Done w (Err ConnectionClosed)
  else
    let w := if Message.is_close item
             then begin_closing (on_stream (set_state StreamState.CloseSent) w) else w in
    encode_message item w.

Definition finish_with (r : result unit) (w : W) : comp W (poll (result unit)) :=
  Done (on_stream (fun s => fst (finish_read_close None s)) w) (Ok (Ready r)).

(** The deadline of the closing handshake bounds the wait. *)
Definition wait_closing (w : W) : comp W (poll (result unit)) :=
  let! (w, expired) := poll_closing_expired w in
  if expired then finish_with (Err ConnectionClosed) w else Done w (Ok Pending).

Definition poll_flush (task : Task) (w : W) : comp W (poll (result unit)) :=
  if bool_decide (state (fst w) = StreamState.Closed) then Done w (Ok (Ready (Err ConnectionClosed)))
  else
    let! (w, r) := poll_write_out Sink task w in
    match r with
    | Ready r => Done w (Ok (Ready r))
    | Pending => wait_closing w
    end.

Definition close_flushed (task : Task) (w : W) : comp W (poll (result unit)) :=
  let! (w, r) := poll_write_out Sink task (begin_closing w) in
  match r with
  | Ready (Ok _) =>
      let '(w, r) := poll_transport_shutdown Sink task w in
      match r with
      | Ready r => finish_with (WebSocketStream.io_result r) w
      | Pending => wait_closing w
      end
  | Ready (Err e) => finish_with (Err e) w
  | Pending => wait_closing w
  end.

Definition poll_close (task : Task) (w : W) : comp W (poll (result unit)) :=
  if bool_decide (state (fst w) = StreamState.Closed) || write_shutdown_complete (fst w) then finish_with (Ok tt) w
  else if bool_decide (state (fst w) = StreamState.Open) then
    match start_send (Message.Close (Some (CloseReason.new 1000 []))) w with
    | Done w (Ok _) => close_flushed task w
    | Done w (Err e) => Done w (Ok (Ready (Err e)))
    | Panic => Panic
    | NoFuel => NoFuel
    end
  else close_flushed task w.

(** *** [close]

    The future of [close] first writes out and flushes, then, if configured, shuts down the sending side; the timer bounds both. *)

Definition flush_write_buf (w : W) : comp W (poll (result unit)) :=
  let '(s, inner) := w in
  match loop_fuel (S (Z.to_nat (write_buffer_len s))) WebSocketStream.flush_step (output s, inner, heartbeat s) with
  | Done (o, inner, _) (Ok (Ready _)) => Done (set_output o s, inner) (Ok (Ready (Ok tt)))
  | Done (o, inner, _) (Ok Pending) => Done (set_output o s, inner) (Ok Pending)
  | Done (o, inner, _) (Err e) => Done (set_output o s, inner) (Ok (Ready (Err e)))
  | Panic => Panic
  | NoFuel => NoFuel
  end.

(** Up to the first await; [None] when there is nothing to do, or the deadline. *)
Definition close_start (code : Z) (reason : bytes) (w : W) : comp W (option Z) :=
  if negb (bool_decide (state (fst w) = StreamState.Open)) then Done w (Ok None)
  else
    let! (w, _u) := encode_message (Message.Close (Some (CloseReason.new code reason))) w in
    let w := begin_closing (on_stream (set_state StreamState.CloseSent) w) in
    Done w (Ok (closing_deadline (fst w))).

Definition close_shutdown (w : W) : comp W (WebSocketStream.CloseStage * poll (result unit)) :=
  let '(s, inner) := w in
  let '(inner, r) := WebSocket.poll_shutdown inner in
  match r with
  | Ready (Ok _) => Done (set_write_shutdown_complete true s, inner) (Ok (WebSocketStream.CloseShuttingDown, Ready (Ok tt)))
  | Ready (Err e) => Done (s, inner) (Ok (WebSocketStream.CloseShuttingDown, Ready (Err (from_io e))))
  | Pending => Done (s, inner) (Ok (WebSocketStream.CloseShuttingDown, Pending))
  end.

(** One poll of the bounded part. *)
Definition close_body (stage : WebSocketStream.CloseStage) (w : W) : comp W (WebSocketStream.CloseStage * poll (result unit)) :=
  match stage with
  | WebSocketStream.CloseShuttingDown => close_shutdown w
  | WebSocketStream.CloseFlushing =>
      let! (w, r) := flush_write_buf w in
      match r with
      | Ready (Ok _) =>
          if immediate_write_shutdown (fst w) then close_shutdown w else Done w (Ok (WebSocketStream.CloseFlushing, Ready (Ok tt)))
      | other => Done w (Ok (WebSocketStream.CloseFlushing, other))
      end
  end.

(** One poll of the future: the stage and the timer it is left with, or its result. *)
Definition close_poll (stage : WebSocketStream.CloseStage) (timer deadline : Z) (w : W) : comp W (WebSocketStream.CloseStage * Z * poll (result unit)) :=
  let finish (r : result unit) (w : W) :=
    (match r with Ok _ => w | Err _ => on_stream (fun s => fst (finish_read_close None s)) w end) in
  let! (w, x) := close_body stage w in
  match x with
  | (stage, Ready r) => Done (finish r w) (Ok (stage, timer, Ready r))
  | (stage, Pending) =>
      match timer_poll fuel timer deadline (snd w) with
      | Done (timer, inner) (Ok true) => Done (finish (Err ConnectionClosed) (fst w, inner)) (Ok (stage, timer, Ready (Err ConnectionClosed)))
      | Done (timer, inner) _ => Done (fst w, inner) (Ok (stage, timer, Pending))
      | Panic => Panic
      | NoFuel => NoFuel
      end
  end.
End Polling.

(** ** [split] *)

Definition split (s : t) : State (CompressedWriter.t E) (CompressedSplitReader.t D) :=
  let c := config s in
  let '(reader_protocol, writer_protocol) := split_compressed (protocol s) (Config.max_frame_size c) (Config.max_message_size c) in
  split_state (split_conn (state s) (Heartbeat.tracks_inbound_activity (heartbeat s)) (pending_parse_error s)) writer_protocol c
    (CompressedSplitReader.Mk reader_protocol (read_buf s) (has_unprocessed_read_data s) (pending_messages s) (pending_parse_error s) None
       false false RIdle).
End Stream.
End CompressedWebSocketStream.
