(* ===== verification/CompressedStreamSpec.v ===== *)
(** * The compressed message stream against the reference receiver

    Whatever the transport, the clock and the timer do, and however the two halves are polled, the messages [poll_next] returns are those of the
    reference receiver of CompressedSpec.v, which decompresses each message once it is complete.  The contract of the environment and the lemmas about the output, the
    timers and the heartbeat are those of StreamSpec.v. *)

From stdpp Require Import base list option strings.
From S2P Require Import Prelude Error Mask Utf8 Frame FrameSpec Protocol ReceiveSpec ProtocolSpec ProtocolProps NextSpec.
From S2P Require Import Heartbeat Cork Output Stream Deflate Compressed CompressedSpec Config WebSocket StreamSpec CompressedStream.
Import CompressedWebSocketStream.

Section CompressedStream.
Context {E D : Type} `{CodecTotal E D}.
Context {T : Type} `{RuntimeSpec T} {SU : Simdutf8} {SUok : Simdutf8Spec}.
Context (arch : Arch) (slice_addr : bytes -> Z) (Harch : arch_ok arch).
Abbreviation t := (t E D).
Abbreviation W := (W (E := E) (D := D) (T := T)).

(** ** Steps *)

Lemma c_now_ok (s : t) (i : T) : exists i' v, now_ms (s, i) = ((s, i'), v) /\ quiet i i' /\ time i <= v <= time i'.
Proof. unfold now_ms. cbn [fst snd]. pose proof (elapsed_quiet i) as [Hq Ht]. destruct (elapsed i) as [i' v]. by exists i', v. Qed.

Lemma c_key_ok (s : t) (i : T) : exists i' key, draw_key (s, i) = ((s, i'), key) /\ quiet i i'.
Proof.
  unfold draw_key. cbn [fst snd]. case_bool_decide; [|exists i, []; split; [done|apply env_refl]].
  pose proof (draw_mask_quiet i) as Hq. destruct (draw_mask i) as [i' key]. by exists i', key.
Qed.

Lemma c_sleep_self (s : t) : set_heartbeat_sleep (heartbeat_sleep s) s = s.
Proof. by destruct s. Qed.
Lemma c_heartbeat_self (s : t) : set_heartbeat (heartbeat s) s = s.
Proof. by destruct s. Qed.

Section Polls.
Context (fuel : nat).

Lemma c_timer_ok deadline (s : t) (i : T) : (budget i < fuel)%nat ->
  exists sl i' b, poll_heartbeat_timer fuel deadline (s, i) = Done (set_heartbeat_sleep sl s, i') (Ok b) /\ quiet i i' /\
    (b = true -> deadline <= time i' /\ (budget i' < budget i)%nat).
Proof.
  intros Hn. unfold poll_heartbeat_timer, timer_poll.
  destruct (timer_loop_ok fuel (if deadline <? default deadline (heartbeat_sleep s) then deadline else default deadline (heartbeat_sleep s))
    deadline i Hn) as (timer' & i' & b & -> & Hq & Hb). by exists (Some timer'), i', b.
Qed.

Lemma c_expired_ok (s : t) (i : T) : (budget i < fuel)%nat ->
  exists sl i' b, poll_closing_expired fuel (s, i) = Done (set_heartbeat_sleep sl s, i') (Ok b) /\ quiet i i' /\
    (b = false -> forall d, closing_deadline s = Some d -> time i < d).
Proof.
  intros Hn. unfold poll_closing_expired. cbn [fst]. destruct (closing_deadline s) as [d|] eqn:Ed.
  - destruct (c_now_ok s i) as (i1 & v & -> & Hq & Ht). destruct (Z.leb_spec d v) as [Hl|Hl].
    + exists (heartbeat_sleep s), i1, true. rewrite c_sleep_self. by split_and!.
    + destruct (c_timer_ok d s i1) as (sl & i2 & b & -> & Hq2 & Hb); [destruct Hq as (_ & _ & ?); lia|].
      exists sl, i2, b. split_and!; try done; [by eapply env_trans|]. intros _ d' [= <-]. lia.
  - exists (heartbeat_sleep s), i, false. rewrite c_sleep_self. by split_and!.
Qed.
End Polls.

Lemma c_write_out_ok half task (s : t) (i : T) : CorkSpec.wf (UnifiedOutput.write_buf (output s)) -> exists o hb i' r,
  poll_write_out half task (s, i) =
    Done (let s' := set_heartbeat hb (set_output o s) in match r with Ready (Err _) => close_terminal s' | _ => s' end, i') (Ok r) /\
  CorkSpec.wf (UnifiedOutput.write_buf o) /\ calmer (heartbeat s) hb /\ quiet i i'.
Proof.
  intros Hw. unfold poll_write_out.
  assert (Hk : exists i1 key, pong_key (s, i) = ((s, i1), key) /\ quiet i i1).
  { unfold pong_key. cbn [fst]. destruct (UnifiedOutput.pending_pong (output s)); [apply c_key_ok|exists i, []; split; [done|apply env_refl]]. }
  destruct Hk as (i1 & key & -> & Hq1).
  assert (Ht : exists i2 now, flush_time (s, i1) = ((s, i2), now) /\ quiet i1 i2).
  { unfold flush_time. cbn [fst]. destruct (UnifiedOutput.ping_flush_pending (output s)); [|exists i1, 0; split; [done|apply env_refl]].
    destruct (c_now_ok s i1) as (i2 & v & -> & Hq & _). by exists i2, v. }
  destruct Ht as (i2 & now & -> & Hq2).
  destruct (OutputSpec.poll_drain_ok (CompressedProtocol.encode_pong key (protocol s)) half task now (output s) i2 (heartbeat s) Hw)
    as ([[o i3] hb] & r & Ed & Hd).
  assert (Hq3 : quiet i2 i3).
  { unfold UnifiedOutput.poll_drain in Ed. destruct (UnifiedOutput.drain _ _ _ _) as [[[o' i'] hb'] [r'|e']| |] eqn:El; try done;
      simplify_eq; exact (loop_quiet _ _ (drain_step_env _ half now) _ _ _ El). }
  rewrite Ed. pose proof (drained_heartbeat _ _ _ _ _ Hd) as Hc. destruct Hd as [Hp _]. pose proof (OutputSpec.pr_wf _ _ _ _ Hp) as Hw'. cbn in Hc, Hw'.
  assert (Hq : quiet i i3) by (eapply env_trans; [|exact Hq3]; by eapply env_trans).
  destruct r as [[|[]]|e]; [by exists o, hb, i3, Pending|by exists o, hb, i3, (Ready (Ok tt))|by exists o, hb, i3, (Ready (Err e))].
Qed.

Lemma c_inbound_ok pong (s : t) (i : T) : exists hb i', note_inbound pong (s, i) = (set_heartbeat hb s, i') /\ quiet i i' /\
  Heartbeat.stopped hb = Heartbeat.stopped (heartbeat s) /\ (pong = None -> calmer (heartbeat s) hb).
Proof.
  unfold note_inbound. cbn [fst]. destruct (Heartbeat.tracks_inbound_activity _).
  - destruct (c_now_ok s i) as (i' & v & -> & Hq & _). exists (fst (Heartbeat.on_inbound (heartbeat s) v pong)), i'.
    split; [done|]. split; [done|]. split; [apply on_inbound_stopped|]. intros ->. apply on_inbound_calmer.
  - exists (heartbeat s), i. rewrite c_heartbeat_self. split; [done|]. split; [apply env_refl|]. split; [done|]. intros _. apply calmer_refl.
Qed.

Lemma c_begin_closing_ok (s : t) (i : T) : exists sl d i', begin_closing (s, i) =
    (set_closing_deadline (Some d) (set_heartbeat_sleep sl (set_heartbeat (Heartbeat.stop (heartbeat s))
      (on_output (UnifiedOutput.set_pending_pong None) s))), i') /\ quiet i i' /\
  (forall d', closing_deadline s = Some d' -> d = d').
Proof.
  unfold begin_closing. cbn [fst on_stream]. change (closing_deadline _) with (closing_deadline s) at 1.
  destruct (closing_deadline s) as [d|] eqn:Ed.
  - exists (heartbeat_sleep s), d, i. split; [|split; [apply env_refl|by intros ? [= ->]]]. destruct s. cbn in *. by subst.
  - unfold on_stream at 1. cbn [fst snd].
    match goal with |- context [now_ms (?s', ?j)] => destruct (c_now_ok s' j) as (i' & v & E' & Hq & _) end.
    exists None. eexists _, i'. split; [|by split; [exact Hq|]]. cbv [on_stream] in *. cbn [fst snd] in *. by rewrite E'.
Qed.

Lemma c_shutdown_ok half task (s : t) (i : T) : exists o b i' r, poll_transport_shutdown half task (s, i) =
    ((set_write_shutdown_complete b (set_output o s), i'), r) /\ quiet i i' /\ UnifiedOutput.write_buf o = UnifiedOutput.write_buf (output s).
Proof.
  unfold poll_transport_shutdown. pose proof (poll_shutdown_quiet i) as Hq. destruct (WebSocket.poll_shutdown i) as [i' r]. cbn in Hq.
  assert (Ho : UnifiedOutput.write_buf (UnifiedOutput.poll_shutdown half task r (output s)) = UnifiedOutput.write_buf (output s)).
  { unfold UnifiedOutput.poll_shutdown. destruct (OutputSpec.settle_output half r (UnifiedOutput.register half task (output s))) as [-> _].
    by destruct (OutputSpec.register_output half task (output s)) as [-> _]. }
  exists (UnifiedOutput.poll_shutdown half task r (output s)), (match r with Ready (Ok _) => true | _ => write_shutdown_complete s end), i', r.
  split; [|done]. f_equal. f_equal. destruct r as [|[[]|e]]; by destruct s.
Qed.

(** The receiving side of the protocol depends neither on the close state nor on the encoder. *)
Definition c_same_reader (p p' : CompressedProtocol.t E D) : Prop := forall max validate pol buf raw fr,
  csim max validate pol p buf raw fr -> csim max validate pol p' buf raw fr.

Lemma c_reader_refl p : c_same_reader p p.
Proof. by intros ? ? ? ? ? ? ?. Qed.

Lemma c_reader_state v p : c_same_reader p (CompressedProtocol.set_inner (Protocol.set_state v (CompressedProtocol.inner p)) p).
Proof. intros max validate pol buf raw fr [? ? [? ? ? ? ?]]. by split. Qed.

Lemma c_reader_encoder e p : c_same_reader p
  (CompressedProtocol.set_deflate (DeflateContext.Mk e (DeflateContext.decoder (CompressedProtocol.deflate p)) (DeflateContext.config (CompressedProtocol.deflate p))) p).
Proof. intros max validate pol buf raw fr [? ? [? ? ? ? ?]]. by split. Qed.

Lemma c_encode_reader key close_key p m b p' b' r : CompressedProtocol.encode_message key close_key p m b = Done (p', b') r -> c_same_reader p p'.
Proof.
  assert (Hd : forall o x, CompressedProtocol.encode_data key p o x b = Done (p', b') r -> c_same_reader p p').
  { intros o x. unfold CompressedProtocol.encode_data, DeflateContext.compress. destruct (codec_compress _ x) as [e [[z|]|err]| |]; intros; simplify_eq; apply c_reader_encoder. }
  destruct m; cbn [CompressedProtocol.encode_message]; [apply Hd|apply Hd|intros [= <- _ _]; apply c_reader_refl|intros [= <- _ _]; apply c_reader_refl|].
  unfold Protocol.encode_message_into. case_bool_decide; intros [= <- _ _]; [apply c_reader_state|]. destruct p. apply c_reader_refl.
Qed.

(** A control message is encoded without the codec. *)
Lemma c_encode_control msg (s : t) (i : T) : Message.is_control msg = true -> exists p b i',
  encode_message msg (s, i) = Done (set_buffer b (set_protocol p s), i') (Ok tt) /\ c_same_reader (protocol s) p /\ quiet i i'.
Proof.
  intros Hm. unfold encode_message. destruct (c_key_ok s i) as (i1 & key & -> & Hq1).
  match goal with |- context [let '(w, close_key) := ?x in _] => assert (Hx : exists i2 close_key, x = ((s, i2), close_key) /\ quiet i1 i2) end.
  { destruct (Message.is_close msg); [apply c_key_ok|exists i1, []; split; [done|apply env_refl]]. }
  destruct Hx as (i2 & close_key & -> & Hq2).
  destruct (CompressedProtocol.encode_message key close_key (protocol s) msg (buffer s)) as [[p b] r| |] eqn:Ee.
  - exists p, b, i2. pose proof (c_encode_reader _ _ _ _ _ _ _ _ Ee) as Hr. assert (r = Ok tt) as -> by (destruct msg; cbn in Ee; by simplify_eq).
    split; [done|]. split; [done|by eapply env_trans].
  - by destruct msg.
  - by destruct msg.
Qed.

Lemma c_buffer_wf b (s : t) : CorkSpec.wf (UnifiedOutput.write_buf (output s)) -> CorkSpec.wf (UnifiedOutput.write_buf (output (set_buffer b s))).
Proof. intros [? ?]. by split. Qed.

(** ** The invariant *)

Section Delivery.
Context (leftover : bytes) (max : Z) (Hmax : 0 <= max) (validate : bool) (pol : policy) (decoder : D).
Abbreviation sim := (csim max validate pol).
Abbreviation ref := (ref_run (cref_frame max validate true) pol).

(** The messages of the reference receiver on what has been read and what may follow. *)
Definition c_messages (i : T) (more : bytes) : list Message.t := fst (ref (None, decoder) (leftover ++ taken i ++ more)).

(** Messages parsed and not yet returned. *)
Definition c_held (s : t) : list Message.t := option_list (pending_control_message s) ++ reverse (pending_messages s).

(** What has been read is delivered, held, or in the buffer: unparsed handshake bytes, or the beginning of a frame. *)
Definition c_accounted (L : list Message.t) (s : t) (i : T) : Prop :=
  match pending_parse_error s with
  | None => exists fr raw, sim (protocol s) (read_buf s) raw fr /\
      (if has_unprocessed_read_data s then raw = read_buf s /\ read_buf s <> [] /\ pending_messages s = [] else spec_parse pol raw = Need) /\
      forall more, bytes_ok more -> c_messages i more = L ++ c_held s ++ fst (ref fr (raw ++ more))
  | Some _ => has_unprocessed_read_data s = false /\ forall more, bytes_ok more -> c_messages i more = L ++ c_held s
  end.

(** Reading goes on. *)
Definition c_live (L : list Message.t) (s : t) (i : T) : Prop :=
  close_after_flush s = false /\ pending_terminal_error s = None /\
  (forall m, pending_control_message s = Some m -> Message.is_close m = false /\ flush_on_read s = true) /\
  c_accounted L s i.

Definition c_prefix (L : list Message.t) (i : T) : Prop := forall more, bytes_ok more -> exists rest, c_messages i more = L ++ rest.

Definition c_close (s : t) : list Message.t :=
  match pending_control_message s with Some m => if Message.is_close m then [m] else [] | None => [] end.

(** A Close is to be flushed, and then the stream ends. *)
Definition c_ending (L : list Message.t) (s : t) (i : T) : Prop :=
  close_after_flush s = true /\ flush_on_read s = true /\ is_Some (closing_deadline s) /\ c_prefix (L ++ c_close s) i.

(** [d0]: the deadline of the closing handshake, if it was set before. *)
Context (d0 : option Z).
Definition c_common (s : t) : Prop :=
  CorkSpec.wf (UnifiedOutput.write_buf (output s)) /\ (is_Some (closing_deadline s) -> Heartbeat.stopped (heartbeat s) = true) /\
  (forall d, d0 = Some d -> closing_deadline s = Some d).

(** The heartbeat changes, and the queue may, but not whether the heartbeat runs. *)
Ltac keep_closing Hc E :=
  let H1 := fresh in let H2 := fresh in let Hd := fresh in
  destruct Hc as [_ [H1 H2]]; split; [intros Hd; etransitivity; [exact E|exact (H1 Hd)]|exact H2].

Definition c_inv (L : list Message.t) (s : t) (i : T) : Prop :=
  c_common s /\ ((state s <> StreamState.Closed /\ (c_live L s i \/ c_ending L s i)) \/ (state s = StreamState.Closed /\ c_prefix L i)).

(** *** A poll that began at time [t0] *)

Context (fuel : nat) (t0 : Z).
Definition c_world (i : T) : Prop := t0 <= time i /\ (budget i < fuel)%nat.

Definition c_returned (L : list Message.t) (w : W) (r : poll Item) : Prop :=
  match r with
  | Pending => c_inv L (fst w) (snd w) /\ state (fst w) <> StreamState.Closed /\
      (closing_deadline (fst w) = None -> c_messages (snd w) [] = L) /\
      (forall d, closing_deadline (fst w) = Some d -> t0 < d)
  | Ready None | Ready (Some (Err _)) => c_inv L (fst w) (snd w) /\ state (fst w) = StreamState.Closed
  | Ready (Some (Ok m)) => c_inv (L ++ [m]) (fst w) (snd w) /\ (Message.is_close m = true -> state (fst w) = StreamState.Closed)
  end.

Definition c_nothing (s : t) : bool := bool_decide (pending_messages s = []) && bool_decide (pending_parse_error s = None).

(** How far a turn is from the end, the budget and the Pings aside. *)
Definition c_weight (s : t) : nat :=
  if close_after_flush s then 1
  else match pending_control_message s with
       | Some _ => 2
       | None => if c_nothing s then (if has_unprocessed_read_data s then 5 else 4) else 3
       end.
Definition c_rank (s : t) (i : T) : nat := 10 * budget i + 10 * pings (heartbeat s) + c_weight s.

Definition c_expired (expired : option Deadline) (s : t) (i : T) : Prop := forall d, expired = Some d -> deadline_at d <= time i /\
  (Heartbeat.next_deadline (heartbeat s) = Some d \/ Heartbeat.next_hard_deadline (heartbeat s) = Some d).

(** At the head of the loop. *)
Definition c_top (L : list Message.t) (expired : option Deadline) (s : t) (i : T) : Prop := c_world i /\ c_inv L s i /\ c_expired expired s i.

(** A part of a turn that started with rank [R]; [P] holds where the next part begins. *)
Definition c_part_ok (L : list Message.t) (R : nat) (P : t -> T -> Prop) (m : comp W flow) : Prop :=
  match m with
  | Done w (Ok (Return r)) => c_returned L w r
  | Done w (Ok (Continue e)) => c_top L e (fst w) (snd w) /\ (c_rank (fst w) (snd w) < R)%nat
  | Done w (Ok Through) => P (fst w) (snd w)
  | _ => False
  end.

Lemma c_part_bind L R P Q m k : c_part_ok L R P m -> (forall s i, P s i -> c_part_ok L R Q (k (s, i))) -> c_part_ok L R Q (part m k).
Proof. intros Hm Hk. unfold part, run_bind. destruct m as [[s i] [[r|e|]|e]| |]; cbn in *; try done. by apply Hk. Qed.

Lemma c_quiet_world i i' : quiet i i' -> c_world i -> c_world i'.
Proof. intros (_ & ? & ?) [? ?]. split; lia. Qed.
Lemma c_quiet_all i i' more : quiet i i' -> c_messages i' more = c_messages i more.
Proof. intros (Et & _). unfold c_messages. by rewrite Et. Qed.

Lemma c_quiet_accounted L s i i' : quiet i i' -> c_accounted L s i -> c_accounted L s i'.
Proof.
  intros Hq. unfold c_accounted. destruct (pending_parse_error s).
  - intros [? Ha]. split; [done|]. intros more Hm. rewrite (c_quiet_all i i') by done. by apply Ha.
  - intros (fr & raw & Hs & Hu & Ha). exists fr, raw. split; [done|]. split; [done|]. intros more Hm. rewrite (c_quiet_all i i') by done. by apply Ha.
Qed.

Lemma c_quiet_prefix L i i' : quiet i i' -> c_prefix L i -> c_prefix L i'.
Proof. intros Hq Hp more Hm. rewrite (c_quiet_all i i') by done. by apply Hp. Qed.

(** Reading, or about to end. *)
Definition c_going (L : list Message.t) (s : t) (i : T) : Prop := c_live L s i \/ c_ending L s i.

Lemma c_quiet_live L s i i' : quiet i i' -> c_live L s i -> c_live L s i'.
Proof. intros Hq (? & ? & ? & Ha). split_and!; try done. by eapply c_quiet_accounted. Qed.

Lemma c_quiet_going L s i i' : quiet i i' -> c_going L s i -> c_going L s i'.
Proof. intros Hq [Hl|(? & ? & ? & ?)]; [left; by eapply c_quiet_live|right; split_and!; try done; by eapply c_quiet_prefix]. Qed.

Lemma c_going_prefix L s i : c_going L s i -> c_prefix L i.
Proof.
  intros [(_ & _ & _ & Ha)|(_ & _ & _ & Hp)] more Hm.
  - unfold c_accounted in Ha. destruct (pending_parse_error s); [destruct Ha as [_ Ha]|destruct Ha as (fr & raw & _ & _ & Ha)]; eexists; by apply Ha.
  - destruct (Hp more Hm) as [rest ->]. rewrite <- app_assoc. by eexists.
Qed.

Lemma c_quiet_inv L s i i' : quiet i i' -> c_inv L s i -> c_inv L s i'.
Proof.
  intros Hq [Hc [[Hs Hl]|[Hs Hp]]]; (split; [done|]); [left; split; [done|by eapply c_quiet_going]|right; split; [done|by eapply c_quiet_prefix]].
Qed.

Lemma c_inv_prefix L s i : c_inv L s i -> c_prefix L i.
Proof. intros [_ [[_ Hl]|[_ ?]]]; [by eapply c_going_prefix|done]. Qed.

(** What is held loses its head to what has been delivered, or is only rearranged. *)
Definition c_reader_of (s : t) := (protocol s, read_buf s, has_unprocessed_read_data s, pending_parse_error s).

Lemma c_accounted_move L L' s s' i : c_accounted L s i -> c_reader_of s' = c_reader_of s -> L' ++ c_held s' = L ++ c_held s ->
  (pending_messages s = [] -> pending_messages s' = []) -> c_accounted L' s' i.
Proof.
  unfold c_accounted, c_reader_of. intros Ha [= -> -> -> ->] Eh Em. destruct (pending_parse_error s).
  - destruct Ha as [? Ha]. split; [done|]. intros more Hm. by rewrite Ha, Eh.
  - destruct Ha as (fr & raw & Hs & Hu & Ha). exists fr, raw. split; [done|]. split; [destruct (has_unprocessed_read_data s); [|done]; destruct Hu as (? & ? & ?); auto|].
    intros more Hm. by rewrite Ha, !app_assoc, Eh.
Qed.

(** *** Ends of a poll *)

Lemma c_terminal_common s : c_common s -> c_common (close_terminal s).
Proof. intros (Hw & _ & Hd). split; [exact Hw|]. split; [done|exact Hd]. Qed.

Lemma c_terminal_inv L s i : c_common s -> c_prefix L i -> c_inv L (close_terminal s) i.
Proof. intros Hc Hp. split; [by apply c_terminal_common|by right]. Qed.

Lemma c_finish_inv L fb s i : c_common s -> c_prefix L i -> c_inv L (fst (finish_read_close fb s)) i /\ state (fst (finish_read_close fb s)) = StreamState.Closed.
Proof. intros (Hw & _ & Hd) Hp. split; [|done]. split; [split; [exact Hw|split; [done|exact Hd]]|by right]. Qed.

Lemma c_finish_item fb (s : t) : snd (finish_read_close fb s) =
  WebSocketStream.or_else (Err <$> pending_terminal_error s) (WebSocketStream.or_else (Ok <$> List.hd_error (c_close s)) (Err <$> fb)).
Proof. destruct s. unfold c_close. cbn. destruct pending_control_message0 as [m|]; [|done]. by destruct (Message.is_close m). Qed.

Lemma c_finished_ok L fb R P s i : c_common s -> c_going L s i -> c_part_ok L R P (finished_read fb (s, i)).
Proof.
  intros Hc Hl. pose proof (c_going_prefix _ _ _ Hl) as Hp. pose proof (c_finish_item fb s) as Hi.
  assert (Hend : forall L', c_prefix L' i -> c_inv L' (fst (finish_read_close fb s)) i) by (intros L' HL; by apply c_finish_inv).
  destruct (c_finish_inv L fb s i Hc Hp) as [_ Hs]. unfold finished_read. cbn [fst snd]. destruct (finish_read_close fb s) as [s' item]. cbn [fst snd] in *.
  destruct item as [[m|e]|]; cbn [c_part_ok c_returned fst snd]; [|by split; [apply Hend|]..]. split; [|done]. apply Hend.
  destruct Hl as [(_ & Ht & Hctl & _)|(_ & _ & _ & Hpre)].
  - rewrite Ht in Hi. unfold c_close in Hi. destruct (pending_control_message s) as [m'|]; [destruct (Hctl m' eq_refl) as [Hm _]; rewrite Hm in Hi|]; by destruct fb.
  - destruct (pending_terminal_error s); [done|]. unfold c_close in *. destruct (pending_control_message s) as [m'|]; [|by destruct fb].
    destruct (Message.is_close m'); [|by destruct fb]. cbn in Hi. by simplify_eq.
Qed.

Lemma c_suspend_ok L R P s i d : c_common s -> state s <> StreamState.Closed -> c_going L s i -> closing_deadline s = Some d -> t0 < d ->
  c_part_ok L R P (Done (s, i) (Ok (Return Pending))).
Proof. intros Hc Hs Hl Hd Ht. cbn. split; [by split; [|left]|]. split; [done|]. rewrite Hd. split; [done|]. by intros ? [= <-]. Qed.

(** *** Flushing from the read side *)

Lemma c_weight_pos s : (1 <= c_weight s <= 5)%nat.
Proof. unfold c_weight. repeat case_match; lia. Qed.
Lemma c_rank_le s i s' i' : quiet i i' -> (pings (heartbeat s') <= pings (heartbeat s))%nat -> (c_weight s' <= c_weight s)%nat -> (c_rank s' i' <= c_rank s i)%nat.
Proof. intros (_ & _ & ?). unfold c_rank. lia. Qed.
Lemma c_rank_spent s i s' i' : (budget i' < budget i)%nat -> (pings (heartbeat s') <= pings (heartbeat s))%nat -> (c_rank s' i' < c_rank s i)%nat.
Proof. intros. unfold c_rank. pose proof (c_weight_pos s). pose proof (c_weight_pos s'). lia. Qed.

(** Between the parts of a turn. *)
Definition c_between (L : list Message.t) (expired : option Deadline) (R : nat) (s : t) (i : T) : Prop :=
  c_world i /\ c_common s /\ state s <> StreamState.Closed /\ c_live L s i /\
  (expired = None -> pending_control_message s = None) /\ c_expired expired s i /\ (c_rank s i <= R)%nat.

Lemma c_deliver_ok L R s i : c_world i -> c_common s -> state s <> StreamState.Closed -> c_live L s i ->
  (c_rank s i <= R)%nat -> c_part_ok L R (c_between L None R) (deliver_control (s, i)).
Proof.
  intros Hw Hc Hs Hl HR. unfold deliver_control. cbn [fst]. destruct (pending_control_message s) as [m|] eqn:Em; [|by split_and!].
  destruct Hl as (Hcaf & Hterm & Hctl & Ha). destruct (Hctl m Em) as [Hm _]. cbn. split; [|by rewrite Hm].
  split; [done|]. left. split; [done|]. left. split_and!; try done.
  eapply c_accounted_move; [exact Ha|done| |done]. unfold c_held. cbn. by rewrite Em, <- app_assoc.
Qed.

Lemma c_flush_done_ok L R s i : c_world i -> c_common s -> state s <> StreamState.Closed -> c_going L s i ->
  (c_rank s i <= R)%nat -> c_part_ok L R (c_between L None R) (flush_done (s, i)).
Proof.
  intros Hw Hc Hs Hl HR. unfold flush_done. cbn [fst]. destruct (close_after_flush s) eqn:Ecaf; [by eapply c_finished_ok|].
  destruct Hl as [(? & ? & Hctl & Ha)|(? & _)]; [|congruence]. unfold deliver_control. cbn [fst snd on_stream].
  change (pending_control_message (set_flush_on_read false s)) with (pending_control_message s).
  destruct (pending_control_message s) as [m|] eqn:Em.
  - destruct (Hctl m eq_refl) as [Hm _]. cbn. split; [|by rewrite Hm]. split; [done|]. left. split; [done|]. left. split_and!; try done.
    eapply c_accounted_move; [exact Ha|done| |done]. unfold c_held. cbn. by rewrite Em, <- app_assoc.
  - cbn. split_and!; try done. unfold c_live. cbn. rewrite Em. by split_and!.
Qed.

Lemma c_after_flush_ok task L R s i : c_world i -> c_common s -> state s <> StreamState.Closed -> c_going L s i ->
  (c_rank s i <= R)%nat -> c_part_ok L R (c_between L None R) (after_flush fuel task (s, i)).
Proof.
  intros Hw Hc Hs Hl HR. unfold after_flush. cbn [fst]. destruct (_ && _) eqn:Eb; [|by apply c_flush_done_ok].
  apply andb_prop in Eb as [Ecaf _]. destruct Hl as [(? & _)|He]; [congruence|].
  destruct (c_shutdown_ok Stream task s i) as (o & st & i' & r & -> & Hq & Ho). set (s1 := set_write_shutdown_complete st (set_output o s)).
  assert (Hc' : c_common s1) by (destruct Hc; split; [cbn; by rewrite Ho|done]).
  assert (Hl1 : c_going L s1 i') by (apply (c_quiet_going _ _ i _ Hq); right; exact He).
  pose proof (c_quiet_world _ _ Hq Hw) as Hw1. destruct r as [|r].
  - destruct (c_expired_ok fuel s1 i') as (sl & i2 & b & -> & Hq2 & Hf); [by apply Hw1|]. cbn [run_bind].
    pose proof (c_quiet_going _ _ _ _ Hq2 Hl1) as Hl2.
    destruct b; [apply c_finished_ok; [exact Hc'|exact Hl2]|].
    destruct He as (? & ? & [d Hd] & ?). eapply c_suspend_ok; [exact Hc'|exact Hs|exact Hl2|exact Hd|]. destruct Hw1 as [? ?]. specialize (Hf eq_refl d Hd). lia.
  - apply c_flush_done_ok; [done|exact Hc'|exact Hs|exact Hl1|]. etrans; [|exact HR]. by apply c_rank_le.
Qed.

Lemma c_blocked_ok L R s i : c_world i -> c_common s -> state s <> StreamState.Closed -> c_going L s i ->
  (c_rank s i <= R)%nat -> c_part_ok L R (c_between L None R) (flush_blocked fuel (s, i)).
Proof.
  intros Hw Hc Hs Hl HR. unfold flush_blocked. destruct (c_expired_ok fuel s i) as (sl & i2 & b & -> & Hq2 & Hf); [by apply Hw|]. cbn [run_bind fst].
  pose proof (c_quiet_going _ _ _ _ Hq2 Hl) as Hl2. pose proof (c_quiet_world _ _ Hq2 Hw) as Hw2.
  destruct b; [apply c_finished_ok; [exact Hc|exact Hl2]|]. specialize (Hf eq_refl).
  assert (Hkeep : forall sl' i3, quiet i2 i3 -> c_part_ok L R (c_between L None R) (keep_reading (set_heartbeat_sleep sl' s, i3))).
  { intros sl' i3 Hq3. unfold keep_reading. cbn [fst]. change (closing_deadline (set_heartbeat_sleep sl' s)) with (closing_deadline s).
    pose proof (c_quiet_going _ _ _ _ Hq3 Hl2) as Hl3. case_bool_decide as Hd.
    - destruct Hd as [d Hd]. eapply c_suspend_ok; [exact Hc|exact Hs|exact Hl3|exact Hd|]. destruct Hw as [? _]. specialize (Hf d Hd). lia.
    - destruct Hl3 as [Hl3|(_ & _ & ? & _)]; [|done]. apply c_deliver_ok; [by eapply c_quiet_world|exact Hc|exact Hs|exact Hl3|].
      etrans; [|exact HR]. apply c_rank_le; [by eapply env_trans|reflexivity|reflexivity]. }
  change (heartbeat (set_heartbeat_sleep sl s)) with (heartbeat s).
  destruct (Heartbeat.next_hard_deadline (heartbeat s)) as [d|] eqn:Ed; [|apply Hkeep, env_refl].
  destruct (c_timer_ok fuel (deadline_at d) (set_heartbeat_sleep sl s) i2) as (sl' & i3 & b & -> & Hq3 & Hb); [by apply Hw2|]. cbn [run_bind].
  destruct b; [|by apply Hkeep]. destruct (Hb eq_refl) as [Ht Hlt]. cbn [c_part_ok fst snd]. split; [split; [by eapply c_quiet_world|]; split|].
  - split; [exact Hc|]. left. split; [exact Hs|exact (c_quiet_going _ _ _ _ Hq3 Hl2)].
  - intros d' [= <-]. split; [exact Ht|]. right. exact Ed.
  - eapply Nat.lt_le_trans; [|exact HR]. apply c_rank_spent; [|reflexivity]. destruct Hq2 as (_ & _ & ?). lia.
Qed.

Lemma c_flush_part_ok task L expired s i : c_top L expired s i -> state s <> StreamState.Closed ->
  let R := c_rank s i in c_part_ok L R (c_between L expired R) (flush_part fuel task expired (s, i)).
Proof.
  intros (Hw & (Hc & Hl) & He) Hs R. destruct Hl as [[_ Hl]|[? _]]; [|done]. unfold flush_part. cbn [fst].
  assert (Hexp : forall d, expired = Some d -> c_live L s i).
  { intros d Ed. destruct Hl as [|(_ & _ & Hd & _)]; [done|]. exfalso. destruct (He d Ed) as [_ Hn%deadline_running].
    destruct Hc as (_ & Hst & _). rewrite Hst in Hn by done. done. }
  destruct (flush_on_read s) eqn:Ef; [case_bool_decide as Hx|]; cbn [andb].
  - subst expired. destruct (c_write_out_ok Stream task s i (proj1 Hc)) as (o & hb & i' & r & -> & Hwf & [Hst Hpi] & Hq).
    set (s1 := set_heartbeat hb (set_output o s)). cbn [run_bind].
    assert (Hc1 : c_common s1) by (split; [exact Hwf|keep_closing Hc Hst]).
    assert (Hl1 : c_going L s1 i') by (destruct (c_quiet_going _ _ _ _ Hq Hl) as [Hg|Hg]; [left; exact Hg|right; exact Hg]).
    assert (HR : (c_rank s1 i' <= R)%nat) by (apply c_rank_le; [done|exact Hpi|reflexivity]).
    apply (c_quiet_world _ _ Hq) in Hw. destruct r as [|[[]|e]].
    + by apply c_blocked_ok.
    + by apply c_after_flush_ok.
    + apply c_finished_ok; [exact (c_terminal_common s1 Hc1)|]. destruct Hl1 as [Hg|Hg]; [left; exact Hg|right; exact Hg].
  - cbn. destruct expired as [d|]; [|done]. split_and!; try done. by eapply Hexp.
  - cbn. destruct Hl as [Hl|(_ & ? & _)]; [|congruence]. split_and!; try done. intros _.
    destruct Hl as (_ & _ & Hctl & _). destruct (pending_control_message s) as [m|] eqn:Em; [|done]. destruct (Hctl m eq_refl). congruence.
Qed.

(** An error is not left behind an empty batch. *)
Definition c_errors_last (s : t) : Prop := pending_messages s = [] -> pending_parse_error s = None.

Lemma c_error_part_ok L expired R s i : c_between L expired R s i ->
  c_part_ok L R (fun s i => c_between L expired R s i /\ c_errors_last s) (error_part (s, i)).
Proof.
  intros Hb. pose proof Hb as (_ & Hc & _ & Hl & _). unfold error_part. cbn [fst snd]. case_bool_decide as Em; [|split; [exact Hb|by intros ?]].
  destruct (pending_parse_error s) as [e|] eqn:Ee; [|split; [exact Hb|by intros ?]]. cbn [c_part_ok c_returned fst snd]. split; [|done].
  apply c_terminal_inv; [exact Hc|]. apply (c_going_prefix L s). by left.
Qed.

(** *** Deadlines *)

Definition c_timed_out (L : list Message.t) (R : nat) (m : comp W (option Error)) : Prop :=
  match m with
  | Done w (Ok None) => c_world (snd w) /\ c_inv L (fst w) (snd w) /\ (c_rank (fst w) (snd w) < R)%nat
  | _ => False
  end.

Lemma c_timeout_ok code reason error L R s i : c_world i -> c_common s -> state s <> StreamState.Closed -> c_live L s i ->
  (c_rank s i <= R)%nat -> c_timed_out L R (timeout_close code reason error (s, i)).
Proof.
  intros Hw Hc Hs Hl HR. unfold timeout_close.
  destruct (c_encode_control (Message.Close (Some (CloseReason.new code reason))) s i eq_refl) as (p & b & i1 & -> & _ & Hq1).
  set (s1 := set_buffer b (set_protocol p s)). destruct (c_begin_closing_ok s1 i1) as (sl & d & i2 & -> & Hq2 & Hd).
  assert (Hq : quiet i i2) by (by eapply env_trans). cbn [c_timed_out on_stream fst snd]. split; [by eapply c_quiet_world|]. split.
  - split; [split; [exact (c_buffer_wf b _ (proj1 Hc))|split; [done|intros d' Ed; by rewrite (Hd d' (proj2 (proj2 Hc) d' Ed))]]|]. left. split; [done|]. right. split_and!; try done.
    intros more Hm. destruct (c_going_prefix _ _ _ (or_introl Hl) more Hm) as [rest Er]. exists rest. rewrite (c_quiet_all i i2), Er by done.
    f_equal. destruct Hl as (_ & _ & Hctl & _). unfold c_close. change (pending_control_message _) with (pending_control_message s).
    destruct (pending_control_message s) as [m|]; [|by rewrite app_nil_r]. destruct (Hctl m eq_refl) as [-> _]. by rewrite app_nil_r.
  - eapply Nat.lt_le_trans; [|exact HR]. destruct Hq as (_ & _ & Hb). unfold c_rank. change (c_weight _) with 1%nat at 1.
    change (pings _) with 0%nat at 1. assert (1 < c_weight s)%nat; [|lia]. destruct Hl as (Hcaf & _). unfold c_weight. rewrite Hcaf. repeat case_match; lia.
Qed.

Lemma c_ping_ok now L R s i at_ms : c_world i -> c_common s -> state s <> StreamState.Closed -> c_live L s i ->
  Heartbeat.next_deadline (heartbeat s) = Some (DPing at_ms) -> at_ms <= now -> (c_rank s i <= R)%nat -> c_timed_out L R (ping_part now (s, i)).
Proof.
  intros Hw Hc Hs Hl Hd Ht HR. unfold ping_part. pose proof (draw_nonce_quiet i) as Hq0. destruct (draw_nonce i) as [i1 nonce]. cbn [fst] in Hq0.
  destruct (ping_deadline_facts _ _ Hd) as [Hst Hout]. unfold Heartbeat.ping_due. rewrite Hd. rewrite (proj2 (Z.leb_le _ _) Ht).
  set (hb := Heartbeat.set_outstanding _ _).
  destruct (c_encode_control (Message.Ping (to_be_bytes 8 nonce)) (set_heartbeat hb s) i1 eq_refl) as (p & b & i2 & -> & Hp & Hq1).
  assert (Hq : quiet i i2) by (by eapply env_trans). cbn [c_timed_out on_stream fst snd]. split; [by eapply c_quiet_world|]. split.
  - split; [split; [exact (c_buffer_wf b _ (proj1 Hc))|exact (proj2 Hc)]|]. left. split; [exact Hs|]. left.
    destruct Hl as (? & ? & Hctl & Ha). split_and!; try done; [intros m Hm; split; [exact (proj1 (Hctl m Hm))|done]|].
    eapply c_quiet_accounted; [exact Hq|]. unfold c_accounted in *. change (protocol _) with p at 1.
    change (pending_parse_error _) with (pending_parse_error s) at 1. destruct (pending_parse_error s); [done|].
    destruct Ha as (fr & raw & Hsim & Ha). exists fr, raw. split; [by apply Hp|exact Ha].
  - eapply Nat.lt_le_trans; [|exact HR]. destruct Hq as (_ & _ & Hb). unfold c_rank. pose proof (c_weight_pos s).
    change (heartbeat (set_flush_on_read true _)) with hb.
    assert (Ep : pings hb = 0%nat) by (unfold pings, hb; cbn; by rewrite Hst).
    assert (Ep0 : pings (heartbeat s) = 1%nat) by (unfold pings; by rewrite Hst, Hout). rewrite Ep, Ep0.
    match goal with |- context [c_weight ?x] => pose proof (c_weight_pos x) end. lia.
Qed.

Lemma c_deadline_part_ok L expired R s i : c_between L expired R s i -> c_errors_last s ->
  c_part_ok L R (fun s i => c_between L None R s i /\ c_errors_last s) (deadline_part expired (s, i)).
Proof.
  intros (Hw & Hc & Hs & Hl & Hctl & Hx & HR) Herr. unfold deadline_part. cbn [fst].
  set (next := if bool_decide (pending_parse_error s = None) then _ else None).
  destruct (WebSocketStream.or_else expired next) as [d|] eqn:Ed; [|destruct expired as [d'|]; [done|by split]].
  assert (Hd : Heartbeat.next_deadline (heartbeat s) = Some d \/ Heartbeat.next_hard_deadline (heartbeat s) = Some d).
  { destruct expired as [d'|]; cbn in Ed; [injection Ed as ->; by apply Hx|]. subst next. case_bool_decide; [by left|done]. }
  destruct (c_now_ok s i) as (i1 & now & -> & Hq & Ht). cbn [fst].
  assert (Hl1 : c_live L s i1) by (by eapply c_quiet_live).
  assert (Hw1 : c_world i1) by (by eapply c_quiet_world).
  assert (HR1 : (c_rank s i1 <= R)%nat) by (etrans; [|exact HR]; by apply c_rank_le).
  destruct (Z.leb_spec (deadline_at d) now) as [Hle|Hlt].
  - match goal with |- c_part_ok _ _ _ (run_bind ?m _ _) => assert (Hto : c_timed_out L R m) end.
    { destruct d as [at_ms|at_ms|at_ms]; cbn in Hle; [by apply c_timeout_ok..|].
      destruct Hd as [Hd|Hd]; [|by apply hard_deadline_kind in Hd]. by eapply c_ping_ok. }
    match type of Hto with c_timed_out _ _ ?m => destruct m as [[s2 i2] [[e|]|e]| |] end; try done.
    destruct Hto as (Hw2 & Hi2 & Hr2). cbn [run_bind c_part_ok fst snd on_stream]. cbn [fst snd] in Hw2, Hi2, Hr2. split; [|exact Hr2].
    split; [exact Hw2|]. split; [exact Hi2|]. by intros ? [=].
  - destruct expired as [d'|]; cbn in Ed; [injection Ed as ->; destruct (Hx d eq_refl); lia|].
    cbn [c_part_ok fst snd]. split; [|exact Herr]. by split_and!.
Qed.

(** *** Messages *)

(** The turn holds [m], which is the next message. *)
Definition c_carrying (L : list Message.t) (m : Message.t) (s : t) (i : T) : Prop :=
  close_after_flush s = false /\ pending_terminal_error s = None /\ pending_control_message s = None /\ has_unprocessed_read_data s = false /\
  match pending_parse_error s with
  | None => exists fr raw, sim (protocol s) (read_buf s) raw fr /\ spec_parse pol raw = Need /\
      forall more, bytes_ok more -> c_messages i more = (L ++ [m]) ++ reverse (pending_messages s) ++ fst (ref fr (raw ++ more))
  | Some _ => forall more, bytes_ok more -> c_messages i more = (L ++ [m]) ++ reverse (pending_messages s)
  end.

Lemma c_quiet_carrying L m s i i' : quiet i i' -> c_carrying L m s i -> c_carrying L m s i'.
Proof.
  intros Hq (? & ? & ? & ? & Ha). split_and!; try done. destruct (pending_parse_error s); [|destruct Ha as (fr & raw & ? & ? & Ha); exists fr, raw; split; [done|]; split; [done|]];
    intros more Hm; rewrite (c_quiet_all i i') by done; by apply Ha.
Qed.

Lemma c_carrying_accounted L m s i : c_carrying L m s i -> c_accounted (L ++ [m]) s i.
Proof.
  intros (_ & _ & Hctl & Hu & Ha). unfold c_accounted, c_held. rewrite Hctl, Hu. destruct (pending_parse_error s); [by split|]. exact Ha.
Qed.

Lemma c_carried_returned L R P m s i : c_common s -> state s <> StreamState.Closed -> c_carrying L m s i -> Message.is_close m = false ->
  c_part_ok L R P (Done (s, i) (Ok (Return (Ready (Some (Ok m)))))).
Proof.
  intros Hc Hs Hm Hn. cbn. split; [|by rewrite Hn]. split; [done|]. left. split; [done|]. left.
  pose proof Hm as (Hcaf & Hterm & Hctl & _). split_and!; try done; [by rewrite Hctl|]. by apply c_carrying_accounted.
Qed.

Lemma c_handle_ping_ok L R P m data s i : c_world i -> c_common s -> state s <> StreamState.Closed -> c_carrying L m s i ->
  Message.is_close m = false -> (10 * budget i + 10 * pings (heartbeat s) + 3 <= R)%nat -> c_part_ok L R P (handle_ping fuel m data (s, i)).
Proof.
  intros Hw Hc Hs Hm Hnc HR. unfold handle_ping. cbn [fst]. destruct (_ || _); [by apply c_carried_returned|].
  destruct (c_expired_ok fuel s i) as (sl & i2 & b & -> & Hq & _); [by apply Hw|]. cbn [run_bind fst].
  pose proof (c_quiet_carrying _ _ _ _ _ Hq Hm) as Hm2. destruct b; [apply c_carried_returned; [exact Hc|exact Hs|exact Hm2|done]|].
  cbn [c_part_ok on_stream fst snd]. destruct Hm2 as (Hcaf & Hterm & Hctl & Hunp & Ha).
  split; [split; [by eapply c_quiet_world|split; [split; [exact Hc|]|by intros ? [=]]]|].
  - left. split; [exact Hs|]. left. split_and!; try done; [by intros ? [= <-]|]. unfold c_accounted, c_held.
    change (pending_parse_error _) with (pending_parse_error s). change (has_unprocessed_read_data _) with (has_unprocessed_read_data s).
    change (pending_messages _) with (pending_messages s). change (pending_control_message _) with (Some m). cbn [option_list]. rewrite Hunp.
    destruct (pending_parse_error s); [split; [done|]; intros more Hmo; rewrite Ha by done; by rewrite <- app_assoc|].
    destruct Ha as (fr & raw & ? & ? & Ha). exists fr, raw. split; [done|]. split; [done|]. intros more Hmo. rewrite Ha by done. by rewrite <- !app_assoc.
  - destruct Hq as (_ & _ & ?). eapply Nat.lt_le_trans; [|exact HR]. unfold c_rank.
    match goal with |- context [c_weight ?x] => assert (c_weight x = 2)%nat as -> by (unfold c_weight; change (close_after_flush _) with (close_after_flush s); by rewrite Hcaf) end.
    change (pings _) with (pings (heartbeat s)) at 1. lia.
Qed.

Lemma c_carrying_prefix L m s i : c_carrying L m s i -> c_prefix (L ++ [m]) i.
Proof.
  intros (_ & _ & _ & _ & Ha) more Hm. destruct (pending_parse_error s); [|destruct Ha as (fr & raw & _ & _ & Ha)]; eexists; by apply Ha.
Qed.

Lemma c_answer_ok (s : t) (i : T) : exists p b i2, answer_close (s, i) = (set_buffer b (set_protocol p s), i2) /\ quiet i i2.
Proof.
  unfold answer_close. cbn [fst]. destruct (c_key_ok s i) as (i2 & key & -> & Hq2). destruct (CompressedProtocol.encode_close_response _ _ _) as [p b] eqn:E2.
  assert (Hid : set_buffer (buffer s) (set_protocol (protocol s) s) = s) by (destruct s as [? ? ? [[? ? ? ? ?] ? ? ? ?]]; done).
  destruct (state s); first [exists p, b, i2; split; [reflexivity|exact Hq2] | exists (protocol s), (buffer s), i; split; [by rewrite Hid|apply env_refl]].
Qed.

(** From here on the stream only flushes and ends. *)
Lemma c_closing_ok L R P reason s i d : c_world i -> CorkSpec.wf (UnifiedOutput.write_buf (output s)) -> state s <> StreamState.Closed ->
  closing_deadline s = Some d -> (forall d', d0 = Some d' -> d = d') -> Heartbeat.stopped (heartbeat s) = true -> c_prefix (L ++ [Message.Close reason]) i -> (10 * budget i + 3 <= R)%nat ->
  c_part_ok L R P (Done (set_close_after_flush true (set_flush_on_read true (set_pending_control_message (Some (Message.Close reason)) s)), i) (Ok (Continue None))).
Proof.
  intros Hw Hwf Hs Hd Hd0 Hst Hp HR. cbn [c_part_ok fst snd].
  split; [split; [done|split; [split; [split; [done|split; [done|intros d' Ed; rewrite <- (Hd0 d' Ed); exact Hd]]|]|by intros ? [=]]]|].
  - left. split; [exact Hs|]. right. by split_and!.
  - unfold c_rank. change (c_weight _) with 1%nat. change (heartbeat _) with (heartbeat s) at 1. unfold pings. rewrite Hst. lia.
Qed.

Lemma c_handle_close_ok L R P reason s i : c_world i -> c_common s -> state s <> StreamState.Closed -> c_carrying L (Message.Close reason) s i ->
  (10 * budget i + 10 * pings (heartbeat s) + 3 <= R)%nat -> c_part_ok L R P (handle_close reason (s, i)).
Proof.
  intros Hw Hc Hs Hm HR. unfold handle_close. destruct (c_begin_closing_ok s i) as (sl & d & i1 & -> & Hq1 & Hd). cbv [on_stream]. cbn [fst snd].
  match goal with |- context [answer_close (?x, _)] => destruct (c_answer_ok x i1) as (p & b & i2 & -> & Hq2) end. cbn [fst snd].
  assert (Hq : quiet i i2) by (by eapply env_trans). pose proof (c_quiet_prefix _ _ _ Hq (c_carrying_prefix _ _ _ _ Hm)) as Hpre.
  apply c_closing_ok with (d := d); [by eapply c_quiet_world|exact (c_buffer_wf b _ (proj1 Hc))|exact Hs|reflexivity|intros d' Ed; by apply Hd, (proj2 (proj2 Hc))|reflexivity|exact Hpre|].
  destruct Hq as (_ & _ & ?). lia.
Qed.

(** A stream with nothing to hand out. *)
Definition c_idle (L : list Message.t) (R : nat) (s : t) (i : T) : Prop :=
  c_world i /\ c_common s /\ state s <> StreamState.Closed /\ c_live L s i /\ pending_control_message s = None /\ c_nothing s = true /\ (c_rank s i <= R)%nat.

Lemma c_nothing_fields s : c_nothing s = true -> pending_messages s = [] /\ pending_parse_error s = None.
Proof. unfold c_nothing. by rewrite andb_true_iff, !bool_decide_eq_true. Qed.

Lemma c_next_ok L s i : c_live L s i -> pending_control_message s = None ->
  match next_pending_message s with
  | (s', Some m) => c_carrying L m s' i /\ c_reader_of s' = c_reader_of s /\ (c_common s -> c_common s') /\ state s' = state s /\ heartbeat s' = heartbeat s /\ c_nothing s = false
  | (_, None) => pending_messages s = []
  end.
Proof.
  intros (Hcaf & Hterm & _ & Ha) Hctl. unfold next_pending_message. destruct (reverse (pending_messages s)) as [|m rest] eqn:Er.
  - by rewrite <- (reverse_involutive (pending_messages s)), Er.
  - assert (Hne : pending_messages s <> []) by (intros En; by rewrite En in Er).
    split_and!; try done; [|unfold c_nothing; by rewrite (bool_decide_eq_false_2 (pending_messages s = []))].
    unfold c_accounted, c_held in Ha. rewrite Hctl, Er in Ha. cbn [option_list] in Ha.
    unfold c_carrying. change (pending_parse_error (set_pending_messages _ s)) with (pending_parse_error s). change (pending_messages (set_pending_messages ?l s)) with l.
    rewrite reverse_involutive. destruct (pending_parse_error s).
    + destruct Ha as [Hu Ha]. split_and!; try done. intros more Hm. rewrite Ha by done. by rewrite <- app_assoc.
    + destruct Ha as (fr & raw & Hs & Hu & Ha). change (has_unprocessed_read_data (set_pending_messages _ s)) with (has_unprocessed_read_data s).
      destruct (has_unprocessed_read_data s); [by destruct Hu as (_ & _ & ?)|]. split_and!; try done.
      exists fr, raw. split; [done|]. split; [done|]. intros more Hm. rewrite Ha by done. by rewrite <- !app_assoc.
Qed.

Lemma c_message_part_ok L R s i : c_between L None R s i -> c_errors_last s -> c_part_ok L R (c_idle L R) (message_part fuel (s, i)).
Proof.
  intros (Hw & Hc & Hs & Hl & Hctl & _ & HR) Herr. specialize (Hctl eq_refl). unfold message_part. cbn [fst snd].
  pose proof (c_next_ok L s i Hl Hctl) as Hn. destruct (next_pending_message s) as [s1 [m|]].
  2: { cbn. split_and!; try done. unfold c_nothing. by rewrite Hn, (Herr Hn). }
  destruct Hn as (Hm & _ & Hc1 & Es & Eh & En). apply Hc1 in Hc. rewrite <- Es in Hs.
  assert (HR3 : (10 * budget i + 10 * pings (heartbeat s1) + 3 <= R)%nat).
  { rewrite Eh. unfold c_rank, c_weight in HR. destruct Hl as (Hcaf & _). rewrite Hcaf, Hctl, En in HR. lia. }
  destruct (c_inbound_ok (match m with Message.Pong payload => Some payload | _ => None end) s1 i) as (hb & i' & -> & Hq & Hst & Hcal).
  assert (Hc' : c_common (set_heartbeat hb s1)) by (split; [exact (proj1 Hc)|keep_closing Hc Hst]).
  pose proof (c_quiet_carrying _ _ _ _ _ Hq Hm) as Hm'. apply (c_quiet_world _ _ Hq) in Hw.
  assert (HR' : calmer (heartbeat s1) hb -> (10 * budget i' + 10 * pings hb + 3 <= R)%nat) by (intros [_ ?]; destruct Hq as (_ & _ & ?); lia).
  destruct m; try (apply c_carried_returned; [exact Hc'|exact Hs|exact Hm'|done]).
  - apply c_handle_ping_ok; [done|exact Hc'|exact Hs|exact Hm'|done|]. by apply HR', Hcal.
  - apply c_handle_close_ok; [done|exact Hc'|exact Hs|exact Hm'|]. by apply HR', Hcal.
Qed.

(** *** Reading *)

(** Unparsed bytes are in the buffer. *)
Definition c_unread (L : list Message.t) (s : t) (i : T) : Prop :=
  c_world i /\ c_common s /\ state s <> StreamState.Closed /\ close_after_flush s = false /\ pending_terminal_error s = None /\
  pending_control_message s = None /\ c_nothing s = true /\ has_unprocessed_read_data s = false /\ read_buf s <> [] /\
  exists fr raw, sim (protocol s) (read_buf s) raw fr /\ forall more, bytes_ok more -> c_messages i more = L ++ fst (ref fr (raw ++ more)).

(** What parsing leaves. *)
Definition c_parsed (L : list Message.t) (hb : Heartbeat.t) (i0 : T) (m : comp W unit) : Prop :=
  match m with
  | Done (s, i) r => quiet i0 i /\ calmer hb (heartbeat s) /\ c_common s /\ state s <> StreamState.Closed /\ close_after_flush s = false /\
      pending_terminal_error s = None /\ pending_control_message s = None /\ pending_parse_error s = None /\ has_unprocessed_read_data s = false /\
      match r with
      | Ok _ => c_accounted L s i
      | Err _ => forall more, bytes_ok more -> c_messages i more = L ++ reverse (pending_messages s)
      end
  | _ => False
  end.

Lemma c_process_ok L s i : c_unread L s i -> c_parsed L (heartbeat s) i (process_read_buf arch slice_addr (s, i)).
Proof.
  intros (Hw & Hc & Hs & Hcaf & Hterm & Hctl & Hn & Hu & Hne & fr & raw & Hsim & Ha). unfold process_read_buf.
  pose proof Hn as [Em Ep]%c_nothing_fields. rewrite (bool_decide_eq_false_2 (read_buf s = [])) by done. rewrite Em, bool_decide_eq_true_2 by done. cbn [assert_or_panic].
  pose proof (compressed_follows arch slice_addr max Hmax validate pol) as Hfol.
  pose proof (receive_loop CompressedProtocol.receiver arch slice_addr Harch id (cref_frame max validate true) pol sim _ (protocol s) (read_buf s) raw [] false fr
    Hsim ltac:(done) (or_introl (le_n (length (read_buf s) + 2)%nat))) as Hr.
  unfold CompressedProtocol.process_into_with_activity, receive_into.
  destruct (loop_fuel _ _ _) as [[[[p buf] ms] accepted] r| |]; [|by destruct Hr..].
  set (s1 := set_pending_messages ms (set_read_buf buf (set_protocol p s))).
  assert (Hni : exists hb i', (if accepted then note_inbound None (s1, i) else (s1, i)) = (set_heartbeat hb s1, i') /\ quiet i i' /\ calmer (heartbeat s) hb).
  { destruct accepted; [destruct (c_inbound_ok None s1 i) as (hb & i' & -> & Hq & _ & Hcal); by exists hb, i'; split_and!; auto|].
    exists (heartbeat s), i. split; [by rewrite <- (c_heartbeat_self s1)|]. split; [apply env_refl|apply calmer_refl]. }
  destruct Hni as (hb & i' & -> & Hq & Hcal). cbn [on_stream fst snd c_parsed].
  split; [done|]. split; [exact Hcal|]. split; [split; [exact (proj1 Hc)|keep_closing Hc (proj1 Hcal)]|].
  split_and!; try done. destruct r as [[]|e].
  - destruct Hr as (fr' & raw' & news & Hms & Hsim' & Hneed & Hr). rewrite list_fmap_id in Hms. cbn in Hms. subst news.
    unfold c_accounted. change (pending_parse_error _) with (pending_parse_error s). change (has_unprocessed_read_data _) with (has_unprocessed_read_data s). rewrite Ep, Hu.
    exists fr', raw'. split; [exact Hsim'|]. split; [exact Hneed|]. intros more Hm. rewrite (c_quiet_all i i'), Ha, Hr by done.
    match goal with |- context [c_held ?x] => assert (Eh : c_held x = ms) end; [|by rewrite Eh].
    unfold c_held. change (pending_control_message _) with (pending_control_message s). rewrite Hctl. exact (reverse_involutive ms).
  - destruct Hr as (news & Hms & Hr & _). rewrite list_fmap_id in Hms. cbn in Hms. subst news. intros more Hm. rewrite (c_quiet_all i i'), Ha, Hr by done.
    f_equal. symmetry. exact (reverse_involutive ms).
Qed.

Lemma c_keep_error_ok L e s i : c_common s -> state s <> StreamState.Closed -> close_after_flush s = false -> pending_terminal_error s = None ->
  pending_control_message s = None -> has_unprocessed_read_data s = false ->
  (forall more, bytes_ok more -> c_messages i more = L ++ reverse (pending_messages s)) ->
  c_inv L (keep_parse_error e s) i /\ heartbeat (keep_parse_error e s) = heartbeat s /\ c_weight (keep_parse_error e s) = 3%nat.
Proof.
  intros Hc Hs Hcaf Hterm Hctl Hu Ha.
  assert (Hg : forall s' : t, c_common s' -> state s' <> StreamState.Closed -> close_after_flush s' = false -> pending_terminal_error s' = None ->
    pending_control_message s' = None -> has_unprocessed_read_data s' = false -> pending_messages s' = pending_messages s -> pending_parse_error s' = Some e ->
    c_inv L s' i /\ c_weight s' = 3%nat).
  { intros s' Hc' Hs' P1 P2 P3 P4 P5 P6. split.
    - split; [done|]. left. split; [done|]. left. split_and!; try done; [by rewrite P3|]. unfold c_accounted, c_held. by rewrite P6, P3, P5.
    - unfold c_weight, c_nothing. rewrite P1, P3, P6. rewrite (bool_decide_eq_false_2 (Some e = None)) by done. by rewrite andb_false_r. }
  unfold keep_parse_error. case_bool_decide; (split; [|split; [done|]]); apply Hg; done.
Qed.

Lemma c_read_batch_ok L R s i (cont : bool) : c_unread L s i -> (10 * budget i + 10 * pings (heartbeat s) + (if cont then 5 else 3) < R)%nat ->
  c_part_ok L R (fun s' i' => cont = false /\ c_world i' /\ c_common s' /\ state s' <> StreamState.Closed /\ c_live L s' i' /\ pending_control_message s' = None /\ c_nothing s' = true /\
    has_unprocessed_read_data s' = false /\ (10 * budget i' + 10 * pings (heartbeat s') <= 10 * budget i + 10 * pings (heartbeat s))%nat) (read_batch arch slice_addr (s, i) cont).
Proof.
  intros Hun HR. pose proof (c_process_ok L s i Hun) as Hp. destruct Hun as (Hw & _). unfold read_batch.
  destruct (process_read_buf arch slice_addr (s, i)) as [[s1 i1] r| |]; try done.
  destruct Hp as (Hq & [_ Hpi] & Hc & Hs & Hcaf & Hterm & Hctl & Hpe & Hu & Hr). apply (c_quiet_world _ _ Hq) in Hw.
  assert (Hb : (10 * budget i1 + 10 * pings (heartbeat s1) <= 10 * budget i + 10 * pings (heartbeat s))%nat) by (destruct Hq as (_ & _ & ?); lia).
  destruct r as [[]|e].
  - assert (Hl : c_live L s1 i1) by (split_and!; try done; by rewrite Hctl). cbn [fst].
    destruct (cont || _) eqn:Eo; cbn [c_part_ok fst snd].
    + split; [split; [done|]; split; [split; [done|left; split; [done|by left]]|by intros ? [=]]|].
      unfold c_rank, c_weight, c_nothing. rewrite Hcaf, Hctl, Hu. destruct cont; [destruct (_ && _); lia|]. cbn in Eo. case_bool_decide; [done|]. cbn [andb]. lia.
    + apply orb_false_iff in Eo as [-> Eo%negb_false_iff]. split_and!; try done. unfold c_nothing. by rewrite Eo, Hpe.
  - cbn [c_part_ok on_stream fst snd]. destruct (c_keep_error_ok L e s1 i1 Hc Hs Hcaf Hterm Hctl Hu Hr) as (Hi & Eh & Ew).
    split; [split; [done|]; split; [done|by intros ? [=]]|]. unfold c_rank. rewrite Eh, Ew. destruct cont; lia.
Qed.

Lemma c_leftover_part_ok L R s i : c_idle L R s i ->
  c_part_ok L R (fun s i => c_idle L R s i /\ has_unprocessed_read_data s = false) (leftover_part arch slice_addr (s, i)).
Proof.
  intros Hi. unfold leftover_part. cbn [fst]. destruct (has_unprocessed_read_data s) eqn:Eu; [|by split].
  destruct Hi as (Hw & Hc & Hs & (Hcaf & Hterm & _ & Ha) & Hctl & Hn & HR). pose proof Hn as [Em Ep]%c_nothing_fields.
  unfold c_accounted, c_held in Ha. rewrite Ep, Eu, Em, Hctl in Ha. destruct Ha as (fr & raw & Hsim & (-> & Hne & _) & Ha).
  unfold c_rank, c_weight in HR. rewrite Hcaf, Hctl, Hn, Eu in HR.
  assert (Hun : c_unread L (set_has_unprocessed_read_data false s) i) by (split_and!; try done; by exists fr, (read_buf s)).
  pose proof (c_read_batch_ok L R _ i false Hun) as Hb. change (heartbeat (set_has_unprocessed_read_data false s)) with (heartbeat s) in Hb.
  specialize (Hb ltac:(cbn iota; lia)). cbn [on_stream fst snd]. destruct (read_batch _ _ _ _) as [[s1 i1] [[r|e|]|e]| |]; try done.
  cbn [c_part_ok fst snd] in Hb |- *. destruct Hb as (_ & ? & ? & ? & Hl1 & Hctl1 & Hn1 & Hu1 & Hb1). split; [|done]. split_and!; try done.
  unfold c_rank, c_weight. pose proof Hl1 as (-> & _). rewrite Hctl1, Hn1, Hu1. lia.
Qed.

(** Everything that has been read is delivered. *)
Lemma c_idle_delivered L s i : c_live L s i -> has_unprocessed_read_data s = false -> pending_control_message s = None -> c_nothing s = true ->
  c_messages i [] = L.
Proof.
  intros (_ & _ & _ & Ha) Hu Hctl [Em Ep]%c_nothing_fields. unfold c_accounted, c_held in Ha. rewrite Ep, Hu, Em, Hctl in Ha.
  destruct Ha as (fr & raw & Hsim & Hneed & Ha). rewrite Ha by constructor.
  rewrite (app_nil_r raw), ref_run_eq by apply (v_raw _ _ _ (cs_views _ _ _ _ _ _ _ Hsim)). rewrite Hneed. cbn. by rewrite app_nil_r.
Qed.

Lemma c_read_blocked_ok L R P on_rest s i : c_idle L R s i -> has_unprocessed_read_data s = false ->
  (forall s' i', c_idle L R s' i' -> has_unprocessed_read_data s' = false -> (forall d, closing_deadline s' = Some d -> t0 < d) ->
    c_part_ok L R P (on_rest (s', i'))) -> c_part_ok L R P (read_blocked fuel on_rest (s, i)).
Proof.
  intros (Hw & Hc & Hs & Hl & Hctl & Hn & HR) Hu Hk. unfold read_blocked.
  destruct (c_expired_ok fuel s i) as (sl & i1 & b & -> & Hq & Hf); [by apply Hw|]. cbn [run_bind fst].
  pose proof (c_quiet_live _ _ _ _ Hq Hl) as Hl1. pose proof (c_quiet_world _ _ Hq Hw) as Hw1.
  destruct b; [apply c_finished_ok; [exact Hc|left; exact Hl1]|].
  assert (Hrest : forall sl' i2, quiet i1 i2 -> c_part_ok L R P (on_rest (set_heartbeat_sleep sl' s, i2))).
  { intros sl' i2 Hq2. apply Hk; [|exact Hu|].
    - split_and!; try done; [by eapply c_quiet_world|exact (c_quiet_live _ _ _ _ Hq2 Hl1)|].
      etrans; [|exact HR]. apply c_rank_le; [by eapply env_trans|reflexivity|reflexivity].
    - intros d Hd. destruct Hw as [? _]. specialize (Hf eq_refl d Hd). lia. }
  change (pending_parse_error (set_heartbeat_sleep sl s)) with (pending_parse_error s).
  change (heartbeat (set_heartbeat_sleep sl s)) with (heartbeat s).
  destruct (pending_parse_error s); [apply Hrest, env_refl|].
  destruct (Heartbeat.next_deadline (heartbeat s)) as [d|] eqn:Ed; [|apply Hrest, env_refl].
  destruct (c_timer_ok fuel (deadline_at d) (set_heartbeat_sleep sl s) i1) as (sl' & i2 & b & -> & Hq2 & Hb); [by apply Hw1|]. cbn [run_bind].
  destruct b; [|by apply Hrest]. destruct (Hb eq_refl) as [Ht Hlt]. cbn [c_part_ok fst snd]. split; [split; [by eapply c_quiet_world|]; split|].
  - split; [exact Hc|left; split; [exact Hs|left; exact (c_quiet_live _ _ _ _ Hq2 Hl1)]].
  - intros d' [= <-]. split; [exact Ht|left; exact Ed].
  - eapply Nat.lt_le_trans; [|exact HR]. apply c_rank_spent; [|reflexivity]. destruct Hq as (_ & _ & ?). lia.
Qed.

Lemma c_idle_pending L R P s i : c_idle L R s i -> has_unprocessed_read_data s = false -> (forall d, closing_deadline s = Some d -> t0 < d) ->
  c_part_ok L R P (Done (s, i) (Ok (Return Pending))).
Proof.
  intros (Hw & Hc & Hs & Hl & Hctl & Hn & _) Hu Hd. cbn. split; [by split; [|left; split; [|left]]|]. split; [done|]. split; [|done].
  intros _. by apply (c_idle_delivered L s).
Qed.

Lemma c_write_queued_ok task L R s i : c_idle L R s i -> has_unprocessed_read_data s = false ->
  c_part_ok L R (fun s i => c_idle L R s i /\ has_unprocessed_read_data s = false) (write_queued fuel task (s, i)).
Proof.
  intros Hi Hu. pose proof Hi as (Hw & Hc & Hs & Hl & Hctl & Hn & HR). unfold write_queued. cbn [fst]. destruct (has_output s); [|done].
  destruct (c_write_out_ok Stream task s i (proj1 Hc)) as (o & hb & i' & r & -> & Hwf & [Hst Hpi] & Hq).
  set (s1 := set_heartbeat hb (set_output o s)). cbn [run_bind].
  assert (Hc1 : c_common s1) by (split; [exact Hwf|keep_closing Hc Hst]).
  pose proof (c_quiet_live _ _ _ _ Hq Hl) as Hl1.
  assert (Hi1 : c_idle L R s1 i').
  { split_and!; [by eapply c_quiet_world|done|exact Hs|exact Hl1|exact Hctl|exact Hn|]. etrans; [|exact HR]. apply c_rank_le; [done|exact Hpi|reflexivity]. }
  destruct r as [|[[]|e]]; [|by split|].
  - apply c_read_blocked_ok; [done|exact Hu|]. intros s2 i2 Hi2 Hu2 Hd2. cbn [fst]. case_bool_decide; [by apply c_idle_pending|done].
  - cbn [c_part_ok c_returned fst snd]. split; [|done]. apply c_terminal_inv; [exact Hc1|]. apply (c_going_prefix L s). left. exact Hl1.
Qed.

Lemma c_last_shutdown_ok task L R P s i : c_common s -> c_live L s i -> c_part_ok L R P (last_shutdown task (s, i)).
Proof.
  intros Hc Hl. unfold last_shutdown. cbn [fst]. destruct (_ && _); [|by apply c_finished_ok; [|left]].
  destruct (c_shutdown_ok Stream task s i) as (o & st & i' & r & -> & Hq & Ho). cbn [fst].
  apply c_finished_ok; [split; [change (CorkSpec.wf (UnifiedOutput.write_buf o)); rewrite Ho; apply Hc|exact (proj2 Hc)]|].
  left. exact (c_quiet_live _ _ _ _ Hq Hl).
Qed.

Lemma c_read_more_ok task L R s i : c_idle L R s i -> has_unprocessed_read_data s = false ->
  exists o i' r, UnifiedOutput.write_buf o = UnifiedOutput.write_buf (output s) /\
    match r with
    | Ready (Ok data) => poll_read_more task (s, i) = ((set_read_buf (read_buf s ++ data) (set_output o s), i'), Ready (Ok (len data))) /\
        (data <> [] -> (budget i' < budget i)%nat /\ c_unread L (set_read_buf (read_buf s ++ data) (set_output o s)) i') /\
        (data = [] -> c_prefix L i')
    | Ready (Err e) => poll_read_more task (s, i) = ((set_output o s, i'), Ready (Err e)) /\ quiet i i'
    | Pending => poll_read_more task (s, i) = ((set_output o s, i'), Pending) /\ quiet i i'
    end.
Proof.
  intros (Hw & Hc & Hs & Hl & Hctl & Hn & _) Hu. unfold poll_read_more. exists (UnifiedOutput.poll_read task (output s)).
  pose proof (poll_read_takes i) as Hr. destruct (WebSocket.poll_read i) as [i' r]. destruct Hr as [Ht Hr]. exists i', r.
  assert (Ho : UnifiedOutput.write_buf (UnifiedOutput.poll_read task (output s)) = UnifiedOutput.write_buf (output s))
    by (by destruct (OutputSpec.register_output Stream task (output s)) as [? _]).
  split; [exact Ho|]. destruct r as [|[data|e]]; [done| |done]. split; [done|]. destruct Hr as (Etk & Hok & Hb).
  assert (Hall : forall more, c_messages i' more = c_messages i (data ++ more)).
  { intros more. unfold c_messages. by rewrite Etk, <- !app_assoc. }
  split; [intros Hne|intros ->; intros more Hm; rewrite Hall; cbn; by apply (c_going_prefix L s i (or_introl Hl))].
  specialize (Hb Hne). split; [done|]. destruct Hw as [? ?]. pose proof Hn as [Em Ep]%c_nothing_fields.
  destruct Hl as (Hcaf & Hterm & _ & Ha). unfold c_accounted, c_held in Ha. rewrite Ep, Hu, Em, Hctl in Ha. destruct Ha as (fr & raw & Hsim & Hneed & Ha).
  split; [split; lia|]. split; [split; [change (CorkSpec.wf (UnifiedOutput.write_buf (UnifiedOutput.poll_read task (output s)))); rewrite Ho; apply Hc|exact (proj2 Hc)]|].
  split_and!; try done; [intros E1; by apply app_eq_nil in E1 as [_ ?]|]. exists fr, (raw ++ data).
  pose proof (compressed_follows arch slice_addr max Hmax validate pol) as Hfol.
  split; [exact (f_more (Follows := Hfol) _ _ _ _ data Hsim Hok)|]. intros more Hm. rewrite Hall, Ha by (by apply bytes_ok_app). by rewrite <- (app_assoc raw).
Qed.

Lemma c_read_part_ok task L R s i : c_idle L R s i -> has_unprocessed_read_data s = false ->
  c_part_ok L R (fun _ _ => False) (read_part arch slice_addr fuel task (s, i)).
Proof.
  intros (Hw & Hc & Hs & Hl & Hctl & Hn & HR) Hu. unfold read_part.
  destruct (c_expired_ok fuel s i) as (sl & i1 & b & -> & Hq & _); [by apply Hw|]. cbn [run_bind fst].
  pose proof (c_quiet_live _ _ _ _ Hq Hl) as Hl1. set (s1 := set_heartbeat_sleep sl s).
  destruct (b && _); [apply c_last_shutdown_ok; [exact Hc|exact Hl1]|].
  assert (Hi1 : c_idle L R s1 i1) by (split_and!; [by eapply c_quiet_world|exact Hc|exact Hs|exact Hl1|exact Hctl|exact Hn|etrans; [by apply (c_rank_le s i s1 i1)|done]]).
  eapply (c_part_bind L R (fun s' i' => (c_idle L R s' i' /\ has_unprocessed_read_data s' = false))); [by apply c_write_queued_ok|].
  intros s2 i2 [Hi2 Hu2]. cbn beta zeta.
  match goal with |- context [poll_read_more task ?w] => assert (Hpe : exists v, w = (set_post_expiry_read_attempted v s2, i2)) end.
  { destruct b; [by exists true|]. exists (post_expiry_read_attempted s2). by destruct s2. }
  destruct Hpe as [v Hpe]. rewrite Hpe. set (s3 := set_post_expiry_read_attempted v s2). assert (Hi3 : c_idle L R s3 i2) by exact Hi2.
  destruct (c_read_more_ok task L R s3 i2 Hi3 Hu2) as (o & i3 & r & Ho & Hr). pose proof Hi3 as (Hw3 & Hc3 & Hs3 & Hl3 & Hctl3 & Hn3 & HR3).
  assert (Hwf : CorkSpec.wf (UnifiedOutput.write_buf o)) by (rewrite Ho; apply Hc3).
  assert (Hc4 : c_common (set_output o s3)) by (split; [exact Hwf|exact (proj2 Hc3)]).
  destruct r as [|[data|e]].
  - destruct Hr as [-> Hq3]. apply c_read_blocked_ok; [|exact Hu2|intros s4 i4 Hi4 Hu4 Hd4; by apply c_idle_pending].
    split_and!; [by eapply c_quiet_world|exact Hc4|exact Hs3|exact (c_quiet_live _ _ _ _ Hq3 Hl3)|exact Hctl3|exact Hn3|]. etrans; [|exact HR3]. by apply c_rank_le.
  - destruct Hr as (-> & Hne & Hemp). destruct (Z.eqb_spec (len data) 0) as [E1|E1].
    + cbn [c_part_ok c_returned on_stream fst snd]. split; [|done]. apply c_terminal_inv; [exact Hc4|].
      apply Hemp. destruct data; [done|]. rewrite len_cons in E1. pose proof (len_nonneg data). lia.
    + destruct (Hne ltac:(by intros ->)) as [Hb Hun].
      assert (HRb : (10 * budget i3 + 10 * pings (heartbeat s3) + 5 < R)%nat) by (unfold c_rank in HR3; pose proof (c_weight_pos s3); lia).
      pose proof (c_read_batch_ok L R _ i3 true Hun HRb) as Hrb. destruct (read_batch _ _ _ _) as [w [[r|e|]|e]| |]; try done. by destruct Hrb.
  - destruct Hr as [-> Hq3]. cbn [c_part_ok c_returned on_stream fst snd]. split; [|done]. apply c_terminal_inv; [exact Hc4|].
    apply (c_going_prefix L s3). left. exact (c_quiet_live _ _ _ _ Hq3 Hl3).
Qed.

(** *** The loop *)

Lemma c_turn_ok task L expired s i : c_top L expired s i -> c_part_ok L (c_rank s i) (fun _ _ => False) (turn arch slice_addr fuel task expired (s, i)).
Proof.
  intros Hp. unfold turn. cbn [fst]. case_bool_decide as Hs.
  - cbn. split; [|done]. destruct Hp as (_ & (Hc & [[? _]|[_ ?]]) & _); [done|]. split; [done|by right].
  - eapply c_part_bind; [by apply c_flush_part_ok|]. intros s1 i1 Hb1. eapply c_part_bind; [by apply (c_error_part_ok L expired)|].
    intros s2 i2 [Hb2 He2]. eapply c_part_bind; [by apply (c_deadline_part_ok L expired)|]. intros s3 i3 [Hb3 He3].
    eapply c_part_bind; [by apply c_message_part_ok|]. intros s4 i4 Hi4. eapply c_part_bind; [by apply c_leftover_part_ok|].
    intros s5 i5 [Hi5 Hu5]. by apply c_read_part_ok.
Qed.

Lemma c_loop_ok task L n : forall expired s i, c_top L expired s i -> (c_rank s i < n)%nat ->
  exists w r, loop_fuel n (next_step arch slice_addr fuel task) (expired, (s, i)) = Done w (Ok r) /\ c_returned L w r.
Proof.
  induction n as [|n IH]; intros expired s i Hp Hn; [lia|]. cbn [loop_fuel]. unfold next_step at 1. cbn [fst snd].
  pose proof (c_turn_ok task L expired s i Hp) as Hs. destruct (turn _ _ _ _ _ _) as [[s' i'] [[r|e|]|e]| |]; try done.
  - by exists (s', i'), r.
  - destruct Hs as [? ?]. apply IH; [done|cbn in *; lia].
Qed.

(** ** The sending side keeps the invariant *)

Lemma c_inv_finish L fb s i : c_inv L s i -> c_inv L (fst (finish_read_close fb s)) i /\ state (fst (finish_read_close fb s)) = StreamState.Closed.
Proof. intros Hi. apply c_finish_inv; [apply Hi|by eapply c_inv_prefix]. Qed.

Lemma c_inv_write_out half task L s i : c_inv L s i -> exists s' i' r, poll_write_out half task (s, i) = Done (s', i') (Ok r) /\
  c_inv L s' i' /\ quiet i i' /\ (state s = StreamState.Closed -> state s' = StreamState.Closed).
Proof.
  intros Hi. pose proof Hi as [Hc Hl]. destruct (c_write_out_ok half task s i (proj1 Hc)) as (o & hb & i' & r & -> & Hwf & [Est _] & Hq).
  set (s1 := set_heartbeat hb (set_output o s)).
  assert (Hc1 : c_common s1) by (split; [exact Hwf|keep_closing Hc Est]).
  assert (Hi1 : c_inv L s1 i') by (split; [exact Hc1|exact (proj2 (c_quiet_inv _ _ _ _ Hq Hi))]).
  destruct r as [|[[]|e]]; eexists _, i', _; (split; [reflexivity|]); [by split_and!|by split_and!|].
  split; [|by split_and!]. apply c_terminal_inv; [exact Hc1|exact (c_inv_prefix _ _ _ Hi1)].
Qed.

Lemma c_inv_begin_closing L s i : c_inv L s i -> exists s' i', begin_closing (s, i) = (s', i') /\ c_inv L s' i' /\ quiet i i' /\ state s' = state s.
Proof.
  intros Hi. destruct (c_begin_closing_ok s i) as (sl & d & i' & -> & Hq & Hd). eexists _, i'. split; [reflexivity|]. split; [|by split].
  pose proof (c_quiet_inv _ _ _ _ Hq Hi) as [Hc Hl]. split; [split; [exact (proj1 Hc)|split; [done|intros d' Ed; by rewrite (Hd d' (proj2 (proj2 Hc) d' Ed))]]|].
  destruct Hl as [[Hs [Hl|(? & ? & _ & ?)]]|[Hs Hp]]; [left; split; [exact Hs|left; exact Hl]|left; split; [exact Hs|right; split_and!; done]|right; by split].
Qed.

(** A new protocol state for the same reader, and another queue. *)
Lemma c_inv_sent L s i p b : c_inv L s i -> c_same_reader (protocol s) p -> c_inv L (set_buffer b (set_protocol p s)) i.
Proof.
  intros [Hc Hl] Hp. split; [split; [exact (c_buffer_wf b s (proj1 Hc))|exact (proj2 Hc)]|].
  destruct Hl as [[Hs [Hl|He]]|[Hs Hpr]]; [|left; split; [exact Hs|right; exact He]|right; by split].
  left. split; [exact Hs|]. left. destruct Hl as (? & ? & ? & Ha). split_and!; try done. unfold c_accounted in *.
  change (pending_parse_error (set_buffer b (set_protocol p s))) with (pending_parse_error s). destruct (pending_parse_error s); [exact Ha|].
  destruct Ha as (fr & raw & Hsim & Ha). exists fr, raw. split; [by apply Hp|exact Ha].
Qed.

Lemma c_inv_close_sent L s i : c_inv L s i -> state s = StreamState.Open -> c_inv L (set_state StreamState.CloseSent s) i.
Proof. intros [Hc [[_ Hl]|[? _]]] Hs; [|congruence]. split; [exact Hc|]. left. split; [done|exact Hl]. Qed.

Lemma c_inv_encode L m s i s' i' r : c_inv L s i -> encode_message m (s, i) = Done (s', i') r -> c_inv L s' i' /\ quiet i i' /\ state s' = state s.
Proof.
  intros Hi. unfold encode_message. destruct (c_key_ok s i) as (i1 & key & -> & Hq1).
  match goal with |- context [let '(w, close_key) := ?x in _] => assert (Hx : exists i2 close_key, x = ((s, i2), close_key) /\ quiet i1 i2) end.
  { destruct (Message.is_close m); [apply c_key_ok|exists i1, []; split; [done|apply env_refl]]. }
  destruct Hx as (i2 & close_key & -> & Hq2). destruct (CompressedProtocol.encode_message _ _ _ _ _) as [[p b] r1| |] eqn:Ee; try done.
  intros [= <- <- <-]. assert (Hq : quiet i i2) by (by eapply env_trans). split; [|by split].
  apply c_inv_sent; [by eapply c_quiet_inv|by eapply c_encode_reader].
Qed.

Lemma c_start_send_kept L m s i s' i' r : c_inv L s i -> start_send m (s, i) = Done (s', i') r -> c_inv L s' i' /\ quiet i i' /\
  (state s = StreamState.Closed -> state s' = StreamState.Closed).
Proof.
  intros Hi. unfold start_send. cbn [fst]. case_bool_decide as Hs; cbn [negb]; [|intros [= <- <- <-]; split_and!; [done|apply env_refl..|done]].
  match goal with |- encode_message m ?w = _ -> _ => assert (Hw : exists s1 i1, w = (s1, i1) /\ c_inv L s1 i1 /\ quiet i i1) end.
  { destruct (Message.is_close m); [|by exists s, i; split_and!; [| |apply env_refl]].
    destruct (c_inv_begin_closing L _ i (c_inv_close_sent L s i Hi Hs)) as (s1 & i1 & Eb & ? & ? & _). exists s1, i1. by split; [exact Eb|]. }
  destruct Hw as (s1 & i1 & -> & Hi1 & Hq1). intros Ee. destruct (c_inv_encode L m s1 i1 s' i' r Hi1 Ee) as (? & ? & _).
  split; [done|]. split; [by eapply env_trans|]. by rewrite Hs.
Qed.

(** The outcome of a call of the sending side. *)
Definition c_kept {A} (L : list Message.t) (s : t) (i : T) (waits : A -> bool) (m : comp W A) : Prop :=
  exists s' i' r, m = Done (s', i') (Ok r) /\ c_inv L s' i' /\ quiet i i' /\
    (state s = StreamState.Closed -> state s' = StreamState.Closed) /\
    (waits r = true -> forall d, closing_deadline s' = Some d -> time i < d).

Lemma c_kept_here {A} L s i (waits : A -> bool) r : c_inv L s i -> waits r = false -> c_kept L s i waits (Done (s, i) (Ok r)).
Proof. intros Hi Hr. exists s, i, r. rewrite Hr. split_and!; try done. Qed.

Lemma c_kept_after {A} L s i s1 i1 (waits : A -> bool) m : quiet i i1 -> (state s = StreamState.Closed -> state s1 = StreamState.Closed) ->
  c_kept L s1 i1 waits m -> c_kept L s i waits m.
Proof.
  intros Hq Hs (s' & i' & r & -> & Hi & Hq' & Hs' & Hd). exists s', i', r. split_and!; try done; [by eapply env_trans|auto|].
  intros Hw d Ed. specialize (Hd Hw d Ed). destruct Hq as (_ & ? & _). lia.
Qed.

Lemma c_finish_kept L s i r : c_inv L s i -> c_kept L s i is_pending (finish_with r (s, i)).
Proof. intros Hi. destruct (c_inv_finish L None s i Hi) as [? ?]. eexists _, i, _. split; [reflexivity|]. split_and!; try done. Qed.

Lemma c_wait_kept L s i : (budget i < fuel)%nat -> c_inv L s i -> c_kept L s i is_pending (wait_closing fuel (s, i)).
Proof.
  intros Hb Hi. unfold wait_closing. destruct (c_expired_ok fuel s i Hb) as (sl & i' & b & -> & Hq & Hf). cbn [run_bind].
  pose proof (c_quiet_inv _ _ _ _ Hq Hi) as Hi'. destruct b.
  - eapply (c_kept_after L s i (set_heartbeat_sleep sl s) i'); [done|done|]. by apply c_finish_kept.
  - eexists _, i', _. split; [reflexivity|]. split_and!; try done. intros _. exact (Hf eq_refl).
Qed.

Lemma c_poll_ready_kept task L s i : c_inv L s i -> c_kept L s i (fun _ => false) (poll_ready task (s, i)).
Proof.
  intros Hi. unfold poll_ready. cbn [fst]. destruct (negb _); [by apply c_kept_here|].
  destruct (UnifiedOutput.needs_drain_before_send _ _); [|by apply c_kept_here]. unfold poll_ready_drain. cbn [on_stream fst snd].
  destruct (c_inv_write_out Sink task L (on_output (UnifiedOutput.set_ready_flush_pending true) s) i) as (s' & i' & r & E1 & ? & ? & ?); [exact Hi|].
  exists s', i', r. by split_and!.
Qed.

Lemma c_poll_flush_kept task L s i : (budget i < fuel)%nat -> c_inv L s i -> c_kept L s i is_pending (poll_flush fuel task (s, i)).
Proof.
  intros Hb Hi. unfold poll_flush. cbn [fst]. case_bool_decide; [by apply c_kept_here|].
  destruct (c_inv_write_out Sink task L s i Hi) as (s1 & i1 & r & -> & Hi1 & Hq1 & Hs1). cbn [run_bind]. eapply (c_kept_after L s i s1 i1); [done|done|].
  destruct r as [|r]; [apply c_wait_kept; [destruct Hq1 as (_ & _ & ?); lia|done]|by apply c_kept_here].
Qed.

Lemma c_inv_shutdown half task L s i : c_inv L s i -> exists s' i' r, poll_transport_shutdown half task (s, i) = ((s', i'), r) /\ c_inv L s' i' /\ quiet i i' /\ state s' = state s.
Proof.
  intros Hi. destruct (c_shutdown_ok half task s i) as (o & b & i' & r & -> & Hq & Ho). eexists _, i', r. split; [reflexivity|]. split; [|by split].
  pose proof (c_quiet_inv _ _ _ _ Hq Hi) as [Hc Hl]. split; [split; [change (CorkSpec.wf (UnifiedOutput.write_buf o)); rewrite Ho; apply Hc|exact (proj2 Hc)]|exact Hl].
Qed.

Lemma c_close_flushed_kept task L s i : (budget i < fuel)%nat -> c_inv L s i -> c_kept L s i is_pending (close_flushed fuel task (s, i)).
Proof.
  intros Hb Hi. unfold close_flushed. destruct (c_inv_begin_closing L s i Hi) as (s2 & i2 & -> & Hi2 & Hq2 & Es2).
  destruct (c_inv_write_out Sink task L s2 i2 Hi2) as (s3 & i3 & r3 & -> & Hi3 & Hq3 & Hs3). cbn [run_bind].
  eapply (c_kept_after L s i s3 i3); [by eapply env_trans|intros; apply Hs3; by rewrite Es2|].
  assert (Hb3 : (budget i3 < fuel)%nat) by (destruct Hq2 as (_ & _ & ?), Hq3 as (_ & _ & ?); lia).
  destruct r3 as [|[[]|e]]; [by apply c_wait_kept| |by apply c_finish_kept].
  destruct (c_inv_shutdown Sink task L s3 i3 Hi3) as (s4 & i4 & r4 & -> & Hi4 & Hq4 & Es4).
  eapply (c_kept_after L s3 i3 s4 i4); [done|by rewrite Es4|]. destruct r4 as [|r4]; [|by apply c_finish_kept].
  apply c_wait_kept; [destruct Hq4 as (_ & _ & ?); lia|done].
Qed.

Lemma c_send_control m (s : t) (i : T) : Message.is_control m = true -> exists w r, start_send m (s, i) = Done w r.
Proof.
  intros Hm. unfold start_send. destruct (negb _); [by eexists _, _|]. destruct (if Message.is_close m then _ else _) as [a b].
  destruct (c_encode_control m a b Hm) as (p & x & i' & -> & _). by eexists _, _.
Qed.

Lemma c_poll_close_kept task L s i : (budget i < fuel)%nat -> c_inv L s i -> c_kept L s i is_pending (poll_close fuel task (s, i)).
Proof.
  intros Hb Hi. unfold poll_close. cbn [fst]. destruct (_ || _); [by apply c_finish_kept|]. case_bool_decide as Hs; [|by apply c_close_flushed_kept].
  destruct (c_send_control (Message.Close (Some (CloseReason.new 1000 []))) s i eq_refl) as ([s1 i1] & r & Ess). rewrite Ess.
  destruct (c_start_send_kept L _ s i s1 i1 r Hi Ess) as (Hi1 & Hq1 & Hs1). eapply (c_kept_after L s i s1 i1); [done|done|].
  destruct r as [u|e]; [apply c_close_flushed_kept; [destruct Hq1 as (_ & _ & ?); lia|done]|by apply c_kept_here].
Qed.

(** *** The future of [close] *)

Lemma c_flush_write_buf_ok L s i : c_inv L s i -> exists s' i' r, flush_write_buf (s, i) = Done (s', i') (Ok r) /\ c_inv L s' i' /\ quiet i i' /\ state s' = state s.
Proof.
  intros Hi. unfold flush_write_buf. pose proof Hi as [Hc Hl].
  destruct (flush_loop_ok (S (Z.to_nat (write_buffer_len s))) (output s, i, heartbeat s) (proj1 Hc)) as ([[o i'] hb] & r & E1 & Hw' & Eh).
  { unfold write_buffer_len. rewrite CorkSpec.pending_bytes_contents by apply Hc. cbn [fst]. pose proof (len_nonneg (CorkSpec.contents (UnifiedOutput.write_buf (output s)))). lia. }
  pose proof (loop_quiet _ _ flush_step_quiet _ _ _ E1) as Hq. rewrite E1. cbn [fst snd] in *.
  assert (Hi' : c_inv L (set_output o s) i') by (split; [split; [exact Hw'|exact (proj2 Hc)]|exact (proj2 (c_quiet_inv _ _ _ _ Hq Hi))]).
  destruct r as [[|[]]|e]; eexists _, i', _; by split_and!.
Qed.

Lemma c_close_start_kept code reason L s i : c_inv L s i -> c_kept L s i (fun _ => false) (close_start code reason (s, i)).
Proof.
  intros Hi. unfold close_start. cbn [fst]. case_bool_decide as Hs; cbn [negb]; [|by apply c_kept_here].
  destruct (c_encode_control (Message.Close (Some (CloseReason.new code reason))) s i eq_refl) as (p & b & i1 & -> & Hp & Hq1). cbn [run_bind].
  assert (Hi1 : c_inv L (set_buffer b (set_protocol p s)) i1) by (apply c_inv_sent; [by eapply c_quiet_inv|done]).
  destruct (c_inv_begin_closing L _ i1 (c_inv_close_sent L _ i1 Hi1 Hs)) as (s2 & i2 & E2 & Hi2 & Hq2 & _).
  exists s2, i2. eexists. split; [unfold on_stream; cbn [fst snd]; by rewrite E2|]. split_and!; try done; [by eapply env_trans|by rewrite Hs].
Qed.

Lemma c_close_shutdown_ok L s i : c_inv L s i -> exists s' i' x, close_shutdown (s, i) = Done (s', i') (Ok x) /\ c_inv L s' i' /\ quiet i i' /\ state s' = state s.
Proof.
  intros Hi. unfold close_shutdown. pose proof (poll_shutdown_quiet i) as Hq. destruct (WebSocket.poll_shutdown i) as [i' r]. cbn [fst] in Hq.
  pose proof (c_quiet_inv _ _ _ _ Hq Hi) as Hi'. destruct r as [|[[]|e]]; eexists _, i', _; (split; [reflexivity|]); (split; [exact Hi'|done]).
Qed.

Lemma c_close_body_ok stage L s i : c_inv L s i -> exists s' i' x, close_body stage (s, i) = Done (s', i') (Ok x) /\ c_inv L s' i' /\ quiet i i' /\ state s' = state s.
Proof.
  intros Hi. destruct stage; [|by apply c_close_shutdown_ok]. unfold close_body.
  destruct (c_flush_write_buf_ok L s i Hi) as (s1 & i1 & r & -> & Hi1 & Hq1 & Es1). cbn [run_bind fst].
  destruct r as [|[[]|e]]; [by exists s1, i1; eexists| |by exists s1, i1; eexists]. destruct (immediate_write_shutdown s1); [|by exists s1, i1; eexists].
  destruct (c_close_shutdown_ok L s1 i1 Hi1) as (s2 & i2 & x & E1 & Hi2 & Hq2 & Es2).
  exists s2, i2, x. split; [exact E1|]. split; [done|]. split; [by eapply env_trans|]. by rewrite Es2.
Qed.

Lemma c_close_poll_kept stage timer deadline L s i : (budget i < fuel)%nat -> c_inv L s i ->
  c_kept L s i (fun _ => false) (close_poll fuel stage timer deadline (s, i)).
Proof.
  intros Hb Hi. unfold close_poll. destruct (c_close_body_ok stage L s i Hi) as (s1 & i1 & [stage1 r] & -> & Hi1 & Hq1 & Es1). cbn [run_bind fst snd].
  eapply (c_kept_after L s i s1 i1); [done|by rewrite Es1|].
  assert (Hfin : forall e i2 stage timer, quiet i1 i2 -> c_kept L s1 i1 (fun _ : WebSocketStream.CloseStage * Z * poll (result unit) => false)
    (Done (on_stream (fun s => fst (finish_read_close None s)) (s1, i2)) (Ok (stage, timer, Ready (Err e))))).
  { intros e i2 st tm Hq2. destruct (c_inv_finish L None s1 i2 (c_quiet_inv _ _ _ _ Hq2 Hi1)) as [? ?]. eexists _, i2, _. split; [reflexivity|]. by split_and!. }
  destruct r as [|[[]|e]]; [|by apply c_kept_here|by apply Hfin, env_refl].
  assert (Hb1 : (budget i1 < fuel)%nat) by (destruct Hq1 as (_ & _ & ?); lia). unfold timer_poll.
  destruct (timer_loop_ok fuel (if deadline <? timer then deadline else timer) deadline i1 Hb1) as (timer' & i2 & b & -> & Hq2 & _).
  destruct b; [by apply Hfin|]. eexists s1, i2, _. split; [reflexivity|]. split_and!; try done. by eapply c_quiet_inv.
Qed.
End Delivery.
End CompressedStream.
