(* ===== verification/CompressedStreamProps.v ===== *)
(** * What a compressed message stream promises its user

    The theorems hold in every state a stream reaches through its public operations, with any environment that keeps the contract of [RuntimeSpec] and any codec that
    returns within its limit; [compressed_streams_connected] joins two of them with a codec whose decoder undoes its encoder. *)

From stdpp Require Import base list option strings.
From S2P Require Import Prelude Error Mask Utf8 Frame FrameSpec Protocol ReceiveSpec ProtocolSpec ProtocolProps NextSpec.
From S2P Require Import Heartbeat Cork Output Stream Deflate Inflate Compressed CompressedSpec DeflateCodec CodecWitness Config WebSocket Scripted StreamSpec StreamProps.
From S2P Require Import CompressedStream CompressedStreamSpec.
Import CompressedWebSocketStream.

(** ** Any use of a stream *)

Section Props.
Context {E D : Type} `{CodecTotal E D}.
Context {T : Type} `{RuntimeSpec T} {SU : Simdutf8} {SUok : Simdutf8Spec}.
Context (arch : Arch) (slice_addr : bytes -> Z) (Harch : arch_ok arch).
Abbreviation t := (t E D).

Definition compressed_stream (r : Role) (c : Config.t) (dc : DeflateConfig.t) (leftover : option bytes) : t :=
  match r with Server => server_with_leftover c dc leftover | Client => client_with_leftover c dc leftover end.

Context (role : Role) (c : Config.t) (dc : DeflateConfig.t) (leftover : option bytes).

(** The states of a stream, with the messages delivered so far: any calls in any order; between them the world goes on. *)
Inductive c_reachable : list Message.t -> t -> T -> Prop :=
  | cr_start i : taken i = [] -> c_reachable [] (compressed_stream role c dc leftover) i
  | cr_world L s i i' : c_reachable L s i -> taken i' = taken i -> time i <= time i' -> c_reachable L s i'
  | cr_immediate L s i : c_reachable L s i -> c_reachable L (with_immediate_write_shutdown s) i
  | cr_next L s i fuel task s' i' r : c_reachable L s i -> enough fuel i ->
      poll_next arch slice_addr fuel task (s, i) = Done (s', i') (Ok r) -> c_reachable (L ++ delivered r) s' i'
  | cr_ready L s i task s' i' r : c_reachable L s i -> poll_ready task (s, i) = Done (s', i') (Ok r) -> c_reachable L s' i'
  | cr_send L s i m s' i' r : c_reachable L s i -> start_send m (s, i) = Done (s', i') r -> c_reachable L s' i'
  | cr_flush L s i fuel task s' i' r : c_reachable L s i -> enough fuel i -> poll_flush fuel task (s, i) = Done (s', i') (Ok r) -> c_reachable L s' i'
  | cr_close L s i fuel task s' i' r : c_reachable L s i -> enough fuel i -> poll_close fuel task (s, i) = Done (s', i') (Ok r) -> c_reachable L s' i'
  | cr_close_start L s i code reason s' i' r : c_reachable L s i -> close_start code reason (s, i) = Done (s', i') (Ok r) -> c_reachable L s' i'
  | cr_close_poll L s i fuel stage timer deadline s' i' r : c_reachable L s i -> enough fuel i ->
      close_poll fuel stage timer deadline (s, i) = Done (s', i') (Ok r) -> c_reachable L s' i'.

Abbreviation max := (Config.max_message_size c).
Abbreviation validate := (Config.validate_text_utf8 c).
Abbreviation pol := (compressed_policy role (Config.max_frame_size c)).
Abbreviation decoder := (first_decoder (E := E) (D := D) role dc).
Abbreviation inv := (c_inv (default [] leftover) max validate pol decoder).
Abbreviation returned := (c_returned (default [] leftover) max validate pol decoder).
Abbreviation kept := (c_kept (default [] leftover) max validate pol decoder).

(** The messages of the reference receiver on the leftover of the handshake and [raw]. *)
Definition c_reference (raw : bytes) : list Message.t := fst (ref_run (cref_frame max validate true) pol (None, decoder) (default [] leftover ++ raw)).

Context (Hmax : 0 <= max) (Hleft : bytes_ok (default [] leftover)).

Lemma c_start_sim : csim max validate pol (protocol (compressed_stream role c dc leftover)) (default [] leftover) (default [] leftover) (None, decoder).
Proof.
  pose proof (compressed_follows (E := E) (D := D) arch slice_addr max Hmax validate pol) as Hfol. apply (f_more (Follows := Hfol) _ [] [] _ (default [] leftover)); [|done].
  destruct role; (split; [apply fresh_views; [done|constructor]|done|]); by split.
Qed.

Lemma c_inv_start i : taken i = [] -> inv None [] (compressed_stream role c dc leftover) i.
Proof.
  intros Ht. pose proof c_start_sim as Hsim.
  assert (Hg : forall p : CompressedProtocol.t E D, csim max validate pol (CompressedProtocol.with_text_utf8_validation validate p) (default [] leftover) (default [] leftover) (None, decoder) ->
    inv None [] (with_protocol p c leftover) i).
  { clear Hsim. intros p Hsim. split; [split; [split; [done|constructor]|split; [by intros []|done]]|]. left. split; [done|]. left.
    split_and!; try done. exists (None, decoder), (default [] leftover). split; [exact Hsim|]. split.
    - cbn. case_bool_decide as Eb; cbn; [by rewrite Eb|by split].
    - intros more _. unfold c_messages. rewrite Ht. done. }
  destruct role; exact (Hg _ Hsim).
Qed.

Lemma c_inv_world d0 L s i i' : inv d0 L s i -> taken i' = taken i -> inv d0 L s i'.
Proof.
  intros [Hc Hl] Ht. split; [done|].
  assert (Ha : forall more, c_messages (default [] leftover) max validate pol decoder i' more = c_messages (default [] leftover) max validate pol decoder i more)
    by (intros more; unfold c_messages; by rewrite Ht).
  destruct Hl as [[Hs [Hl|(? & ? & ? & Hp)]]|[Hs Hp]].
  - left. split; [done|]. left. destruct Hl as (? & ? & ? & Hacc). split_and!; try done. unfold c_accounted in *. destruct (pending_parse_error s).
    + destruct Hacc as [? Hacc]. split; [done|]. intros more Hm. rewrite Ha. by apply Hacc.
    + destruct Hacc as (fr & raw & ? & ? & Hacc). exists fr, raw. split; [done|]. split; [done|]. intros more Hm. rewrite Ha. by apply Hacc.
  - left. split; [done|]. right. split_and!; try done. intros more Hm. rewrite Ha. by apply Hp.
  - right. split; [done|]. intros more Hm. rewrite Ha. by apply Hp.
Qed.

Lemma c_inv_deadline L s i : inv None L s i -> inv (closing_deadline s) L s i.
Proof. intros [(? & ? & _) Hl]. split; [|exact Hl]. by split_and!. Qed.

Lemma c_poll_next_ok d0 fuel task L s i : enough fuel i -> inv d0 L s i -> exists s' i' r,
  poll_next arch slice_addr fuel task (s, i) = Done (s', i') (Ok r) /\ returned d0 (time i) L (s', i') r.
Proof.
  intros Hf Hi. unfold poll_next.
  destruct (c_loop_ok arch slice_addr Harch (default [] leftover) max Hmax validate pol decoder d0 fuel (time i) task L fuel None s i) as ([s' i'] & r & E1 & Hr).
  - split; [split; [lia|unfold enough in Hf; lia]|]. split; [done|]. by intros ? [=].
  - unfold c_rank, enough in *. pose proof (c_weight_pos s). unfold pings. repeat case_match; lia.
  - by exists s', i', r.
Qed.

Lemma c_returned_inv d0 t0 L s i r : returned d0 t0 L (s, i) r -> inv d0 (L ++ delivered r) s i.
Proof. destruct r as [|[[m|e]|]]; cbn [c_returned delivered fst snd]; rewrite ?app_nil_r; intros [Hi _]; exact Hi. Qed.

Lemma c_reachable_inv L s i : c_reachable L s i -> inv None L s i.
Proof.
  assert (Hk : forall {A} (waits : A -> bool) (m : comp (W (E := E) (D := D) (T := T)) A) L s i s' i' r, kept None L s i waits m -> m = Done (s', i') (Ok r) -> inv None L s' i').
  { intros A waits m L1 s1 i1 s' i' r (s2 & i2 & r2 & -> & Hr & _) [= <- <- <-]. exact Hr. }
  induction 1 as [i Ht|L s i i' _ IH Ht _|L s i _ IH|L s i fuel task s' i' r _ IH Hf E1|L s i task s' i' r _ IH E1|
    L s i m s' i' r _ IH E1|L s i fuel task s' i' r _ IH Hf E1|L s i fuel task s' i' r _ IH Hf E1|L s i code reason s' i' r _ IH E1|
    L s i fuel stage timer dl s' i' r _ IH Hf E1]; try (apply enough_budget in Hf as Hb).
  - by apply c_inv_start.
  - by eapply c_inv_world.
  - exact IH.
  - destruct (c_poll_next_ok None fuel task L s i Hf IH) as (s2 & i2 & r2 & E2 & Hr). rewrite E1 in E2. injection E2 as <- <- <-. exact (c_returned_inv _ _ _ _ _ _ Hr).
  - by eapply Hk; [apply c_poll_ready_kept|].
  - by eapply c_start_send_kept.
  - by eapply Hk; [apply (c_poll_flush_kept _ _ _ _ _ _ fuel)|].
  - by eapply Hk; [apply (c_poll_close_kept _ _ _ _ _ _ fuel)|].
  - by eapply Hk; [apply c_close_start_kept|].
  - by eapply Hk; [apply (c_close_poll_kept _ _ _ _ _ _ fuel)|].
Qed.

Lemma c_next_delivers L s i fuel task : c_reachable L s i -> enough fuel i ->
  exists s' i' r, poll_next arch slice_addr fuel task (s, i) = Done (s', i') (Ok r) /\
    (forall more, bytes_ok more -> exists rest, c_reference (taken i' ++ more) = L ++ delivered r ++ rest) /\
    (r = Pending -> closing_deadline s' = None -> c_reference (taken i') = L).
Proof.
  intros Hre Hf. destruct (c_poll_next_ok None fuel task L s i Hf (c_reachable_inv _ _ _ Hre)) as (s' & i' & r & E1 & Hr).
  exists s', i', r. split; [done|]. split.
  - intros more Hm. destruct (c_inv_prefix _ _ _ _ _ _ _ _ _ (c_returned_inv _ _ _ _ _ _ Hr) more Hm) as [rest Er]. exists rest.
    unfold c_messages in Er. unfold c_reference. by rewrite Er, app_assoc.
  - intros -> Hd. destruct Hr as (_ & _ & Hall & _). specialize (Hall Hd). unfold c_messages in Hall. by rewrite app_nil_r in Hall.
Qed.

(** [C6] With permessage-deflate, for any codec that returns within its limit: however a stream is used and whatever its environment does, [poll_next] returns, without a
    panic; the messages it has returned are at every time the first messages of the reference receiver, which decompresses each message once it is complete, on the leftover of
    the handshake and the bytes read since.  When it returns [Pending] and no closing handshake is under way, every message that is complete in those bytes has been returned. *)
Theorem compressed_stream_delivers L s i fuel task : c_reachable L s i -> enough fuel i ->
  exists s' i' r, poll_next arch slice_addr fuel task (s, i) = Done (s', i') (Ok r) /\
    (forall more, bytes_ok more -> exists rest, c_reference (taken i' ++ more) = L ++ delivered r ++ rest) /\
    (r = Pending -> closing_deadline s' = None -> c_reference (taken i') = L).
Proof. apply c_next_delivers. Qed.

(** A compressed stream ends once and in time.  A poll that returns the end, an error or the peer's Close leaves it closed; a closed stream returns the end and refuses to send,
    without an effect.  Once the deadline of the closing handshake has passed, [poll_next], [poll_flush] and [poll_close] no longer wait. *)
Theorem compressed_stream_closes L s i fuel task : c_reachable L s i -> enough fuel i ->
  (exists s' i' r, poll_next arch slice_addr fuel task (s, i) = Done (s', i') (Ok r) /\ (ends r = true -> state s' = StreamState.Closed)) /\
  (state s = StreamState.Closed ->
    poll_next arch slice_addr fuel task (s, i) = Done (s, i) (Ok (Ready None)) /\
    poll_ready task (s, i) = Done (s, i) (Ok (Ready (Err ConnectionClosed))) /\
    (forall m, start_send m (s, i) = Done (s, i) (Err ConnectionClosed)) /\
    poll_flush fuel task (s, i) = Done (s, i) (Ok (Ready (Err ConnectionClosed))) /\
    (exists s' i' r, poll_close fuel task (s, i) = Done (s', i') (Ok r) /\ state s' = StreamState.Closed)) /\
  (forall d, closing_deadline s = Some d -> d <= time i ->
    (exists w r, poll_next arch slice_addr fuel task (s, i) = Done w (Ok (Ready r))) /\
    (exists w r, poll_flush fuel task (s, i) = Done w (Ok (Ready r))) /\
    (exists w r, poll_close fuel task (s, i) = Done w (Ok (Ready r)))).
Proof.
  intros Hre Hf. pose proof (c_reachable_inv _ _ _ Hre) as Hi. pose proof (enough_budget _ _ Hf) as Hb. split_and!.
  - destruct (c_poll_next_ok None fuel task L s i Hf Hi) as (s' & i' & r & E1 & Hr). exists s', i', r. split; [done|].
    destruct r as [|[[m|e]|]]; cbn [ends]; [done|by destruct Hr..].
  - intros Hs. assert (Hc : bool_decide (state s = StreamState.Closed) = true) by (by apply bool_decide_eq_true_2).
    assert (Ho : bool_decide (state s = StreamState.Open) = false) by (apply bool_decide_eq_false_2; by rewrite Hs).
    split_and!.
    + unfold poll_next, enough in *. destruct fuel as [|n]; [lia|]. cbn [loop_fuel]. unfold next_step, turn. cbn [fst snd]. by rewrite Hc.
    + unfold poll_ready. cbn [fst]. by rewrite Ho.
    + intros m. unfold start_send. cbn [fst]. by rewrite Ho.
    + unfold poll_flush. cbn [fst]. by rewrite Hc.
    + destruct (c_poll_close_kept (default [] leftover) max validate pol decoder None fuel task L s i Hb Hi) as (s' & i' & r & E1 & _ & _ & Hcl & _).
      exists s', i', r. split; [done|by apply Hcl].
  - intros d Hd Ht. apply c_inv_deadline in Hi. rewrite Hd in Hi.
    assert (Hkept : forall m : comp (W (E := E) (D := D) (T := T)) (poll (result unit)), kept (Some d) L s i is_pending m -> exists w r, m = Done w (Ok (Ready r))).
    { intros m (s' & i' & r & -> & [(_ & _ & Hd') _] & _ & _ & Hp). destruct r as [|r]; [|by eexists _, _]. specialize (Hp eq_refl d (Hd' d eq_refl)). lia. }
    split_and!; [|by apply Hkept, c_poll_flush_kept|by apply Hkept, c_poll_close_kept].
    destruct (c_poll_next_ok (Some d) fuel task L s i Hf Hi) as (s' & i' & r & E1 & Hr). destruct r as [|r]; [|by eexists _, _].
    destruct Hr as ([(_ & _ & Hd') _] & _ & _ & Hlt). specialize (Hlt d (Hd' d eq_refl)). lia.
Qed.
End Props.

(** ** Two streams *)

(** Masking keys are four bytes, and drawing one does not write. *)
Class KeySource (T : Type) `{RuntimeSpec T} : Prop :=
  draws_key (i : T) : key_fine (snd (draw_mask i)) /\ accepted (fst (draw_mask i)) = accepted i.

Lemma ref_frames_snoc {F N} (spec : F -> Frame -> result (F * option N)) fr fs f ms fr' fr'' m :
  ref_frames spec fr fs = (ms, Ok fr') -> spec fr' f = Ok (fr'', m) -> ref_frames spec fr (fs ++ [f]) = (ms ++ option_list m, Ok fr'').
Proof.
  intros E1 E2. revert fr ms E1. induction fs as [|g fs IH]; intros fr ms E1.
  - cbn in *. simplify_eq. rewrite E2. cbn. by destruct m.
  - cbn [app ref_frames] in *. destruct (spec fr g) as [[fr1 m1]|e]; [|done]. destruct (ref_frames spec fr1 fs) as [ms1 r1] eqn:Er. simplify_eq.
    rewrite (IH _ _ Er). by rewrite app_assoc.
Qed.

Section Connected.
Context {E D : Type} `{CodecTotal E D} `{!CodecSync E D}.
Context {T : Type} `{KeySource T} {SU : Simdutf8} {SUok : Simdutf8Spec}.
Context (arch : Arch) (slice_addr : bytes -> Z) (Harch : arch_ok arch).
Abbreviation t := (t E D).
Abbreviation cenc p := (DeflateContext.encoder (CompressedProtocol.deflate p)).
Abbreviation crole p := (Protocol.role (CompressedProtocol.inner p)).

(** The receiver's role and configuration, and those of the sender. *)
Context (r : Role) (c c' : Config.t) (dc : DeflateConfig.t).
Abbreviation mf := (Config.max_frame_size c).
Abbreviation mm := (Config.max_message_size c).

(** A sender that has been given the messages [ms]: it sends, polls for readiness and flushes, in any order, as long as nothing fails. *)
Inductive c_sending : list Message.t -> t -> T -> Prop :=
  | cs_start i : accepted i = [] -> c_sending [] (compressed_stream (peer r) c' dc None) i
  | cs_send ms s i m s' i' : c_sending ms s i -> cmsg_ok (E := E) (D := D) mf mm m -> Message.is_close m = false ->
      start_send m (s, i) = Done (s', i') (Ok tt) -> c_sending (ms ++ [m]) s' i'
  | cs_ready ms s i task s' i' x : c_sending ms s i -> poll_ready task (s, i) = Done (s', i') (Ok x) -> (forall e, x <> Ready (Err e)) -> c_sending ms s' i'
  | cs_flush ms s i fuel task s' i' x : c_sending ms s i -> poll_flush fuel task (s, i) = Done (s', i') (Ok x) -> (forall e, x <> Ready (Err e)) -> c_sending ms s' i'.

(** What has been accepted and what is queued are frames that the receiver turns into the messages. *)
Record c_carries (ms : list Message.t) (s : t) (i : T) : Prop := {
  cc_state : state s = StreamState.Open;
  cc_deadline : closing_deadline s = None;
  cc_wf : CorkSpec.wf (UnifiedOutput.write_buf (output s));
  cc_pong : UnifiedOutput.pending_pong (output s) = None;
  cc_ping : UnifiedOutput.ping_flush_pending (output s) = false;
  cc_role : crole (protocol s) = peer r;
  cc_wire : exists outs d', accepted i ++ CorkSpec.contents (UnifiedOutput.write_buf (output s)) = encode_all outs /\ Forall (out_ok (compressed_policy r mf)) outs /\
    ref_frames (cref_frame mm true true) (None, first_decoder r dc) (map out_frame outs) = (ms, Ok (None, d')) /\ in_sync (cenc (protocol s)) d'
}.

Lemma carries_start i : accepted i = [] -> in_sync (cenc (protocol (compressed_stream (peer r) c' dc None))) (first_decoder r dc) ->
  c_carries [] (compressed_stream (peer r) c' dc None) i.
Proof.
  intros Hi Hs. assert (Hw : exists outs d', accepted i ++ [] = encode_all outs /\ Forall (out_ok (compressed_policy r mf)) outs /\
    ref_frames (cref_frame mm true true) (None, first_decoder (E := E) (D := D) r dc) (map out_frame outs) = ([], Ok (None, d')) /\
    in_sync (cenc (protocol (compressed_stream (peer r) c' dc None))) d') by (exists [], (first_decoder r dc); by rewrite Hi).
  destruct (peer r) eqn:Er; (split; [done|done|split; [done|exact (List.Forall_nil _)]|done|done|by rewrite Er|exact Hw]).
Qed.

Lemma draw_key_source (s : t) (i : T) : exists i' key, draw_key (s, i) = ((s, i'), key) /\ accepted i' = accepted i /\ (crole (protocol s) = Client -> key_fine key).
Proof.
  unfold draw_key. cbn [fst snd]. case_bool_decide as Hr; [|exists i, []; by split_and!].
  pose proof (draws_key i) as [Hk Ha]. destruct (draw_mask i) as [i' key]. by exists i', key.
Qed.

(** A server draws no keys. *)
Lemma server_no_key key key' close_key close_key' (p : CompressedProtocol.t E D) m b : crole p <> Client ->
  CompressedProtocol.encode_message key close_key p m b = CompressedProtocol.encode_message key' close_key' p m b.
Proof.
  intros Hr. assert (Hm : forall k k', Protocol.choose_mask (crole p) k = Protocol.choose_mask (crole p) k') by (intros; unfold Protocol.choose_mask; by rewrite bool_decide_eq_false_2).
  destruct m; cbn [CompressedProtocol.encode_message]; unfold CompressedProtocol.encode_data; try (by rewrite (Hm key key')).
  cbn [Protocol.encode_message_into]. by rewrite (Hm close_key close_key').
Qed.

Lemma carries_send ms s i m : mm <= 400000000 -> c_carries ms s i -> cmsg_ok (E := E) (D := D) mf mm m -> Message.is_close m = false ->
  exists s' i', start_send m (s, i) = Done (s', i') (Ok tt) /\ c_carries (ms ++ [m]) s' i'.
Proof.
  intros Hmm [Hs Hd Hw Hpo Hpi Hro (outs & d' & Ew & Hos & Hrs & Hsy)] Hm Hnc. unfold start_send, encode_message. cbn [fst]. rewrite Hs, Hnc. cbn [negb].
  rewrite bool_decide_eq_true_2 by done. cbn [negb]. destruct (draw_key_source s i) as (i1 & key & -> & Ha & Hk).
  set (good := [0; 0; 0; 0]). assert (Hgood : key_fine good) by (split; [done|by repeat constructor]).
  assert (Ek : exists key', key_fine key' /\ CompressedProtocol.encode_message key [] (protocol s) m (buffer s) = CompressedProtocol.encode_message key' good (protocol s) m (buffer s)).
  { destruct (decide (crole (protocol s) = Client)) as [Hc|Hc]; [|exists good; split; [done|by apply server_no_key]].
    exists key. split; [by apply Hk|]. by destruct m. }
  destruct Ek as (key' & Hk' & ->).
  destruct (encode_message_ok (protocol s) m key' good (buffer s) mf mm d' Hsy Hm Hmm Hk' Hgood) as (p' & out & d2 & -> & Ho & Hr & Hsy' & Hro').
  eexists _, i1. split; [reflexivity|]. rewrite Hro, peer_peer in Ho. split; try done; [exact (c_buffer_wf _ s Hw)|by rewrite <- Hro|].
  exists (outs ++ [out]), d2. split_and!; [|by apply Forall_app; split; [|constructor]| |done].
  - assert (Hsn : forall l, encode_all (l ++ [out]) = encode_all l ++ encode_all [out]).
    { induction l as [|x l IH]; [done|]. cbn [app]. rewrite encode_all_cons, IH, (encode_all_cons x l). by rewrite <- app_assoc. }
    rewrite Hsn, <- Ew, Ha. unfold CorkSpec.contents. cbn. by rewrite <- !app_assoc.
  - rewrite map_app. exact (ref_frames_snoc _ _ _ _ _ _ _ _ Hrs Hr).
Qed.

Lemma carries_write_out half task ms s i s' i' x : c_carries ms s i -> poll_write_out half task (s, i) = Done (s', i') (Ok x) -> (forall e, x <> Ready (Err e)) -> c_carries ms s' i'.
Proof.
  intros [Hs Hd Hw Hpo Hpi Hro (outs & d' & Ew & Hos & Hrs & Hsy)]. unfold poll_write_out, pong_key, flush_time. cbn [fst]. rewrite Hpo. cbn [fst]. rewrite Hpi.
  destruct (OutputSpec.poll_drain_ok (CompressedProtocol.encode_pong [] (protocol s)) half task 0 (output s) i (heartbeat s) Hw) as ([[o i1] hb] & res & -> & Hdr).
  destruct Hdr as [[Hwf Hst Hhb] _]. cbn [fst snd] in *. assert (Hk : UnifiedOutput.pending_pong o = None /\ OutputSpec.stream_of (o, i1, hb) = OutputSpec.stream_of (output s, i, heartbeat s)).
  { destruct Hst as [[-> ?]|([? ?] & _)]; [done|congruence]. }
  destruct Hk as [Hpo' Hst']. assert (Hpi' : UnifiedOutput.ping_flush_pending o = false) by (destruct Hhb as [[-> _]|(? & _)]; [done|congruence]).
  assert (Hc : c_carries ms (set_heartbeat hb (set_output o s)) i1).
  { split; try done. exists outs, d'. split_and!; try done. cbn in Hst'. rewrite <- Ew. exact Hst'. }
  destruct res as [[|u]|e]; intros [= <- <- <-] Hx; [exact Hc|exact Hc|by destruct (Hx e)].
Qed.

Lemma sending_carries ms s i : mm <= 400000000 -> in_sync (cenc (protocol (compressed_stream (peer r) c' dc None))) (first_decoder r dc) -> c_sending ms s i -> c_carries ms s i.
Proof.
  intros Hmm Hsy. induction 1 as [i Hi|ms s i m s' i' _ IH Hm Hc E1|ms s i task s' i' x _ IH E1 Hx|ms s i fuel task s' i' x _ IH E1 Hx].
  - by apply carries_start.
  - destruct (carries_send ms s i m Hmm IH Hm Hc) as (s2 & i2 & E2 & H2'). rewrite E1 in E2. by injection E2 as <- <-.
  - revert E1. unfold poll_ready. cbn [fst]. rewrite bool_decide_eq_true_2 by apply IH. cbn [negb].
    destruct (UnifiedOutput.needs_drain_before_send _ _); [|by intros [= <- <- <-]]. unfold poll_ready_drain. cbn [on_stream fst snd]. intros E1.
    eapply carries_write_out; [|exact E1|done]. destruct IH. by split.
  - revert E1. unfold poll_flush. cbn [fst]. rewrite bool_decide_eq_false_2 by (destruct IH as [-> _ _ _ _ _ _]; done).
    destruct (poll_write_out Sink task (s, i)) as [[s1 i1] [x1|e]| |] eqn:E1; try done. cbn [run_bind]. destruct x1 as [|x1].
    + pose proof (carries_write_out _ _ _ _ _ _ _ _ IH E1 ltac:(done)) as H2'. unfold wait_closing, poll_closing_expired. cbn [fst].
      rewrite (cc_deadline _ _ _ H2'). cbn [run_bind]. by intros [= <- <- <-].
    + intros [= <- <- <-]. by eapply carries_write_out.
Qed.

Context (Hmm : 0 <= mm <= 400000000) (Hvalid : Config.validate_text_utf8 c = true).

(** [C5] Two compressed streams with one deflate configuration, whose codec undoes at one end what it did at the other: the sender accepts every message within the receiver's limits, and when
    the receiver reads, in any pieces, what the sender's transport has taken, its [poll_next] returns exactly the messages sent, in order and unchanged; when it has read everything and
    nothing is queued, all of them. *)
Theorem compressed_streams_connected ms s i L q j fuel task :
  in_sync (cenc (protocol (compressed_stream (peer r) c' dc None))) (first_decoder r dc) ->
  c_sending ms s i -> c_reachable arch slice_addr r c dc None L q j -> enough fuel j ->
  (forall m, cmsg_ok (E := E) (D := D) mf mm m -> Message.is_close m = false -> exists s' i', start_send m (s, i) = Done (s', i') (Ok tt)) /\
  exists q' j' x, poll_next arch slice_addr fuel task (q, j) = Done (q', j') (Ok x) /\
    forall rest, accepted i = taken j' ++ rest ->
      (exists later, ms = L ++ delivered x ++ later) /\
      (x = Pending -> closing_deadline q' = None -> rest = [] -> CorkSpec.contents (UnifiedOutput.write_buf (output s)) = [] -> L = ms).
Proof.
  intros Hsy Hsend Hre Hf. pose proof (sending_carries ms s i ltac:(lia) Hsy Hsend) as Hc. split.
  { intros m Hm Hn. destruct (carries_send ms s i m ltac:(lia) Hc Hm Hn) as (s' & i' & E1 & _). by exists s', i'. }
  destruct (c_next_delivers arch slice_addr Harch r c dc None (proj1 Hmm) ltac:(constructor) L q j fuel task Hre Hf) as (q' & j' & x & E1 & Hpre & Hall).
  exists q', j', x. split; [done|]. intros rest Er. destruct (cc_wire _ _ _ Hc) as (outs & d' & Ew & Hos & Hrs & _). destruct (spec_frames_sent _ _ Hos) as [Hok Hsf].
  assert (Href : c_reference (E := E) (D := D) r c dc None (encode_all outs) = ms) by (unfold c_reference, ref_run; cbn [default app]; by rewrite Hvalid, Hsf, Hrs).
  rewrite Er, <- app_assoc in Ew. split.
  - rewrite <- Ew in Hok. apply bytes_ok_app in Hok as [_ Hok]. destruct (Hpre _ Hok) as [later El]. exists later. rewrite <- El, Ew. done.
  - intros -> Hd -> Hq. rewrite <- (Hall eq_refl Hd), <- Href, <- Ew, Hq. by rewrite !app_nil_r.
Qed.
End Connected.

(** ** Concrete runs *)

Abbreviation CW := (CompressedWebSocketStream.t (DeflateEncoder.t (option bytes)) (DeflateDecoder inflater)).
Abbreviation cw_reachable := (c_reachable (E := DeflateEncoder.t (option bytes)) (D := DeflateDecoder inflater) (T := Script) (SU := simdutf8_std) test_arch (fun _ => 0) Client Config.default cw_config None).
Abbreviation cw_reference := (c_reference (E := DeflateEncoder.t (option bytes)) (D := DeflateDecoder inflater) (SU := simdutf8_std) Client Config.default cw_config None).
Definition cw_client : CW := compressed_stream Client Config.default cw_config None.

(** A compressed text is split over two reads; then nothing more arrives. *)
Definition cw_input : Script := MkScript [Ok [0xC1; 4; 1; 104]; Ok [1; 105]] [] [100] [] 0.

Example cw_text : exists w, poll_next (SU := simdutf8_std) test_arch (fun _ => 0) demo_fuel 1 (cw_client, cw_input) = Done w (Ok (Ready (Some (Ok (Message.Text [104; 105]))))).
Proof. vm_compute. by eexists. Qed.

Lemma compressed_stream_delivers_witness : exists s' i' r,
  poll_next (SU := simdutf8_std) test_arch (fun _ => 0) demo_fuel 1 (cw_client, cw_input) = Done (s', i') (Ok r) /\
  (forall more, bytes_ok more -> exists rest, cw_reference (taken i' ++ more) = [] ++ delivered r ++ rest) /\
  (r = Pending -> closing_deadline s' = None -> cw_reference (taken i') = []).
Proof.
  apply (compressed_stream_delivers (SU := simdutf8_std) (SUok := simdutf8_std_spec) test_arch (fun _ => 0) ltac:(by vm_compute) Client Config.default cw_config None
    ltac:(by vm_compute) ltac:(constructor) [] cw_client cw_input demo_fuel 1); [by apply cr_start|unfold enough, demo_fuel; cbn; lia].
Defined.

(** A local Close at time 0 with the output blocked, polled again after six seconds. *)
Lemma compressed_stream_closes_witness : exists s : CW, closing_deadline s = Some 5000 /\ cw_reachable [] s (demo_blocked 6000) /\
  (exists w r, poll_next (SU := simdutf8_std) test_arch (fun _ => 0) demo_fuel 1 (s, demo_blocked 6000) = Done w (Ok (Ready r))) /\
  (exists w r, poll_flush demo_fuel 1 (s, demo_blocked 6000) = Done w (Ok (Ready r))) /\
  (exists w r, poll_close demo_fuel 1 (s, demo_blocked 6000) = Done w (Ok (Ready r))).
Proof.
  eexists ?[s]. assert (Hr : cw_reachable [] ?s (demo_blocked 6000)).
  { eapply (cr_world _ _ _ _ _ _ [] _ (demo_blocked 0)); [|reflexivity|cbn; lia].
    eapply (cr_close_start _ _ _ _ _ _ [] _ (demo_blocked 0) 1000 []); [by apply cr_start|]. vm_compute. reflexivity. }
  split; [|split; [exact Hr|]]; [reflexivity|].
  apply (compressed_stream_closes (SU := simdutf8_std) (SUok := simdutf8_std_spec) test_arch (fun _ => 0) ltac:(by vm_compute) Client Config.default cw_config None
    ltac:(by vm_compute) ltac:(constructor) [] _ (demo_blocked 6000) demo_fuel 1 Hr ltac:(unfold enough, demo_fuel; cbn; lia)) with (d := 5000); [reflexivity|cbn; lia].
Defined.

#[export] Instance script_keys : KeySource Script.
Proof. intros i. split; [split; [done|by repeat constructor]|done]. Qed.

(** The server sends a text and flushes; the client reads what is on the wire. *)
Definition cw_server : CW := compressed_stream Server Config.default cw_config None.
Definition quiet_script : Script := MkScript [] [] [100; 100] [] 0.
Definition world_of {A} (w0 : CW * Script) (x : comp (CW * Script) A) : CW * Script := match x with Done w _ => w | _ => w0 end.
Definition cw_sent : CW * Script := world_of (cw_server, quiet_script) (start_send (Message.Text [104; 101; 108; 108; 111]) (cw_server, quiet_script)).
Definition cw_flushed : CW * Script := world_of cw_sent (poll_flush demo_fuel 1 cw_sent).
Definition cw_incoming : Script := MkScript [Ok (wire (snd cw_flushed))] [] [100] [] 0.

Lemma cw_sending : c_sending (E := DeflateEncoder.t (option bytes)) (D := DeflateDecoder inflater) (T := Script) Client Config.default Config.default cw_config
  [Message.Text [104; 101; 108; 108; 111]] (fst cw_flushed) (snd cw_flushed).
Proof.
  apply (cs_flush _ _ _ _ _ (fst cw_sent) (snd cw_sent) demo_fuel 1 _ _ (Ready (Ok tt))); [|vm_compute; reflexivity|done].
  apply (cs_send _ _ _ _ [] cw_server quiet_script); [by apply cs_start| |done|vm_compute; reflexivity].
  split; [|split; by vm_compute]. cbn. split_and!; try done; try lia. by repeat constructor.
Qed.

Lemma compressed_streams_connected_witness : exists q' j' x,
  poll_next (SU := simdutf8_std) test_arch (fun _ => 0) demo_fuel 1 (cw_client, cw_incoming) = Done (q', j') (Ok x) /\
  forall rest, accepted (snd cw_flushed) = taken j' ++ rest -> exists later, [Message.Text [104; 101; 108; 108; 111]] = [] ++ delivered x ++ later.
Proof.
  destruct (compressed_streams_connected (E := DeflateEncoder.t (option bytes)) (D := DeflateDecoder inflater) (T := Script) (SU := simdutf8_std) (SUok := simdutf8_std_spec)
    test_arch (fun _ => 0) ltac:(by vm_compute) Client Config.default Config.default cw_config ltac:(split; by vm_compute) eq_refl
    [Message.Text [104; 101; 108; 108; 111]] (fst cw_flushed) (snd cw_flushed) [] cw_client cw_incoming demo_fuel 1) as (_ & q' & j' & x & E1 & Hx).
  - exact (proj1 (endpoints_in_sync (C := option bytes) (S := inflater) Client 0 0 0 0 cw_config)).
  - exact cw_sending.
  - by apply cr_start.
  - unfold enough, demo_fuel. cbn. lia.
  - exists q', j', x. split; [exact E1|]. intros rest Er. by apply (Hx rest Er).
Defined.
