(* ===== verification/HttpStream.v ===== *)
(** * Streams over HTTP/1.1, HTTP/2 and HTTP/3 (src/src/http2/stream.rs, src/src/http3/stream.rs, src/src/stream/transport_stream.rs)

    After the handshake a WebSocket runs over what the transport gives for one request: any asynchronous stream, a pair of h2 streams, a pair of QUIC
    streams, or an h3 request stream.  The adapters turn each into a stream of bytes.  The streams of h2, quinn and h3 are interfaces;
    a reading buffer is known by the [room] it has left. *)

From stdpp Require Import base list option strings.
From S2P Require Import Prelude Error Utf8 Frame FrameSpec Protocol Heartbeat Cork Output.

(** [io::Error::other] *)
Definition io_other (text : bytes) : IoError := MkIoError IoOther text.

(** [AsyncRead] and [AsyncWrite].  [poll_read room]: the bytes put into a buffer with that much room. *)
Class AsyncStream (A : Type) := {
  a_is_write_vectored : A -> bool;
  a_poll_read : Z -> A -> A * poll (res IoError bytes);
  a_poll_write : A -> bytes -> A * poll (res IoError Z);
  a_poll_write_vectored : A -> list bytes -> A * poll (res IoError Z);
  a_poll_flush : A -> A * poll (res IoError unit);
  a_poll_shutdown : A -> A * poll (res IoError unit)
}.

(** tokio's default [poll_write_vectored]: the first buffer that is not empty *)
Definition default_write_vectored {A} (write : A -> bytes -> A * poll (res IoError Z)) (a : A) (bufs : list bytes) : A * poll (res IoError Z) :=
  write a (default [] (List.hd_error (List.filter (fun b => negb (bool_decide (b = []))) bufs))).

(** ** HTTP/2 *)

(** The streams of h2.  An error is known by its text.  [backlog]: what has been received and not yet been handed out, each frame counted with its
    length and one more. *)
Class H2Send (S : Type) := {
  capacity : S -> Z;
  reserve_capacity : S -> Z -> S;
  poll_capacity : S -> S * poll (option (res bytes Z));
  send_data : S -> bytes -> bool -> S * res bytes unit
}.
Class H2Recv (R : Type) := {
  poll_data : R -> R * poll (option (res bytes bytes));
  release_capacity : R -> Z -> R;
  backlog : R -> nat
}.

Module Http2Stream.
Record t (S R : Type) := Mk { send : S; recv : R; recv_buf : bytes; recv_eof : bool; capacity_needed : Z }.
Arguments Mk {S R}. Arguments send {S R}. Arguments recv {S R}. Arguments recv_buf {S R}. Arguments recv_eof {S R}. Arguments capacity_needed {S R}.

Section Stream.
Context {S R : Type} `{H2Send S} `{H2Recv R}.
Abbreviation t := (t S R).

Definition set_send (v : S) (s : t) : t := Mk v (recv s) (recv_buf s) (recv_eof s) (capacity_needed s).
Definition set_recv (v : R) (s : t) : t := Mk (send s) v (recv_buf s) (recv_eof s) (capacity_needed s).
Definition set_recv_buf (v : bytes) (s : t) : t := Mk (send s) (recv s) v (recv_eof s) (capacity_needed s).
Definition set_recv_eof (v : bool) (s : t) : t := Mk (send s) (recv s) (recv_buf s) v (capacity_needed s).
Definition set_capacity_needed (v : Z) (s : t) : t := Mk (send s) (recv s) (recv_buf s) (recv_eof s) v.

Definition new (send : S) (recv : R) : t := Mk send recv [] false 0.

(** The loop of [poll_read]; [None] without fuel. *)
Fixpoint read_loop (fuel : nat) (room : Z) (s : t) : option (t * poll (res IoError bytes)) :=
  match fuel with
  | O => None
  | Datatypes.S fuel =>
      let '(recv, r) := poll_data (recv s) in
      let s := set_recv recv s in
      match r with
      | Ready (Some (Ok data)) =>
          if bool_decide (data = []) then read_loop fuel room s
          else
            let s := set_recv (release_capacity recv (len data)) s in
            let to_copy := Z.min room (len data) in
            Some (if to_copy <? len data then set_recv_buf (from to_copy data) s else s, Ready (Ok (upto to_copy data)))
      | Ready (Some (Err e)) => Some (s, Ready (Err (io_other e)))
      | Ready None => Some (set_recv_eof true s, Ready (Ok []))
      | Pending => Some (s, Pending)
      end
  end.

Definition poll_read (fuel : nat) (room : Z) (s : t) : option (t * poll (res IoError bytes)) :=
  if room =? 0 then Some (s, Ready (Ok []))
  else if negb (bool_decide (recv_buf s = [])) then
    let to_copy := Z.min room (len (recv_buf s)) in
    Some (set_recv_buf (if to_copy =? len (recv_buf s) then [] else from to_copy (recv_buf s)) s, Ready (Ok (upto to_copy (recv_buf s))))
  else if recv_eof s then Some (s, Ready (Ok []))
  else read_loop fuel room s.

Definition poll_write (s : t) (buf : bytes) : t * poll (res IoError Z) :=
  if bool_decide (buf = []) then (s, Ready (Ok 0))
  else
    let s :=
      if (0 <? capacity_needed s) || (capacity (send s) =? 0)
      then set_capacity_needed (len buf) (set_send (reserve_capacity (send s) (len buf)) s)
      else s in
    let '(send, r) := poll_capacity (send s) in
    let s := set_send send s in
    match r with
    | Ready (Some (Ok capacity)) =>
        let to_send := Z.min capacity (len buf) in
        let '(send, r) := send_data send (upto to_send buf) false in
        let s := set_send send s in
        match r with
        | Err e => (s, Ready (Err (io_other e)))
        | Ok _ => (set_capacity_needed 0 s, Ready (Ok to_send))
        end
    | Ready (Some (Err e)) => (s, Ready (Err (io_other e)))
    | Ready None => (s, Ready (Err (MkIoError IoBrokenPipe (str "HTTP/2 stream closed"))))
    | Pending => (set_capacity_needed (len buf) s, Pending)
    end.

Definition poll_flush (s : t) : t * poll (res IoError unit) := (s, Ready (Ok tt)).

Definition poll_shutdown (s : t) : t * poll (res IoError unit) :=
  let '(send, r) := send_data (send s) [] true in
  (set_send send s, Ready (match r with Ok _ => Ok tt | Err e => Err (io_other e) end)).

(** The turns [read_loop] can make. *)
Definition turns (s : t) : nat := Datatypes.S (backlog (recv s)).

#[global] Instance stream : AsyncStream t := {
  a_is_write_vectored _ := false;
  a_poll_read room s := match poll_read (turns s) room s with Some r => r | None => (s, Pending) end;
  a_poll_write := poll_write;
  a_poll_write_vectored := default_write_vectored poll_write;
  a_poll_flush := poll_flush;
  a_poll_shutdown := poll_shutdown
}.
End Stream.
End Http2Stream.

(** ** HTTP/3 *)

(** The streams of quinn. *)
Inductive ReadError := Reset (text : bytes) | ReadFailed (text : bytes).
Definition read_error_text (e : ReadError) : bytes := match e with Reset b | ReadFailed b => b end.

Class QuicSend (S : Type) := {
  quic_write : S -> bytes -> S * poll (res bytes Z);
  quic_finish : S -> S * res bytes unit
}.
Class QuicRecv (R : Type) := {
  poll_read_buf : R -> Z -> R * poll (res ReadError bytes);
  quic_backlog : R -> nat
}.

Module Http3Stream.
Record t (S R : Type) := Mk { send : S; recv : R; recv_finished : bool }.
Arguments Mk {S R}. Arguments send {S R}. Arguments recv {S R}. Arguments recv_finished {S R}.

Section Stream.
Context {S R : Type} `{QuicSend S} `{QuicRecv R}.
Abbreviation t := (t S R).

Definition new (send : S) (recv : R) : t := Mk send recv false.
Definition is_recv_finished (s : t) : bool := recv_finished s.

Definition poll_read (room : Z) (s : t) : t * poll (res IoError bytes) :=
  if recv_finished s then (s, Ready (Ok []))
  else
    let '(recv, r) := poll_read_buf (recv s) room in
    match r with
    | Ready (Ok data) => (Mk (send s) recv (recv_finished s), Ready (Ok data))
    | Ready (Err e) =>
        (Mk (send s) recv (match e with Reset _ => true | _ => recv_finished s end), Ready (Err (io_other (read_error_text e))))
    | Pending => (Mk (send s) recv (recv_finished s), Pending)
    end.

Definition poll_write (s : t) (buf : bytes) : t * poll (res IoError Z) :=
  if bool_decide (buf = []) then (s, Ready (Ok 0))
  else
    let '(send, r) := quic_write (send s) buf in
    (Mk send (recv s) (recv_finished s),
     match r with
     | Ready (Ok n) => Ready (Ok n)
     | Ready (Err e) => Ready (Err (io_other e))
     | Pending => Pending
     end).

Definition poll_flush (s : t) : t * poll (res IoError unit) := (s, Ready (Ok tt)).

Definition poll_shutdown (s : t) : t * poll (res IoError unit) :=
  let '(send, r) := quic_finish (send s) in
  (Mk send (recv s) (recv_finished s), Ready (match r with Ok _ => Ok tt | Err e => Err (io_other e) end)).

#[global] Instance stream : AsyncStream t := {
  a_is_write_vectored _ := false;
  a_poll_read := poll_read;
  a_poll_write := poll_write;
  a_poll_write_vectored := default_write_vectored poll_write;
  a_poll_flush := poll_flush;
  a_poll_shutdown := poll_shutdown
}.
End Stream.
End Http3Stream.

(** *** h3 request streams *)

(** The sending half of an h3 request stream: [send_data] and [finish] take the stream and are futures that give it back.  A poll of one: it goes on, or
    has ended. *)
Class H3SendStream (S F : Type) := {
  h3_send_data : S -> bytes -> F;
  h3_finish : S -> F;
  h3_poll : F -> F + S * res bytes unit
}.
(** The receiving half. *)
Class H3RecvStream (R : Type) := {
  poll_recv_data : R -> R * poll (res bytes (option bytes));
  h3_backlog : R -> nat
}.

Definition finished_error : IoError := MkIoError IoBrokenPipe (str "HTTP/3 send stream is finished").

Module H3Writer.
Inductive t (S F : Type) :=
  | Ready_ (stream : S)
  | Writing (write : F)
  | Finishing (finish : F)
  | Finished.
Arguments Ready_ {S F}. Arguments Writing {S F}. Arguments Finishing {S F}. Arguments Finished {S F}.

Section Writer.
Context {S F : Type} `{H3SendStream S F}.
Abbreviation t := (t S F).

Definition new (stream : S) : t := Ready_ stream.

(** Accepts the bytes and starts to send them. *)
Definition accept (stream : S) (buf : bytes) : t * poll (res IoError Z) := (Writing (h3_send_data stream buf), Ready (Ok (len buf))).

(** The loop goes round at most once: from [Writing] to [Ready_]. *)
Definition poll_write (w : t) (buf : bytes) : t * poll (res IoError Z) :=
  if bool_decide (buf = []) then (w, Ready (Ok 0))
  else
    match w with
    | Ready_ stream => accept stream buf
    | Writing write =>
        match h3_poll write with
        | inr (stream, Ok _) => accept stream buf
        | inr (stream, Err e) => (Ready_ stream, Ready (Err (io_other e)))
        | inl write => (Writing write, Pending)
        end
    | Finishing finish =>
        match h3_poll finish with
        | inr (_, Ok _) => (Finished, Ready (Err finished_error))
        | inr (stream, Err e) => (Ready_ stream, Ready (Err (io_other e)))
        | inl finish => (Finishing finish, Pending)
        end
    | Finished => (Finished, Ready (Err finished_error))
    end.

Definition poll_flush (w : t) : t * poll (res IoError unit) :=
  match w with
  | Ready_ _ | Finished => (w, Ready (Ok tt))
  | Writing write =>
      match h3_poll write with
      | inr (stream, r) => (Ready_ stream, Ready (match r with Ok _ => Ok tt | Err e => Err (io_other e) end))
      | inl write => (Writing write, Pending)
      end
  | Finishing finish =>
      match h3_poll finish with
      | inr (_, Ok _) => (Finished, Ready (Ok tt))
      | inr (stream, Err e) => (Ready_ stream, Ready (Err (io_other e)))
      | inl finish => (Finishing finish, Pending)
      end
  end.

(** The rest of [poll_shutdown] once [finish] has been started. *)
Definition shutdown_finishing (finish : F) : t * poll (res IoError unit) :=
  match h3_poll finish with
  | inr (_, Ok _) => (Finished, Ready (Ok tt))
  | inr (stream, Err e) => (Ready_ stream, Ready (Err (io_other e)))
  | inl finish => (Finishing finish, Pending)
  end.

Definition poll_shutdown (w : t) : t * poll (res IoError unit) :=
  match w with
  | Ready_ stream => shutdown_finishing (h3_finish stream)
  | Writing write =>
      match h3_poll write with
      | inr (stream, Ok _) => shutdown_finishing (h3_finish stream)
      | inr (stream, Err e) => (Ready_ stream, Ready (Err (io_other e)))
      | inl write => (Writing write, Pending)
      end
  | Finishing finish => shutdown_finishing finish
  | Finished => (Finished, Ready (Ok tt))
  end.
End Writer.
End H3Writer.

(** [Http3ServerStream]; [Http3ClientStream] is the same over the client's streams. *)
Module Http3RequestStream.
Record t (S F R : Type) := Mk { writer : H3Writer.t S F; recv : R; read_buf : bytes }.
Arguments Mk {S F R}. Arguments writer {S F R}. Arguments recv {S F R}. Arguments read_buf {S F R}.

Section Stream.
Context {S F R : Type} `{H3SendStream S F} `{H3RecvStream R}.
Abbreviation t := (t S F R).

Definition new (send : S) (recv : R) : t := Mk (H3Writer.new send) recv [].
Definition read_buf_len (s : t) : Z := len (read_buf s).

(** The bytes of a [Buf] are copied chunk by chunk; what is left over is kept. *)
Definition poll_read (room : Z) (s : t) : t * poll (res IoError bytes) :=
  if room =? 0 then (s, Ready (Ok []))
  else if negb (bool_decide (read_buf s = [])) then
    let to_copy := Z.min room (len (read_buf s)) in
    (Mk (writer s) (recv s) (if to_copy =? len (read_buf s) then [] else from to_copy (read_buf s)), Ready (Ok (upto to_copy (read_buf s))))
  else
    let '(recv, r) := poll_recv_data (recv s) in
    match r with
    | Ready (Ok (Some data)) =>
        let to_copy := Z.min room (len data) in
        (Mk (writer s) recv (if to_copy <? len data then from to_copy data else read_buf s), Ready (Ok (upto to_copy data)))
    | Ready (Ok None) => (Mk (writer s) recv (read_buf s), Ready (Ok []))
    | Ready (Err e) => (Mk (writer s) recv (read_buf s), Ready (Err (io_other e)))
    | Pending => (Mk (writer s) recv (read_buf s), Pending)
    end.

Definition on_writer {A} (f : H3Writer.t S F -> H3Writer.t S F * A) (s : t) : t * A :=
  let '(w, r) := f (writer s) in (Mk w (recv s) (read_buf s), r).
Definition poll_write (s : t) (buf : bytes) : t * poll (res IoError Z) := on_writer (fun w => H3Writer.poll_write w buf) s.
Definition poll_flush : t -> t * poll (res IoError unit) := on_writer H3Writer.poll_flush.
Definition poll_shutdown : t -> t * poll (res IoError unit) := on_writer H3Writer.poll_shutdown.

#[global] Instance stream : AsyncStream t := {
  a_is_write_vectored _ := false;
  a_poll_read := poll_read;
  a_poll_write := poll_write;
  a_poll_write_vectored := default_write_vectored poll_write;
  a_poll_flush := poll_flush;
  a_poll_shutdown := poll_shutdown
}.
End Stream.
End Http3RequestStream.

(** ** [Stream<T>] *)

Module TransportStream.
Inductive Http3StreamInner (Q QR S F S' F' R R' : Type) :=
  | Raw (inner : Http3Stream.t Q QR)
  | Server (stream : Http3RequestStream.t S F R)
  | Client (stream : Http3RequestStream.t S' F' R').
Arguments Raw {Q QR S F S' F' R R'}. Arguments Server {Q QR S F S' F' R R'}. Arguments Client {Q QR S F S' F' R R'}.

Section Http3.
Context {Q QR S F S' F' R R' : Type} `{QuicSend Q} `{QuicRecv QR} `{H3SendStream S F} `{H3SendStream S' F'} `{H3RecvStream R} `{H3RecvStream R'}.
Abbreviation t := (Http3StreamInner Q QR S F S' F' R R').

Definition from_quic (send : Q) (recv : QR) : t := Raw (Http3Stream.new send recv).
Definition from_h3_server (send : S) (recv : R) : t := Server (Http3RequestStream.new send recv).
Definition from_h3_client (send : S') (recv : R') : t := Client (Http3RequestStream.new send recv).

(** A raw stream does with its fields what [Http3Stream] does. *)
Definition poll_read (room : Z) (s : t) : t * poll (res IoError bytes) :=
  match s with
  | Raw i => let '(i, r) := Http3Stream.poll_read room i in (Raw i, r)
  | Server i => let '(i, r) := Http3RequestStream.poll_read room i in (Server i, r)
  | Client i => let '(i, r) := Http3RequestStream.poll_read room i in (Client i, r)
  end.

Definition poll_write (s : t) (buf : bytes) : t * poll (res IoError Z) :=
  if bool_decide (buf = []) then (s, Ready (Ok 0))
  else
    match s with
    | Raw i => let '(i, r) := Http3Stream.poll_write i buf in (Raw i, r)
    | Server i => let '(i, r) := Http3RequestStream.poll_write i buf in (Server i, r)
    | Client i => let '(i, r) := Http3RequestStream.poll_write i buf in (Client i, r)
    end.

Definition poll_flush (s : t) : t * poll (res IoError unit) :=
  match s with
  | Raw _ => (s, Ready (Ok tt))
  | Server i => let '(i, r) := Http3RequestStream.poll_flush i in (Server i, r)
  | Client i => let '(i, r) := Http3RequestStream.poll_flush i in (Client i, r)
  end.

Definition poll_shutdown (s : t) : t * poll (res IoError unit) :=
  match s with
  | Raw i => let '(i, r) := Http3Stream.poll_shutdown i in (Raw i, r)
  | Server i => let '(i, r) := Http3RequestStream.poll_shutdown i in (Server i, r)
  | Client i => let '(i, r) := Http3RequestStream.poll_shutdown i in (Client i, r)
  end.

#[global] Instance stream : AsyncStream t := {
  a_is_write_vectored _ := false;
  a_poll_read := poll_read;
  a_poll_write := poll_write;
  a_poll_write_vectored := default_write_vectored poll_write;
  a_poll_flush := poll_flush;
  a_poll_shutdown := poll_shutdown
}.
End Http3.

(** *** The three kinds *)

Section Kinds.
Context {A S2 R2 Q QR S F S' F' R R' : Type} `{AsyncStream A} `{H2Send S2} `{H2Recv R2}.
Context `{QuicSend Q} `{QuicRecv QR} `{H3SendStream S F} `{H3SendStream S' F'} `{H3RecvStream R} `{H3RecvStream R'}.

(** [Http2StreamInner] has the fields of [Http2Stream], and [Stream<Http2>] its code. *)
Abbreviation Http2StreamInner := (Http2Stream.t S2 R2).
Abbreviation Http3 := (Http3StreamInner Q QR S F S' F' R R').

Inductive StreamInner :=
  | Http1 (stream : A)
  | Http2 (inner : Http2StreamInner)
  | Http3_ (inner : Http3).

(** The stream of one kind; [None]: the panic of [unreachable!]. *)
Definition on_http1 {X} (f : A -> A * X) (s : StreamInner) : option (StreamInner * X) :=
  match s with Http1 a => let '(a, r) := f a in Some (Http1 a, r) | _ => None end.
Definition on_http2 {X} (f : Http2StreamInner -> Http2StreamInner * X) (s : StreamInner) : option (StreamInner * X) :=
  match s with Http2 a => let '(a, r) := f a in Some (Http2 a, r) | _ => None end.
Definition on_http3 {X} (f : Http3 -> Http3 * X) (s : StreamInner) : option (StreamInner * X) :=
  match s with Http3_ a => let '(a, r) := f a in Some (Http3_ a, r) | _ => None end.

Definition new (inner : A) : StreamInner := Http1 inner.
Definition from_h2 (send : S2) (recv : R2) : StreamInner := Http2 (Http2Stream.new send recv).
Definition from_quic_stream (send : Q) (recv : QR) : StreamInner := Http3_ (from_quic send recv).
Definition from_h3_server_stream (send : S) (recv : R) : StreamInner := Http3_ (from_h3_server send recv).
Definition from_h3_client_stream (send : S') (recv : R') : StreamInner := Http3_ (from_h3_client send recv).

Definition send_stream (s : StreamInner) : option S2 := match s with Http2 inner => Some (Http2Stream.send inner) | _ => None end.

Definition http1_is_write_vectored (s : StreamInner) : option bool := match s with Http1 a => Some (a_is_write_vectored a) | _ => None end.
Definition http1_poll_read (room : Z) : StreamInner -> option (StreamInner * poll (res IoError bytes)) := on_http1 (a_poll_read room).
Definition http1_poll_write (s : StreamInner) (buf : bytes) : option (StreamInner * poll (res IoError Z)) := on_http1 (fun a => a_poll_write a buf) s.
Definition http1_poll_write_vectored (s : StreamInner) (bufs : list bytes) : option (StreamInner * poll (res IoError Z)) := on_http1 (fun a => a_poll_write_vectored a bufs) s.
Definition http1_poll_flush : StreamInner -> option (StreamInner * poll (res IoError unit)) := on_http1 a_poll_flush.
Definition http1_poll_shutdown : StreamInner -> option (StreamInner * poll (res IoError unit)) := on_http1 a_poll_shutdown.

Definition http2_poll_read (room : Z) (s : StreamInner) : option (StreamInner * poll (res IoError bytes)) :=
  if room =? 0 then Some (s, Ready (Ok [])) else on_http2 (a_poll_read room) s.
Definition http2_poll_write (s : StreamInner) (buf : bytes) : option (StreamInner * poll (res IoError Z)) :=
  if bool_decide (buf = []) then Some (s, Ready (Ok 0)) else on_http2 (fun a => Http2Stream.poll_write a buf) s.
Definition http2_poll_flush (s : StreamInner) : option (StreamInner * poll (res IoError unit)) := Some (s, Ready (Ok tt)).
Definition http2_poll_shutdown : StreamInner -> option (StreamInner * poll (res IoError unit)) := on_http2 Http2Stream.poll_shutdown.

Definition http3_poll_read (room : Z) : StreamInner -> option (StreamInner * poll (res IoError bytes)) := on_http3 (poll_read room).
Definition http3_poll_write (s : StreamInner) (buf : bytes) : option (StreamInner * poll (res IoError Z)) :=
  if bool_decide (buf = []) then Some (s, Ready (Ok 0)) else on_http3 (fun a => poll_write a buf) s.
Definition http3_poll_flush : StreamInner -> option (StreamInner * poll (res IoError unit)) := on_http3 poll_flush.
Definition http3_poll_shutdown : StreamInner -> option (StreamInner * poll (res IoError unit)) := on_http3 poll_shutdown.

(** A stream made for one transport does what the stream in it does: [unreachable!] is not reached, and the kind stays. *)
Lemma http1_calls a :
  http1_is_write_vectored (Http1 a) = Some (a_is_write_vectored a) /\
  (forall room, http1_poll_read room (Http1 a) = Some (Http1 (fst (a_poll_read room a)), snd (a_poll_read room a))) /\
  (forall b, http1_poll_write (Http1 a) b = Some (Http1 (fst (a_poll_write a b)), snd (a_poll_write a b))) /\
  (forall bs, http1_poll_write_vectored (Http1 a) bs = Some (Http1 (fst (a_poll_write_vectored a bs)), snd (a_poll_write_vectored a bs))) /\
  http1_poll_flush (Http1 a) = Some (Http1 (fst (a_poll_flush a)), snd (a_poll_flush a)) /\
  http1_poll_shutdown (Http1 a) = Some (Http1 (fst (a_poll_shutdown a)), snd (a_poll_shutdown a)).
Proof. by repeat split; intros; cbv [http1_poll_read http1_poll_write http1_poll_write_vectored http1_poll_flush http1_poll_shutdown on_http1]; destruct (_ : A * _). Qed.

Lemma http2_calls a :
  (forall room, http2_poll_read room (Http2 a) = Some (Http2 (fst (a_poll_read room a)), snd (a_poll_read room a))) /\
  (forall b, http2_poll_write (Http2 a) b = Some (Http2 (fst (a_poll_write a b)), snd (a_poll_write a b))) /\
  http2_poll_flush (Http2 a) = Some (Http2 (fst (a_poll_flush a)), snd (a_poll_flush a)) /\
  http2_poll_shutdown (Http2 a) = Some (Http2 (fst (a_poll_shutdown a)), snd (a_poll_shutdown a)).
Proof.
  repeat split; intros; cbn.
  - unfold http2_poll_read. destruct (room =? 0) eqn:E; [|cbn; by destruct (match _ with Some r => r | None => _ end)]. unfold Http2Stream.poll_read. by rewrite E.
  - unfold http2_poll_write. case_bool_decide; [by subst|]. cbn. by destruct (Http2Stream.poll_write a b).
  - unfold http2_poll_shutdown. cbn. by destruct (Http2Stream.poll_shutdown a).
Qed.

Lemma http3_calls a :
  (forall room, http3_poll_read room (Http3_ a) = Some (Http3_ (fst (a_poll_read room a)), snd (a_poll_read room a))) /\
  (forall b, http3_poll_write (Http3_ a) b = Some (Http3_ (fst (a_poll_write a b)), snd (a_poll_write a b))) /\
  http3_poll_flush (Http3_ a) = Some (Http3_ (fst (a_poll_flush a)), snd (a_poll_flush a)) /\
  http3_poll_shutdown (Http3_ a) = Some (Http3_ (fst (a_poll_shutdown a)), snd (a_poll_shutdown a)).
Proof.
  repeat split; intros; cbn.
  - unfold http3_poll_read. cbn. by destruct (poll_read room a).
  - unfold http3_poll_write. case_bool_decide; [by subst|]. cbn. by destruct (poll_write a b).
  - unfold http3_poll_flush. cbn. by destruct (poll_flush a).
  - unfold http3_poll_shutdown. cbn. by destruct (poll_shutdown a).
Qed.
End Kinds.
End TransportStream.
