(* ===== verification/HttpStreamSpec.v ===== *)
(** * Streams over HTTP/1.1, HTTP/2 and HTTP/3: what they promise

    [AsyncStreamSpec] is what the message stream needs of a transport stream.  The adapters of HttpStream.v keep to it whenever the streams of h2, quinn and h3 do
    what they document, so that the theorems about the message stream hold over each of them ([stream_over_http]).  What they do with the bytes is in HttpTheorems.v. *)

From stdpp Require Import base list option strings.
From S2P Require Import Prelude Error Mask Utf8 Frame FrameSpec Protocol ReceiveSpec ProtocolSpec Heartbeat Cork Output Stream Deflate Config WebSocket StreamSpec StreamProps HttpStream.

(** ** The interface *)

(** What is said of a stream.  [good]: the bytes it keeps are bytes.  [reserve]: bounds the reads that are ready before another task has to run.  [source]: the bytes
    the transport has handed to it so far.  [kept]: those of them that have not been read.  [put]: the bytes it has handed to the transport. *)
Record View (A : Type) := MkView { good : A -> Prop; reserve : A -> nat; source : A -> bytes; kept : A -> bytes; put : A -> bytes -> Prop }.
Arguments MkView {A}. Arguments good {A}. Arguments reserve {A}. Arguments source {A}. Arguments kept {A}. Arguments put {A}.

Section View.
Context {A : Type} (v : View A).

Definition not_read (a a' : A) : Prop := (good v a -> good v a') /\ (reserve v a' <= reserve v a)%nat /\ source v a' = source v a /\ kept v a' = kept v a.
Definition put_by (offered : bytes) (r : poll (res IoError Z)) : bytes := match r with Ready (Ok n) => upto n offered | _ => [] end.

Definition writes_some (a : A) (offered : bytes) (r : A * poll (res IoError Z)) : Prop :=
  not_read a (fst r) /\ (forall w, put v a w -> put v (fst r) (w ++ put_by offered (snd r))) /\ match snd r with Ready (Ok n) => 0 <= n <= len offered | _ => True end.
Definition ends_some (a : A) (r : A * poll (res IoError unit)) : Prop := not_read a (fst r) /\ (forall w, put v a w -> put v (fst r) w).
Definition reads_some (room : Z) (a : A) (r : A * poll (res IoError bytes)) : Prop :=
  good v (fst r) /\ (reserve v (fst r) <= reserve v a)%nat /\ (forall w, put v a w -> put v (fst r) w) /\
  match snd r with
  | Ready (Ok data) => bytes_ok data /\ len data <= room /\ (data <> [] -> (reserve v (fst r) < reserve v a)%nat) /\
      exists news, source v (fst r) = source v a ++ news /\ kept v a ++ news = data ++ kept v (fst r)
  | _ => source v (fst r) = source v a /\ kept v (fst r) = kept v a
  end.

(** The first buffer that is not empty is a prefix of all of them. *)
Lemma first_buffer (bs : list bytes) : exists rest, concat bs = default [] (List.hd_error (List.filter (fun b => negb (bool_decide (b = []))) bs)) ++ rest.
Proof. induction bs as [|b bs [rest IH]]; [by exists []|]. cbn. case_bool_decide as Hb; [subst; by exists rest|]. by exists (concat bs). Qed.

Lemma default_vectored_some (write : A -> bytes -> A * poll (res IoError Z)) a bs :
  (forall a b, writes_some a b (write a b)) -> writes_some a (concat bs) (default_write_vectored write a bs).
Proof.
  intros Hw. unfold default_write_vectored. destruct (first_buffer bs) as [rest ->]. set (b := default [] _). destruct (Hw a b) as (Ho & Hp & Hn).
  split; [done|]. destruct (snd (write a b)) as [|[n|e]]; cbn in *; try (by split_and!). pose proof (len_nonneg rest).
  split; [|rewrite len_app; lia]. by rewrite upto_app_le by lia.
Qed.
End View.

Class AsyncStreamSpec (A : Type) `{AsyncStream A} := {
  view : View A;
  good_kept a : good view a -> bytes_ok (kept view a);
  a_write_some a b : writes_some view a b (a_poll_write a b);
  a_write_vectored_some a bs : writes_some view a (concat bs) (a_poll_write_vectored a bs);
  a_read_some room a : 0 < room -> good view a -> reads_some view room a (a_poll_read room a);
  a_flush_some a : ends_some view a (a_poll_flush a);
  a_shutdown_some a : ends_some view a (a_poll_shutdown a)
}.

(** ** The streams of h2, quinn and h3 *)

(** [sent]: the bytes of the DATA frames accepted so far. *)
Class H2SendSpec (S : Type) `{H2Send S} := {
  sent : S -> bytes;
  reserve_capacity_sent s n : sent (reserve_capacity s n) = sent s;
  poll_capacity_spec s : sent (fst (poll_capacity s)) = sent s /\ match snd (poll_capacity s) with Ready (Some (Ok n)) => 0 <= n | _ => True end;
  send_data_sent s b eos : sent (fst (send_data s b eos)) = sent s ++ match snd (send_data s b eos) with Ok _ => b | Err _ => [] end
}.

(** [arrived]: the bytes of the DATA frames handed out so far. [released]: the flow control capacity given back. *)
Class H2RecvSpec (R : Type) `{H2Recv R} := {
  arrived : R -> bytes;
  ended : R -> bool;
  released : R -> Z;
  poll_data_spec r : let '(r', x) := poll_data r in (backlog r' <= backlog r)%nat /\ released r' = released r /\
    match x with
    | Ready (Some (Ok data)) => arrived r' = arrived r ++ data /\ bytes_ok data /\ (backlog r' + length data + 1 <= backlog r)%nat
    | Ready None => arrived r' = arrived r /\ ended r' = true
    | _ => arrived r' = arrived r
    end;
  release_spec r n : arrived (release_capacity r n) = arrived r /\ released (release_capacity r n) = released r + n /\
    (backlog (release_capacity r n) <= backlog r)%nat /\ ended (release_capacity r n) = ended r
}.

(** [quic_sent], [quic_received]: the bytes accepted from and handed to the program. *)
Class QuicSpec (S R : Type) `{QuicSend S} `{QuicRecv R} := {
  quic_sent : S -> bytes;
  quic_received : R -> bytes;
  quic_write_spec s b : match quic_write s b with
    | (s', Ready (Ok n)) => 0 <= n <= len b /\ quic_sent s' = quic_sent s ++ upto n b
    | (s', _) => quic_sent s' = quic_sent s
    end;
  quic_finish_sent s : quic_sent (fst (quic_finish s)) = quic_sent s;
  quic_read_spec r room : 0 < room -> let '(r', x) := poll_read_buf r room in (quic_backlog r' <= quic_backlog r)%nat /\
    match x with
    | Ready (Ok data) => bytes_ok data /\ len data <= room /\ (data <> [] -> (quic_backlog r' < quic_backlog r)%nat) /\ quic_received r' = quic_received r ++ data
    | _ => quic_received r' = quic_received r
    end
}.

(** [handed]: the bytes given to [send_data] so far, in order.  [sound]: no call has failed.  [finishes]: a future of [finish], not of [send_data]. *)
Class H3SendSpec (S F : Type) `{H3SendStream S F} := {
  handed : S -> bytes;
  sound : S -> bool;
  handed_by : F -> bytes;
  sound_by : F -> bool;
  finishes : F -> bool;
  send_data_spec s b : handed_by (h3_send_data s b) = handed s ++ b /\ sound_by (h3_send_data s b) = sound s /\ finishes (h3_send_data s b) = false;
  finish_spec s : handed_by (h3_finish s) = handed s /\ sound_by (h3_finish s) = sound s /\ finishes (h3_finish s) = true;
  h3_poll_spec f : match h3_poll f with
    | inl f' => handed_by f' = handed_by f /\ sound_by f' = sound_by f /\ finishes f' = finishes f
    | inr (s, Ok _) => handed s = handed_by f /\ sound s = sound_by f
    | inr (s, Err _) => handed s = handed_by f /\ sound s = false
    end
}.

Class H3RecvSpec (R : Type) `{H3RecvStream R} := {
  received : R -> bytes;
  h3_recv_spec r : let '(r', x) := poll_recv_data r in (h3_backlog r' <= h3_backlog r)%nat /\
    match x with
    | Ready (Ok (Some data)) => bytes_ok data /\ (h3_backlog r' + length data <= h3_backlog r)%nat /\ received r' = received r ++ data
    | _ => received r' = received r
    end
}.

(** ** The adapters keep to the interface *)

(** What fits is copied, and the rest is kept. *)
Lemma copied room (data : bytes) : 0 < room -> data <> [] -> let n := Z.min room (len data) in
  (if n <? len data then from n data else []) = from n data /\ (if n =? len data then [] else from n data) = from n data /\
  len (upto n data) <= room /\ upto n data <> [] /\ (length (from n data) < length data)%nat.
Proof.
  intros Hroom Hd n. assert (Hl : 0 < len data) by (destruct data; [done|rewrite len_cons; pose proof (len_nonneg data); lia]).
  assert (Hn : 0 < n <= len data) by (subst n; lia). pose proof (len_upto n data ltac:(lia)) as Hu. pose proof (len_from n data ltac:(lia)) as Hf.
  split_and!.
  - destruct (Z.ltb_spec n (len data)); [done|]. by rewrite from_ge.
  - destruct (Z.eqb_spec n (len data)); [|done]. by rewrite from_ge by lia.
  - subst n. lia.
  - intros E1. rewrite E1, len_nil in Hu. lia.
  - unfold len in *. lia.
Qed.

Module Http2Spec.
Import Http2Stream.
Section H2.
Context {S R : Type} `{H2SendSpec S} `{H2RecvSpec R}.
Abbreviation t := (t S R).
Implicit Types s : t.

Definition ok s : Prop := bytes_ok (recv_buf s).
(** All capacity is given back. *)
Definition all_released s : Prop := released (recv s) = len (arrived (recv s)).
Definition left_to_read s : nat := backlog (recv s) + length (recv_buf s).

Lemma read_loop_ends fuel room s : (backlog (recv s) < fuel)%nat -> is_Some (read_loop fuel room s).
Proof.
  revert s. induction fuel as [|fuel IH]; intros s Hf; [lia|]. cbn. pose proof (poll_data_spec (recv s)) as Hp.
  destruct (poll_data (recv s)) as [r' [|[[data|e]|]]]; try (by eexists). destruct Hp as (_ & _ & _ & _ & Hb).
  case_bool_decide; [|by eexists]. apply IH. cbn. lia.
Qed.

(** What one read does: it takes bytes that had been kept, or a DATA frame, and keeps what does not fit. *)
Definition read_effect room s s' (r : poll (res IoError bytes)) : Prop :=
  send s' = send s /\ match r with
  | Ready (Ok data) => exists news, arrived (recv s') = arrived (recv s) ++ news /\ bytes_ok news /\ recv_buf s ++ news = data ++ recv_buf s' /\ len data <= room /\
      released (recv s') = released (recv s) + len news /\ (data = [] -> recv_eof s' = true /\ recv_buf s' = []) /\
      (data <> [] -> (left_to_read s' < left_to_read s)%nat)
  | _ => arrived (recv s') = arrived (recv s) /\ recv_buf s' = recv_buf s /\ released (recv s') = released (recv s)
  end.

(** The end is known only when h2 has reported it. *)
Definition eof_ok s : Prop := recv_eof s = true -> ended (recv s) = true /\ recv_buf s = [].

Lemma read_loop_effect fuel : forall room s s' r, 0 < room -> recv_buf s = [] -> recv_eof s = false -> read_loop fuel room s = Some (s', r) ->
  read_effect room s s' r /\ ok s' /\ eof_ok s' /\ (left_to_read s' <= left_to_read s)%nat.
Proof.
  unfold read_effect, ok, eof_ok, left_to_read. induction fuel as [|fuel IH]; intros room s s' r Hroom Hb He Hs; [done|]. cbn in Hs.
  pose proof (poll_data_spec (recv s)) as Hp. destruct (poll_data (recv s)) as [r' [|[[data|e]|]]]; cycle 1.
  - destruct Hp as (Hb1 & Hrel & Harr & Hok & Hb2). case_bool_decide as Hd.
    + subst data. specialize (IH room (set_recv r' s) s' r Hroom Hb He Hs). cbn in *. rewrite Harr, Hrel, app_nil_r in IH.
      destruct IH as ((Hsend & IH) & Ho & Hf & Hl). split_and!; try done; [|lia]. destruct r as [|[d|]]; try done.
      destruct IH as (news & E1 & E0 & E2 & E3 & E4 & E5 & E6). exists news. split_and!; try done. intros Hne. specialize (E6 Hne). lia.
    + destruct (release_spec r' (len data)) as (Ra & Rr & Rb & Re). destruct (copied room data Hroom Hd) as (Ek & _ & Hlen & Hne & Hlt).
      assert (s' = Mk (send s) (release_capacity r' (len data)) (from (Z.min room (len data)) data) (recv_eof s) (capacity_needed s) /\
        r = Ready (Ok (upto (Z.min room (len data)) data))) as [-> ->].
      { injection Hs as <- <-. split; [|done]. rewrite <- Ek, <- Hb. by destruct (_ <? _). }
      cbn. rewrite Ra, Rr, Hrel, Harr, Hb, He. split_and!; try done; [|by apply bytes_ok_from|lia].
      exists data. rewrite upto_from. split_and!; try done. intros _. lia.
  - destruct Hp as (? & ? & ?). injection Hs as <- <-. cbn. rewrite Hb, He. split_and!; try done; [constructor|lia].
  - destruct Hp as (? & ? & Harr & Hend). injection Hs as <- <-. cbn. rewrite Hb. split_and!; try done; [|constructor|lia].
    exists []. split_and!; rewrite ?app_nil_r, ?len_nil; try done; try lia; by constructor.
  - destruct Hp as (? & ? & ?). injection Hs as <- <-. cbn. rewrite Hb, He. split_and!; try done; [constructor|lia].
Qed.

Lemma poll_read_effect room s : 0 < room -> ok s -> eof_ok s -> exists s' r, poll_read (turns s) room s = Some (s', r) /\
  read_effect room s s' r /\ ok s' /\ eof_ok s' /\ (left_to_read s' <= left_to_read s)%nat.
Proof.
  intros Hroom Hok He. unfold poll_read. zfalse (room =? 0). case_bool_decide as Hb; cbn [negb].
  - destruct (recv_eof s) eqn:Ee.
    + exists s, (Ready (Ok [])). split; [done|]. unfold read_effect. split_and!; try done. exists [].
      split_and!; rewrite ?Hb, ?app_nil_r, ?len_nil; try done; try lia; by constructor.
    + destruct (read_loop_ends (turns s) room s) as [[s' r] E1]; [unfold turns; lia|]. exists s', r. split; [done|]. by eapply read_loop_effect.
  - destruct (copied room (recv_buf s) Hroom Hb) as (_ & Ek & Hlen & Hne & Hlt).
    eexists _, _. split; [done|]. unfold read_effect, ok, eof_ok, left_to_read. cbn. rewrite Ek. split_and!; try done; [|by apply bytes_ok_from| |lia].
    + exists []. split_and!; rewrite ?app_nil_r, ?upto_from, ?len_nil; try done; try lia; by constructor.
    + intros Ht. destruct (He Ht) as [_ ?]. done.
Qed.

Definition h2_view : View t := MkView (fun s => ok s /\ eof_ok s /\ all_released s) left_to_read (fun s => arrived (recv s)) recv_buf (fun s w => sent (send s) = w).

(** The writing operations leave the reading side alone. *)
Definition same_reading s s' : Prop := recv s' = recv s /\ recv_buf s' = recv_buf s /\ recv_eof s' = recv_eof s.

Lemma same_reading_ok s s' : same_reading s s' -> not_read h2_view s s'.
Proof. intros (E1 & E2 & E3). unfold not_read, h2_view, ok, eof_ok, all_released, left_to_read. cbn. rewrite E1, E2, E3. split_and!; [done|lia|done|done]. Qed.

Lemma poll_write_some s b : writes_some h2_view s b (poll_write s b).
Proof.
  unfold poll_write. case_bool_decide as Hb.
  { subst. split; [by apply same_reading_ok|]. cbn. split; [|by vm_compute]. intros w. by rewrite app_nil_r. }
  match goal with |- context [if ?b then ?x else s] => set (s1 := if b then x else s) end.
  assert (same_reading s s1 /\ sent (send s1) = sent (send s)) as [E1 E2].
  { subst s1. destruct (_ || _); cbn; by rewrite ?reserve_capacity_sent. }
  destruct (poll_capacity_spec (send s1)) as [E3 Hn].
  destruct (poll_capacity (send s1)) as [k [|[[n|e]|]]]; cbn in E3, Hn |- *;
    try (split; [by apply same_reading_ok|]; cbn; split; [intros w; rewrite app_nil_r; congruence|done]).
  pose proof (len_nonneg b). pose proof (send_data_sent k (upto (Z.min n (len b)) b) false) as E4.
  destruct (send_data k _ false) as [k' [u|e]]; cbn in E4 |- *; (split; [by apply same_reading_ok|]); cbn; (split; [intros w Hw; congruence|lia || done]).
Qed.

#[global] Instance http2_spec : AsyncStreamSpec t.
Proof.
  refine {| view := h2_view |}; cbn.
  - by intros s (? & _).
  - apply poll_write_some.
  - intros. apply default_vectored_some, poll_write_some.
  - intros room s Hroom (Ho & He & Hrel). destruct (poll_read_effect room s Hroom Ho He) as (s' & r & -> & [Hsend Hr] & Ho' & He' & Hl).
    split; [split_and!; [done|done|]; unfold all_released in *; cbn; destruct r as [|[data|]];
      [by destruct Hr as (-> & _ & ->)|destruct Hr as (news & -> & _ & _ & _ & -> & _); rewrite len_app; lia|by destruct Hr as (-> & _ & ->)]|]. split; [done|]. split; [cbn; by rewrite Hsend|]. cbn. destruct r as [|[data|]]; try (by destruct Hr as (? & ? & ?)).
    destruct Hr as (news & E1 & E0 & E2 & E3 & E4 & E5 & E6). split_and!; try done; [|by exists news].
    assert (Hall : bytes_ok (data ++ recv_buf s')) by (rewrite <- E2; by apply bytes_ok_app). by apply bytes_ok_app in Hall as [? _].
  - intros s. split; [by apply same_reading_ok|done].
  - intros s. unfold poll_shutdown. pose proof (send_data_sent (send s) [] true) as E1. destruct (send_data (send s) [] true) as [k r]. split; [by apply same_reading_ok|].
    cbn in *. intros w <-. rewrite E1. by destruct r; rewrite app_nil_r.
Defined.
End H2.
End Http2Spec.

Module Http3Spec.
Section Raw.
Context {S R : Type} `{QuicSpec S R}.

Definition quic_view : View (Http3Stream.t S R) :=
  MkView (fun _ => True) (fun s => quic_backlog (Http3Stream.recv s)) (fun s => quic_received (Http3Stream.recv s)) (fun _ => []) (fun s w => quic_sent (Http3Stream.send s) = w).

Lemma quic_write_some s b : writes_some quic_view s b (Http3Stream.poll_write s b).
Proof.
  unfold Http3Stream.poll_write. case_bool_decide; [subst; split; [by unfold not_read; split_and!|]; split; [|by vm_compute]; intros w; cbn; by rewrite app_nil_r|].
  pose proof (quic_write_spec (Http3Stream.send s) b) as Hn. destruct (quic_write _ b) as [k [|[n|e]]]; (split; [by unfold not_read; split_and!|]); cbn; rewrite ?app_nil_r;
    (split; [intros w <-; rewrite ?app_nil_r; apply Hn || exact Hn|]); try done; apply Hn.
Qed.

#[global] Instance quic_spec : AsyncStreamSpec (Http3Stream.t S R).
Proof.
  refine {| view := quic_view |}; cbn.
  - constructor.
  - apply quic_write_some.
  - intros. apply default_vectored_some, quic_write_some.
  - intros room s Hroom _. unfold Http3Stream.poll_read, reads_some. destruct (Http3Stream.recv_finished s).
    + cbn. split_and!; try done; [constructor|change (len []) with 0; lia|]. exists []. by rewrite app_nil_r.
    + pose proof (quic_read_spec (Http3Stream.recv s) room Hroom) as Hr.
      destruct (poll_read_buf _ room) as [k [|[d|e]]]; cbn; destruct Hr as [Hb Hr]; split_and!; try done; try apply Hr. exists d. split; [apply Hr|by rewrite app_nil_r].
  - intros s. by split.
  - intros s. unfold Http3Stream.poll_shutdown. pose proof (quic_finish_sent (Http3Stream.send s)) as E. destruct (quic_finish _). split; [done|cbn in *; by rewrite E].
Defined.
End Raw.

Section Writer.
Context {S F : Type} `{H3SendSpec S F}.
Abbreviation writer := (H3Writer.t S F).

(** The bytes handed to h3, while there is a stream. *)
Definition writer_put (w : writer) (acc : bytes) : Prop :=
  match w with
  | H3Writer.Ready_ s => handed s = acc
  | H3Writer.Writing f | H3Writer.Finishing f => handed_by f = acc
  | H3Writer.Finished => True
  end.

Lemma poll_write_put w b acc : writer_put w acc ->
  writer_put (fst (H3Writer.poll_write w b)) (acc ++ put_by b (snd (H3Writer.poll_write w b))) /\
  match snd (H3Writer.poll_write w b) with Ready (Ok n) => n = len b | _ => True end.
Proof.
  intros Hw. unfold H3Writer.poll_write, H3Writer.accept. case_bool_decide as Hb; [subst; cbn; by rewrite app_nil_r|].
  assert (Hs : forall s, handed s = acc -> handed_by (h3_send_data s b) = acc ++ upto (len b) b).
  { intros s <-. destruct (send_data_spec s b) as [-> _]. by rewrite upto_ge. }
  destruct w as [s|f|f|]; cbn in *; [by auto|..|done];
    (pose proof (h3_poll_spec f) as Hp; destruct (h3_poll f) as [f'|[s [u|e]]]; destruct Hp as [Hp _]; cbn; rewrite ?app_nil_r; split; try done; try congruence).
  apply Hs. congruence.
Qed.

Lemma poll_flush_put w acc : writer_put w acc -> writer_put (fst (H3Writer.poll_flush w)) acc.
Proof.
  destruct w as [s|f|f|]; cbn; try done; intros Hw; pose proof (h3_poll_spec f) as Hp;
    destruct (h3_poll f) as [f'|[s [u|e]]]; destruct Hp as [Hp _]; cbn; done || congruence.
Qed.

Lemma shutdown_finishing_put f acc : handed_by f = acc -> writer_put (fst (H3Writer.shutdown_finishing f)) acc.
Proof. intros Hw. exact (poll_flush_put (H3Writer.Finishing f) acc Hw). Qed.

Lemma poll_shutdown_put w acc : writer_put w acc -> writer_put (fst (H3Writer.poll_shutdown w)) acc.
Proof.
  assert (Hs : forall s, handed s = acc -> writer_put (fst (H3Writer.shutdown_finishing (h3_finish s))) acc).
  { intros s <-. apply shutdown_finishing_put. by destruct (finish_spec s). }
  destruct w as [s|f|f|]; cbn; [apply Hs|..|by intros]; intros Hw; [|by apply shutdown_finishing_put].
  pose proof (h3_poll_spec f) as Hp. destruct (h3_poll f) as [f'|[s [u|e]]]; destruct Hp as [Hp _]; [cbn; congruence|apply Hs; congruence|cbn; congruence].
Qed.
End Writer.

Section Request.
Context {S F R : Type} `{H3SendSpec S F} `{H3RecvSpec R}.
Abbreviation t := (Http3RequestStream.t S F R).
Implicit Types s : t.

Definition h3_view : View t := MkView
  (fun s => bytes_ok (Http3RequestStream.read_buf s))
  (fun s => h3_backlog (Http3RequestStream.recv s) + length (Http3RequestStream.read_buf s))%nat
  (fun s => received (Http3RequestStream.recv s)) Http3RequestStream.read_buf
  (fun s => writer_put (Http3RequestStream.writer s)).

Lemma on_writer_same {A} (f : H3Writer.t S F -> H3Writer.t S F * A) s : not_read h3_view s (fst (Http3RequestStream.on_writer f s)) /\
  Http3RequestStream.writer (fst (Http3RequestStream.on_writer f s)) = fst (f (Http3RequestStream.writer s)) /\
  snd (Http3RequestStream.on_writer f s) = snd (f (Http3RequestStream.writer s)).
Proof. unfold Http3RequestStream.on_writer. by destruct (f _). Qed.

Lemma h3_write_some s b : writes_some h3_view s b (Http3RequestStream.poll_write s b).
Proof.
  unfold Http3RequestStream.poll_write. destruct (on_writer_same (fun w => H3Writer.poll_write w b) s) as (Ho & Hl & Hr). split; [done|]. cbn. rewrite Hl, Hr.
  split; [intros w Hw; by apply poll_write_put|]. pose proof (len_nonneg b). set (w := Http3RequestStream.writer s).
  assert (Hb : exists acc, writer_put w acc) by (destruct w as [x|x|x|]; [by exists (handed x)|by exists (handed_by x)|by exists (handed_by x)|by exists []]).
  destruct Hb as [acc Hb]. destruct (poll_write_put w b acc Hb) as [_ Hn]. destruct (snd (H3Writer.poll_write w b)) as [|[n|]]; try done. lia.
Qed.

(** What is handed over and kept when a part of [data] is read. *)
Lemma read_part room (data : bytes) : 0 < room -> data <> [] -> bytes_ok data -> let n := Z.min room (len data) in
  bytes_ok (from n data) /\ bytes_ok (upto n data) /\ len (upto n data) <= room /\ (length (from n data) < length data)%nat /\ data = upto n data ++ from n data.
Proof.
  intros Hroom Hne Hd n. destruct (copied room data Hroom Hne) as (_ & _ & Hu & _ & Hlt). rewrite upto_from.
  split_and!; [by apply bytes_ok_from|by apply bytes_ok_upto|done|done|done].
Qed.

Lemma h3_read_some room s : 0 < room -> good h3_view s -> reads_some h3_view room s (Http3RequestStream.poll_read room s).
Proof.
  intros Hroom Hok. cbn in Hok. unfold Http3RequestStream.poll_read, reads_some. zfalse (room =? 0). case_bool_decide as Hb; cbn [negb].
  - assert (bytes_ok [] /\ len ([] : bytes) <= room) as [Hn0 Hl0] by (split; [constructor|change (len ([] : bytes)) with 0; lia]).
    pose proof (h3_recv_spec (Http3RequestStream.recv s)) as Hr.
    destruct (poll_recv_data _) as [k [|[[data|]|e]]]; cbn; rewrite ?Hb; destruct Hr as [Hl Hr]; [by split_and!; try done; lia| | |by split_and!; try done; lia].
    + destruct Hr as (Hd & Hlen & Hrec). destruct (decide (data = [])) as [->|Hne].
      * change (len ([] : bytes)) with 0. zfalse (Z.min room 0 <? 0). assert (Eu : upto (Z.min room 0) ([] : bytes) = []) by (unfold upto; by rewrite take_nil). cbn. rewrite Eu.
        split_and!; try done; [cbn; lia|]. by exists [].
      * destruct (copied room data Hroom Hne) as (-> & _). destruct (read_part room data Hroom Hne Hd) as (? & ? & ? & Hlt & Hs).
        split_and!; try done; [lia|lia|]. by exists data.
    + split_and!; try done; [lia|]. exists []. by rewrite app_nil_r.
  - destruct (copied room _ Hroom Hb) as (_ & Ek & _). destruct (read_part room _ Hroom Hb Hok) as (? & ? & ? & Hlt & Hs). cbn. rewrite Ek.
    split_and!; try done; [lia|lia|]. exists []. by rewrite !app_nil_r.
Qed.

#[global] Instance h3_spec : AsyncStreamSpec t.
Proof.
  refine {| view := h3_view |}; cbn.
  - done.
  - apply h3_write_some.
  - intros. apply default_vectored_some, h3_write_some.
  - intros. by apply h3_read_some.
  - intros s. destruct (on_writer_same H3Writer.poll_flush s) as (Ho & Hl & _). split; [done|]. cbn. unfold Http3RequestStream.poll_flush. rewrite Hl. intros w. apply poll_flush_put.
  - intros s. destruct (on_writer_same H3Writer.poll_shutdown s) as (Ho & Hl & _). split; [done|]. cbn. unfold Http3RequestStream.poll_shutdown. rewrite Hl. intros w. apply poll_shutdown_put.
Defined.
End Request.
End Http3Spec.

(** [Stream<Http3>] *)
Section Http3Inner.
Context {Q QR S F S' F' R R' : Type} `{QuicSpec Q QR} `{H3SendSpec S F} `{H3SendSpec S' F'} `{H3RecvSpec R} `{H3RecvSpec R'}.
Abbreviation t := (TransportStream.Http3StreamInner Q QR S F S' F' R R').

Definition by_kind {X} (raw : Http3Stream.t Q QR -> X) (server : Http3RequestStream.t S F R -> X) (client : Http3RequestStream.t S' F' R' -> X) (s : t) : X :=
  match s with TransportStream.Raw i => raw i | TransportStream.Server i => server i | TransportStream.Client i => client i end.
Definition http3_view : View t := MkView (by_kind (good view) (good view) (good view)) (by_kind (reserve view) (reserve view) (reserve view))
  (by_kind (source view) (source view) (source view)) (by_kind (kept view) (kept view) (kept view)) (by_kind (put view) (put view) (put view)).

Lemma http3_write_some (s : t) b : writes_some http3_view s b (TransportStream.poll_write s b).
Proof.
  unfold TransportStream.poll_write. case_bool_decide.
  - subst. split; [by unfold not_read; split_and!|]. cbn. split; [|by vm_compute]. intros w. by rewrite app_nil_r.
  - destruct s as [i|i|i]; pose proof (a_write_some i b) as Hw; cbn in Hw; [by destruct (Http3Stream.poll_write i b)|by destruct (Http3RequestStream.poll_write i b)..].
Qed.

#[global] Instance http3_spec : AsyncStreamSpec t.
Proof.
  refine {| view := http3_view |}; cbn.
  - intros [i|i|i]; exact (good_kept i).
  - apply http3_write_some.
  - intros. apply default_vectored_some, http3_write_some.
  - intros room s Hroom Hok. destruct s as [i|i|i]; cbn in *; pose proof (a_read_some room i Hroom Hok) as Hr; cbn in Hr;
      [by destruct (Http3Stream.poll_read room i)|by destruct (Http3RequestStream.poll_read room i)..].
  - intros [i|i|i]; [by split; [split_and!|]|..]; pose proof (a_flush_some i) as Hf; cbn in *; by destruct (Http3RequestStream.poll_flush i).
  - intros [i|i|i]; pose proof (a_shutdown_some i) as Hf; cbn in *; [by destruct (Http3Stream.poll_shutdown i)|by destruct (Http3RequestStream.poll_shutdown i)..].
Defined.
End Http3Inner.

(** ** The message stream over such a stream *)

(** A stream, what has been read from it and written to it, and the clock and timers of an environment. *)
Record Over (A B : Type) `{AsyncStreamSpec A} := MkOver {
  stream_of : A; env : B; taken_from : bytes; put_to : bytes;
  over_ok : good view stream_of /\ source view stream_of = taken_from ++ kept view stream_of /\ put view stream_of put_to
}.
Arguments MkOver {A B _ _}. Arguments stream_of {A B _ _}. Arguments env {A B _ _}. Arguments taken_from {A B _ _}. Arguments put_to {A B _ _}. Arguments over_ok {A B _ _}.

(** The room of the buffer a read is made with, after the bytes read so far. *)
Class Rooms := { read_room : bytes -> Z; read_room_pos b : 0 < read_room b }.

Section Over.
Context {A B : Type} `{AsyncStreamSpec A} `{RuntimeSpec B} `{Rooms}.
Abbreviation T := (Over A B).

Definition over_inv (a : A) (taken_from put_to : bytes) : Prop := good view a /\ source view a = taken_from ++ kept view a /\ put view a put_to.

Lemma over_not_read a a' b w w' : not_read view a a' -> (put view a w -> put view a' w') -> over_inv a b w -> over_inv a' b w'.
Proof. intros (Hg & _ & Hs & Hk) Hp (? & ? & ?). unfold over_inv. rewrite Hs, Hk. auto. Qed.

Lemma over_written a b w offered r : writes_some view a offered r -> over_inv a b w -> over_inv (fst r) b (w ++ put_by offered (snd r)).
Proof. intros (Hn & Hp & _). by eapply over_not_read, Hp. Qed.

Lemma over_ended a b w r : ends_some view a r -> over_inv a b w -> over_inv (fst r) b w.
Proof. intros (Hn & Hp). by eapply over_not_read, Hp. Qed.

Definition read_bytes (r : poll (res IoError bytes)) : bytes := match r with Ready (Ok data) => data | _ => [] end.

Lemma over_read a b w : over_inv a b w -> over_inv (fst (a_poll_read (read_room b) a)) (b ++ read_bytes (snd (a_poll_read (read_room b) a))) w.
Proof.
  intros (Hg & Hs & Hp). destruct (a_read_some (read_room b) a (read_room_pos b) Hg) as (Hg' & _ & Hp' & Hr). split_and!; [done| |by apply Hp'].
  destruct (snd (a_poll_read _ a)) as [|[data|e]]; cbn; [rewrite app_nil_r|..|rewrite app_nil_r]; [by destruct Hr as [-> ->]| |by destruct Hr as [-> ->]].
  destruct Hr as (_ & _ & _ & news & -> & E). by rewrite Hs, <- !app_assoc, E.
Qed.

Definition over_env {X} (f : B -> B * X) (t : T) : T * X :=
  let r := f (env t) in (MkOver (stream_of t) (fst r) (taken_from t) (put_to t) (over_ok t), snd r).

#[export] Instance over_transport : Transport T := {
  is_write_vectored t := a_is_write_vectored (stream_of t);
  poll_write t b := let r := a_poll_write (stream_of t) b in
    (MkOver (fst r) (env t) (taken_from t) (put_to t ++ put_by b (snd r)) (over_written _ _ _ _ _ (a_write_some _ b) (over_ok t)), snd r);
  poll_write_vectored t bs := let r := a_poll_write_vectored (stream_of t) bs in
    (MkOver (fst r) (env t) (taken_from t) (put_to t ++ put_by (concat bs) (snd r)) (over_written _ _ _ _ _ (a_write_vectored_some _ bs) (over_ok t)), snd r);
  Output.poll_flush t := let r := a_poll_flush (stream_of t) in
    (MkOver (fst r) (env t) (taken_from t) (put_to t) (over_ended _ _ _ _ (a_flush_some _) (over_ok t)), snd r)
}.

#[export] Instance over_runtime : Runtime T := {
  WebSocket.poll_read t := let r := a_poll_read (read_room (taken_from t)) (stream_of t) in
    (MkOver (fst r) (env t) (taken_from t ++ read_bytes (snd r)) (put_to t) (over_read _ _ _ (over_ok t)), snd r);
  WebSocket.poll_shutdown t := let r := a_poll_shutdown (stream_of t) in
    (MkOver (fst r) (env t) (taken_from t) (put_to t) (over_ended _ _ _ _ (a_shutdown_some _) (over_ok t)), snd r);
  elapsed := over_env elapsed;
  sleep_poll t d := over_env (fun e => sleep_poll e d) t;
  draw_mask := over_env draw_mask;
  draw_nonce := over_env draw_nonce
}.

#[export] Instance over_transport_spec : TransportSpec T.
Proof.
  refine {| accepted := put_to |}; cbn.
  - intros t b. unfold accepts. cbn. destruct (a_write_some (stream_of t) b) as (_ & _ & Hn). destruct (snd (a_poll_write _ b)) as [|[n|e]]; cbn; by rewrite ?app_nil_r.
  - intros t bs. unfold accepts. cbn. destruct (a_write_vectored_some (stream_of t) bs) as (_ & _ & Hn).
    destruct (snd (a_poll_write_vectored _ bs)) as [|[n|e]]; cbn; by rewrite ?app_nil_r.
  - done.
Defined.

#[export] Instance over_spec : RuntimeSpec T.
Proof.
  refine {| taken := taken_from; time := fun t => time (env t); budget := fun t => (budget (env t) + reserve view (stream_of t))%nat |}; cbn.
  - intros t b. destruct (a_write_some (stream_of t) b) as ((_ & Hl & _) & _). split_and!; [done|lia|cbn; lia].
  - intros t bs. destruct (a_write_vectored_some (stream_of t) bs) as ((_ & Hl & _) & _). split_and!; [done|lia|cbn; lia].
  - intros t. destruct (a_flush_some (stream_of t)) as ((_ & Hl & _) & _). split_and!; [done|lia|cbn; lia].
  - intros t. destruct (a_read_some _ _ (read_room_pos (taken_from t)) (proj1 (over_ok t))) as (_ & Hl & _ & Hr). split; [lia|].
    destruct (snd (a_poll_read _ (stream_of t))) as [|[data|e]]; cbn; rewrite ?app_nil_r; [by split_and!; try done; lia| |by split_and!; try done; lia].
    destruct Hr as (Hok & _ & Hlt & _). split_and!; [done|done|]. intros Hne. specialize (Hlt Hne). lia.
  - intros t. destruct (a_shutdown_some (stream_of t)) as ((_ & Hl & _) & _). split_and!; [done|lia|cbn; lia].
  - intros t. destruct (elapsed_quiet (env t)) as ((_ & Ht & Hb) & Hx). unfold over_env. cbn. split_and!; [done|lia|lia|lia|lia].
  - intros t d. destruct (sleep_poll_quiet (env t) d) as ((_ & Ht & Hb) & Hx). unfold over_env. cbn. split; [split_and!; [done|lia|lia]|].
    intros Hs. specialize (Hx Hs). lia.
  - intros t. destruct (draw_mask_quiet (env t)) as (_ & Ht & Hb). unfold over_env. cbn. split_and!; [done|lia|lia].
  - intros t. destruct (draw_nonce_quiet (env t)) as (_ & Ht & Hb). unfold over_env. cbn. split_and!; [done|lia|lia].
Defined.
End Over.
