(* ===== verification/HttpTheorems.v ===== *)
(** * Streams over HTTP/2 and HTTP/3: theorems

    The message stream over the adapters of HttpStream.v, and what the writer of an h3 request stream does with the bytes it accepts. *)

From stdpp Require Import base list option strings.
From S2P Require Import Prelude Error Mask Utf8 Frame FrameSpec Protocol ReceiveSpec ProtocolSpec ProtocolProps NextSpec.
From S2P Require Import Heartbeat Cork Output Stream Deflate Config WebSocket Scripted StreamSpec StreamProps HttpStream HttpStreamSpec.
Import WebSocketStream.

Section Streams.
Context {SU : Simdutf8} {SUok : Simdutf8Spec} (arch : Arch) (slice_addr : bytes -> Z) (Harch : arch_ok arch).
Context (role : Role) (c : Config.t) (leftover : option bytes) (Hleft : bytes_ok (default [] leftover)).
Context `{Rooms}.
Abbreviation reference := (fun raw => fst (ref_run (ref_frame (Config.max_message_size c) (Config.validate_text_utf8 c))
  (initial_policy role (Config.max_frame_size c)) None (default [] leftover ++ raw))).

(** The message stream over any stream that keeps to the interface. *)
Lemma over_delivers {A B : Type} `{AsyncStreamSpec A} `{RuntimeSpec B} D s (i : Over A B) fuel task :
  reachable (T := Over A B) arch slice_addr role c leftover D s i -> enough fuel i ->
  exists s' i' r, poll_next (T := Over A B) arch slice_addr fuel task (s, i) = Done (s', i') (Ok r) /\
    over_inv (stream_of i') (taken_from i') (put_to i') /\
    (exists rest, reference (source view (stream_of i')) = D ++ delivered r ++ rest) /\
    (r = Pending -> closing_deadline s' = None -> reference (taken_from i') = D).
Proof.
  intros Hr Hf. destruct (poll_next_delivers arch slice_addr Harch role c leftover D s i fuel task Hleft Hr Hf) as (s' & i' & r & E & Hpre & Hall).
  exists s', i', r. split; [done|]. destruct (over_ok i') as (Hg & Hs & Hp). split; [done|]. split; [|done].
  rewrite Hs. apply Hpre. by apply good_kept.
Qed.
End Streams.

(** ** The message stream over HTTP/2 and HTTP/3 *)

Section Http.
Context {SU : Simdutf8} {SUok : Simdutf8Spec} (arch : Arch) (slice_addr : bytes -> Z) (Harch : arch_ok arch).
Context (role : Role) (c : Config.t) (leftover : option bytes) (Hleft : bytes_ok (default [] leftover)).
Context {B : Type} `{RuntimeSpec B} `{Rooms}.
Abbreviation reference := (fun raw => fst (ref_run (ref_frame (Config.max_message_size c) (Config.validate_text_utf8 c))
  (initial_policy role (Config.max_frame_size c)) None (default [] leftover ++ raw))).

(** [C13] A message stream over an HTTP/2 stream, however it is used: [poll_next] returns without a panic, and the messages it has returned are the first messages
    of the reference receiver on the bytes of the DATA frames h2 has handed out, whatever their lengths and however little a read has room for.  Of those bytes
    only the ones kept for the next read have not been read, all of their flow control capacity has been given back, the end of the stream is taken
    only from h2, and what the message stream counts as written is what h2 has accepted. *)
Theorem stream_over_http2 {S R : Type} `{H2SendSpec S} `{H2RecvSpec R} D s (i : Over (Http2Stream.t S R) B) fuel task :
  reachable (T := Over (Http2Stream.t S R) B) arch slice_addr role c leftover D s i -> enough fuel i ->
  exists s' i' r, poll_next (T := Over (Http2Stream.t S R) B) arch slice_addr fuel task (s, i) = Done (s', i') (Ok r) /\
    let h := stream_of i' in
    arrived (Http2Stream.recv h) = taken i' ++ Http2Stream.recv_buf h /\
    released (Http2Stream.recv h) = len (arrived (Http2Stream.recv h)) /\
    (Http2Stream.recv_eof h = true -> ended (Http2Stream.recv h) = true /\ Http2Stream.recv_buf h = []) /\
    sent (Http2Stream.send h) = accepted i' /\
    (exists rest, reference (arrived (Http2Stream.recv h)) = D ++ delivered r ++ rest) /\
    (r = Pending -> closing_deadline s' = None -> reference (taken i') = D).
Proof.
  intros Hr Hf. destruct (over_delivers arch slice_addr Harch role c leftover Hleft D s i fuel task Hr Hf) as (s' & i' & r & E & ((_ & He & Hrel) & Hs & Hp) & Hpre & Hall).
  exists s', i', r. by split_and!.
Qed.

(** The same over [Stream<Http3>], a pair of QUIC streams or the request stream of a server or a client: the messages returned are the first messages of
    the reference receiver on the bytes quinn or h3 has handed out, of which only those kept for the next read have not been read; what counts as
    written has been handed to quinn or h3, in order. *)
Theorem stream_over_http3 {Q QR S F S' F' R R' : Type} `{QuicSpec Q QR} `{H3SendSpec S F} `{H3SendSpec S' F'} `{H3RecvSpec R} `{H3RecvSpec R'} D s
    (i : Over (TransportStream.Http3StreamInner Q QR S F S' F' R R') B) fuel task :
  reachable (T := Over _ B) arch slice_addr role c leftover D s i -> enough fuel i ->
  exists s' i' r, poll_next (T := Over _ B) arch slice_addr fuel task (s, i) = Done (s', i') (Ok r) /\
    (match stream_of i' with
     | TransportStream.Raw q => quic_received (Http3Stream.recv q) = taken i' /\ quic_sent (Http3Stream.send q) = accepted i'
     | TransportStream.Server q => received (Http3RequestStream.recv q) = taken i' ++ Http3RequestStream.read_buf q /\ Http3Spec.writer_put (Http3RequestStream.writer q) (accepted i')
     | TransportStream.Client q => received (Http3RequestStream.recv q) = taken i' ++ Http3RequestStream.read_buf q /\ Http3Spec.writer_put (Http3RequestStream.writer q) (accepted i')
     end) /\
    (exists rest, reference (source view (stream_of i')) = D ++ delivered r ++ rest) /\
    (r = Pending -> closing_deadline s' = None -> reference (taken i') = D).
Proof.
  intros Hr Hf. destruct (over_delivers arch slice_addr Harch role c leftover Hleft D s i fuel task Hr Hf) as (s' & i' & r & E & (_ & Hs & Hp) & Hpre & Hall).
  exists s', i', r. split; [done|]. split; [|done]. clear E Hpre Hall. cbn in *. destruct (stream_of i'); cbn in *; [by rewrite app_nil_r in Hs|by split..].
Qed.
End Http.

(** ** The writer of a request stream *)

Section Writer.
Context {S F : Type} `{H3SendSpec S F}.
Abbreviation writer := (H3Writer.t S F).

Inductive WriterCall := Write (buf : bytes) | Flush | Shutdown.

(** A run of calls, with the bytes accepted and whether a call has failed. *)
Record WriterRun := MkRun { run_writer : writer; run_accepted : bytes; run_failed : bool }.

Definition is_failure {X} (r : poll (res IoError X)) : bool := match r with Ready (Err _) => true | _ => false end.
Definition writer_call (x : WriterRun) (call : WriterCall) : WriterRun :=
  match call with
  | Write b => let '(w, r) := H3Writer.poll_write (run_writer x) b in MkRun w (run_accepted x ++ put_by b r) (run_failed x || is_failure r)
  | Flush => let '(w, r) := H3Writer.poll_flush (run_writer x) in MkRun w (run_accepted x) (run_failed x || is_failure r)
  | Shutdown => let '(w, r) := H3Writer.poll_shutdown (run_writer x) in MkRun w (run_accepted x) (run_failed x || is_failure r)
  end.
Definition writer_run (stream : S) (calls : list WriterCall) : WriterRun := foldl writer_call (MkRun (H3Writer.new stream) [] false) calls.

(** As long as no call has failed, nothing h3 was given has been lost, and each future is of the kind its state says. *)
Definition writer_sound (w : writer) (failed : bool) : Prop :=
  match w with
  | H3Writer.Ready_ s => failed = false -> sound s = true
  | H3Writer.Writing f => finishes f = false /\ (failed = false -> sound_by f = true)
  | H3Writer.Finishing f => finishes f = true /\ (failed = false -> sound_by f = true)
  | H3Writer.Finished => True
  end.

(** The outcomes of a poll of a future, by [h3_poll_spec]. *)
Ltac poll_cases f := let Hp := fresh "Hp" in pose proof (h3_poll_spec f) as Hp; destruct (h3_poll f) as [?|[? [?|?]]].

Lemma write_sound w b failed : writer_sound w failed -> writer_sound (fst (H3Writer.poll_write w b)) (failed || is_failure (snd (H3Writer.poll_write w b))).
Proof.
  intros Hw. unfold H3Writer.poll_write, H3Writer.accept. case_bool_decide; cbn; [by rewrite orb_false_r|].
  assert (Hs : forall s, (failed = false -> sound s = true) -> finishes (h3_send_data s b) = false /\ (failed || false = false -> sound_by (h3_send_data s b) = true)).
  { intros s Hs. destruct (send_data_spec s b) as (_ & -> & ->). by rewrite orb_false_r. }
  destruct w as [s|f|f|]; cbn in *; [by apply Hs|..|done]; poll_cases f; cbn; rewrite ?orb_false_r, ?orb_true_r; try done; destruct Hw, Hp as (? & Hp2); try (split; intuition congruence).
  rewrite <- (orb_false_r failed). apply Hs. intuition congruence.
Qed.

Lemma flush_sound w failed : writer_sound w failed -> writer_sound (fst (H3Writer.poll_flush w)) (failed || is_failure (snd (H3Writer.poll_flush w))).
Proof.
  intros Hw. destruct w as [s|f|f|]; cbn in *; rewrite ?orb_false_r; try done; poll_cases f; cbn; rewrite ?orb_false_r, ?orb_true_r; try done; destruct Hw, Hp as (? & Hp2); intuition congruence.
Qed.

Lemma shutdown_sound w failed : writer_sound w failed -> writer_sound (fst (H3Writer.poll_shutdown w)) (failed || is_failure (snd (H3Writer.poll_shutdown w))).
Proof.
  assert (Hs : forall s, (failed = false -> sound s = true) ->
    writer_sound (fst (H3Writer.shutdown_finishing (h3_finish s))) (failed || is_failure (snd (H3Writer.shutdown_finishing (h3_finish s))))).
  { intros s Hs. apply (flush_sound (H3Writer.Finishing (h3_finish s))). destruct (finish_spec s) as (_ & E1 & E2). cbn. by rewrite E1, E2. }
  intros Hw. destruct w as [s|f|f|]; cbn in *; [by apply Hs| |by apply (flush_sound (H3Writer.Finishing f))|done].
  poll_cases f; cbn; rewrite ?orb_false_r, ?orb_true_r; try done; destruct Hw, Hp as (? & Hp2); [intuition congruence|].
  apply Hs. intuition congruence.
Qed.

Lemma writer_run_ok stream calls : sound stream = true -> let x := writer_run stream calls in
  Http3Spec.writer_put (run_writer x) (handed stream ++ run_accepted x) /\ writer_sound (run_writer x) (run_failed x).
Proof.
  intros Hs. cbv zeta. unfold writer_run. induction calls as [|call calls [Hp Hw]] using rev_ind; [cbn; by rewrite app_nil_r|].
  rewrite foldl_snoc. set (x := foldl writer_call _ calls) in *. destruct call as [b| |]; cbn.
  - destruct (Http3Spec.poll_write_put (run_writer x) b _ Hp) as [Hp' _]. pose proof (write_sound _ b _ Hw) as Hw'. destruct (H3Writer.poll_write _ b). cbn in *. by rewrite app_assoc.
  - pose proof (Http3Spec.poll_flush_put _ _ Hp). pose proof (flush_sound _ _ Hw). by destruct (H3Writer.poll_flush _).
  - pose proof (Http3Spec.poll_shutdown_put _ _ Hp). pose proof (shutdown_sound _ _ Hw). by destruct (H3Writer.poll_shutdown _).
Qed.

(** A [finish] that has completed after [acc]. *)
Definition finish_completed (acc : bytes) : Prop := exists f s u, finishes f = true /\ h3_poll f = inr (s, Ok u) /\ handed s = acc.

Lemma finishing_completes f acc : finishes f = true -> handed_by f = acc -> snd (H3Writer.shutdown_finishing f) = Ready (Ok tt) ->
  fst (H3Writer.shutdown_finishing f) = H3Writer.Finished /\ finish_completed acc.
Proof.
  intros Hf Ha. unfold H3Writer.shutdown_finishing. pose proof (h3_poll_spec f) as Hp. destruct (h3_poll f) as [f'|[s [u|e]]] eqn:E; cbn; try done.
  intros _. split; [done|]. exists f, s, u. destruct Hp. by split_and!; [| |congruence].
Qed.

(** [C14] The writer of an h3 request stream, under any sequence of writes, flushes and shutdowns: the bytes handed to h3 are the bytes accepted, in order, each once;
    a write accepts all it is offered; as long as no call has failed, none of them has been lost.  A completed flush leaves nothing under way.
    A completed shutdown means that h3 has completed [finish] after the last byte; from then on writes fail, and flushes and shutdowns succeed. *)
Theorem h3_writer_faithful stream calls : sound stream = true ->
  let x := writer_run stream calls in let w := run_writer x in let acc := handed stream ++ run_accepted x in
  Http3Spec.writer_put w acc /\ writer_sound w (run_failed x) /\
  (forall b n, snd (H3Writer.poll_write w b) = Ready (Ok n) -> n = len b) /\
  (snd (H3Writer.poll_flush w) = Ready (Ok tt) -> fst (H3Writer.poll_flush w) = H3Writer.Finished \/ exists s, fst (H3Writer.poll_flush w) = H3Writer.Ready_ s /\ handed s = acc) /\
  (snd (H3Writer.poll_shutdown w) = Ready (Ok tt) -> fst (H3Writer.poll_shutdown w) = H3Writer.Finished /\ (w = H3Writer.Finished \/ finish_completed acc)) /\
  (w = H3Writer.Finished -> H3Writer.poll_flush w = (w, Ready (Ok tt)) /\ H3Writer.poll_shutdown w = (w, Ready (Ok tt)) /\
    forall b, b <> [] -> H3Writer.poll_write w b = (w, Ready (Err finished_error))).
Proof.
  intros Hs x w acc. destruct (writer_run_ok stream calls Hs) as [Hp Hw]. fold x in Hp, Hw. fold w in Hp, Hw. fold acc in Hp. clearbody w acc. split; [done|]. split; [done|]. split_and!.
  - intros b n Hn. destruct (Http3Spec.poll_write_put w b acc Hp) as [_ Hl]. by rewrite Hn in Hl.
  - intros Hf. pose proof (Http3Spec.poll_flush_put w acc Hp) as Hp'. destruct w as [s|f|f|]; cbn in *; [eauto|..|by left];
      destruct (h3_poll f) as [f'|[s [u|e]]]; cbn in *; try done; eauto.
  - assert (Hfin : forall s, handed s = acc -> snd (H3Writer.shutdown_finishing (h3_finish s)) = Ready (Ok tt) ->
      fst (H3Writer.shutdown_finishing (h3_finish s)) = H3Writer.Finished /\ finish_completed acc).
    { intros s Ha. destruct (finish_spec s) as (E1 & _ & E2). apply finishing_completes; [done|congruence]. }
    destruct w as [s|f|f|]; cbn in *; intros Hsd.
    + destruct (Hfin s Hp Hsd); auto.
    + poll_cases f; cbn in *; try done. destruct Hp0 as [Hh _]. destruct (Hfin _ (eq_trans Hh Hp) Hsd); auto.
    + destruct Hw as [Hw _]. destruct (finishing_completes f acc Hw Hp Hsd); auto.
    + auto.
  - intros ->. split_and!; try done. intros b Hb. unfold H3Writer.poll_write. by rewrite bool_decide_eq_false_2.
Qed.
End Writer.

(** ** Concrete streams *)

(** Frames that have arrived, each a list of bytes. *)
Record Frames := MkFrames { waiting : list bytes; seen : bytes; given_back : Z }.

Definition frames_size (l : list bytes) : nat := sum_list ((fun b => S (length b)) <$> l).
Definition next_frame (r : Frames) : Frames * option bytes :=
  match waiting r with
  | [] => (r, None)
  | b :: rest => let b := map (wrap 8) b in (MkFrames rest (seen r ++ b) (given_back r), Some b)
  end.

Lemma next_frame_ok r : let '(r', x) := next_frame r in given_back r' = given_back r /\
  match x with
  | Some b => bytes_ok b /\ seen r' = seen r ++ b /\ (frames_size (waiting r') + length b + 1 <= frames_size (waiting r))%nat
  | None => r' = r
  end.
Proof.
  unfold next_frame, frames_size. destruct (waiting r) as [|b rest]; [done|]. cbn. split_and!; [done|apply wrapped_bytes|done|]. rewrite length_map. lia.
Qed.

#[export] Instance frames_h2 : H2Recv Frames := {
  poll_data r := let '(r, x) := next_frame r in (r, match x with Some b => Ready (Some (Ok b)) | None => Pending end);
  release_capacity r n := MkFrames (waiting r) (seen r) (given_back r + n);
  backlog r := frames_size (waiting r)
}.
#[export] Instance frames_h2_spec : H2RecvSpec Frames.
Proof.
  refine {| arrived := seen; ended _ := false; released := given_back |}.
  - intros r. pose proof (next_frame_ok r) as Hn. cbn. destruct (next_frame r) as [r' [b|]]; destruct Hn as [Hg Hn]; [|by subst].
    destruct Hn as (? & ? & ?). split_and!; try done. lia.
  - done.
Defined.

#[export] Instance frames_h3 : H3RecvStream Frames := {
  poll_recv_data r := let '(r, x) := next_frame r in (r, match x with Some b => Ready (Ok (Some b)) | None => Pending end);
  h3_backlog r := frames_size (waiting r)
}.
#[export] Instance frames_h3_spec : H3RecvSpec Frames.
Proof.
  refine {| received := seen |}.
  intros r. pose proof (next_frame_ok r) as Hn. cbn. destruct (next_frame r) as [r' [b|]]; destruct Hn as [Hg Hn]; [|by subst].
  destruct Hn as (? & ? & ?). split_and!; try done; lia.
Defined.

(** A sending side that takes at most [limit] bytes at a time. *)
Record Taker := MkTaker { limit : Z; took : bytes }.

#[export] Instance taker_h2 : H2Send Taker := {
  capacity s := limit s;
  reserve_capacity s _ := s;
  poll_capacity s := (s, Ready (Some (Ok (Z.max 0 (limit s)))));
  send_data s b _ := (MkTaker (limit s) (took s ++ b), Ok tt)
}.
#[export] Instance taker_h2_spec : H2SendSpec Taker.
Proof. refine {| sent := took |}; [done| |done]. intros s. split; [done|]. cbn. lia. Defined.

#[export] Instance taker_quic : QuicSend Taker := {
  quic_write s b := let n := Z.max 0 (Z.min (limit s) (len b)) in (MkTaker (limit s) (took s ++ upto n b), Ready (Ok n));
  quic_finish s := (s, Ok tt)
}.
#[export] Instance frames_quic : QuicRecv Frames := {
  poll_read_buf r room := match waiting r with
    | [] => (r, Pending)
    | b :: rest => let b := map (wrap 8) b in (MkFrames (if bool_decide (from room b = []) then rest else from room b :: rest) (seen r ++ upto room b) (given_back r), Ready (Ok (upto room b)))
    end;
  quic_backlog r := frames_size (waiting r)
}.
#[export] Instance taker_frames_quic : QuicSpec Taker Frames.
Proof.
  refine {| quic_sent := took; quic_received := seen |}; [| done |].
  - intros s b. pose proof (len_nonneg b). cbn. split; [lia|done].
  - intros r room Hroom. cbn. unfold frames_size. destruct (waiting r) as [|b rest] eqn:E0; [cbn; rewrite E0; by split; [cbn; lia|]|]. pose proof (wrapped_bytes b) as Hb. pose proof (length_map (wrap 8) b) as Eb.
    set (d := map (wrap 8) b) in *. cbn.
    assert (Hl : (sum_list ((fun b : bytes => S (length b)) <$> (if bool_decide (from room d = []) then rest else from room d :: rest)) + length (upto room d) <=
      S (length d) + sum_list ((fun b : bytes => S (length b)) <$> rest))%nat).
    { pose proof (f_equal length (upto_from room d)) as E. rewrite length_app in E. case_bool_decide; cbn; lia. }
    cbn in Hl. split; [lia|]. split_and!; [by apply bytes_ok_upto|unfold len, upto; rewrite length_take; lia| |done].
    intros Hne. destruct (upto room d); [done|]. cbn in Hl. lia.
Defined.

(** A future that completes after [polls] polls. *)
Record Delayed := MkDelayed { polls : nat; given : Taker; ending : bool }.
#[export] Instance taker_h3 : H3SendStream Taker Delayed := {
  h3_send_data s b := MkDelayed 1 (MkTaker (limit s) (took s ++ b)) false;
  h3_finish s := MkDelayed 1 s true;
  h3_poll f := match polls f with O => inr (given f, Ok tt) | S n => inl (MkDelayed n (given f) (ending f)) end
}.
#[export] Instance taker_h3_spec : H3SendSpec Taker Delayed.
Proof.
  refine {| handed := took; sound _ := true; handed_by f := took (given f); sound_by _ := true; finishes := ending |}; [done|done|].
  intros f. cbn. by destruct (polls f).
Defined.

#[export] Instance two_bytes : Rooms := { read_room _ := 2; read_room_pos _ := ltac:(lia) }.

Definition no_events : Script := MkScript [] [] [] [] 0.
Definition two_frames : Frames := MkFrames [[0x81; 2; 65]; []; [66]] [] 0.

Definition h2_demo : Over (Http2Stream.t Taker Frames) Script.
Proof.
  refine (MkOver (Http2Stream.new (MkTaker 3 []) two_frames) no_events [] [] _). by repeat split; try constructor.
Defined.

(** What a poll returned and left behind. *)
Definition outcome {A X} `{AsyncStreamSpec A} (look : A -> X) (r : comp (t * Over A Script) (poll Item)) : option (poll Item * X) :=
  match r with Done (_, i) (Ok r) => Some (r, look (stream_of i)) | _ => None end.

(** A text is split over two DATA frames, with an empty one between them, and read two bytes at a time. *)
Lemma stream_over_http2_witness : exists s' i',
  poll_next (T := Over (Http2Stream.t Taker Frames) Script) (SU := simdutf8_std) test_arch (fun _ => 0) 120 1 (client Config.default, h2_demo) =
    Done (s', i') (Ok (Ready (Some (Ok (Message.Text [65; 66]))))) /\
  arrived (Http2Stream.recv (stream_of i')) = taken i' ++ Http2Stream.recv_buf (stream_of i') /\ released (Http2Stream.recv (stream_of i')) = 4.
Proof.
  destruct (stream_over_http2 (SU := simdutf8_std) (SUok := simdutf8_std_spec) test_arch (fun _ => 0) ltac:(by vm_compute) Client Config.default None ltac:(constructor)
    [] (client Config.default) h2_demo 120 1 ltac:(by apply r_start) ltac:(unfold enough; cbn; lia)) as (s' & i' & r & E & Ha & Hrel & _).
  assert (Eo : outcome (fun h => arrived (Http2Stream.recv h)) (poll_next (T := Over (Http2Stream.t Taker Frames) Script) (SU := simdutf8_std) test_arch (fun _ => 0) 120 1
    (client Config.default, h2_demo)) = Some (Ready (Some (Ok (Message.Text [65; 66]))), [0x81; 2; 65; 66])) by (vm_compute; reflexivity).
  rewrite E in Eo. injection Eo as -> Ea. exists s', i'. split; [exact E|]. split; [exact Ha|]. rewrite Hrel. cbn. by rewrite Ea.
Defined.

(** The same on the server's side of an h3 request stream, where nothing is kept in the end. *)
Abbreviation H3Demo := (TransportStream.Http3StreamInner Taker Frames Taker Delayed Taker Delayed Frames Frames).
Definition h3_demo : Over H3Demo Script.
Proof.
  refine (MkOver (TransportStream.from_h3_server (MkTaker 3 []) (MkFrames [[0x81; 2; 65]; [66]] [] 0) : H3Demo) no_events [] [] _). by repeat split; try constructor.
Defined.

Lemma stream_over_http3_witness : exists s' i',
  poll_next (T := Over H3Demo Script) (SU := simdutf8_std) test_arch (fun _ => 0) 120 1 (client Config.default, h3_demo) =
    Done (s', i') (Ok (Ready (Some (Ok (Message.Text [65; 66]))))) /\ taken i' = [0x81; 2; 65; 66].
Proof.
  destruct (stream_over_http3 (SU := simdutf8_std) (SUok := simdutf8_std_spec) test_arch (fun _ => 0) ltac:(by vm_compute) Client Config.default None ltac:(constructor)
    [] (client Config.default) h3_demo 120 1 ltac:(by apply r_start) ltac:(unfold enough; cbn; lia)) as (s' & i' & r & E & Ha & _).
  assert (Eo : outcome (fun h : H3Demo => match h with TransportStream.Server q => Some (received (Http3RequestStream.recv q), Http3RequestStream.read_buf q) | _ => None end)
    (poll_next (T := Over H3Demo Script) (SU := simdutf8_std) test_arch (fun _ => 0) 120 1
    (client Config.default, h3_demo)) = Some (Ready (Some (Ok (Message.Text [65; 66]))), Some ([0x81; 2; 65; 66], []))) by (vm_compute; reflexivity).
  rewrite E in Eo.
  assert (r = Ready (Some (Ok (Message.Text [65; 66]))) /\ taken i' = [0x81; 2; 65; 66]) as [-> Et].
  { clear E. cbn in Eo, Ha. destruct (stream_of i') as [q|q|q]; try done. injection Eo as -> Eq Eb. rewrite Eq, Eb, app_nil_r in Ha. by destruct Ha as [Ha _]. }
  exists s', i'. split; [exact E|exact Et].
Defined.

(** A write, a flush that waits and one that completes, and a shutdown. *)
Lemma h3_writer_faithful_witness :
  let x := writer_run (S := Taker) (F := Delayed) (MkTaker 3 []) [Write [1; 2]; Write [3]; Write [3]; Flush; Flush; Shutdown] in
  run_accepted x = [1; 2; 3] /\ run_failed x = false /\
  fst (H3Writer.poll_shutdown (run_writer x)) = H3Writer.Finished /\ (run_writer x = H3Writer.Finished \/ finish_completed (S := Taker) (F := Delayed) [1; 2; 3]).
Proof.
  destruct (h3_writer_faithful (S := Taker) (F := Delayed) (H0 := taker_h3_spec) (MkTaker 3 []) [Write [1; 2]; Write [3]; Write [3]; Flush; Flush; Shutdown] ltac:(reflexivity)) as (_ & _ & _ & _ & Hs & _).
  split; [reflexivity|]. split; [reflexivity|]. apply Hs. reflexivity.
Defined.
