(* ===== verification/Uring.v ===== *)
(** * Streams over io_uring (src/src/io_uring/stream.rs)

    [UringStream] makes a stream that is polled of tokio-uring's [TcpStream], whose operations take a buffer and give it back when they complete.  A read is made
    into a buffer of the stream and handed out from there; writes are collected in another and written at the next flush.  The socket is shared by the stream and its
    pending operations; tokio-uring is an interface.  [None]: an [expect] or a slice has panicked. *)

From stdpp Require Import base list option strings.
From S2P Require Import Prelude Error Mask Utf8 Frame FrameSpec Protocol Heartbeat Cork Output HttpStream.

(** [Vec<u8>]: its bytes and its capacity *)
Record Vec := MkVec { elems : bytes; cap : Z }.

(** tokio-uring's [TcpStream]: the futures of [read], [write_all] and [write], polled with the socket; a future that has completed gives back the buffer it was made with. *)
Class UringTcp (T RF WF SF : Type) := {
  tcp_read : Vec -> RF;
  poll_tcp_read : T -> RF -> T * (RF + res IoError Z * Vec);
  tcp_write_all : Vec -> WF;
  poll_tcp_write_all : T -> WF -> T * (WF + res IoError unit * Vec);
  tcp_write : Vec -> SF;
  poll_tcp_write : T -> SF -> T * (SF + res IoError Z * Vec);
  tcp_shutdown : T -> T * res IoError unit
}.

Definition IO_BUFFER_SIZE : Z := 64 * 1024.

Module ReadState.
Record t (RF : Type) := Mk { buffer : option Vec; data_len : Z; read_pos : Z; eof : bool; pending_read : option RF }.
Arguments Mk {RF}. Arguments buffer {RF}. Arguments data_len {RF}. Arguments read_pos {RF}. Arguments eof {RF}. Arguments pending_read {RF}.
End ReadState.

Module WriteState.
Record t (WF : Type) := Mk { buffer : option Vec; pending_write : option WF }.
Arguments Mk {WF}. Arguments buffer {WF}. Arguments pending_write {WF}.
End WriteState.

Module UringStream.
Record t (T RF WF : Type) := Mk { inner : T; read_state : ReadState.t RF; write_state : WriteState.t WF }.
Arguments Mk {T RF WF}. Arguments inner {T RF WF}. Arguments read_state {T RF WF}. Arguments write_state {T RF WF}.

Section Stream.
Context {T RF WF SF : Type} `{UringTcp T RF WF SF}.
Abbreviation t := (t T RF WF).

Definition set_inner (v : T) (s : t) : t := Mk v (read_state s) (write_state s).
Definition set_read_state (v : ReadState.t RF) (s : t) : t := Mk (inner s) v (write_state s).
Definition set_write_state (v : WriteState.t WF) (s : t) : t := Mk (inner s) (read_state s) v.

(** [Vec::with_capacity] may allocate more than it is asked for: [capacity]. *)
Definition new (capacity : Z) (stream : T) : t :=
  Mk stream (ReadState.Mk (Some (MkVec (repeat 0 (Z.to_nat IO_BUFFER_SIZE)) IO_BUFFER_SIZE)) 0 0 false None) (WriteState.Mk (Some (MkVec [] capacity)) None).

Definition has_buffered_data (s : t) : bool := ReadState.read_pos (read_state s) <? ReadState.data_len (read_state s).

(** ** Writing *)

(** A poll of the pending write, after which its buffer is used again. *)
Definition poll_pending_write (f : WF) (s : t) : t * poll (res IoError unit) :=
  let '(inner, r) := poll_tcp_write_all (inner s) f in
  let s := set_inner inner s in
  match r with
  | inl f => (set_write_state (WriteState.Mk (WriteState.buffer (write_state s)) (Some f)) s, Pending)
  | inr (result, buffer) => (set_write_state (WriteState.Mk (Some (MkVec [] (cap buffer))) None) s, Ready result)
  end.

Definition poll_flush_buffer (s : t) : option (t * poll (res IoError unit)) :=
  match WriteState.pending_write (write_state s) with
  | Some f => Some (poll_pending_write f s)
  | None =>
      match WriteState.buffer (write_state s) with
      | None => None
      | Some buffer =>
          if bool_decide (elems buffer = []) then Some (s, Ready (Ok tt))
          else
            let f := tcp_write_all buffer in
            Some (poll_pending_write f (set_write_state (WriteState.Mk None (Some f)) s))
      end
  end.

(** [ready!(self.poll_flush_buffer(cx))?], and then [k] *)
Definition flushed {A} (s : t) (k : t -> option (t * poll (res IoError A))) : option (t * poll (res IoError A)) :=
  match poll_flush_buffer s with
  | None => None
  | Some (s, Pending) => Some (s, Pending)
  | Some (s, Ready (Err e)) => Some (s, Ready (Err e))
  | Some (s, Ready (Ok _)) => k s
  end.

(** As much of [buf] as the buffer has capacity for. *)
Definition fill (buf : bytes) (s : t) : option (t * poll (res IoError Z)) :=
  match WriteState.buffer (write_state s) with
  | None => None
  | Some v =>
      if cap v <? len (elems v) then None
      else
        let written := Z.min (len buf) (cap v - len (elems v)) in
        Some (set_write_state (WriteState.Mk (Some (MkVec (elems v ++ upto written buf) (cap v))) (WriteState.pending_write (write_state s))) s, Ready (Ok written))
  end.

Definition poll_write_ (s : t) (buf : bytes) : option (t * poll (res IoError Z)) :=
  if bool_decide (buf = []) then Some (s, Ready (Ok 0))
  else
    let unblocked (s : t) :=
      match WriteState.buffer (write_state s) with
      | None => None
      | Some v => if len (elems v) =? cap v then flushed s (fill buf) else fill buf s
      end in
    if bool_decide (is_Some (WriteState.pending_write (write_state s))) then flushed s unblocked else unblocked s.

Definition poll_shutdown_ (s : t) : option (t * poll (res IoError unit)) :=
  flushed s (fun s => let '(inner, r) := tcp_shutdown (inner s) in Some (set_inner inner s, Ready r)).

(** ** Reading *)

(** Hands out what the buffer holds. *)
Definition copy_out (room : Z) (s : t) : option (t * poll (res IoError bytes)) :=
  let r := read_state s in
  match ReadState.buffer r with
  | None => None
  | Some v =>
      let available := ReadState.data_len r - ReadState.read_pos r in
      let to_copy := Z.min available room in
      if len (elems v) <? ReadState.read_pos r + to_copy then None
      else Some (set_read_state (ReadState.Mk (Some v) (ReadState.data_len r) (ReadState.read_pos r + to_copy) (ReadState.eof r) (ReadState.pending_read r)) s,
                 Ready (Ok (upto to_copy (from (ReadState.read_pos r) (elems v)))))
  end.

(** [if this.read_state.pending_read.is_none() { ... }] *)
Definition start_read (s : t) : option (RF * t) :=
  let r := read_state s in
  match ReadState.pending_read r with
  | Some f => Some (f, s)
  | None =>
      match ReadState.buffer r with
      | None => None
      | Some v => let f := tcp_read v in Some (f, set_read_state (ReadState.Mk None 0 0 (ReadState.eof r) (Some f)) s)
      end
  end.

(** The loop of [poll_read]; [None] also without fuel. *)
Fixpoint read_loop (fuel : nat) (room : Z) (s : t) : option (t * poll (res IoError bytes)) :=
  match fuel with
  | O => None
  | S fuel =>
      if has_buffered_data s then copy_out room s
      else
        match start_read s with
        | None => None
        | Some (f, s) =>
            let '(inner, x) := poll_tcp_read (inner s) f in
            let s := set_inner inner s in
            let r := read_state s in
            match x with
            | inl f => Some (set_read_state (ReadState.Mk (ReadState.buffer r) (ReadState.data_len r) (ReadState.read_pos r) (ReadState.eof r) (Some f)) s, Pending)
            | inr (Ok n, v) =>
                if n =? 0 then Some (set_read_state (ReadState.Mk (Some v) (ReadState.data_len r) (ReadState.read_pos r) true None) s, Ready (Ok []))
                else read_loop fuel room (set_read_state (ReadState.Mk (Some v) n (ReadState.read_pos r) (ReadState.eof r) None) s)
            | inr (Err e, v) =>
                Some (set_read_state (ReadState.Mk (Some v) (ReadState.data_len r) (ReadState.read_pos r) (ReadState.eof r) None) s, Ready (Err e))
            end
        end
  end.

(** A completed read is handed out in the next turn. *)
Definition poll_read_ (room : Z) (s : t) : option (t * poll (res IoError bytes)) :=
  if (room =? 0) || ReadState.eof (read_state s) then Some (s, Ready (Ok [])) else read_loop 2 room s.

(** Where the code would panic the state stays as it is. *)
Definition or_stay {A} (r : option (t * poll A)) (s : t) : t * poll A := match r with Some r => r | None => (s, Pending) end.

#[global] Instance stream : AsyncStream t := {
  a_is_write_vectored _ := false;
  a_poll_read room s := or_stay (poll_read_ room s) s;
  a_poll_write s buf := or_stay (poll_write_ s buf) s;
  a_poll_write_vectored := default_write_vectored (fun s buf => or_stay (poll_write_ s buf) s);
  a_poll_flush s := or_stay (poll_flush_buffer s) s;
  a_poll_shutdown s := or_stay (poll_shutdown_ s) s
}.

(** ** Native operations

    Each takes a buffer of its caller and gives it back; a state of its future is what it is waiting for. *)

Inductive NativeRead := BridgeRead (buf : Vec) | DirectRead (f : RF).

Definition read_native (s : t) (buf : Vec) : NativeRead :=
  if has_buffered_data s || bool_decide (is_Some (ReadState.pending_read (read_state s))) || ReadState.eof (read_state s)
  then BridgeRead buf else DirectRead (tcp_read buf).

(** The bytes of the caller's buffer after [filled] has been put at its beginning. *)
Definition filled_vec (buf : Vec) (filled : bytes) : Vec := MkVec (filled ++ from (len filled) (elems buf)) (cap buf).

Definition poll_read_native (s : t) (x : NativeRead) : option (t * (NativeRead + res IoError Z * Vec)) :=
  match x with
  | BridgeRead buf =>
      match poll_read_ (cap buf) s with
      | None => None
      | Some (s, Pending) => Some (s, inl (BridgeRead buf))
      | Some (s, Ready (Ok data)) => Some (s, inr (Ok (len data), filled_vec buf data))
      | Some (s, Ready (Err e)) => Some (s, inr (Err e, buf))
      end
  | DirectRead f =>
      let '(inner, x) := poll_tcp_read (inner s) f in
      Some (set_inner inner s, match x with inl f => inl (DirectRead f) | inr r => inr r end)
  end.

(** A write that first flushes. *)
Inductive NativeWrite (F : Type) := FlushFirst (buf : Vec) | DirectWrite (f : F).
Arguments FlushFirst {F}. Arguments DirectWrite {F}.

Definition poll_native_write {F R : Type} (make : Vec -> F) (poll_op : T -> F -> T * (F + res IoError R * Vec)) (s : t) (x : NativeWrite F) :
    option (t * (NativeWrite F + res IoError R * Vec)) :=
  let direct (s : t) (f : F) :=
    let '(inner, x) := poll_op (inner s) f in
    Some (set_inner inner s, match x with inl f => inl (DirectWrite f) | inr r => inr r end) in
  match x with
  | FlushFirst buf =>
      match poll_flush_buffer s with
      | None => None
      | Some (s, Pending) => Some (s, inl (FlushFirst buf))
      | Some (s, Ready (Err e)) => Some (s, inr (Err e, buf))
      | Some (s, Ready (Ok _)) => direct s (make buf)
      end
  | DirectWrite f => direct s f
  end.
Definition write_native : t -> NativeWrite SF -> option (t * (NativeWrite SF + res IoError Z * Vec)) := poll_native_write tcp_write poll_tcp_write.
Definition write_all_native : t -> NativeWrite WF -> option (t * (NativeWrite WF + res IoError unit * Vec)) := poll_native_write tcp_write_all poll_tcp_write_all.

(** ** [UringStreamAdapter], which hands its polls to the stream it has *)

Definition buffered_data (s : t) : option bytes :=
  let r := read_state s in
  match ReadState.buffer r with
  | None => Some []
  | Some v => if (ReadState.read_pos r <=? ReadState.data_len r) && (ReadState.data_len r <=? len (elems v))
              then Some (upto (ReadState.data_len r - ReadState.read_pos r) (from (ReadState.read_pos r) (elems v))) else None
  end.
Definition consume (amt : Z) (s : t) : t :=
  let r := read_state s in
  set_read_state (ReadState.Mk (ReadState.buffer r) (ReadState.data_len r) (ReadState.read_pos r + Z.min amt (ReadState.data_len r - ReadState.read_pos r))
    (ReadState.eof r) (ReadState.pending_read r)) s.
End Stream.
Arguments NativeRead : clear implicits.
Arguments NativeWrite : clear implicits.
Arguments BridgeRead {RF}. Arguments DirectRead {RF}. Arguments FlushFirst {F}. Arguments DirectWrite {F}.
End UringStream.
