(* ===== verification/UringSpec.v ===== *)
(** * What a stream over io_uring promises

    [UringTcpSpec] is what is relied on of tokio-uring's socket.  A [UringStream] over such a socket keeps its invariant, never panics, and keeps to the interface of
    a transport stream ([AsyncStreamSpec]). *)

From stdpp Require Import base list option strings.
From S2P Require Import Prelude Error Mask Utf8 Frame FrameSpec Protocol ReceiveSpec ProtocolSpec Heartbeat Cork Output Stream Deflate Config WebSocket StreamSpec StreamProps.
From S2P Require Import HttpStream HttpStreamSpec Uring.
Import UringStream.

(** ** The socket

    [got]: the bytes of the completed reads.  [at_end]: a read has met the end.  [wrote]: the bytes the socket has taken.  [broken]: a [write_all] has failed.
    [tcp_backlog]: bounds the bytes of the reads that are ready.  Of a future: the capacity of its buffer and the bytes it has still to write. *)
Class UringTcpSpec (T RF WF SF : Type) `{UringTcp T RF WF SF} := {
  got : T -> bytes;
  at_end : T -> bool;
  wrote : T -> bytes;
  broken : T -> bool;
  tcp_backlog : T -> nat;
  read_cap : RF -> Z;
  unsent : WF -> bytes;
  write_cap : WF -> Z;
  offered : SF -> bytes;
  tcp_read_made v : read_cap (tcp_read v) = cap v;
  tcp_write_all_made v : unsent (tcp_write_all v) = elems v /\ write_cap (tcp_write_all v) = cap v;
  tcp_write_made v : offered (tcp_write v) = elems v;
  poll_tcp_read_spec t f : let '(t', x) := poll_tcp_read t f in
    wrote t' = wrote t /\ broken t' = broken t /\ (at_end t = true -> at_end t' = true) /\ (tcp_backlog t' <= tcp_backlog t)%nat /\
    match x with
    | inl f' => got t' = got t /\ read_cap f' = read_cap f
    | inr (Ok n, v) => cap v = read_cap f /\ 0 <= n <= len (elems v) /\ bytes_ok (upto n (elems v)) /\ got t' = got t ++ upto n (elems v) /\
        (tcp_backlog t' + Z.to_nat n <= tcp_backlog t)%nat /\ (n = 0 -> 0 < read_cap f -> at_end t' = true)
    | inr (Err _, v) => cap v = read_cap f /\ got t' = got t
    end;
  poll_tcp_write_all_spec t f : let '(t', x) := poll_tcp_write_all t f in
    got t' = got t /\ at_end t' = at_end t /\ tcp_backlog t' = tcp_backlog t /\ (broken t = true -> broken t' = true) /\
    match x with
    | inl f' => write_cap f' = write_cap f /\ wrote t' ++ unsent f' = wrote t ++ unsent f
    | inr (Ok _, v) => cap v = write_cap f /\ wrote t' = wrote t ++ unsent f
    | inr (Err _, v) => cap v = write_cap f /\ broken t' = true
    end;
  poll_tcp_write_spec t f : let '(t', x) := poll_tcp_write t f in
    got t' = got t /\ at_end t' = at_end t /\ tcp_backlog t' = tcp_backlog t /\ (broken t = true -> broken t' = true) /\
    match x with
    | inl f' => offered f' = offered f /\ wrote t' = wrote t
    | inr (Ok n, _) => 0 <= n <= len (offered f) /\ wrote t' = wrote t ++ upto n (offered f)
    | inr (Err _, _) => wrote t' = wrote t
    end;
  tcp_shutdown_spec t : let t' := fst (tcp_shutdown t) in
    got t' = got t /\ at_end t' = at_end t /\ tcp_backlog t' = tcp_backlog t /\ broken t' = broken t /\ wrote t' = wrote t
}.

Section Spec.
Context {T RF WF SF : Type} `{UringTcpSpec T RF WF SF}.
Abbreviation t := (t T RF WF).
Implicit Types s : t.

(** ** The invariant *)

(** Bytes read from the socket and not handed out. *)
Definition unread_in (r : ReadState.t RF) : bytes :=
  match ReadState.buffer r with Some v => upto (ReadState.data_len r - ReadState.read_pos r) (from (ReadState.read_pos r) (elems v)) | None => [] end.
Abbreviation unread s := (unread_in (read_state s)).

(** The buffer is in the stream or in the operation that is pending, and the bytes not handed out lie in it. *)
Definition read_ok (r : ReadState.t RF) : Prop :=
  match ReadState.pending_read r with
  | Some f => ReadState.buffer r = None /\ ReadState.data_len r = 0 /\ ReadState.read_pos r = 0 /\ 0 < read_cap f
  | None => exists v, ReadState.buffer r = Some v /\ 0 < cap v /\ 0 <= ReadState.read_pos r <= ReadState.data_len r /\ ReadState.data_len r <= len (elems v)
  end.
Definition reading s : Prop :=
  read_ok (read_state s) /\ bytes_ok (unread s) /\ (ReadState.eof (read_state s) = true -> at_end (inner s) = true /\ unread s = []).

Definition write_ok (w : WriteState.t WF) : Prop :=
  match WriteState.pending_write w with
  | Some f => WriteState.buffer w = None /\ 0 < write_cap f
  | None => exists v, WriteState.buffer w = Some v /\ 0 < cap v /\ len (elems v) <= cap v
  end.

(** Bytes accepted and not yet taken by the socket. *)
Definition outstanding_in (w : WriteState.t WF) : bytes :=
  match WriteState.pending_write w with Some f => unsent f | None => [] end ++ match WriteState.buffer w with Some v => elems v | None => [] end.
Abbreviation outstanding s := (outstanding_in (write_state s)).

(** [w] are the bytes accepted.  After a write has failed nothing is known of them. *)
Definition writing s (w : bytes) : Prop := write_ok (write_state s) /\ (broken (inner s) = true \/ wrote (inner s) ++ outstanding s = w).

Definition uring_view : View t := MkView reading (fun s => tcp_backlog (inner s) + length (unread s))%nat (fun s => got (inner s)) (fun s => unread s) writing.

Lemma new_ok capacity stream : 0 < capacity -> let s := new capacity stream in reading s /\ unread s = [] /\ writing s (wrote stream) /\ outstanding s = [].
Proof.
  intros Hc. assert (Hu : unread (new capacity stream : t) = []) by (unfold unread_in; apply upto_0). split_and!; [|done| |done].
  - split; [|rewrite Hu; by split; [constructor|]]. eexists. split; [done|]. cbn [ReadState.read_pos ReadState.data_len read_state new elems cap]. split; [done|]. split; [lia|apply len_nonneg].
  - split; [|right; apply app_nil_r]. eexists. split; [done|]. cbn. split; [lia|]. unfold len. cbn. lia.
Qed.

(** ** Writing *)

(** [s'] reads as [s] does. *)
Definition reads_same s s' : Prop :=
  read_state s' = read_state s /\ got (inner s') = got (inner s) /\ at_end (inner s') = at_end (inner s) /\ tcp_backlog (inner s') = tcp_backlog (inner s).

Lemma reads_same_refl s : reads_same s s.
Proof. done. Qed.
Lemma reads_same_trans a b c : reads_same a b -> reads_same b c -> reads_same a c.
Proof. unfold reads_same. intros (? & ? & ? & ?) (? & ? & ? & ?). split_and!; congruence. Qed.

Lemma reads_same_reading s s' : reads_same s s' -> reading s -> reading s'.
Proof. unfold reading. intros (-> & _ & -> & _). done. Qed.

Lemma reads_same_not_read s s' : reads_same s s' -> not_read uring_view s s'.
Proof. intros Hs. split; [by apply reads_same_reading|]. destruct Hs as (E1 & E2 & _ & E4). cbn. rewrite E1, E2, E4. by split_and!. Qed.

(** What a flush does: it has not read, it keeps what has been accepted, and when it has completed nothing is outstanding. *)
Definition flushes s s' (r : poll (res IoError unit)) : Prop :=
  reads_same s s' /\ write_ok (write_state s') /\ (forall w, writing s w -> writing s' w) /\
  match r with
  | Pending => True
  | Ready (Ok _) => WriteState.pending_write (write_state s') = None /\ outstanding s' = []
  | Ready (Err _) => WriteState.pending_write (write_state s') = None /\ outstanding s' = [] /\ broken (inner s') = true
  end.

Lemma emptied_ok v : 0 < cap v -> write_ok (WriteState.Mk (Some (MkVec [] (cap v))) None).
Proof. intros Hc. eexists. split; [done|]. change (len (elems (MkVec [] (cap v)))) with 0. cbn. lia. Qed.

Lemma poll_pending_write_flushes f s : WriteState.buffer (write_state s) = None -> WriteState.pending_write (write_state s) = Some f -> 0 < write_cap f ->
  flushes s (fst (poll_pending_write f s)) (snd (poll_pending_write f s)).
Proof.
  intros Hb Hp Hc. unfold poll_pending_write. pose proof (poll_tcp_write_all_spec (inner s) f) as Hf.
  destruct (poll_tcp_write_all (inner s) f) as [i x]. destruct Hf as (E1 & E2 & E3 & Hbr & Hf).
  assert (Hs : forall w, reads_same s (set_write_state w (set_inner i s))) by (intros; by split_and!).
  destruct x as [f'|[[u|e] v]]; (split; [apply Hs|]); unfold write_ok, writing, outstanding_in; cbn; rewrite ?Hb, ?Hp, ?app_nil_r.
  - destruct Hf as [Ec Ew]. split; [split; [done|lia]|]. split; [|done]. intros w [_ Hw]. rewrite Ew.
    split; [split; [done|lia]|]. destruct Hw; auto.
  - destruct Hf as [Ec Ew]. pose proof (emptied_ok v ltac:(lia)) as Hok. cbn in Hok.
    split; [done|]. split; [|done]. intros w [_ Hw]. split; [done|]. rewrite Ew. destruct Hw; auto.
  - destruct Hf as [Ec Ew]. pose proof (emptied_ok v ltac:(lia)) as Hok. cbn in Hok.
    split; [done|]. split; [|done]. intros w _. split; [done|by left].
Qed.

Lemma poll_flush_buffer_ok s : write_ok (write_state s) -> exists s' r, poll_flush_buffer s = Some (s', r) /\ flushes s s' r.
Proof.
  intros Hw. unfold poll_flush_buffer. destruct (WriteState.pending_write (write_state s)) as [f|] eqn:Ep; unfold write_ok in Hw; rewrite Ep in Hw.
  - destruct Hw as [Hb Hc]. pose proof (poll_pending_write_flushes f s Hb Ep Hc) as Hf. destruct (poll_pending_write f s) as [s' r]. eauto.
  - destruct Hw as (v & Ev & Hc & Hl). rewrite Ev. case_bool_decide as He.
    + exists s, (Ready (Ok tt)). split; [done|]. split; [done|]. unfold write_ok. rewrite Ep. split; [by eauto|]. split; [done|].
      split; [done|]. unfold outstanding_in. by rewrite Ep, Ev, He.
    + destruct (tcp_write_all_made v) as [E1 E2]. set (f := tcp_write_all v) in *. set (s1 := set_write_state (WriteState.Mk None (Some f)) s).
      destruct (poll_pending_write_flushes f s1) as (Hs & Hk & Hwr & Hr); [done..|lia|]. destruct (poll_pending_write f s1) as [s' r]. cbn in *.
      exists s', r. split; [done|]. split; [done|]. split; [done|]. split; [|done]. intros w [_ Hw]. apply Hwr. split; [split; [done|cbn; lia]|].
      unfold outstanding_in in *. rewrite Ep, Ev in Hw. cbn in *. by rewrite app_nil_r, E1.
Qed.

(** The parts of a write keep to this. *)
Definition writes_ok (buf : bytes) s (x : option (t * poll (res IoError Z))) : Prop :=
  exists s' r, x = Some (s', r) /\ reads_same s s' /\ (forall w, writing s w -> writing s' (w ++ put_by buf r)) /\ write_ok (write_state s') /\
    match r with Ready (Ok n) => 0 < n <= len buf | _ => True end.

Lemma flushed_writes buf s k : write_ok (write_state s) ->
  (forall s', write_ok (write_state s') -> WriteState.pending_write (write_state s') = None -> outstanding s' = [] -> writes_ok buf s' (k s')) -> writes_ok buf s (flushed s k).
Proof.
  intros Hs Hk. unfold flushed. destruct (poll_flush_buffer_ok s Hs) as (s1 & r & -> & Hrs & Hw1 & Hkeep & Hr).
  assert (Hsame : forall r0 : poll (res IoError Z), put_by buf r0 = [] -> match r0 with Ready (Ok n) => 0 < n <= len buf | _ => True end -> writes_ok buf s (Some (s1, r0))).
  { intros r0 E0 ?. exists s1, r0. split_and!; try done. intros w Hw. rewrite E0, app_nil_r. auto. }
  destruct r as [|[u|e]]; [by apply Hsame| |by apply Hsame]. destruct Hr as [Hp Ho]. destruct (Hk s1 Hw1 Hp Ho) as (s2 & r2 & -> & Hrs2 & Hw2 & Hk2 & Hr2).
  exists s2, r2. split_and!; try done; [by eapply reads_same_trans|]. auto.
Qed.

Lemma fill_writes buf s v : buf <> [] -> WriteState.pending_write (write_state s) = None -> WriteState.buffer (write_state s) = Some v -> 0 < cap v -> len (elems v) < cap v ->
  writes_ok buf s (fill buf s).
Proof.
  intros Hne Hp Hb Hc Hl. unfold fill. rewrite Hb. pose proof (len_nonneg (elems v)).
  assert (Hpos : 0 < len buf) by (destruct buf; [done|]; rewrite len_cons; pose proof (len_nonneg buf); lia).
  destruct (cap v <? len (elems v)) eqn:E; [lia|]. eexists _, _. split; [done|]. split; [done|]. set (n := Z.min _ _). assert (0 < n <= len buf) by lia.
  assert (Hok : write_ok (WriteState.Mk (Some (MkVec (elems v ++ upto n buf) (cap v))) (WriteState.pending_write (write_state s)))).
  { unfold write_ok. rewrite Hp. cbn. eexists. split; [done|]. cbn. rewrite len_app, len_upto by lia. lia. }
  split; [|by split]. intros w [_ Hw]. split; [done|]. unfold outstanding_in in *. cbn. rewrite Hp, Hb in *. cbn in *.
  destruct Hw as [?|<-]; [by left|right]. by rewrite !app_assoc.
Qed.

Lemma poll_write_ok s buf : write_ok (write_state s) -> buf <> [] -> writes_ok buf s (poll_write_ s buf).
Proof.
  intros Hs Hne. unfold poll_write_. rewrite bool_decide_eq_false_2 by done.
  assert (Hun : forall s, write_ok (write_state s) -> WriteState.pending_write (write_state s) = None ->
    writes_ok buf s match WriteState.buffer (write_state s) with
      | Some v => if len (elems v) =? cap v then flushed s (fill buf) else fill buf s
      | None => None end).
  { clear s Hs. intros s Hs Hp. pose proof Hs as Hs0. unfold write_ok in Hs. rewrite Hp in Hs. destruct Hs as (v & Ev & Hc & Hl). rewrite Ev.
    destruct (len (elems v) =? cap v) eqn:E; [|apply (fill_writes buf s v); try done; lia].
    apply flushed_writes; [done|]. intros s' Hs' Hp' Ho'. unfold write_ok in Hs'. rewrite Hp' in Hs'. destruct Hs' as (v' & Ev' & Hc' & Hl').
    unfold outstanding_in in Ho'. rewrite Hp', Ev' in Ho'. cbn in Ho'. apply (fill_writes buf s' v'); try done. rewrite Ho'. done. }
  case_bool_decide as Hp; [|apply Hun; [done|]; destruct (WriteState.pending_write _); [destruct Hp; eauto|done]].
  apply flushed_writes; [done|]. intros s' Hs' Hp' _. by apply Hun.
Qed.

(** A shutdown flushes first; it is made only when nothing is outstanding. *)
Lemma poll_shutdown_ok s : write_ok (write_state s) -> exists s' r, poll_shutdown_ s = Some (s', r) /\ reads_same s s' /\ write_ok (write_state s') /\
  (forall w, writing s w -> writing s' w) /\
  match r with
  | Ready (Ok _) => outstanding s' = [] /\ exists s1, poll_flush_buffer s = Some (s1, Ready (Ok tt)) /\ tcp_shutdown (inner s1) = (inner s', Ok tt)
  | _ => True
  end.
Proof.
  intros Hs. unfold poll_shutdown_, flushed. destruct (poll_flush_buffer_ok s Hs) as (s1 & r & E & Hrs & Hw1 & Hkeep & Hr). rewrite E.
  destruct r as [|[[]|e]]; [by eexists _, _; split_and!| |by eexists _, _; split_and!]. pose proof (tcp_shutdown_spec (inner s1)) as Hd.
  destruct (tcp_shutdown (inner s1)) as [i r] eqn:Ed. destruct Hd as (E1 & E2 & E3 & E4 & E5). eexists _, _. split; [done|]. cbn in *. split_and!.
  - eapply reads_same_trans; [done|]. by split_and!.
  - done.
  - intros w Hw. destruct (Hkeep w Hw) as [? Hw']. split; [done|]. cbn. by rewrite E4, E5.
  - destruct r as [[]|]; [|done]. destruct Hr as [_ Ho]. split; [done|]. by exists s1.
Qed.

(** ** Reading *)

Lemma unread_len r : read_ok r -> len (unread_in r) = ReadState.data_len r - ReadState.read_pos r.
Proof.
  unfold read_ok, unread_in. destruct (ReadState.pending_read r); [by intros (-> & -> & -> & _)|]. intros (v & -> & _ & Hp & Hl).
  rewrite len_upto; [done|]. rewrite len_from by lia. lia.
Qed.

(** What a read does, of [room] bytes at most. *)
Definition reads_ok (room : Z) s (x : option (t * poll (res IoError bytes))) : Prop := exists s' r, x = Some (s', r) /\ reads_some uring_view room s (s', r).

Lemma same_writing s s' : write_state s' = write_state s -> wrote (inner s') = wrote (inner s) -> broken (inner s') = broken (inner s) -> forall w, writing s w -> writing s' w.
Proof. unfold writing. intros -> -> -> w. done. Qed.

(** Without a pending read: the bytes are in the buffer. *)
Lemma copy_out_ok room s v : 0 < room -> reading s -> has_buffered_data s = true -> ReadState.buffer (read_state s) = Some v ->
  exists s' n, copy_out room s = Some (s', Ready (Ok (upto n (unread s)))) /\ 0 < n <= len (unread s) /\ n <= room /\ unread s' = from n (unread s) /\
    reading s' /\ inner s' = inner s /\ write_state s' = write_state s.
Proof.
  intros Hroom (Hr & Hb & He) Hd Ev. pose proof (unread_len _ Hr) as Hl. unfold has_buffered_data in Hd. apply Z.ltb_lt in Hd. pose proof Hr as Hr0. unfold read_ok in Hr.
  destruct (ReadState.pending_read (read_state s)) eqn:Ep; [destruct Hr as (? & ? & ? & _); congruence|]. destruct Hr as (v' & Ev' & Hc & Hp & Hlen). rewrite Ev in Ev'. injection Ev' as <-.
  unfold copy_out. rewrite Ev, Ep. set (r := read_state s) in *. set (n := Z.min _ room). destruct (len (elems v) <? ReadState.read_pos r + n) eqn:E; [lia|].
  assert (Hun : unread_in r = upto (ReadState.data_len r - ReadState.read_pos r) (from (ReadState.read_pos r) (elems v))) by (unfold unread_in; by rewrite Ev).
  eexists _, n. split; [rewrite Hun, upto_upto by lia; done|]. split; [lia|]. split; [lia|].
  assert (Hun' : upto (ReadState.data_len r - (ReadState.read_pos r + n)) (from (ReadState.read_pos r + n) (elems v)) = from n (unread_in r)).
  { rewrite Hun. rewrite <- from_from by lia. unfold upto, from. rewrite take_drop_commute. do 2 f_equal. lia. }
  split; [done|]. split; [|done]. split; [|split]; cbn.
  - exists v. split_and!; try done; cbn; lia.
  - unfold unread_in. cbn. rewrite Hun'. by apply bytes_ok_from.
  - intros Heof. destruct (He Heof) as [? E0]. rewrite E0 in Hl. change (len (@nil Z)) with 0 in Hl. lia.
Qed.

(** Bytes that came from the socket or from what was kept. *)
Lemma copied_reads room s s1 s' n news : 0 < room -> n <= room -> 0 < n <= len (unread s1) -> bytes_ok (unread s1) -> reading s' ->
  unread s1 = unread s ++ news -> unread s' = from n (unread s1) -> got (inner s') = got (inner s) ++ news -> (tcp_backlog (inner s') + length news <= tcp_backlog (inner s))%nat ->
  (forall w, writing s w -> writing s' w) -> reads_some uring_view room s (s', Ready (Ok (upto n (unread s1)))).
Proof.
  intros Hroom Hn Hl Hb Hr E1 E2 Hg Hbl Hw. pose proof (f_equal length (upto_from n (unread s1))) as El. rewrite length_app in El.
  assert (Hup : length (upto n (unread s1)) = Z.to_nat n) by (unfold upto, len in *; rewrite length_take; lia).
  assert (Hlen : length (unread s1) = (length (unread s) + length news)%nat) by (rewrite E1; apply length_app).
  unfold reads_some. cbn. rewrite E2. split; [done|]. split; [lia|]. split; [done|]. split; [by apply bytes_ok_upto|]. split; [unfold len in *; lia|].
  split; [intros _; lia|]. exists news. by rewrite upto_from, E1.
Qed.

Lemma kept_reads room s s' (r : poll (res IoError bytes)) : reading s' -> unread s' = unread s -> got (inner s') = got (inner s) ->
  (tcp_backlog (inner s') <= tcp_backlog (inner s))%nat -> (forall w, writing s w -> writing s' w) -> r = Pending \/ r = Ready (Ok []) \/ (exists e, r = Ready (Err e)) -> 0 <= room ->
  reads_some uring_view room s (s', r).
Proof.
  intros Hr Eu Eg Eb Hw Hx Hroom. unfold reads_some. cbn. rewrite Eu, Eg. split; [done|]. split; [lia|]. split; [done|].
  destruct Hx as [->|[->|[e ->]]]; try done. split_and!; [constructor|done|done|]. exists []. by rewrite !app_nil_r.
Qed.

Lemma start_read_ok s : reading s -> has_buffered_data s = false -> exists f s1, start_read s = Some (f, s1) /\ 0 < read_cap f /\ unread s = [] /\
  ReadState.pending_read (read_state s1) = Some f /\ ReadState.buffer (read_state s1) = None /\ ReadState.data_len (read_state s1) = 0 /\ ReadState.read_pos (read_state s1) = 0 /\
  ReadState.eof (read_state s1) = ReadState.eof (read_state s) /\ inner s1 = inner s /\ write_state s1 = write_state s.
Proof.
  intros (Hr & Hb & He) Hd. unfold has_buffered_data in Hd. apply Z.ltb_ge in Hd. pose proof (unread_len _ Hr) as Hl.
  assert (Hu : unread s = []). { destruct (unread s) as [|x l] eqn:E; [done|]. rewrite len_cons in Hl. pose proof (len_nonneg l). lia. }
  unfold start_read. unfold read_ok in Hr. destruct (ReadState.pending_read (read_state s)) as [f|] eqn:Ep.
  - destruct Hr as (? & ? & ? & ?). exists f, s. by split_and!.
  - destruct Hr as (v & Ev & Hc & _). rewrite Ev. eexists _, _. split; [done|]. rewrite tcp_read_made. by split_and!.
Qed.

(** A poll of a stream with nothing buffered: it starts a read or goes on with the one that is pending, and hands out what that has read. *)
Lemma poll_read_ok room s : 0 <= room -> reading s -> reads_ok room s (poll_read_ room s).
Proof.
  intros Hroom0 Hs. unfold poll_read_.
  destruct (decide (room = 0)) as [->|Hne]; [eexists _, _; split; [done|]; apply kept_reads; auto|]. assert (Hroom : 0 < room) by lia.
  destruct ((room =? 0) || ReadState.eof (read_state s)) eqn:Ee; [eexists _, _; split; [done|]; apply kept_reads; auto|].
  apply orb_false_iff in Ee as [_ Ee]. cbn [read_loop]. destruct (has_buffered_data s) eqn:Hd.
  - assert (exists v, ReadState.buffer (read_state s) = Some v) as [v Ev].
    { destruct Hs as (Hr & _). unfold has_buffered_data in Hd. apply Z.ltb_lt in Hd. unfold read_ok in Hr. destruct (ReadState.pending_read _); [lia|]. destruct Hr as (v & ? & _). eauto. }
    destruct (copy_out_ok room s v Hroom Hs Hd Ev) as (s' & n & -> & Hn & Hnr & Hu & Hs' & Ei & Ew). eexists _, _. split; [done|].
    apply (copied_reads room s s s' n []); try done; rewrite ?app_nil_r, ?Ei; try done; [by destruct Hs as (_ & ? & _)|cbn; lia|]. apply same_writing; congruence.
  - destruct (start_read_ok s Hs Hd) as (f & s1 & -> & Hc & Hu & Ep & Eb & Edl & Epos & Eeof & Ei & Ew). pose proof (poll_tcp_read_spec (inner s1) f) as Hf.
    destruct (poll_tcp_read (inner s1) f) as [i x]. destruct Hf as (E1 & E2 & Hend & Hbl & Hf). rewrite Ei in *. destruct s1 as [i1 r1 w1]. cbn in Ei, Ew, Ep, Eb, Edl, Epos, Eeof. subst i1 w1.
    assert (Hwr : forall r w, writing s w -> writing (Mk i r (write_state s)) w) by (intros r; by apply same_writing).
    destruct x as [f'|[[n|e] v]]; cbn [set_inner set_read_state read_state inner write_state]; rewrite ?Edl, ?Epos, ?Eb, ?Eeof, ?Ee.
    + destruct Hf as [Eg Ec]. eexists _, _. split; [done|]. apply kept_reads; auto; [|apply Hwr]. split; [|by split; [constructor|]]. cbn. split_and!; try done. lia.
    + destruct Hf as (Ec & Hn & Hok & Eg & Hbl' & Hz). destruct (n =? 0) eqn:En.
      * apply Z.eqb_eq in En as ->. rewrite upto_0, app_nil_r in Eg.
        eexists _, _. split; [done|]. apply kept_reads; try done; [|apply Hwr|auto].
        split; [|split; [constructor|auto]]. exists v. cbn. split_and!; try done; lia.
      * set (s2 := set_read_state _ _). assert (Hu2 : unread s2 = upto n (elems v)). { unfold s2, unread_in. cbn [read_state set_read_state ReadState.buffer ReadState.data_len ReadState.read_pos]. by rewrite Z.sub_0_r, from_0. }
        assert (Hs2 : reading s2). { split; [exists v; cbn; split_and!; try done; lia|]. rewrite Hu2. by split. }
        assert (Hd2 : has_buffered_data s2 = true) by (unfold has_buffered_data; cbn; lia). cbn [read_loop]. rewrite Hd2.
        destruct (copy_out_ok room s2 v Hroom Hs2 Hd2 eq_refl) as (s' & m & -> & Hm & Hmr & Hu' & Hs' & Ei & Ew). eexists _, _. split; [done|].
        apply (copied_reads room s s2 s' m (upto n (elems v))); try done; rewrite ?Hu2, ?Hu, ?Ei; try done.
        -- unfold upto, len in *. rewrite length_take. cbn. lia.
        -- intros w Hw. eapply same_writing; [exact Ew|by rewrite Ei..|]. by apply Hwr.
    + destruct Hf as (Ec & Eg).
      eexists _, _. split; [done|]. apply kept_reads; try done; [|apply Hwr|eauto].
      split; [|by split; [constructor|]]. exists v. cbn. split_and!; try done; [lia|apply len_nonneg].
Qed.

(** ** A transport stream *)

(** Whatever the state: what only writes leaves the reading side as it is. *)
Lemma flush_same s s' r : poll_flush_buffer s = Some (s', r) -> reads_same s s'.
Proof.
  assert (Hp : forall f s, reads_same s (fst (poll_pending_write f s))).
  { clear. intros f s. unfold poll_pending_write. pose proof (poll_tcp_write_all_spec (inner s) f) as Hf. destruct (poll_tcp_write_all (inner s) f) as [i x].
    destruct Hf as (? & ? & ? & _). by destruct x as [|[]]; split_and!. }
  unfold poll_flush_buffer. destruct (WriteState.pending_write _) as [f|]; [intros [= E]; pose proof (Hp f s); by rewrite E in *|].
  destruct (WriteState.buffer _) as [v|]; [|done]. case_bool_decide; intros [= E]; [by subst|].
  match type of E with poll_pending_write ?f ?s1 = _ => pose proof (Hp f s1) as Hs end. by rewrite E in Hs.
Qed.

Definition writes_within (buf : bytes) s (x : option (t * poll (res IoError Z))) : Prop :=
  forall s' r, x = Some (s', r) -> reads_same s s' /\ match r with Ready (Ok n) => 0 <= n <= len buf | _ => True end.

Lemma flushed_within buf s k : (forall s', writes_within buf s' (k s')) -> writes_within buf s (flushed s k).
Proof.
  intros Hk s' r. unfold flushed. destruct (poll_flush_buffer s) as [[s1 [|[u|e]]]|] eqn:E; try done; apply flush_same in E; [by intros [= <- <-]| |by intros [= <- <-]].
  intros Ek. destruct (Hk s1 s' r Ek) as [? ?]. split; [by eapply reads_same_trans|done].
Qed.

Lemma poll_write_within s buf : writes_within buf s (poll_write_ s buf).
Proof.
  pose proof (len_nonneg buf). unfold poll_write_. case_bool_decide; [intros s' r [= <- <-]; by split|].
  assert (Hf : forall s, writes_within buf s (fill buf s)).
  { clear s. intros s s' r. unfold fill. destruct (WriteState.buffer _) as [v|]; [|done]. destruct (cap v <? len (elems v)) eqn:E; [done|]. intros [= <- <-]. split; [done|lia]. }
  case_bool_decide; [apply flushed_within; intros s1|]; (destruct (WriteState.buffer _) as [v|]; [|done]); (destruct (_ =? _); [by apply flushed_within|apply Hf]).
Qed.

Lemma uring_write_some s buf : writes_some uring_view s buf (a_poll_write s buf).
Proof.
  cbn. unfold or_stay. pose proof (poll_write_within s buf) as Hin. destruct (poll_write_ s buf) as [[s' r]|] eqn:E.
  - destruct (Hin s' r eq_refl) as [Hs Hn]. split; [by apply reads_same_not_read|]. split; [|done]. intros w Hw. destruct (decide (buf = [])) as [->|Hne].
    + unfold poll_write_ in E. rewrite bool_decide_eq_true_2 in E by done. injection E as <- <-. cbn. by rewrite app_nil_r.
    + destruct (poll_write_ok s buf (proj1 Hw) Hne) as (s2 & r2 & E2 & _ & Hk & _). rewrite E in E2. injection E2 as <- <-. by apply Hk.
  - split; [by apply reads_same_not_read|]. split; [|done]. intros w. cbn. by rewrite app_nil_r.
Qed.

Lemma ends_or_stay s (x : option (t * poll (res IoError unit))) : (forall s' r, x = Some (s', r) -> reads_same s s') ->
  (write_ok (write_state s) -> forall s' r, x = Some (s', r) -> forall w, writing s w -> writing s' w) -> ends_some uring_view s (or_stay x s).
Proof.
  intros Hr Hw. destruct x as [[s' r]|]; split; cbn; try (by apply reads_same_not_read); [by eapply reads_same_not_read, Hr|by intros w Hw'; eapply Hw; [apply Hw'|..]|done].
Qed.

#[global] Instance uring_spec : AsyncStreamSpec t.
Proof.
  refine {| view := uring_view |}; cbn.
  - by intros s (_ & ? & _).
  - apply uring_write_some.
  - intros s bs. apply default_vectored_some, uring_write_some.
  - intros room s Hroom Hs. unfold or_stay. destruct (poll_read_ok room s ltac:(lia) Hs) as (s' & r & -> & Hr). exact Hr.
  - intros s. apply ends_or_stay; [intros s' r; apply flush_same|]. intros Hs s' r E. destruct (poll_flush_buffer_ok s Hs) as (s2 & r2 & E2 & _ & _ & Hk & _). rewrite E in E2. injection E2 as <- <-. exact Hk.
  - intros s. apply ends_or_stay.
    + intros s' r. unfold poll_shutdown_, flushed. destruct (poll_flush_buffer s) as [[s1 [|[u|e]]]|] eqn:E; try done; apply flush_same in E; [by intros [= <- <-]| |by intros [= <- <-]].
      pose proof (tcp_shutdown_spec (inner s1)) as Hd. destruct (tcp_shutdown (inner s1)) as [i x]. destruct Hd as (? & ? & ? & _). intros [= <- <-]. by eapply reads_same_trans; [done|]; split_and!.
    + intros Hs s' r E. destruct (poll_shutdown_ok s Hs) as (s2 & r2 & E2 & _ & _ & Hk & _). rewrite E in E2. injection E2 as <- <-. exact Hk.
Defined.
End Spec.
