(* ===== verification/UringTheorems.v ===== *)
(** * Streams over io_uring: what they do with the bytes

    A [UringStream] under any use: the polls of tokio's traits, the native operations and those of the adapter, in any order.  And the message stream over it. *)

From stdpp Require Import base list option strings.
From S2P Require Import Prelude Error Mask Utf8 Frame FrameSpec Protocol ReceiveSpec ProtocolSpec ProtocolProps NextSpec Heartbeat Cork Output Stream Deflate Config WebSocket Scripted StreamSpec StreamProps.
From S2P Require Import HttpStream HttpStreamSpec HttpTheorems Uring UringSpec.
Import UringStream.

(** ** Runs *)

Section Runs.
Context {T RF WF SF : Type} `{UringTcpSpec T RF WF SF}.
Abbreviation t := (t T RF WF).
Implicit Types s : t.

(** A native operation that has not completed; of a [write] the bytes it was given. *)
Inductive Native := NRead (x : NativeRead RF) | NWrite (data : bytes) (x : NativeWrite SF) | NWriteAll (x : NativeWrite WF).

Inductive UringCall := Read (room : Z) | Write (buf : bytes) | Flush | Shutdown | Consume (amt : Z) | StartRead (buf : Vec) | StartWrite (buf : Vec) | StartWriteAll (buf : Vec) | PollNative.

(** The bytes handed to the caller and those taken from it. *)
Record UringRun := MkUringRun { run_stream : t; run_returned : bytes; run_taken : bytes; run_native : option Native }.

Definition got_by (r : poll (res IoError bytes)) : bytes := match r with Ready (Ok data) => data | _ => [] end.

(** A poll of the native operation [x] of a stream that has returned [ret] and taken [acc]. *)
Definition native_step s (ret acc : bytes) (x : Native) : option UringRun :=
  match x with
  | NRead x =>
      match poll_read_native s x with
      | None => None
      | Some (s, inl x) => Some (MkUringRun s ret acc (Some (NRead x)))
      | Some (s, inr (Ok n, v)) => Some (MkUringRun s (ret ++ upto n (elems v)) acc None)
      | Some (s, inr (Err _, _)) => Some (MkUringRun s ret acc None)
      end
  | NWrite data x =>
      match write_native s x with
      | None => None
      | Some (s, inl x) => Some (MkUringRun s ret acc (Some (NWrite data x)))
      | Some (s, inr (Ok n, _)) => Some (MkUringRun s ret (acc ++ upto n data) None)
      | Some (s, inr (Err _, _)) => Some (MkUringRun s ret acc None)
      end
  | NWriteAll x =>
      match write_all_native s x with
      | None => None
      | Some (s, inl x) => Some (MkUringRun s ret acc (Some (NWriteAll x)))
      | Some (s, inr _) => Some (MkUringRun s ret acc None)
      end
  end.

(** A native operation has the stream to itself until it completes. *)
Definition uring_call (x : UringRun) (c : UringCall) : option UringRun :=
  let '(MkUringRun s ret acc n) := x in
  match n, c with
  | Some n, PollNative => native_step s ret acc n
  | Some _, _ | None, PollNative => Some x
  | None, Read room => match poll_read_ room s with Some (s, r) => Some (MkUringRun s (ret ++ got_by r) acc None) | None => None end
  | None, Write buf => match poll_write_ s buf with Some (s, r) => Some (MkUringRun s ret (acc ++ put_by buf r) None) | None => None end
  | None, Flush => match poll_flush_buffer s with Some (s, _) => Some (MkUringRun s ret acc None) | None => None end
  | None, Shutdown => match poll_shutdown_ s with Some (s, _) => Some (MkUringRun s ret acc None) | None => None end
  | None, Consume amt => match buffered_data s with Some b => Some (MkUringRun (consume amt s) (ret ++ upto amt b) acc None) | None => None end
  | None, StartRead buf => Some (MkUringRun s ret acc (Some (NRead (read_native s buf))))
  | None, StartWrite buf => Some (MkUringRun s ret acc (Some (NWrite (elems buf) (FlushFirst buf))))
  | None, StartWriteAll buf => Some (MkUringRun s ret (acc ++ elems buf) (Some (NWriteAll (FlushFirst buf))))
  end.

Fixpoint uring_calls (x : UringRun) (calls : list UringCall) : option UringRun :=
  match calls with [] => Some x | c :: calls => match uring_call x c with Some x => uring_calls x calls | None => None end end.
Definition uring_run (capacity : Z) (stream : T) : list UringCall -> option UringRun := uring_calls (MkUringRun (new capacity stream) [] [] None).

(** Lengths are not negative. *)
Definition call_ok (c : UringCall) : Prop := match c with Read n | Consume n => 0 <= n | StartRead v => 0 <= cap v | _ => True end.

(** ** The invariant of a run *)

(** What a native operation has still to write. *)
Definition native_unsent (n : option Native) : bytes :=
  match n with Some (NWriteAll (FlushFirst buf)) => elems buf | Some (NWriteAll (DirectWrite f)) => unsent f | _ => [] end.

(** A direct operation is under way only when the stream has nothing of its own to hand out or to write. *)
Definition native_ok s (n : option Native) : Prop :=
  match n with
  | Some (NRead (BridgeRead v)) => 0 <= cap v
  | Some (NRead (DirectRead f)) => unread_in (read_state s) = []
  | Some (NWrite data (FlushFirst v)) => elems v = data
  | Some (NWrite data (DirectWrite f)) => offered f = data /\ outstanding_in (write_state s) = []
  | Some (NWriteAll (DirectWrite f)) => outstanding_in (write_state s) = []
  | _ => True
  end.

Definition wrote_all (i : T) (out taken : bytes) : Prop := broken i = true \/ wrote i ++ out = taken.

Record run_ok (i0 : T) (x : UringRun) : Prop := MkRunOk {
  ok_reading : reading (run_stream x);
  ok_read : got (inner (run_stream x)) = got i0 ++ run_returned x ++ unread_in (read_state (run_stream x));
  ok_writing : write_ok (write_state (run_stream x));
  ok_wrote : wrote_all (inner (run_stream x)) (outstanding_in (write_state (run_stream x)) ++ native_unsent (run_native x)) (wrote i0 ++ run_taken x);
  ok_native : native_ok (run_stream x) (run_native x)
}.

(** A step that only reads. *)
Lemma reads_step i0 room s ret acc n n' s' r : run_ok i0 (MkUringRun s ret acc n) -> reads_some uring_view room s (s', r) ->
  native_unsent n = [] -> native_unsent n' = [] -> native_ok s' n' -> run_ok i0 (MkUringRun s' (ret ++ got_by r) acc n').
Proof.
  intros [Hr Eg Hw Hwr _] (Hr' & _ & Hk & Hx) E0 E1 Hn. cbn in *. rewrite E0, app_nil_r in Hwr. destruct (Hk _ (conj Hw Hwr)) as [Hw' Hwr']. split; cbn; [done| |done|by rewrite E1, app_nil_r|done].
  destruct r as [|[data|e]]; cbn; rewrite ?app_nil_r; [by destruct Hx as [-> ->]| |by destruct Hx as [-> ->]].
  destruct Hx as (_ & _ & _ & news & -> & E). by rewrite Eg, <- !app_assoc, E.
Qed.

(** A step that only writes, and in which the native operation writes nothing. *)
Lemma writes_step i0 s ret acc n n' s' out : run_ok i0 (MkUringRun s ret acc n) -> reads_same s s' -> write_ok (write_state s') ->
  (forall w, writing s w -> writing s' (w ++ out)) -> native_unsent n = [] -> native_unsent n' = [] -> native_ok s' n' -> run_ok i0 (MkUringRun s' ret (acc ++ out) n').
Proof.
  intros [Hr Eg Hw Hwr _] Hs Hw' Hk E0 E1 Hn. cbn in *. rewrite E0, app_nil_r in Hwr. destruct (Hk _ (conj Hw Hwr)) as [_ Hwr'].
  pose proof (reads_same_reading _ _ Hs Hr). destruct Hs as (E2 & E3 & _). split; cbn; rewrite ?E1, ?app_nil_r, ?app_assoc; try done. by rewrite E2, E3, Eg, app_assoc.
Qed.

Lemma writes_step_0 i0 s ret acc n n' s' : run_ok i0 (MkUringRun s ret acc n) -> reads_same s s' -> write_ok (write_state s') ->
  (forall w, writing s w -> writing s' w) -> native_unsent n = [] -> native_unsent n' = [] -> native_ok s' n' -> run_ok i0 (MkUringRun s' ret acc n').
Proof. intros. rewrite <- (app_nil_r acc). eapply writes_step; try done. intros w. rewrite app_nil_r. auto. Qed.

Lemma buffered_ok s : reading s -> buffered_data s = Some (unread_in (read_state s)).
Proof.
  intros (Hr & _). unfold buffered_data, unread_in. unfold read_ok in Hr. destruct (ReadState.pending_read (read_state s)); [by destruct Hr as (-> & _)|].
  destruct Hr as (v & -> & _ & Hp & Hl). rewrite (proj2 (andb_true_iff _ _)); [done|]. split; lia.
Qed.

Lemma consume_step i0 s ret acc amt : 0 <= amt -> run_ok i0 (MkUringRun s ret acc None) ->
  run_ok i0 (MkUringRun (consume amt s) (ret ++ upto amt (unread_in (read_state s))) acc None).
Proof.
  intros Ha [(Hr & Hb & He) Eg Hw Hwr _]. cbn in *. pose proof (unread_len _ Hr) as Hl. pose proof (len_nonneg (unread_in (read_state s))).
  assert (Eu : unread_in (read_state (consume amt s)) = from amt (unread_in (read_state s))).
  { unfold unread_in, consume. cbn. unfold read_ok in Hr. destruct (ReadState.pending_read (read_state s)); [destruct Hr as (-> & _); symmetry; apply drop_nil|].
    destruct Hr as (v & -> & _ & Hp & Hlen). set (p := ReadState.read_pos _) in *. set (d := ReadState.data_len _) in *.
    destruct (Z.min_spec amt (d - p)) as [[? ->]|[? ->]].
    - rewrite <- from_from by lia. unfold upto, from. rewrite take_drop_commute. do 2 f_equal. lia.
    - rewrite (from_ge amt); [replace (d - (p + (d - p))) with 0 by lia; apply upto_0|]. rewrite len_upto; [lia|rewrite len_from; lia]. }
  split; [|..]; cbn [run_stream run_returned run_taken run_native]; try done.
  - split; [|rewrite Eu; split; [by apply bytes_ok_from|]].
    + unfold read_ok, consume in *. cbn. destruct (ReadState.pending_read (read_state s)); [destruct Hr as (? & -> & -> & ?); split_and!; try done; lia|].
      destruct Hr as (v & Ev & Hc & Hp & Hlen). exists v. split_and!; try done; lia.
    + cbn. intros Heof. destruct (He Heof) as [? ->]. split; [done|]. apply drop_nil.
  - rewrite Eu, <- app_assoc, upto_from. exact Eg.
Qed.

(** ** Native operations *)

Lemma native_read_step i0 s ret acc x : run_ok i0 (MkUringRun s ret acc (Some (NRead x))) -> exists y, native_step s ret acc (NRead x) = Some y /\ run_ok i0 y.
Proof.
  intros Hok. pose proof (ok_reading _ _ Hok) as Hr. pose proof (ok_native _ _ Hok) as Hn. cbn in Hr, Hn |- *. destruct x as [v|f]; cbn.
  - destruct (poll_read_ok (cap v) s Hn Hr) as (s' & r & -> & Hs). destruct r as [|[data|e]]; (eexists; split; [done|]).
    + rewrite <- (app_nil_r ret). by apply (reads_step i0 (cap v) s ret acc (Some (NRead (BridgeRead v))) (Some (NRead (BridgeRead v))) s' Pending).
    + unfold filled_vec. cbn [elems]. rewrite upto_app_exact. by apply (reads_step i0 (cap v) s ret acc (Some (NRead (BridgeRead v))) None s' (Ready (Ok data))).
    + rewrite <- (app_nil_r ret). by apply (reads_step i0 (cap v) s ret acc (Some (NRead (BridgeRead v))) None s' (Ready (Err e))).
  - destruct Hok as [(Hro & Hb & He) Eg Hw Hwr _]. cbn in *. pose proof (poll_tcp_read_spec (inner s) f) as Hf. destruct (poll_tcp_read (inner s) f) as [i x].
    destruct Hf as (E1 & E2 & Hend & _ & Hf).
    assert (Hout : wrote_all i (outstanding_in (write_state s) ++ []) (wrote i0 ++ acc)) by (unfold wrote_all in *; by rewrite E1, E2).
    assert (Hrd : reading (set_inner i s)) by (split; [done|]; split; [done|]; cbn; intros Heof; destruct (He Heof); auto).
    destruct x as [f'|[[n|e] v]]; (eexists; split; [done|]); split; cbn; try done; try (destruct Hf as (? & ->); rewrite ?Eg; done).
    + by destruct Hf as [-> _].
    + destruct Hf as (_ & _ & _ & -> & _). rewrite Eg, Hn, !app_nil_r. by rewrite app_assoc.
Qed.

(** The end of a native operation that has written all it had to write, or has failed. *)
Lemma native_ends i0 s ret acc n : run_ok i0 (MkUringRun s ret acc n) -> broken (inner s) = true \/ native_unsent n = [] -> run_ok i0 (MkUringRun s ret acc None).
Proof.
  intros [Hr Eg Hw Hwr _] Hn. cbn in *. split; cbn; try done. unfold wrote_all in *. destruct Hn as [|E]; [by left|]. by rewrite E in Hwr.
Qed.

(** The flush before a native write. *)
Lemma native_flush i0 s ret acc n : run_ok i0 (MkUringRun s ret acc n) -> (forall s', native_ok s' n) ->
  exists s' r, poll_flush_buffer s = Some (s', r) /\ run_ok i0 (MkUringRun s' ret acc n) /\
    match r with Pending => True | Ready (Ok _) => outstanding_in (write_state s') = [] | Ready (Err _) => broken (inner s') = true end.
Proof.
  intros [Hr Eg Hw Hwr _] Hn. cbn in *. destruct (poll_flush_buffer_ok s Hw) as (s' & r & E & Hs & Hw' & Hk & Hx). exists s', r. split; [done|].
  pose proof (reads_same_reading _ _ Hs Hr). destruct Hs as (E1 & E2 & _).
  split; [|destruct r as [|[u|e]]; [done|by destruct Hx|by destruct Hx as (_ & _ & ?)]].
  split; cbn; rewrite ?E1, ?E2; try done. unfold wrote_all in *.
  destruct (Hk (wrote (inner s) ++ outstanding_in (write_state s))) as [_ Hk']; [split; [done|by right]|]. 
  destruct (broken (inner s')) eqn:Eb; [by left|]. right. destruct Hk' as [?|Hk']; [congruence|]. rewrite app_assoc, Hk', <- app_assoc.
  destruct Hwr as [Hbr|]; [|done]. destruct (Hk [] (conj Hw (or_introl Hbr))) as [_ [?|Hx1]]; [congruence|].
  destruct (Hk [0] (conj Hw (or_introl Hbr))) as [_ [?|Hx2]]; [congruence|]. congruence.
Qed.

Lemma direct_write_step i0 s ret acc data f : run_ok i0 (MkUringRun s ret acc (Some (NWrite data (DirectWrite f)))) ->
  exists y, native_step s ret acc (NWrite data (DirectWrite f)) = Some y /\ run_ok i0 y.
Proof.
  intros [Hr Eg Hw Hwr [Hd Ho]]. cbn in *. pose proof (poll_tcp_write_spec (inner s) f) as Hf. destruct (poll_tcp_write (inner s) f) as [i x].
  destruct Hf as (E1 & E2 & E3 & Hb & Hf). rewrite Ho in Hwr.
  assert (Hrd : reading (set_inner i s)) by (apply (reads_same_reading s); [by split_and!|exact Hr]).
  unfold wrote_all in *. destruct x as [f'|[[n|e] v]]; (eexists; split; [done|]); split; cbn; rewrite ?E1, ?Ho; try done; unfold wrote_all; cbn.
  - destruct Hf as [_ ->]. destruct Hwr; auto.
  - destruct Hf as [-> _]. done.
  - destruct Hf as [_ ->]. rewrite app_nil_r in *. rewrite app_assoc. destruct Hwr as [|<-]; [auto|]. right. by rewrite Hd.
  - rewrite Hf. destruct Hwr; auto.
Qed.

Lemma direct_write_all_step i0 s ret acc f : run_ok i0 (MkUringRun s ret acc (Some (NWriteAll (DirectWrite f)))) ->
  exists y, native_step s ret acc (NWriteAll (DirectWrite f)) = Some y /\ run_ok i0 y.
Proof.
  intros [Hr Eg Hw Hwr Ho]. cbn in *. pose proof (poll_tcp_write_all_spec (inner s) f) as Hf. destruct (poll_tcp_write_all (inner s) f) as [i x].
  destruct Hf as (E1 & E2 & E3 & Hb & Hf). rewrite Ho in Hwr.
  assert (Hrd : reading (set_inner i s)) by (apply (reads_same_reading s); [by split_and!|exact Hr]).
  unfold wrote_all in *. destruct x as [f'|[[n|e] v]]; (eexists; split; [done|]); split; cbn; rewrite ?E1, ?Ho; try done; unfold wrote_all; cbn in *.
  - destruct Hf as [_ ->]. destruct Hwr; auto.
  - destruct Hf as [_ ->]. rewrite app_nil_r in *. destruct Hwr; auto.
  - destruct Hf. by left.
Qed.

Lemma native_write_step i0 s ret acc n : run_ok i0 (MkUringRun s ret acc (Some n)) -> exists y, native_step s ret acc n = Some y /\ run_ok i0 y.
Proof.
  destruct n as [x|data [v|f]|[v|f]]; [apply native_read_step| |apply direct_write_step| |apply direct_write_all_step]; intros Hok.
  - pose proof (ok_native _ _ Hok) as Hd. cbn in Hd. destruct (native_flush _ _ _ _ _ Hok ltac:(done)) as (s' & r & E & Hok' & Hr). cbn. rewrite E. destruct r as [|[u|e]].
    + eexists. split; [done|]. exact Hok'.
    + apply (direct_write_step i0 s' ret acc data (tcp_write v)). destruct Hok' as [? ? ? ? _]. split; try done. cbn. by rewrite tcp_write_made.
    + eexists. split; [done|]. eapply native_ends; [exact Hok'|by left].
  - destruct (native_flush _ _ _ _ _ Hok ltac:(done)) as (s' & r & E & Hok' & Hr). cbn. rewrite E. destruct r as [|[u|e]].
    + eexists. split; [done|]. exact Hok'.
    + apply (direct_write_all_step i0 s' ret acc (tcp_write_all v)). destruct Hok' as [? ? ? ? _]. split; try done. cbn in *. by destruct (tcp_write_all_made v) as [-> _].
    + eexists. split; [done|]. eapply native_ends; [exact Hok'|by left].
Qed.

(** ** Every call *)

Lemma uring_call_ok i0 x c : call_ok c -> run_ok i0 x -> exists y, uring_call x c = Some y /\ run_ok i0 y.
Proof.
  destruct x as [s ret acc [n|]]; intros Hc Hok; [destruct c; try (eexists; split; [done|]; exact Hok); by apply native_write_step|].
  pose proof (ok_reading _ _ Hok) as Hr. pose proof (ok_writing _ _ Hok) as Hw. cbn in Hr, Hw. destruct c as [room|buf| | |amt|v|v|v|]; cbn in Hc |- *.
  - destruct (poll_read_ok room s Hc Hr) as (s' & r & -> & Hs). eexists. split; [done|]. by eapply reads_step.
  - destruct (decide (buf = [])) as [->|Hne].
    + unfold poll_write_. rewrite bool_decide_eq_true_2 by done. eexists. split; [done|]. cbn. by rewrite app_nil_r.
    + destruct (poll_write_ok s buf Hw Hne) as (s' & r & -> & Hs & Hk & Hw' & _). eexists. split; [done|]. by eapply writes_step.
  - destruct (poll_flush_buffer_ok s Hw) as (s' & r & -> & Hs & Hw' & Hk & _). eexists. split; [done|]. by eapply writes_step_0.
  - destruct (poll_shutdown_ok s Hw) as (s' & r & -> & Hs & Hw' & Hk & _). eexists. split; [done|]. by eapply writes_step_0.
  - rewrite buffered_ok by done. eexists. split; [done|]. by apply consume_step.
  - eexists. split; [done|]. destruct Hok as [? ? ? ? _]. split; try done. cbn. unfold read_native. destruct (has_buffered_data s) eqn:Hd; [done|]. cbn. destruct (_ || _) eqn:E; [done|].
    destruct (start_read_ok s Hr Hd) as (_ & _ & _ & _ & Hu & _). exact Hu.
  - eexists. split; [done|]. by destruct Hok as [? ? ? ? _].
  - eexists. split; [done|]. destruct Hok as [? ? ? Hwr _]. split; try done. cbn in *. rewrite app_nil_r in Hwr. unfold wrote_all in *. rewrite !app_assoc. destruct Hwr as [|Hwr]; [by left|right]. by rewrite Hwr.
  - eexists. split; [done|]. exact Hok.
Qed.

Lemma uring_calls_ok i0 calls : Forall call_ok calls -> forall x, run_ok i0 x -> exists y, uring_calls x calls = Some y /\ run_ok i0 y.
Proof.
  induction 1 as [|c calls Hc _ IH]; intros x Hx; cbn; [by eauto|]. destruct (uring_call_ok i0 x c Hc Hx) as (y & -> & Hy). by apply IH.
Qed.

(** [C15] A stream over io_uring under any sequence of polls, native operations and uses of the adapter, over a socket that completes operations
    whenever it likes.  None of them panics.  The bytes handed out, followed by those still buffered, are the bytes of the completed reads, each once and in
    order, also where polls and native reads alternate; the end of the stream is taken only from the socket.  Unless a write has failed, the bytes the socket has
    taken, followed by those outstanding, are the bytes accepted, in order.  A write accepts at least a byte, a flush that has completed leaves nothing
    outstanding, and a shutdown reaches the socket only after such a flush. *)
Theorem uring_stream_exact capacity i0 calls : 0 < capacity -> Forall call_ok calls -> exists x, uring_run capacity i0 calls = Some x /\ let s := run_stream x in
  got (inner s) = got i0 ++ run_returned x ++ unread_in (read_state s) /\ buffered_data s = Some (unread_in (read_state s)) /\
  (ReadState.eof (read_state s) = true -> at_end (inner s) = true /\ unread_in (read_state s) = []) /\
  (broken (inner s) = true \/ wrote (inner s) ++ outstanding_in (write_state s) ++ native_unsent (run_native x) = wrote i0 ++ run_taken x) /\
  (forall buf, buf <> [] -> exists s' r, poll_write_ s buf = Some (s', r) /\ match r with Ready (Ok n) => 0 < n <= len buf | _ => True end) /\
  (exists s' r, poll_flush_buffer s = Some (s', r) /\
    match r with Pending => True | Ready (Ok _) => outstanding_in (write_state s') = [] | Ready (Err _) => outstanding_in (write_state s') = [] /\ broken (inner s') = true end) /\
  (exists s' r, poll_shutdown_ s = Some (s', r) /\
    match r with
    | Ready (Ok _) => outstanding_in (write_state s') = [] /\ exists s1, poll_flush_buffer s = Some (s1, Ready (Ok tt)) /\ tcp_shutdown (inner s1) = (inner s', Ok tt)
    | _ => True
    end).
Proof.
  intros Hc Hcalls. destruct (new_ok capacity i0 Hc) as (Hr0 & Hu0 & [Hw0 Hw1] & Ho0).
  destruct (uring_calls_ok i0 calls Hcalls (MkUringRun (new capacity i0) [] [] None)) as (x & E & [Hr Eg Hw Hwr Hn]).
  { split; cbn [run_stream run_returned run_taken run_native]; [done|rewrite Hu0; cbn; by rewrite app_nil_r|done| |done]. by rewrite !app_nil_r. }
  exists x. split; [exact E|]. cbv zeta. split; [done|]. split; [by apply buffered_ok|]. split; [apply Hr|]. split; [done|]. split_and!.
  - intros buf Hne. destruct (poll_write_ok _ buf Hw Hne) as (s' & r & E' & _ & _ & _ & Hb). eauto.
  - destruct (poll_flush_buffer_ok _ Hw) as (s' & r & E' & _ & _ & _ & Hb). exists s', r. split; [done|]. destruct r as [|[u|e]]; tauto.
  - destruct (poll_shutdown_ok _ Hw) as (s' & r & E' & _ & _ & _ & Hb). eauto.
Qed.
End Runs.

(** ** The message stream over io_uring *)

(** A message stream over a stream over io_uring, however it is used: [poll_next] returns without a panic, and the messages it has returned are the first
    messages of the reference receiver on the bytes of the completed reads, whatever their lengths.  Of those bytes only the ones in the stream's buffer have not been
    read, and unless a write has failed the bytes the message stream counts as written are those the socket has taken, followed by those outstanding. *)
Theorem stream_over_uring {SU : Simdutf8} {SUok : Simdutf8Spec} (arch : Arch) (slice_addr : bytes -> Z) (role : Role) (c : Config.t) (leftover : option bytes)
    {B T RF WF SF : Type} `{RuntimeSpec B} `{Rooms} `{UringTcpSpec T RF WF SF} D s (i : Over (t T RF WF) B) fuel task :
  arch_ok arch -> bytes_ok (default [] leftover) -> reachable (T := Over (t T RF WF) B) arch slice_addr role c leftover D s i -> enough fuel i ->
  let reference raw := fst (ref_run (ref_frame (Config.max_message_size c) (Config.validate_text_utf8 c)) (initial_policy role (Config.max_frame_size c)) None (default [] leftover ++ raw)) in
  exists s' i' r, WebSocketStream.poll_next (T := Over (t T RF WF) B) arch slice_addr fuel task (s, i) = Done (s', i') (Ok r) /\ let u := stream_of i' in
    got (inner u) = taken i' ++ unread_in (read_state u) /\ (ReadState.eof (read_state u) = true -> at_end (inner u) = true) /\
    (broken (inner u) = true \/ wrote (inner u) ++ outstanding_in (write_state u) = accepted i') /\
    (exists rest, reference (got (inner u)) = D ++ delivered r ++ rest) /\
    (r = Pending -> WebSocketStream.closing_deadline s' = None -> reference (taken i') = D).
Proof.
  intros Harch Hleft Hr Hf. cbv zeta.
  destruct (over_delivers arch slice_addr Harch role c leftover Hleft D s i fuel task Hr Hf) as (s' & i' & r & E & (Hg & Hs & Hp) & Hpre & Hall).
  exists s', i', r. split; [done|]. split; [exact Hs|]. split; [intros He; by apply Hg|]. split; [exact (proj2 Hp)|]. split; [exact Hpre|exact Hall].
Qed.

(** ** A concrete socket *)

(** Segments that arrive, of which a read takes one at its second poll; a [write_all] writes a byte at each poll and fails when [credit] is used up; a [write] writes two bytes
    at most. *)
Record Sock := MkSock { segments : list bytes; sock_got : bytes; sock_end : bool; sock_wrote : bytes; sock_broken : bool; credit : nat; sock_shut : bool }.

Definition segments_size (l : list bytes) : nat := sum_list (length <$> l).

Definition sock_read (k : Sock) (v : Vec) : Sock * (res IoError Z * Vec) :=
  let data := map (wrap 8) (match segments k with b :: _ => b | [] => [] end) in
  let n := Z.max 0 (Z.min (cap v) (len data)) in
  (MkSock (match segments k with [] => [] | _ :: rest => if (n <? len data)%Z then from n data :: rest else rest end) (sock_got k ++ upto n data) (sock_end k || (n =? 0)) (sock_wrote k) (sock_broken k) (credit k) (sock_shut k),
   (Ok n, MkVec (upto n data ++ from n (elems v)) (cap v))).

Definition sock_write (k : Sock) (b : bytes) : Sock :=
  MkSock (segments k) (sock_got k) (sock_end k) (sock_wrote k ++ b) (sock_broken k) (credit k - length b) (sock_shut k).
Definition sock_break (k : Sock) : Sock := MkSock (segments k) (sock_got k) (sock_end k) (sock_wrote k) true (credit k) (sock_shut k).
Definition sock_close (k : Sock) : Sock := MkSock (segments k) (sock_got k) (sock_end k) (sock_wrote k) (sock_broken k) (credit k) true.

#[export] Instance sock_tcp : UringTcp Sock (Vec * bool) (Vec * bytes) Vec := {
  tcp_read v := (v, false);
  poll_tcp_read k f := if snd f then let '(k, r) := sock_read k (fst f) in (k, inr r) else (k, inl (fst f, true));
  tcp_write_all v := (v, elems v);
  poll_tcp_write_all k f :=
    match snd f with
    | [] => (k, inr (Ok tt, fst f))
    | b :: rest => match credit k with O => (sock_break k, inr (Err (MkIoError IoOther (str "reset")), fst f)) | S _ => (sock_write k [b], inl (fst f, rest)) end
    end;
  tcp_write v := v;
  poll_tcp_write k v := let n := Z.min 2 (len (elems v)) in (sock_write k (upto n (elems v)), inr (Ok n, v));
  tcp_shutdown k := (sock_close k, Ok tt)
}.

#[export] Instance sock_tcp_spec : UringTcpSpec Sock (Vec * bool) (Vec * bytes) Vec.
Proof.
  refine {| got := sock_got; at_end := sock_end; wrote := sock_wrote; broken := sock_broken; tcp_backlog k := segments_size (segments k);
    read_cap f := cap (fst f); unsent := snd; write_cap f := cap (fst f); offered := elems |}; try done.
  - intros k [v [|]]; [|done]. cbn. pose proof (wrapped_bytes (match segments k with b :: _ => b | [] => [] end)) as Hb. set (data := map _ _) in *. pose proof (len_nonneg data). pose proof (len_nonneg (elems v)).
    set (n := Z.max 0 _). assert (Hn : 0 <= n <= len data) by lia. assert (Hup : upto n (upto n data ++ from n (elems v)) = upto n data).
    { rewrite upto_app_le by (rewrite len_upto; lia). apply upto_upto. lia. }
    assert (Hsz : (segments_size (match segments k with [] => [] | _ :: rest => if (n <? len data)%Z then from n data :: rest else rest end) + Z.to_nat n <= segments_size (segments k))%nat).
    { unfold segments_size, data in *. destruct (segments k) as [|b l]; [|destruct (n <? _)%Z eqn:En]; cbn in *; unfold from, len in *; rewrite ?length_drop, ?length_map in *; cbn in *; lia. }
    rewrite Hup, len_app, len_upto by lia. pose proof (len_nonneg (from n (elems v))). split_and!; try done; try lia; try (by apply bytes_ok_upto); [by intros ->|unfold segments_size in *; lia].
  - intros k [v [|b rest]]; cbn; [by rewrite app_nil_r|]. destruct (credit k); cbn; [done|]. by rewrite <- app_assoc.
  - intros k v. cbn. pose proof (len_nonneg (elems v)). split_and!; try done; lia.
Defined.

(** Two segments, and credit for six bytes. *)
Definition sock_demo : Sock := MkSock [[10; 11; 12]; [13]] [] false [] false 6 false.
Definition demo_calls : list UringCall :=
  [Write [1; 2; 3; 4; 5]; Write [5]; Write [5]; Write [5]; Write [5]; Write [5]; Read 2; Read 2; StartRead (MkVec [] 8); PollNative; Read 1; StartRead (MkVec [] 8); PollNative; PollNative;
   StartWriteAll (MkVec [6] 1); PollNative; PollNative; PollNative].

(** A write into a buffer of four bytes that fills it and has to be flushed, polls and native reads in turn, and a native write after the flush of what is buffered. *)
Lemma uring_stream_exact_witness : exists x, uring_run 4 sock_demo demo_calls = Some x /\
  run_returned x = [10; 11; 12; 13] /\ got (inner (run_stream x)) = [10; 11; 12; 13] ++ unread_in (read_state (run_stream x)) /\ run_taken x = [1; 2; 3; 4; 5; 6] /\
  (sock_broken (inner (run_stream x)) = true \/ sock_wrote (inner (run_stream x)) ++ outstanding_in (write_state (run_stream x)) ++ native_unsent (run_native x) = [1; 2; 3; 4; 5; 6]).
Proof.
  destruct (uring_stream_exact 4 sock_demo demo_calls ltac:(lia) ltac:(repeat constructor; cbn; lia)) as (x & E & Hg & _ & _ & Hw & _).
  assert (Ex : (fun x => (run_returned x, run_taken x)) <$> uring_run 4 sock_demo demo_calls = Some ([10; 11; 12; 13], [1; 2; 3; 4; 5; 6])) by (vm_compute; reflexivity).
  rewrite E in Ex. injection Ex as Er Et. rewrite Er in Hg. rewrite Et in Hw. exists x. by split_and!.
Defined.

(** A stream whose read is pending, over a socket on which it is about to complete. *)
Abbreviation SockStream := (Over (t Sock (Vec * bool) (Vec * bytes)) Script).
Definition uring_demo : SockStream.
Proof.
  refine (MkOver (Mk (MkSock [[0x81; 2; 65; 66]; [0x89]] [] false [] false 6 false) (ReadState.Mk None 0 0 false (Some (MkVec [] 8, true))) (WriteState.Mk (Some (MkVec [] 4)) None)) no_events [] [] _).
  split; [by split; [|by split; [constructor|]]|]. split; [done|]. split; [|by right]. eexists. by split_and!.
Defined.

(** The text of the frame is returned. *)
Lemma stream_over_uring_witness : exists s' i',
  WebSocketStream.poll_next (T := SockStream) (SU := simdutf8_std) test_arch (fun _ => 0) 120 1 (WebSocketStream.client Config.default, uring_demo) =
    Done (s', i') (Ok (Ready (Some (Ok (Message.Text [65; 66]))))) /\
  got (inner (stream_of i')) = taken i' ++ unread_in (read_state (stream_of i')) /\ got (inner (stream_of i')) = [0x81; 2; 65; 66].
Proof.
  destruct (stream_over_uring (SU := simdutf8_std) (SUok := simdutf8_std_spec) test_arch (fun _ => 0) Client Config.default None
    [] (WebSocketStream.client Config.default) uring_demo 120 1 ltac:(by vm_compute) ltac:(constructor) ltac:(by apply r_start) ltac:(unfold enough; cbn; lia)) as (s' & i' & r & E & Hg & _).
  assert (Eo : outcome (fun h => got (inner h)) (WebSocketStream.poll_next (T := SockStream) (SU := simdutf8_std) test_arch (fun _ => 0) 120 1
    (WebSocketStream.client Config.default, uring_demo)) = Some (Ready (Some (Ok (Message.Text [65; 66]))), [0x81; 2; 65; 66])) by (vm_compute; reflexivity).
  rewrite E in Eo. injection Eo as -> Ea. exists s', i'. split; [exact E|]. split; [exact Hg|exact Ea].
Defined.
