(* ===== verification/Compio.v ===== *)
(** * Streams on compio (src/src/compio.rs)

    [CompioWebSocketStream] and [CompioCompressedWebSocketStream]: message streams whose operations are async functions over compio's completion-based transports.  An
    operation owns the stream until it completes.  The two types have the same methods, line for line, over two protocols, so that the protocol is an interface with two instances.

    A read or a write takes the buffer and gives it back when it completes; where a timer ends the wait, the operation is dropped and the buffer is lost with it.  Instants are
    nanoseconds since the stream's epoch. *)

From stdpp Require Import base list option strings.
From S2P Require Import Prelude Error Mask Utf8 Frame FrameSpec Protocol Heartbeat Cork Output Deflate Compressed Config WebSocket.

(** ** Async functions *)

(** Operations of the transport; the result of [Append] are the bytes read, that of the others is empty. *)
Inductive IoOp := Append | WriteAll (b : bytes) | FlushIo | ShutdownIo.

(** What becomes of an async function that is polled until it completes: it may wait for ever for an operation. *)
Inductive task (W A : Type) := Returned (w : W) (a : A) | Waiting (w : W) (op : IoOp) | Panicked | Exhausted.
Arguments Returned {W A}. Arguments Waiting {W A}. Arguments Panicked {W A}. Arguments Exhausted {W A}.

Definition await_bind {W A B} (m : task W A) (k : W -> A -> task W B) : task W B :=
  match m with Returned w a => k w a | Waiting w op => Waiting w op | Panicked => Panicked | Exhausted => Exhausted end.
Notation "'await!' ( w , x ) := m 'in' k" := (await_bind m (fun w x => k)) (at level 10, w name, x name, m at level 100, k at level 200) : ws_scope.

Definition from_comp {W A} (m : comp W A) : task W (result A) := match m with Done w r => Returned w r | Panic => Panicked | NoFuel => Exhausted end.

(** ** The transport and the clock *)

(** [io_poll]: the first poll of an operation.  [io_race]: the [select_biased!] of a pending operation and a timer; [None]: the timer has fired, and the operation is pending.
    [io_finish]: an operation that is awaited; [None]: it never completes.  [io_recover]: a read that has been cancelled, against a timer if there is one; [None]: the timer has fired or,
    without one, nothing ever happens.  [is_cancelled] is compio's, [is_poll_read_cancelled] whether an error carries a [PollReadCancelled]. *)
Class CompioIo (I : Type) := {
  io_now : I -> I * Z;
  io_poll : IoOp -> I -> I * poll (res IoError bytes);
  io_race : IoOp -> Z -> I -> I * option (res IoError bytes);
  io_finish : IoOp -> I -> I * option (res IoError bytes);
  io_recover : option Z -> I -> I * option (res IoError bytes);
  io_draw_mask : I -> I * bytes;
  io_draw_nonce : I -> I * Z;
  is_cancelled : IoError -> bool;
  is_poll_read_cancelled : IoError -> bool
}.

(** How a wait ends: with a value, because its timer has fired, or not at all. *)
Inductive outcome (A : Type) := Came (a : A) | Expired | Never (op : IoOp).
Arguments Came {A}. Arguments Expired {A}. Arguments Never {A}.

Definition millis (instant : Z) : Z := wrap 64 (instant / 1000000).
Definition instant_of (at_ms : Z) : Z := at_ms * 1000000.

Section Io.
Context {I : Type} `{CompioIo I}.

(** [compio_until], of an operation; of a future that makes one operation after the other it is this for each of them. *)
Definition compio_until (deadline : Z) (op : IoOp) (i : I) : I * option (res IoError bytes) :=
  let '(i, r) := io_poll op i in
  match r with
  | Ready output => (i, Some output)
  | Pending => let '(i, now) := io_now i in io_race op (now + Z.max 0 (deadline - now)) i
  end.

(** An operation that is awaited, within [compio_until] if there is a deadline. *)
Definition await_op (limit : option Z) (op : IoOp) (i : I) : I * outcome (res IoError bytes) :=
  match limit with
  | Some deadline => let '(i, r) := compio_until deadline op i in (i, match r with Some r => Came r | None => Expired end)
  | None => let '(i, r) := io_finish op i in (i, match r with Some r => Came r | None => Never op end)
  end.

(** [read_more]: what has been read, and the buffer, which is lost with the operation. *)
Definition read_more (limit : option Z) (buf : bytes) (i : I) : I * bytes * outcome (res IoError Z) :=
  let '(i, r) := await_op limit Append i in
  match r with
  | Came (Ok data) => (i, buf ++ data, Came (Ok (len data)))
  | Came (Err e) => (i, buf, Came (Err e))
  | Expired => (i, [], Expired)
  | Never op => (i, [], Never op)
  end.

Definition read_was_cancelled (result : res IoError Z) : bool := match result with Err e => is_cancelled e || is_poll_read_cancelled e | Ok _ => false end.

Inductive DeadlineReadOutcome := DRead (r : res IoError Z) | DDeadline (d : Deadline) (r : option (res IoError Z)).

(** When the timer of the hard deadline fires. *)
Definition hard_timer (hard_timeout : option Deadline) (i : I) : I * option Z :=
  match hard_timeout with
  | Some d => let '(i, now) := io_now i in (i, Some (now + instant_of (Z.max 0 (deadline_at d - millis now))))
  | None => (i, None)
  end.

Definition read_more_until (buf : bytes) (deadline : Deadline) (hard_timeout : option Deadline) (i : I) : I * bytes * option DeadlineReadOutcome :=
  let read (i : I) (r : res IoError bytes) : I * bytes * res IoError Z :=
    match r with Ok data => (i, buf ++ data, Ok (len data)) | Err e => (i, buf, Err e) end in
  let '(i, first) := io_poll Append i in
  let '(i, r) := match first with Ready r => (i, Some r) | Pending => io_race Append (instant_of (deadline_at deadline)) i end in
  match r with
  | Some r => let '(i, buf, r) := read i r in (i, buf, Some (DRead r))
  | None =>
      match deadline with
      | DPing _ =>
          let '(i, timer) := hard_timer hard_timeout i in
          let '(i, r) := io_recover timer i in
          match r, hard_timeout with
          | Some r, _ => let '(i, buf, r) := read i r in (i, buf, Some (DDeadline deadline (if read_was_cancelled r then None else Some r)))
          | None, Some d => (i, [], Some (DDeadline d None))
          | None, None => (i, [], None)
          end
      | _ => (i, [], Some (DDeadline deadline None))
      end
  end.

(** [flush_bytes]: what is left in the buffer. *)
Definition flush_bytes (limit : option Z) (buf : bytes) (i : I) : I * bytes * outcome (result unit) :=
  let flush (i : I) (buf : bytes) :=
    let '(i, r) := await_op limit FlushIo i in
    (i, buf, match r with Came (Ok _) => Came (Ok tt) | Came (Err e) => Came (Err (from_io e)) | Expired => Expired | Never op => Never op end) in
  if bool_decide (buf = []) then flush i buf
  else
    let '(i, r) := await_op limit (WriteAll buf) i in
    match r with
    | Came (Ok _) => flush i []
    | Came (Err e) => (i, buf, Came (Err (from_io e)))
    | Expired => (i, [], Expired)
    | Never op => (i, [], Never op)
    end.

Definition flush_control_until (buf : bytes) (bound : Deadline) (i : I) : I * bytes * result unit :=
  let '(i, buf, r) := flush_bytes (Some (instant_of (deadline_at bound))) buf i in
  (i, buf, match r with Came r => r | _ => Err (match bound with DIdle _ => IdleTimeout | _ => HeartbeatTimeout end) end).

(** [self.inner.shutdown()] within the deadline, and whether it has been completed *)
Definition shutdown_until (deadline : Z) (i : I) : I * outcome (res IoError unit) :=
  let '(i, r) := await_op (Some deadline) ShutdownIo i in
  (i, match r with Came (Ok _) => Came (Ok tt) | Came (Err e) => Came (Err e) | Expired => Expired | Never op => Never op end).
Definition completed {A} (r : outcome (res IoError A)) : bool := match r with Came (Ok _) => true | _ => false end.

Definition compio_finish_close (buf : bytes) (deadline : Z) (i : I) : I * bytes * bool :=
  let '(i, buf, r) := flush_bytes (Some deadline) buf i in
  match r with
  | Came (Ok _) => let '(i, r) := shutdown_until deadline i in (i, buf, completed r)
  | _ => (i, buf, false)
  end.
End Io.

(** ** The protocol *)

(** What the streams use of a protocol.  [draws_close_key]: a message whose encoding draws a second key. *)
Class CompioProtocol (P : Type) := {
  cp_role : P -> Role;
  cp_process_into_with_activity : P -> bytes -> comp (P * bytes * list Message.t * bool) unit;
  draws_close_key : Message.t -> bool;
  cp_encode_message : bytes -> bytes -> P -> Message.t -> bytes -> comp (P * bytes) unit;
  cp_encode_pong : bytes -> P -> bytes -> bytes -> bytes;
  cp_encode_close_response : bytes -> P -> bytes -> P * bytes
}.

Definition plain_protocol {SU : Simdutf8} (arch : Arch) (slice_addr : bytes -> Z) : CompioProtocol Protocol.t := {|
  cp_role := Protocol.role;
  cp_process_into_with_activity := Protocol.process_into_with_activity arch slice_addr;
  draws_close_key _ := false;
  cp_encode_message key _ := Protocol.encode_message key;
  cp_encode_pong := Protocol.encode_pong;
  cp_encode_close_response := Protocol.encode_close_response
|}.
Definition compressed_protocol {E D : Type} `{Codec E D} {SU : Simdutf8} (arch : Arch) (slice_addr : bytes -> Z) : CompioProtocol (CompressedProtocol.t E D) := {|
  cp_role p := Protocol.role (CompressedProtocol.inner p);
  cp_process_into_with_activity := CompressedProtocol.process_into_with_activity arch slice_addr;
  draws_close_key := Message.is_close;
  cp_encode_message := CompressedProtocol.encode_message;
  cp_encode_pong := CompressedProtocol.encode_pong;
  cp_encode_close_response := CompressedProtocol.encode_close_response
|}.

(** ** The stream *)

Module CompioStream.
Module StreamState.
Inductive t := Open | ReadErrorPending | CloseSent | Closed.
#[global] Instance t_eq_dec : EqDecision t.
Proof. solve_decision. Defined.
End StreamState.

(** The stream without its transport. *)
Record t (P : Type) := Mk {
  protocol : P;
  read_buf : bytes;
  write_buf : bytes;
  state : StreamState.t;
  closing_deadline : option Z;
  post_expiry_read_attempted : bool;
  batch_has_close : bool;
  immediate_write_shutdown : bool;
  write_shutdown_complete : bool;
  config : Config.t;
  pending_messages : list Message.t;
  pending_parse_error : option Error;
  heartbeat : Heartbeat.t;
  high_water_mark : Z;
  low_water_mark : Z
}.
Arguments Mk {P}. Arguments protocol {P}. Arguments read_buf {P}. Arguments write_buf {P}. Arguments state {P}. Arguments closing_deadline {P}. Arguments post_expiry_read_attempted {P}. Arguments batch_has_close {P}. Arguments immediate_write_shutdown {P}. Arguments write_shutdown_complete {P}. Arguments config {P}. Arguments pending_messages {P}. Arguments pending_parse_error {P}. Arguments heartbeat {P}. Arguments high_water_mark {P}. Arguments low_water_mark {P}.

Section Setters.
Context {P : Type}.
Abbreviation t := (t P).

Definition set_protocol (v : P) (s : t) : t :=
  Mk v (read_buf s) (write_buf s) (state s) (closing_deadline s) (post_expiry_read_attempted s) (batch_has_close s) (immediate_write_shutdown s) (write_shutdown_complete s) (config s) (pending_messages s) (pending_parse_error s) (heartbeat s) (high_water_mark s) (low_water_mark s).
Definition set_read_buf (v : bytes) (s : t) : t :=
  Mk (protocol s) v (write_buf s) (state s) (closing_deadline s) (post_expiry_read_attempted s) (batch_has_close s) (immediate_write_shutdown s) (write_shutdown_complete s) (config s) (pending_messages s) (pending_parse_error s) (heartbeat s) (high_water_mark s) (low_water_mark s).
Definition set_write_buf (v : bytes) (s : t) : t :=
  Mk (protocol s) (read_buf s) v (state s) (closing_deadline s) (post_expiry_read_attempted s) (batch_has_close s) (immediate_write_shutdown s) (write_shutdown_complete s) (config s) (pending_messages s) (pending_parse_error s) (heartbeat s) (high_water_mark s) (low_water_mark s).
Definition set_state (v : StreamState.t) (s : t) : t :=
  Mk (protocol s) (read_buf s) (write_buf s) v (closing_deadline s) (post_expiry_read_attempted s) (batch_has_close s) (immediate_write_shutdown s) (write_shutdown_complete s) (config s) (pending_messages s) (pending_parse_error s) (heartbeat s) (high_water_mark s) (low_water_mark s).
Definition set_closing_deadline (v : option Z) (s : t) : t :=
  Mk (protocol s) (read_buf s) (write_buf s) (state s) v (post_expiry_read_attempted s) (batch_has_close s) (immediate_write_shutdown s) (write_shutdown_complete s) (config s) (pending_messages s) (pending_parse_error s) (heartbeat s) (high_water_mark s) (low_water_mark s).
Definition set_post_expiry_read_attempted (v : bool) (s : t) : t :=
  Mk (protocol s) (read_buf s) (write_buf s) (state s) (closing_deadline s) v (batch_has_close s) (immediate_write_shutdown s) (write_shutdown_complete s) (config s) (pending_messages s) (pending_parse_error s) (heartbeat s) (high_water_mark s) (low_water_mark s).
Definition set_batch_has_close (v : bool) (s : t) : t :=
  Mk (protocol s) (read_buf s) (write_buf s) (state s) (closing_deadline s) (post_expiry_read_attempted s) v (immediate_write_shutdown s) (write_shutdown_complete s) (config s) (pending_messages s) (pending_parse_error s) (heartbeat s) (high_water_mark s) (low_water_mark s).
Definition set_immediate_write_shutdown (v : bool) (s : t) : t :=
  Mk (protocol s) (read_buf s) (write_buf s) (state s) (closing_deadline s) (post_expiry_read_attempted s) (batch_has_close s) v (write_shutdown_complete s) (config s) (pending_messages s) (pending_parse_error s) (heartbeat s) (high_water_mark s) (low_water_mark s).
Definition set_write_shutdown_complete (v : bool) (s : t) : t :=
  Mk (protocol s) (read_buf s) (write_buf s) (state s) (closing_deadline s) (post_expiry_read_attempted s) (batch_has_close s) (immediate_write_shutdown s) v (config s) (pending_messages s) (pending_parse_error s) (heartbeat s) (high_water_mark s) (low_water_mark s).
Definition set_pending_messages (v : list Message.t) (s : t) : t :=
  Mk (protocol s) (read_buf s) (write_buf s) (state s) (closing_deadline s) (post_expiry_read_attempted s) (batch_has_close s) (immediate_write_shutdown s) (write_shutdown_complete s) (config s) v (pending_parse_error s) (heartbeat s) (high_water_mark s) (low_water_mark s).
Definition set_pending_parse_error (v : option Error) (s : t) : t :=
  Mk (protocol s) (read_buf s) (write_buf s) (state s) (closing_deadline s) (post_expiry_read_attempted s) (batch_has_close s) (immediate_write_shutdown s) (write_shutdown_complete s) (config s) (pending_messages s) v (heartbeat s) (high_water_mark s) (low_water_mark s).
Definition set_heartbeat (v : Heartbeat.t) (s : t) : t :=
  Mk (protocol s) (read_buf s) (write_buf s) (state s) (closing_deadline s) (post_expiry_read_attempted s) (batch_has_close s) (immediate_write_shutdown s) (write_shutdown_complete s) (config s) (pending_messages s) (pending_parse_error s) v (high_water_mark s) (low_water_mark s).
Definition set_high_water_mark (v : Z) (s : t) : t :=
  Mk (protocol s) (read_buf s) (write_buf s) (state s) (closing_deadline s) (post_expiry_read_attempted s) (batch_has_close s) (immediate_write_shutdown s) (write_shutdown_complete s) (config s) (pending_messages s) (pending_parse_error s) (heartbeat s) v (low_water_mark s).
Definition set_low_water_mark (v : Z) (s : t) : t :=
  Mk (protocol s) (read_buf s) (write_buf s) (state s) (closing_deadline s) (post_expiry_read_attempted s) (batch_has_close s) (immediate_write_shutdown s) (write_shutdown_complete s) (config s) (pending_messages s) (pending_parse_error s) (heartbeat s) (high_water_mark s) v.
End Setters.

Definition DEFAULT_HIGH_WATER_MARK : Z := 64 * 1024.
Definition DEFAULT_LOW_WATER_MARK : Z := 16 * 1024.

Definition Item : Type := option (result Message.t).

(** A part of a turn of [next]: [return], [continue], or on to the next part. *)
Inductive flow := Return (r : Item) | Continue | Through.

Section Stream.
Context {P : Type} `{CompioProtocol P}.
Abbreviation t := (t P).

(** What the constructors do with the protocol of their role. *)
Definition with_protocol (p : P) (c : Config.t) (leftover : option bytes) : t :=
  Mk p (default [] leftover) [] StreamState.Open None false false false false c [] None
    (Heartbeat.new (Config.auto_ping c) (Config.ping_interval c) (Config.idle_timeout c) (Config.pong_timeout c) 0) DEFAULT_HIGH_WATER_MARK DEFAULT_LOW_WATER_MARK.

Definition with_immediate_write_shutdown (s : t) : t := set_immediate_write_shutdown true s.
Definition write_buffer_len (s : t) : Z := len (write_buf s).
Definition read_buffer_len (s : t) : Z := len (read_buf s).
Definition is_backpressured (s : t) : bool := high_water_mark s <? len (write_buf s).
Definition is_write_buffer_low (s : t) : bool := len (write_buf s) <=? low_water_mark s.

(** [self.heartbeat.stop(); self.state = CompioStreamState::Closed;] *)
Definition close_stream (s : t) : t := set_state StreamState.Closed (set_heartbeat (Heartbeat.stop (heartbeat s)) s).

(** [self.pending_messages.pop()] *)
Definition next_pending_message (s : t) : t * option Message.t :=
  match reverse (pending_messages s) with
  | m :: rest => (set_pending_messages (reverse rest) s, Some m)
  | [] => (s, None)
  end.

Section Operations.
Context {I : Type} `{CompioIo I}.

Definition W : Type := t * I.
Definition on_stream (f : t -> t) (w : W) : W := (f (fst w), snd w).
Definition instant_now (w : W) : W * Z := let '(i, v) := io_now (snd w) in ((fst w, i), v).
Definition now_ms (w : W) : W * Z := let '(w, v) := instant_now w in (w, millis v).
Definition draw_key (w : W) : W * bytes :=
  if bool_decide (cp_role (protocol (fst w)) = Client) then let '(i, key) := io_draw_mask (snd w) in ((fst w, i), key) else (w, []).

Definition begin_closing (w : W) : W * Z :=
  let w := on_stream (fun s => set_heartbeat (Heartbeat.stop (heartbeat s)) s) w in
  match closing_deadline (fst w) with
  | Some deadline => (w, deadline)
  | None =>
      let '(w, now) := instant_now w in
      let deadline := now + Config.close_timeout (config (fst w)) * 1000000000 in
      (on_stream (set_closing_deadline (Some deadline)) w, deadline)
  end.

Definition encode_message (msg : Message.t) (w : W) : comp W unit :=
  let '(w, key) := draw_key w in
  let '(w, close_key) := if draws_close_key msg then draw_key w else (w, []) in
  let '(s, i) := w in
  match cp_encode_message key close_key (protocol s) msg (write_buf s) with
  | Done (p, b) r => Done (set_write_buf b (set_protocol p s), i) r
  | Panic => Panic
  | NoFuel => NoFuel
  end.

(** ** Writing *)

Definition flush (w : W) : task W (result unit) :=
  let '(s, i) := w in
  if bool_decide (state s = StreamState.Closed) then Returned w (Err ConnectionClosed)
  else
    let '(i, buf, r) := flush_bytes (closing_deadline s) (write_buf s) i in
    let s := set_write_buf buf s in
    match r with
    | Came (Ok _) => Returned (s, i) (Ok tt)
    | Came (Err e) => Returned (close_stream s, i) (Err e)
    | Expired => Returned (close_stream s, i) (Err ConnectionClosed)
    | Never op => Waiting (s, i) op
    end.

Definition flush_control (w : W) : task W (result unit) :=
  let '(s, i) := w in
  match Heartbeat.next_hard_deadline (heartbeat s) with
  | None => flush w
  | Some bound =>
      if bool_decide (state s = StreamState.Closed) then Returned w (Err ConnectionClosed)
      else
        let '(i, buf, r) := flush_control_until (write_buf s) bound i in
        let s := set_write_buf buf s in
        match r with
        | Ok _ => Returned (s, i) (Ok tt)
        | Err e => Returned (close_stream s, i) (Err e)
        end
  end.

(** [compio_finish_close(&mut self.inner, &mut self.write_buf, deadline)], whose result is kept *)
Definition finish_close (deadline : Z) (w : W) : W :=
  let '(i, buf, done) := compio_finish_close (write_buf (fst w)) deadline (snd w) in
  (set_write_shutdown_complete done (set_write_buf buf (fst w)), i).

Definition send (msg : Message.t) (w : W) : task W (result unit) :=
  if negb (bool_decide (state (fst w) = StreamState.Open)) then Returned w (Err ConnectionClosed)
  else
    let w := if Message.is_close msg then fst (begin_closing (on_stream (set_state StreamState.CloseSent) w)) else w in
    await! (w, encoded) := from_comp (encode_message msg w) in
    match encoded with
    | Err e => Returned w (Err e)
    | Ok _ =>
        await! (w, r) := flush w in
        match r with
        | Err e => Returned (on_stream close_stream w) (Err e)
        | Ok _ => Returned w (Ok tt)
        end
    end.

(** The shutdown that follows an explicit Close. *)
Definition shutdown_after_close (w : W) : task W (result unit) :=
  match closing_deadline (fst w) with
  | None => Panicked
  | Some deadline =>
      let '(i, r) := shutdown_until deadline (snd w) in
      let w := (fst w, i) in
      match r with
      | Came (Ok _) => Returned (on_stream (set_write_shutdown_complete true) w) (Ok tt)
      | Came (Err e) => Returned (on_stream (set_state StreamState.Closed) w) (Err (from_io e))
      | _ => Returned (on_stream (set_state StreamState.Closed) w) (Err ConnectionClosed)
      end
  end.

Definition send_text (text : bytes) (w : W) : task W (result unit) := send (Message.Text text) w.
Definition send_binary (data : bytes) (w : W) : task W (result unit) := send (Message.Binary data) w.

Definition close (code : Z) (reason : bytes) (w : W) : task W (result unit) :=
  if negb (bool_decide (state (fst w) = StreamState.Open)) then Returned w (Ok tt)
  else
    await! (w, r) := send (Message.Close (Some (CloseReason.new code reason))) w in
    match r with
    | Err e => Returned w (Err e)
    | Ok _ => if immediate_write_shutdown (fst w) then shutdown_after_close w else Returned w (Ok tt)
    end.

(** ** Reading *)

(** [self.heartbeat.on_inbound(now, pong)] when activity is tracked *)
Definition note_inbound (pong : option bytes) (w : W) : W :=
  if Heartbeat.tracks_inbound_activity (heartbeat (fst w)) then
    let '(w, now) := now_ms w in
    on_stream (fun s => set_heartbeat (fst (Heartbeat.on_inbound (heartbeat s) now pong)) s) w
  else w.

Definition process_read_buf (w : W) : comp W bool :=
  let '(s, i) := w in
  if bool_decide (read_buf s = []) then Done w (Ok false)
  else
    assert! (bool_decide (pending_messages s = []));
    match cp_process_into_with_activity (protocol s) (read_buf s) with
    | Done (p, buf, messages, accepted_fragment) r =>
        let w := (set_pending_messages messages (set_read_buf buf (set_protocol p s)), i) in
        let w := if accepted_fragment then note_inbound None w else w in
        let w := on_stream (fun s => set_batch_has_close (existsb Message.is_close (pending_messages s)) s) w in
        let w := on_stream (fun s => set_pending_messages (reverse (pending_messages s)) s) w in
        Done w (match r with Ok _ => Ok (negb (bool_decide (pending_messages (fst w) = []))) | Err e => Err e end)
    | Panic => Panic
    | NoFuel => NoFuel
    end.

(** The Close of a timeout, and the end of the stream. *)
Definition timeout_close (code : Z) (reason : bytes) (error : Error) (w : W) : task W (option Error) :=
  let '(w, deadline) := begin_closing w in
  let w := on_stream (set_state StreamState.CloseSent) w in
  await! (w, encoded) := from_comp (encode_message (Message.Close (Some (CloseReason.new code reason))) w) in
  let w := finish_close deadline w in
  Returned (on_stream (set_state StreamState.Closed) w) (Some error).

Definition send_ping (now : Z) (w : W) : task W (option Error) :=
  let '(s, i) := w in
  let '(i, nonce) := io_draw_nonce i in
  let '(_, hb, ping) := Heartbeat.ping_due nonce (heartbeat s) now in
  let w := (set_heartbeat hb s, i) in
  match ping with
  | None => Returned w None
  | Some payload =>
      await! (w, encoded) := from_comp (encode_message (Message.Ping payload) w) in
      match encoded with
      | Err e => Returned w (Some e)
      | Ok _ =>
          await! (w, r) := flush_control w in
          match r with
          | Err e => Returned w (Some e)
          | Ok _ =>
              let '(w, now) := now_ms w in
              Returned (on_stream (fun s => set_heartbeat (Heartbeat.ping_flushed (heartbeat s) now) s) w) None
          end
      end
  end.

Definition handle_deadline (deadline : Deadline) (now : Z) (w : W) : task W (option Error) :=
  if deadline_at deadline <=? now then
    let c := config (fst w) in
    match deadline with
    | DPing _ => send_ping now w
    | DPong _ => timeout_close (Config.pong_timeout_close_code c) (bounded_close_reason (Config.pong_timeout_close_reason c)) HeartbeatTimeout w
    | DIdle _ => timeout_close CloseReason.GOING_AWAY (str "Connection idle timeout") IdleTimeout w
    end
  else Returned w None.

Definition handle_expired_deadline (now : Z) (w : W) : task W (option Error) :=
  match Heartbeat.next_deadline (heartbeat (fst w)) with
  | Some deadline => handle_deadline deadline now w
  | None => Returned w None
  end.

(** [self.closing_deadline.is_some_and(|at| Instant::now() >= at)] *)
Definition budget_spent (w : W) : W * bool :=
  match closing_deadline (fst w) with
  | Some deadline => let '(w, now) := instant_now w in (w, deadline <=? now)
  | None => (w, false)
  end.

Definition handle_ping (msg : Message.t) (data : bytes) (w : W) : task W (result Message.t) :=
  let deliver (w : W) : task W (result Message.t) := Returned w (Ok msg) in
  if write_shutdown_complete (fst w) || batch_has_close (fst w) then deliver w
  else
    let '(w, spent) := budget_spent w in
    if spent then deliver w
    else
      let '(w, key) := draw_key w in
      let w := on_stream (fun s => set_write_buf (cp_encode_pong key (protocol s) data (write_buf s)) s) w in
      await! (w, r) := flush_control w in
      match r with
      | Err e => Returned (on_stream close_stream w) (Err e)
      | Ok _ => deliver w
      end.

(** The peer's Close is answered if none has been sent. *)
Definition answer_close (w : W) : W :=
  match state (fst w) with
  | StreamState.Open | StreamState.ReadErrorPending =>
      let '(w, key) := draw_key w in
      let '(s, i) := w in
      let '(p, b) := cp_encode_close_response key (protocol s) (write_buf s) in
      (set_write_buf b (set_protocol p s), i)
  | _ => w
  end.

Definition handle_close (reason : option CloseReason.t) (w : W) : task W (result Message.t) :=
  let '(w, deadline) := begin_closing w in
  let w := on_stream (fun s => set_read_buf [] (set_pending_parse_error None (set_pending_messages [] s))) w in
  let w := answer_close w in
  let w := on_stream (set_state StreamState.Closed) w in
  let w := if write_shutdown_complete (fst w) then w else finish_close deadline w in
  Returned w (Ok (Message.Close reason)).

Definition handle_incoming_message (msg : Message.t) (w : W) : task W (result Message.t) :=
  match msg with
  | Message.Ping data => handle_ping msg data w
  | Message.Close reason => handle_close reason w
  | _ => Returned w (Ok msg)
  end.

(** ** [next] *)

Definition message_part (w : W) : task W flow :=
  let '(s, msg) := next_pending_message (fst w) in
  let w := (s, snd w) in
  match msg with
  | Some msg =>
      let w := note_inbound (match msg with Message.Pong payload => Some payload | _ => None end) w in
      await! (w, r) := handle_incoming_message msg w in
      Returned w (Return (Some r))
  | None => Returned w Through
  end.

Definition error_part (w : W) : task W flow :=
  match pending_parse_error (fst w) with
  | Some error => Returned (on_stream (fun s => close_stream (set_pending_parse_error None s)) w) (Return (Some (Err error)))
  | None => Returned w Through
  end.

Definition deadline_part (w : W) : task W flow :=
  match Heartbeat.next_deadline (heartbeat (fst w)) with
  | None => Returned w Through
  | Some deadline =>
      let '(w, now) := now_ms w in
      if deadline_at deadline <=? now then
        await! (w, error) := handle_expired_deadline now w in
        match error with
        | Some e => Returned w (Return (Some (Err e)))
        | None => Returned w Continue
        end
      else Returned w Through
  end.

Definition keep_parse_error (e : Error) (s : t) : t :=
  let s := set_pending_parse_error (Some e) s in
  if bool_decide (state s = StreamState.Open) then set_state StreamState.ReadErrorPending s else s.

Definition process_part (w : W) : task W flow :=
  await! (w, r) := from_comp (process_read_buf w) in
  match r with
  | Ok true => Returned w Continue
  | Ok false => Returned w Through
  | Err e => Returned (on_stream (keep_parse_error e) w) Continue
  end.

(** The budget of the closing handshake is spent, and so is the read after it. *)
Definition closing_part (w : W) : task W flow :=
  match closing_deadline (fst w) with
  | None => Returned w Through
  | Some deadline =>
      let '(w, now) := instant_now w in
      if (deadline <=? now) && post_expiry_read_attempted (fst w) then
        let w := on_stream (set_state StreamState.Closed) w in
        let w :=
          if negb (write_shutdown_complete (fst w)) && bool_decide (write_buf (fst w) = []) then
            let '(i, r) := shutdown_until deadline (snd w) in (set_write_shutdown_complete (completed r) (fst w), i)
          else w in
        Returned w (Return (Some (Err ConnectionClosed)))
      else Returned w Through
  end.

Definition recovery_deadline (deadline : Deadline) (s : t) : option Deadline :=
  match Heartbeat.next_hard_deadline (heartbeat s) with
  | Some d => Some d
  | None => if negb (Config.pong_timeout (config s) =? 0) then Some (DPong (saturating_add (deadline_at deadline) (Config.pong_timeout (config s) * 1000))) else None
  end.

(** What a read leaves for the end of the turn: its result, none after a deadline, or the result of [next]. *)
Inductive read_outcome := ReadDone (r : option (res IoError Z)) | ReadReturn (r : Item).

Definition read_closing (deadline : Z) (w : W) : task W read_outcome :=
  let '(w, now) := instant_now w in
  let w := if deadline <=? now then on_stream (set_post_expiry_read_attempted true) w else w in
  let '(i, buf, r) := read_more (Some deadline) (read_buf (fst w)) (snd w) in
  let w := (set_read_buf buf (fst w), i) in
  match r with
  | Came r => Returned w (ReadDone (Some r))
  | _ => Returned (on_stream (set_state StreamState.Closed) w) (ReadReturn (Some (Err ConnectionClosed)))
  end.

Definition read_deadline (deadline : Deadline) (w : W) : task W read_outcome :=
  let '(i, buf, r) := read_more_until (read_buf (fst w)) deadline (recovery_deadline deadline (fst w)) (snd w) in
  let w := (set_read_buf buf (fst w), i) in
  match r with
  | None => Waiting w Append
  | Some (DRead r) => Returned w (ReadDone (Some r))
  | Some (DDeadline d read_result) =>
      let '(w, now) := now_ms w in
      await! (w, error) := handle_deadline d now w in
      match error with
      | Some e => Returned w (ReadReturn (Some (Err e)))
      | None => Returned w (ReadDone read_result)
      end
  end.

Definition read_plain (w : W) : task W read_outcome :=
  let '(i, buf, r) := read_more None (read_buf (fst w)) (snd w) in
  let w := (set_read_buf buf (fst w), i) in
  match r with
  | Came r => Returned w (ReadDone (Some r))
  | _ => Waiting w Append
  end.

Definition read_part (w : W) : task W flow :=
  await! (w, r) :=
    match closing_deadline (fst w) with
    | Some deadline => read_closing deadline w
    | None => match Heartbeat.next_deadline (heartbeat (fst w)) with
              | Some deadline => read_deadline deadline w
              | None => read_plain w
              end
    end in
  match r with
  | ReadReturn r => Returned w (Return r)
  | ReadDone None => Returned w Continue
  | ReadDone (Some (Ok n)) => if n =? 0 then Returned (on_stream close_stream w) (Return None) else Returned w Continue
  | ReadDone (Some (Err e)) => Returned (on_stream close_stream w) (Return (Some (Err (from_io e))))
  end.

(** [k] where the part goes on. *)
Definition part (m : task W flow) (k : W -> task W flow) : task W flow :=
  await! (w, f) := m in
  match f with Through => k w | _ => Returned w f end.

Definition turn (w : W) : task W flow :=
  if bool_decide (state (fst w) = StreamState.Closed) then Returned w (Return None)
  else part (message_part w) (fun w => part (error_part w) (fun w => part (deadline_part w) (fun w => part (process_part w) (fun w => part (closing_part w) read_part)))).

Fixpoint next (fuel : nat) (w : W) : task W Item :=
  match fuel with
  | O => Exhausted
  | S fuel => await! (w, f) := turn w in match f with Return r => Returned w r | _ => next fuel w end
  end.
End Operations.
End Stream.
End CompioStream.

(** ** Both streams *)

Module CompioWebSocketStream.
Definition t := CompioStream.t Protocol.t.
Definition from_raw_with_leftover (role : Role) (c : Config.t) (leftover : option bytes) : t :=
  CompioStream.with_protocol (Protocol.with_text_utf8_validation (Config.validate_text_utf8 c) (Protocol.new role (Config.max_frame_size c) (Config.max_message_size c))) c leftover.
Definition from_raw (role : Role) (c : Config.t) : t := from_raw_with_leftover role c None.
Definition server (c : Config.t) : t := from_raw Server c.
Definition server_with_leftover (c : Config.t) (leftover : option bytes) : t := from_raw_with_leftover Server c leftover.
Definition client (c : Config.t) : t := from_raw Client c.
Definition client_with_leftover (c : Config.t) (leftover : option bytes) : t := from_raw_with_leftover Client c leftover.
Definition is_closed (s : t) : bool := bool_decide (CompioStream.state s = CompioStream.StreamState.Closed).

(** The methods over [Protocol]. *)
Section Methods.
Context {SU : Simdutf8} (arch : Arch) (slice_addr : bytes -> Z) {I : Type} `{CompioIo I}.
#[local] Instance methods_protocol : CompioProtocol Protocol.t := plain_protocol arch slice_addr.
Definition next (fuel : nat) (w : t * I) : task (t * I) CompioStream.Item := CompioStream.next fuel w.
Definition send (msg : Message.t) (w : t * I) : task (t * I) (result unit) := CompioStream.send msg w.
Definition send_text (text : bytes) (w : t * I) : task (t * I) (result unit) := CompioStream.send_text text w.
Definition send_binary (data : bytes) (w : t * I) : task (t * I) (result unit) := CompioStream.send_binary data w.
Definition close (code : Z) (reason : bytes) (w : t * I) : task (t * I) (result unit) := CompioStream.close code reason w.
Definition flush (w : t * I) : task (t * I) (result unit) := CompioStream.flush w.
End Methods.
End CompioWebSocketStream.

Module CompioCompressedWebSocketStream.
Section Stream.
Context {E D : Type} `{Codec E D}.
Definition t := CompioStream.t (CompressedProtocol.t E D).
Definition server_with_leftover (c : Config.t) (d : DeflateConfig.t) (leftover : option bytes) : t :=
  CompioStream.with_protocol (CompressedProtocol.with_text_utf8_validation (Config.validate_text_utf8 c) (CompressedProtocol.server (Config.max_frame_size c) (Config.max_message_size c) d)) c leftover.
Definition server (c : Config.t) (d : DeflateConfig.t) : t := server_with_leftover c d None.
Definition client_with_leftover (c : Config.t) (d : DeflateConfig.t) (leftover : option bytes) : t :=
  CompioStream.with_protocol (CompressedProtocol.with_text_utf8_validation (Config.validate_text_utf8 c) (CompressedProtocol.client (Config.max_frame_size c) (Config.max_message_size c) d)) c leftover.
Definition client (c : Config.t) (d : DeflateConfig.t) : t := client_with_leftover c d None.
Definition is_closed (s : t) : bool := bool_decide (CompioStream.state s = CompioStream.StreamState.Closed) || CompressedProtocol.is_closed (CompioStream.protocol s).

(** The methods over [CompressedProtocol]. *)
Section Methods.
Context {SU : Simdutf8} (arch : Arch) (slice_addr : bytes -> Z) {I : Type} `{CompioIo I}.
#[local] Instance methods_protocol : CompioProtocol (CompressedProtocol.t E D) := compressed_protocol arch slice_addr.
Definition next (fuel : nat) (w : t * I) : task (t * I) CompioStream.Item := CompioStream.next fuel w.
Definition send (msg : Message.t) (w : t * I) : task (t * I) (result unit) := CompioStream.send msg w.
Definition send_text (text : bytes) (w : t * I) : task (t * I) (result unit) := CompioStream.send_text text w.
Definition send_binary (data : bytes) (w : t * I) : task (t * I) (result unit) := CompioStream.send_binary data w.
Definition close (code : Z) (reason : bytes) (w : t * I) : task (t * I) (result unit) := CompioStream.close code reason w.
Definition flush (w : t * I) : task (t * I) (result unit) := CompioStream.flush w.
End Methods.
End Stream.
End CompioCompressedWebSocketStream.

(** The builder of streams. *)
Module CompioWebSocketStreamBuilder.
Record t := Mk { config : Config.t; role_ : Role; high_water : Z; low_water : Z }.

Definition new : t := Mk Config.default Server CompioStream.DEFAULT_HIGH_WATER_MARK CompioStream.DEFAULT_LOW_WATER_MARK.
Definition role (r : Role) (b : t) : t := Mk (config b) r (high_water b) (low_water b).
Definition with_config (c : Config.t) (b : t) : t := Mk c (role_ b) (high_water b) (low_water b).
Definition max_message_size (size : Z) (b : t) : t := with_config (Config.set_max_message_size size (config b)) b.
Definition max_frame_size (size : Z) (b : t) : t := with_config (Config.set_max_frame_size size (config b)) b.
Definition write_buffer_size (size : Z) (b : t) : t := with_config (Config.set_write_buffer_size size (config b)) b.
Definition high_water_mark (size : Z) (b : t) : t := Mk (config b) (role_ b) size (low_water b).
Definition low_water_mark (size : Z) (b : t) : t := Mk (config b) (role_ b) (high_water b) size.
Definition build (b : t) : CompioWebSocketStream.t :=
  CompioStream.set_low_water_mark (low_water b) (CompioStream.set_high_water_mark (high_water b) (CompioWebSocketStream.from_raw (role_ b) (config b))).
End CompioWebSocketStreamBuilder.
