(* ===== verification/CompioSpec.v ===== *)
(** * The compio streams against the reference receiver

    [CompioIoSpec] is what is relied on of the transport, the timers and the clock, [CompioProtocolSpec] what is relied on of a protocol; both protocols keep to it.  Whatever the
    transport does, the messages [next] returns are those of the reference receiver, and a write that was not completed is the last. *)

From stdpp Require Import base list option strings.
From S2P Require Import Prelude Error Mask Utf8 Frame FrameSpec Protocol ReceiveSpec ProtocolSpec ProtocolProps NextSpec.
From S2P Require Import Heartbeat Cork Output Stream Deflate Compressed CompressedSpec Config WebSocket StreamSpec CompressedStream CompressedStreamSpec Compio.
Import CompioStream.

(** ** The environment

    [c_taken]: the bytes read so far.  [c_time]: an instant the clock has reached.  [supply]: bounds the reads that are still to bring bytes.  [c_written]: the bytes written.  [torn]:
    a write has failed or has been given up before it was complete. *)

Record IoView (I : Type) := MkIoView { v_taken : I -> bytes; v_time : I -> Z; v_supply : I -> nat; v_written : I -> bytes; v_torn : I -> bool }.
Arguments MkIoView {I}. Arguments v_taken {I}. Arguments v_time {I}. Arguments v_supply {I}. Arguments v_written {I}. Arguments v_torn {I}.

Section View.
Context {I : Type} (v : IoView I).

Definition io_same (i i' : I) : Prop :=
  v_taken v i' = v_taken v i /\ v_time v i <= v_time v i' /\ (v_supply v i' <= v_supply v i)%nat /\ v_written v i' = v_written v i /\ v_torn v i' = v_torn v i.
Definition io_written (b : bytes) (whole : bool) (i i' : I) : Prop :=
  v_taken v i' = v_taken v i /\ v_time v i <= v_time v i' /\ (v_supply v i' <= v_supply v i)%nat /\
  if whole then v_written v i' = v_written v i ++ b /\ v_torn v i' = v_torn v i else (exists n, v_written v i' = v_written v i ++ upto n b) /\ v_torn v i' = true.

(** An operation that completes; one that is dropped. *)
Definition io_effect (op : IoOp) (r : res IoError bytes) (i i' : I) : Prop :=
  match op, r with
  | Append, Ok data => v_taken v i' = v_taken v i ++ data /\ bytes_ok data /\ (data <> [] -> (v_supply v i' < v_supply v i)%nat) /\
      v_time v i <= v_time v i' /\ (v_supply v i' <= v_supply v i)%nat /\ v_written v i' = v_written v i /\ v_torn v i' = v_torn v i
  | WriteAll b, Ok _ => io_written b true i i'
  | WriteAll b, Err _ => io_written b false i i'
  | _, _ => io_same i i'
  end.
Definition io_dropped (op : IoOp) (i i' : I) : Prop := match op with WriteAll b => io_written b false i i' | _ => io_same i i' end.
End View.

Class CompioIoSpec (I : Type) `{CompioIo I} := {
  io_view : IoView I;
  io_now_spec i : let '(i', now) := io_now i in io_same io_view i i' /\ v_time io_view i <= now <= v_time io_view i' /\ 0 <= now < 2 ^ 64 * 1000000;
  io_poll_spec op i : let '(i', r) := io_poll op i in match r with Ready r => io_effect io_view op r i i' | Pending => io_same io_view i i' end;
  io_race_spec op d i : let '(i', r) := io_race op d i in match r with Some r => io_effect io_view op r i i' | None => io_dropped io_view op i i' /\ d <= v_time io_view i' end;
  io_finish_spec op i : let '(i', r) := io_finish op i in match r with Some r => io_effect io_view op r i i' | None => v_taken io_view i' = v_taken io_view i end;
  io_recover_spec timer i : let '(i', r) := io_recover timer i in
    match r with Some r => io_effect io_view Append r i i' | None => io_same io_view i i' /\ forall d, timer = Some d -> d <= v_time io_view i' end;
  io_draw_mask_spec i : io_same io_view i (fst (io_draw_mask i));
  io_draw_nonce_spec i : io_same io_view i (fst (io_draw_nonce i))
}.
Abbreviation c_taken := (v_taken io_view).
Abbreviation c_time := (v_time io_view).
Abbreviation supply := (v_supply io_view).
Abbreviation c_written := (v_written io_view).
Abbreviation torn := (v_torn io_view).

(** ** Frames *)

Definition opcode_of (m : Message.t) : OpCode :=
  match m with Message.Text _ => Text | Message.Binary _ => Binary | Message.Ping _ => Ping | Message.Pong _ => Pong | Message.Close _ => Close end.

(** [f]: the bytes of a whole frame *)
Definition is_frame (o : OpCode) (f : bytes) : Prop := exists payload mask rsv1, f = encode_frame_with_rsv [] o payload true mask rsv1.

(** No data frame follows a Close. *)
Fixpoint orderly (l : list OpCode) : bool :=
  match l with
  | [] => true
  | Close :: rest => forallb (fun o => negb (is_data o)) rest
  | _ :: rest => orderly rest
  end.

Lemma orderly_snoc l o : orderly l = true -> is_data o = false \/ Close ∉ l -> orderly (l ++ [o]) = true.
Proof.
  intros Hl Ho. induction l as [|o' l IH]; [by destruct o|].
  assert (Hrest : orderly l = true -> is_data o = false \/ Close ∉ l -> orderly (l ++ [o]) = true) by auto.
  destruct o'; cbn in *; try (apply Hrest; [done|]; destruct Ho as [|Ho]; [by left|right; intros Hx; apply Ho; by right]).
  destruct Ho as [Ho|Ho]; [|destruct Ho; by left]. rewrite forallb_app, Hl. cbn. by rewrite Ho.
Qed.

(** ** The protocol *)

(** [p_sim p buf raw fr]: after [p] has been given what precedes [raw], of which it still has [buf], the reference receiver is in state [fr].  [p_ref]: the
    messages of the reference receiver. *)
Class CompioProtocolSpec (P F : Type) `{CompioProtocol P} := {
  p_sim : P -> bytes -> bytes -> F -> Prop;
  p_ref : F -> bytes -> list Message.t;
  same_reading : P -> P -> Prop := fun p p' => forall buf raw fr, p_sim p buf raw fr -> p_sim p' buf raw fr;
  p_ref_nil fr : p_ref fr [] = [];
  p_sim_more p buf raw fr data : p_sim p buf raw fr -> bytes_ok data -> p_sim p (buf ++ data) (raw ++ data) fr;
  p_process p buf raw fr : buf <> [] -> p_sim p buf raw fr ->
    match cp_process_into_with_activity p buf with
    | Done (p', buf', ms, _) (Ok _) => exists fr' raw', p_sim p' buf' raw' fr' /\ p_ref fr' raw' = [] /\ forall more, bytes_ok more -> p_ref fr (raw ++ more) = ms ++ p_ref fr' (raw' ++ more)
    | Done (_, _, ms, _) (Err _) => forall more, bytes_ok more -> p_ref fr (raw ++ more) = ms
    | _ => False
    end;
  p_encode key close_key p m b :
    match cp_encode_message key close_key p m b with
    | Done (p', b') r => same_reading p p' /\ (Message.is_control m = true -> r = Ok tt) /\ match r with Ok _ => exists f, b' = b ++ f /\ is_frame (opcode_of m) f | Err _ => b' = b end
    | _ => Message.is_control m = false
    end;
  p_encode_pong key p data b : exists f, cp_encode_pong key p data b = b ++ f /\ is_frame Pong f;
  p_encode_close key p b : exists f, snd (cp_encode_close_response key p b) = b ++ f /\ is_frame Close f
}.

Lemma frame_added b o payload mask rsv1 : exists f, encode_frame_with_rsv b o payload true mask rsv1 = b ++ f /\ is_frame o f.
Proof. exists (encode_frame_with_rsv [] o payload true mask rsv1). split; [done|]. by eexists _, _, _. Qed.

(** A receiver that follows the reference, as a protocol does. *)
Lemma received_batch {S F : Type} {SU : Simdutf8} {SUok : Simdutf8Spec} (r : Receiver S Message.t) (arch : Arch) (slice_addr : bytes -> Z) (Harch : arch_ok arch)
    (spec : F -> Frame -> result (F * option Message.t)) (pol : policy) (sm : S -> bytes -> bytes -> F -> Prop) (Hfol : Follows r arch slice_addr id spec pol sm) p buf raw fr :
  buf <> [] -> sm p buf raw fr ->
  match receive_into r arch slice_addr p buf with
  | Done (p', buf', ms, _) (Ok _) => exists fr' raw', sm p' buf' raw' fr' /\ fst (ref_run spec pol fr' raw') = [] /\
      forall more, bytes_ok more -> fst (ref_run spec pol fr (raw ++ more)) = ms ++ fst (ref_run spec pol fr' (raw' ++ more))
  | Done (_, _, ms, _) (Err _) => forall more, bytes_ok more -> fst (ref_run spec pol fr (raw ++ more)) = ms
  | _ => False
  end.
Proof.
  intros Hne Hsim. pose proof (receive_loop r arch slice_addr Harch id spec pol sm _ p buf raw [] false fr Hsim ltac:(done) (or_introl (le_n (length buf + 2)%nat))) as Hr.
  unfold receive_into. destruct (loop_fuel _ _ _) as [[[[p' buf'] ms] a] [u|e]| |]; try done.
  - destruct Hr as (fr' & raw' & news & Hms & Hsim' & Hneed & Hr). rewrite list_fmap_id in Hms. cbn in Hms. subst news. exists fr', raw'. split; [done|].
    destruct (f_views (Follows := Hfol) _ _ _ _ Hsim') as [Hv _]. split; [rewrite ref_run_eq by exact (v_raw _ _ _ Hv); by rewrite Hneed|]. intros more Hm. by rewrite Hr.
  - destruct Hr as (news & Hms & Hr & _). rewrite list_fmap_id in Hms. cbn in Hms. by subst news.
Qed.

Section Instances.
Context {SU : Simdutf8} {SUok : Simdutf8Spec} (arch : Arch) (slice_addr : bytes -> Z) (Harch : arch_ok arch) (max : Z) (validate : bool) (pol : policy).

Definition plain_spec : CompioProtocolSpec Protocol.t fragments (H := plain_protocol arch slice_addr).
Proof.
  refine {| p_sim := sim max validate pol : Protocol.t -> _; p_ref fr raw := fst (ref_run (ref_frame max validate) pol fr raw) : list Message.t |}; cbn.
  - by intros fr.
  - apply sim_more.
  - intros p buf raw fr. apply (received_batch Protocol.typed_receiver arch slice_addr Harch (ref_frame max validate)), (typed_follows arch slice_addr max validate pol).
  - intros key _ p m b. unfold Protocol.encode_message. pose proof (encode_reader key p m b) as Hs.
    assert (Hf : exists f, snd (Protocol.encode_message_into key p m b) = b ++ f /\ is_frame (opcode_of m) f) by (destruct m; apply frame_added).
    destruct (Protocol.encode_message_into key p m b) as [p' b']. split; [|done]. intros buf raw fr. apply Hs.
  - intros key p data b. apply frame_added.
  - intros key p b. apply frame_added.
Defined.

Context {E D : Type} `{CodecTotal E D} (Hmax : 0 <= max).

Definition deflate_spec : CompioProtocolSpec (CompressedProtocol.t E D) (cstate (D := D)) (H := compressed_protocol arch slice_addr).
Proof.
  refine {| p_sim := csim max validate pol : CompressedProtocol.t E D -> _; p_ref fr raw := fst (ref_run (cref_frame max validate true) pol fr raw) : list Message.t |}; cbn.
  - by intros fr.
  - intros p buf raw fr data. apply (f_more (Follows := compressed_follows arch slice_addr max Hmax validate pol)).
  - intros p buf raw fr. apply (received_batch CompressedProtocol.receiver arch slice_addr Harch (cref_frame max validate true)), (compressed_follows arch slice_addr max Hmax validate pol).
  - intros key close_key p m b. destruct (CompressedProtocol.encode_message key close_key p m b) as [[p' b'] r| |] eqn:Ee; [|by destruct m..].
    split; [intros buf raw fr; by apply (c_encode_reader _ _ _ _ _ _ _ _ Ee)|]. split; [destruct m; cbn in Ee |- *; try done; intros _; by simplify_eq|].
    assert (Hd : forall o x, CompressedProtocol.encode_data key p o x b = Done (p', b') r -> match r with Ok _ => exists f, b' = b ++ f /\ is_frame o f | Err _ => b' = b end).
    { intros o x. unfold CompressedProtocol.encode_data. destruct (DeflateContext.compress _ x) as [e [[z|]|err]| |]; intros; simplify_eq; try done; apply frame_added. }
    destruct m as [x|x|x|x|x]; cbn in Ee; [by eapply Hd..| | |]; [injection Ee as <- <- <-; apply frame_added..|].
    unfold Protocol.encode_message_into in Ee. injection Ee as <- <- <-. apply frame_added.
  - intros key p data b. apply frame_added.
  - intros key p b. apply frame_added.
Defined.
End Instances.

(** ** Operations of the transport *)

Section Transport.
Context {I : Type} `{CompioIoSpec I}.

(** What all operations but reads keep. *)
Definition k_env (i i' : I) : Prop := c_taken i' = c_taken i /\ c_time i <= c_time i' /\ (supply i' <= supply i)%nat.
Definition k_quiet (i i' : I) : Prop := io_same io_view i i'.

Lemma k_quiet_refl i : k_quiet i i.
Proof. by repeat split. Qed.
Lemma k_quiet_trans i j k : k_quiet i j -> k_quiet j k -> k_quiet i k.
Proof. intros (? & ? & ? & ? & ?) (? & ? & ? & ? & ?). split_and!; (congruence || lia). Qed.
Lemma k_quiet_env i i' : k_quiet i i' -> k_env i i'.
Proof. intros (? & ? & ? & _). by split_and!. Qed.
Lemma k_env_trans i j k : k_env i j -> k_env j k -> k_env i k.
Proof. intros (? & ? & ?) (? & ? & ?). split_and!; (congruence || lia). Qed.
Lemma k_env_refl i : k_env i i.
Proof. apply k_quiet_env, k_quiet_refl. Qed.

(** What an operation that was awaited has done. *)
Definition awaited (limit : option Z) (op : IoOp) (i i' : I) (r : outcome (res IoError bytes)) : Prop :=
  match r with
  | Came r => io_effect io_view op r i i'
  | Expired => io_dropped io_view op i i' /\ is_Some limit
  | Never op' => op' = op /\ limit = None /\ c_taken i' = c_taken i
  end.

Lemma io_same_then v (i j k : I) op r : io_same v i j -> io_effect v op r j k -> io_effect v op r i k.
Proof.
  intros (E1 & E2 & E3 & E4 & E5). destruct op, r as [data|e]; cbn; unfold io_same, io_written; rewrite ?E1, ?E4, ?E5; intros; destruct_and?; split_and!; try done; try lia.
  intros Hne. match goal with Hx : data <> [] -> _ |- _ => specialize (Hx Hne) end. lia.
Qed.
Lemma io_same_dropped v (i j k : I) op : io_same v i j -> io_dropped v op j k -> io_dropped v op i k.
Proof. intros (E1 & E2 & E3 & E4 & E5). destruct op; cbn; unfold io_same, io_written; rewrite ?E1, ?E4, ?E5; intros; destruct_and?; split_and!; try done; lia. Qed.

Lemma compio_until_ok d op i : let '(i', r) := compio_until d op i in match r with Some r => io_effect io_view op r i i' | None => io_dropped io_view op i i' end.
Proof.
  unfold compio_until. pose proof (io_poll_spec op i) as Hp. destruct (io_poll op i) as [i1 [|r]]; [|done].
  pose proof (io_now_spec i1) as Hn. destruct (io_now i1) as [i2 now]. destruct Hn as (Hn & _).
  pose proof (io_race_spec op (now + Z.max 0 (d - now)) i2) as Hr. destruct (io_race _ _ i2) as [i3 [r|]].
  - eapply io_same_then; [exact Hp|]. by eapply io_same_then.
  - destruct Hr as [Hr _]. eapply io_same_dropped; [exact Hp|]. by eapply io_same_dropped.
Qed.

Lemma await_op_ok limit op i : let '(i', r) := await_op limit op i in awaited limit op i i' r.
Proof.
  unfold await_op. destruct limit as [d|].
  - pose proof (compio_until_ok d op i) as Hu. destruct (compio_until d op i) as [i' [r|]]; cbn; [done|]. split; [done|]. by eexists.
  - pose proof (io_finish_spec op i) as Hu. by destruct (io_finish op i) as [i' [r|]].
Qed.

(** A flush, with what it leaves of the buffer. *)
Definition flushed_bytes (limit : option Z) (b : bytes) (i i' : I) (b' : bytes) (r : outcome (result unit)) : Prop :=
  match r with
  | Came (Ok _) => k_env i i' /\ b' = [] /\ c_written i' = c_written i ++ b /\ torn i' = torn i
  | Came (Err _) | Expired => k_env i i' /\ (r = Expired -> is_Some limit) /\ (exists n, c_written i' = c_written i ++ upto n b)
  | Never op => limit = None /\ op <> Append
  end.

Lemma flush_bytes_ok limit b i : let '(i', b', r) := flush_bytes limit b i in flushed_bytes limit b i i' b' r.
Proof.
  unfold flush_bytes.
  assert (Hf : forall i0 b0, k_env i i0 -> c_written i0 = c_written i ++ b -> torn i0 = torn i -> b0 = [] ->
    let '(i', b', r) := let '(i1, r) := await_op limit FlushIo i0 in
      (i1, b0, match r with Came (Ok _) => Came (Ok tt) | Came (Err e) => Came (Err (from_io e)) | Expired => Expired | Never op => Never op end) in flushed_bytes limit b i i' b' r).
  { intros i0 b0 He Ew Et ->. pose proof (await_op_ok limit FlushIo i0) as Hf. destruct (await_op limit FlushIo i0) as [i1 r].
    assert (Hq : k_quiet i0 i1 -> k_env i i1 /\ c_written i1 = c_written i ++ b /\ torn i1 = torn i).
    { intros Hq. split; [by eapply k_env_trans; [|apply k_quiet_env]|]. destruct Hq as (_ & _ & _ & -> & ->). done. }
    assert (Hall : exists n, c_written i ++ b = c_written i ++ upto n b) by (exists (len b); by rewrite upto_ge by lia).
    destruct r as [[x|e]| |op]; cbn in Hf |- *.
    - destruct (Hq Hf) as (? & ? & ?). by split_and!.
    - destruct (Hq Hf) as (? & -> & ?). by split_and!.
    - destruct Hf as [Hf ?]. destruct (Hq Hf) as (? & -> & ?). by split_and!.
    - destruct Hf as (-> & ? & _). by split. }
  case_bool_decide as Hb; [apply Hf; [apply k_env_refl|by rewrite Hb, app_nil_r|done|done]|].
  pose proof (await_op_ok limit (WriteAll b) i) as Hw. destruct (await_op limit (WriteAll b) i) as [i1 [[x|e]| |op]]; cbn in Hw |- *.
  - destruct Hw as (? & ? & ? & ? & ?). by apply Hf.
  - destruct Hw as (? & ? & ? & ? & ?). by split_and!.
  - destruct Hw as [(? & ? & ? & ? & ?) ?]. by split_and!.
  - destruct Hw as (-> & ? & _). by split.
Qed.

Lemma shutdown_until_quiet d i : k_quiet i (fst (shutdown_until d i)) /\ match snd (shutdown_until d i) with Never _ => False | _ => True end.
Proof.
  unfold shutdown_until. pose proof (await_op_ok (Some d) ShutdownIo i) as Hs. destruct (await_op (Some d) ShutdownIo i) as [i1 [[x|e]| |op]]; cbn in Hs |- *; try done.
  - by destruct Hs.
  - by destruct Hs as (_ & ? & _).
Qed.

Lemma finish_close_env b d i : let '(i', _, _) := compio_finish_close b d i in k_env i i' /\ exists n, c_written i' = c_written i ++ upto n b.
Proof.
  unfold compio_finish_close. pose proof (flush_bytes_ok (Some d) b i) as Hf. destruct (flush_bytes (Some d) b i) as [[i1 b1] [[x|e]| |op]]; cbn in Hf; destruct_and?; try done.
  destruct (shutdown_until_quiet d i1) as [Hq _]. destruct (shutdown_until d i1) as [i2 r]. cbn in Hq. split; [eapply k_env_trans; [done|by apply k_quiet_env]|].
  destruct Hq as (_ & _ & _ & -> & _). exists (len b). by rewrite upto_ge by lia.
Qed.
End Transport.
