(* ===== verification/CompioNext.v ===== *)
(** * [next] of the compio streams

    The invariant of a compio stream and the parts of a turn of [next], over any transport and any protocol that keep to their specifications. *)

From stdpp Require Import base list option strings.
From S2P Require Import Prelude Error Mask Utf8 Frame FrameSpec Protocol ReceiveSpec ProtocolSpec Heartbeat Cork Output Stream Deflate Compressed Config WebSocket StreamSpec Compio CompioSpec.
Import CompioStream.

Section Next.
Context {P F I : Type} `{CompioProtocolSpec P F} `{CompioIoSpec I}.
Abbreviation t := (t P).
Abbreviation W := (W (P := P) (I := I)).
Implicit Types s : t.
Implicit Types i : I.

(** ** Steps *)

Lemma k_now_ok s i : exists i' v, instant_now (s, i) = ((s, i'), v) /\ k_quiet i i' /\ c_time i <= v <= c_time i' /\ 0 <= v < 2 ^ 64 * 1000000.
Proof. unfold instant_now. cbn [fst snd]. pose proof (io_now_spec i) as Hn. destruct (io_now i) as [i' v]. exists i', v. by split. Qed.

(** A deadline in milliseconds that has passed has passed on the clock. *)
Lemma millis_le at_ms v : instant_of at_ms <= v -> 0 <= v < 2 ^ 64 * 1000000 -> at_ms <= millis v.
Proof.
  unfold instant_of, millis. intros Hle Hr. pose proof (Z.div_lt_upper_bound v 1000000 (2 ^ 64) ltac:(lia) ltac:(lia)). pose proof (Z.div_pos v 1000000 ltac:(lia) ltac:(lia)).
  unfold wrap. rewrite Z.mod_small by lia. apply Z.div_le_lower_bound; lia.
Qed.
Lemma millis_range v : 0 <= v < 2 ^ 64 * 1000000 -> instant_of (millis v) <= v.
Proof.
  unfold instant_of, millis. intros Hr. pose proof (Z.div_lt_upper_bound v 1000000 (2 ^ 64) ltac:(lia) ltac:(lia)). pose proof (Z.div_pos v 1000000 ltac:(lia) ltac:(lia)).
  unfold wrap. rewrite Z.mod_small by lia. pose proof (Z.mul_div_le v 1000000 ltac:(lia)). lia.
Qed.

Lemma k_now_ms_ok s i : exists i' v, now_ms (s, i) = ((s, i'), v) /\ k_quiet i i' /\ (forall at_ms, instant_of at_ms <= c_time i -> at_ms <= v).
Proof.
  unfold now_ms. destruct (k_now_ok s i) as (i' & v & -> & Hq & Ht & Hr). exists i', (millis v). split; [done|]. split; [done|]. intros at_ms Ha. apply millis_le; [lia|done].
Qed.

Lemma k_key_ok s i : exists i' key, draw_key (s, i) = ((s, i'), key) /\ k_quiet i i'.
Proof.
  unfold draw_key. cbn [fst snd]. case_bool_decide; [|exists i, []; split; [done|apply k_quiet_refl]].
  pose proof (io_draw_mask_spec i) as Hq. destruct (io_draw_mask i) as [i' key]. by exists i', key.
Qed.

Lemma k_encode_ok msg s i : match encode_message msg (s, i) with
  | Done (s', i') r => k_quiet i i' /\ (Message.is_control msg = true -> r = Ok tt) /\ exists p b, s' = set_write_buf b (set_protocol p s) /\ same_reading (protocol s) p /\
      match r with Ok _ => exists f, b = write_buf s ++ f /\ is_frame (opcode_of msg) f | Err _ => b = write_buf s end
  | _ => Message.is_control msg = false
  end.
Proof.
  unfold encode_message. destruct (k_key_ok s i) as (i1 & key & -> & Hq1).
  match goal with |- context [let '(w, close_key) := ?x in _] => assert (Hx : exists i2 close_key, x = ((s, i2), close_key) /\ k_quiet i1 i2) end.
  { destruct (draws_close_key msg); [apply k_key_ok|exists i1, []; split; [done|apply k_quiet_refl]]. }
  destruct Hx as (i2 & close_key & -> & Hq2). pose proof (p_encode key close_key (protocol s) msg (write_buf s)) as He.
  destruct (cp_encode_message key close_key (protocol s) msg (write_buf s)) as [[p b] r| |]; [|done..]. destruct He as (Hs & Hr & Hf).
  split; [by eapply k_quiet_trans|]. split; [done|]. by exists p, b.
Qed.

Lemma k_begin_closing_ok s i : exists d i', begin_closing (s, i) = ((set_closing_deadline (Some d) (set_heartbeat (Heartbeat.stop (heartbeat s)) s), i'), d) /\ k_quiet i i'.
Proof.
  unfold begin_closing. cbn [fst snd on_stream]. change (closing_deadline (set_heartbeat _ s)) with (closing_deadline s). destruct (closing_deadline s) as [d|] eqn:Ed.
  - exists d, i. split; [|apply k_quiet_refl]. destruct s. cbn in *. by subst.
  - unfold on_stream. cbn [fst snd]. match goal with |- context [instant_now (?s', i)] => destruct (k_now_ok s' i) as (i' & v & -> & Hq & _) end. eexists _, i'. by split.
Qed.

Lemma k_finish_close_ok d s i : exists b done i', finish_close d (s, i) = (set_write_shutdown_complete done (set_write_buf b s), i') /\ k_env i i' /\
  exists n, c_written i' = c_written i ++ upto n (write_buf s).
Proof.
  unfold finish_close. cbn [fst snd]. pose proof (finish_close_env (write_buf s) d i) as He. destruct (compio_finish_close (write_buf s) d i) as [[i' b] done]. by exists b, done, i'.
Qed.

(** A flush of a stream that is not closed. *)
Definition flush_post s i (m : task W (result unit)) : Prop :=
  match m with
  | Returned (s', i') (Ok _) => s' = set_write_buf [] s /\ k_env i i' /\ torn i' = torn i /\ c_written i' = c_written i ++ write_buf s
  | Returned (s', i') (Err _) => (exists b, s' = close_stream (set_write_buf b s)) /\ k_env i i' /\ exists n, c_written i' = c_written i ++ upto n (write_buf s)
  | Waiting _ op => closing_deadline s = None /\ op <> Append
  | _ => False
  end.

Lemma k_flush_ok s i : state s <> StreamState.Closed -> flush_post s i (flush (s, i)).
Proof.
  intros Hs. unfold flush. rewrite bool_decide_eq_false_2 by done. pose proof (flush_bytes_ok (closing_deadline s) (write_buf s) i) as Hf.
  destruct (flush_bytes (closing_deadline s) (write_buf s) i) as [[i' b] [[x|e]| |op]]; cbn in Hf |- *.
  - destruct Hf as (? & -> & ? & ?). by split_and!.
  - destruct Hf as (? & _ & ?). split; [by exists b|done].
  - destruct Hf as (? & _ & ?). split; [by exists b|done].
  - by destruct Hf as [? ?].
Qed.

Lemma k_flush_control_ok s i : state s <> StreamState.Closed -> flush_post s i (flush_control (s, i)).
Proof.
  intros Hs. unfold flush_control. destruct (Heartbeat.next_hard_deadline (heartbeat s)) as [bound|]; [|by apply k_flush_ok]. rewrite bool_decide_eq_false_2 by done.
  unfold flush_control_until. pose proof (flush_bytes_ok (Some (instant_of (deadline_at bound))) (write_buf s) i) as Hf.
  destruct (flush_bytes _ (write_buf s) i) as [[i' b] [[[]|e]| |op]]; cbn in Hf |- *.
  - destruct Hf as (? & -> & ? & ?). by split_and!.
  - destruct Hf as (? & _ & ?). split; [by exists b|done].
  - destruct Hf as (? & _ & ?). split; [by exists b|done].
  - by destruct Hf.
Qed.

Lemma k_inbound_ok pong s i : exists hb i', note_inbound pong (s, i) = (set_heartbeat hb s, i') /\ k_quiet i i' /\
  Heartbeat.stopped hb = Heartbeat.stopped (heartbeat s) /\ (pong = None -> calmer (heartbeat s) hb).
Proof.
  unfold note_inbound. cbn [fst]. destruct (Heartbeat.tracks_inbound_activity _).
  - destruct (k_now_ms_ok s i) as (i' & v & -> & Hq & _). exists (fst (Heartbeat.on_inbound (heartbeat s) v pong)), i'.
    split; [done|]. split; [done|]. split; [apply on_inbound_stopped|]. intros ->. apply on_inbound_calmer.
  - exists (heartbeat s), i. split; [by destruct s|]. split; [apply k_quiet_refl|]. split; [done|]. intros _. apply calmer_refl.
Qed.

(** ** The invariant *)

(** The leftover of the handshake, what had been read and written before the stream was made, and the first state of the reference receiver. *)
Context (leftover base sent : bytes) (fr0 : F).
(** Whether the closing handshake had begun before. *)
Context (closing : bool).

(** The messages of the reference receiver on what has been read and what may follow. *)
Definition k_messages i (more : bytes) : list Message.t := p_ref fr0 (leftover ++ from (len base) (c_taken i ++ more)).
Definition k_prefix (L : list Message.t) i : Prop := forall more, bytes_ok more -> exists rest, k_messages i more = L ++ rest.

(** What has been read is delivered, held, or in the buffer. *)
Definition k_accounted (L : list Message.t) s i : Prop :=
  match pending_parse_error s with
  | None => exists fr raw, p_sim (protocol s) (read_buf s) raw fr /\ (read_buf s = [] -> p_ref fr raw = []) /\
      forall more, bytes_ok more -> k_messages i more = L ++ reverse (pending_messages s) ++ p_ref fr (raw ++ more)
  | Some _ => forall more, bytes_ok more -> k_messages i more = L ++ reverse (pending_messages s)
  end.

Definition k_closing s : Prop := (is_Some (closing_deadline s) -> Heartbeat.stopped (heartbeat s) = true) /\ (closing = true -> is_Some (closing_deadline s)).

(** What has been written and what is in the buffer are whole frames, no data after a Close; after a Close the stream is not open. *)
Definition frames_ok (fs : list (OpCode * bytes)) : Prop := Forall (fun f => is_frame (fst f) (snd f)) fs /\ orderly (map fst fs) = true.
Definition k_wire s i : Prop := torn i = false /\ exists fs, frames_ok fs /\ (Close ∈ map fst fs -> state s <> StreamState.Open) /\ c_written i ++ write_buf s = sent ++ concat (map snd fs).
(** The last frame may be cut short. *)
Definition k_cut i : Prop := exists fs rest, frames_ok fs /\ c_written i ++ rest = sent ++ concat (map snd fs).

Definition k_live (L : list Message.t) s i : Prop := state s <> StreamState.Closed /\ k_wire s i /\ k_closing s /\ k_accounted L s i.
Definition k_ended (L : list Message.t) i : Prop := k_prefix L i /\ k_cut i.
Definition k_inv (L : list Message.t) s i : Prop := k_live L s i \/ (state s = StreamState.Closed /\ k_ended L i).

Lemma k_env_messages i i' more : k_env i i' -> k_messages i' more = k_messages i more.
Proof. intros (E & _). unfold k_messages. by rewrite E. Qed.
Lemma k_env_prefix L i i' : k_env i i' -> k_prefix L i -> k_prefix L i'.
Proof. intros He Hp more Hm. rewrite (k_env_messages i i') by done. by apply Hp. Qed.

Lemma k_accounted_prefix L s i : k_accounted L s i -> k_prefix L i.
Proof.
  unfold k_accounted. intros Ha more Hm. destruct (pending_parse_error s); [|destruct Ha as (fr & raw & _ & _ & Ha)]; rewrite Ha by done; by eexists.
Qed.
Lemma k_prefix_snoc L m i : k_prefix (L ++ [m]) i -> k_prefix L i.
Proof. intros Hp more Hm. destruct (Hp more Hm) as [rest ->]. rewrite <- app_assoc. by eexists. Qed.
Lemma k_inv_prefix L s i : k_inv L s i -> k_prefix L i.
Proof. intros [(_ & _ & _ & Ha)|[_ [? _]]]; [by eapply k_accounted_prefix|done]. Qed.

(** What only writes keeps what has been read. *)
Lemma k_accounted_kept L s s' i i' : k_accounted L s i -> k_env i i' -> same_reading (protocol s) (protocol s') -> read_buf s' = read_buf s ->
  pending_messages s' = pending_messages s -> pending_parse_error s' = pending_parse_error s -> k_accounted L s' i'.
Proof.
  unfold k_accounted. intros Ha He Hp -> -> ->. destruct (pending_parse_error s).
  - intros more Hm. rewrite (k_env_messages i i') by done. by apply Ha.
  - destruct Ha as (fr & raw & Hsim & Hn & Ha). exists fr, raw. split; [by apply Hp|]. split; [done|]. intros more Hm. rewrite (k_env_messages i i') by done. by apply Ha.
Qed.

Lemma same_reading_refl (p : P) : same_reading p p.
Proof. by intros ? ? ?. Qed.

Lemma k_not_closing s : k_closing s -> closing_deadline s = None -> closing = false.
Proof. intros [_ Hc] E. destruct closing; [|done]. destruct (Hc eq_refl). congruence. Qed.

Lemma k_closed L s i i' : k_prefix L i -> k_env i i' -> k_cut i' -> state s = StreamState.Closed -> k_inv L s i'.
Proof. intros Hp He Hc Hs. right. split; [done|]. split; [by eapply k_env_prefix|done]. Qed.

(** *** The output *)

Lemma k_wire_quiet s s' i i' : k_wire s i -> k_quiet i i' -> write_buf s' = write_buf s -> (state s' = StreamState.Open -> state s = StreamState.Open) -> k_wire s' i'.
Proof.
  intros (Ht & fs & Hfs & Hc & Ew) (_ & _ & _ & E1 & E2) Eb Es. split; [congruence|]. exists fs. rewrite E1, Eb. split; [done|]. split; [|done]. intros Hx Ho. by apply (Hc Hx), Es.
Qed.

Lemma k_wire_added s s' i o f : k_wire s i -> write_buf s' = write_buf s ++ f -> is_frame o f -> is_data o = false \/ state s = StreamState.Open ->
  (state s' = StreamState.Open -> state s = StreamState.Open /\ o <> Close) -> k_wire s' i.
Proof.
  intros (Ht & fs & [Hfs Hor] & Hc & Ew) Eb Hf Ho Hs. split; [done|]. exists (fs ++ [(o, f)]). rewrite !map_app, concat_app. cbn [map fst snd concat]. rewrite app_nil_r. split; [split|].
  - apply Forall_app. split; [done|]. by constructor.
  - rewrite map_app. apply orderly_snoc; [done|]. destruct Ho as [|Ho]; [by left|right; intros Hx; by apply (Hc Hx)].
  - split; [|by rewrite Eb, app_assoc, Ew, app_assoc]. intros Hx Hs'. destruct (Hs Hs') as [? ?]. apply elem_of_app in Hx as [Hx|Hx]; [by apply (Hc Hx)|].
    apply list_elem_of_singleton in Hx. by subst.
Qed.

Lemma k_wire_flushed s s' i i' : k_wire s i -> c_written i' = c_written i ++ write_buf s -> torn i' = torn i -> write_buf s' = [] -> (state s' = StreamState.Open -> state s = StreamState.Open) -> k_wire s' i'.
Proof.
  intros (Ht & fs & Hfs & Hc & Ew) E1 E2 Eb Es. split; [congruence|]. exists fs. rewrite E1, Eb, app_nil_r. split; [done|]. split; [|done]. intros Hx Ho. by apply (Hc Hx), Es.
Qed.

Lemma k_wire_cut s i i' n : k_wire s i -> c_written i' = c_written i ++ upto n (write_buf s) -> k_cut i'.
Proof. intros (_ & fs & Hfs & _ & Ew) E. exists fs, (from n (write_buf s)). split; [done|]. by rewrite E, <- app_assoc, upto_from. Qed.

Lemma k_wire_whole s i : k_wire s i -> k_cut i.
Proof. intros (_ & fs & Hfs & _ & Ew). by exists fs, (write_buf s). Qed.
Lemma k_cut_quiet i i' : k_cut i -> k_quiet i i' -> k_cut i'.
Proof. intros (fs & rest & Hfs & E) (_ & _ & _ & Ew & _). exists fs, rest. by rewrite Ew. Qed.
Lemma k_ended_quiet L i i' : k_ended L i -> k_quiet i i' -> k_ended L i'.
Proof. intros [Hp Hc] Hq. split; [eapply k_env_prefix; [by apply k_quiet_env|done]|by eapply k_cut_quiet]. Qed.
Lemma k_live_ended L s i : k_live L s i -> k_ended L i.
Proof. intros (_ & Hw & _ & Ha). split; [by eapply k_accounted_prefix|by eapply k_wire_whole]. Qed.
Lemma k_ended_closed L s i : k_ended L i -> state s = StreamState.Closed -> k_inv L s i.
Proof. intros He Hs. by right. Qed.

(** ** Messages *)

(** What becomes of message [m], the next of the reference receiver. *)
Definition k_handled (L : list Message.t) (m : Message.t) (x : task W (result Message.t)) : Prop :=
  match x with
  | Returned (s, i) (Ok m') => m' = m /\ k_inv (L ++ [m]) s i /\ (Message.is_close m = true -> state s = StreamState.Closed)
  | Returned (s, i) (Err _) => k_inv L s i /\ state s = StreamState.Closed
  | Waiting _ op => closing = false /\ op <> Append
  | _ => False
  end.

Lemma k_handle_ping_ok L m data s i : k_live (L ++ [m]) s i -> Message.is_close m = false -> k_handled L m (handle_ping m data (s, i)).
Proof.
  intros Hl Hm. pose proof Hl as (Hs & Ht & Hc & Ha). unfold handle_ping. cbn [fst snd]. destruct (_ || _); [by split_and!; [|left|congruence]|].
  assert (Hb : exists i1 spent, budget_spent (s, i) = ((s, i1), spent) /\ k_quiet i i1).
  { unfold budget_spent. cbn [fst]. destruct (closing_deadline s); [|exists i, false; split; [done|apply k_quiet_refl]].
    destruct (k_now_ok s i) as (i1 & v & -> & Hq & _). by eexists i1, _. }
  destruct Hb as (i1 & spent & -> & Hq1). assert (Hl1 : k_live (L ++ [m]) s i1).
  { split; [done|]. split; [by eapply k_wire_quiet|]. split; [done|]. eapply k_accounted_kept; try done; [by apply k_quiet_env|apply same_reading_refl]. }
  destruct spent; [by split_and!; [|left|congruence]|]. destruct (k_key_ok s i1) as (i2 & key & -> & Hq2). unfold on_stream. cbn [fst snd].
  match goal with |- context [flush_control (?x, _)] => set (s2 := x) end. pose proof (k_flush_control_ok s2 i2 Hs) as Hf. assert (Hq : k_quiet i i2) by (by eapply k_quiet_trans).
  assert (Hw2 : k_wire s2 i2).
  { destruct (p_encode_pong key (protocol s) data (write_buf s)) as (f & Ef & Hfr). eapply (k_wire_added s s2 i2 Pong f); try done; [by eapply k_wire_quiet|by left]. }
  destruct (flush_control (s2, i2)) as [[s3 i3] [u|e]|[s3 i3] op| |]; cbn [await_bind k_handled flush_post] in *; try done.
  - destruct Hf as (-> & He & Et & Ew). split; [done|]. split; [left|congruence]. split; [done|]. split; [by eapply (k_wire_flushed s2)|]. split; [done|].
    eapply k_accounted_kept; try done; [eapply k_env_trans; [by apply k_quiet_env|done]|apply same_reading_refl].
  - destruct Hf as ((b & ->) & He & n & Ew). split; [|done]. eapply k_closed; [|exact He|by eapply (k_wire_cut s2)|done]. eapply k_env_prefix; [by apply k_quiet_env|]. by eapply k_prefix_snoc, k_accounted_prefix.
  - destruct Hf. split; [by apply (k_not_closing s)|done].
Qed.

Lemma k_answer_close_ok s i : exists p b i', answer_close (s, i) = (set_write_buf b (set_protocol p s), i') /\ k_quiet i i' /\
  (b = write_buf s \/ exists f, b = write_buf s ++ f /\ is_frame Close f).
Proof.
  unfold answer_close. cbn [fst].
  assert (Hself : exists p b i', (s, i) = (set_write_buf b (set_protocol p s), i') /\ k_quiet i i' /\ (b = write_buf s \/ exists f, b = write_buf s ++ f /\ is_frame Close f)).
  { exists (protocol s), (write_buf s), i. split; [by destruct s|]. split; [apply k_quiet_refl|by left]. }
  destruct (state s); [| |done|done]; (destruct (k_key_ok s i) as (i1 & key & -> & Hq); pose proof (p_encode_close key (protocol s) (write_buf s)) as Hf;
    destruct (cp_encode_close_response key (protocol s) (write_buf s)) as [p b]; exists p, b, i1; split_and!; by auto).
Qed.

Lemma k_handle_close_ok L reason s i : k_live (L ++ [Message.Close reason]) s i -> k_handled L (Message.Close reason) (handle_close reason (s, i)).
Proof.
  intros (Hs & Hw & Hc & Ha). unfold handle_close. destruct (k_begin_closing_ok s i) as (d & i1 & -> & Hq1). unfold on_stream. cbn [fst snd].
  match goal with |- context [answer_close (?x, _)] => set (s1 := x) end. destruct (k_answer_close_ok s1 i1) as (p & b & i2 & -> & Hq2 & Hb). cbn [on_stream fst snd].
  set (s2 := set_state _ _). assert (Hq : k_quiet i i2) by (by eapply k_quiet_trans). pose proof (k_accounted_prefix _ _ _ Ha) as Hp.
  assert (Hw1 : k_wire s i2) by (by eapply k_wire_quiet).
  assert (Hw2 : k_wire s2 i2).
  { destruct Hb as [->|(f & -> & Hf)]; [by eapply (k_wire_quiet s); [|apply k_quiet_refl|..]|]. by eapply (k_wire_added s s2 i2 Close f); [..|left|]. }
  destruct (write_shutdown_complete s2); [cbn; split; [done|]; split; [by eapply k_closed; [|apply k_quiet_env|eapply k_wire_whole|]|done]|].
  destruct (k_finish_close_ok d s2 i2) as (b3 & done3 & i3 & -> & He & n & Ew). cbn. split; [done|]. split; [|done]. eapply k_closed; [exact Hp| |by eapply (k_wire_cut s2)|done].
  eapply k_env_trans; [by apply k_quiet_env|done].
Qed.

Lemma k_handle_ok L m s i : k_live (L ++ [m]) s i -> k_handled L m (handle_incoming_message m (s, i)).
Proof.
  intros Hl. destruct m; cbn [handle_incoming_message]; try (split_and!; [done|by left|done]); [by apply k_handle_ping_ok|by apply k_handle_close_ok].
Qed.

(** ** The parts of a turn *)

Definition k_weight s : nat := if bool_decide (pending_messages s = []) && bool_decide (pending_parse_error s = None) then 1 else 0.
Definition k_rank s i : nat := 2 * supply i + 2 * pings (heartbeat s) + k_weight s.

Definition k_returned (L : list Message.t) s i (r : Item) : Prop :=
  match r with
  | Some (Ok m) => k_inv (L ++ [m]) s i /\ (Message.is_close m = true -> state s = StreamState.Closed)
  | _ => k_inv L s i /\ state s = StreamState.Closed
  end.
Definition k_waits (L : list Message.t) i (op : IoOp) : Prop := closing = false /\ (op = Append -> k_messages i [] = L).

(** A part of a turn that began with rank [R]; [Q] holds where the next one begins. *)
Definition k_part (L : list Message.t) (R : nat) (Q : t -> I -> Prop) (m : task W flow) : Prop :=
  match m with
  | Returned (s, i) (Return r) => k_returned L s i r
  | Returned (s, i) Continue => k_live L s i /\ (k_rank s i < R)%nat
  | Returned (s, i) Through => Q s i
  | Waiting (_, i) op => k_waits L i op
  | _ => False
  end.

Lemma k_part_bind L R Q Q' m k : k_part L R Q m -> (forall s i, Q s i -> k_part L R Q' (k (s, i))) -> k_part L R Q' (part m k).
Proof. intros Hm Hk. unfold part. destruct m as [[s i] [r| |]|[s i] op| |]; cbn in *; try done. by apply Hk. Qed.

Definition k_at (L : list Message.t) (R : nat) s i : Prop := k_live L s i /\ (k_rank s i <= R)%nat.
Definition no_messages s : Prop := pending_messages s = [].
Definition nothing s : Prop := pending_messages s = [] /\ pending_parse_error s = None.

Lemma k_live_prefix L s i : k_live L s i -> k_prefix L i.
Proof. intros (_ & _ & _ & Ha). by eapply k_accounted_prefix. Qed.

(** A step that reads nothing and changes only the heartbeat. *)
Lemma k_live_heartbeat L s i hb i' : k_live L s i -> k_quiet i i' -> Heartbeat.stopped hb = Heartbeat.stopped (heartbeat s) -> k_live L (set_heartbeat hb s) i'.
Proof.
  intros (Hs & Ht & Hc & Ha) Hq Hst. split; [done|]. split; [by eapply k_wire_quiet|]. split; [split; [intros Hd; cbn; rewrite Hst; by apply Hc|apply Hc]|].
  eapply k_accounted_kept; try done; [by apply k_quiet_env|apply same_reading_refl].
Qed.
Lemma k_live_quiet L s i i' : k_live L s i -> k_quiet i i' -> k_live L s i'.
Proof. intros Hl Hq. pose proof (k_live_heartbeat L s i (heartbeat s) i' Hl Hq eq_refl) as Hl'. by destruct s. Qed.

Lemma k_message_part_ok L R s i : k_at L R s i -> k_part L R (fun s' i' => k_at L R s' i' /\ no_messages s') (message_part (s, i)).
Proof.
  intros [Hl HR]. unfold message_part, next_pending_message. cbn [fst snd]. destruct (reverse (pending_messages s)) as [|m rest] eqn:Er.
  - cbn. split; [done|]. apply (f_equal reverse) in Er. by rewrite reverse_involutive in Er.
  - set (s1 := set_pending_messages _ s). assert (Hl1 : k_live (L ++ [m]) s1 i).
    { destruct Hl as (Hs & Ht & Hc & Ha). split; [done|]. split; [done|]. split; [done|]. unfold k_accounted in *. change (pending_parse_error s1) with (pending_parse_error s).
      change (pending_messages s1) with (reverse rest). rewrite Er in Ha. rewrite reverse_involutive. destruct (pending_parse_error s).
      - intros more Hm. by rewrite <- app_assoc, Ha.
      - destruct Ha as (fr & raw & Hsim & Hn & Ha). exists fr, raw. split; [done|]. split; [done|]. intros more Hm. rewrite Ha, <- app_assoc by done. done. }
    destruct (k_inbound_ok (match m with Message.Pong payload => Some payload | _ => None end) s1 i) as (hb & i1 & -> & Hq & Hst & _).
    pose proof (k_handle_ok L m _ _ (k_live_heartbeat _ _ _ _ _ Hl1 Hq Hst)) as Hh.
    destruct (handle_incoming_message m _) as [[s2 i2] [m'|e]|[s2 i2] op| |]; cbn in Hh |- *; try done; [by destruct Hh as (-> & ? & ?)|].
    destruct Hh as [? Hop]. by split.
Qed.

Lemma k_error_part_ok L R s i : k_at L R s i /\ no_messages s -> k_part L R (fun s' i' => k_at L R s' i' /\ nothing s') (error_part (s, i)).
Proof.
  intros [[Hl HR] Hm]. unfold error_part. cbn [fst]. destruct (pending_parse_error s) as [e|] eqn:Ep; [|exact (conj (conj Hl HR) (conj Hm Ep))].
  cbn. split; [|done]. apply k_ended_closed; [by eapply k_live_ended|done].
Qed.

(** What a deadline leaves: the stream has ended, or a Ping is out. *)
Definition k_timed (L : list Message.t) (R : nat) (Q : t -> I -> Prop) (m : task W (option Error)) : Prop :=
  match m with
  | Returned (s, i) (Some _) => k_inv L s i /\ state s = StreamState.Closed
  | Returned (s, i) None => Q s i
  | Waiting _ op => closing = false /\ op <> Append
  | _ => False
  end.

Lemma k_timeout_ok code reason error L R Q s i : k_prefix L i -> k_wire s i -> k_timed L R Q (timeout_close code reason error (s, i)).
Proof.
  intros Hp Hw. unfold timeout_close. destruct (k_begin_closing_ok s i) as (d & i1 & -> & Hq1). unfold on_stream. cbn [fst snd].
  match goal with |- context [encode_message ?m (?x, _)] => set (s1 := x); pose proof (k_encode_ok m s1 i1) as He; destruct (encode_message m (s1, i1)) as [[s2 i2] r| |] end; try done.
  destruct He as (Hq2 & Hr & p & b & -> & _ & Hb). rewrite (Hr eq_refl) in Hb. destruct Hb as (f & -> & Hf). cbn [from_comp await_bind]. set (s2 := set_write_buf _ _).
  assert (Hq : k_quiet i i2) by (by eapply k_quiet_trans). assert (Hw2 : k_wire s2 i2) by (by eapply (k_wire_added s s2 i2 Close f); [eapply k_wire_quiet|..|left|]).
  destruct (k_finish_close_ok d s2 i2) as (b3 & done3 & i3 & -> & He3 & n & Ew). cbn. split; [|done]. eapply k_closed; [exact Hp| |by eapply (k_wire_cut s2)|done].
  eapply k_env_trans; [by apply k_quiet_env|done].
Qed.

(** The state after a Ping keeps everything but the output and the heartbeat. *)
Definition k_pinged (L : list Message.t) s i s' i' : Prop :=
  k_live L s' i' /\ (supply i' <= supply i)%nat /\ (pings (heartbeat s') < pings (heartbeat s))%nat /\ k_weight s' = k_weight s.

Lemma k_ping_ok now L R s i at_ms : k_live L s i -> Heartbeat.next_deadline (heartbeat s) = Some (DPing at_ms) -> at_ms <= now ->
  k_timed L R (fun s' i' => k_pinged L s i s' i') (send_ping now (s, i)).
Proof.
  intros Hl Hd Ht. pose proof Hl as (Hs & Htorn & Hc & Ha). unfold send_ping. pose proof (io_draw_nonce_spec i) as Hq0. destruct (io_draw_nonce i) as [i0 nonce]. cbn [fst] in Hq0.
  destruct (ping_deadline_facts _ _ Hd) as [Hst Hout]. unfold Heartbeat.ping_due. rewrite Hd, (proj2 (Z.leb_le _ _) Ht). set (hb := Heartbeat.set_outstanding _ _).
  pose proof (k_encode_ok (Message.Ping (to_be_bytes 8 nonce)) (set_heartbeat hb s) i0) as He. destruct (encode_message _ _) as [[s1 i1] r| |]; [|done..].
  destruct He as (Hq1 & Hr & p & b & -> & Hp & Hb). rewrite (Hr eq_refl) in Hb |- *. destruct Hb as (f & -> & Hfr). cbn [from_comp await_bind]. set (s1 := set_write_buf _ _).
  assert (Hq : k_quiet i i1) by (by eapply k_quiet_trans). assert (Hw1 : k_wire s1 i1) by (by eapply (k_wire_added s s1 i1 Ping f); [eapply k_wire_quiet|..|left|]).
  pose proof (k_flush_control_ok s1 i1 Hs) as Hf. destruct (flush_control (s1, i1)) as [[s2 i2] [u|e]|[s2 i2] op| |]; cbn [await_bind flush_post] in *; try done.
  - destruct Hf as (-> & He & Et & Ew). destruct (k_now_ms_ok (set_write_buf [] s1) i2) as (i3 & v & -> & Hq3 & _). unfold on_stream. cbn [fst snd k_timed].
    assert (Henv : k_env i i3) by (eapply k_env_trans; [by apply k_quiet_env|]; eapply k_env_trans; [done|by apply k_quiet_env]).
    assert (Hcal : calmer hb (Heartbeat.ping_flushed hb v)) by apply ping_flushed_calmer.
    assert (Ep : pings hb = 0%nat) by (unfold pings, hb; cbn; by rewrite Hst). assert (Ep0 : pings (heartbeat s) = 1%nat) by (unfold pings; by rewrite Hst, Hout).
    split; [split; [done|]; split; [|split]|].
    + eapply (k_wire_quiet (set_write_buf [] s1) _ i2); try done. by eapply (k_wire_flushed s1).
    + split; [|apply Hc]. intros Hcl. etransitivity; [exact (proj1 Hcal)|]. by apply Hc.
    + eapply k_accounted_kept; [exact Ha|exact Henv|exact Hp|done..].
    + split; [apply Henv|]. split; [|done]. change (heartbeat _) with (Heartbeat.ping_flushed hb v) at 1. destruct Hcal as [_ ?]. lia.
  - destruct Hf as ((b2 & ->) & He & n & Ew). split; [|done]. eapply k_closed; [by eapply k_live_prefix| |by eapply (k_wire_cut s1)|done]. eapply k_env_trans; [by apply k_quiet_env|done].
  - destruct Hf. split; [by apply (k_not_closing s)|done].
Qed.

Lemma k_deadline_part_ok L R s i : k_at L R s i /\ nothing s -> k_part L R (fun s' i' => k_at L R s' i' /\ nothing s') (deadline_part (s, i)).
Proof.
  intros [[Hl HR] Hn]. unfold deadline_part. cbn [fst]. destruct (Heartbeat.next_deadline (heartbeat s)) as [d|] eqn:Ed; [|by split].
  destruct (k_now_ms_ok s i) as (i1 & v & -> & Hq & _). pose proof (k_live_quiet _ _ _ _ Hl Hq) as Hl1.
  assert (HR1 : (k_rank s i1 <= R)%nat) by (destruct Hq as (_ & _ & ? & _); unfold k_rank in *; lia).
  destruct (deadline_at d <=? v) eqn:Ev; [|by split]. unfold handle_expired_deadline. cbn [fst]. rewrite Ed. unfold handle_deadline. rewrite Ev.
  assert (Ht : k_timed L R (fun s' i' => k_pinged L s i1 s' i') match d with
    | DPong _ => timeout_close (Config.pong_timeout_close_code (config s)) (bounded_close_reason (Config.pong_timeout_close_reason (config s))) HeartbeatTimeout (s, i1)
    | DIdle _ => timeout_close CloseReason.GOING_AWAY (str "Connection idle timeout") IdleTimeout (s, i1)
    | DPing _ => send_ping v (s, i1) end).
  { destruct d; [by apply k_timeout_ok; [eapply k_live_prefix|apply Hl1]..|]. eapply k_ping_ok; [done|exact Ed|cbn in Ev; lia]. }
  match type of Ht with k_timed _ _ _ ?m => change (k_part L R (fun s' i' => k_at L R s' i' /\ nothing s') (await! (w, error) := m in
    match error with Some e => Returned w (Return (Some (Err e))) | None => Returned w Continue end)); destruct m as [[s2 i2] [e|]|[s2 i2] op| |] end; cbn in Ht |- *; try done.
  - destruct Ht as (Hl2 & Hsup & Hpi & Hw). split; [done|]. unfold k_rank in *. lia.
  - destruct Ht as [? Hop]. by split.
Qed.

(** Everything that can be parsed has been delivered. *)
Definition k_parsed (L : list Message.t) s i : Prop := exists fr raw, p_sim (protocol s) (read_buf s) raw fr /\ p_ref fr raw = [] /\
  forall more, bytes_ok more -> k_messages i more = L ++ p_ref fr (raw ++ more).
Definition k_idle (L : list Message.t) (R : nat) s i : Prop := k_at L R s i /\ nothing s /\ k_parsed L s i.

Lemma k_weight_0 s : pending_messages s <> [] \/ pending_parse_error s <> None -> k_weight s = 0%nat.
Proof. unfold k_weight. intros [Hx|Hx]; [rewrite (bool_decide_eq_false_2 (pending_messages s = [])) by done|rewrite (bool_decide_eq_false_2 (pending_parse_error s = None)) by done]; [done|by rewrite andb_false_r]. Qed.
Lemma k_weight_1 s : nothing s -> k_weight s = 1%nat.
Proof. unfold k_weight. intros [-> ->]. done. Qed.

(** What a batch leaves behind. *)
Definition k_batch (L : list Message.t) s i (m : comp W bool) : Prop :=
  match m with
  | Done (s', i') r => k_quiet i i' /\ calmer (heartbeat s) (heartbeat s') /\ state s' = state s /\ write_buf s' = write_buf s /\ closing_deadline s' = closing_deadline s /\ pending_parse_error s' = None /\
      match r with
      | Ok b => k_accounted L s' i' /\ b = negb (bool_decide (pending_messages s' = [])) /\ (pending_messages s' = [] -> k_parsed L s' i')
      | Err _ => forall more, bytes_ok more -> k_messages i' more = L ++ reverse (pending_messages s')
      end
  | _ => False
  end.

Lemma k_process_ok L s i : k_live L s i -> nothing s -> k_batch L s i (process_read_buf (s, i)).
Proof.
  intros (Hs & Ht & Hc & Ha) [Em Ep]. unfold process_read_buf. pose proof Ha as Ha0. unfold k_accounted in Ha. rewrite Ep, Em in Ha. destruct Ha as (fr & raw & Hsim & Hn & Ha).
  case_bool_decide as Hb.
  - unfold k_batch. rewrite Em. split; [apply k_quiet_refl|]. split; [apply calmer_refl|]. do 4 (split; [done|]). split; [exact Ha0|]. split; [done|].
    intros _. exists fr, raw. split; [done|]. auto.
  - rewrite Em, bool_decide_eq_true_2 by done. cbn [assert_or_panic]. pose proof (p_process (protocol s) (read_buf s) raw fr Hb Hsim) as Hr.
    destruct (cp_process_into_with_activity (protocol s) (read_buf s)) as [[[[p buf] ms] accepted] r| |]; try done. set (s1 := set_pending_messages ms _).
    assert (Hni : exists hb i', (if accepted then note_inbound None (s1, i) else (s1, i)) = (set_heartbeat hb s1, i') /\ k_quiet i i' /\ calmer (heartbeat s) hb).
    { destruct accepted; [destruct (k_inbound_ok None s1 i) as (hb & i' & -> & Hq & _ & Hcal); by exists hb, i'; split_and!; auto|].
      exists (heartbeat s1), i. split; [by destruct s|]. split; [apply k_quiet_refl|apply calmer_refl]. }
    destruct Hni as (hb & i' & -> & Hq & Hcal). unfold on_stream. cbn [fst snd k_batch].
    split; [done|]. split; [exact Hcal|]. split; [done|]. split; [done|]. split; [done|]. split; [exact Ep|]. change (pending_messages (set_pending_messages _ _)) with (reverse ms).
    assert (Hall : forall more, k_messages i' more = k_messages i more) by (intros more; by apply k_env_messages, k_quiet_env).
    destruct r as [u|e].
    + destruct Hr as (fr' & raw' & Hsim' & Hz & Hr). split; [|split; [done|]].
      * unfold k_accounted. change (pending_parse_error _) with (pending_parse_error s). rewrite Ep. exists fr', raw'. split; [exact Hsim'|]. split; [done|].
        intros more Hm. rewrite Hall, Ha, Hr by done. change (pending_messages (set_pending_messages _ _)) with (reverse ms). by rewrite reverse_involutive.
      * intros Ems. apply (f_equal reverse) in Ems. rewrite reverse_involutive in Ems. cbn in Ems. subst ms. exists fr', raw'. split; [exact Hsim'|]. split; [done|].
        intros more Hm. by rewrite Hall, Ha, Hr by done.
    + intros more Hm. rewrite Hall, Ha, Hr by done. by rewrite reverse_involutive.
Qed.

Lemma k_process_part_ok L R s i : k_at L R s i /\ nothing s -> k_part L R (k_idle L R) (process_part (s, i)).
Proof.
  intros [[Hl HR] Hn]. unfold process_part. pose proof (k_process_ok L s i Hl Hn) as Hb. pose proof (k_weight_1 s Hn) as Hw1. destruct Hl as (Hs & Ht & Hc & _).
  destruct (process_read_buf (s, i)) as [[s1 i1] r| |]; try done. destruct Hb as (Hq & [Hst Hpi] & Es & Ewb & Ec & Ep & Hr). cbn [from_comp await_bind].
  assert (Hbase : state s1 <> StreamState.Closed /\ k_wire s1 i1 /\ k_closing s1).
  { split; [by rewrite Es|]. split; [eapply (k_wire_quiet s); try done; congruence|]. unfold k_closing. rewrite Ec, Hst. done. }
  destruct Hbase as (Hs1 & Ht1 & Hc1). assert (Hsup : (supply i1 <= supply i)%nat) by (by destruct Hq as (_ & _ & ? & _)). destruct r as [b|e].
  - destruct Hr as (Ha & -> & Hpar). case_bool_decide as Hm; cbn [negb k_part].
    + split; [split; [exact (conj Hs1 (conj Ht1 (conj Hc1 Ha)))|]|]; [unfold k_rank in *; rewrite k_weight_1 by done; lia|]. split; [done|auto].
    + split; [exact (conj Hs1 (conj Ht1 (conj Hc1 Ha)))|]. unfold k_rank in *. rewrite (k_weight_0 s1) by auto. lia.
  - unfold on_stream, keep_parse_error. cbn [fst snd].
    assert (Hg : forall s2 : t, state s2 <> StreamState.Closed -> (state s2 = StreamState.Open -> state s1 = StreamState.Open) -> write_buf s2 = write_buf s1 -> closing_deadline s2 = closing_deadline s1 -> heartbeat s2 = heartbeat s1 -> pending_messages s2 = pending_messages s1 ->
      pending_parse_error s2 = Some e -> k_part L R (k_idle L R) (Returned (s2, i1) Continue)).
    { intros s2 E1 E1' Eb E2 E3 E4 E5. cbn. split; [split; [done|]; split; [by eapply (k_wire_quiet s1); [|apply k_quiet_refl|..]|]; split; [unfold k_closing; by rewrite E2, E3|]; unfold k_accounted; by rewrite E5, E4|].
      unfold k_rank in *. rewrite E3, (k_weight_0 s2) by (right; by rewrite E5). lia. }
    case_bool_decide; by apply Hg.
Qed.

Lemma k_closing_part_ok L R s i : k_idle L R s i -> k_part L R (k_idle L R) (closing_part (s, i)).
Proof.
  intros ((Hl & HR) & Hn & Hp). unfold closing_part. cbn [fst]. destruct (closing_deadline s) as [d|] eqn:Ed; [|by split_and!].
  destruct (k_now_ok s i) as (i1 & v & -> & Hq & _). cbn [fst]. destruct (_ && _).
  - unfold on_stream. cbn [fst snd]. pose proof (k_ended_quiet _ _ _ (k_live_ended _ _ _ Hl) Hq) as Hen. destruct (_ && _); [|cbn; split; [|done]; by apply k_ended_closed].
    destruct (shutdown_until_quiet d i1) as [Hq2 _]. destruct (shutdown_until d i1) as [i2 r]. cbn in *. split; [|done]. apply k_ended_closed; [by eapply k_ended_quiet|done].
  - cbn [k_part]. split; [|split; [done|]].
    + split; [by eapply k_live_quiet|]. destruct Hq as (_ & _ & ? & _). unfold k_rank in *. lia.
    + destruct Hp as (fr & raw & Hsim & Hz & Ha). exists fr, raw. split; [done|]. split; [done|]. intros more Hm. rewrite (k_env_messages i i1) by (by apply k_quiet_env). by apply Ha.
Qed.

(** ** Reading *)

(** What a read leaves for the end of the turn. *)
Definition k_read (L : list Message.t) (R : nat) (m : task W read_outcome) : Prop :=
  match m with
  | Returned (s, i) (ReadReturn r) => k_returned L s i r
  | Returned (s, i) (ReadDone None) => k_live L s i /\ (k_rank s i < R)%nat
  | Returned (s, i) (ReadDone (Some (Ok n))) => k_ended L i /\ (n <> 0 -> k_live L s i /\ (k_rank s i < R)%nat)
  | Returned (s, i) (ReadDone (Some (Err _))) => k_ended L i
  | Waiting (_, i) op => k_waits L i op
  | _ => False
  end.

(** Bytes that arrive follow the others. *)
Lemma k_bytes_ok L s i i' data : k_live L s i -> nothing s -> k_parsed L s i -> io_effect io_view Append (Ok data) i i' ->
  k_live L (set_read_buf (read_buf s ++ data) s) i' /\ k_ended L i' /\ (supply i' <= supply i)%nat /\ (len data <> 0 -> (supply i' < supply i)%nat).
Proof.
  intros Hl [Em Ep] (fr & raw & Hsim & Hz & Ha) (Et & Hok & Hlt & Htime & Hsup & Hwr & Htorn). pose proof Hl as (Hs & Ht & Hc & _).
  assert (Hall : forall more, k_messages i' more = k_messages i (data ++ more)) by (intros more; unfold k_messages; by rewrite Et, <- !app_assoc).
  assert (Hw' : k_wire (set_read_buf (read_buf s ++ data) s) i').
  { destruct Ht as (Ht & fs & Hfs & Hcl & Ew). split; [congruence|]. exists fs. by rewrite Hwr. }
  split; [|split; [split; [|by eapply k_wire_whole]|split; [done|intros Hne; apply Hlt; by intros ->]]].
  - split; [done|]. split; [done|]. split; [done|]. unfold k_accounted. change (pending_parse_error _) with (pending_parse_error s). change (pending_messages _) with (pending_messages s).
    rewrite Ep, Em. exists fr, (raw ++ data). split; [by apply p_sim_more|]. split.
    + intros E. cbn in E. apply app_eq_nil in E as [_ ->]. by rewrite app_nil_r.
    + intros more Hm. rewrite Hall, Ha, <- app_assoc by (by apply bytes_ok_app). done.
  - intros more Hm. rewrite Hall. apply (k_live_prefix _ _ _ Hl). by apply bytes_ok_app.
Qed.

Lemma k_read_rank L R s i i' n data : k_idle L R s i -> io_effect io_view Append (Ok data) i i' -> n = len data ->
  k_ended L i' /\ (n <> 0 -> k_live L (set_read_buf (read_buf s ++ data) s) i' /\ (k_rank (set_read_buf (read_buf s ++ data) s) i' < R)%nat).
Proof.
  intros ((Hl & HR) & Hn & Hp) He ->. destruct (k_bytes_ok L s i i' data Hl Hn Hp He) as (Hl' & Hpre & Hsup & Hlt). split; [done|]. intros Hne. split; [done|].
  specialize (Hlt Hne). unfold k_rank, k_weight in *. cbn [heartbeat pending_messages pending_parse_error set_read_buf]. lia.
Qed.

Lemma k_idle_flag b L R s i : k_idle L R s i -> k_idle L R (set_post_expiry_read_attempted b s) i.
Proof. done. Qed.
Lemma k_idle_quiet L R s i i' : k_idle L R s i -> k_quiet i i' -> k_idle L R s i'.
Proof.
  intros ((Hl & HR) & Hn & (fr & raw & Hsim & Hz & Ha)) Hq. split; [split; [by eapply k_live_quiet|]|split; [done|]].
  - destruct Hq as (_ & _ & ? & _). unfold k_rank in *. lia.
  - exists fr, raw. split; [done|]. split; [done|]. intros more Hm. rewrite (k_env_messages i i') by (by apply k_quiet_env). by apply Ha.
Qed.

(** [read_more] within a limit; [s] with the buffer it leaves. *)
Lemma k_read_more_ok limit L R s i : k_idle L R s i -> let '(i', buf, r) := read_more limit (read_buf s) i in
  match r with
  | Came (Ok n) => k_ended L i' /\ (n <> 0 -> k_live L (set_read_buf buf s) i' /\ (k_rank (set_read_buf buf s) i' < R)%nat)
  | Came (Err _) => k_ended L i'
  | Expired => k_ended L i' /\ is_Some limit
  | Never op => op = Append /\ limit = None /\ k_messages i' [] = L
  end.
Proof.
  intros Hi. pose proof Hi as ((Hl & HR) & Hn & Hp). unfold read_more. pose proof (await_op_ok limit Append i) as Hr. pose proof (k_live_ended _ _ _ Hl) as Hpre.
  destruct (await_op limit Append i) as [i' [[data|e]| |op]]; cbn [awaited io_effect io_dropped] in Hr.
  - by apply (k_read_rank L R s i i' (len data) data).
  - by eapply k_ended_quiet.
  - destruct Hr as [Hr Hd]. split; [|done]. by eapply k_ended_quiet.
  - destruct Hr as (-> & -> & Et). split; [done|]. split; [done|]. destruct Hp as (fr & raw & _ & Hz & Ha). unfold k_messages in *. rewrite Et.
    rewrite Ha by constructor. by rewrite app_nil_r, Hz, app_nil_r.
Qed.

Lemma k_read_closing_ok d L R s i : k_idle L R s i -> k_read L R (read_closing d (s, i)).
Proof.
  intros Hi. unfold read_closing. destruct (k_now_ok s i) as (i1 & v & -> & Hq & _). unfold on_stream.
  assert (Hw : exists b, (if d <=? v then (set_post_expiry_read_attempted true (fst (s, i1)), snd (s, i1)) else (s, i1)) = (set_post_expiry_read_attempted b s, i1)).
  { destruct (d <=? v); [by exists true|]. exists (post_expiry_read_attempted s). by destruct s. }
  destruct Hw as [b Hw]. unfold CompioStream.W in *. rewrite Hw. cbn [fst snd]. set (s1 := set_post_expiry_read_attempted b s). pose proof (k_idle_quiet L R s1 i i1 Hi Hq) as Hi1.
  pose proof (k_read_more_ok (Some d) L R s1 i1 Hi1) as Hr. destruct (read_more (Some d) (read_buf s1) i1) as [[i2 buf] [[n|e]| |op]]; cbn [k_read] in *; try done.
  - cbn. split; [|done]. destruct Hr as [Hr _]. by apply k_ended_closed.
  - by destruct Hr as (_ & ? & _).
Qed.

Lemma k_read_plain_ok L R s i : k_idle L R s i -> closing_deadline s = None -> k_read L R (read_plain (s, i)).
Proof.
  intros Hi Hc. unfold read_plain. cbn [fst snd]. pose proof (k_read_more_ok None L R s i Hi) as Hr. destruct (read_more None (read_buf s) i) as [[i2 buf] [[n|e]| |op]]; cbn [k_read] in *; try done.
  - by destruct Hr as (_ & []).
  - destruct Hr as (-> & _ & Hm). split; [|done]. destruct Hi as (((_ & _ & Hcl & _) & _) & _). by apply (k_not_closing s).
Qed.

(** A read that a deadline may cut short: the buffer comes back, or a deadline that ends the stream has passed. *)
Definition is_ping (d : Deadline) : bool := match d with DPing _ => true | _ => false end.
Definition k_until (buf : bytes) (deadline : Deadline) i i' (buf' : bytes) (r : option DeadlineReadOutcome) : Prop :=
  let brings (x : res IoError Z) := match x with
    | Ok n => exists data, n = len data /\ buf' = buf ++ data /\ io_effect io_view Append (Ok data) i i'
    | Err _ => k_quiet i i' /\ buf' = buf end in
  match r with
  | Some (DRead x) => brings x
  | Some (DDeadline d (Some x)) => d = deadline /\ is_ping d = true /\ instant_of (deadline_at d) <= c_time i' /\ brings x
  | Some (DDeadline d None) => k_quiet i i' /\ instant_of (deadline_at d) <= c_time i' /\ (is_ping d = true -> d = deadline /\ buf' = buf)
  | None => k_quiet i i'
  end.

Lemma k_effect_time (r : res IoError bytes) i i' : io_effect io_view Append r i i' -> c_time i <= c_time i'.
Proof. destruct r; cbn; [by intros (_ & _ & _ & ? & _)|by intros (_ & ? & _)]. Qed.

Lemma read_more_until_ok buf deadline hard i : (forall d, hard = Some d -> is_ping d = false) ->
  let '(i', buf', r) := read_more_until buf deadline hard i in k_until buf deadline i i' buf' r.
Proof.
  intros Hh. unfold read_more_until.
  pose proof (io_poll_spec Append i) as Hp. destruct (io_poll Append i) as [i1 [|r]]; [|destruct r as [data|e]; cbn; [by exists data|by split]].
  pose proof (io_race_spec Append (instant_of (deadline_at deadline)) i1) as Hr. destruct (io_race _ _ i1) as [i2 [r|]].
  - pose proof (io_same_then _ _ _ _ _ _ Hp Hr) as He. destruct r as [data|e]; [by exists data|by split].
  - destruct Hr as [Hr Ht]. cbn [io_dropped] in Hr. assert (Hq2 : k_quiet i i2) by (by eapply k_quiet_trans).
    destruct (is_ping deadline) eqn:Epi; [|destruct deadline; [by split_and!..|done]]. destruct deadline as [| |at_ms]; try done. cbn [deadline_at] in *.
    assert (Htm : exists i3 timer, hard_timer hard i2 = (i3, timer) /\ k_quiet i2 i3 /\ (forall d, hard = Some d -> exists tm, timer = Some tm /\ instant_of (deadline_at d) <= tm)).
    { unfold hard_timer. destruct hard as [d|]; [|exists i2, None; split; [done|]; split; [apply k_quiet_refl|done]]. pose proof (io_now_spec i2) as Hn. destruct (io_now i2) as [i3 now]. destruct Hn as (Hq & _ & Hrg).
      eexists i3, _. split; [done|]. split; [done|]. intros d' [= <-]. eexists. split; [done|]. pose proof (millis_range now Hrg). unfold instant_of in *. lia. }
    destruct Htm as (i3 & timer & -> & Hq3 & Htm). assert (Hqi : k_quiet i i3) by (by eapply k_quiet_trans). assert (Htime : instant_of at_ms <= c_time i3) by (destruct Hq3 as (_ & ? & _); lia).
    pose proof (io_recover_spec timer i3) as Hrec. destruct (io_recover timer i3) as [i4 [r|]].
    + pose proof (k_effect_time _ _ _ Hrec). pose proof (io_same_then _ _ _ _ _ _ Hqi Hrec) as He. destruct r as [data|e]; cbn [read_was_cancelled].
      * cbn. split_and!; try done; [lia|]. by exists data.
      * destruct (_ || _); cbn; split_and!; try done; lia.
    + destruct Hrec as [Hq4 Htr]. assert (Hq : k_quiet i i4) by (by eapply k_quiet_trans). destruct hard as [d|]; [|done].
      destruct (Htm d eq_refl) as (tm & -> & Hle). specialize (Htr tm eq_refl). cbn. split; [done|]. split; [lia|]. intros Hd. by rewrite (Hh d eq_refl) in Hd.
Qed.

Lemma recovery_kind deadline s d : recovery_deadline deadline s = Some d -> is_ping d = false.
Proof.
  unfold recovery_deadline. destruct (Heartbeat.next_hard_deadline (heartbeat s)) as [d'|] eqn:E; [|destruct (negb _); [by intros [= <-]|done]].
  intros [= <-]. destruct d'; try done. by apply hard_deadline_kind in E.
Qed.

(** A deadline that has passed: the end of the stream, or a Ping. *)
Lemma k_handle_deadline_ok now L R s i d : (is_ping d = true -> k_live L s i /\ Heartbeat.next_deadline (heartbeat s) = Some d) -> k_prefix L i -> k_wire s i -> deadline_at d <= now ->
  k_timed L R (fun s' i' => is_ping d = true /\ k_pinged L s i s' i') (handle_deadline d now (s, i)).
Proof.
  intros Hp Hpre Hw Ht. unfold handle_deadline. rewrite (proj2 (Z.leb_le _ _) Ht). destruct d as [at_ms|at_ms|at_ms]; [by apply k_timeout_ok..|].
  destruct (Hp eq_refl) as [Hl Hd]. pose proof (k_ping_ok now L R s i at_ms Hl Hd Ht) as Hx.
  destruct (send_ping now (s, i)) as [[s1 i1] [e|]|[s1 i1] op| |]; done.
Qed.

Lemma k_read_deadline_ok d L R s i : k_idle L R s i -> closing_deadline s = None -> Heartbeat.next_deadline (heartbeat s) = Some d -> k_read L R (read_deadline d (s, i)).
Proof.
  intros Hi Hc Hd. pose proof Hi as ((Hl & HR) & Hn & Hp). pose proof (k_live_ended _ _ _ Hl) as Hpre. unfold read_deadline. cbn [fst snd].
  pose proof (read_more_until_ok (read_buf s) d (recovery_deadline d s) i (recovery_kind d s)) as Hu. destruct (read_more_until _ _ _ _) as [[i1 buf] [[x|d' x]|]]; cbn [k_until] in Hu.
  - cbn [k_read]. destruct x as [n|e]; [destruct Hu as (data & -> & -> & He); by apply (k_read_rank L R s i i1 (len data) data)|].
    destruct Hu as [Hq _]. by eapply k_ended_quiet.
  - assert (Hpost : k_prefix L i1 /\ k_wire (set_read_buf buf s) i1 /\ instant_of (deadline_at d') <= c_time i1 /\ (is_ping d' = true -> d' = d /\ k_live L (set_read_buf buf s) i1 /\ (supply i1 <= supply i)%nat)).
    { destruct x as [[n|e]|].
      - destruct Hu as (-> & Hpi & Ht & data & -> & -> & He). destruct (k_bytes_ok L s i i1 data Hl Hn Hp He) as (Hl' & [? _] & ? & _). pose proof Hl' as (_ & ? & _). by split_and!.
      - destruct Hu as (-> & Hpi & Ht & Hq & ->). split; [eapply k_env_prefix; [by apply k_quiet_env|apply Hpre]|]. split; [by eapply (k_wire_quiet s); [apply Hl|..]|]. split; [done|]. intros _. split; [done|].
        split; [pose proof (k_live_quiet _ _ _ _ Hl Hq); by destruct s|by destruct Hq as (_ & _ & ? & _)].
      - destruct Hu as (Hq & Ht & Hpi). split; [eapply k_env_prefix; [by apply k_quiet_env|apply Hpre]|]. split; [by eapply (k_wire_quiet s); [apply Hl|..]|]. split; [done|]. intros Hx. destruct (Hpi Hx) as [-> ->]. split; [done|].
        split; [pose proof (k_live_quiet _ _ _ _ Hl Hq); by destruct s|by destruct Hq as (_ & _ & ? & _)]. }
    destruct Hpost as (Hpre1 & Hw1 & Ht & Hping). destruct (k_now_ms_ok (set_read_buf buf s) i1) as (i2 & v & -> & Hq2 & Hv).
    assert (Hp2 : k_prefix L i2) by (eapply k_env_prefix; [by apply k_quiet_env|done]).
    pose proof (k_handle_deadline_ok v L R (set_read_buf buf s) i2 d') as Hh. assert (Hpre2 : is_ping d' = true -> k_live L (set_read_buf buf s) i2 /\ Heartbeat.next_deadline (heartbeat (set_read_buf buf s)) = Some d').
    { intros Hx. destruct (Hping Hx) as (-> & Hl1 & _). split; [by eapply k_live_quiet|done]. }
    specialize (Hh Hpre2 Hp2 ltac:(by eapply k_wire_quiet) (Hv _ Ht)). destruct (handle_deadline d' v _) as [[s3 i3] [e|]|[s3 i3] op| |]; cbn [await_bind k_read k_timed] in *; try done.
    + destruct Hh as (Hx & Hl3 & Hsup & Hpi & Hwt). destruct (Hping Hx) as (_ & _ & Hsup1).
      assert (Hr3 : (k_rank s3 i3 < R)%nat) by (destruct Hq2 as (_ & _ & ? & _); unfold k_rank in *; change (heartbeat (set_read_buf buf s)) with (heartbeat s) in Hpi;
        change (k_weight (set_read_buf buf s)) with (k_weight s) in Hwt; lia).
      destruct x as [[n|e]|]; [|by eapply k_live_ended|done]. split; [by eapply k_live_ended|done].
    + destruct Hh as [? Hop]. by split.
  - split; [apply (k_not_closing s); [apply Hl|done]|]. intros _. destruct Hp as (fr & raw & _ & Hz & Ha). rewrite (k_env_messages i i1) by (by apply k_quiet_env). rewrite Ha by constructor. by rewrite app_nil_r, Hz, app_nil_r.
Qed.

Lemma k_read_part_ok L R s i : k_idle L R s i -> k_part L R (fun _ _ => False) (read_part (s, i)).
Proof.
  intros Hi. unfold read_part. cbn [fst].
  match goal with |- k_part _ _ _ (await_bind ?m _) => assert (Hr : k_read L R m) end.
  { destruct (closing_deadline s) as [d|] eqn:Ec; [by apply k_read_closing_ok|]. destruct (Heartbeat.next_deadline (heartbeat s)) as [d|] eqn:Ed; [by apply k_read_deadline_ok|by apply k_read_plain_ok]. }
  match type of Hr with k_read _ _ ?m => destruct m as [[s1 i1] [[[n|e]|]|r]|[s1 i1] op| |] end; cbn [await_bind k_read] in *; try done.
  - destruct Hr as [Hpre Hl]. destruct (Z.eqb_spec n 0) as [->|Hn]; [|by apply Hl]. cbn. split; [|done]. by apply k_ended_closed.
  - cbn. split; [|done]. by apply k_ended_closed.
Qed.

(** ** The loop *)

Lemma k_turn_ok L s i : k_inv L s i -> k_part L (k_rank s i) (fun _ _ => False) (turn (s, i)).
Proof.
  intros Hi. unfold turn. cbn [fst]. case_bool_decide as Hs; [cbn; by split|]. destruct Hi as [Hl|[? _]]; [|done].
  eapply k_part_bind; [by apply k_message_part_ok|]. intros s1 i1 H1'. eapply k_part_bind; [by apply k_error_part_ok|]. intros s2 i2 H2'.
  eapply k_part_bind; [by apply k_deadline_part_ok|]. intros s3 i3 H3'. eapply k_part_bind; [by apply k_process_part_ok|]. intros s4 i4 H4'.
  eapply k_part_bind; [by apply k_closing_part_ok|]. intros s5 i5 H5'. by apply k_read_part_ok.
Qed.

(** [next] with fuel for what may still be read. *)
Definition k_next_post (L : list Message.t) (m : task W Item) : Prop :=
  match m with
  | Returned (s, i) r => k_returned L s i r
  | Waiting (_, i) op => k_waits L i op
  | _ => False
  end.

Lemma k_next_ok L : forall fuel s i, k_inv L s i -> (k_rank s i < fuel)%nat -> k_next_post L (next fuel (s, i)).
Proof.
  induction fuel as [|fuel IH]; intros s i Hi Hf; [lia|]. cbn [next]. pose proof (k_turn_ok L s i Hi) as Ht.
  destruct (turn (s, i)) as [[s1 i1] [r| |]|[s1 i1] op| |]; cbn [await_bind k_part] in *; try done.
  destruct Ht as [Hl Hr]. apply IH; [by left|lia].
Qed.
End Next.
