(* ===== verification/CompioTheorems.v ===== *)
(** * What a compio stream promises its user

    The theorems hold in every state a stream reaches through its operations, each driven to its end, with any transport that keeps to [CompioIoSpec]; [compio_stream_delivers]
    and [compio_compressed_delivers] are those about [next] for the two protocols. *)

From stdpp Require Import base list option strings.
From S2P Require Import Prelude Error Mask Utf8 Frame FrameSpec Protocol ReceiveSpec ProtocolSpec ProtocolProps NextSpec.
From S2P Require Import Heartbeat Cork Output Stream Deflate Compressed CompressedSpec Config WebSocket Scripted StreamSpec CompressedStream CompressedStreamSpec CompressedStreamProps.
From S2P Require Import Compio CompioSpec CompioNext.
Import CompioStream.

Section Props.
Context {P F I : Type} `{CompioProtocolSpec P F} `{CompioIoSpec I}.
Abbreviation t := (t P).
Implicit Types s : t.
Implicit Types i : I.
(** [i0]: the transport when the stream is made *)
Context (start : P) (c : Config.t) (leftover : option bytes) (i0 : I) (fr0 : F).

(** ** Any use of a stream *)

Definition delivered (r : Item) : list Message.t := match r with Some (Ok m) => [m] | _ => [] end.

(** The states of a stream, with the messages [next] has returned; between the calls the world goes on. *)
Inductive k_reachable : list Message.t -> t -> I -> Prop :=
  | kr_start : torn i0 = false -> k_reachable [] (with_protocol start c leftover) i0
  | kr_world L s i i' : k_reachable L s i -> k_quiet i i' -> k_reachable L s i'
  | kr_immediate L s i : k_reachable L s i -> k_reachable L (with_immediate_write_shutdown s) i
  | kr_marks L s i high low : k_reachable L s i -> k_reachable L (set_low_water_mark low (set_high_water_mark high s)) i
  | kr_next L s i fuel s' i' r : k_reachable L s i -> next fuel (s, i) = Returned (s', i') r -> k_reachable (L ++ delivered r) s' i'
  | kr_send L s i m s' i' r : k_reachable L s i -> send m (s, i) = Returned (s', i') r -> k_reachable L s' i'
  | kr_flush L s i s' i' r : k_reachable L s i -> flush (s, i) = Returned (s', i') r -> k_reachable L s' i'
  | kr_close L s i code reason s' i' r : k_reachable L s i -> close code reason (s, i) = Returned (s', i') r -> k_reachable L s' i'.

(** The bytes read since the stream was made. *)
Definition read_since i : bytes := from (len (c_taken i0)) (c_taken i).
(** The messages of the reference receiver on the leftover of the handshake and the bytes read since. *)
Definition k_reference i : list Message.t := p_ref fr0 (default [] leftover ++ read_since i).

Context (Hstart : p_sim start (default [] leftover) (default [] leftover) fr0).
Abbreviation inv := (k_inv (default [] leftover) (c_taken i0) (c_written i0) fr0).
Abbreviation live := (k_live (default [] leftover) (c_taken i0) (c_written i0) fr0).
Abbreviation prefix := (k_prefix (default [] leftover) (c_taken i0) fr0).

Lemma k_inv_ended closing L s i : inv closing L s i -> k_ended (default [] leftover) (c_taken i0) (c_written i0) fr0 L i.
Proof. intros [Hl|[_ ?]]; [by eapply k_live_ended|done]. Qed.

(** ** The operations that write *)

(** An operation on the output keeps the invariant; it waits only where closing has not begun. *)
Definition k_kept closing (L : list Message.t) {A} (m : task (W (P := P) (I := I)) A) : Prop :=
  match m with Returned (s, i) _ => inv closing L s i | Waiting _ op => closing = false /\ op <> Append | _ => True end.

Lemma k_flush_kept closing L s i : inv closing L s i -> k_kept closing L (flush (s, i)).
Proof.
  intros [Hl|[Hs Hp]]; [|unfold flush; rewrite Hs, bool_decide_eq_true_2 by done; by right]. pose proof Hl as (Hs & Ht & Hc & Ha). pose proof (k_flush_ok s i Hs) as Hf.
  destruct (flush (s, i)) as [[s1 i1] [u|e]|w op| |]; cbn in Hf |- *; try done.
  - destruct Hf as (-> & He & Et & Ew). left. split; [done|]. split; [by eapply (k_wire_flushed _ s)|]. split; [done|]. eapply k_accounted_kept; try done. apply same_reading_refl.
  - destruct Hf as ((b & ->) & He & n & Ew). eapply k_closed; [by eapply k_live_prefix|done|by eapply (k_wire_cut _ s)|done].
  - destruct Hf. split; [by apply (k_not_closing closing s)|done].
Qed.

Lemma k_send_kept closing L m s i : inv closing L s i -> k_kept closing L (send m (s, i)).
Proof.
  intros Hi. unfold send. cbn [fst]. case_bool_decide as Hs; [|done]. cbn [negb]. destruct Hi as [Hl|[Hx _]]; [|congruence].
  match goal with |- context [encode_message m ?w] => assert (Hw : exists s1 i1, w = (s1, i1) /\ live closing L s1 i1 /\
    (is_data (opcode_of m) = false \/ state s1 = StreamState.Open) /\ (state s1 = StreamState.Open -> opcode_of m <> Close)) end.
  { destruct (Message.is_close m) eqn:Em; [|exists s, i; split; [done|]; split; [done|]; split; [by right|]; by destruct m]. unfold on_stream. cbn [fst snd]. destruct (k_begin_closing_ok (set_state StreamState.CloseSent s) i) as (d & i1 & -> & Hq).
    eexists _, i1. split; [done|]. destruct Hl as (_ & Ht & Hc & Ha). split; [|split; [left; by destruct m|done]]. split; [done|]. split; [by eapply (k_wire_quiet _ s)|]. split; [split; [done|by eexists]|].
    eapply k_accounted_kept; try done; [by apply k_quiet_env|apply same_reading_refl]. }
  destruct Hw as (s1 & i1 & -> & Hl1 & Hop & Hcl). pose proof (k_encode_ok m s1 i1) as He. destruct (encode_message m (s1, i1)) as [[s2 i2] r| |]; try done.
  destruct He as (Hq & _ & p & b & -> & Hp & Hb). cbn [from_comp await_bind].
  assert (Hw2 : k_wire (c_written i0) (set_write_buf b (set_protocol p s1)) i2).
  { destruct Hl1 as (_ & Hw1 & _). pose proof (k_wire_quiet _ s1 s1 i1 i2 Hw1 Hq eq_refl (fun x => x)) as Hw2. destruct r as [u|e].
    - destruct Hb as (f & -> & Hf). eapply (k_wire_added _ s1); [exact Hw2|done|exact Hf|done|]. intros E. split; [done|]. by apply Hcl.
    - subst b. by eapply (k_wire_quiet _ s1); [|apply k_quiet_refl|..]. }
  assert (Hl2 : live closing L (set_write_buf b (set_protocol p s1)) i2).
  { destruct Hl1 as (Hs1 & Ht & Hc & Ha). split; [done|]. split; [done|]. split; [done|]. eapply k_accounted_kept; try done. by apply k_quiet_env. }
  destruct r as [u|e]; [|by left]. pose proof (k_flush_kept closing L _ _ (or_introl Hl2)) as Hf.
  destruct (flush _) as [[s3 i3] [u3|e3]|w op| |]; cbn in Hf |- *; try done. apply k_ended_closed; [by eapply k_inv_ended|done].
Qed.

(** A Close that has been sent has set its deadline. *)
Lemma send_close_deadline reason s i s' i' u : send (Message.Close reason) (s, i) = Returned (s', i') (Ok u) -> is_Some (closing_deadline s').
Proof.
  unfold send. cbn [fst]. case_bool_decide as Hs; [|done]. cbn [negb Message.is_close]. unfold on_stream. cbn [fst snd].
  destruct (k_begin_closing_ok (set_state StreamState.CloseSent s) i) as (d & i1 & -> & Hq). cbn [fst].
  match goal with |- context [encode_message ?m (?x, i1)] => pose proof (k_encode_ok m x i1) as He; destruct (encode_message m (x, i1)) as [[s2 i2] r| |]; try done end.
  destruct He as (_ & _ & p & b & -> & _). cbn [from_comp await_bind]. destruct r; [|done].
  match goal with |- context [flush (?x, i2)] => pose proof (k_flush_ok x i2 ltac:(done)) as Hf; destruct (flush (x, i2)) as [[s3 i3] [u3|e3]|w op| |]; cbn in Hf |- *; try done end.
  destruct Hf as (-> & _). intros [= <- _ _]. by eexists.
Qed.

(** No operation but a send of data panics, and that only where the codec does. *)
Lemma send_returns m s i : Message.is_control m = true -> match send m (s, i) with Panicked | Exhausted => False | _ => True end.
Proof.
  intros Hm. unfold send. cbn [fst]. case_bool_decide; [|done]. cbn [negb].
  match goal with |- context [encode_message m ?w] => destruct w as [s1 i1] end. pose proof (k_encode_ok m s1 i1) as He. destruct (encode_message m (s1, i1)) as [[s2 i2] r| |]; [|congruence..].
  destruct He as (_ & -> & _); [|done]. cbn [from_comp await_bind].
  assert (Hf : match flush (s2, i2) with Panicked | Exhausted => False | _ => True end).
  { destruct (decide (state s2 = StreamState.Closed)) as [E|E]; [unfold flush; by rewrite E, bool_decide_eq_true_2|]. pose proof (k_flush_ok s2 i2 E) as Hf. by destruct (flush (s2, i2)). }
  by destruct (flush (s2, i2)) as [[s3 i3] [u|e]|w op| |].
Qed.

Lemma k_close_kept closing L code reason s i : inv closing L s i ->
  k_kept closing L (close code reason (s, i)) /\ match close code reason (s, i) with Panicked | Exhausted => False | _ => True end.
Proof.
  intros Hi. unfold close. cbn [fst]. case_bool_decide as Hs; [|done]. cbn [negb]. set (m := Message.Close _).
  pose proof (k_send_kept closing L m s i Hi) as Hk. pose proof (send_returns m s i eq_refl) as Hp. destruct (send m (s, i)) as [[s1 i1] [u|e]|w op| |] eqn:Esend; cbn in Hk |- *; try done.
  destruct (immediate_write_shutdown s1); [|done]. unfold shutdown_after_close. cbn [fst snd]. destruct (send_close_deadline _ _ _ _ _ _ Esend) as [d Ed]. rewrite Ed.
  destruct (shutdown_until_quiet d i1) as [Hq _]. destruct (shutdown_until d i1) as [i2 r]. cbn in Hq.
  assert (Hcl : forall A (x : A), k_kept closing L (Returned (set_state StreamState.Closed s1, i2) x)) by (intros; cbn; apply k_ended_closed; [eapply k_ended_quiet; [by eapply k_inv_ended|done]|done]).
  destruct r as [[[]|e]| |op]; (split; [|done]); try apply Hcl. cbn. destruct Hi as [Hl|[Hx _]]; [|congruence].
  destruct Hk as [Hl1|[Hs1 Hp1]]; [left|right].
  - pose proof (k_live_quiet _ _ _ _ _ _ _ _ _ Hl1 Hq) as Hl2. exact Hl2.
  - split; [done|]. by eapply k_ended_quiet.
Qed.

(** ** Reachable states *)

Lemma k_inv_closing L s i : inv false L s i -> inv (bool_decide (is_Some (closing_deadline s))) L s i.
Proof.
  intros [(Hs & Ht & [Hc _] & Ha)|Hd]; [left|by right]. split; [done|]. split; [done|]. split; [|done]. split; [done|]. by intros Hx%bool_decide_eq_true_1.
Qed.
Lemma k_inv_forget closing L s i : inv closing L s i -> inv false L s i.
Proof. intros [(Hs & Ht & [Hc _] & Ha)|Hd]; [left|by right]. split; [done|]. split; [done|]. by split. Qed.

Lemma k_returned_inv closing L s i r : k_returned (default [] leftover) (c_taken i0) (c_written i0) fr0 closing L s i r -> inv closing (L ++ delivered r) s i.
Proof. destruct r as [[m|e]|]; cbn; rewrite ?app_nil_r; by intros [? _]. Qed.

(** Fuel for what may still be read. *)
Definition k_enough (fuel : nat) i : Prop := (2 * supply i + 5 < fuel)%nat.
Lemma k_enough_rank fuel s i : k_enough fuel i -> (k_rank s i < fuel)%nat.
Proof. unfold k_enough, k_rank, k_weight, pings. intros. repeat case_match; lia. Qed.

Lemma next_fuel fuel : forall s i w r fuel', next fuel (s, i) = Returned w r -> (fuel <= fuel')%nat -> next fuel' (s, i) = Returned w r.
Proof.
  induction fuel as [|fuel IH]; intros s i w r fuel' E Hl; [done|]. destruct fuel' as [|fuel']; [lia|]. cbn [next] in *.
  destruct (turn (s, i)) as [[s1 i1] [x| |]|w1 op| |]; cbn [await_bind] in *; try done; (apply IH; [done|lia]).
Qed.

Lemma k_reachable_inv L s i : k_reachable L s i -> inv false L s i.
Proof.
  induction 1 as [Ht|L s i i' _ IH Hq|L s i _ IH|L s i high low _ IH|L s i fuel s' i' r _ IH E|L s i m s' i' r _ IH E|L s i s' i' r _ IH E|L s i code reason s' i' r _ IH E].
  - left. split; [done|]. split; [split; [done|]; exists []; split; [by split|]; split; [by intros Hx%not_elem_of_nil|by cbn; rewrite !app_nil_r]|]. split; [by split; [intros []|]|]. exists fr0, (default [] leftover). split; [exact Hstart|].
    split; [intros E; cbn in E; rewrite E; apply p_ref_nil|]. intros more Hm. unfold k_messages. by rewrite from_app_exact.
  - destruct IH as [Hl|[Hs Hp]]; [left; by eapply k_live_quiet|right; split; [done|]]. by eapply k_ended_quiet.
  - exact IH.
  - exact IH.
  - apply (next_fuel fuel s i (s', i') r (fuel + 2 * supply i + 6)) in E; [|lia].
    pose proof (k_next_ok (default [] leftover) (c_taken i0) (c_written i0) fr0 false L (fuel + 2 * supply i + 6) s i IH (k_enough_rank (fuel + 2 * supply i + 6) s i ltac:(unfold k_enough; lia))) as Hn. rewrite E in Hn.
    by apply k_returned_inv in Hn.
  - pose proof (k_send_kept false L m s i IH) as Hk. by rewrite E in Hk.
  - pose proof (k_flush_kept false L s i IH) as Hk. by rewrite E in Hk.
  - destruct (k_close_kept false L code reason s i IH) as [Hk _]. by rewrite E in Hk.
Qed.

(** ** The theorems *)

(** [next], in any reachable state. *)
Definition next_delivers (L : list Message.t) s (m : task (W (P := P) (I := I)) Item) : Prop :=
  match m with
  | Returned (s', i') r => (exists rest, k_reference i' = L ++ delivered r ++ rest) /\
      match r with Some (Ok msg) => Message.is_close msg = true -> state s' = StreamState.Closed | _ => state s' = StreamState.Closed end
  | Waiting (s', i') op => closing_deadline s = None /\ (op = Append -> k_reference i' = L)
  | _ => False
  end.

Lemma k_next_delivers L s i fuel : k_reachable L s i -> k_enough fuel i -> next_delivers L s (next fuel (s, i)).
Proof.
  intros Hr Hf. pose proof (k_inv_closing L s i (k_reachable_inv L s i Hr)) as Hi. pose proof (k_next_ok _ _ _ _ _ L fuel s i Hi (k_enough_rank fuel s i Hf)) as Hn.
  destruct (next fuel (s, i)) as [[s' i'] r|[s' i'] op| |]; cbn [k_next_post next_delivers] in *; try done.
  - pose proof (k_inv_prefix _ _ _ _ _ _ _ _ (k_returned_inv _ _ _ _ _ Hn)) as Hp. destruct (Hp [] ltac:(constructor)) as [rest E]. unfold k_messages in E. rewrite app_nil_r in E.
    split; [exists rest; rewrite <- app_assoc in E; exact E|]. destruct r as [[m|e]|]; cbn in Hn; tauto.
  - destruct Hn as [Hc Hm]. apply bool_decide_eq_false_1 in Hc. split; [destruct (closing_deadline s); [by destruct Hc|done]|]. intros Ho. specialize (Hm Ho). unfold k_messages in Hm. by rewrite app_nil_r in Hm.
Qed.

(** A closed stream does nothing any more. *)
Lemma k_closed_inert s i : state s = StreamState.Closed ->
  (forall fuel, (0 < fuel)%nat -> next fuel (s, i) = Returned (s, i) None) /\ (forall m, send m (s, i) = Returned (s, i) (Err ConnectionClosed)) /\
  flush (s, i) = Returned (s, i) (Err ConnectionClosed) /\ (forall code reason, close code reason (s, i) = Returned (s, i) (Ok tt)).
Proof.
  intros Hs. split_and!.
  - intros [|fuel] Hf; [lia|]. cbn [next]. unfold turn. cbn [fst]. by rewrite bool_decide_eq_true_2.
  - intros m. unfold send. cbn [fst]. by rewrite bool_decide_eq_false_2 by (by rewrite Hs).
  - unfold flush. by rewrite bool_decide_eq_true_2.
  - intros code reason. unfold close. cbn [fst]. by rewrite bool_decide_eq_false_2 by (by rewrite Hs).
Qed.

(** The output of a stream, and when its operations wait. *)
Lemma k_ends L s i : k_reachable L s i ->
  (exists fs rest, frames_ok fs /\ c_written i ++ rest = c_written i0 ++ concat (map snd fs) /\ (state s <> StreamState.Closed -> rest = write_buf s)) /\
  (torn i = true -> state s = StreamState.Closed) /\
  (is_Some (closing_deadline s) -> forall m code reason w op, send m (s, i) <> Waiting w op /\ flush (s, i) <> Waiting w op /\ close code reason (s, i) <> Waiting w op).
Proof.
  intros Hr. pose proof (k_reachable_inv L s i Hr) as Hi. split_and!.
  - destruct Hi as [(_ & (_ & fs & Hfs & _ & Ew) & _)|[Hs [_ (fs & rest & Hfs & Ew)]]]; [by exists fs, (write_buf s)|by exists fs, rest].
  - intros Ht. destruct Hi as [(_ & [Hx _] & _)|[? _]]; [congruence|done].
  - intros Hd m code reason w op. pose proof (k_inv_closing L s i Hi) as Hc. rewrite (bool_decide_eq_true_2 _ Hd) in Hc. split_and!; intros E.
    + pose proof (k_send_kept true L m s i Hc) as Hk. rewrite E in Hk. by destruct Hk.
    + pose proof (k_flush_kept true L s i Hc) as Hk. rewrite E in Hk. by destruct Hk.
    + destruct (k_close_kept true L code reason s i Hc) as [Hk _]. rewrite E in Hk. by destruct Hk.
Qed.
End Props.

(** The output of a compio stream, plain or compressed, however it is used and whatever the transport does.  What has been written since the stream was made is a
    sequence of whole frames in which no data frame follows a Close, except that the last may be cut short; while the stream is not closed, what is still to be written is in its buffer.  A write that failed or was
    given up, so that part of a frame may be on the wire, has closed the stream; and a closed stream touches the transport no more.  Once closing has begun no
    operation that writes waits without a limit. *)
Theorem compio_output_whole {P F I : Type} `{CompioProtocolSpec P F} `{CompioIoSpec I} (start : P) (c : Config.t) (leftover : option bytes) (i0 : I) (fr0 : F) L (s : t P) (i : I) :
  p_sim start (default [] leftover) (default [] leftover) fr0 -> k_reachable start c leftover i0 L s i ->
  (exists fs rest, Forall (fun f => is_frame (fst f) (snd f)) fs /\ orderly (map fst fs) = true /\ c_written i ++ rest = c_written i0 ++ concat (map snd fs) /\
    (state s <> StreamState.Closed -> rest = write_buf s)) /\
  (torn i = true -> state s = StreamState.Closed) /\
  (state s = StreamState.Closed -> (forall fuel, (0 < fuel)%nat -> next fuel (s, i) = Returned (s, i) None) /\ (forall m, send m (s, i) = Returned (s, i) (Err ConnectionClosed)) /\
    flush (s, i) = Returned (s, i) (Err ConnectionClosed) /\ (forall code reason, close code reason (s, i) = Returned (s, i) (Ok tt))) /\
  (is_Some (closing_deadline s) -> forall m code reason w op, send m (s, i) <> Waiting w op /\ flush (s, i) <> Waiting w op /\ close code reason (s, i) <> Waiting w op).
Proof.
  intros Hsim Hr. destruct (k_ends start c leftover i0 fr0 Hsim L s i Hr) as ((fs & rest & [Hfs Ho] & Ew & Hrest) & Ht & Hw).
  split; [by exists fs, rest|]. split; [exact Ht|]. split; [apply k_closed_inert|exact Hw].
Qed.

(** ** The two streams *)

Section Plain.
Context {SU : Simdutf8} {SUok : Simdutf8Spec} (arch : Arch) (slice_addr : bytes -> Z) {I : Type} `{CompioIoSpec I}.
#[local] Instance plain_instance : CompioProtocol Protocol.t := plain_protocol arch slice_addr.

(** The states of a plain stream. *)
Definition plain_reachable (role : Role) (c : Config.t) (leftover : option bytes) (i0 : I) : list Message.t -> t Protocol.t -> I -> Prop :=
  k_reachable (protocol (CompioWebSocketStream.from_raw_with_leftover role c leftover)) c leftover i0.

Lemma plain_start role c leftover : bytes_ok (default [] leftover) ->
  sim (Config.max_message_size c) (Config.validate_text_utf8 c) (initial_policy role (Config.max_frame_size c)) (protocol (CompioWebSocketStream.from_raw_with_leftover role c leftover))
    (default [] leftover) (default [] leftover) None.
Proof. intros Hl. apply (sim_more _ _ _ _ [] [] _ (default [] leftover)); [apply sim_new|done]. Qed.

(** [C16] [next] of a plain compio stream, after any use of the stream and whatever the transport, the timers and the clock do: it never panics, and with fuel for the bytes
    that may still arrive it ends.  The messages it has returned are the first messages of the reference receiver on the leftover of the handshake and the bytes read since, in order, up to the first Close, after
    which, as after an error or the end, the stream is closed.  It waits for ever only when closing has not begun, and for bytes only when all messages of the bytes
    read have been returned. *)
Theorem compio_stream_delivers role c leftover i0 L (s : t Protocol.t) (i : I) fuel :
  arch_ok arch -> bytes_ok (default [] leftover) -> plain_reachable role c leftover i0 L s i -> k_enough fuel i ->
  let reference raw := fst (ref_run (ref_frame (Config.max_message_size c) (Config.validate_text_utf8 c)) (initial_policy role (Config.max_frame_size c)) None (default [] leftover ++ raw)) in
  match CompioWebSocketStream.next arch slice_addr fuel (s, i) with
  | Returned (s', i') r => (exists rest, reference (read_since i0 i') = L ++ delivered r ++ rest) /\
      match r with Some (Ok msg) => Message.is_close msg = true -> state s' = StreamState.Closed | _ => state s' = StreamState.Closed end
  | Waiting (_, i') op => closing_deadline s = None /\ (op = Append -> reference (read_since i0 i') = L)
  | Panicked | Exhausted => False
  end.
Proof.
  intros Harch Hleft Hr Hf. cbv zeta.
  pose proof (k_next_delivers (H0 := plain_spec arch slice_addr Harch (Config.max_message_size c) (Config.validate_text_utf8 c) (initial_policy role (Config.max_frame_size c)))
    _ c leftover i0 None (plain_start role c leftover Hleft) L s i fuel Hr Hf) as Hn.
  unfold CompioWebSocketStream.next. destruct (next fuel (s, i)) as [[s' i'] r|[s' i'] op| |]; exact Hn.
Qed.
End Plain.

Section Deflate.
Context {SU : Simdutf8} {SUok : Simdutf8Spec} (arch : Arch) (slice_addr : bytes -> Z) {I : Type} `{CompioIoSpec I} {E D : Type} `{CodecTotal E D}.
#[local] Instance deflate_instance : CompioProtocol (CompressedProtocol.t E D) := compressed_protocol arch slice_addr.

Definition compressed_start (role : Role) (c : Config.t) (dc : DeflateConfig.t) (leftover : option bytes) : t (CompressedProtocol.t E D) :=
  match role with Server => CompioCompressedWebSocketStream.server_with_leftover c dc leftover | Client => CompioCompressedWebSocketStream.client_with_leftover c dc leftover end.

(** The same of a compressed stream, with the reference receiver that decompresses each message. *)
Theorem compio_compressed_delivers role c dc leftover i0 L (s : t (CompressedProtocol.t E D)) (i : I) fuel :
  arch_ok arch -> 0 <= Config.max_message_size c -> bytes_ok (default [] leftover) ->
  k_reachable (protocol (compressed_start role c dc leftover)) c leftover i0 L s i -> k_enough fuel i ->
  match CompioCompressedWebSocketStream.next arch slice_addr fuel (s, i) with
  | Returned (s', i') r => (exists rest, c_reference (E := E) (D := D) role c dc leftover (read_since i0 i') = L ++ delivered r ++ rest) /\
      match r with Some (Ok msg) => Message.is_close msg = true -> state s' = StreamState.Closed | _ => state s' = StreamState.Closed end
  | Waiting (_, i') op => closing_deadline s = None /\ (op = Append -> c_reference (E := E) (D := D) role c dc leftover (read_since i0 i') = L)
  | Panicked | Exhausted => False
  end.
Proof.
  intros Harch Hmax Hleft Hr Hf.
  assert (Hs : csim (Config.max_message_size c) (Config.validate_text_utf8 c) (compressed_policy role (Config.max_frame_size c)) (protocol (compressed_start role c dc leftover))
    (default [] leftover) (default [] leftover) (None, first_decoder (E := E) (D := D) role dc)).
  { pose proof (c_start_sim (E := E) (D := D) arch slice_addr role c dc leftover Hmax Hleft) as Hs. by destruct role. }
  pose proof (k_next_delivers (H0 := deflate_spec arch slice_addr Harch (Config.max_message_size c) (Config.validate_text_utf8 c) (compressed_policy role (Config.max_frame_size c)) Hmax)
    _ c leftover i0 (None, first_decoder (E := E) (D := D) role dc) Hs L s i fuel Hr Hf) as Hn.
  unfold CompioCompressedWebSocketStream.next. destruct (next fuel (s, i)) as [[s' i'] r|[s' i'] op| |]; exact Hn.
Qed.
End Deflate.

(** A stream that has been built is a new one with the configuration and the marks that were set last. *)
Lemma built_reachable {SU : Simdutf8} (arch : Arch) (slice_addr : bytes -> Z) {I : Type} `{CompioIoSpec I} (b : CompioWebSocketStreamBuilder.t) (i0 : I) : torn i0 = false ->
  plain_reachable arch slice_addr (CompioWebSocketStreamBuilder.role_ b) (CompioWebSocketStreamBuilder.config b) None i0 [] (CompioWebSocketStreamBuilder.build b) i0.
Proof. intros Ht. apply kr_marks. by apply kr_start. Qed.

(** ** A concrete transport *)

(** Segments that have arrived, the bytes written, those that can still be written before the transport blocks, and the clock. *)
Record Tape := MkTape { tape_reads : list bytes; tape_got : bytes; tape_out : bytes; tape_credit : nat; tape_clock : Z; tape_torn : bool }.

Definition clock_end : Z := 2 ^ 64 * 1000000.
Definition tape_now (k : Tape) : Z := Z.max 0 (Z.min (tape_clock k) (clock_end - 1)).
Definition tape_read (k : Tape) (data : bytes) (rest : list bytes) : Tape := MkTape rest (tape_got k ++ data) (tape_out k) (tape_credit k) (tape_clock k) (tape_torn k).
Definition tape_write (k : Tape) (b : bytes) (torn : bool) : Tape := MkTape (tape_reads k) (tape_got k) (tape_out k ++ b) (tape_credit k - length b) (tape_clock k) torn.
Definition tape_wait (k : Tape) (d : Z) : Tape := MkTape (tape_reads k) (tape_got k) (tape_out k) (tape_credit k) (Z.max (tape_clock k) d) (tape_torn k).
Definition tape_error : IoError := MkIoError IoOther (str "cancelled").

Definition tape_step (op : IoOp) (k : Tape) : Tape * poll (res IoError bytes) :=
  match op with
  | Append => match tape_reads k with b :: rest => let data := map (wrap 8) b in (tape_read k data rest, Ready (Ok data)) | [] => (k, Pending) end
  | WriteAll b => if (length b <=? tape_credit k)%nat then (tape_write k b (tape_torn k), Ready (Ok [])) else (k, Pending)
  | _ => (k, Ready (Ok []))
  end.
(** A timer that never fires is one after the end of time; the operation fails instead. *)
Definition tape_race (op : IoOp) (d : Z) (k : Tape) : Tape * option (res IoError bytes) :=
  let k := match op with WriteAll b => tape_write k (upto (Z.of_nat (tape_credit k)) b) true | _ => k end in
  if d <? clock_end then (tape_wait k d, None) else (k, Some (Err tape_error)).

#[export] Instance tape_io : CompioIo Tape := {
  io_now k := (k, tape_now k);
  io_poll := tape_step;
  io_race := tape_race;
  io_finish op k := let '(k, r) := tape_step op k in (k, match r with Ready r => Some r | Pending => None end);
  io_recover _ k := (k, Some (Err tape_error));
  io_draw_mask k := (k, [1; 2; 3; 4]);
  io_draw_nonce k := (k, 7);
  is_cancelled _ := true;
  is_poll_read_cancelled _ := false
}.

Definition tape_view : IoView Tape := MkIoView tape_got tape_now (fun k => length (tape_reads k)) tape_out tape_torn.

Lemma tape_step_ok op k : let '(k', r) := tape_step op k in match r with Ready r => io_effect tape_view op r k k' | Pending => io_same tape_view k k' end.
Proof.
  destruct op; cbn; try by repeat split.
  - destruct (tape_reads k) as [|b rest] eqn:Er; cbn; [by repeat split|]. split_and!; try done; try lia; apply wrapped_bytes.
  - destruct (_ <=? _)%nat; cbn; by repeat split.
Qed.

#[export] Instance tape_spec : CompioIoSpec Tape.
Proof.
  refine {| io_view := tape_view |}; cbn -[io_effect io_same tape_step].
  - intros k. split; [by repeat split|]. unfold tape_now, clock_end. lia.
  - exact tape_step_ok.
  - intros op d k. unfold tape_race. destruct (d <? clock_end) eqn:E.
    + split; [|destruct op; unfold tape_now, clock_end in *; cbn; lia].
      destruct op; unfold io_dropped, io_written, io_same, tape_view, tape_now; cbn; split_and!; try done; try lia; by eexists.
    + destruct op; unfold io_effect, io_written, io_same, tape_view; cbn; split_and!; try done; by eexists.
  - intros op k. pose proof (tape_step_ok op k) as Hs. destruct (tape_step op k) as [k' [|r]]; [|done]. by destruct Hs.
  - intros timer k. by repeat split.
  - intros k. by repeat split.
  - intros k. by repeat split.
Defined.

#[local] Existing Instance simdutf8_std.
#[local] Existing Instance simdutf8_std_spec.

(** A text in two segments. *)
Definition tape_text : Tape := MkTape [[0x81; 2; 65]; [66]] [] [] 100 0 false.

Lemma compio_stream_delivers_witness : exists s' i',
  CompioWebSocketStream.next test_arch (fun _ => 0) 20 (CompioWebSocketStream.client Config.default, tape_text) = Returned (s', i') (Some (Ok (Message.Text [65; 66]))) /\
  exists rest, fst (ref_run (ref_frame (Config.max_message_size Config.default) (Config.validate_text_utf8 Config.default)) (initial_policy Client (Config.max_frame_size Config.default)) None (c_taken i')) =
    [Message.Text [65; 66]] ++ rest.
Proof.
  pose proof (compio_stream_delivers (SU := simdutf8_std) (SUok := simdutf8_std_spec) test_arch (fun _ => 0) Client Config.default None tape_text [] (CompioWebSocketStream.client Config.default) tape_text 20
    ltac:(by vm_compute) ltac:(constructor) ltac:(by apply kr_start) ltac:(unfold k_enough; cbn; lia)) as Hd. cbv zeta in Hd.
  assert (Eo : match CompioWebSocketStream.next test_arch (fun _ => 0) 20 (CompioWebSocketStream.client Config.default, tape_text) with Returned _ r => Some r | _ => None end =
    Some (Some (Ok (Message.Text [65; 66])))) by (vm_compute; reflexivity).
  destruct (CompioWebSocketStream.next _ _ _ _) as [[s' i'] r| | |]; try done. injection Eo as ->. exists s', i'. split; [done|]. exact (proj1 Hd).
Defined.

(** A Close of which the transport takes three bytes: its time runs out, and the stream is closed for good. *)
Definition tape_blocked : Tape := MkTape [] [] [] 3 0 false.

Lemma compio_output_whole_witness : exists s i, k_reachable (H := plain_protocol (SU := simdutf8_std) test_arch (fun _ => 0)) (protocol (CompioWebSocketStream.client Config.default)) Config.default None tape_blocked [] s i /\
  torn i = true /\ len (c_written i) = 3 /\ state s = StreamState.Closed /\ send (H := plain_protocol (SU := simdutf8_std) test_arch (fun _ => 0)) (Message.Text [65]) (s, i) = Returned (s, i) (Err ConnectionClosed).
Proof.
  assert (Eo : match close (H := plain_protocol (SU := simdutf8_std) test_arch (fun _ => 0)) 1000 [] (CompioWebSocketStream.client Config.default, tape_blocked) with
    | Returned (_, i) r => Some (r, torn i, len (c_written i)) | _ => None end = Some (Err ConnectionClosed, true, 3)) by (vm_compute; reflexivity).
  destruct (close _ _ _) as [[s i] r| | |] eqn:E; try done. injection Eo as Er Et El. exists s, i.
  assert (Hr : k_reachable (H := plain_protocol (SU := simdutf8_std) test_arch (fun _ => 0)) (protocol (CompioWebSocketStream.client Config.default)) Config.default None tape_blocked [] s i).
  { eapply kr_close; [|exact E]. by apply kr_start. }
  assert (Ha : arch_ok test_arch) by (by vm_compute).
  destruct (compio_output_whole (H0 := plain_spec (SU := simdutf8_std) (SUok := simdutf8_std_spec) test_arch (fun _ => 0) Ha (Config.max_message_size Config.default) true
    (initial_policy Client (Config.max_frame_size Config.default))) (protocol (CompioWebSocketStream.client Config.default)) Config.default None tape_blocked None [] s i
    (plain_start Client Config.default None ltac:(constructor)) Hr) as (_ & Hc & Hi & _).
  specialize (Hc Et). destruct (Hi Hc) as (_ & Hsend & _). split; [exact Hr|]. split; [exact Et|]. split; [exact El|]. split; [exact Hc|apply Hsend].
Defined.
