(* ===== verification/CompioConnect.v ===== *)
(** * Handshakes on compio (src/src/compio.rs)

    [server_handshake], [client_handshake], [accept_async] and [connect_async] on compio's transports.  Whatever the transport does, they do what the handshakes of handshake.rs do
    over a connection whose reads and writes end in the same way; the stream they return starts with the bytes that follow the head. *)

From stdpp Require Import base list option strings.
From S2P Require Import Prelude Error Mask Utf8 Frame FrameSpec Protocol ReceiveSpec ProtocolSpec ProtocolProps NextSpec.
From S2P Require Import Heartbeat Cork Output Stream Deflate Compressed Config WebSocket Scripted StreamSpec Header Handshake HandshakeSpec HandshakeWitness.
From S2P Require Import Compio CompioSpec CompioNext CompioTheorems.

Module CompioHandshake.
Section Handshakes.
Context `{Httparse, Base64, Sha1, UriParser} {I : Type} `{CompioIo I}.

(** [write_all_owned(stream, data).await?; stream.flush().await?] *)
Definition write_all_owned (data : bytes) (i : I) : task I (result unit) :=
  let '(i, r) := await_op None (WriteAll data) i in
  match r with
  | Came (Ok _) => Returned i (Ok tt)
  | Came (Err e) => Returned i (Err (from_io e))
  | Expired | Never _ => Waiting i (WriteAll data)
  end.
Definition write_flush (data : bytes) (i : I) : task I (result unit) :=
  await! (i, r) := write_all_owned data i in
  match r with
  | Err e => Returned i (Err e)
  | Ok _ =>
      let '(i, r) := await_op None FlushIo i in
      match r with
      | Came (Ok _) => Returned i (Ok tt)
      | Came (Err e) => Returned i (Err (from_io e))
      | Expired | Never _ => Waiting i FlushIo
      end
  end.

(** The loop of both handshakes: [head] parses what has been read, [answer] is what follows a complete head. *)
Fixpoint read_head {A} (too_large : Error) (head : bytes -> result (option (A * Z))) (answer : bytes -> A -> Z -> I -> task I (result HandshakeResult)) (fuel : nat) (buf : bytes) (i : I)
    : task I (result HandshakeResult) :=
  match fuel with
  | O => Exhausted
  | S fuel =>
      if MAX_HEADER_SIZE <? len buf then Returned i (Err too_large)
      else
        let '(i, buf, r) := read_more None buf i in
        match r with
        | Came (Err e) => Returned i (Err (from_io e))
        | Came (Ok n) =>
            if n =? 0 then Returned i (Err ConnectionClosed)
            else
              match head buf with
              | Err e => Returned i (Err e)
              | Ok (Some (x, consumed)) => answer buf x consumed i
              | Ok None => read_head too_large head answer fuel buf i
              end
        | Expired | Never _ => Waiting i Append
        end
  end.

Definition server_answer (response_extensions : option bytes) (buf : bytes) (req : HandshakeRequest) (consumed : Z) (i : I) : task I (result HandshakeResult) :=
  let protocol := select_default_subprotocol (protocol req) in
  await! (i, r) := write_flush (build_response (generate_accept_key (key req)) protocol response_extensions) i in
  match r with
  | Err e => Returned i (Err e)
  | Ok _ => Returned i (Ok (MkResult (path req) protocol (extensions req) (leftover buf consumed)))
  end.

Definition server_handshake_with_extensions (fuel : nat) (response_extensions : option bytes) (i : I) : task I (result HandshakeResult) :=
  read_head (InvalidHttp "request too large") parse_request (server_answer response_extensions) fuel [] i.
Definition server_handshake (fuel : nat) (i : I) : task I (result HandshakeResult) := server_handshake_with_extensions fuel None i.

Definition client_accept (key path : bytes) (protocol : option bytes) (buf : bytes) (res : HandshakeResponse) (consumed : Z) : result HandshakeResult :=
  match accept res with
  | None => Err (HandshakeFailed "missing Sec-WebSocket-Accept")
  | Some accept =>
      if negb (validate_accept_key key accept) then Err (HandshakeFailed "invalid Sec-WebSocket-Accept")
      else
        match validate_selected_protocol protocol (s_protocol res) with
        | Err e => Err e
        | Ok _ => Ok (MkResult path (s_protocol res) (s_extensions res) (leftover buf consumed))
        end
  end.

(** [random]: the bytes [generate_key] draws *)
Definition client_handshake_with_headers (fuel : nat) (random host path : bytes) (protocol : option bytes) (extra_headers : option (list (bytes * bytes))) (i : I)
    : task I (result HandshakeResult) :=
  let key := generate_key random in
  match build_request_with_headers host path key protocol None extra_headers with
  | Err e => Returned i (Err e)
  | Ok request =>
      await! (i, r) := write_flush request i in
      match r with
      | Err e => Returned i (Err e)
      | Ok _ => read_head (InvalidHttp "response too large") parse_response (fun buf res consumed i => Returned i (client_accept key path protocol buf res consumed)) fuel [] i
      end
  end.
Definition client_handshake (fuel : nat) (random host path : bytes) (protocol : option bytes) (i : I) : task I (result HandshakeResult) :=
  client_handshake_with_headers fuel random host path protocol None i.

(** The stream that follows a handshake. *)
Definition then_stream (role : Role) (config : Config.t) (m : task I (result HandshakeResult)) : task I (result (CompioWebSocketStream.t * HandshakeResult)) :=
  await! (i, r) := m in
  Returned i (match r with
              | Err e => Err e
              | Ok handshake => Ok (CompioWebSocketStream.from_raw_with_leftover role config (h_leftover handshake), handshake)
              end).
Definition accept_async (fuel : nat) (config : Config.t) (i : I) : task I (result (CompioWebSocketStream.t * HandshakeResult)) :=
  then_stream Server config (server_handshake fuel i).
Definition connect_async_with_headers (fuel : nat) (random host path : bytes) (protocol : option bytes) (extra_headers : option (list (bytes * bytes))) (config : Config.t) (i : I) :=
  then_stream Client config (client_handshake_with_headers fuel random host path protocol extra_headers i).
Definition connect_async (fuel : nat) (random host path : bytes) (protocol : option bytes) (config : Config.t) (i : I) :=
  connect_async_with_headers fuel random host path protocol None config i.
End Handshakes.
End CompioHandshake.

(** ** Against the handshakes of handshake.rs *)

Section Refinement.
Context `{Httparse, Base64, Sha1, UriParser} {I : Type} `{CompioIoSpec I}.
Import CompioHandshake.
Implicit Types i : I.
#[local] Arguments await_op : simpl never.

(** The bytes of the reads of a connection. *)
Definition peer_bytes (rs : list (IoError + bytes)) : bytes := concat (omap read_bytes rs).

(** [m], begun in [i], ends as [h] does over a connection with [rs] to read, all of which it reads.  What it leaves for the stream is the end of what has been read.
    [errors]: how its writes may fail.  It waits only for an operation that never ends. *)
Definition ends_as (errors : option (Z * IoError) -> option IoError -> Prop) (h : list (IoError + bytes) -> Peer -> Peer * result HandshakeResult) (buf : bytes) (m : task I (result HandshakeResult)) i : Prop :=
  match m with
  | Returned i' r => exists rs we fe, errors we fe /\ (forall rs0 w, exists out, h rs (MkPeer rs0 we fe w) = (MkPeer [] we fe (w ++ out), r) /\ c_written i' = c_written i ++ out) /\
      c_taken i' = c_taken i ++ peer_bytes rs /\ bytes_ok (peer_bytes rs) /\
      forall hs, r = Ok hs -> torn i' = torn i /\ exists head, buf ++ peer_bytes rs = head ++ default [] (h_leftover hs)
  | Waiting i' op => exists j, io_finish op j = (i', None)
  | _ => False
  end.

(** An operation that is awaited without a limit. *)
Lemma awaited_forever op i : let '(i', r) := await_op None op i in
  match r with Came r => io_effect io_view op r i i' | Expired => False | Never op' => op' = op /\ io_finish op i = (i', None) end.
Proof. unfold await_op. pose proof (io_finish_spec op i) as Hf. by destruct (io_finish op i) as [i' [r|]]. Qed.

Definition written_out (data : bytes) (m : task I (result unit)) i : Prop :=
  match m with
  | Returned i' r => k_env i i' /\ (r = Ok tt -> torn i' = torn i) /\
      exists we fe, (r = Ok tt -> we = None /\ fe = None) /\ forall rs w, exists out, Handshake.write_flush (MkPeer rs we fe w) data = (MkPeer rs we fe (w ++ out), r) /\ c_written i' = c_written i ++ out
  | Waiting i' op => exists j, io_finish op j = (i', None)
  | _ => False
  end.

Lemma write_flush_ok data i : written_out data (write_flush data i) i.
Proof.
  unfold write_flush, write_all_owned. pose proof (awaited_forever (WriteAll data) i) as Hw. destruct (await_op None (WriteAll data) i) as [i1 [[x|e]| |op]]; cbn in Hw |- *; try done.
  - destruct Hw as (E1 & E2 & E3 & Ew & Et). pose proof (awaited_forever FlushIo i1) as Hf. destruct (await_op None FlushIo i1) as [i2 [[x2|e]| |op]]; cbn in Hf |- *; try done.
    + destruct Hf as (F1 & F2 & F3 & Fw & Ft). split; [unfold k_env; split_and!; (congruence || lia)|]. split; [congruence|]. exists None, None. split; [done|]. intros rs w. exists data. by rewrite Fw, Ew.
    + destruct Hf as (F1 & F2 & F3 & Fw & Ft). split; [unfold k_env; split_and!; (congruence || lia)|]. split; [done|]. exists None, (Some e). split; [done|]. intros rs w. exists data. by rewrite Fw, Ew.
    + destruct Hf as [_ Hf]. by eexists.
  - destruct Hw as (E1 & E2 & E3 & [n Ew] & Et). split; [by split_and!|]. split; [done|]. exists (Some (n, e)), None. split; [done|]. intros rs w. by exists (upto n data).
  - destruct Hw as [_ Hw]. by eexists.
Qed.

Lemma leftover_suffix buf consumed : exists head, buf = head ++ default [] (leftover buf consumed).
Proof.
  unfold leftover. destruct (consumed <? len buf) eqn:E; cbn; [exists (upto consumed buf); by rewrite upto_from|exists buf; by rewrite app_nil_r].
Qed.

(** *** The loop *)

Section Loop.
Context {A : Type} (too_large : Error) (head : bytes -> result (option (A * Z))).
Context (answer : bytes -> A -> Z -> I -> task I (result HandshakeResult)) (peer_answer : Peer -> bytes -> A -> Z -> Peer * result HandshakeResult).
Context (loop : Peer -> list (IoError + bytes) -> bytes -> Peer * result HandshakeResult).
Context (loop_eq : forall p rs buf, loop p rs buf =
  if MAX_HEADER_SIZE <? len buf then (with_reads p rs, Err too_large) else
  match rs with
  | [] => (with_reads p [], Err ConnectionClosed)
  | inl e :: rs => (with_reads p rs, Err (from_io e))
  | inr chunk :: rs =>
      if len chunk =? 0 then (with_reads p rs, Err ConnectionClosed) else
      match head (buf ++ chunk) with
      | Err e => (with_reads p rs, Err e)
      | Ok (Some (x, consumed)) => peer_answer (with_reads p rs) (buf ++ chunk) x consumed
      | Ok None => loop p rs (buf ++ chunk)
      end
  end).
Context (errors : option (Z * IoError) -> option IoError -> Prop) (no_errors : errors None None).
Context (answered : forall buf x consumed i, match answer buf x consumed i with
  | Returned i' r => c_taken i' = c_taken i /\ (forall hs, r = Ok hs -> torn i' = torn i /\ h_leftover hs = leftover buf consumed) /\
      exists we fe, errors we fe /\ forall w, exists out, peer_answer (MkPeer [] we fe w) buf x consumed = (MkPeer [] we fe (w ++ out), r) /\ c_written i' = c_written i ++ out
  | Waiting i' op => exists j, io_finish op j = (i', None)
  | _ => False
  end).

(** One more read before a run that is already matched. *)
Lemma ends_as_read chunk buf m i i1 : (MAX_HEADER_SIZE <? len buf) = false -> (len chunk =? 0) = false -> head (buf ++ chunk) = Ok None ->
  c_taken i1 = c_taken i ++ chunk -> bytes_ok chunk -> c_written i1 = c_written i -> torn i1 = torn i ->
  ends_as errors (fun rs p => loop p rs (buf ++ chunk)) (buf ++ chunk) m i1 -> ends_as errors (fun rs p => loop p rs buf) buf m i.
Proof.
  intros Hl Hc Hh Et Hb Ew Eo. destruct m as [i' r|i' op| |]; cbn; try done. intros (rs & we & fe & Herr & Hr & E & Hok & Hhs). exists (inr chunk :: rs), we, fe. split; [done|].
  split; [intros rs0 w; destruct (Hr rs0 w) as (out & Er & Eout); exists out; rewrite loop_eq, Hl, Hc, Hh; split; [done|congruence]|].
  unfold peer_bytes in *. cbn [omap list_omap read_bytes concat]. split; [by rewrite E, Et, <- app_assoc|]. split; [by apply bytes_ok_app|].
  intros hs Ehs. destruct (Hhs hs Ehs) as [Eo' Hd]. split; [congruence|]. by rewrite app_assoc.
Qed.

(** A run that ends with the read [rs]. *)
Lemma ends_as_end rs buf i i' e : (forall p, loop p rs buf = (with_reads p [], Err e)) -> c_taken i' = c_taken i ++ peer_bytes rs -> bytes_ok (peer_bytes rs) -> c_written i' = c_written i ->
  ends_as errors (fun rs p => loop p rs buf) buf (Returned i' (Err e)) i.
Proof. intros Hl Et Hb Ew. exists rs, None, None. split; [done|]. split; [intros rs0 w; exists []; rewrite Hl, app_nil_r; by rewrite app_nil_r|]. by split_and!. Qed.

Lemma read_head_ok fuel : forall buf i, (supply i < fuel)%nat -> ends_as errors (fun rs p => loop p rs buf) buf (read_head too_large head answer fuel buf i) i.
Proof.
  induction fuel as [|fuel IH]; intros buf i Hf; [lia|]. cbn [read_head]. destruct (MAX_HEADER_SIZE <? len buf) eqn:El.
  { apply (ends_as_end []); [intros p; by rewrite loop_eq, El|by rewrite app_nil_r|constructor|done]. }
  unfold read_more. pose proof (awaited_forever Append i) as Hr. destruct (await_op None Append i) as [i1 [[data|e]| |op]]; cbn in Hr |- *; [|..].
  - destruct Hr as (Et & Hb & Hs & _ & Hs' & Ew & Eo). destruct (len data =? 0) eqn:En.
    { apply (ends_as_end [inr data]); [intros p; by rewrite loop_eq, El, En|unfold peer_bytes; cbn; by rewrite app_nil_r|unfold peer_bytes; cbn; by rewrite app_nil_r|done]. }
    destruct (head (buf ++ data)) as [[[x consumed]|]|e] eqn:Eh.
    + pose proof (answered (buf ++ data) x consumed i1) as Ha. destruct (answer (buf ++ data) x consumed i1) as [i2 r|i2 op| |]; try done.
      destruct Ha as (Et2 & Hhs & we & fe & Herr & Hans). exists [inr data], we, fe. split; [done|].
      split; [intros rs0 w; destruct (Hans w) as (out & Ea & Eout); exists out; rewrite loop_eq, El, En, Eh; cbn [with_reads]; split; [done|congruence]|].
      unfold peer_bytes. cbn. rewrite app_nil_r. split; [congruence|]. split; [done|]. intros hs Ehs. destruct (Hhs hs Ehs) as [Eo2 ->]. split; [congruence|apply leftover_suffix].
    + eapply ends_as_read; try done. apply IH. assert (data <> []) by (intros ->; done). specialize (Hs ltac:(done)). lia.
    + apply (ends_as_end [inr data]); [intros p; by rewrite loop_eq, El, En, Eh|unfold peer_bytes; cbn; by rewrite app_nil_r|unfold peer_bytes; cbn; by rewrite app_nil_r|done].
  - destruct Hr as (Et & _ & _ & Ew & _). apply (ends_as_end [inl e]); [intros p; by rewrite loop_eq, El|unfold peer_bytes; cbn; by rewrite app_nil_r|constructor|done].
  - done.
  - destruct Hr as [_ Hr]. by eexists.
Qed.
End Loop.

(** *** The handshakes *)

Lemma server_handshake_ok fuel i : (supply i < fuel)%nat -> ends_as (fun _ _ => True) (fun rs p => Handshake.server_loop p None rs []) [] (server_handshake fuel i) i.
Proof.
  intros Hf. apply (read_head_ok _ _ _ (fun p => Handshake.server_answer p None) (fun p => Handshake.server_loop p None)); [intros p [|[e|chunk] rs] buf; reflexivity|done| |done].
  intros buf req consumed j. unfold server_answer. cbv zeta. match goal with |- context [write_flush ?d j] => pose proof (write_flush_ok d j) as Hw; destruct (write_flush d j) as [j' r|j' op| |] end; try done.
  destruct Hw as ((Et & _) & Eo & we & fe & _ & Hw). unfold Handshake.server_answer. destruct r as [[]|e]; cbn [await_bind];
    (split; [done|]; split; [|exists we, fe; split; [done|]; intros w; destruct (Hw [] w) as (out & -> & ?); by exists out]); [|done].
  intros hs [= <-]. by split; [apply Eo|].
Qed.

Definition no_write_errors (we : option (Z * IoError)) (fe : option IoError) : Prop := we = None /\ fe = None.

Lemma compio_client_loop_ok key path protocol fuel i : (supply i < fuel)%nat ->
  ends_as no_write_errors (fun rs p => client_loop p key path protocol rs []) []
    (read_head (InvalidHttp "response too large") parse_response (fun buf res consumed i => Returned i (client_accept key path protocol buf res consumed)) fuel [] i) i.
Proof.
  intros Hf. apply (read_head_ok _ _ _ (fun p buf res consumed => (p, Handshake.client_accept key path protocol buf res consumed)) (fun p => client_loop p key path protocol));
    [intros p [|[e|chunk] rs] buf; reflexivity|done| |done].
  intros buf res consumed k. split; [done|]. split; [|exists None, None; split; [done|]; intros w; exists []; by rewrite !app_nil_r].
  unfold client_accept. intros hs E. repeat case_match; simplify_eq; done.
Qed.

Lemma client_handshake_ok fuel random host path protocol extra i : (supply i < fuel)%nat ->
  ends_as (fun _ _ => True) (fun rs p => Handshake.client_handshake_with_headers (with_reads p rs) random host path protocol extra) [] (client_handshake_with_headers fuel random host path protocol extra i) i.
Proof.
  intros Hf. unfold client_handshake_with_headers, Handshake.client_handshake_with_headers. destruct (build_request_with_headers _ _ _ _ _ _) as [request|e].
  2:{ exists [], None, None. split; [done|]. split; [intros rs0 w; exists []; by rewrite !app_nil_r|]. rewrite app_nil_r. by split; [|split; [constructor|]]. }
  pose proof (write_flush_ok request i) as Hw. destruct (write_flush request i) as [j r|j op| |]; try done. destruct Hw as ((Et & _ & Hs) & Eo & we & fe & Hno & Hw). destruct r as [[]|e]; cbn [await_bind].
  2:{ exists [], we, fe. split; [done|]. split; [intros rs0 w; destruct (Hw [] w) as (out & Ew & ?); exists out; unfold with_reads; cbn [write_error flush_error written]; by rewrite Ew|]. rewrite app_nil_r. by split; [|split; [constructor|]]. }
  pose proof (compio_client_loop_ok (generate_key random) path protocol fuel j ltac:(lia)) as Hl. destruct (Hno eq_refl) as [-> ->].
  destruct (read_head _ _ _ _ _ _) as [i' r|i' op| |]; try done. destruct Hl as (rs & we & fe & [-> ->] & Hl & Et' & Hb & Hhs). exists rs, None, None. split; [done|].
  split; [|split; [congruence|]; split; [done|]; intros hs Ehs; destruct (Hhs hs Ehs) as [Eo' ?]; split; [rewrite Eo', Eo; done|done]].
  intros rs0 w. destruct (Hw rs w) as (out & Ew & Eout). destruct (Hl rs (w ++ out)) as (out' & El & Eout'). exists (out ++ out').
  unfold with_reads; cbn [write_error flush_error written]. rewrite Ew. cbn [reads]. rewrite El, Eout', Eout, !app_assoc. done.
Qed.

(** ** The connections *)

Context {SU : Simdutf8} (arch : Arch) (slice_addr : bytes -> Z).

(** [m] opens a connection as handshake [h] does over a connection [p]: the bytes read and written are the same, and so is the result; the stream is a new one, and what it starts with is
    the rest of what has been read. *)
Definition opens (role : Role) (c : Config.t) (h : Peer -> Peer * result HandshakeResult) (m : task I (result (CompioWebSocketStream.t * HandshakeResult))) i : Prop :=
  match m with
  | Returned i' r => exists p p' hr, h p = (p', hr) /\ written p = [] /\ reads p' = [] /\ c_taken i' = c_taken i ++ peer_bytes (reads p) /\ c_written i' = c_written i ++ written p' /\
      match hr with
      | Err e => r = Err e
      | Ok hs => exists s head, r = Ok (s, hs) /\ peer_bytes (reads p) = head ++ default [] (h_leftover hs) /\ bytes_ok (default [] (h_leftover hs)) /\
          plain_reachable arch slice_addr role c (h_leftover hs) i' [] s i'
      end
  | Waiting i' op => exists j, io_finish op j = (i', None)
  | _ => False
  end.

Lemma then_stream_opens role c h m i : torn i = false -> ends_as (fun _ _ => True) (fun rs p => h (with_reads p rs)) [] m i -> opens role c h (then_stream role c m) i.
Proof.
  intros Ht. destruct m as [i' r|i' op| |]; cbn; try done. intros (rs & we & fe & _ & Hr & Et & Hb & Hhs). destruct (Hr [] []) as (out & E & Ew).
  exists (MkPeer rs we fe []), (MkPeer [] we fe out), r. split; [exact E|]. split_and!; try done. destruct r as [hs|e]; [|done]. destruct (Hhs hs eq_refl) as (Eo & head & Eh).
  eexists _, head. split; [done|]. split; [done|]. cbn in Eh. rewrite Eh in Hb. apply bytes_ok_app in Hb as [_ Hb]. split; [done|]. apply kr_start. congruence.
Qed.

(** [C21] [accept_async] and [connect_async] over any compio transport, with fuel for the reads that may still bring bytes: they never panic, wait only for an operation that
    the transport never completes, and else they return.  They then have read and written what [server_handshake] and [client_handshake] of handshake.rs read and write over some connection,
    and have the same result; the stream they return is new, and none of the bytes read after the head is lost. *)
Theorem compio_connections_refine c random host path protocol extra fuel i : torn i = false -> (supply i < fuel)%nat ->
  opens Server c Handshake.server_handshake (accept_async fuel c i) i /\
  opens Client c (fun p => Handshake.client_handshake_with_headers p random host path protocol extra) (connect_async_with_headers fuel random host path protocol extra c i) i.
Proof.
  intros Ht Hf. split; apply then_stream_opens; try done; [|by apply client_handshake_ok]. pose proof (server_handshake_ok fuel i Hf) as Hs.
  destruct (server_handshake fuel i) as [i' r|i' op| |]; try done. destruct Hs as (rs & we & fe & He & Hs & Hrest). exists rs, we, fe. split; [done|]. split; [|done].
  intros rs0 w. exact (Hs rs w).
Qed.
End Refinement.

(** ** A connection *)

#[local] Existing Instance simple_httparse.
#[local] Existing Instance simdutf8_std.

(** A request in two pieces, with a frame behind it. *)
Definition tape_request : Tape := MkTape [upto 40 the_request; from 40 the_request ++ [0x81; 0]] [] [] 1000 0 false.

Lemma compio_connections_refine_witness : exists i' s r,
  CompioHandshake.accept_async 10 Config.default tape_request = Returned i' (Ok (s, r)) /\ h_leftover r = Some [0x81; 0] /\
  h_path r = str "/chat?x=%20" /\ plain_reachable test_arch (fun _ => 0) Server Config.default (Some [0x81; 0]) i' [] s i'.
Proof.
  assert (Ht : torn tape_request = false) by reflexivity. assert (Hf : (supply tape_request < 10)%nat) by (cbn; lia).
  destruct (compio_connections_refine (I := Tape) (SU := simdutf8_std) test_arch (fun _ => 0) Config.default [] [] [] None None 10 tape_request Ht Hf) as [Hs _].
  assert (Eo : match CompioHandshake.accept_async 10 Config.default tape_request with Returned _ (Ok (_, r)) => Some (h_leftover r, h_path r) | _ => None end =
    Some (Some [0x81; 0], str "/chat?x=%20")) by (vm_compute; reflexivity).
  destruct (CompioHandshake.accept_async _ _ _) as [i' [[s r]|e]| | |]; try done. injection Eo as El Ep. exists i', s, r. split; [done|]. split; [done|]. split; [done|].
  destruct Hs as (p & p' & [hs|e] & _ & _ & _ & _ & _ & Hs); [|done]. destruct Hs as (s' & head & [= <- <-] & _ & _ & Hr). by rewrite El in Hr.
Defined.
