(* ===== verification/CompioSplit.v ===== *)
(** * Split streams on compio (src/src/compio.rs, [CompioSplitReader], [CompioSplitWriter], [compio_split_writer_driver] and their compressed counterparts)

    [split] gives a reading and a writing handle and spawns a task, the driver, that owns the writing half of the transport.  The handles send it requests over bounded channels; it writes one frame
    at a time, answers Pings and the peer's Close, and keeps the deadlines.  The compressed handles have the same code over another protocol, so that the protocol of the reader and the encoder of
    the driver are interfaces with two instances each.

    The system is a transition system.  A step of a task is a piece of its code that reads the clock at most once and ends at the latest where the task awaits; all tasks run on one thread, so that the
    steps of the code are sequences of these.  Labels carry what the outside decides: what the transport does, how far the clock goes, whether a timer that is due has been noticed, and when a call is dropped.
    Between two polls the kernel takes bytes of the operation that is under way ([LKernel]), also when the driver has given the operation up.  Instants are nanoseconds since the split. *)

From stdpp Require Import base list option strings.
From S2P Require Import Prelude Error Mask Utf8 Frame FrameSpec Protocol Heartbeat Cork Output Deflate Compressed Config WebSocket Compio.

Module CompioSplit.
Definition SPLIT_CONTROL_CAPACITY : nat := 32.
Definition SPLIT_APPLICATION_CAPACITY : nat := 32.
Definition SPLIT_OPEN := 0.
Definition SPLIT_CLOSING := 1.
Definition SPLIT_CLOSED := 2.

Module Cause.
Inductive t := ConnectionClosed | HeartbeatTimeout | IdleTimeout.
Definition from_error (e : Error) : t :=
  match e with
  | Error.HeartbeatTimeout => HeartbeatTimeout
  | Error.IdleTimeout => IdleTimeout
  | _ => ConnectionClosed
  end.
Definition error (c : t) : Error :=
  match c with
  | ConnectionClosed => Error.ConnectionClosed
  | HeartbeatTimeout => Error.HeartbeatTimeout
  | IdleTimeout => Error.IdleTimeout
  end.
End Cause.

Inductive ControlRequest := CPong (payload : bytes) (received_at : Z) | CPeerPing (payload : bytes) (received_at : Z) | CPeerClose | CReadError | CEof.

(** A request of the writing handle; a number stands for the channel of its completion. *)
Inductive ApplicationRequest := ASend (msg : Message.t) (completion : nat) | AFlush (completion : nat).

(** ** What the tasks share *)

Module Shared.
Record t := Mk {
  status : Z;
  terminal : option Cause.t;
  last_inbound_ms : Z;
  tracks_inbound_activity : bool
}.
Definition set_status (v : Z) (s : t) : t := Mk v (terminal s) (last_inbound_ms s) (tracks_inbound_activity s).
Definition set_terminal (v : option Cause.t) (s : t) : t := Mk (status s) v (last_inbound_ms s) (tracks_inbound_activity s).
Definition set_last_inbound_ms (v : Z) (s : t) : t := Mk (status s) (terminal s) v (tracks_inbound_activity s).
Definition new (closed tracks : bool) : t :=
  Mk (if closed then SPLIT_CLOSED else SPLIT_OPEN) (if closed then Some Cause.ConnectionClosed else None) 0 tracks.
Definition note_inbound (now : Z) (s : t) : t :=
  if negb (tracks_inbound_activity s) then s else set_last_inbound_ms (Z.max (last_inbound_ms s) (millis now)) s.
Definition is_open (s : t) : bool := status s =? SPLIT_OPEN.
Definition begin_closing (s : t) : t := if is_open s then set_status SPLIT_CLOSING s else s.
Definition terminate (cause : Cause.t) (s : t) : t :=
  let old := status s in
  let s := set_status SPLIT_CLOSED s in
  if negb (old =? SPLIT_CLOSED) then set_terminal (Some cause) s else s.
End Shared.

(** A bounded channel of the futures crate, with one sender.  The sender has to wait once there are more messages than [capacity]. *)
Module Chan.
Record t (A : Type) := Mk { queue : list A; tx_open : bool; rx_open : bool }.
Arguments Mk {A}. Arguments queue {A}. Arguments tx_open {A}. Arguments rx_open {A}.
Section Chan.
Context {A : Type} (capacity : nat).
Definition new : t A := Mk [] true true.
(** [poll_ready]: an error when the receiver is gone *)
Definition poll_ready (c : t A) : poll bool :=
  if negb (rx_open c) then Ready false else if Nat.leb (length (queue c)) capacity then Ready true else Pending.
(** [poll_flush], which has no error *)
Definition poll_flush (c : t A) : poll unit := match poll_ready c with Ready _ => Ready tt | Pending => Pending end.
Definition start_send (x : A) (c : t A) : t A := Mk (queue c ++ [x]) (tx_open c) (rx_open c).
(** [next], of the receiver *)
Definition next (c : t A) : t A * poll (option A) :=
  match queue c with
  | x :: q => (Mk q (tx_open c) (rx_open c), Ready (Some x))
  | [] => (c, if tx_open c then Pending else Ready None)
  end.
Definition drop_tx (c : t A) : t A := Mk (queue c) false (rx_open c).
Definition drop_rx (c : t A) : t A := Mk [] (tx_open c) false.
End Chan.
End Chan.

(** ** The protocol of the reader and the encoder of the driver *)

Class CompioReading (P : Type) := cr_process : P -> bytes -> comp (P * bytes * list Message.t * bool) unit.
Definition plain_reading {SU : Simdutf8} (arch : Arch) (slice_addr : bytes -> Z) : CompioReading Protocol.t := Protocol.process_into_with_activity arch slice_addr.
Definition compressed_reading {E D : Type} `{Codec E D} {SU : Simdutf8} (arch : Arch) (slice_addr : bytes -> Z) : CompioReading (CompressedReader.t D) :=
  CompressedReader.process_into_with_activity arch slice_addr.

(** [CompioSplitEncoder]; the key is what [generate_mask] returns.  [ce_close_reason]: what the response to a Close carries, for the record of what is written. *)
Class CompioSplitEncoder (E : Type) := {
  ce_encode_message : bytes -> E -> Message.t -> bytes -> comp (E * bytes) unit;
  ce_encode_pong : bytes -> E -> bytes -> bytes -> bytes;
  ce_encode_close_response : bytes -> E -> bytes -> E * bytes;
  ce_close_reason : E -> option CloseReason.t
}.
#[export] Instance plain_encoder : CompioSplitEncoder Protocol.t := {
  ce_encode_message := Protocol.encode_message;
  ce_encode_pong := Protocol.encode_pong;
  ce_encode_close_response := Protocol.encode_close_response;
  ce_close_reason := Protocol.pending_close
}.
#[export] Instance compressed_encoder {E D : Type} `{Codec E D} : CompioSplitEncoder (CompressedWriter.t E) := {
  ce_encode_message := CompressedWriter.encode_message;
  ce_encode_pong := CompressedWriter.encode_pong;
  ce_encode_close_response key p buf := (p, CompressedWriter.encode_close_response key p buf);
  ce_close_reason _ := None
}.

(** ** The tasks *)

(** What the driver does once a frame is written. *)
Inductive after := AfterPong | AfterPing | AfterSend (completion : nat) | AfterFlush (completion : nat).

(** Where the driver is: at the top of its loop, in its [select_biased!], in its branch for the timer (before and after the activity of the reader is picked up); the same places of
    [await_compio_write]; and the Close that ends the connection, before its budget is known, before its timer is made, and while it is flushed. *)
Inductive DriverPc :=
  | DTop
  | DSelect (timer : option Z)
  | DTimer
  | DBeat
  | DWriteTop (k : after)
  | DWrite (k : after) (timer close_at : option Z) (can_read_control : bool)
  | DWriteTimer (k : after) (close_at : option Z)
  | DWriteBeat (k : after)
  | DCloseResponse (deadline : Z)
  | DSleep (timeout : Z) (cause : Cause.t)
  | DFlush (timer : Z) (cause : Cause.t)
  | DEnd.

Module Driver.
Record t (E : Type) := Mk {
  pc : DriverPc;
  encoder : E;
  heartbeat : Heartbeat.t;
  closing_deadline : option Z;
  local_close_sent : bool;
  last_synced_inbound_ms : Z;
  deferred_control : option ControlRequest
}.
Arguments Mk {E}. Arguments pc {E}. Arguments encoder {E}. Arguments heartbeat {E}. Arguments closing_deadline {E}. Arguments local_close_sent {E}. Arguments last_synced_inbound_ms {E}. Arguments deferred_control {E}.
Section Setters.
Context {E : Type}.
Abbreviation t := (t E).
Definition set_pc (v : DriverPc) (d : t) : t := Mk v (encoder d) (heartbeat d) (closing_deadline d) (local_close_sent d) (last_synced_inbound_ms d) (deferred_control d).
Definition set_encoder (v : E) (d : t) : t := Mk (pc d) v (heartbeat d) (closing_deadline d) (local_close_sent d) (last_synced_inbound_ms d) (deferred_control d).
Definition set_heartbeat (v : Heartbeat.t) (d : t) : t := Mk (pc d) (encoder d) v (closing_deadline d) (local_close_sent d) (last_synced_inbound_ms d) (deferred_control d).
Definition set_closing_deadline (v : option Z) (d : t) : t := Mk (pc d) (encoder d) (heartbeat d) v (local_close_sent d) (last_synced_inbound_ms d) (deferred_control d).
Definition set_local_close_sent (v : bool) (d : t) : t := Mk (pc d) (encoder d) (heartbeat d) (closing_deadline d) v (last_synced_inbound_ms d) (deferred_control d).
Definition set_last_synced_inbound_ms (v : Z) (d : t) : t := Mk (pc d) (encoder d) (heartbeat d) (closing_deadline d) (local_close_sent d) v (deferred_control d).
Definition set_deferred_control (v : option ControlRequest) (d : t) : t := Mk (pc d) (encoder d) (heartbeat d) (closing_deadline d) (local_close_sent d) (last_synced_inbound_ms d) v.
End Setters.
End Driver.

(** The calls of the writing handle: a request that waits for room, that is in the channel, that waits for its completion. *)
Inductive AppPc := AIdle | AFeed (r : ApplicationRequest) | ACommit (r : ApplicationRequest) | AReply (r : ApplicationRequest) | ADropped.

(** Where [next] of the reading handle is: at the top of its loop, handing a request to the driver, telling it of a parse error, about to
    poll the terminal channel and the read, reading, telling it of the end. *)
Inductive ReaderPc := RIdle | RTop | RHandOff | RNotify | RSelect | RReading | REof | REofFlush | RDropped.

Module Reader.
Record t (P : Type) := Mk {
  pc : ReaderPc;
  protocol : P;
  read_buf : bytes;
  pending_messages : list Message.t;
  pending_parse_error : option Error;
  pending_request : option ControlRequest;
  terminal_reported : bool
}.
Arguments Mk {P}. Arguments pc {P}. Arguments protocol {P}. Arguments read_buf {P}. Arguments pending_messages {P}. Arguments pending_parse_error {P}. Arguments pending_request {P}. Arguments terminal_reported {P}.
Section Setters.
Context {P : Type}.
Abbreviation t := (t P).
Definition set_pc (v : ReaderPc) (r : t) : t := Mk v (protocol r) (read_buf r) (pending_messages r) (pending_parse_error r) (pending_request r) (terminal_reported r).
Definition set_protocol (v : P) (r : t) : t := Mk (pc r) v (read_buf r) (pending_messages r) (pending_parse_error r) (pending_request r) (terminal_reported r).
Definition set_read_buf (v : bytes) (r : t) : t := Mk (pc r) (protocol r) v (pending_messages r) (pending_parse_error r) (pending_request r) (terminal_reported r).
Definition set_pending_messages (v : list Message.t) (r : t) : t := Mk (pc r) (protocol r) (read_buf r) v (pending_parse_error r) (pending_request r) (terminal_reported r).
Definition set_pending_parse_error (v : option Error) (r : t) : t := Mk (pc r) (protocol r) (read_buf r) (pending_messages r) v (pending_request r) (terminal_reported r).
Definition set_pending_request (v : option ControlRequest) (r : t) : t := Mk (pc r) (protocol r) (read_buf r) (pending_messages r) (pending_parse_error r) v (terminal_reported r).
Definition set_terminal_reported (v : bool) (r : t) : t := Mk (pc r) (protocol r) (read_buf r) (pending_messages r) (pending_parse_error r) (pending_request r) v.
End Setters.
End Reader.

(** A frame that was encoded to be written: for whom, and how much of it the transport has taken. *)
Record Written := MkWritten { w_for : option nat; w_message : Message.t; w_frame : bytes; w_sent : nat }.

(** What the application has been told. *)
Inductive observation := Sent (msg : Message.t) (r : result unit) | Flushed (r : result unit) | Got (i : CompioStream.Item).

(** [terminal_msg]: what the driver has sent to the reader at its end.  [in_kernel]: the operation on the last frame may still take bytes.  [reply]: the completion of the call in progress.  [taken]: the
    bytes read; [lost]: a read was dropped, and its bytes and buffer with it. *)
Record State (E P : Type) := MkState {
  shared : Shared.t;
  now : Z;
  control : Chan.t ControlRequest;
  application : Chan.t ApplicationRequest;
  cancelled : bool;
  terminal_msg : option Cause.t;
  wire : list Written;
  in_kernel : bool;
  driver : Driver.t E;
  app : AppPc;
  next_completion : nat;
  reply : option (result unit);
  reader : Reader.t P;
  taken : bytes;
  lost : bool;
  log : list observation
}.
Arguments MkState {E} {P}. Arguments shared {E} {P}. Arguments now {E} {P}. Arguments control {E} {P}. Arguments application {E} {P}. Arguments cancelled {E} {P}. Arguments terminal_msg {E} {P}. Arguments wire {E} {P}. Arguments in_kernel {E} {P}. Arguments driver {E} {P}. Arguments app {E} {P}. Arguments next_completion {E} {P}. Arguments reply {E} {P}. Arguments reader {E} {P}. Arguments taken {E} {P}. Arguments lost {E} {P}. Arguments log {E} {P}.
Section Setters.
Context {E P : Type}.
Abbreviation State := (State E P).
Definition set_shared (v : Shared.t) (s : State) : State := MkState v (now s) (control s) (application s) (cancelled s) (terminal_msg s) (wire s) (in_kernel s) (driver s) (app s) (next_completion s) (reply s) (reader s) (taken s) (lost s) (log s).
Definition set_now (v : Z) (s : State) : State := MkState (shared s) v (control s) (application s) (cancelled s) (terminal_msg s) (wire s) (in_kernel s) (driver s) (app s) (next_completion s) (reply s) (reader s) (taken s) (lost s) (log s).
Definition set_control (v : Chan.t ControlRequest) (s : State) : State := MkState (shared s) (now s) v (application s) (cancelled s) (terminal_msg s) (wire s) (in_kernel s) (driver s) (app s) (next_completion s) (reply s) (reader s) (taken s) (lost s) (log s).
Definition set_application (v : Chan.t ApplicationRequest) (s : State) : State := MkState (shared s) (now s) (control s) v (cancelled s) (terminal_msg s) (wire s) (in_kernel s) (driver s) (app s) (next_completion s) (reply s) (reader s) (taken s) (lost s) (log s).
Definition set_cancelled (v : bool) (s : State) : State := MkState (shared s) (now s) (control s) (application s) v (terminal_msg s) (wire s) (in_kernel s) (driver s) (app s) (next_completion s) (reply s) (reader s) (taken s) (lost s) (log s).
Definition set_terminal_msg (v : option Cause.t) (s : State) : State := MkState (shared s) (now s) (control s) (application s) (cancelled s) v (wire s) (in_kernel s) (driver s) (app s) (next_completion s) (reply s) (reader s) (taken s) (lost s) (log s).
Definition set_wire (v : list Written) (s : State) : State := MkState (shared s) (now s) (control s) (application s) (cancelled s) (terminal_msg s) v (in_kernel s) (driver s) (app s) (next_completion s) (reply s) (reader s) (taken s) (lost s) (log s).
Definition set_in_kernel (v : bool) (s : State) : State := MkState (shared s) (now s) (control s) (application s) (cancelled s) (terminal_msg s) (wire s) v (driver s) (app s) (next_completion s) (reply s) (reader s) (taken s) (lost s) (log s).
Definition set_driver (v : Driver.t E) (s : State) : State := MkState (shared s) (now s) (control s) (application s) (cancelled s) (terminal_msg s) (wire s) (in_kernel s) v (app s) (next_completion s) (reply s) (reader s) (taken s) (lost s) (log s).
Definition set_app (v : AppPc) (s : State) : State := MkState (shared s) (now s) (control s) (application s) (cancelled s) (terminal_msg s) (wire s) (in_kernel s) (driver s) v (next_completion s) (reply s) (reader s) (taken s) (lost s) (log s).
Definition set_next_completion (v : nat) (s : State) : State := MkState (shared s) (now s) (control s) (application s) (cancelled s) (terminal_msg s) (wire s) (in_kernel s) (driver s) (app s) v (reply s) (reader s) (taken s) (lost s) (log s).
Definition set_reply (v : option (result unit)) (s : State) : State := MkState (shared s) (now s) (control s) (application s) (cancelled s) (terminal_msg s) (wire s) (in_kernel s) (driver s) (app s) (next_completion s) v (reader s) (taken s) (lost s) (log s).
Definition set_reader (v : Reader.t P) (s : State) : State := MkState (shared s) (now s) (control s) (application s) (cancelled s) (terminal_msg s) (wire s) (in_kernel s) (driver s) (app s) (next_completion s) (reply s) v (taken s) (lost s) (log s).
Definition set_taken (v : bytes) (s : State) : State := MkState (shared s) (now s) (control s) (application s) (cancelled s) (terminal_msg s) (wire s) (in_kernel s) (driver s) (app s) (next_completion s) (reply s) (reader s) v (lost s) (log s).
Definition set_lost (v : bool) (s : State) : State := MkState (shared s) (now s) (control s) (application s) (cancelled s) (terminal_msg s) (wire s) (in_kernel s) (driver s) (app s) (next_completion s) (reply s) (reader s) (taken s) v (log s).
Definition set_log (v : list observation) (s : State) : State := MkState (shared s) (now s) (control s) (application s) (cancelled s) (terminal_msg s) (wire s) (in_kernel s) (driver s) (app s) (next_completion s) (reply s) (reader s) (taken s) (lost s) v.
End Setters.

(** ** Steps *)

(** A step is not possible, panics, or leads to a state. *)
Inductive step_result (A : Type) := Blocked | Crashed | Moves (a : A).
Arguments Blocked {A}. Arguments Crashed {A}. Arguments Moves {A}.

(** What the transport answers to a poll of a write. *)
Inductive answer := Completed | Failed (e : IoError) | NotReady.

Definition completion_of (r : ApplicationRequest) : nat := match r with ASend _ id | AFlush id => id end.
Definition is_end (pc : DriverPc) : bool := match pc with DEnd => true | _ => false end.

Section System.
Context {E P : Type} `{CompioSplitEncoder E} `{CompioReading P} (config : Config.t).
Abbreviation State := (State E P).

Definition on_shared (f : Shared.t -> Shared.t) (s : State) : State := set_shared (f (shared s)) s.
Definition on_driver (f : Driver.t E -> Driver.t E) (s : State) : State := set_driver (f (driver s)) s.
Definition on_reader (f : Reader.t P -> Reader.t P) (s : State) : State := set_reader (f (reader s)) s.
Definition to_pc (pc : DriverPc) (s : State) : State := on_driver (Driver.set_pc pc) s.
Definition to_reader_pc (pc : ReaderPc) (s : State) : State := on_reader (Reader.set_pc pc) s.
Definition on_heartbeat (f : Heartbeat.t -> Heartbeat.t) (s : State) : State := on_driver (fun d => Driver.set_heartbeat (f (Driver.heartbeat d)) d) s.
Definition push_log (o : observation) (s : State) : State := set_log (log s ++ [o]) s.

(** *** The writing handle *)

Definition current_error (s : State) : Error := match Shared.terminal (shared s) with Some c => Cause.error c | None => ConnectionClosed end.

Definition told (r : ApplicationRequest) (x : result unit) : observation := match r with ASend msg _ => Sent msg x | AFlush _ => Flushed x end.
(** A call returns. *)
Definition app_return (r : ApplicationRequest) (x : result unit) (s : State) : State := set_reply None (set_app AIdle (push_log (told r x) s)).

(** [send] and [flush], up to where they wait. *)
Definition call (r : nat -> ApplicationRequest) (s : State) : step_result State :=
  match app s with
  | AIdle =>
      if negb (Shared.is_open (shared s)) then Moves (push_log (told (r 0%nat) (Err (current_error s))) s)
      else Moves (set_next_completion (S (next_completion s)) (set_reply None (set_app (AFeed (r (next_completion s))) s)))
  | _ => Blocked
  end.
Definition send (msg : Message.t) (s : State) : step_result State := call (ASend msg) s.
Definition send_text (text : bytes) (s : State) : step_result State := send (Message.Text text) s.
Definition send_binary (data : bytes) (s : State) : step_result State := send (Message.Binary data) s.
Definition close (code : Z) (reason : bytes) (s : State) : step_result State := send (Message.Close (Some (CloseReason.new code reason))) s.
Definition flush (s : State) : step_result State := call AFlush s.

Definition app_poll (s : State) : step_result State :=
  match app s with
  | AFeed r =>
      match Chan.poll_ready SPLIT_APPLICATION_CAPACITY (application s) with
      | Pending => Blocked
      | Ready false => Moves (app_return r (Err (current_error s)) s)
      | Ready true => Moves (set_app (ACommit r) (set_application (Chan.start_send r (application s)) s))
      end
  | ACommit r =>
      match Chan.poll_flush SPLIT_APPLICATION_CAPACITY (application s) with
      | Pending => Blocked
      | Ready _ => Moves (set_app (AReply r) s)
      end
  | AReply r =>
      match reply s with
      | Some x => Moves (app_return r x s)
      | None => if is_end (Driver.pc (driver s)) then Moves (app_return r (Err (current_error s)) s) else Blocked
      end
  | AIdle | ADropped => Blocked
  end.

(** A call is dropped while it waits. *)
Definition app_abort (s : State) : step_result State :=
  match app s with
  | AFeed _ | ACommit _ | AReply _ => Moves (set_reply None (set_app AIdle s))
  | AIdle | ADropped => Blocked
  end.
(** The handle is dropped. *)
Definition drop_writer (s : State) : step_result State :=
  match app s with
  | AIdle => Moves (set_app ADropped (set_application (Chan.drop_tx (application s)) (set_cancelled true s)))
  | _ => Blocked
  end.
Definition writer_is_closed (s : State) : bool := negb (Shared.is_open (shared s)).

(** *** The driver *)

(** [completion.send(x)]: nobody listens unless the call is in progress. *)
Definition complete (id : nat) (x : result unit) (s : State) : State :=
  match app s with
  | ACommit r | AReply r => if Nat.eqb (completion_of r) id then set_reply (Some x) s else s
  | _ => s
  end.

(** The end of the driver: the writer is dropped, the end is published, and the request that failed is told. *)
Definition finish (cause : Cause.t) (failed : option (nat * Error)) (s : State) : State :=
  let s := on_shared Shared.begin_closing s in
  let s := on_shared (Shared.terminate cause) s in
  let s := set_terminal_msg (Some cause) s in
  let s := match failed with Some (id, e) => complete id (Err e) s | None => s end in
  to_pc DEnd (set_application (Chan.drop_rx (application s)) (set_control (Chan.drop_rx (control s)) s)).

(** Activity of the reader is picked up. *)
Definition sync_inbound (s : State) : State :=
  let observed := Shared.last_inbound_ms (shared s) in
  if Driver.last_synced_inbound_ms (driver s) <? observed then
    on_heartbeat (fun h => fst (Heartbeat.on_inbound h observed None)) (on_driver (Driver.set_last_synced_inbound_ms observed) s)
  else s.

(** [CompioClosing::begin] *)
Definition begin_deadline (s : State) : State * Z :=
  match Driver.closing_deadline (driver s) with
  | Some d => (s, d)
  | None => let d := now s + Config.close_timeout config * 1000000000 in (on_driver (Driver.set_closing_deadline (Some d)) s, d)
  end.

Definition compio_timer_deadline (heartbeat : option Deadline) (closing : option Z) : option Z :=
  match (fun d => instant_of (deadline_at d)) <$> heartbeat, closing with
  | Some h, Some c => Some (Z.min h c)
  | Some h, None => Some h
  | None, c => c
  end.
Definition reached (t : option Z) (now : Z) : bool := match t with Some t => t <=? now | None => false end.

(** A frame to write. *)
Definition push_frame (who : option nat) (msg : Message.t) (frame : bytes) (s : State) : State := set_wire (wire s ++ [MkWritten who msg frame 0]) s.
(** [write_buf.clear(); encoder.encode_message(msg, &mut write_buf)], and the frame that is then written *)
Definition encode (key : bytes) (who : option nat) (msg : Message.t) (s : State) : step_result (State * result unit) :=
  match ce_encode_message key (Driver.encoder (driver s)) msg [] with
  | Done (e, b) (Ok _) => Moves (push_frame who msg b (on_driver (Driver.set_encoder e) s), Ok tt)
  | Done (e, _) (Err er) => Moves (on_driver (Driver.set_encoder e) s, Err er)
  | _ => Crashed
  end.
Definition stop_heartbeat (s : State) : State := on_heartbeat Heartbeat.stop s.
Definition heard (received_at : Z) (pong : option bytes) (s : State) : State := on_heartbeat (fun h => fst (Heartbeat.on_inbound h (millis received_at) pong)) s.

Definition handle_control (key : bytes) (r : ControlRequest) (s : State) : State :=
  match r with
  | CPong payload at_ => to_pc DTop (heard at_ (Some payload) s)
  | CPeerPing payload at_ =>
      let s := heard at_ None s in
      to_pc (DWriteTop AfterPong) (push_frame None (Message.Pong payload) (ce_encode_pong key (Driver.encoder (driver s)) payload []) s)
  | CPeerClose =>
      let '(s, deadline) := begin_deadline (stop_heartbeat s) in
      if negb (Driver.local_close_sent (driver s)) then
        let reason := ce_close_reason (Driver.encoder (driver s)) in
        let '(e, b) := ce_encode_close_response key (Driver.encoder (driver s)) [] in
        to_pc (DCloseResponse deadline) (push_frame None (Message.Close reason) b (on_driver (Driver.set_encoder e) s))
      else finish Cause.ConnectionClosed None s
  | CReadError | CEof => finish Cause.ConnectionClosed None (stop_heartbeat s)
  end.

Definition handle_application (key : bytes) (r : ApplicationRequest) (s : State) : step_result State :=
  match r with
  | ASend msg id =>
      if negb (Shared.is_open (shared s)) then Moves (to_pc DTop (complete id (Err ConnectionClosed) s))
      else
        let s := if Message.is_close msg then fst (begin_deadline (on_driver (Driver.set_local_close_sent true) (stop_heartbeat (on_shared Shared.begin_closing s)))) else s in
        match encode key (Some id) msg s with
        | Moves (s, Ok _) => Moves (to_pc (DWriteTop (AfterSend id)) s)
        | Moves (s, Err e) => Moves (finish (Cause.from_error e) (Some (id, e)) s)
        | Blocked => Blocked
        | Crashed => Crashed
        end
  | AFlush id => Moves (to_pc (DWriteTop (AfterFlush id)) s)
  end.

(** The [select_biased!] of the loop. *)
Definition poll_select (fired : bool) (key : bytes) (timer : option Z) (s : State) : step_result State :=
  if cancelled s then Moves (finish Cause.ConnectionClosed None s)
  else match Driver.deferred_control (driver s) with
  | Some r => Moves (handle_control key r (on_driver (Driver.set_deferred_control None) s))
  | None =>
      let '(c, got) := Chan.next (control s) in
      match got with
      | Ready None => Moves (finish Cause.ConnectionClosed None s)
      | Ready (Some r) => Moves (handle_control key r (set_control c s))
      | Pending =>
          let '(c, got) := Chan.next (application s) in
          match got with
          | Ready None => Moves (finish Cause.ConnectionClosed None s)
          | Ready (Some r) => handle_application key r (set_application c s)
          | Pending => if fired && reached timer (now s) then Moves (to_pc DTimer s) else Blocked
          end
      end
  end.

(** [compio_timeout_close], up to its flush *)
Definition timeout_close (key : bytes) (code : Z) (reason : bytes) (cause : Cause.t) (s : State) : step_result State :=
  match encode key None (Message.Close (Some (CloseReason.new code (bounded_close_reason reason)))) s with
  | Moves (s, Ok _) => Moves (to_pc (DSleep (Config.close_timeout config * 1000000000) cause) s)
  | Moves (s, Err _) => Moves (finish cause None s)
  | Blocked => Blocked
  | Crashed => Crashed
  end.

Definition beat (key : bytes) (nonce : Z) (s : State) : step_result State :=
  let now_ms := millis (now s) in
  match Heartbeat.next_deadline (Driver.heartbeat (driver s)) with
  | Some (DPing at_ms) =>
      if at_ms <=? now_ms then
        let '(_, h, ping) := Heartbeat.ping_due nonce (Driver.heartbeat (driver s)) now_ms in
        let s := on_heartbeat (fun _ => h) s in
        match ping with
        | None => Moves (to_pc DTop s)
        | Some payload =>
            match encode key None (Message.Ping payload) s with
            | Moves (s, Ok _) => Moves (to_pc (DWriteTop AfterPing) s)
            | Moves (s, Err e) => Moves (finish (Cause.from_error e) None s)
            | Blocked => Blocked
            | Crashed => Crashed
            end
        end
      else Moves (to_pc DTop s)
  | Some (DPong at_ms) =>
      if at_ms <=? now_ms then timeout_close key (Config.pong_timeout_close_code config) (Config.pong_timeout_close_reason config) Cause.HeartbeatTimeout s
      else Moves (to_pc DTop s)
  | Some (DIdle at_ms) =>
      if at_ms <=? now_ms then timeout_close key CloseReason.GOING_AWAY (str "Connection idle timeout") Cause.IdleTimeout s
      else Moves (to_pc DTop s)
  | None => Moves (to_pc DTop s)
  end.

(** What follows a write. *)
Definition written (k : after) (r : result unit) (s : State) : State :=
  match r with
  | Ok _ =>
      to_pc DTop (match k with
        | AfterPong => s
        | AfterPing => on_heartbeat (fun h => Heartbeat.ping_flushed h (millis (now s))) s
        | AfterSend id | AfterFlush id => complete id (Ok tt) s
        end)
  | Err e => finish (Cause.from_error e) (match k with AfterSend id | AfterFlush id => Some (id, e) | _ => None end) s
  end.

Definition all_sent (s : State) : bool := match last (wire s) with Some w => Nat.eqb (w_sent w) (length (w_frame w)) | None => true end.

(** The [select_biased!] of [await_compio_write]; a request of the reader that comes while the frame is being written. *)
Definition interrupt (k : after) (r : ControlRequest) (s : State) : State :=
  let defer (r : ControlRequest) (s : State) : State := on_driver (Driver.set_deferred_control (Some r)) s in
  match r with
  | CPong payload at_ => to_pc (DWriteTop k) (heard at_ (Some payload) s)
  | CPeerPing payload at_ => to_pc (DWriteTop k) (defer r (heard at_ None s))
  | CPeerClose | CReadError => to_pc (DWriteTop k) (defer r (fst (begin_deadline (stop_heartbeat s))))
  | CEof => written k (Err ConnectionClosed) s
  end.
Definition poll_write (a : answer) (fired : bool) (k : after) (timer close_at : option Z) (can_read_control : bool) (s : State) : step_result State :=
  match a with
  | Completed => if all_sent s then Moves (written k (Ok tt) (set_in_kernel false s)) else Blocked
  | Failed e => Moves (written k (Err (from_io e)) (set_in_kernel false s))
  | NotReady =>
      if cancelled s then Moves (written k (Err ConnectionClosed) s)
      else
        let '(c, got) := if can_read_control then Chan.next (control s) else (control s, Pending) in
        match got with
        | Ready None => Moves (written k (Err ConnectionClosed) s)
        | Ready (Some r) => Moves (interrupt k r (set_control c s))
        | Pending => if fired && reached timer (now s) then Moves (to_pc (DWriteTimer k close_at) s) else Blocked
        end
  end.

Definition driver_step (a : answer) (fired : bool) (key : bytes) (nonce : Z) (s : State) : step_result State :=
  let d := driver s in
  match Driver.pc d with
  | DTop =>
      if Shared.status (shared s) =? SPLIT_CLOSED then Moves (finish Cause.ConnectionClosed None s)
      else
        let s := sync_inbound s in
        let heartbeat_deadline := Heartbeat.next_deadline (Driver.heartbeat (driver s)) in
        let close_deadline := Driver.closing_deadline (driver s) in
        let timer_expired := reached (deadline_at <$> heartbeat_deadline) (millis (now s)) || reached close_deadline (now s) in
        Moves (to_pc (if timer_expired then DTimer else DSelect (compio_timer_deadline heartbeat_deadline close_deadline)) s)
  | DSelect timer => poll_select fired key timer s
  | DTimer =>
      if reached (Driver.closing_deadline d) (now s) then Moves (finish Cause.ConnectionClosed None s)
      else Moves (to_pc DBeat (sync_inbound s))
  | DBeat => beat key nonce s
  | DWriteTop k =>
      let s := set_in_kernel true (sync_inbound s) in
      let deadline := Heartbeat.next_hard_deadline (Driver.heartbeat (driver s)) in
      let close_at := Driver.closing_deadline (driver s) in
      let can_read_control := match Driver.deferred_control (driver s) with Some CPeerClose | Some CReadError => false | _ => true end in
      Moves (to_pc (DWrite k (compio_timer_deadline deadline close_at) close_at can_read_control) s)
  | DWrite k timer close_at can_read_control => poll_write a fired k timer close_at can_read_control s
  | DWriteTimer k close_at =>
      if reached close_at (now s) then Moves (written k (Err ConnectionClosed) s)
      else Moves (to_pc (DWriteBeat k) (sync_inbound s))
  | DWriteBeat k =>
      let now_ms := millis (now s) in
      match Heartbeat.next_hard_deadline (Driver.heartbeat d) with
      | Some (DPong at_ms) => Moves (if at_ms <=? now_ms then written k (Err HeartbeatTimeout) s else to_pc (DWriteTop k) s)
      | Some (DIdle at_ms) => Moves (if at_ms <=? now_ms then written k (Err IdleTimeout) s else to_pc (DWriteTop k) s)
      | _ => Moves (to_pc (DWriteTop k) s)
      end
  | DCloseResponse deadline => Moves (to_pc (DSleep (Z.max 0 (deadline - now s)) Cause.ConnectionClosed) s)
  | DSleep timeout cause => Moves (to_pc (DFlush (now s + timeout) cause) (set_in_kernel true s))
  | DFlush timer cause =>
      match a with
      | Completed => if all_sent s then Moves (finish cause None (set_in_kernel false s)) else Blocked
      | Failed _ => Moves (finish cause None (set_in_kernel false s))
      | NotReady => if fired && (timer <=? now s) then Moves (finish cause None s) else Blocked
      end
  | DEnd => Blocked
  end.

(** The kernel takes bytes of the operation that is under way. *)
Definition kernel (n : nat) (s : State) : step_result State :=
  match in_kernel s, last (wire s) with
  | true, Some w =>
      if Nat.leb (w_sent w + n) (length (w_frame w)) then
        Moves (set_wire (removelast (wire s) ++ [MkWritten (w_for w) (w_message w) (w_frame w) (w_sent w + n)]) s)
      else Blocked
  | _, _ => Blocked
  end.

(** *** The reading handle *)

Definition reader_return (i : CompioStream.Item) (s : State) : State := to_reader_pc RIdle (push_log (Got i) s).
Definition pop_message (r : Reader.t P) : Reader.t P * option Message.t :=
  match reverse (Reader.pending_messages r) with
  | m :: rest => (Reader.set_pending_messages (reverse rest) r, Some m)
  | [] => (r, None)
  end.
Definition terminate (cause : Cause.t) (s : State) : State := on_shared (Shared.terminate cause) s.

(** The message on top is handed to the driver, and kept until the driver has it. *)
Definition hand_off (msg : Message.t) (request : ControlRequest) (s : State) : State :=
  to_reader_pc RHandOff (on_reader (fun r => Reader.set_pending_request (Some request) (Reader.set_pending_messages (Reader.pending_messages r ++ [msg]) r)) s).

Definition take_message (msg : Message.t) (s : State) : State :=
  let kept := Reader.pending_request (reader s) in
  match msg with
  | Message.Ping data => hand_off msg (default (CPeerPing data (now s)) kept) s
  | Message.Pong data => hand_off msg (default (CPong data (now s)) kept) s
  | Message.Close _ =>
      match kept with
      | Some request => hand_off msg request s
      | None =>
          hand_off msg CPeerClose
            (on_reader (fun r => Reader.set_read_buf [] (Reader.set_pending_parse_error None (Reader.set_pending_messages [] r))) (on_shared Shared.begin_closing s))
      end
  | _ => reader_return (Some (Ok msg)) (on_shared (Shared.note_inbound (now s)) s)
  end.

(** What has been read is parsed; then the loop starts again, or a read follows. *)
Definition parse (s : State) : step_result State :=
  let r := reader s in
  if bool_decide (Reader.read_buf r = []) then Moves (to_reader_pc RSelect s)
  else
    match cr_process (Reader.protocol r) (Reader.read_buf r) with
    | Done (p, buf, messages, accepted_fragment) x =>
        let s := on_reader (fun r => Reader.set_pending_messages (reverse (Reader.pending_messages r ++ messages)) (Reader.set_read_buf buf (Reader.set_protocol p r))) s in
        match x with
        | Ok _ =>
            let s := if accepted_fragment then on_shared (Shared.note_inbound (now s)) s else s in
            Moves (to_reader_pc (if bool_decide (Reader.pending_messages (reader s) = []) then RSelect else RTop) s)
        | Err error => Moves (to_reader_pc RTop (on_shared Shared.begin_closing (on_reader (Reader.set_pending_parse_error (Some error)) s)))
        end
    | _ => Crashed
    end.

Definition reader_top (s : State) : step_result State :=
  let r := reader s in
  if Reader.terminal_reported r then Moves (reader_return None s)
  else if bool_decide (Reader.pending_parse_error r = None) && (Shared.status (shared s) =? SPLIT_CLOSED) then
    Moves (reader_return
      (match Shared.terminal (shared s) with
       | Some Cause.HeartbeatTimeout => Some (Err HeartbeatTimeout)
       | Some Cause.IdleTimeout => Some (Err IdleTimeout)
       | _ => None
       end) (on_reader (Reader.set_terminal_reported true) s))
  else
    let '(r', msg) := pop_message r in
    match msg with
    | Some msg => Moves (take_message msg (on_reader (fun _ => r') s))
    | None => if bool_decide (is_Some (Reader.pending_parse_error r)) then Moves (to_reader_pc RNotify s) else parse s
    end.

(** What the outside brings to [next].  [RRead]: the read has completed. *)
Inductive ReaderLabel := RCall | RPoll | RRead (r : res IoError bytes) | RAbort | RDrop.

(** The terminal message, if there is one, or the end of its channel; it is polled before the read. *)
Definition terminal_ready (s : State) : option Cause.t :=
  match terminal_msg s with
  | Some cause => Some cause
  | None => if is_end (Driver.pc (driver s)) then Some Cause.ConnectionClosed else None
  end.

Definition reader_step (l : ReaderLabel) (s : State) : step_result State :=
  match l, Reader.pc (reader s) with
  | RCall, RIdle => Moves (to_reader_pc RTop s)
  | RPoll, RTop => reader_top s
  | RPoll, RHandOff =>
      match Chan.poll_ready SPLIT_CONTROL_CAPACITY (control s), Reader.pending_request (reader s) with
      | Pending, _ => Blocked
      | Ready false, _ =>
          Moves (to_reader_pc RTop (terminate Cause.ConnectionClosed (on_reader (fun r => Reader.set_pending_request None (fst (pop_message r))) s)))
      | Ready true, None => Crashed
      | Ready true, Some request =>
          let s := set_control (Chan.start_send request (control s)) (on_reader (Reader.set_pending_request None) s) in
          let '(r, msg) := pop_message (reader s) in
          Moves (reader_return (Ok <$> msg) (on_reader (fun _ => r) s))
      end
  | RPoll, RNotify =>
      match Chan.poll_ready SPLIT_CONTROL_CAPACITY (control s) with
      | Pending => Blocked
      | Ready ok =>
          let s := if ok then set_control (Chan.start_send CReadError (control s)) s else s in
          let error := Reader.pending_parse_error (reader s) in
          Moves (reader_return (Err <$> error) (on_reader (fun r => Reader.set_pending_parse_error None (Reader.set_terminal_reported true r)) (terminate Cause.ConnectionClosed s)))
      end
  | RPoll, RSelect =>
      match terminal_ready s with
      | Some cause => Moves (to_reader_pc RTop (terminate cause (set_terminal_msg None s)))
      | None => Moves (to_reader_pc RReading s)
      end
  | RPoll, RReading =>
      match terminal_ready s with
      | Some cause => Moves (to_reader_pc RTop (terminate cause (on_reader (Reader.set_read_buf []) (set_terminal_msg None s))))
      | None => Blocked
      end
  | RRead x, RReading =>
      match terminal_ready s with
      | Some _ => Blocked
      | None =>
          match x with
          | Ok [] => Moves (to_reader_pc REof s)
          | Ok data => Moves (to_reader_pc RTop (set_taken (taken s ++ data) (on_reader (fun r => Reader.set_read_buf (Reader.read_buf r ++ data) r) s)))
          | Err e => Moves (reader_return (Some (Err (from_io e))) (terminate Cause.ConnectionClosed s))
          end
      end
  | RPoll, REof =>
      match Chan.poll_ready SPLIT_CONTROL_CAPACITY (control s) with
      | Pending => Blocked
      | Ready true => Moves (to_reader_pc REofFlush (set_control (Chan.start_send CEof (control s)) s))
      | Ready false => Moves (to_reader_pc RTop (terminate Cause.ConnectionClosed s))
      end
  | RPoll, REofFlush =>
      match Chan.poll_flush SPLIT_CONTROL_CAPACITY (control s) with
      | Pending => Blocked
      | Ready _ => Moves (to_reader_pc RTop (terminate Cause.ConnectionClosed s))
      end
  | RAbort, RReading => Moves (to_reader_pc RIdle (set_lost true (on_reader (Reader.set_read_buf []) s)))
  | RAbort, (RHandOff | RNotify | REof | REofFlush) => Moves (to_reader_pc RIdle s)
  | RDrop, RIdle => Moves (to_reader_pc RDropped (set_control (Chan.drop_tx (control s)) (set_cancelled true s)))
  | _, _ => Blocked
  end.
Definition reader_is_closed (s : State) : bool :=
  Reader.terminal_reported (reader s) || (bool_decide (Reader.pending_parse_error (reader s) = None) && negb (Shared.is_open (shared s))).

(** ** The system *)

Inductive label :=
  | LSend (msg : Message.t)
  | LFlush
  | LApp
  | LAppAbort
  | LDropWriter
  | LDriver (a : answer) (fired : bool) (key : bytes) (nonce : Z)
  | LKernel (n : nat)
  | LReader (l : ReaderLabel)
  | LTick (ns : Z).

Definition step (l : label) (s : State) : step_result State :=
  match l with
  | LSend msg => send msg s
  | LFlush => flush s
  | LApp => app_poll s
  | LAppAbort => app_abort s
  | LDropWriter => drop_writer s
  | LDriver a fired key nonce => driver_step a fired key nonce s
  | LKernel n => kernel n s
  | LReader l => reader_step l s
  | LTick ns => if 0 <=? ns then Moves (set_now (now s + ns) s) else Blocked
  end.

Fixpoint steps (ls : list label) (s : State) : step_result State :=
  match ls with
  | [] => Moves s
  | l :: ls => match step l s with Moves s => steps ls s | Blocked => Blocked | Crashed => Crashed end
  end.

(** What [split] makes of a stream: its state, whether its heartbeat tracks activity, what it has read and parsed, and the two halves of its protocol. *)
Definition split_state (state : CompioStream.StreamState.t) (tracks : bool) (reader_protocol : P) (read_buf : bytes) (pending_messages : list Message.t)
    (pending_parse_error : option Error) (writer_protocol : E) : State :=
  let closed := match state with CompioStream.StreamState.Open | CompioStream.StreamState.ReadErrorPending => false | _ => true end in
  let shared := Shared.new closed tracks in
  let shared := if bool_decide (is_Some pending_parse_error) then Shared.begin_closing shared else shared in
  let heartbeat := Heartbeat.new (Config.auto_ping config) (Config.ping_interval config) (Config.idle_timeout config) (Config.pong_timeout config) 0 in
  MkState shared 0 Chan.new Chan.new false None [] false (Driver.Mk DTop writer_protocol heartbeat None false 0 None) AIdle 0 None
    (Reader.Mk RIdle reader_protocol read_buf pending_messages pending_parse_error None false) [] false [].
End System.

(** ** [split], of both streams *)

Definition split (ws : CompioWebSocketStream.t) : State Protocol.t Protocol.t :=
  let c := CompioStream.config ws in
  let '(reader_protocol, writer_protocol) := Protocol.split (CompioStream.protocol ws) (Config.max_frame_size c) (Config.max_message_size c) in
  split_state c (CompioStream.state ws) (Heartbeat.tracks_inbound_activity (CompioStream.heartbeat ws)) reader_protocol (CompioStream.read_buf ws) (CompioStream.pending_messages ws)
    (CompioStream.pending_parse_error ws) writer_protocol.

Definition split_compressed_stream {E D : Type} `{Codec E D} (ws : CompioCompressedWebSocketStream.t (E := E) (D := D)) : State (CompressedWriter.t E) (CompressedReader.t D) :=
  let c := CompioStream.config ws in
  let '(reader_protocol, writer_protocol) := split_compressed (CompioStream.protocol ws) (Config.max_frame_size c) (Config.max_message_size c) in
  split_state c (CompioStream.state ws) (Heartbeat.tracks_inbound_activity (CompioStream.heartbeat ws)) reader_protocol (CompioStream.read_buf ws) (CompioStream.pending_messages ws)
    (CompioStream.pending_parse_error ws) writer_protocol.

(** ** The handles of both streams *)

Module CompioSplitReader.
Section Methods.
Context {SU : Simdutf8} (arch : Arch) (slice_addr : bytes -> Z).
Definition t : Type := State Protocol.t Protocol.t.
(** A step of [next]; a call that is dropped is one of its labels. *)
Definition next (l : ReaderLabel) (s : t) : step_result t := reader_step (H0 := plain_reading arch slice_addr) l s.
Definition is_closed (s : t) : bool := reader_is_closed s.
Definition drop (s : t) : step_result t := next RDrop s.
End Methods.
End CompioSplitReader.

Module CompioCompressedSplitReader.
Section Methods.
Context {E D : Type} `{Codec E D} {SU : Simdutf8} (arch : Arch) (slice_addr : bytes -> Z).
Definition t : Type := State (CompressedWriter.t E) (CompressedReader.t D).
Definition next (l : ReaderLabel) (s : t) : step_result t := reader_step (H0 := compressed_reading arch slice_addr) l s.
Definition is_closed (s : t) : bool := reader_is_closed s.
Definition drop (s : t) : step_result t := next RDrop s.
End Methods.
End CompioCompressedSplitReader.

Module CompioCompressedSplitWriter.
Section Methods.
Context {E D : Type} `{Codec E D}.
Definition t : Type := State (CompressedWriter.t E) (CompressedReader.t D).
Definition send (msg : Message.t) (s : t) : step_result t := send msg s.
Definition send_text (text : bytes) (s : t) : step_result t := send_text text s.
Definition send_binary (data : bytes) (s : t) : step_result t := send_binary data s.
Definition close (code : Z) (reason : bytes) (s : t) : step_result t := close code reason s.
Definition flush (s : t) : step_result t := flush s.
Definition is_closed (s : t) : bool := writer_is_closed s.
Definition current_error (s : t) : Error := current_error s.
Definition drop (s : t) : step_result t := drop_writer s.
End Methods.
End CompioCompressedSplitWriter.
End CompioSplit.
