(* ===== verification/CompioSplitSpec.v ===== *)
(** * Split streams on compio: the frames that are written

    Invariants of the system of CompioSplit.v: the driver writes whole frames, one after the other ([wire_ok]); after a Close it writes Pongs only ([order_ok]); a [send] that has returned [Ok] has its frame
    on the wire ([sends_ok]).  They hold for every encoder and every reader. *)

From stdpp Require Import base list option strings.
From S2P Require Import Prelude Error Mask Utf8 Frame FrameSpec Protocol Heartbeat Cork Output Deflate Compressed Config WebSocket Compio CompioSplit.
Import CompioSplit.

(** ** Numbered messages *)

Abbreviation numbered := (list (nat * Message.t)).
Abbreviation below n := (fun x : nat * Message.t => (fst x < n)%nat).
Definition increasing (l : numbered) : Prop := forall l1 x l2, l = l1 ++ x :: l2 -> Forall (below (fst x)) l1.

Lemma increasing_snoc l x : increasing l -> Forall (below (fst x)) l -> increasing (l ++ [x]).
Proof.
  intros Hl Hx l1 y l2 E1. destruct l2 as [|z l2 _] using rev_ind; [by apply app_inj_tail in E1 as [<- <-]|].
  rewrite app_comm_cons, app_assoc in E1. apply app_inj_tail in E1 as [E1 _]. by apply (Hl l1 y l2).
Qed.
Lemma increasing_prefix l l' : increasing (l ++ l') -> increasing l.
Proof. intros Hl l1 x l2 ->. apply (Hl l1 x (l2 ++ l')). by rewrite <- app_assoc. Qed.
Lemma increasing_after l1 x l2 : increasing (l1 ++ x :: l2) -> Forall (fun y => (fst x < fst y)%nat) l2.
Proof.
  intros Hl. apply Forall_forall. intros y (k1 & k2 & ->)%list_elem_of_split. specialize (Hl (l1 ++ x :: k1) y k2). rewrite <- app_assoc in Hl.
  specialize (Hl eq_refl). apply Forall_app in Hl as [_ Hl]. by apply Forall_inv in Hl.
Qed.
Lemma increasing_sublist l k : increasing l -> k `sublist_of` l -> increasing k.
Proof.
  intros Hl Hs. induction Hs as [|x k l Hs IH|x k l Hs IH]; [done|..].
  - assert (Htail : increasing l).
    { intros l1 y l2 ->. specialize (Hl (x :: l1) y l2 eq_refl). by apply Forall_inv_tail in Hl. }
    intros k1 y k2 E1. destruct k1 as [|z k1]; [constructor|]. injection E1 as <- ->. constructor; [|by apply (IH Htail k1 y k2)].
    pose proof (increasing_after [] x l Hl) as Hf. rewrite Forall_forall in Hf. apply Hf. eapply elem_of_sublist; [|exact Hs]. rewrite elem_of_app. right. by left.
  - apply IH. intros l1 y l2 ->. specialize (Hl (x :: l1) y l2 eq_refl). by apply Forall_inv_tail in Hl.
Qed.

(** The next one in order. *)
Lemma sublist_insert (l : numbered) x L : increasing l -> x ∈ l -> Forall (below (fst x)) L -> L `sublist_of` l -> L ++ [x] `sublist_of` l.
Proof.
  intros Hs (l1 & l2 & ->)%list_elem_of_split Hl Hsub. apply sublist_app; [|apply sublist_skip, sublist_nil_l].
  apply sublist_app_r in Hsub as (k1 & k2 & -> & H1 & H2). destruct k2 as [|y k2]; [by rewrite app_nil_r|]. exfalso.
  apply Forall_app in Hl as [_ Hl%Forall_inv]. assert (Hin : y ∈ x :: l2) by (eapply elem_of_sublist; [|exact H2]; by left).
  apply elem_of_cons in Hin as [-> |Hin]; [lia|]. apply increasing_after in Hs. rewrite Forall_forall in Hs. specialize (Hs _ Hin). lia.
Qed.

(** ** Frames *)

Definition whole (w : Written) : Prop := w_sent w = length (w_frame w).
Definition within (w : Written) : Prop := (w_sent w <= length (w_frame w))%nat.
Definition messages (ws : list Written) : list Message.t := map w_message ws.
Definition has_close (ws : list Written) : bool := existsb Message.is_close (messages ws).
Definition is_pong (m : Message.t) : bool := match m with Message.Pong _ => true | _ => false end.

(** After a Close there are Pongs only. *)
Fixpoint closing_order (ms : list Message.t) : bool :=
  match ms with
  | [] => true
  | m :: ms => if Message.is_close m then forallb is_pong ms else closing_order ms
  end.
Lemma closing_order_snoc ms m : closing_order ms = true -> is_pong m = true \/ existsb Message.is_close ms = false -> closing_order (ms ++ [m]) = true.
Proof.
  induction ms as [|a ms IH]; [by cbn; destruct (Message.is_close m)|]. cbn. destruct (Message.is_close a); cbn.
  - rewrite forallb_app. intros -> [Hp|]; [|done]. cbn. by rewrite Hp.
  - apply IH.
Qed.

(** The frames of [send] on the wire, and those that wait. *)
Definition numbered_frame (w : Written) : option (nat * Message.t) := (fun id => (id, w_message w)) <$> w_for w.
Definition for_app (ws : list Written) : numbered := omap numbered_frame ws.
Definition queued (q : list ApplicationRequest) : numbered := omap (fun r => match r with ASend m id => Some (id, m) | AFlush _ => None end) q.
Definition is_whole (w : Written) : bool := Nat.eqb (w_sent w) (length (w_frame w)).
Definition delivered (ws : list Written) : numbered := for_app (List.filter is_whole ws).
(** Acknowledged, in the order of the calls. *)
Definition acked (l : list observation) : list Message.t := omap (fun o => match o with Sent m (Ok _) => Some m | _ => None end) l.

Lemma whole_iff w : is_whole w = true <-> whole w.
Proof. apply Nat.eqb_eq. Qed.

Definition quiet (pc : DriverPc) : bool := match pc with DTop | DSelect _ | DTimer | DBeat => true | _ => false end.
Definition final (pc : DriverPc) : bool := match pc with DCloseResponse _ | DSleep _ _ | DFlush _ _ | DEnd => true | _ => false end.
Definition writes_for (pc : DriverPc) : option after := match pc with DWriteTop k | DWrite k _ _ _ | DWriteTimer k _ | DWriteBeat k => Some k | _ => None end.

(** ** Invariants *)

Definition wire_ok (pc : DriverPc) (ws : list Written) : Prop := Forall within ws /\ Forall whole (removelast ws) /\ (quiet pc = true -> Forall whole ws).

Record order_ok (pc : DriverPc) (local : bool) (h : Heartbeat.t) (status : Z) (deadline : option Z) (ws : list Written) : Prop := {
  oo_status : 0 <= status <= 2;
  oo_local : local = true -> status <> SPLIT_OPEN /\ Heartbeat.stopped h = true;
  oo_close : has_close ws = true -> local = true \/ final pc = true;
  oo_order : closing_order (messages ws) = true;
  oo_deadline : deadline <> None -> Heartbeat.stopped h = true
}.

(** The call in progress: its number is the greatest, and its message is the one that was queued under it. *)
Definition call_ok (a : AppPc) (next : nat) (l : numbered) : Prop :=
  match a with
  | AFeed r => (completion_of r < next)%nat /\ Forall (below (completion_of r)) l
  | ACommit r | AReply r =>
      (completion_of r < next)%nat /\ Forall (fun x => (fst x <= completion_of r)%nat) l /\ match r with ASend m id => forall m', (id, m') ∈ l -> m' = m | AFlush _ => True end
  | AIdle | ADropped => Forall (below next) l
  end.
Definition call_bound (a : AppPc) (next : nat) : nat := match a with AFeed r | ACommit r | AReply r => completion_of r | AIdle | ADropped => next end.
Definition reply_ok (a : AppPc) (reply : option (result unit)) (ws : list Written) : Prop :=
  match reply, a with
  | Some (Ok _), (ACommit (ASend m id) | AReply (ASend m id)) => (id, m) ∈ delivered ws
  | Some _, (AIdle | ADropped | AFeed _) => False
  | _, _ => True
  end.

(** A number is not that of a [send] in progress. *)
Definition flush_ok (a : AppPc) (next id : nat) : Prop :=
  match a with
  | AFeed r => (id < completion_of r)%nat
  | ACommit r | AReply r => (id <= completion_of r)%nat /\ forall m, r <> ASend m id
  | AIdle | ADropped => (id < next)%nat
  end.

Record sends_ok (pc : DriverPc) (ws : list Written) (q : list ApplicationRequest) (a : AppPc) (next : nat) (reply : option (result unit)) (l : list observation) : Prop := {
  so_order : increasing (for_app ws ++ queued q);
  so_call : call_ok a next (for_app ws ++ queued q);
  so_reply : reply_ok a reply ws;
  so_writing : forall id, writes_for pc = Some (AfterSend id) -> exists w, last ws = Some w /\ w_for w = Some id;
  so_flush : forall id, AFlush id ∈ q \/ writes_for pc = Some (AfterFlush id) -> flush_ok a next id;
  so_acked : exists L, map snd L = acked l /\ L `sublist_of` delivered ws /\ Forall (below (call_bound a next)) L
}.

(** ** Lemmas about the invariants *)

Lemma for_app_snoc ws w : for_app (ws ++ [w]) = for_app ws ++ option_list (numbered_frame w).
Proof. unfold for_app. rewrite omap_app. cbn. by destruct (numbered_frame w). Qed.
Lemma queued_snoc q r : queued (q ++ [r]) = queued q ++ queued [r].
Proof. apply omap_app. Qed.
Lemma delivered_snoc ws w : delivered (ws ++ [w]) = delivered ws ++ (if is_whole w then option_list (numbered_frame w) else []).
Proof. unfold delivered. rewrite List.filter_app. cbn. destruct (is_whole w); [apply for_app_snoc|by rewrite !app_nil_r]. Qed.
Lemma delivered_sublist ws : delivered ws `sublist_of` for_app ws.
Proof.
  induction ws as [|w ws IH] using rev_ind; [done|]. rewrite delivered_snoc, for_app_snoc. apply sublist_app; [done|]. destruct (is_whole w); [done|apply sublist_nil_l].
Qed.
Lemma delivered_in w ws id : w ∈ ws -> whole w -> w_for w = Some id -> (id, w_message w) ∈ delivered ws.
Proof.
  intros (l1 & l2 & ->)%list_elem_of_split Hw Hf. unfold delivered, for_app. rewrite List.filter_app, omap_app. apply elem_of_app. right. cbn.
  rewrite (proj2 (whole_iff w) Hw). cbn. unfold numbered_frame. rewrite Hf. cbn. by left.
Qed.

Lemma Forall_sublist {A} (Q : A -> Prop) k l : Forall Q l -> k `sublist_of` l -> Forall Q k.
Proof. intros Hl Hs. rewrite Forall_forall in *. intros x Hx. apply Hl. by eapply elem_of_sublist. Qed.

Lemma last_in {A} (l : list A) x : last l = Some x -> x ∈ l.
Proof. destruct l as [|y l _] using rev_ind; [done|]. rewrite last_snoc. intros [= ->]. apply elem_of_app. right. by left. Qed.

(** A shorter list of what waits. *)
Lemma call_ok_sublist a next l k : call_ok a next l -> k `sublist_of` l -> call_ok a next k.
Proof.
  intros Hc Hs. destruct a as [|r|r|r|]; cbn in *; try by eapply Forall_sublist.
  - destruct Hc as [? ?]. split; [done|]. by eapply Forall_sublist.
  - destruct Hc as (? & ? & Hm). split; [done|]. split; [by eapply Forall_sublist|]. destruct r as [m id|]; [|done]. intros m' Hm'. apply Hm. by eapply elem_of_sublist.
  - destruct Hc as (? & ? & Hm). split; [done|]. split; [by eapply Forall_sublist|]. destruct r as [m id|]; [|done]. intros m' Hm'. apply Hm. by eapply elem_of_sublist.
Qed.

Lemma reply_ok_more a x ws ws' : delivered ws `sublist_of` delivered ws' -> reply_ok a x ws -> reply_ok a x ws'.
Proof. intros Hs. destruct x as [[u|e]|]; [|done..]. destruct a as [|r|r|r|]; try done; destruct r; try done; cbn; intros; by eapply elem_of_sublist. Qed.

Lemma wire_ok_all pc ws : wire_ok pc ws -> match last ws with Some w => whole w | None => True end -> Forall whole ws.
Proof.
  intros (_ & Hw & _). destruct ws as [|w ws _] using rev_ind; [done|]. rewrite last_snoc. intros Hl. rewrite removelast_last in Hw. apply Forall_app. by split; [|constructor].
Qed.
Lemma wire_ok_pc pc pc' ws : wire_ok pc ws -> (quiet pc' = true -> quiet pc = true) -> wire_ok pc' ws.
Proof. intros (? & ? & ?) ?. split_and!; auto. Qed.
Lemma wire_ok_push pc pc' ws w : wire_ok pc ws -> quiet pc = true -> quiet pc' = false -> within w -> wire_ok pc' (ws ++ [w]).
Proof.
  intros (Hi & _ & Hq) E1 E2 Hw. split_and!; [apply Forall_app; by split; [|constructor]| |by rewrite E2]. rewrite removelast_last. auto.
Qed.

Lemma order_ok_push pc pc' local h status cd ws w : order_ok pc local h status cd ws -> final pc = false -> is_pong (w_message w) = true \/ has_close ws = false ->
  (Message.is_close (w_message w) = true -> local = true \/ final pc' = true) -> order_ok pc' local h status cd (ws ++ [w]).
Proof.
  intros [O1 O2 O3 O4 O5] Hf Hw Hc. split; try done.
  - unfold has_close, messages in *. rewrite map_app, existsb_app. cbn. rewrite orb_false_r. intros [Hx|Hx]%orb_true_iff; [|by apply Hc].
    destruct (O3 Hx) as [|Hx']; [by left|congruence].
  - unfold messages in *. rewrite map_app. apply closing_order_snoc; [done|]. by destruct Hw; [left|right].
Qed.

Lemma terminate_status c sh : Shared.status (Shared.terminate c sh) = SPLIT_CLOSED.
Proof. unfold Shared.terminate. by destruct (negb _). Qed.
Lemma begin_closing_status sh : Shared.status (Shared.begin_closing sh) = (if Shared.is_open sh then SPLIT_CLOSING else Shared.status sh).
Proof. unfold Shared.begin_closing. by destruct (Shared.is_open sh). Qed.
Lemma note_inbound_status now sh : Shared.status (Shared.note_inbound now sh) = Shared.status sh.
Proof. unfold Shared.note_inbound. by destruct (negb _). Qed.
Lemma note_inbound_terminal now sh : Shared.terminal (Shared.note_inbound now sh) = Shared.terminal sh.
Proof. unfold Shared.note_inbound. by destruct (negb _). Qed.
Lemma is_open_status sh : Shared.is_open sh = true <-> Shared.status sh = SPLIT_OPEN.
Proof. apply Z.eqb_eq. Qed.

Lemma k_on_inbound_stopped h t p : Heartbeat.stopped (fst (Heartbeat.on_inbound h t p)) = Heartbeat.stopped h.
Proof. unfold Heartbeat.on_inbound. destruct (Heartbeat.stopped h) eqn:E1; [done|]. cbn. by destruct (Heartbeat.outstanding h). Qed.
Lemma ping_flushed_stopped h t : Heartbeat.stopped (Heartbeat.ping_flushed h t) = Heartbeat.stopped h.
Proof. unfold Heartbeat.ping_flushed. by repeat case_match. Qed.
Lemma ping_due_stopped n h t : Heartbeat.stopped (snd (fst (Heartbeat.ping_due n h t))) = Heartbeat.stopped h.
Proof. unfold Heartbeat.ping_due. by repeat case_match. Qed.

Lemma moves_inj {A} (a b : A) : Moves a = Moves b -> a = b.
Proof. by intros [= ->]. Qed.

Section System.
Context {E P : Type} `{CompioSplitEncoder E} `{CompioReading P} (config : Config.t).
Abbreviation State := (State E P).
Implicit Types s : State.

(** The invariant, as if the driver were at [pc]. *)
Record inv_at (pc : DriverPc) s : Prop := {
  i_wire : wire_ok pc (wire s);
  i_order : order_ok pc (Driver.local_close_sent (driver s)) (Driver.heartbeat (driver s)) (Shared.status (shared s)) (Driver.closing_deadline (driver s)) (wire s);
  i_sends : sends_ok pc (wire s) (Chan.queue (application s)) (app s) (next_completion s) (reply s) (log s)
}.
Definition inv s : Prop := inv_at (Driver.pc (driver s)) s.

(** What does not matter. *)
Record keeps s s' : Prop := {
  k_wire : wire s' = wire s;
  k_status : Shared.status (shared s') = Shared.status (shared s);
  k_local : Driver.local_close_sent (driver s') = Driver.local_close_sent (driver s);
  k_deadline : Driver.closing_deadline (driver s') = Driver.closing_deadline (driver s);
  k_stopped : Heartbeat.stopped (Driver.heartbeat (driver s')) = Heartbeat.stopped (Driver.heartbeat (driver s));
  k_queue : Chan.queue (application s') = Chan.queue (application s);
  k_app : app s' = app s;
  k_next : next_completion s' = next_completion s;
  k_reply : reply s' = reply s;
  k_acked : acked (log s') = acked (log s)
}.

Lemma inv_keeps pc s s' : inv_at pc s -> keeps s s' -> inv_at pc s'.
Proof.
  intros [Hw [O1 O2 O3 O4 O5] [S1 S2 S3 S4 S5 S6]] [E1 E2 E3 E4 E5 E6 E7 E8 E9 E10]. split.
  - by rewrite E1.
  - rewrite E1, E2, E3, E4. by split; rewrite ?E5.
  - rewrite E1, E6, E7, E8, E9. by split; rewrite ?E10.
Qed.

Lemma inv_move pc pc' s : inv_at pc s -> final pc = false -> (quiet pc' = true -> quiet pc = true) -> writes_for pc' = None \/ writes_for pc' = writes_for pc -> inv_at pc' s.
Proof.
  intros [Hw [O1 O2 O3 O4 O5] [S1 S2 S3 S4 S5 S6]] Hf Hq Hk. split; [by eapply wire_ok_pc|split; try done|split; try done].
  - intros Hc. destruct (O3 Hc) as [|Hx]; [by left|congruence].
  - intros id Hid. apply S4. destruct Hk as [Hk|Hk]; rewrite Hk in Hid; done.
  - intros id Hid. apply S5. destruct Hid as [Hid|Hid]; [by left|]. destruct Hk as [Hk|Hk]; rewrite Hk in Hid; [done|by right].
Qed.

(** A frame of the driver's own. *)
Lemma inv_push pc pc' s msg b : inv_at pc s -> quiet pc = true -> quiet pc' = false -> (forall id, writes_for pc' <> Some (AfterSend id)) -> (forall id, writes_for pc' <> Some (AfterFlush id)) ->
  is_pong msg = true \/ has_close (wire s) = false -> (Message.is_close msg = true -> final pc' = true) -> inv_at pc' (push_frame None msg b s).
Proof.
  intros [Hw Ho [S1 S2 S3 S4 S5 S6]] Hq Hq' Hk Hk' Hm Hc. split; cbn.
  - eapply wire_ok_push; [done..|]. unfold within. cbn. lia.
  - eapply order_ok_push; [done|by destruct pc|done|]. intros Hx. right. by apply Hc.
  - assert (E1 : for_app (wire s ++ [MkWritten None msg b 0]) = for_app (wire s)) by (by rewrite for_app_snoc, app_nil_r).
    assert (E2 : delivered (wire s) `sublist_of` delivered (wire s ++ [MkWritten None msg b 0])) by (rewrite delivered_snoc; by apply sublist_inserts_r).
    split; rewrite ?E1; try done.
    + by eapply reply_ok_more.
    + intros id Hid. by destruct (Hk id).
    + intros id [Hid|Hid]; [apply S5; by left|by destruct (Hk' id)].
    + destruct S6 as (L & ? & ? & ?). exists L. split_and!; [done| |done]. by etrans.
Qed.

(** A request is taken from the channel, and dropped. *)
Lemma inv_pop pc s r q c : inv_at pc s -> Chan.queue (application s) = r :: q -> Chan.queue c = q -> inv_at pc (set_application c s).
Proof.
  intros [Hw Ho [S1 S2 S3 S4 S5 S6]] Eq <-. split; [done|done|]. cbn. rewrite Eq in *.
  assert (Hs : for_app (wire s) ++ queued (Chan.queue c) `sublist_of` for_app (wire s) ++ queued (r :: Chan.queue c)).
  { apply sublist_app; [done|]. destruct r; cbn; [by apply sublist_cons|done]. }
  split; try done; [by eapply increasing_sublist|by eapply call_ok_sublist|].
  intros id [Hid|Hid]; apply S5; [left; by right|by right].
Qed.

(** A frame of [send]. *)
Lemma inv_push_send pc s msg id q c b : inv_at pc s -> quiet pc = true -> Chan.queue (application s) = ASend msg id :: q -> Chan.queue c = q -> has_close (wire s) = false ->
  (Message.is_close msg = true -> Driver.local_close_sent (driver s) = true) -> inv_at (DWriteTop (AfterSend id)) (push_frame (Some id) msg b (set_application c s)).
Proof.
  intros [Hw Ho [S1 S2 S3 S4 S5 S6]] Hq Eq <- Hm Hc. split; cbn.
  - eapply wire_ok_push; [done..|]. unfold within. cbn. lia.
  - eapply order_ok_push; [done|by destruct pc|by right|]. intros Hx. left. by apply Hc.
  - rewrite Eq in *.
    assert (E1 : for_app (wire s ++ [MkWritten (Some id) msg b 0]) ++ queued (Chan.queue c) = for_app (wire s) ++ queued (ASend msg id :: Chan.queue c)) by (by rewrite for_app_snoc, <- app_assoc).
    assert (E2 : delivered (wire s) `sublist_of` delivered (wire s ++ [MkWritten (Some id) msg b 0])) by (rewrite delivered_snoc; by apply sublist_inserts_r).
    split; rewrite ?E1; try done.
    + by eapply reply_ok_more.
    + cbn. intros id' [= <-]. rewrite last_snoc. by eexists.
    + intros id' [Hid|Hid]; [apply S5; left; by right|done].
    + destruct S6 as (L & ? & ? & ?). exists L. split_and!; [done| |done]. by etrans.
Qed.

Lemma complete_same id x s : wire (complete id x s) = wire s /\ shared (complete id x s) = shared s /\ driver (complete id x s) = driver s /\ application (complete id x s) = application s /\
  app (complete id x s) = app s /\ next_completion (complete id x s) = next_completion s /\ log (complete id x s) = log s /\ control (complete id x s) = control s /\
  (reply (complete id x s) = reply s \/ reply (complete id x s) = Some x /\ exists r, completion_of r = id /\ (app s = ACommit r \/ app s = AReply r)).
Proof.
  unfold complete. destruct (app s) as [|r|r|r|] eqn:Ea; try (split_and!; (done || by left)).
  - destruct (Nat.eqb_spec (completion_of r) id); cbn; split_and!; try done; [|by left]. right. split; [done|]. exists r. by split; [|left].
  - destruct (Nat.eqb_spec (completion_of r) id); cbn; split_and!; try done; [|by left]. right. split; [done|]. exists r. by split; [|right].
Qed.

(** A completion; the success of a [send] only when its frame is whole. *)
Lemma inv_complete pc s id x : inv_at pc s -> (forall m, x = Ok tt -> app s = ACommit (ASend m id) \/ app s = AReply (ASend m id) -> (id, m) ∈ delivered (wire s)) -> inv_at pc (complete id x s).
Proof.
  intros [Hw Ho [S1 S2 S3 S4 S5 S6]] Hx. destruct (complete_same id x s) as (E1 & E2 & E3 & E4 & E5 & E6 & E7 & E8 & Hr).
  split; rewrite ?E1, ?E2, ?E3, ?E4, ?E5, ?E6, ?E7; try done. split; try done.
  destruct Hr as [-> |(-> & r & Hr & Ha)]; [done|]. destruct x as [[]|e]; destruct Ha as [Ea|Ea]; rewrite Ea in *; cbn; try done; destruct r as [m id'|id']; try done; cbn in Hr; subst id';
    apply (Hx m); try done; auto.
Qed.

Lemma inv_stop pc s : inv_at pc s -> inv_at pc (stop_heartbeat s).
Proof. intros [Hw [O1 O2 O3 O4 O5] Hs]. split; [done| |done]. split; try done. cbn. intros Hl. by destruct (O2 Hl). Qed.
Lemma k_inv_deadline pc s : inv_at pc s -> Heartbeat.stopped (Driver.heartbeat (driver s)) = true -> inv_at pc (fst (begin_deadline config s)).
Proof.
  intros [Hw [O1 O2 O3 O4 O5] Hs] Hst. unfold begin_deadline. destruct (Driver.closing_deadline (driver s)) eqn:Ed; [split; try done; by rewrite Ed|].
  split; [done| |done]. split; done.
Qed.
Lemma inv_status pc s sh : inv_at pc s -> 0 <= Shared.status sh <= 2 -> (Shared.status (shared s) <> SPLIT_OPEN -> Shared.status sh <> SPLIT_OPEN) -> inv_at pc (set_shared sh s).
Proof. intros [Hw [O1 O2 O3 O4 O5] Hs] Hr Ho. split; [done| |done]. split; try done. intros Hl. destruct (O2 Hl). cbn. auto. Qed.
Lemma k_inv_begin_closing pc s : inv_at pc s -> inv_at pc (on_shared Shared.begin_closing s).
Proof.
  intros Hi. apply inv_status; [done|..]; rewrite begin_closing_status; pose proof (oo_status _ _ _ _ _ _ (i_order _ _ Hi)); unfold SPLIT_OPEN, SPLIT_CLOSING; destruct (Shared.is_open _); lia.
Qed.
Lemma inv_terminate pc s c : inv_at pc s -> inv_at pc (on_shared (Shared.terminate c) s).
Proof. intros Hi. apply inv_status; [done|..]; rewrite terminate_status; unfold SPLIT_OPEN, SPLIT_CLOSED; lia. Qed.

(** The end of the driver. *)
Lemma k_inv_finish pc s cause failed : inv_at pc s -> inv (finish cause failed s).
Proof.
  intros Hi. apply (k_inv_begin_closing pc), (inv_terminate pc _ cause) in Hi. unfold finish. set (s1 := on_shared (Shared.terminate cause) _) in *.
  assert (Hi2 : inv_at pc (set_terminal_msg (Some cause) s1)) by (eapply inv_keeps; [exact Hi|by split]). set (s2 := set_terminal_msg _ s1) in *.
  assert (Hi3 : inv_at pc (match failed with Some (id, e) => complete id (Err e) s2 | None => s2 end)) by (destruct failed as [[id e]|]; [apply inv_complete; done|done]).
  set (s3 := match failed with Some _ => _ | None => _ end) in *. destruct Hi3 as [Hw [O1 O2 O3 O4 O5] [S1 S2 S3 S4 S5 S6]]. split; cbn.
  - eapply wire_ok_pc; [exact Hw|done].
  - split; try done. intros _. by right.
  - assert (Hs : for_app (wire s3) ++ [] `sublist_of` for_app (wire s3) ++ queued (Chan.queue (application s3))) by (apply sublist_app; [done|apply sublist_nil_l]).
    split; try done; [by eapply increasing_sublist|by eapply call_ok_sublist|]. intros id [Hid|Hid]; [by apply elem_of_nil in Hid|done].
Qed.

Lemma keeps_refl s : keeps s s.
Proof. by split. Qed.
Lemma keeps_sync s : keeps s (sync_inbound s).
Proof. unfold sync_inbound. destruct (_ <? _); split; try done. cbn. apply k_on_inbound_stopped. Qed.
Lemma keeps_heard at_ p s : keeps s (heard at_ p s).
Proof. split; try done. cbn. apply k_on_inbound_stopped. Qed.
Lemma keeps_trans s s' s'' : keeps s s' -> keeps s' s'' -> keeps s s''.
Proof. intros [] []. split; congruence. Qed.

Lemma inv_to_pc pc s : inv_at pc s -> inv (to_pc pc s).
Proof. intros []. by split. Qed.

Lemma no_close_open pc s : inv_at pc s -> final pc = false -> Shared.is_open (shared s) = true -> has_close (wire s) = false.
Proof.
  intros [_ [O1 O2 O3 O4 O5] _] Hf Ho%is_open_status. destruct (has_close (wire s)) eqn:Ec; [|done]. destruct (O3 eq_refl) as [Hl|Hx]; [by destruct (O2 Hl)|congruence].
Qed.
Lemma no_close_beating pc s : inv_at pc s -> final pc = false -> Heartbeat.stopped (Driver.heartbeat (driver s)) = false -> has_close (wire s) = false.
Proof.
  intros [_ [O1 O2 O3 O4 O5] _] Hf Ho. destruct (has_close (wire s)) eqn:Ec; [|done]. destruct (O3 eq_refl) as [Hl|Hx]; [|congruence]. destruct (O2 Hl). congruence.
Qed.
Lemma no_close_local pc s : inv_at pc s -> final pc = false -> Driver.local_close_sent (driver s) = false -> has_close (wire s) = false.
Proof. intros [_ [O1 O2 O3 O4 O5] _] Hf Ho. destruct (has_close (wire s)) eqn:Ec; [|done]. destruct (O3 eq_refl); congruence. Qed.
Lemma deadline_beating h d : Heartbeat.next_deadline h = Some d -> Heartbeat.stopped h = false.
Proof. unfold Heartbeat.next_deadline. by destruct (Heartbeat.stopped h). Qed.

Lemma begin_deadline_same s : let '(s', d) := begin_deadline config s in s' = fst (begin_deadline config s) /\
  wire s' = wire s /\ Driver.local_close_sent (driver s') = Driver.local_close_sent (driver s) /\ Driver.heartbeat (driver s') = Driver.heartbeat (driver s) /\ Driver.closing_deadline (driver s') = Some d /\
  application s' = application s /\ shared s' = shared s /\ Driver.deferred_control (driver s') = Driver.deferred_control (driver s) /\ control s' = control s /\ Driver.pc (driver s') = Driver.pc (driver s).
Proof. unfold begin_deadline. by destruct (Driver.closing_deadline (driver s)) eqn:Ed. Qed.

Lemma inv_handle_control pc key r s : inv_at pc s -> quiet pc = true -> inv (handle_control config key r s).
Proof.
  intros Hi Hq. assert (Hf : final pc = false) by (by destruct pc). destruct r as [p t|p t| | |]; cbn.
  - apply inv_to_pc. eapply inv_move; [eapply inv_keeps; [exact Hi|apply keeps_heard]|done..|by left].
  - apply inv_to_pc. eapply inv_push; [eapply inv_keeps; [exact Hi|apply keeps_heard]|done..| |done]. by left.
  - pose proof (begin_deadline_same (stop_heartbeat s)) as Hb. pose proof (k_inv_deadline _ _ (inv_stop _ _ Hi) eq_refl) as Hd.
    destruct (begin_deadline config (stop_heartbeat s)) as [s1 d]. destruct Hb as (_ & E1 & E2 & E3 & E4 & E5 & E6 & E7 & E8 & E9). cbn in Hd.
    destruct (negb (Driver.local_close_sent (driver s1))) eqn:El; [|by eapply k_inv_finish].
    apply negb_true_iff in El. destruct (ce_encode_close_response key _ []) as [e b]. apply inv_to_pc, (inv_keeps _ (push_frame None (Message.Close (ce_close_reason (Driver.encoder (driver s1)))) b s1)); [|by split].
    eapply (inv_push pc (DCloseResponse d) s1 (Message.Close _) b); [done..| |done]. right. by eapply no_close_local.
  - eapply k_inv_finish, inv_stop. exact Hi.
  - eapply k_inv_finish, inv_stop. exact Hi.
Qed.

Lemma encode_frame_pushed key who msg s s' x : encode key who msg s = Moves (s', x) -> exists e b, s' = (match x with Ok _ => push_frame who msg b | Err _ => id end) (on_driver (Driver.set_encoder e) s).
Proof. unfold encode. destruct (ce_encode_message _ _ _ _) as [[e b] [u|er]| |]; intros; simplify_eq; by exists e, b. Qed.

Lemma inv_handle_application pc key r q c s s' : inv_at pc s -> quiet pc = true -> Chan.queue (application s) = r :: q -> Chan.queue c = q ->
  handle_application config key r (set_application c s) = Moves s' -> inv s'.
Proof.
  intros Hi Hq Eq Ec Hs. assert (Hf : final pc = false) by (by destruct pc). assert (Hp : inv_at pc (set_application c s)) by (by eapply inv_pop).
  destruct r as [msg id|id]; cbn in Hs.
  - destruct (Shared.is_open (shared s)) eqn:Eo; cbn [negb] in Hs.
    2: { simplify_eq. apply inv_to_pc. eapply inv_move; [eapply inv_complete; [exact Hp|done]|done..|by left]. }
    assert (Hc0 : has_close (wire s) = false) by (by eapply no_close_open).
    set (s1 := if Message.is_close msg then _ else _) in Hs.
    assert (Hs1 : exists s2, s1 = set_application c s2 /\ inv_at pc s2 /\ application s2 = application s /\ wire s2 = wire s /\ (Message.is_close msg = true -> Driver.local_close_sent (driver s2) = true)).
    { subst s1. destruct (Message.is_close msg) eqn:Em; [|by exists s]. set (s0 := on_driver (Driver.set_local_close_sent true) (stop_heartbeat (on_shared Shared.begin_closing s))).
      assert (Hi0 : inv_at pc s0).
      { pose proof (inv_stop _ _ (k_inv_begin_closing _ _ Hi)) as [Hw [O1 O2 O3 O4 O5] Hsd]. split; [done| |done]. split; try done.
        - intros _. split; [|done]. cbn. rewrite begin_closing_status, Eo. done.
        - intros Hx. by left. }
      exists (fst (begin_deadline config s0)). pose proof (begin_deadline_same s0) as Hb. destruct (begin_deadline config s0) as [s2 d] eqn:Eb. destruct Hb as (_ & E1 & E2 & E3 & E4 & E5 & E6 & _).
      split_and!; [|by (pose proof (k_inv_deadline _ _ Hi0 eq_refl) as Hx; rewrite Eb in Hx)|done|done|by cbn; rewrite E2].
      subst s0. revert Eb. unfold begin_deadline. cbn. destruct (Driver.closing_deadline (driver s)); by intros [= <- _]. }
    destruct Hs1 as (s2 & -> & Hi2 & Ea & Ew & Hl). destruct (encode key (Some id) msg (set_application c s2)) as [| |[s3 [u|e]]] eqn:Ee; simplify_eq.
    + apply encode_frame_pushed in Ee as (e & b & ->). apply inv_to_pc.
      eapply (inv_keeps _ (push_frame (Some id) msg b (set_application c s2))); [|by split]. eapply inv_push_send; [done|done|by rewrite Ea|done|by rewrite Ew|done].
    + apply encode_frame_pushed in Ee as (e' & b & ->). eapply k_inv_finish, (inv_keeps _ (set_application c s2)); [|by split]. eapply inv_pop; [exact Hi2|by rewrite Ea|done].
  - simplify_eq. apply inv_to_pc. destruct Hi as [Hw [O1 O2 O3 O4 O5] [S1 S2 S3 S4 S5 S6]]. destruct Hp as [_ _ [P1 P2 P3 P4 P5 P6]]. split; cbn in *.
    + by eapply wire_ok_pc.
    + split; try done. intros Hx. destruct (O3 Hx); [by left|congruence].
    + split; try done. intros id' [Hid|[= <-]]; apply S5; left; rewrite Eq; [by right|by left].
Qed.

Lemma all_sent_whole s : all_sent s = true -> match last (wire s) with Some w => whole w | None => True end.
Proof. unfold all_sent. destruct (last (wire s)) as [w|]; [|done]. apply Nat.eqb_eq. Qed.

Lemma inv_written pc k r s : inv_at pc s -> writes_for pc = Some k -> (r = Ok tt -> all_sent s = true) -> inv (written k r s).
Proof.
  intros Hi Hk Hr. destruct r as [[]|e]; cbn; [|by eapply k_inv_finish]. assert (Hl := all_sent_whole s (Hr eq_refl)). pose proof (wire_ok_all _ _ (i_wire _ _ Hi) Hl) as Hall.
  assert (Hf : final pc = false) by (by destruct pc).
  assert (Ht : forall s1, keeps s s1 -> inv (to_pc DTop s1)).
  { intros s1 Hs1. apply inv_to_pc. apply (inv_keeps _ _ _ Hi) in Hs1 as Hi1. destruct Hi1 as [(Hw1 & Hw2 & Hw3) [O1 O2 O3 O4 O5] [S1 S2 S3 S4 S5 S6]]. split.
    - split; [done|]. split; [done|]. intros _. by rewrite (k_wire _ _ Hs1).
    - split; try done. intros Hx. destruct (O3 Hx) as [|Hy]; [by left|congruence].
    - split; try done. intros id [Hid|]; [|done]. apply S5. by left. }
  assert (Hc : forall id, (forall m, app s = ACommit (ASend m id) \/ app s = AReply (ASend m id) -> (id, m) ∈ delivered (wire s)) -> inv (to_pc DTop (complete id (Ok tt) s))).
  { intros id Hm. specialize (Ht s (keeps_refl s)). assert (Hx : inv_at DTop (complete id (Ok tt) (to_pc DTop s))) by (apply inv_complete; [exact Ht|intros m _; exact (Hm m)]).
    apply inv_to_pc. eapply inv_keeps; [exact Hx|]. destruct (complete_same id (Ok tt) s) as (E1 & E2 & E3 & E4 & E5 & E6 & E7 & E8 & _).
    unfold complete. cbn. by destruct (app s); try destruct (Nat.eqb _ _); split. }
  destruct k as [| |id|id].
  - apply Ht, keeps_refl.
  - apply Ht. split; try done. apply ping_flushed_stopped.
  - apply Hc. intros m Ha. destruct (i_sends _ _ Hi) as [S1 S2 S3 S4 S5 S6]. destruct (S4 id Hk) as (w & Hw & Hid). rewrite Hw in Hl.
    pose proof (delivered_in w _ id (last_in _ _ Hw) Hl Hid) as Hin. replace m with (w_message w); [done|].
    assert (Hin' : (id, w_message w) ∈ for_app (wire s) ++ queued (Chan.queue (application s))) by (apply elem_of_app; left; eapply elem_of_sublist; [exact Hin|apply delivered_sublist]).
    destruct Ha as [Ea|Ea]; rewrite Ea in S2; destruct S2 as (_ & _ & Hu); by apply Hu.
  - apply Hc. intros m Ha. destruct (i_sends _ _ Hi) as [S1 S2 S3 S4 S5 S6]. specialize (S5 id (or_intror Hk)). destruct Ha as [Ea|Ea]; rewrite Ea in S5; destruct S5 as [_ Hn]; by destruct (Hn m).
Qed.

Lemma inv_interrupt pc k r s : inv_at pc s -> writes_for pc = Some k -> inv (interrupt config k r s).
Proof.
  intros Hi Hk. assert (Hf : final pc = false) by (by destruct pc).
  assert (Hto : forall s1, inv_at pc s1 -> inv (to_pc (DWriteTop k) s1)) by (intros s1 Hs1; apply inv_to_pc; eapply inv_move; [exact Hs1|done|done|by right]).
  assert (Hb : inv_at pc (fst (begin_deadline config (stop_heartbeat s)))) by (apply k_inv_deadline; [by apply inv_stop|done]).
  destruct r as [p t|p t| | |]; cbn.
  - apply Hto. eapply inv_keeps; [exact Hi|apply keeps_heard].
  - apply Hto. apply (inv_keeps _ (heard t None s)); [|by split]. eapply inv_keeps; [exact Hi|apply keeps_heard].
  - apply Hto. eapply inv_keeps; [exact Hb|by split].
  - apply Hto. eapply inv_keeps; [exact Hb|by split].
  - by eapply k_inv_finish.
Qed.

Lemma inv_timeout pc key code reason cause s s' : inv_at pc s -> quiet pc = true -> Heartbeat.stopped (Driver.heartbeat (driver s)) = false ->
  timeout_close config key code reason cause s = Moves s' -> inv s'.
Proof.
  intros Hi Hq Hst. unfold timeout_close. destruct (encode key None _ s) as [| |[s1 [u|e]]] eqn:Ee; intros; simplify_eq; apply encode_frame_pushed in Ee as (en & b & ->).
  - apply inv_to_pc. eapply inv_push; [apply (inv_keeps _ s); [exact Hi|by split]|done..| |done]. right. exact (no_close_beating pc s Hi ltac:(by destruct pc) Hst).
  - eapply k_inv_finish, (inv_keeps _ s); [exact Hi|by split].
Qed.

Lemma inv_beat key nonce s s' : inv_at DBeat s -> beat config key nonce s = Moves s' -> inv s'.
Proof.
  intros Hi. unfold beat. assert (Htop : forall s1, keeps s s1 -> inv (to_pc DTop s1)) by (intros s1 Hs1; apply inv_to_pc; eapply inv_move; [by eapply inv_keeps|done..|by left]).
  destruct (Heartbeat.next_deadline _) as [d|] eqn:Ed; [|intros <-%moves_inj; apply Htop, keeps_refl]. pose proof (deadline_beating _ _ Ed) as Hst.
  destruct d as [t|t|t]; (destruct (t <=? _); [|intros <-%moves_inj; apply Htop, keeps_refl]).
  - by eapply inv_timeout.
  - by eapply inv_timeout.
  - pose proof (ping_due_stopped nonce (Driver.heartbeat (driver s)) (millis (now s))) as Hp. destruct (Heartbeat.ping_due _ _ _) as [[n h] [payload|]]; cbn in Hp.
    2: { intros <-%moves_inj. apply Htop. by split. }
    destruct (encode key None _ _) as [| |[s1 [u|e]]] eqn:Ee; intros; simplify_eq; apply encode_frame_pushed in Ee as (en & b & ->).
    + apply inv_to_pc. eapply inv_push; [apply (inv_keeps _ s); [exact Hi|by split]|done..| |done]. right. exact (no_close_beating DBeat s Hi eq_refl Hst).
    + eapply k_inv_finish, (inv_keeps _ s); [exact Hi|by split].
Qed.

Lemma next_queue {A} (c c' : Chan.t A) x : Chan.next c = (c', Ready (Some x)) -> Chan.queue c = x :: Chan.queue c'.
Proof. unfold Chan.next. destruct (Chan.queue c) as [|y q]; [destruct (Chan.tx_open c)|]; intros; by simplify_eq. Qed.

Lemma inv_driver a fired key nonce s s' : inv s -> driver_step config a fired key nonce s = Moves s' -> inv s'.
Proof.
  unfold inv at 1, driver_step. intros Hi. destruct (Driver.pc (driver s)) as [|timer| | |k|k timer close_at can|k close_at|k|deadline|timeout cause|timer cause|] eqn:Epc.
  - destruct (_ =? _); [intros <-%moves_inj; by eapply k_inv_finish|]. intros <-%moves_inj. apply inv_to_pc. eapply inv_move; [eapply inv_keeps; [exact Hi|apply keeps_sync]|done|done|]. left. by destruct (_ || _).
  - unfold poll_select. destruct (cancelled s); [intros <-%moves_inj; by eapply k_inv_finish|]. destruct (Driver.deferred_control (driver s)) as [r|].
    { intros <-%moves_inj. eapply inv_handle_control; [apply (inv_keeps _ s); [exact Hi|by split]|done]. }
    destruct (Chan.next (control s)) as [c [|[r|]]].
    + destruct (Chan.next (application s)) as [c' [|[r|]]] eqn:En.
      * destruct (fired && _); [|done]. intros <-%moves_inj. apply inv_to_pc. eapply inv_move; [exact Hi|done..|by left].
      * apply next_queue in En. intros Hs. by eapply inv_handle_application.
      * intros <-%moves_inj. by eapply k_inv_finish.
    + intros <-%moves_inj. eapply inv_handle_control; [apply (inv_keeps _ s); [exact Hi|by split]|done].
    + intros <-%moves_inj. by eapply k_inv_finish.
  - destruct (reached _ _); intros <-%moves_inj; [by eapply k_inv_finish|]. apply inv_to_pc. eapply inv_move; [eapply inv_keeps; [exact Hi|apply keeps_sync]|done|done|by left].
  - by apply inv_beat.
  - intros <-%moves_inj. apply inv_to_pc. eapply inv_move; [apply (inv_keeps _ (sync_inbound s)); [eapply inv_keeps; [exact Hi|apply keeps_sync]|by split]|done|done|by right].
  - unfold poll_write. destruct a as [|e|].
    + destruct (all_sent s) eqn:Ea; [|done]. intros <-%moves_inj. eapply inv_written; [apply (inv_keeps _ s); [exact Hi|by split]|done|done].
    + intros <-%moves_inj. eapply inv_written; [apply (inv_keeps _ s); [exact Hi|by split]|done|done].
    + destruct (cancelled s); [intros <-%moves_inj; by eapply inv_written|]. destruct (if can then _ else _) as [c [|[r|]]].
      * destruct (fired && _); [|done]. intros <-%moves_inj. apply inv_to_pc. eapply inv_move; [exact Hi|done..|by right].
      * intros <-%moves_inj. eapply inv_interrupt; [apply (inv_keeps _ s); [exact Hi|by split]|done].
      * intros <-%moves_inj. by eapply inv_written.
  - destruct (reached _ _); intros <-%moves_inj; [by eapply inv_written|]. apply inv_to_pc. eapply inv_move; [eapply inv_keeps; [exact Hi|apply keeps_sync]|done|done|by right].
  - assert (Htop : inv (to_pc (DWriteTop k) s)) by (apply inv_to_pc; eapply inv_move; [exact Hi|done|done|by right]).
    destruct (Heartbeat.next_hard_deadline _) as [[t|t|t]|]; try (by intros <-%moves_inj); destruct (t <=? _); intros <-%moves_inj; (exact Htop || by eapply inv_written).
  - intros <-%moves_inj. apply inv_to_pc. destruct Hi as [Hw [O1 O2 O3 O4 O5] [S1 S2 S3 S4 S5 S6]]. split; [by eapply wire_ok_pc|split; done|split; done].
  - intros <-%moves_inj. apply inv_to_pc. destruct Hi as [Hw [O1 O2 O3 O4 O5] [S1 S2 S3 S4 S5 S6]]. split; [by eapply wire_ok_pc|split; done|split; done].
  - assert (Hx : forall b, inv_at (DFlush timer cause) (set_in_kernel b s)) by (intros b; apply (inv_keeps _ s); [exact Hi|by split]).
    destruct a as [|e|]; [destruct (all_sent s); [|done]; intros <-%moves_inj; by eapply k_inv_finish|intros <-%moves_inj; by eapply k_inv_finish|destruct (fired && _); [|done]; intros <-%moves_inj; by eapply k_inv_finish].
  - done.
Qed.

(** *** The other tasks *)

Lemma k_acked_snoc l o : acked (l ++ [o]) = acked l ++ acked [o].
Proof. apply omap_app. Qed.

Lemma inv_app_idle pc s : inv_at pc s -> app s <> ADropped -> inv_at pc (set_reply None (set_app AIdle s)).
Proof.
  intros [Hw Ho [S1 S2 S3 S4 S5 S6]] Ha. split; [done|done|]. split; cbn; try done.
  - destruct (app s) as [|r|r|r|]; cbn in S2; [done|..|done]; destruct_and?; eapply Forall_impl; [done| |done| |done|]; cbn; intros; lia.
  - intros id Hid. specialize (S5 id Hid). destruct (app s) as [|r|r|r|]; cbn in *; destruct_and?; lia.
  - destruct S6 as (L & ? & ? & HL). exists L. split_and!; try done. destruct (app s) as [|r|r|r|]; cbn in *; destruct_and?; try done; eapply Forall_impl; try done; cbn; intros; lia.
Qed.

Lemma inv_return pc r x s : inv_at pc s -> app s <> ADropped -> (x = Ok tt -> reply s = Some (Ok tt) /\ (app s = ACommit r \/ app s = AReply r)) -> inv_at pc (app_return r x s).
Proof.
  intros Hi Ha Hx. pose proof (inv_app_idle _ _ Hi Ha) as [Hw Ho [S1 S2 S3 S4 S5 S6]]. unfold app_return. split; [done|done|]. split; try done. cbn.
  rewrite k_acked_snoc. destruct r as [m id|id]; [|cbn; by rewrite app_nil_r]. destruct x as [[]|e]; [|cbn; by rewrite app_nil_r].
  destruct (Hx eq_refl) as [Hr Ea]. destruct (i_sends _ _ Hi) as [I1 I2 I3 I4 I5 (L & EL & HL & HB)]. rewrite Hr in I3.
  assert (Hin : (id, m) ∈ delivered (wire s)) by (destruct Ea as [Ea|Ea]; rewrite Ea in I3; exact I3).
  assert (Hbd : call_bound (app s) (next_completion s) = id /\ (id < next_completion s)%nat) by (destruct Ea as [Ea|Ea]; rewrite Ea in *; by destruct I2).
  destruct Hbd as [Hbd Hlt]. rewrite Hbd in HB. exists (L ++ [(id, m)]). split_and!.
  - by rewrite map_app, EL.
  - apply sublist_insert; [|done..]. eapply increasing_sublist; [by eapply increasing_prefix|apply delivered_sublist].
  - apply Forall_app. split; [|by constructor]. eapply Forall_impl; [exact HB|]. cbn. intros; lia.
Qed.

Lemma inv_call r s s' : inv s -> (forall n, completion_of (r n) = n) -> call r s = Moves s' -> inv s'.
Proof.
  intros Hi Hr. unfold call. destruct (app s) eqn:Ea; try done. destruct (negb _).
  - intros <-%moves_inj. eapply inv_keeps; [exact Hi|]. split; try done. cbn. rewrite k_acked_snoc. destruct (r 0%nat); cbn; by rewrite app_nil_r.
  - intros <-%moves_inj. destruct Hi as [Hw Ho [S1 S2 S3 S4 S5 S6]]. rewrite Ea in *. split; [done|done|]. split; cbn; rewrite ?Hr; try done.
    split; [lia|done].
Qed.

Lemma inv_app_poll s s' : inv s -> app_poll s = Moves s' -> inv s'.
Proof.
  intros Hi. unfold app_poll. destruct (app s) as [|r|r|r|] eqn:Ea; try done.
  - destruct (Chan.poll_ready _ _) as [|[]]; [done|..]; intros <-%moves_inj; [|eapply inv_return; [exact Hi|by rewrite Ea|done]].
    destruct Hi as [Hw Ho [S1 S2 S3 S4 S5 S6]]. rewrite Ea in *. destruct S2 as [Hn Hb]. split; [done|done|].
    change (sends_ok (Driver.pc (driver s)) (wire s) (Chan.queue (application s) ++ [r]) (ACommit r) (next_completion s) (reply s) (log s)).
    assert (Hq : queued [r] = match r with ASend m id => [(id, m)] | AFlush _ => [] end) by (by destruct r).
    split; rewrite ?queued_snoc, ?app_assoc, ?Hq; try done.
    + destruct r as [m id|id]; [by apply increasing_snoc|by rewrite app_nil_r].
    + split; [done|]. split.
      * apply Forall_app. split; [eapply Forall_impl; [exact Hb|]; cbn; intros; lia|]. destruct r; constructor; [cbn; lia|done].
      * destruct r as [m id|id]; [|done]. intros m' [Hin|Hin]%elem_of_app; [|by apply list_elem_of_singleton in Hin as [= ->]].
        rewrite Forall_forall in Hb. specialize (Hb _ Hin). cbn in Hb. lia.
    + by destruct (reply s) as [[u|e]|].
    + intros id [[Hid|Hid]%elem_of_app|Hid].
      * specialize (S5 id (or_introl Hid)). cbn in S5. split; [lia|]. intros m ->. cbn in S5. lia.
      * apply list_elem_of_singleton in Hid as <-. split; [cbn; lia|done].
      * specialize (S5 id (or_intror Hid)). cbn in S5. split; [lia|]. intros m ->. cbn in S5. lia.
  - destruct (Chan.poll_flush _ _); [done|]. intros <-%moves_inj. destruct Hi as [Hw Ho [S1 S2 S3 S4 S5 S6]]. rewrite Ea in *. split; [done|done|]. by split.
  - destruct (reply s) as [x|] eqn:Er.
    + intros <-%moves_inj. eapply inv_return; [exact Hi|by rewrite Ea|]. intros ->. split; [done|by right].
    + destruct (is_end _); [|done]. intros <-%moves_inj. eapply inv_return; [exact Hi|by rewrite Ea|done].
Qed.

Lemma inv_kernel n s s' : inv s -> kernel n s = Moves s' -> inv s'.
Proof.
  intros [(Hw1 & Hw2 & Hw3) [O1 O2 O3 O4 O5] [S1 S2 S3 S4 S5 S6]]. unfold kernel. destruct (in_kernel s); [|done]. destruct (last (wire s)) as [w|] eqn:El; [|done].
  destruct (Nat.leb_spec (w_sent w + n) (length (w_frame w))) as [Hn|]; [|done]. intros <-%moves_inj. set (w' := MkWritten _ _ _ _).
  destruct (wire s) as [|x ws _] eqn:Ew using rev_ind; [done|]. rewrite last_snoc in El. injection El as ->. rewrite removelast_last in *.
  assert (Em : messages (ws ++ [w']) = messages (ws ++ [w])) by (unfold messages; by rewrite !map_app).
  assert (Ef : for_app (ws ++ [w']) = for_app (ws ++ [w])) by (by rewrite !for_app_snoc).
  assert (Ed : delivered (ws ++ [w]) `sublist_of` delivered (ws ++ [w'])).
  { rewrite !delivered_snoc. apply sublist_app; [done|]. destruct (is_whole w) eqn:Eh; [|apply sublist_nil_l]. apply whole_iff in Eh. unfold whole in Eh.
    assert (Eh' : is_whole w' = true) by (apply whole_iff; unfold whole; cbn; lia). by rewrite Eh'. }
  apply Forall_app in Hw1 as [Hw1 Hw1'%Forall_inv]. unfold inv; cbn. split; cbn; rewrite ?removelast_last.
  - split; [apply Forall_app; split; [done|constructor; [exact Hn|done]]|]. rewrite removelast_last. split; [done|]. intros Hq. specialize (Hw3 Hq). apply Forall_app in Hw3 as [? Hh%Forall_inv].
    apply Forall_app. split; [done|]. constructor; [|done]. unfold whole in *. cbn. lia.
  - assert (Ec : has_close (ws ++ [w']) = has_close (ws ++ [w])) by (unfold has_close; by rewrite Em). split; rewrite ?Em, ?Ec; done.
  - split; rewrite ?Ef; try done; [by eapply reply_ok_more| |].
    + intros id Hid. destruct (S4 id Hid) as (x & [= <-] & Hid'). rewrite last_snoc. by exists w'.
    + destruct S6 as (L & ? & ? & ?). exists L. split_and!; [done| |done]. by etrans.
Qed.

(** The reader leaves the writing side alone but for the status, which moves forward. *)
Record reader_moves s s' : Prop := {
  rm_wire : wire s' = wire s;
  rm_driver : driver s' = driver s;
  rm_application : application s' = application s;
  rm_app : app s' = app s;
  rm_next : next_completion s' = next_completion s;
  rm_reply : reply s' = reply s;
  rm_acked : acked (log s') = acked (log s);
  rm_cancelled : cancelled s = true -> cancelled s' = true;
  rm_status : 0 <= Shared.status (shared s) <= 2 -> Shared.status (shared s) <= Shared.status (shared s') <= 2
}.

Lemma reader_step_moves l s s' : reader_step l s = Moves s' -> reader_moves s s'.
Proof.
  assert (Hgot : forall i s1, acked (log (reader_return i s1)) = acked (log s1)) by (intros; cbn; rewrite k_acked_snoc; by rewrite app_nil_r).
  assert (Hclosing : forall sh, 0 <= Shared.status sh <= 2 -> Shared.status sh <= Shared.status (Shared.begin_closing sh) <= 2).
  { intros sh Hs. rewrite begin_closing_status. destruct (Shared.is_open sh) eqn:Eo; [apply is_open_status in Eo; rewrite Eo; unfold SPLIT_CLOSING, SPLIT_OPEN; lia|lia]. }
  assert (Hend : forall c sh, 0 <= Shared.status sh <= 2 -> Shared.status sh <= Shared.status (Shared.terminate c sh) <= 2) by (intros c sh Hs; rewrite terminate_status; unfold SPLIT_CLOSED; lia).
  unfold reader_step, reader_top, parse, pop_message. intros Hs. destruct l as [| |x| |], (Reader.pc (reader s)); try done;
    repeat (case_match; try discriminate Hs); apply moves_inj in Hs; subst s'; unfold take_message; repeat case_match;
    (split; [done..|rewrite ?Hgot; done|done|cbn; rewrite ?note_inbound_status; auto with lia]).
Qed.

Lemma inv_reader l s s' : inv s -> reader_step l s = Moves s' -> inv s'.
Proof.
  intros Hi [E1 E2 E3 E4 E5 E6 E7 _ E8]%reader_step_moves. destruct Hi as [Hw [O1 O2 O3 O4 O5] [S1 S2 S3 S4 S5 S6]]. specialize (E8 O1). unfold inv. rewrite E2. split; rewrite ?E1, ?E2, ?E3, ?E4, ?E5, ?E6; [done|..].
  - split; try done; [lia|]. intros Hl. destruct (O2 Hl). split; [|done]. unfold SPLIT_OPEN in *. lia.
  - split; try done. by rewrite E7.
Qed.

Lemma k_inv_step l s s' : inv s -> step config l s = Moves s' -> inv s'.
Proof.
  intros Hi. destruct l as [msg| | | | |a fired key nonce|n|x|ns]; cbn.
  - by apply inv_call.
  - by apply inv_call.
  - by apply inv_app_poll.
  - unfold app_abort. destruct (app s) eqn:Ea; try done; intros <-%moves_inj; apply (inv_app_idle _ _ Hi); by rewrite Ea.
  - unfold drop_writer. destruct (app s) eqn:Ea; try done. intros <-%moves_inj. destruct Hi as [Hw Ho [S1 S2 S3 S4 S5 S6]]. rewrite Ea in *. split; [done|done|]. by split.
  - by apply inv_driver.
  - by apply inv_kernel.
  - by apply inv_reader.
  - destruct (0 <=? ns); [|done]. intros <-%moves_inj. eapply inv_keeps; [exact Hi|by split].
Qed.

Lemma inv_steps ls s s' : inv s -> steps config ls s = Moves s' -> inv s'.
Proof.
  revert s. induction ls as [|l ls IH]; intros s Hi; cbn; [by intros <-%moves_inj|]. destruct (step config l s) as [| |s1] eqn:E1; [done..|]. apply IH. by eapply k_inv_step.
Qed.

Lemma inv_split st tracks rp buf ms err wp : inv (split_state config st tracks rp buf ms err wp).
Proof.
  split; cbn.
  - split; [constructor|]. split; [constructor|]. intros _. constructor.
  - split; try done. case_bool_decide; [rewrite begin_closing_status|]; destruct st; cbn; unfold SPLIT_CLOSED, SPLIT_OPEN, SPLIT_CLOSING; lia.
  - split; try done; [by intros [|? ?] ? ? ?|constructor|intros id [Hid|Hid]; [by apply elem_of_nil in Hid|done]|]. by exists [].
Qed.
End System.
