(* ===== verification/CompioSplitReader.v ===== *)
(** * Split streams on compio: what the reading handle returns

    The messages [next] returns are those of the reference receiver, in order, up to the first Close, whatever the other tasks do and however often a call is dropped while it hands a message to the driver.
    When the driver has ended before a parse error is reported, Pings and Pongs that precede the error are skipped. *)

From stdpp Require Import base list option strings.
From S2P Require Import Prelude Error Mask Utf8 Frame FrameSpec Protocol ReceiveSpec ProtocolSpec ProtocolProps NextSpec.
From S2P Require Import Heartbeat Cork Output Stream Deflate Compressed CompressedSpec Config WebSocket StreamSpec CompressedStream CompressedStreamSpec.
From S2P Require Import Split SplitReader SplitSpec SplitReaderSpec SplitOrder SplitReceive Compio CompioSpec CompioSplit CompioSplitSpec.
Import CompioSplit.

(** ** The protocol of a reader *)

(** As [CompioProtocolSpec], for what a reader uses. *)
Class CompioReadingSpec (P F : Type) `{CompioReading P} := {
  r_sim : P -> bytes -> bytes -> F -> Prop;
  r_ref : F -> bytes -> list Message.t;
  r_sim_more p buf raw fr data : r_sim p buf raw fr -> bytes_ok data -> r_sim p (buf ++ data) (raw ++ data) fr;
  r_process p buf raw fr : buf <> [] -> r_sim p buf raw fr ->
    match cr_process p buf with
    | Done (p', buf', ms, _) (Ok _) => exists fr' raw', r_sim p' buf' raw' fr' /\ r_ref fr' raw' = [] /\ forall more, bytes_ok more -> r_ref fr (raw ++ more) = ms ++ r_ref fr' (raw' ++ more)
    | Done (_, _, ms, _) (Err _) => forall more, bytes_ok more -> r_ref fr (raw ++ more) = ms
    | _ => False
    end
}.

Section Instances.
Context {SU : Simdutf8} {SUok : Simdutf8Spec} (arch : Arch) (slice_addr : bytes -> Z) (Harch : arch_ok arch) (max : Z) (validate : bool) (pol : policy).

Definition plain_reading_spec : CompioReadingSpec Protocol.t fragments (H := plain_reading arch slice_addr).
Proof.
  refine {| r_sim := sim max validate pol : Protocol.t -> _; r_ref fr raw := fst (ref_run (ref_frame max validate) pol fr raw) : list Message.t |}.
  - apply sim_more.
  - intros p buf raw fr. apply (received_batch Protocol.typed_receiver arch slice_addr Harch (ref_frame max validate)), (typed_follows arch slice_addr max validate pol).
Defined.

Context {E D : Type} `{CodecTotal E D} (Hmax : 0 <= max) (Hpol : pol_rsv1 pol = true).
Definition compressed_reading_spec : CompioReadingSpec (CompressedReader.t D) (cstate (D := D)) (H := compressed_reading arch slice_addr).
Proof.
  refine {| r_sim := rsim max validate pol : CompressedReader.t D -> _; r_ref fr raw := fst (ref_run (cref_frame max validate false) pol fr raw) : list Message.t |}.
  - intros p buf raw fr data. apply (f_more (Follows := reader_follows arch slice_addr max Hmax validate pol)).
  - intros p buf raw fr Hne Hs. unfold cr_process, compressed_reading, CompressedReader.process_into_with_activity.
    replace (CompressedReader.set_parser _ p) with p by (destruct Hs as [_ Hp _]; destruct p as [? ? [] ? ? ? ? ?]; subst pol; cbn in *; by subst).
    by apply (received_batch CompressedReader.receiver arch slice_addr Harch (cref_frame max validate false) pol _ (reader_follows arch slice_addr max Hmax validate pol)).
Defined.
End Instances.

(** ** Messages left out *)

Definition is_beat (m : Message.t) : bool := match m with Message.Ping _ | Message.Pong _ => true | _ => false end.

(** [D] is [C] without some of its Pings and Pongs. *)
Inductive thinned : list Message.t -> list Message.t -> Prop :=
  | th_nil : thinned [] []
  | th_keep C D m : thinned C D -> thinned (C ++ [m]) (D ++ [m])
  | th_skip C D m : is_beat m = true -> thinned C D -> thinned (C ++ [m]) D.

Lemma thinned_close C D : thinned C D -> existsb Message.is_close C = existsb Message.is_close D.
Proof.
  induction 1 as [|C D m _ IH|C D m Hm _ IH]; [done|..]; rewrite !existsb_app, IH; [done|]. cbn. rewrite orb_false_r. destruct m; try done; cbn; by rewrite orb_false_r.
Qed.
Lemma thinned_refl C : thinned C C.
Proof. induction C using rev_ind; by constructor. Qed.

Definition got (l : list observation) : list Message.t := omap (fun o => match o with Got (Some (Ok m)) => Some m | _ => None end) l.
Lemma got_snoc l o : got (l ++ [o]) = got l ++ got [o].
Proof. apply omap_app. Qed.
Abbreviation closed_in ms := (existsb Message.is_close ms).

Section Receive.
Context {E P F : Type} `{CompioSplitEncoder E} `{Hr : CompioReadingSpec P F} (config : Config.t).
Abbreviation State := (State E P).
Implicit Types s : State.
(** [base]: what was read before [split] and not yet returned; [fr0]: the state of the reference receiver at its beginning. *)
Context (fr0 : F) (base : bytes).

Definition ref (input more : bytes) : list Message.t := r_ref fr0 (base ++ input ++ more).
Definition in_hand (r : Reader.t P) : list Message.t := reverse (Reader.pending_messages r).
Definition handing (pc : ReaderPc) : bool := match pc with RHandOff => true | _ => false end.
(** Where [next] waits for the transport. *)
Definition receiving (pc : ReaderPc) : bool := match pc with RSelect | RReading | REof | REofFlush => true | _ => false end.
Definition resting (pc : ReaderPc) : bool := match pc with RIdle | RTop | RDropped => true | _ => false end.

(** A request at hand belongs to the message on top. *)
Definition request_ok (r : Reader.t P) : Prop :=
  match Reader.pending_request r with
  | Some _ => exists m ms, in_hand r = m :: ms /\ is_beat m = true
  | None => handing (Reader.pc r) = false
  end.
Definition faithful (rx_open : bool) (C D : list Message.t) : Prop := thinned C D /\ (rx_open = true -> C = D).

(** Nothing is returned any more. *)
Definition frozen (r : Reader.t P) (status : Z) : Prop := resting (Reader.pc r) = true /\ (Reader.terminal_reported r = true \/ Reader.pending_parse_error r = None /\ status = SPLIT_CLOSED).

(** What has been returned, [D], and what is at hand, against the reference. *)
Inductive account (r : Reader.t P) (status : Z) (rx_open : bool) (input : bytes) (D : list Message.t) : Prop :=
  | acc_live fr raw : Reader.terminal_reported r = false -> Reader.pending_parse_error r = None -> closed_in D = false -> Reader.pc r <> RNotify -> request_ok r ->
      r_sim (Reader.protocol r) (Reader.read_buf r) raw fr -> (Reader.read_buf r = [] \/ receiving (Reader.pc r) = true -> r_ref fr raw = []) ->
      (receiving (Reader.pc r) = true -> in_hand r = []) ->
      (forall more, bytes_ok more -> ref input more = D ++ in_hand r ++ r_ref fr (raw ++ more)) -> account r status rx_open input D
  | acc_err C : Reader.terminal_reported r = false -> is_Some (Reader.pending_parse_error r) -> closed_in D = false -> receiving (Reader.pc r) = false -> request_ok r ->
      (Reader.pc r = RNotify -> in_hand r = []) -> faithful rx_open C D -> (forall more, bytes_ok more -> ref input more = C ++ in_hand r) -> account r status rx_open input D
  | acc_close C reason : Reader.terminal_reported r = false -> Reader.pending_parse_error r = None -> closed_in D = false -> handing (Reader.pc r) || resting (Reader.pc r) = true ->
      Reader.pending_request r = Some CPeerClose -> in_hand r = [Message.Close reason] -> faithful rx_open C D ->
      (forall more, bytes_ok more -> exists rest, ref input more = C ++ Message.Close reason :: rest) -> account r status rx_open input D
  | acc_over C : closed_in D = true \/ frozen r status -> faithful rx_open C (upto_close D) -> (forall more, bytes_ok more -> exists rest, ref input more = C ++ rest) -> account r status rx_open input D.

Definition reader_inv s : Prop :=
  lost s = false -> account (reader s) (Shared.status (shared s)) (Chan.rx_open (control s)) (taken s) (got (log s)) /\ bytes_ok (taken s).

(** In the first three cases nothing has been returned that the reference does not have. *)
Lemma k_account_prefix r status rx input D more : account r status rx input D -> bytes_ok more -> exists C rest, ref input more = C ++ rest /\ faithful rx C (upto_close D).
Proof.
  intros Ha Hm. destruct Ha as [fr raw _ _ Hc _ _ _ _ _ Hx|C _ _ Hc _ _ _ Hf Hx|C reason _ _ Hc _ _ _ Hf Hx|C _ Hf Hx].
  - exists D, (in_hand r ++ r_ref fr (raw ++ more)). split; [by apply Hx|]. rewrite upto_close_open by done. split; [apply thinned_refl|done].
  - exists C, (in_hand r). split; [by apply Hx|]. by rewrite upto_close_open.
  - destruct (Hx more Hm) as [rest E1]. exists C, (Message.Close reason :: rest). split; [done|]. by rewrite upto_close_open.
  - destruct (Hx more Hm) as [rest E1]. by exists C, rest.
Qed.

(** *** Steps of the other tasks *)

Lemma account_others r status status' rx rx' input D : (status = SPLIT_CLOSED -> status' = SPLIT_CLOSED) -> (rx' = true -> rx = true) -> account r status rx input D -> account r status' rx' input D.
Proof.
  intros Hs Hx. assert (Hf : forall C D, faithful rx C D -> faithful rx' C D) by (intros C D' [? ?]; split; auto).
  intros Ha. destruct Ha as [fr raw|C|C reason|C Ho]; [by eapply acc_live|eapply acc_err; eauto|eapply acc_close; eauto|]. eapply acc_over; [|eauto..].
  destruct Ho as [|[? [|[? ?]]]]; [by left|right; split; auto..].
Qed.

Record others_move s s' : Prop := {
  om_reader : reader s' = reader s;
  om_taken : taken s' = taken s;
  om_lost : lost s' = lost s;
  om_got : got (log s') = got (log s);
  om_rx : Chan.rx_open (control s') = true -> Chan.rx_open (control s) = true;
  om_status : Shared.status (shared s) = SPLIT_CLOSED -> Shared.status (shared s') = SPLIT_CLOSED
}.
Lemma others_refl s : others_move s s.
Proof. by split. Qed.
Lemma others_trans s s' s'' : others_move s s' -> others_move s' s'' -> others_move s s''.
Proof. intros [] []. split; try congruence; auto. Qed.

Lemma begin_closing_closed sh : Shared.status sh = SPLIT_CLOSED -> Shared.status (Shared.begin_closing sh) = SPLIT_CLOSED.
Proof. intros Hs. rewrite begin_closing_status. unfold Shared.is_open. by rewrite Hs. Qed.
Lemma others_complete id x s : others_move s (complete id x s).
Proof. unfold complete. by repeat case_match; split. Qed.
Lemma others_finish cause failed s : others_move s (finish cause failed s).
Proof.
  unfold finish. set (s1 := set_terminal_msg _ _). assert (H1 : others_move s s1) by (split; try done; intros _; apply terminate_status).
  assert (H2 : others_move s (match failed with Some (id, e) => complete id (Err e) s1 | None => s1 end)) by (destruct failed as [[]|]; [eapply others_trans; [exact H1|apply others_complete]|done]).
  eapply others_trans; [exact H2|]. by split.
Qed.
Lemma others_sync s : others_move s (sync_inbound s).
Proof. unfold sync_inbound. destruct (_ <? _); [by split|apply others_refl]. Qed.
Lemma others_deadline s : others_move s (fst (begin_deadline config s)).
Proof. unfold begin_deadline. destruct (Driver.closing_deadline (driver s)); [apply others_refl|by split]. Qed.
Lemma others_driver (f : Driver.t E -> Driver.t E) s : others_move s (on_driver f s).
Proof. by split. Qed.

(** Each part of a step. *)
Definition silent (f : State -> State) : Prop := forall s, others_move s (f s).
Lemma silent_then s x f : silent f -> others_move s x -> others_move s (f x).
Proof. intros Hf Hx. eapply others_trans; [exact Hx|apply Hf]. Qed.
Lemma silent_driver f : silent (on_driver f). Proof. by split. Qed.
Lemma silent_pc pc : silent (to_pc pc). Proof. by split. Qed.
Lemma silent_heartbeat f : silent (on_heartbeat f). Proof. by split. Qed.
Lemma silent_stop : silent stop_heartbeat. Proof. by split. Qed.
Lemma silent_heard t p : silent (heard t p). Proof. by split. Qed.
Lemma silent_push who msg b : silent (push_frame who msg b). Proof. by split. Qed.
Lemma silent_kernel b : silent (set_in_kernel b). Proof. by split. Qed.
Lemma silent_application c : silent (set_application c). Proof. by split. Qed.
Lemma silent_closing : silent (on_shared Shared.begin_closing). Proof. split; try done. apply begin_closing_closed. Qed.
Lemma silent_deadline : silent (fun s => fst (begin_deadline config s)). Proof. intros s. apply others_deadline. Qed.
Lemma silent_sync : silent sync_inbound. Proof. intros s. apply others_sync. Qed.
Lemma silent_finish cause failed : silent (finish cause failed). Proof. intros s. apply others_finish. Qed.
Lemma silent_complete id x : silent (complete id x). Proof. intros s. apply others_complete. Qed.

Ltac silent :=
  repeat lazymatch goal with
  | H : others_move ?s ?x |- others_move ?s ?x => exact H
  | |- others_move ?s ?s => apply others_refl
  | |- others_move _ (to_pc _ _) => apply (silent_then _ _ (to_pc _) (silent_pc _))
  | |- others_move _ (finish _ _ _) => apply (silent_then _ _ (finish _ _) (silent_finish _ _))
  | |- others_move _ (complete _ _ _) => apply (silent_then _ _ (complete _ _) (silent_complete _ _))
  | |- others_move _ (on_driver _ _) => apply (silent_then _ _ (on_driver _) (silent_driver _))
  | |- others_move _ (on_heartbeat _ _) => apply (silent_then _ _ (on_heartbeat _) (silent_heartbeat _))
  | |- others_move _ (heard _ _ _) => apply (silent_then _ _ (heard _ _) (silent_heard _ _))
  | |- others_move _ (stop_heartbeat _) => apply (silent_then _ _ stop_heartbeat silent_stop)
  | |- others_move _ (push_frame _ _ _ _) => apply (silent_then _ _ (push_frame _ _ _) (silent_push _ _ _))
  | |- others_move _ (set_in_kernel _ _) => apply (silent_then _ _ (set_in_kernel _) (silent_kernel _))
  | |- others_move _ (set_application _ _) => apply (silent_then _ _ (set_application _) (silent_application _))
  | |- others_move _ (on_shared Shared.begin_closing _) => apply (silent_then _ _ (on_shared Shared.begin_closing) silent_closing)
  | |- others_move _ (sync_inbound _) => apply (silent_then _ _ sync_inbound silent_sync)
  | |- others_move _ (fst (begin_deadline _ _)) => apply (silent_then _ _ (fun s => fst (begin_deadline config s)) silent_deadline)
  end.

Lemma others_encode key who msg s s' x : encode key who msg s = Moves (s', x) -> others_move s s'.
Proof. intros (e & b & ->)%encode_frame_pushed. destruct x; cbn; silent. Qed.
Lemma others_control s c : (Chan.rx_open c = true -> Chan.rx_open (control s) = true) -> others_move s (set_control c s).
Proof. by split. Qed.
Lemma next_rx {A} (c c' : Chan.t A) x : Chan.next c = (c', x) -> Chan.rx_open c' = Chan.rx_open c.
Proof. unfold Chan.next. destruct (Chan.queue c); intros; by simplify_eq. Qed.

Lemma others_handle_control key r s0 s : others_move s0 s -> others_move s0 (handle_control config key r s).
Proof.
  intros Hs. destruct r as [p t|p t| | |]; unfold handle_control; try (silent; fail). pose proof (others_deadline (stop_heartbeat s)) as Hd.
  destruct (begin_deadline config (stop_heartbeat s)) as [s1 d]. cbn in Hd. assert (H1 : others_move s0 s1) by (eapply others_trans; [|exact Hd]; silent).
  destruct (negb _); [|silent]. destruct (ce_encode_close_response _ _ _) as [e b]. silent.
Qed.
Lemma others_handle_application key r s0 s s' : others_move s0 s -> handle_application config key r s = Moves s' -> others_move s0 s'.
Proof.
  intros Hs. destruct r as [msg id|id]; unfold handle_application; [|intros <-%moves_inj; silent]. destruct (negb _); [intros <-%moves_inj; silent|].
  set (s1 := if Message.is_close msg then _ else _). assert (H1 : others_move s0 s1) by (subst s1; destruct (Message.is_close msg); silent).
  destruct (encode _ _ _ _) as [| |[s2 [u|e]]] eqn:Ee; [done..| |]; apply others_encode in Ee; intros <-%moves_inj; assert (H2 : others_move s0 s2) by (by eapply others_trans); silent.
Qed.
Lemma others_written k r s0 s : others_move s0 s -> others_move s0 (written k r s).
Proof. intros Hs. unfold written. destruct r; [destruct k|]; silent. Qed.
Lemma others_interrupt k r s0 s : others_move s0 s -> others_move s0 (interrupt config k r s).
Proof.
  intros Hs. destruct r; unfold interrupt; [silent..|by apply others_written].
Qed.
Lemma others_timeout key code reason cause s s' : timeout_close config key code reason cause s = Moves s' -> others_move s s'.
Proof. unfold timeout_close. destruct (encode _ _ _ _) as [| |[s1 [u|e]]] eqn:Ee; [done..| |]; apply others_encode in Ee; intros <-%moves_inj; silent. Qed.

Lemma others_driver_step a fired key nonce s s' : driver_step config a fired key nonce s = Moves s' -> others_move s s'.
Proof.
  unfold driver_step. destruct (Driver.pc (driver s)) as [|timer| | |k|k timer close_at can|k close_at|k|deadline|timeout cause|timer cause|]; [..|done].
  - destruct (_ =? _); intros <-%moves_inj; silent.
  - unfold poll_select. destruct (cancelled s); [intros <-%moves_inj; silent|]. destruct (Driver.deferred_control (driver s)) as [r|]; [intros <-%moves_inj; apply others_handle_control; silent|].
    destruct (Chan.next (control s)) as [c [|[r|]]] eqn:En.
    + destruct (Chan.next (application s)) as [c' [|[r|]]]; [destruct (fired && _); [|done]; intros <-%moves_inj; silent| |intros <-%moves_inj; silent].
      apply others_handle_application. silent.
    + intros <-%moves_inj. apply others_handle_control, others_control. by rewrite (next_rx _ _ _ En).
    + intros <-%moves_inj. silent.
  - destruct (reached _ _); intros <-%moves_inj; silent.
  - unfold beat. destruct (Heartbeat.next_deadline _) as [[t|t|t]|]; [destruct (t <=? _)..|]; try (by apply others_timeout); try (intros <-%moves_inj; silent; fail).
    destruct (Heartbeat.ping_due _ _ _) as [[n h] [payload|]]; [|intros <-%moves_inj; silent].
    destruct (encode _ _ _ _) as [| |[s1 [u|e]]] eqn:Ee; [done..| |]; apply others_encode in Ee; intros <-%moves_inj; assert (H1 : others_move s s1) by (eapply others_trans; [|exact Ee]; silent); silent.
  - intros <-%moves_inj. silent.
  - unfold poll_write. destruct a as [|e|].
    + destruct (all_sent s); [|done]. intros <-%moves_inj. apply others_written. silent.
    + intros <-%moves_inj. apply others_written. silent.
    + destruct (cancelled s); [intros <-%moves_inj; apply others_written; silent|]. destruct (if can then _ else _) as [c [|[r|]]] eqn:En.
      * destruct (fired && _); [|done]. intros <-%moves_inj. silent.
      * intros <-%moves_inj. apply others_interrupt, others_control. destruct can; [by rewrite (next_rx _ _ _ En)|done].
      * intros <-%moves_inj. apply others_written. silent.
  - destruct (reached _ _); intros <-%moves_inj; [apply others_written|]; silent.
  - destruct (Heartbeat.next_hard_deadline _) as [[t|t|t]|]; intros <-%moves_inj; try destruct (t <=? _); try apply others_written; silent.
  - intros <-%moves_inj. silent.
  - intros <-%moves_inj. silent.
  - destruct a as [|e|]; [destruct (all_sent s); [|done]| |destruct (fired && _); [|done]]; intros <-%moves_inj; silent.
Qed.

Lemma others_step l s s' : (forall x, l <> LReader x) -> step config l s = Moves s' -> others_move s s'.
Proof.
  intros Hl. destruct l as [msg| | | | |a fired key nonce|n|x|ns]; cbn [step]; [..|by destruct (Hl x)|].
  1,2: unfold send, flush, call; destruct (app s); try done; destruct (negb _); intros <-%moves_inj; split; try done; cbn; rewrite got_snoc; by rewrite app_nil_r.
  - unfold app_poll. destruct (app s) as [|r|r|r|]; repeat case_match; try done; intros <-%moves_inj; split; try done; cbn; rewrite got_snoc; destruct r; by rewrite app_nil_r.
  - unfold app_abort. by destruct (app s); try done; intros <-%moves_inj; split.
  - unfold drop_writer. by destruct (app s); try done; intros <-%moves_inj; split.
  - apply others_driver_step.
  - unfold kernel. repeat case_match; try done; intros <-%moves_inj; by split.
  - destruct (0 <=? ns); [|done]. intros <-%moves_inj. by split.
Qed.

(** *** Steps of the reader *)

Lemma upto_close_more D x : closed_in D = true -> upto_close (D ++ x) = upto_close D.
Proof. apply upto_close_app. Qed.
Lemma closed_snoc D m : closed_in (D ++ [m]) = closed_in D || Message.is_close m.
Proof. rewrite existsb_app. cbn. by rewrite orb_false_r. Qed.
Lemma ref_app input data more : ref (input ++ data) more = ref input (data ++ more).
Proof. unfold ref. by rewrite <- app_assoc. Qed.

Lemma account_uniform r status rx input D : account r status rx input D -> exists C, faithful rx C (upto_close D) /\ forall more, bytes_ok more -> exists rest, ref input more = C ++ rest.
Proof.
  intros Ha. destruct Ha as [fr raw _ _ Hc _ _ _ _ _ Hx|C _ _ Hc _ _ _ Hf Hx|C reason _ _ Hc _ _ _ Hf Hx|C _ Hf Hx].
  - exists D. rewrite upto_close_open by done. split; [split; [apply thinned_refl|done]|]. intros more Hm. eexists. by apply Hx.
  - exists C. rewrite upto_close_open by done. split; [done|]. intros more Hm. eexists. by apply Hx.
  - exists C. rewrite upto_close_open by done. split; [done|]. intros more Hm. destruct (Hx more Hm) as [rest ->]. by eexists.
  - by exists C.
Qed.
Lemma account_frozen r r' status status' rx input D : account r status rx input D -> frozen r' status' -> account r' status' rx input D.
Proof. intros (C & Hf & Hx)%account_uniform Hz. eapply acc_over; [by right|done..]. Qed.
Lemma account_closed r r' status status' rx input data D x : account r status rx input D -> closed_in D = true -> bytes_ok data -> account r' status' rx (input ++ data) (D ++ x).
Proof.
  intros (C & Hf & Hx)%account_uniform Hc Hd. apply (acc_over _ _ _ _ _ C).
  - left. rewrite existsb_app. by rewrite Hc.
  - by rewrite upto_close_more.
  - intros more Hm. rewrite ref_app. apply Hx. apply bytes_ok_app. by split.
Qed.

Lemma pop_message_spec (r : Reader.t P) : match pop_message r with
  | (r', Some m) => in_hand r = m :: in_hand r' /\ r' = Reader.set_pending_messages (Reader.pending_messages r') r /\ Reader.pending_messages r = Reader.pending_messages r' ++ [m]
  | (r', None) => r' = r /\ in_hand r = [] /\ Reader.pending_messages r = []
  end.
Proof.
  unfold pop_message, in_hand. destruct (reverse (Reader.pending_messages r)) as [|m rest] eqn:Er.
  - split_and!; try done. apply (f_equal reverse) in Er. by rewrite reverse_involutive in Er.
  - cbn [Reader.pending_messages Reader.set_pending_messages]. rewrite reverse_involutive. split_and!; try done. apply (f_equal reverse) in Er. by rewrite reverse_involutive, reverse_cons in Er.
Qed.
Lemma faithful_snoc rx C D m : faithful rx C D -> faithful rx (C ++ [m]) (D ++ [m]).
Proof. intros [Ht Hx]. split; [by constructor|]. intros E1. by rewrite Hx. Qed.

(** A message at hand is returned. *)
Lemma account_deliver r r' status rx input D m : account r status rx input D -> closed_in D = false -> in_hand r = m :: in_hand r' -> Message.is_close m = false ->
  Reader.protocol r' = Reader.protocol r -> Reader.read_buf r' = Reader.read_buf r -> Reader.pending_parse_error r' = Reader.pending_parse_error r ->
  Reader.terminal_reported r' = Reader.terminal_reported r -> Reader.pc r' = RIdle -> Reader.pending_request r' = None -> account r' status rx input (D ++ [m]) \/ frozen r status.
Proof.
  intros Ha Hc Hh Hm E1 E2 E3 E4 E5 E6. assert (Hrq : request_ok r') by (unfold request_ok; by rewrite E6, E5).
  destruct Ha as [fr raw A1 A2 A3 A4 A5 A6 A7 A8 A9|C A1 A2 A3 A4 A5 A6 A7 A8|C reason A1 A2 A3 A4 A5 A6 A7 A8|C A1 A2 A3].
  - left. eapply (acc_live _ _ _ _ _ fr raw); rewrite ?E1, ?E2, ?E3, ?E4, ?E5; try done.
    + by rewrite closed_snoc, Hc, Hm.
    + intros [Hb|]; [|done]. apply A7. by left.
    + intros more Hmo. rewrite A9 by done. rewrite Hh, <- !app_assoc. done.
  - left. apply (acc_err _ _ _ _ _ (C ++ [m])); rewrite ?E3, ?E4, ?E5; try done.
    + by rewrite closed_snoc, Hc, Hm.
    + by apply faithful_snoc.
    + intros more Hmo. rewrite A8 by done. rewrite Hh, <- app_assoc. done.
  - rewrite A6 in Hh. by injection Hh as <- _.
  - destruct A1 as [|A1]; [congruence|by right].
Qed.

Lemma poll_ready_false {A} n (c : Chan.t A) : Chan.poll_ready n c = Ready false -> Chan.rx_open c = false.
Proof. unfold Chan.poll_ready. destruct (Chan.rx_open c); [|done]. cbn. by destruct (Nat.leb _ _). Qed.

Lemma frozen_pc r status : frozen r status -> resting (Reader.pc r) = true.
Proof. by intros []. Qed.

(** Another place, in the same state. *)
Lemma account_pc r status rx input D pc : account r status rx input D -> closed_in D = false -> pc <> RNotify -> (handing pc = true -> handing (Reader.pc r) = true) ->
  (receiving pc = true -> receiving (Reader.pc r) = true) -> (resting (Reader.pc r) = true -> resting pc = true) -> (handing (Reader.pc r) = true -> handing pc || resting pc = true) ->
  account (Reader.set_pc pc r) status rx input D.
Proof.
  intros Ha Hc Hn Hh Hv Hs Hk. assert (Hrq : request_ok r -> request_ok (Reader.set_pc pc r)).
  { unfold request_ok. cbn. destruct (Reader.pending_request r); [done|]. intros E1. destruct (handing pc); [|done]. by rewrite Hh in E1. }
  destruct Ha as [fr raw A1 A2 A3 A4 A5 A6 A7 A8 A9|C A1 A2 A3 A4 A5 A6 A7 A8|C reason A1 A2 A3 A4 A5 A6 A7 A8|C A1 A2 A3].
  - apply (acc_live _ _ _ _ _ fr raw); try done; auto. cbn. intros. apply A7. naive_solver.
  - apply (acc_err _ _ _ _ _ C); try done; auto. cbn. destruct (receiving pc) eqn:E1; [|done]. by rewrite Hv in A4.
  - apply (acc_close _ _ _ _ _ C reason); try done. cbn. destruct (handing (Reader.pc r)) eqn:E1; [by apply Hk|]. rewrite Hs by done. by rewrite orb_true_r.
  - destruct A1 as [A1|[A1 A1']]; [congruence|]. apply (acc_over _ _ _ _ _ C); try done. right. split; [by apply Hs|done].
Qed.

(** [hand_off] of the message that was popped. *)
Lemma account_hand_off r r' status rx input D m request : account r status rx input D -> closed_in D = false -> pop_message r = (r', Some m) -> is_beat m = true -> Reader.pc r = RTop ->
  account (Reader.set_pc RHandOff (Reader.set_pending_request (Some request) (Reader.set_pending_messages (Reader.pending_messages r' ++ [m]) r'))) status rx input D \/ frozen r status.
Proof.
  intros Ha Hc Hp Hm Hpc. pose proof (pop_message_spec r) as Hs. rewrite Hp in Hs. destruct Hs as (Hh & E1 & E2). rewrite <- E2, E1.
  set (q := Reader.set_pc RHandOff _). assert (Ei : in_hand q = in_hand r) by done.
  assert (Hq : request_ok q) by (unfold request_ok; rewrite Ei; cbn; by eexists _, _).
  destruct Ha as [fr raw A1 A2 A3 A4 A5 A6 A7 A8 A9|C A1 A2 A3 A4 A5 A6 A7 A8|C reason A1 A2 A3 A4 A5 A6 A7 A8|C A1 A2 A3].
  - left. apply (acc_live _ _ _ _ _ fr raw); rewrite ?Ei; try done. cbn. intros [Hb|]; [|done]. apply A7. by left.
  - left. by apply (acc_err _ _ _ _ _ C).
  - rewrite A6 in Hh. by injection Hh as <- _.
  - destruct A1 as [|A1]; [congruence|by right].
Qed.

(** A request at hand is for a control message. *)
Lemma account_no_request r status rx input D m ms : account r status rx input D -> closed_in D = false -> ~ frozen r status -> in_hand r = m :: ms -> is_beat m = false -> Message.is_close m = false ->
  Reader.pending_request r = None.
Proof.
  intros Ha Hc Hz Hh Hb Hm. destruct (Reader.pending_request r) as [q|] eqn:Eq; [|done]. exfalso.
  destruct Ha as [? ? _ _ _ _ A5 _ _ _ _|? _ _ _ _ A5 _ _ _|? ? _ _ _ _ _ A6 _ _|? A1 _ _]; [..|by destruct A1; [congruence|]].
  1,2: unfold request_ok in A5; rewrite Eq, Hh in A5; destruct A5 as (? & ? & [= <- _] & ?); congruence. rewrite A6 in Hh. by injection Hh as <- _.
Qed.

Lemma k_account_take r status rx input D m r' status' : account r status rx input D -> closed_in D = false -> pop_message r = (r', Some m) -> Reader.pc r = RTop -> ~ frozen r status ->
  Reader.terminal_reported r = false -> forall s, reader s = r' -> Shared.status (shared s) = status' -> let s' := take_message m s in lost s' = lost s /\ taken s' = taken s /\ control s' = control s /\
  (status' = status -> account (reader s') (Shared.status (shared s')) rx input (D ++ match m with Message.Text _ | Message.Binary _ => [m] | _ => [] end)).
Proof.
  intros Ha Hc Hp Hpc Hz Ht s Er Es. pose proof (pop_message_spec r) as Hs. rewrite Hp in Hs. destruct Hs as (Hh & E1 & E2).
  assert (Hr' : forall f, reader (on_reader f s) = f r') by (intros f; cbn; by rewrite Er).
  destruct m as [b|b|b|b|reason]; unfold take_message.
  - split_and!; try done. intros ->. cbn. rewrite Er, note_inbound_status, Es. refine (_ (account_deliver r (Reader.set_pc RIdle r') status rx input D (Message.Text b) Ha Hc Hh eq_refl _ _ _ _ eq_refl _));
      [by intros [|]|rewrite E1; try done..]. exact (account_no_request _ _ _ _ _ _ _ Ha Hc Hz Hh eq_refl eq_refl).
  - split_and!; try done. intros ->. cbn. rewrite Er, note_inbound_status, Es. refine (_ (account_deliver r (Reader.set_pc RIdle r') status rx input D (Message.Binary b) Ha Hc Hh eq_refl _ _ _ _ eq_refl _));
      [by intros [|]|rewrite E1; try done..]. exact (account_no_request _ _ _ _ _ _ _ Ha Hc Hz Hh eq_refl eq_refl).
  - split_and!; try done. intros ->. rewrite app_nil_r. unfold hand_off. cbn. rewrite Er, Es. by destruct (account_hand_off r r' status rx input D _ (default (CPeerPing b (now s)) (Reader.pending_request r')) Ha Hc Hp eq_refl Hpc).
  - split_and!; try done. intros ->. rewrite app_nil_r. unfold hand_off. cbn. rewrite Er, Es. by destruct (account_hand_off r r' status rx input D _ (default (CPong b (now s)) (Reader.pending_request r')) Ha Hc Hp eq_refl Hpc).
  - rewrite Er. assert (Ek : Reader.pending_request r' = Reader.pending_request r) by (by rewrite E1). rewrite Ek.
    assert (Hclose : forall C rest, faithful rx C D -> (forall more, bytes_ok more -> ref input more = C ++ in_hand r ++ rest more) -> forall st,
      account (Reader.set_pc RHandOff (Reader.set_pending_request (Some CPeerClose) (Reader.set_pending_messages [Message.Close reason] (Reader.set_read_buf [] (Reader.set_pending_parse_error None (Reader.set_pending_messages [] r')))))) st rx input D).
    { intros C rest Hf Hx st. apply (acc_close _ _ _ _ _ C reason); try done; [by rewrite E1|]. intros more Hm. rewrite Hx, Hh by done. by eexists. }
    destruct (Reader.pending_request r) as [request|] eqn:Eq.
    + split_and!; try done. intros ->. rewrite app_nil_r. unfold hand_off. cbn. rewrite Er, Es.
      destruct Ha as [? ? _ _ _ _ A5 _ _ _ _|? _ _ _ _ A5 _ _ _|C reason' A1 A2 A3 A4 A5 A6 A7 A8|? A1 _ _]; [| | |by destruct A1; [congruence|]].
      1,2: unfold request_ok in A5; rewrite Eq, Hh in A5; destruct A5 as (? & ? & [= <- _] & ?); done.
      rewrite A6 in Hh. injection Hh as -> Hn. rewrite Eq in A5. injection A5 as ->. rewrite <- E2, E1. by apply (acc_close _ _ _ _ _ C reason).
    + split_and!; try done. intros ->. rewrite app_nil_r. unfold hand_off. cbn. rewrite Er.
      destruct Ha as [fr raw A1 A2 A3 A4 A5 A6 A7 A8 A9|C A1 A2 A3 A4 A5 A6 A7 A8|C reason' A1 A2 A3 A4 A5 A6 A7 A8|? A1 _ _]; [| | |by destruct A1; [congruence|]].
      * apply (Hclose D (fun more => r_ref fr (raw ++ more))); [split; [apply thinned_refl|done]|done].
      * apply (Hclose C (fun _ => [])); [done|]. intros more Hm. rewrite app_nil_r. by apply A8.
      * congruence.
Qed.

Lemma k_account_top s s' : account (reader s) (Shared.status (shared s)) (Chan.rx_open (control s)) (taken s) (got (log s)) -> closed_in (got (log s)) = false -> Reader.pc (reader s) = RTop ->
  reader_top s = Moves s' -> lost s' = lost s /\ taken s' = taken s /\ control s' = control s /\ account (reader s') (Shared.status (shared s')) (Chan.rx_open (control s)) (taken s) (got (log s')).
Proof.
  intros Ha Hc Hpc. unfold reader_top. destruct (Reader.terminal_reported (reader s)) eqn:Et.
  { intros <-%moves_inj. split_and!; try done. cbn. rewrite got_snoc, app_nil_r. apply (account_frozen _ _ _ _ _ _ _ Ha). split; [done|by left]. }
  destruct (bool_decide _ && _) eqn:Ef.
  { intros <-%moves_inj. split_and!; try done. cbn.
    destruct (Shared.terminal (shared s)) as [[]|]; rewrite got_snoc, app_nil_r; (apply (account_frozen _ _ _ _ _ _ _ Ha); split; [done|by left]). }
  assert (Hz : ~ frozen (reader s) (Shared.status (shared s))).
  { intros [_ [Hz|[Hz1 Hz2]]]; [congruence|]. rewrite Hz1, Hz2 in Ef. done. }
  pose proof (pop_message_spec (reader s)) as Hp. destruct (pop_message (reader s)) as [r' [m|]] eqn:Ep.
  - intros <-%moves_inj. destruct (k_account_take _ _ _ _ _ m r' (Shared.status (shared s)) Ha Hc Ep Hpc Hz Et (on_reader (fun _ => r') s) eq_refl eq_refl) as (E1 & E2 & E3 & Hx). split_and!; try done.
    specialize (Hx eq_refl). assert (Eg : got (log (take_message m (on_reader (fun _ => r') s))) = got (log s) ++ match m with Message.Text _ | Message.Binary _ => [m] | _ => [] end).
    { destruct m; unfold take_message; cbn; rewrite ?app_nil_r; try done; [apply got_snoc..|]. by destruct (Reader.pending_request r'). }
    by rewrite Eg.
  - destruct Hp as (-> & Hh & Hpm). destruct Ha as [fr raw A1 A2 A3 A4 A5 A6 A7 A8 A9|C A1 A2 A3 A4 A5 A6 A7 A8|C reason A1 A2 A3 A4 A5 A6 A7 A8|C A1 A2 A3]; [| |congruence|by destruct A1; [congruence|]].
    2: { rewrite bool_decide_true by done. intros <-%moves_inj. split_and!; try done. apply (acc_err _ _ _ _ _ C); try done. unfold request_ok in *. cbn. rewrite Hh in A5.
         destruct (Reader.pending_request (reader s)); [by destruct A5 as (? & ? & ? & _)|done]. }
    rewrite bool_decide_false by (rewrite A2; by intros []). unfold parse.
    assert (Hnr : forall pc (q : Reader.t P), Reader.pending_request q = Reader.pending_request (reader s) -> handing pc = false -> request_ok (Reader.set_pc pc q)).
    { intros pc q Eq Hpc'. unfold request_ok in *. cbn. rewrite Eq. rewrite Hh in A5. destruct (Reader.pending_request (reader s)); [by destruct A5 as (? & ? & ? & _)|done]. }
    destruct (decide (Reader.read_buf (reader s) = [])) as [Hb|Hb]; [rewrite (bool_decide_true _ Hb)|rewrite (bool_decide_false _ Hb)].
    { intros <-%moves_inj. split_and!; try done. apply (acc_live _ _ _ _ _ fr raw); try done; [by apply Hnr|]. intros _. apply A7. by left. }
    pose proof (r_process _ _ _ _ Hb A6) as Hproc. destruct (cr_process _ _) as [[[[p buf] ms] acc] [u|e]| |]; try done.
    + destruct Hproc as (fr' & raw' & B1 & B2 & B3).
      set (s1 := on_reader _ s). assert (Hs1 : lost s1 = lost s /\ taken s1 = taken s /\ control s1 = control s /\ log s1 = log s /\ Reader.pending_messages (reader s1) = reverse ms)
        by (split_and!; try done; change (reverse (Reader.pending_messages (reader s) ++ ms) = reverse ms); by rewrite Hpm).
      destruct Hs1 as (L1 & L2 & L3 & L4 & L5).
      set (s2 := if acc then _ else s1). assert (Hs2 : reader s2 = reader s1 /\ lost s2 = lost s /\ taken s2 = taken s /\ control s2 = control s /\ log s2 = log s) by (subst s2; by destruct acc).
      destruct Hs2 as (K0 & K1 & K2 & K3 & K4). intros <-%moves_inj. split_and!; try done.
      change (account (Reader.set_pc (if bool_decide (Reader.pending_messages (reader s2) = []) then RSelect else RTop) (reader s2)) (Shared.status (shared s2)) (Chan.rx_open (control s)) (taken s) (got (log s2))).
      rewrite K4, K0, L5. set (pc := if bool_decide (reverse ms = []) then RSelect else RTop). assert (Hpcs : pc = RSelect /\ ms = [] \/ pc = RTop).
      { subst pc. destruct (bool_decide_reflect (reverse ms = [])) as [Hms|]; [left|by right]. split; [done|]. apply (f_equal reverse) in Hms. by rewrite reverse_involutive in Hms. }
      assert (Hi : in_hand (reader s1) = ms) by (unfold in_hand; by rewrite L5, reverse_involutive).
      apply (acc_live _ _ _ _ _ fr' raw'); try done.
      * by destruct Hpcs as [[-> _]| ->].
      * apply Hnr; [done|]. by destruct Hpcs as [[-> _]| ->].
      * intros Hx. change (in_hand (reader s1) = []). rewrite Hi. destruct Hpcs as [[_ ?]|Hpcs]; [done|by rewrite Hpcs in Hx].
      * intros more Hm. rewrite A9, Hh by done. cbn [app]. rewrite B3 by done. change (in_hand (Reader.set_pc pc (reader s1))) with (in_hand (reader s1)). by rewrite Hi.
    + intros <-%moves_inj. split_and!; try done. apply (acc_err _ _ _ _ _ (got (log s))); try done.
      * by apply Hnr.
      * split; [apply thinned_refl|done].
      * intros more Hm. rewrite A9, Hh by done. cbn [app]. rewrite Hproc by done. f_equal. unfold in_hand. cbn [Reader.pending_messages Reader.set_pending_messages Reader.set_pc reader on_reader set_reader to_reader_pc on_shared set_shared Reader.set_pending_parse_error Reader.set_read_buf Reader.set_protocol].
        rewrite Hpm. cbn [app]. by rewrite reverse_involutive.
Qed.

(** The reader has the closed status, and rests. *)
Lemma account_ended s c r : account (reader s) (Shared.status (shared s)) (Chan.rx_open (control s)) (taken s) (got (log s)) -> resting (Reader.pc r) = true -> Reader.pending_parse_error r = None ->
  account r (Shared.status (Shared.terminate c (shared s))) (Chan.rx_open (control s)) (taken s) (got (log s)).
Proof. intros Ha Hp He. apply (account_frozen _ _ _ _ _ _ _ Ha). split; [done|]. right. split; [done|apply terminate_status]. Qed.

Lemma account_receiving r status rx input D : account r status rx input D -> closed_in D = false -> receiving (Reader.pc r) = true -> Reader.pending_parse_error r = None /\ Reader.terminal_reported r = false /\
  exists fr raw, r_sim (Reader.protocol r) (Reader.read_buf r) raw fr /\ r_ref fr raw = [] /\ in_hand r = [] /\ Reader.pending_request r = None /\ forall more, bytes_ok more -> ref input more = D ++ r_ref fr (raw ++ more).
Proof.
  intros Ha Hc Hv. destruct Ha as [fr raw A1 A2 A3 A4 A5 A6 A7 A8 A9|C A1 A2 A3 A4 A5 A6 A7 A8|C reason A1 A2 A3 A4 A5 A6 A7 A8|C A1 A2 A3].
  - split_and!; try done. exists fr, raw. split_and!; try done; [apply A7; by right|by apply A8| |].
    + unfold request_ok in A5. rewrite A8 in A5 by done. destruct (Reader.pending_request r); [by destruct A5 as (? & ? & ? & _)|done].
    + intros more Hm. rewrite A9 by done. by rewrite A8.
  - congruence.
  - by destruct (Reader.pc r).
  - destruct A1 as [|[A1 _]]; [congruence|]. by destruct (Reader.pc r).
Qed.

Lemma account_handed s (r1 : Reader.t P) request m : account (reader s) (Shared.status (shared s)) (Chan.rx_open (control s)) (taken s) (got (log s)) -> closed_in (got (log s)) = false ->
  Reader.pc (reader s) = RHandOff -> Reader.pending_request (reader s) = Some request -> pop_message (Reader.set_pending_request None (reader s)) = (r1, m) ->
  account (Reader.set_pc RIdle r1) (Shared.status (shared s)) (Chan.rx_open (control s)) (taken s) (got (log s) ++ got [Got (Ok <$> m)]).
Proof.
  intros Ha Hc Hpc Hq Hp. pose proof (pop_message_spec (Reader.set_pending_request None (reader s))) as Hs. rewrite Hp in Hs. destruct m as [m|]; [destruct Hs as (Hh & E1 & E2)|destruct Hs as (E1 & Hh & E2)].
  2: { cbn. rewrite app_nil_r. change (in_hand (reader s) = []) in Hh. exfalso. destruct Ha as [fr raw A1 A2 A3 A4 A5 A6 A7 A8 A9|C A1 A2 A3 A4 A5 A6 A7 A8|C reason A1 A2 A3 A4 A5 A6 A7 A8|C A1 A2 A3].
       1,2: unfold request_ok in A5; rewrite Hq, Hh in A5; by destruct A5 as (? & ? & ? & _). congruence. destruct A1 as [|[A1 _]]; [congruence|]. by rewrite Hpc in A1. }
  change (in_hand (reader s) = m :: in_hand r1) in Hh. change (got [Got (Ok <$> Some m)]) with [m]. destruct (Message.is_close m) eqn:Em.
  - assert (Hx : exists C rest, faithful (Chan.rx_open (control s)) C (got (log s)) /\ forall more, bytes_ok more -> ref (taken s) more = C ++ m :: rest more).
    { destruct Ha as [fr raw A1 A2 A3 A4 A5 A6 A7 A8 A9|C A1 A2 A3 A4 A5 A6 A7 A8|C reason A1 A2 A3 A4 A5 A6 A7 A8|C A1 A2 A3].
      - unfold request_ok in A5. rewrite Hq, Hh in A5. destruct A5 as (? & ? & [= <- _] & ?). by destruct m.
      - unfold request_ok in A5. rewrite Hq, Hh in A5. destruct A5 as (? & ? & [= <- _] & ?). by destruct m.
      - exists C, (fun more => drop (S (length C)) (ref (taken s) more)). split; [done|]. intros more Hm. destruct (A8 more Hm) as [rest Hrest]. rewrite A6 in Hh. injection Hh as <- _. rewrite Hrest.
        rewrite drop_app. rewrite drop_ge by lia. replace (S (length C) - length C)%nat with 1%nat by lia. done.
      - destruct A1 as [|[A1 _]]; [congruence|]. by rewrite Hpc in A1. }
    destruct Hx as (C & rest & Hf & Hx). apply (acc_over _ _ _ _ _ (C ++ [m])).
    + left. by rewrite closed_snoc, Em, orb_true_r.
    + rewrite upto_close_snoc by done. by apply faithful_snoc.
    + intros more Hm. exists (rest more). rewrite <- app_assoc. by apply Hx.
  - destruct (account_deliver (reader s) (Reader.set_pc RIdle r1) _ _ _ _ m Ha Hc Hh Em) as [|[Hz _]]; try done; [rewrite E1; done..|]. by rewrite Hpc in Hz.
Qed.

Lemma account_refused s request : account (reader s) (Shared.status (shared s)) (Chan.rx_open (control s)) (taken s) (got (log s)) -> closed_in (got (log s)) = false ->
  Reader.pc (reader s) = RHandOff -> Reader.pending_request (reader s) = request -> Chan.rx_open (control s) = false ->
  account (Reader.set_pc RTop (Reader.set_pending_request None (fst (pop_message (reader s))))) (Shared.status (Shared.terminate Cause.ConnectionClosed (shared s))) (Chan.rx_open (control s)) (taken s) (got (log s)).
Proof.
  intros Ha Hc Hpc Hq Hrx. pose proof (pop_message_spec (reader s)) as Hs. destruct (pop_message (reader s)) as [r1 m]. cbn [fst].
  assert (E0 : Reader.pending_parse_error r1 = Reader.pending_parse_error (reader s) /\ Reader.terminal_reported r1 = Reader.terminal_reported (reader s)).
  { destruct m; [destruct Hs as (_ & -> & _)|destruct Hs as (-> & _)]; done. }
  destruct E0 as [E0 E0']. destruct (Reader.pending_parse_error (reader s)) as [e|] eqn:Ee; [|by apply account_ended].
  destruct Ha as [fr raw A1 A2 A3 A4 A5 A6 A7 A8 A9|C A1 A2 A3 A4 A5 A6 A7 A8|C reason A1 A2 A3 A4 A5 A6 A7 A8|C A1 A2 A3]; [congruence| |congruence|].
  2: { destruct A1 as [|[A1 _]]; [congruence|]. by rewrite Hpc in A1. }
  unfold request_ok in A5. rewrite Hq in A5. destruct request as [q|]; [|by rewrite Hpc in A5]. destruct A5 as (m' & ms & Hh & Hb).
  destruct m as [m|]; [destruct Hs as (Hh' & E1 & E2)|destruct Hs as (_ & Hh' & _); congruence]. rewrite Hh in Hh'. injection Hh' as <- ->.
  apply (acc_err _ _ _ _ _ (C ++ [m'])); [by cbn; rewrite E0'|by cbn; rewrite E0|done|done|done|done|..].
  - destruct A7 as [Ht _]. split; [by constructor|by rewrite Hrx].
  - intros more Hm. rewrite A8, Hh by done. rewrite <- app_assoc. done.
Qed.

Lemma reader_inv_reader l s s' : (forall data, l = RRead (Ok data) -> bytes_ok data) -> reader_inv s -> reader_step l s = Moves s' -> reader_inv s'.
Proof.
  intros Hl Hi Hs. unfold reader_inv in *.
  assert (Hsame : lost s' = false -> lost s = false /\ exists data x, taken s' = taken s ++ data /\ bytes_ok data /\ got (log s') = got (log s) ++ x /\ Chan.rx_open (control s') = Chan.rx_open (control s)).
  { clear Hi. assert (Hgot : forall i s1, exists x, got (log (reader_return i s1)) = got (log s1) ++ x) by (intros i s1; eexists; apply got_snoc).
    assert (Hno : forall s1, taken s1 = taken s -> got (log s1) = got (log s) -> Chan.rx_open (control s1) = Chan.rx_open (control s) ->
      exists data x, taken s1 = taken s ++ data /\ bytes_ok data /\ got (log s1) = got (log s) ++ x /\ Chan.rx_open (control s1) = Chan.rx_open (control s)).
    { intros s1 -> -> ->. exists [], []. rewrite !app_nil_r. split_and!; try done; constructor. }
    assert (Hret : forall i s1, taken s1 = taken s -> log s1 = log s -> Chan.rx_open (control s1) = Chan.rx_open (control s) ->
      exists data x, taken (reader_return i s1) = taken s ++ data /\ bytes_ok data /\ got (log (reader_return i s1)) = got (log s) ++ x /\ Chan.rx_open (control (reader_return i s1)) = Chan.rx_open (control s)).
    { intros i s1 E1 E2 E3. destruct (Hgot i s1) as [x Hx]. exists [], x. rewrite app_nil_r, Hx, E2. split_and!; try done; constructor. }
    unfold reader_step, reader_top, parse, take_message in Hs. destruct l as [| |x| |], (Reader.pc (reader s)); try done;
      repeat (case_match; try discriminate Hs); apply moves_inj in Hs; subst s'; intros Hlost; (split; [done|]); try (by apply Hret); try (by apply Hno).
    eexists _, []. split_and!; [reflexivity|by apply Hl|by rewrite app_nil_r|done]. }
  intros Hlost. destruct (Hsame Hlost) as (Hlost' & data & x & Ed & Hd & Eg & Erx). destruct (Hi Hlost') as [Ha Htk]. split; [|rewrite Ed; apply bytes_ok_app; by split].
  destruct (closed_in (got (log s))) eqn:Hc; [rewrite Ed, Eg, Erx; by eapply account_closed|]. clear Hsame data x Ed Hd Eg Erx Hi.
  unfold reader_step in Hs. destruct l as [| |y| |], (Reader.pc (reader s)) eqn:Epc; try done.
  - apply moves_inj in Hs; subst s'. cbn. apply (account_pc _ _ _ _ _ _ Ha Hc); rewrite ?Epc; done.
  - destruct (k_account_top _ _ Ha Hc Epc Hs) as (_ & E2 & E3 & Hx). by rewrite E2, E3.
  - destruct (Chan.poll_ready _ _) as [|[]] eqn:Er; [done|..].
    + destruct (Reader.pending_request (reader s)) as [q|] eqn:Eq; [|done]. cbn in Hs. destruct (pop_message _) as [r1 m] eqn:Ep. apply moves_inj in Hs; subst s'. cbn. rewrite got_snoc.
      by eapply account_handed.
    + apply poll_ready_false in Er. destruct (Reader.pending_request (reader s)) eqn:Eq; apply moves_inj in Hs; subst s'; exact (account_refused s _ Ha Hc Epc Eq Er).
  - destruct (Chan.poll_ready _ _) as [|ok] eqn:Er; [done|]. apply moves_inj in Hs; subst s'. set (s1 := if ok then _ else s).
    assert (Hs1 : reader s1 = reader s /\ taken s1 = taken s /\ log s1 = log s /\ Chan.rx_open (control s1) = Chan.rx_open (control s)) by (subst s1; by destruct ok).
    destruct Hs1 as (K1 & K2 & K3 & K4). cbn. rewrite got_snoc, K1, K2, K3, K4. replace (got [_]) with (@nil Message.t) by (by destruct (Reader.pending_parse_error (reader s))). rewrite app_nil_r.
    apply (account_frozen _ _ _ _ _ _ _ Ha). split; [done|by left].
  - destruct (account_receiving _ _ _ _ _ Ha Hc ltac:(by rewrite Epc)) as (He & Ht & fr & raw & B1 & B2 & B3 & B4 & B5). destruct (terminal_ready s) as [c|]; apply moves_inj in Hs; subst s'.
    + apply (account_ended s _ _ Ha); [done|exact He].
    + apply (account_pc _ _ _ _ _ _ Ha Hc); rewrite ?Epc; done.
  - destruct (account_receiving _ _ _ _ _ Ha Hc ltac:(by rewrite Epc)) as (He & Ht & fr & raw & B1 & B2 & B3 & B4 & B5). destruct (terminal_ready s) as [c|]; [|done]. apply moves_inj in Hs; subst s'. apply (account_ended s _ _ Ha); [done|exact He].
  - destruct (account_receiving _ _ _ _ _ Ha Hc ltac:(by rewrite Epc)) as (He & Ht & fr & raw & B1 & B2 & B3 & B4 & B5). destruct (Chan.poll_ready _ _) as [|[]]; [done|..]; apply moves_inj in Hs; subst s'.
    + apply (account_pc _ _ _ _ _ _ Ha Hc); rewrite ?Epc; done.
    + apply (account_ended s _ _ Ha); [done|exact He].
  - destruct (account_receiving _ _ _ _ _ Ha Hc ltac:(by rewrite Epc)) as (He & Ht & fr & raw & B1 & B2 & B3 & B4 & B5). destruct (Chan.poll_flush _ _); [done|]. apply moves_inj in Hs; subst s'. apply (account_ended s _ _ Ha); [done|exact He].
  - destruct (account_receiving _ _ _ _ _ Ha Hc ltac:(by rewrite Epc)) as (He & Ht & fr & raw & B1 & B2 & B3 & B4 & B5). destruct (terminal_ready s); [done|]. destruct y as [[|b data]|e].
    + apply moves_inj in Hs; subst s'. apply (account_pc _ _ _ _ _ _ Ha Hc); rewrite ?Epc; done.
    + apply moves_inj in Hs; subst s'. assert (Hok : bytes_ok (b :: data)) by (by apply Hl). apply (acc_live _ _ _ _ _ fr (raw ++ b :: data)); try done.
      * unfold request_ok. cbn. by rewrite B4.
      * by apply r_sim_more.
      * cbn. intros [Hx|]; [|done]. by apply app_eq_nil in Hx as [_ ?].
      * intros more Hm. change (ref (taken s ++ b :: data) more = got (log s) ++ in_hand (reader s) ++ r_ref fr ((raw ++ b :: data) ++ more)).
        rewrite ref_app, B5, B3, <- app_assoc; [done|]. apply bytes_ok_app. by split.
    + apply moves_inj in Hs; subst s'. cbn. rewrite got_snoc, app_nil_r. apply (account_ended s _ _ Ha); [done|exact He].
  - apply moves_inj in Hs; subst s'. cbn. apply (account_pc _ _ _ _ _ _ Ha Hc); rewrite ?Epc; done.
  - apply moves_inj in Hs; subst s'. cbn. apply (account_pc _ _ _ _ _ _ Ha Hc); rewrite ?Epc; done.
  - by apply moves_inj in Hs; subst s'.
  - apply moves_inj in Hs; subst s'. cbn. apply (account_pc _ _ _ _ _ _ Ha Hc); rewrite ?Epc; done.
  - apply moves_inj in Hs; subst s'. cbn. apply (account_pc _ _ _ _ _ _ Ha Hc); rewrite ?Epc; done.
  - apply moves_inj in Hs; subst s'. cbn. apply (account_pc _ _ _ _ _ _ Ha Hc); rewrite ?Epc; done.
Qed.

Definition fed (l : label) : Prop := match l with LReader (RRead (Ok data)) => bytes_ok data | _ => True end.

Lemma k_reader_inv_step l s s' : fed l -> reader_inv s -> step config l s = Moves s' -> reader_inv s'.
Proof.
  intros Hf Hi Hs. destruct l as [msg| | | | |a fired key nonce|n|x|ns].
  8: { eapply reader_inv_reader; [|done|done]. by intros data ->. }
  all: apply others_step in Hs as [E1 E2 E3 E4 E5 E6]; [|done]; unfold reader_inv in *; rewrite E1, E2, E3, E4; intros Hl; destruct (Hi Hl) as [Ha Hk]; (split; [|done]); by eapply account_others.
Qed.
Lemma k_reader_inv_steps ls s s' : Forall fed ls -> reader_inv s -> steps config ls s = Moves s' -> reader_inv s'.
Proof.
  intros Hf. revert s. induction Hf as [|l ls Hl Hf IH]; intros s Hi; cbn; [by intros <-%moves_inj|]. destruct (step config l s) as [| |s1] eqn:E1; [done..|]. apply IH. by eapply k_reader_inv_step.
Qed.

(** What [next] has returned, when no read was dropped. *)
Lemma reader_inv_delivers s : reader_inv s -> lost s = false ->
  (exists C, faithful (Chan.rx_open (control s)) C (upto_close (got (log s))) /\ forall more, bytes_ok more -> exists rest, ref (taken s) more = C ++ rest) /\
  (Reader.pc (reader s) = RReading -> closed_in (got (log s)) = false -> ref (taken s) [] = got (log s)).
Proof.
  intros Hi Hl. destruct (Hi Hl) as [Ha Hk]. split; [by eapply account_uniform|]. intros Hpc Hc.
  destruct (account_receiving _ _ _ _ _ Ha Hc ltac:(by rewrite Hpc)) as (_ & _ & fr & raw & _ & B2 & _ & _ & B5). rewrite B5 by constructor. by rewrite app_nil_r, B2, app_nil_r.
Qed.

Lemma reader_inv_split st tracks rp wp fr : r_sim rp base base fr -> fr = fr0 -> (base = [] -> r_ref fr0 [] = []) -> reader_inv (split_state config st tracks rp base [] None wp).
Proof.
  intros Hs -> Hn _. split; [|constructor]. apply (acc_live _ _ _ _ _ fr0 base); try done; cbn.
  - intros [Hb|]; [|done]. rewrite Hb. by apply Hn.
Qed.
End Receive.
