(* ===== verification/CompioSplitEnd.v ===== *)
(** * Split streams on compio: how the driver ends

    Once the budget of the closing handshake is spent, the driver ends within a bounded number of its own polls, whatever the transport answers ([overdue_step]); and an error that a call has returned, other than
    that of a connection that is closing, means that the driver has ended and the writer is released ([errors_ok]). *)

From stdpp Require Import base list option strings.
From S2P Require Import Prelude Error Mask Utf8 Frame FrameSpec Protocol Heartbeat Cork Output Deflate Compressed Config WebSocket Compio CompioSplit CompioSplitSpec.
Import CompioSplit.

(** Encoders return. *)
Class CompioEncoderSpec (E : Type) `{CompioSplitEncoder E} : Prop :=
  ce_total key e m b : match ce_encode_message key e m b with Done _ _ => True | _ => False end.
#[export] Instance plain_encoder_total : CompioEncoderSpec Protocol.t.
Proof. intros key e m b. done. Qed.

Section System.
Context {E P : Type} `{CompioEncoderSpec E} `{CompioReading P} (config : Config.t).
Abbreviation State := (State E P).
Implicit Types s : State.

(** ** The timers *)

(** A timer that is due when the closing budget is spent. *)
Definition in_time (timer closing : option Z) : Prop := forall d, closing = Some d -> exists t, timer = Some t /\ t <= d.
Definition timers_ok (d : Driver.t E) : Prop :=
  match Driver.pc d with
  | DSelect timer => in_time timer (Driver.closing_deadline d)
  | DWrite _ timer close_at _ => in_time timer (Driver.closing_deadline d) /\ close_at = Driver.closing_deadline d
  | DWriteTimer _ close_at => close_at = Driver.closing_deadline d
  | _ => True
  end.

Lemma timer_in_time h c : in_time (compio_timer_deadline h c) c.
Proof. intros d ->. unfold compio_timer_deadline. destruct h as [x|]; cbn; eexists; (split; [done|]); lia. Qed.

Lemma finish_pc cause failed s : Driver.pc (driver (finish cause failed s)) = DEnd.
Proof. done. Qed.
Lemma written_pc k r s : Driver.pc (driver (written k r s)) = match r with Ok _ => DTop | Err _ => DEnd end.
Proof. by destruct r. Qed.
Lemma handle_control_pc key r s : match Driver.pc (driver (handle_control config key r s)) with DTop | DWriteTop AfterPong | DCloseResponse _ | DEnd => True | _ => False end.
Proof.
  destruct r; try done. unfold handle_control. destruct (begin_deadline config (stop_heartbeat s)) as [s1 d]. destruct (negb _); [|done]. by destruct (ce_encode_close_response _ _ _).
Qed.
Lemma handle_application_pc key r s s' : handle_application config key r s = Moves s' -> match Driver.pc (driver s') with DTop | DWriteTop _ | DEnd => True | _ => False end.
Proof.
  destruct r as [msg id|id]; unfold handle_application; [|by intros <-%moves_inj]. destruct (negb _); [by intros <-%moves_inj|]. destruct (encode _ _ _ _) as [| |[s2 [u|e]]]; [done..| |]; by intros <-%moves_inj.
Qed.
Lemma interrupt_pc k r s : Driver.pc (driver (interrupt config k r s)) = DWriteTop k \/ Driver.pc (driver (interrupt config k r s)) = DEnd.
Proof. destruct r; by (left + right). Qed.
Lemma beat_pc key nonce s s' : beat config key nonce s = Moves s' -> match Driver.pc (driver s') with DTop | DWriteTop AfterPing | DSleep _ _ | DEnd => True | _ => False end.
Proof.
  unfold beat, timeout_close. destruct (Heartbeat.next_deadline _) as [[t|t|t]|]; [destruct (t <=? _)..|]; try (by intros <-%moves_inj); [..|destruct (Heartbeat.ping_due _ _ _) as [[n h] [p|]]; [|by intros <-%moves_inj]];
    (destruct (encode _ _ _ _) as [| |[s2 [u|e]]]; [done..| |]; by intros <-%moves_inj).
Qed.

Definition untimed (pc : DriverPc) : bool := match pc with DSelect _ | DWrite _ _ _ _ | DWriteTimer _ _ => false | _ => true end.
Lemma timers_untimed (d : Driver.t E) : untimed (Driver.pc d) = true -> timers_ok d.
Proof. unfold timers_ok. by destruct (Driver.pc d). Qed.
Lemma timers_written k r s : timers_ok (driver (written k r s)).
Proof. apply timers_untimed. rewrite written_pc. by destruct r. Qed.
Lemma timers_control key r s : timers_ok (driver (handle_control config key r s)).
Proof. apply timers_untimed. pose proof (handle_control_pc key r s) as Hx. by destruct (Driver.pc (driver (handle_control config key r s))). Qed.

Lemma timers_driver a fired key nonce s s' : timers_ok (driver s) -> driver_step config a fired key nonce s = Moves s' -> timers_ok (driver s').
Proof.
  unfold driver_step. intros Hi. unfold timers_ok in Hi. destruct (Driver.pc (driver s)) as [|timer| | |k|k timer close_at can|k close_at|k|deadline|timeout cause|timer cause|] eqn:Epc; [..|done].
  - destruct (_ =? _); [by intros <-%moves_inj|]. intros <-%moves_inj. unfold timers_ok. cbn. destruct (_ || _); [done|]. apply timer_in_time.
  - unfold poll_select. destruct (cancelled s); [by intros <-%moves_inj|]. destruct (Driver.deferred_control (driver s)) as [r|]; [intros <-%moves_inj; apply timers_control|].
    destruct (Chan.next (control s)) as [c [|[r|]]]; [|intros <-%moves_inj; apply timers_control|by intros <-%moves_inj].
    destruct (Chan.next (application s)) as [c' [|[r|]]]; [destruct (fired && _); [|done]; by intros <-%moves_inj| |by intros <-%moves_inj].
    intros Hx%handle_application_pc. apply timers_untimed. by destruct (Driver.pc (driver s')).
  - destruct (reached _ _); by intros <-%moves_inj.
  - intros Hx%beat_pc. apply timers_untimed. by destruct (Driver.pc (driver s')).
  - intros <-%moves_inj. split; [apply timer_in_time|done].
  - destruct Hi as [Hi1 Hi2]. unfold poll_write. destruct a as [|e|].
    + destruct (all_sent s); [|done]. intros <-%moves_inj. apply timers_written.
    + intros <-%moves_inj. apply timers_written.
    + destruct (cancelled s); [intros <-%moves_inj; apply timers_written|]. destruct (if can then _ else _) as [c [|[r|]]].
      * destruct (fired && _); [|done]. by intros <-%moves_inj.
      * intros <-%moves_inj. apply timers_untimed. by destruct (interrupt_pc k r (set_control c s)) as [-> | ->].
      * intros <-%moves_inj. apply timers_written.
  - destruct (reached _ _); intros <-%moves_inj; [apply timers_written|done].
  - destruct (Heartbeat.next_hard_deadline _) as [[t|t|t]|]; intros <-%moves_inj; try destruct (t <=? _); try apply timers_written; done.
  - by intros <-%moves_inj.
  - by intros <-%moves_inj.
  - destruct a as [|e|]; [destruct (all_sent s); [|done]| |destruct (fired && _); [|done]]; by intros <-%moves_inj.
Qed.

Lemma other_driver l s s' : (forall a f k n, l <> LDriver a f k n) -> step config l s = Moves s' -> driver s' = driver s.
Proof.
  intros Hl. destruct l as [msg| | | | |a fired key nonce|n|x|ns]; cbn [step]; [..|by intros Hx%reader_step_moves; destruct Hx|].
  1,2: unfold send, flush, call; destruct (app s); try done; destruct (negb _); by intros <-%moves_inj.
  - unfold app_poll. destruct (app s) as [|r|r|r|]; repeat case_match; try done; by intros <-%moves_inj.
  - unfold app_abort. by destruct (app s); try done; intros <-%moves_inj.
  - unfold drop_writer. by destruct (app s); try done; intros <-%moves_inj.
  - by destruct (Hl a fired key nonce).
  - unfold kernel. repeat case_match; try done; by intros <-%moves_inj.
  - destruct (0 <=? ns); [|done]. by intros <-%moves_inj.
Qed.

Lemma timers_step l s s' : timers_ok (driver s) -> step config l s = Moves s' -> timers_ok (driver s').
Proof.
  intros Hi Hs. destruct l as [msg| | | | |a fired key nonce|n|x|ns]; [..|]; try (apply other_driver in Hs as ->; done). by eapply timers_driver.
Qed.
Lemma timers_steps ls s s' : timers_ok (driver s) -> steps config ls s = Moves s' -> timers_ok (driver s').
Proof.
  revert s. induction ls as [|l ls IH]; intros s Hi; cbn; [by intros <-%moves_inj|]. destruct (step config l s) as [| |s1] eqn:E1; [done..|]. apply IH. by eapply timers_step.
Qed.

(** ** After the budget *)

(** The closing budget is spent, or that of the Close which is being flushed. *)
Definition overdue s : Prop :=
  match Driver.pc (driver s) with
  | DCloseResponse deadline => deadline <= now s
  | DSleep timeout _ => timeout <= 0
  | DFlush timer _ => timer <= now s
  | DEnd => True
  | _ => reached (Driver.closing_deadline (driver s)) (now s) = true
  end.

(** How many polls the driver has left. *)
Definition polls_left s : nat :=
  let n := length (Chan.queue (control s)) in
  match Driver.pc (driver s) with
  | DEnd => 0
  | DTimer | DWriteTimer _ _ | DFlush _ _ => 1
  | DTop | DSleep _ _ => 2
  | DBeat | DCloseResponse _ => 3
  | DWrite _ _ _ _ => 3 + 2 * n
  | DWriteTop _ => 4 + 2 * n
  | DSelect _ | DWriteBeat _ => 5 + 2 * n
  end.

Lemma reached_some c t : reached c t = true -> exists d, c = Some d /\ d <= t.
Proof. destruct c as [d|]; [|done]. cbn. intros ?%Z.leb_le. by exists d. Qed.

Lemma complete_driver id x s : driver (complete id x s) = driver s /\ now (complete id x s) = now s /\ control (complete id x s) = control s.
Proof. unfold complete. by repeat case_match. Qed.

Definition shorter s s' : Prop := overdue s' /\ (polls_left s' < polls_left s)%nat.

Lemma shorter_end s s' : Driver.pc (driver s') = DEnd -> Driver.pc (driver s) <> DEnd -> shorter s s'.
Proof. intros E1 E2. unfold shorter, overdue, polls_left. rewrite E1. split; [done|]. destruct (Driver.pc (driver s)); (lia || done). Qed.

(** The next place, with the same deadline and no more requests. *)
Lemma shorter_turn s s' d : Driver.closing_deadline (driver s') = Some d -> d <= now s' -> match Driver.pc (driver s') with DCloseResponse _ | DSleep _ _ | DFlush _ _ | DEnd => False | _ => True end ->
  (polls_left s' < polls_left s)%nat -> shorter s s'.
Proof.
  intros Ed Hd Hpc Hlt. split; [|done]. unfold overdue. rewrite Ed. cbn. destruct (Driver.pc (driver s')); try done; by apply Z.leb_le.
Qed.

Lemma sync_same s : Driver.pc (driver (sync_inbound s)) = Driver.pc (driver s) /\ Driver.closing_deadline (driver (sync_inbound s)) = Driver.closing_deadline (driver s) /\ now (sync_inbound s) = now s /\
  control (sync_inbound s) = control s /\ Heartbeat.stopped (Driver.heartbeat (driver (sync_inbound s))) = Heartbeat.stopped (Driver.heartbeat (driver s)).
Proof. unfold sync_inbound. destruct (_ <? _); [|done]. split_and!; try done. apply k_on_inbound_stopped. Qed.

Lemma stopped_deadlines h : Heartbeat.stopped h = true -> Heartbeat.next_deadline h = None /\ Heartbeat.next_hard_deadline h = None.
Proof. unfold Heartbeat.next_deadline, Heartbeat.next_hard_deadline. by intros ->. Qed.

Lemma next_shrinks {A} (c c' : Chan.t A) x : Chan.next c = (c', x) -> (length (Chan.queue c') <= length (Chan.queue c))%nat /\ match x with Ready (Some _) => (length (Chan.queue c') < length (Chan.queue c))%nat | _ => True end.
Proof. unfold Chan.next. destruct (Chan.queue c) as [|y q] eqn:Eq; [destruct (Chan.tx_open c)|]; intros; simplify_eq; rewrite ?Eq; cbn; lia. Qed.

Ltac turn d := eapply (shorter_turn _ _ d); [done|done|done|].

Lemma control_shorter key r s0 s d timer : Driver.pc (driver s0) = DSelect timer -> (length (Chan.queue (control s)) <= length (Chan.queue (control s0)))%nat ->
  Driver.closing_deadline (driver s) = Some d -> d <= now s -> shorter s0 (handle_control config key r s).
Proof.
  intros Hpc Hq Hd Hn. destruct r as [p t|p t| | |]; unfold handle_control.
  - turn d. unfold polls_left. rewrite Hpc. cbn. lia.
  - turn d. unfold polls_left. rewrite Hpc. cbn. lia.
  - unfold begin_deadline. cbn [driver stop_heartbeat on_heartbeat on_driver set_driver Driver.closing_deadline Driver.set_heartbeat]. rewrite Hd. destruct (negb _); [|by apply shorter_end; rewrite ?Hpc].
    destruct (ce_encode_close_response _ _ _) as [e b]. split; [done|]. unfold polls_left. rewrite Hpc. cbn. lia.
  - by apply shorter_end; rewrite ?Hpc.
  - by apply shorter_end; rewrite ?Hpc.
Qed.

Lemma application_shorter key r s0 s s' d timer : Driver.pc (driver s0) = DSelect timer -> control s = control s0 -> Driver.closing_deadline (driver s) = Some d -> d <= now s ->
  handle_application config key r s = Moves s' -> shorter s0 s'.
Proof.
  intros Hpc Hq Hd Hn. destruct r as [msg id|id]; unfold handle_application.
  - destruct (negb _).
    { intros <-%moves_inj. destruct (complete_driver id (Err ConnectionClosed) s) as (E1 & E2 & E3). eapply (shorter_turn _ _ d); cbn; rewrite ?E1, ?E2; try done. unfold polls_left. rewrite Hpc. cbn. lia. }
    set (s1 := if Message.is_close msg then _ else s). assert (Hs1 : Driver.closing_deadline (driver s1) = Some d /\ now s1 = now s /\ control s1 = control s).
    { subst s1. destruct (Message.is_close msg); [|done]. unfold begin_deadline. cbn. by rewrite Hd. }
    destruct Hs1 as (E1 & E2 & E3). destruct (encode _ _ _ _) as [| |[s2 [u|e]]] eqn:Ee; [done..| |]; apply encode_frame_pushed in Ee as (en & b & ->); intros <-%moves_inj.
    + eapply (shorter_turn _ _ d); [done|cbn; by rewrite E2|done|]. unfold polls_left. rewrite Hpc. cbn. rewrite E3, Hq. lia.
    + by apply shorter_end; rewrite ?Hpc.
  - intros <-%moves_inj. turn d. unfold polls_left. rewrite Hpc. cbn. rewrite Hq. lia.
Qed.

Lemma overdue_step a key nonce s s' : inv s -> timers_ok (driver s) -> overdue s -> driver_step config a true key nonce s = Moves s' -> shorter s s'.
Proof.
  intros Hi Ht Ho. unfold timers_ok, overdue in *. pose proof (oo_deadline _ _ _ _ _ _ (i_order _ _ Hi)) as Hstop. unfold driver_step.
  destruct (sync_same s) as (Y1 & Y2 & Y3 & Y4 & Y5).
  assert (Hw : forall k r s1 d, writes_for (Driver.pc (driver s)) = Some k -> match Driver.pc (driver s) with DWriteTimer _ _ => False | _ => True end \/ r <> Ok tt ->
    Driver.closing_deadline (driver s1) = Some d -> d <= now s1 -> shorter s (written k r s1)).
  { intros k r s1 d Hk Hr Hd Hn. destruct r as [[]|e]; [|apply shorter_end; [done|by intros E1; rewrite E1 in Hk]].
    destruct Hr as [Hr|]; [|done]. assert (Hp : (2 < polls_left s)%nat) by (unfold polls_left; destruct (Driver.pc (driver s)); try done; lia).
    unfold written. destruct k as [| |id|id].
    - turn d. cbn. lia.
    - turn d. cbn. lia.
    - destruct (complete_driver id (Ok tt) s1) as (E1 & E2 & E3). eapply (shorter_turn _ _ d); cbn; rewrite ?E1, ?E2; done.
    - destruct (complete_driver id (Ok tt) s1) as (E1 & E2 & E3). eapply (shorter_turn _ _ d); cbn; rewrite ?E1, ?E2; done. }
  destruct (Driver.pc (driver s)) as [|timer| | |k|k timer close_at can|k close_at|k|deadline|timeout cause|timer cause|] eqn:Epc; [..|done].
  - destruct (_ =? _); [intros <-%moves_inj; by apply shorter_end; rewrite ?Epc|]. apply reached_some in Ho as Hd. destruct Hd as (d & Hd & Hn). intros <-%moves_inj. rewrite Y2, Y3, Ho, orb_true_r.
    eapply (shorter_turn _ _ d); [cbn; by rewrite Y2|cbn; by rewrite Y3|done|]. unfold polls_left. rewrite Epc. cbn. lia.
  - apply reached_some in Ho as (d & Hd & Hn). unfold poll_select. destruct (cancelled s); [intros <-%moves_inj; by apply shorter_end; rewrite ?Epc|].
    destruct (Driver.deferred_control (driver s)) as [r|]; [intros <-%moves_inj; by eapply control_shorter|].
    destruct (Chan.next (control s)) as [c [|[r|]]] eqn:En; [|intros <-%moves_inj; eapply control_shorter; try done; cbn; apply next_shrinks in En; lia|intros <-%moves_inj; by apply shorter_end; rewrite ?Epc].
    destruct (Chan.next (application s)) as [c' [|[r|]]]; [|intros Hx; eapply application_shorter; try exact Hx; done|intros <-%moves_inj; by apply shorter_end; rewrite ?Epc].
    destruct (true && _); [|done]. intros <-%moves_inj. turn d. unfold polls_left. rewrite Epc. cbn. lia.
  - rewrite Ho. intros <-%moves_inj. by apply shorter_end; rewrite ?Epc.
  - apply reached_some in Ho as (d & Hd & Hn). unfold beat. destruct (stopped_deadlines _ (Hstop ltac:(by rewrite Hd))) as [-> _]. intros <-%moves_inj. turn d. unfold polls_left. rewrite Epc. cbn. lia.
  - apply reached_some in Ho as (d & Hd & Hn). intros <-%moves_inj. eapply (shorter_turn _ _ d); [cbn; by rewrite Y2|cbn; by rewrite Y3|done|]. unfold polls_left. rewrite Epc. cbn. rewrite Y4. lia.
  - apply reached_some in Ho as (d & Hd & Hn). unfold poll_write. destruct a as [|e|].
    + destruct (all_sent s); [|done]. intros <-%moves_inj. eapply (Hw k _ _ d); try done. by left.
    + intros <-%moves_inj. eapply (Hw k _ _ d); try done. by left.
    + destruct (cancelled s); [intros <-%moves_inj; eapply (Hw k _ _ d); try done; by left|]. destruct (if can then _ else _) as [c [|[r|]]] eqn:En.
      * destruct (true && _); [|done]. intros <-%moves_inj. turn d. unfold polls_left. rewrite Epc. cbn. lia.
      * destruct can; [|done]. apply next_shrinks in En as [_ En]. intros <-%moves_inj.
        assert (Hturn : forall s1, Driver.closing_deadline (driver s1) = Some d -> now s1 = now s -> control s1 = c -> shorter s (to_pc (DWriteTop k) s1)).
        { intros s1 E1 E2 E3. eapply (shorter_turn _ _ d); [done|cbn; by rewrite E2|done|]. unfold polls_left. rewrite Epc. cbn. rewrite E3. lia. }
        destruct r as [p t|p t| | |]; unfold interrupt; try (by apply Hturn); try (apply Hturn; unfold begin_deadline; cbn; by rewrite Hd). by apply shorter_end; rewrite ?Epc.
      * intros <-%moves_inj. eapply (Hw k _ _ d); try done. by left.
  - rewrite Ht, Ho. intros <-%moves_inj. by apply shorter_end; rewrite ?Epc.
  - apply reached_some in Ho as (d & Hd & Hn). destruct (stopped_deadlines _ (Hstop ltac:(by rewrite Hd))) as [_ ->]. intros <-%moves_inj. turn d. unfold polls_left. rewrite Epc. cbn. lia.
  - intros <-%moves_inj. split; [unfold overdue; cbn; lia|]. unfold polls_left. rewrite Epc. cbn. lia.
  - intros <-%moves_inj. split; [unfold overdue; cbn; lia|]. unfold polls_left. rewrite Epc. cbn. lia.
  - destruct a as [|e|]; [destruct (all_sent s); [|done]| |destruct (true && _); [|done]]; intros <-%moves_inj; by apply shorter_end; rewrite ?Epc.
Qed.

(** It is not stuck before its end. *)
Lemma encode_moves key who msg s : exists s' r, encode key who msg s = Moves (s', r).
Proof.
  unfold encode. pose proof (ce_total key (Driver.encoder (driver s)) msg []) as Ht. destruct (ce_encode_message _ _ _ _) as [[e b] [u|er]| |]; [by eexists _, _..|done|done].
Qed.
Lemma application_moves key r s : exists s', handle_application config key r s = Moves s'.
Proof.
  destruct r as [msg id|id]; unfold handle_application; [|by eexists]. destruct (negb _); [by eexists|].
  match goal with |- context [encode ?k ?w ?m ?x] => destruct (encode_moves k w m x) as (s1 & [u|e] & ->) end; by eexists.
Qed.
Lemma timeout_moves key code reason cause s : exists s', timeout_close config key code reason cause s = Moves s'.
Proof. unfold timeout_close. match goal with |- context [encode ?k ?w ?m ?x] => destruct (encode_moves k w m x) as (s1 & [u|e] & ->) end; by eexists. Qed.
Lemma beat_moves key nonce s : exists s', beat config key nonce s = Moves s'.
Proof.
  unfold beat. destruct (Heartbeat.next_deadline _) as [[t|t|t]|]; [destruct (t <=? _)..|]; try (by eexists); try apply timeout_moves.
  destruct (Heartbeat.ping_due _ _ _) as [[n h] [p|]]; [|by eexists]. match goal with |- context [encode ?k ?w ?m ?x] => destruct (encode_moves k w m x) as (s1 & [u|e] & ->) end; by eexists.
Qed.

Lemma overdue_moves key nonce s : timers_ok (driver s) -> overdue s -> Driver.pc (driver s) <> DEnd -> exists s', driver_step config NotReady true key nonce s = Moves s'.
Proof.
  intros Ht Ho. unfold timers_ok, overdue, driver_step in *.
  destruct (Driver.pc (driver s)) as [|timer| | |k|k timer close_at can|k close_at|k|deadline|timeout cause|timer cause|] eqn:Epc; intros Hne; [..|done].
  - destruct (_ =? _); by eexists.
  - apply reached_some in Ho as (d & Hd & Hn). destruct (Ht d Hd) as (t & -> & Hle). unfold poll_select. destruct (cancelled s); [by eexists|]. destruct (Driver.deferred_control (driver s)); [by eexists|].
    destruct (Chan.next (control s)) as [c [|[r|]]]; [|by eexists..]. destruct (Chan.next (application s)) as [c' [|[r|]]]; [|apply application_moves|by eexists].
    replace (reached (Some t) (now s)) with true by (symmetry; apply Z.leb_le; lia). by eexists.
  - rewrite Ho. by eexists.
  - apply beat_moves.
  - by eexists.
  - apply reached_some in Ho as (d & Hd & Hn). destruct Ht as [Ht _]. destruct (Ht d Hd) as (t & -> & Hle). unfold poll_write. destruct (cancelled s); [by eexists|]. destruct (if can then _ else _) as [c [|[r|]]]; [|by eexists..].
    replace (reached (Some t) (now s)) with true by (symmetry; apply Z.leb_le; lia). by eexists.
  - rewrite Ht, Ho. by eexists.
  - destruct (Heartbeat.next_hard_deadline _) as [[t|t|t]|]; by eexists.
  - by eexists.
  - by eexists.
  - replace (timer <=? now s) with true by (symmetry; apply Z.leb_le; lia). by eexists.
Qed.

(** Any run of the driver by itself. *)
Lemma overdue_run ls s s' : inv s -> timers_ok (driver s) -> overdue s -> Forall (fun l => exists a key nonce, l = LDriver a true key nonce) ls -> steps config ls s = Moves s' ->
  (length ls + polls_left s' <= polls_left s)%nat /\ inv s' /\ timers_ok (driver s') /\ overdue s'.
Proof.
  intros Hi Ht Ho Hl. revert s Hi Ht Ho. induction Hl as [|l ls (a & key & nonce & ->) Hl IH]; intros s Hi Ht Ho; cbn; [by intros <-%moves_inj|].
  destruct (driver_step config a true key nonce s) as [| |s1] eqn:E1; [done..|]. intros Hs. destruct (overdue_step a key nonce s s1 Hi Ht Ho E1) as [Ho1 Hlt].
  destruct (IH s1) as [Hx ?]; try done; [by eapply inv_driver|by eapply timers_driver|]. split; [lia|done].
Qed.

(** ** Errors *)

Definition ended s : Prop := Driver.pc (driver s) = DEnd /\ Shared.status (shared s) = SPLIT_CLOSED.
Definition error_of (o : observation) : option Error := match o with Sent _ (Err e) | Flushed (Err e) => Some e | _ => None end.

(** Every error but that of a closed connection is known only when the driver has ended. *)
Record errors_ok s : Prop := {
  eo_reply e : reply s = Some (Err e) -> e = ConnectionClosed \/ ended s;
  eo_log o e : o ∈ log s -> error_of o = Some e -> e = ConnectionClosed \/ ended s;
  eo_terminal c : Shared.terminal (shared s) = Some c -> c = Cause.ConnectionClosed \/ ended s;
  eo_message c : terminal_msg s = Some c -> ended s
}.

Lemma errors_ended s : ended s -> errors_ok s.
Proof. intros He. split; auto. Qed.

(** A step that changes nothing of this, or tells a call that the connection is closed. *)
Record calm s s' : Prop := {
  cm_reply : reply s' = reply s \/ reply s' = None \/ reply s' = Some (Ok tt) \/ reply s' = Some (Err ConnectionClosed);
  cm_log : log s' = log s;
  cm_terminal : Shared.terminal (shared s') = Shared.terminal (shared s);
  cm_message : terminal_msg s' = terminal_msg s
}.
Lemma errors_calm s s' : errors_ok s -> (ended s -> ended s') -> calm s s' -> errors_ok s'.
Proof.
  intros [E1 E2 E3 E4] He [C1 C2 C3 C4]. split; rewrite ?C2, ?C3, ?C4.
  - intros e Hr. destruct C1 as [C1|[C1|[C1|C1]]]; rewrite C1 in Hr; simplify_eq; [|by left]. destruct (E1 _ Hr); auto.
  - intros o e Hin Ho. destruct (E2 o e Hin Ho); auto.
  - intros c Hc. destruct (E3 c Hc); auto.
  - intros c Hc. eauto.
Qed.

Lemma finish_ended cause failed s : ended (finish cause failed s).
Proof. split; [done|]. unfold finish. destruct failed as [[id e]|]; [|apply terminate_status]. unfold complete. cbn. repeat case_match; apply terminate_status. Qed.

Lemma calm_refl s : calm s s.
Proof. split; auto. Qed.
Lemma calm_trans s s' s'' : calm s s' -> calm s' s'' -> calm s s''.
Proof. intros [A1 A2 A3 A4] [B1 B2 B3 B4]. split; try congruence. destruct B1 as [-> |[?|[?|?]]]; auto. Qed.
Lemma calm_complete id x s : x = Ok tt \/ x = Err ConnectionClosed -> calm s (complete id x s).
Proof. intros Hx. unfold complete. repeat case_match; split; try done; cbn; auto; by destruct Hx as [-> | ->]; auto. Qed.
Lemma calm_sync s : calm s (sync_inbound s).
Proof. unfold sync_inbound. destruct (_ <? _); split; auto. Qed.
Lemma calm_deadline s : calm s (fst (begin_deadline config s)).
Proof. unfold begin_deadline. destruct (Driver.closing_deadline (driver s)); split; cbn; auto. Qed.
Lemma calm_closing s : calm s (on_shared Shared.begin_closing s).
Proof. split; auto. cbn. unfold Shared.begin_closing. by destruct (Shared.is_open _). Qed.
Lemma calm_encode key who msg s s' x : encode key who msg s = Moves (s', x) -> calm s s'.
Proof. intros (e & b & ->)%encode_frame_pushed. destruct x; split; cbn; auto. Qed.
(** Fields that do not matter. *)
Lemma calm_same s s1 s2 : calm s s1 -> reply s2 = reply s1 -> log s2 = log s1 -> shared s2 = shared s1 -> terminal_msg s2 = terminal_msg s1 -> calm s s2.
Proof. intros Hc E1 E2 E3 E4. eapply calm_trans; [exact Hc|]. split; rewrite ?E3; auto. Qed.

Definition ends_or_calm s s' : Prop := ended s' \/ calm s s'.
Lemma calm_finish cause failed s s1 : ends_or_calm s (finish cause failed s1).
Proof. left. apply finish_ended. Qed.

Lemma calm_control key r s0 s : calm s0 s -> ends_or_calm s0 (handle_control config key r s).
Proof.
  intros Hc. destruct r as [p t|p t| | |]; unfold handle_control; try apply calm_finish; [right; by eapply calm_same..|].
  pose proof (calm_deadline (stop_heartbeat s)) as Hd. destruct (begin_deadline config (stop_heartbeat s)) as [s1 d]. cbn in Hd.
  destruct (negb _); [|apply calm_finish]. destruct (ce_encode_close_response _ _ _) as [e b]. right. apply (calm_same _ s1); [|done..]. eapply calm_trans; [|exact Hd]. by eapply calm_same.
Qed.
Lemma calm_application key r s0 s s' : calm s0 s -> handle_application config key r s = Moves s' -> ends_or_calm s0 s'.
Proof.
  intros Hc. destruct r as [msg id|id]; unfold handle_application; [|intros <-%moves_inj; right; by eapply calm_same]. destruct (negb _).
  { intros <-%moves_inj. right. eapply calm_same; [eapply calm_trans; [exact Hc|apply (calm_complete id (Err ConnectionClosed)); by right]|done..]. }
  set (s1 := if Message.is_close msg then _ else s). assert (H1' : calm s0 s1).
  { subst s1. destruct (Message.is_close msg); [|done]. eapply calm_trans; [|apply calm_deadline]. eapply (calm_same _ (on_shared Shared.begin_closing s)); [|done..]. eapply calm_trans; [exact Hc|apply calm_closing]. }
  destruct (encode _ _ _ _) as [| |[s2 [u|e]]] eqn:Ee; [done..| |]; intros <-%moves_inj; [|apply calm_finish]. right. apply calm_encode in Ee. eapply calm_same; [eapply calm_trans; [exact H1'|exact Ee]|done..].
Qed.
Lemma calm_written k r s0 s : calm s0 s -> ends_or_calm s0 (written k r s).
Proof.
  intros Hc. unfold written. destruct r as [[]|e]; [|apply calm_finish]. right. destruct k as [| |id|id]; try (by eapply calm_same);
    (eapply calm_same; [eapply calm_trans; [exact Hc|apply (calm_complete id (Ok tt)); by left]|done..]).
Qed.
Lemma calm_interrupt k r s0 s : calm s0 s -> ends_or_calm s0 (interrupt config k r s).
Proof.
  intros Hc. destruct r as [p t|p t| | |]; unfold interrupt; [right; by eapply calm_same..| | |by apply calm_written];
    (right; apply (calm_same _ (fst (begin_deadline config (stop_heartbeat s)))); [|done..]; eapply calm_trans; [|apply calm_deadline]; by eapply calm_same).
Qed.
Lemma calm_timeout key code reason cause s s' : timeout_close config key code reason cause s = Moves s' -> ends_or_calm s s'.
Proof.
  unfold timeout_close. destruct (encode _ _ _ _) as [| |[s1 [u|e]]] eqn:Ee; [done..| |]; intros <-%moves_inj; [|apply calm_finish]. right. apply calm_encode in Ee. by eapply calm_same.
Qed.

Lemma calm_driver a fired key nonce s s' : driver_step config a fired key nonce s = Moves s' -> ends_or_calm s s'.
Proof.
  assert (Hpc : forall s1 pc, calm s s1 -> ends_or_calm s (to_pc pc s1)) by (intros s1 pc Hc; right; by eapply calm_same). pose proof (calm_refl s) as Hrefl.
  unfold driver_step. destruct (Driver.pc (driver s)) as [|timer| | |k|k timer close_at can|k close_at|k|deadline|timeout cause|timer cause|]; [..|done].
  - destruct (_ =? _); intros <-%moves_inj; [apply calm_finish|apply Hpc, calm_sync].
  - unfold poll_select. destruct (cancelled s); [intros <-%moves_inj; apply calm_finish|]. destruct (Driver.deferred_control (driver s)) as [r|]; [intros <-%moves_inj; apply calm_control; by eapply calm_same|].
    destruct (Chan.next (control s)) as [c [|[r|]]]; [|intros <-%moves_inj; apply calm_control; by eapply calm_same|intros <-%moves_inj; apply calm_finish].
    destruct (Chan.next (application s)) as [c' [|[r|]]]; [destruct (fired && _); [|done]; intros <-%moves_inj; by apply Hpc| |intros <-%moves_inj; apply calm_finish].
    apply calm_application. by eapply calm_same.
  - destruct (reached _ _); intros <-%moves_inj; [apply calm_finish|apply Hpc, calm_sync].
  - unfold beat. destruct (Heartbeat.next_deadline _) as [[t|t|t]|]; [destruct (t <=? _)..|]; try (by apply calm_timeout); try (intros <-%moves_inj; by apply Hpc).
    destruct (Heartbeat.ping_due _ _ _) as [[n h] [payload|]]; [|intros <-%moves_inj; apply Hpc; by eapply calm_same].
    destruct (encode _ _ _ _) as [| |[s1 [u|e]]] eqn:Ee; [done..| |]; intros <-%moves_inj; [|apply calm_finish]. apply Hpc. apply calm_encode in Ee. eapply calm_trans; [|exact Ee]. by eapply calm_same.
  - intros <-%moves_inj. apply Hpc. by apply (calm_same _ (sync_inbound s)); [apply calm_sync|..].
  - unfold poll_write. destruct a as [|e|].
    + destruct (all_sent s); [|done]. intros <-%moves_inj. apply calm_written. by eapply calm_same.
    + intros <-%moves_inj. apply calm_finish.
    + destruct (cancelled s); [intros <-%moves_inj; apply calm_finish|]. destruct (if can then _ else _) as [c [|[r|]]].
      * destruct (fired && _); [|done]. intros <-%moves_inj. by apply Hpc.
      * intros <-%moves_inj. apply calm_interrupt. by eapply calm_same.
      * intros <-%moves_inj. apply calm_finish.
  - destruct (reached _ _); intros <-%moves_inj; [apply calm_finish|apply Hpc, calm_sync].
  - destruct (Heartbeat.next_hard_deadline _) as [[t|t|t]|]; intros <-%moves_inj; try destruct (t <=? _); try apply calm_finish; by apply Hpc.
  - intros <-%moves_inj. by apply Hpc.
  - intros <-%moves_inj. apply Hpc. by eapply calm_same.
  - destruct a as [|e|]; [destruct (all_sent s); [|done]| |destruct (fired && _); [|done]]; intros <-%moves_inj; apply calm_finish.
Qed.

Lemma ended_step l s s' : inv s -> ended s -> step config l s = Moves s' -> ended s'.
Proof.
  intros Hi [Hpc Hst] Hs. pose proof (oo_status _ _ _ _ _ _ (i_order _ _ Hi)) as Hr.
  assert (Hsame : driver s' = driver s -> Shared.status (shared s') = SPLIT_CLOSED -> ended s') by (intros E1 E2; split; [by rewrite E1|done]).
  destruct l as [msg| | | | |a fired key nonce|n|x|ns]; cbn [step] in Hs.
  6: unfold driver_step in Hs; by rewrite Hpc in Hs.
  7: { apply reader_step_moves in Hs as [_ E1 _ _ _ _ _ _ E2]. specialize (E2 Hr). apply Hsame; [done|]. unfold SPLIT_CLOSED in *. lia. }
  all: unfold send, flush, call, app_poll, app_abort, drop_writer, kernel in Hs; repeat (case_match; try done); apply moves_inj in Hs; subst s'; by apply Hsame.
Qed.

(** What a step of the reader does to the shared state. *)
Inductive shared_move s : Shared.t -> Prop :=
  | sm_same : shared_move s (shared s)
  | sm_note n : shared_move s (Shared.note_inbound n (shared s))
  | sm_closing : shared_move s (Shared.begin_closing (shared s))
  | sm_end c : c = Cause.ConnectionClosed \/ terminal_ready s = Some c -> shared_move s (Shared.terminate c (shared s)).
Lemma reader_shared l s s' : reader_step l s = Moves s' -> shared_move s (shared s').
Proof.
  unfold reader_step, reader_top, parse, take_message. intros Hs. destruct l as [| |x| |], (Reader.pc (reader s)); try done; repeat (case_match; try discriminate Hs); apply moves_inj in Hs; subst s';
    cbn; first [exact (sm_same s)|exact (sm_note s _)|exact (sm_closing s)|exact (sm_end s _ (or_introl eq_refl))|refine (sm_end s _ (or_intror _)); assumption].
Qed.

Lemma errors_reader l s s' : inv s -> errors_ok s -> reader_step l s = Moves s' -> errors_ok s'.
Proof.
  intros Hi He Hs. assert (Hend : ended s -> ended s') by (intros Hx; by eapply (ended_step (LReader l))).
  assert (Hlog : forall o e, o ∈ log s' -> error_of o = Some e -> o ∈ log s).
  { assert (Hret : forall i s1 o e, log s1 = log s -> o ∈ log (reader_return i s1) -> error_of o = Some e -> o ∈ log s).
    { intros i s1 o e E1. cbn. rewrite E1. intros [Hin|Hin]%elem_of_app; [done|]. apply list_elem_of_singleton in Hin as ->. done. }
    unfold reader_step, reader_top, parse, take_message in Hs. destruct l as [| |x| |], (Reader.pc (reader s)); try done; repeat (case_match; try discriminate Hs); apply moves_inj in Hs; subst s'; intros ? ?;
      try (by eapply Hret); done. }
  assert (Hterm : forall c, Shared.terminal (shared s') = Some c -> c = Cause.ConnectionClosed \/ ended s \/ Shared.terminal (shared s) = Some c).
  { intros k. destruct (reader_shared l s s' Hs) as [|n| |c Hc]; [auto|rewrite note_inbound_terminal; auto|unfold Shared.begin_closing; destruct (Shared.is_open _); auto|].
    unfold Shared.terminate. destruct (negb _); cbn; [intros [= ->]|auto]. destruct Hc as [-> |Hc]; [auto|]. unfold terminal_ready in Hc.
    destruct (terminal_msg s) as [c'|] eqn:Em; [injection Hc as ->; right; left; by eapply eo_message|]. destruct (is_end _); [injection Hc as <-; auto|done]. }
  assert (Hother : reply s' = reply s /\ (terminal_msg s' = terminal_msg s \/ terminal_msg s' = None)).
  { unfold reader_step, reader_top, parse, take_message in Hs. destruct l as [| |x| |], (Reader.pc (reader s)); try done; repeat (case_match; try discriminate Hs); apply moves_inj in Hs; subst s'; cbn; auto. }
  destruct He as [E1 E2 E3 E4], Hother as [E5 E6]. split.
  - intros e. rewrite E5. intros Hr. destruct (E1 e Hr); auto.
  - intros o e Hin Ho. destruct (E2 o e (Hlog o e Hin Ho) Ho); auto.
  - intros c Hc. destruct (Hterm c Hc) as [|[|Hx]]; auto. destruct (E3 c Hx); auto.
  - intros c Hc. destruct E6 as [E6|E6]; rewrite E6 in Hc; [eauto|done].
Qed.

Lemma errors_return s r x : errors_ok s -> (forall e, x = Err e -> e = ConnectionClosed \/ ended s) -> errors_ok (app_return r x s).
Proof.
  intros [E1 E2 E3 E4] Hx. split; try done. intros o e. cbn. intros [Hin|Hin]%elem_of_app; [by apply E2|]. apply list_elem_of_singleton in Hin as ->. destruct r; cbn; destruct x as [|er]; try done; intros [= ->]; by apply Hx.
Qed.
Lemma current_error_ok s e : errors_ok s -> current_error s = e -> e = ConnectionClosed \/ ended s.
Proof. intros [_ _ E3 _] <-. unfold current_error. destruct (Shared.terminal (shared s)) as [c|] eqn:Et; [|by left]. destruct (E3 c eq_refl) as [-> |]; [by left|by right]. Qed.

Lemma errors_step l s s' : inv s -> errors_ok s -> step config l s = Moves s' -> errors_ok s'.
Proof.
  intros Hi He Hs. assert (Hend : ended s -> ended s') by (intros Hx; by eapply ended_step).
  assert (Hcalm : calm s s' -> errors_ok s') by (intros Hc; by eapply errors_calm).
  assert (Hcur : forall r, errors_ok (app_return r (Err (current_error s)) s)) by (intros r; apply errors_return; [done|]; intros e [= <-]; by apply current_error_ok).
  assert (Hcall : forall r, call r s = Moves s' -> errors_ok s').
  { intros r. unfold call. destruct (app s); try done. destruct (negb _); intros Hx; apply moves_inj in Hx; [|apply Hcalm; subst s'; split; cbn; auto].
    pose proof (Hcur (r 0%nat)) as [C1 C2 C3 C4]. subst s'. destruct He as [E1 E2 E3 E4]. by split. }
  destruct l as [msg| | | | |a fired key nonce|n|x|ns]; cbn [step] in Hs.
  - by eapply Hcall.
  - by eapply Hcall.
  - unfold app_poll in Hs. destruct (app s) as [|r|r|r|]; try done; repeat (case_match; try discriminate Hs); apply moves_inj in Hs; subst s'; try apply Hcur; try (by (apply Hcalm; split; cbn; auto)).
    apply errors_return; [done|]. intros e ->. by apply (eo_reply _ He).
  - unfold app_abort in Hs. destruct (app s); try done; apply moves_inj in Hs; subst s'; apply Hcalm; split; cbn; auto.
  - unfold drop_writer in Hs. destruct (app s); try done. apply moves_inj in Hs; subst s'. apply Hcalm; split; cbn; auto.
  - apply calm_driver in Hs as [Hx|Hx]; [by apply errors_ended|by apply Hcalm].
  - unfold kernel in Hs. repeat (case_match; try discriminate Hs). apply moves_inj in Hs; subst s'. apply Hcalm; split; cbn; auto.
  - by eapply errors_reader.
  - destruct (0 <=? ns); [|done]. apply moves_inj in Hs; subst s'. apply Hcalm; split; cbn; auto.
Qed.
Lemma errors_steps ls s s' : inv s -> errors_ok s -> steps config ls s = Moves s' -> errors_ok s'.
Proof.
  revert s. induction ls as [|l ls IH]; intros s Hi He; cbn; [by intros <-%moves_inj|]. destruct (step config l s) as [| |s1] eqn:E1; [done..|]. apply IH; [by eapply k_inv_step|by eapply errors_step].
Qed.
End System.
