(* ===== verification/CompioSplitTheorems.v ===== *)
(** * What a split stream on compio promises

    For every interleaving of the two handles, the driver and the kernel, everything the transport and the clock do, and every call that is dropped. *)

From stdpp Require Import base list option strings.
From S2P Require Import Prelude Error Mask Utf8 Frame FrameSpec Protocol ReceiveSpec ProtocolSpec ProtocolProps NextSpec.
From S2P Require Import Heartbeat Cork Output Stream Deflate Compressed CompressedSpec Config WebSocket Scripted StreamSpec Split SplitReader SplitSpec SplitReaderSpec SplitOrder SplitPeer SplitReceive.
From S2P Require Import Compio CompioSpec CompioSplit CompioSplitSpec CompioSplitReader CompioSplitEnd.
Import CompioSplit.

(** ** Frames and their messages *)

Section Framed.
Context {P : Type} `{CompioReading P} (config : Config.t) (r : Role).
Abbreviation State := (State Protocol.t P).
Implicit Types s : State.

(** A frame of its message, with some masking key. *)
Definition frame_of (w : Written) : Prop := exists key, key_fine key /\ w_frame w = encode_all [msg_frame r (key, w_message w)].
Definition framed s : Prop := Protocol.role (Driver.encoder (driver s)) = r /\ Forall frame_of (wire s).
(** The masking keys that are drawn have four bytes. *)
Definition keyed (l : label) : Prop := match l with LDriver _ _ key _ => key_fine key | _ => True end.

Lemma framed_same s s' : framed s -> Driver.encoder (driver s') = Driver.encoder (driver s) -> wire s' = wire s -> framed s'.
Proof. intros [Hr Hw] E1 E2. split; [by rewrite E1|by rewrite E2]. Qed.
Lemma k_framed_push s s' w : framed s -> Protocol.role (Driver.encoder (driver s')) = r -> wire s' = wire s ++ [w] -> frame_of w -> framed s'.
Proof. intros [_ Hw] Hr E1 Hf. split; [done|]. rewrite E1. apply Forall_app. by split; [|constructor]. Qed.

Lemma framed_complete id x s : framed s -> framed (complete id x s).
Proof. intros Hf. destruct (complete_same id x s) as (E1 & _ & E3 & _). eapply framed_same; [exact Hf|by rewrite E3|done]. Qed.
Lemma framed_finish cause failed s : framed s -> framed (finish cause failed s).
Proof.
  intros Hf. unfold finish. set (s1 := set_terminal_msg _ _). assert (H1 : framed s1) by (by eapply framed_same). eapply (framed_same (match failed with Some (id, e) => complete id (Err e) s1 | None => s1 end)); [|done..].
  destruct failed as [[id e]|]; [by apply framed_complete|done].
Qed.
Lemma framed_sync s : framed s -> framed (sync_inbound s).
Proof. intros Hf. unfold sync_inbound. destruct (_ <? _); [by eapply framed_same|done]. Qed.
Lemma framed_deadline s : framed s -> framed (fst (begin_deadline config s)).
Proof. intros Hf. unfold begin_deadline. destruct (Driver.closing_deadline (driver s)); [done|by eapply framed_same]. Qed.
Lemma framed_encode key who msg s s' x : key_fine key -> framed s -> encode key who msg s = Moves (s', x) -> framed s'.
Proof.
  intros Hk Hf. unfold encode. cbn. unfold Protocol.encode_message. pose proof (encode_message_frame key (Driver.encoder (driver s)) msg []) as [E1 E2]. rewrite (proj1 Hf) in E1, E2.
  destruct (Protocol.encode_message_into key (Driver.encoder (driver s)) msg []) as [p b]. cbn in *. intros [= <- _].
  eapply k_framed_push; [exact Hf|done|done|]. exists key. by split.
Qed.
Lemma framed_written k x s : framed s -> framed (written k x s).
Proof.
  intros Hf. unfold written. destruct x; [|by apply framed_finish]. destruct k as [| |id|id]; try (by eapply framed_same); eapply framed_same; try (by apply (framed_complete id (Ok tt))); done.
Qed.
Lemma framed_control key q s : key_fine key -> framed s -> framed (handle_control config key q s).
Proof.
  intros Hk Hf. destruct q as [p t|p t| | |]; unfold handle_control; try (by apply framed_finish; eapply framed_same).
  - by eapply framed_same.
  - eapply k_framed_push; [exact Hf|apply Hf|done|]. exists key. split; [done|]. cbn. by rewrite <- (proj1 Hf).
  - assert (Hd : framed (fst (begin_deadline config (stop_heartbeat s)))) by (apply framed_deadline; by eapply framed_same). destruct (begin_deadline config (stop_heartbeat s)) as [s1 d]. cbn in Hd.
    destruct (negb _); [|by apply framed_finish]. cbn. destruct (Protocol.encode_close_response key (Driver.encoder (driver s1)) []) as [p b] eqn:Ep.
    unfold Protocol.encode_close_response in Ep. injection Ep as <- <-. eapply k_framed_push; [exact Hd|cbn; case_bool_decide; apply Hd|done|]. exists key. split; [done|]. cbn. by rewrite <- (proj1 Hd).
Qed.
Lemma framed_application key q s s' : key_fine key -> framed s -> handle_application config key q s = Moves s' -> framed s'.
Proof.
  intros Hk Hf. destruct q as [msg id|id]; unfold handle_application; [|intros <-%moves_inj; by eapply framed_same].
  destruct (negb _); [intros <-%moves_inj; eapply framed_same; [by apply (framed_complete id (Err ConnectionClosed))|done..]|].
  set (s1 := if Message.is_close msg then _ else s). assert (H1 : framed s1) by (subst s1; destruct (Message.is_close msg); [apply framed_deadline; by eapply framed_same|done]).
  destruct (encode _ _ _ _) as [| |[s2 [u|e]]] eqn:Ee; [done..| |]; apply framed_encode in Ee; try done; intros <-%moves_inj; [by eapply framed_same|by apply framed_finish].
Qed.
Lemma framed_interrupt k q s : framed s -> framed (interrupt config k q s).
Proof.
  intros Hf. assert (Hd : framed (fst (begin_deadline config (stop_heartbeat s)))) by (apply framed_deadline; by eapply framed_same).
  destruct q as [p t|p t| | |]; unfold interrupt; try (by eapply (framed_same s)); try (by eapply (framed_same (fst (begin_deadline config (stop_heartbeat s))))). by apply framed_written.
Qed.
Lemma framed_beat key nonce s s' : key_fine key -> framed s -> beat config key nonce s = Moves s' -> framed s'.
Proof.
  intros Hk Hf. assert (Htop : framed (to_pc DTop s)) by (by eapply framed_same). unfold beat, timeout_close. destruct (Heartbeat.next_deadline _) as [[t|t|t]|]; [destruct (t <=? _)..|]; try (by intros <-%moves_inj).
  3: destruct (Heartbeat.ping_due _ _ _) as [[n h] [payload|]]; [|intros <-%moves_inj; by eapply framed_same].
  all: destruct (encode _ _ _ _) as [| |[s2 [u|e]]] eqn:Ee; [done..| |]; apply framed_encode in Ee; try done; try (by eapply (framed_same s)); intros <-%moves_inj; [by eapply framed_same|by apply framed_finish].
Qed.

Lemma framed_driver a fired key nonce s s' : key_fine key -> framed s -> driver_step config a fired key nonce s = Moves s' -> framed s'.
Proof.
  intros Hk Hf. assert (Hsame : forall s1, Driver.encoder (driver s1) = Driver.encoder (driver s) -> wire s1 = wire s -> framed s1) by (intros; by eapply framed_same). pose proof (framed_sync s Hf) as Hsync.
  unfold driver_step. destruct (Driver.pc (driver s)) as [|timer| | |k|k timer close_at can|k close_at|k|deadline|timeout cause|timer cause|]; [..|done].
  - destruct (_ =? _); intros <-%moves_inj; [by apply framed_finish|by eapply (framed_same (sync_inbound s))].
  - unfold poll_select. destruct (cancelled s); [intros <-%moves_inj; by apply framed_finish|]. destruct (Driver.deferred_control (driver s)) as [q|]; [intros <-%moves_inj; apply framed_control; [done|by apply Hsame]|].
    destruct (Chan.next (control s)) as [c [|[q|]]]; [|intros <-%moves_inj; apply framed_control; [done|by apply Hsame]|intros <-%moves_inj; by apply framed_finish].
    destruct (Chan.next (application s)) as [c' [|[q|]]]; [destruct (fired && _); [|done]; intros <-%moves_inj; by apply Hsame| |intros <-%moves_inj; by apply framed_finish].
    apply framed_application; [done|by apply Hsame].
  - destruct (reached _ _); intros <-%moves_inj; [by apply framed_finish|by eapply (framed_same (sync_inbound s))].
  - by apply framed_beat.
  - intros <-%moves_inj. by eapply (framed_same (sync_inbound s)).
  - unfold poll_write. destruct a as [|e|].
    + destruct (all_sent s); [|done]. intros <-%moves_inj. apply framed_written. by apply Hsame.
    + intros <-%moves_inj. apply framed_finish. by apply Hsame.
    + destruct (cancelled s); [intros <-%moves_inj; by apply framed_finish|]. destruct (if can then _ else _) as [c [|[q|]]].
      * destruct (fired && _); [|done]. intros <-%moves_inj. by apply Hsame.
      * intros <-%moves_inj. apply framed_interrupt. by apply Hsame.
      * intros <-%moves_inj. by apply framed_finish.
  - destruct (reached _ _); intros <-%moves_inj; [by apply framed_finish|by eapply (framed_same (sync_inbound s))].
  - destruct (Heartbeat.next_hard_deadline _) as [[t|t|t]|]; intros <-%moves_inj; try destruct (t <=? _); try (by apply framed_finish); by apply Hsame.
  - intros <-%moves_inj. by apply Hsame.
  - intros <-%moves_inj. by apply Hsame.
  - destruct a as [|e|]; [destruct (all_sent s); [|done]| |destruct (fired && _); [|done]]; intros <-%moves_inj; apply framed_finish; by apply Hsame.
Qed.

Lemma k_framed_step l s s' : keyed l -> framed s -> step config l s = Moves s' -> framed s'.
Proof.
  intros Hk Hf Hs. destruct l as [msg| | | | |a fired key nonce|n|x|ns]; cbn [step] in Hs.
  6: by eapply framed_driver.
  6: { unfold kernel in Hs. destruct (in_kernel s); [|done]. destruct (last (wire s)) as [w|] eqn:El; [|done]. destruct (Nat.leb _ _); [|done]. apply moves_inj in Hs; subst s'. destruct Hf as [Hr Hw]. split; [done|]. cbn.
       destruct (wire s) as [|y ws _] using rev_ind; [done|]. rewrite last_snoc in El. injection El as ->. rewrite removelast_last. apply Forall_app in Hw as [Hw1 Hw2%Forall_inv]. apply Forall_app. split; [done|]. by constructor. }
  6: { apply reader_step_moves in Hs as [E1 E2 _ _ _ _ _ _ _]. eapply framed_same; [exact Hf|by rewrite E2|done]. }
  all: unfold send, flush, call, app_poll, app_abort, drop_writer in Hs; repeat (case_match; try done); apply moves_inj in Hs; subst s'; by eapply framed_same.
Qed.
Lemma k_framed_steps ls s s' : Forall keyed ls -> framed s -> steps config ls s = Moves s' -> framed s'.
Proof.
  intros Hl. revert s. induction Hl as [|l ls Hk Hl IH]; intros s Hf; cbn; [by intros <-%moves_inj|]. destruct (step config l s) as [| |s1] eqn:E1; [done..|]. apply IH. by eapply k_framed_step.
Qed.
End Framed.

(** The bytes the transport has taken. *)
Definition wire_bytes (ws : list Written) : bytes := concat (map (fun w => take (w_sent w) (w_frame w)) ws).
Definition unfinished (w : Written) : Prop := (w_sent w < length (w_frame w))%nat.

Lemma wire_whole ws : Forall whole ws -> wire_bytes ws = concat (map w_frame ws).
Proof. unfold wire_bytes, whole. induction 1 as [|w ws Hw _ IH]; [done|]. cbn. by rewrite IH, Hw, firstn_all. Qed.

(** Whole frames, and then at most a part of one. *)
Lemma wire_shape pc ws : wire_ok pc ws -> exists done rest, ws = done ++ rest /\ Forall whole done /\ Forall unfinished rest /\ (length rest <= 1)%nat /\
  wire_bytes ws = concat (map w_frame done) ++ concat (map (fun w => take (w_sent w) (w_frame w)) rest).
Proof.
  intros (Hi & Hw & _). destruct ws as [|w ws _] using rev_ind; [by exists [], []; split_and!; try constructor|]. rewrite removelast_last in Hw. apply Forall_app in Hi as [_ Hi%Forall_inv]. unfold within in Hi.
  assert (Hb : wire_bytes (ws ++ [w]) = concat (map w_frame ws) ++ take (w_sent w) (w_frame w)) by (unfold wire_bytes at 1; rewrite map_app, concat_app; cbn; rewrite app_nil_r; by rewrite <- wire_whole).
  destruct (decide (whole w)) as [Hd|Hd].
  - exists (ws ++ [w]), []. split_and!; [by rewrite app_nil_r|apply Forall_app; by split; [|constructor]|done|cbn; lia|]. rewrite app_nil_r. apply wire_whole, Forall_app. by split; [|constructor].
  - exists ws, [w]. split_and!; [done|done|constructor; [unfold unfinished, whole in *; lia|done]|cbn; lia|]. by rewrite Hb; cbn; rewrite app_nil_r.
Qed.

Lemma framed_keys mf mm r ws : Forall (frame_of r) ws -> Forall (msg_ok mf mm) (messages ws) ->
  exists kms, map snd kms = map w_message ws /\ encode_all (map (msg_frame r) kms) = concat (map w_frame ws) /\ Forall (fun km => key_fine (fst km) /\ msg_ok mf mm (snd km)) kms.
Proof.
  intros Hf. induction Hf as [|w ws (key & Hk & Hw) Hf IH]; intros Hm; [by exists []|]. cbn in Hm. apply Forall_cons in Hm as [Hm1 Hm2]. destruct (IH Hm2) as (kms & E1 & E2 & Hall).
  exists ((key, w_message w) :: kms). split_and!; [by cbn; rewrite E1| |by constructor]. cbn [map concat]. by rewrite encode_all_cons, E2, Hw.
Qed.

(** Frames on the wire, received by the other endpoint. *)
Lemma wire_received {SU : Simdutf8} {SUok : Simdutf8Spec} arch slice_addr mf mm r pc ws chunks : arch_ok arch -> 0 <= mf -> wire_ok pc ws -> Forall (frame_of r) ws -> Forall (msg_ok mf mm) (messages ws) ->
  concat chunks = wire_bytes ws -> exists done rest p buf a, ws = done ++ rest /\ Forall whole done /\ Forall unfinished rest /\ (length rest <= 1)%nat /\
    process_reads arch slice_addr (Protocol.new (peer r) mf mm) chunks = Done (p, buf, map w_message done, a) (Ok tt).
Proof.
  intros Harch Hmf Hw Hf Hm Hc. destruct (wire_shape pc ws Hw) as (done & rest & Ews & Hd & Hu & Hl & Hb). rewrite Hb in Hc. subst ws. unfold messages in Hm. rewrite map_app in Hm.
  apply Forall_app in Hf as [Hf1 Hf2], Hm as [Hm1 Hm2]. destruct (framed_keys mf mm r done Hf1 Hm1) as (kms & E1 & E2 & Hk). rewrite <- E2 in Hc. exists done, rest. rewrite <- E1. destruct rest as [|w rest].
  - destruct (process_reads_cut mf mm r arch slice_addr ([0; 0; 0; 0], Message.Ping []) kms [] (encode_all [msg_frame r ([0; 0; 0; 0], Message.Ping [])]) chunks) as (p & buf & a & E3); try done; [|by exists p, buf, a].
    split; [by split; [|repeat constructor]|]. cbn. rewrite len_nil. split_and!; [constructor|lia|lia].
  - destruct rest; [|cbn in Hl; lia]. cbn in Hc. rewrite app_nil_r in Hc. apply Forall_inv in Hf2 as (key & Hkey & Ef), Hm2, Hu as Hun.
    destruct (process_reads_cut mf mm r arch slice_addr (key, w_message w) kms (take (w_sent w) (w_frame w)) (drop (w_sent w) (w_frame w)) chunks) as (p & buf & a & E3); try done; [by rewrite take_drop| |].
    + intros Hx. apply (f_equal length) in Hx. rewrite length_drop in Hx. unfold unfinished in Hun. cbn in Hx. lia.
    + by exists p, buf, a.
Qed.

Lemma delivered_messages ws rest : Forall unfinished rest -> map snd (delivered (ws ++ rest)) `sublist_of` map w_message ws.
Proof.
  intros Hu. assert (Hr : delivered rest = []).
  { unfold delivered. replace (List.filter is_whole rest) with (@nil Written); [done|]. induction Hu as [|w rest Hw _ IH]; [done|]. cbn. replace (is_whole w) with false; [done|]. symmetry. apply Nat.eqb_neq. unfold unfinished in Hw. lia. }
  assert (Ha : delivered (ws ++ rest) = delivered ws) by (unfold delivered, for_app in *; by rewrite List.filter_app, omap_app, Hr, app_nil_r). rewrite Ha. clear. unfold delivered, for_app, numbered_frame.
  induction ws as [|w ws IH]; [done|]. cbn. destruct (is_whole w); cbn; [|by apply sublist_cons]. destruct (w_for w); cbn; [by apply sublist_skip|by apply sublist_cons].
Qed.

(** ** The theorems *)

Section Any.
Context {E P : Type} `{CompioSplitEncoder E} `{CompioReading P}.
Context (config : Config.t) (st : CompioStream.StreamState.t) (tracks : bool) (rp : P) (buf : bytes) (ms : list Message.t) (err : option Error) (wp : E).
Abbreviation start := (split_state config st tracks rp buf ms err wp).

(** [C19] After a Close frame, of whichever task, the driver of a split compio stream writes Pongs only: no data, no Ping, and no second Close, though both handles
    and the timers ask for frames in any order. *)
Theorem compio_split_closing_order ls (s : State E P) : steps config ls start = Moves s -> closing_order (messages (wire s)) = true.
Proof. intros Hs. apply (oo_order _ _ _ _ _ _ (i_order _ _ (inv_steps config ls start s (inv_split config st tracks rp buf ms err wp) Hs))). Qed.

(** [C20] Once the closing budget of a split compio stream is spent ([overdue]), the driver ends by itself: whatever the transport answers, it polls at most [polls_left] times before its end, and
    before its end it is never stuck, even though the transport never becomes ready and neither handle does anything. *)
Theorem compio_split_driver_ends `{!CompioEncoderSpec E} ls (s : State E P) : steps config ls start = Moves s -> overdue s ->
  forall polls s', Forall (fun l => exists a key nonce, l = LDriver a true key nonce) polls -> steps config polls s = Moves s' ->
    (length polls <= polls_left s)%nat /\ (Driver.pc (driver s') <> DEnd -> forall key nonce, exists s'', step config (LDriver NotReady true key nonce) s' = Moves s'').
Proof.
  intros Hs Ho polls s' Hp Hs'. pose proof (inv_steps config ls start s (inv_split config st tracks rp buf ms err wp) Hs) as Hi. pose proof (timers_steps config ls start s I Hs) as Ht.
  destruct (overdue_run config polls s s' Hi Ht Ho Hp Hs') as (Hlen & Hi' & Ht' & Ho'). split; [lia|]. intros Hpc key nonce. by apply overdue_moves.
Qed.

(** When [send] or [flush] has returned an error other than that of a closed connection, as the timeouts are, the driver has ended: the writer is released and the
    connection is closed for both handles. *)
Theorem compio_split_errors_final `{!CompioEncoderSpec E} ls (s : State E P) o e : steps config ls start = Moves s -> o ∈ log s -> error_of o = Some e -> e <> ConnectionClosed -> ended s.
Proof.
  intros Hs Hin Ho Hne. assert (Hi : inv start) by apply inv_split. assert (He : errors_ok start).
  { split; try done; [intros ? ? Hx; by apply elem_of_nil in Hx|]. cbn. intros c Hc. left. case_bool_decide; [unfold Shared.begin_closing in Hc; destruct (Shared.is_open _)|]; destruct st; cbn in Hc; simplify_eq; done. }
  destruct (eo_log _ (errors_steps config ls start s Hi He Hs) o e Hin Ho); done.
Qed.
End Any.

Section Plain.
Context {SU : Simdutf8} {SUok : Simdutf8Spec} (arch : Arch) (slice_addr : bytes -> Z) (Harch : arch_ok arch).
#[local] Instance here : CompioReading Protocol.t := plain_reading arch slice_addr.

(** [C17] End to end: whatever the handles, the driver, the kernel and the clock do, the other endpoint, reading in chunks of any size what a split compio stream has sent so far, delivers without an error exactly
    the messages of the frames that are whole, in the order in which they were written, at most one frame being incomplete; and among them, in the order of the calls, every message for which [send] has returned [Ok]. *)
Theorem compio_split_peer_receives ws ls s mf mm chunks : 0 <= mf -> Forall keyed ls -> steps (CompioStream.config ws) ls (split ws) = Moves s -> Forall (msg_ok mf mm) (messages (wire s)) ->
  concat chunks = wire_bytes (wire s) -> exists done rest p buf a, wire s = done ++ rest /\ Forall whole done /\ Forall unfinished rest /\ (length rest <= 1)%nat /\
    process_reads arch slice_addr (Protocol.new (peer (Protocol.role (CompioStream.protocol ws))) mf mm) chunks = Done (p, buf, map w_message done, a) (Ok tt) /\ acked (log s) `sublist_of` map w_message done.
Proof.
  intros Hmf Hk Hs Hm Hc. set (r := Protocol.role (CompioStream.protocol ws)). assert (Hi : inv s) by (eapply inv_steps; [apply inv_split|exact Hs]).
  assert (Hf : framed r s) by (eapply k_framed_steps; [exact Hk| |exact Hs]; by split; [|constructor]).
  destruct (wire_received arch slice_addr mf mm r (Driver.pc (driver s)) (wire s) chunks Harch Hmf (i_wire _ _ Hi) (proj2 Hf) Hm Hc) as (dn & rest & p & b & a & Ew & Hd & Hu & Hl & Ep).
  exists dn, rest, p, b, a. split_and!; try done. destruct (so_acked _ _ _ _ _ _ _ (i_sends _ _ Hi)) as (L & <- & HL & _). rewrite Ew in HL.
  etrans; [exact (fmap_sublist snd _ _ HL)|by apply delivered_messages].
Qed.

Context (role : Role) (c : Config.t) (leftover : option bytes).
Abbreviation start := (split (CompioWebSocketStream.from_raw_with_leftover role c leftover)).
Abbreviation reference := (fun raw => fst (ref_run (ref_frame (Config.max_message_size c) (Config.validate_text_utf8 c)) (initial_policy role (Config.max_frame_size c)) None (default [] leftover ++ raw))).

(** [C18] Whatever the other tasks do, and however often a call of [next] is dropped while it hands a message to the driver, the messages [CompioSplitReader::next] returns are, up to the first Close, the first messages of
    the reference receiver on the leftover of the handshake and the bytes read since, in order, none missing and none twice, as long as the driver runs; once it has ended, only Pings and Pongs can be missing.  While
    [next] waits for bytes and has not returned a Close, it has returned every message that is complete.  The exception is a call that is dropped while it reads, with which the bytes of the read are [lost]. *)
Theorem compio_split_reader_delivers ls s : bytes_ok (default [] leftover) -> Forall fed ls -> steps c ls start = Moves s -> lost s = false ->
  (exists C, thinned C (upto_close (got (log s))) /\ (Chan.rx_open (control s) = true -> C = upto_close (got (log s))) /\ forall more, bytes_ok more -> exists rest, reference (taken s ++ more) = C ++ rest) /\
  (Reader.pc (reader s) = RReading -> existsb Message.is_close (got (log s)) = false -> reference (taken s) = got (log s)).
Proof.
  intros Hok Hf Hs Hl. set (spec := plain_reading_spec arch slice_addr Harch (Config.max_message_size c) (Config.validate_text_utf8 c) (initial_policy role (Config.max_frame_size c))).
  assert (Hi : reader_inv (Hr := spec) None (default [] leftover) start).
  { eapply (reader_inv_split (Hr := spec) c None (default [] leftover)); [|done|done].
    exact (sim_more (Config.max_message_size c) (Config.validate_text_utf8 c) _ _ [] [] None (default [] leftover) (sim_new role (Config.max_frame_size c) (Config.max_message_size c) (Config.validate_text_utf8 c)) Hok). }
  pose proof (k_reader_inv_steps (Hr := spec) c None (default [] leftover) ls start s Hf Hi Hs) as Hx. destruct (reader_inv_delivers (Hr := spec) None (default [] leftover) s Hx Hl) as [(C & [H1 H2] & H3) H4].
  split; [by exists C|]. intros Hpc Hc. specialize (H4 Hpc Hc). unfold ref in H4. by rewrite app_nil_r in H4.
Qed.
End Plain.

(** The compressed reader. *)
Section Compressed.
Context {SU : Simdutf8} {SUok : Simdutf8Spec} (arch : Arch) (slice_addr : bytes -> Z) (Harch : arch_ok arch).
Context {E D : Type} `{CodecTotal E D} (role : Role) (c : Config.t) (dc : DeflateConfig.t) (leftover : option bytes).
#[local] Instance here_compressed : CompioReading (CompressedReader.t D) := compressed_reading arch slice_addr.
Abbreviation stream := (match role with Server => CompioCompressedWebSocketStream.server_with_leftover (E := E) (D := D) c dc leftover | Client => CompioCompressedWebSocketStream.client_with_leftover c dc leftover end).
Abbreviation reference := (fun raw => fst (ref_run (cref_frame (Config.max_message_size c) (Config.validate_text_utf8 c) false) (compressed_policy role (Config.max_frame_size c)) (None, first_decoder role dc) (default [] leftover ++ raw))).

(** The same for [CompioCompressedSplitReader::next], against the reference receiver that decompresses. *)
Theorem compio_split_compressed_delivers ls s : 0 <= Config.max_message_size c -> bytes_ok (default [] leftover) -> Forall fed ls -> steps c ls (split_compressed_stream stream) = Moves s -> lost s = false ->
  (exists C, thinned C (upto_close (got (log s))) /\ (Chan.rx_open (control s) = true -> C = upto_close (got (log s))) /\ forall more, bytes_ok more -> exists rest, reference (taken s ++ more) = C ++ rest) /\
  (Reader.pc (reader s) = RReading -> existsb Message.is_close (got (log s)) = false -> reference (taken s) = got (log s)).
Proof.
  intros Hmax Hok Hf Hs Hl. assert (Hpol : pol_rsv1 (compressed_policy role (Config.max_frame_size c)) = true) by (by destruct role).
  set (spec := compressed_reading_spec (E := E) (D := D) arch slice_addr Harch (Config.max_message_size c) (Config.validate_text_utf8 c) (compressed_policy role (Config.max_frame_size c)) Hmax Hpol).
  assert (Hi : reader_inv (Hr := spec) (None, first_decoder role dc) (default [] leftover) (split_compressed_stream stream)).
  { destruct role; (eapply (reader_inv_split (Hr := spec) c _ (default [] leftover)); [|reflexivity|done]);
      (apply (r_sim_more (CompioReadingSpec := spec) _ [] []); [|done]); (split; [apply fresh_views; [done|constructor]|done|]); split; done. }
  pose proof (k_reader_inv_steps (Hr := spec) c _ (default [] leftover) ls _ s Hf Hi Hs) as Hx. destruct (reader_inv_delivers (Hr := spec) _ (default [] leftover) s Hx Hl) as [(C & [H1' H2] & H3) H4].
  split; [by exists C|]. intros Hpc Hc. specialize (H4 Hpc Hc). unfold ref in H4. by rewrite app_nil_r in H4.
Qed.
End Compressed.

(** ** Runs *)

Section Runs.
#[local] Instance std_utf8 : Simdutf8 := simdutf8_std.
#[local] Instance std_reading : CompioReading Protocol.t := plain_reading test_arch (fun _ => 0).

Definition demo_stream : CompioWebSocketStream.t := CompioWebSocketStream.client Config.default.
Abbreviation start := (split demo_stream).
Definition demo_after (ls : list label) : State Protocol.t Protocol.t := match steps Config.default ls start with Moves s => s | _ => start end.
Abbreviation D a := (LDriver a true [5; 6; 7; 8] 0).
Abbreviation R := (LReader RPoll).
(** [next] is called, and reads [data]; it parses it. *)
Definition next_reads (data : bytes) : list label := [LReader RCall; R; R; LReader (RRead (Ok data)); R].
Definition next_call : list label := [LReader RCall; R].

(** A Ping is answered while [send] waits for its text message; the driver takes the Ping first. *)
Definition demo_run : list label :=
  next_reads [0x89; 1; 9; 0x81; 1] ++ [R; R] ++ [LSend (Message.Text [104; 105]); LApp; LApp; D NotReady; D NotReady; D NotReady; LKernel 3; LKernel 4; D Completed;
   D NotReady; D NotReady; D NotReady; LKernel 8; D Completed; LApp; LSend (Message.Binary [1]); LApp; LApp; D NotReady; D NotReady; D NotReady; LKernel 2].

Lemma compio_split_peer_receives_witness : exists done rest p buf a, wire (demo_after demo_run) = done ++ rest /\ Forall whole done /\ Forall unfinished rest /\ (length rest <= 1)%nat /\
  process_reads test_arch (fun _ => 0) (Protocol.new Server 100 100) [[138; 129; 5; 6; 7; 8; 12; 129]; [130; 5; 6; 7; 8; 109; 111; 130; 129]] = Done (p, buf, map w_message done, a) (Ok tt) /\
  acked (log (demo_after demo_run)) `sublist_of` map w_message done.
Proof.
  apply (compio_split_peer_receives (SUok := simdutf8_std_spec) test_arch (fun _ => 0) ltac:(by vm_compute) demo_stream demo_run); [lia| |by vm_compute| |by vm_compute].
  - repeat (constructor; try done).
  - replace (messages _) with [Message.Pong [9]; Message.Text [104; 105]; Message.Binary [1]] by (by vm_compute).
    repeat (constructor; [split_and!; try done; by repeat constructor|]). constructor.
Defined.
Example demo_run_acked : acked (log (demo_after demo_run)) = [Message.Text [104; 105]] /\ map w_sent (wire (demo_after demo_run)) = [7; 8; 2]%nat.
Proof. by vm_compute. Qed.

Lemma compio_split_closing_order_witness : closing_order (messages (wire (demo_after demo_run))) = true.
Proof.
  apply (compio_split_closing_order Config.default CompioStream.StreamState.Open (Heartbeat.tracks_inbound_activity (CompioStream.heartbeat demo_stream)) (CompioStream.protocol demo_stream) [] [] None
    (snd (Protocol.split (CompioStream.protocol demo_stream) (Config.max_frame_size Config.default) (Config.max_message_size Config.default))) demo_run). by vm_compute.
Defined.

(** A Close that the transport does not take, and the budget is spent. *)
Definition overdue_run : list label := [LSend (Message.Close None); LApp; D NotReady; D NotReady; D NotReady; LTick (Config.close_timeout Config.default * 1000000000)].
Lemma compio_split_driver_ends_witness : let s := demo_after overdue_run in overdue s /\
  forall polls s', Forall (fun l => exists a key nonce, l = LDriver a true key nonce) polls -> steps Config.default polls s = Moves s' ->
    (length polls <= polls_left s)%nat /\ (Driver.pc (driver s') <> DEnd -> forall key nonce, exists s'', step Config.default (LDriver NotReady true key nonce) s' = Moves s'').
Proof.
  intros s. assert (Ho : overdue s) by (by vm_compute). split; [exact Ho|].
  refine (compio_split_driver_ends Config.default CompioStream.StreamState.Open (Heartbeat.tracks_inbound_activity (CompioStream.heartbeat demo_stream)) (CompioStream.protocol demo_stream) [] [] None
    (snd (Protocol.split (CompioStream.protocol demo_stream) (Config.max_frame_size Config.default) (Config.max_message_size Config.default))) overdue_run s _ Ho). by vm_compute.
Defined.

(** A Ping whose hand-over is dropped and made again, and a part of a text. *)
Definition reading_run : list label := next_reads [0x89; 1; 9; 0x81; 1] ++ [R; LReader RAbort] ++ next_call ++ [R] ++ next_call ++ [R].
Lemma compio_split_reader_delivers_witness :
  let s := demo_after reading_run in
  let reference raw := fst (ref_run (ref_frame (Config.max_message_size Config.default) (Config.validate_text_utf8 Config.default)) (initial_policy Client (Config.max_frame_size Config.default)) None (default [] None ++ raw)) in
  (exists C, thinned C (upto_close (got (log s))) /\ (Chan.rx_open (control s) = true -> C = upto_close (got (log s))) /\ forall more, bytes_ok more -> exists rest, reference (taken s ++ more) = C ++ rest) /\
  (Reader.pc (reader s) = RReading -> existsb Message.is_close (got (log s)) = false -> reference (taken s) = got (log s)).
Proof.
  refine (compio_split_reader_delivers (SUok := simdutf8_std_spec) test_arch (fun _ => 0) ltac:(by vm_compute) Client Config.default None reading_run (demo_after reading_run) _ _ _ _); [constructor| |by vm_compute|by vm_compute].
  repeat (constructor; try done).
Defined.
Example reading_run_got : got (log (demo_after reading_run)) = [Message.Ping [9]] /\ Reader.pc (reader (demo_after reading_run)) = RReading.
Proof. by vm_compute. Qed.

(** A text, a Ping, a text and a frame that is not allowed, in one read.  The writing handle is dropped when the first text has been returned; then the Ping is not returned, but the second text is. *)
Definition skipping_run : list label :=
  next_reads [0x81; 1; 97; 0x89; 0; 0x81; 1; 98; 0x83; 0] ++ [R; LDropWriter; D NotReady; D NotReady] ++ next_call ++ [R; R].
Lemma compio_split_skips_ping : got (log (demo_after skipping_run)) = [Message.Text [97]; Message.Text [98]] /\
  fst (ref_run (ref_frame (Config.max_message_size Config.default) true) (initial_policy Client (Config.max_frame_size Config.default)) None (taken (demo_after skipping_run))) = [Message.Text [97]; Message.Ping []; Message.Text [98]].
Proof. by vm_compute. Qed.
End Runs.
