(* ===== verification/HttpConfig.v ===== *)
(** * Settings of HTTP/2, HTTP/3 and io_uring (src/src/lib.rs, src/src/http3/mod.rs)

    [Http2Config], [Http3Config] and [IoUringConfig] with their defaults and builder methods, and the checks that turn them into the settings of h2 and quinn.  In the
    source they are fields of [Config]; here they are passed beside it. *)

From stdpp Require Import base list strings.
From S2P Require Import Prelude Error.

Module Http2Config.
Record t := Mk {
  max_frame_size : Z;
  initial_stream_window_size : Z;
  initial_connection_window_size : Z;
  max_concurrent_streams : Z;
  enable_connect_protocol : bool
}.

Definition default : t := Mk 16384 (1024 * 1024) (2 * 1024 * 1024) 100 true.

Definition validated_max_frame_size (c : t) : result Z :=
  if negb ((16384 <=? max_frame_size c) && (max_frame_size c <=? 16777215))
  then Err (HandshakeFailed "HTTP/2 max_frame_size must be in 16384..=16777215")
  else Ok (max_frame_size c).

Definition http2_stream_window_size (size : Z) (c : t) : t :=
  Mk (max_frame_size c) size (initial_connection_window_size c) (max_concurrent_streams c) (enable_connect_protocol c).
Definition http2_connection_window_size (size : Z) (c : t) : t :=
  Mk (max_frame_size c) (initial_stream_window_size c) size (max_concurrent_streams c) (enable_connect_protocol c).
Definition http2_max_frame_size (size : Z) (c : t) : t :=
  Mk size (initial_stream_window_size c) (initial_connection_window_size c) (max_concurrent_streams c) (enable_connect_protocol c).
Definition http2_max_streams (count : Z) (c : t) : t :=
  Mk (max_frame_size c) (initial_stream_window_size c) (initial_connection_window_size c) count (enable_connect_protocol c).
Definition http2_enable_connect_protocol (enabled : bool) (c : t) : t :=
  Mk (max_frame_size c) (initial_stream_window_size c) (initial_connection_window_size c) (max_concurrent_streams c) enabled.
End Http2Config.

Module Http3Config.
Record t := Mk {
  max_idle_timeout_ms : Z;
  initial_stream_window_size : Z;
  enable_0rtt : bool;
  enable_connect_protocol : bool;
  max_udp_payload_size : Z
}.

Definition default : t := Mk 30000 1250000 false true 1472.

Definition http3_idle_timeout (ms : Z) (c : t) : t :=
  Mk ms (initial_stream_window_size c) (enable_0rtt c) (enable_connect_protocol c) (max_udp_payload_size c).
Definition http3_stream_window_size (size : Z) (c : t) : t :=
  Mk (max_idle_timeout_ms c) size (enable_0rtt c) (enable_connect_protocol c) (max_udp_payload_size c).
Definition http3_enable_0rtt (enabled : bool) (c : t) : t :=
  Mk (max_idle_timeout_ms c) (initial_stream_window_size c) enabled (enable_connect_protocol c) (max_udp_payload_size c).
Definition http3_enable_connect_protocol (enabled : bool) (c : t) : t :=
  Mk (max_idle_timeout_ms c) (initial_stream_window_size c) (enable_0rtt c) enabled (max_udp_payload_size c).
Definition http3_max_udp_payload_size (size : Z) (c : t) : t :=
  Mk (max_idle_timeout_ms c) (initial_stream_window_size c) (enable_0rtt c) (enable_connect_protocol c) size.

Definition validate_config (c : t) : result unit :=
  if enable_0rtt c then Err (Http3Error (str "HTTP/3 0-RTT is not supported by the built-in client or server")) else Ok tt.

(** What is set on quinn's [TransportConfig] and [EndpointConfig]; the rest stays as quinn has it. *)
Record QuicTransport := MkTransport { max_idle_timeout : Z; stream_receive_window : Z }.
Record QuicEndpoint := MkEndpoint { udp_payload_size : Z }.

(** quinn: [VarInt::from_u64] takes values below 2^62, [EndpointConfig::max_udp_payload_size] sizes from 1200 to 65527. *)
Class Quinn := {
  varint_from_u64 : Z -> option Z;
  payload_size_ok : Z -> bool
}.
Class QuinnSpec `{Quinn} : Prop := {
  varint_spec n : varint_from_u64 n = if n <? 2 ^ 62 then Some n else None;
  payload_size_spec n : payload_size_ok n = (1200 <=? n) && (n <=? 65527)
}.

Section Quic.
Context `{Quinn}.

Definition quic_transport_config (c : t) : result QuicTransport :=
  match validate_config c with
  | Err e => Err e
  | Ok _ =>
      if initial_stream_window_size c =? 0 then Err (Http3Error (str "HTTP/3 stream window must be nonzero"))
      else
        match varint_from_u64 (max_idle_timeout_ms c) with
        | None => Err (Http3Error (str "HTTP/3 idle timeout exceeds QUIC limits"))
        | Some idle_timeout =>
            match varint_from_u64 (initial_stream_window_size c) with
            | None => Err (Http3Error (str "HTTP/3 stream window exceeds QUIC limits"))
            | Some stream_window => Ok (MkTransport idle_timeout stream_window)
            end
        end
  end.

Definition quic_endpoint_config (c : t) : result QuicEndpoint :=
  if payload_size_ok (max_udp_payload_size c) then Ok (MkEndpoint (max_udp_payload_size c))
  else Err (Http3Error (str "HTTP/3 maximum UDP payload size must be between 1200 and 65527 bytes")).
End Quic.
End Http3Config.

Module IoUringConfig.
Record t := Mk { registered_buffer_count : Z; registered_buffer_size : Z; sqpoll : bool; sq_entries : Z }.
Definition default : t := Mk 64 (64 * 1024) false 256.
Definition io_uring_buffers (count size : Z) (c : t) : t := Mk count size (sqpoll c) (sq_entries c).
Definition io_uring_sqpoll (enabled : bool) (c : t) : t := Mk (registered_buffer_count c) (registered_buffer_size c) enabled (sq_entries c).
Definition io_uring_sq_entries (entries : Z) (c : t) : t := Mk (registered_buffer_count c) (registered_buffer_size c) (sqpoll c) entries.
End IoUringConfig.

(** ** Properties *)

(** The ranges the settings must be in. *)
Definition quic_settings_ok (c : Http3Config.t) : Prop :=
  Http3Config.enable_0rtt c = false /\ 0 < Http3Config.initial_stream_window_size c < 2 ^ 62 /\ Http3Config.max_idle_timeout_ms c < 2 ^ 62 /\
  1200 <= Http3Config.max_udp_payload_size c <= 65527.

(** Settings are taken exactly when they are in range, as they are given. *)
Lemma quic_settings_exact `{Http3Config.QuinnSpec} c : 0 <= Http3Config.initial_stream_window_size c ->
  (quic_settings_ok c ->
    Http3Config.quic_transport_config c = Ok (Http3Config.MkTransport (Http3Config.max_idle_timeout_ms c) (Http3Config.initial_stream_window_size c)) /\
    Http3Config.quic_endpoint_config c = Ok (Http3Config.MkEndpoint (Http3Config.max_udp_payload_size c))) /\
  (~ quic_settings_ok c -> (exists e, Http3Config.quic_transport_config c = Err (Http3Error e)) \/ exists e, Http3Config.quic_endpoint_config c = Err (Http3Error e)).
Proof.
  intros Hw. unfold Http3Config.quic_transport_config, Http3Config.quic_endpoint_config, Http3Config.validate_config, quic_settings_ok.
  rewrite !Http3Config.varint_spec, Http3Config.payload_size_spec. split.
  - intros (E0 & [Hw0 Hw1] & Ht & Hp). rewrite E0. zfalse (Http3Config.initial_stream_window_size c =? 0). ztrue (Http3Config.max_idle_timeout_ms c <? 2 ^ 62).
    ztrue (Http3Config.initial_stream_window_size c <? 2 ^ 62). ztrue (1200 <=? Http3Config.max_udp_payload_size c). by ztrue (Http3Config.max_udp_payload_size c <=? 65527).
  - intros Hno. destruct (Http3Config.enable_0rtt c) eqn:E0; [eauto|].
    destruct (Z.eqb_spec (Http3Config.initial_stream_window_size c) 0); [eauto|]. destruct (Z.ltb_spec (Http3Config.max_idle_timeout_ms c) (2 ^ 62)); [|eauto].
    destruct (Z.ltb_spec (Http3Config.initial_stream_window_size c) (2 ^ 62)); [|eauto].
    destruct (Z.leb_spec 1200 (Http3Config.max_udp_payload_size c)); [|cbn; eauto]. destruct (Z.leb_spec (Http3Config.max_udp_payload_size c) 65527); [|cbn; eauto].
    exfalso. apply Hno. split_and!; try done; lia.
Qed.

(** The default settings are in range. *)
Lemma default_settings_ok : quic_settings_ok Http3Config.default /\ Http2Config.validated_max_frame_size Http2Config.default = Ok 16384.
Proof. unfold quic_settings_ok. cbn. split_and!; try done; lia. Qed.
