(* ===== verification/ExtendedConnect.v ===== *)
(** * Extended CONNECT (src/src/extended_connect.rs, src/src/http2/handshake.rs, src/src/http3/handshake.rs)

    Over HTTP/2 and HTTP/3 a WebSocket is opened with a CONNECT request that has a [:protocol] pseudo-header.  This file has the parsed request of the three modules,
    its checks, and the responses.  The requests, responses, URIs and header maps of the http crate are an interface. *)

From stdpp Require Import base list option strings.
From S2P Require Import Prelude Error Header Handshake.

(** ** The http crate *)

(** A header map.  [hm_append] is [Builder::header] on the map under construction: it fails on an invalid name or value and on a full map.  [to_str] is
    [HeaderValue::to_str]. *)
Class HeaderMap (H : Type) := {
  hm_new : H;
  hm_append : H -> bytes -> bytes -> option H;
  hm_get : H -> bytes -> option bytes;
  hm_len : H -> Z;
  to_str : bytes -> option bytes
}.

(** [ext_protocol]: the [Protocol] of h2 or h3 among the extensions.  [own_protocol]: the [Protocol] of [http3/handshake.rs]. *)
Record Request (H B : Type) := MkRequest_ {
  method : bytes; req_uri : Uri; req_headers : H; ext_protocol : option bytes; own_protocol : option bytes; body : B }.
Arguments MkRequest_ {H B}. Arguments method {H B}. Arguments req_uri {H B}. Arguments req_headers {H B}. Arguments ext_protocol {H B}. Arguments own_protocol {H B}. Arguments body {H B}.
Record Response (H : Type) := MkResponse_ { resp_status : Z; resp_headers : H }.
Arguments MkResponse_ {H}. Arguments resp_status {H}. Arguments resp_headers {H}.

Definition CONNECT : bytes := str "CONNECT".
Definition OK_ := 200.
Definition BAD_REQUEST := 400.
Definition FORBIDDEN := 403.
Definition METHOD_NOT_ALLOWED := 405.
Definition NOT_IMPLEMENTED := 501.

(** ** Strings *)

(** The encodings of the white space [str::trim] removes. *)
Definition white_space : list bytes :=
  [[9]; [10]; [11]; [12]; [13]; [32]; [0xC2; 0x85]; [0xC2; 0xA0]; [0xE1; 0x9A; 0x80]] ++ map (fun b => [0xE2; 0x80; b]) (map Z.of_nat (seq 128 11)) ++
  [[0xE2; 0x80; 0xA8]; [0xE2; 0x80; 0xA9]; [0xE2; 0x80; 0xAF]; [0xE2; 0x81; 0x9F]; [0xE3; 0x80; 0x80]].
Fixpoint trim_by (spaces : list bytes) (fuel : nat) (s : bytes) : bytes :=
  match fuel with
  | O => s
  | S fuel => match List.find (fun w => starts_with w s) spaces with Some w => trim_by spaces fuel (drop (length w) s) | None => s end
  end.
Definition trim (s : bytes) : bytes :=
  let s := trim_by white_space (length s) s in reverse (trim_by (map reverse white_space) (length s) (reverse s)).

Definition comma_list (s : bytes) : list bytes := map trim (split_on 44 s).

Section Http.
Context {H : Type} `{HeaderMap H} `{UriParser}.

Definition get_header_string (headers : H) (name : bytes) : option bytes := v ← hm_get headers name; to_str v.

(** A header on a builder that may have failed before. *)
Definition header (builder : option H) (name value : bytes) : option H := h ← builder; hm_append h name value.
Definition header_if (builder : option H) (name : bytes) (value : option bytes) : option H :=
  match value with Some v => header builder name v | None => builder end.

(** The path and the authority of a request. *)
Definition request_path (uri : Uri) : bytes := default (str "/") (path_and_query uri).
Definition request_authority {B} (req : Request H B) : bytes :=
  default [] (match authority (req_uri req) with Some a => Some (fst a) | None => get_header_string (req_headers req) (str "host") end).
End Http.

(** ** The request ([extended_connect.rs]) *)

Module ExtendedConnectRequest.
Record t := Mk {
  path : bytes; authority : bytes; scheme : bytes; protocol : option bytes;
  subprotocols : option bytes; extensions : option bytes; origin : option bytes; version : option bytes }.

Definition set_protocol (p : option bytes) (r : t) : t :=
  Mk (path r) (authority r) (scheme r) p (subprotocols r) (extensions r) (origin r) (version r).

Definition from_request {H B} `{HeaderMap H} (req : Request H B) : option t :=
  if negb (bool_decide (method req = CONNECT)) then None
  else
    let uri := req_uri req in
    let headers := req_headers req in
    Some (Mk (request_path uri) (request_authority req) (default (str "https") (scheme_str uri)) (get_header_string headers (str ":protocol"))
      (get_header_string headers (str "sec-websocket-protocol")) (get_header_string headers (str "sec-websocket-extensions"))
      (get_header_string headers (str "origin")) (get_header_string headers (str "sec-websocket-version"))).

Definition new `{UriParser} (uri : bytes) (subprotocol : option bytes) : option t :=
  uri ← uri_parse uri;
  a ← Handshake.authority uri;
  Some (Mk (request_path uri) (fst a) (str "https") (Some (str "websocket")) subprotocol None None (Some (str "13"))).

Definition is_websocket (r : t) : bool := match protocol r with Some p => eq_ignore_ascii_case p (str "websocket") | None => false end.
Definition has_subprotocol (proto : bytes) (r : t) : bool :=
  match subprotocols r with Some p => existsb (fun s => eq_ignore_ascii_case s proto) (comma_list p) | None => false end.
Definition subprotocol_list (r : t) : list bytes := default [] (comma_list <$> subprotocols r).
Definition extension_list (r : t) : list bytes := default [] (comma_list <$> extensions r).
Definition url (r : t) : bytes :=
  let scheme := if bool_decide (scheme r = str "https") then str "wss" else str "ws" in
  scheme ++ str "://" ++ authority r ++ path r.

Definition validate (r : t) : res Z unit :=
  if negb (is_websocket r) then Err NOT_IMPLEMENTED
  else if match version r with Some v => negb (bool_decide (v = str "13")) | None => false end then Err BAD_REQUEST
  else Ok tt.
End ExtendedConnectRequest.

(** ** The responses *)

(** [ExtendedConnectResponse], and [H2HandshakeResponse] with its fields. *)
Module ExtendedConnectResponse.
Record t := Mk { status : Z; protocol : option bytes; extensions : option bytes }.
Definition ok : t := Mk OK_ None None.
Definition ok_with_protocol (protocol : bytes) : t := Mk OK_ (Some protocol) None.
Definition ok_with_options (protocol extensions : option bytes) : t := Mk OK_ protocol extensions.
Definition error (status : Z) : t := Mk status None None.
End ExtendedConnectResponse.

Section Responses.
Context {H : Type} `{HeaderMap H}.

(** [None]: the panic of [expect("valid response")].  [build_h2_response] and [build_h3_response] are the same. *)
Definition build_extended_connect_response (protocol extensions : option bytes) : option (Response H) :=
  h ← header_if (header_if (Some hm_new) (str "sec-websocket-protocol") protocol) (str "sec-websocket-extensions") extensions;
  Some (MkResponse_ OK_ h).

Definition build_extended_connect_error (status : Z) (reason : option bytes) : option (Response H) :=
  h ← header_if (Some hm_new) (str "x-error-reason") reason;
  Some (MkResponse_ status h).

Definition build_not_implemented_response (protocol : bytes) : option (Response H) :=
  build_extended_connect_error NOT_IMPLEMENTED (Some (str "Unsupported :protocol value: " ++ protocol)).
End Responses.

(** ** The configured checks *)

(** Shared by the three modules: the version, if one is required and given, and the origin, if any are listed. *)
Definition check_version (required version : option bytes) : bool :=
  match required, version with Some r, Some v => bool_decide (v = r) | _, _ => true end.
Definition check_origin (allowed : list bytes) (origin : option bytes) : bool :=
  bool_decide (allowed = []) || match origin with Some o => existsb (fun a => bool_decide (a = o)) allowed | None => false end.

Module ExtendedConnectConfig.
Record t := Mk { handshake_timeout : Z; connection_timeout : Z; required_version : option bytes; allowed_origins : list bytes }.
Definition DEFAULT_HANDSHAKE_TIMEOUT := 30000.
Definition DEFAULT_CONNECTION_TIMEOUT := 60000.
Definition default : t := Mk DEFAULT_HANDSHAKE_TIMEOUT DEFAULT_CONNECTION_TIMEOUT (Some (str "13")) [].
Definition with_timeout (timeout : Z) : t := Mk timeout DEFAULT_CONNECTION_TIMEOUT (Some (str "13")) [].
Definition set_connection_timeout (timeout : Z) (c : t) : t := Mk (handshake_timeout c) timeout (required_version c) (allowed_origins c).
Definition set_allowed_origins (origins : list bytes) (c : t) : t := Mk (handshake_timeout c) (connection_timeout c) (required_version c) origins.

Definition validate (c : t) (request : ExtendedConnectRequest.t) : res Z unit :=
  match ExtendedConnectRequest.validate request with
  | Err status => Err status
  | Ok _ =>
      if negb (check_version (required_version c) (ExtendedConnectRequest.version request)) then Err BAD_REQUEST
      else if negb (check_origin (allowed_origins c) (ExtendedConnectRequest.origin request)) then Err FORBIDDEN
      else Ok tt
  end.
End ExtendedConnectConfig.

(** ** [http2/handshake.rs] *)

Module H2HandshakeRequest.
Record t := Mk {
  path : bytes; authority : bytes; scheme : bytes; protocol : option bytes;
  extensions : option bytes; origin : option bytes; version : option bytes }.

Definition from_request {H B} `{HeaderMap H} (req : Request H B) : option t :=
  if negb (bool_decide (method req = CONNECT)) then None
  else
    let uri := req_uri req in
    let headers := req_headers req in
    Some (Mk (request_path uri) (request_authority req) (default (str "https") (scheme_str uri))
      (get_header_string headers (str "sec-websocket-protocol")) (get_header_string headers (str "sec-websocket-extensions"))
      (get_header_string headers (str "origin")) (get_header_string headers (str "sec-websocket-version"))).

Definition has_protocol (proto : bytes) (r : t) : bool :=
  match protocol r with Some p => existsb (fun s => eq_ignore_ascii_case s proto) (comma_list p) | None => false end.
Definition protocols (r : t) : list bytes := default [] (comma_list <$> protocol r).
Definition extensions_list (r : t) : list bytes := default [] (comma_list <$> extensions r).
End H2HandshakeRequest.

Module H2HandshakeConfig.
Record t := Mk { timeout : Z; required_version : option bytes; allowed_origins : list bytes }.
Definition DEFAULT_HANDSHAKE_TIMEOUT := 30000.
Definition default : t := Mk DEFAULT_HANDSHAKE_TIMEOUT (Some (str "13")) [].
Definition with_timeout (timeout : Z) : t := Mk timeout (Some (str "13")) [].
Definition set_allowed_origins (origins : list bytes) (c : t) : t := Mk (timeout c) (required_version c) origins.

Definition validate (c : t) (request : H2HandshakeRequest.t) : res Z unit :=
  if negb (check_version (required_version c) (H2HandshakeRequest.version request)) then Err BAD_REQUEST
  else if negb (check_origin (allowed_origins c) (H2HandshakeRequest.origin request)) then Err FORBIDDEN
  else Ok tt.
End H2HandshakeConfig.

(** ** [http3/handshake.rs] *)

Module H3HandshakeRequest.
(** The fields, [new], [is_websocket], the lists and [validate] are those of [ExtendedConnectRequest]. *)
Definition t := ExtendedConnectRequest.t.

Definition from_request {H B} `{HeaderMap H} (req : Request H B) : option t :=
  if negb (bool_decide (method req = CONNECT)) then None
  else
    let headers := req_headers req in
    Some (ExtendedConnectRequest.Mk (request_path (req_uri req)) (request_authority req) (str "https")
      (match get_header_string headers (str ":protocol") with Some p => Some p | None => own_protocol req end)
      (get_header_string headers (str "sec-websocket-protocol")) (get_header_string headers (str "sec-websocket-extensions"))
      (get_header_string headers (str "origin")) (get_header_string headers (str "sec-websocket-version"))).

Definition url (r : t) : bytes := str "wss://" ++ ExtendedConnectRequest.authority r ++ ExtendedConnectRequest.path r.
End H3HandshakeRequest.

(** ** Properties *)

(** Visible ASCII and the tab: what [to_str] yields and a header accepts. *)
Definition is_visible (b : Z) : bool := (b =? 9) || ((32 <=? b) && (b <=? 126)).

Class HeaderMapSpec (H : Type) `{HeaderMap H} := {
  hm_len_new : hm_len (hm_new : H) = 0;
  hm_get_new name : hm_get (hm_new : H) name = None;
  hm_get_token (h : H) name v : hm_get h name = Some v -> is_token name = true;
  hm_append_ok (h : H) name v : hm_len h < 32768 -> is_token name = true -> forallb is_visible v = true -> is_Some (hm_append h name v);
  hm_append_spec (h h' : H) name v : hm_append h name v = Some h' -> hm_len h' <= hm_len h + 1 /\
    forall name', is_token name' = true -> hm_get h' name' = if eq_ignore_ascii_case name name' then Some (default v (hm_get h name')) else hm_get h name';
  to_str_spec v s : to_str v = Some s -> s = v /\ forallb is_visible s = true;
  to_str_visible v : forallb is_visible v = true -> to_str v = Some v
}.
