(* ===== verification/Connect.v ===== *)
(** * Clients and servers (src/src/server.rs, src/src/client.rs, src/src/multiplex.rs)

    How a message stream comes to be: over HTTP/1.1 by the opening handshake, over HTTP/2 and HTTP/3 by an extended CONNECT request.  Sockets, TLS, the connections of h2,
    quinn and h3 and the tasks they are driven by are parameters; the handler of a server is known by what it is called with. *)

From stdpp Require Import base list option strings pretty.
From S2P Require Import Prelude Error Mask Utf8 Frame Protocol Heartbeat Cork Output Stream Deflate Config WebSocket Header Handshake HttpConfig ExtendedConnect HttpStream.
Import WebSocketStream.

(** ** HTTP/1.1 *)

Module Http1Server.
Record t := Mk { config : Config.t; supported : option (list bytes) }.

Definition new (config : Config.t) : t := Mk config None.
Definition default_config : t := new Config.default.
Definition protocols (protocols : list bytes) (s : t) : result t :=
  match validate_supported_protocols protocols with Err e => Err e | Ok _ => Ok (Mk (config s) (Some protocols)) end.

Section Accept.
Context `{Httparse, Base64, Sha1, UriParser}.

(** [accept], and [accept_raw] without the box around the stream. *)
Definition accept (s : t) (stream : Peer) : Peer * result (WebSocketStream.t * HandshakeResult) :=
  let '(stream, r) := server_handshake_with_supported_protocols stream (supported s) in
  (stream, match r with
           | Err e => Err e
           | Ok handshake => Ok (from_raw_with_leftover Server (config s) (h_leftover handshake), handshake)
           end).

(** A task for each connection, until [listener.accept] fails; [None]: it waits for the next connection. *)
Fixpoint serve (s : t) (incoming : list (res IoError Peer)) : list (Peer * result (WebSocketStream.t * HandshakeResult)) * option Error :=
  match incoming with
  | [] => ([], None)
  | Err e :: _ => ([], Some (Io e))
  | Ok stream :: incoming => let '(tasks, r) := serve s incoming in (accept s stream :: tasks, r)
  end.
End Accept.
End Http1Server.

Module Http1Client.
Definition strip_prefix (prefix s : bytes) : option bytes := if starts_with prefix s then Some (drop (length prefix) s) else None.

(** [digits.parse::<u16>()], for a string of digits *)
Definition digits_value (digits : bytes) : Z := foldl (fun acc b => acc * 10 + (b - 48)) 0 digits.
Definition parse_u16 (digits : bytes) : option Z := let v := digits_value digits in if v <=? 65535 then Some v else None.

Record Target := MkTarget { t_host : bytes; t_port : Z; t_authority : bytes; t_path : bytes }.

Section Connect.
Context `{Httparse, Base64, Sha1, UriParser}.

(** The checks of [connect_to_url_with_headers], and where it connects to. *)
Definition url_port (host authority : bytes) : result Z :=
  match strip_prefix host authority with
  | Some [] => Ok 80
  | suffix =>
      match (suffix ← suffix; digits ← strip_prefix [58] suffix;
             if negb (bool_decide (digits = [])) && forallb is_ascii_digit_byte digits then parse_u16 digits else None) with
      | Some port => Ok port
      | None => Err (HandshakeFailed "invalid port")
      end
  end.

Definition url_target (url : bytes) : result Target :=
  if existsb (Z.eqb 35) url then Err (HandshakeFailed "URL must not contain a fragment")
  else
    match uri_parse url with
    | None => Err (HandshakeFailed "invalid URL")
    | Some uri =>
        match scheme_str uri with
        | Some scheme =>
            if eq_ignore_ascii_case scheme (str "ws") then
              match Handshake.authority uri with
              | None => Err (HandshakeFailed "URL missing host")
              | Some (authority, host) =>
                  if existsb (Z.eqb 64) authority then Err (HandshakeFailed "URL must not contain user information")
                  else if bool_decide (host = []) then Err (HandshakeFailed "URL missing host")
                  else
                    match url_port host authority with
                    | Err e => Err e
                    | Ok port =>
                        let path := match path_and_query uri with
                          | Some query => if starts_with [63] query then str "/" ++ query else query
                          | None => str "/"
                          end in
                        Ok (MkTarget host port authority path)
                    end
              end
            else if eq_ignore_ascii_case scheme (str "wss") then Err (HandshakeFailed "wss URL requires TLS: pass a TLS stream to connect")
            else Err (HandshakeFailed "invalid URL scheme: expected ws")
        | None => Err (HandshakeFailed "invalid URL scheme: expected ws")
        end
    end.

(** [connect_with_headers], and [connect_raw_with_headers] without the box around the stream; [random]: the bytes of the key. *)
Definition connect_with_headers (config : Config.t) (stream : Peer) (random host path : bytes) (protocol : option bytes)
    (extra_headers : option (list (bytes * bytes))) : Peer * result (WebSocketStream.t * HandshakeResult) :=
  let '(stream, r) := client_handshake_with_headers stream random host path protocol extra_headers in
  (stream, match r with
           | Err e => Err e
           | Ok handshake => Ok (from_raw_with_leftover Client config (h_leftover handshake), handshake)
           end).

Definition connect (config : Config.t) (stream : Peer) (random host path : bytes) (protocol : option bytes) :=
  connect_with_headers config stream random host path protocol None.

(** [tcp_connect] opens a connection to an address, [set_nodelay] may fail.  No stream is left when one of them fails. *)
Definition connect_to_url_with_headers (tcp_connect : bytes -> res IoError Peer) (set_nodelay : Peer -> res IoError unit)
    (config : Config.t) (random url : bytes) (protocol : option bytes) (extra_headers : option (list (bytes * bytes)))
    : option Peer * result (WebSocketStream.t * HandshakeResult) :=
  match url_target url with
  | Err e => (None, Err e)
  | Ok target =>
      match tcp_connect (t_host target ++ str ":" ++ str (pretty (t_port target))) with
      | Err e => (None, Err (Io e))
      | Ok stream =>
          match set_nodelay stream with
          | Err e => (None, Err (Io e))
          | Ok _ =>
              let '(stream, r) := connect_with_headers config stream random (t_authority target) (t_path target) protocol extra_headers in
              (Some stream, r)
          end
      end
  end.
End Connect.
End Http1Client.

(** ** Handlers *)

(** What handling a request did: the responses sent, what the handler was called with, and the result. *)
Inductive Handled (H X : Type) :=
  | Panicked
  | Returned (responses : list (Response H)) (handler : option (X * ExtendedConnectRequest.t)) (r : result unit).
Arguments Panicked {H X}. Arguments Returned {H X}.

(** ** HTTP/2 *)

(** The settings given to the builder of h2; [None] where the client sets none. *)
Record H2Settings := MkSettings { s_max_frame_size : Z; s_initial_window_size : Z; s_initial_connection_window_size : Z; s_max_concurrent_streams : option Z; s_connect_protocol : bool }.

Module Http2Server.
Section Server.
Context {H S R : Type} `{HeaderMap H}.
Abbreviation opened := (WebSocketStream.t * Http2Stream.t S R)%type.

Definition settings (c : Http2Config.t) : result H2Settings :=
  match Http2Config.validated_max_frame_size c with
  | Err e => Err e
  | Ok size => Ok (MkSettings size (Http2Config.initial_stream_window_size c) (Http2Config.initial_connection_window_size c) (Some (Http2Config.max_concurrent_streams c)) true)
  end.

Context (send_response : Response H -> bool -> res H2Error S).

Definition respond_error (status : Z) (reason : bytes) : Handled H opened :=
  match build_extended_connect_error status (Some reason) with
  | None => Panicked
  | Some response => Returned [response] None (match send_response response true with Err e => Err (from_h2_error e) | Ok _ => Ok tt end)
  end.

Definition upgrade (request : Request H R) (config : Config.t) (ws_req : ExtendedConnectRequest.t) : Handled H opened :=
  match build_extended_connect_response (ExtendedConnectRequest.subprotocols ws_req) None with
  | None => Panicked
  | Some response =>
      match send_response response false with
      | Err e => Returned [response] None (Err (from_h2_error e))
      | Ok send_stream =>
          let h2_stream := Http2Stream.new send_stream (body request) in
          let ws := with_immediate_write_shutdown (from_raw Server config) in
          Returned [response] (Some ((ws, h2_stream), ws_req)) (Ok tt)
      end
  end.

Definition assume_websocket (ws_req : ExtendedConnectRequest.t) : ExtendedConnectRequest.t :=
  match ExtendedConnectRequest.protocol ws_req with
  | None => ExtendedConnectRequest.set_protocol (Some (str "websocket")) ws_req
  | Some _ => ws_req
  end.

Definition handle_http2_request (request : Request H R) (config : Config.t) : Handled H opened :=
  match ExtendedConnectRequest.from_request request with
  | Some ws_req => upgrade request config (assume_websocket ws_req)
  | None => respond_error BAD_REQUEST (str "Expected Extended CONNECT for WebSocket")
  end.

Definition handle_http2_request_filtered (filter : ExtendedConnectRequest.t -> bool) (request : Request H R) (config : Config.t) : Handled H opened :=
  match ExtendedConnectRequest.from_request request with
  | Some ws_req =>
      let ws_req := assume_websocket ws_req in
      if negb (filter ws_req) then respond_error FORBIDDEN (str "WebSocket connection rejected by filter")
      else upgrade request config ws_req
  | None => respond_error BAD_REQUEST (str "Expected Extended CONNECT for WebSocket")
  end.
End Server.

(** [serve] with its handler for one request: the settings are checked, then every accepted request gets a task, until h2 reports an error or the end. *)
Fixpoint serve_loop {Q X : Type} (handle : Q -> X) (accepted : list (res H2Error Q)) : list X * result unit :=
  match accepted with
  | [] => ([], Ok tt)
  | Err e :: _ => ([], Err (from_h2_error e))
  | Ok q :: accepted => let '(tasks, r) := serve_loop handle accepted in (handle q :: tasks, r)
  end.
Definition serve {Q X : Type} (c : Http2Config.t) (handshake : H2Settings -> res H2Error (list (res H2Error Q))) (handle : Q -> X) : list X * result unit :=
  match settings c with
  | Err e => ([], Err e)
  | Ok s => match handshake s with Err e => ([], Err (from_h2_error e)) | Ok accepted => serve_loop handle accepted end
  end.
End Http2Server.

Module Http2Client.
Section Client.
Context {H S R : Type} `{HeaderMap H} `{UriParser}.
Abbreviation opened := (WebSocketStream.t * Http2Stream.t S R)%type.

Definition settings (c : Http2Config.t) : result H2Settings :=
  match Http2Config.validated_max_frame_size c with
  | Err e => Err e
  | Ok size => Ok (MkSettings size (Http2Config.initial_stream_window_size c) (Http2Config.initial_connection_window_size c) None false)
  end.

Fixpoint extra_headers (builder : option H) (headers : list (bytes * bytes)) : option H :=
  match headers with
  | [] => builder
  | (name, value) :: headers => extra_headers (header builder name value) headers
  end.

(** The authority, the path and the scheme of the URI. *)
Definition parse_target (uri : bytes) : result (bytes * bytes * bytes) :=
  match uri_parse uri with
  | None => Err (HandshakeFailed "invalid URI")
  | Some uri =>
      match Handshake.authority uri with
      | None => Err (HandshakeFailed "URI missing authority")
      | Some (authority, _) => Ok (authority, default (str "/") (path_and_query uri), default (str "https") (scheme_str uri))
      end
  end.

Definition build_request (target : bytes * bytes * bytes) (protocol : option bytes) (extra : option (list (bytes * bytes))) : result (Request H unit) :=
  let '(authority, path, scheme) := target in
  let full_uri := scheme ++ str "://" ++ authority ++ path in
  let headers := header (header_if (Some hm_new) (str "sec-websocket-protocol") protocol) (str "sec-websocket-version") (str "13") in
  let headers := match extra with Some l => extra_headers headers l | None => headers end in
  match uri_parse full_uri, headers with
  | Some uri, Some headers => Ok (MkRequest_ CONNECT uri headers (Some (str "websocket")) None tt)
  | _, _ => Err (HandshakeFailed "failed to build request")
  end.

(** Sending gives the sending stream at once and the response, with the receiving stream, later. *)
Context (send_request : Request H unit -> res H2Error (S * res H2Error (Response H * R))).

Definition open (config : Config.t) (request : Request H unit) : result opened :=
  match send_request request with
  | Err e => Err (from_h2_error e)
  | Ok (send_stream, response) =>
      match response with
      | Err e => Err (from_h2_error e)
      | Ok (response, recv_stream) =>
          if negb (resp_status response =? OK_) then Err (HandshakeFailed "server rejected WebSocket upgrade")
          else Ok (with_immediate_write_shutdown (from_raw Client config), Http2Stream.new send_stream recv_stream)
      end
  end.

(** [MultiplexedConnection::<Http2>::open_websocket] *)
Definition open_websocket (config : Config.t) (uri : bytes) (protocol : option bytes) : result opened :=
  match parse_target uri with
  | Err e => Err e
  | Ok target => match build_request target protocol None with Err e => Err e | Ok request => open config request end
  end.
End Client.

(** [connect_with_headers]: the handshake of h2 gives the handle requests are sent with. *)
Definition connect_with_headers {H S R : Type} `{HeaderMap H} `{UriParser}
    (handshake : H2Settings -> res H2Error (Request H unit -> res H2Error (S * res H2Error (Response H * R))))
    (config : Config.t) (c : Http2Config.t) (uri : bytes) (protocol : option bytes) (extra : option (list (bytes * bytes)))
    : result (WebSocketStream.t * Http2Stream.t S R) :=
  match parse_target uri with
  | Err e => Err e
  | Ok target =>
      match settings c with
      | Err e => Err e
      | Ok s =>
          match handshake s with
          | Err e => Err (from_h2_error e)
          | Ok send_request => match build_request target protocol extra with Err e => Err e | Ok request => open send_request config request end
          end
      end
  end.

(** [connect_multiplexed] *)
Definition connect_multiplexed {X : Type} (handshake : H2Settings -> res H2Error X) (c : Http2Config.t) : result X :=
  match settings c with
  | Err e => Err e
  | Ok s => match handshake s with Err e => Err (from_h2_error e) | Ok send_request => Ok send_request end
  end.
End Http2Client.

(** ** HTTP/3 *)

Module Http3Server.
Section Server.
Context {H S F R : Type} `{HeaderMap H} `{H3SendStream S F}.
Abbreviation opened := (WebSocketStream.t * Http3RequestStream.t S F R)%type.
(** The halves of the request stream are what [split] gives; [send_response] may fail. *)
Context (send_response : Response H -> res bytes unit) (halves : S * R).

(** A response whose failure is ignored. *)
Definition refuse (status : Z) (reason : option bytes) : Handled H opened :=
  match build_extended_connect_error status reason with
  | None => Panicked
  | Some response => Returned [response] None (Ok tt)
  end.

(** [ignore_failure]: whether a failure to send the response is ignored. *)
Definition upgrade (ignore_failure : bool) (config : Config.t) (ws_req : ExtendedConnectRequest.t) : Handled H opened :=
  match build_extended_connect_response None None with
  | None => Panicked
  | Some response =>
      match send_response response, ignore_failure with
      | Err e, false => Returned [response] None (Err (from_h3_error e))
      | _, _ =>
          let h3_stream := Http3RequestStream.new (fst halves) (snd halves) in
          let ws := with_immediate_write_shutdown (from_raw Server config) in
          Returned [response] (Some ((ws, h3_stream), ws_req)) (Ok tt)
      end
  end.

(** The [:protocol] h3 has put among the extensions. *)
Definition protocol_header {B} (request : Request H B) : option bytes :=
  (fun p => if bool_decide (p = str "webtransport") then str "websocket" else p) <$> ext_protocol request.

Definition or_protocol (p : option bytes) (ws_req : ExtendedConnectRequest.t) : ExtendedConnectRequest.t :=
  match ExtendedConnectRequest.protocol ws_req with None => ExtendedConnectRequest.set_protocol p ws_req | Some _ => ws_req end.

Definition refusal_reason (status : Z) : option bytes :=
  if status =? NOT_IMPLEMENTED then Some (str "Unsupported :protocol value")
  else if status =? BAD_REQUEST then Some (str "Invalid WebSocket request")
  else None.

Definition handle_http3_request (request : Request H unit) (config : Config.t) (c : Http3Config.t) : Handled H opened :=
  if negb (Http3Config.enable_connect_protocol c) then refuse NOT_IMPLEMENTED (Some (str "Extended CONNECT is disabled"))
  else if negb (bool_decide (method request = CONNECT)) then refuse METHOD_NOT_ALLOWED (Some (str "Expected CONNECT"))
  else
    match ExtendedConnectRequest.from_request request with
    | None => Returned [] None (Err (HandshakeFailed "invalid CONNECT request"))
    | Some ws_req =>
        let ws_req := or_protocol (protocol_header request) ws_req in
        match ExtendedConnectRequest.validate ws_req with
        | Err status => refuse status (refusal_reason status)
        | Ok _ => upgrade false config ws_req
        end
    end.

Definition handle_http3_request_filtered (filter : ExtendedConnectRequest.t -> bool) (request : Request H unit) (config : Config.t) (c : Http3Config.t)
    : Handled H opened :=
  if negb (Http3Config.enable_connect_protocol c) then refuse NOT_IMPLEMENTED (Some (str "Extended CONNECT is disabled"))
  else if negb (bool_decide (method request = CONNECT)) then refuse METHOD_NOT_ALLOWED (Some (str "Expected CONNECT"))
  else
    match ExtendedConnectRequest.from_request request with
    | None => Returned [] None (Err (HandshakeFailed "invalid CONNECT request"))
    | Some ws_req =>
        let ws_req := or_protocol (protocol_header request) ws_req in
        if negb (filter ws_req) then refuse FORBIDDEN (Some (str "Rejected by filter"))
        else
          match ExtendedConnectRequest.validate ws_req with
          | Err status => refuse status None
          | Ok _ => upgrade true config ws_req
          end
    end.
End Server.

(** What [H3Connection::accept] gives: a request or a failure to resolve it, the end, or an error of the connection. *)
Inductive Accepted (Q : Type) := Resolved (q : Q) | Unresolved | Ended.
Arguments Resolved {Q}. Arguments Unresolved {Q}. Arguments Ended {Q}.

(** [handle_http3_connection]: a request that cannot be resolved is skipped; the end and an error end the loop. *)
Fixpoint connection_loop {Q X : Type} (handle : Q -> X) (accepted : list (Accepted Q)) : list X :=
  match accepted with
  | [] | Ended :: _ => []
  | Unresolved :: accepted => connection_loop handle accepted
  | Resolved q :: accepted => handle q :: connection_loop handle accepted
  end.
Definition handle_http3_connection {Q X : Type} (incoming : res bytes unit) (build : bool -> res bytes (list (Accepted Q))) (handle : Q -> X) (c : Http3Config.t)
    : list X * result unit :=
  match incoming with
  | Err e => ([], Err (from_quic_error e))
  | Ok _ =>
      match build (Http3Config.enable_connect_protocol c) with
      | Err e => ([], Err (from_h3_error e))
      | Ok accepted => (connection_loop handle accepted, Ok tt)
      end
  end.

(** [serve]: a task for every incoming connection of the endpoint. *)
Definition serve {Q X : Type} (c : Http3Config.t) (handle : Q -> X) (incoming : list Q) : list X * result unit :=
  match Http3Config.validate_config c with Err e => ([], Err e) | Ok _ => (map handle incoming, Ok tt) end.

(** [bind]: [tls] and the endpoint of quinn may be refused.  What is left of the TLS settings has no early data. *)
Definition bind `{Http3Config.Quinn} (tls : Z -> bool) (udp_bind endpoint_new : res IoError unit) (c : Http3Config.t)
    : result (Http3Config.QuicTransport * Http3Config.QuicEndpoint) :=
  match Http3Config.quic_transport_config c with
  | Err e => Err e
  | Ok transport =>
      match Http3Config.quic_endpoint_config c with
      | Err e => Err e
      | Ok endpoint =>
          if negb (tls 0) then Err (HandshakeFailed "invalid TLS config")
          else match udp_bind with
               | Err e => Err (Io e)
               | Ok _ => match endpoint_new with Err e => Err (Io e) | Ok _ => Ok (transport, endpoint) end
               end
      end
  end.
End Http3Server.

Module Http3Client.
(** The steps before a request can be sent, each of which may fail: the TLS settings (with early data off or on), the socket, the endpoint, the start of the connection
    and its completion, and the set-up of h3, which gives the handle requests are sent with. *)
Record Net (Send : Type) := MkNet {
  tls : bool -> bool; udp_bind : res IoError unit; endpoint_new : res IoError unit; initiate : bool; established : res bytes unit; h3_build : bool -> res bytes Send }.
Arguments MkNet {Send}. Arguments tls {Send}. Arguments udp_bind {Send}. Arguments endpoint_new {Send}. Arguments initiate {Send}. Arguments established {Send}. Arguments h3_build {Send}.

Section Client.
Context {H S F R : Type} `{HeaderMap H} `{UriParser} `{H3SendStream S F} `{Http3Config.Quinn}.
Abbreviation opened := (WebSocketStream.t * Http3RequestStream.t S F R)%type.
(** Sending a request gives the request stream; [recv_response] comes later. *)
Abbreviation Send := (Request H unit -> res bytes (S * R * res bytes (Response H))).

(** [failed]: the text when the connection cannot be started, which differs between the callers. *)
Definition establish (failed : string) (net : Net Send) (c : Http3Config.t) : result Send :=
  if negb (Http3Config.enable_connect_protocol c) then Err ExtendedConnectNotSupported
  else
    match Http3Config.quic_transport_config c with
    | Err e => Err e
    | Ok _ =>
        match Http3Config.quic_endpoint_config c with
        | Err e => Err e
        | Ok _ =>
            if negb (tls net false) then Err (HandshakeFailed "invalid TLS config")
            else match udp_bind net with
            | Err e => Err (Io e)
            | Ok _ =>
                match endpoint_new net with
                | Err e => Err (Io e)
                | Ok _ =>
                    if negb (initiate net) then Err (HandshakeFailed failed)
                    else match established net with
                    | Err e => Err (from_quic_error e)
                    | Ok _ => match h3_build net true with Err e => Err (from_h3_error e) | Ok send => Ok send end
                    end
                end
            end
        end
    end.

Definition build_request (server_name : bytes) (port : Z) (path : bytes) (subprotocol origin : option bytes) : result (Request H unit) :=
  let uri := str "https://" ++ server_name ++ str ":" ++ str (pretty port) ++ path in
  let headers := header (Some hm_new) (str "sec-websocket-version") (str "13") in
  let headers := header_if (header_if headers (str "sec-websocket-protocol") subprotocol) (str "origin") origin in
  match uri_parse uri, headers with
  | Some uri, Some headers => Ok (MkRequest_ CONNECT uri headers (Some (str "webtransport")) None tt)
  | _, _ => Err (HandshakeFailed "failed to build request")
  end.

(** The request is sent and the response awaited; [refused]: the error for a status that is not 200. *)
Definition open (refused : Z -> Error) (send : Send) (config : Config.t) (request : Request H unit) : result opened :=
  match send request with
  | Err e => Err (from_h3_error e)
  | Ok (halves, response) =>
      match response with
      | Err e => Err (from_h3_error e)
      | Ok response =>
          if resp_status response =? OK_ then Ok (with_immediate_write_shutdown (from_raw Client config), Http3RequestStream.new (fst halves) (snd halves))
          else Err (refused (resp_status response))
      end
  end.

Definition refused_by (status : Z) : Error :=
  if status =? NOT_IMPLEMENTED then ExtendedConnectNotSupported
  else if status =? FORBIDDEN then HandshakeFailed "server returned 403: connection forbidden"
  else HandshakeFailed "server rejected WebSocket upgrade".

Definition connect_with_options (net : Net Send) (config : Config.t) (c : Http3Config.t) (server_name : bytes) (port : Z) (path : bytes)
    (subprotocol origin : option bytes) : result opened :=
  match establish "failed to initiate QUIC connection" net c with
  | Err e => Err e
  | Ok send => match build_request server_name port path subprotocol origin with Err e => Err e | Ok request => open refused_by send config request end
  end.

Definition connect (net : Net Send) (config : Config.t) (c : Http3Config.t) (server_name : bytes) (port : Z) (path : bytes) : result opened :=
  connect_with_options net config c server_name port path None None.

(** [connect_multiplexed], and [MultiplexedConnection::<Http3>::open_websocket] on what it gives *)
Definition connect_multiplexed (net : Net Send) (c : Http3Config.t) : result Send := establish "failed to initiate connection" net c.
Definition open_websocket (send : Send) (config : Config.t) (server_name : bytes) (port : Z) (path : bytes) (subprotocol : option bytes) : result opened :=
  match build_request server_name port path subprotocol None with
  | Err e => Err e
  | Ok request => open (fun _ => HandshakeFailed "server rejected WebSocket upgrade") send config request
  end.
End Client.
End Http3Client.
