(* ===== verification/ConnectSpec.v ===== *)
(** * Clients and servers: theorems

    When a server accepts an extended CONNECT request and what its handler is given; clients and servers that find each other over HTTP/1.1, HTTP/2 and HTTP/3; the
    URLs a client connects to. *)

From stdpp Require Import base list option strings pretty.
From S2P Require Import Prelude Error Mask Utf8 Frame FrameSpec Protocol ReceiveSpec ProtocolSpec ProtocolProps NextSpec Heartbeat Cork Output Stream Deflate Config.
From S2P Require Import WebSocket Scripted StreamSpec StreamProps Header Handshake HandshakeSpec HttpConfig ExtendedConnect HttpStream Connect.
Import WebSocketStream.

(** ** Headers *)

Section Headers.
Context {H : Type} `{HeaderMapSpec H}.

Lemma header_some (h : H) name v : hm_len h < 32768 -> is_token name = true -> forallb is_visible v = true ->
  exists h', header (Some h) name v = Some h' /\ hm_len h' <= hm_len h + 1 /\
    forall name', is_token name' = true -> hm_get h' name' = if eq_ignore_ascii_case name name' then Some (default v (hm_get h name')) else hm_get h name'.
Proof. intros Hl Hn Hv. destruct (hm_append_ok h name v Hl Hn Hv) as [h' E]. exists h'. split; [exact E|]. by apply hm_append_spec. Qed.

(** A header that may be absent. *)
Lemma header_if_some (h : H) name v : hm_len h < 32768 -> is_token name = true -> (forall x, v = Some x -> forallb is_visible x = true) ->
  exists h', header_if (Some h) name v = Some h' /\ hm_len h' <= hm_len h + 1 /\
    forall name', is_token name' = true -> hm_get h' name' =
      if eq_ignore_ascii_case name name' then match hm_get h name' with Some old => Some old | None => v end else hm_get h name'.
Proof.
  intros Hl Hn Hv. destruct v as [v|]; cbn.
  - destruct (header_some h name v Hl Hn (Hv v eq_refl)) as (h' & E & Hl' & Hg). exists h'. split_and!; [done|done|]. intros n Ht. rewrite (Hg n Ht).
    destruct (eq_ignore_ascii_case name n); [|done]. by destruct (hm_get h n).
  - exists h. split_and!; [done|lia|]. intros n Ht. destruct (eq_ignore_ascii_case name n); [|done]. by destruct (hm_get h n).
Qed.

(** A value of a request can be sent back. *)
Lemma header_string_visible (h : H) name v : get_header_string h name = Some v -> forallb is_visible v = true.
Proof. unfold get_header_string. intros E. apply bind_Some in E as (w & _ & Ew). by apply to_str_spec in Ew as [_ Hv]. Qed.

(** [":protocol"] is not the name of a header. *)
Lemma no_protocol_header (h : H) : get_header_string h (str ":protocol") = None.
Proof. unfold get_header_string. destruct (hm_get h (str ":protocol")) as [v|] eqn:E; [|done]. by apply hm_get_token in E. Qed.

Lemma response_built protocol extensions : (forall x, protocol = Some x -> forallb is_visible x = true) -> (forall x, extensions = Some x -> forallb is_visible x = true) ->
  exists response, build_extended_connect_response (H := H) protocol extensions = Some response /\ resp_status response = OK_ /\
    hm_get (resp_headers response) (str "sec-websocket-protocol") = protocol /\ hm_get (resp_headers response) (str "sec-websocket-extensions") = extensions.
Proof.
  intros Hp He. unfold build_extended_connect_response.
  destruct (header_if_some hm_new (str "sec-websocket-protocol") protocol) as (h1 & E1 & Hl1 & Hg1); [rewrite hm_len_new; lia|done|done|].
  rewrite hm_len_new in Hl1.
  destruct (header_if_some h1 (str "sec-websocket-extensions") extensions) as (h2 & E2 & Hl2 & Hg2); [lia|done|done|].
  rewrite E1, E2. eexists. split; [done|]. cbn. split; [done|]. rewrite !Hg2, !Hg1 by done. cbn. by rewrite !hm_get_new.
Qed.

Lemma error_built status reason : (forall x, reason = Some x -> forallb is_visible x = true) ->
  exists response, build_extended_connect_error (H := H) status reason = Some response /\ resp_status response = status /\
    hm_get (resp_headers response) (str "x-error-reason") = reason.
Proof.
  intros Hr. unfold build_extended_connect_error.
  destruct (header_if_some hm_new (str "x-error-reason") reason) as (h1 & E1 & Hl1 & Hg1); [rewrite hm_len_new; lia|done|done|].
  rewrite E1. eexists. split; [done|]. cbn. split; [done|]. rewrite Hg1 by done. cbn. by rewrite hm_get_new.
Qed.
End Headers.

(** ** Requests to a server *)

Section Requests.
Context {H : Type} `{HeaderMapSpec H}.

(** What is read from a CONNECT request; [protocol] is filled in by the server. *)
Definition read_request {B} (protocol : option bytes) (request : Request H B) : ExtendedConnectRequest.t :=
  ExtendedConnectRequest.Mk (request_path (req_uri request)) (request_authority request) (default (str "https") (scheme_str (req_uri request))) protocol
    (get_header_string (req_headers request) (str "sec-websocket-protocol")) (get_header_string (req_headers request) (str "sec-websocket-extensions"))
    (get_header_string (req_headers request) (str "origin")) (get_header_string (req_headers request) (str "sec-websocket-version")).

Lemma from_request_spec {B} (request : Request H B) :
  ExtendedConnectRequest.from_request request = if bool_decide (method request = CONNECT) then Some (read_request None request) else None.
Proof. unfold ExtendedConnectRequest.from_request, read_request. case_bool_decide; [|done]. by rewrite no_protocol_header. Qed.

(** [C24] The HTTP/2 server takes every CONNECT request for an upgrade to WebSocket: it answers 200 and calls the handler whatever the [:protocol] of the request, also without one, and
    whatever its version; the handler is told the protocol was websocket, and the response names the whole list of offered subprotocols as the one selected.
    Any other method is answered with 400.  It does not panic. *)
Theorem h2_any_connect_accepted {S R : Type} (send_response : Response H -> bool -> res H2Error S) (request : Request H R) config :
  let offered := get_header_string (req_headers request) (str "sec-websocket-protocol") in
  (method request = CONNECT -> exists response, resp_status response = 200 /\ hm_get (resp_headers response) (str "sec-websocket-protocol") = offered /\
    Http2Server.handle_http2_request send_response request config =
      match send_response response false with
      | Ok send_stream => Returned [response]
          (Some ((with_immediate_write_shutdown (from_raw Server config), Http2Stream.new send_stream (body request)), read_request (Some (str "websocket")) request)) (Ok tt)
      | Err e => Returned [response] None (Err (from_h2_error e))
      end) /\
  (method request <> CONNECT -> exists response, resp_status response = 400 /\
    Http2Server.handle_http2_request send_response request config =
      Returned [response] None (match send_response response true with Ok _ => Ok tt | Err e => Err (from_h2_error e) end)).
Proof.
  intros offered. unfold Http2Server.handle_http2_request, Http2Server.upgrade, Http2Server.respond_error. rewrite from_request_spec. split; intros Hm.
  - rewrite bool_decide_eq_true_2 by done. change (ExtendedConnectRequest.subprotocols _) with offered.
    destruct (response_built offered None) as (response & E & Hst & Hp & _); [apply header_string_visible|done|].
    exists response. split_and!; [done|done|]. by rewrite E.
  - rewrite bool_decide_eq_false_2 by done.
    destruct (error_built BAD_REQUEST (Some (str "Expected Extended CONNECT for WebSocket"))) as (response & E & Hst & _); [by intros x [= <-]|].
    exists response. split; [done|]. rewrite E. by destruct (send_response response true).
Qed.

(** *** HTTP/3 *)

(** The [:protocol] of a request names WebSocket, as a client of this crate names it or as RFC 9220 does. *)
Definition names_websocket {B} (request : Request H B) : Prop :=
  exists p, ext_protocol request = Some p /\ (p = str "webtransport" \/ eq_ignore_ascii_case p (str "websocket") = true).
Definition version_ok {B} (request : Request H B) : Prop :=
  forall v, get_header_string (req_headers request) (str "sec-websocket-version") = Some v -> v = str "13".

(** The status of the answer. *)
Inductive h3_verdict {B} (c : Http3Config.t) (request : Request H B) : Z -> Prop :=
  | verdict_disabled : Http3Config.enable_connect_protocol c = false -> h3_verdict c request 501
  | verdict_method : Http3Config.enable_connect_protocol c = true -> method request <> CONNECT -> h3_verdict c request 405
  | verdict_protocol : Http3Config.enable_connect_protocol c = true -> method request = CONNECT -> ~ names_websocket request -> h3_verdict c request 501
  | verdict_version : Http3Config.enable_connect_protocol c = true -> method request = CONNECT -> names_websocket request -> ~ version_ok request -> h3_verdict c request 400
  | verdict_ok : Http3Config.enable_connect_protocol c = true -> method request = CONNECT -> names_websocket request -> version_ok request -> h3_verdict c request 200.

Definition h3_read_request {B} (request : Request H B) : ExtendedConnectRequest.t := read_request (Http3Server.protocol_header request) request.

Lemma is_websocket_spec {B} (request : Request H B) : ExtendedConnectRequest.is_websocket (h3_read_request request) = true <-> names_websocket request.
Proof.
  unfold ExtendedConnectRequest.is_websocket, h3_read_request, read_request, Http3Server.protocol_header, names_websocket. cbn. destruct (ext_protocol request) as [p|]; cbn.
  - case_bool_decide as Hp; split; [eauto|done|eauto|]. intros (q & [= <-] & [?|?]); done.
  - split; [done|]. by intros (p & ? & _).
Qed.

Lemma validate_spec {B} (request : Request H B) :
  (names_websocket request /\ version_ok request /\ ExtendedConnectRequest.validate (h3_read_request request) = Ok tt) \/
  (names_websocket request /\ ~ version_ok request /\ ExtendedConnectRequest.validate (h3_read_request request) = Err BAD_REQUEST) \/
  (~ names_websocket request /\ ExtendedConnectRequest.validate (h3_read_request request) = Err NOT_IMPLEMENTED).
Proof.
  unfold ExtendedConnectRequest.validate. pose proof (is_websocket_spec request) as Hw. destruct (ExtendedConnectRequest.is_websocket _); cbn [negb].
  - destruct Hw as [Hw _]. specialize (Hw eq_refl). unfold version_ok.
    change (ExtendedConnectRequest.version (h3_read_request request)) with (get_header_string (req_headers request) (str "sec-websocket-version")). destruct (get_header_string _ (str "sec-websocket-version")) as [v|]; [|by left; split_and!].
    case_bool_decide as Hv; cbn; [left; split_and!; [done|by intros ? [= <-]|done]|right; left]. split_and!; [done| |done]. intros Hall. by apply Hv, Hall.
  - right. right. split; [|done]. intros Hn. by apply Hw in Hn.
Qed.

Lemma refuse_spec {S F R : Type} status reason : (forall x, reason = Some x -> forallb is_visible x = true) ->
  exists response, resp_status response = status /\ Http3Server.refuse (H := H) (S := S) (F := F) (R := R) status reason = Returned [response] None (Ok tt).
Proof. intros Hr. destruct (error_built status reason Hr) as (response & E & Hs & _). exists response. split; [done|]. unfold Http3Server.refuse. by rewrite E. Qed.

Lemma refusal_reason_visible status x : Http3Server.refusal_reason status = Some x -> forallb is_visible x = true.
Proof. unfold Http3Server.refusal_reason. repeat case_match; by intros [= <-]. Qed.

End Requests.

(** ** A client and a server *)

(** The scheme, authority and path of a URI, put together again, are a URI with these parts. *)
Class UriComposeSpec `{UriParser} : Prop := uri_compose text u a host :
  uri_parse text = Some u -> Handshake.authority u = Some (a, host) ->
  uri_parse (default (str "https") (scheme_str u) ++ str "://" ++ a ++ default (str "/") (path_and_query u)) =
    Some (MkUri (Some (default (str "https") (scheme_str u))) (Some (a, host)) (Some (default (str "/") (path_and_query u)))).

Section Upgrade.
Context {H : Type} `{HeaderMapSpec H} `{UriComposeSpec}.

(** A request as the server receives it, with the body h2 or h3 gives it. *)
Definition arrives {B} (request : Request H unit) (b : B) : Request H B :=
  MkRequest_ (method request) (req_uri request) (req_headers request) (ext_protocol request) (own_protocol request) b.

Lemma get_header_some (h : H) name v : hm_get h name = v -> (forall x, v = Some x -> forallb is_visible x = true) -> get_header_string h name = v.
Proof. intros E Hv. unfold get_header_string. rewrite E. destruct v as [v|]; [|done]. by apply to_str_visible, Hv. Qed.

(** What a request asks for. *)
Definition asks {B} (request : Request H B) (path authority scheme : bytes) (subprotocols origin : option bytes) : Prop :=
  method request = CONNECT /\ forall p, read_request p request = ExtendedConnectRequest.Mk path authority scheme p subprotocols None origin (Some (str "13")).

Lemma h2_request_built text u a host protocol : uri_parse text = Some u -> Handshake.authority u = Some (a, host) ->
  (forall x, protocol = Some x -> forallb is_visible x = true) -> exists request,
  Http2Client.parse_target text = Ok (a, default (str "/") (path_and_query u), default (str "https") (scheme_str u)) /\
  Http2Client.build_request (H := H) (a, default (str "/") (path_and_query u), default (str "https") (scheme_str u)) protocol None = Ok request /\
  forall B (b : B), asks (arrives request b) (default (str "/") (path_and_query u)) a (default (str "https") (scheme_str u)) protocol None.
Proof.
  intros Eu Ea Hv. unfold Http2Client.parse_target, Http2Client.build_request. rewrite Eu, Ea, (uri_compose text u a host Eu Ea).
  destruct (header_if_some hm_new (str "sec-websocket-protocol") protocol) as (h1 & E1 & Hl1 & Hg1); [rewrite hm_len_new; lia|done|done|]. rewrite hm_len_new in Hl1.
  destruct (header_some h1 (str "sec-websocket-version") (str "13")) as (h2 & E2 & Hl2 & Hg2); [lia|done|done|]. rewrite E1, E2.
  eexists. split; [done|]. split; [done|]. intros B b. split; [done|]. intros p. unfold read_request, request_path, request_authority, arrives. cbn [req_uri req_headers path_and_query Handshake.authority scheme_str fst default].
  rewrite (get_header_some h2 (str "sec-websocket-protocol") protocol); [|by rewrite Hg2, Hg1, hm_get_new by done|done].
  rewrite !(get_header_some h2 _ None) by (done || by rewrite Hg2, Hg1, hm_get_new by done).
  rewrite (get_header_some h2 (str "sec-websocket-version") (Some (str "13"))); [done|by rewrite Hg2, Hg1, hm_get_new by done|by intros x [= <-]].
Qed.

Lemma h3_request_built name port path host subprotocol origin :
  uri_parse (str "https://" ++ name ++ str ":" ++ str (pretty port) ++ path) = Some (MkUri (Some (str "https")) (Some (name ++ str ":" ++ str (pretty port), host)) (Some path)) ->
  (forall x, subprotocol = Some x -> forallb is_visible x = true) -> (forall x, origin = Some x -> forallb is_visible x = true) -> exists request,
  Http3Client.build_request (H := H) name port path subprotocol origin = Ok request /\ ext_protocol request = Some (str "webtransport") /\
  asks request path (name ++ str ":" ++ str (pretty port)) (str "https") subprotocol origin.
Proof.
  intros Eu Hv Ho. unfold Http3Client.build_request. rewrite Eu.
  destruct (header_some hm_new (str "sec-websocket-version") (str "13")) as (h1 & E1 & Hl1 & Hg1); [rewrite hm_len_new; lia|done|done|]. rewrite hm_len_new in Hl1.
  destruct (header_if_some h1 (str "sec-websocket-protocol") subprotocol) as (h2 & E2 & Hl2 & Hg2); [lia|done|done|].
  destruct (header_if_some h2 (str "origin") origin) as (h3 & E3 & Hl3 & Hg3); [lia|done|done|]. rewrite E1, E2, E3.
  eexists. split; [done|]. split; [done|]. split; [done|]. intros p. unfold read_request, request_path, request_authority. cbn [req_uri req_headers path_and_query Handshake.authority scheme_str fst default].
  rewrite (get_header_some h3 (str "sec-websocket-protocol") subprotocol); [|by rewrite Hg3, Hg2, Hg1, hm_get_new by done|done].
  rewrite (get_header_some h3 (str "sec-websocket-extensions") None); [|by rewrite Hg3, Hg2, Hg1, hm_get_new by done|done].
  rewrite (get_header_some h3 (str "origin") origin); [|by rewrite Hg3, Hg2, Hg1, hm_get_new by done|done].
  rewrite (get_header_some h3 (str "sec-websocket-version") (Some (str "13"))); [done|by rewrite Hg3, Hg2, Hg1, hm_get_new by done|by intros x [= <-]].
Qed.

(** A connection on which the server's handler answers each request: the first response it sends reaches the client. *)
Definition h2_network {S R R' X : Type} (server : Request H R' -> Handled H X) (recv' : R') (send : S) (recv : R) (request : Request H unit)
    : res H2Error (S * res H2Error (Response H * R)) :=
  match server (arrives request recv') with
  | Returned (response :: _) _ _ => Ok (send, Ok (response, recv))
  | _ => Err (H2Other (str "stream closed"))
  end.
Definition h3_network {S R X : Type} (server : Request H unit -> Handled H X) (halves : S * R) (request : Request H unit) : res bytes (S * R * res bytes (Response H)) :=
  match server request with
  | Returned (response :: _) _ _ => Ok (halves, Ok response)
  | _ => Err (str "stream closed")
  end.

(** A client and a server of this crate open a WebSocket over HTTP/2 and over HTTP/3: for every URI with an authority, and every subprotocol and origin a header can carry,
    the request is accepted, the server's handler is given the path, authority, scheme, subprotocols, origin and version the client asked for, and both sides
    have a new message stream, in their roles, over their streams of the request. *)
Theorem extended_connect_opens `{Http3Config.QuinnSpec} {S R S' F' R' S3 F3 R3 : Type} `{H3SendStream S3 F3} `{H3SendStream S' F'}
    text u a host protocol origin config config' c2 c3 (send : S) (recv : R) (send' : S) (recv' : R) (halves : S3 * R3) (halves' : S' * R') name port path host3 :
  (forall x, protocol = Some x -> forallb is_visible x = true) -> (forall x, origin = Some x -> forallb is_visible x = true) ->
  (uri_parse text = Some u -> Handshake.authority u = Some (a, host) -> 16384 <= Http2Config.max_frame_size c2 <= 16777215 ->
    let server := fun request : Request H R => Http2Server.handle_http2_request (fun _ _ => Ok send') request config' in
    Http2Client.connect_with_headers (fun _ => Ok (h2_network server recv' send recv)) config c2 text protocol None =
      Ok (with_immediate_write_shutdown (from_raw Client config), Http2Stream.new send recv) /\
    exists request response,
      Http2Client.build_request (a, default (str "/") (path_and_query u), default (str "https") (scheme_str u)) protocol None = Ok request /\
      server (arrives request recv') = Returned [response] (Some ((with_immediate_write_shutdown (from_raw Server config'), Http2Stream.new send' recv'),
        ExtendedConnectRequest.Mk (default (str "/") (path_and_query u)) a (default (str "https") (scheme_str u)) (Some (str "websocket")) protocol None None (Some (str "13")))) (Ok tt)) /\
  (uri_parse (str "https://" ++ name ++ str ":" ++ str (pretty port) ++ path) = Some (MkUri (Some (str "https")) (Some (name ++ str ":" ++ str (pretty port), host3)) (Some path)) ->
    quic_settings_ok c3 -> Http3Config.enable_connect_protocol c3 = true ->
    let server := fun request : Request H unit => Http3Server.handle_http3_request (F := F') (fun _ => Ok tt) halves' request config' c3 in
    let net := Http3Client.MkNet (fun _ => true) (Ok tt) (Ok tt) true (Ok tt) (fun _ => Ok (h3_network server halves)) in
    Http3Client.connect_with_options (F := F3) net config c3 name port path protocol origin =
      Ok (with_immediate_write_shutdown (from_raw Client config), Http3RequestStream.new (fst halves) (snd halves)) /\
    exists request response,
      Http3Client.build_request name port path protocol origin = Ok request /\
      server request = Returned [response] (Some ((with_immediate_write_shutdown (from_raw Server config'), Http3RequestStream.new (fst halves') (snd halves')),
        ExtendedConnectRequest.Mk path (name ++ str ":" ++ str (pretty port)) (str "https") (Some (str "websocket")) protocol None origin (Some (str "13")))) (Ok tt)).
Proof.
  intros Hp Ho. split.
  - intros Eu Ea Hmf server. destruct (h2_request_built text u a host protocol Eu Ea Hp) as (request & Et & Eb & Ha). destruct (Ha R recv') as [Hm Hr].
    assert (Es : exists response, resp_status response = 200 /\ server (arrives request recv') = Returned [response]
      (Some ((with_immediate_write_shutdown (from_raw Server config'), Http2Stream.new send' recv'), read_request (Some (str "websocket")) (arrives request recv'))) (Ok tt)).
    { unfold server, Http2Server.handle_http2_request, Http2Server.upgrade. rewrite from_request_spec, bool_decide_eq_true_2 by done.
      rewrite !Hr. cbn [Http2Server.assume_websocket ExtendedConnectRequest.protocol ExtendedConnectRequest.set_protocol].
      destruct (response_built protocol None) as (response & E & Hst & _); [done|done|]. exists response. split; [done|]. change (ExtendedConnectRequest.subprotocols _) with protocol. by rewrite E. }
    destruct Es as (response & Hst & Es). rewrite Hr in Es. split; [|by exists request, response].
    unfold Http2Client.connect_with_headers, Http2Client.settings, Http2Config.validated_max_frame_size. rewrite Et.
    ztrue (16384 <=? Http2Config.max_frame_size c2). ztrue (Http2Config.max_frame_size c2 <=? 16777215). cbn [andb negb]. rewrite Eb.
    unfold Http2Client.open, h2_network. rewrite Es, Hst. done.
  - intros Eu Hq He server net. destruct (h3_request_built name port path host3 protocol origin Eu Hp Ho) as (request & Eb & Hx & Hm & Hr).
    assert (Es : exists response, resp_status response = 200 /\ server request = Returned [response]
      (Some ((with_immediate_write_shutdown (from_raw Server config'), Http3RequestStream.new (fst halves') (snd halves')), read_request (Some (str "websocket")) request)) (Ok tt)).
    { unfold server, Http3Server.handle_http3_request. rewrite He, from_request_spec, !bool_decide_eq_true_2 by done. cbn [negb].
      change (Http3Server.or_protocol _ _) with (h3_read_request request). assert (Eh : h3_read_request request = read_request (Some (str "websocket")) request).
      { unfold h3_read_request, Http3Server.protocol_header. by rewrite Hx. }
      rewrite Eh, Hr. destruct (response_built None None) as (response & E & Hst & _); [done|done|]. exists response. split; [done|].
      unfold Http3Server.upgrade. by rewrite E. }
    destruct Es as (response & Hst & Es). rewrite Hr in Es. split; [|by exists request, response].
    unfold Http3Client.connect_with_options, Http3Client.establish. rewrite He. destruct (quic_settings_exact c3) as [Hok _]; [destruct Hq as (_ & [? _] & _); lia|].
    destruct (Hok Hq) as [-> ->]. cbn [negb net Http3Client.tls Http3Client.udp_bind Http3Client.endpoint_new Http3Client.initiate Http3Client.established Http3Client.h3_build].
    rewrite Eb. unfold Http3Client.open, h3_network. rewrite Es, Hst. done.
Qed.
End Upgrade.

(** ** HTTP/1.1 *)

Section Http1.
Context `{Hp : Httparse} `{Hb : Base64} `{Hs : Sha1} `{Hu : UriParser}.

(** *** Where a URL leads *)

Lemma starts_with_app needle s : starts_with needle s = true <-> exists rest, s = needle ++ rest.
Proof.
  revert s. induction needle as [|b needle IH]; intros s; cbn; [split; eauto|]. destruct s as [|c s].
  - split; [done|]. by intros [rest ?].
  - rewrite andb_true_iff, IH, Z.eqb_eq. split; [intros [-> [rest ->]]; eauto|]. intros [rest [= -> ->]]. eauto.
Qed.

Lemma strip_prefix_spec prefix s rest : Http1Client.strip_prefix prefix s = Some rest <-> s = prefix ++ rest.
Proof.
  unfold Http1Client.strip_prefix. destruct (starts_with prefix s) eqn:E.
  - apply starts_with_app in E as [r ->]. rewrite drop_app_length. split; [by intros [= ->]|]. intros E. by apply app_inv_head in E as ->.
  - split; [done|]. intros ->. assert (starts_with prefix (prefix ++ rest) = true) by (apply starts_with_app; eauto). congruence.
Qed.

(** The port of an authority: written in decimal after the host, or 80. *)
Definition authority_port (host authority : bytes) (port : Z) : Prop :=
  (authority = host /\ port = 80) \/
  exists digits, authority = host ++ 58 :: digits /\ digits <> [] /\ forallb is_ascii_digit_byte digits = true /\ port = Http1Client.digits_value digits /\ port <= 65535.

Lemma url_port_spec host authority port : Http1Client.url_port host authority = Ok port <-> authority_port host authority port.
Proof.
  unfold Http1Client.url_port, authority_port. split.
  - destruct (Http1Client.strip_prefix host authority) as [suffix|] eqn:E; [|done]. apply strip_prefix_spec in E as ->.
    destruct suffix as [|c digits]; [intros [= <-]; left; by rewrite app_nil_r|]. cbn [mbind option_bind].
    destruct (Http1Client.strip_prefix [58] (c :: digits)) as [d|] eqn:E; [|done]. apply strip_prefix_spec in E. injection E as -> ->. cbn [mbind option_bind].
    case_bool_decide as Hd; [done|]. cbn [negb andb]. destruct (forallb is_ascii_digit_byte d) eqn:Ed; [|done].
    unfold Http1Client.parse_u16. destruct (Z.leb_spec (Http1Client.digits_value d) 65535); [|done]. intros [= <-]. right. by exists d.
  - intros [[-> ->]|(digits & -> & Hne & Hd & -> & Hle)].
    + by rewrite (proj2 (strip_prefix_spec host host [])) by (by rewrite app_nil_r).
    + rewrite (proj2 (strip_prefix_spec host (host ++ 58 :: digits) (58 :: digits))) by done. cbn [mbind option_bind].
      rewrite (proj2 (strip_prefix_spec [58] (58 :: digits) digits)) by done. cbn [mbind option_bind]. rewrite bool_decide_eq_false_2, Hd by done.
      unfold Http1Client.parse_u16. cbn [negb andb]. by ztrue (Http1Client.digits_value digits <=? 65535).
Qed.

(** A URL a client connects to, and the target. *)
Record connects (url : bytes) (t : Http1Client.Target) : Prop := {
  c_no_fragment : 35 ∉ url;
  c_target : exists u s, uri_parse url = Some u /\ scheme_str u = Some s /\ eq_ignore_ascii_case s (str "ws") = true /\
    Handshake.authority u = Some (Http1Client.t_authority t, Http1Client.t_host t) /\
    Http1Client.t_path t = match path_and_query u with Some q => if starts_with [63] q then str "/" ++ q else q | None => str "/" end;
  c_no_user : 64 ∉ Http1Client.t_authority t;
  c_host : Http1Client.t_host t <> [];
  c_port : authority_port (Http1Client.t_host t) (Http1Client.t_authority t) (Http1Client.t_port t)
}.

Lemma existsb_in b (s : bytes) : existsb (Z.eqb b) s = true <-> b ∈ s.
Proof. rewrite existsb_exists. split; [intros (x & Hx & ->%Z.eqb_eq); by apply list_elem_of_In|]. intros Hx. exists b. split; [by apply list_elem_of_In|apply Z.eqb_refl]. Qed.

Lemma url_target_spec url t : Http1Client.url_target url = Ok t <-> connects url t.
Proof.
  unfold Http1Client.url_target. pose proof (existsb_in 35 url) as Hf. destruct (existsb (Z.eqb 35) url).
  { split; [done|]. intros Hc. destruct (c_no_fragment _ _ Hc). by apply Hf. }
  assert (Hnf : 35 ∉ url) by (intros Hin; by apply Hf in Hin). clear Hf.
  destruct (uri_parse url) as [u|] eqn:Eu; [|split; [done|]; intros [_ (u & s & ? & _) _ _ _]; congruence].
  destruct (scheme_str u) as [s|] eqn:Es; [|split; [done|]; intros [_ (u' & s & ? & ? & _) _ _ _]; congruence].
  destruct (eq_ignore_ascii_case s (str "ws")) eqn:Ews; cycle 1.
  { split; [by destruct (eq_ignore_ascii_case s (str "wss"))|]. intros [_ (u' & s' & ? & ? & ? & _) _ _ _]. congruence. }
  destruct (Handshake.authority u) as [[a host]|] eqn:Ea; [|split; [done|]; intros [_ (u' & s' & ? & ? & ? & ? & _) _ _ _]; congruence].
  pose proof (existsb_in 64 a) as Hat. destruct (existsb (Z.eqb 64) a).
  { split; [done|]. intros [_ (u' & s' & E1 & _ & _ & E2 & _) Hno _ _]. rewrite Eu in E1. injection E1 as <-. rewrite Ea in E2. injection E2 as -> ->. destruct Hno. by apply Hat. }
  assert (Hno : 64 ∉ a) by (intros Hin; by apply Hat in Hin). clear Hat.
  case_bool_decide as Hh; [split; [done|]; intros [_ (u' & s' & E1 & _ & _ & E2 & _) _ Hne _]; rewrite Eu in E1; injection E1 as <-; rewrite Ea in E2; by injection E2 as -> ->|].
  split.
  - destruct (Http1Client.url_port host a) as [port|] eqn:Ep; [|done]. intros [= <-]. apply url_port_spec in Ep. split; cbn; try done. exists u, s. by split_and!.
  - intros [_ (u' & s' & E1 & _ & _ & E2 & E3) _ _ Hport]. rewrite Eu in E1. injection E1 as <-. rewrite Ea in E2. injection E2 as -> ->.
    apply url_port_spec in Hport. rewrite Hport, <- E3. by destruct t.
Qed.

(** [C25] [connect_to_url] opens a connection exactly for a ws URL without a fragment and user information whose authority is a host, by itself or with a decimal port of at most 65535; it
    connects to that host and port (80 when none is written) and to no other, and makes the handshake with the authority as it is written and the path and query of the URL.
    For any other URL, one with wss among them, no connection is made and the handshake fails. *)
Theorem connect_to_url_exact tcp_connect set_nodelay config random url protocol extra :
  (forall t, connects url t ->
    0 <= Http1Client.t_port t <= 65535 /\
    Http1Client.connect_to_url_with_headers tcp_connect set_nodelay config random url protocol extra =
      match tcp_connect (Http1Client.t_host t ++ str ":" ++ str (pretty (Http1Client.t_port t))) with
      | Err e => (None, Err (Io e))
      | Ok stream =>
          match set_nodelay stream with
          | Err e => (None, Err (Io e))
          | Ok _ => let '(stream, r) := Http1Client.connect_with_headers config stream random (Http1Client.t_authority t) (Http1Client.t_path t) protocol extra in (Some stream, r)
          end
      end) /\
  ((forall t, ~ connects url t) -> exists msg, Http1Client.connect_to_url_with_headers tcp_connect set_nodelay config random url protocol extra = (None, Err (HandshakeFailed msg))).
Proof.
  unfold Http1Client.connect_to_url_with_headers. split.
  - intros t Hc. split; [|by rewrite (proj2 (url_target_spec url t) Hc)].
    destruct (c_port _ _ Hc) as [[_ ->]|(digits & _ & _ & Hd & -> & Hle)]; [lia|]. split; [|done]. unfold Http1Client.digits_value.
    assert (Hpos : forall acc, 0 <= acc -> 0 <= foldl (fun acc b => acc * 10 + (b - 48)) acc digits); [|apply Hpos; lia].
    apply forallb_Forall_true in Hd. clear Hle. induction Hd as [|b digits Hb' _ IH]; intros acc Hacc; cbn; [done|]. apply IH.
    unfold is_ascii_digit_byte in Hb'. apply andb_true_iff in Hb' as [Hb1%Z.leb_le _]. lia.
  - intros Hno. destruct (Http1Client.url_target url) as [t|e] eqn:E; [by apply url_target_spec, Hno in E|].
    assert (Hport : forall host a e', Http1Client.url_port host a = Err e' -> e' = HandshakeFailed "invalid port").
    { unfold Http1Client.url_port. intros host a e'. destruct (Http1Client.strip_prefix host a) as [[|? ?]|]; [done|..]; case_match; by intros [= <-]. }
    revert E. unfold Http1Client.url_target. repeat case_match; intros [= <-]; eauto. match goal with Hx : Http1Client.url_port _ _ = Err _ |- _ => apply Hport in Hx as -> end. eauto.
Qed.
End Http1.

(** *** From the handshake to the messages *)

Section Connection.
Context `{Hp : Httparse} `{Hb : Base64} `{Hs : Sha1} `{Hu : UriParser} {Hb' : Base64Spec} {Hp' : HttparseSpec} {Hu' : UriSpec}.
Context {T : Type} `{RuntimeSpec T} {SU : Simdutf8} {SUok : Simdutf8Spec} (arch : Arch) (slice_addr : bytes -> Z) (Harch : arch_ok arch).

(** The messages of the reference receiver of one endpoint. *)
Definition messages (role : Role) (c : Config.t) (raw : bytes) : list Message.t :=
  fst (ref_run (ref_frame (Config.max_message_size c) (Config.validate_text_utf8 c)) (initial_policy role (Config.max_frame_size c)) None raw).

(** A stream that started with the leftover of a handshake returns the first messages of all the bytes that followed the head, as far as they are read from the connection. *)
Definition delivers_after_head (role : Role) (c : Config.t) (p : Peer) (r : HandshakeResult) (early : bytes) : Prop :=
  forall D s (i : T) fuel task, reachable arch slice_addr role c (h_leftover r) D s i -> enough fuel i ->
  exists s' i' x, poll_next arch slice_addr fuel task (s, i) = Done (s', i') (Ok x) /\
    forall rest, concat (omap read_bytes (reads p)) = taken i' ++ rest -> exists more, messages role c early = D ++ delivered x ++ more.

Lemma delivers_leftover role c p r early : bytes_ok early -> after_head p r = early -> delivers_after_head role c p r early.
Proof.
  intros Hok Ea D s i fuel task Hr Hf. assert (Hl : bytes_ok (default [] (h_leftover r)) /\ bytes_ok (concat (omap read_bytes (reads p)))).
  { unfold after_head in Ea. rewrite <- Ea in Hok. by apply bytes_ok_app in Hok. }
  destruct Hl as [Hl Hrest]. destruct (poll_next_delivers arch slice_addr Harch role c (h_leftover r) D s i fuel task Hl Hr Hf) as (s' & i' & x & E & Hpre & _).
  exists s', i', x. split; [done|]. intros rest Er. rewrite Er in Hrest. apply bytes_ok_app in Hrest as [_ Hrest].
  destruct (Hpre rest Hrest) as [more Hm]. exists more. rewrite <- Hm, <- Er, <- Ea. done.
Qed.

End Connection.
