(* ===== verification/ConnectWitness.v ===== *)
(** * Clients and servers: concrete connections

    The theorems of ConnectSpec.v at a header map that is a list, URIs cut at ["://"], and the handshake of HandshakeWitness.v. *)

From stdpp Require Import base list option strings pretty.
From S2P Require Import Prelude Error Mask Utf8 Frame FrameSpec Protocol ReceiveSpec ProtocolSpec ProtocolProps NextSpec Heartbeat Cork Output Stream Deflate Config.
From S2P Require Import WebSocket Scripted StreamSpec StreamProps Header Handshake HandshakeSpec HandshakeWitness HttpConfig ExtendedConnect HttpStream Connect ConnectSpec.
Import WebSocketStream.

(** ** A header map *)

Definition HeaderList := list (bytes * bytes).
Definition list_get (h : HeaderList) (name : bytes) : option bytes := snd <$> List.find (fun x => eq_ignore_ascii_case (fst x) name && is_token name) h.
#[export] Instance header_list : HeaderMap HeaderList := {
  hm_new := [];
  hm_append h name value := if (len h <? 32768) && is_token name && forallb is_header_value_byte value then Some (h ++ [(name, value)]) else None;
  hm_get := list_get;
  hm_len h := len h;
  to_str v := if forallb is_visible v then Some v else None
}.

Lemma find_snoc {A} (f : A -> bool) l x : List.find f (l ++ [x]) = match List.find f l with Some y => Some y | None => if f x then Some x else None end.
Proof. induction l as [|y l IH]; cbn; [by destruct (f x)|]. by destruct (f y). Qed.

#[export] Instance header_list_spec : HeaderMapSpec HeaderList.
Proof.
  split; cbn; try done.
  - intros h name v. unfold list_get. destruct (List.find _ h) as [[n v']|] eqn:E; [|done]. apply List.find_some in E as [_ E]. by apply andb_true_iff in E as [_ ?].
  - intros h name v Hl -> Hv. ztrue (len h <? 32768). cbn. rewrite (proj2 (forallb_Forall_true _ _)); [eauto|].
    apply forallb_Forall_true in Hv. eapply Forall_impl; [exact Hv|]. unfold is_visible, is_header_value_byte. intros b. lia.
  - intros h h' name v. destruct (_ && _ && _) eqn:E; [|done]. intros [= <-]. rewrite len_app, len_cons, len_nil. split; [lia|]. intros name' Ht.
    unfold list_get. rewrite find_snoc. cbn. rewrite Ht, !andb_true_r. destruct (List.find _ h); cbn; by destruct (eq_ignore_ascii_case name name').
  - intros v s. destruct (forallb is_visible v) eqn:E; [|done]. by intros [= <-].
  - by intros v ->.
Qed.

(** ** URIs *)

(** A parser that knows three URIs besides paths. *)
Definition known_uris : list (bytes * Uri) :=
  [(str "wss://example.com/chat", MkUri (Some (str "wss")) (Some (str "example.com", str "example.com")) (Some (str "/chat")));
   (str "ws://example.com:8080/chat?x", MkUri (Some (str "ws")) (Some (str "example.com:8080", str "example.com")) (Some (str "/chat?x")));
   (str "https://example.com:443/chat", MkUri (Some (str "https")) (Some (str "example.com:443", str "example.com")) (Some (str "/chat")))].
#[local] Instance known_uri : UriParser := fun text =>
  match List.find (fun x => bool_decide (fst x = text)) known_uris with Some (_, u) => Some u | None => simple_uri text end.

#[local] Instance known_compose : UriComposeSpec.
Proof.
  intros text u a host Hu Ha. unfold uri_parse, known_uri in Hu. destruct (List.find _ known_uris) as [[t u']|] eqn:E.
  - injection Hu as ->. apply List.find_some in E as [Hin _]. cbn in Hin.
    destruct Hin as [[= <- <-]|[[= <- <-]|[[= <- <-]|[]]]]; injection Ha as <- <-; vm_compute; reflexivity.
  - unfold simple_uri in Hu. destruct (starts_with [47] text); [|done]. by injection Hu as <-.
Qed.

#[local] Instance known_uri_spec : UriSpec.
Proof.
  intros target Hs _. unfold uri_parse, known_uri. destruct (List.find _ known_uris) as [[t u']|] eqn:E; [|unfold simple_uri; by rewrite Hs].
  apply List.find_some in E as [Hin He]. apply bool_decide_eq_true in He. cbn in He. subst. cbn in Hin. by destruct Hin as [[= <- _]|[[= <- _]|[[= <- _]|[]]]].
Qed.

(** ** Requests *)

(** A CONNECT request for another protocol and version, which offers two subprotocols. *)
Definition strange_request : Request HeaderList unit :=
  MkRequest_ CONNECT (MkUri (Some (str "https")) (Some (str "example.com", str "example.com")) (Some (str "/chat")))
    [(str "sec-websocket-protocol", str "chat, superchat"); (str "sec-websocket-version", str "7")] (Some (str "connect-udp")) None tt.

Lemma h2_any_connect_accepted_witness : exists response,
  resp_status response = 200 /\ hm_get (resp_headers response) (str "sec-websocket-protocol") = Some (str "chat, superchat") /\
  Http2Server.handle_http2_request (fun _ _ => Ok tt) strange_request Config.default = Returned [response]
    (Some ((with_immediate_write_shutdown (from_raw Server Config.default), Http2Stream.new tt tt), read_request (Some (str "websocket")) strange_request)) (Ok tt).
Proof. destruct (h2_any_connect_accepted (fun _ _ => Ok tt) strange_request Config.default) as [Hc _]. apply Hc. reflexivity. Defined.

(** The same request over HTTP/3. *)
#[local] Instance unit_h3 : H3SendStream unit unit := { h3_send_data s _ := s; h3_finish s := s; h3_poll f := inr (f, Ok tt) }.


(** ** A client and a server *)

#[local] Instance plain_quinn : Http3Config.Quinn := {
  Http3Config.varint_from_u64 n := if n <? 2 ^ 62 then Some n else None; Http3Config.payload_size_ok n := (1200 <=? n) && (n <=? 65527) }.
#[local] Instance plain_quinn_spec : Http3Config.QuinnSpec.
Proof. by split. Qed.

Lemma extended_connect_opens_witness :
  (exists ws h2, Http2Client.connect_with_headers (H := HeaderList)
     (fun _ => Ok (h2_network (fun request : Request HeaderList nat => Http2Server.handle_http2_request (fun _ _ => Ok 2%nat) request Config.default) 3%nat 4%nat 5%nat))
     Config.default Http2Config.default (str "wss://example.com/chat") (Some (str "chat")) None = Ok (ws, h2) /\ h2 = Http2Stream.new 4%nat 5%nat) /\
  (exists request response r, Http3Client.build_request (H := HeaderList) (str "example.com") 443 (str "/chat") (Some (str "chat")) (Some (str "https://example.com")) = Ok request /\
     Http3Server.handle_http3_request (F := unit) (fun _ => Ok tt) (tt, tt) request Config.default Http3Config.default = Returned [response] (Some r) (Ok tt) /\
     ExtendedConnectRequest.origin (snd r) = Some (str "https://example.com")).
Proof.
  destruct (extended_connect_opens (H := HeaderList) (F3 := unit) (F' := unit) (str "wss://example.com/chat")
    (MkUri (Some (str "wss")) (Some (str "example.com", str "example.com")) (Some (str "/chat"))) (str "example.com") (str "example.com") (Some (str "chat")) (Some (str "https://example.com"))
    Config.default Config.default Http2Config.default Http3Config.default 4%nat 5%nat 2%nat 3%nat (tt, tt) (tt, tt) (str "example.com") 443 (str "/chat") (str "example.com"))
    as [H2 H3]; [by intros x [= <-]|by intros x [= <-]|].
  destruct H2 as [H2 _]; [reflexivity|reflexivity|cbn; lia|]. destruct H3 as (_ & request & response & Hb & Hs); [reflexivity|apply default_settings_ok|reflexivity|].
  split.
  - eexists _, _. split; [exact H2|reflexivity].
  - exists request, response. eexists. split; [exact Hb|]. split; [exact Hs|reflexivity].
Defined.

(** ** A URL *)

Definition chat_target : Http1Client.Target := Http1Client.MkTarget (str "example.com") 8080 (str "example.com:8080") (str "/chat?x").
Lemma chat_connects : connects (str "ws://example.com:8080/chat?x") chat_target.
Proof. apply url_target_spec. vm_compute. reflexivity. Qed.
#[local] Existing Instance simple_httparse.

Lemma connect_to_url_exact_witness :
  connects (str "ws://example.com:8080/chat?x") chat_target /\ 0 <= Http1Client.t_port chat_target <= 65535 /\
  Http1Client.connect_to_url_with_headers (fun address => if bool_decide (address = str "example.com:8080") then Err (MkIoError IoTimedOut (str "slow")) else Ok client_peer) (fun _ => Ok tt)
    Config.default (str "0123456789abcdef") (str "ws://example.com:8080/chat?x") None None = (None, Err (Io (MkIoError IoTimedOut (str "slow")))) /\
  (exists msg, Http1Client.connect_to_url_with_headers (fun _ => Ok client_peer) (fun _ => Ok tt) Config.default [] (str "wss://example.com/chat") None None = (None, Err (HandshakeFailed msg))).
Proof.
  split; [exact chat_connects|].
  destruct (connect_to_url_exact (fun address => if bool_decide (address = str "example.com:8080") then Err (MkIoError IoTimedOut (str "slow")) else Ok client_peer) (fun _ => Ok tt)
    Config.default (str "0123456789abcdef") (str "ws://example.com:8080/chat?x") None None) as [Hok _].
  destruct (Hok chat_target chat_connects) as [Hp E]. split; [exact Hp|]. split; [exact E|].
  apply (connect_to_url_exact (fun _ => Ok client_peer) (fun _ => Ok tt) Config.default [] (str "wss://example.com/chat") None None).
  intros t Ht. apply url_target_spec in Ht. vm_compute in Ht. discriminate.
Defined.

(** ** A connection over HTTP/1.1 *)

