(* ===== verification/CompioHttp.v ===== *)
(** * HTTP/2 and HTTP/3 on compio (src/src/compio.rs)

    The request streams of h2 and h3 behind compio's traits, and the clients and servers that open WebSockets over them.  The streams are those of HttpStream.v, the requests and responses
    those of ExtendedConnect.v.  An async function is the function that one poll of it is; a write that is under way is part of the stream, as it holds it. *)

From stdpp Require Import base list option strings pretty.
From S2P Require Import Prelude Error Mask Utf8 Frame Protocol Heartbeat Cork Output Stream Deflate Config WebSocket Header Handshake HttpConfig ExtendedConnect HttpStream HttpStreamSpec.
From S2P Require Import Compio Connect ConnectSpec ConnectWitness.

(** [copy_into_compio_buf]: what is copied and what is left *)
Definition copy_into_compio_buf (room : Z) (src : bytes) : bytes * bytes :=
  let n := Z.min (len src) room in
  if n =? 0 then ([], src) else (upto n src, if n =? len src then [] else from n src).

Definition poll_read_cancelled : IoError := io_other (str "poll-based read cancelled").
(** [poll_read_until_cancelled]: a read that is pending yields when the task's token has been cancelled; the read is preferred. *)
Definition until_cancelled {A} (cancelled : bool) (r : poll A) : poll (option A) :=
  match r with Ready a => Ready (Some a) | Pending => if cancelled then Ready None else Pending end.

(** ** HTTP/2 *)

Module CompioHttp2Stream.
Import Http2Stream.
Section Stream.
Context {S R : Type} `{H2Send S} `{H2Recv R}.
Abbreviation t := (Http2Stream.t S R).

(** [poll_data] until it gives a frame that is not empty *)
Fixpoint poll_nonempty (fuel : nat) (r : R) : option (R * poll (option (res bytes bytes))) :=
  match fuel with
  | O => None
  | Datatypes.S fuel =>
      let '(r, x) := poll_data r in
      match x with
      | Ready (Some (Ok data)) => if bool_decide (data = []) then poll_nonempty fuel r else Some (r, x)
      | _ => Some (r, x)
      end
  end.

Definition read (fuel : nat) (cancelled : bool) (room : Z) (s : t) : option (t * poll (res IoError bytes)) :=
  if room =? 0 then Some (s, Ready (Ok []))
  else if negb (bool_decide (recv_buf s = [])) then
    let '(copied, rest) := copy_into_compio_buf room (recv_buf s) in Some (set_recv_buf rest s, Ready (Ok copied))
  else if recv_eof s then Some (s, Ready (Ok []))
  else
    '(recv, x) ← poll_nonempty fuel (recv s);
    let s := set_recv recv s in
    Some match until_cancelled cancelled x with
         | Pending => (s, Pending)
         | Ready None => (s, Ready (Err poll_read_cancelled))
         | Ready (Some (Some (Ok data))) =>
             let s := set_recv (release_capacity recv (len data)) s in
             let '(copied, rest) := copy_into_compio_buf room data in (set_recv_buf rest s, Ready (Ok copied))
         | Ready (Some (Some (Err e))) => (s, Ready (Err (io_other e)))
         | Ready (Some None) => (set_recv_eof true s, Ready (Ok []))
         end.

(** [write], up to its first await and then one poll of it *)
Definition write_start (s : t) (buf : bytes) : t * option (res IoError Z) :=
  if bool_decide (buf = []) then (s, Some (Ok 0))
  else if (0 <? capacity_needed s) || (capacity (send s) =? 0) then (set_capacity_needed (len buf) (set_send (reserve_capacity (send s) (len buf)) s), None)
  else (s, None).
Definition write_poll (s : t) (buf : bytes) : t * poll (res IoError Z) :=
  let '(send, r) := poll_capacity (send s) in
  let s := set_send send s in
  match r with
  | Pending => (s, Pending)
  | Ready (Some (Err e)) => (s, Ready (Err (io_other e)))
  | Ready None => (s, Ready (Err (MkIoError IoBrokenPipe (str "HTTP/2 stream closed"))))
  | Ready (Some (Ok capacity)) =>
      let n := Z.min capacity (len buf) in
      let '(send, r) := send_data send (upto n buf) false in
      let s := set_send send s in
      match r with
      | Ok _ => (set_capacity_needed 0 s, Ready (Ok n))
      | Err e => (s, Ready (Err (io_other e)))
      end
  end.
Definition flush (s : t) : t * res IoError unit := (s, Ok tt).
Definition shutdown (s : t) : t * res IoError unit :=
  let '(send, r) := send_data (send s) [] true in (set_send send s, match r with Ok _ => Ok tt | Err e => Err (io_other e) end).
End Stream.
End CompioHttp2Stream.

Module CompioHttp2.
Section Http2.
Context {H S R : Type} `{HeaderMap H} `{UriParser}.
Abbreviation opened := (CompioWebSocketStream.t * Http2Stream.t S R)%type.
Definition multiplexed (role : Role) (config : Config.t) : CompioWebSocketStream.t := CompioStream.with_immediate_write_shutdown (CompioWebSocketStream.from_raw role config).

Definition build_request (target : bytes * bytes * bytes) (protocol : option bytes) : result (Request H unit) :=
  let '(authority, path, scheme) := target in
  let headers := header_if (header (Some hm_new) (str "sec-websocket-version") (str "13")) (str "sec-websocket-protocol") protocol in
  match uri_parse (scheme ++ str "://" ++ authority ++ path), headers with
  | Some uri, Some headers => Ok (MkRequest_ CONNECT uri headers (Some (str "websocket")) None tt)
  | _, _ => Err (HandshakeFailed "failed to build request")
  end.

Definition open_websocket (send_request : Request H unit -> res H2Error (S * res H2Error (Response H * R))) (config : Config.t) (uri : bytes) (protocol : option bytes) : result opened :=
  match Http2Client.parse_target uri with
  | Err e => Err e
  | Ok target =>
      match build_request target protocol with
      | Err e => Err e
      | Ok request =>
          match send_request request with
          | Err e | Ok (_, Err e) => Err (from_h2_error e)
          | Ok (send_stream, Ok (response, recv_stream)) =>
              if negb (resp_status response =? OK_) then Err (HandshakeFailed "server rejected WebSocket upgrade")
              else Ok (multiplexed Client config, Http2Stream.new send_stream recv_stream)
          end
      end
  end.

Definition connect_http2_multiplexed {X : Type} (handshake : H2Settings -> res H2Error X) (c : Http2Config.t) : result X :=
  match Http2Client.settings c with
  | Err e => Err e
  | Ok s => match handshake s with Err e => Err (from_h2_error e) | Ok send_request => Ok send_request end
  end.
Definition connect_http2 (handshake : H2Settings -> res H2Error (Request H unit -> res H2Error (S * res H2Error (Response H * R)))) (config : Config.t) (c : Http2Config.t)
    (uri : bytes) (protocol : option bytes) : result opened :=
  match connect_http2_multiplexed handshake c with Err e => Err e | Ok send_request => open_websocket send_request config uri protocol end.

Definition handle_http2_request (send_response : Response H -> bool -> res H2Error S) (request : Request H R) (config : Config.t) : Handled H opened :=
  let refuse (status : Z) (reason : option bytes) : Handled H opened :=
    match build_extended_connect_error status reason with None => Connect.Panicked | Some response => Connect.Returned [response] None (Ok tt) end in
  match ExtendedConnectRequest.from_request request with
  | Some ws_req =>
      let ws_req := Http2Server.assume_websocket ws_req in
      match ExtendedConnectRequest.validate ws_req with
      | Err status => refuse status None
      | Ok _ =>
          match build_extended_connect_response None None with
          | None => Connect.Panicked
          | Some response =>
              match send_response response false with
              | Err e => Connect.Returned [response] None (Err (from_h2_error e))
              | Ok send_stream => Connect.Returned [response] (Some ((multiplexed Server config, Http2Stream.new send_stream (body request)), ws_req)) (Ok tt)
              end
          end
      end
  | None => refuse METHOD_NOT_ALLOWED (Some (str "Expected CONNECT"))
  end.
End Http2.

(** A task for every request, until h2 reports an error or the end. *)
Fixpoint serve_loop {Q X : Type} (handle : Q -> X) (accepted : list (res H2Error Q)) : list X :=
  match accepted with
  | [] | Err _ :: _ => []
  | Ok q :: accepted => handle q :: serve_loop handle accepted
  end.
Definition serve_http2 {Q X : Type} (handshake : H2Settings -> res H2Error (list (res H2Error Q))) (c : Http2Config.t) (handle : Q -> X) : list X * result unit :=
  match Http2Server.settings c with
  | Err e => ([], Err e)
  | Ok s => match handshake s with Err e => ([], Err (from_h2_error e)) | Ok accepted => (serve_loop handle accepted, Ok tt) end
  end.
End CompioHttp2.

(** ** HTTP/3 *)

(** Dropping the future of [send_data] and [cancel_write]: the sending half with both directions stopped, and the receiving half. *)
Class H3Cancel (S F R : Type) := { h3_stop : F -> S; h3_stop_sending : R -> R }.

(** [CompioHttp3ClientStream] and [CompioHttp3ServerStream], which differ in the type of the request stream and in what the former keeps alive. *)
Module CompioHttp3Stream.
(** The sending half, or the future that holds it. *)
Record t (S F R : Type) := Mk { sending : S + F; recv : R; recv_buf : bytes; write_cancelled : bool }.
Arguments Mk {S F R}. Arguments sending {S F R}. Arguments recv {S F R}. Arguments recv_buf {S F R}. Arguments write_cancelled {S F R}.

Definition compio_h3_cancelled_write_error (kind : IoErrorKind) : IoError := MkIoError kind (str "HTTP/3 DATA write was cancelled").

Section Stream.
Context {S F R : Type} `{H3SendStream S F} `{H3RecvStream R} `{H3Cancel S F R} (connection_aborted : IoErrorKind).
Abbreviation t := (t S F R).
Definition aborted : IoError := compio_h3_cancelled_write_error connection_aborted.

Definition new (send : S) (recv : R) : t := Mk (inl send) recv [] false.

Definition read (cancelled : bool) (room : Z) (s : t) : t * poll (res IoError bytes) :=
  let copy (s : t) (buf : bytes) : t * poll (res IoError bytes) :=
    let '(copied, rest) := copy_into_compio_buf room buf in (Mk (sending s) (recv s) rest (write_cancelled s), Ready (Ok copied)) in
  if write_cancelled s then (s, Ready (Err aborted))
  else if room =? 0 then (s, Ready (Ok []))
  else if negb (bool_decide (recv_buf s = [])) then copy s (recv_buf s)
  else
    let '(r, x) := poll_recv_data (recv s) in
    let s := Mk (sending s) r (recv_buf s) (write_cancelled s) in
    match until_cancelled cancelled x with
    | Pending => (s, Pending)
    | Ready None => (s, Ready (Err poll_read_cancelled))
    | Ready (Some (Ok (Some data))) => copy s data
    | Ready (Some (Ok None)) => (s, Ready (Ok []))
    | Ready (Some (Err e)) => (s, Ready (Err (io_other e)))
    end.

(** [write] and [shutdown], up to their first await and then one poll of what they await; a call of the stream while a future holds it does not happen. *)
Definition start (future : S -> F) (s : t) : t :=
  match sending s with inl stream => Mk (inr (future stream)) (recv s) (recv_buf s) (write_cancelled s) | inr _ => s end.
Definition write_start (s : t) (buf : bytes) : t * option (res IoError Z) :=
  if write_cancelled s then (s, Some (Err aborted))
  else if bool_decide (buf = []) then (s, Some (Ok 0))
  else (start (fun stream => h3_send_data stream buf) s, None).
Definition shutdown_start (s : t) : t * option (res IoError unit) :=
  if write_cancelled s then (s, Some (Err aborted)) else (start h3_finish s, None).
Definition poll_future (s : t) : t * poll (res IoError unit) :=
  match sending s with
  | inl _ => (s, Pending)
  | inr f =>
      match h3_poll f with
      | inl f => (Mk (inr f) (recv s) (recv_buf s) (write_cancelled s), Pending)
      | inr (stream, r) => (Mk (inl stream) (recv s) (recv_buf s) (write_cancelled s), Ready (match r with Ok _ => Ok tt | Err e => Err (io_other e) end))
      end
  end.
Definition write_poll (s : t) (buf : bytes) : t * poll (res IoError Z) :=
  let '(s, r) := poll_future s in
  (s, match r with Pending => Pending | Ready (Ok _) => Ready (Ok (len buf)) | Ready (Err e) => Ready (Err e) end).

(** A write that is dropped: its guard is armed until [send_data] has returned. *)
Definition write_drop (s : t) : t :=
  match sending s with inr f => Mk (inl (h3_stop f)) (h3_stop_sending (recv s)) (recv_buf s) true | inl _ => s end.
Definition flush (s : t) : t * res IoError unit := (s, if write_cancelled s then Err aborted else Ok tt).
End Stream.
End CompioHttp3Stream.

Module CompioHttp3.
Section Http3.
Context {H S F R : Type} `{HeaderMap H} `{UriParser} `{Http3Config.Quinn}.
Abbreviation opened := (CompioWebSocketStream.t * CompioHttp3Stream.t S F R)%type.
Abbreviation Send := (Request H unit -> res bytes (S * R * res bytes (Response H))).

Definition build_request (server_name : bytes) (port : Z) (path : bytes) (protocol : option bytes) : result (Request H unit) :=
  let uri := str "https://" ++ server_name ++ str ":" ++ str (pretty port) ++ path in
  let headers := header_if (header (Some hm_new) (str "sec-websocket-version") (str "13")) (str "sec-websocket-protocol") protocol in
  match uri_parse uri, headers with
  | Some uri, Some headers => Ok (MkRequest_ CONNECT uri headers (Some (str "webtransport")) None tt)
  | _, _ => Err (HandshakeFailed "failed to build request")
  end.

Definition open_websocket (send_request : Send) (config : Config.t) (server_name : bytes) (port : Z) (path : bytes) (protocol : option bytes) : result opened :=
  match build_request server_name port path protocol with
  | Err e => Err e
  | Ok request =>
      match send_request request with
      | Err e | Ok (_, Err e) => Err (from_h3_error e)
      | Ok (halves, Ok response) =>
          if negb (resp_status response =? OK_) then Err (HandshakeFailed "server rejected WebSocket upgrade")
          else Ok (CompioHttp2.multiplexed Client config, CompioHttp3Stream.new (fst halves) (snd halves))
      end
  end.

(** [initiated]: whether the connection could be started, or the text of the error. *)
Definition connect_http3_multiplexed (net : Http3Client.Net Send) (initiated : res bytes unit) (c : Http3Config.t) : result Send :=
  if negb (Http3Config.enable_connect_protocol c) then Err ExtendedConnectNotSupported
  else
    match Http3Config.quic_transport_config c, Http3Config.quic_endpoint_config c with
    | Err e, _ | _, Err e => Err e
    | Ok _, Ok _ =>
        if negb (Http3Client.tls net false) then Err (HandshakeFailed "invalid TLS config")
        else
          match Http3Client.udp_bind net, Http3Client.endpoint_new net with
          | Err e, _ | _, Err e => Err (Io e)
          | Ok _, Ok _ =>
              match initiated, Http3Client.established net with
              | Err e, _ | _, Err e => Err (Http3Error e)
              | Ok _, Ok _ => match Http3Client.h3_build net true with Err e => Err (from_h3_error e) | Ok send => Ok send end
              end
          end
    end.
Definition connect_http3 (net : Http3Client.Net Send) (initiated : res bytes unit) (config : Config.t) (c : Http3Config.t) (server_name : bytes) (port : Z) (path : bytes) (protocol : option bytes)
    : result opened :=
  match connect_http3_multiplexed net initiated c with Err e => Err e | Ok send => open_websocket send config server_name port path protocol end.

Definition handle_http3_request (send_response : Response H -> res bytes unit) (halves : S * R) (request : Request H unit) (config : Config.t) (c : Http3Config.t) : Handled H opened :=
  let refuse (status : Z) (reason : option bytes) : Handled H opened :=
    match build_extended_connect_error status reason with None => Connect.Panicked | Some response => Connect.Returned [response] None (Ok tt) end in
  if negb (Http3Config.enable_connect_protocol c) then refuse NOT_IMPLEMENTED (Some (str "Extended CONNECT is disabled"))
  else if negb (bool_decide (method request = CONNECT)) then refuse METHOD_NOT_ALLOWED (Some (str "Expected CONNECT"))
  else
    match ExtendedConnectRequest.from_request request with
    | None => Connect.Returned [] None (Err (HandshakeFailed "invalid CONNECT request"))
    | Some ws_req =>
        let ws_req := Http3Server.or_protocol (Http3Server.protocol_header request) ws_req in
        match ExtendedConnectRequest.validate ws_req with
        | Err status => refuse status None
        | Ok _ =>
            match build_extended_connect_response None None with
            | None => Connect.Panicked
            | Some response =>
                match send_response response with
                | Err e => Connect.Returned [response] None (Err (from_h3_error e))
                | Ok _ => Connect.Returned [response] (Some ((CompioHttp2.multiplexed Server config, CompioHttp3Stream.new (fst halves) (snd halves)), ws_req)) (Ok tt)
                end
            end
        end
    end.
End Http3.

(** What [accept] of a connection gives: a request, one that cannot be resolved, with its error, or the end or an error of the connection. *)
Inductive Accepted (Q : Type) := Resolved (q : Q) | Unresolved (e : bytes) | Ended.
Arguments Resolved {Q}. Arguments Unresolved {Q}. Arguments Ended {Q}.

Fixpoint connection_loop {Q X : Type} (handle : Q -> X) (accepted : list (Accepted Q)) : list X * result unit :=
  match accepted with
  | [] | Ended :: _ => ([], Ok tt)
  | Unresolved e :: _ => ([], Err (from_h3_error e))
  | Resolved q :: accepted => let '(tasks, r) := connection_loop handle accepted in (handle q :: tasks, r)
  end.
Definition handle_http3_connection {Q X : Type} (incoming : res bytes unit) (build : bool -> res bytes (list (Accepted Q))) (handle : Q -> X) (c : Http3Config.t) : list X * result unit :=
  match incoming with
  | Err e => ([], Err (Http3Error e))
  | Ok _ => match build (Http3Config.enable_connect_protocol c) with Err e => ([], Err (from_h3_error e)) | Ok accepted => connection_loop handle accepted end
  end.
Definition serve {Q X : Type} (c : Http3Config.t) (handle : Q -> X) (incoming : list Q) : list X * result unit :=
  match Http3Config.validate_config c with Err e => ([], Err e) | Ok _ => (map handle incoming, Ok tt) end.
Definition bind `{Http3Config.Quinn} (tls : Z -> bool) (udp_bind endpoint_new : res IoError unit) (c : Http3Config.t) : result (Http3Config.QuicTransport * Http3Config.QuicEndpoint) :=
  match Http3Config.quic_transport_config c, Http3Config.quic_endpoint_config c with
  | Err e, _ | _, Err e => Err e
  | Ok transport, Ok endpoint =>
      if negb (tls 0) then Err (HandshakeFailed "invalid TLS config")
      else match udp_bind, endpoint_new with Err e, _ | _, Err e => Err (Io e) | Ok _, Ok _ => Ok (transport, endpoint) end
  end.
End CompioHttp3.

(** ** The streams *)

Lemma copy_into_spec room src : 0 < room -> src <> [] -> let n := Z.min room (len src) in copy_into_compio_buf room src = (upto n src, from n src) /\ 0 < n <= len src.
Proof.
  intros Hroom Hs n. unfold copy_into_compio_buf. assert (Hl : 0 < len src) by (destruct src; [done|rewrite len_cons; pose proof (len_nonneg src); lia]).
  rewrite Z.min_comm. fold n. assert (Hn : 0 < n <= len src) by (subst n; lia). destruct (Z.eqb_spec n 0); [lia|]. split; [|done]. f_equal.
  destruct (Z.eqb_spec n (len src)); [|done]. by rewrite from_ge by lia.
Qed.

Section H2.
Context {S R : Type} `{H2Send S} `{H2Recv R}.
Implicit Types s : Http2Stream.t S R.

(** A read on compio is the read of [Http2Stream], but that one which would wait yields when it is cancelled; nothing has been taken out of the stream then. *)
Theorem compio_h2_read_equivalent fuel cancelled room s : 0 <= room -> CompioHttp2Stream.read fuel cancelled room s =
  (fun x => (fst x, match snd x with Pending => if cancelled then Ready (Err poll_read_cancelled) else Pending | r => r end)) <$> Http2Stream.poll_read fuel room s.
Proof.
  intros Hroom. unfold CompioHttp2Stream.read, Http2Stream.poll_read. destruct (Z.eqb_spec room 0); [done|]. case_bool_decide as Hb; cbn [negb].
  2:{ destruct (copy_into_spec room (Http2Stream.recv_buf s) ltac:(lia) Hb) as [-> Hn]. cbn. do 3 f_equal. destruct (Z.eqb_spec (Z.min room (len (Http2Stream.recv_buf s))) (len (Http2Stream.recv_buf s))); [|done].
      by rewrite from_ge by lia. }
  destruct (Http2Stream.recv_eof s) eqn:Ee; [done|]. revert s Hb Ee. induction fuel as [|fuel IH]; intros s Hb Ee; [done|]. cbn [CompioHttp2Stream.poll_nonempty Http2Stream.read_loop].
  destruct (poll_data (Http2Stream.recv s)) as [r [|[[data|e]|]]] eqn:Ep; [by destruct cancelled| |done|done]. case_bool_decide as Hd.
  - specialize (IH (Http2Stream.set_recv r s) Hb Ee). exact IH.
  - cbn. destruct (copy_into_spec room data ltac:(lia) Hd) as [-> Hn]. cbn. do 2 f_equal. destruct (Z.ltb_spec (Z.min room (len data)) (len data)); [done|].
    rewrite from_ge by lia. destruct s. cbn in *. by subst.
Qed.
End H2.

(** A write hands over a prefix of what it is given, which is what it reports; before that nothing. *)
Theorem compio_h2_write_exact {S R : Type} `{H2SendSpec S} (s : Http2Stream.t S R) buf :
  sent (Http2Stream.send (fst (CompioHttp2Stream.write_start s buf))) = sent (Http2Stream.send s) /\
  let '(s', r) := CompioHttp2Stream.write_poll s buf in
  sent (Http2Stream.send s') = sent (Http2Stream.send s) ++ match r with Ready (Ok n) => upto n buf | _ => [] end /\ match r with Ready (Ok n) => 0 <= n <= len buf | _ => True end.
Proof.
  split; [unfold CompioHttp2Stream.write_start; repeat case_match; try done; apply reserve_capacity_sent|].
  unfold CompioHttp2Stream.write_poll. destruct (poll_capacity_spec (Http2Stream.send s)) as [Es Hn]. destruct (poll_capacity (Http2Stream.send s)) as [x [|[[n|e]|]]]; cbn in *; rewrite ?app_nil_r; try done.
  pose proof (send_data_sent x (upto (Z.min n (len buf)) buf) false) as Hd. destruct (send_data _ _ _) as [x' [u|e]]; cbn in *; rewrite Hd, Es; [|done]. pose proof (len_nonneg buf). split; [done|lia].
Qed.

Section H3.
Context {S F R : Type} `{H3SendSpec S F} `{H3RecvSpec R} `{H3Cancel S F R} (connection_aborted : IoErrorKind).
Import CompioHttp3Stream.
Implicit Types s : t S F R.
Abbreviation aborted := (aborted connection_aborted).

(** The bytes a future or the idle half has handed to h3. *)
Definition handed_to s : bytes := match sending s with inl stream => handed stream | inr f => handed_by f end.

(** A request stream of h3 on compio: every byte that h3 hands out is returned once and in order, whatever room reads have and however many of them are cancelled; a write hands its whole buffer
    to h3 once and reports it when h3 has taken it.  After a write that was dropped every operation fails with the same error and leaves h3 alone. *)
Theorem compio_h3_stream_exact s cancelled room buf : 0 <= room ->
  (let '(s', r) := read connection_aborted cancelled room s in
   sending s' = sending s /\ exists news, received (recv s') = received (recv s) ++ news /\ recv_buf s ++ news = match r with Ready (Ok data) => data | _ => [] end ++ recv_buf s') /\
  (forall stream, sending s = inl stream -> write_cancelled s = false -> buf <> [] ->
    exists s', write_start connection_aborted s buf = (s', None) /\ handed_to s' = handed stream ++ buf /\ recv s' = recv s /\ recv_buf s' = recv_buf s) /\
  (let '(s', r) := write_poll s buf in handed_to s' = handed_to s /\ recv s' = recv s /\ recv_buf s' = recv_buf s /\ match r with Ready (Ok n) => n = len buf | _ => True end) /\
  (forall f, sending s = inr f -> let s' := write_drop s in
    write_cancelled s' = true /\ read connection_aborted cancelled room s' = (s', Ready (Err aborted)) /\ write_start connection_aborted s' buf = (s', Some (Err aborted)) /\
    flush connection_aborted s' = (s', Err aborted) /\ shutdown_start connection_aborted s' = (s', Some (Err aborted))).
Proof.
  intros Hroom. split_and!.
  - unfold read. destruct (write_cancelled s); [split; [done|]; exists []; by rewrite !app_nil_r|]. destruct (Z.eqb_spec room 0); [split; [done|]; exists []; by rewrite !app_nil_r|]. case_bool_decide as Hb; cbn [negb].
    + pose proof (h3_recv_spec (recv s)) as Hr. destruct (poll_recv_data (recv s)) as [r [|[[data|]|e]]]; cbn; destruct Hr as [_ Hr].
      * destruct cancelled; cbn; (split; [done|]; exists []; rewrite !app_nil_r, Hr, Hb; done).
      * destruct Hr as (_ & _ & Hr). destruct (decide (data = [])) as [->|Hd].
        { unfold copy_into_compio_buf. rewrite Z.min_l by (rewrite len_nil; lia). cbn. split; [done|]. exists []. rewrite Hb. by split. }
        destruct (copy_into_spec room data ltac:(lia) Hd) as [-> Hn]. cbn. split; [done|]. exists data. by rewrite Hr, Hb, upto_from.
      * split; [done|]. exists []. by rewrite app_nil_r, Hr, Hb.
      * split; [done|]. exists []. by rewrite app_nil_r, Hr, Hb.
    + destruct (copy_into_spec room (recv_buf s) ltac:(lia) Hb) as [-> Hn]. cbn. split; [done|]. exists []. by rewrite !app_nil_r, upto_from.
  - intros stream Es Ec Hb. unfold write_start. rewrite Ec, bool_decide_eq_false_2 by done. unfold start. rewrite Es. eexists. split; [done|]. unfold handed_to. cbn. by destruct (send_data_spec stream buf) as [-> _].
  - unfold write_poll, poll_future, handed_to. destruct (sending s) as [stream|f] eqn:Es; cbn; [by rewrite Es|]. pose proof (h3_poll_spec f) as Hp.
    destruct (h3_poll f) as [f'|[stream [u|e]]]; cbn; destruct Hp as [-> _]; done.
  - intros f Es s'. subst s'. unfold write_drop. rewrite Es. by split_and!.
Qed.
End H3.

(** ** The servers *)

Section Servers.
Context {H : Type} `{HeaderMapSpec H}.

(** The HTTP/2 server on compio answers 405 to other methods and 400 to another version; any other CONNECT request is taken for a WebSocket, whatever its [:protocol], and the
    answer selects no subprotocol. *)
Theorem compio_h2_request_exact {S R : Type} (send_response : Response H -> bool -> res H2Error S) (request : Request H R) config :
  exists response status, resp_status response = status /\ (method request <> CONNECT /\ status = 405 \/ method request = CONNECT /\ ~ version_ok request /\ status = 400 \/ method request = CONNECT /\ version_ok request /\ status = 200) /\
  CompioHttp2.handle_http2_request send_response request config =
    if status =? 200 then
      match send_response response false with
      | Ok send_stream => Connect.Returned [response] (Some ((CompioHttp2.multiplexed Server config, Http2Stream.new send_stream (body request)), read_request (Some (str "websocket")) request)) (Ok tt)
      | Err e => Connect.Returned [response] None (Err (from_h2_error e))
      end
    else Connect.Returned [response] None (Ok tt).
Proof.
  unfold CompioHttp2.handle_http2_request. cbv zeta. rewrite from_request_spec. case_bool_decide as Hm.
  - change (Http2Server.assume_websocket (read_request None request)) with (read_request (Some (str "websocket")) request). unfold ExtendedConnectRequest.validate, version_ok.
    change (ExtendedConnectRequest.is_websocket (read_request (Some (str "websocket")) request)) with true. cbn [negb].
    change (ExtendedConnectRequest.version (read_request _ request)) with (get_header_string (req_headers request) (str "sec-websocket-version")).
    destruct (response_built None None) as (ok & Eok & Hok & _); [done|done|]. rewrite Eok. destruct (error_built BAD_REQUEST None) as (bad & Ebad & Hbad & _); [done|].
    destruct (get_header_string (req_headers request) (str "sec-websocket-version")) as [v|]; [case_bool_decide as Hv; cbn [negb]|].
    + exists ok, 200. split; [done|]. split; [right; right; split_and!; [done|by intros ? [= <-]|done]|]. done.
    + rewrite Ebad. exists bad, 400. split; [done|]. split; [right; left; split_and!; [done| |done]; intros Hx; by apply Hv, Hx|done].
    + exists ok, 200. split; [done|]. split; [right; right; by split_and!|done].
  - destruct (error_built METHOD_NOT_ALLOWED (Some (str "Expected CONNECT"))) as (response & E & Hs & _); [by intros x [= <-]|]. rewrite E. exists response, 405. split; [done|]. split; [by left|done].
Qed.

(** The HTTP/3 server on compio answers every request as the one on tokio. *)
Theorem compio_h3_request_exact {S F R : Type} send_response (halves : S * R) (request : Request H unit) config c :
  exists response status, h3_verdict c request status /\ resp_status response = status /\
  CompioHttp3.handle_http3_request (F := F) send_response halves request config c =
    if status =? 200 then
      match send_response response with
      | Ok _ => Connect.Returned [response] (Some ((CompioHttp2.multiplexed Server config, CompioHttp3Stream.new (fst halves) (snd halves)), h3_read_request request)) (Ok tt)
      | Err e => Connect.Returned [response] None (Err (Http3Error e))
      end
    else Connect.Returned [response] None (Ok tt).
Proof.
  unfold CompioHttp3.handle_http3_request. cbv zeta. rewrite from_request_spec. destruct (Http3Config.enable_connect_protocol c) eqn:Ec; cbn [negb]; cycle 1.
  { destruct (error_built NOT_IMPLEMENTED (Some (str "Extended CONNECT is disabled"))) as (response & E & Hs & _); [by intros x [= <-]|]. rewrite E. exists response, 501. split; [by constructor|done]. }
  case_bool_decide as Hm; cbn [negb]; cycle 1.
  { destruct (error_built METHOD_NOT_ALLOWED (Some (str "Expected CONNECT"))) as (response & E & Hs & _); [by intros x [= <-]|]. rewrite E. exists response, 405. split; [by constructor|done]. }
  change (Http3Server.or_protocol _ _) with (h3_read_request request). destruct (response_built None None) as (ok & Eok & Hok & _); [done|done|].
  destruct (validate_spec request) as [(Hn & Hv & ->)|[(Hn & Hv & ->)|(Hn & ->)]].
  - rewrite Eok. exists ok, 200. split; [by apply verdict_ok|]. split; [done|]. by destruct (send_response ok).
  - destruct (error_built BAD_REQUEST None) as (response & E & Hs & _); [done|]. rewrite E. exists response, 400. split; [by apply verdict_version|done].
  - destruct (error_built NOT_IMPLEMENTED None) as (response & E & Hs & _); [done|]. rewrite E. exists response, 501. split; [by apply verdict_protocol|done].
Qed.
End Servers.

(** A request that cannot be resolved ends the whole connection on compio, with an error; the server on tokio skips it. *)
Theorem compio_h3_unresolved_ends {Q X : Type} (handle : Q -> X) (before after : list Q) e :
  CompioHttp3.connection_loop handle (map CompioHttp3.Resolved before ++ CompioHttp3.Unresolved e :: map CompioHttp3.Resolved after) = (map handle before, Err (Http3Error e)) /\
  Http3Server.connection_loop handle (map Http3Server.Resolved before ++ Http3Server.Unresolved :: map Http3Server.Resolved after) = map handle (before ++ after).
Proof.
  induction before as [|q before [IH1 IH2]]; cbn.
  - split; [done|]. induction after as [|q after IH]; [done|]. cbn. by rewrite IH.
  - rewrite IH1, IH2. done.
Qed.
