(* ===== verification/Axum.v ===== *)
(** * Integration with axum (src/src/axum_integration.rs)

    An extractor that checks the request of an upgrade, the response that performs it, and the socket the handler is given, which is a message stream with or without compression.  The
    parts of a request and the header maps are those of the http crate, as in ExtendedConnect.v; what hyper keeps to hand over the connection is a value of type [U]. *)

From stdpp Require Import base list option strings.
From S2P Require Import Prelude Error Mask Utf8 Frame Protocol Heartbeat Cork Output Stream Deflate Compressed Config WebSocket Split SplitReader CompressedStream.
From S2P Require Import Header Handshake HttpStream ExtendedConnect.

(** ** Strings *)

(** [s.to_ascii_lowercase().contains(token)] *)
Definition contains_ignore_case (token s : bytes) : bool := bool_decide (is_Some (find token (map to_ascii_lowercase s))).
(** [s.split(',').next().unwrap_or("").trim()] *)
Definition first_subprotocol (s : bytes) : bytes := trim (default [] (head (split_on 44 s))).
(** The bytes of a header as the string deflate.rs is given. *)
Definition of_bytes (b : bytes) : string := String.string_of_list_ascii (map (fun x => Ascii.ascii_of_nat (Z.to_nat x)) b).

(** ** The extractor *)

Module WebSocketUpgradeRejection.
Inductive t :=
  | MethodNotGet | MissingUpgradeHeader | InvalidUpgradeHeader | MissingConnectionHeader | InvalidConnectionHeader
  | MissingSecWebSocketKey | MissingSecWebSocketVersion | UnsupportedVersion | MissingUpgrade.

Definition into_response (r : t) : Z * bytes :=
  match r with
  | MethodNotGet => (METHOD_NOT_ALLOWED, str "Method must be GET")
  | MissingUpgradeHeader => (BAD_REQUEST, str "Missing Upgrade header")
  | InvalidUpgradeHeader => (BAD_REQUEST, str "Invalid Upgrade header")
  | MissingConnectionHeader => (BAD_REQUEST, str "Missing Connection header")
  | InvalidConnectionHeader => (BAD_REQUEST, str "Invalid Connection header")
  | MissingSecWebSocketKey => (BAD_REQUEST, str "Missing Sec-WebSocket-Key")
  | MissingSecWebSocketVersion => (BAD_REQUEST, str "Missing Sec-WebSocket-Version")
  | UnsupportedVersion => (BAD_REQUEST, str "Unsupported WebSocket version")
  | MissingUpgrade => (BAD_REQUEST, str "Missing upgrade in request extensions")
  end.
End WebSocketUpgradeRejection.

(** The parts of a request that the extractor looks at. *)
Record Parts (H U : Type) := MkParts { p_method : bytes; p_headers : H; p_on_upgrade : option U }.
Arguments MkParts {H U}. Arguments p_method {H U}. Arguments p_headers {H U}. Arguments p_on_upgrade {H U}.

Module WebSocketUpgrade.
Record t (U : Type) := Mk { key : bytes; protocol : option bytes; extensions : option bytes; config : Config.t; upgrade : U }.
Arguments Mk {U}. Arguments key {U}. Arguments protocol {U}. Arguments extensions {U}. Arguments config {U}. Arguments upgrade {U}.

Section Upgrade.
Context {H U : Type} `{HeaderMap H}.

Definition set_config (c : Config.t) (u : t U) : t U := Mk (key u) (protocol u) (extensions u) c (upgrade u).
Definition max_message_size (size : Z) (u : t U) : t U := set_config (Config.set_max_message_size size (config u)) u.
Definition max_frame_size (size : Z) (u : t U) : t U := set_config (Config.set_max_frame_size size (config u)) u.
Definition write_buffer_size (size : Z) (u : t U) : t U := set_config (Config.set_write_buffer_size size (config u)) u.

(** A header that must be there, with [check] of its value. *)
Definition require {A} (headers : H) (name : bytes) (missing : WebSocketUpgradeRejection.t) (check : bytes -> res WebSocketUpgradeRejection.t A) : res WebSocketUpgradeRejection.t A :=
  match get_header_string headers name with None => Err missing | Some v => check v end.

Definition from_request_parts (parts : Parts H U) : Parts H U * res WebSocketUpgradeRejection.t (t U) :=
  let headers := p_headers parts in
  let checked : res WebSocketUpgradeRejection.t bytes :=
    if negb (bool_decide (p_method parts = str "GET")) then Err WebSocketUpgradeRejection.MethodNotGet else
    require headers (str "upgrade") WebSocketUpgradeRejection.MissingUpgradeHeader (fun upgrade =>
    if negb (contains_ignore_case (str "websocket") upgrade) then Err WebSocketUpgradeRejection.InvalidUpgradeHeader else
    require headers (str "connection") WebSocketUpgradeRejection.MissingConnectionHeader (fun connection =>
    if negb (contains_ignore_case (str "upgrade") connection) then Err WebSocketUpgradeRejection.InvalidConnectionHeader else
    require headers (str "sec-websocket-key") WebSocketUpgradeRejection.MissingSecWebSocketKey (fun key =>
    require headers (str "sec-websocket-version") WebSocketUpgradeRejection.MissingSecWebSocketVersion (fun version =>
    if negb (bool_decide (version = str "13")) then Err WebSocketUpgradeRejection.UnsupportedVersion else Ok key)))) in
  match checked with
  | Err r => (parts, Err r)
  | Ok key =>
      let protocol := first_subprotocol <$> get_header_string headers (str "sec-websocket-protocol") in
      let extensions := get_header_string headers (str "sec-websocket-extensions") in
      let on_upgrade := p_on_upgrade parts in
      let parts := MkParts (p_method parts) headers None in
      match on_upgrade with
      | None => (parts, Err WebSocketUpgradeRejection.MissingUpgrade)
      | Some upgrade => (parts, Ok (Mk key protocol extensions Config.default upgrade))
      end
  end.
End Upgrade.
End WebSocketUpgrade.

(** ** The response *)

Module WebSocketUpgradeResponse.
(** [deflate]: what the handler's closure has captured to make the socket *)
Record t (U : Type) := Mk { accept_key : bytes; protocol : option bytes; extensions : option bytes; config : Config.t; upgrade : U; deflate : option DeflateConfig.t }.
Arguments Mk {U}. Arguments accept_key {U}. Arguments protocol {U}. Arguments extensions {U}. Arguments config {U}. Arguments upgrade {U}. Arguments deflate {U}.

(** The answer is 101 with the headers; [None]: the [unwrap] of the builder panics. *)
Definition into_response {U H : Type} `{HeaderMap H} (r : t U) : option (Response H) :=
  let res := header (Some hm_new) (str "upgrade") (str "websocket") in
  let res := header res (str "connection") (str "Upgrade") in
  let res := header res (str "Sec-WebSocket-Accept") (accept_key r) in
  let res := header_if res (str "Sec-WebSocket-Protocol") (protocol r) in
  let res := header_if res (str "Sec-WebSocket-Extensions") (extensions r) in
  h ← res; Some (MkResponse_ 101 h).
End WebSocketUpgradeResponse.

Section Upgrade.
Context {U : Type} `{Base64, Sha1}.

(** The parameters of permessage-deflate, if it is configured and the client offers it. *)
Definition negotiated_deflate (u : WebSocketUpgrade.t U) : option DeflateNegotiation.t :=
  let c := WebSocketUpgrade.config u in
  server_config ← (match Config.deflate c with Some d => Some d | None => to_deflate_config (Config.compression c) end);
  offers ← WebSocketUpgrade.extensions u;
  negotiate_server_deflate (of_bytes offers) server_config.

Definition on_upgrade (u : WebSocketUpgrade.t U) : WebSocketUpgradeResponse.t U :=
  let negotiated := negotiated_deflate u in
  WebSocketUpgradeResponse.Mk (generate_accept_key (WebSocketUpgrade.key u)) (WebSocketUpgrade.protocol u)
    ((fun n => str (DeflateNegotiation.to_response_header n)) <$> negotiated) (WebSocketUpgrade.config u) (WebSocketUpgrade.upgrade u) (DeflateNegotiation.config <$> negotiated).
End Upgrade.

(** ** The connection *)

(** What hyper hands over, behind a box: all calls are passed on. *)
Module UpgradedStream.
Record t (A : Type) := Mk { inner : A }.
Arguments Mk {A}. Arguments inner {A}.

Definition forward {A R} (f : A -> A * R) (s : t A) : t A * R := let '(a, r) := f (inner s) in (Mk a, r).
#[export] Instance stream {A} `{AsyncStream A} : AsyncStream (t A) := {
  a_is_write_vectored s := a_is_write_vectored (inner s);
  a_poll_read room := forward (a_poll_read room);
  a_poll_write s b := forward (fun a => a_poll_write a b) s;
  a_poll_write_vectored s bufs := forward (fun a => a_poll_write_vectored a bufs) s;
  a_poll_flush := forward a_poll_flush;
  a_poll_shutdown := forward a_poll_shutdown
}.
End UpgradedStream.

(** ** The socket *)

Module WebSocket.
Section Socket.
Context {E D : Type} `{Codec E D}.

Inductive t := Plain (ws : WebSocketStream.t) | Compressed (ws : CompressedWebSocketStream.t E D).

Definition new (c : Config.t) : t := Plain (WebSocketStream.from_raw Server c).
Definition new_compressed (c : Config.t) (d : DeflateConfig.t) : t := Compressed (CompressedWebSocketStream.server c d).
Definition from_tcp (c : Config.t) : t := new c.
(** What the handler is called with once the connection has been handed over. *)
Definition upgraded {U} (r : WebSocketUpgradeResponse.t U) : t :=
  match WebSocketUpgradeResponse.deflate r with
  | Some d => new_compressed (WebSocketUpgradeResponse.config r) d
  | None => new (WebSocketUpgradeResponse.config r)
  end.

Definition is_closed (s : t) : bool :=
  match s with Plain ws => WebSocketStream.is_closed ws | Compressed ws => CompressedWebSocketStream.is_closed ws end.

(** The halves of the stream that is inside, whose handles are wrapped. *)
Definition split (s : t) : State Protocol.t SplitReader.t + State (CompressedWriter.t E) (CompressedSplitReader.t D) :=
  match s with Plain ws => inl (SplitReader.split ws) | Compressed ws => inr (CompressedWebSocketStream.split ws) end.

Section Operations.
Context {T : Type} `{Runtime T} {SU : Simdutf8} (arch : Arch) (slice_addr : bytes -> Z) (fuel : nat).
Definition W : Type := t * T.

(** An operation of the stream that is inside. *)
Definition delegate {A} (plain : WebSocketStream.t * T -> comp (WebSocketStream.t * T) A) (compressed : CompressedWebSocketStream.t E D * T -> comp (CompressedWebSocketStream.t E D * T) A)
    (w : W) : comp W A :=
  match fst w with
  | Plain ws => match plain (ws, snd w) with Done (ws, i) r => Done (Plain ws, i) r | Panic => Panic | NoFuel => NoFuel end
  | Compressed ws => match compressed (ws, snd w) with Done (ws, i) r => Done (Compressed ws, i) r | Panic => Panic | NoFuel => NoFuel end
  end.

Definition poll_next (task : Task) : W -> comp W (poll WebSocketStream.Item) :=
  delegate (WebSocketStream.poll_next arch slice_addr fuel task) (CompressedWebSocketStream.poll_next arch slice_addr fuel task).
Definition poll_ready (task : Task) : W -> comp W (poll (result unit)) :=
  delegate (WebSocketStream.poll_ready task) (CompressedWebSocketStream.poll_ready task).
Definition start_send (item : Message.t) : W -> comp W unit :=
  delegate (fun w => let '(w, r) := WebSocketStream.start_send item w in Done w r) (CompressedWebSocketStream.start_send item).
Definition poll_flush (task : Task) : W -> comp W (poll (result unit)) :=
  delegate (WebSocketStream.poll_flush fuel task) (CompressedWebSocketStream.poll_flush fuel task).
Definition poll_close (task : Task) : W -> comp W (poll (result unit)) :=
  delegate (WebSocketStream.poll_close fuel task) (CompressedWebSocketStream.poll_close fuel task).

(** [close], up to its first await and then one poll of it. *)
Definition close_start (code : Z) (reason : bytes) : W -> comp W (option Z) :=
  delegate (WebSocketStream.close_start code reason) (CompressedWebSocketStream.close_start code reason).
Definition close_poll (stage : WebSocketStream.CloseStage) (timer deadline : Z) : W -> comp W (WebSocketStream.CloseStage * Z * poll (result unit)) :=
  delegate (WebSocketStream.close_poll fuel stage timer deadline) (CompressedWebSocketStream.close_poll fuel stage timer deadline).

(** [send] waits until the sink is ready, and then for the flush; one poll of it. *)
Inductive SendStage := SendReady (msg : Message.t) | SendFlush.
Definition send_poll (task : Task) (stage : SendStage) (w : W) : comp W (SendStage * poll (result unit)) :=
  let flush (w : W) := let! (w, r) := poll_flush task w in Done w (Ok (SendFlush, r)) in
  match stage with
  | SendFlush => flush w
  | SendReady msg =>
      let! (w, r) := poll_ready task w in
      match r with
      | Pending => Done w (Ok (stage, Pending))
      | Ready (Err e) => Done w (Ok (stage, Ready (Err e)))
      | Ready (Ok _) =>
          match start_send msg w with
          | Done w (Ok _) => flush w
          | Done w (Err e) => Done w (Ok (SendFlush, Ready (Err e)))
          | Panic => Panic
          | NoFuel => NoFuel
          end
      end
  end.
(** One poll of [recv]. *)
Definition recv_poll : Task -> W -> comp W (poll WebSocketStream.Item) := poll_next.
End Operations.
End Socket.
End WebSocket.
