(* ===== verification/AxumSpec.v ===== *)
(** * The upgrade of axum: which requests, and what is answered

    [axum_upgrade_exact]: which requests the extractor accepts.  [axum_upgrade_answered]: the response never panics and agrees with the socket the handler gets.  [axum_extractor_differs]: where the extractor
    and the server of handshake.rs disagree.  A message stream over the connection handed over reads and writes what one over the connection does ([upgraded_spec]). *)

From stdpp Require Import base list option strings.
From S2P Require Import Prelude Error Mask Utf8 Frame FrameSpec Protocol Heartbeat Cork Output Stream Deflate Inflate Compressed CompressedSpec DeflateCodec CodecWitness Config WebSocket Split SplitReader CompressedStream.
From S2P Require Import Header Handshake HandshakeSpec RequestSpec HandshakeWitness HttpStream HttpStreamSpec HttpConfig ExtendedConnect Connect ConnectSpec ConnectWitness Axum.

(** ** The extractor *)

Lemma starts_with_spec n s : starts_with n s = true <-> exists b, s = n ++ b.
Proof.
  revert s. induction n as [|x n IH]; intros s; cbn; [by split; [exists s|]|]. destruct s as [|y s]; [by split; [|intros [b E]]|].
  rewrite andb_true_iff, Z.eqb_eq, IH. split; [intros [-> [b ->]]; by exists b|intros [b [= -> ->]]; by split; [|exists b]].
Qed.

Lemma find_spec n s : is_Some (Header.find n s) <-> exists a b, s = a ++ n ++ b.
Proof.
  assert (Hhere : forall s, starts_with n s = true -> exists a b, s = a ++ n ++ b) by (intros s' [b ->]%starts_with_spec; by exists [], b).
  induction s as [|y s IH]; cbn; destruct (starts_with n _) eqn:E; (split; [intros Hf|intros (a & b & Ex)]); try (by apply Hhere); try (by eexists).
  - destruct a; [|done]. assert (starts_with n [] = true) by (apply starts_with_spec; by exists b). congruence.
  - destruct (Header.find n s) as [k|]; [|by destruct Hf]. destruct (proj1 IH ltac:(by eexists)) as (a & b & ->). by exists (y :: a), b.
  - destruct a as [|x a]; [assert (starts_with n (y :: s) = true) by (apply starts_with_spec; by exists b); congruence|].
    injection Ex as -> ->. destruct (proj2 IH ltac:(by exists a, b)) as [k ->]. by eexists.
Qed.

Section Extractor.
Context {H U : Type} `{HeaderMapSpec H}.
Implicit Types parts : Parts H U.

(** [value], in any case, somewhere within the first value of header [name]. *)
Definition mentions (h : H) (name value : bytes) : Prop := exists v a b, get_header_string h name = Some v /\ map to_ascii_lowercase v = a ++ value ++ b.

Lemma mentions_spec (h : H) name value : mentions h name value <-> exists v, get_header_string h name = Some v /\ contains_ignore_case value v = true.
Proof.
  unfold mentions, contains_ignore_case. split.
  - intros (v & a & b & E & Ev). exists v. split; [done|]. apply bool_decide_eq_true_2, find_spec. by exists a, b.
  - intros (v & E & Hc%bool_decide_eq_true_1%find_spec). destruct Hc as (a & b & Ev). by exists v, a, b.
Qed.

(** The requests that are accepted, and what is kept of them. *)
Record accepts parts (u : WebSocketUpgrade.t U) : Prop := {
  accepts_method : p_method parts = str "GET";
  accepts_upgrade : mentions (p_headers parts) (str "upgrade") (str "websocket");
  accepts_connection : mentions (p_headers parts) (str "connection") (str "upgrade");
  accepts_key : get_header_string (p_headers parts) (str "sec-websocket-key") = Some (WebSocketUpgrade.key u);
  accepts_version : get_header_string (p_headers parts) (str "sec-websocket-version") = Some (str "13");
  accepts_protocol : WebSocketUpgrade.protocol u = first_subprotocol <$> get_header_string (p_headers parts) (str "sec-websocket-protocol");
  accepts_extensions : WebSocketUpgrade.extensions u = get_header_string (p_headers parts) (str "sec-websocket-extensions");
  accepts_config : WebSocketUpgrade.config u = Config.default;
  accepts_on_upgrade : p_on_upgrade parts = Some (WebSocketUpgrade.upgrade u) }.

Ltac rejected := split_and!; [done|done| |done]; intros u [Hmethod Hup Hconn Hkey Hversion _ _ _ Hon]; cbn [p_method p_headers p_on_upgrade] in *.
Ltac mentioned := repeat match goal with Hx : mentions _ _ _ |- _ => apply mentions_spec in Hx as (? & ? & ?) end; congruence.

Lemma from_request_accepts parts :
  let '(parts', r) := WebSocketUpgrade.from_request_parts parts in
  p_method parts' = p_method parts /\ p_headers parts' = p_headers parts /\
  match r with
  | Ok u => accepts parts u /\ p_on_upgrade parts' = None
  | Err e => (forall u, ~ accepts parts u) /\ fst (WebSocketUpgradeRejection.into_response e) = (if bool_decide (p_method parts = str "GET") then 400 else 405)
  end.
Proof.
  destruct parts as [m h on_up]. unfold WebSocketUpgrade.from_request_parts, WebSocketUpgrade.require. cbn [p_method p_headers p_on_upgrade].
  case_bool_decide as Hm; cbn [negb]; [|rejected; done].
  destruct (get_header_string h (str "upgrade")) as [up|] eqn:Eu; [|rejected; mentioned].
  destruct (contains_ignore_case (str "websocket") up) eqn:Cu; cbn [negb]; [|rejected; mentioned].
  destruct (get_header_string h (str "connection")) as [conn|] eqn:Ec; [|rejected; mentioned].
  destruct (contains_ignore_case (str "upgrade") conn) eqn:Cc; cbn [negb]; [|rejected; mentioned].
  destruct (get_header_string h (str "sec-websocket-key")) as [key|] eqn:Ek; [|rejected; congruence].
  destruct (get_header_string h (str "sec-websocket-version")) as [v|] eqn:Ev; [|rejected; congruence].
  case_bool_decide as Hv; cbn [negb]; [|rejected; congruence].
  destruct on_up as [x|]; [|rejected; congruence]. split_and!; try done. subst v. split; cbn; try done; apply mentions_spec; by eexists.
Qed.

(** [C36] The extractor for axum accepts exactly the GET requests whose first Upgrade and Connection headers contain "websocket" and "upgrade" in any case and anywhere, with a key,
    version 13 and a connection that can be handed over, which it takes out of the request; it keeps the key, the first subprotocol offered and the extensions.  Any other request is
    rejected, with status 405 for the method and 400 otherwise. *)
Theorem axum_upgrade_exact parts :
  let '(parts', r) := WebSocketUpgrade.from_request_parts parts in
  p_method parts' = p_method parts /\ p_headers parts' = p_headers parts /\
  match r with
  | Ok u => accepts parts u /\ p_on_upgrade parts' = None
  | Err e => (forall u, ~ accepts parts u) /\ fst (WebSocketUpgradeRejection.into_response e) = (if bool_decide (p_method parts = str "GET") then 400 else 405)
  end.
Proof. apply from_request_accepts. Qed.
End Extractor.

(** ** The response *)

Lemma split_on_sub (P : Z -> Prop) c s : Forall P s -> Forall (Forall P) (split_on c s).
Proof.
  induction 1 as [|b s Hb Hs IH]; cbn; [by repeat constructor|]. destruct (b =? c); [by constructor|].
  destruct (split_on_cons c s) as (x & r & E). rewrite E in *. apply Forall_cons in IH as [Hx Hr]. by repeat constructor.
Qed.
Lemma trim_by_sub (P : Z -> Prop) spaces fuel : forall s, Forall P s -> Forall P (trim_by spaces fuel s).
Proof. induction fuel as [|fuel IH]; intros s Hs; cbn; [done|]. destruct (List.find _ spaces); [|done]. by apply IH, Forall_drop. Qed.
Lemma trim_sub (P : Z -> Prop) s : Forall P s -> Forall P (trim s).
Proof. intros Hs. unfold trim. apply Forall_reverse, trim_by_sub, Forall_reverse. by apply trim_by_sub. Qed.

Lemma first_subprotocol_visible s : forallb is_visible s = true -> forallb is_visible (first_subprotocol s) = true.
Proof.
  intros Hs%forallb_Forall_true. apply forallb_Forall_true. unfold first_subprotocol. apply trim_sub. apply (split_on_sub _ 44) in Hs.
  destruct (split_on_cons 44 s) as (x & r & E). rewrite E in *. by apply Forall_cons in Hs as [Hx _].
Qed.

(** The finitely many answers can be sent. *)
Lemma all_answers_visible : Forall (fun f => Forall (fun g => Forall (fun s => Forall (fun c => forallb is_visible (str (Deflate.response_header (DeflateConfig.Mk Bits15 Bits15 f g 0 0) s c)) = true)
  all_limits) all_limits) all_bools) all_bools.
Proof. rewrite <- (bool_decide_spec (Forall _ _)). vm_compute. exact I. Qed.
Lemma answer_visible c sb cb : limit_ok sb -> limit_ok cb -> forallb is_visible (str (Deflate.response_header c sb cb)) = true.
Proof.
  intros Hs%limit_listed Hc%limit_listed. destruct c as [? ? f g ? ?].
  pose proof all_answers_visible as H1. rewrite Forall_forall in H1. specialize (H1 f (bool_listed f)).
  rewrite Forall_forall in H1. specialize (H1 g (bool_listed g)). rewrite Forall_forall in H1. specialize (H1 sb Hs).
  rewrite Forall_forall in H1. exact (H1 cb Hc).
Qed.
Lemma negotiated_visible offers policy n : negotiate_server_deflate offers policy = Some n -> forallb is_visible (str (DeflateNegotiation.to_response_header n)) = true.
Proof.
  intros En. pose proof (negotiation_picks_first_acceptable offers policy) as Hn. rewrite En in Hn. destruct Hn as (_ & e & _ & o & _ & _ & Er & Hacc & Hag).
  destruct (agreed_limits policy o n (read_offer_ok e o Er) Hacc Hag) as [Hls Hlc]. by apply answer_visible.
Qed.

Section Response.
Context {H U : Type} `{HeaderMapSpec H} `{Base64, Sha1, !Base64Spec} {E D : Type} `{Codec E D}.
Implicit Types u : WebSocketUpgrade.t U.

Lemma into_response_ok (r : WebSocketUpgradeResponse.t U) :
  forallb is_visible (WebSocketUpgradeResponse.accept_key r) = true ->
  (forall x, WebSocketUpgradeResponse.protocol r = Some x -> forallb is_visible x = true) -> (forall x, WebSocketUpgradeResponse.extensions r = Some x -> forallb is_visible x = true) ->
  exists response : Response H, WebSocketUpgradeResponse.into_response r = Some response /\ resp_status response = 101 /\
    hm_get (resp_headers response) (str "upgrade") = Some (str "websocket") /\ hm_get (resp_headers response) (str "connection") = Some (str "Upgrade") /\
    hm_get (resp_headers response) (str "sec-websocket-accept") = Some (WebSocketUpgradeResponse.accept_key r) /\
    hm_get (resp_headers response) (str "sec-websocket-protocol") = WebSocketUpgradeResponse.protocol r /\
    hm_get (resp_headers response) (str "sec-websocket-extensions") = WebSocketUpgradeResponse.extensions r.
Proof.
  intros Ha Hp He. unfold WebSocketUpgradeResponse.into_response.
  destruct (header_some (hm_new : H) (str "upgrade") (str "websocket")) as (h1 & E1 & L1 & G1); [rewrite hm_len_new; lia|done|done|]. rewrite hm_len_new in L1.
  destruct (header_some h1 (str "connection") (str "Upgrade")) as (h2 & E2 & L2 & G2); [lia|done|done|].
  destruct (header_some h2 (str "Sec-WebSocket-Accept") (WebSocketUpgradeResponse.accept_key r)) as (h3 & E3 & L3 & G3); [lia|done|done|].
  destruct (header_if_some h3 (str "Sec-WebSocket-Protocol") (WebSocketUpgradeResponse.protocol r)) as (h4 & E4 & L4 & G4); [lia|done|done|].
  destruct (header_if_some h4 (str "Sec-WebSocket-Extensions") (WebSocketUpgradeResponse.extensions r)) as (h5 & E5 & L5 & G5); [lia|done|done|].
  rewrite E1, E2, E3, E4, E5. eexists. split; [done|]. cbn [resp_status resp_headers]. split; [done|].
  rewrite !G5, !G4, !G3, !G2, !G1 by done. cbn. rewrite !hm_get_new. by split_and!.
Qed.

Lemma of_bytes_str x : of_bytes (str x) = x.
Proof.
  unfold of_bytes, str. rewrite map_map. transitivity (String.string_of_list_ascii (String.list_ascii_of_string x)); [|apply String.string_of_list_ascii_of_string].
  f_equal. rewrite <- (map_id (String.list_ascii_of_string x)) at 2. apply map_ext. intros a. rewrite Nat2Z.id. apply Ascii.ascii_nat_embedding.
Qed.

Lemma accept_visible key : forallb is_visible (generate_accept_key key) = true.
Proof. apply forallb_Forall_true. eapply Forall_impl; [apply accept_range|]. cbn beta. unfold is_visible. intros b Hb. lia. Qed.

(** [d] and what the client reads from the answer agree; the client only fails where its window would have 8 bits. *)
Definition same_parameters (d : DeflateConfig.t) (ps : params) : Prop :=
  match config_from_params ps with
  | Ok d' => DeflateConfig.server_max_window_bits d' = DeflateConfig.server_max_window_bits d /\ DeflateConfig.client_max_window_bits d' = DeflateConfig.client_max_window_bits d /\
      DeflateConfig.server_no_context_takeover d' = DeflateConfig.server_no_context_takeover d /\ DeflateConfig.client_no_context_takeover d' = DeflateConfig.client_no_context_takeover d
  | Err e => e = HandshakeFailed "unsupported client_max_window_bits value"
  end.

(** The upgrade of an accepted request, with any configuration: the response is built without a panic, has status 101 and the accept key the client expects, and names the first
    subprotocol offered.  The socket the handler is given compresses exactly if the response has an extension header, and then with the parameters that the crate's own reader finds in that header. *)
Theorem axum_upgrade_answered (parts parts' : Parts H U) u c : WebSocketUpgrade.from_request_parts parts = (parts', Ok u) ->
  let r := on_upgrade (WebSocketUpgrade.set_config c u) in
  exists response : Response H, WebSocketUpgradeResponse.into_response r = Some response /\ resp_status response = 101 /\
    hm_get (resp_headers response) (str "upgrade") = Some (str "websocket") /\ hm_get (resp_headers response) (str "connection") = Some (str "Upgrade") /\
    (exists accept, hm_get (resp_headers response) (str "sec-websocket-accept") = Some accept /\ validate_accept_key (WebSocketUpgrade.key u) accept = true) /\
    hm_get (resp_headers response) (str "sec-websocket-protocol") = first_subprotocol <$> get_header_string (p_headers parts) (str "sec-websocket-protocol") /\
    match hm_get (resp_headers response) (str "sec-websocket-extensions") with
    | None => WebSocket.upgraded r = WebSocket.Plain (WebSocketStream.from_raw Server c)
    | Some answer => exists d ps, WebSocket.upgraded (E := E) (D := D) r = WebSocket.Compressed (CompressedWebSocketStream.server c d) /\ parse_deflate_offer (of_bytes answer) = Some ps /\
        same_parameters d ps
    end.
Proof.
  intros Eu r. pose proof (from_request_accepts parts) as Hx. rewrite Eu in Hx. destruct Hx as (_ & _ & Hx & _).
  destruct (into_response_ok r) as (response & E1 & Es & Eup & Ec & Ea & Ep & Ee); [apply accept_visible| | |].
  - cbn. rewrite (accepts_protocol _ _ Hx). intros x [v [Ev ->]]%fmap_Some. by eapply first_subprotocol_visible, header_string_visible.
  - cbn. intros x [n [En ->]]%fmap_Some. unfold negotiated_deflate in En. apply bind_Some in En as (? & _ & En). apply bind_Some in En as (? & _ & En). by eapply negotiated_visible.
  - exists response. split_and!; try done.
    + eexists. split; [exact Ea|]. by apply bool_decide_eq_true_2.
    + rewrite Ep. cbn. apply (accepts_protocol _ _ Hx).
    + rewrite Ee. unfold WebSocket.upgraded, r, on_upgrade. cbv zeta. cbn [WebSocketUpgradeResponse.extensions WebSocketUpgradeResponse.deflate WebSocketUpgradeResponse.config].
      destruct (negotiated_deflate _) as [n|] eqn:En; cbn [fmap option_fmap option_map]; [|done]. unfold negotiated_deflate in En.
      apply bind_Some in En as (policy & _ & En). apply bind_Some in En as (offers & _ & En). destruct (negotiated_endpoints_agree _ _ _ En) as (ps & Eps & Hps).
      exists (DeflateNegotiation.config n), ps. split; [done|]. rewrite of_bytes_str. split; [done|]. unfold same_parameters. destruct (config_from_params ps); [done|]. by destruct Hps.
Qed.
End Response.

(** ** The connection handed over *)

Section Upgraded.
Context {A : Type} `{AsyncStreamSpec A}.
Import UpgradedStream.

Definition upgraded_view : View (UpgradedStream.t A) :=
  MkView (fun s => good view (inner s)) (fun s => reserve view (inner s)) (fun s => source view (inner s)) (fun s => kept view (inner s)) (fun s => put view (inner s)).

#[export] Instance upgraded_spec : AsyncStreamSpec (UpgradedStream.t A).
Proof.
  refine {| view := upgraded_view |}; cbn; unfold forward.
  - intros s. apply good_kept.
  - intros s b. pose proof (a_write_some (inner s) b) as Hw. by destruct (a_poll_write (inner s) b).
  - intros s bs. pose proof (a_write_vectored_some (inner s) bs) as Hw. by destruct (a_poll_write_vectored (inner s) bs).
  - intros room s Hroom Hs. pose proof (a_read_some room (inner s) Hroom Hs) as Hr. by destruct (a_poll_read room (inner s)).
  - intros s. pose proof (a_flush_some (inner s)) as Hf. by destruct (a_poll_flush (inner s)).
  - intros s. pose proof (a_shutdown_some (inner s)) as Hf. by destruct (a_poll_shutdown (inner s)).
Defined.
End Upgraded.

(** ** Concrete requests *)

#[local] Existing Instance simple_httparse.

Definition axum_parts (fields : HeaderList) : Parts HeaderList unit := MkParts (str "GET") fields (Some tt).
Definition chat_fields : HeaderList :=
  [(str "upgrade", str "websocket"); (str "connection", str "keep-alive, Upgrade"); (str "sec-websocket-key", the_key); (str "sec-websocket-version", str "13");
   (str "sec-websocket-protocol", str "chat, superchat"); (str "sec-websocket-extensions", str "permessage-deflate; client_max_window_bits")].
Definition shared_config : Config.t := Config.set_compression Shared Config.default.

Definition answer_text : string := "permessage-deflate; server_no_context_takeover; client_no_context_takeover".

(** The head of a request with these fields, as handshake.rs is given it. *)
Definition request_head (fields : HeaderList) : bytes :=
  str "GET /chat HTTP/1.1" ++ [13; 10] ++ str "host: example.com" ++ [13; 10] ++ concat (map (fun f => fst f ++ str ": " ++ snd f ++ [13; 10]) fields) ++ [13; 10].

(** Where the extractor and [parse_request] differ: an Upgrade that is not websocket and a key of five letters are accepted; a Connection header on two lines, which is one list, is rejected; and
    where the list of subprotocols begins with a comma, the response selects an empty one. *)
Theorem axum_extractor_differs :
  let loose := [(str "upgrade", str "not-websocket2"); (str "connection", str "no-upgrade"); (str "sec-websocket-key", str "short"); (str "sec-websocket-version", str "13")] in
  let two_lines := [(str "upgrade", str "websocket"); (str "connection", str "keep-alive"); (str "connection", str "Upgrade"); (str "sec-websocket-key", the_key); (str "sec-websocket-version", str "13")] in
  let comma := [(str "upgrade", str "websocket"); (str "connection", str "Upgrade"); (str "sec-websocket-key", the_key); (str "sec-websocket-version", str "13"); (str "sec-websocket-protocol", str ", chat")] in
  (match snd (WebSocketUpgrade.from_request_parts (axum_parts loose)) with Ok _ => True | Err _ => False end /\ match parse_request (request_head loose) with Err _ => True | Ok _ => False end) /\
  (snd (WebSocketUpgrade.from_request_parts (axum_parts two_lines)) = Err WebSocketUpgradeRejection.InvalidConnectionHeader /\
   match parse_request (request_head two_lines) with Ok (Some _) => True | _ => False end) /\
  match snd (WebSocketUpgrade.from_request_parts (axum_parts comma)) with
  | Ok u => exists response : Response HeaderList, WebSocketUpgradeResponse.into_response (on_upgrade u) = Some response /\ hm_get (resp_headers response) (str "sec-websocket-protocol") = Some []
  | Err _ => False
  end.
Proof. vm_compute. split; [done|]. split; [done|]. by eexists. Qed.

Lemma axum_upgrade_answered_witness : exists u response ps,
  WebSocketUpgrade.from_request_parts (axum_parts chat_fields) = (MkParts (str "GET") chat_fields None, Ok u) /\
  WebSocketUpgradeResponse.into_response (on_upgrade (WebSocketUpgrade.set_config shared_config u)) = Some response /\ resp_status response = 101 /\
  hm_get (resp_headers response) (str "sec-websocket-protocol") = Some (str "chat") /\
  hm_get (resp_headers response) (str "sec-websocket-extensions") = Some (str answer_text) /\ parse_deflate_offer answer_text = Some ps.
Proof.
  destruct (snd (WebSocketUpgrade.from_request_parts (axum_parts chat_fields))) as [u|e] eqn:Eu; [|vm_compute in Eu; discriminate].
  assert (Ep : WebSocketUpgrade.from_request_parts (axum_parts chat_fields) = (MkParts (str "GET") chat_fields None, Ok u)).
  { rewrite (surjective_pairing (WebSocketUpgrade.from_request_parts _)), Eu. reflexivity. }
  destruct (axum_upgrade_answered (E := DeflateEncoder.t (option bytes)) (D := DeflateDecoder inflater) (axum_parts chat_fields) (MkParts (str "GET") chat_fields None) u shared_config Ep) as (response & Er & Es & _ & _ & _ & Epr & Ex).
  assert (Ea : hm_get (resp_headers response) (str "sec-websocket-extensions") = Some (str answer_text)).
  { vm_compute in Ep. injection Ep as <-. vm_compute in Er. injection Er as <-. by vm_compute. }
  rewrite Ea in Ex. destruct Ex as (d & ps & _ & Eps & _). rewrite of_bytes_str in Eps. exists u, response, ps. split_and!; try done.
Defined.
